(* ===== verification/_CoqProject ===== *)
-Q . S2P
Prelude.v
Frame.v
Crc32c.v
JsText.v
Records.v
Recovery.v
Json.v
SideEffects.v
Acks.v
Snapshot.v
Effects.v
StreamRecords.v
Delivery.v
DeliveryText.v
DeliveryEffects.v
Controls.v
Stream.v
StreamInputs.v
StreamFlow.v
Wire.v
Multiplexer.v
MuxSafety.v
JsMap.v
RpcValues.v
CallTables.v
EventStream.v
RpcFrame.v
RpcSender.v
RpcLink.v
PendingCalls.v
DuplexRequests.v
IncomingCalls.v
Peer.v
IncomingSafety.v
PeerSafety.v
PeerStreams.v
PeerRuns.v
SessionMerge.v
SessionMergeSpec.v
GitGraph.v
GitGraphSpec.v
SessionClient.v
SessionClientSpec.v
JsRecord.v
PaneIdentity.v
PaneLayout.v
PaneLayoutSpec.v
PaneManager.v
PaneManagerSpec.v
PaneReplay.v
PaneSync.v
OutputSequence.v
ReplyQueries.v
OutputRestore.v
OutputRestoreSpec.v
OutputRestoreRuns.v
KeySyntax.v
KeyMatching.v
KeyDefinitions.v
KeyConflicts.v
KeyConflictsSpec.v
ShellCommand.v
AgentConfig.v
AgentLaunch.v
AgentResume.v
AgentLaunchSpec.v
PollRunner.v
GitRefresh.v
TabModel.v
TabStore.v
TabActions.v
TabReconcile.v
TabLaws.v
TabInvariant.v
TabRepair.v
TabSafety.v
TabSpec.v
TabDrop.v
TabReturn.v
TabSettle.v
