(* ===== verification/Prelude.v ===== *)
(** * AgentStart: the runtime protocol, the terminal multiplex stack, and what the client
    keeps and shows

    AgentStart runs coding agents in the worktrees of a daemon (apps/daemon, in Rust) and
    shows them in web, desktop and extension clients, written in TypeScript.  This
    development models the TypeScript code of the connection between them, from bytes to
    what the terminal view is given, and the parts of the client that decide what a user
    sees and keeps: the session document, the panes of a terminal tab, the restoration of
    hidden output, the tabs and their groups, the keyboard shortcuts, the commands that start
    agents, the pacing of refreshes and the layout of the commit graph.  Paths below are relative to src/packages/; [T] is
    protocol/typescript/src/terminal/multiplex, [P] is protocol/typescript/src, [K] is
    client/src/runtime/terminal-multiplex.

    ** The parts and how they interact

    _Terminal multiplex_.  One connection carries the terminals of a host.  Bytes from the
    transport are frames ([Frame.v], T/frame.ts), whose payloads are fixed records
    ([Records.v]: T/flow-records.ts, connection-records.ts, snapshot-records.ts) or strict
    JSON ([Json.v], T/json.ts; [StreamRecords.v], T/stream-records.ts; [SideEffects.v],
    T/side-effects.ts).  [Wire.v] (K/connection/wire.ts) owns the epoch handshake, the
    heartbeats and the dispatch by epoch; [Multiplexer.v] (K/multiplexer.ts, registry.ts)
    owns the connection attempts and the streams and carries out the effects of both.  A
    stream ([Stream.v], K/stream/stream.ts) is a control sender ([Controls.v],
    K/stream/control-sender.ts) and a delivery ([Delivery.v], K/delivery/delivery.ts).  The
    delivery runs the recovery reducer ([Recovery.v], T/recovery.ts, host-recovery.ts), the
    snapshot assembler ([Snapshot.v], K/snapshot/snapshot.ts, manual.ts; [Crc32c.v],
    T/crc32c.ts), the acknowledgements and the ordered events ([Acks.v], K/delivery/ack.ts,
    ordered-events.ts) and the text decoder ([JsText.v], K/delivery/output-text-decoder.ts).

    _Runtime protocol_.  Calls between a client and the daemon, in both directions, over one
    peer ([Peer.v], P/peer.ts with handshake.ts, call-state.ts, stream-calls.ts,
    incoming-payload.ts, incoming-frame.ts).  Its state is made of the pending calls
    ([PendingCalls.v], P/pending-calls.ts), the call ids and the cancelled calls
    ([CallTables.v]), the streams ([EventStream.v], P/event-stream.ts), the duplex requests
    ([DuplexRequests.v]), the reverse calls ([IncomingCalls.v], P/incoming-calls.ts), the
    sender ([RpcSender.v], P/frame-sender.ts) and the receiver ([RpcFrame.v],
    P/frame-codec.ts, frame-receiver.ts); [RpcValues.v] holds statuses, limits and
    admission checks (P/peer-values.ts, error.ts, call-destination.ts).

    _Session documents_.  [SessionMerge.v] is the three-way merge a client saves its session
    with (client/src/runtime/session-document: merge.ts, session-field-ownership.ts).
    [SessionClient.v] is the client of a host's document (client.ts, the bases of
    authoritative-base.ts): writes, the chain of saves with their retries, failures and
    confirmations, reads, and the snapshots of a watched document.

    _Terminal panes_.  [PaneIdentity.v] has the keys and the leaf ids of panes
    (P/terminal/pane-identity.ts; client/src/terminal-pane/pane-manager:
    mint-stable-pane-id.ts, pane-identity-registry.ts), [PaneLayout.v] the stored layouts
    (client/src/terminal-pane: terminal-layout-leaf-ids.ts, terminal-layout-leaf-detach.ts,
    merge-captured-leaf-state.ts) over records with string keys ([JsRecord.v]), and
    [PaneManager.v] the tree of panes of a tab with its operations, the replay of a stored
    layout and the synchronisation with the layout of the host (the files its header lists).

    _Hidden output_.  The output of a terminal that is not shown is not drawn; it is restored
    from a snapshot when the terminal is shown again (client/src/terminal-pane/pty).
    [OutputSequence.v] has the sequence numbers of output and the queue of what arrives
    meanwhile (ordered-output-sequence.ts, hidden-output-restore-queue.ts), [ReplyQueries.v]
    the queries programs send, which are answered although nothing is drawn
    (client/src/terminal: reply-query-extraction.ts, osc-color-reply.ts;
    hidden-renderer-query.ts), and [OutputRestore.v] the controller with its runs, timers
    and replays, and the delivery of output around it (hidden-output-restore-*.ts,
    hidden-output-snapshot-replay.ts, output-delivery.ts).

    _Tab groups_ (client/src/tab-bar/state).  The tabs of a worktree are in groups, the leaves
    of a layout of splits.  [TabModel.v] has the data and the functions on layouts, orders and
    recent tabs (model.ts, group-state.ts, split-drop-no-op.ts), [TabStore.v] the state of the
    store, with the fields of other stores it reads, and what the shell shows
    (active-surface.ts, slice.ts), [TabActions.v] the actions (the files named -actions.ts; the
    tabs' part of client/src/terminal/state: close-actions.ts, removal.ts) and
    [TabReconcile.v] the repair of tabs and terminals that do not match
    (reconciliation-actions.ts; terminal/state/orphan-state.ts).

    _Keyboard shortcuts_ (P/keybindings).  [KeySyntax.v] parses a shortcut and has its normal
    form (syntax.ts, normalization.ts), [KeyMatching.v] the key a press names, what matches
    it and what is recorded from it (input.ts, matching.ts), [KeyDefinitions.v] the actions
    (definition-1.ts to definition-4.ts, definitions.ts) and [KeyConflicts.v] the shortcuts
    in effect under the overrides of a user, which actions a press fires, the texts shown
    and the conflicts reported (effective.ts, conflict-identity.ts, format.ts).

    _Agent launch_ (P/agent).  [ShellCommand.v] reads and quotes command lines for three
    shells (shell-command.ts), [AgentConfig.v] has the agents and the options of their
    sessions (launch/config.ts, session-options), [AgentLaunch.v] the command that starts an
    agent with a prompt (launch: command.ts, startup.ts, resume-config.ts,
    draft-platform-limit.ts, hermes-startup-query.ts) and [AgentResume.v] the sessions that
    are accepted and the command that resumes one (session-resume.ts, resume-startup.ts).

    _Refresh pacing_ (client/src/workspace-panel).  [PollRunner.v] spaces the runs of a polled
    task (coalesced-poll-runner.ts), [GitRefresh.v] the scans of git status, after changes and
    for safety (git-status-refresh-scheduler.ts); their timers are due times in the state.

    _Commit graph_.  [GitGraph.v] assigns commits to lanes and draws the parent links
    (client/src/workspace-panel/git-graph: layout.ts, the edges of layout-path.ts, the
    paging of state.ts).

    ** How the code is modelled

    A class with state is a record, each method one definition.  Pure code is functions;
    stateful code is the state, output and exception monad of [Effects.v], where a thrown
    error keeps what was done before it.  What a method does to the outside (sending,
    settling a promise, a callback, a timer) is an effect in its output, in order, carried
    out by the definition that models the owner of the object.  An async method is cut at
    its awaits; each part is an event, and a run of the whole is a list of events, so that
    every interleaving of frames, timers, aborts and settled promises is a run.  Promises,
    abort signals and closures are named by numbers; what a closure captured is in its
    event.

    Integers the code keeps within a width are [Z] with the checks or the wrap-around of
    the code; bit operators on 32 bits are written out ([Crc32c.v]); JavaScript numbers
    that are not integers are binary64 ([spec_float]); strings are lists of UTF-16 code
    units ([JsText.v]); a [Map] is a list in insertion order ([JsMap.v]).

    Third-party code is a parameter: the zod schemas ([StreamSchemas]), the protobuf
    runtime ([FrameBinary], with its round trip as [FrameBinaryLaws]), the transport's
    answers, the clocks, the source of random ids (the class [Minting]: the first [limit]
    of them are valid and distinct), the case mappings of Unicode text ([CaseMapping], which
    [CaseMappingLaws] fixes on ASCII).  Object identity, which the merge compares with [===], is the
    parameter [identical], which implies equality.

    ** What the theorems show

    - Codecs: decoding inverts encoding and accepts only canonical bytes, for frames and
      records; JSON values survive printing and parsing and the parser ends; the CRC is its
      bit-serial reference and detects bursts.
    - Terminal: what is given to the terminal view is the UTF-8 text of contiguous ranges of
      the host's output, whatever the frame boundaries, repetitions and gaps; acknowledged
      is the parsed prefix; snapshots are exact; input stays in the window the host granted
      and each input promise settles once; frames of another epoch reach no stream; every
      subscription is released; the recovery reducer stays in its invariant and answers
      each snapshot once.
    - Runtime protocol: every unary call settles exactly once, at the latest when the peer
      closes; the byte budgets are the sums over the live calls; reverse calls end once
      and closing leaves none;
      frames arrive in the order of their batches; streams are read in order.
    - Session merge: an edit of one side survives (but in the fields an owner decides), a reported conflict is one, a forced
      merge succeeds, merged items keep the order of the side that moved them.
    - Session document: the edit written last stays pending until it is saved; what is saved
      keeps the changes of both sides; a save makes at most three requests.
    - Terminal panes: in every sequence of calls the panes of a manager are the elements it
      shows, with ids of their own; stored layouts are normalised once and divided in two
      when a pane leaves; replaying one rebuilds its tree; closing a pane is removing its
      leaf; following the host ends with the host's tree, panes that were there kept.
    - Hidden output: each byte of numbered output is shown once, from the snapshot or after it;
      the queries found do not depend on how the output is cut, while an unfinished one is
      within the limit; while the terminal is visible a
      restoration is always under way when one is needed; only snapshots of the process
      shown are drawn; a run asks for three snapshots at most.
    - Tab groups: in every sequence of allowed actions ([allowed] in [TabSpec.v]) each tab is in
      the order of its one group, a group with tabs shows one, and the layout has each group
      once; a dropped tab goes where it is dropped and a drop refused as a no-op is one, up to
      the ratios of splits; closing the tab activated last goes back to the one activated
      before; reconciling leaves nothing to reconcile.
    - Keyboard shortcuts: a normal form is normal; a press matches what was recorded from it
      (but for punctuation made with AltGr); a conflict is reported for every two actions of
      a group that one press fires once a user customized one of them (but for the numeric
      pad), and every reported conflict has such a press.
    - Agent launch: the words a shell reads in a command line are the command, the options, the
      words typed and the prompt as one; a POSIX shell finds nothing to interpret in a
      prompt, an argument or an option; a resumed session is named by an id that is no option.
    - Refresh pacing: a scan or a polled task starts alone and after its gap; each signal is
      followed by one, in the time its gap allows, unless a pause drops it.
    - Commit graph: for commits listed before their parents the layout ends, has each
      commit and each parent link once, and its lines meet the commits.

    Proofs about a component are in its file or in the files that follow it: [StreamInputs],
    [StreamFlow] (Stream), [DeliveryText], [DeliveryEffects] (Delivery), [MuxSafety]
    (Multiplexer), [RpcLink] (sender and receiver together), [IncomingSafety] (reverse
    calls), [PeerSafety], [PeerStreams], [PeerRuns] (Peer), [SessionMergeSpec],
    [SessionClientSpec], [GitGraphSpec], [PaneLayoutSpec], [PaneManagerSpec], [PaneReplay]
    (replay and closing), [PaneSync] (following the host), [OutputRestoreSpec] (the control
    state of a restoration), [OutputRestoreRuns] (its rounds and snapshots) and
    [KeyConflictsSpec], [AgentLaunchSpec], and for the tabs [TabLaws] (lists and layouts),
    [TabInvariant] (the invariant of a worktree), [TabRepair] (reconciling keeps it),
    [TabSafety] (the whole store), [TabSpec] (its runs), [TabDrop], [TabReturn] (closing) and
    [TabSettle] (reconciling).  Defects the model showed are lemmas too: a repeated rejection that
    rewinds the input sequence too far, a parse report counted across a rebase, a connect
    promise dropped on reconnection, a batch given up with its sequence numbers, a
    write during a save that reverts another client's change, a layout that never ends,
    remote output shown twice after a restoration, a colour query lost at a chunk boundary,
    output erased by a replay that begins after it was given up, a recorded shortcut that
    never fires, a clash on the numeric pad that is not reported, a backtick that is lost in
    PowerShell, a drop that leaves another group active than the one on show, unread flags
    that outlive their tab.

    ** Fuel

    The JSON parser takes fuel from the length of its text, which is proved enough, and the
    acknowledgements follow at most as many completed chunks as there are.  The
    merge of session documents recurses at most 66 levels ([merge_levels_enough]): the
    source stops at a path of 65 keys.  Looking for an id nobody has takes at most one try
    more than there are ids in use ([mint_fuel]).  The scans of [ReplyQueries.v] take the length of
    their text: each step consumes at least one unit.  The loop of the commit graph takes [layout_fuel]
    iterations: a step per commit, per lane started and per parent link.  Loops over a
    list or a counter that the code bounds need no fuel.

    ** Not modelled

    The daemon, the CLI and the native clients (Rust, Swift), the generated protobuf
    code, the translations, the styles and the build scripts are outside: other languages,
    generated, or data.  Of the TypeScript client, the views (React components, hooks, DOM
    and canvas work), the stores that hold their state, the value codecs of each RPC method
    (the files named -values.ts and -client.ts: field by field conversions of generated messages) and the
    transports (WebSocket, native messaging, IPC) are not modelled; nor are the SVG path
    texts of the commit graph, the subscription and the projection of the session document
    (session-document: subscription.ts, projection.ts, conflict-copy.ts), the terminals of
    the panes (xterm.js) and their styles, from which a layout is read back, the aliases of
    renamed actions and the file of shortcuts (keybindings/definitions.ts, model.ts), the resizing
    around the replay of a snapshot, and what only observes output.  The runs of the tab store
    start empty: the restoration of its records from a saved session is not modelled.  The schemas of stream
    records are zod's; only the checks the decoders add are modelled.  Stack depth, memory
    and the scheduling of the JavaScript engine, other than the order of its microtasks
    where the peer relies on it, are not modelled. *)

From stdpp Require Import base list list_numbers gmap strings.
From Stdlib Require Import ZArith Lia ZifyBool.

#[global] Open Scope Z_scope.

(** * Bytes and DataView

    A [Uint8Array] is a list of integers in [0, 256).  A [DataView] reads and
    writes unsigned little-endian integers ([true] is passed to every accessor
    of the source).  [setUint8], [setUint16], [setUint32] and [setBigUint64]
    reduce the value modulo the width, as ECMAScript does. *)

Abbreviation bytes := (list Z).

Definition is_byte (b : Z) : Prop := 0 <= b < 256.

Definition bytes_ok (bs : bytes) : Prop := Forall is_byte bs.

#[export] Instance is_byte_dec b : Decision (is_byte b).
Proof. unfold is_byte. apply _. Defined.

#[export] Instance bytes_ok_dec bs : Decision (bytes_ok bs).
Proof. unfold bytes_ok. apply _. Defined.

Definition byteLength (bs : bytes) : Z := Z.of_nat (length bs).

(** Byte number [i] of the integer [v]. *)
Definition byte_at (v : Z) (i : nat) : Z := Z.land (Z.shiftr v (8 * Z.of_nat i)) 255.

Fixpoint le_value (bs : bytes) : Z :=
  match bs with
  | [] => 0
  | b :: rest => b + 256 * le_value rest
  end.

(** [view.getUint<8n>(off, true)]. *)
Definition view_get (n off : nat) (buf : bytes) : Z := le_value (take n (drop off buf)).

(** [view.setUint<8n>(off, v, true)]; every write of the source is inside the
    buffer it allocates. *)
Definition view_set (n off : nat) (v : Z) (buf : bytes) : bytes :=
  imap (fun i b => if decide (off <= i < off + n)%nat then byte_at v (i - off) else b) buf.

(** [buf.set(data, off)]. *)
Definition view_set_bytes (off : nat) (data buf : bytes) : bytes :=
  imap (fun i b => default b (if decide (off <= i)%nat then data !! (i - off)%nat else None)) buf.

(** [new Uint8Array(n)]. *)
Definition new_buffer (n : nat) : bytes := replicate n 0.

Definition U8_MAX : Z := 0xff.
Definition U16_MAX : Z := 0xffff.
Definition U32_MAX : Z := 0xffffffff.
Definition U64_MAX : Z := 0xffffffffffffffff.

Definition is_u16 (z : Z) : Prop := 0 <= z <= U16_MAX.
Definition is_u32 (z : Z) : Prop := 0 <= z <= U32_MAX.
Definition is_u64 (z : Z) : Prop := 0 <= z <= U64_MAX.

(** ** Laws of the views *)

Lemma byte_at_mod v i : byte_at v i = (v / 256 ^ Z.of_nat i) mod 256.
Proof.
  unfold byte_at. rewrite Z.shiftr_div_pow2 by lia.
  change 255 with (Z.ones 8). rewrite Z.land_ones by lia.
  rewrite Z.pow_mul_r by lia. reflexivity.
Qed.

Lemma byte_at_byte v i : is_byte (byte_at v i).
Proof. rewrite byte_at_mod. unfold is_byte. apply Z.mod_pos_bound. lia. Qed.

Lemma byte_at_0 i : byte_at 0 i = 0.
Proof. rewrite byte_at_mod, Z.div_0_l by lia. reflexivity. Qed.

(** The [n] low bytes of [v], least significant first. *)
Definition le_bytes (n : nat) (v : Z) : bytes := byte_at v <$> seq 0 n.

Lemma le_bytes_S n v : le_bytes (S n) v = v mod 256 :: le_bytes n (v / 256).
Proof.
  unfold le_bytes. rewrite <- cons_seq. cbn [fmap list_fmap]. f_equal.
  - rewrite byte_at_mod. cbn [Z.of_nat]. rewrite Z.pow_0_r, Z.div_1_r. reflexivity.
  - rewrite <- fmap_S_seq, <- list_fmap_compose. apply list_fmap_ext. intros ? i _. cbn.
    rewrite !byte_at_mod, Zdiv.Zdiv_Zdiv by lia. do 2 f_equal.
    rewrite Nat2Z.inj_succ, Z.pow_succ_r by lia. reflexivity.
Qed.

Lemma length_le_bytes n v : length (le_bytes n v) = n.
Proof. unfold le_bytes. by rewrite length_fmap, length_seq. Qed.

Lemma le_value_bytes n v : le_value (le_bytes n v) = v mod 256 ^ Z.of_nat n.
Proof.
  revert v. induction n as [|n IH]; intros v.
  - cbn. rewrite Z.mod_1_r. reflexivity.
  - rewrite le_bytes_S. cbn [le_value]. rewrite IH, Nat2Z.inj_succ, Z.pow_succ_r by lia.
    rewrite Z.rem_mul_r by lia. reflexivity.
Qed.

Lemma le_bytes_ok n v : bytes_ok (le_bytes n v).
Proof. apply Forall_fmap, Forall_forall. intros i _. apply byte_at_byte. Qed.

Lemma le_value_range bs : bytes_ok bs -> 0 <= le_value bs < 256 ^ byteLength bs.
Proof.
  unfold byteLength. induction 1 as [|b bs Hb _ IH]; cbn [le_value length]; [cbn; lia|].
  rewrite Nat2Z.inj_succ, Z.pow_succ_r by lia. unfold is_byte in Hb. lia.
Qed.

Lemma le_bytes_value bs : bytes_ok bs -> le_bytes (length bs) (le_value bs) = bs.
Proof.
  induction 1 as [|b bs Hb _ IH]; [reflexivity|].
  cbn [length le_value]. rewrite le_bytes_S. unfold is_byte in Hb. f_equal.
  - rewrite (Z.mul_comm 256), Z_mod_plus_full. apply Z.mod_small. lia.
  - rewrite (Z.mul_comm 256), Z.div_add by lia. rewrite (Z.div_small b) by lia. exact IH.
Qed.

Lemma lookup_view_set n off v buf i :
  view_set n off v buf !! i =
    (fun b => if decide (off <= i < off + n)%nat then byte_at v (i - off) else b) <$> buf !! i.
Proof. unfold view_set. by rewrite list_lookup_imap. Qed.

Lemma length_view_set n off v buf : length (view_set n off v buf) = length buf.
Proof. unfold view_set. by rewrite length_imap. Qed.

Lemma length_view_set_bytes off data buf : length (view_set_bytes off data buf) = length buf.
Proof. unfold view_set_bytes. by rewrite length_imap. Qed.

Lemma length_new_buffer n : length (new_buffer n) = n.
Proof. unfold new_buffer. by rewrite length_replicate. Qed.

Lemma lookup_view_set_bytes off data buf i :
  view_set_bytes off data buf !! i =
    (fun b => default b (if decide (off <= i)%nat then data !! (i - off)%nat else None))
      <$> buf !! i.
Proof. unfold view_set_bytes. by rewrite list_lookup_imap. Qed.

(** A slice of a buffer: [bytes.slice(off, off + n)]. *)
Definition slice (off n : nat) (buf : bytes) : bytes := take n (drop off buf).

Lemma view_get_slice n off buf : view_get n off buf = le_value (slice off n buf).
Proof. reflexivity. Qed.

Lemma lookup_slice off n (buf : bytes) i :
  slice off n buf !! i = if decide (i < n)%nat then buf !! (off + i)%nat else None.
Proof.
  unfold slice. case_decide.
  - rewrite lookup_take_lt by done. apply lookup_drop.
  - apply lookup_take_ge. lia.
Qed.

Lemma length_slice off n (buf : bytes) :
  (off + n <= length buf)%nat -> length (slice off n buf) = n.
Proof. intros H. unfold slice. rewrite length_take, length_drop. lia. Qed.

Lemma slice_ok off n buf : bytes_ok buf -> bytes_ok (slice off n buf).
Proof. intros H. by apply Forall_take, Forall_drop. Qed.

Lemma slice_view_set_ne n off n' off' v buf :
  (off + n <= off' \/ off' + n' <= off)%nat ->
  slice off n (view_set n' off' v buf) = slice off n buf.
Proof.
  intros H. apply list_eq. intros i. rewrite !lookup_slice. case_decide; [|done].
  rewrite lookup_view_set. destruct (buf !! _); cbn; [|done].
  case_decide; [lia | done].
Qed.

Lemma slice_view_set_eq n off v buf :
  (off + n <= length buf)%nat -> slice off n (view_set n off v buf) = le_bytes n v.
Proof.
  intros H. apply list_eq. intros i. rewrite lookup_slice. unfold le_bytes.
  rewrite list_lookup_fmap. case_decide as Hi.
  - rewrite lookup_view_set, lookup_seq_lt by done.
    destruct (lookup_lt_is_Some_2 buf (off + i)%nat) as [b ->]; [lia|].
    cbn. rewrite decide_True by lia. do 2 f_equal. lia.
  - rewrite (proj2 (lookup_ge_None (seq 0 n) i)); [done | rewrite length_seq; lia].
Qed.

Lemma slice_view_set_bytes_before n off off' data buf :
  (off + n <= off')%nat -> slice off n (view_set_bytes off' data buf) = slice off n buf.
Proof.
  intros H. apply list_eq. intros i. rewrite !lookup_slice. case_decide; [|done].
  rewrite lookup_view_set_bytes. destruct (buf !! _); cbn; [|done].
  by rewrite decide_False by lia.
Qed.

Lemma drop_view_set_bytes off data buf :
  (off + length data = length buf)%nat -> drop off (view_set_bytes off data buf) = data.
Proof.
  intros H. apply list_eq. intros i. rewrite lookup_drop, lookup_view_set_bytes.
  destruct (decide (i < length data)%nat) as [Hi|Hi].
  - destruct (lookup_lt_is_Some_2 buf (off + i)%nat) as [b ->]; [lia|].
    destruct (lookup_lt_is_Some_2 data i Hi) as [d Hd].
    cbn. rewrite decide_True by lia.
    replace (off + i - off)%nat with i by lia. by rewrite Hd.
  - rewrite (proj2 (lookup_ge_None buf _)) by lia.
    by rewrite (proj2 (lookup_ge_None data i)) by lia.
Qed.

Lemma view_get_set_ne n off n' off' v buf :
  (off + n <= off' \/ off' + n' <= off)%nat ->
  view_get n off (view_set n' off' v buf) = view_get n off buf.
Proof. intros H. rewrite !view_get_slice. by rewrite slice_view_set_ne. Qed.

Lemma view_get_set_eq n off v buf :
  (off + n <= length buf)%nat ->
  view_get n off (view_set n off v buf) = v mod 256 ^ Z.of_nat n.
Proof. intros H. rewrite view_get_slice, slice_view_set_eq by done. apply le_value_bytes. Qed.

Lemma view_get_set_bytes n off off' data buf :
  (off + n <= off')%nat -> view_get n off (view_set_bytes off' data buf) = view_get n off buf.
Proof. intros H. rewrite !view_get_slice. by rewrite slice_view_set_bytes_before. Qed.

Lemma view_get_new n off m : view_get n off (new_buffer m) = 0.
Proof.
  unfold view_get, new_buffer. rewrite drop_replicate, take_replicate.
  induction (_ `min` _)%nat as [|k IH]; [done | cbn [replicate le_value]; rewrite IH; lia].
Qed.

Lemma view_get_range n off buf : bytes_ok buf -> 0 <= view_get n off buf < 256 ^ Z.of_nat n.
Proof.
  intros H. pose proof (le_value_range _ (slice_ok off n buf H)) as Hr.
  rewrite view_get_slice. split; [lia|].
  eapply Z.lt_le_trans; [apply Hr|]. apply Z.pow_le_mono_r; [lia|].
  unfold byteLength, slice. rewrite length_take. lia.
Qed.

Lemma view_set_ok n off v buf : bytes_ok buf -> bytes_ok (view_set n off v buf).
Proof.
  intros H. apply Forall_lookup. intros i x. rewrite lookup_view_set.
  destruct (buf !! i) as [b|] eqn:Hb; cbn; [|done]. intros [= <-].
  case_decide; [apply byte_at_byte | by eapply Forall_lookup_1].
Qed.

Lemma view_set_bytes_ok off data buf :
  bytes_ok data -> bytes_ok buf -> bytes_ok (view_set_bytes off data buf).
Proof.
  intros Hd H. apply Forall_lookup. intros i x. rewrite lookup_view_set_bytes.
  destruct (buf !! i) as [b|] eqn:Hb; cbn; [|done]. intros [= <-].
  pose proof (Forall_lookup_1 _ _ _ _ H Hb) as Hb'.
  case_decide; [|exact Hb'].
  destruct (data !! (i - off)%nat) as [d|] eqn:E; cbn; [|exact Hb'].
  exact (Forall_lookup_1 _ _ _ _ Hd E).
Qed.

Lemma new_buffer_ok n : bytes_ok (new_buffer n).
Proof. apply Forall_replicate. unfold is_byte. lia. Qed.

Lemma byteLength_nonneg bs : 0 <= byteLength bs.
Proof. unfold byteLength. lia. Qed.

Lemma byteLength_app a b : byteLength (a ++ b) = byteLength a + byteLength b.
Proof. unfold byteLength. rewrite length_app. lia. Qed.

(** [agree k a b]: two buffers of one length whose first [k] bytes coincide.
    An encoder that writes its fields in increasing offset order, each with the
    value a decoder read there, rebuilds the buffer field by field. *)
Definition agree (k : nat) (a b : bytes) : Prop :=
  length a = length b /\ forall i, (i < k)%nat -> a !! i = b !! i.

Lemma agree_zero a b : length a = length b -> agree 0 a b.
Proof. intros H. split; [done | lia]. Qed.

Lemma agree_full k a b : agree k a b -> (length b <= k)%nat -> a = b.
Proof.
  intros [Hl H] Hk. apply list_eq. intros i. destruct (decide (i < k)%nat) as [Hi|Hi].
  - by apply H.
  - by rewrite !(proj2 (lookup_ge_None _ _)) by lia.
Qed.

Lemma le_bytes_view_get n off b :
  bytes_ok b -> (off + n <= length b)%nat -> le_bytes n (view_get n off b) = slice off n b.
Proof.
  intros Hb Hl. rewrite view_get_slice.
  rewrite <- (le_bytes_value (slice off n b)) at 2 by by apply slice_ok.
  by rewrite length_slice by done.
Qed.

Lemma agree_set n off v a b :
  agree off a b -> bytes_ok b -> (off + n <= length b)%nat -> v = view_get n off b ->
  agree (off + n) (view_set n off v a) b.
Proof.
  intros [Hl H] Hb Hn ->. split; [by rewrite length_view_set|].
  intros i Hi. rewrite lookup_view_set.
  destruct (lookup_lt_is_Some_2 a i) as [x Hx]; [lia|]. rewrite Hx. cbn.
  case_decide as Hc.
  - pose proof (f_equal (fun l => l !! (i - off)%nat) (le_bytes_view_get n off b Hb Hn)) as E.
    cbn beta in E. rewrite lookup_slice, decide_True in E by lia.
    replace (off + (i - off))%nat with i in E by lia. rewrite <- E.
    unfold le_bytes. rewrite list_lookup_fmap, lookup_seq_lt by lia. cbn. do 2 f_equal.
  - rewrite <- Hx. apply H. lia.
Qed.

Lemma agree_set_bytes off d a b :
  agree off a b -> d = drop off b -> (off <= length b)%nat ->
  agree (length b) (view_set_bytes off d a) b.
Proof.
  intros [Hl H] -> Ho. split; [by rewrite length_view_set_bytes|].
  intros i Hi. rewrite lookup_view_set_bytes.
  destruct (lookup_lt_is_Some_2 a i) as [x Hx]; [lia|]. rewrite Hx. cbn.
  case_decide as Hc.
  - rewrite lookup_drop. replace (off + (i - off))%nat with i by lia.
    destruct (lookup_lt_is_Some_2 b i) as [y ->]; [lia | done].
  - cbn. rewrite <- Hx. apply H. lia.
Qed.

#[global] Opaque view_get view_set view_set_bytes new_buffer.

Create HintDb bytes.
#[export] Hint Resolve view_set_ok view_set_bytes_ok new_buffer_ok slice_ok le_bytes_ok : bytes.

(** [view_simpl] evaluates reads of a chain of writes. *)
Ltac view_len :=
  rewrite ?length_view_set, ?length_view_set_bytes, ?length_new_buffer; cbn [length]; lia.

Ltac view_simpl :=
  repeat first
    [ rewrite view_get_set_eq by view_len
    | rewrite view_get_set_ne by lia
    | rewrite view_get_set_bytes by lia
    | rewrite view_get_new ].

(** * Arithmetic at machine width *)

Lemma mod_u8 z : 0 <= z < 256 -> z mod 256 ^ Z.of_nat 1 = z.
Proof. intros. apply Z.mod_small. lia. Qed.

Lemma mod_u16 z : is_u16 z -> z mod 256 ^ Z.of_nat 2 = z.
Proof. unfold is_u16, U16_MAX. intros. apply Z.mod_small. lia. Qed.

Lemma mod_u32 z : is_u32 z -> z mod 256 ^ Z.of_nat 4 = z.
Proof. unfold is_u32, U32_MAX. intros. apply Z.mod_small. lia. Qed.

Lemma mod_u64 z : is_u64 z -> z mod 256 ^ Z.of_nat 8 = z.
Proof. unfold is_u64, U64_MAX. intros. apply Z.mod_small. lia. Qed.

#[export] Instance is_u16_dec z : Decision (is_u16 z).
Proof. unfold is_u16. apply _. Defined.
#[export] Instance is_u32_dec z : Decision (is_u32 z).
Proof. unfold is_u32. apply _. Defined.
#[export] Instance is_u64_dec z : Decision (is_u64 z).
Proof. unfold is_u64. apply _. Defined.

(** Splits boolean guards into arithmetic facts; [destruct_guards] is used after
    a decoder's early return has been ruled out. *)
Ltac bool_prop :=
  repeat match goal with
    | H : _ || _ = false |- _ => apply orb_false_iff in H; destruct H
    | H : _ && _ = true |- _ => apply andb_true_iff in H; destruct H
    | H : negb _ = false |- _ => apply negb_false_iff in H
    | H : negb _ = true |- _ => apply negb_true_iff in H
    | H : (_ =? _) = true |- _ => apply Z.eqb_eq in H
    | H : (_ =? _) = false |- _ => apply Z.eqb_neq in H
    | H : (_ <? _) = true |- _ => apply Z.ltb_lt in H
    | H : (_ <? _) = false |- _ => apply Z.ltb_ge in H
    | H : (_ <=? _) = true |- _ => apply Z.leb_le in H
    | H : (_ <=? _) = false |- _ => apply Z.leb_gt in H
    | H : (_ >? _) = true |- _ => rewrite Z.gtb_ltb in H
    | H : (_ >? _) = false |- _ => rewrite Z.gtb_ltb in H
    | H : (_ >=? _) = true |- _ => rewrite Z.geb_leb in H
    | H : (_ >=? _) = false |- _ => rewrite Z.geb_leb in H
    | H : bool_decide _ = true |- _ => apply bool_decide_eq_true in H
    | H : bool_decide _ = false |- _ => apply bool_decide_eq_false in H
    end.

(** Case analysis on the innermost [if] of the goal or of a hypothesis. *)
Ltac case_if :=
  match goal with
  | |- context [if ?c then _ else _] =>
      lazymatch c with
      | context [if _ then _ else _] => fail
      | _ => let E := fresh "E" in destruct c eqn:E
      end
  end.

Ltac case_if_in H :=
  match type of H with
  | context [if ?c then _ else _] =>
      lazymatch c with
      | context [if _ then _ else _] => fail
      | _ => let E := fresh "E" in destruct c eqn:E
      end
  end.

(** * Folds *)

(** An equation, so that unfolding a fold never unfolds its step. *)
Lemma fold_left_cons {A B} (f : B -> A -> B) a l b :
  fold_left f (a :: l) b = fold_left f l (f b a).
Proof. reflexivity. Qed.

(** A fold simulates another through [h] when each step does. *)
Lemma fold_left_simulates {A B C} (P : A -> Prop) (f : B -> A -> B) (g : C -> A -> C) (h : B -> C) :
  (forall b a, P a -> h (f b a) = g (h b) a) ->
  forall l b, Forall P l -> h (fold_left f l b) = fold_left g l (h b).
Proof.
  intros Hs l b H. revert b. induction H as [|a l Ha _ IH]; intros b; [done|].
  cbn [fold_left]. by rewrite IH, Hs.
Qed.

Lemma fold_left_invariant {A B} (P : A -> Prop) (I : B -> Prop) (f : B -> A -> B) :
  (forall b a, P a -> I b -> I (f b a)) ->
  forall l b, Forall P l -> I b -> I (fold_left f l b).
Proof.
  intros Hs l b H. revert b. induction H as [|a l Ha _ IH]; intros b Hb; [done|].
  cbn [fold_left]. apply IH. auto.
Qed.

Lemma fold_left_injective {A B} (P : A -> Prop) (I : B -> Prop) (f : B -> A -> B) :
  (forall b a, P a -> I b -> I (f b a)) ->
  (forall b b' a, P a -> I b -> I b' -> f b a = f b' a -> b = b') ->
  forall l b b', Forall P l -> I b -> I b' -> fold_left f l b = fold_left f l b' -> b = b'.
Proof.
  intros Hs Hi l b b' H. revert b b'. induction H as [|a l Ha _ IH]; intros b b' Hb Hb'; [done|].
  cbn [fold_left]. intros E. eapply Hi; eauto.
Qed.

(** * Exceptions

    The outcome of code that may throw: the returned value or what was thrown. *)

Inductive outcome (X A : Type) : Type :=
  | Ret (a : A)
  | Exn (x : X).

Arguments Ret {X A} a.
Arguments Exn {X A} x.

Definition is_ret {X A} (r : outcome X A) : bool :=
  match r with Ret _ => true | Exn _ => false end.
