(* ===== verification/Frame.v ===== *)
(** The terminal multiplex frame: a 40-byte little-endian header and a payload
    (packages/protocol/typescript/src/terminal/multiplex/frame.ts).

    Frames on a connection carry a route (a stream id, 0 for the connection
    itself), the epoch of the connection, a sequence number in bytes of terminal
    output and a correlation id.  [decodeTerminalMultiplexFrame] scopes an unknown
    opcode to its stream: it returns an [Error] frame that records the opcode in
    [unsupportedOpcode], which [encodeTerminalMultiplexFrame] refuses.

    Numbers of the source that hold integers are [Z]; [maxFrameBytes] is an
    integer at every call, so its [Math.floor] is the identity. *)

From stdpp Require Import base list.
From Stdlib Require Import ZArith Lia ZifyBool.
From S2P Require Import Prelude.

Definition TERMINAL_MULTIPLEX_HEADER_BYTES : nat := 40.
Definition TERMINAL_MULTIPLEX_DEFAULT_MAX_FRAME_BYTES : Z := 64 * 1024.
Definition TERMINAL_MULTIPLEX_HARD_MAX_FRAME_BYTES : Z := 1024 * 1024.
Definition TERMINAL_MULTIPLEX_KIND : Z := 0x74.
Definition TERMINAL_MULTIPLEX_VERSION : Z := 1.

Inductive TerminalMultiplexOpcode :=
  | Epoch | Heartbeat | Subscribe | Subscribed | Unsubscribe | End_ | Error | Output | Ack
  | Credit | Input | Resize | Resized | ClaimViewport | SnapshotRequest | SnapshotStart
  | SnapshotChunk | SnapshotEnd | VisibilityGate | RevealSnapshot | SideEffectBatch
  | ClearBuffer | ModelRestore | Signal | Kill | Metadata | FitOverride | Driver.

#[export] Instance opcode_eq_dec : EqDecision TerminalMultiplexOpcode.
Proof. solve_decision. Defined.

Definition opcode_value (op : TerminalMultiplexOpcode) : Z :=
  match op with
  | Epoch => 0x01 | Heartbeat => 0x02 | Subscribe => 0x10 | Subscribed => 0x11
  | Unsubscribe => 0x12 | End_ => 0x13 | Error => 0x14 | Output => 0x15 | Ack => 0x16
  | Credit => 0x17 | Input => 0x18 | Resize => 0x19 | Resized => 0x1a
  | ClaimViewport => 0x1b | SnapshotRequest => 0x1c | SnapshotStart => 0x1d
  | SnapshotChunk => 0x1e | SnapshotEnd => 0x1f | VisibilityGate => 0x20
  | RevealSnapshot => 0x21 | SideEffectBatch => 0x22 | ClearBuffer => 0x23
  | ModelRestore => 0x24 | Signal => 0x25 | Kill => 0x26 | Metadata => 0x27
  | FitOverride => 0x28 | Driver => 0x29
  end.

(** [Object.values(TerminalMultiplexOpcode)]. *)
Definition all_opcodes : list TerminalMultiplexOpcode :=
  [ Epoch; Heartbeat; Subscribe; Subscribed; Unsubscribe; End_; Error; Output; Ack; Credit;
    Input; Resize; Resized; ClaimViewport; SnapshotRequest; SnapshotStart; SnapshotChunk;
    SnapshotEnd; VisibilityGate; RevealSnapshot; SideEffectBatch; ClearBuffer; ModelRestore;
    Signal; Kill; Metadata; FitOverride; Driver ].

(** [isTerminalMultiplexOpcode(value)], a type guard: the opcode the value is. *)
Definition isTerminalMultiplexOpcode (value : Z) : option TerminalMultiplexOpcode :=
  List.find (fun op => opcode_value op =? value) all_opcodes.

Definition isTerminalMultiplexControlOpcode (op : TerminalMultiplexOpcode) : bool :=
  match op with Epoch | Heartbeat => true | _ => false end.

Definition isRouteValid (op : TerminalMultiplexOpcode) (routeId : Z) : bool :=
  if isTerminalMultiplexControlOpcode op then routeId =? 0 else routeId >? 0.

Record TerminalMultiplexFrame := mkFrame {
  opcode : TerminalMultiplexOpcode;
  unsupportedOpcode : option Z;
  routeId : Z;
  epoch : Z;
  seq : Z;
  correlationId : Z;
  payload : bytes
}.

(** What [encodeTerminalMultiplexFrame] throws, in the order of its checks. *)
Inductive FrameEncodeError :=
  | InvalidField
  | InvalidOpcode
  | UnsupportedOpcode
  | InvalidRoute
  | PayloadTooLarge.

Definition validateUnsignedInteger (value max : Z) : bool := negb ((value <? 0) || (value >? max)).

Definition validateUnsignedBigInt (value : Z) : bool :=
  negb ((value <? 0) || (value >? 0xffffffffffffffff)).

Definition encodeTerminalMultiplexFrame (frame : TerminalMultiplexFrame)
    : outcome FrameEncodeError bytes :=
  if negb (validateUnsignedInteger (routeId frame) 0xffffffff) then Exn InvalidField else
  if negb (validateUnsignedInteger (correlationId frame) 0xffffffff) then Exn InvalidField else
  if negb (validateUnsignedBigInt (epoch frame)) then Exn InvalidField else
  if negb (validateUnsignedBigInt (seq frame)) then Exn InvalidField else
  match isTerminalMultiplexOpcode (opcode_value (opcode frame)) with
  | None => Exn InvalidOpcode
  | Some _ =>
    match unsupportedOpcode frame with
    | Some _ => Exn UnsupportedOpcode
    | None =>
      if negb (isRouteValid (opcode frame) (routeId frame)) then Exn InvalidRoute else
      if byteLength (payload frame) >? TERMINAL_MULTIPLEX_HARD_MAX_FRAME_BYTES
      then Exn PayloadTooLarge
      else
        let out := new_buffer (TERMINAL_MULTIPLEX_HEADER_BYTES + length (payload frame)) in
        let out := view_set 1 0 TERMINAL_MULTIPLEX_KIND out in
        let out := view_set 1 1 TERMINAL_MULTIPLEX_VERSION out in
        let out := view_set 1 2 (opcode_value (opcode frame)) out in
        let out := view_set 1 3 0 out in
        let out := view_set 2 4 (Z.of_nat TERMINAL_MULTIPLEX_HEADER_BYTES) out in
        let out := view_set 2 6 0 out in
        let out := view_set 4 8 (routeId frame) out in
        let out := view_set 4 12 (byteLength (payload frame)) out in
        let out := view_set 8 16 (epoch frame) out in
        let out := view_set 8 24 (seq frame) out in
        let out := view_set 4 32 (correlationId frame) out in
        let out := view_set 4 36 0 out in
        Ret (view_set_bytes TERMINAL_MULTIPLEX_HEADER_BYTES (payload frame) out)
    end
  end.

Inductive FrameDecodeCode :=
  | invalid_header
  | invalid_length
  | invalid_route
  | unsupported_opcode.

Record TerminalMultiplexFrameDecodeError := mkDecodeError {
  closeCode : Z;
  code : FrameDecodeCode;
  error_opcode : option Z;
  error_routeId : option Z
}.

Definition decodeFailure (closeCode : Z) (code : FrameDecodeCode) (details : option (Z * Z))
    : outcome TerminalMultiplexFrameDecodeError TerminalMultiplexFrame :=
  Exn (mkDecodeError closeCode code (fst <$> details) (snd <$> details)).

(** True when the length is refused. *)
Definition validateTerminalMultiplexPayloadLength (bs : bytes) (payloadBytes maxFrameBytes : Z)
    : bool :=
  let effectiveMax := Z.min (Z.max 0 maxFrameBytes) TERMINAL_MULTIPLEX_HARD_MAX_FRAME_BYTES in
  (payloadBytes >? effectiveMax) ||
  (payloadBytes >? TERMINAL_MULTIPLEX_HARD_MAX_FRAME_BYTES) ||
  negb (byteLength bs =? Z.of_nat TERMINAL_MULTIPLEX_HEADER_BYTES + payloadBytes).

(** The [{ ok: true, frame }] and [{ ok: false, error }] results of the source. *)
Definition decodeTerminalMultiplexFrame (bs : bytes) (maxFrameBytes : Z)
    : outcome TerminalMultiplexFrameDecodeError TerminalMultiplexFrame :=
  if byteLength bs <? Z.of_nat TERMINAL_MULTIPLEX_HEADER_BYTES
  then decodeFailure 1002 invalid_header None else
  if negb (view_get 1 0 bs =? TERMINAL_MULTIPLEX_KIND) ||
     negb (view_get 1 1 bs =? TERMINAL_MULTIPLEX_VERSION) ||
     negb (view_get 1 3 bs =? 0) ||
     negb (view_get 2 4 bs =? Z.of_nat TERMINAL_MULTIPLEX_HEADER_BYTES) ||
     negb (view_get 2 6 bs =? 0) ||
     negb (view_get 4 36 bs =? 0)
  then decodeFailure 1002 invalid_header None else
  let opcodeValue := view_get 1 2 bs in
  let routeId := view_get 4 8 bs in
  let payloadBytes := view_get 4 12 bs in
  match isTerminalMultiplexOpcode opcodeValue with
  | None =>
    if routeId =? 0 then decodeFailure 1002 invalid_route (Some (opcodeValue, routeId)) else
    if validateTerminalMultiplexPayloadLength bs payloadBytes maxFrameBytes
    then decodeFailure 1009 invalid_length (Some (opcodeValue, routeId))
    else Ret (mkFrame Error (Some opcodeValue) routeId (view_get 8 16 bs) (view_get 8 24 bs)
                (view_get 4 32 bs) (drop TERMINAL_MULTIPLEX_HEADER_BYTES bs))
  | Some op =>
    if negb (isRouteValid op routeId)
    then decodeFailure 1002 invalid_route (Some (opcodeValue, routeId)) else
    if validateTerminalMultiplexPayloadLength bs payloadBytes maxFrameBytes
    then decodeFailure 1009 invalid_length (Some (opcodeValue, routeId))
    else Ret (mkFrame op None routeId (view_get 8 16 bs) (view_get 8 24 bs)
                (view_get 4 32 bs) (drop TERMINAL_MULTIPLEX_HEADER_BYTES bs))
  end.

(** ** The frames a peer may send *)

(** The typed values of a frame: what the TypeScript types and the field checks
    of the encoder admit. *)
Definition frame_ok (f : TerminalMultiplexFrame) : Prop :=
  is_u32 (routeId f) /\ is_u32 (correlationId f) /\ is_u64 (epoch f) /\ is_u64 (seq f) /\
  unsupportedOpcode f = None /\ isRouteValid (opcode f) (routeId f) = true /\
  byteLength (payload f) <= TERMINAL_MULTIPLEX_HARD_MAX_FRAME_BYTES.

#[export] Instance frame_ok_dec f : Decision (frame_ok f).
Proof. unfold frame_ok. apply _. Defined.

Lemma isTerminalMultiplexOpcode_value op : isTerminalMultiplexOpcode (opcode_value op) = Some op.
Proof. by destruct op. Qed.

Lemma isTerminalMultiplexOpcode_Some v op :
  isTerminalMultiplexOpcode v = Some op -> opcode_value op = v.
Proof.
  intros H. unfold isTerminalMultiplexOpcode in H.
  apply List.find_some in H as [_ H]. by apply Z.eqb_eq.
Qed.

Lemma opcode_value_range op : 0 <= opcode_value op < 256.
Proof. destruct op; cbn; lia. Qed.

Lemma validateUnsignedInteger_spec v max :
  validateUnsignedInteger v max = true <-> 0 <= v <= max.
Proof. unfold validateUnsignedInteger. split; intros; bool_prop; lia. Qed.

Lemma validateUnsignedBigInt_spec v : validateUnsignedBigInt v = true <-> is_u64 v.
Proof.
  unfold validateUnsignedBigInt, is_u64, U64_MAX. split; intros; bool_prop; lia.
Qed.

(** The bytes the encoder writes once its checks have passed. *)
Definition frame_bytes (f : TerminalMultiplexFrame) : bytes :=
  view_set_bytes 40 (payload f)
    (view_set 4 36 0 (view_set 4 32 (correlationId f) (view_set 8 24 (seq f)
    (view_set 8 16 (epoch f) (view_set 4 12 (byteLength (payload f)) (view_set 4 8 (routeId f)
    (view_set 2 6 0 (view_set 2 4 40 (view_set 1 3 0 (view_set 1 2 (opcode_value (opcode f))
    (view_set 1 1 1 (view_set 1 0 0x74 (new_buffer (40 + length (payload f))))))))))))))).

(** The encoder's guards, decided at once: it returns exactly on [frame_ok]. *)
Lemma encode_spec f bs :
  encodeTerminalMultiplexFrame f = Ret bs <-> frame_ok f /\ bs = frame_bytes f.
Proof.
  unfold encodeTerminalMultiplexFrame, frame_ok, is_u32, U32_MAX.
  rewrite isTerminalMultiplexOpcode_value.
  rewrite <- !validateUnsignedInteger_spec, <- !validateUnsignedBigInt_spec.
  destruct (validateUnsignedInteger (routeId f) _), (validateUnsignedInteger (correlationId f) _),
    (validateUnsignedBigInt (epoch f)), (validateUnsignedBigInt (seq f)); cbn [negb];
    try (split; [discriminate | intros [[? ?] ?]; intuition congruence]).
  destruct (unsupportedOpcode f); [split; [discriminate | intuition congruence]|].
  destruct (isRouteValid _ _); cbn [negb]; [|split; [discriminate | intuition congruence]].
  case_if; bool_prop.
  - split; [discriminate | intuition lia].
  - split; [intros [= <-]; intuition (auto; lia) | intros [_ ->]; reflexivity].
Qed.

Lemma length_frame_bytes f : length (frame_bytes f) = (40 + length (payload f))%nat.
Proof.
  unfold frame_bytes.
  by rewrite length_view_set_bytes, !length_view_set, length_new_buffer.
Qed.

Lemma frame_bytes_payload f : drop 40 (frame_bytes f) = payload f.
Proof.
  unfold frame_bytes. apply drop_view_set_bytes.
  by rewrite !length_view_set, length_new_buffer.
Qed.

Lemma frame_bytes_fields f :
  frame_ok f ->
  view_get 1 0 (frame_bytes f) = 0x74 /\ view_get 1 1 (frame_bytes f) = 1 /\
  view_get 1 2 (frame_bytes f) = opcode_value (opcode f) /\
  view_get 1 3 (frame_bytes f) = 0 /\ view_get 2 4 (frame_bytes f) = 40 /\
  view_get 2 6 (frame_bytes f) = 0 /\ view_get 4 8 (frame_bytes f) = routeId f /\
  view_get 4 12 (frame_bytes f) = byteLength (payload f) /\
  view_get 8 16 (frame_bytes f) = epoch f /\ view_get 8 24 (frame_bytes f) = seq f /\
  view_get 4 32 (frame_bytes f) = correlationId f /\ view_get 4 36 (frame_bytes f) = 0.
Proof.
  intros (Hr & Hc & He & Hs & _ & _ & Hp).
  assert (Hl : is_u32 (byteLength (payload f))).
  { unfold is_u32, U32_MAX, byteLength, TERMINAL_MULTIPLEX_HARD_MAX_FRAME_BYTES in *. lia. }
  pose proof (opcode_value_range (opcode f)) as Ho.
  unfold frame_bytes. repeat split; view_simpl;
    rewrite ?mod_u32, ?mod_u64, ?mod_u8 by (assumption || lia); reflexivity.
Qed.

Lemma frame_bytes_ok f : bytes_ok (payload f) -> bytes_ok (frame_bytes f).
Proof. intros H. unfold frame_bytes. auto 20 with bytes. Qed.

Lemma payload_length_accepted bs n max :
  validateTerminalMultiplexPayloadLength bs n max = false <->
  n <= Z.max 0 max /\ n <= TERMINAL_MULTIPLEX_HARD_MAX_FRAME_BYTES /\ byteLength bs = 40 + n.
Proof.
  unfold validateTerminalMultiplexPayloadLength. change (Z.of_nat _) with 40.
  unfold TERMINAL_MULTIPLEX_HARD_MAX_FRAME_BYTES.
  split; [intros; bool_prop; lia | intros (? & ? & ?); repeat (apply orb_false_iff; split); lia].
Qed.

(** C38. A frame the encoder accepts is decoded to itself by any peer whose
    frame limit admits the payload. *)
Theorem decode_encode f bs max :
  encodeTerminalMultiplexFrame f = Ret bs ->
  byteLength (payload f) <= max ->
  decodeTerminalMultiplexFrame bs max = Ret f.
Proof.
  intros [Hok ->]%encode_spec Hmax.
  pose proof (frame_bytes_fields f Hok) as (H0 & H1 & H2 & H3 & H4 & H6 & H8 & H12 & H16 & H24 & H32 & H36).
  destruct Hok as (_ & _ & _ & _ & Hu & Hroute & Hp).
  assert (Hlen : byteLength (frame_bytes f) = 40 + byteLength (payload f)).
  { unfold byteLength. rewrite length_frame_bytes. lia. }
  pose proof (byteLength_nonneg (payload f)) as Hpos.
  unfold decodeTerminalMultiplexFrame. change (Z.of_nat _) with 40.
  rewrite H0, H1, H3, H4, H6, H36, H2, H8, H12, H16, H24, H32, isTerminalMultiplexOpcode_value.
  cbn [negb orb Z.eqb TERMINAL_MULTIPLEX_KIND TERMINAL_MULTIPLEX_VERSION Pos.eqb].
  rewrite (proj2 (Z.ltb_ge _ _)) by lia. rewrite Hroute. cbn [negb].
  rewrite (proj2 (payload_length_accepted _ _ _)) by lia.
  unfold TERMINAL_MULTIPLEX_HEADER_BYTES. rewrite frame_bytes_payload, <- Hu. by destruct f.
Qed.

Lemma decode_encode_witness :
  decodeTerminalMultiplexFrame
    (frame_bytes (mkFrame Output None 7 3 5 0 [104; 105]))
    TERMINAL_MULTIPLEX_DEFAULT_MAX_FRAME_BYTES =
  Ret (mkFrame Output None 7 3 5 0 [104; 105]).
Proof.
  apply (decode_encode (mkFrame Output None 7 3 5 0 [104; 105])).
  - vm_compute. reflexivity.
  - vm_compute. discriminate.
Defined.

(** What a successful decode says about the bytes. *)
Lemma decode_inv bs max f :
  decodeTerminalMultiplexFrame bs max = Ret f ->
  (40 <= length bs)%nat /\
  view_get 1 0 bs = 0x74 /\ view_get 1 1 bs = 1 /\ view_get 1 3 bs = 0 /\
  view_get 2 4 bs = 40 /\ view_get 2 6 bs = 0 /\ view_get 4 36 bs = 0 /\
  validateTerminalMultiplexPayloadLength bs (view_get 4 12 bs) max = false /\
  routeId f = view_get 4 8 bs /\ epoch f = view_get 8 16 bs /\ seq f = view_get 8 24 bs /\
  correlationId f = view_get 4 32 bs /\ payload f = drop 40 bs /\
  match isTerminalMultiplexOpcode (view_get 1 2 bs) with
  | Some op => opcode f = op /\ unsupportedOpcode f = None /\ isRouteValid op (routeId f) = true
  | None => opcode f = Error /\ unsupportedOpcode f = Some (view_get 1 2 bs) /\ routeId f <> 0
  end.
Proof.
  unfold decodeTerminalMultiplexFrame, decodeFailure. change (Z.of_nat _) with 40. intros H.
  case_if_in H; [discriminate|]. case_if_in H; [discriminate|]. bool_prop.
  unfold byteLength, TERMINAL_MULTIPLEX_KIND, TERMINAL_MULTIPLEX_VERSION in *.
  destruct (isTerminalMultiplexOpcode _) as [op|].
  - destruct (isRouteValid op _) eqn:Hv; [|discriminate]. cbn [negb] in H.
    case_if_in H; [discriminate|]. injection H as <-. cbn. repeat split; auto; lia.
  - case_if_in H; [discriminate|]. case_if_in H; [discriminate|].
    injection H as <-. bool_prop. cbn. repeat split; auto; lia.
Qed.

(** Decoding is canonical: the only bytes that decode to a frame of a known
    opcode are the bytes the encoder produces for it. *)
Theorem encode_decode bs max f :
  bytes_ok bs ->
  decodeTerminalMultiplexFrame bs max = Ret f ->
  unsupportedOpcode f = None ->
  encodeTerminalMultiplexFrame f = Ret bs.
Proof.
  intros Hb H Hu.
  destruct (decode_inv _ _ _ H) as (Hlen & H0 & H1 & H3 & H4 & H6 & H36 & Hpl & Hr & He & Hs & Hc & Hp & Hop).
  apply payload_length_accepted in Hpl as (Hpl1 & Hpl2 & Hpl3).
  destruct (isTerminalMultiplexOpcode _) as [op|] eqn:Eop; [|destruct Hop as (_ & Hop & _); congruence].
  destruct Hop as (Hopc & _ & Hroute). apply isTerminalMultiplexOpcode_Some in Eop.
  assert (Hpay : byteLength (payload f) = view_get 4 12 bs).
  { rewrite Hp. unfold byteLength in *. rewrite length_drop. lia. }
  apply encode_spec. split.
  - unfold frame_ok, is_u32, is_u64, U32_MAX, U64_MAX. rewrite Hr, Hc, He, Hs, Hpay, Hopc, <- Hr.
    pose proof (view_get_range 4 8 bs Hb). pose proof (view_get_range 4 32 bs Hb).
    pose proof (view_get_range 8 16 bs Hb). pose proof (view_get_range 8 24 bs Hb).
    repeat split; auto; lia.
  - symmetry. apply (agree_full (length bs)); [|lia].
    unfold frame_bytes. rewrite Hpay, Hr, He, Hs, Hc, Hp, Hopc, Eop.
    apply (agree_set_bytes 40); [|done|lia].
    apply (agree_set 4 36); [|done|lia|done]. apply (agree_set 4 32); [|done|lia|done].
    apply (agree_set 8 24); [|done|lia|done]. apply (agree_set 8 16); [|done|lia|done].
    apply (agree_set 4 12); [|done|lia|done]. apply (agree_set 4 8); [|done|lia|done].
    apply (agree_set 2 6); [|done|lia|done]. apply (agree_set 2 4); [|done|lia|done].
    apply (agree_set 1 3); [|done|lia|done]. apply (agree_set 1 2); [|done|lia|done].
    apply (agree_set 1 1); [|done|lia|done]. apply (agree_set 1 0); [|done|lia|done].
    apply agree_zero. rewrite length_new_buffer, length_drop. lia.
Qed.

Lemma encode_decode_witness :
  encodeTerminalMultiplexFrame (mkFrame Ack None 2 9 40 0 [1; 2; 3]) =
  Ret (frame_bytes (mkFrame Ack None 2 9 40 0 [1; 2; 3])).
Proof.
  apply (encode_decode _ 100).
  - vm_compute. repeat constructor; discriminate.
  - vm_compute. reflexivity.
  - reflexivity.
Defined.

Ltac close_error H := injection H as <-; cbn; intuition (lia || congruence).

(** Error scoping: the connection is closed with code 1009 only for a length
    the limits refuse and with code 1002 for every other malformed frame; a frame
    with an unknown opcode on a stream route is never a connection error, it is
    delivered to that stream as an unsupported frame the encoder refuses. *)
Theorem decode_failure_scope bs max :
  match decodeTerminalMultiplexFrame bs max with
  | Exn e =>
      (closeCode e = 1009 <-> code e = invalid_length) /\
      (closeCode e = 1002 <-> code e <> invalid_length) /\
      (code e = invalid_length ->
         validateTerminalMultiplexPayloadLength bs (view_get 4 12 bs) max = true)
  | Ret f =>
      match isTerminalMultiplexOpcode (view_get 1 2 bs) with
      | Some op => opcode f = op /\ unsupportedOpcode f = None
      | None => unsupportedOpcode f = Some (view_get 1 2 bs) /\ routeId f <> 0 /\
                is_ret (encodeTerminalMultiplexFrame f) = false
      end
  end.
Proof.
  destruct (decodeTerminalMultiplexFrame bs max) as [f|e] eqn:H.
  - apply decode_inv in H as (_ & _ & _ & _ & _ & _ & _ & _ & _ & _ & _ & _ & _ & H).
    destruct (isTerminalMultiplexOpcode _); [intuition|].
    destruct H as (Ho & Hu & Hr). split_and!; [done | done |].
    destruct (encodeTerminalMultiplexFrame f) eqn:E; [|done].
    apply encode_spec in E as [(_ & _ & _ & _ & E & _) _]. congruence.
  - unfold decodeTerminalMultiplexFrame, decodeFailure in H.
    case_if_in H; [close_error H|]. case_if_in H; [close_error H|].
    destruct (isTerminalMultiplexOpcode _) as [op|].
    all: case_if_in H; [close_error H|]; case_if_in H; [close_error H|discriminate].
Qed.
