(* ===== verification/Crc32c.v ===== *)
(** The CRC-32C of a terminal snapshot
    (packages/protocol/typescript/src/terminal/multiplex/crc32c.ts), with the
    signed 32-bit results of JavaScript's bit operators written out, and its
    reference: the bit-serial reflected CRC over the whole byte string. *)

From stdpp Require Import base list.
From Stdlib Require Import ZArith Lia ZifyBool.
From S2P Require Import Prelude.

(** ** JavaScript's 32-bit operators *)

Definition to_uint32 (z : Z) : Z := z mod 2 ^ 32.

Definition to_int32 (z : Z) : Z :=
  let u := z mod 2 ^ 32 in if u >=? 2 ^ 31 then u - 2 ^ 32 else u.

(** [a >>> n]: the operand is read as unsigned. *)
Definition js_ushr (a : Z) (n : Z) : Z := Z.shiftr (to_uint32 a) n.

(** [a ^ b] and [a & b]: 32-bit two's complement, signed result. *)
Definition js_xor (a b : Z) : Z := to_int32 (Z.lxor (to_uint32 a) (to_uint32 b)).
Definition js_and (a b : Z) : Z := to_int32 (Z.land (to_uint32 a) (to_uint32 b)).

Definition TERMINAL_MULTIPLEX_CRC32C_POLYNOMIAL : Z := 0x82f63b78.

(** The loop body and the loop that computes one table entry. *)
Definition crc_table_bit (value : Z) : Z :=
  if js_and value 1 =? 1
  then js_xor (js_ushr value 1) TERMINAL_MULTIPLEX_CRC32C_POLYNOMIAL
  else js_ushr value 1.

Definition crc_table_entry (byte : Z) : Z :=
  js_ushr (Nat.iter 8 crc_table_bit byte) 0.

Definition CRC32C_TABLE : list Z :=
  Eval vm_compute in crc_table_entry <$> seqZ 0 256.

Definition crc_update (crc byte : Z) : Z :=
  js_xor (js_ushr crc 8)
    (CRC32C_TABLE !!! Z.to_nat (js_and (js_xor crc byte) 0xff)).

Definition terminalMultiplexCrc32c (chunks : list bytes) : Z :=
  js_ushr (js_xor (fold_left (fun crc chunk => fold_left crc_update chunk crc) chunks 0xffffffff)
             0xffffffff) 0.

(** ** Reference: one bit at a time, on unsigned 32-bit words *)

Definition crc_bit (x : Z) : Z :=
  Z.lxor (Z.shiftr x 1) (if Z.testbit x 0 then TERMINAL_MULTIPLEX_CRC32C_POLYNOMIAL else 0).

Definition crc_byte (crc byte : Z) : Z := Nat.iter 8 crc_bit (Z.lxor crc byte).

Definition crc32c_reference (bs : bytes) : Z :=
  Z.lxor (fold_left crc_byte bs 0xffffffff) 0xffffffff.

Example crc_check_value :
  terminalMultiplexCrc32c [[49; 50; 51; 52]; []; [53; 54; 55; 56; 57]] = 0xe3069283.
Proof. vm_compute. reflexivity. Qed.

(** ** 32-bit words *)

Definition is_word (z : Z) : Prop := 0 <= z < 2 ^ 32.

Lemma is_word_bits z : is_word z <-> forall i, 32 <= i \/ i < 0 -> Z.testbit z i = false.
Proof.
  split.
  - intros [Hz Hz'] i [Hi|Hi]; [|by apply Z.testbit_neg_r].
    destruct (decide (z = 0)) as [->|Hn]; [apply Z.bits_0|].
    apply Z.bits_above_log2; [lia|]. apply Z.log2_lt_pow2; [lia|].
    eapply Z.lt_le_trans; [exact Hz'|]. apply Z.pow_le_mono_r; lia.
  - intros H. assert (z = z mod 2 ^ 32) as ->; [|apply Z.mod_pos_bound; lia].
    apply Z.bits_inj'. intros i Hi. destruct (decide (i < 32)).
    + by rewrite Z.mod_pow2_bits_low.
    + rewrite Z.mod_pow2_bits_high by lia. apply H. lia.
Qed.

Lemma to_uint32_word z : is_word (to_uint32 z).
Proof. unfold is_word, to_uint32. apply Z.mod_pos_bound. lia. Qed.

Lemma to_uint32_id z : is_word z -> to_uint32 z = z.
Proof. apply Z.mod_small. Qed.

Lemma to_uint32_int32 z : to_uint32 (to_int32 z) = to_uint32 z.
Proof.
  unfold to_uint32, to_int32. case_if; [|by rewrite Z.mod_mod by lia].
  rewrite <- (Z_mod_plus_full _ 1 (2 ^ 32)), Z.mul_1_l, Z.sub_add. by rewrite Z.mod_mod by lia.
Qed.

Lemma lxor_word a b : is_word a -> is_word b -> is_word (Z.lxor a b).
Proof.
  rewrite !is_word_bits. intros Ha Hb i Hi. by rewrite Z.lxor_spec, Ha, Hb.
Qed.

Lemma shiftr_word a n : 0 <= n -> is_word a -> is_word (Z.shiftr a n).
Proof.
  rewrite !is_word_bits. intros Hn Ha i Hi. destruct (decide (i < 0)).
  - by apply Z.testbit_neg_r.
  - rewrite Z.shiftr_spec by lia. apply Ha. lia.
Qed.

Lemma byte_word b : is_byte b -> is_word b.
Proof. unfold is_byte, is_word. lia. Qed.

(** ** The bit step is linear and invertible *)

Lemma crc_bit_linear a b : crc_bit (Z.lxor a b) = Z.lxor (crc_bit a) (crc_bit b).
Proof.
  unfold crc_bit. rewrite Z.lxor_spec, Z.shiftr_lxor.
  apply Z.bits_inj. intros i. rewrite !Z.lxor_spec.
  destruct (Z.testbit a 0), (Z.testbit b 0); cbn [xorb]; rewrite ?Z.bits_0;
    destruct (Z.testbit (Z.shiftr a 1) i), (Z.testbit (Z.shiftr b 1) i),
      (Z.testbit TERMINAL_MULTIPLEX_CRC32C_POLYNOMIAL i); reflexivity.
Qed.

Lemma iter_crc_bit_linear n a b :
  Nat.iter n crc_bit (Z.lxor a b) = Z.lxor (Nat.iter n crc_bit a) (Nat.iter n crc_bit b).
Proof. induction n as [|n IH]; [done|]. by rewrite !Nat.iter_succ, IH, crc_bit_linear. Qed.

Lemma crc_bit_shiftl y : crc_bit (Z.shiftl y 1) = y.
Proof.
  unfold crc_bit. rewrite Z.shiftl_spec by lia. cbn [Z.sub Z.opp Z.add].
  rewrite Z.testbit_neg_r by lia. rewrite Z.lxor_0_r, Z.shiftr_shiftl_l by lia.
  apply Z.shiftl_0_r.
Qed.

Lemma iter_crc_bit_shiftl n y : Nat.iter n crc_bit (Z.shiftl y (Z.of_nat n)) = y.
Proof.
  induction n as [|n IH] in y |- *; [apply Z.shiftl_0_r|].
  rewrite Nat.iter_succ_r. replace (Z.of_nat (S n)) with (Z.of_nat n + 1) by lia.
  rewrite <- Z.shiftl_shiftl by lia. rewrite crc_bit_shiftl. apply IH.
Qed.

Lemma crc_bit_word x : is_word x -> is_word (crc_bit x).
Proof.
  intros Hx. unfold crc_bit. apply lxor_word; [by apply shiftr_word|].
  case_if; unfold is_word, TERMINAL_MULTIPLEX_CRC32C_POLYNOMIAL; lia.
Qed.

Lemma iter_crc_bit_word n x : is_word x -> is_word (Nat.iter n crc_bit x).
Proof. intros Hx. induction n; [done|]. rewrite Nat.iter_succ. by apply crc_bit_word. Qed.

(** The polynomial has bit 31 set, so the bit shifted out is still visible. *)
Lemma crc_bit_top x : is_word x -> Z.testbit (crc_bit x) 31 = Z.testbit x 0.
Proof.
  intros Hx. unfold crc_bit. rewrite Z.lxor_spec, Z.shiftr_spec by lia.
  rewrite (proj1 (is_word_bits x) Hx (31 + 1)) by lia. by destruct (Z.testbit x 0).
Qed.

Lemma crc_bit_inj x y : is_word x -> is_word y -> crc_bit x = crc_bit y -> x = y.
Proof.
  intros Hx Hy H.
  assert (H0 : Z.testbit x 0 = Z.testbit y 0).
  { by rewrite <- (crc_bit_top x), <- (crc_bit_top y), H. }
  unfold crc_bit in H. rewrite H0 in H.
  apply (f_equal (fun z => Z.lxor z (if Z.testbit y 0
    then TERMINAL_MULTIPLEX_CRC32C_POLYNOMIAL else 0))) in H.
  rewrite !Z.lxor_assoc, !Z.lxor_nilpotent, !Z.lxor_0_r in H.
  apply Z.bits_inj'. intros i Hi. destruct (decide (i = 0)) as [->|Hn]; [done|].
  apply (f_equal (fun z => Z.testbit z (i - 1))) in H.
  rewrite !Z.shiftr_spec in H by lia. by replace (i - 1 + 1) with i in H by lia.
Qed.

Lemma iter_crc_bit_inj n x y :
  is_word x -> is_word y -> Nat.iter n crc_bit x = Nat.iter n crc_bit y -> x = y.
Proof.
  intros Hx Hy. induction n as [|n IH]; [done|]. rewrite !Nat.iter_succ. intros H.
  apply IH, crc_bit_inj; auto using iter_crc_bit_word.
Qed.

(** ** The table step is eight bit steps *)

Lemma table_entries :
  forall b, is_byte b -> CRC32C_TABLE !!! Z.to_nat b = Nat.iter 8 crc_bit b.
Proof.
  assert (H : Forall (fun b => CRC32C_TABLE !!! Z.to_nat b = Nat.iter 8 crc_bit b) (seqZ 0 256)).
  { apply (bool_decide_unpack _). vm_compute. exact I. }
  intros b Hb. rewrite Forall_forall in H. apply H, elem_of_seqZ. unfold is_byte in Hb. lia.
Qed.

Lemma split_low_byte x : x = Z.lxor (Z.land x 255) (Z.shiftl (Z.shiftr x 8) 8).
Proof.
  apply Z.bits_inj'. intros i Hi. rewrite Z.lxor_spec, Z.land_spec, Z.shiftl_spec by lia.
  change 255 with (Z.ones 8). destruct (decide (i < 8)).
  - rewrite Z.ones_spec_low, (Z.testbit_neg_r _ (i - 8)) by lia. by rewrite andb_true_r, xorb_false_r.
  - rewrite Z.ones_spec_high, Z.shiftr_spec by lia. rewrite andb_false_r, xorb_false_l. f_equal. lia.
Qed.

Lemma iter8_split x :
  Nat.iter 8 crc_bit x = Z.lxor (Z.shiftr x 8) (Nat.iter 8 crc_bit (Z.land x 255)).
Proof.
  rewrite (split_low_byte x) at 1. rewrite iter_crc_bit_linear.
  rewrite (iter_crc_bit_shiftl 8). apply Z.lxor_comm.
Qed.

Lemma to_uint32_xor a b : to_uint32 (js_xor a b) = Z.lxor (to_uint32 a) (to_uint32 b).
Proof.
  unfold js_xor. rewrite to_uint32_int32. apply to_uint32_id, lxor_word; apply to_uint32_word.
Qed.

Lemma js_and_255 z : js_and z 0xff = Z.land (to_uint32 z) 255.
Proof.
  unfold js_and. change (to_uint32 0xff) with 255.
  assert (H : 0 <= Z.land (to_uint32 z) 255 < 256).
  { change 255 with (Z.ones 8). rewrite Z.land_ones by lia. apply Z.mod_pos_bound. lia. }
  unfold to_int32. rewrite Z.mod_small by lia.
  case_if; [lia | done].
Qed.

Lemma crc_update_spec crc b :
  is_byte b -> to_uint32 (crc_update crc b) = crc_byte (to_uint32 crc) b.
Proof.
  intros Hb. unfold crc_update, crc_byte. rewrite to_uint32_xor, js_and_255, to_uint32_xor.
  rewrite (to_uint32_id b) by by apply byte_word.
  assert (Hl : is_byte (Z.land (Z.lxor (to_uint32 crc) b) 255)).
  { change 255 with (Z.ones 8). rewrite Z.land_ones by lia. unfold is_byte. apply Z.mod_pos_bound. lia. }
  rewrite table_entries by done.
  rewrite (to_uint32_id (Nat.iter _ _ _)) by by apply iter_crc_bit_word, byte_word.
  rewrite (iter8_split (Z.lxor _ _)). f_equal. unfold js_ushr.
  rewrite to_uint32_id by (apply shiftr_word; [lia | apply to_uint32_word]).
  rewrite Z.shiftr_lxor, (Z.shiftr_div_pow2 b) by lia.
  unfold is_byte in Hb. rewrite (Z.div_small b) by lia. by rewrite Z.lxor_0_r.
Qed.

Lemma crc_fold_spec bs crc :
  bytes_ok bs -> to_uint32 (fold_left crc_update bs crc) = fold_left crc_byte bs (to_uint32 crc).
Proof. apply fold_left_simulates, crc_update_spec. Qed.

Lemma crc_chunks_fold chunks crc :
  fold_left (fun crc chunk => fold_left crc_update chunk crc) chunks crc =
  fold_left crc_update (concat chunks) crc.
Proof.
  induction chunks as [|c cs IH] in crc |- *; [done|]. cbn. by rewrite IH, fold_left_app.
Qed.

(** The table-driven checksum is the bit-serial CRC-32C of the concatenated
    chunks: how a snapshot is cut into sections does not change it. *)
Theorem terminalMultiplexCrc32c_reference chunks :
  bytes_ok (concat chunks) ->
  terminalMultiplexCrc32c chunks = crc32c_reference (concat chunks).
Proof.
  intros H. unfold terminalMultiplexCrc32c, crc32c_reference, js_ushr.
  rewrite Z.shiftr_0_r, to_uint32_xor, crc_chunks_fold, crc_fold_spec by done.
  by rewrite (to_uint32_id 0xffffffff) by (unfold is_word; lia).
Qed.

Lemma terminalMultiplexCrc32c_reference_witness :
  terminalMultiplexCrc32c [[97]; [98; 99]] = crc32c_reference [97; 98; 99].
Proof.
  apply (terminalMultiplexCrc32c_reference [[97]; [98; 99]]).
  repeat constructor; unfold is_byte; lia.
Defined.

(** ** Error detection *)

Lemma le_value_lxor b bs : is_byte b -> le_value (b :: bs) = Z.lxor b (Z.shiftl (le_value bs) 8).
Proof.
  intros Hb. cbn [le_value]. rewrite <- Z.add_nocarry_lxor.
  - rewrite Z.shiftl_mul_pow2 by lia. lia.
  - apply Z.bits_inj'. intros i Hi. rewrite Z.land_spec, Z.shiftl_spec, Z.bits_0 by lia.
    destruct (decide (i < 8)).
    + rewrite (Z.testbit_neg_r _ (i - 8)) by lia. apply andb_false_r.
    + rewrite andb_false_intro1; [done|]. unfold is_byte in Hb.
      destruct (decide (b = 0)) as [->|]; [apply Z.bits_0|].
      apply Z.bits_above_log2; [lia|]. apply Z.log2_lt_pow2; [lia|].
      eapply Z.lt_le_trans; [apply Hb|]. change 256 with (2 ^ 8). apply Z.pow_le_mono_r; lia.
Qed.

Lemma crc_byte_eq crc b : crc_byte crc b = Nat.iter 8 crc_bit (Z.lxor crc b).
Proof. reflexivity. Qed.

Lemma crc_byte_word crc b : is_byte b -> is_word crc -> is_word (crc_byte crc b).
Proof. intros Hb Hc. rewrite crc_byte_eq. apply iter_crc_bit_word, lxor_word; auto using byte_word. Qed.

Lemma crc_byte_inj x y b :
  is_byte b -> is_word x -> is_word y -> crc_byte x b = crc_byte y b -> x = y.
Proof.
  intros Hb Hx Hy E. apply byte_word in Hb as Hw. rewrite !crc_byte_eq in E.
  apply iter_crc_bit_inj in E; [|by apply lxor_word..].
  apply (f_equal (fun z => Z.lxor z b)) in E.
  by rewrite !Z.lxor_assoc, Z.lxor_nilpotent, !Z.lxor_0_r in E.
Qed.

Lemma crc_byte_bits n crc b v :
  Nat.iter n crc_bit (Z.lxor (crc_byte crc b) v) =
  Nat.iter (n + 8) crc_bit (Z.lxor crc (Z.lxor b (Z.shiftl v 8))).
Proof.
  rewrite Nat.iter_add, crc_byte_eq.
  by rewrite <- Z.lxor_assoc, (iter_crc_bit_linear 8 (Z.lxor crc b)), (iter_crc_bit_shiftl 8).
Qed.

Lemma crc_fold_bits bs crc :
  bytes_ok bs ->
  fold_left crc_byte bs crc = Nat.iter (length bs * 8) crc_bit (Z.lxor crc (le_value bs)).
Proof.
  intros H. revert crc. induction H as [|b bs Hb _ IH]; intros crc; [cbn; by rewrite Z.lxor_0_r|].
  rewrite fold_left_cons, IH, le_value_lxor by done. rewrite crc_byte_bits, length_cons.
  by replace (S (length bs) * 8)%nat with (length bs * 8 + 8)%nat by lia.
Qed.

Lemma fold_crc_byte_word bs crc :
  bytes_ok bs -> is_word crc -> is_word (fold_left crc_byte bs crc).
Proof. apply (fold_left_invariant is_byte is_word), crc_byte_word. Qed.

Lemma fold_crc_byte_inj bs x y :
  bytes_ok bs -> is_word x -> is_word y ->
  fold_left crc_byte bs x = fold_left crc_byte bs y -> x = y.
Proof.
  apply (fold_left_injective is_byte is_word).
  - apply crc_byte_word.
  - intros b b' a. apply crc_byte_inj.
Qed.

Lemma le_value_word bs : bytes_ok bs -> (length bs <= 4)%nat -> is_word (le_value bs).
Proof.
  intros Hb Hl. pose proof (le_value_range bs Hb) as [H0 H1]. split; [lia|].
  eapply Z.lt_le_trans; [exact H1|]. change (2 ^ 32) with (256 ^ 4).
  apply Z.pow_le_mono_r; unfold byteLength; lia.
Qed.

Lemma le_value_inj x y :
  bytes_ok x -> bytes_ok y -> length x = length y -> le_value x = le_value y -> x = y.
Proof.
  intros Hx Hy Hl H. rewrite <- (le_bytes_value x), <- (le_bytes_value y) by done. congruence.
Qed.

(** The checksum detects every corruption confined to four consecutive
    bytes: replacing [x] by a different [y] of the same length changes it. *)
Theorem crc_detects_burst before x y after :
  bytes_ok (before ++ x ++ after) -> bytes_ok y ->
  length x = length y -> (length x <= 4)%nat -> x <> y ->
  terminalMultiplexCrc32c [before ++ x ++ after] <> terminalMultiplexCrc32c [before ++ y ++ after].
Proof.
  intros Hx Hy Hl H4 Hne E.
  apply Forall_app in Hx as [Hp Hx]. apply Forall_app in Hx as [Hx Hs].
  assert (Hall : forall z, bytes_ok z -> bytes_ok (concat [before ++ z ++ after])).
  { intros z Hz. cbn. rewrite app_nil_r. by repeat apply Forall_app_2. }
  rewrite !terminalMultiplexCrc32c_reference in E by auto.
  cbn [concat] in E. rewrite !app_nil_r in E. unfold crc32c_reference in E.
  apply (f_equal (fun z => Z.lxor z 0xffffffff)) in E.
  rewrite !Z.lxor_assoc, Z.lxor_nilpotent, !Z.lxor_0_r, !fold_left_app in E.
  assert (Hw : is_word (fold_left crc_byte before 0xffffffff)).
  { apply fold_crc_byte_word; [done | unfold is_word; lia]. }
  revert E Hw. generalize (fold_left crc_byte before 0xffffffff). intros c E Hw.
  apply fold_crc_byte_inj in E; [|auto using fold_crc_byte_word..].
  rewrite !crc_fold_bits, <- Hl in E by done.
  apply iter_crc_bit_inj in E; [|apply lxor_word; [done | apply le_value_word; auto; lia]..].
  apply (f_equal (fun z => Z.lxor c z)) in E.
  rewrite <- !Z.lxor_assoc, Z.lxor_nilpotent, !Z.lxor_0_l in E.
  by apply Hne, le_value_inj.
Qed.

Lemma crc_detects_burst_witness :
  terminalMultiplexCrc32c [[1; 2] ++ [3] ++ [4]] <> terminalMultiplexCrc32c [[1; 2] ++ [9] ++ [4]].
Proof.
  apply (crc_detects_burst [1; 2] [3] [9] [4]);
    [repeat constructor; unfold is_byte; lia.. | done | cbn; lia | done].
Defined.
