(* ===== verification/JsText.v ===== *)
(** JavaScript strings and the two Web platform codecs the source uses:
    [TextEncoder] and the fatal UTF-8 [TextDecoder] (streaming and one-shot).

    A JavaScript string is its list of UTF-16 code units.  The decoder is the
    state machine of the WHATWG Encoding Standard in fatal mode: [None] is the
    [TypeError] it throws; without [ignoreBOM] it drops one byte order mark at
    the start of the stream.
    [TerminalOutputTextDecoder] is the class of
    packages/client/src/runtime/terminal-multiplex/delivery/output-text-decoder.ts. *)

From stdpp Require Import base list.
From Stdlib Require Import ZArith Lia ZifyBool.
From S2P Require Import Prelude.

Abbreviation jsstring := (list Z).

(** ** Code points and UTF-16 *)

Definition is_surrogate (c : Z) : bool := (0xd800 <=? c) && (c <=? 0xdfff).
Definition is_lead (c : Z) : bool := (0xd800 <=? c) && (c <=? 0xdbff).
Definition is_trail (c : Z) : bool := (0xdc00 <=? c) && (c <=? 0xdfff).

Definition is_scalar (c : Z) : Prop := 0 <= c < 0x110000 /\ is_surrogate c = false.

Definition utf16_of (c : Z) : jsstring :=
  if c <? 0x10000 then [c]
  else [0xd800 + (c - 0x10000) / 1024; 0xdc00 + (c - 0x10000) mod 1024].

(** The scalar values of a string; a lone surrogate becomes U+FFFD. *)
Fixpoint scalars_of (s : jsstring) : list Z :=
  match s with
  | [] => []
  | u :: rest =>
      if negb (is_surrogate u) then u :: scalars_of rest
      else match rest with
           | v :: rest' =>
               if is_lead u && is_trail v
               then (0x10000 + (u - 0xd800) * 1024 + (v - 0xdc00)) :: scalars_of rest'
               else 0xfffd :: scalars_of rest
           | [] => [0xfffd]
           end
  end.

(** ** TextEncoder *)

Definition utf8_of (c : Z) : bytes :=
  if c <? 0x80 then [c]
  else if c <? 0x800 then [0xc0 + c / 64; 0x80 + c mod 64]
  else if c <? 0x10000 then [0xe0 + c / 4096; 0x80 + (c / 64) mod 64; 0x80 + c mod 64]
  else [0xf0 + c / 262144; 0x80 + (c / 4096) mod 64; 0x80 + (c / 64) mod 64; 0x80 + c mod 64].

Definition text_encode (s : jsstring) : bytes := concat (utf8_of <$> scalars_of s).

(** ** The UTF-8 decoder *)

Record utf8_state := mkUtf8 {
  u_point : Z;
  u_needed : nat;
  u_lower : Z;
  u_upper : Z
}.

Definition utf8_idle : utf8_state := mkUtf8 0 0 0x80 0xbf.

Definition between (lo x hi : Z) : bool := (lo <=? x) && (x <=? hi).

(** One byte: [None] is a decoding error, [Some (c, s)] emits [c] if any. *)
Definition utf8_step (s : utf8_state) (b : Z) : option (option Z * utf8_state) :=
  match u_needed s with
  | O =>
      if between 0 b 0x7f then Some (Some b, utf8_idle)
      else if between 0xc2 b 0xdf then Some (None, mkUtf8 (b - 0xc0) 1 0x80 0xbf)
      else if between 0xe0 b 0xef then
        Some (None, mkUtf8 (b - 0xe0) 2 (if b =? 0xe0 then 0xa0 else 0x80)
                      (if b =? 0xed then 0x9f else 0xbf))
      else if between 0xf0 b 0xf4 then
        Some (None, mkUtf8 (b - 0xf0) 3 (if b =? 0xf0 then 0x90 else 0x80)
                      (if b =? 0xf4 then 0x8f else 0xbf))
      else None
  | S n =>
      if between (u_lower s) b (u_upper s) then
        let point := u_point s * 64 + (b - 0x80) in
        match n with
        | O => Some (Some point, utf8_idle)
        | S _ => Some (None, mkUtf8 point n 0x80 0xbf)
        end
      else None
  end.

(** A [TextDecoder] object: the decoder and its "BOM seen" flag. *)
Record text_decoder := mkDecoder {
  d_utf8 : utf8_state;
  d_bom_seen : bool
}.

Definition new_decoder : text_decoder := mkDecoder utf8_idle false.

Definition emit (bom_seen : bool) (c : Z) : jsstring :=
  if negb bom_seen && (c =? 0xfeff) then [] else utf16_of c.

(** [decoder.decode(bytes, { stream: true })]. *)
Fixpoint decode_chunk (d : text_decoder) (bs : bytes) : option (jsstring * text_decoder) :=
  match bs with
  | [] => Some ([], d)
  | b :: rest =>
      match utf8_step (d_utf8 d) b with
      | None => None
      | Some (None, s) => decode_chunk (mkDecoder s (d_bom_seen d)) rest
      | Some (Some c, s) =>
          match decode_chunk (mkDecoder s true) rest with
          | None => None
          | Some (text, d') => Some (emit (d_bom_seen d) c ++ text, d')
          end
      end
  end.

(** [new TextDecoder('utf-8', { fatal: true }).decode(bytes)]. *)
Definition text_decode (bs : bytes) : option jsstring :=
  match decode_chunk new_decoder bs with
  | Some (text, d) => match u_needed (d_utf8 d) with O => Some text | S _ => None end
  | None => None
  end.

(** ** output-text-decoder.ts *)

(** [decode(payload)]: the result and the next decoder; malformed input resets it. *)
Definition TerminalOutputTextDecoder_decode (d : text_decoder) (payload : bytes)
    : option jsstring * text_decoder :=
  match decode_chunk d payload with
  | Some (data, d') => (Some data, d')
  | None => (None, new_decoder)
  end.

Definition TerminalOutputTextDecoder_reset : text_decoder := new_decoder.

(** ** Laws *)

(** Frame boundaries are not text boundaries: decoding chunk by chunk is decoding
    the concatenation. *)
Lemma decode_chunk_app d a b :
  decode_chunk d (a ++ b) =
    match decode_chunk d a with
    | None => None
    | Some (t, d') =>
        match decode_chunk d' b with
        | None => None
        | Some (t', d'') => Some (t ++ t', d'')
        end
    end.
Proof.
  induction a as [|x a IH] in d |- *; cbn.
  - destruct (decode_chunk d b) as [[? ?]|]; reflexivity.
  - destruct (utf8_step (d_utf8 d) x) as [[[c|] s]|]; [| |done]; rewrite IH; [|done].
    destruct (decode_chunk _ a) as [[t d']|]; [|done].
    destruct (decode_chunk d' b) as [[t' d'']|]; [|done]. by rewrite app_assoc.
Qed.

Lemma between_true lo x hi : lo <= x <= hi -> between lo x hi = true.
Proof. unfold between. intros. apply andb_true_intro. lia. Qed.

Lemma between_false lo x hi : x < lo \/ hi < x -> between lo x hi = false.
Proof. unfold between. intros. apply andb_false_iff. lia. Qed.

Ltac decide_between :=
  repeat first [rewrite between_true by lia | rewrite between_false by lia].

(** The four ranges of a scalar value, as digits in base 64. *)
Lemma decode_utf8_of bom c rest :
  is_scalar c ->
  decode_chunk (mkDecoder utf8_idle bom) (utf8_of c ++ rest) =
    match decode_chunk (mkDecoder utf8_idle true) rest with
    | None => None
    | Some (text, d) => Some (emit bom c ++ text, d)
    end.
Proof.
  intros [Hr Hs]. unfold is_surrogate in Hs. apply andb_false_iff in Hs.
  assert (Hs' : c < 0xd800 \/ 0xdfff < c) by lia. clear Hs.
  pose proof (Z.div_mod c 64 ltac:(lia)) as E1. pose proof (Z.mod_pos_bound c 64 ltac:(lia)).
  pose proof (Z.div_mod (c / 64) 64 ltac:(lia)) as E2. pose proof (Z.mod_pos_bound (c / 64) 64 ltac:(lia)).
  rewrite Z.div_div in E2 by lia. change (64 * 64) with 4096 in E2.
  pose proof (Z.div_mod (c / 4096) 64 ltac:(lia)) as E3. pose proof (Z.mod_pos_bound (c / 4096) 64 ltac:(lia)).
  rewrite Z.div_div in E3 by lia. change (4096 * 64) with 262144 in E3.
  unfold utf8_of. repeat case_if; bool_prop; cbn [app decode_chunk d_utf8 d_bom_seen].
  - unfold utf8_step at 1. cbn [u_needed utf8_idle]. decide_between. reflexivity.
  - unfold utf8_step at 1. cbn [u_needed utf8_idle]. decide_between.
    unfold utf8_step at 1. cbn [u_needed u_lower u_upper u_point]. decide_between.
    cbn [d_utf8]. do 2 f_equal. replace (_ * 64 + _) with c by lia. reflexivity.
  - unfold utf8_step at 1. cbn [u_needed utf8_idle]. decide_between.
    unfold utf8_step at 1. cbn [u_needed u_lower u_upper u_point].
    rewrite between_true by (repeat case_if; bool_prop; lia).
    unfold utf8_step at 1. cbn [u_needed u_lower u_upper u_point]. decide_between.
    replace (_ * 64 + _) with c by lia. reflexivity.
  - unfold utf8_step at 1. cbn [u_needed utf8_idle]. decide_between.
    unfold utf8_step at 1. cbn [u_needed u_lower u_upper u_point].
    rewrite between_true by (repeat case_if; bool_prop; lia).
    unfold utf8_step at 1. cbn [u_needed u_lower u_upper u_point]. decide_between.
    unfold utf8_step at 1. cbn [u_needed u_lower u_upper u_point]. decide_between.
    replace (_ * 64 + _) with c by lia. reflexivity.
Qed.

Lemma scalars_of_scalar s : Forall is_u16 s -> Forall is_scalar (scalars_of s).
Proof.
  intros H. remember (length s) as n eqn:E. assert (Hn : (length s <= n)%nat) by lia. clear E.
  revert s H Hn. induction n as [|n IH]; intros s H Hn.
  { destruct s; [constructor | cbn in Hn; lia]. }
  destruct H as [|u s Hu Hs]; [constructor|]. cbn [scalars_of length] in *.
  assert (Hrep : is_scalar 0xfffd) by (split; [lia | reflexivity]).
  destruct (is_surrogate u) eqn:Eu; cbn [negb].
  - destruct Hs as [|v s Hv Hs]; [by repeat constructor|].
    destruct (is_lead u && is_trail v) eqn:E.
    + constructor; [|apply IH; [done | cbn in Hn; lia]].
      unfold is_lead, is_trail in E. unfold is_scalar, is_surrogate. bool_prop.
      split; [lia | apply andb_false_iff; lia].
    + constructor; [done | apply IH; [by constructor | cbn in *; lia]].
  - constructor; [|apply IH; [done | lia]].
    unfold is_u16, U16_MAX in Hu. split; [lia | done].
Qed.

Lemma decode_scalars cs :
  Forall is_scalar cs ->
  decode_chunk (mkDecoder utf8_idle true) (concat (utf8_of <$> cs)) =
    Some (concat (utf16_of <$> cs), mkDecoder utf8_idle true).
Proof.
  induction 1 as [|c cs Hc _ IH]; [done|]. cbn [fmap list_fmap concat].
  by rewrite decode_utf8_of, IH.
Qed.

(** Every JavaScript string encodes to bytes a strict decoder accepts. *)
Lemma text_decode_encode_is_Some s :
  Forall is_u16 s -> is_Some (text_decode (text_encode s)).
Proof.
  intros H%scalars_of_scalar. unfold text_encode, text_decode, new_decoder.
  destruct H as [|c cs Hc Hcs]; [by eexists|].
  cbn [fmap list_fmap concat]. rewrite decode_utf8_of, decode_scalars by done. by eexists.
Qed.

(** On text without lone surrogates or a leading byte order mark, decoding is
    the inverse of encoding. *)
Lemma text_decode_encode s :
  Forall is_u16 s -> concat (utf16_of <$> scalars_of s) = s -> head (scalars_of s) <> Some 0xfeff ->
  text_decode (text_encode s) = Some s.
Proof.
  intros H%scalars_of_scalar Hs Hb. unfold text_encode, text_decode, new_decoder.
  rewrite <- Hs at 2. destruct H as [|c cs Hc Hcs]; [done|].
  cbn [fmap list_fmap concat]. rewrite decode_utf8_of, decode_scalars by done. cbn.
  unfold emit. cbn [negb andb]. rewrite (proj2 (Z.eqb_neq c 0xfeff)); [done|].
  intros ->. by apply Hb.
Qed.

Lemma utf8_of_ok c : is_scalar c -> bytes_ok (utf8_of c).
Proof.
  intros [Hr _].
  pose proof (Z.mod_pos_bound c 64 ltac:(lia)). pose proof (Z.mod_pos_bound (c / 64) 64 ltac:(lia)).
  pose proof (Z.mod_pos_bound (c / 4096) 64 ltac:(lia)).
  pose proof (Z.div_pos c 64 ltac:(lia) ltac:(lia)). pose proof (Z.div_pos c 4096 ltac:(lia) ltac:(lia)).
  pose proof (Z.div_pos c 262144 ltac:(lia) ltac:(lia)).
  pose proof (Z.div_lt_upper_bound c 262144 5 ltac:(lia) ltac:(lia)).
  unfold utf8_of. repeat case_if; bool_prop.
  - repeat constructor; unfold is_byte; lia.
  - pose proof (Z.div_lt_upper_bound c 64 32 ltac:(lia) ltac:(lia)).
    repeat constructor; unfold is_byte; lia.
  - pose proof (Z.div_lt_upper_bound c 4096 16 ltac:(lia) ltac:(lia)).
    repeat constructor; unfold is_byte; lia.
  - repeat constructor; unfold is_byte; lia.
Qed.

Lemma text_encode_ok s : Forall is_u16 s -> bytes_ok (text_encode s).
Proof.
  intros H%scalars_of_scalar. unfold text_encode.
  induction H as [|c cs Hc _ IH]; [constructor|]. cbn.
  apply Forall_app_2; [by apply utf8_of_ok | exact IH].
Qed.

(** ** Well-formed strings: no lone surrogates *)

Definition well_formed (s : jsstring) : Prop :=
  exists cs, Forall is_scalar cs /\ s = concat (utf16_of <$> cs).

Lemma well_formed_nil : well_formed [].
Proof. by exists []. Qed.

Lemma well_formed_app a b : well_formed a -> well_formed b -> well_formed (a ++ b).
Proof.
  intros (ca & Ha & ->) (cb & Hb & ->). exists (ca ++ cb).
  split; [by apply Forall_app|]. by rewrite fmap_app, concat_app.
Qed.

Lemma well_formed_unit u : is_u16 u -> is_surrogate u = false -> well_formed [u].
Proof.
  unfold is_u16, U16_MAX. intros Hu Hs. exists [u]. split.
  - repeat constructor; [lia | lia | done].
  - cbn. unfold utf16_of. by rewrite (proj2 (Z.ltb_lt u 0x10000)) by lia.
Qed.

Lemma well_formed_cons u s :
  is_u16 u -> is_surrogate u = false -> well_formed s -> well_formed (u :: s).
Proof. intros Hu Hs H. apply (well_formed_app [u]); [by apply well_formed_unit | done]. Qed.

Lemma well_formed_pair u v : is_lead u && is_trail v = true -> well_formed [u; v].
Proof.
  unfold is_lead, is_trail. intros H. bool_prop.
  exists [0x10000 + (u - 0xd800) * 1024 + (v - 0xdc00)].
  pose proof (Z.div_add_l (u - 0xd800) 1024 (v - 0xdc00) ltac:(lia)) as Hd.
  pose proof (Z_mod_plus_full (v - 0xdc00) (u - 0xd800) 1024) as Hm.
  split.
  - repeat constructor; [lia | lia | unfold is_surrogate; lia].
  - cbn. unfold utf16_of. rewrite (proj2 (Z.ltb_ge _ _)) by lia. cbn. f_equal; [|f_equal].
    + replace (_ - 0x10000) with ((u - 0xd800) * 1024 + (v - 0xdc00)) by lia.
      rewrite Hd, Z.div_small by lia. lia.
    + replace (_ - 0x10000) with ((v - 0xdc00) + (u - 0xd800) * 1024) by lia.
      rewrite Hm, Z.mod_small by lia. lia.
Qed.

Lemma scalars_of_utf16 c s : is_scalar c -> scalars_of (utf16_of c ++ s) = c :: scalars_of s.
Proof.
  intros [Hc Hs]. unfold utf16_of. case_if; bool_prop; cbn [app scalars_of].
  - by rewrite Hs.
  - pose proof (Z.div_mod (c - 0x10000) 1024 ltac:(lia)) as E'.
    pose proof (Z.mod_pos_bound (c - 0x10000) 1024 ltac:(lia)).
    pose proof (Z.div_pos (c - 0x10000) 1024 ltac:(lia) ltac:(lia)).
    pose proof (Z.div_lt_upper_bound (c - 0x10000) 1024 1024 ltac:(lia) ltac:(lia)).
    assert (is_surrogate (55296 + (c - 65536) / 1024) = true) as -> by (unfold is_surrogate; lia).
    assert (is_lead (55296 + (c - 65536) / 1024) && is_trail (56320 + (c - 65536) mod 1024) = true)
      as -> by (unfold is_lead, is_trail; lia).
    cbn [negb]. f_equal. lia.
Qed.

Lemma scalars_of_concat cs :
  Forall is_scalar cs -> scalars_of (concat (utf16_of <$> cs)) = cs.
Proof.
  induction 1 as [|c cs Hc _ IH]; [done|]. cbn [fmap list_fmap concat].
  rewrite scalars_of_utf16 by done. by f_equal.
Qed.

(** A well-formed string that does not start with a byte order mark survives the
    wire. *)
Lemma text_roundtrip s :
  well_formed s -> head s <> Some 0xfeff -> text_decode (text_encode s) = Some s.
Proof.
  intros (cs & Hcs & ->) Hb. unfold text_encode, text_decode, new_decoder.
  rewrite scalars_of_concat by done. destruct Hcs as [|c cs Hc Hcs]; [done|].
  cbn [fmap list_fmap concat]. rewrite decode_utf8_of, decode_scalars by done. cbn.
  unfold emit. cbn [negb andb]. rewrite (proj2 (Z.eqb_neq c 0xfeff)); [done|].
  intros ->. by apply Hb.
Qed.

(** A byte order mark in front of a text is dropped. *)
Lemma text_decode_bom s :
  well_formed s -> text_decode (text_encode (0xfeff :: s)) = Some s.
Proof.
  intros (cs & Hcs & ->). unfold text_encode, text_decode, new_decoder.
  change (0xfeff :: concat (utf16_of <$> cs)) with (concat (utf16_of <$> (0xfeff :: cs))).
  assert (is_scalar 0xfeff) as Hbom by (split; [lia | reflexivity]).
  rewrite scalars_of_concat by by constructor. cbn [fmap list_fmap concat].
  by rewrite decode_utf8_of, decode_scalars.
Qed.
