(* ===== verification/Records.v ===== *)
(** The fixed-layout payloads of the multiplex protocol
    (packages/protocol/typescript/src/terminal/multiplex/): flow-records.ts
    (Ack, Credit, Visibility, Kill, Input), connection-records.ts (Epoch,
    Heartbeat) and snapshot-records.ts (SnapshotStart, SnapshotChunk,
    SnapshotEnd).

    Each record type has an encoder and a decoder over the views of Prelude and a
    predicate with the values its TypeScript type admits.  [WireRecord] is what
    the rest of the protocol relies on: decoding inverts encoding, and a decoder
    accepts only the canonical bytes. *)

From stdpp Require Import base list.
From Stdlib Require Import ZArith Lia ZifyBool.
From S2P Require Import Prelude JsText.

(** ** The interface of a wire record *)

Class WireRecord (A : Type) := {
  wire_encode : A -> bytes;
  wire_decode : bytes -> option A;
  wire_ok : A -> Prop;
  wire_roundtrip r : wire_ok r -> wire_decode (wire_encode r) = Some r;
  wire_canonical bs r :
    bytes_ok bs -> wire_decode bs = Some r -> wire_ok r /\ wire_encode r = bs
}.

(** ** flow-records.ts *)

Record TerminalMultiplexAckRecord := mkAck {
  ack_kind : Z;
  ack_status : Z;
  ack_errorCode : Z;
  ack_acknowledgedBytes : Z;
  ack_cumulativeSeq : Z;
  ack_receiverQueueBytes : Z
}.

Record TerminalMultiplexCreditRecord := mkCredit {
  credit_direction : Z;
  credit_reason : Z;
  credit_maxInFlightBytes : Z;
  credit_ackEveryBytes : Z;
  credit_maxFrameBytes : Z
}.

Record TerminalMultiplexVisibilityRecord := mkVisibility {
  vis_visible : bool;
  vis_deliveryInterest : bool;
  vis_priority : Z;
  vis_stateVersion : Z
}.

(** [immediate] has the literal type [true]: only [keepHistory] varies. *)
Record TerminalMultiplexKillRecord := mkKill {
  kill_keepHistory : bool
}.

Record TerminalMultiplexInputRecord := mkInput {
  input_kind : Z;
  input_data : bytes
}.

Definition decodeBool (value : Z) : option bool :=
  if value =? 0 then Some false else if value =? 1 then Some true else None.

Definition encodeBool (value : bool) : Z := if value then 1 else 0.

Definition isStrictUtf8 (payload : bytes) : bool :=
  match text_decode payload with Some _ => true | None => false end.

Definition encodeTerminalMultiplexAckRecord (r : TerminalMultiplexAckRecord) : bytes :=
  let out := new_buffer 24 in
  let out := view_set 1 0 (ack_kind r) out in
  let out := view_set 1 1 (ack_status r) out in
  let out := view_set 2 2 (ack_errorCode r) out in
  let out := view_set 4 4 (ack_acknowledgedBytes r) out in
  let out := view_set 8 8 (ack_cumulativeSeq r) out in
  let out := view_set 4 16 (ack_receiverQueueBytes r) out in
  view_set 4 20 0 out.

Definition decodeTerminalMultiplexAckRecord (payload : bytes)
    : option TerminalMultiplexAckRecord :=
  if negb (byteLength payload =? 24) then None else
  let kind := view_get 1 0 payload in
  let status := view_get 1 1 payload in
  if (kind >? 3) || (status >? 3) || negb (view_get 4 20 payload =? 0) then None else
  Some (mkAck kind status (view_get 2 2 payload) (view_get 4 4 payload)
          (view_get 8 8 payload) (view_get 4 16 payload)).

Definition encodeTerminalMultiplexCreditRecord (r : TerminalMultiplexCreditRecord) : bytes :=
  let out := new_buffer 16 in
  let out := view_set 1 0 (credit_direction r) out in
  let out := view_set 1 1 (credit_reason r) out in
  let out := view_set 2 2 0 out in
  let out := view_set 4 4 (credit_maxInFlightBytes r) out in
  let out := view_set 4 8 (credit_ackEveryBytes r) out in
  view_set 4 12 (credit_maxFrameBytes r) out.

Definition decodeTerminalMultiplexCreditRecord (payload : bytes)
    : option TerminalMultiplexCreditRecord :=
  if negb (byteLength payload =? 16) then None else
  let direction := view_get 1 0 payload in
  let reason := view_get 1 1 payload in
  if (direction >? 1) || (reason >? 3) || negb (view_get 2 2 payload =? 0) then None else
  Some (mkCredit direction reason (view_get 4 4 payload) (view_get 4 8 payload)
          (view_get 4 12 payload)).

Definition encodeTerminalMultiplexVisibilityRecord (r : TerminalMultiplexVisibilityRecord)
    : bytes :=
  let out := new_buffer 8 in
  let out := view_set 1 0 (encodeBool (vis_visible r)) out in
  let out := view_set 1 1 (encodeBool (vis_deliveryInterest r)) out in
  let out := view_set 1 2 (vis_priority r) out in
  let out := view_set 1 3 0 out in
  view_set 4 4 (vis_stateVersion r) out.

Definition decodeTerminalMultiplexVisibilityRecord (payload : bytes)
    : option TerminalMultiplexVisibilityRecord :=
  if negb (byteLength payload =? 8) then None else
  let visible := decodeBool (view_get 1 0 payload) in
  let deliveryInterest := decodeBool (view_get 1 1 payload) in
  let priority := view_get 1 2 payload in
  match visible, deliveryInterest with
  | Some visible, Some deliveryInterest =>
      if (priority >? 2) || negb (view_get 1 3 payload =? 0) then None else
      Some (mkVisibility visible deliveryInterest priority (view_get 4 4 payload))
  | _, _ => None
  end.

Definition encodeTerminalMultiplexKillRecord (r : TerminalMultiplexKillRecord) : bytes :=
  let out := new_buffer 8 in
  let out := view_set 1 0 (encodeBool (kill_keepHistory r)) out in
  view_set 1 1 1 out.

Definition decodeTerminalMultiplexKillRecord (payload : bytes)
    : option TerminalMultiplexKillRecord :=
  if negb (byteLength payload =? 8) then None else
  match decodeBool (view_get 1 0 payload) with
  | None => None
  | Some keepHistory =>
      if negb (view_get 1 1 payload =? 1) || negb (view_get 2 2 payload =? 0) ||
         negb (view_get 4 4 payload =? 0) then None
      else Some (mkKill keepHistory)
  end.

Definition encodeTerminalMultiplexInputRecord (r : TerminalMultiplexInputRecord) : bytes :=
  let out := new_buffer (8 + length (input_data r)) in
  let out := view_set 1 0 (input_kind r) out in
  let out := view_set 1 1 0 out in
  let out := view_set 2 2 0 out in
  let out := view_set 4 4 (byteLength (input_data r)) out in
  view_set_bytes 8 (input_data r) out.

Definition decodeTerminalMultiplexInputRecord (payload : bytes)
    : option TerminalMultiplexInputRecord :=
  if byteLength payload <? 8 then None else
  let kind := view_get 1 0 payload in
  let dataBytes := view_get 4 4 payload in
  if (kind >? 1) || negb (view_get 1 1 payload =? 0) || negb (view_get 2 2 payload =? 0) ||
     negb (dataBytes =? byteLength payload - 8) || negb (isStrictUtf8 (drop 8 payload))
  then None
  else Some (mkInput kind (drop 8 payload)).

(** ** connection-records.ts *)

Record TerminalMultiplexEpochRecord := mkEpoch {
  epoch_phase : Z;
  epoch_protocolMinor : Z;
  epoch_maxFrameBytes : Z;
  epoch_maxStreams : Z;
  epoch_heartbeatMs : Z;
  epoch_connectionGeneration : Z
}.

Record TerminalMultiplexHeartbeatRecord := mkHeartbeat {
  hb_phase : Z;
  hb_appState : Z;
  hb_senderQueueBytes : Z;
  hb_monotonicMicros : Z
}.

Definition encodeTerminalMultiplexEpochRecord (r : TerminalMultiplexEpochRecord) : bytes :=
  let out := new_buffer 24 in
  let out := view_set 1 0 (epoch_phase r) out in
  let out := view_set 1 1 (epoch_protocolMinor r) out in
  let out := view_set 2 2 0 out in
  let out := view_set 4 4 (epoch_maxFrameBytes r) out in
  let out := view_set 4 8 (epoch_maxStreams r) out in
  let out := view_set 4 12 (epoch_heartbeatMs r) out in
  let out := view_set 4 16 (epoch_connectionGeneration r) out in
  view_set 4 20 0 out.

Definition decodeTerminalMultiplexEpochRecord (payload : bytes)
    : option TerminalMultiplexEpochRecord :=
  if negb (byteLength payload =? 24) then None else
  let phase := view_get 1 0 payload in
  if (negb (phase =? 0) && negb (phase =? 1)) || negb (view_get 2 2 payload =? 0) ||
     negb (view_get 4 20 payload =? 0)
  then None else
  Some (mkEpoch phase (view_get 1 1 payload) (view_get 4 4 payload) (view_get 4 8 payload)
          (view_get 4 12 payload) (view_get 4 16 payload)).

Definition encodeTerminalMultiplexHeartbeatRecord (r : TerminalMultiplexHeartbeatRecord)
    : bytes :=
  let out := new_buffer 16 in
  let out := view_set 1 0 (hb_phase r) out in
  let out := view_set 1 1 (hb_appState r) out in
  let out := view_set 2 2 0 out in
  let out := view_set 4 4 (hb_senderQueueBytes r) out in
  view_set 8 8 (hb_monotonicMicros r) out.

Definition decodeHeartbeatAppState (appState : Z) : Z :=
  if appState =? 0 then 0 else if appState =? 1 then 1 else 2.

Definition decodeTerminalMultiplexHeartbeatRecord (payload : bytes)
    : option TerminalMultiplexHeartbeatRecord :=
  if negb (byteLength payload =? 16) then None else
  let phase := view_get 1 0 payload in
  let appState := view_get 1 1 payload in
  if (negb (phase =? 0) && negb (phase =? 1)) || (appState >? 2) ||
     negb (view_get 2 2 payload =? 0)
  then None else
  Some (mkHeartbeat phase (decodeHeartbeatAppState appState) (view_get 4 4 payload)
          (view_get 8 8 payload)).

(** ** snapshot-records.ts *)

Inductive TerminalMultiplexSnapshotReason :=
  | initial
  | manual
  | recovery
  | reveal
  | resume
  | pending_cap
  | normal_buffer_resize.

#[export] Instance snapshot_reason_eq_dec : EqDecision TerminalMultiplexSnapshotReason.
Proof. solve_decision. Defined.

Definition SNAPSHOT_REASON_BY_WIRE : list TerminalMultiplexSnapshotReason :=
  [initial; manual; recovery; reveal; resume; pending_cap; normal_buffer_resize].

(** [SNAPSHOT_REASON_BY_WIRE.indexOf(reason)]. *)
Definition encodeTerminalMultiplexSnapshotReason (reason : TerminalMultiplexSnapshotReason) : Z :=
  match list_find (eq reason) SNAPSHOT_REASON_BY_WIRE with
  | Some (i, _) => Z.of_nat i
  | None => -1
  end.

(** [sectionBytes] is a tuple of five numbers. *)
Record TerminalMultiplexSnapshotStartRecord := mkSnapshotStart {
  ss_snapshotId : Z;
  ss_reason : TerminalMultiplexSnapshotReason;
  ss_source : Z;
  ss_activeBuffer : Z;
  ss_truncated : bool;
  ss_byteBudget : bool;
  ss_coldRestore : bool;
  ss_cols : Z;
  ss_rows : Z;
  ss_retainedScrollbackRows : Z;
  ss_coverageEndSeq : Z;
  ss_pendingDeliveryStartSeq : Z;
  ss_sectionBytes : list Z
}.

Record TerminalMultiplexSnapshotChunkRecord := mkSnapshotChunk {
  sc_snapshotId : Z;
  sc_section : Z;
  sc_sectionOffset : Z;
  sc_data : bytes
}.

Record TerminalMultiplexSnapshotEndRecord := mkSnapshotEnd {
  se_snapshotId : Z;
  se_status : Z;
  se_coverageEndSeq : Z;
  se_assembledBytes : Z;
  se_crc32c : Z
}.

Definition TERMINAL_MULTIPLEX_SNAPSHOT_CHUNK_DATA_BYTES : Z := 48 * 1024.

Definition encodeTerminalMultiplexSnapshotStartRecord
    (r : TerminalMultiplexSnapshotStartRecord) : bytes :=
  let out := new_buffer 64 in
  let flags := Z.lor (Z.lor (if ss_truncated r then 1 else 0) (if ss_byteBudget r then 2 else 0))
                 (if ss_coldRestore r then 4 else 0) in
  let out := view_set 4 0 (ss_snapshotId r) out in
  let out := view_set 1 4 (encodeTerminalMultiplexSnapshotReason (ss_reason r)) out in
  let out := view_set 1 5 (ss_source r) out in
  let out := view_set 1 6 (ss_activeBuffer r) out in
  let out := view_set 1 7 flags out in
  let out := view_set 2 8 (ss_cols r) out in
  let out := view_set 2 10 (ss_rows r) out in
  let out := view_set 4 12 (ss_retainedScrollbackRows r) out in
  let out := view_set 8 16 0 out in
  let out := view_set 8 24 (ss_coverageEndSeq r) out in
  let out := view_set 8 32 (ss_pendingDeliveryStartSeq r) out in
  let out := fold_left (fun out '(index, n) => view_set 4 (40 + index * 4) n out)
               (imap pair (ss_sectionBytes r)) out in
  view_set 4 60 0 out.

Definition decodeTerminalMultiplexSnapshotStartRecord (payload : bytes)
    : option TerminalMultiplexSnapshotStartRecord :=
  if negb (byteLength payload =? 64) then None else
  let reasonWire := view_get 1 4 payload in
  let source := view_get 1 5 payload in
  let activeBuffer := view_get 1 6 payload in
  let flags := view_get 1 7 payload in
  let coverageEndSeq := view_get 8 24 payload in
  let pendingDeliveryStartSeq := view_get 8 32 payload in
  match SNAPSHOT_REASON_BY_WIRE !! Z.to_nat reasonWire with
  | None => None
  | Some reason =>
      if (reasonWire >? 6) || (source >? 1) || (activeBuffer >? 1) ||
         negb (Z.land flags (Z.lnot 7) =? 0) ||
         (view_get 2 8 payload <? 1) || (view_get 2 8 payload >? 1000) ||
         (view_get 2 10 payload <? 1) || (view_get 2 10 payload >? 500) ||
         negb (view_get 8 16 payload =? 0) ||
         (pendingDeliveryStartSeq >? coverageEndSeq) ||
         negb (view_get 4 60 payload =? 0)
      then None
      else Some (mkSnapshotStart (view_get 4 0 payload) reason source activeBuffer
                   (negb (Z.land flags 1 =? 0)) (negb (Z.land flags 2 =? 0))
                   (negb (Z.land flags 4 =? 0))
                   (view_get 2 8 payload) (view_get 2 10 payload) (view_get 4 12 payload)
                   coverageEndSeq pendingDeliveryStartSeq
                   [view_get 4 40 payload; view_get 4 44 payload; view_get 4 48 payload;
                    view_get 4 52 payload; view_get 4 56 payload])
  end.

Definition encodeTerminalMultiplexSnapshotChunkRecord
    (r : TerminalMultiplexSnapshotChunkRecord) : bytes :=
  let out := new_buffer (16 + length (sc_data r)) in
  let out := view_set 4 0 (sc_snapshotId r) out in
  let out := view_set 1 4 (sc_section r) out in
  let out := view_set 1 5 0 out in
  let out := view_set 2 6 0 out in
  let out := view_set 4 8 (sc_sectionOffset r) out in
  let out := view_set 4 12 (byteLength (sc_data r)) out in
  view_set_bytes 16 (sc_data r) out.

Definition decodeTerminalMultiplexSnapshotChunkRecord (payload : bytes)
    : option TerminalMultiplexSnapshotChunkRecord :=
  if byteLength payload <? 16 then None else
  let section := view_get 1 4 payload in
  if (section >? 4) || negb (view_get 1 5 payload =? 0) || negb (view_get 2 6 payload =? 0) ||
     negb (view_get 4 12 payload =? byteLength payload - 16) ||
     (byteLength payload - 16 >? TERMINAL_MULTIPLEX_SNAPSHOT_CHUNK_DATA_BYTES)
  then None
  else Some (mkSnapshotChunk (view_get 4 0 payload) section (view_get 4 8 payload)
               (drop 16 payload)).

Definition encodeTerminalMultiplexSnapshotEndRecord
    (r : TerminalMultiplexSnapshotEndRecord) : bytes :=
  let out := new_buffer 24 in
  let out := view_set 4 0 (se_snapshotId r) out in
  let out := view_set 1 4 (se_status r) out in
  let out := view_set 1 5 0 out in
  let out := view_set 2 6 0 out in
  let out := view_set 8 8 (se_coverageEndSeq r) out in
  let out := view_set 4 16 (se_assembledBytes r) out in
  view_set 4 20 (se_crc32c r) out.

Definition decodeTerminalMultiplexSnapshotEndRecord (payload : bytes)
    : option TerminalMultiplexSnapshotEndRecord :=
  if negb (byteLength payload =? 24) then None else
  let status := view_get 1 4 payload in
  if (status >? 3) || negb (view_get 1 5 payload =? 0) || negb (view_get 2 6 payload =? 0)
  then None
  else Some (mkSnapshotEnd (view_get 4 0 payload) status (view_get 8 8 payload)
               (view_get 4 16 payload) (view_get 4 20 payload)).

(** ** The values the TypeScript types admit *)

Definition ack_ok (r : TerminalMultiplexAckRecord) : Prop :=
  0 <= ack_kind r <= 3 /\ 0 <= ack_status r <= 3 /\ is_u16 (ack_errorCode r) /\
  is_u32 (ack_acknowledgedBytes r) /\ is_u64 (ack_cumulativeSeq r) /\
  is_u32 (ack_receiverQueueBytes r).

Definition credit_ok (r : TerminalMultiplexCreditRecord) : Prop :=
  0 <= credit_direction r <= 1 /\ 0 <= credit_reason r <= 3 /\
  is_u32 (credit_maxInFlightBytes r) /\ is_u32 (credit_ackEveryBytes r) /\
  is_u32 (credit_maxFrameBytes r).

Definition visibility_ok (r : TerminalMultiplexVisibilityRecord) : Prop :=
  0 <= vis_priority r <= 2 /\ is_u32 (vis_stateVersion r).

Definition kill_ok (_ : TerminalMultiplexKillRecord) : Prop := True.

Definition input_ok (r : TerminalMultiplexInputRecord) : Prop :=
  0 <= input_kind r <= 1 /\ is_u32 (byteLength (input_data r)) /\
  isStrictUtf8 (input_data r) = true.

Definition epoch_ok (r : TerminalMultiplexEpochRecord) : Prop :=
  0 <= epoch_phase r <= 1 /\ 0 <= epoch_protocolMinor r < 256 /\
  is_u32 (epoch_maxFrameBytes r) /\ is_u32 (epoch_maxStreams r) /\
  is_u32 (epoch_heartbeatMs r) /\ is_u32 (epoch_connectionGeneration r).

Definition heartbeat_ok (r : TerminalMultiplexHeartbeatRecord) : Prop :=
  0 <= hb_phase r <= 1 /\ 0 <= hb_appState r <= 2 /\ is_u32 (hb_senderQueueBytes r) /\
  is_u64 (hb_monotonicMicros r).

Definition snapshot_start_ok (r : TerminalMultiplexSnapshotStartRecord) : Prop :=
  is_u32 (ss_snapshotId r) /\ 0 <= ss_source r <= 1 /\ 0 <= ss_activeBuffer r <= 1 /\
  1 <= ss_cols r <= 1000 /\ 1 <= ss_rows r <= 500 /\ is_u32 (ss_retainedScrollbackRows r) /\
  is_u64 (ss_coverageEndSeq r) /\ 0 <= ss_pendingDeliveryStartSeq r <= ss_coverageEndSeq r /\
  length (ss_sectionBytes r) = 5%nat /\ Forall is_u32 (ss_sectionBytes r).

Definition snapshot_chunk_ok (r : TerminalMultiplexSnapshotChunkRecord) : Prop :=
  is_u32 (sc_snapshotId r) /\ 0 <= sc_section r <= 4 /\ is_u32 (sc_sectionOffset r) /\
  byteLength (sc_data r) <= TERMINAL_MULTIPLEX_SNAPSHOT_CHUNK_DATA_BYTES.

Definition snapshot_end_ok (r : TerminalMultiplexSnapshotEndRecord) : Prop :=
  is_u32 (se_snapshotId r) /\ 0 <= se_status r <= 3 /\ is_u64 (se_coverageEndSeq r) /\
  is_u32 (se_assembledBytes r) /\ is_u32 (se_crc32c r).

(** ** Proof support *)

(** Rewrites the reads of an encoder's chain of writes to the record's fields. *)
Ltac read_fields :=
  view_simpl;
  rewrite ?mod_u16, ?mod_u32, ?mod_u64, ?mod_u8, ?Z.mod_0_l by (assumption || lia || done).

Ltac buffer_length :=
  unfold byteLength; rewrite ?length_view_set_bytes, ?length_view_set, ?length_new_buffer.

(** The length of a header of [n] bytes followed by its data. *)
Ltac built_length n :=
  match goal with
  | |- context [byteLength (view_set_bytes ?o ?d ?b)] =>
      replace (byteLength (view_set_bytes o d b)) with (n + byteLength d)
        by (buffer_length; cbn [length Nat.add]; lia)
  end.

(** The round trip of a record: its length, then every read, then the guards. *)
Ltac roundtrip r :=
  destruct r; cbn in *; destruct_and?; buffer_length; read_fields;
  repeat (case_if; [exfalso; lia|]); try reflexivity.

(** The ranges of all reads in sight. *)
Ltac read_ranges Hb :=
  repeat match goal with
    | |- context [view_get ?n ?off ?bs] =>
        lazymatch goal with
        | _ : 0 <= view_get n off bs < _ |- _ => fail
        | _ => pose proof (view_get_range n off bs Hb)
        end
    | _ : context [view_get ?n ?off ?bs] |- _ =>
        lazymatch goal with
        | _ : 0 <= view_get n off bs < _ |- _ => fail
        | _ => pose proof (view_get_range n off bs Hb)
        end
    end.

(** One written field of an encoder against the bytes a decoder read it from. *)
Ltac rebuild_field Hb :=
  match goal with
  | |- agree ?k (view_set ?n ?off _ _) _ =>
      change k with (off + n)%nat; apply agree_set; [|exact Hb|lia|try done]
  end.

Ltac rebuild Hb :=
  repeat rebuild_field Hb; try (apply agree_zero; rewrite length_new_buffer; lia).

Ltac admitted_values :=
  unfold is_u16, is_u32, is_u64, U16_MAX, U32_MAX, U64_MAX in *; repeat split; lia.

(** Splits a decoder's guards: [H] equates its result with [Some r]. *)
Ltac decoded H :=
  repeat (case_if_in H; [discriminate|]); bool_prop; injection H as <-.

(** ** Round trips and canonicity of each record *)

Lemma ack_roundtrip r :
  ack_ok r -> decodeTerminalMultiplexAckRecord (encodeTerminalMultiplexAckRecord r) = Some r.
Proof.
  unfold ack_ok, decodeTerminalMultiplexAckRecord, encodeTerminalMultiplexAckRecord.
  intros H. roundtrip r.
Qed.

Lemma ack_canonical bs r :
  bytes_ok bs -> decodeTerminalMultiplexAckRecord bs = Some r ->
  ack_ok r /\ encodeTerminalMultiplexAckRecord r = bs.
Proof.
  intros Hb H. unfold decodeTerminalMultiplexAckRecord in H. decoded H.
  unfold byteLength in *. read_ranges Hb. split.
  - unfold ack_ok; cbn. admitted_values.
  - apply (agree_full 24); [|lia]. unfold encodeTerminalMultiplexAckRecord; cbn. rebuild Hb.
Qed.

Lemma credit_roundtrip r :
  credit_ok r ->
  decodeTerminalMultiplexCreditRecord (encodeTerminalMultiplexCreditRecord r) = Some r.
Proof.
  unfold credit_ok, decodeTerminalMultiplexCreditRecord, encodeTerminalMultiplexCreditRecord.
  intros H. roundtrip r.
Qed.

Lemma credit_canonical bs r :
  bytes_ok bs -> decodeTerminalMultiplexCreditRecord bs = Some r ->
  credit_ok r /\ encodeTerminalMultiplexCreditRecord r = bs.
Proof.
  intros Hb H. unfold decodeTerminalMultiplexCreditRecord in H. decoded H.
  unfold byteLength in *. read_ranges Hb. split.
  - unfold credit_ok; cbn. admitted_values.
  - apply (agree_full 16); [|lia]. unfold encodeTerminalMultiplexCreditRecord; cbn. rebuild Hb.
Qed.

Lemma decodeBool_encodeBool b : decodeBool (encodeBool b) = Some b.
Proof. by destruct b. Qed.

Lemma encodeBool_range b : 0 <= encodeBool b < 256.
Proof. destruct b; cbn; lia. Qed.

Lemma decodeBool_Some v b : decodeBool v = Some b -> encodeBool b = v.
Proof. unfold decodeBool. repeat case_if; intros [= <-]; bool_prop; subst; done. Qed.

Lemma visibility_roundtrip r :
  visibility_ok r ->
  decodeTerminalMultiplexVisibilityRecord (encodeTerminalMultiplexVisibilityRecord r) = Some r.
Proof.
  unfold visibility_ok, decodeTerminalMultiplexVisibilityRecord,
    encodeTerminalMultiplexVisibilityRecord.
  intros H. destruct r as [v i ? ?].
  pose proof (encodeBool_range v). pose proof (encodeBool_range i).
  cbn in *; destruct_and?; buffer_length; read_fields. rewrite !decodeBool_encodeBool.
  repeat (case_if; [exfalso; lia|]). reflexivity.
Qed.

Lemma visibility_canonical bs r :
  bytes_ok bs -> decodeTerminalMultiplexVisibilityRecord bs = Some r ->
  visibility_ok r /\ encodeTerminalMultiplexVisibilityRecord r = bs.
Proof.
  intros Hb H. unfold decodeTerminalMultiplexVisibilityRecord in H.
  case_if_in H; [discriminate|].
  destruct (decodeBool (view_get 1 0 bs)) as [v|] eqn:Ev; [|discriminate].
  destruct (decodeBool (view_get 1 1 bs)) as [i|] eqn:Ei; [|discriminate].
  decoded H. apply decodeBool_Some in Ev, Ei. unfold byteLength in *. read_ranges Hb. split.
  - unfold visibility_ok; cbn. admitted_values.
  - apply (agree_full 8); [|lia]. unfold encodeTerminalMultiplexVisibilityRecord; cbn.
    rebuild Hb.
Qed.

Lemma kill_roundtrip r :
  decodeTerminalMultiplexKillRecord (encodeTerminalMultiplexKillRecord r) = Some r.
Proof.
  unfold decodeTerminalMultiplexKillRecord, encodeTerminalMultiplexKillRecord.
  destruct r as [k]. pose proof (encodeBool_range k).
  cbn; buffer_length; read_fields. by rewrite decodeBool_encodeBool.
Qed.

(** The kill encoder leaves its reserved bytes at the zeros of a new buffer. *)
Lemma agree_zeros n off a b :
  agree off a b -> bytes_ok b -> (off + n <= length b)%nat ->
  slice off n a = replicate n 0 -> view_get n off b = 0 -> agree (off + n) a b.
Proof.
  intros [Hl H] Hb Hn Ha Hv. split; [done|]. intros i Hi.
  destruct (decide (i < off)%nat) as [Hlt|Hge]; [by apply H|].
  assert (E : slice off n a = slice off n b).
  { rewrite Ha, <- le_bytes_view_get, Hv by done. apply list_eq. intros j. unfold le_bytes.
    rewrite list_lookup_fmap. destruct (decide (j < n)%nat).
    - rewrite lookup_replicate_2, lookup_seq_lt by done. cbn. by rewrite byte_at_0.
    - rewrite !(proj2 (lookup_ge_None _ _)); [done | rewrite length_seq; lia
        | rewrite length_replicate; lia]. }
  pose proof (f_equal (fun l => l !! (i - off)%nat) E) as E'. cbn beta in E'.
  rewrite !lookup_slice, !decide_True in E' by lia.
  by replace (off + (i - off))%nat with i in E' by lia.
Qed.

Lemma kill_canonical bs r :
  bytes_ok bs -> decodeTerminalMultiplexKillRecord bs = Some r ->
  kill_ok r /\ encodeTerminalMultiplexKillRecord r = bs.
Proof.
  intros Hb H. unfold decodeTerminalMultiplexKillRecord in H.
  case_if_in H; [discriminate|].
  destruct (decodeBool (view_get 1 0 bs)) as [k|] eqn:Ek; [|discriminate].
  decoded H. apply decodeBool_Some in Ek. unfold byteLength in *. split; [exact I|].
  apply (agree_full 8); [|lia]. unfold encodeTerminalMultiplexKillRecord; cbn.
  apply (agree_zeros 4 4); [|done|lia| |done]; [apply (agree_zeros 2 2); [|done|lia| |done]|].
  - rebuild Hb.
  - by rewrite !slice_view_set_ne by lia.
  - by rewrite !slice_view_set_ne by lia.
Qed.

Lemma input_roundtrip r :
  input_ok r -> decodeTerminalMultiplexInputRecord (encodeTerminalMultiplexInputRecord r) = Some r.
Proof.
  unfold input_ok, decodeTerminalMultiplexInputRecord, encodeTerminalMultiplexInputRecord.
  intros H. destruct r as [k d]. cbn in *. destruct_and?.
  rewrite drop_view_set_bytes by (rewrite !length_view_set, length_new_buffer; lia).
  pose proof (byteLength_nonneg d).
  built_length 8. read_fields. repeat (case_if; [exfalso; lia|]). reflexivity.
Qed.

Lemma input_canonical bs r :
  bytes_ok bs -> decodeTerminalMultiplexInputRecord bs = Some r ->
  input_ok r /\ encodeTerminalMultiplexInputRecord r = bs.
Proof.
  intros Hb H. unfold decodeTerminalMultiplexInputRecord in H. decoded H. read_ranges Hb.
  assert (Hd : byteLength (drop 8 bs) = view_get 4 4 bs)
    by (unfold byteLength in *; rewrite length_drop; lia).
  unfold byteLength in *. split.
  - unfold input_ok; cbn. unfold byteLength. rewrite Hd. admitted_values || (admitted_values; done).
  - apply (agree_full (length bs)); [|lia]. unfold encodeTerminalMultiplexInputRecord; cbn.
    apply (agree_set_bytes 8); [|done|lia]. unfold byteLength. rewrite Hd. rebuild Hb.
    apply agree_zero. rewrite length_new_buffer. rewrite length_drop in *. lia.
Qed.

Lemma epoch_roundtrip r :
  epoch_ok r -> decodeTerminalMultiplexEpochRecord (encodeTerminalMultiplexEpochRecord r) = Some r.
Proof.
  unfold epoch_ok, decodeTerminalMultiplexEpochRecord, encodeTerminalMultiplexEpochRecord.
  intros H. roundtrip r.
Qed.

Lemma epoch_canonical bs r :
  bytes_ok bs -> decodeTerminalMultiplexEpochRecord bs = Some r ->
  epoch_ok r /\ encodeTerminalMultiplexEpochRecord r = bs.
Proof.
  intros Hb H. unfold decodeTerminalMultiplexEpochRecord in H. decoded H.
  unfold byteLength in *. read_ranges Hb. split.
  - unfold epoch_ok; cbn. admitted_values.
  - apply (agree_full 24); [|lia]. unfold encodeTerminalMultiplexEpochRecord; cbn. rebuild Hb.
Qed.

Lemma decodeHeartbeatAppState_id v : 0 <= v <= 2 -> decodeHeartbeatAppState v = v.
Proof. unfold decodeHeartbeatAppState. intros. repeat case_if; bool_prop; lia. Qed.

Lemma heartbeat_roundtrip r :
  heartbeat_ok r ->
  decodeTerminalMultiplexHeartbeatRecord (encodeTerminalMultiplexHeartbeatRecord r) = Some r.
Proof.
  unfold heartbeat_ok, decodeTerminalMultiplexHeartbeatRecord,
    encodeTerminalMultiplexHeartbeatRecord.
  intros H. roundtrip r. by rewrite decodeHeartbeatAppState_id.
Qed.

Lemma heartbeat_canonical bs r :
  bytes_ok bs -> decodeTerminalMultiplexHeartbeatRecord bs = Some r ->
  heartbeat_ok r /\ encodeTerminalMultiplexHeartbeatRecord r = bs.
Proof.
  intros Hb H. unfold decodeTerminalMultiplexHeartbeatRecord in H. read_ranges Hb.
  repeat (case_if_in H; [discriminate|]). bool_prop.
  rewrite decodeHeartbeatAppState_id in H by lia. injection H as <-.
  unfold byteLength in *. split.
  - unfold heartbeat_ok; cbn. admitted_values.
  - apply (agree_full 16); [|lia]. unfold encodeTerminalMultiplexHeartbeatRecord; cbn. rebuild Hb.
Qed.

Lemma reason_of_wire reason :
  SNAPSHOT_REASON_BY_WIRE !! Z.to_nat (encodeTerminalMultiplexSnapshotReason reason) = Some reason /\
  0 <= encodeTerminalMultiplexSnapshotReason reason <= 6.
Proof. destruct reason; vm_compute; split; intuition discriminate. Qed.

Lemma wire_of_reason v reason :
  0 <= v -> SNAPSHOT_REASON_BY_WIRE !! Z.to_nat v = Some reason ->
  encodeTerminalMultiplexSnapshotReason reason = v.
Proof.
  intros Hv H. pose proof (lookup_lt_Some _ _ _ H) as Hl. cbn in Hl.
  assert (v = 0 \/ v = 1 \/ v = 2 \/ v = 3 \/ v = 4 \/ v = 5 \/ v = 6) as Hc by lia.
  destruct Hc as [->|[->|[->|[->|[->|[->| ->]]]]]]; cbn in H; injection H as <-; reflexivity.
Qed.

Definition snapshot_flags (truncated budget cold : bool) : Z :=
  Z.lor (Z.lor (if truncated then 1 else 0) (if budget then 2 else 0)) (if cold then 4 else 0).

Lemma snapshot_flags_spec t b c :
  0 <= snapshot_flags t b c < 256 /\ Z.land (snapshot_flags t b c) (Z.lnot 7) = 0 /\
  negb (Z.land (snapshot_flags t b c) 1 =? 0) = t /\
  negb (Z.land (snapshot_flags t b c) 2 =? 0) = b /\
  negb (Z.land (snapshot_flags t b c) 4 =? 0) = c.
Proof. destruct t, b, c; vm_compute; repeat split; intros; discriminate. Qed.

Lemma flags_of_bits v :
  0 <= v < 256 -> Z.land v (Z.lnot 7) = 0 ->
  snapshot_flags (negb (Z.land v 1 =? 0)) (negb (Z.land v 2 =? 0)) (negb (Z.land v 4 =? 0)) = v.
Proof.
  intros Hv H.
  assert (Hc : Forall (fun v => Z.land v (Z.lnot 7) = 0 ->
    snapshot_flags (negb (Z.land v 1 =? 0)) (negb (Z.land v 2 =? 0)) (negb (Z.land v 4 =? 0)) = v)
    (seqZ 0 256)).
  { apply (bool_decide_unpack _). vm_compute. exact I. }
  rewrite Forall_forall in Hc. apply Hc; [apply elem_of_seqZ; lia | done].
Qed.

Lemma snapshot_start_roundtrip r :
  snapshot_start_ok r ->
  decodeTerminalMultiplexSnapshotStartRecord (encodeTerminalMultiplexSnapshotStartRecord r) = Some r.
Proof.
  unfold snapshot_start_ok, decodeTerminalMultiplexSnapshotStartRecord,
    encodeTerminalMultiplexSnapshotStartRecord.
  intros H. destruct r as [id reason src act t b c cols rows rsr cov pend secs].
  cbn in H. destruct_and?.
  destruct secs as [|s0 [|s1 [|s2 [|s3 [|s4 [|]]]]]]; try discriminate.
  repeat match goal with Hf : Forall is_u32 (_ :: _) |- _ => apply Forall_cons in Hf as [? Hf] end.
  destruct (reason_of_wire reason) as [Hreason Hrange].
  destruct (snapshot_flags_spec t b c) as (Hfr & Hf0 & Hf1 & Hf2 & Hf3).
  assert (is_u64 pend) by (unfold is_u64, U64_MAX in *; lia).
  assert (is_u16 cols /\ is_u16 rows) as [? ?] by (unfold is_u16, U16_MAX; lia).
  cbn [ss_snapshotId ss_reason ss_source ss_activeBuffer ss_truncated ss_byteBudget ss_coldRestore
       ss_cols ss_rows ss_retainedScrollbackRows ss_coverageEndSeq ss_pendingDeliveryStartSeq
       ss_sectionBytes imap fold_left Nat.add Nat.mul compose].
  fold (snapshot_flags t b c).
  buffer_length. read_fields. rewrite Hreason, Hf1, Hf2, Hf3, Hf0.
  repeat (case_if; [exfalso; lia|]). reflexivity.
Qed.

Lemma snapshot_start_canonical bs r :
  bytes_ok bs -> decodeTerminalMultiplexSnapshotStartRecord bs = Some r ->
  snapshot_start_ok r /\ encodeTerminalMultiplexSnapshotStartRecord r = bs.
Proof.
  intros Hb H. unfold decodeTerminalMultiplexSnapshotStartRecord in H. read_ranges Hb.
  case_if_in H; [discriminate|].
  destruct (SNAPSHOT_REASON_BY_WIRE !! _) as [reason|] eqn:Er; [|discriminate].
  apply wire_of_reason in Er; [|lia].
  case_if_in H; [discriminate|]. injection H as <-. bool_prop. unfold byteLength in *. split.
  - unfold snapshot_start_ok; cbn. split_and!; try lia; try done;
      repeat constructor; unfold is_u64, is_u32, U64_MAX, U32_MAX; lia.
  - apply (agree_full 64); [|lia]. unfold encodeTerminalMultiplexSnapshotStartRecord.
    cbn [ss_snapshotId ss_reason ss_source ss_activeBuffer ss_truncated ss_byteBudget
       ss_coldRestore ss_cols ss_rows ss_retainedScrollbackRows ss_coverageEndSeq
       ss_pendingDeliveryStartSeq ss_sectionBytes imap fold_left Nat.add Nat.mul compose].
    fold (snapshot_flags (negb (Z.land (view_get 1 7 bs) 1 =? 0))
      (negb (Z.land (view_get 1 7 bs) 2 =? 0)) (negb (Z.land (view_get 1 7 bs) 4 =? 0))).
    rewrite flags_of_bits by done. rewrite Er. rebuild Hb.
Qed.

Lemma snapshot_chunk_roundtrip r :
  snapshot_chunk_ok r ->
  decodeTerminalMultiplexSnapshotChunkRecord (encodeTerminalMultiplexSnapshotChunkRecord r) = Some r.
Proof.
  unfold snapshot_chunk_ok, decodeTerminalMultiplexSnapshotChunkRecord,
    encodeTerminalMultiplexSnapshotChunkRecord.
  intros H. destruct r as [id sec off d]. cbn in *. destruct_and?.
  unfold TERMINAL_MULTIPLEX_SNAPSHOT_CHUNK_DATA_BYTES in *.
  rewrite drop_view_set_bytes by (rewrite !length_view_set, length_new_buffer; lia).
  pose proof (byteLength_nonneg d).
  assert (is_u32 (byteLength d)) by (unfold is_u32, U32_MAX; lia).
  built_length 16. read_fields. repeat (case_if; [exfalso; lia|]). reflexivity.
Qed.

Lemma snapshot_chunk_canonical bs r :
  bytes_ok bs -> decodeTerminalMultiplexSnapshotChunkRecord bs = Some r ->
  snapshot_chunk_ok r /\ encodeTerminalMultiplexSnapshotChunkRecord r = bs.
Proof.
  intros Hb H. unfold decodeTerminalMultiplexSnapshotChunkRecord in H. decoded H. read_ranges Hb.
  assert (Hd : byteLength (drop 16 bs) = view_get 4 12 bs)
    by (unfold byteLength in *; rewrite length_drop; lia).
  unfold byteLength in *. split.
  - unfold snapshot_chunk_ok; cbn. unfold byteLength. rewrite Hd. admitted_values.
  - apply (agree_full (length bs)); [|lia]. unfold encodeTerminalMultiplexSnapshotChunkRecord; cbn.
    apply (agree_set_bytes 16); [|done|lia]. unfold byteLength. rewrite Hd. rebuild Hb.
    apply agree_zero. rewrite length_new_buffer. rewrite length_drop in *. lia.
Qed.

Lemma snapshot_end_roundtrip r :
  snapshot_end_ok r ->
  decodeTerminalMultiplexSnapshotEndRecord (encodeTerminalMultiplexSnapshotEndRecord r) = Some r.
Proof.
  unfold snapshot_end_ok, decodeTerminalMultiplexSnapshotEndRecord,
    encodeTerminalMultiplexSnapshotEndRecord.
  intros H. roundtrip r.
Qed.

Lemma snapshot_end_canonical bs r :
  bytes_ok bs -> decodeTerminalMultiplexSnapshotEndRecord bs = Some r ->
  snapshot_end_ok r /\ encodeTerminalMultiplexSnapshotEndRecord r = bs.
Proof.
  intros Hb H. unfold decodeTerminalMultiplexSnapshotEndRecord in H. decoded H.
  unfold byteLength in *. read_ranges Hb. split.
  - unfold snapshot_end_ok; cbn. admitted_values.
  - apply (agree_full 24); [|lia]. unfold encodeTerminalMultiplexSnapshotEndRecord; cbn. rebuild Hb.
Qed.

(** ** The records as instances of the interface *)

#[export] Instance ack_wire : WireRecord TerminalMultiplexAckRecord :=
  {| wire_roundtrip := ack_roundtrip; wire_canonical := ack_canonical |}.
#[export] Instance credit_wire : WireRecord TerminalMultiplexCreditRecord :=
  {| wire_roundtrip := credit_roundtrip; wire_canonical := credit_canonical |}.
#[export] Instance visibility_wire : WireRecord TerminalMultiplexVisibilityRecord :=
  {| wire_roundtrip := visibility_roundtrip; wire_canonical := visibility_canonical |}.
#[export] Instance kill_wire : WireRecord TerminalMultiplexKillRecord :=
  {| wire_roundtrip r (_ : kill_ok r) := kill_roundtrip r; wire_canonical := kill_canonical |}.
#[export] Instance input_wire : WireRecord TerminalMultiplexInputRecord :=
  {| wire_roundtrip := input_roundtrip; wire_canonical := input_canonical |}.
#[export] Instance epoch_wire : WireRecord TerminalMultiplexEpochRecord :=
  {| wire_roundtrip := epoch_roundtrip; wire_canonical := epoch_canonical |}.
#[export] Instance heartbeat_wire : WireRecord TerminalMultiplexHeartbeatRecord :=
  {| wire_roundtrip := heartbeat_roundtrip; wire_canonical := heartbeat_canonical |}.
#[export] Instance snapshot_start_wire : WireRecord TerminalMultiplexSnapshotStartRecord :=
  {| wire_roundtrip := snapshot_start_roundtrip; wire_canonical := snapshot_start_canonical |}.
#[export] Instance snapshot_chunk_wire : WireRecord TerminalMultiplexSnapshotChunkRecord :=
  {| wire_roundtrip := snapshot_chunk_roundtrip; wire_canonical := snapshot_chunk_canonical |}.
#[export] Instance snapshot_end_wire : WireRecord TerminalMultiplexSnapshotEndRecord :=
  {| wire_roundtrip := snapshot_end_roundtrip; wire_canonical := snapshot_end_canonical |}.

Lemma wire_encode_inj `{WireRecord A} (r r' : A) :
  wire_ok r -> wire_ok r' -> wire_encode r = wire_encode r' -> r = r'.
Proof.
  intros Hr Hr' E. apply wire_roundtrip in Hr, Hr'. rewrite E in Hr. congruence.
Qed.

(** Two byte strings a decoder maps to one record are equal. *)
Lemma wire_decode_inj `{WireRecord A} bs bs' (r : A) :
  bytes_ok bs -> bytes_ok bs' -> wire_decode bs = Some r -> wire_decode bs' = Some r -> bs = bs'.
Proof.
  intros Hb Hb' E E'. apply wire_canonical in E as [_ <-]; [|done].
  by apply wire_canonical in E' as [_ <-].
Qed.

(** Flow-control records (Ack, Credit, Visibility, Kill, Input): decoding an
    encoded record returns it, and a decoder accepts only canonical bytes of an
    admissible record, so reserved bits are zero and enumerations in range. *)
Theorem flow_records_codec :
  (forall r, ack_ok r ->
     decodeTerminalMultiplexAckRecord (encodeTerminalMultiplexAckRecord r) = Some r) /\
  (forall bs r, bytes_ok bs -> decodeTerminalMultiplexAckRecord bs = Some r ->
     ack_ok r /\ encodeTerminalMultiplexAckRecord r = bs) /\
  (forall r, credit_ok r ->
     decodeTerminalMultiplexCreditRecord (encodeTerminalMultiplexCreditRecord r) = Some r) /\
  (forall bs r, bytes_ok bs -> decodeTerminalMultiplexCreditRecord bs = Some r ->
     credit_ok r /\ encodeTerminalMultiplexCreditRecord r = bs) /\
  (forall r, visibility_ok r ->
     decodeTerminalMultiplexVisibilityRecord (encodeTerminalMultiplexVisibilityRecord r) = Some r) /\
  (forall bs r, bytes_ok bs -> decodeTerminalMultiplexVisibilityRecord bs = Some r ->
     visibility_ok r /\ encodeTerminalMultiplexVisibilityRecord r = bs) /\
  (forall r, decodeTerminalMultiplexKillRecord (encodeTerminalMultiplexKillRecord r) = Some r) /\
  (forall bs r, bytes_ok bs -> decodeTerminalMultiplexKillRecord bs = Some r ->
     encodeTerminalMultiplexKillRecord r = bs) /\
  (forall r, input_ok r ->
     decodeTerminalMultiplexInputRecord (encodeTerminalMultiplexInputRecord r) = Some r) /\
  (forall bs r, bytes_ok bs -> decodeTerminalMultiplexInputRecord bs = Some r ->
     input_ok r /\ encodeTerminalMultiplexInputRecord r = bs).
Proof.
  split_and!; intros; eauto using ack_roundtrip, ack_canonical, credit_roundtrip, credit_canonical,
    visibility_roundtrip, visibility_canonical, kill_roundtrip, input_roundtrip, input_canonical.
  by apply kill_canonical.
Qed.

Lemma flow_records_codec_witness :
  decodeTerminalMultiplexAckRecord
    (encodeTerminalMultiplexAckRecord (mkAck 1 0 7 512 4096 0)) = Some (mkAck 1 0 7 512 4096 0).
Proof.
  apply (proj1 flow_records_codec (mkAck 1 0 7 512 4096 0)).
  unfold ack_ok, is_u16, is_u32, is_u64, U16_MAX, U32_MAX, U64_MAX. cbn. lia.
Defined.

(** Connection records (Epoch, Heartbeat): the handshake and the heartbeat
    round-trip and are canonical. *)
Theorem connection_records_codec :
  (forall r, epoch_ok r ->
     decodeTerminalMultiplexEpochRecord (encodeTerminalMultiplexEpochRecord r) = Some r) /\
  (forall bs r, bytes_ok bs -> decodeTerminalMultiplexEpochRecord bs = Some r ->
     epoch_ok r /\ encodeTerminalMultiplexEpochRecord r = bs) /\
  (forall r, heartbeat_ok r ->
     decodeTerminalMultiplexHeartbeatRecord (encodeTerminalMultiplexHeartbeatRecord r) = Some r) /\
  (forall bs r, bytes_ok bs -> decodeTerminalMultiplexHeartbeatRecord bs = Some r ->
     heartbeat_ok r /\ encodeTerminalMultiplexHeartbeatRecord r = bs).
Proof.
  split_and!; intros; eauto using epoch_roundtrip, epoch_canonical, heartbeat_roundtrip,
    heartbeat_canonical.
Qed.

Lemma connection_records_codec_witness :
  decodeTerminalMultiplexEpochRecord
    (encodeTerminalMultiplexEpochRecord (mkEpoch 1 0 65536 64 15000 3)) =
  Some (mkEpoch 1 0 65536 64 15000 3).
Proof.
  apply (proj1 connection_records_codec (mkEpoch 1 0 65536 64 15000 3)).
  unfold epoch_ok, is_u32, U32_MAX. cbn. lia.
Defined.

(** Snapshot records (Start, Chunk, End) round-trip and are canonical; an
    accepted start has 1..1000 columns, 1..500 rows, five sections and a pending
    window that starts at or before its coverage. *)
Theorem snapshot_records_codec :
  (forall r, snapshot_start_ok r ->
     decodeTerminalMultiplexSnapshotStartRecord
       (encodeTerminalMultiplexSnapshotStartRecord r) = Some r) /\
  (forall bs r, bytes_ok bs -> decodeTerminalMultiplexSnapshotStartRecord bs = Some r ->
     snapshot_start_ok r /\ encodeTerminalMultiplexSnapshotStartRecord r = bs) /\
  (forall r, snapshot_chunk_ok r ->
     decodeTerminalMultiplexSnapshotChunkRecord
       (encodeTerminalMultiplexSnapshotChunkRecord r) = Some r) /\
  (forall bs r, bytes_ok bs -> decodeTerminalMultiplexSnapshotChunkRecord bs = Some r ->
     snapshot_chunk_ok r /\ encodeTerminalMultiplexSnapshotChunkRecord r = bs) /\
  (forall r, snapshot_end_ok r ->
     decodeTerminalMultiplexSnapshotEndRecord
       (encodeTerminalMultiplexSnapshotEndRecord r) = Some r) /\
  (forall bs r, bytes_ok bs -> decodeTerminalMultiplexSnapshotEndRecord bs = Some r ->
     snapshot_end_ok r /\ encodeTerminalMultiplexSnapshotEndRecord r = bs).
Proof.
  split_and!; intros; eauto using snapshot_start_roundtrip, snapshot_start_canonical,
    snapshot_chunk_roundtrip, snapshot_chunk_canonical, snapshot_end_roundtrip,
    snapshot_end_canonical.
Qed.

Lemma snapshot_records_codec_witness :
  decodeTerminalMultiplexSnapshotStartRecord
    (encodeTerminalMultiplexSnapshotStartRecord
       (mkSnapshotStart 9 reveal 0 1 true false true 80 24 1000 70000 65536 [10; 20; 30; 0; 5])) =
  Some (mkSnapshotStart 9 reveal 0 1 true false true 80 24 1000 70000 65536 [10; 20; 30; 0; 5]).
Proof.
  apply (proj1 snapshot_records_codec).
  unfold snapshot_start_ok, is_u32, is_u64, U32_MAX, U64_MAX. cbn.
  split_and!; try lia. repeat constructor; lia.
Defined.
