(* ===== verification/Recovery.v ===== *)
(** The recovery reducer shared by host and client
    (packages/protocol/typescript/src/terminal/multiplex/recovery.ts and
    host-recovery.ts): a pure state machine that maps a state and an event to a
    state and a list of effects.

    The host half keeps at most one active snapshot, the pending one it has sent
    and waits to be acknowledged, and the superseded ones whose acknowledgements
    may still arrive.  The client half keeps whether a snapshot is being awaited
    ([clientSnapshotting]) and whether one has been requested
    ([recoveryRequested]). *)

From stdpp Require Import base list.
From Stdlib Require Import ZArith Lia ZifyBool.
From S2P Require Import Prelude Records.

Inductive TerminalMultiplexRecoveryCause := ack_stall | cause_pending_cap | provider_gap.

#[export] Instance cause_eq_dec : EqDecision TerminalMultiplexRecoveryCause.
Proof. solve_decision. Defined.

Inductive delivery_mode := active | gated.

#[export] Instance delivery_mode_eq_dec : EqDecision delivery_mode.
Proof. solve_decision. Defined.

Record ActiveSnapshot := mkActive {
  as_id : Z;
  as_reason : TerminalMultiplexSnapshotReason
}.

Record PendingSnapshot := mkPending {
  ps_id : Z;
  ps_reason : TerminalMultiplexSnapshotReason;
  ps_coverageEndSeq : Z
}.

Record SupersededSnapshotAck := mkSuperseded {
  sup_id : Z;
  sup_coverageEndSeq : Z
}.

Record RecoveryMemory := mkMemory {
  delivery : delivery_mode;
  activeSnapshot : option ActiveSnapshot;
  pendingSnapshot : option PendingSnapshot;
  supersededSnapshotAcks : list SupersededSnapshotAck;
  recoveryRequested : bool;
  clientSnapshotting : bool
}.

Inductive recovery_kind := k_live | k_gated | k_snapshotting | k_recovering.

Record TerminalMultiplexRecoveryState := mkState {
  kind : recovery_kind;
  memory : RecoveryMemory
}.

Inductive TerminalMultiplexRecoveryEvent :=
  | delivery_gated
  | delivery_active
  | host_start (id : Z) (reason : TerminalMultiplexSnapshotReason)
  | host_manual_request (id seq : Z)
  | host_snapshot_sent (coverageEndSeq status : Z)
  | host_snapshot_ack (id coverageEndSeq : Z)
  | host_recover (cause : TerminalMultiplexRecoveryCause) (snapshotId : option Z)
  | client_begin_initial
  | client_gate_credit
  | client_begin_reveal
  | client_snapshot_started (accepted : bool)
  | client_model_restore (snapshotFollows : bool)
  | client_recovery_needed
  | client_resumed
  | reset.

Inductive TerminalMultiplexRecoveryEffect :=
  | start_host_snapshot (id : Z) (reason : TerminalMultiplexSnapshotReason)
  | send_superseded_snapshot (id coverageEndSeq : Z)
  | complete_host_snapshot (coverageEndSeq : Z)
  | complete_host_manual_snapshot
  | host_snapshot_ack_result (accepted : bool)
  | reject_manual_snapshot (id seq : Z)
  | send_model_restore (cause : TerminalMultiplexRecoveryCause) (snapshotFollows : bool)
  | clear_client_snapshot
  | set_output_credit (n : Z)
  | request_client_snapshot.

#[export] Instance effect_eq_dec : EqDecision TerminalMultiplexRecoveryEffect.
Proof. solve_decision. Defined.

(** [{ state, effects }]. *)
Definition TerminalMultiplexRecoveryTransition : Type :=
  TerminalMultiplexRecoveryState * list TerminalMultiplexRecoveryEffect.

Definition transition (s : TerminalMultiplexRecoveryState)
    (effects : list TerminalMultiplexRecoveryEffect) : TerminalMultiplexRecoveryTransition :=
  (s, effects).

Definition withKind (k : recovery_kind) (m : RecoveryMemory) : TerminalMultiplexRecoveryState :=
  mkState k m.

Definition emptyMemory (d : delivery_mode) : RecoveryMemory := mkMemory d None None [] false true.

Definition deliveryKind (m : RecoveryMemory) : recovery_kind :=
  match delivery m with active => k_live | gated => k_gated end.

Definition createTerminalMultiplexRecoveryState (d : delivery_mode)
    : TerminalMultiplexRecoveryState :=
  withKind k_snapshotting (emptyMemory d).

(** The [{ ...memory, field: value }] updates of the source. *)
Definition set_delivery (d : delivery_mode) (m : RecoveryMemory) : RecoveryMemory :=
  mkMemory d (activeSnapshot m) (pendingSnapshot m) (supersededSnapshotAcks m)
    (recoveryRequested m) (clientSnapshotting m).

Definition set_client (requested snapshotting : bool) (m : RecoveryMemory) : RecoveryMemory :=
  mkMemory (delivery m) (activeSnapshot m) (pendingSnapshot m) (supersededSnapshotAcks m)
    requested snapshotting.

Definition set_host (a : option ActiveSnapshot) (p : option PendingSnapshot)
    (acks : list SupersededSnapshotAck) (m : RecoveryMemory) : RecoveryMemory :=
  mkMemory (delivery m) a p acks (recoveryRequested m) (clientSnapshotting m).

(** ** host-recovery.ts *)

Definition SUPERSEDED_SNAPSHOT_ACK_LIMIT : nat := 1024.

Definition snapshotPriority (reason : TerminalMultiplexSnapshotReason) : Z :=
  match reason with
  | initial => 5
  | recovery | pending_cap | normal_buffer_resize => 4
  | reveal => 3
  | resume => 2
  | manual => 1
  end.

(** [remembered.slice(-LIMIT)] keeps the last entries. *)
Definition slice_last {A} (n : nat) (l : list A) : list A := drop (length l - n) l.

Definition rememberSuperseded (entries : list SupersededSnapshotAck) (pending : PendingSnapshot)
    : list SupersededSnapshotAck :=
  let entry := mkSuperseded (ps_id pending) (ps_coverageEndSeq pending) in
  let remembered :=
    match list_find (fun e => sup_id e = ps_id pending) entries with
    | Some (existingIndex, _) => <[existingIndex := entry]> entries
    | None => entries ++ [entry]
    end in
  slice_last SUPERSEDED_SNAPSHOT_ACK_LIMIT remembered.

Definition startHostSnapshotTransition (s : TerminalMultiplexRecoveryState) (id : Z)
    (reason : TerminalMultiplexSnapshotReason) : TerminalMultiplexRecoveryTransition :=
  let start :=
    let '(acks, superseded) :=
      match pendingSnapshot (memory s) with
      | Some pending =>
          (rememberSuperseded (supersededSnapshotAcks (memory s)) pending,
           [send_superseded_snapshot (ps_id pending) (ps_coverageEndSeq pending)])
      | None => (supersededSnapshotAcks (memory s), [])
      end in
    transition
      (mkState (match reason with initial => k_snapshotting | _ => k_recovering end)
         (set_host (Some (mkActive id reason)) None acks (memory s)))
      (superseded ++ [start_host_snapshot id reason]) in
  match activeSnapshot (memory s) with
  | Some a =>
      if snapshotPriority reason <=? snapshotPriority (as_reason a) then transition s [] else start
  | None => start
  end.

Definition completion (reason : TerminalMultiplexSnapshotReason) (coverageEndSeq : Z)
    : TerminalMultiplexRecoveryEffect :=
  match reason with
  | manual => complete_host_manual_snapshot
  | _ => complete_host_snapshot coverageEndSeq
  end.

Definition hostSnapshotSentTransition (s : TerminalMultiplexRecoveryState)
    (coverageEndSeq status : Z) : TerminalMultiplexRecoveryTransition :=
  match activeSnapshot (memory s) with
  | None => transition s []
  | Some a =>
      if status =? 0 then
        transition
          (mkState (kind s)
             (set_host (activeSnapshot (memory s))
                (Some (mkPending (as_id a) (as_reason a) coverageEndSeq))
                (supersededSnapshotAcks (memory s)) (memory s))) []
      else
        transition
          (mkState (deliveryKind (memory s))
             (set_host None None (supersededSnapshotAcks (memory s)) (memory s)))
          [completion (as_reason a) coverageEndSeq]
  end.

Definition hostSnapshotAckTransition (s : TerminalMultiplexRecoveryState) (id coverageEndSeq : Z)
    : TerminalMultiplexRecoveryTransition :=
  let other :=
    let matched := existsb (fun e => (sup_id e =? id) && (sup_coverageEndSeq e =? coverageEndSeq))
                     (supersededSnapshotAcks (memory s)) in
    transition
      (mkState (kind s)
         (set_host (activeSnapshot (memory s)) (pendingSnapshot (memory s))
            (if matched then filter (fun e => sup_id e <> id) (supersededSnapshotAcks (memory s))
             else supersededSnapshotAcks (memory s)) (memory s)))
      [host_snapshot_ack_result matched] in
  match pendingSnapshot (memory s) with
  | Some p =>
      if (ps_id p =? id) && (ps_coverageEndSeq p =? coverageEndSeq) then
        transition
          (mkState (deliveryKind (memory s))
             (set_host None None (supersededSnapshotAcks (memory s)) (memory s)))
          [completion (ps_reason p) coverageEndSeq; host_snapshot_ack_result true]
      else other
  | None => other
  end.

(** ** recovery.ts *)

Definition requestClientRecovery (s : TerminalMultiplexRecoveryState)
    : TerminalMultiplexRecoveryTransition :=
  if recoveryRequested (memory s) then transition s []
  else transition (withKind k_recovering (set_client true true (memory s)))
         [clear_client_snapshot; set_output_credit 0; request_client_snapshot].

Definition reduceRecovery (s : TerminalMultiplexRecoveryState)
    (event : TerminalMultiplexRecoveryEvent) : TerminalMultiplexRecoveryTransition :=
  match event with
  | delivery_gated => transition (withKind k_gated (set_delivery gated (memory s))) []
  | delivery_active => transition (withKind (kind s) (set_delivery active (memory s))) []
  | host_start id reason => startHostSnapshotTransition s id reason
  | host_manual_request id seq =>
      match activeSnapshot (memory s) with
      | Some _ => transition s [reject_manual_snapshot id seq]
      | None => startHostSnapshotTransition s id manual
      end
  | host_snapshot_sent coverageEndSeq status => hostSnapshotSentTransition s coverageEndSeq status
  | host_snapshot_ack id coverageEndSeq => hostSnapshotAckTransition s id coverageEndSeq
  | host_recover cause snapshotId =>
      let snapshotFollows := bool_decide (delivery (memory s) = active) in
      let restored := transition s [send_model_restore cause snapshotFollows] in
      match snapshotFollows, snapshotId with
      | true, Some id =>
          let reason := match cause with cause_pending_cap => pending_cap | _ => recovery end in
          let started := startHostSnapshotTransition s id reason in
          (fst started, snd restored ++ snd started)
      | _, _ => restored
      end
  | client_begin_initial =>
      transition (withKind k_snapshotting (set_client false true (memory s)))
        [set_output_credit 0]
  | client_gate_credit => transition s [set_output_credit 0]
  | client_begin_reveal =>
      transition (withKind k_snapshotting
        (set_client (recoveryRequested (memory s)) true (memory s))) []
  | client_snapshot_started accepted =>
      if accepted then transition (withKind k_snapshotting (set_client false true (memory s))) []
      else requestClientRecovery
             (withKind k_snapshotting (set_client false (clientSnapshotting (memory s)) (memory s)))
  | client_model_restore snapshotFollows =>
      transition (withKind k_recovering (set_client snapshotFollows true (memory s)))
        [clear_client_snapshot; set_output_credit 0]
  | client_recovery_needed => requestClientRecovery s
  | client_resumed =>
      transition (withKind (deliveryKind (memory s))
        (set_client (recoveryRequested (memory s)) false (memory s)))
        [set_output_credit (2 * 1024 * 1024)]
  | reset => transition (withKind k_snapshotting (emptyMemory (delivery (memory s)))) []
  end.

(** A run of the reducer, its effects in order. *)
Fixpoint run_recovery (s : TerminalMultiplexRecoveryState)
    (events : list TerminalMultiplexRecoveryEvent) : TerminalMultiplexRecoveryTransition :=
  match events with
  | [] => (s, [])
  | e :: rest =>
      let '(s1, out1) := reduceRecovery s e in
      let '(s2, out2) := run_recovery s1 rest in
      (s2, out1 ++ out2)
  end.

(** ** Specification vocabulary *)

Inductive reachable (d : delivery_mode) : TerminalMultiplexRecoveryState -> Prop :=
  | reachable_create : reachable d (createTerminalMultiplexRecoveryState d)
  | reachable_step s e : reachable d s -> reachable d (fst (reduceRecovery s e)).

Definition pending_ok (m : RecoveryMemory) : Prop :=
  forall p, pendingSnapshot m = Some p ->
    activeSnapshot m = Some (mkActive (ps_id p) (ps_reason p)).

Definition superseded_ids (m : RecoveryMemory) : list Z := sup_id <$> supersededSnapshotAcks m.

Record recovery_ok (s : TerminalMultiplexRecoveryState) : Prop := {
  ok_pending : pending_ok (memory s);
  ok_limit : (length (supersededSnapshotAcks (memory s)) <= SUPERSEDED_SNAPSHOT_ACK_LIMIT)%nat;
  ok_distinct : NoDup (superseded_ids (memory s));
  ok_live : kind s = k_live -> delivery (memory s) = active
}.

(** The snapshot ids an event may start, the ids the host still expects an
    acknowledgement of, and the ids whose acknowledgement a step accepts. *)
Definition event_ids (e : TerminalMultiplexRecoveryEvent) : list Z :=
  match e with
  | host_start id _ | host_manual_request id _ => [id]
  | host_recover _ (Some id) => [id]
  | _ => []
  end.

Definition tracked_ids (m : RecoveryMemory) : list Z :=
  option_list (as_id <$> activeSnapshot m) ++ superseded_ids m.

Definition accepted_by (e : TerminalMultiplexRecoveryEvent)
    (out : list TerminalMultiplexRecoveryEffect) : list Z :=
  match e with
  | host_snapshot_ack id _ =>
      if bool_decide (host_snapshot_ack_result true ∈ out) then [id] else []
  | _ => []
  end.

Fixpoint accepted_acks (s : TerminalMultiplexRecoveryState)
    (events : list TerminalMultiplexRecoveryEvent) : list Z :=
  match events with
  | [] => []
  | e :: rest =>
      let '(s1, out) := reduceRecovery s e in accepted_by e out ++ accepted_acks s1 rest
  end.

Definition is_client_event (e : TerminalMultiplexRecoveryEvent) : bool :=
  match e with
  | client_begin_initial | client_gate_credit | client_begin_reveal
  | client_snapshot_started _ | client_model_restore _ | client_recovery_needed
  | client_resumed | reset | delivery_gated | delivery_active => true
  | _ => false
  end.

Definition is_client_effect (f : TerminalMultiplexRecoveryEffect) : bool :=
  match f with
  | clear_client_snapshot | set_output_credit _ | request_client_snapshot => true
  | _ => false
  end.

(** The events after which the client may request a snapshot again. *)
Definition rearms (e : TerminalMultiplexRecoveryEvent) : bool :=
  match e with
  | client_begin_initial | client_snapshot_started _ | client_model_restore false | reset => true
  | _ => false
  end.

Definition requests (out : list TerminalMultiplexRecoveryEffect) : nat :=
  length (filter (fun f => f = request_client_snapshot) out).

(** ** The superseded acknowledgements *)

Lemma slice_last_sublist {A} n (l : list A) : slice_last n l `sublist_of` l.
Proof. apply sublist_drop. Qed.

Lemma length_slice_last {A} n (l : list A) : (length (slice_last n l) <= n)%nat.
Proof. unfold slice_last. rewrite length_drop. lia. Qed.

Lemma slice_last_short {A} n (l : list A) : (length l <= n)%nat -> slice_last n l = l.
Proof. intros. unfold slice_last. by replace (length l - n)%nat with 0%nat by lia. Qed.

Lemma slice_last_snoc {A} n (l : list A) x : (0 < n)%nat -> x ∈ slice_last n (l ++ [x]).
Proof.
  intros H. unfold slice_last. rewrite length_app. cbn [length].
  rewrite drop_app_le by lia. apply elem_of_app. right. by apply list_elem_of_singleton.
Qed.

Lemma insert_found_ids entries p i e c :
  list_find (fun e => sup_id e = p) entries = Some (i, e) ->
  sup_id <$> <[i := mkSuperseded p c]> entries = sup_id <$> entries.
Proof.
  intros H. apply list_find_Some in H as (Hi & <- & _).
  rewrite list_fmap_insert. cbn. apply list_insert_id. by rewrite list_lookup_fmap, Hi.
Qed.

(** The remembered ids: at most the old ones and the pending one, once each. *)
Lemma remember_ids entries p :
  sup_id <$> rememberSuperseded entries p ⊆+ ps_id p :: (sup_id <$> entries).
Proof.
  unfold rememberSuperseded.
  trans (sup_id <$> (match list_find (fun e => sup_id e = ps_id p) entries with
    | Some (i, _) => <[i := mkSuperseded (ps_id p) (ps_coverageEndSeq p)]> entries
    | None => entries ++ [mkSuperseded (ps_id p) (ps_coverageEndSeq p)] end)).
  { apply sublist_submseteq. unfold slice_last. rewrite fmap_drop. apply sublist_drop. }
  destruct (list_find _ entries) as [[i e]|] eqn:H.
  - erewrite insert_found_ids by exact H. by apply submseteq_cons.
  - rewrite fmap_app. cbn. apply Permutation_submseteq. by rewrite Permutation_app_comm.
Qed.

Lemma remember_distinct entries p :
  NoDup (sup_id <$> entries) -> NoDup (sup_id <$> rememberSuperseded entries p).
Proof.
  intros H. unfold rememberSuperseded.
  destruct (list_find _ entries) as [[i e]|] eqn:Hf; unfold slice_last; rewrite fmap_drop;
    (eapply sublist_NoDup; [|apply sublist_drop]).
  - by erewrite insert_found_ids by exact Hf.
  - rewrite fmap_app. cbn. apply NoDup_app. split; [done|]. split; [|apply NoDup_singleton].
    intros x Hx ->%list_elem_of_singleton. apply list_find_None in Hf.
    apply list_elem_of_fmap in Hx as (y & Hy & Hin). eapply Forall_forall in Hf; [|exact Hin]. done.
Qed.

Lemma remember_limit entries p :
  (length (rememberSuperseded entries p) <= SUPERSEDED_SNAPSHOT_ACK_LIMIT)%nat.
Proof. apply length_slice_last. Qed.

Lemma remember_pending entries p :
  (length entries <= SUPERSEDED_SNAPSHOT_ACK_LIMIT)%nat ->
  mkSuperseded (ps_id p) (ps_coverageEndSeq p) ∈ rememberSuperseded entries p.
Proof.
  intros Hl. unfold rememberSuperseded. destruct (list_find _ entries) as [[i e]|] eqn:Hf.
  - apply list_find_Some in Hf as (Hi & _). rewrite slice_last_short by by rewrite length_insert.
    eapply list_elem_of_lookup_2. apply list_lookup_insert_eq. by eapply lookup_lt_Some.
  - apply slice_last_snoc. unfold SUPERSEDED_SNAPSHOT_ACK_LIMIT. lia.
Qed.

(** ** Each operation keeps the invariant *)

Lemma recovery_ok_create d : recovery_ok (createTerminalMultiplexRecoveryState d).
Proof. split; cbn; [done | lia | apply NoDup_nil_2 | done]. Qed.

(** Updates that leave the host half alone. *)
Lemma recovery_ok_host_same s k m :
  recovery_ok s ->
  activeSnapshot m = activeSnapshot (memory s) ->
  pendingSnapshot m = pendingSnapshot (memory s) ->
  supersededSnapshotAcks m = supersededSnapshotAcks (memory s) ->
  (k = k_live -> delivery m = active) ->
  recovery_ok (mkState k m).
Proof.
  intros [Hp Hl Hd Hk] Ea Ep Es Hk'.
  split; unfold pending_ok, superseded_ids in *; cbn; rewrite ?Ea, ?Ep, ?Es; done.
Qed.

Lemma deliveryKind_live m : deliveryKind m = k_live -> delivery m = active.
Proof. unfold deliveryKind. by destruct (delivery m). Qed.

Lemma recovery_ok_start s id reason :
  recovery_ok s -> recovery_ok (fst (startHostSnapshotTransition s id reason)).
Proof.
  intros [Hp Hl Hd Hk]. unfold startHostSnapshotTransition.
  destruct (activeSnapshot (memory s)) as [a|] eqn:Ea; [case_if; [by split|]|];
    destruct (pendingSnapshot (memory s)) as [p|] eqn:Ep; cbn;
    (split; unfold pending_ok, superseded_ids; cbn;
      [done | try apply remember_limit; done | try apply remember_distinct; done
      | by destruct reason]).
Qed.

Lemma recovery_ok_sent s c status :
  recovery_ok s -> recovery_ok (fst (hostSnapshotSentTransition s c status)).
Proof.
  intros [Hp Hl Hd Hk]. unfold hostSnapshotSentTransition.
  destruct (activeSnapshot (memory s)) as [a|] eqn:Ea; [|by split].
  case_if; split; unfold pending_ok; cbn; try done.
  - intros p [= <-]. by destruct a.
  - apply deliveryKind_live.
Qed.

Lemma recovery_ok_ack s id c :
  recovery_ok s -> recovery_ok (fst (hostSnapshotAckTransition s id c)).
Proof.
  intros [Hp Hl Hd Hk].
  assert (recovery_ok (mkState (kind s)
    (set_host (activeSnapshot (memory s)) (pendingSnapshot (memory s))
      (filter (fun e => sup_id e <> id) (supersededSnapshotAcks (memory s))) (memory s)))).
  { split; cbn; [done | | | done].
    - pose proof (length_filter (fun e => sup_id e <> id) (supersededSnapshotAcks (memory s))).
      lia.
    - eapply sublist_NoDup; [exact Hd|]. unfold superseded_ids. cbn.
      apply fmap_sublist, sublist_filter. }
  unfold hostSnapshotAckTransition.
  destruct (pendingSnapshot (memory s)) as [p|] eqn:Ep.
  - destruct (_ && _) eqn:E; cbn.
    + split; cbn; try done. apply deliveryKind_live.
    + destruct (existsb _ _); [done|]. split; cbn; unfold pending_ok in *; cbn; try done. 
      rewrite <- Ep. exact Hp.
  - cbn. destruct (existsb _ _); [done|]. split; cbn; done.
Qed.

Lemma recovery_ok_client s : recovery_ok s -> recovery_ok (fst (requestClientRecovery s)).
Proof.
  intros H. unfold requestClientRecovery. destruct (recoveryRequested _); [done|].
  by eapply recovery_ok_host_same.
Qed.

Lemma recovery_ok_step s e : recovery_ok s -> recovery_ok (fst (reduceRecovery s e)).
Proof.
  intros H. destruct e; cbn [reduceRecovery];
    try (by eapply recovery_ok_host_same);
    auto using recovery_ok_start, recovery_ok_sent, recovery_ok_ack, recovery_ok_client.
  - destruct (activeSnapshot (memory s)); [exact H|]. by apply recovery_ok_start.
  - case_bool_decide; [|exact H]. destruct snapshotId; [|exact H]. by apply recovery_ok_start.
  - destruct accepted; [by eapply recovery_ok_host_same|].
    apply recovery_ok_client. by eapply recovery_ok_host_same.
  - eapply recovery_ok_host_same; try done. exact (deliveryKind_live (memory s)).
  - split; cbn; [done | lia | apply NoDup_nil_2 | done].
Qed.

(** ** Acknowledgements are accepted once per started id *)

Lemma filter_other_ids id (l : list SupersededSnapshotAck) c :
  existsb (fun e => (sup_id e =? id) && (sup_coverageEndSeq e =? c)) l = true ->
  (sup_id <$> filter (fun e => sup_id e <> id) l) ++ [id] ⊆+ sup_id <$> l.
Proof.
  intros (e & Hin & He)%existsb_exists. bool_prop. apply list_elem_of_In in Hin.
  apply list_elem_of_split in Hin as (l1 & l2 & ->).
  rewrite filter_app, filter_cons_False by (intros Hne; by apply Hne).
  rewrite !fmap_app, fmap_cons. subst id.
  rewrite <- app_assoc. apply submseteq_app.
  - apply sublist_submseteq, fmap_sublist, sublist_filter.
  - rewrite (Permutation_app_comm _ [_]). cbn. apply submseteq_skip.
    apply sublist_submseteq, fmap_sublist, sublist_filter.
Qed.

Lemma start_tracked s id reason :
  pending_ok (memory s) ->
  tracked_ids (memory (fst (startHostSnapshotTransition s id reason)))
    ⊆+ tracked_ids (memory s) ++ [id].
Proof.
  intros Hp. unfold startHostSnapshotTransition, tracked_ids, superseded_ids.
  destruct (activeSnapshot (memory s)) as [a|] eqn:Ea; [case_if|].
  - cbn. rewrite Ea. cbn. rewrite app_comm_cons. by apply submseteq_inserts_r.
  - destruct (pendingSnapshot (memory s)) as [p|] eqn:Ep; cbn.
    + pose proof (Hp p Ep) as Ha. rewrite Ea in Ha. injection Ha as ->. cbn.
      rewrite <- Permutation_cons_append. rewrite Permutation_swap.
      apply submseteq_skip. apply remember_ids.
    + rewrite (Permutation_app_comm _ [id]). by apply submseteq_cons.
  - destruct (pendingSnapshot (memory s)) as [p|] eqn:Ep; cbn.
    + pose proof (Hp p Ep) as Ha. by rewrite Ea in Ha.
    + by rewrite (Permutation_app_comm _ [id]).
Qed.

Lemma ack_tracked s id c :
  pending_ok (memory s) ->
  tracked_ids (memory (fst (hostSnapshotAckTransition s id c)))
    ++ accepted_by (host_snapshot_ack id c) (snd (hostSnapshotAckTransition s id c))
    ⊆+ tracked_ids (memory s).
Proof.
  intros Hp. unfold hostSnapshotAckTransition, tracked_ids, superseded_ids.
  destruct (pendingSnapshot (memory s)) as [p|] eqn:Ep;
    [destruct (_ && _) eqn:E|]; cbn.
  - bool_prop. rewrite (Hp p Ep). cbn.
    rewrite bool_decide_true by (right; left). subst id. apply Permutation_submseteq.
    by rewrite Permutation_app_comm.
  - destruct (existsb _ _) eqn:Ex; cbn.
    + rewrite bool_decide_true by left. rewrite <- app_assoc.
      apply submseteq_skips_l. by eapply filter_other_ids.
    + rewrite bool_decide_false by (intros [?|?%elem_of_nil]%elem_of_cons; done). by rewrite app_nil_r.
  - destruct (existsb _ _) eqn:Ex; cbn.
    + rewrite bool_decide_true by left. rewrite <- app_assoc.
      apply submseteq_skips_l. by eapply filter_other_ids.
    + rewrite bool_decide_false by (intros [?|?%elem_of_nil]%elem_of_cons; done). by rewrite app_nil_r.
Qed.

Lemma accepted_by_other e out :
  (forall id c, e <> host_snapshot_ack id c) -> accepted_by e out = [].
Proof. destruct e; try done. intros H. by destruct (H id coverageEndSeq). Qed.

Lemma sent_tracked s c status :
  tracked_ids (memory (fst (hostSnapshotSentTransition s c status))) ⊆+ tracked_ids (memory s).
Proof.
  unfold hostSnapshotSentTransition, tracked_ids, superseded_ids.
  destruct (activeSnapshot (memory s)) as [a|] eqn:E; cbn; [|by rewrite E].
  case_if; cbn; [done|]. by apply submseteq_cons.
Qed.

Lemma client_tracked s :
  tracked_ids (memory (fst (requestClientRecovery s))) = tracked_ids (memory s).
Proof. unfold requestClientRecovery. by destruct (recoveryRequested _). Qed.

Lemma step_tracked s e :
  pending_ok (memory s) ->
  tracked_ids (memory (fst (reduceRecovery s e))) ++ accepted_by e (snd (reduceRecovery s e))
    ⊆+ tracked_ids (memory s) ++ event_ids e.
Proof.
  intros Hp. destruct e;
    try (rewrite accepted_by_other by done; rewrite app_nil_r);
    cbn [event_ids]; rewrite ?app_nil_r.
  all: try (unfold tracked_ids, superseded_ids; cbn; reflexivity).
  - by apply start_tracked.
  - cbn [reduceRecovery]. destruct (activeSnapshot (memory s)); [|by apply start_tracked].
    by apply submseteq_inserts_r.
  - apply sent_tracked.
  - by apply ack_tracked.
  - cbn [reduceRecovery]. case_bool_decide; [destruct snapshotId|]; cbn [fst];
      [by apply start_tracked | by rewrite app_nil_r |].
    by apply submseteq_inserts_r.
  - cbn [reduceRecovery]. destruct accepted; [reflexivity|]. by rewrite client_tracked.
  - by rewrite <- (client_tracked s).
  - by apply submseteq_nil_l.
Qed.

Lemma accepted_acks_bound s events :
  recovery_ok s ->
  accepted_acks s events ⊆+ tracked_ids (memory s) ++ (events ≫= event_ids).
Proof.
  revert s. induction events as [|e events IH]; intros s Hs; cbn; [apply submseteq_nil_l|].
  destruct (reduceRecovery s e) as [s1 out] eqn:E.
  pose proof (step_tracked s e (ok_pending s Hs)) as Ht.
  pose proof (recovery_ok_step s e Hs) as Hs1. rewrite E in Ht, Hs1. cbn in Ht, Hs1.
  specialize (IH s1 Hs1). rewrite app_assoc.
  trans (accepted_by e out ++ (tracked_ids (memory s1) ++ (events ≫= event_ids))).
  { by apply submseteq_skips_l. }
  rewrite app_assoc, (Permutation_app_comm (accepted_by e out)). by apply submseteq_skips_r.
Qed.

Lemma requested_step s e :
  rearms e = false -> recoveryRequested (memory s) = true ->
  is_client_event e = true ->
  recoveryRequested (memory (fst (reduceRecovery s e))) = true
    /\ requests (snd (reduceRecovery s e)) = 0%nat.
Proof.
  intros Hr Hq Hc. destruct e; try done; cbn [reduceRecovery]; try (by split).
  - destruct snapshotFollows; done.
  - unfold requestClientRecovery. by rewrite Hq.
Qed.

Lemma request_step s e :
  rearms e = false -> is_client_event e = true ->
  (requests (snd (reduceRecovery s e))
    + (if recoveryRequested (memory (fst (reduceRecovery s e))) then 0 else 1)
    <= (if recoveryRequested (memory s) then 0 else 1))%nat.
Proof.
  intros Hr Hc. destruct (recoveryRequested (memory s)) eqn:Hq.
  - destruct (requested_step s e Hr Hq Hc) as [-> ->]. lia.
  - destruct e; try done; cbn -[requests requestClientRecovery]; rewrite ?Hq;
      try (change (requests _) with 0%nat; lia).
    + change (requests _) with 0%nat. destruct snapshotFollows; [lia | done].
    + unfold requestClientRecovery. rewrite Hq. change (requests _) with 1%nat. cbn. lia.
Qed.

Lemma requests_app l k : requests (l ++ k) = (requests l + requests k)%nat.
Proof. unfold requests. by rewrite filter_app, length_app. Qed.

Lemma client_step_effects s e :
  is_client_event e = true -> forallb is_client_effect (snd (reduceRecovery s e)) = true.
Proof.
  intros Hc. destruct e; try done; cbn [reduceRecovery].
  - destruct accepted; [done|]. unfold requestClientRecovery. by destruct (recoveryRequested _).
  - unfold requestClientRecovery. by destruct (recoveryRequested _).
Qed.

Lemma reachable_ok d s : reachable d s -> recovery_ok s.
Proof. induction 1; [apply recovery_ok_create | by apply recovery_ok_step]. Qed.

(** ** Properties *)

(** In every reachable state a pending snapshot is the active one (same id
    and reason), at most 1024 superseded acknowledgements are remembered, each
    id once, and the state is "live" only while delivery is active. *)
Theorem recovery_reachable_ok d s : reachable d s -> recovery_ok s.
Proof. induction 1; [apply recovery_ok_create | by apply recovery_ok_step]. Qed.

(** An acknowledgement is accepted at most once per snapshot: when the
    host never reuses a snapshot id, no id is accepted twice in a run, whatever
    is sent, superseded, acknowledged or reset in between, and every accepted id
    was started. *)
Theorem accepted_acks_once d events :
  NoDup (events ≫= event_ids) ->
  let accepted := accepted_acks (createTerminalMultiplexRecoveryState d) events in
  NoDup accepted /\ forall id, id ∈ accepted -> id ∈ events ≫= event_ids.
Proof.
  intros Hd accepted.
  assert (accepted ⊆+ events ≫= event_ids) as Hb
    by exact (accepted_acks_bound _ events (recovery_ok_create d)).
  split; [|intros id Hid; by eapply elem_of_submseteq].
  apply submseteq_Permutation in Hb as [k Hk]. rewrite Hk in Hd. by apply NoDup_app in Hd as [Hd _].
Qed.

(** A new snapshot preempts the active one only when its reason has a
    strictly higher priority; a preempted snapshot that was already sent is
    announced as superseded and its acknowledgement stays acceptable. *)
Theorem snapshot_preemption d s id reason :
  reachable d s ->
  let '(s', out) := reduceRecovery s (host_start id reason) in
  match activeSnapshot (memory s) with
  | Some a =>
      if snapshotPriority reason <=? snapshotPriority (as_reason a)
      then s' = s /\ out = []
      else activeSnapshot (memory s') = Some (mkActive id reason)
           /\ pendingSnapshot (memory s') = None
           /\ match pendingSnapshot (memory s) with
              | Some p =>
                  out = [send_superseded_snapshot (ps_id p) (ps_coverageEndSeq p);
                         start_host_snapshot id reason]
                  /\ as_id a = ps_id p
                  /\ snd (reduceRecovery s'
                       (host_snapshot_ack (ps_id p) (ps_coverageEndSeq p)))
                     = [host_snapshot_ack_result true]
              | None => out = [start_host_snapshot id reason]
              end
  | None =>
      activeSnapshot (memory s') = Some (mkActive id reason)
      /\ out = [start_host_snapshot id reason]
  end.
Proof.
  intros Hr%reachable_ok. destruct Hr as [Hp Hl _ _].
  cbn [reduceRecovery]. unfold startHostSnapshotTransition.
  destruct (activeSnapshot (memory s)) as [a|] eqn:Ea.
  - case_if; [done|]. destruct (pendingSnapshot (memory s)) as [p|] eqn:Ep; [|done].
    pose proof (Hp p Ep) as Ha. rewrite Ea in Ha. injection Ha as ->. cbn.
    do 4 (split; [done|]). unfold hostSnapshotAckTransition. cbn.
    replace (existsb _ _) with true; [done|]. symmetry. apply existsb_exists.
    exists (mkSuperseded (ps_id p) (ps_coverageEndSeq p)).
    split; [by apply list_elem_of_In, remember_pending | cbn; lia].
  - destruct (pendingSnapshot (memory s)) as [p|] eqn:Ep; [|done].
    pose proof (Hp p Ep) as Ha. by rewrite Ea in Ha.
Qed.

(** The client half asks for a snapshot at most once until it is re-armed:
    along any run of client events none of which begins an initial restore,
    starts a snapshot, restores without a following snapshot or resets, at most
    one [request_client_snapshot] is emitted, and none at all when a request is
    already outstanding; in particular [client_resumed] does not re-arm it.
    Client events never produce a host effect. *)
Theorem client_requests_once s events :
  forallb is_client_event events = true ->
  forallb (fun e => negb (rearms e)) events = true ->
  (requests (snd (run_recovery s events))
     <= if recoveryRequested (memory s) then 0 else 1)%nat
  /\ forallb is_client_effect (snd (run_recovery s events)) = true.
Proof.
  revert s. induction events as [|e events IH]; intros s Hc Hr.
  { cbn. split; [|done]. destruct (recoveryRequested (memory s)); lia. }
  cbn in Hc, Hr |- *. apply andb_true_iff in Hc as [Hc Hcs], Hr as [Hr%negb_true_iff Hrs].
  pose proof (request_step s e Hr Hc) as H1. pose proof (client_step_effects s e Hc) as H2.
  destruct (reduceRecovery s e) as [s1 out1]. destruct (IH s1 Hcs Hrs) as [H3 H4].
  destruct (run_recovery s1 events) as [s2 out2]. cbn [fst snd] in *.
  rewrite requests_app, forallb_app, H2, H4. split; [lia | done].
Qed.

(** ** Witnesses *)

Definition sample_events : list TerminalMultiplexRecoveryEvent :=
  [host_start 1 resume; host_snapshot_sent 10 0; host_start 2 recovery; host_snapshot_ack 1 10;
   host_snapshot_sent 20 0; host_snapshot_ack 2 20; host_snapshot_ack 1 10; host_snapshot_ack 2 20].

Lemma accepted_acks_once_witness :
  accepted_acks (createTerminalMultiplexRecoveryState active) sample_events = [1; 2]
  /\ NoDup (accepted_acks (createTerminalMultiplexRecoveryState active) sample_events).
Proof.
  split; [vm_compute; reflexivity|].
  apply (accepted_acks_once active sample_events). apply (bool_decide_unpack _). vm_compute. exact I.
Defined.

Definition sample_pending : TerminalMultiplexRecoveryState :=
  fst (run_recovery (createTerminalMultiplexRecoveryState active)
         [host_start 1 resume; host_snapshot_sent 10 0]).

Lemma sample_pending_reachable : reachable active sample_pending.
Proof.
  change sample_pending with (fst (reduceRecovery (fst (reduceRecovery
    (createTerminalMultiplexRecoveryState active) (host_start 1 resume)))
    (host_snapshot_sent 10 0))).
  repeat constructor.
Qed.

Lemma recovery_reachable_ok_witness :
  pendingSnapshot (memory sample_pending) = Some (mkPending 1 resume 10)
  /\ recovery_ok sample_pending.
Proof.
  split; [reflexivity|]. apply (recovery_reachable_ok active). exact sample_pending_reachable.
Defined.

Lemma snapshot_preemption_witness :
  snd (reduceRecovery sample_pending (host_start 2 recovery))
    = [send_superseded_snapshot 1 10; start_host_snapshot 2 recovery]
  /\ activeSnapshot (memory (fst (reduceRecovery sample_pending (host_start 2 recovery))))
     = Some (mkActive 2 recovery).
Proof.
  split; [reflexivity|].
  pose proof (snapshot_preemption active sample_pending 2 recovery sample_pending_reachable) as H.
  cbn in H. apply H.
Defined.

(** A recovery request that the host answers with a failed snapshot: it sends no
    snapshot start, the client resumes, and the next gap asks for nothing. *)
Definition failed_recovery : list TerminalMultiplexRecoveryEvent :=
  [client_recovery_needed; client_resumed; client_recovery_needed].

Lemma client_requests_once_witness :
  requests (snd (run_recovery
    (fst (run_recovery (createTerminalMultiplexRecoveryState active)
       [client_snapshot_started true; client_resumed])) failed_recovery)) = 1%nat
  /\ (requests (snd (run_recovery
    (fst (run_recovery (createTerminalMultiplexRecoveryState active)
       [client_snapshot_started true; client_resumed])) failed_recovery)) <= 1)%nat.
Proof.
  split; [reflexivity|].
  refine (proj1 (client_requests_once (fst (run_recovery
    (createTerminalMultiplexRecoveryState active)
       [client_snapshot_started true; client_resumed])) failed_recovery _ _)); reflexivity.
Defined.
