(* ===== verification/Json.v ===== *)
(** The strict JSON of terminal control payloads
    (packages/protocol/typescript/src/terminal/multiplex/json.ts).

    [StrictJsonParser] is a recursive descent over a JavaScript string; its
    [offset] is here the suffix of the text that is still to be read.  [Throws]
    is an exception of the parser, which [decodeTerminalMultiplexJson] turns into
    [null]; [OutOfFuel] is the model's own and is proved unreachable for the fuel
    the entry point passes.  The call stack of the source is not bounded here: a
    document nested deeper than the stack of the engine is not modelled.

    Numbers are binary64 values ([spec_float]); [Number(literal)] is the
    correctly rounded value of the decimal.  An object is its list of properties
    in property order. *)

From stdpp Require Import base list.
From Stdlib Require Import ZArith Lia ZifyBool Ascii String SpecFloat.
From S2P Require Import Prelude JsText.

Open Scope Z_scope.

(** ASCII literals of the source as JavaScript strings. *)
Fixpoint js (s : string) : jsstring :=
  match s with
  | EmptyString => []
  | String a rest => Z.of_N (N_of_ascii a) :: js rest
  end.

Definition jsstring_eqb (a b : jsstring) : bool := bool_decide (a = b).

#[export] Instance spec_float_eq_dec : EqDecision spec_float.
Proof. solve_decision. Defined.

#[local] Set Warnings "-register-all".

Inductive json : Type :=
  | JNull
  | JBool (b : bool)
  | JNum (x : spec_float)
  | JStr (s : jsstring)
  | JArr (l : list json)
  | JObj (props : list (jsstring * json)).

Definition TerminalMultiplexJsonObject : Type := list (jsstring * json).

(** [value.key]: [None] is [undefined]. *)
Fixpoint property (key : jsstring) (props : TerminalMultiplexJsonObject) : option json :=
  match props with
  | [] => None
  | (k, v) :: rest => if jsstring_eqb k key then Some v else property key rest
  end.

(** ** Numbers *)

Definition float_round (negative : bool) (m : positive) : spec_float :=
  binary_round 53 1024 negative m 0.

(** [Number] of the literal [±m e e10]: the nearest binary64 value. *)
Definition decimal_to_float (negative : bool) (m e10 : Z) : spec_float :=
  match m with
  | Zpos m' =>
      if 0 <=? e10 then float_round negative (Z.to_pos (m * 10 ^ e10))
      else SFdiv 53 1024 (S754_finite negative m' 0) (S754_finite false (Z.to_pos (10 ^ (- e10))) 0)
  | _ => S754_zero negative
  end.

Definition MAX_SAFE_INTEGER : Z := 2 ^ 53 - 1.

Definition max_safe_float : spec_float := S754_finite false (2 ^ 53 - 1) 0.

(** [!Number.isFinite(value) || Math.abs(value) > Number.MAX_SAFE_INTEGER]. *)
Definition is_unsafe_number (x : spec_float) : bool :=
  match x with
  | S754_zero _ | S754_finite _ _ _ => SFltb max_safe_float (SFabs x)
  | S754_infinity _ | S754_nan => true
  end.

(** The integer a number is, if it is one ([Number.isInteger]). *)
Definition integer_of (x : spec_float) : option Z :=
  match x with
  | S754_zero _ => Some 0
  | S754_finite s m e =>
      let v := if s then Zneg m else Zpos m in
      if 0 <=? e then Some (v * 2 ^ e)
      else if v mod 2 ^ (- e) =? 0 then Some (v / 2 ^ (- e)) else None
  | _ => None
  end.

Definition number_of_Z (z : Z) : spec_float := decimal_to_float (z <? 0) (Z.abs z) 0.

(** ** The parser *)

Inductive parsed (A : Type) : Type :=
  | OutOfFuel
  | Throws
  | Parsed (a : A) (rest : jsstring).

Arguments OutOfFuel {A}.
Arguments Throws {A}.
Arguments Parsed {A} a rest.

Definition is_ws (c : Z) : bool := (c =? 0x20) || (c =? 0x09) || (c =? 0x0d) || (c =? 0x0a).

Fixpoint skipWhitespace (s : jsstring) : jsstring :=
  match s with
  | c :: rest => if is_ws c then skipWhitespace rest else s
  | [] => []
  end.

Definition expect (token : Z) (s : jsstring) : parsed unit :=
  match s with
  | c :: rest => if c =? token then Parsed tt rest else Throws
  | [] => Throws
  end.

Fixpoint starts_with (prefix s : jsstring) : option jsstring :=
  match prefix, s with
  | [], _ => Some s
  | p :: prefix', c :: rest => if p =? c then starts_with prefix' rest else None
  | _ :: _, [] => None
  end.

Definition parseLiteral (literal : jsstring) (value : json) (s : jsstring) : parsed json :=
  match starts_with literal s with
  | Some rest => Parsed value rest
  | None => Throws
  end.

Definition is_digit (c : Z) : bool := (0x30 <=? c) && (c <=? 0x39).

Definition hex_value (c : Z) : option Z :=
  if is_digit c then Some (c - 0x30)
  else if (0x61 <=? c) && (c <=? 0x66) then Some (c - 0x61 + 10)
  else if (0x41 <=? c) && (c <=? 0x46) then Some (c - 0x41 + 10)
  else None.

(** The character of an escape other than [u]. *)
Definition simple_escape (e : Z) : option Z :=
  if (e =? 0x22) || (e =? 0x5c) || (e =? 0x2f) then Some e
  else if e =? 0x62 then Some 0x08
  else if e =? 0x66 then Some 0x0c
  else if e =? 0x6e then Some 0x0a
  else if e =? 0x72 then Some 0x0d
  else if e =? 0x74 then Some 0x09
  else None.

(** The body of a string after its opening quote.  The source finds the closing
    quote, checking every escape, and hands the slice to [JSON.parse], which
    replaces the escapes by their characters; both are done in one pass here. *)
Fixpoint parseStringBody (s : jsstring) : parsed jsstring :=
  let cons_to (c : Z) (r : parsed jsstring) :=
    match r with Parsed body rest => Parsed (c :: body) rest | r => r end in
  match s with
  | [] => Throws
  | c :: rest =>
      if c =? 0x22 then Parsed [] rest
      else if c <? 0x20 then Throws
      else if c =? 0x5c then
        match rest with
        | [] => Throws
        | escape :: rest1 =>
            if escape =? 0x75 then
              match rest1 with
              | h1 :: h2 :: h3 :: h4 :: rest5 =>
                  match hex_value h1, hex_value h2, hex_value h3, hex_value h4 with
                  | Some d1, Some d2, Some d3, Some d4 =>
                      cons_to (((d1 * 16 + d2) * 16 + d3) * 16 + d4) (parseStringBody rest5)
                  | _, _, _, _ => Throws
                  end
              | _ => Throws
              end
            else match simple_escape escape with
                 | Some v => cons_to v (parseStringBody rest1)
                 | None => Throws
                 end
        end
      else cons_to c (parseStringBody rest)
  end.

Definition parseString (s : jsstring) : parsed jsstring :=
  match s with
  | c :: rest => if c =? 0x22 then parseStringBody rest else Throws
  | [] => Throws
  end.

(** [\d*]: the value and number of the digits read, after [acc]. *)
Fixpoint digits (acc count : Z) (s : jsstring) : Z * Z * jsstring :=
  match s with
  | c :: rest =>
      if is_digit c then digits (acc * 10 + (c - 0x30)) (count + 1) rest else (acc, count, s)
  | [] => (acc, count, [])
  end.

(** [(?:\.\d+)?] after the integer part [m]: mantissa and its decimal exponent. *)
Definition fraction_part (m : Z) (s : jsstring) : Z * Z * jsstring :=
  match s with
  | c :: rest =>
      if c =? 0x2e then
        let '(m', count, rest') := digits m 0 rest in
        if count =? 0 then (m, 0, s) else (m', - count, rest')
      else (m, 0, s)
  | [] => (m, 0, s)
  end.

(** [(?:[eE][+-]?\d+)?]. *)
Definition exponent_part (s : jsstring) : Z * jsstring :=
  match s with
  | c :: rest =>
      if (c =? 0x65) || (c =? 0x45) then
        let '(negative, unsigned) :=
          match rest with
          | g :: r => if g =? 0x2b then (false, r) else if g =? 0x2d then (true, r) else (false, rest)
          | [] => (false, rest)
          end in
        let '(e, count, rest') := digits 0 0 unsigned in
        if count =? 0 then (0, s) else ((if negative then - e else e), rest')
      else (0, s)
  | [] => (0, s)
  end.

Definition parseNumber (s : jsstring) : parsed json :=
  let '(negative, unsigned) :=
    match s with
    | g :: r => if g =? 0x2d then (true, r) else (false, s)
    | [] => (false, s)
    end in
  let integer :=
    match unsigned with
    | c :: rest =>
        if c =? 0x30 then Some (0, rest)
        else if is_digit c then let '(m, _, rest') := digits 0 0 unsigned in Some (m, rest')
        else None
    | [] => None
    end in
  match integer with
  | None => Throws
  | Some (m, s1) =>
      let '(m', e1, s2) := fraction_part m s1 in
      let '(e2, s3) := exponent_part s2 in
      let value := decimal_to_float negative m' (e1 + e2) in
      if is_unsafe_number value then Throws else Parsed (JNum value) s3
  end.

(** [parseValue], [parseObject] and [parseArray].  [parseMembers] and
    [parseElements] are the two [while] loops, on entry of an iteration, with the
    properties and elements already read. *)
Fixpoint parseValue (fuel : nat) (s : jsstring) {struct fuel} : parsed json :=
  match fuel with
  | O => OutOfFuel
  | S fuel =>
      match s with
      | [] => Throws
      | token :: rest =>
          if token =? 0x7b then
            match skipWhitespace rest with
            | [] => Throws
            | c :: rest' =>
                if c =? 0x7d then Parsed (JObj []) rest' else parseMembers fuel [] (c :: rest')
            end
          else if token =? 0x5b then
            match skipWhitespace rest with
            | [] => Throws
            | c :: rest' =>
                if c =? 0x5d then Parsed (JArr []) rest' else parseElements fuel [] (c :: rest')
            end
          else if token =? 0x22 then
            match parseString s with
            | Parsed v rest' => Parsed (JStr v) rest'
            | Throws => Throws
            | OutOfFuel => OutOfFuel
            end
          else if token =? 0x74 then parseLiteral (js "true") (JBool true) s
          else if token =? 0x66 then parseLiteral (js "false") (JBool false) s
          else if token =? 0x6e then parseLiteral (js "null") JNull s
          else parseNumber s
      end
  end
with parseMembers (fuel : nat) (object : TerminalMultiplexJsonObject) (s : jsstring)
    {struct fuel} : parsed json :=
  match fuel with
  | O => OutOfFuel
  | S fuel =>
      match parseString s with
      | OutOfFuel => OutOfFuel
      | Throws => Throws
      | Parsed key s1 =>
          if bool_decide (key ∈ object.*1) then Throws else
          match expect 0x3a (skipWhitespace s1) with
          | OutOfFuel => OutOfFuel
          | Throws => Throws
          | Parsed _ s2 =>
              match parseValue fuel (skipWhitespace s2) with
              | OutOfFuel => OutOfFuel
              | Throws => Throws
              | Parsed value s3 =>
                  match skipWhitespace s3 with
                  | [] => Throws
                  | token :: s4 =>
                      let object := object ++ [(key, value)] in
                      if token =? 0x7d then Parsed (JObj object) s4
                      else if token =? 0x2c then parseMembers fuel object (skipWhitespace s4)
                      else Throws
                  end
              end
          end
      end
  end
with parseElements (fuel : nat) (array : list json) (s : jsstring) {struct fuel} : parsed json :=
  match fuel with
  | O => OutOfFuel
  | S fuel =>
      match s with
      | [] => Throws
      | _ :: _ =>
          match parseValue fuel s with
          | OutOfFuel => OutOfFuel
          | Throws => Throws
          | Parsed value s1 =>
              match skipWhitespace s1 with
              | [] => Throws
              | token :: s2 =>
                  let array := array ++ [value] in
                  if token =? 0x5d then Parsed (JArr array) s2
                  else if token =? 0x2c then parseElements fuel array (skipWhitespace s2)
                  else Throws
              end
          end
      end
  end.

(** [new StrictJsonParser(text).parse()]. *)
Definition parse (text : jsstring) : parsed json :=
  match parseValue (S (2 * List.length text)) (skipWhitespace text) with
  | Parsed value rest =>
      match skipWhitespace rest with
      | [] => Parsed value []
      | _ :: _ => Throws
      end
  | r => r
  end.

Definition isJsonObject (value : json) : option TerminalMultiplexJsonObject :=
  match value with JObj props => Some props | _ => None end.

Definition decodeTerminalMultiplexJson (payload : bytes) : option TerminalMultiplexJsonObject :=
  match text_decode payload with
  | None => None
  | Some text =>
      match text with
      | c :: _ =>
          if c =? 0xfeff then None
          else match parse text with Parsed value _ => isJsonObject value | _ => None end
      | [] => match parse text with Parsed value _ => isJsonObject value | _ => None end
      end
  end.

(** ** The printer *)

(** [validateJsonValue]: false when it throws. *)
Fixpoint validateJsonValue (value : json) : bool :=
  match value with
  | JNum x => negb (is_unsafe_number x)
  | JNull | JStr _ | JBool _ => true
  | JArr l => forallb validateJsonValue l
  | JObj props => forallb (fun p => validateJsonValue (snd p)) props
  end.

(** The decimal digits of a natural number, most significant first. *)
Fixpoint nat_digits (fuel : nat) (n : Z) (acc : jsstring) : jsstring :=
  match fuel with
  | O => acc
  | S fuel =>
      let acc := (0x30 + n mod 10) :: acc in
      if n <? 10 then acc else nat_digits fuel (n / 10) acc
  end.

Definition decimal (n : Z) : jsstring := nat_digits (S (Z.to_nat (Z.log2 n))) n [].

(** Number::toString of a positive fraction [m / 2^d]: the fewest digits [k]
    whose decimal rounds to the number, and among those the closest. *)
Definition shortest_decimal (m : positive) (d : Z) : option (Z * Z) :=
  let x := S754_finite false m (- d) in
  let scaled (e10 : Z) : Z * Z :=
    if 0 <=? e10 then (Zpos m, 2 ^ d * 10 ^ e10) else (Zpos m * 10 ^ (- e10), 2 ^ d) in
  let top := (* the decimal exponent n: 10^(n-1) <= x < 10^n *)
    List.find (fun n => let '(a, b) := scaled n in a <? b)
      (map (fun i => Z.of_nat i - 323) (seq 0 641)) in
  match top with
  | None => None
  | Some n =>
      let candidate (k : nat) : option (Z * Z) :=
        let e10 := n - Z.of_nat k in
        let '(a, b) := scaled e10 in
        let s0 := a / b in
        let ok s := bool_decide (decimal_to_float false s e10 = x) in
        let below := 2 * (a - s0 * b) <? b in
        let tie_even := (2 * (a - s0 * b) =? b) && Z.even s0 in
        let carry s := if s =? 10 ^ Z.of_nat k then (1, n) else (s, e10) in
        match ok s0, ok (s0 + 1) with
        | true, true => Some (carry (if below || tie_even then s0 else s0 + 1))
        | true, false => Some (carry s0)
        | false, true => Some (carry (s0 + 1))
        | false, false => None
        end in
      head (omap candidate (seq 1 17))
  end.

Definition zeros (n : Z) : jsstring := replicate (Z.to_nat n) 0x30.

(** The layout of [s × 10^e10] with [s] of [k] digits. *)
Definition layout_decimal (s e10 : Z) : jsstring :=
  let ds := decimal s in
  let k := Z.of_nat (List.length ds) in
  let n := k + e10 in
  if (0 <=? e10) && (n <=? 21) then ds ++ zeros e10
  else if (0 <? n) && (n <=? 21) then take (Z.to_nat n) ds ++ js "." ++ drop (Z.to_nat n) ds
  else if (-6 <? n) && (n <=? 0) then js "0." ++ zeros (- n) ++ ds
  else
    let exponent := (if 0 <=? n - 1 then js "+" else js "-") ++ decimal (Z.abs (n - 1)) in
    match ds with
    | [d] => [d] ++ js "e" ++ exponent
    | d :: more => [d] ++ js "." ++ more ++ js "e" ++ exponent
    | [] => []
    end.

(** [String(x)] for the finite numbers [validateJsonValue] accepts. *)
Definition number_text (x : spec_float) : jsstring :=
  match integer_of x with
  | Some z => (if z <? 0 then js "-" else []) ++ decimal (Z.abs z)
  | None =>
      match x with
      | S754_finite s m e =>
          match shortest_decimal m (- e) with
          | Some (digits, e10) => (if s then js "-" else []) ++ layout_decimal digits e10
          | None => []
          end
      | _ => js "null"
      end
  end.

Definition hex_digit (d : Z) : Z := if d <? 10 then 0x30 + d else 0x61 + (d - 10).

Definition unicode_escape (u : Z) : jsstring :=
  [0x5c; 0x75; hex_digit (u / 4096); hex_digit ((u / 256) mod 16);
   hex_digit ((u / 16) mod 16); hex_digit (u mod 16)].

(** QuoteJSONString, without the quotes: lone surrogates are escaped. *)
Definition quote_unit (u : Z) : jsstring :=
  if u =? 0x22 then [0x5c; 0x22]
  else if u =? 0x5c then [0x5c; 0x5c]
  else if u =? 0x08 then [0x5c; 0x62]
  else if u =? 0x0c then [0x5c; 0x66]
  else if u =? 0x0a then [0x5c; 0x6e]
  else if u =? 0x0d then [0x5c; 0x72]
  else if u =? 0x09 then [0x5c; 0x74]
  else if u <? 0x20 then unicode_escape u
  else [u].

Fixpoint quote_body (s : jsstring) : jsstring :=
  match s with
  | [] => []
  | u :: rest =>
      if negb (is_surrogate u) then quote_unit u ++ quote_body rest
      else match rest with
           | v :: rest' =>
               if is_lead u && is_trail v then u :: v :: quote_body rest'
               else unicode_escape u ++ quote_body rest
           | [] => unicode_escape u
           end
  end.

Definition quote (s : jsstring) : jsstring := 0x22 :: quote_body s ++ [0x22].

Fixpoint join (separator : jsstring) (pieces : list jsstring) : jsstring :=
  match pieces with
  | [] => []
  | [p] => p
  | p :: rest => p ++ separator ++ join separator rest
  end.

(** [JSON.stringify(value)]. *)
Fixpoint stringify (value : json) : jsstring :=
  match value with
  | JNull => js "null"
  | JBool b => if b then js "true" else js "false"
  | JNum x => number_text x
  | JStr s => quote s
  | JArr l => js "[" ++ join (js ",") (map stringify l) ++ js "]"
  | JObj props =>
      js "{" ++ join (js ",") (map (fun p => quote (fst p) ++ js ":" ++ stringify (snd p)) props)
        ++ js "}"
  end.

(** [None]: it throws. *)
Definition encodeTerminalMultiplexJson (value : TerminalMultiplexJsonObject) : option bytes :=
  if validateJsonValue (JObj value) then Some (text_encode (stringify (JObj value))) else None.

(** ** Specification vocabulary *)

(** Values the parser may return: distinct keys, safe finite numbers. *)
Fixpoint json_ok (value : json) : bool :=
  match value with
  | JNum x => negb (is_unsafe_number x)
  | JNull | JStr _ | JBool _ => true
  | JArr l => forallb json_ok l
  | JObj props => bool_decide (NoDup props.*1) && forallb (fun p => json_ok (snd p)) props
  end.

(** Values whose text is read back: strings of code units, integer numbers. *)
Inductive printable : json -> Prop :=
  | printable_null : printable JNull
  | printable_bool b : printable (JBool b)
  | printable_num z : - MAX_SAFE_INTEGER <= z <= MAX_SAFE_INTEGER -> printable (JNum (number_of_Z z))
  | printable_str s : Forall is_u16 s -> printable (JStr s)
  | printable_arr l : Forall printable l -> printable (JArr l)
  | printable_obj props :
      NoDup props.*1 -> Forall (fun p => Forall is_u16 (fst p) /\ printable (snd p)) props ->
      printable (JObj props).

(** ** Progress and termination of the parser *)

(** The parser consumed at least one character, or failed. *)
Definition progress {A} (s : jsstring) (r : parsed A) : Prop :=
  match r with Parsed _ rest => (List.length rest < List.length s)%nat | _ => True end.

Lemma skipWhitespace_length s : (List.length (skipWhitespace s) <= List.length s)%nat.
Proof. induction s as [|c s IH]; cbn; [lia|]. case_if; cbn; lia. Qed.

Lemma expect_progress t s : progress s (expect t s).
Proof. destruct s as [|c s]; cbn; [done|]. case_if; cbn; [lia | done]. Qed.

Lemma starts_with_length p s rest :
  starts_with p s = Some rest -> List.length s = (List.length p + List.length rest)%nat.
Proof.
  revert s. induction p as [|a p IH]; intros [|c s]; cbn; try done; [by intros [= <-]..|].
  case_if; [|done]. intros H. by rewrite (IH _ H).
Qed.

Lemma parseLiteral_progress l v s : l <> [] -> progress s (parseLiteral l v s).
Proof.
  intros Hl. unfold parseLiteral. destruct (starts_with l s) as [rest|] eqn:E; [|done].
  apply starts_with_length in E. destruct l; [done|]. cbn in *. lia.
Qed.

Lemma parseStringBody_step s :
  (exists rest, parseStringBody s = Parsed [] rest /\ (List.length rest < List.length s)%nat)
  \/ parseStringBody s = Throws
  \/ exists c rest, (List.length rest < List.length s)%nat /\
       parseStringBody s = match parseStringBody rest with
                           | Parsed body r => Parsed (c :: body) r
                           | r => r
                           end.
Proof.
  destruct s as [|c s]; cbn [parseStringBody]; [by right; left|].
  case_if; [left; eexists; split; [done | cbn; lia]|].
  case_if; [by right; left|].
  case_if; [|right; right; exists c, s; split; [cbn; lia | by destruct (parseStringBody s)]].
  destruct s as [|escape s]; [by right; left|].
  case_if.
  - destruct s as [|h1 [|h2 [|h3 [|h4 s]]]]; [by right; left..|].
    destruct (hex_value h1), (hex_value h2), (hex_value h3), (hex_value h4);
      try (by right; left).
    right; right. eexists _, s. split; [cbn; lia | by destruct (parseStringBody s)].
  - destruct (simple_escape escape); [|by right; left].
    right; right. eexists _, s. split; [cbn; lia | by destruct (parseStringBody s)].
Qed.

Lemma parseStringBody_total n s :
  (List.length s < n)%nat -> parseStringBody s <> OutOfFuel /\ progress s (parseStringBody s).
Proof.
  revert s. induction n as [|n IH]; intros s Hn; [lia|].
  destruct (parseStringBody_step s) as [(rest & -> & Hr)|[->|(c & rest & Hr & ->)]]; [done..|].
  destruct (IH rest ltac:(lia)) as [Hne Hp].
  destruct (parseStringBody rest); cbn in *; [done..|]. split; [done | lia].
Qed.

Lemma parseString_total s : parseString s <> OutOfFuel /\ progress s (parseString s).
Proof.
  destruct s as [|c s]; [done|]. cbn [parseString]. case_if; [|done].
  destruct (parseStringBody_total (S (List.length s)) s ltac:(lia)) as [Hne Hp].
  split; [done|]. destruct (parseStringBody s); cbn in *; [done..|lia].
Qed.

Lemma digits_length s : forall acc n, (List.length (snd (digits acc n s)) <= List.length s)%nat.
Proof.
  induction s as [|c s IH]; intros acc n; cbn [digits]; [done|].
  case_if; [|done]. cbn [List.length]. specialize (IH (acc * 10 + (c - 48)) (n + 1)). lia.
Qed.

Lemma fraction_length m s : (List.length (snd (fraction_part m s)) <= List.length s)%nat.
Proof.
  destruct s as [|c s]; cbn [fraction_part]; [done|]. case_if; [|done].
  pose proof (digits_length s m 0) as H. destruct (digits m 0 s) as [[m' k] r]. cbn in H.
  case_if; cbn; lia.
Qed.

Lemma exponent_length s : (List.length (snd (exponent_part s)) <= List.length s)%nat.
Proof.
  destruct s as [|c s]; cbn [exponent_part]; [done|]. case_if; [|done].
  assert (forall (b : bool) u, (List.length u <= List.length s)%nat ->
    let r := (let '(e, count, rest') := digits 0 0 u in
      if count =? 0 then (0, c :: s) else (if b then - e else e, rest')) in
    (List.length (snd r) <= List.length (c :: s))%nat) as H.
  { intros b u Hu r. subst r. pose proof (digits_length u 0 0) as H.
    destruct (digits 0 0 u) as [[e k] r]. cbn in H. case_if; cbn; lia. }
  destruct s as [|g r]; [exact (H false [] ltac:(done))|].
  case_if; [|case_if];
    [apply (H false r) | apply (H true r) | apply (H false (g :: r))]; cbn; lia.
Qed.

Lemma parseNumber_total s : parseNumber s <> OutOfFuel /\ progress s (parseNumber s).
Proof.
  unfold parseNumber.
  assert (exists b u, match s with [] => (false, s)
      | g :: r => if g =? 45 then (true, r) else (false, s) end = (b, u)
      /\ (List.length u <= List.length s)%nat) as (b & u & -> & Hu).
  { destruct s as [|g r]; [by eexists _, _|]. case_if; eexists _, _; split; cbn; eauto. }
  destruct u as [|c u]; [done|].
  assert (forall m s1, (List.length s1 <= List.length u)%nat ->
    let r := (let '(m', e1, s2) := fraction_part m s1 in
      let '(e2, s3) := exponent_part s2 in
      if is_unsafe_number (decimal_to_float b m' (e1 + e2)) then Throws
      else Parsed (JNum (decimal_to_float b m' (e1 + e2))) s3) in
    r <> OutOfFuel /\ progress s r) as H.
  { intros m s1 Hs1. pose proof (fraction_length m s1) as Hf.
    destruct (fraction_part m s1) as [[m' e1] s2]. cbn in Hf.
    pose proof (exponent_length s2) as He. destruct (exponent_part s2) as [e2 s3]. cbn in He.
    case_if; [done|]. split; [done|]. cbn in *. lia. }
  case_if; [by apply H|]. case_if; [|done].
  cbn [digits]. rewrite E0. pose proof (digits_length u (0 * 10 + (c - 48)) (0 + 1)) as Hd.
  destruct (digits _ _ u) as [[m k] r]. apply H. exact Hd.
Qed.

(** What a parsing function guarantees of its result on [s]; an element costs one
    more step than the characters it reads, hence the slack [k]. *)
Definition sound (k fuel : nat) (s : jsstring) (r : parsed json) : Prop :=
  match r with
  | OutOfFuel => (fuel <= 2 * List.length s + k)%nat
  | Throws => True
  | Parsed v rest => (List.length rest < List.length s)%nat /\ json_ok v = true
  end.

Lemma sound_weaken k k' fuel fuel' s s' r :
  sound k fuel s r -> (List.length s <= List.length s')%nat ->
  (2 * List.length s + k + fuel' <= fuel + 2 * List.length s' + k')%nat -> sound k' fuel' s' r.
Proof. destruct r; cbn; [lia | done | intros [? ?]; split; [lia | done]]. Qed.

Lemma parseLiteral_sound k fuel l v s :
  l <> [] -> json_ok v = true -> sound k fuel s (parseLiteral l v s).
Proof.
  intros Hl Hv. pose proof (parseLiteral_progress l v s Hl) as H. revert H. unfold parseLiteral.
  destruct (starts_with l s); [|done]. intros H. by split.
Qed.

Lemma parseNumber_sound k fuel s : sound k fuel s (parseNumber s).
Proof.
  destruct (parseNumber_total s) as [Hne Hp].
  assert (forall v r, parseNumber s = Parsed v r -> json_ok v = true) as Hv.
  { intros v r. unfold parseNumber.
    destruct (match s with [] => _ | _ => _ end) as [b u].
    destruct (match u with [] => _ | _ => _ end) as [[m s1]|]; [|done].
    destruct (fraction_part m s1) as [[m' e1] s2]. destruct (exponent_part s2) as [e2 s3].
    destruct (is_unsafe_number _) eqn:E; [done|]. intros [= <- <-]. cbn. by rewrite E. }
  destruct (parseNumber s) as [| |v r]; cbn in *; [done..|]. split; [done|]. by apply (Hv v r).
Qed.

Definition parsers_sound (fuel : nat) : Prop :=
  (forall s, sound 0 fuel s (parseValue fuel s))
  /\ (forall o s, json_ok (JObj o) = true -> sound 1 fuel s (parseMembers fuel o s))
  /\ (forall a s, json_ok (JArr a) = true -> sound 1 fuel s (parseElements fuel a s)).

Lemma parseValue_sound_step fuel : parsers_sound fuel -> forall s, sound 0 (S fuel) s (parseValue (S fuel) s).
Proof.
  intros (_ & HM & HE) [|token s]; [done|]. cbn [parseValue].
  pose proof (skipWhitespace_length s) as Hw.
  case_if.
  { destruct (skipWhitespace s) as [|c r]; [done|]. cbn in Hw. case_if; [cbn; split; [lia | done]|].
    eapply sound_weaken; [by apply HM | cbn; lia..]. }
  case_if.
  { destruct (skipWhitespace s) as [|c r]; [done|]. cbn in Hw. case_if; [cbn; split; [lia | done]|].
    eapply sound_weaken; [by apply HE | cbn; lia..]. }
  case_if.
  { destruct (parseString_total (token :: s)) as [Hne Hp].
    destruct (parseString (token :: s)); [done | done | by split]. }
  do 3 (case_if; [by apply parseLiteral_sound|]). apply parseNumber_sound.
Qed.

Lemma parseMembers_sound_step fuel :
  parsers_sound fuel -> forall o s, json_ok (JObj o) = true ->
  sound 1 (S fuel) s (parseMembers (S fuel) o s).
Proof.
  intros (HV & HM & _) o s Ho. cbn [parseMembers].
  destruct (parseString_total s) as [Hne Hp]. destruct (parseString s) as [| |key s1]; [done..|].
  cbn in Hp. case_bool_decide as Hk; [done|].
  pose proof (skipWhitespace_length s1). pose proof (expect_progress 0x3a (skipWhitespace s1)) as He.
  destruct (expect 0x3a (skipWhitespace s1)) as [| |[] s2] eqn:Ex; [|done|].
  { destruct (skipWhitespace s1); cbn in Ex; [done | by case_if_in Ex]. }
  cbn in He. pose proof (skipWhitespace_length s2). specialize (HV (skipWhitespace s2)).
  destruct (parseValue fuel (skipWhitespace s2)) as [| |value s3]; cbn in HV |- *; [lia | done|].
  destruct HV as [Hl Hv]. pose proof (skipWhitespace_length s3) as Hw3.
  destruct (skipWhitespace s3) as [|token s4]; [done|]. cbn in Hw3.
  assert (json_ok (JObj (o ++ [(key, value)])) = true) as Ho'.
  { cbn in Ho |- *. apply andb_true_iff in Ho as [Hnd%bool_decide_eq_true Hall].
    apply andb_true_iff. rewrite forallb_app, fmap_app.
    split; [|by rewrite Hall; cbn; rewrite Hv]. apply bool_decide_eq_true.
    apply NoDup_app. split; [done|]. split; [|apply NoDup_singleton].
    intros x Hx ->%list_elem_of_singleton. done. }
  case_if; [cbn; split; [lia | done]|]. case_if; [|done].
  pose proof (skipWhitespace_length s4). eapply sound_weaken; [by apply HM | lia..].
Qed.

Lemma parseElements_sound_step fuel :
  parsers_sound fuel -> forall a s, json_ok (JArr a) = true ->
  sound 1 (S fuel) s (parseElements (S fuel) a s).
Proof.
  intros (HV & _ & HE) a s Ha. cbn [parseElements]. destruct s as [|c s]; [done|].
  specialize (HV (c :: s)).
  destruct (parseValue fuel (c :: s)) as [| |value s1]; cbn in HV |- *; [lia | done|].
  destruct HV as [Hl Hv]. pose proof (skipWhitespace_length s1) as Hw1.
  destruct (skipWhitespace s1) as [|token s2]; [done|]. cbn in Hw1.
  assert (json_ok (JArr (a ++ [value])) = true) as Ha'.
  { cbn in Ha |- *. rewrite forallb_app, Ha. cbn. by rewrite Hv. }
  case_if; [cbn; split; [lia | done]|]. case_if; [|done].
  pose proof (skipWhitespace_length s2). eapply sound_weaken; [by apply HE | cbn; lia..].
Qed.

Lemma parsers_always_sound fuel : parsers_sound fuel.
Proof.
  induction fuel as [|fuel IH]; [repeat split; intros; cbn; lia|].
  repeat split; [by apply parseValue_sound_step | by apply parseMembers_sound_step
                | by apply parseElements_sound_step].
Qed.

Lemma parse_total text :
  match parse text with
  | OutOfFuel => False
  | Throws => True
  | Parsed v rest => rest = [] /\ json_ok v = true
  end.
Proof.
  unfold parse. pose proof (proj1 (parsers_always_sound (S (2 * List.length text))) (skipWhitespace text)) as H.
  pose proof (skipWhitespace_length text).
  destruct (parseValue _ _) as [| |v rest]; cbn in H; [lia | done|].
  destruct (skipWhitespace rest); [|done]. by destruct H.
Qed.

(** ** Reading back what the printer wrote *)

Definition push (c : Z) (r : parsed jsstring) : parsed jsstring :=
  match r with Parsed body rest => Parsed (c :: body) rest | r => r end.

Lemma hex_value_digit d : 0 <= d < 16 -> hex_value (hex_digit d) = Some d.
Proof.
  intros H. assert (d ∈ [0;1;2;3;4;5;6;7;8;9;10;11;12;13;14;15]) as Hd.
  { rewrite !elem_of_cons. lia. }
  repeat (apply elem_of_cons in Hd as [->|Hd]; [reflexivity|]). by apply elem_of_nil in Hd.
Qed.

Lemma unicode_escape_read u rest :
  is_u16 u -> parseStringBody (unicode_escape u ++ rest) = push u (parseStringBody rest).
Proof.
  unfold is_u16, U16_MAX. intros Hu. unfold unicode_escape. cbn [app parseStringBody].
  pose proof (Z.mod_pos_bound u 16 ltac:(lia)). pose proof (Z.mod_pos_bound (u / 16) 16 ltac:(lia)).
  pose proof (Z.mod_pos_bound (u / 256) 16 ltac:(lia)).
  assert (0 <= u / 4096 < 16) by (split; [apply Z.div_pos | apply Z.div_lt_upper_bound]; lia).
  change (0x5c =? 0x22) with false. change (0x5c <? 0x20) with false.
  change (0x5c =? 0x5c) with true. change (0x75 =? 0x75) with true. cbn iota.
  rewrite !hex_value_digit by lia.
  assert (((u / 4096 * 16 + (u / 256) mod 16) * 16 + (u / 16) mod 16) * 16 + u mod 16 = u) as ->.
  { pose proof (Z.div_mod u 16 ltac:(lia)). pose proof (Z.div_mod (u / 16) 16 ltac:(lia)) as D2.
    pose proof (Z.div_mod (u / 256) 16 ltac:(lia)) as D3. rewrite !Z.div_div in D2, D3 by lia.
    change (16 * 16) with 256 in D2. change (256 * 16) with 4096 in D3. lia. }
  reflexivity.
Qed.

Lemma quote_unit_read u rest :
  is_u16 u -> parseStringBody (quote_unit u ++ rest) = push u (parseStringBody rest).
Proof.
  intros Hu. unfold quote_unit.
  repeat (case_if; [bool_prop; subst; first [reflexivity | by apply unicode_escape_read]|]).
  cbn [app parseStringBody]. rewrite E, E0, E6. reflexivity.
Qed.

Lemma plain_unit_read u rest :
  is_surrogate u = true -> parseStringBody (u :: rest) = push u (parseStringBody rest).
Proof.
  unfold is_surrogate. intros H. bool_prop. cbn [parseStringBody].
  rewrite (proj2 (Z.eqb_neq u 0x22)), (proj2 (Z.ltb_ge u 0x20)), (proj2 (Z.eqb_neq u 0x5c)) by lia.
  reflexivity.
Qed.

Lemma lead_surrogate u v :
  is_lead u && is_trail v = true -> is_surrogate u = true /\ is_surrogate v = true.
Proof. unfold is_lead, is_trail, is_surrogate. lia. Qed.

(** Induction along the pairs of a string, as the printer reads it. *)
Lemma pairs_ind (P : jsstring -> Prop) :
  P [] ->
  (forall u s, is_surrogate u = false -> P s -> P (u :: s)) ->
  (forall u v s, is_lead u && is_trail v = true -> P s -> P (u :: v :: s)) ->
  (forall u, is_surrogate u = true -> P [u]) ->
  (forall u v s, is_surrogate u = true -> is_lead u && is_trail v = false -> P (v :: s) ->
     P (u :: v :: s)) ->
  forall s, P s.
Proof.
  intros H0 H1 H2 H3 H4 s. remember (List.length s) as n eqn:E.
  assert (List.length s <= n)%nat as Hn by lia. clear E. revert s Hn.
  induction n as [|n IH]; intros [|u s] Hn; cbn in Hn; try done; [lia|].
  destruct (is_surrogate u) eqn:Eu; [|apply H1; [done | apply IH; lia]].
  destruct s as [|v s]; [by apply H3|]. cbn in Hn.
  destruct (is_lead u && is_trail v) eqn:Ep.
  - apply H2; [done | apply IH; lia].
  - apply H4; [done | done | apply IH; cbn; lia].
Qed.

Lemma quote_body_cons u s : is_surrogate u = false -> quote_body (u :: s) = quote_unit u ++ quote_body s.
Proof. intros H. cbn. by rewrite H. Qed.

Lemma quote_body_pair u v s :
  is_lead u && is_trail v = true -> quote_body (u :: v :: s) = u :: v :: quote_body s.
Proof. intros H. cbn [quote_body]. destruct (lead_surrogate u v H) as [-> _]. cbn. by rewrite H. Qed.

Lemma quote_body_lone u v s :
  is_surrogate u = true -> is_lead u && is_trail v = false ->
  quote_body (u :: v :: s) = unicode_escape u ++ quote_body (v :: s).
Proof. intros Hu H. cbn [quote_body]. rewrite Hu. cbn [negb]. by rewrite H. Qed.

Lemma quote_body_single u : is_surrogate u = true -> quote_body [u] = unicode_escape u.
Proof. intros Hu. cbn [quote_body]. by rewrite Hu. Qed.

Lemma quote_body_read s rest :
  Forall is_u16 s -> parseStringBody (quote_body s ++ 0x22 :: rest) = Parsed s rest.
Proof.
  induction s as [|u s Hu IH|u v s Hp IH|u Hu|u v s Hu Hp IH] using pairs_ind; intros H; [done|..];
    repeat match goal with H : Forall _ (_ :: _) |- _ => apply Forall_cons in H as [? H] end.
  - rewrite quote_body_cons, <- app_assoc, quote_unit_read by done. by rewrite IH.
  - destruct (lead_surrogate u v Hp). rewrite quote_body_pair by done. cbn [app].
    rewrite !plain_unit_read by done. by rewrite IH.
  - rewrite quote_body_single, unicode_escape_read by done. reflexivity.
  - rewrite quote_body_lone, <- app_assoc, unicode_escape_read by done. rewrite IH; [done|].
    by constructor.
Qed.

Lemma quote_read s rest : Forall is_u16 s -> parseString (quote s ++ rest) = Parsed s rest.
Proof. intros H. cbn. rewrite <- app_assoc. by apply quote_body_read. Qed.

(** ** Integer numbers *)

Lemma shift_digits k m : digits2_pos (Pos.iter xO m k) = (digits2_pos m + k)%positive.
Proof.
  induction k as [|k IH] using Pos.peano_ind; [cbn; lia|].
  rewrite Pos.iter_succ. cbn. lia.
Qed.

Lemma shift_value k m : Zpos (Pos.iter xO m k) = Zpos m * 2 ^ Zpos k.
Proof.
  induction k as [|k IH] using Pos.peano_ind; [cbn; lia|].
  rewrite Pos.iter_succ, Pos2Z.inj_succ, Z.pow_succ_r by lia. cbn. lia.
Qed.

Lemma digits2_size m : digits2_pos m = Pos.size m.
Proof. induction m as [m IH|m IH|]; cbn; by rewrite ?IH. Qed.

(** Rounding a mantissa of exactly 53 digits changes nothing. *)
Lemma round_aux_exact s m e :
  digits2_pos m = 53%positive -> -1074 <= e <= 971 ->
  binary_round_aux 53 1024 s (Zpos m) e loc_Exact = S754_finite s m e.
Proof.
  intros Hd He. unfold binary_round_aux.
  assert (shr_fexp 53 1024 (Zpos m) e loc_Exact = (Build_shr_record (Zpos m) false false, e)) as Hs.
  { unfold shr_fexp, fexp, emin. cbn [Zdigits2 shr_record_of_loc]. rewrite Hd.
    replace (Z.max _ _ - e) with 0 by lia. reflexivity. }
  rewrite Hs. cbn [shr_m loc_of_shr_record round_nearest_even]. rewrite Hs. cbn [shr_m].
  rewrite (proj2 (Z.leb_le e (1024 - 53))) by lia. reflexivity.
Qed.

(** An integer below 2^53 is represented exactly, shifted to 53 digits. *)
Lemma float_round_exact s m :
  Zpos m < 2 ^ 53 ->
  float_round s m = S754_finite s m 0
  \/ exists k, float_round s m = S754_finite s (Pos.iter xO m k) (Zneg k) /\ Zpos k <= 52.
Proof.
  intros Hm. unfold float_round, binary_round.
  pose proof (Pos.size_le m) as H1. pose proof (Pos.size_gt m) as H2.
  rewrite <- digits2_size in H1, H2. remember (digits2_pos m) as d eqn:Ed.
  assert (Zpos d <= 53) as Hd.
  { assert (2 ^ (Zpos d - 1) < 2 ^ 53); [|apply Z.pow_lt_mono_r_iff in H; lia].
    apply Pos2Z.pos_le_pos in H1. rewrite Pos2Z.inj_xO, Pos2Z.inj_pow in H1.
    eapply Z.le_lt_trans; [|exact Hm].
    replace (Zpos d) with (Z.succ (Zpos d - 1)) in H1 by lia. rewrite Z.pow_succ_r in H1 by lia. lia. }
  unfold shl_align, fexp, emin.
  replace (Z.max (Zpos d + 0 - 53) (3 - 1024 - 53) - 0) with (Zpos d - 53) by lia.
  replace (Z.max (Zpos d + 0 - 53) (3 - 1024 - 53)) with (Zpos d - 53) by lia.
  destruct (Zpos d - 53) as [|k|k] eqn:Ek; [left|lia|right; exists k].
  - apply round_aux_exact; lia.
  - split; [|lia]. apply round_aux_exact; [|lia]. rewrite shift_digits. lia.
Qed.

Lemma number_of_Z_cases z :
  - MAX_SAFE_INTEGER <= z <= MAX_SAFE_INTEGER ->
  integer_of (number_of_Z z) = Some z /\ is_unsafe_number (number_of_Z z) = false.
Proof.
  unfold MAX_SAFE_INTEGER. intros Hz. unfold number_of_Z, decimal_to_float.
  destruct (Z.abs z) as [|m|m] eqn:Ez; [replace z with 0 by lia; by split| |lia].
  change (0 <=? 0) with true. cbn iota. rewrite Z.pow_0_r, Z.mul_1_r, Pos2Z.id.
  assert ((if z <? 0 then Zneg m else Zpos m) = z) as Hs by (case_if; lia).
  destruct (float_round_exact (z <? 0) m ltac:(lia)) as [->|(k & -> & Hk)].
  - split; cbn; [by rewrite Hs, Z.mul_1_r|]. unfold SFltb. cbn.
    change (Pos.compare_cont _ _ _) with (Pos.compare (2 ^ 53 - 1) m).
    destruct (Pos.compare_spec (2 ^ 53 - 1) m); [done | lia | done].
  - split; [|done]. cbn [integer_of]. change (0 <=? Zneg k) with false. cbn iota.
    change (- Zneg k) with (Zpos k).
    assert ((if z <? 0 then Zneg (Pos.iter xO m k) else Zpos (Pos.iter xO m k)) = z * 2 ^ Zpos k) as ->.
    { pose proof (shift_value k m). case_if; lia. }
    rewrite Z.mod_mul, Z.div_mul by lia. reflexivity.
Qed.

(** ** Decimal digits *)

Lemma nat_digits_app fuel n acc rest :
  nat_digits fuel n acc ++ rest = nat_digits fuel n (acc ++ rest).
Proof.
  revert n acc. induction fuel as [|fuel IH]; intros n acc; [done|]. cbn [nat_digits].
  case_if; [done|]. by rewrite IH.
Qed.

Lemma nat_digits_read fuel n acc :
  0 <= n < 2 ^ Z.of_nat fuel -> (0 < fuel)%nat ->
  exists len, 1 <= len /\ forall a c, digits a c (nat_digits fuel n acc)
    = digits (a * 10 ^ len + n) (c + len) acc.
Proof.
  revert n acc. induction fuel as [|fuel IH]; intros n acc Hn Hf; [lia|]. cbn [nat_digits].
  pose proof (Z.mod_pos_bound n 10 ltac:(lia)).
  assert (forall a c r, digits a c ((48 + n mod 10) :: r) = digits (a * 10 + n mod 10) (c + 1) r) as Hd.
  { intros a c r. cbn [digits]. unfold is_digit.
    rewrite (proj2 (Z.leb_le _ _)), (proj2 (Z.leb_le _ _)) by lia. cbn [andb].
    f_equal. lia. }
  case_if; bool_prop.
  - exists 1. split; [lia|]. intros a c. rewrite Hd, Z.mod_small by lia. reflexivity.
  - rewrite Nat2Z.inj_succ, Z.pow_succ_r in Hn by lia.
    assert (0 <= n / 10 < 2 ^ Z.of_nat fuel).
    { split; [apply Z.div_pos; lia|]. apply Z.div_lt_upper_bound; lia. }
    destruct (IH (n / 10) ((48 + n mod 10) :: acc)) as (len & Hl & Hlen); [done|..].
    { destruct fuel; [cbn in *; lia | lia]. }
    exists (len + 1). split; [lia|]. intros a c. rewrite Hlen, Hd.
    pose proof (Z.div_mod n 10 ltac:(lia)). rewrite Z.pow_add_r by lia. f_equal; lia.
Qed.

Lemma nat_digits_head fuel n acc :
  0 < n < 2 ^ Z.of_nat fuel ->
  exists d r, nat_digits fuel n acc = d :: r /\ is_digit d = true /\ d <> 48.
Proof.
  revert n acc. induction fuel as [|fuel IH]; intros n acc Hn; [cbn in Hn; lia|]. cbn [nat_digits].
  case_if; bool_prop.
  - eexists _, _. split; [done|]. rewrite Z.mod_small by lia. unfold is_digit. lia.
  - rewrite Nat2Z.inj_succ, Z.pow_succ_r in Hn by lia. apply IH.
    split; [apply Z.div_str_pos; lia | apply Z.div_lt_upper_bound; lia].
Qed.

Lemma log2_fuel n : 0 <= n -> n < 2 ^ Z.of_nat (S (Z.to_nat (Z.log2 n))).
Proof.
  intros H. pose proof (Z.log2_nonneg n). rewrite Nat2Z.inj_succ, Z2Nat.id by lia.
  destruct (Z.eq_dec n 0) as [->|]; [cbn; lia|]. apply Z.log2_spec. lia.
Qed.

(** What may follow a value inside a document. *)
Definition delimited (rest : jsstring) : Prop :=
  match rest with [] => True | c :: _ => c = 0x2c \/ c = 0x5d \/ c = 0x7d end.

Lemma delimited_digits rest a c : delimited rest -> digits a c rest = (a, c, rest).
Proof. destruct rest as [|x r]; [done|]. cbn. by intros [->|[->| ->]]. Qed.

Lemma delimited_tail m rest :
  delimited rest -> fraction_part m rest = (m, 0, rest) /\ exponent_part rest = (0, rest).
Proof. destruct rest as [|x r]; [done|]. cbn. by intros [->|[->| ->]]. Qed.

Definition parse_unsigned (negative : bool) (u : jsstring) : parsed json :=
  let integer :=
    match u with
    | c :: rest =>
        if c =? 0x30 then Some (0, rest)
        else if is_digit c then let '(m, _, rest') := digits 0 0 u in Some (m, rest')
        else None
    | [] => None
    end in
  match integer with
  | None => Throws
  | Some (m, s1) =>
      let '(m', e1, s2) := fraction_part m s1 in
      let '(e2, s3) := exponent_part s2 in
      let value := decimal_to_float negative m' (e1 + e2) in
      if is_unsafe_number value then Throws else Parsed (JNum value) s3
  end.

Lemma parseNumber_minus u : parseNumber (0x2d :: u) = parse_unsigned true u.
Proof. reflexivity. Qed.

Lemma parseNumber_plain c u : c <> 0x2d -> parseNumber (c :: u) = parse_unsigned false (c :: u).
Proof. intros H. unfold parseNumber. rewrite (proj2 (Z.eqb_neq c 45)) by done. reflexivity. Qed.

Lemma decimal_head n rest :
  0 <= n -> exists d r, decimal n ++ rest = d :: r /\ is_digit d = true /\ (d = 48 <-> n = 0).
Proof.
  intros Hn. unfold decimal. rewrite nat_digits_app. destruct (Z.eq_dec n 0) as [->|Hz].
  - eexists _, _. split; [reflexivity|]. by split.
  - destruct (nat_digits_head (S (Z.to_nat (Z.log2 n))) n ([] ++ rest)) as (d & r & -> & Hd & Hne).
    { split; [lia | by apply log2_fuel]. }
    eexists _, _. split; [done|]. split; [done | lia].
Qed.

Lemma parse_unsigned_decimal neg n rest :
  0 <= n -> delimited rest -> is_unsafe_number (decimal_to_float neg n 0) = false ->
  parse_unsigned neg (decimal n ++ rest) = Parsed (JNum (decimal_to_float neg n 0)) rest.
Proof.
  intros Hn Hrest Hsafe. destruct (delimited_tail n rest Hrest) as [Hf He].
  destruct (Z.eq_dec n 0) as [->|Hz].
  - change (decimal 0 ++ rest) with (48 :: rest). unfold parse_unsigned.
    change (48 =? 48) with true. cbn iota. rewrite Hf, He. change (0 + 0) with 0. cbn zeta.
    by rewrite Hsafe.
  - destruct (nat_digits_read (S (Z.to_nat (Z.log2 n))) n rest) as (len & _ & Hr);
      [split; [done | by apply log2_fuel] | lia|].
    assert (digits 0 0 (decimal n ++ rest) = (n, len, rest)) as Hd.
    { unfold decimal. rewrite nat_digits_app. cbn [app]. by rewrite Hr, delimited_digits. }
    destruct (decimal_head n rest Hn) as (d & r & E & Hdig & Hne). rewrite E in Hd |- *.
    unfold parse_unsigned. rewrite (proj2 (Z.eqb_neq d 48)) by tauto.
    rewrite Hdig, Hd, Hf, He. change (0 + 0) with 0. cbn zeta. by rewrite Hsafe.
Qed.

Lemma number_text_read z rest :
  - MAX_SAFE_INTEGER <= z <= MAX_SAFE_INTEGER -> delimited rest ->
  parseNumber (number_text (number_of_Z z) ++ rest) = Parsed (JNum (number_of_Z z)) rest.
Proof.
  intros Hz Hrest. destruct (number_of_Z_cases z Hz) as [Hi Hs]. unfold number_text. rewrite Hi.
  unfold number_of_Z in *. destruct (z <? 0) eqn:Hneg.
  - cbn [js app]. change (Z.of_N _) with 45. rewrite parseNumber_minus.
    by apply parse_unsigned_decimal; [lia|..].
  - cbn [app]. destruct (decimal_head (Z.abs z) rest ltac:(lia)) as (d & r & E & Hd & _).
    pose proof (parse_unsigned_decimal false (Z.abs z) rest ltac:(lia) Hrest Hs) as Hp.
    rewrite E in Hp |- *. rewrite parseNumber_plain; [done|]. unfold is_digit in Hd. lia.
Qed.

(** The first character of a printed number starts no other kind of value. *)
Lemma number_text_head z rest :
  - MAX_SAFE_INTEGER <= z <= MAX_SAFE_INTEGER ->
  exists c r, number_text (number_of_Z z) ++ rest = c :: r /\ (c = 45 \/ is_digit c = true).
Proof.
  intros Hz. destruct (number_of_Z_cases z Hz) as [Hi _]. unfold number_text. rewrite Hi.
  case_if; [eexists _, _; split; [reflexivity | by left]|]. cbn [app].
  destruct (decimal_head (Z.abs z) rest ltac:(lia)) as (d & r & -> & Hd & _). eauto.
Qed.

(** ** Documents *)

(** Values start with a character that is neither white space nor a closing
    bracket or brace. *)
Definition starts_solid (s : jsstring) : Prop :=
  match s with c :: _ => is_ws c = false /\ c <> 0x5d /\ c <> 0x7d | [] => False end.

Lemma skip_solid s : starts_solid s -> skipWhitespace s = s.
Proof. destruct s as [|c s]; [done|]. cbn. by intros [-> _]. Qed.

Lemma stringify_solid v rest : printable v -> starts_solid (stringify v ++ rest).
Proof.
  intros H. destruct H as [| [] | z Hz| | |]; try done. cbn [stringify].
  destruct (number_text_head z rest Hz) as (c & r & -> & Hc). cbn.
  unfold is_digit in Hc. unfold is_ws. lia.
Qed.

Definition member (p : jsstring * json) : jsstring := quote (fst p) ++ js ":" ++ stringify (snd p).

Lemma join_cons x (l : list jsstring) :
  join (js ",") (x :: l) = x ++ match l with [] => [] | _ => 0x2c :: join (js ",") l end.
Proof. destruct l; cbn [join]; [by rewrite app_nil_r | reflexivity]. Qed.

Definition reads (v : json) : Prop :=
  forall fuel rest, delimited rest -> (2 * List.length (stringify v ++ rest) < fuel)%nat ->
    parseValue fuel (stringify v ++ rest) = Parsed v rest.

Lemma parseElements_reads l : forall done_ fuel rest,
  l <> [] -> Forall (fun v => printable v /\ reads v) l ->
  (2 * List.length (join (js ",") (map stringify l) ++ 0x5d%Z :: rest) + 1 < fuel)%nat ->
  parseElements fuel done_ (join (js ",") (map stringify l) ++ 0x5d :: rest)
    = Parsed (JArr (done_ ++ l)) rest.
Proof.
  induction l as [|v l IH]; intros d fuel rest Hne H Hf; [done|]. clear Hne.
  apply Forall_cons in H as [[Hp Hv] Hl]. destruct fuel as [|fuel]; [lia|].
  cbn [map] in *. rewrite join_cons, <- app_assoc in *.
  set (tail := match map stringify l with [] => [] | _ => _ end ++ _) in *.
  assert (delimited tail) as Ht by (subst tail; destruct l; cbn; auto).
  assert (starts_solid (stringify v ++ tail)) as Hs by by apply stringify_solid.
  cbn [parseElements]. destruct (stringify v ++ tail) as [|c0 r0] eqn:E; [done|]. rewrite <- E in *.
  rewrite Hv by (done || lia). subst tail. destruct l as [|w l]; [reflexivity|].
  change (map stringify (w :: l)) with (stringify w :: map stringify l) in *.
  cbn [app skipWhitespace is_ws Z.eqb Pos.eqb orb]. change (0x2c =? 0x5d) with false.
  change (0x2c =? 0x2c) with true. cbn iota.
  rewrite skip_solid.
  2:{ rewrite join_cons, <- app_assoc. apply stringify_solid. by apply Forall_cons in Hl as [[? _] _]. }
  change (stringify w :: map stringify l) with (map stringify (w :: l)) in *.
  rewrite IH; [by rewrite <- app_assoc | done | done |].
  rewrite length_app in Hf. cbn [map] in *. cbn [app List.length] in Hf. lia.
Qed.

Lemma parseMembers_reads props : forall o fuel rest,
  props <> [] -> NoDup (o.*1 ++ props.*1) ->
  Forall (fun p => Forall is_u16 (fst p) /\ printable (snd p) /\ reads (snd p)) props ->
  (2 * List.length (join (js ",") (map member props) ++ 0x7d%Z :: rest) + 1 < fuel)%nat ->
  parseMembers fuel o (join (js ",") (map member props) ++ 0x7d :: rest)
    = Parsed (JObj (o ++ props)) rest.
Proof.
  induction props as [|[k v] l IH]; intros o fuel rest Hne Hnd H Hf; [done|]. clear Hne.
  apply Forall_cons in H as [(Hk & Hp & Hv) Hl]. cbn [fst snd] in *. destruct fuel as [|fuel]; [lia|].
  cbn [map] in *. rewrite join_cons, <- app_assoc in *.
  set (tail := match map member l with [] => [] | _ => _ end ++ _) in *.
  assert (delimited tail) as Ht by (subst tail; destruct l; cbn; auto).
  unfold member at 1 in Hf. unfold member at 1. cbn [fst snd] in *.
  rewrite <- !app_assoc in *. cbn [parseMembers]. rewrite quote_read by done.
  rewrite bool_decide_false.
  2:{ intros Hin. apply NoDup_app in Hnd as (_ & Hnd & _). apply (Hnd k Hin). left. }
  cbn [js app skipWhitespace]. change (Z.of_N _) with 58. change (is_ws 58) with false. cbn iota.
  cbn [expect]. change (58 =? 58) with true. cbn iota. rewrite skip_solid by by apply stringify_solid.
  rewrite !length_app in Hf. rewrite Hv; [|done|rewrite length_app; lia].
  subst tail. destruct l as [|w l]; [reflexivity|].
  change (map member (w :: l)) with (member w :: map member l) in *.
  cbn [app skipWhitespace is_ws Z.eqb Pos.eqb orb]. change (0x2c =? 0x7d) with false.
  change (0x2c =? 0x2c) with true. cbn iota.
  rewrite skip_solid by by rewrite join_cons, <- app_assoc.
  change (member w :: map member l) with (map member (w :: l)) in *.
  rewrite IH; [by rewrite <- app_assoc | done | | done |].
  - rewrite fmap_app, <- app_assoc. exact Hnd.
  - cbn [map] in *. rewrite !length_app in *. cbn [app List.length] in *. lia.
Qed.

Lemma printable_ind' (P : json -> Prop) :
  P JNull -> (forall b, P (JBool b)) ->
  (forall z, - MAX_SAFE_INTEGER <= z <= MAX_SAFE_INTEGER -> P (JNum (number_of_Z z))) ->
  (forall s, Forall is_u16 s -> P (JStr s)) ->
  (forall l, Forall (fun v => printable v /\ P v) l -> P (JArr l)) ->
  (forall props, NoDup props.*1 ->
     Forall (fun p => Forall is_u16 (fst p) /\ printable (snd p) /\ P (snd p)) props ->
     P (JObj props)) ->
  forall v, printable v -> P v.
Proof.
  intros Hnull Hbool Hnum Hstr Harr Hobj.
  fix go 2. intros v0 [| | z Hz | s Hs | l Hl | props Hnd Hp]; auto.
  - apply Harr. induction Hl as [|v l Hv _ IH]; constructor; [split; [exact Hv | exact (go v Hv)] | exact IH].
  - apply Hobj; [done|]. clear Hnd.
    induction Hp as [|p props [Hk Hv] _ IH]; constructor;
      [exact (conj Hk (conj Hv (go (snd p) Hv))) | exact IH].
Qed.

Lemma number_dispatch c s :
  c = 45 \/ is_digit c = true -> forall fuel, parseValue (S fuel) (c :: s) = parseNumber (c :: s).
Proof.
  intros Hc fuel. unfold is_digit in Hc. cbn [parseValue].
  repeat (case_if; [bool_prop; lia|]). done.
Qed.

Lemma parse_open_array fuel s :
  starts_solid s -> parseValue (S fuel) (91 :: s) = parseElements fuel [] s.
Proof.
  intros H. cbn [parseValue]. change (91 =? 123) with false. change (91 =? 91) with true.
  cbn iota. rewrite skip_solid by done. destruct s as [|c s]; [done|].
  destruct H as (_ & H & _). by rewrite (proj2 (Z.eqb_neq c 93)).
Qed.

Lemma parse_open_object fuel s :
  starts_solid s -> parseValue (S fuel) (123 :: s) = parseMembers fuel [] s.
Proof.
  intros H. cbn [parseValue]. change (123 =? 123) with true.
  cbn iota. rewrite skip_solid by done. destruct s as [|c s]; [done|].
  destruct H as (_ & _ & H). by rewrite (proj2 (Z.eqb_neq c 125)).
Qed.

Lemma stringify_reads v : printable v -> reads v.
Proof.
  induction 1 as [| [] | z Hz | s Hs | l Hl | props Hnd Hp] using printable_ind';
    intros [|fuel] rest Hrest Hf; try lia; try reflexivity.
  - cbn [stringify]. destruct (number_text_head z rest Hz) as (c & r & E & Hc).
    rewrite E, number_dispatch by done. rewrite <- E. by apply number_text_read.
  - cbn [stringify]. pose proof (quote_read s rest Hs) as Hq. unfold quote in *. cbn [app] in *.
    cbn [parseValue]. change (0x22 =? 0x7b) with false. change (0x22 =? 0x5b) with false.
    change (0x22 =? 0x22) with true. cbn iota. by rewrite Hq.
  - change (stringify (JArr l)) with ([91] ++ join (js ",") (map stringify l) ++ [93]) in *.
    rewrite <- !app_assoc in *. cbn [app List.length] in *.
    destruct l as [|w l]; [reflexivity|].
    assert (starts_solid (join (js ",") (map stringify (w :: l)) ++ 93 :: rest)) as Hs.
    { cbn [map]. rewrite join_cons, <- app_assoc. apply stringify_solid.
      by apply Forall_cons in Hl as [[? _] _]. }
    rewrite parse_open_array by done. apply parseElements_reads; [done | done | lia].
  - change (stringify (JObj props)) with ([123] ++ join (js ",") (map member props) ++ [125]) in *.
    rewrite <- !app_assoc in *. cbn [app List.length] in *.
    destruct props as [|w l]; [reflexivity|].
    rewrite parse_open_object by by cbn [map]; rewrite join_cons, <- app_assoc.
    apply parseMembers_reads; [done | done | done | lia].
Qed.

(** ** The printed text on the wire *)

Definition ascii_text (s : jsstring) : Prop := Forall (fun c => 0 <= c < 0x80) s.

Lemma ascii_well_formed s : ascii_text s -> well_formed s.
Proof.
  induction 1 as [|c s Hc _ IH]; [apply well_formed_nil|].
  apply well_formed_cons; [unfold is_u16, U16_MAX; lia | unfold is_surrogate; lia | done].
Qed.

Lemma hex_digit_ascii d : 0 <= d < 16 -> 0 <= hex_digit d < 0x80.
Proof. intros H. unfold hex_digit. case_if; lia. Qed.

Lemma unicode_escape_ascii u : is_u16 u -> ascii_text (unicode_escape u).
Proof.
  unfold is_u16, U16_MAX. intros Hu.
  repeat constructor; try lia; apply hex_digit_ascii;
    first [by apply Z.mod_pos_bound
          | split; [apply Z.div_pos; lia | apply Z.div_lt_upper_bound; lia]].
Qed.

Lemma quote_unit_well_formed u :
  is_u16 u -> is_surrogate u = false -> well_formed (quote_unit u).
Proof.
  intros Hu Hs. unfold quote_unit.
  repeat (case_if; [apply ascii_well_formed; first [by apply unicode_escape_ascii | by repeat constructor]|]).
  by apply well_formed_unit.
Qed.

Lemma quote_body_well_formed s : Forall is_u16 s -> well_formed (quote_body s).
Proof.
  induction s as [|u s Hu IH|u v s Hp IH|u Hu|u v s Hu Hp IH] using pairs_ind; intros H;
    [apply well_formed_nil|..];
    repeat match goal with H : Forall _ (_ :: _) |- _ => apply Forall_cons in H as [? H] end.
  - rewrite quote_body_cons by done. apply well_formed_app; [by apply quote_unit_well_formed | auto].
  - rewrite quote_body_pair by done. apply (well_formed_app [u; v]); [by apply well_formed_pair | auto].
  - rewrite quote_body_single by done. by apply ascii_well_formed, unicode_escape_ascii.
  - rewrite quote_body_lone by done.
    apply well_formed_app; [by apply ascii_well_formed, unicode_escape_ascii|].
    apply IH. by constructor.
Qed.

Lemma quote_well_formed s : Forall is_u16 s -> well_formed (quote s).
Proof.
  intros H. apply well_formed_cons; [done | done|].
  apply well_formed_app; [by apply quote_body_well_formed | by apply ascii_well_formed; repeat constructor].
Qed.

Lemma nat_digits_ascii fuel n acc : 0 <= n -> ascii_text acc -> ascii_text (nat_digits fuel n acc).
Proof.
  revert n acc. induction fuel as [|fuel IH]; intros n acc Hn Ha; [done|]. cbn [nat_digits].
  assert (ascii_text ((48 + n mod 10) :: acc)) as Ha'.
  { constructor; [|done]. pose proof (Z.mod_pos_bound n 10 ltac:(lia)). lia. }
  case_if; [done|]. apply IH; [apply Z.div_pos; lia | done].
Qed.

Lemma number_text_ascii z :
  - MAX_SAFE_INTEGER <= z <= MAX_SAFE_INTEGER -> ascii_text (number_text (number_of_Z z)).
Proof.
  intros Hz. destruct (number_of_Z_cases z Hz) as [Hi _]. unfold number_text. rewrite Hi.
  apply Forall_app. split; [case_if; by repeat constructor|].
  apply nat_digits_ascii; [lia | constructor].
Qed.

Lemma join_well_formed l : Forall well_formed l -> well_formed (join (js ",") l).
Proof.
  induction 1 as [|x l Hx Hl IH]; [apply well_formed_nil|]. rewrite join_cons.
  apply well_formed_app; [done|]. destruct l; [apply well_formed_nil | by apply well_formed_cons].
Qed.

Lemma stringify_well_formed v : printable v -> well_formed (stringify v).
Proof.
  induction 1 as [| [] | z Hz | s Hs | l Hl | props Hnd Hp] using printable_ind'; cbn [stringify];
    try (by apply ascii_well_formed; repeat constructor).
  - by apply ascii_well_formed, number_text_ascii.
  - by apply quote_well_formed.
  - apply well_formed_app; [by apply ascii_well_formed; repeat constructor|].
    apply well_formed_app; [|by apply ascii_well_formed; repeat constructor].
    apply join_well_formed. clear -Hl. induction Hl as [|w l [_ Hw] _ IH]; by constructor.
  - apply well_formed_app; [by apply ascii_well_formed; repeat constructor|].
    apply well_formed_app; [|by apply ascii_well_formed; repeat constructor].
    apply join_well_formed. clear -Hp. induction Hp as [|[k w] l (Hk & _ & Hw) _ IH]; constructor; [|done].
    apply well_formed_app; [by apply quote_well_formed|].
    apply well_formed_app; [by apply ascii_well_formed; repeat constructor | done].
Qed.

Lemma parse_stringify v : printable v -> parse (stringify v) = Parsed v [].
Proof.
  intros H. unfold parse. pose proof (stringify_solid v [] H) as Hs. rewrite app_nil_r in Hs.
  rewrite skip_solid by done. pose proof (stringify_reads v H (S (2 * List.length (stringify v))) []) as Hr.
  rewrite app_nil_r in Hr. rewrite Hr; [done | done | lia].
Qed.

Lemma printable_valid v : printable v -> validateJsonValue v = true.
Proof.
  induction 1 as [| b | z Hz | s Hs | l Hl | props Hnd Hp] using printable_ind'; cbn; try done.
  - by rewrite (proj2 (number_of_Z_cases z Hz)).
  - induction Hl as [|w l [_ Hw] _ IH]; [done|]. cbn. by rewrite Hw.
  - clear Hnd. induction Hp as [|[k w] l (_ & _ & Hw) _ IH]; [done|]. cbn in *. by rewrite Hw.
Qed.

Lemma json_encode_decode o :
  printable (JObj o) ->
  exists payload, encodeTerminalMultiplexJson o = Some payload
    /\ decodeTerminalMultiplexJson payload = Some o.
Proof.
  intros H. unfold encodeTerminalMultiplexJson. rewrite printable_valid by done.
  eexists. split; [reflexivity|]. unfold decodeTerminalMultiplexJson.
  rewrite text_roundtrip; [|by apply stringify_well_formed | done].
  rewrite parse_stringify by done. reflexivity.
Qed.

(** ** Properties *)

(** C34. The JSON decoder is total (the parser never runs out of fuel, whatever the
    payload) and strict: an object it returns has no duplicate key at any depth and only
    finite numbers of magnitude at most 2^53 - 1. *)
Theorem decode_json_ok payload :
  (forall text, text_decode payload = Some text -> parse text <> OutOfFuel) /\
  forall o, decodeTerminalMultiplexJson payload = Some o ->
    json_ok (JObj o) = true
    /\ exists text, text_decode payload = Some text /\ parse text = Parsed (JObj o) [].
Proof.
  split; [intros text _ E; pose proof (parse_total text) as Ht; by rewrite E in Ht|]. intros o.
  unfold decodeTerminalMultiplexJson. destruct (text_decode payload) as [text|]; [|done].
  assert ((match parse text with Parsed value _ => isJsonObject value | _ => None end) = Some o ->
    json_ok (JObj o) = true /\ exists t, Some text = Some t /\ parse t = Parsed (JObj o) []) as H.
  { pose proof (parse_total text) as Ht. destruct (parse text) as [| |v rest] eqn:Ep; [done..|].
    destruct Ht as [-> Hv]. destruct v; try done.
    intros [= <-]. split; [exact Hv|]. by exists text. }
  destruct text as [|c text]; [exact H|]. case_if; [done | exact H].
Qed.

(** C35. Every control payload is read back: the encoder accepts an object of
    strings, booleans, integers and nested arrays and objects with distinct keys,
    and the decoder returns exactly that object, whatever the strings contain
    (quotes, control characters, lone surrogates). *)
Theorem json_roundtrip o :
  printable (JObj o) ->
  exists payload, encodeTerminalMultiplexJson o = Some payload
    /\ decodeTerminalMultiplexJson payload = Some o.
Proof. apply json_encode_decode. Qed.

(** The check for a leading byte order mark does not reject one: the
    TextDecoder has already dropped it, so a payload with a byte order mark is
    decoded like the payload without. *)
Theorem json_bom_accepted o :
  printable (JObj o) ->
  decodeTerminalMultiplexJson (0xef :: 0xbb :: 0xbf :: text_encode (stringify (JObj o))) = Some o.
Proof.
  intros H. change (0xef :: 0xbb :: 0xbf :: text_encode (stringify (JObj o)))
    with (text_encode (0xfeff :: stringify (JObj o))).
  unfold decodeTerminalMultiplexJson.
  rewrite text_decode_bom by by apply stringify_well_formed.
  rewrite parse_stringify by done. reflexivity.
Qed.

(** ** Witnesses *)

Definition sample_object : TerminalMultiplexJsonObject :=
  [(js "terminal", JStr [0x41; 0x22; 0xd800; 0x0a]); (js "cols", JNum (number_of_Z 120));
   (js "nested", JObj [(js "ok", JBool true); (js "rows", JArr [JNum (number_of_Z (-7)); JNull])])].

Lemma sample_object_printable : printable (JObj sample_object).
Proof.
  assert (forall l, bool_decide (Forall is_u16 l) = true -> Forall is_u16 l) as Hu
    by (intros l; by apply bool_decide_eq_true).
  assert (forall l : list jsstring, bool_decide (NoDup l) = true -> NoDup l) as Hn
    by (intros l; by apply bool_decide_eq_true).
  assert (forall z, Z.abs z <= 1000 -> printable (JNum (number_of_Z z))) as Hz.
  { intros z Hz. apply printable_num. unfold MAX_SAFE_INTEGER. lia. }
  apply printable_obj; [apply Hn; reflexivity|].
  repeat (apply Forall_cons; split; [split; [apply Hu; reflexivity|]|]); [| | |constructor].
  - apply printable_str, Hu. reflexivity.
  - apply Hz. lia.
  - apply printable_obj; [apply Hn; reflexivity|].
    repeat (apply Forall_cons; split; [split; [apply Hu; reflexivity|]|]); [constructor| |constructor].
    apply printable_arr, Forall_cons. split; [apply Hz; lia|].
    apply Forall_cons. split; constructor.
Qed.

Lemma json_roundtrip_witness :
  exists payload, encodeTerminalMultiplexJson sample_object = Some payload
    /\ decodeTerminalMultiplexJson payload = Some sample_object.
Proof. apply (json_roundtrip sample_object). exact sample_object_printable. Defined.

Lemma json_bom_accepted_witness :
  decodeTerminalMultiplexJson (0xef :: 0xbb :: 0xbf :: text_encode (stringify (JObj sample_object)))
    = Some sample_object.
Proof. apply (json_bom_accepted sample_object). exact sample_object_printable. Defined.

(** Single quotes stand for the double quotes of a document. *)
Definition document (s : string) : jsstring :=
  map (fun c => if c =? 0x27 then 0x22 else c) (js s).

Definition sample_payload : bytes := text_encode (document "{ 'a' : [1, 2.5], 'b' : {} }").

Lemma decode_json_ok_witness :
  decodeTerminalMultiplexJson sample_payload
    = Some [(js "a", JArr [JNum (number_of_Z 1); JNum (decimal_to_float false 25 (-1))]);
            (js "b", JObj [])]
  /\ json_ok (JObj [(js "a", JArr [JNum (number_of_Z 1); JNum (decimal_to_float false 25 (-1))]);
            (js "b", JObj [])]) = true.
Proof.
  split; [vm_compute; reflexivity|]. apply (proj2 (decode_json_ok sample_payload)). vm_compute. reflexivity.
Defined.
