(* ===== verification/SideEffects.v ===== *)
(** Side-effect batches
    (packages/protocol/typescript/src/terminal/multiplex/side-effects.ts): the
    decoder of the facts a terminal reports beside its output. *)

From stdpp Require Import base list.
From Stdlib Require Import ZArith Lia ZifyBool String.
From S2P Require Import Prelude JsText Json.

Open Scope Z_scope.

Inductive TerminalMultiplexSideEffectFact :=
  | fact_title (normalizedTitle rawTitle : jsstring) (staleWorkingTitleClear : bool)
  | fact_bell
  | fact_agent_working
  | fact_agent_idle (title : jsstring) (staleWorkingTitleClear : bool)
  | fact_agent_exited
  | fact_command_finished (exitCode : option Z)
  | fact_pr_link (url owner repo : jsstring) (number : Z)
  | fact_command_code_working (prompt : jsstring)
  | fact_command_code_done (prompt : jsstring)
  | fact_2031_subscribe.

Record TerminalMultiplexSideEffectBatch := mkBatch {
  facts : list TerminalMultiplexSideEffectFact;
  replay : bool
}.

(** ** typeof guards on property values; [None] is [undefined] *)

Definition as_string (v : option json) : option jsstring :=
  match v with Some (JStr s) => Some s | _ => None end.

Definition as_record (v : option json) : option TerminalMultiplexJsonObject :=
  match v with Some (JObj o) => Some o | _ => None end.

Definition as_integer (v : option json) : option Z :=
  match v with Some (JNum x) => integer_of x | _ => None end.

Definition isI32 (v : option json) : option Z :=
  match as_integer v with
  | Some z => if (-0x80000000 <=? z) && (z <=? 0x7fffffff) then Some z else None
  | None => None
  end.

Definition isU32 (v : option json) : option Z :=
  match as_integer v with
  | Some z => if (0 <=? z) && (z <=? 0xffffffff) then Some z else None
  | None => None
  end.

Definition decodeSideEffectFact (value : json) : option TerminalMultiplexSideEffectFact :=
  match value with
  | JObj value =>
      match as_string (property (js "kind") value) with
      | None => None
      | Some kind =>
          let staleWorkingTitleClear :=
            match property (js "staleWorkingTitleClear") value with
            | Some (JBool true) => Some true
            | None => Some false
            | Some _ => None
            end in
          match staleWorkingTitleClear with
          | None => None
          | Some stale =>
              if jsstring_eqb kind (js "title") then
                match as_string (property (js "normalizedTitle") value),
                      as_string (property (js "rawTitle") value) with
                | Some normalizedTitle, Some rawTitle =>
                    Some (fact_title normalizedTitle rawTitle stale)
                | _, _ => None
                end
              else if jsstring_eqb kind (js "bell") then Some fact_bell
              else if jsstring_eqb kind (js "agent-working") then Some fact_agent_working
              else if jsstring_eqb kind (js "agent-exited") then Some fact_agent_exited
              else if jsstring_eqb kind (js "2031-subscribe") then Some fact_2031_subscribe
              else if jsstring_eqb kind (js "agent-idle") then
                match as_string (property (js "title") value) with
                | Some title => Some (fact_agent_idle title stale)
                | None => None
                end
              else if jsstring_eqb kind (js "command-finished") then
                match property (js "exitCode") value with
                | Some JNull => Some (fact_command_finished None)
                | exitCode =>
                    match isI32 exitCode with
                    | Some z => Some (fact_command_finished (Some z))
                    | None => None
                    end
                end
              else if jsstring_eqb kind (js "pr-link") then
                match as_record (property (js "link") value) with
                | None => None
                | Some link =>
                    match as_string (property (js "url") link),
                          as_record (property (js "slug") link) with
                    | Some url, Some slug =>
                        match as_string (property (js "owner") slug),
                              as_string (property (js "repo") slug),
                              isU32 (property (js "number") link) with
                        | Some owner, Some repo, Some number =>
                            Some (fact_pr_link url owner repo number)
                        | _, _, _ => None
                        end
                    | _, _ => None
                    end
                end
              else if jsstring_eqb kind (js "command-code-working") then
                match as_string (property (js "prompt") value) with
                | Some prompt => Some (fact_command_code_working prompt)
                | None => None
                end
              else if jsstring_eqb kind (js "command-code-done") then
                match as_string (property (js "prompt") value) with
                | Some prompt => Some (fact_command_code_done prompt)
                | None => None
                end
              else None
          end
      end
  | _ => None
  end.

Definition is_title (fact : TerminalMultiplexSideEffectFact) : bool :=
  match fact with fact_title _ _ _ => true | _ => false end.

(** The loop over the candidates: [None] as soon as one is refused. *)
Fixpoint decode_facts (replay : bool) (candidates : list json)
    : option (list TerminalMultiplexSideEffectFact) :=
  match candidates with
  | [] => Some []
  | candidate :: rest =>
      match decodeSideEffectFact candidate with
      | None => None
      | Some fact =>
          if replay && negb (is_title fact) then None
          else match decode_facts replay rest with
               | Some facts => Some (fact :: facts)
               | None => None
               end
      end
  end.

Definition decodeTerminalMultiplexSideEffectBatch (payload : bytes)
    : option TerminalMultiplexSideEffectBatch :=
  match decodeTerminalMultiplexJson payload with
  | None => None
  | Some value =>
      match property (js "facts") value, property (js "replay") value with
      | Some (JArr candidates), Some (JBool replay) =>
          match decode_facts replay candidates with
          | Some facts => Some (mkBatch facts replay)
          | None => None
          end
      | _, _ => None
      end
  end.

(** ** The document of a batch *)

Definition fact_object (kind : jsstring) (fields : TerminalMultiplexJsonObject) (stale : bool) : json :=
  JObj ((js "kind", JStr kind) :: fields ++
        if stale then [(js "staleWorkingTitleClear", JBool true)] else []).

Definition fact_json (fact : TerminalMultiplexSideEffectFact) : json :=
  match fact with
  | fact_title n r stale =>
      fact_object (js "title") [(js "normalizedTitle", JStr n); (js "rawTitle", JStr r)] stale
  | fact_bell => fact_object (js "bell") [] false
  | fact_agent_working => fact_object (js "agent-working") [] false
  | fact_agent_idle t stale => fact_object (js "agent-idle") [(js "title", JStr t)] stale
  | fact_agent_exited => fact_object (js "agent-exited") [] false
  | fact_command_finished None => fact_object (js "command-finished") [(js "exitCode", JNull)] false
  | fact_command_finished (Some z) =>
      fact_object (js "command-finished") [(js "exitCode", JNum (number_of_Z z))] false
  | fact_pr_link url owner repo number =>
      fact_object (js "pr-link")
        [(js "link", JObj [(js "url", JStr url);
                           (js "slug", JObj [(js "owner", JStr owner); (js "repo", JStr repo)]);
                           (js "number", JNum (number_of_Z number))])] false
  | fact_command_code_working p => fact_object (js "command-code-working") [(js "prompt", JStr p)] false
  | fact_command_code_done p => fact_object (js "command-code-done") [(js "prompt", JStr p)] false
  | fact_2031_subscribe => fact_object (js "2031-subscribe") [] false
  end.

Definition batch_json (batch : TerminalMultiplexSideEffectBatch) : TerminalMultiplexJsonObject :=
  [(js "facts", JArr (map fact_json (facts batch))); (js "replay", JBool (replay batch))].

Definition fact_ok (fact : TerminalMultiplexSideEffectFact) : Prop :=
  match fact with
  | fact_title n r _ => Forall is_u16 n /\ Forall is_u16 r
  | fact_agent_idle t _ => Forall is_u16 t
  | fact_command_finished (Some z) => -0x80000000 <= z <= 0x7fffffff
  | fact_pr_link url owner repo number =>
      Forall is_u16 url /\ Forall is_u16 owner /\ Forall is_u16 repo /\ is_u32 number
  | fact_command_code_working p | fact_command_code_done p => Forall is_u16 p
  | _ => True
  end.

Definition fact_in_range (fact : TerminalMultiplexSideEffectFact) : Prop :=
  match fact with
  | fact_command_finished (Some z) => -0x80000000 <= z <= 0x7fffffff
  | fact_pr_link _ _ _ z => is_u32 z
  | _ => True
  end.

Definition batch_ok (batch : TerminalMultiplexSideEffectBatch) : Prop :=
  Forall fact_ok (facts batch)
  /\ (replay batch = true -> Forall (fun f => is_title f = true) (facts batch)).

Lemma small_integer z : -0x80000000 <= z <= U32_MAX -> integer_of (number_of_Z z) = Some z.
Proof. unfold U32_MAX. intros H. apply number_of_Z_cases. unfold MAX_SAFE_INTEGER. lia. Qed.

Lemma isI32_number z :
  -0x80000000 <= z <= 0x7fffffff -> isI32 (Some (JNum (number_of_Z z))) = Some z.
Proof.
  intros H. unfold isI32, as_integer. rewrite small_integer by (unfold U32_MAX; lia).
  by replace ((_ <=? z) && (z <=? _)) with true by lia.
Qed.

Lemma isU32_number z : is_u32 z -> isU32 (Some (JNum (number_of_Z z))) = Some z.
Proof.
  unfold is_u32, U32_MAX. intros H. unfold isU32, as_integer.
  rewrite small_integer by (unfold U32_MAX; lia).
  by replace ((0 <=? z) && (z <=? _)) with true by lia.
Qed.

(** The guards see a number only through [isI32] and [isU32]. *)
Lemma decode_fact_json f : fact_ok f -> decodeSideEffectFact (fact_json f) = Some f.
Proof.
  destruct f as [n r []| | |t []| |[z|]|u o r z|p|p|]; intros Hf; try reflexivity; cbn in Hf;
    cbn [fact_json].
  - pose proof (isI32_number z Hf) as H. revert H. generalize (JNum (number_of_Z z)) as v.
    intros v H. destruct v; try discriminate H. lazy -[isI32]. by rewrite H.
  - destruct Hf as (_ & _ & _ & Hz). pose proof (isU32_number z Hz) as H. revert H.
    generalize (JNum (number_of_Z z)) as v. intros v H. lazy -[isU32]. by rewrite H.
Qed.

Lemma decode_facts_json b l :
  Forall fact_ok l -> (b = true -> Forall (fun f => is_title f = true) l) ->
  decode_facts b (map fact_json l) = Some l.
Proof.
  induction 1 as [|f l Hf _ IH]; intros Hb; [done|]. cbn [map decode_facts].
  rewrite decode_fact_json by done. destruct b; cbn [andb].
  - specialize (Hb eq_refl). apply Forall_cons in Hb as [-> Hb]. cbn [negb]. by rewrite IH.
  - by rewrite IH.
Qed.

Lemma isI32_range v z : isI32 v = Some z -> -0x80000000 <= z <= 0x7fffffff.
Proof. unfold isI32. destruct (as_integer v); [|done]. case_if; [|done]. intros [= <-]. lia. Qed.

Lemma isU32_range v z : isU32 v = Some z -> is_u32 z.
Proof.
  unfold isU32, is_u32, U32_MAX. destruct (as_integer v); [|done]. case_if; [|done].
  intros [= <-]. lia.
Qed.

(** The exit code and the link number of a decoded fact are in range. *)
Lemma decode_fact_range v f : decodeSideEffectFact v = Some f ->
  fact_in_range f.
Proof.
  unfold decodeSideEffectFact, fact_in_range. generalize js as k. intros k.
  repeat match goal with
    | |- match ?x with _ => _ end = Some f -> _ => destruct x eqn:?; try done
    end; intros [= <-]; eauto using isI32_range, isU32_range.
Qed.

Lemma decode_facts_ok b l fs :
  decode_facts b l = Some fs ->
  Forall fact_in_range fs /\ (b = true -> Forall (fun f => is_title f = true) fs).
Proof.
  revert fs. induction l as [|v l IH]; intros fs; cbn [decode_facts]; [by intros [= <-]|].
  destruct (decodeSideEffectFact v) as [f|] eqn:Ef; [|done]. case_if; [done|].
  destruct (decode_facts b l) as [fs'|]; [|done]. intros [= <-].
  destruct (IH fs' eq_refl) as [Hl Ht].
  split; [constructor; [by eapply decode_fact_range | done]|].
  intros Hb. rewrite Hb in E. constructor; [|by apply Ht].
  by destruct (is_title f).
Qed.

Lemma fact_json_printable f : fact_ok f -> printable (fact_json f).
Proof.
  assert (forall l, bool_decide (Forall is_u16 l) = true -> Forall is_u16 l) as Hu
    by (intros l; by apply bool_decide_eq_true).
  assert (forall l : list jsstring, bool_decide (NoDup l) = true -> NoDup l) as Hn
    by (intros l; by apply bool_decide_eq_true).
  assert (forall z, -0x80000000 <= z <= U32_MAX -> printable (JNum (number_of_Z z))) as Hz.
  { intros z Hz. apply printable_num. unfold MAX_SAFE_INTEGER, U32_MAX in *. lia. }
  unfold is_u32, U32_MAX in *.
  destruct f as [n r []| | |t []| |[z|]|u o r z|p|p|]; cbn [fact_ok fact_json]; intros Hf;
    repeat match goal with H : _ /\ _ |- _ => destruct H end;
    repeat first
      [ apply printable_obj; [apply Hn; reflexivity|]
      | apply printable_str; first [done | apply Hu; reflexivity]
      | apply Hz; unfold is_u32, U32_MAX in *; lia
      | apply Forall_cons; split; [split; [apply Hu; reflexivity|]|]
      | constructor ].
Qed.

Lemma batch_json_printable batch : Forall fact_ok (facts batch) -> printable (JObj (batch_json batch)).
Proof.
  destruct batch as [fs b]. intros H. cbn in H.
  apply printable_obj; [by apply (proj1 (bool_decide_eq_true (NoDup _)))|].
  repeat (apply Forall_cons; split;
    [split; [by apply (proj1 (bool_decide_eq_true (Forall _ _)))|]|]); [|constructor|constructor].
  apply printable_arr. cbn [facts]. induction H; constructor; [by apply fact_json_printable | done].
Qed.

(** ** Properties *)

(** The decoder accepts the document of every admissible batch and returns
    that batch; conversely, in a batch it returns exit codes are signed and link
    numbers unsigned 32-bit integers, and a replayed batch (one that restores
    state after a snapshot) holds titles only, so that a replay can neither ring
    a bell nor report a finished command again. *)
Theorem side_effect_batch_codec :
  (forall batch, batch_ok batch ->
     exists payload, encodeTerminalMultiplexJson (batch_json batch) = Some payload
       /\ decodeTerminalMultiplexSideEffectBatch payload = Some batch)
  /\ (forall payload batch, decodeTerminalMultiplexSideEffectBatch payload = Some batch ->
       Forall fact_in_range (facts batch)
       /\ (replay batch = true -> Forall (fun f => is_title f = true) (facts batch))).
Proof.
  split.
  - intros [fs b] [Hf Hb]. cbn in Hf, Hb.
    destruct (json_encode_decode (batch_json (mkBatch fs b))) as (payload & He & Hd).
    { by apply batch_json_printable. }
    exists payload. split; [exact He|]. unfold decodeTerminalMultiplexSideEffectBatch.
    rewrite Hd. cbn -[decode_facts fact_json property js].
    change (property (js "facts") (batch_json (mkBatch fs b))) with (Some (JArr (map fact_json fs))).
    change (property (js "replay") (batch_json (mkBatch fs b))) with (Some (JBool b)).
    cbn iota. by rewrite decode_facts_json.
  - intros payload batch. unfold decodeTerminalMultiplexSideEffectBatch.
    destruct (decodeTerminalMultiplexJson payload) as [o|]; [|done].
    destruct (property _ o) as [[| | | |l|]|]; try done.
    destruct (property _ o) as [[|b| | | |]|]; try done.
    destruct (decode_facts b l) as [fs|] eqn:E; [|done]. intros [= <-]. by eapply decode_facts_ok.
Qed.

Definition sample_batch : TerminalMultiplexSideEffectBatch :=
  mkBatch [fact_title (js "zsh") (js "zsh - ~") true; fact_command_finished (Some (-1));
           fact_pr_link (js "https://x") (js "o") (js "r") 7; fact_bell] false.

Lemma sample_batch_ok : batch_ok sample_batch.
Proof.
  assert (forall l, bool_decide (Forall is_u16 l) = true -> Forall is_u16 l) as Hu
    by (intros l; by apply bool_decide_eq_true).
  split; [|done]. cbn [facts sample_batch]. repeat (apply List.Forall_cons); [..|constructor]; cbn [fact_ok].
  - split; apply Hu; reflexivity.
  - lia.
  - repeat (split; [apply Hu; reflexivity|]). unfold is_u32, U32_MAX. lia.
  - done.
Qed.

Lemma side_effect_batch_codec_witness :
  exists payload, encodeTerminalMultiplexJson (batch_json sample_batch) = Some payload
    /\ decodeTerminalMultiplexSideEffectBatch payload = Some sample_batch
    /\ Forall fact_in_range (facts sample_batch).
Proof.
  destruct (proj1 side_effect_batch_codec sample_batch) as (payload & He & Hd).
  { exact sample_batch_ok. }
  exists payload. split; [exact He|]. split; [exact Hd|].
  exact (proj1 (proj2 side_effect_batch_codec payload sample_batch Hd)).
Defined.
