(* ===== verification/Acks.v ===== *)
(** Parse acknowledgements and ordered events of one terminal stream
    (packages/client/src/runtime/terminal-multiplex/delivery/ack.ts and
    ordered-events.ts), and the callbacks of ../types.ts they end in.

    Both classes are values here; what they do to the outside is a list of
    effects, in order, that the delivery (Delivery.v) carries out.  Callbacks of the
    renderer do not call back into the stream: a renderer that reports a parsed
    chunk from inside a callback is modelled as reporting it right after. *)

From stdpp Require Import base list gmap.
From Stdlib Require Import ZArith Lia ZifyBool String.
From S2P Require Import Prelude JsText Json Frame Records SideEffects.

Open Scope Z_scope.

#[local] Set Warnings "-clear-no-such-hyp".

(** ** types.ts: what the renderer is told *)

Inductive message :=
  | literal (text : jsstring)
  | translated (key fallback : jsstring).

Inductive driver := driver_idle | driver_desktop | driver_mobile (clientId : jsstring).

(** A ticket names the [onParsed] closure handed to the renderer. *)
Inductive RemoteRuntimeMultiplexedTerminalCallback :=
  | onData (data : jsstring) (seq : option Z) (rawLength wireByteLength : Z) (ticket : nat)
  | onSnapshot (data : jsstring) (cols rows wireByteLength : Z)
      (pendingEscapeTailAnsi : option jsstring) (ticket : nat)
  | onSubscribed
  | onEnd
  | onError (text : message) (retryable : option bool)
  | onInputRejected (errorCode : Z)
  | onFitOverrideChanged (mode : jsstring) (cols rows : SpecFloat.spec_float)
  | onDriverChanged (d : driver)
  | onSideEffectBatch (batch : TerminalMultiplexSideEffectBatch) (seq epoch : Z)
  | onMetadata (metadata : TerminalMultiplexJsonObject)
  | onClearBuffer
  | onTransportClose.

(** ** ack.ts *)

Record RemoteTerminalDeliveryAcks := mkAcks {
  completions : gmap Z Z;
  parsedSequence : Z;
  pendingBytes : Z;
  pendingExitSequence : option Z;
  timer : bool
}.

Inductive ack_effect :=
  | ack_send (seq bytes : Z)
  | ack_advance (seq : Z)
  | ack_end.

#[export] Instance ack_effect_eq_dec : EqDecision ack_effect.
Proof. solve_decision. Defined.

Definition newAcks : RemoteTerminalDeliveryAcks := mkAcks ∅ 0 0 None false.

Definition acks_rebase (seq : Z) (a : RemoteTerminalDeliveryAcks)
    : RemoteTerminalDeliveryAcks * list ack_effect :=
  (mkAcks ∅ seq 0 (pendingExitSequence a) (timer a), [ack_advance seq]).

Definition acks_resetPending (a : RemoteTerminalDeliveryAcks) : RemoteTerminalDeliveryAcks :=
  mkAcks ∅ (parsedSequence a) 0 None false.

Definition acks_dispose (a : RemoteTerminalDeliveryAcks) : RemoteTerminalDeliveryAcks :=
  mkAcks (completions a) (parsedSequence a) (pendingBytes a) (pendingExitSequence a) false.

(** [while (next !== undefined)]: each turn deletes an entry, so the size of the
    map is enough fuel. *)
Fixpoint advance (fuel : nat) (c : gmap Z Z) (parsed : Z) : gmap Z Z * Z :=
  match fuel with
  | O => (c, parsed)
  | S fuel =>
      match c !! parsed with
      | Some next => advance fuel (delete parsed c) next
      | None => (c, parsed)
      end
  end.

Definition flush (a : RemoteTerminalDeliveryAcks) : RemoteTerminalDeliveryAcks * list ack_effect :=
  (mkAcks (completions a) (parsedSequence a) 0 (pendingExitSequence a) false,
   [ack_send (parsedSequence a) (pendingBytes a)]).

Definition publishExit (a : RemoteTerminalDeliveryAcks)
    : RemoteTerminalDeliveryAcks * list ack_effect :=
  match pendingExitSequence a with
  | Some exit =>
      if parsedSequence a >=? exit
      then (mkAcks (completions a) (parsedSequence a) (pendingBytes a) None (timer a), [ack_end])
      else (a, [])
  | None => (a, [])
  end.

Definition noteParsed (startSeq endSeq bytes : Z) (a : RemoteTerminalDeliveryAcks)
    : RemoteTerminalDeliveryAcks * list ack_effect :=
  let c := <[startSeq := endSeq]> (completions a) in
  let '(c, parsed) := advance (S (size c)) c (parsedSequence a) in
  let a := mkAcks c parsed (pendingBytes a + bytes) (pendingExitSequence a) (timer a) in
  let '(a, flushed) :=
    if (pendingBytes a >=? 16 * 1024) || bool_decide (pendingExitSequence a <> None) then flush a
    else (mkAcks c parsed (pendingBytes a) (pendingExitSequence a) true, []) in
  let '(a, ended) := publishExit a in
  (a, ack_advance parsed :: flushed ++ ended).

Definition deferExit (seq : Z) (a : RemoteTerminalDeliveryAcks)
    : RemoteTerminalDeliveryAcks * list ack_effect :=
  publishExit (mkAcks (completions a) (parsedSequence a) (pendingBytes a) (Some seq) (timer a)).

(** The 4 ms timer, when it is set. *)
Definition acks_timer (a : RemoteTerminalDeliveryAcks)
    : RemoteTerminalDeliveryAcks * list ack_effect :=
  if timer a then flush a else (a, []).

Definition delivery_ack_record (kind seq bytes : Z) : TerminalMultiplexAckRecord :=
  mkAck kind 0 0 bytes seq 0.

Definition safeSequenceNumber (value : Z) : option Z :=
  if value <=? MAX_SAFE_INTEGER then Some value else None.

(** ** ordered-events.ts *)

Record PendingEvent := mkPendingEvent {
  ev_seq : Z;
  ev_bytes : Z;
  ev_publish : RemoteRuntimeMultiplexedTerminalCallback
}.

Record RemoteTerminalOrderedEvents := mkEvents {
  pending : list PendingEvent;
  releasedThrough : Z;
  events_pendingBytes : Z
}.

Inductive event_effect :=
  | ev_call (c : RemoteRuntimeMultiplexedTerminalCallback)
  | ev_overflow.

Definition newEvents : RemoteTerminalOrderedEvents := mkEvents [] 0 0.

(** The leading events that are released, the others, and the bytes left. *)
Fixpoint release (released bytes : Z) (events : list PendingEvent)
    : list event_effect * list PendingEvent * Z :=
  match events with
  | [] => ([], [], bytes)
  | e :: rest =>
      if ev_seq e <=? released then
        let '(published, kept, bytes') := release released (bytes - ev_bytes e) rest in
        (ev_call (ev_publish e) :: published, kept, bytes')
      else ([], events, bytes)
  end.

Definition publishThrough (parsedSeq : Z) (o : RemoteTerminalOrderedEvents)
    : RemoteTerminalOrderedEvents * list event_effect :=
  let released := if parsedSeq >? releasedThrough o then parsedSeq else releasedThrough o in
  let '(published, kept, bytes) := release released (events_pendingBytes o) (pending o) in
  (mkEvents kept released bytes, published).

Definition events_clear (_ : RemoteTerminalOrderedEvents) : RemoteTerminalOrderedEvents := newEvents.

Definition MAX_PENDING_EVENTS : Z := 256.
Definition MAX_PENDING_EVENT_BYTES : Z := 4 * 1024 * 1024.

Definition enqueue (event : PendingEvent) (o : RemoteTerminalOrderedEvents)
    : RemoteTerminalOrderedEvents * list event_effect :=
  if (Z.of_nat (List.length (pending o)) >=? MAX_PENDING_EVENTS)
     || (events_pendingBytes o + ev_bytes event >? MAX_PENDING_EVENT_BYTES)
  then (events_clear o, [ev_overflow])
  else publishThrough (releasedThrough o)
         (mkEvents (pending o ++ [event]) (releasedThrough o)
            (events_pendingBytes o + ev_bytes event)).

(** [handle(frame)]: [None] when the frame is not an ordered event. *)
Definition events_handle (frame : TerminalMultiplexFrame) (o : RemoteTerminalOrderedEvents)
    : option (RemoteTerminalOrderedEvents * list event_effect) :=
  let event publish := mkPendingEvent (seq frame) (byteLength (payload frame)) publish in
  let refuse key fallback := (o, [ev_call (onError (translated (js key) (js fallback)) None)]) in
  match opcode frame with
  | SideEffectBatch =>
      Some (match decodeTerminalMultiplexSideEffectBatch (payload frame) with
            | None => refuse "terminal.multiplex.invalidSideEffects"
                             "Invalid remote terminal side-effect batch."
            | Some batch => enqueue (event (onSideEffectBatch batch (seq frame) (epoch frame))) o
            end)
  | Metadata =>
      Some (match decodeTerminalMultiplexJson (payload frame) with
            | None => refuse "terminal.multiplex.invalidMetadata" "Invalid remote terminal metadata."
            | Some metadata => enqueue (event (onMetadata metadata)) o
            end)
  | ClearBuffer =>
      let operation :=
        match decodeTerminalMultiplexJson (payload frame) with
        | Some clear => as_string (property (js "operation") clear)
        | None => None
        end in
      Some (if bool_decide (operation = Some (js "applied")) then enqueue (event onClearBuffer) o
            else refuse "terminal.multiplex.invalidClear" "Invalid remote terminal clear record.")
  | _ => None
  end%string.

(** ** Specification vocabulary *)

(** The chunks of a stretch of output: chunk [i] covers [b i, b (i + 1)). *)
Record note := mkNote { n_index : nat; n_bytes : Z }.

Fixpoint note_all (b : nat -> Z) (notes : list note) (a : RemoteTerminalDeliveryAcks)
    : RemoteTerminalDeliveryAcks * list ack_effect :=
  match notes with
  | [] => (a, [])
  | n :: rest =>
      let '(a1, out1) := noteParsed (b (n_index n)) (b (S (n_index n))) (n_bytes n) a in
      let '(a2, out2) := note_all b rest a1 in
      (a2, out1 ++ out2)
  end.

Fixpoint acked_bytes (out : list ack_effect) : Z :=
  match out with
  | [] => 0
  | ack_send _ n :: rest => n + acked_bytes rest
  | _ :: rest => acked_bytes rest
  end.

Fixpoint noted_bytes (notes : list note) : Z :=
  match notes with [] => 0 | n :: rest => n_bytes n + noted_bytes rest end.

Lemma acked_bytes_app l k : acked_bytes (l ++ k) = acked_bytes l + acked_bytes k.
Proof. induction l as [|[] l IH]; cbn; lia. Qed.

Section chunks.
Context (b : nat -> Z) (n : nat).
Context (b_increasing : forall i, (i < n)%nat -> b i < b (S i)).

(** The completions hold the parsed chunks [D] from [k] on. *)
Definition completed (D : gset nat) (k : nat) (c : gmap Z Z) : Prop :=
  (k <= n)%nat /\ (forall i, (i < k)%nat -> i ∈ D)
  /\ (forall i, i ∈ D -> (i < n)%nat)
  /\ forall x y, c !! x = Some y <-> exists i, (k <= i)%nat /\ i ∈ D /\ x = b i /\ y = b (S i).

(** [k] is the first chunk that is not parsed. *)
Definition frontier (D : gset nat) (k : nat) : Prop := k ∉ D.

Lemma b_mono i j : (i < j <= n)%nat -> b i < b j.
Proof.
  intros [Hij Hj]. induction j as [|j IH]; [lia|].
  destruct (decide (i = j)) as [->|]; [apply b_increasing; lia|].
  etrans; [apply IH; lia | apply b_increasing; lia].
Qed.

Lemma b_inj i j : (i <= n)%nat -> (j <= n)%nat -> b i = b j -> i = j.
Proof.
  intros Hi Hj E. destruct (Nat.lt_trichotomy i j) as [H|[H|H]]; [|done|].
  - pose proof (b_mono i j ltac:(lia)). lia.
  - pose proof (b_mono j i ltac:(lia)). lia.
Qed.

Lemma advance_spec fuel D : forall k c,
  completed D k c -> (size c < fuel)%nat ->
  exists k', (k <= k')%nat /\ snd (advance fuel c (b k)) = b k'
    /\ completed D k' (fst (advance fuel c (b k))) /\ frontier D k'.
Proof.
  induction fuel as [|fuel IH]; intros k c Hc Hf; [lia|]. cbn [advance].
  destruct Hc as (Hk & Hlt & Hn & Hm). destruct (c !! b k) as [next|] eqn:E.
  - apply Hm in E as (i & Hi & HD & Eb & ->). pose proof (Hn i HD).
    apply b_inj in Eb; [|lia..]. subst i.
    destruct (IH (S k) (delete (b k) c)) as (k' & ? & ? & ? & ?).
    + split; [lia|]. split; [|split; [done|]].
      * intros i Hik. destruct (decide (i = k)) as [->|]; [done | apply Hlt; lia].
      * intros x y. rewrite lookup_delete_Some, Hm. split.
        -- intros (Hx & i & ? & ? & -> & ->). exists i. split; [|done].
           destruct (decide (i = k)) as [->|]; [done | lia].
        -- intros (i & ? & HDi & -> & ->). split; [|exists i; repeat split; auto with lia].
           intros Eb. pose proof (Hn i HDi). apply b_inj in Eb; lia.
    + assert (c !! b k = Some (b (S k))) as Hb by (apply Hm; exists k; repeat split; auto).
      rewrite map_size_delete_Some by by rewrite Hb.
      assert (size c <> 0%nat); [|lia]. intros Hz%map_size_empty_inv. subst c.
      by rewrite lookup_empty in Hb.
    + exists k'. split; [lia | done].
  - exists k. split; [lia|]. split; [done|]. split; [done|].
    intros HD. assert (c !! b k = Some (b (S k))) by (apply Hm; exists k; repeat split; auto).
    congruence.
Qed.

Lemma completed_note D k c i :
  completed D k c -> frontier D k -> i ∉ D -> (i < n)%nat ->
  completed ({[i]} ∪ D) k (<[b i := b (S i)]> c).
Proof.
  intros (Hk & Hlt & Hn & Hm) Hf Hi Hin. split; [done|].
  split; [intros j Hj; apply elem_of_union_r; by apply Hlt|].
  split; [intros j [->%elem_of_singleton|Hj]%elem_of_union; auto|].
  assert (k <= i)%nat as Hki.
  { destruct (decide (k <= i)%nat) as [|Hlt']; [done|]. exfalso. apply Hi, Hlt. lia. }
  intros x y. rewrite lookup_insert_Some, Hm. split.
  - intros [[<- <-]|(Hx & j & ? & ? & -> & ->)].
    + exists i. repeat split; [done | set_solver].
    + exists j. repeat split; [done | set_solver].
  - intros (j & ? & [->%elem_of_singleton|HDj]%elem_of_union & -> & ->); [by left|].
    right. split; [|by exists j]. intros Eb. pose proof (Hn j HDj).
    apply b_inj in Eb; [subst; done | lia..].
Qed.

(** [a] has exactly the chunks [D] parsed, the first [k] of them in a row. *)
Definition acks_at (D : gset nat) (k : nat) (a : RemoteTerminalDeliveryAcks) : Prop :=
  parsedSequence a = b k /\ completed D k (completions a) /\ frontier D k.

Lemma publishExit_fields a :
  let '(a', out) := publishExit a in
  parsedSequence a' = parsedSequence a /\ completions a' = completions a
  /\ pendingBytes a' = pendingBytes a /\ acked_bytes out = 0
  /\ (ack_end ∈ out <-> exists exit, pendingExitSequence a = Some exit /\ exit <= parsedSequence a)
  /\ (ack_end ∈ out -> pendingExitSequence a' = None).
Proof.
  unfold publishExit. destruct (pendingExitSequence a) as [exit|] eqn:E; [case_if|]; cbn; bool_prop;
    do 4 (split; [done|]); split; try (by intros ?%elem_of_nil).
  - split; [intros _; exists exit; split; [done | lia] | intros _; by left].
  - done.
  - split; [by intros ?%elem_of_nil | intros (? & [= <-] & ?); lia].
  - split; [by intros ?%elem_of_nil | by intros (? & ? & ?)].
Qed.

Lemma noteParsed_fields s e n0 a :
  let '(a', out) := noteParsed s e n0 a in
  let c := <[s := e]> (completions a) in
  parsedSequence a' = snd (advance (S (size c)) c (parsedSequence a))
  /\ completions a' = fst (advance (S (size c)) c (parsedSequence a))
  /\ pendingBytes a' + acked_bytes out = pendingBytes a + n0.
Proof.
  unfold noteParsed. destruct (advance _ _ _) as [c parsed]. cbn.
  set (r := if _ || _ then _ else _).
  assert (parsedSequence (fst r) = parsed /\ completions (fst r) = c
    /\ pendingBytes (fst r) + acked_bytes (snd r) = pendingBytes a + n0) as (H1 & H2 & H3).
  { subst r. case_if; cbn; repeat split; lia. }
  destruct r as [a1 flushed]. cbn in H1, H2, H3. pose proof (publishExit_fields a1) as Hp.
  destruct (publishExit a1) as [a2 ended]. destruct Hp as (P1 & P2 & P3 & P4 & _).
  rewrite P1, P2, P3. split; [done|]. split; [done|]. cbn. rewrite acked_bytes_app. lia.
Qed.

Lemma noteParsed_at D k a i n0 :
  acks_at D k a -> i ∉ D -> (i < n)%nat ->
  exists k', (k <= k')%nat /\ acks_at ({[i]} ∪ D) k' (fst (noteParsed (b i) (b (S i)) n0 a)).
Proof.
  intros (Hp & Hc & Hf) Hi Hin. pose proof (noteParsed_fields (b i) (b (S i)) n0 a) as H.
  destruct (noteParsed _ _ _ a) as [a' out]. destruct H as (H1 & H2 & _).
  destruct (advance_spec (S (size (<[b i := b (S i)]> (completions a)))) ({[i]} ∪ D) k
    (<[b i := b (S i)]> (completions a))) as (k' & Hk & Hs & Hc' & Hf').
  { by apply completed_note. } { lia. }
  exists k'. split; [done|]. rewrite Hp in H1, H2. cbn. split; [by rewrite H1|].
  split; [by rewrite H2 | done].
Qed.

Lemma note_all_at notes : forall D k a,
  acks_at D k a -> NoDup (n_index <$> notes) ->
  (forall x, x ∈ notes -> (n_index x ∉ D) /\ (n_index x < n)%nat) ->
  exists k', (k <= k')%nat
    /\ acks_at (list_to_set (n_index <$> notes) ∪ D) k' (fst (note_all b notes a))
    /\ pendingBytes (fst (note_all b notes a)) + acked_bytes (snd (note_all b notes a))
       = pendingBytes a + noted_bytes notes.
Proof.
  induction notes as [|x notes IH]; intros D k a Ha Hnd Hx.
  { exists k. cbn. split; [done|]. split; [|lia].
    replace (∅ ∪ D) with D by set_solver. done. }
  cbn in Hnd. apply NoDup_cons in Hnd as [Hnx Hnd].
  destruct (Hx x) as [HxD Hxn]; [left|].
  destruct (noteParsed_at D k a (n_index x) (n_bytes x) Ha HxD Hxn) as (k1 & Hk1 & Ha1).
  pose proof (noteParsed_fields (b (n_index x)) (b (S (n_index x))) (n_bytes x) a) as Hb.
  cbn [note_all]. destruct (noteParsed _ _ _ a) as [a1 out1]. cbn in Ha1.
  destruct Hb as (_ & _ & Hb). destruct (IH _ _ _ Ha1 Hnd) as (k2 & Hk2 & Ha2 & Hb2).
  { intros y Hy. destruct (Hx y) as [HyD Hyn]; [by right|]. split; [|done].
    intros [E%elem_of_singleton|]%elem_of_union; [|done]. apply Hnx. rewrite <- E.
    by apply list_elem_of_fmap_2. }
  destruct (note_all b notes a1) as [a2 out2]. cbn in Ha2, Hb2 |- *.
  exists k2. split; [lia|]. split.
  - replace ({[n_index x]} ∪ list_to_set (n_index <$> notes) ∪ D)
      with (list_to_set (n_index <$> notes) ∪ ({[n_index x]} ∪ D)) by set_solver. done.
  - rewrite acked_bytes_app. lia.
Qed.
End chunks.

(** ** Ordered events *)

Inductive event_op := op_enqueue (e : PendingEvent) | op_publish (seq : Z).

Definition event_step (op : event_op) (o : RemoteTerminalOrderedEvents)
    : RemoteTerminalOrderedEvents * list event_effect :=
  match op with
  | op_enqueue e => enqueue e o
  | op_publish seq => publishThrough seq o
  end.

Fixpoint event_run (ops : list event_op) (o : RemoteTerminalOrderedEvents)
    : RemoteTerminalOrderedEvents * list event_effect :=
  match ops with
  | [] => (o, [])
  | op :: rest =>
      let '(o1, out1) := event_step op o in
      let '(o2, out2) := event_run rest o1 in
      (o2, out1 ++ out2)
  end.

Definition enqueued (ops : list event_op) : list PendingEvent :=
  omap (fun op => match op with op_enqueue e => Some e | _ => None end) ops.

Fixpoint event_bytes (events : list PendingEvent) : Z :=
  match events with [] => 0 | e :: rest => ev_bytes e + event_bytes rest end.

Record events_ok (o : RemoteTerminalOrderedEvents) : Prop := {
  ok_count : Z.of_nat (List.length (pending o)) <= MAX_PENDING_EVENTS;
  ok_sizes : Forall (fun e => 0 <= ev_bytes e) (pending o);
  ok_bytes : events_pendingBytes o = event_bytes (pending o);
  ok_budget : events_pendingBytes o <= MAX_PENDING_EVENT_BYTES;
  ok_head : match pending o with [] => True | e :: _ => releasedThrough o < ev_seq e end
}.

Lemma event_bytes_app l k : event_bytes (l ++ k) = event_bytes l + event_bytes k.
Proof. induction l; cbn; lia. Qed.

Lemma event_bytes_nonneg l : Forall (fun e => 0 <= ev_bytes e) l -> 0 <= event_bytes l.
Proof. induction 1; cbn; lia. Qed.

Lemma release_spec r events : forall bytes,
  exists front,
    let '(published, kept, bytes') := release r bytes events in
    events = front ++ kept
    /\ published = map (fun e => ev_call (ev_publish e)) front
    /\ Forall (fun e => ev_seq e <= r) front
    /\ bytes' = bytes - event_bytes front
    /\ match kept with [] => True | e :: _ => r < ev_seq e end.
Proof.
  induction events as [|e events IH]; intros bytes; cbn [release].
  { exists []. cbn. repeat split; try done. lia. }
  case_if; bool_prop.
  - destruct (IH (bytes - ev_bytes e)) as [front H].
    destruct (release _ _ events) as [[published kept] bytes'].
    destruct H as (-> & -> & Hf & -> & Hk). exists (e :: front). cbn.
    repeat split; try done; [by constructor | lia].
  - exists []. cbn. repeat split; try done. lia.
Qed.

Lemma publishThrough_spec seq o :
  Z.of_nat (List.length (pending o)) <= MAX_PENDING_EVENTS ->
  Forall (fun e => 0 <= ev_bytes e) (pending o) ->
  events_pendingBytes o = event_bytes (pending o) ->
  events_pendingBytes o <= MAX_PENDING_EVENT_BYTES ->
  let '(o', out) := publishThrough seq o in
  events_ok o' /\ exists front, pending o = front ++ pending o'
    /\ out = map (fun e => ev_call (ev_publish e)) front
    /\ Forall (fun e => ev_seq e <= releasedThrough o') front
    /\ releasedThrough o' = Z.max seq (releasedThrough o).
Proof.
  intros Hc Hs Hb Hm. unfold publishThrough.
  set (r := if _ >? _ then _ else _). assert (r = Z.max seq (releasedThrough o)) as Hr.
  { subst r. case_if; bool_prop; lia. }
  destruct (release_spec r (pending o) (events_pendingBytes o)) as [front H].
  destruct (release _ _ _) as [[published kept] bytes']. destruct H as (E & -> & Hf & -> & Hk).
  rewrite E in Hc, Hs, Hb. apply Forall_app in Hs as [Hs1 Hs2]. rewrite length_app in Hc.
  rewrite event_bytes_app in Hb. pose proof (event_bytes_nonneg _ Hs1).
  split; [split; cbn; try done; lia|]. exists front. by repeat split.
Qed.

Lemma events_ok_step op o :
  (forall e, op = op_enqueue e -> 0 <= ev_bytes e) -> events_ok o ->
  events_ok (fst (event_step op o)).
Proof.
  intros Hop [Hc Hs Hb Hm Hh]. destruct op as [e|seq]; cbn [event_step].
  - unfold enqueue. case_if; [by split; cbn|]. bool_prop.
    pose proof (publishThrough_spec (releasedThrough o)
      (mkEvents (pending o ++ [e]) (releasedThrough o) (events_pendingBytes o + ev_bytes e))) as Hsp.
    destruct (publishThrough _ _) as [o' out]. apply Hsp; cbn.
    + rewrite length_app. cbn. lia.
    + apply Forall_app. split; [done|]. constructor; [by apply Hop | done].
    + rewrite event_bytes_app. cbn. lia.
    + lia.
  - pose proof (publishThrough_spec seq o Hc Hs Hb Hm) as Hsp.
    destruct (publishThrough _ _) as [o' out]. apply Hsp.
Qed.

Lemma event_step_fifo op o :
  (forall e, op = op_enqueue e -> 0 <= ev_bytes e) -> events_ok o ->
  ev_overflow ∉ snd (event_step op o) ->
  exists front, pending o ++ enqueued [op] = front ++ pending (fst (event_step op o))
    /\ snd (event_step op o) = map (fun e => ev_call (ev_publish e)) front
    /\ Forall (fun e => ev_seq e <= releasedThrough (fst (event_step op o))) front
    /\ releasedThrough o <= releasedThrough (fst (event_step op o)).
Proof.
  intros Hop [Hc Hs Hb Hm Hh] Hov. destruct op as [e|seq]; cbn [event_step] in *.
  - unfold enqueue in *. case_if; [exfalso; apply Hov; left|]. bool_prop.
    pose proof (publishThrough_spec (releasedThrough o)
      (mkEvents (pending o ++ [e]) (releasedThrough o) (events_pendingBytes o + ev_bytes e))) as Hsp.
    destruct (publishThrough _ _) as [o' out]. destruct Hsp as (_ & front & E1 & E2 & E3 & E4); cbn.
    + rewrite length_app. cbn. lia.
    + apply Forall_app. split; [done|]. constructor; [by apply Hop | done].
    + rewrite event_bytes_app. cbn. lia.
    + lia.
    + exists front. cbn in E4. repeat split; try done. cbn. lia.
  - pose proof (publishThrough_spec seq o Hc Hs Hb Hm) as Hsp.
    destruct (publishThrough _ _) as [o' out]. destruct Hsp as (_ & front & E1 & E2 & E3 & E4).
    exists front. cbn. rewrite app_nil_r. repeat split; try done. lia.
Qed.

(** ** Properties *)

(** Out-of-order parsing is acknowledged in order: after the chunks of a
    stretch of output are reported parsed in any order, each once, the parsed
    sequence is the end of the longest run of parsed chunks from the start (so
    the end of the stretch once all are parsed), and every parsed byte is either
    acknowledged or still pending. *)
Theorem parsed_prefix b n notes a :
  (forall i, (i < n)%nat -> b i < b (S i)) ->
  NoDup (n_index <$> notes) -> Forall (fun x => (n_index x < n)%nat) notes ->
  let '(a', out) := note_all b notes (fst (acks_rebase (b 0%nat) a)) in
  (exists k, parsedSequence a' = b k /\ (k <= n)%nat
     /\ (forall i, (i < k)%nat -> i ∈ (n_index <$> notes)) /\ (k ∉ (n_index <$> notes))
     /\ (completions a' = ∅ <-> forall i, i ∈ (n_index <$> notes) -> (i < k)%nat))
  /\ pendingBytes a' + acked_bytes out = noted_bytes notes.
Proof.
  intros Hb Hnd Hn.
  destruct (note_all_at b n Hb notes ∅ 0 (fst (acks_rebase (b 0%nat) a))) as (k & Hk & Ha & Hs).
  { split; [done|]. split; [|apply not_elem_of_empty]. split; [lia|]. split; [lia|].
    split; [set_solver|]. intros x y. cbn. rewrite lookup_empty. split; [done|].
    intros (i & _ & Hi & _). set_solver. }
  { done. }
  { intros x Hx. split; [apply not_elem_of_empty|]. rewrite Forall_forall in Hn. by apply Hn. }
  destruct (note_all _ _ _) as [a' out]. cbn in Ha, Hs. split; [|lia].
  destruct Ha as (Hp & (Hkn & Hlt & Hin & Hm) & Hf). unfold frontier in Hf.
  assert (forall i, i ∈ (list_to_set (n_index <$> notes) ∪ ∅ : gset nat) <-> i ∈ (n_index <$> notes))
    as Hset by (intros i; rewrite elem_of_union, elem_of_list_to_set; set_solver).
  exists k. split; [done|]. split; [done|].
  split; [intros i Hi; by apply Hset, Hlt|]. split; [by rewrite <- Hset|].
  split.
  - intros E i Hi. destruct (decide (i < k)%nat) as [|Hge]; [done|]. exfalso.
    assert (completions a' !! b i = Some (b (S i))) as Hl.
    { apply Hm. exists i. split; [lia|]. split; [by apply Hset | done]. }
    by rewrite E, lookup_empty in Hl.
  - intros H. apply map_empty. intros x. destruct (completions a' !! x) as [y|] eqn:E; [|done].
    apply Hm in E as (i & Hi & Hi2 & _). apply Hset in Hi2. specialize (H i Hi2). lia.
Qed.

(** The end of the terminal is published only after its output: whatever is
    reported parsed, [onEnd] fires exactly when an exit is deferred and the parsed
    sequence has reached it, and the deferred exit is then forgotten, so it fires
    once. *)
Theorem exit_after_output startSeq endSeq bytes seq a :
  (let '(a', out) := noteParsed startSeq endSeq bytes a in
   (ack_end ∈ out <-> exists exit, pendingExitSequence a = Some exit /\ exit <= parsedSequence a')
   /\ (ack_end ∈ out -> pendingExitSequence a' = None))
  /\ (let '(a', out) := deferExit seq a in
      (ack_end ∈ out <-> seq <= parsedSequence a)
      /\ pendingExitSequence a' = if bool_decide (ack_end ∈ out) then None else Some seq).
Proof.
  split.
  - unfold noteParsed. destruct (advance _ _ _) as [c parsed]. cbn.
    set (r := if _ || _ then _ else _).
    assert (parsedSequence (fst r) = parsed /\ pendingExitSequence (fst r) = pendingExitSequence a
      /\ ack_end ∉ snd r) as (H1 & H2 & H3).
    { subst r. case_if; cbn; repeat split; try done; [|apply not_elem_of_nil].
      intros [?|?%elem_of_nil]%elem_of_cons; done. }
    destruct r as [a1 flushed]. cbn in H1, H2, H3. pose proof (publishExit_fields a1) as Hp.
    destruct (publishExit a1) as [a2 ended]. destruct Hp as (P1 & _ & _ & _ & P5 & P6).
    rewrite elem_of_cons, elem_of_app. rewrite <- H2, P1. split; [|intros [?|[?|?]]; [done | done | by apply P6]].
    rewrite <- P5. split; [intros [?|[?|?]]; done | by right; right].
  - unfold deferExit, publishExit. cbn. case_if; bool_prop; cbn.
    + rewrite bool_decide_true by left. split; [|done]. split; [lia | intros _; by left].
    + rewrite bool_decide_false by apply not_elem_of_nil. split; [|done].
      split; [by intros ?%elem_of_nil | lia].
Qed.

(** Ordered events are a bounded FIFO gated by the parsed sequence: in any
    run without overflow every enqueued event is published exactly once or still
    waits, in the order of arrival; an event is published only when its sequence
    has been released; the oldest waiting event is never releasable; and at most
    256 events and 4 MiB ever wait. *)
Theorem events_fifo ops o :
  events_ok o -> Forall (fun e => 0 <= ev_bytes e) (enqueued ops) ->
  ev_overflow ∉ snd (event_run ops o) ->
  let '(o', out) := event_run ops o in
  events_ok o'
  /\ exists front, pending o ++ enqueued ops = front ++ pending o'
       /\ out = map (fun e => ev_call (ev_publish e)) front
       /\ releasedThrough o <= releasedThrough o'
       /\ Forall (fun e => ev_seq e <= releasedThrough o') front.
Proof.
  revert o. induction ops as [|op ops IH]; intros o Ho Hb Hov; cbn [event_run].
  { split; [done|]. exists []. cbn. rewrite app_nil_r. repeat split; try done. }
  assert (forall e, op = op_enqueue e -> 0 <= ev_bytes e) as Hop.
  { intros e ->. by apply Forall_cons in Hb as [? _]. }
  assert (Forall (fun e => 0 <= ev_bytes e) (enqueued ops)) as Hb'.
  { destruct op; [by apply Forall_cons in Hb as [_ ?] | done]. }
  pose proof (events_ok_step op o Hop Ho) as Ho1. pose proof (event_step_fifo op o Hop Ho) as Hs.
  cbn [event_run] in Hov. destruct (event_step op o) as [o1 out1]. cbn [fst snd] in *.
  specialize (IH o1 Ho1 Hb'). destruct (event_run ops o1) as [o2 out2]. cbn [fst snd] in *.
  rewrite elem_of_app in Hov. destruct Hs as (f1 & E1 & -> & F1 & M1); [tauto|].
  destruct IH as (Ho2 & f2 & E2 & -> & M2 & F2); [tauto|]. split; [done|].
  exists (f1 ++ f2). rewrite map_app.
  change (enqueued (op :: ops)) with (enqueued ([op] ++ ops)). unfold enqueued in *.
  rewrite omap_app, app_assoc, E1, <- app_assoc, E2, app_assoc.
  repeat split; try done; [lia|]. apply Forall_app. split; [|done].
  eapply Forall_impl; [exact F1|]. cbn. lia.
Qed.

Lemma advance_none fuel c p : c !! p = None -> advance fuel c p = (c, p).
Proof. intros H. destruct fuel as [|fuel]; [done|]. cbn. by rewrite H. Qed.

Lemma advance_some fuel c p next :
  c !! p = Some next -> advance (S fuel) c p = advance fuel (delete p c) next.
Proof. intros H. cbn. by rewrite H. Qed.

(** A parse that is reported after a rebase is counted again: when a chunk
    that was handed out before the rebase at [b] ends at [b] and is reported parsed
    afterwards, its bytes are added to the next acknowledgement, which then claims
    more bytes than the sequence advanced since the rebase. *)
Theorem stale_parse_overcounts b s n e m a :
  s < b -> 0 < n -> b < e -> n < 16 * 1024 -> 16 * 1024 <= m -> m = e - b ->
  pendingExitSequence a = None ->
  let a0 := fst (acks_rebase b a) in
  let a1 := fst (noteParsed s b n a0) in
  let out := snd (noteParsed b e m a1) in
  parsedSequence a1 = b /\ out = [ack_advance e; ack_send e (n + m)] /\ e - b < n + m.
Proof.
  intros Hs Hn He Hn16 Hm16 Hm Hx a0 a1 out. subst a0 a1 out.
  assert (noteParsed s b n (fst (acks_rebase b a))
    = (mkAcks (<[s := b]> ∅) b n None true, [ack_advance b])) as E1.
  { unfold noteParsed, acks_rebase. cbn [fst completions parsedSequence pendingBytes
      pendingExitSequence]. rewrite advance_none by by rewrite lookup_insert_ne, lookup_empty by lia.
    rewrite Hx, Z.add_0_l. cbn [pendingBytes]. replace (n >=? 16 * 1024) with false by lia.
    reflexivity. }
  rewrite E1. cbn [fst parsedSequence]. split; [done|]. split; [|lia].
  unfold noteParsed. cbn [completions parsedSequence pendingBytes pendingExitSequence timer].
  rewrite (advance_some _ _ b e) by by rewrite lookup_insert_eq.
  rewrite delete_insert_id, map_size_insert_None by by rewrite lookup_insert_ne, lookup_empty by lia.
  rewrite advance_none by by rewrite lookup_insert_ne, lookup_empty by lia.
  cbn [pendingBytes pendingExitSequence]. replace (n + m >=? 16 * 1024) with true by lia. reflexivity.
Qed.

(** ** Witnesses *)

Lemma stale_parse_overcounts_witness :
  snd (noteParsed 150 16534 16384 (fst (noteParsed 100 150 50 (fst (acks_rebase 150 newAcks)))))
    = [ack_advance 16534; ack_send 16534 16434]
  /\ 16534 - 150 < 50 + 16384.
Proof.
  destruct (stale_parse_overcounts 150 100 50 16534 16384 newAcks) as (_ & H1 & H2); try lia.
  - reflexivity.
  - split; [exact H1 | exact H2].
Defined.

Definition sample_notes : list note := [mkNote 2 20000; mkNote 0 10; mkNote 1 5].
Definition sample_bounds (i : nat) : Z := 100 + 10 * Z.of_nat i.

Lemma parsed_prefix_witness :
  parsedSequence (fst (note_all sample_bounds sample_notes (fst (acks_rebase 100 newAcks)))) = 130
  /\ pendingBytes (fst (note_all sample_bounds sample_notes (fst (acks_rebase 100 newAcks))))
     + acked_bytes (snd (note_all sample_bounds sample_notes (fst (acks_rebase 100 newAcks)))) = 20015.
Proof.
  split; [vm_compute; reflexivity|].
  pose proof (parsed_prefix sample_bounds 3 sample_notes newAcks) as H.
  destruct (note_all _ _ _) as [a' out]. apply H.
  - intros i _. unfold sample_bounds. lia.
  - apply (bool_decide_unpack _). vm_compute. exact I.
  - apply (bool_decide_unpack _). vm_compute. exact I.
Defined.

Lemma exit_after_output_witness :
  snd (noteParsed 0 10 10 (fst (deferExit 10 newAcks))) = [ack_advance 10; ack_send 10 10; ack_end]
  /\ pendingExitSequence (fst (noteParsed 0 10 10 (fst (deferExit 10 newAcks)))) = None.
Proof.
  split; [vm_compute; reflexivity|].
  destruct (exit_after_output 0 10 10 0 (fst (deferExit 10 newAcks))) as [H _].
  assert (snd (noteParsed 0 10 10 (fst (deferExit 10 newAcks)))
    = [ack_advance 10; ack_send 10 10; ack_end]) as E by (vm_compute; reflexivity).
  destruct (noteParsed _ _ _ _) as [a' out]. cbn [fst snd] in *. apply H. rewrite E.
  right. right. left.
Defined.

Definition sample_event_ops : list event_op :=
  [op_enqueue (mkPendingEvent 5 100 onClearBuffer); op_enqueue (mkPendingEvent 3 10 onEnd);
   op_publish 4; op_publish 5].

Lemma events_fifo_witness :
  snd (event_run sample_event_ops newEvents) = [ev_call onClearBuffer; ev_call onEnd]
  /\ events_ok (fst (event_run sample_event_ops newEvents)).
Proof.
  assert (snd (event_run sample_event_ops newEvents) = [ev_call onClearBuffer; ev_call onEnd])
    as E by (vm_compute; reflexivity).
  split; [exact E|].
  pose proof (events_fifo sample_event_ops newEvents) as H.
  destruct (event_run _ _) as [o' out]. cbn [fst snd] in *. apply H.
  - split; cbn; try done; lia.
  - repeat constructor; cbn; lia.
  - rewrite E. intros [?|[?|?%elem_of_nil]%elem_of_cons]%elem_of_cons; done.
Defined.
