(* ===== verification/Snapshot.v ===== *)
(** Snapshots of a terminal on the client
    (packages/client/src/runtime/terminal-multiplex/snapshot/): the assembler of
    the five sections of a snapshot (snapshot.ts) and the manual snapshot request
    (manual.ts).

    The methods of [RemoteTerminalSnapshotAssembler] return the new assembler
    beside their result.  A [Uint8Array] of a section is owned by the assembler, so
    it is a value.  The promise of a manual snapshot is settled by an effect. *)

From stdpp Require Import base list.
From Stdlib Require Import ZArith Lia ZifyBool String.
From S2P Require Import Prelude JsText Json Frame Records Crc32c SideEffects Acks.

Open Scope Z_scope.

(** ** snapshot.ts *)

Definition REMOTE_TERMINAL_SNAPSHOT_MAX_BYTES : Z := 2 * 1024 * 1024.

Inductive snapshot_source := headless | provider.

Record RemoteTerminalSnapshot := mkSnapshot {
  snap_id : Z;
  snap_data : jsstring;
  snap_cols : Z;
  snap_rows : Z;
  snap_wireByteLength : Z;
  snap_coverageEndSeq : Z;
  snap_pendingDeliveryStartSeq : Z;
  snap_pendingEscapeTailAnsi : option jsstring;
  snap_source : snapshot_source;
  snap_epoch : Z;
  snap_lastTitle : option jsstring
}.

Record RemoteTerminalSnapshotAssembler := mkAssembler {
  as_snapshotId : Z;
  as_frameSeq : Z;
  as_activeBuffer : Z;
  as_source : Z;
  as_cols : Z;
  as_rows : Z;
  as_pendingDeliveryStartSeq : Z;
  as_sections : option (list bytes);
  as_offsets : list Z
}.

Definition newAssembler : RemoteTerminalSnapshotAssembler :=
  mkAssembler 0 0 0 0 80 24 0 None [0; 0; 0; 0; 0].

Definition assembler_clear (a : RemoteTerminalSnapshotAssembler) : RemoteTerminalSnapshotAssembler :=
  mkAssembler 0 (as_frameSeq a) (as_activeBuffer a) (as_source a) (as_cols a) (as_rows a)
    (as_pendingDeliveryStartSeq a) None [0; 0; 0; 0; 0].

Definition sum_Z (l : list Z) : Z := foldr Z.add 0 l.

Definition assembler_start (frame : TerminalMultiplexFrame) (a : RemoteTerminalSnapshotAssembler)
    : bool * RemoteTerminalSnapshotAssembler :=
  match decodeTerminalMultiplexSnapshotStartRecord (payload frame) with
  | None => (false, a)
  | Some record =>
      if negb (ss_snapshotId record =? correlationId frame)
         || negb (ss_coverageEndSeq record =? seq frame)
         || (ss_snapshotId record =? 0)
         || existsb (fun n => n >? REMOTE_TERMINAL_SNAPSHOT_MAX_BYTES) (ss_sectionBytes record)
         || (sum_Z (ss_sectionBytes record) >? REMOTE_TERMINAL_SNAPSHOT_MAX_BYTES)
      then (false, a)
      else (true,
        mkAssembler (ss_snapshotId record) (ss_coverageEndSeq record) (ss_activeBuffer record)
          (ss_source record) (ss_cols record) (ss_rows record) (ss_pendingDeliveryStartSeq record)
          (Some (map (fun n => new_buffer (Z.to_nat n)) (ss_sectionBytes record)))
          [0; 0; 0; 0; 0])
  end.

Definition assembler_chunk (frame : TerminalMultiplexFrame) (a : RemoteTerminalSnapshotAssembler)
    : bool * RemoteTerminalSnapshotAssembler :=
  match decodeTerminalMultiplexSnapshotChunkRecord (payload frame), as_sections a with
  | Some record, Some sections =>
      let section := Z.to_nat (sc_section record) in
      match sections !! section, as_offsets a !! section with
      | Some target, Some offset =>
          if negb (sc_snapshotId record =? as_snapshotId a)
             || negb (correlationId frame =? as_snapshotId a)
             || negb (seq frame =? as_frameSeq a)
             || negb (sc_sectionOffset record =? offset)
             || (sc_sectionOffset record + byteLength (sc_data record) >? byteLength target)
             || (byteLength (sc_data record) >? TERMINAL_MULTIPLEX_SNAPSHOT_CHUNK_DATA_BYTES)
          then (false, a)
          else (true,
            mkAssembler (as_snapshotId a) (as_frameSeq a) (as_activeBuffer a) (as_source a)
              (as_cols a) (as_rows a) (as_pendingDeliveryStartSeq a)
              (Some (<[section := view_set_bytes (Z.to_nat (sc_sectionOffset record))
                                    (sc_data record) target]> sections))
              (<[section := offset + byteLength (sc_data record)]> (as_offsets a)))
      | _, _ => (false, a)
      end
  | _, _ => (false, a)
  end.

(** [typeof value.key === 'string' || value.key === null]. *)
Definition is_string_or_null (v : option json) : bool :=
  match v with Some JNull | Some (JStr _) => true | _ => false end.

Definition isOscLink (link : json) : bool :=
  match link with
  | JObj link =>
      bool_decide (is_Some (as_string (property (js "uri") link)))
      && bool_decide (is_Some (isU32 (property (js "start") link)))
      && bool_decide (is_Some (isU32 (property (js "end") link)))
  | _ => false
  end.

Definition isSnapshotMetadata (value : option TerminalMultiplexJsonObject) : bool :=
  match value with
  | None => false
  | Some value =>
      is_string_or_null (property (js "cwd") value)
      && is_string_or_null (property (js "lastTitle") value)
      && bool_decide (is_Some (isU32 (property (js "kittyKeyboardFlags") value)))
      && (bool_decide (as_string (property (js "displayMode") value) = Some (js "auto"))
          || bool_decide (as_string (property (js "displayMode") value) = Some (js "desktop")))
      && bool_decide (is_Some (isU32 (property (js "requestedScrollbackRows") value)))
      && match property (js "oscLinks") value with
         | Some (JArr links) => forallb isOscLink links
         | _ => false
         end
  end.

(** [\x1b]. *)
Definition ESC : jsstring := [0x1b].

Definition renderDualScreen (normalScrollback normalScreen alternateScreen : jsstring)
    (activeBuffer : Z) : jsstring :=
  let normal := ESC ++ js "[?1049l" ++ ESC ++ js "[2J" ++ ESC ++ js "[3J" ++ ESC ++ js "[H"
                  ++ normalScrollback ++ normalScreen in
  let alternate := ESC ++ js "[?1049h" ++ ESC ++ js "[2J" ++ ESC ++ js "[H" ++ alternateScreen in
  normal ++ alternate ++ (if activeBuffer =? 0 then ESC ++ js "[?1049l" else []).

(** The [try] block of [end]: [None] when a section is not UTF-8 or the metadata
    is not valid. *)
Definition assemble (a : RemoteTerminalSnapshotAssembler) (sections : list bytes)
    (frameEpoch assembledBytes : Z) : option RemoteTerminalSnapshot :=
  match sections with
  | [s0; s1; s2; s3; s4] =>
      match text_decode s0, text_decode s1, text_decode s2, text_decode s3, text_decode s4 with
      | Some t0, Some t1, Some t2, Some t3, Some _ =>
          let metadata := decodeTerminalMultiplexJson s4 in
          if isSnapshotMetadata metadata then
            Some (mkSnapshot (as_snapshotId a) (renderDualScreen t0 t1 t2 (as_activeBuffer a))
                    (as_cols a) (as_rows a) assembledBytes (as_frameSeq a)
                    (as_pendingDeliveryStartSeq a)
                    (match t3 with [] => None | _ => Some t3 end)
                    (if as_source a =? 0 then headless else provider) frameEpoch
                    (match metadata with
                     | Some m => as_string (property (js "lastTitle") m)
                     | None => None
                     end))
          else None
      | _, _, _, _, _ => None
      end
  | _ => None
  end.

Definition assembler_end (frame : TerminalMultiplexFrame) (a : RemoteTerminalSnapshotAssembler)
    : option RemoteTerminalSnapshot * RemoteTerminalSnapshotAssembler :=
  match decodeTerminalMultiplexSnapshotEndRecord (payload frame), as_sections a with
  | Some record, Some sections =>
      if negb (se_status record =? 0)
         || negb (se_snapshotId record =? as_snapshotId a)
         || negb (correlationId frame =? as_snapshotId a)
         || negb (se_coverageEndSeq record =? as_frameSeq a)
         || negb (seq frame =? as_frameSeq a)
         || negb (bool_decide (map byteLength sections = as_offsets a))
         || negb (sum_Z (map byteLength sections) =? se_assembledBytes record)
         || negb (terminalMultiplexCrc32c sections =? se_crc32c record)
      then (None, assembler_clear a)
      else (assemble a sections (epoch frame) (se_assembledBytes record), assembler_clear a)
  | _, _ => (None, assembler_clear a)
  end.

(** ** manual.ts *)

Record PendingManualSnapshot := mkManual {
  manual_id : Z;
  manual_waiting : bool   (** [resolve] is not [null] *);
  manual_timer : bool
}.

Definition RemoteTerminalManualSnapshot : Type := option PendingManualSnapshot.

Inductive manual_effect :=
  | manual_resolve (id : Z) (result : option RemoteTerminalSnapshot)
  | manual_send (id : Z) (scrollbackRows : Z).

(** [request(scrollbackRows)] once [isSnapshotting()] is known to be false and
    nothing is pending: [id] is the allocated correlation id. *)
Definition manual_request (id scrollbackRows : Z)
    : RemoteTerminalManualSnapshot * list manual_effect :=
  (Some (mkManual id true true), [manual_send id (Z.max 0 scrollbackRows)]).

(** The 10 s timer of the request [id]: the caller gets [null], the request stays
    pending so that its late answer is still recognised. *)
Definition manual_timeout (id : Z) (m : RemoteTerminalManualSnapshot)
    : RemoteTerminalManualSnapshot * list manual_effect :=
  match m with
  | Some p =>
      if (manual_id p =? id) && manual_waiting p
      then (Some (mkManual (manual_id p) false false), [manual_resolve (manual_id p) None])
      else (m, [])
  | None => (m, [])
  end.

Definition manual_matches (snapshotId : Z) (m : RemoteTerminalManualSnapshot) : bool :=
  match m with Some p => manual_id p =? snapshotId | None => false end.

Definition manual_complete (snapshot : option RemoteTerminalSnapshot)
    (m : RemoteTerminalManualSnapshot) : RemoteTerminalManualSnapshot * list manual_effect :=
  match m with
  | None => (None, [])
  | Some p =>
      (None, if manual_waiting p then [manual_resolve (manual_id p) snapshot] else [])
  end.

Definition manual_handleAck (frame : TerminalMultiplexFrame) (m : RemoteTerminalManualSnapshot)
    : bool * (RemoteTerminalManualSnapshot * list manual_effect) :=
  if negb (manual_matches (correlationId frame) m) then (false, (m, [])) else
  match decodeTerminalMultiplexAckRecord (payload frame) with
  | None => (false, (m, []))
  | Some ack =>
      if negb (ack_kind ack =? 3) || negb (ack_cumulativeSeq ack =? seq frame)
      then (false, (m, []))
      else (true, manual_complete None m)
  end.

Definition manual_cancel (m : RemoteTerminalManualSnapshot)
    : RemoteTerminalManualSnapshot * list manual_effect := manual_complete None m.

(** ** Specification vocabulary *)

(** What has been received of each section. *)
Definition received : Type := nat -> bytes.

Definition nothing : received := fun _ => [].

Definition receive (i : nat) (data : bytes) (recv : received) : received :=
  fun j => if decide (j = i) then recv j ++ data else recv j.

(** The chunks the assembler accepts along a list of frames. *)
Fixpoint feed (frames : list TerminalMultiplexFrame) (a : RemoteTerminalSnapshotAssembler)
    (recv : received) : received * RemoteTerminalSnapshotAssembler :=
  match frames with
  | [] => (recv, a)
  | f :: rest =>
      let '(ok, a') := assembler_chunk f a in
      let recv' :=
        match ok, decodeTerminalMultiplexSnapshotChunkRecord (payload f) with
        | true, Some r => receive (Z.to_nat (sc_section r)) (sc_data r) recv
        | _, _ => recv
        end in
      feed rest a' recv'
  end.

Definition holds (recv : received) (a : RemoteTerminalSnapshotAssembler) : Prop :=
  exists bufs, as_sections a = Some bufs /\ List.length bufs = 5%nat
    /\ as_offsets a = map (fun i => byteLength (recv i)) (List.seq 0 5)
    /\ forall i buf, bufs !! i = Some buf ->
         (List.length (recv i) <= List.length buf)%nat
         /\ take (List.length (recv i)) buf = recv i.

(** A snapshot on the host, and a way of cutting its sections into chunks. *)
Record host_snapshot := mkHost {
  h_start : TerminalMultiplexSnapshotStartRecord;
  h_sections : list bytes;
  h_route : Z;
  h_epoch : Z
}.

Definition host_ok (h : host_snapshot) : Prop :=
  snapshot_start_ok (h_start h) /\ ss_snapshotId (h_start h) <> 0
  /\ ss_sectionBytes (h_start h) = map byteLength (h_sections h)
  /\ sum_Z (map byteLength (h_sections h)) <= REMOTE_TERMINAL_SNAPSHOT_MAX_BYTES
  /\ Forall bytes_ok (h_sections h).

Definition host_frame (h : host_snapshot) (op : TerminalMultiplexOpcode) (payload : bytes)
    : TerminalMultiplexFrame :=
  mkFrame op None (h_route h) (h_epoch h) (ss_coverageEndSeq (h_start h))
    (ss_snapshotId (h_start h)) payload.

Definition start_frame (h : host_snapshot) : TerminalMultiplexFrame :=
  host_frame h SnapshotStart (encodeTerminalMultiplexSnapshotStartRecord (h_start h)).

Definition chunk_frame (h : host_snapshot) (i : nat) (offset : Z) (data : bytes)
    : TerminalMultiplexFrame :=
  host_frame h SnapshotChunk
    (encodeTerminalMultiplexSnapshotChunkRecord
       (mkSnapshotChunk (ss_snapshotId (h_start h)) (Z.of_nat i) offset data)).

Definition end_frame (h : host_snapshot) : TerminalMultiplexFrame :=
  host_frame h SnapshotEnd
    (encodeTerminalMultiplexSnapshotEndRecord
       (mkSnapshotEnd (ss_snapshotId (h_start h)) 0 (ss_coverageEndSeq (h_start h))
          (sum_Z (map byteLength (h_sections h))) (terminalMultiplexCrc32c (h_sections h)))).

Fixpoint chunk_frames (h : host_snapshot) (recv : received) (plan : list (nat * bytes))
    : list TerminalMultiplexFrame :=
  match plan with
  | [] => []
  | (i, data) :: rest =>
      chunk_frame h i (byteLength (recv i)) data :: chunk_frames h (receive i data recv) rest
  end.

Fixpoint receive_plan (plan : list (nat * bytes)) (recv : received) : received :=
  match plan with
  | [] => recv
  | (i, data) :: rest => receive_plan rest (receive i data recv)
  end.

Definition plan_ok (h : host_snapshot) (plan : list (nat * bytes)) : Prop :=
  Forall (fun p => (fst p < 5)%nat
    /\ byteLength (snd p) <= TERMINAL_MULTIPLEX_SNAPSHOT_CHUNK_DATA_BYTES) plan
  /\ forall i, (i < 5)%nat -> h_sections h !! i = Some (receive_plan plan nothing i).

(** ** Lemmas *)

Lemma byteLength_take_le n (b : bytes) : (List.length (take n b) <= n)%nat.
Proof. rewrite length_take. lia. Qed.

(** Writing at the end of a filled prefix extends it. *)
Lemma take_view_set_bytes p d buf :
  (List.length p + List.length d <= List.length buf)%nat -> take (List.length p) buf = p ->
  take (List.length p + List.length d) (view_set_bytes (List.length p) d buf) = p ++ d.
Proof.
  intros Hl Hp. apply list_eq. intros i.
  destruct (decide (i < List.length p + List.length d)%nat) as [Hi|Hi].
  2:{ rewrite lookup_take_ge by lia. symmetry. apply lookup_ge_None. rewrite length_app. lia. }
  rewrite lookup_take_lt, lookup_view_set_bytes by lia.
  destruct (lookup_lt_is_Some_2 buf i) as [x Hx]; [lia|]. rewrite Hx. cbn.
  case_decide as Hd.
  - rewrite lookup_app_r by lia. destruct (lookup_lt_is_Some_2 d (i - List.length p)%nat) as [y ->]; [lia|].
    done.
  - rewrite lookup_app_l by lia. rewrite <- Hp, lookup_take_lt by lia. by rewrite Hx.
Qed.

Lemma receive_eq i d recv : receive i d recv i = recv i ++ d.
Proof. unfold receive. by rewrite decide_True. Qed.

Lemma receive_ne i j d recv : i <> j -> receive i d recv j = recv j.
Proof. intros H. unfold receive. by rewrite decide_False. Qed.

Lemma offsets_lookup recv i :
  (i < 5)%nat -> map (fun i => byteLength (recv i)) (List.seq 0 5) !! i = Some (byteLength (recv i)).
Proof. intros Hi. do 5 (destruct i as [|i]; [done|]). lia. Qed.

Lemma offsets_receive recv i d :
  (i < 5)%nat ->
  <[i := byteLength (recv i) + byteLength d]> (map (fun i => byteLength (recv i)) (List.seq 0 5))
    = map (fun j => byteLength (receive i d recv j)) (List.seq 0 5).
Proof.
  intros Hi. apply list_eq_same_length with 5%nat; [done | by rewrite length_insert|].
  intros j x y Hj. rewrite offsets_lookup by done. destruct (decide (i = j)) as [<-|Hne].
  - rewrite list_lookup_insert_eq by done. rewrite receive_eq, byteLength_app. congruence.
  - rewrite list_lookup_insert_ne, offsets_lookup, receive_ne by done. congruence.
Qed.

(** An accepted chunk is the next stretch of its section. *)
Lemma chunk_accepted f a a' recv :
  holds recv a -> assembler_chunk f a = (true, a') ->
  exists r, decodeTerminalMultiplexSnapshotChunkRecord (payload f) = Some r
    /\ holds (receive (Z.to_nat (sc_section r)) (sc_data r) recv) a'
    /\ as_snapshotId a' = as_snapshotId a /\ as_frameSeq a' = as_frameSeq a
    /\ as_activeBuffer a' = as_activeBuffer a /\ as_source a' = as_source a
    /\ as_cols a' = as_cols a /\ as_rows a' = as_rows a
    /\ as_pendingDeliveryStartSeq a' = as_pendingDeliveryStartSeq a
    /\ (map byteLength <$> as_sections a') = (map byteLength <$> as_sections a).
Proof.
  intros (bufs & Es & Hl & Eo & Hb). unfold assembler_chunk.
  destruct (decodeTerminalMultiplexSnapshotChunkRecord (payload f)) as [r|]; [|done].
  rewrite Es, Eo. destruct (bufs !! Z.to_nat (sc_section r)) as [target|] eqn:Et; [|done].
  assert (Z.to_nat (sc_section r) < 5)%nat as Hi by (rewrite <- Hl; by eapply lookup_lt_Some).
  rewrite offsets_lookup by done. case_if; [done|]. intros [= <-]. bool_prop.
  match goal with H : sc_sectionOffset r = _ |- _ => rename H into Hoff end.
  destruct (Hb _ target Et) as [Hrl Hrt]. exists r. split; [done|].
  revert Et Hi Hoff Hrl Hrt. generalize (Z.to_nat (sc_section r)) as i. intros i Et Hi Hoff Hrl Hrt.
  rewrite Hoff. unfold byteLength at 1. rewrite Nat2Z.id.
  split; [|cbn; repeat (split; [done|]); cbn; f_equal].
  - eexists. split; [reflexivity|]. split; [by rewrite length_insert|].
    split; [by apply offsets_receive|]. intros j buf Hj.
    apply list_lookup_insert_Some in Hj as [(-> & <- & _)|(Hne & Hj)].
    + rewrite receive_eq, length_app, length_view_set_bytes. unfold byteLength in *.
      split; [lia|]. apply take_view_set_bytes; [lia | done].
    + rewrite receive_ne by done. by apply Hb.
  - apply list_eq. intros j. rewrite !list_lookup_fmap.
    destruct (decide (i = j)) as [<-|Hne]; [|by rewrite list_lookup_insert_ne].
    rewrite list_lookup_insert_eq by lia. rewrite Et. cbn. unfold byteLength.
    by rewrite length_view_set_bytes.
Qed.

Lemma chunk_rejected f a a' : assembler_chunk f a = (false, a') -> a' = a.
Proof.
  unfold assembler_chunk. destruct (decodeTerminalMultiplexSnapshotChunkRecord _) as [r|]; [|by intros [=]].
  destruct (as_sections a) as [secs|]; [|by intros [=]].
  destruct (secs !! _); [|by intros [=]]. destruct (as_offsets a !! _); [|by intros [=]].
  case_if; by intros [=].
Qed.

(** The fields of an assembler no chunk changes. *)
Definition same_header (a a' : RemoteTerminalSnapshotAssembler) : Prop :=
  as_snapshotId a' = as_snapshotId a /\ as_frameSeq a' = as_frameSeq a
  /\ as_activeBuffer a' = as_activeBuffer a /\ as_source a' = as_source a
  /\ as_cols a' = as_cols a /\ as_rows a' = as_rows a
  /\ as_pendingDeliveryStartSeq a' = as_pendingDeliveryStartSeq a
  /\ (map byteLength <$> as_sections a') = (map byteLength <$> as_sections a).

Lemma same_header_trans a b c : same_header a b -> same_header b c -> same_header a c.
Proof. unfold same_header. intuition congruence. Qed.

Lemma feed_holds frames : forall a recv,
  holds recv a ->
  let '(recv', a') := feed frames a recv in holds recv' a' /\ same_header a a'.
Proof.
  induction frames as [|f frames IH]; intros a recv H; cbn [feed]; [by repeat split|].
  destruct (assembler_chunk f a) as [ok a1] eqn:E. destruct ok.
  - destruct (chunk_accepted f a a1 recv H E) as (r & -> & H1 & Hh).
    specialize (IH a1 _ H1). destruct (feed frames a1 _) as [recv' a'].
    destruct IH as [IH1 IH2]. split; [done|]. by eapply same_header_trans.
  - apply chunk_rejected in E as ->. by apply IH.
Qed.

Lemma start_holds f a a' : assembler_start f a = (true, a') ->
  exists r, decodeTerminalMultiplexSnapshotStartRecord (payload f) = Some r
    /\ (List.length (ss_sectionBytes r) = 5%nat -> Forall is_u32 (ss_sectionBytes r) ->
        holds nothing a' /\ (map byteLength <$> as_sections a') = Some (ss_sectionBytes r))
    /\ as_snapshotId a' = ss_snapshotId r /\ as_frameSeq a' = ss_coverageEndSeq r
    /\ as_activeBuffer a' = ss_activeBuffer r /\ as_source a' = ss_source r
    /\ as_cols a' = ss_cols r /\ as_rows a' = ss_rows r
    /\ as_pendingDeliveryStartSeq a' = ss_pendingDeliveryStartSeq r.
Proof.
  unfold assembler_start.
  destruct (decodeTerminalMultiplexSnapshotStartRecord (payload f)) as [r|]; [|done].
  case_if; [done|]. intros [= <-]. exists r. split; [done|]. cbn. split; [|done].
  intros Hl Hu. split.
  - eexists. split; [reflexivity|]. split; [by rewrite length_map|]. split; [done|].
    intros i buf _. cbn. split; [lia | done].
  - f_equal. clear -Hu. induction Hu as [|n l Hn _ IH]; [done|]. cbn. f_equal; [|done].
    unfold byteLength, is_u32 in *. rewrite length_new_buffer. lia.
Qed.

(** A full assembler holds exactly what was received. *)
Lemma full_sections recv a bufs :
  holds recv a -> as_sections a = Some bufs -> map byteLength bufs = as_offsets a ->
  bufs = map recv (List.seq 0 5).
Proof.
  intros (bufs' & Es & Hl & Eo & Hb) Es' Ef. rewrite Es in Es'. injection Es' as ->.
  apply list_eq_same_length with 5%nat; [done | done|]. intros i x y Hi Hx Hy.
  assert (y = recv i) as ->.
  { do 5 (destruct i as [|i]; [by injection Hy as <-|]). lia. }
  destruct (Hb i x Hx) as [Hle <-]. rewrite take_ge; [done|].
  assert (map byteLength bufs !! i = Some (byteLength x)) as H1.
  { pose proof (list_lookup_fmap byteLength bufs i) as E. rewrite Hx in E. exact E. }
  rewrite Ef, Eo, offsets_lookup in H1 by done. unfold byteLength in H1. injection H1. lia.
Qed.

Lemma end_inv f a snap a' :
  assembler_end f a = (Some snap, a') ->
  exists r bufs, decodeTerminalMultiplexSnapshotEndRecord (payload f) = Some r
    /\ as_sections a = Some bufs /\ map byteLength bufs = as_offsets a
    /\ se_status r = 0 /\ se_snapshotId r = as_snapshotId a
    /\ se_coverageEndSeq r = as_frameSeq a
    /\ se_assembledBytes r = sum_Z (map byteLength bufs)
    /\ se_crc32c r = terminalMultiplexCrc32c bufs
    /\ assemble a bufs (epoch f) (se_assembledBytes r) = Some snap.
Proof.
  unfold assembler_end.
  destruct (decodeTerminalMultiplexSnapshotEndRecord (payload f)) as [r|]; [|done].
  destruct (as_sections a) as [bufs|]; [|done]. case_if; [done|]. intros [= Ha <-]. bool_prop.
  exists r, bufs. repeat split; congruence.
Qed.

Lemma assemble_inv a s0 s1 s2 s3 s4 ep n snap :
  assemble a [s0; s1; s2; s3; s4] ep n = Some snap ->
  exists t0 t1 t2 t3, text_decode s0 = Some t0 /\ text_decode s1 = Some t1
    /\ text_decode s2 = Some t2 /\ text_decode s3 = Some t3
    /\ isSnapshotMetadata (decodeTerminalMultiplexJson s4) = true
    /\ snap_data snap = renderDualScreen t0 t1 t2 (as_activeBuffer a)
    /\ snap_id snap = as_snapshotId a /\ snap_coverageEndSeq snap = as_frameSeq a
    /\ snap_pendingDeliveryStartSeq snap = as_pendingDeliveryStartSeq a.
Proof.
  cbn [assemble]. destruct (text_decode s0) as [t0|]; [|done]. destruct (text_decode s1) as [t1|]; [|done].
  destruct (text_decode s2) as [t2|]; [|done]. destruct (text_decode s3) as [t3|]; [|done].
  destruct (text_decode s4); [|done]. case_if; [|done]. intros [= <-]. cbn.
  by exists t0, t1, t2, t3.
Qed.

Lemma metadata_text s :
  isSnapshotMetadata (decodeTerminalMultiplexJson s) = true -> exists t, text_decode s = Some t.
Proof. unfold decodeTerminalMultiplexJson. destruct (text_decode s) as [t|]; [by exists t | done]. Qed.

(** A chunk of the plan is accepted. *)
Lemma plan_chunk_accepted h recv a i data :
  snapshot_start_ok (h_start h) -> holds recv a -> (i < 5)%nat ->
  as_snapshotId a = ss_snapshotId (h_start h) -> as_frameSeq a = ss_coverageEndSeq (h_start h) ->
  byteLength data <= TERMINAL_MULTIPLEX_SNAPSHOT_CHUNK_DATA_BYTES ->
  (map byteLength <$> as_sections a) = Some (ss_sectionBytes (h_start h)) ->
  (exists n, ss_sectionBytes (h_start h) !! i = Some n /\ byteLength (recv i) + byteLength data <= n) ->
  Forall is_u32 (ss_sectionBytes (h_start h)) ->
  fst (assembler_chunk (chunk_frame h i (byteLength (recv i)) data) a) = true
    /\ decodeTerminalMultiplexSnapshotChunkRecord
         (payload (chunk_frame h i (byteLength (recv i)) data))
       = Some (mkSnapshotChunk (ss_snapshotId (h_start h)) (Z.of_nat i) (byteLength (recv i)) data).
Proof.
  intros Hok (bufs & Es & Hl & Eo & Hb) Hi Hid Hseq Hd Hlen (n & Hn & Hfit) Hu.
  rewrite Es in Hlen. injection Hlen as Hlen.
  assert (is_u32 n) as Hn32 by (by eapply Forall_lookup_1).
  pose proof (byteLength_nonneg data). pose proof (byteLength_nonneg (recv i)).
  unfold assembler_chunk. cbn [payload chunk_frame host_frame].
  rewrite snapshot_chunk_roundtrip.
  2:{ unfold is_u32 in *. unfold snapshot_chunk_ok, is_u32. cbn. destruct Hok as [Hid32 _].
      unfold is_u32 in Hid32. lia. }
  split; [|reflexivity]. cbn [sc_section sc_snapshotId sc_sectionOffset sc_data].
  rewrite Es, Nat2Z.id. destruct (lookup_lt_is_Some_2 bufs i) as [target Ht]; [lia|].
  assert (byteLength target = n) as Htn.
  { pose proof (list_lookup_fmap byteLength bufs i) as E. rewrite Ht in E. cbn in E.
    change (byteLength <$> bufs) with (map byteLength bufs) in E. rewrite Hlen, Hn in E. by injection E. }
  rewrite Ht, Eo, offsets_lookup by done. cbn [correlationId Frame.seq chunk_frame host_frame].
  case_if; [|reflexivity]. exfalso. repeat (apply orb_true_iff in E as [E|E]); lia.
Qed.

Lemma receive_plan_app plan recv i :
  receive_plan plan recv i = recv i ++ receive_plan plan nothing i.
Proof.
  revert recv. induction plan as [|[j d] plan IH]; intros recv; cbn [receive_plan].
  { by rewrite app_nil_r. }
  rewrite IH, (IH (receive j d nothing)), app_assoc. f_equal.
  unfold receive. case_decide; [by rewrite app_nil_l | by rewrite app_nil_r].
Qed.

Lemma plan_fed h plan : forall recv a,
  snapshot_start_ok (h_start h) -> holds recv a ->
  as_snapshotId a = ss_snapshotId (h_start h) -> as_frameSeq a = ss_coverageEndSeq (h_start h) ->
  (map byteLength <$> as_sections a) = Some (ss_sectionBytes (h_start h)) ->
  ss_sectionBytes (h_start h) = map byteLength (h_sections h) ->
  Forall is_u32 (ss_sectionBytes (h_start h)) ->
  Forall (fun p => (fst p < 5)%nat
    /\ byteLength (snd p) <= TERMINAL_MULTIPLEX_SNAPSHOT_CHUNK_DATA_BYTES) plan ->
  (forall i, (i < 5)%nat -> h_sections h !! i = Some (receive_plan plan recv i)) ->
  fst (feed (chunk_frames h recv plan) a recv) = receive_plan plan recv.
Proof.
  induction plan as [|[i data] plan IH]; intros recv a Hok Hh Hid Hseq Hlen Hsz Hu Hp Hs; [done|].
  cbn [chunk_frames receive_plan feed]. apply Forall_cons in Hp as [[Hi Hd] Hp]. cbn in Hi, Hd.
  destruct (plan_chunk_accepted h recv a i data) as [Hacc Hdec]; try done.
  { exists (byteLength (receive_plan ((i, data) :: plan) recv i)). split.
    - rewrite Hsz. pose proof (list_lookup_fmap byteLength (h_sections h) i) as E.
      rewrite (Hs i Hi) in E. exact E.
    - cbn [receive_plan]. rewrite receive_plan_app, receive_eq, !byteLength_app.
      pose proof (byteLength_nonneg (receive_plan plan nothing i)). lia. }
  destruct (assembler_chunk _ a) as [ok a1] eqn:E. cbn in Hacc. subst ok. rewrite Hdec.
  destruct (chunk_accepted _ a a1 recv Hh E) as (r & Hr & H1 & Hhd).
  rewrite Hdec in Hr. injection Hr as <-. cbn [sc_section sc_data] in *. rewrite Nat2Z.id in *.
  destruct Hhd as (P1 & P2 & _ & _ & _ & _ & _ & P3).
  apply IH; try done; congruence.
Qed.

Lemma crc_u32 chunks : is_u32 (terminalMultiplexCrc32c chunks).
Proof.
  unfold terminalMultiplexCrc32c, js_ushr. rewrite Z.shiftr_0_r.
  match goal with |- is_u32 (to_uint32 ?x) => pose proof (to_uint32_word x) as H end.
  unfold is_word in H. unfold is_u32, U32_MAX. lia.
Qed.

Lemma sum_bounds l n : Forall (fun x => 0 <= x) l -> sum_Z l <= n ->
  Forall (fun x => x <= n) l /\ 0 <= sum_Z l.
Proof.
  intros H. revert n. unfold sum_Z. induction H as [|x l Hx Hl IH]; intros n Hs; cbn in *; [split; [done | lia]|].
  destruct (IH (n - x) ltac:(lia)) as [H1 H2]. split; [|lia]. constructor; [lia|].
  eapply Forall_impl; [exact H1|]. cbn. lia.
Qed.

Lemma byteLengths_nonneg (l : list bytes) : Forall (fun x => 0 <= x) (map byteLength l).
Proof. induction l; constructor; [apply byteLength_nonneg | done]. Qed.

Lemma host_start_accepted h a :
  host_ok h -> exists a0, assembler_start (start_frame h) a = (true, a0).
Proof.
  intros (Hok & Hid & Hsz & Hsum & _). unfold assembler_start. cbn [payload start_frame host_frame].
  rewrite snapshot_start_roundtrip by done. cbn [correlationId Frame.seq start_frame host_frame].
  destruct (sum_bounds _ _ (byteLengths_nonneg (h_sections h)) Hsum) as [Hmax _].
  case_if; [|by eexists]. exfalso.
  repeat (apply orb_true_iff in E as [E|E]); try lia; [|rewrite Hsz in E; lia].
  apply existsb_exists in E as (x & Hx & Hgt). rewrite Hsz in Hx. apply list_elem_of_In in Hx.
  rewrite Forall_forall in Hmax. specialize (Hmax x Hx). cbn in Hmax. lia.
Qed.

(** After the plan the sections are those of the host. *)
Lemma plan_sections h plan a0 :
  host_ok h -> plan_ok h plan -> holds nothing a0 ->
  as_snapshotId a0 = ss_snapshotId (h_start h) -> as_frameSeq a0 = ss_coverageEndSeq (h_start h) ->
  (map byteLength <$> as_sections a0) = Some (ss_sectionBytes (h_start h)) ->
  let a1 := snd (feed (chunk_frames h nothing plan) a0 nothing) in
  as_sections a1 = Some (h_sections h) /\ map byteLength (h_sections h) = as_offsets a1
  /\ same_header a0 a1.
Proof.
  intros (Hok & _ & Hsz & Hsum & _) [Hp Hs] Hh Hid Hseq Hlen a1.
  assert (Forall is_u32 (ss_sectionBytes (h_start h))) as Hu by apply Hok.
  pose proof (plan_fed h plan nothing a0 Hok Hh Hid Hseq Hlen Hsz Hu Hp Hs) as Hrecv.
  pose proof (feed_holds (chunk_frames h nothing plan) a0 nothing Hh) as Hf. subst a1.
  destruct (feed _ a0 nothing) as [recv a1]. cbn in Hrecv |- *. subst recv. destruct Hf as [H1 Hhd].
  assert (h_sections h = map (receive_plan plan nothing) (List.seq 0 5)) as Hsec.
  { apply list_eq_same_length with 5%nat; [done| |].
    - assert (List.length (ss_sectionBytes (h_start h)) = 5%nat) as H5 by apply Hok.
      by rewrite Hsz, length_map in H5.
    - intros i x y Hi Hx Hy. rewrite (Hs i Hi) in Hx. injection Hx as <-.
      do 5 (destruct i as [|i]; [by injection Hy as <-|]). lia. }
  destruct H1 as (bufs & Es & Hl & Eo & Hbuf).
  assert (map byteLength (h_sections h) = as_offsets a1) as Hfull.
  { rewrite Eo, Hsec. by rewrite map_map. }
  split; [|by split]. rewrite Es. f_equal. rewrite Hsec.
  eapply full_sections; [by exists bufs | exact Es|]. rewrite <- Hfull, <- Hsz.
  destruct Hhd as (_&_&_&_&_&_&_&P8). rewrite Es, Hlen in P8. by injection P8.
Qed.

(** ** Properties *)

(** A snapshot is exactly what was received: whatever frames arrive after an
    accepted start (out of order, of other snapshots, overlapping, malformed), if
    the end frame is accepted then each of the five sections is the concatenation
    of its accepted chunks in order and has the announced length, the checksum and
    the total match, and the rendered screens are the UTF-8 text of the sections. *)
Theorem snapshot_exact fstart frames fend a a0 snap a2 :
  bytes_ok (payload fstart) -> assembler_start fstart a = (true, a0) ->
  let '(recv, a1) := feed frames a0 nothing in
  assembler_end fend a1 = (Some snap, a2) ->
  let sections := map recv (List.seq 0 5) in
  exists r rend t0 t1 t2 t3,
    decodeTerminalMultiplexSnapshotStartRecord (payload fstart) = Some r
    /\ decodeTerminalMultiplexSnapshotEndRecord (payload fend) = Some rend
    /\ map byteLength sections = ss_sectionBytes r
    /\ se_crc32c rend = terminalMultiplexCrc32c sections
    /\ se_assembledBytes rend = sum_Z (map byteLength sections)
    /\ text_decode (recv 0%nat) = Some t0 /\ text_decode (recv 1%nat) = Some t1
    /\ text_decode (recv 2%nat) = Some t2 /\ text_decode (recv 3%nat) = Some t3
    /\ isSnapshotMetadata (decodeTerminalMultiplexJson (recv 4%nat)) = true
    /\ snap_data snap = renderDualScreen t0 t1 t2 (ss_activeBuffer r)
    /\ snap_id snap = ss_snapshotId r /\ snap_coverageEndSeq snap = ss_coverageEndSeq r.
Proof.
  intros Hbytes Hstart. destruct (start_holds _ _ _ Hstart) as (r & Hr & Hn & I1 & I2 & I3 & _).
  destruct (snapshot_start_canonical _ _ Hbytes Hr) as [(_&_&_&_&_&_&_&_&Hl5&Hu32) _].
  destruct (Hn Hl5 Hu32) as [Hh Hlen].
  pose proof (feed_holds frames a0 nothing Hh) as Hf.
  destruct (feed frames a0 nothing) as [recv a1]. destruct Hf as [H1 Hhd]. intros He sections.
  destruct (end_inv _ _ _ _ He) as (rend & bufs & Hrend & Hb & Hfull & _ & _ & _ & Hsum & Hcrc & Ha).
  assert (bufs = sections) as -> by by eapply full_sections.
  destruct (assemble_inv _ _ _ _ _ _ _ _ _ Ha) as (t0&t1&t2&t3&D0&D1&D2&D3&Hm&Hd&Hid&Hcov&_).
  destruct Hhd as (P1 & P2 & P3 & _ & _ & _ & _ & P8).
  exists r, rend, t0, t1, t2, t3. repeat split; try done; try congruence.
  rewrite Hb, Hlen in P8. by injection P8.
Qed.

(** C23. Every snapshot the host sends is assembled: for a host snapshot whose
    sections are UTF-8 with valid metadata and at most 2 MiB, and any cut of the
    sections into chunks of at most 48 KiB, interleaved in any way, the start frame
    is accepted, all chunks are, and the end frame yields the snapshot with the
    text of the sections. *)
Theorem snapshot_assembled h plan a t0 t1 t2 t3 s4 :
  host_ok h -> plan_ok h plan ->
  map text_decode (take 4 (h_sections h)) = [Some t0; Some t1; Some t2; Some t3] ->
  h_sections h !! 4%nat = Some s4 -> isSnapshotMetadata (decodeTerminalMultiplexJson s4) = true ->
  exists a0, assembler_start (start_frame h) a = (true, a0)
    /\ exists snap a2,
       assembler_end (end_frame h) (snd (feed (chunk_frames h nothing plan) a0 nothing))
         = (Some snap, a2)
       /\ snap_data snap = renderDualScreen t0 t1 t2 (ss_activeBuffer (h_start h))
       /\ snap_id snap = ss_snapshotId (h_start h)
       /\ snap_coverageEndSeq snap = ss_coverageEndSeq (h_start h)
       /\ snap_pendingDeliveryStartSeq snap = ss_pendingDeliveryStartSeq (h_start h).
Proof.
  intros Hh Hp Htext Hs4 Hmeta. pose proof Hh as (Hok & Hid & Hsz & Hsum & Hbytes).
  destruct (host_start_accepted h a Hh) as [a0 Ha0]. exists a0. split; [done|].
  destruct (start_holds _ _ _ Ha0) as (r & Hr & Hn & I1 & I2 & I3 & _ & _ & _ & I7).
  cbn [payload start_frame host_frame] in Hr. rewrite snapshot_start_roundtrip in Hr by done.
  injection Hr as <-. destruct (Hn ltac:(apply Hok) ltac:(apply Hok)) as [Hh0 Hlen].
  destruct (plan_sections h plan a0 Hh Hp Hh0 I1 I2 Hlen) as (Hsec & Hfull & P1 & P2 & P3 & _ & _ & _ & P7 & _).
  destruct (feed _ a0 nothing) as [recv a1]. cbn [snd] in *.
  destruct (sum_bounds _ _ (byteLengths_nonneg (h_sections h)) Hsum) as [_ Hpos].
  unfold assembler_end. cbn [payload end_frame host_frame]. rewrite snapshot_end_roundtrip.
  2:{ unfold snapshot_end_ok.
      cbn [se_status se_snapshotId se_coverageEndSeq se_assembledBytes se_crc32c].
      destruct Hok as (? & _ & _ & _ & _ & _ & ? & _). pose proof (crc_u32 (h_sections h)).
      unfold is_u32, U32_MAX, REMOTE_TERMINAL_SNAPSHOT_MAX_BYTES in *. split_and!; try done; lia. }
  rewrite Hsec. cbn [se_status se_snapshotId se_coverageEndSeq se_assembledBytes se_crc32c
    correlationId Frame.seq end_frame host_frame epoch].
  rewrite P1, I1, P2, I2, bool_decide_true, !Z.eqb_refl by done. cbn [negb orb].
  destruct (h_sections h) as [|s0 [|s1 [|s2 [|s3 [|s4' [|]]]]]]; try discriminate.
  2:{ exfalso. destruct Hok as (_&_&_&_&_&_&_&_&H5&_). rewrite Hsz in H5. discriminate. }
  cbn in Hs4. injection Hs4 as ->. cbn in Htext. injection Htext as D0 D1 D2 D3.
  cbn [assemble]. rewrite D0, D1, D2, D3, Hmeta.
  destruct (metadata_text s4 Hmeta) as [t4 ->]. eexists _, _. split; [reflexivity|].
  cbn [snap_data snap_id snap_coverageEndSeq snap_pendingDeliveryStartSeq].
  by rewrite P1, P2, P3, P7, I1, I2, I3, I7.
Qed.

(** ** Witnesses *)

(** Single quotes stand for double quotes. *)
Definition sample_metadata : bytes :=
  text_encode (document "{'cwd':null,'lastTitle':'zsh','oscLinks':[],'kittyKeyboardFlags':0,'displayMode':'auto','requestedScrollbackRows':10}").

Definition sample_host : host_snapshot :=
  let sections := [[0x61; 0x62; 0xc3; 0xa9]; [0x63]; []; []; sample_metadata] in
  mkHost (mkSnapshotStart 7 initial 0 0 false false false 80 24 0 1000 900 (map byteLength sections))
    sections 3 1.

(** The two bytes of one character travel in two chunks. *)
Definition sample_plan : list (nat * bytes) :=
  [(0%nat, [0x61; 0x62; 0xc3]); (4%nat, sample_metadata); (0%nat, [0xa9]); (1%nat, [0x63])].

Lemma sample_host_ok : host_ok sample_host.
Proof.
  split; [|split; [|split; [|split]]].
  - unfold snapshot_start_ok. cbn [sample_host h_start ss_snapshotId ss_source ss_activeBuffer ss_cols
      ss_rows ss_retainedScrollbackRows ss_coverageEndSeq ss_pendingDeliveryStartSeq ss_sectionBytes].
    unfold is_u64, U64_MAX. split_and!; try lia; try (unfold is_u32, U32_MAX; lia).
    + vm_compute. reflexivity.
    + apply (bool_decide_unpack _). vm_compute. exact I.
  - vm_compute. discriminate.
  - vm_compute. reflexivity.
  - vm_compute. discriminate.
  - apply (bool_decide_unpack _). vm_compute. exact I.
Qed.

Lemma sample_plan_ok : plan_ok sample_host sample_plan.
Proof.
  split; [apply (bool_decide_unpack _); vm_compute; exact I|].
  intros i Hi. do 5 (destruct i as [|i]; [vm_compute; reflexivity|]). lia.
Qed.

Lemma snapshot_assembled_witness :
  exists a0, assembler_start (start_frame sample_host) newAssembler = (true, a0)
    /\ exists snap a2,
       assembler_end (end_frame sample_host)
         (snd (feed (chunk_frames sample_host nothing sample_plan) a0 nothing)) = (Some snap, a2)
       /\ snap_data snap = renderDualScreen [0x61; 0x62; 0xe9] [0x63] [] 0.
Proof.
  destruct (snapshot_assembled sample_host sample_plan newAssembler [0x61; 0x62; 0xe9] [0x63] [] []
    sample_metadata sample_host_ok sample_plan_ok) as (a0 & H0 & snap & a2 & H1 & H2 & _).
  - vm_compute. reflexivity.
  - reflexivity.
  - vm_compute. reflexivity.
  - exists a0. split; [exact H0|]. exists snap, a2. split; [exact H1 | exact H2].
Defined.

Definition sample_started : RemoteTerminalSnapshotAssembler :=
  snd (assembler_start (start_frame sample_host) newAssembler).

Definition sample_fed : received * RemoteTerminalSnapshotAssembler :=
  feed (start_frame sample_host :: chunk_frames sample_host nothing sample_plan) sample_started nothing.

Lemma snapshot_exact_witness :
  exists snap a2, assembler_end (end_frame sample_host) (snd sample_fed) = (Some snap, a2)
    /\ snap_id snap = 7 /\ snap_coverageEndSeq snap = 1000.
Proof.
  assert (assembler_start (start_frame sample_host) newAssembler = (true, sample_started)) as Hs
    by (vm_compute; reflexivity).
  pose proof (snapshot_exact (start_frame sample_host)
    (start_frame sample_host :: chunk_frames sample_host nothing sample_plan)
    (end_frame sample_host) newAssembler sample_started) as H.
  destruct (assembler_end (end_frame sample_host) (snd sample_fed)) as [[snap|] a2] eqn:E.
  - exists snap, a2. split; [reflexivity|]. specialize (H snap a2). unfold sample_fed in E.
    destruct (feed _ sample_started nothing) as [recv a1].
    destruct H as (r & rend & t0 & t1 & t2 & t3 & Hr & _ & _ & _ & _ & _ & _ & _ & _ & _ & _ & -> & ->).
    + apply (bool_decide_unpack _). vm_compute. exact I.
    + exact Hs.
    + exact E.
    + vm_compute in Hr. injection Hr as <-. split; reflexivity.
  - exfalso. apply (f_equal (fun p => match fst p with Some _ => true | None => false end)) in E.
    vm_compute in E. discriminate E.
Defined.
