(* ===== verification/Effects.v ===== *)
(** A state, output and exception monad for the stateful classes, and the
    triples used to reason about it.

    A computation maps a state to an outcome, the new state and the effects it
    had on the outside, in order.  As in JavaScript, a thrown error keeps the state
    changes and the effects made before it. *)

From stdpp Require Import base list.
From Stdlib Require Import ZArith.
From S2P Require Import Prelude.

Definition M (S O X A : Type) : Type := S -> outcome X A * S * list O.

Section monad.
Context {S O X : Type}.

Definition ret {A} (a : A) : M S O X A := fun s => (Ret a, s, []).

Definition bind {A B} (m : M S O X A) (k : A -> M S O X B) : M S O X B := fun s =>
  let '(r, s1, out1) := m s in
  match r with
  | Exn x => (Exn x, s1, out1)
  | Ret a => let '(r2, s2, out2) := k a s1 in (r2, s2, out1 ++ out2)
  end.

Definition emit (o : O) : M S O X unit := fun s => (Ret tt, s, [o]).
Definition throw {A} (x : X) : M S O X A := fun s => (Exn x, s, []).
Definition get : M S O X S := fun s => (Ret s, s, []).
Definition modify (f : S -> S) : M S O X unit := fun s => (Ret tt, f s, []).

Fixpoint for_each {A} (f : A -> M S O X unit) (l : list A) : M S O X unit :=
  match l with
  | [] => ret tt
  | a :: rest => bind (f a) (fun _ => for_each f rest)
  end.

(** [try { m } catch { handler }]. *)
Definition catch {A} (m : M S O X A) (handler : M S O X A) : M S O X A := fun s =>
  let '(r, s1, out1) := m s in
  match r with
  | Ret a => (Ret a, s1, out1)
  | Exn _ => let '(r2, s2, out2) := handler s1 in (r2, s2, out1 ++ out2)
  end.

(** [try { m } catch (error) { handler(error) }]. *)
Definition rescue {A} (m : M S O X A) (handler : X -> M S O X A) : M S O X A := fun s =>
  let '(r, s1, out1) := m s in
  match r with
  | Ret a => (Ret a, s1, out1)
  | Exn x => let '(r2, s2, out2) := handler x s1 in (r2, s2, out1 ++ out2)
  end.
End monad.

(** A part of a state: a component inside its owner. *)
Record lens (S T : Type) := mkLens {
  view : S -> T;
  update : T -> S -> S
}.
Arguments mkLens {S T}.
Arguments view {S T}.
Arguments update {S T}.

(** Runs a component's computation inside its owner. *)
Definition zoom {S T O X A} (l : lens S T) (m : M T O X A) : M S O X A := fun s =>
  let '(r, t, out) := m (view l s) in (r, update l t s, out).

Declare Scope eff_scope.
Delimit Scope eff_scope with eff.
Notation "x <- m ;; k" := (bind m (fun x => k))
  (at level 100, m at next level, k at level 200, right associativity) : eff_scope.
Notation "m ;;; k" := (bind m (fun _ => k))
  (at level 100, k at level 200, right associativity) : eff_scope.

Definition run_state {S O X A} (r : outcome X A * S * list O) : S := snd (fst r).
Definition run_out {S O X A} (r : outcome X A * S * list O) : list O := snd r.
Definition run_result {S O X A} (r : outcome X A * S * list O) : outcome X A := fst (fst r).

(** ** Triples

    [triple P m Q]: from a state where [P] holds, whatever the outcome, the new
    state and the effects satisfy [Q] with the outcome. *)

Section triples.
Context {S O X : Type}.

Definition triple {A} (P : S -> Prop) (m : M S O X A)
    (Q : outcome X A -> S -> list O -> Prop) : Prop :=
  forall s, P s -> let '(r, s', out) := m s in Q r s' out.

(** A relation between states that every step of a computation respects,
    together with its effects; it must be closed under composition. *)
Record step_relation := mkStep {
  related : S -> list O -> S -> Prop;
  related_refl : forall s, related s [] s;
  related_trans : forall s1 o1 s2 o2 s3,
    related s1 o1 s2 -> related s2 o2 s3 -> related s1 (o1 ++ o2) s3
}.

Definition respects {A} (R : step_relation) (m : M S O X A) : Prop :=
  forall s, let '(_, s', out) := m s in related R s out s'.

Lemma respects_ret {A} R (a : A) : respects R (ret a).
Proof. intros s. apply related_refl. Qed.

Lemma respects_throw {A} R (x : X) : respects R (throw (A := A) x).
Proof. intros s. apply related_refl. Qed.

Lemma respects_get R : respects R get.
Proof. intros s. apply related_refl. Qed.

Lemma respects_bind {A B} R (m : M S O X A) (k : A -> M S O X B) :
  respects R m -> (forall a, respects R (k a)) -> respects R (bind m k).
Proof.
  intros Hm Hk s. unfold bind. specialize (Hm s). destruct (m s) as [[[a|x] s1] o1]; [|done].
  specialize (Hk a s1). destruct (k a s1) as [[r s2] o2]. by eapply related_trans.
Qed.

Lemma respects_for_each {A} R (f : A -> M S O X unit) l :
  (forall a, a ∈ l -> respects R (f a)) -> respects R (for_each f l).
Proof.
  induction l as [|a l IH]; intros H; cbn [for_each]; [apply respects_ret|].
  apply respects_bind; [apply H; left|]. intros _. apply IH. intros b Hb. apply H. by right.
Qed.

Lemma respects_modify R (f : S -> S) : (forall s, related R s [] (f s)) -> respects R (modify f).
Proof. intros H s. apply H. Qed.

Lemma respects_emit R (o : O) : (forall s, related R s [o] s) -> respects R (emit o).
Proof. intros H s. apply H. Qed.

(** The same, from a state that satisfies a condition the computation may use. *)
Definition respects_from {A} (R : step_relation) (P : S -> Prop) (m : M S O X A) : Prop :=
  forall s, P s -> let '(_, s', out) := m s in related R s out s'.

Lemma respects_any {A} R P (m : M S O X A) : respects R m -> respects_from R P m.
Proof. intros H s _. apply H. Qed.

(** Reading the state first: the continuation may use what was read. *)
Lemma respects_get_bind {B} R (k : S -> M S O X B) :
  (forall s, respects_from R (eq s) (k s)) -> respects R (bind get k).
Proof.
  intros Hk s. unfold bind, get. specialize (Hk s s eq_refl).
  by destruct (k s s) as [[r s2] o2].
Qed.

Lemma respects_from_bind {A B} R P (m : M S O X A) (k : A -> M S O X B) :
  respects_from R P m -> (forall a, respects R (k a)) -> respects_from R P (bind m k).
Proof.
  intros Hm Hk s Hs. unfold bind. specialize (Hm s Hs). destruct (m s) as [[[a|x] s1] o1]; [|done].
  specialize (Hk a s1). destruct (k a s1) as [[r s2] o2]. by eapply related_trans.
Qed.

(** ** Errors

    [throws E m]: every error [m] throws satisfies [E]. *)
Definition throws {A} (E : X -> Prop) (m : M S O X A) : Prop :=
  forall s, match run_result (m s) with Exn x => E x | Ret _ => True end.

Lemma throws_ret {A} E (a : A) : throws E (ret a).
Proof. done. Qed.
Lemma throws_get E : throws E get.
Proof. done. Qed.
Lemma throws_emit E o : throws E (emit o).
Proof. done. Qed.
Lemma throws_modify E f : throws E (modify f).
Proof. done. Qed.
Lemma throws_throw {A} (E : X -> Prop) x : E x -> throws E (throw (A := A) x).
Proof. intros H s. exact H. Qed.

Lemma throws_bind {A B} E (m : M S O X A) (k : A -> M S O X B) :
  throws E m -> (forall a, throws E (k a)) -> throws E (bind m k).
Proof.
  intros Hm Hk s. unfold bind, throws, run_result in *. specialize (Hm s).
  destruct (m s) as [[[a|x] s1] o1]; [|done]. specialize (Hk a s1).
  by destruct (k a s1) as [[r s2] o2].
Qed.

Lemma throws_for_each {A} E (f : A -> M S O X unit) l :
  (forall a, a ∈ l -> throws E (f a)) -> throws E (for_each f l).
Proof.
  induction l as [|a l IH]; intros H; cbn [for_each]; [done|].
  apply throws_bind; [apply H; left|]. intros _. apply IH. intros b Hb. apply H. by right.
Qed.
End triples.

Arguments step_relation : clear implicits.

(** ** Compositional properties

    A property of computations that sequencing preserves.  What a component's
    operations satisfy follows from their primitive steps ([compose]). *)

Class Compositional {S O X : Type} (Q : forall A, M S O X A -> Prop) := {
  comp_ret A (a : A) : Q A (ret a);
  comp_get : Q S get;
  comp_bind A B (m : M S O X A) (k : A -> M S O X B) :
    Q A m -> (forall a, Q B (k a)) -> Q B (bind m k)
}.

Arguments comp_ret {S O X Q _} A a.
Arguments comp_get {S O X Q _}.
Arguments comp_bind {S O X Q _} A B m k.

#[export] Instance respects_compositional {S O X} (R : step_relation S O) :
  Compositional (fun A (m : M S O X A) => respects R m).
Proof.
  split; intros; [apply respects_ret | apply respects_get | by apply respects_bind].
Qed.

#[export] Instance throws_compositional {S O X} (E : X -> Prop) :
  Compositional (fun A (m : M S O X A) => throws E m).
Proof. split; intros; [apply throws_ret | apply throws_get | by apply throws_bind]. Qed.

#[export] Instance and_compositional {S O X : Type} (Q1 Q2 : forall A, M S O X A -> Prop)
    `{!Compositional Q1} `{!Compositional Q2} : Compositional (fun A m => Q1 A m /\ Q2 A m).
Proof.
  split; [split; apply comp_ret | split; apply comp_get |].
  intros A B m k [H1 H2] Hk. split; apply comp_bind; auto; intros a; apply (Hk a).
Qed.

Lemma comp_for_each {S O X} (Q : forall A, M S O X A -> Prop) `{!Compositional Q}
    {A} (f : A -> M S O X unit) l :
  (forall a, a ∈ l -> Q unit (f a)) -> Q unit (for_each f l).
Proof.
  induction l as [|a l IH]; intros H; cbn [for_each]; [apply comp_ret|].
  apply comp_bind; [apply H; left|]. intros _. apply IH. intros b Hb. apply H. by right.
Qed.

(** Running a part inside its owner. *)
Lemma respects_zoom {S T O X A} (l : lens S T) (R : step_relation S O) (R' : step_relation T O)
    (m : M T O X A) :
  (forall s out t', related R' (view l s) out t' -> related R s out (update l t' s)) ->
  respects R' m -> respects R (zoom l m).
Proof.
  intros Hl Hm s. unfold zoom. specialize (Hm (view l s)).
  destruct (m (view l s)) as [[r t] out]. by apply Hl.
Qed.

Lemma throws_zoom {S T O X A} (l : lens S T) (E : X -> Prop) (m : M T O X A) :
  throws E m -> throws E (zoom l m).
Proof.
  intros Hm s. unfold zoom, run_result. specialize (Hm (view l s)). unfold run_result in Hm.
  by destruct (m (view l s)) as [[r t] out].
Qed.

(** Takes a computation apart down to steps a hint or a hypothesis settles. *)
Ltac compose_step :=
  match goal with
  | |- ?Q _ (bind _ _) => apply comp_bind; [|intros ?]
  | |- ?Q _ (ret _) => apply comp_ret
  | |- ?Q _ get => apply comp_get
  | |- ?Q _ (for_each _ _) => apply (comp_for_each Q); intros ? ?
  | |- context [match ?x with _ => _ end] =>
      lazymatch x with context [match _ with _ => _ end] => fail | _ => destruct x eqn:? end
  end.

Ltac compose := repeat first [solve [eauto with effects] | compose_step].

Create HintDb effects.
#[export] Hint Resolve respects_ret respects_throw respects_get respects_bind : effects.
#[export] Hint Resolve throws_ret throws_get throws_emit throws_modify throws_bind : effects.
