(* ===== verification/StreamRecords.v ===== *)
(** JSON records of a terminal stream
    (packages/protocol/typescript/src/terminal/multiplex/stream-records.ts).

    [schema.safeParse] is the zod library: the class [StreamSchemas] holds what it
    answers for the four schemas the decoders use ([None]: not a success).  The
    decoders add checks of their own, modelled here: the sequence range of a
    subscription, the priority numbers, the correlation id and the marker sequence
    of a restore. *)

From stdpp Require Import base list.
From Stdlib Require Import ZArith Lia ZifyBool String.
From S2P Require Import Prelude JsText Json Frame SideEffects.

Open Scope Z_scope.

Inductive priority := parked | visible | active_priority.

(** The parsed data, with the fields the decoders read. *)
Record SubscribeData := mkSubscribe {
  sub_terminal : jsstring;
  sub_transportGeneration : jsstring;
  sub_lastParsedSeq : jsstring;
  sub_visible : bool;
  sub_interested : bool;
  sub_priority : priority;
  sub_snapshotMaxBytes : Z
}.

Inductive resize_reason := fit | user | restore_pulse.

Record ResizeData := mkResize {
  resize_cols : Z;
  resize_rows : Z;
  resize_reason_of : resize_reason
}.

Inductive end_reason := exit | killed | gone | transport_replaced.

Record EndData := mkEnd {
  end_exitCode : option Z;
  end_reason_of : end_reason;
  end_historyKept : bool
}.

Record ModelRestoreData := mkModelRestore {
  restore_reason : jsstring;
  restore_markerSeq : jsstring;
  restore_snapshotFollows : bool
}.

Class StreamSchemas := {
  SubscribeRecordSchema : option TerminalMultiplexJsonObject -> option SubscribeData;
  ResizeRecordSchema : option TerminalMultiplexJsonObject -> option ResizeData;
  EndRecordSchema : option TerminalMultiplexJsonObject -> option EndData;
  ModelRestoreRecordSchema : option TerminalMultiplexJsonObject -> option ModelRestoreData
}.

(** [BigInt(text)] of a text of decimal digits. *)
Definition bigint_of (text : jsstring) : Z := fst (fst (digits 0 0 text)).

Record TerminalMultiplexSubscribeRecord := mkSubscribeRecord {
  sr_terminal : jsstring;
  sr_transportGeneration : jsstring;
  sr_lastParsedSeq : Z;
  sr_visible : bool;
  sr_interested : bool;
  sr_priority : Z;
  sr_snapshotMaxBytes : Z
}.

Section decoders.
Context `{StreamSchemas}.

Definition decodeTerminalMultiplexSubscribeRecord (payload : bytes)
    : option TerminalMultiplexSubscribeRecord :=
  match SubscribeRecordSchema (decodeTerminalMultiplexJson payload) with
  | None => None
  | Some data =>
      let lastParsedSeq := bigint_of (sub_lastParsedSeq data) in
      if lastParsedSeq >? 0xffffffffffffffff then None
      else Some (mkSubscribeRecord (sub_terminal data) (sub_transportGeneration data) lastParsedSeq
                   (sub_visible data) (sub_interested data)
                   (match sub_priority data with parked => 0 | visible => 1 | active_priority => 2 end)
                   (sub_snapshotMaxBytes data))
  end.

Definition decodeTerminalMultiplexResizeRecord (payload : bytes) : option ResizeData :=
  ResizeRecordSchema (decodeTerminalMultiplexJson payload).

Definition decodeTerminalMultiplexEndRecord (frame : TerminalMultiplexFrame) : option EndData :=
  match EndRecordSchema (decodeTerminalMultiplexJson (payload frame)) with
  | Some data => if correlationId frame =? 0 then Some data else None
  | None => None
  end.

Definition decodeTerminalMultiplexModelRestoreRecord (frame : TerminalMultiplexFrame)
    : option ModelRestoreData :=
  match ModelRestoreRecordSchema (decodeTerminalMultiplexJson (payload frame)) with
  | Some data =>
      if (correlationId frame =? 0) && bool_decide (restore_markerSeq data = decimal (Frame.seq frame))
      then Some data else None
  | None => None
  end.
End decoders.

(** A concrete instance: what zod accepts for the two records the client reads. *)
Definition end_schema (value : option TerminalMultiplexJsonObject) : option EndData :=
  match value with
  | None => None
  | Some o =>
      let reason :=
        match as_string (property (js "reason") o) with
        | Some r =>
            if jsstring_eqb r (js "exit") then Some exit
            else if jsstring_eqb r (js "killed") then Some killed
            else if jsstring_eqb r (js "gone") then Some gone
            else if jsstring_eqb r (js "transport-replaced") then Some transport_replaced else None
        | None => None
        end in
      match reason, property (js "historyKept") o, property (js "exitCode") o with
      | Some reason, Some (JBool kept), Some JNull => Some (mkEnd None reason kept)
      | Some reason, Some (JBool kept), exitCode =>
          match isI32 exitCode with Some z => Some (mkEnd (Some z) reason kept) | None => None end
      | _, _, _ => None
      end
  end.

Definition restore_reasons : list jsstring :=
  [js "hidden-drop"; js "pending-cap"; js "ack-stall"; js "sequence-gap"; js "provider-gap";
   js "renderer-replaced"].

(** The regular expression of a sequence: 0, or digits without a leading 0. *)
Definition is_decimal (s : jsstring) : bool :=
  match s with
  | [] => false
  | [c] => is_digit c
  | c :: _ => negb (c =? 0x30) && forallb is_digit s
  end.

Definition restore_schema (value : option TerminalMultiplexJsonObject) : option ModelRestoreData :=
  match value with
  | None => None
  | Some o =>
      match as_string (property (js "reason") o), as_string (property (js "markerSeq") o),
            property (js "snapshotFollows") o with
      | Some reason, Some marker, Some (JBool follows) =>
          if bool_decide (reason ∈ restore_reasons) && is_decimal marker
          then Some (mkModelRestore reason marker follows) else None
      | _, _, _ => None
      end
  end.

Definition sample_schemas : StreamSchemas :=
  {| SubscribeRecordSchema := fun _ => None;
     ResizeRecordSchema := fun _ => None;
     EndRecordSchema := end_schema;
     ModelRestoreRecordSchema := restore_schema |}.
