(* ===== verification/Delivery.v ===== *)
(** Delivery of one terminal stream on the client
    (packages/client/src/runtime/terminal-multiplex/delivery/delivery.ts, with
    recovery-effects.ts, credit.ts, failure-message.ts, ../snapshot/publication.ts and
    the [sendCredit] of ../stream/control-sender.ts it is wired to).

    A [RemoteTerminalDelivery] owns the assembler, the acknowledgements, the ordered
    events, the manual snapshot, the text decoder and the recovery state, and wires
    their callbacks.  Its methods are computations of the monad of Effects.v over the
    delivery and the correlation-id counter of the connection it shares; [send] is an
    effect, because the delivery ignores its result.  The [onParsed] closures given to
    the renderer are tickets: [once] makes a ticket usable once. *)

From stdpp Require Import base list.
From Stdlib Require Import ZArith Lia ZifyBool String.
From S2P Require Import Prelude JsText Json Frame Records Recovery SideEffects Acks.
From S2P Require Import Snapshot Effects StreamRecords.

Open Scope Z_scope.

(** ** Effects of a stream *)

Inductive stream_effect :=
  | o_send (op : TerminalMultiplexOpcode) (routeId seq correlationId : Z) (payload : bytes)
  | o_callback (c : RemoteRuntimeMultiplexedTerminalCallback)
  | o_manual (id : Z) (result : option RemoteTerminalSnapshot)
      (** the promise of the manual request [id] is resolved *)
  | o_input (correlationId : Z) (accepted : bool)
      (** the promise of the input [correlationId] is resolved *)
  | o_ended  (** [options.onEnd] of the delivery *)
  | o_closed (streamId : Z)  (** [options.onClose] of the stream *).

Inductive stream_error :=
  | CorrelationIdsExhausted
  | HostRecoveryEffect
  | UnsafeJson.

(** What an [onParsed] closure does when it is first called. *)
Inductive ticket :=
  | ticket_output (startSeq endSeq bytes : Z)
  | ticket_snapshot (snapshot : RemoteTerminalSnapshot)
  | ticket_used.

Record PendingRemoteTerminalOutput := mkOutput {
  po_payload : bytes;
  po_startSeq : Z;
  po_endSeq : Z
}.

Record RemoteTerminalDelivery := mkDelivery {
  d_snapshot : RemoteTerminalSnapshotAssembler;
  d_pendingOutput : list PendingRemoteTerminalOutput;
  d_orderedEvents : RemoteTerminalOrderedEvents;
  d_manualSnapshot : RemoteTerminalManualSnapshot;
  d_acks : RemoteTerminalDeliveryAcks;
  d_outputTextDecoder : text_decoder;
  d_recovery : TerminalMultiplexRecoveryState;
  d_expectedSequence : Z;
  d_initialSnapshotId : option Z;  (** the id, if it is an integer *)
  d_tickets : list ticket
}.

Definition newDelivery : RemoteTerminalDelivery :=
  mkDelivery newAssembler [] newEvents None newAcks new_decoder
    (createTerminalMultiplexRecoveryState active) 0 (Some 0) [].

Definition set_snapshot x d := mkDelivery x (d_pendingOutput d) (d_orderedEvents d)
  (d_manualSnapshot d) (d_acks d) (d_outputTextDecoder d) (d_recovery d) (d_expectedSequence d)
  (d_initialSnapshotId d) (d_tickets d).
Definition set_pendingOutput x d := mkDelivery (d_snapshot d) x (d_orderedEvents d)
  (d_manualSnapshot d) (d_acks d) (d_outputTextDecoder d) (d_recovery d) (d_expectedSequence d)
  (d_initialSnapshotId d) (d_tickets d).
Definition set_orderedEvents x d := mkDelivery (d_snapshot d) (d_pendingOutput d) x
  (d_manualSnapshot d) (d_acks d) (d_outputTextDecoder d) (d_recovery d) (d_expectedSequence d)
  (d_initialSnapshotId d) (d_tickets d).
Definition set_manualSnapshot x d := mkDelivery (d_snapshot d) (d_pendingOutput d) (d_orderedEvents d)
  x (d_acks d) (d_outputTextDecoder d) (d_recovery d) (d_expectedSequence d)
  (d_initialSnapshotId d) (d_tickets d).
Definition set_acks x d := mkDelivery (d_snapshot d) (d_pendingOutput d) (d_orderedEvents d)
  (d_manualSnapshot d) x (d_outputTextDecoder d) (d_recovery d) (d_expectedSequence d)
  (d_initialSnapshotId d) (d_tickets d).
Definition set_decoder x d := mkDelivery (d_snapshot d) (d_pendingOutput d) (d_orderedEvents d)
  (d_manualSnapshot d) (d_acks d) x (d_recovery d) (d_expectedSequence d)
  (d_initialSnapshotId d) (d_tickets d).
Definition set_recovery x d := mkDelivery (d_snapshot d) (d_pendingOutput d) (d_orderedEvents d)
  (d_manualSnapshot d) (d_acks d) (d_outputTextDecoder d) x (d_expectedSequence d)
  (d_initialSnapshotId d) (d_tickets d).
Definition set_expected x d := mkDelivery (d_snapshot d) (d_pendingOutput d) (d_orderedEvents d)
  (d_manualSnapshot d) (d_acks d) (d_outputTextDecoder d) (d_recovery d) x
  (d_initialSnapshotId d) (d_tickets d).
Definition set_initialSnapshotId x d := mkDelivery (d_snapshot d) (d_pendingOutput d)
  (d_orderedEvents d) (d_manualSnapshot d) (d_acks d) (d_outputTextDecoder d) (d_recovery d)
  (d_expectedSequence d) x (d_tickets d).
Definition set_tickets x d := mkDelivery (d_snapshot d) (d_pendingOutput d) (d_orderedEvents d)
  (d_manualSnapshot d) (d_acks d) (d_outputTextDecoder d) (d_recovery d) (d_expectedSequence d)
  (d_initialSnapshotId d) x.

(** The delivery and the next correlation id of its connection. *)
Record delivery_state := mkDState {
  ds_nextCorrelationId : Z;
  ds_delivery : RemoteTerminalDelivery
}.

Definition D (A : Type) : Type := M delivery_state stream_effect stream_error A.

Definition upd (f : RemoteTerminalDelivery -> RemoteTerminalDelivery) : D unit :=
  modify (fun s => mkDState (ds_nextCorrelationId s) (f (ds_delivery s))).

(** [allocateCorrelationId] of the multiplexer. *)
Definition allocateCorrelationId : D Z :=
  (s <- get ;;
   if ds_nextCorrelationId s >? 0xffffffff then throw CorrelationIdsExhausted
   else modify (fun s => mkDState (ds_nextCorrelationId s + 1) (ds_delivery s)) ;;;
        ret (ds_nextCorrelationId s))%eff.

Definition encodeJson (value : TerminalMultiplexJsonObject) : D bytes :=
  match encodeTerminalMultiplexJson value with
  | Some payload => ret payload
  | None => throw UnsafeJson
  end.

Definition call (c : RemoteRuntimeMultiplexedTerminalCallback) : D unit := emit (o_callback c).

Inductive DeliveryFailure := end_record | restore_record | utf8 | snapshot_too_large
  | snapshot_unavailable.

Definition failureMessage (failure : DeliveryFailure) : message :=
  match failure with
  | end_record => translated (js "terminal.multiplex.invalidEnd")
                    (js "Invalid remote terminal end record.")
  | restore_record => translated (js "terminal.multiplex.invalidRestore")
                        (js "Invalid remote terminal restore record.")
  | utf8 => translated (js "terminal.multiplex.invalidUtf8")
              (js "Remote terminal output is not valid UTF-8.")
  | snapshot_too_large => translated (js "terminal.multiplex.snapshotTooLarge")
      (js "Remote terminal snapshot exceeded the 2 MiB replay limit; live output will continue.")
  | snapshot_unavailable => translated (js "terminal.multiplex.snapshotUnavailable")
                              (js "Remote terminal snapshot is unavailable.")
  end.

Definition reportTerminalDeliveryFailure (failure : DeliveryFailure) : D unit :=
  call (onError (failureMessage failure) None).

Section delivery.
Context `{StreamSchemas} (routeId : Z) (normalizeTerminalTitle : jsstring -> jsstring).

Definition send (op : TerminalMultiplexOpcode) (seq correlationId : Z) (payload : bytes) : D unit :=
  emit (o_send op routeId seq correlationId payload).

Definition sendRemoteTerminalDeliveryAck (kind correlationId seq bytes : Z) : D unit :=
  send Ack seq correlationId (encodeTerminalMultiplexAckRecord (delivery_ack_record kind seq bytes)).

Definition credit_record (bytes reason : Z) : TerminalMultiplexCreditRecord :=
  mkCredit 0 reason bytes (Z.max (16 * 1024) (bytes / 8)) (64 * 1024).

(** [options.setCredit], wired to [sendCredit]; the reason defaults. *)
Definition setCredit (bytes : Z) (reason : option Z) : D unit :=
  send Credit 0 0
    (encodeTerminalMultiplexCreditRecord
       (credit_record bytes (default (if bytes =? 0 then 2 else 0) reason))).

Definition executeRemoteTerminalRecoveryEffect (effect : TerminalMultiplexRecoveryEffect) : D unit :=
  (match effect with
   | clear_client_snapshot => upd (fun d => set_snapshot (assembler_clear (d_snapshot d)) d)
   | set_output_credit n => setCredit n None
   | request_client_snapshot =>
       s <- get ;;
       id <- allocateCorrelationId ;;
       payload <- encodeJson [(js "requestedScrollbackRows", JNum (number_of_Z 1000))] ;;
       send SnapshotRequest (parsedSequence (d_acks (ds_delivery s))) id payload
   | start_host_snapshot _ _ | send_superseded_snapshot _ _ | complete_host_snapshot _
   | complete_host_manual_snapshot | host_snapshot_ack_result _ | reject_manual_snapshot _ _
   | send_model_restore _ _ => throw HostRecoveryEffect
   end)%eff.

Definition dispatch (event : TerminalMultiplexRecoveryEvent) : D unit :=
  (s <- get ;;
   let '(state, effects) := reduceRecovery (d_recovery (ds_delivery s)) event in
   upd (set_recovery state) ;;;
   for_each executeRemoteTerminalRecoveryEffect effects)%eff.

Definition recover : D unit := dispatch client_recovery_needed.

Definition isSnapshotting (d : RemoteTerminalDelivery) : bool :=
  clientSnapshotting (memory (d_recovery d)).

(** Carries out the effects of the ordered events ([onOverflow] recovers). *)
Definition run_event_effect (effect : event_effect) : D unit :=
  match effect with
  | ev_call c => call c
  | ev_overflow => recover
  end.

Definition run_events (f : RemoteTerminalOrderedEvents -> RemoteTerminalOrderedEvents * list event_effect)
    : D unit :=
  (s <- get ;;
   let '(o, effects) := f (d_orderedEvents (ds_delivery s)) in
   upd (set_orderedEvents o) ;;; for_each run_event_effect effects)%eff.

Definition run_ack_effect (effect : ack_effect) : D unit :=
  (match effect with
   | ack_send seq bytes => sendRemoteTerminalDeliveryAck 0 0 seq bytes
   | ack_advance seq => run_events (publishThrough seq)
   | ack_end => call onEnd ;;; emit o_ended
   end)%eff.

Definition run_acks (f : RemoteTerminalDeliveryAcks -> RemoteTerminalDeliveryAcks * list ack_effect)
    : D unit :=
  (s <- get ;;
   let '(a, effects) := f (d_acks (ds_delivery s)) in
   upd (set_acks a) ;;; for_each run_ack_effect effects)%eff.

(** Carries out the effects of the manual snapshot. *)
Definition run_manual_effect (effect : manual_effect) : D unit :=
  (match effect with
   | manual_resolve id result => emit (o_manual id result)
   | manual_send id rows =>
       s <- get ;;
       payload <- encodeJson [(js "requestedScrollbackRows", JNum (number_of_Z rows))] ;;
       send SnapshotRequest (parsedSequence (d_acks (ds_delivery s))) id payload
   end)%eff.

Definition run_manual (r : RemoteTerminalManualSnapshot * list manual_effect) : D unit :=
  (upd (set_manualSnapshot (fst r)) ;;; for_each run_manual_effect (snd r))%eff.

Definition manualComplete (result : option RemoteTerminalSnapshot) : D unit :=
  (s <- get ;; run_manual (manual_complete result (d_manualSnapshot (ds_delivery s))))%eff.

(** Hands a new [onParsed] closure to the renderer. *)
Definition new_ticket (t : ticket) : D nat :=
  (s <- get ;;
   upd (fun d => set_tickets (d_tickets d ++ [t]) d) ;;;
   ret (List.length (d_tickets (ds_delivery s))))%eff.

Definition deliverOutput (output : PendingRemoteTerminalOutput) : D unit :=
  (s <- get ;;
   let d := ds_delivery s in
   if po_endSeq output <=? d_expectedSequence d then ret tt else
   let '(payload, startSeq) :=
     if po_startSeq output <? d_expectedSequence d
     then (drop (Z.to_nat (d_expectedSequence d - po_startSeq output)) (po_payload output),
           d_expectedSequence d)
     else (po_payload output, po_startSeq output) in
   if negb (startSeq =? d_expectedSequence d) then recover else
   let '(decoded, decoder) := TerminalOutputTextDecoder_decode (d_outputTextDecoder d) payload in
   upd (set_decoder decoder) ;;;
   match decoded with
   | None => reportTerminalDeliveryFailure utf8 ;;; recover
   | Some data =>
       upd (set_expected (po_endSeq output)) ;;;
       n <- new_ticket (ticket_output startSeq (po_endSeq output) (byteLength payload)) ;;
       call (onData data (safeSequenceNumber (po_endSeq output)) (Z.of_nat (List.length data))
               (byteLength payload) n)
   end)%eff.

Definition handleOutput (frame : TerminalMultiplexFrame) : D unit :=
  (let startSeq := Frame.seq frame - byteLength (payload frame) in
   if startSeq <? 0 then recover else
   let output := mkOutput (payload frame) startSeq (Frame.seq frame) in
   s <- get ;;
   if isSnapshotting (ds_delivery s)
   then upd (fun d => set_pendingOutput (d_pendingOutput d ++ [output]) d)
   else deliverOutput output)%eff.

(** [for (const output of this.pendingOutput.splice(0))]. *)
Definition take_pending : D (list PendingRemoteTerminalOutput) :=
  (s <- get ;; upd (set_pendingOutput []) ;;; ret (d_pendingOutput (ds_delivery s)))%eff.

Definition rebase (seq : Z) : D unit :=
  (run_acks (acks_rebase seq) ;;;
   upd (set_decoder TerminalOutputTextDecoder_reset) ;;;
   upd (set_expected seq))%eff.

Definition resumeWithoutSnapshot (coverageEndSeq : option Z) : D unit :=
  (match coverageEndSeq with Some seq => rebase seq | None => ret tt end ;;;
   dispatch client_resumed ;;;
   outputs <- take_pending ;;
   for_each deliverOutput outputs)%eff.

(** The loop of [ackSnapshot]; false when it returned early. *)
Fixpoint deliver_window (snapshot : RemoteTerminalSnapshot)
    (outputs : list PendingRemoteTerminalOutput) : D bool :=
  (match outputs with
   | [] => ret true
   | output :: rest =>
       if (po_endSeq output >? snap_pendingDeliveryStartSeq snapshot)
          && (po_endSeq output <=? snap_coverageEndSeq snapshot)
       then deliver_window snapshot rest
       else if po_endSeq output <=? snap_pendingDeliveryStartSeq snapshot
       then recover ;;; ret false
       else deliverOutput output ;;; deliver_window snapshot rest
   end)%eff.

Definition ackSnapshot (snapshot : RemoteTerminalSnapshot) : D unit :=
  (rebase (snap_coverageEndSeq snapshot) ;;;
   sendRemoteTerminalDeliveryAck 2 (snap_id snapshot) (snap_coverageEndSeq snapshot) 0 ;;;
   dispatch client_resumed ;;;
   outputs <- take_pending ;;
   completed <- deliver_window snapshot outputs ;;
   s <- get ;;
   if completed && bool_decide (Some (snap_id snapshot) = d_initialSnapshotId (ds_delivery s))
   then call onSubscribed else ret tt)%eff.

Definition ackManualSnapshot (snapshot : RemoteTerminalSnapshot) : D unit :=
  (sendRemoteTerminalDeliveryAck 2 (snap_id snapshot) (snap_coverageEndSeq snapshot) 0 ;;;
   resumeWithoutSnapshot None)%eff.

Definition publishRemoteTerminalSnapshot (snapshot : RemoteTerminalSnapshot) (n : nat) : D unit :=
  (match snap_lastTitle snapshot with
   | Some title =>
       call (onSideEffectBatch (mkBatch [fact_title (normalizeTerminalTitle title) title false] true)
               (snap_coverageEndSeq snapshot) (snap_epoch snapshot))
   | None => ret tt
   end ;;;
   call (onSnapshot (snap_data snapshot) (snap_cols snapshot) (snap_rows snapshot)
           (snap_wireByteLength snapshot) (snap_pendingEscapeTailAnsi snapshot) n))%eff.

(** The part of [handleSnapshotEnd] for an end with a failure status. *)
Definition handleSnapshotFailure (e : TerminalMultiplexSnapshotEndRecord) : D unit :=
  (upd (fun d => set_snapshot (assembler_clear (d_snapshot d)) d) ;;;
   s <- get ;;
   (if manual_matches (se_snapshotId e) (d_manualSnapshot (ds_delivery s)) then
      manualComplete None ;;;
      if negb (se_status e =? 3) then resumeWithoutSnapshot None else ret tt
    else if negb (se_status e =? 3) then
      resumeWithoutSnapshot (Some (se_coverageEndSeq e)) ;;;
      s <- get ;;
      if bool_decide (Some (se_snapshotId e) = d_initialSnapshotId (ds_delivery s))
      then call onSubscribed else ret tt
    else ret tt) ;;;
   if se_status e =? 2 then reportTerminalDeliveryFailure snapshot_too_large
   else if se_status e =? 1 then reportTerminalDeliveryFailure snapshot_unavailable
   else ret tt)%eff.

Definition handleSnapshotEnd (frame : TerminalMultiplexFrame) : D unit :=
  (match decodeTerminalMultiplexSnapshotEndRecord (payload frame) with
   | None => recover
   | Some e =>
       if negb (se_snapshotId e =? correlationId frame)
          || negb (se_coverageEndSeq e =? Frame.seq frame) then recover
       else if negb (se_status e =? 0) then handleSnapshotFailure e
       else
         s <- get ;;
         let '(result, assembler) := assembler_end frame (d_snapshot (ds_delivery s)) in
         upd (set_snapshot assembler) ;;;
         match result with
         | None => recover
         | Some result =>
             if manual_matches (snap_id result) (d_manualSnapshot (ds_delivery s)) then
               manualComplete (Some result) ;;; ackManualSnapshot result
             else
               n <- new_ticket (ticket_snapshot result) ;;
               publishRemoteTerminalSnapshot result n
         end
   end)%eff.

(** [applyRemoteTerminalOutputCredit(frame, setCredit)]: the credit to publish,
    when the frame is one. *)
Definition outputCredit (frame : TerminalMultiplexFrame) : option (Z * Z) :=
  match decodeTerminalMultiplexCreditRecord (payload frame) with
  | None => None
  | Some credit =>
      if negb (credit_direction credit =? 0) || negb (Frame.seq frame =? 0)
         || negb (correlationId frame =? 0) then None
      else Some (credit_maxInFlightBytes credit, credit_reason credit)
  end.

(** The rest of [handle], after the ordered events, the manual acknowledgement and
    the output credit. *)
Definition handleDelivery (frame : TerminalMultiplexFrame) : D bool :=
  (match opcode frame with
   | Output => handleOutput frame ;;; ret true
   | SnapshotStart =>
       s <- get ;;
       let '(accepted, assembler) := assembler_start frame (d_snapshot (ds_delivery s)) in
       upd (set_snapshot assembler) ;;;
       dispatch (client_snapshot_started accepted) ;;; ret true
   | SnapshotChunk =>
       s <- get ;;
       let '(accepted, assembler) := assembler_chunk frame (d_snapshot (ds_delivery s)) in
       upd (set_snapshot assembler) ;;;
       (if accepted then ret tt else recover) ;;; ret true
   | SnapshotEnd => handleSnapshotEnd frame ;;; ret true
   | End_ =>
       match decodeTerminalMultiplexEndRecord frame with
       | None => reportTerminalDeliveryFailure end_record ;;; ret true
       | Some _ => run_acks (deferExit (Frame.seq frame)) ;;; ret true
       end
   | ModelRestore =>
       match decodeTerminalMultiplexModelRestoreRecord frame with
       | None => reportTerminalDeliveryFailure restore_record ;;; ret true
       | Some value =>
           (if restore_snapshotFollows value then ret tt
            else run_events (publishThrough (Frame.seq frame))) ;;;
           dispatch (client_model_restore (restore_snapshotFollows value)) ;;; ret true
       end
   | _ => ret false
   end)%eff.

(** [handle] once the ordered events have refused the frame: the manual snapshot's
    acknowledgement, the output credit, the rest. *)
Definition handleUnordered (frame : TerminalMultiplexFrame) : D bool :=
  (s <- get ;;
   let '(acknowledged, answered) :=
     match opcode frame with
     | Ack => manual_handleAck frame (d_manualSnapshot (ds_delivery s))
     | _ => (false, (d_manualSnapshot (ds_delivery s), []))
     end in
   if acknowledged then run_manual answered ;;; ret true else
   match (match opcode frame with Credit => outputCredit frame | _ => None end) with
   | Some (bytes, reason) => setCredit bytes (Some reason) ;;; ret true
   | None => handleDelivery frame
   end)%eff.

Definition handle (frame : TerminalMultiplexFrame) : D bool :=
  (s <- get ;;
   match events_handle frame (d_orderedEvents (ds_delivery s)) with
   | Some r => run_events (fun _ => r) ;;; ret true
   | None => handleUnordered frame
   end)%eff.

Definition beginInitialSnapshot (snapshotId : option Z) : D unit :=
  (upd (set_initialSnapshotId snapshotId) ;;; dispatch client_begin_initial)%eff.

Definition gateOutputCredit : D unit := dispatch client_gate_credit.

Definition setDeliveryGated (gated_ : bool) : D unit :=
  dispatch (if gated_ then delivery_gated else delivery_active).

Definition beginReveal : D unit := dispatch client_begin_reveal.

(** [requestSnapshot]: [None] when the promise is already resolved with [null],
    else the id of the pending request. *)
Definition requestSnapshot (scrollbackRows : Z) : D (option Z) :=
  (s <- get ;;
   if isSnapshotting (ds_delivery s) || bool_decide (d_manualSnapshot (ds_delivery s) <> None)
   then ret None
   else
     id <- allocateCorrelationId ;;
     run_manual (manual_request id scrollbackRows) ;;;
     ret (Some id))%eff.

Definition prepareForNewEpoch : D unit :=
  (dispatch reset ;;;
   upd (fun d => set_snapshot (assembler_clear (d_snapshot d)) d) ;;;
   upd (set_pendingOutput []) ;;;
   upd (set_decoder TerminalOutputTextDecoder_reset) ;;;
   upd (fun d => set_acks (acks_resetPending (d_acks d)) d) ;;;
   upd (fun d => set_orderedEvents (events_clear (d_orderedEvents d)) d) ;;;
   manualComplete None)%eff.

Definition dispose : D unit :=
  (upd (fun d => set_acks (acks_dispose (d_acks d)) d) ;;; manualComplete None)%eff.

(** The renderer calls the closure of ticket [n]. *)
Definition onParsed (n : nat) : D unit :=
  (s <- get ;;
   match d_tickets (ds_delivery s) !! n with
   | Some (ticket_output startSeq endSeq bytes) =>
       upd (fun d => set_tickets (<[n := ticket_used]> (d_tickets d)) d) ;;;
       run_acks (noteParsed startSeq endSeq bytes)
   | Some (ticket_snapshot snapshot) =>
       upd (fun d => set_tickets (<[n := ticket_used]> (d_tickets d)) d) ;;;
       ackSnapshot snapshot
   | Some ticket_used | None => ret tt
   end)%eff.

(** The timers: the acknowledgement flush and the manual snapshot's timeout. *)
Definition onAckTimer : D unit := run_acks acks_timer.

Definition onManualTimeout (id : Z) : D unit :=
  (s <- get ;; run_manual (manual_timeout id (d_manualSnapshot (ds_delivery s))))%eff.

(** One thing that happens to a delivery. *)
Inductive delivery_event :=
  | de_frame (frame : TerminalMultiplexFrame)
  | de_parsed (n : nat)
  | de_beginInitial (snapshotId : option Z)
  | de_gateCredit
  | de_setGated (g : bool)
  | de_beginReveal
  | de_requestSnapshot (rows : Z)
  | de_newEpoch
  | de_dispose
  | de_ackTimer
  | de_manualTimeout (id : Z).

Definition delivery_step (e : delivery_event) : D unit :=
  (match e with
   | de_frame frame => handle frame ;;; ret tt
   | de_parsed n => onParsed n
   | de_beginInitial id => beginInitialSnapshot id
   | de_gateCredit => gateOutputCredit
   | de_setGated g => setDeliveryGated g
   | de_beginReveal => beginReveal
   | de_requestSnapshot rows => requestSnapshot rows ;;; ret tt
   | de_newEpoch => prepareForNewEpoch
   | de_dispose => dispose
   | de_ackTimer => onAckTimer
   | de_manualTimeout id => onManualTimeout id
   end)%eff.

(** A run: an error thrown by one step does not stop the next event. *)
Fixpoint delivery_run (events : list delivery_event) (s : delivery_state)
    : delivery_state * list stream_effect :=
  match events with
  | [] => (s, [])
  | e :: rest =>
      let '(_, s1, out1) := delivery_step e s in
      let '(s2, out2) := delivery_run rest s1 in
      (s2, out1 ++ out2)
  end.
End delivery.
