(* ===== verification/DeliveryText.v ===== *)
(** What a delivery hands to the renderer is the host's output: proofs about
    Delivery.v.

    The output of the terminal is a byte stream [host : Z -> Z], byte number [i] at
    [host i]; an honest output frame with sequence [e] carries the bytes before [e].
    The text delivered through [onData] is cut into segments; each segment is the
    exact UTF-8 decoding of a contiguous range of the stream by one fresh decoder,
    whatever the frame boundaries, repetitions, overlaps, gaps and recoveries were. *)

From stdpp Require Import base list list_numbers.
From Stdlib Require Import ZArith Lia ZifyBool.
From S2P Require Import Prelude JsText Json Frame Records Recovery SideEffects Acks.
From S2P Require Import Snapshot Effects StreamRecords Delivery.

Open Scope Z_scope.

(** ** Vocabulary *)

Definition range (host : Z -> Z) (b e : Z) : bytes := host <$> seqZ b (e - b).

Definition honest_frame (host : Z -> Z) (f : TerminalMultiplexFrame) : Prop :=
  opcode f = Output -> payload f = range host (Frame.seq f - byteLength (payload f)) (Frame.seq f).

Definition honest_output (host : Z -> Z) (o : PendingRemoteTerminalOutput) : Prop :=
  po_startSeq o <= po_endSeq o /\ po_payload o = range host (po_startSeq o) (po_endSeq o).

Definition honest_event (host : Z -> Z) (e : delivery_event) : Prop :=
  match e with de_frame f => honest_frame host f | _ => True end.

(** The text handed to [onData] by a list of effects. *)
Fixpoint delivered (out : list stream_effect) : jsstring :=
  match out with
  | [] => []
  | o_callback (onData data _ _ _ _) :: rest => data ++ delivered rest
  | _ :: rest => delivered rest
  end.

Definition is_data (c : RemoteRuntimeMultiplexedTerminalCallback) : bool :=
  match c with onData _ _ _ _ _ => true | _ => false end.

Definition utf8_report : stream_effect := o_callback (onError (failureMessage utf8) None).

Definition no_data_events (o : RemoteTerminalOrderedEvents) : Prop :=
  Forall (fun e => is_data (ev_publish e) = false) (pending o).

Record segment := mkSegment { seg_from : Z; seg_to : Z; seg_text : jsstring }.

Definition segment_ok (host : Z -> Z) (s : segment) : Prop :=
  seg_from s <= seg_to s
  /\ exists decoder, decode_chunk new_decoder (range host (seg_from s) (seg_to s))
       = Some (seg_text s, decoder).

Definition texts (segs : list segment) : jsstring := concat (seg_text <$> segs).

(** The last segment ends where the delivery stands, with its decoder. *)
Definition faithful (host : Z -> Z) (old : list segment) (b : Z) (t : jsstring)
    (d : RemoteTerminalDelivery) : Prop :=
  Forall (segment_ok host) old
  /\ b <= d_expectedSequence d
  /\ decode_chunk new_decoder (range host b (d_expectedSequence d)) = Some (t, d_outputTextDecoder d)
  /\ Forall (honest_output host) (d_pendingOutput d)
  /\ no_data_events (d_orderedEvents d).

(** ** The stream *)

Lemma range_app host b m e : b <= m <= e -> range host b m ++ range host m e = range host b e.
Proof.
  intros H. unfold range. rewrite <- fmap_app. f_equal.
  replace (e - b) with ((m - b) + (e - m)) by lia. rewrite seqZ_app by lia.
  by replace (b + (m - b)) with m by lia.
Qed.

Lemma range_empty host b : range host b b = [].
Proof. unfold range. by replace (b - b) with 0 by lia. Qed.

Lemma range_length host b e : b <= e -> byteLength (range host b e) = e - b.
Proof. intros H. unfold byteLength, range. rewrite length_fmap, length_seqZ. lia. Qed.

Lemma range_drop host b m e :
  b <= m <= e -> drop (Z.to_nat (m - b)) (range host b e) = range host m e.
Proof.
  intros H. rewrite <- (range_app host b m e H). apply drop_app_length'.
  unfold range. rewrite length_fmap, length_seqZ. lia.
Qed.

Lemma delivered_app a b : delivered (a ++ b) = delivered a ++ delivered b.
Proof.
  induction a as [|x a IH]; [done|]. cbn [app delivered].
  destruct x as [| [] | | | |]; rewrite IH; by rewrite ?app_assoc.
Qed.

(** ** Steps that leave the text alone *)

Definition same_text (d d' : RemoteTerminalDelivery) : Prop :=
  d_outputTextDecoder d' = d_outputTextDecoder d /\ d_expectedSequence d' = d_expectedSequence d
  /\ d_pendingOutput d' = d_pendingOutput d.

Program Definition quiet : step_relation delivery_state stream_effect := mkStep
  (fun s out s' => no_data_events (d_orderedEvents (ds_delivery s)) ->
     no_data_events (d_orderedEvents (ds_delivery s'))
     /\ same_text (ds_delivery s) (ds_delivery s') /\ delivered out = []) _ _.
Next Obligation. intros s H. by repeat split. Qed.
Next Obligation.
  intros s1 o1 s2 o2 s3 H1 H2 H. destruct (H1 H) as (H3 & (E1 & E2 & E3) & E4).
  destruct (H2 H3) as (H5 & (F1 & F2 & F3) & F4). split; [done|].
  split; [unfold same_text; intuition congruence|]. by rewrite delivered_app, E4, F4.
Qed.

Lemma quiet_upd f :
  (forall d, same_text d (f d) /\ d_orderedEvents (f d) = d_orderedEvents d) ->
  respects quiet (upd f).
Proof.
  intros H. apply respects_modify. intros [c d]. cbn. destruct (H d) as [H1 ->]. done.
Qed.

Ltac quiet_upd := apply quiet_upd; intros; split; [split_and!; reflexivity | reflexivity].

Lemma quiet_emit o : delivered [o] = [] -> respects quiet (emit o : D unit).
Proof. intros H. apply respects_emit. intros s Hs. by repeat split. Qed.

Lemma quiet_call c : is_data c = false -> respects quiet (call c).
Proof. intros H. apply quiet_emit. by destruct c. Qed.

Lemma quiet_allocate : respects quiet allocateCorrelationId.
Proof.
  unfold allocateCorrelationId. apply respects_bind; [apply respects_get|]. intros s.
  case_if; [apply respects_throw|]. apply respects_bind; [|intros; apply respects_ret].
  apply respects_modify. intros [c d] Hd. by repeat split.
Qed.

Lemma quiet_encodeJson v : respects quiet (encodeJson v).
Proof.
  unfold encodeJson. destruct (encodeTerminalMultiplexJson v); [apply respects_ret | apply respects_throw].
Qed.

Section quiet.
Context `{StreamSchemas} (routeId : Z) (normalize : jsstring -> jsstring).

Lemma quiet_send op a b p : respects quiet (send routeId op a b p).
Proof. by apply quiet_emit. Qed.

Lemma quiet_execute e : respects quiet (executeRemoteTerminalRecoveryEffect routeId e).
Proof.
  destruct e; cbn [executeRemoteTerminalRecoveryEffect]; try apply respects_throw.
  - quiet_upd.
  - apply quiet_send.
  - apply respects_bind; [apply respects_get|]. intros s.
    apply respects_bind; [apply quiet_allocate|]. intros id.
    apply respects_bind; [apply quiet_encodeJson|]. intros p. apply quiet_send.
Qed.

Lemma quiet_dispatch e : respects quiet (dispatch routeId e).
Proof.
  unfold dispatch. apply respects_bind; [apply respects_get|]. intros s.
  destruct (reduceRecovery _ e) as [st effects]. apply respects_bind; [quiet_upd|].
  intros _. apply respects_for_each. intros; apply quiet_execute.
Qed.

Lemma quiet_recover : respects quiet (recover routeId).
Proof. apply quiet_dispatch. Qed.

(** Operations of the ordered events that never publish output. *)
Definition events_quiet
    (f : RemoteTerminalOrderedEvents -> RemoteTerminalOrderedEvents * list event_effect) : Prop :=
  forall o, no_data_events o -> no_data_events (fst (f o))
    /\ Forall (fun e => match e with ev_call c => is_data c = false | ev_overflow => True end)
         (snd (f o)).

Lemma quiet_run_event e :
  match e with ev_call c => is_data c = false | ev_overflow => True end ->
  respects quiet (run_event_effect routeId e).
Proof. destruct e; cbn; intros; [by apply quiet_call | apply quiet_recover]. Qed.

Lemma quiet_run_events f : events_quiet f -> respects quiet (run_events routeId f).
Proof.
  intros Hf s. unfold run_events, bind at 1, get.
  destruct (f (d_orderedEvents (ds_delivery s))) as [o effects] eqn:E.
  set (m := (upd _ ;;; _)%eff). destruct (m s) as [[r s'] out] eqn:Em. cbn.
  intros Hs. specialize (Hf _ Hs). rewrite E in Hf. destruct Hf as [Ho He]. cbn in Ho, He.
  subst m. unfold bind, upd, modify in Em. cbn in Em.
  assert (respects quiet (for_each (run_event_effect routeId) effects)) as Hr.
  { apply respects_for_each. intros e Hin. apply quiet_run_event.
    by eapply (proj1 (Forall_forall _ _)) in He. }
  specialize (Hr (mkDState (ds_nextCorrelationId s) (set_orderedEvents o (ds_delivery s)))).
  destruct (for_each _ effects _) as [[r2 s2] out2]. injection Em as <- <- <-. cbn in Hr |- *.
  by apply Hr.
Qed.

Lemma events_quiet_publish q : events_quiet (publishThrough q).
Proof.
  intros o Ho. unfold publishThrough.
  destruct (release_spec (if q >? releasedThrough o then q else releasedThrough o) (pending o)
    (events_pendingBytes o)) as [front Hf].
  destruct (release _ _ _) as [[published kept] b]. destruct Hf as (E & -> & _).
  unfold no_data_events in *. rewrite E in Ho. apply Forall_app in Ho as [H1 H2]. split; [done|].
  cbn. clear -H1. induction H1; constructor; done.
Qed.

Lemma events_quiet_enqueue e : is_data (ev_publish e) = false -> events_quiet (enqueue e).
Proof.
  intros He o Ho. unfold enqueue. case_if; [by repeat constructor|].
  apply events_quiet_publish. cbn. unfold no_data_events. cbn.
  apply Forall_app. split; [done | by constructor].
Qed.

Lemma events_handle_quiet f o r :
  events_handle f o = Some r -> no_data_events o ->
  no_data_events (fst r)
  /\ Forall (fun e => match e with ev_call c => is_data c = false | ev_overflow => True end) (snd r).
Proof.
  unfold events_handle. destruct (opcode f); try done; intros [= <-] Ho.
  - destruct (decodeTerminalMultiplexSideEffectBatch _); [by apply events_quiet_enqueue|].
    by repeat constructor.
  - case_if; [by apply events_quiet_enqueue | by repeat constructor].
  - destruct (decodeTerminalMultiplexJson _); [by apply events_quiet_enqueue|].
    by repeat constructor.
Qed.

Lemma quiet_run_ack e : respects quiet (run_ack_effect routeId e).
Proof.
  destruct e; cbn [run_ack_effect].
  - apply quiet_send.
  - apply quiet_run_events, events_quiet_publish.
  - apply respects_bind; [by apply quiet_call|]. intros _. by apply quiet_emit.
Qed.

Lemma quiet_run_acks f : respects quiet (run_acks routeId f).
Proof.
  unfold run_acks. apply respects_bind; [apply respects_get|]. intros s.
  destruct (f _) as [a effects]. apply respects_bind; [quiet_upd|]. intros _.
  apply respects_for_each. intros; apply quiet_run_ack.
Qed.

Lemma quiet_run_manual r : respects quiet (run_manual routeId r).
Proof.
  unfold run_manual. apply respects_bind; [quiet_upd|]. intros _.
  apply respects_for_each. intros e _. destruct e; cbn [run_manual_effect].
  - by apply quiet_emit.
  - apply respects_bind; [apply respects_get|]. intros s.
    apply respects_bind; [apply quiet_encodeJson|]. intros p. apply quiet_send.
Qed.

Lemma quiet_manualComplete r : respects quiet (manualComplete routeId r).
Proof.
  unfold manualComplete. apply respects_bind; [apply respects_get|]. intros s. apply quiet_run_manual.
Qed.

Lemma quiet_new_ticket t : respects quiet (new_ticket t).
Proof.
  unfold new_ticket. apply respects_bind; [apply respects_get|]. intros s.
  apply respects_bind; [quiet_upd|]. intros; apply respects_ret.
Qed.

Lemma quiet_report f : respects quiet (reportTerminalDeliveryFailure f).
Proof. by apply quiet_call. Qed.

Lemma quiet_publish snap n : respects quiet (publishRemoteTerminalSnapshot normalize snap n).
Proof.
  unfold publishRemoteTerminalSnapshot. apply respects_bind; [|intros; by apply quiet_call].
  destruct (snap_lastTitle snap); [by apply quiet_call | apply respects_ret].
Qed.
End quiet.

(** ** Steps that extend the text *)

(** [grow]: new segments may start; [keep]: the current one goes on. *)
Program Definition grow (host : Z -> Z) : step_relation delivery_state stream_effect := mkStep
  (fun s out s' => forall old b t, faithful host old b t (ds_delivery s) ->
     exists old' b' t', faithful host old' b' t' (ds_delivery s')
       /\ texts old' ++ t' = texts old ++ t ++ delivered out) _ _.
Next Obligation. intros host s old b t H. exists old, b, t. by rewrite app_nil_r. Qed.
Next Obligation.
  intros host s1 o1 s2 o2 s3 H1 H2 old b t H. destruct (H1 _ _ _ H) as (old' & b' & t' & H3 & E1).
  destruct (H2 _ _ _ H3) as (old2 & b2 & t2 & H4 & E2). exists old2, b2, t2. split; [done|].
  by rewrite E2, delivered_app, !app_assoc, <- (app_assoc (texts old)), <- E1.
Qed.

Program Definition keep (host : Z -> Z) : step_relation delivery_state stream_effect := mkStep
  (fun s out s' => utf8_report ∉ out ->
     forall old b t, faithful host old b t (ds_delivery s) ->
       faithful host old b (t ++ delivered out) (ds_delivery s')) _ _.
Next Obligation. intros host s _ old b t H. by rewrite app_nil_r. Qed.
Next Obligation.
  intros host s1 o1 s2 o2 s3 H1 H2 Hu old b t H. rewrite elem_of_app in Hu.
  rewrite delivered_app, app_assoc. apply H2; [tauto|]. apply H1; [tauto | done].
Qed.

Section text.
Context (host : Z -> Z) `{StreamSchemas} (routeId : Z) (normalize : jsstring -> jsstring).

Lemma faithful_quiet s out s' old b t :
  related quiet s out s' -> faithful host old b t (ds_delivery s) ->
  faithful host old b t (ds_delivery s') /\ delivered out = [].
Proof.
  intros Hq (Ho & Hb & Hd & Hp & He). destruct (Hq He) as (He' & (E1 & E2 & E3) & E4).
  unfold faithful. rewrite E1, E2, E3. by repeat split.
Qed.

Lemma grow_quiet {A} (m : D A) : respects quiet m -> respects (grow host) m.
Proof.
  intros Hm s. specialize (Hm s). destruct (m s) as [[r s'] out]. intros old b t Hf.
  destruct (faithful_quiet _ _ _ _ _ _ Hm Hf) as [Hf' E]. exists old, b, t.
  by rewrite E, app_nil_r.
Qed.

Lemma keep_quiet {A} (m : D A) : respects quiet m -> respects (keep host) m.
Proof.
  intros Hm s. specialize (Hm s). destruct (m s) as [[r s'] out]. intros _ old b t Hf.
  destruct (faithful_quiet _ _ _ _ _ _ Hm Hf) as [Hf' E]. by rewrite E, app_nil_r.
Qed.

(** The three outcomes of [deliverOutput]. *)
Definition malformed (s : delivery_state) (out : list stream_effect) (s' : delivery_state) : Prop :=
  exists out', out = utf8_report :: out'
    /\ related quiet (mkDState (ds_nextCorrelationId s) (set_decoder new_decoder (ds_delivery s))) out' s'.

Definition extended (o : PendingRemoteTerminalOutput) (s : delivery_state)
    (out : list stream_effect) (s' : delivery_state) : Prop :=
  exists payload data decoder n seq len,
    out = [o_callback (onData data seq len (byteLength payload) n)]
    /\ decode_chunk (d_outputTextDecoder (ds_delivery s)) payload = Some (data, decoder)
    /\ d_expectedSequence (ds_delivery s) < po_endSeq o
    /\ payload = range host (d_expectedSequence (ds_delivery s)) (po_endSeq o)
    /\ d_outputTextDecoder (ds_delivery s') = decoder
    /\ d_expectedSequence (ds_delivery s') = po_endSeq o
    /\ d_pendingOutput (ds_delivery s') = d_pendingOutput (ds_delivery s)
    /\ d_orderedEvents (ds_delivery s') = d_orderedEvents (ds_delivery s).

Lemma deliver_cases o s :
  honest_output host o ->
  let '(_, s', out) := deliverOutput routeId o s in
  related quiet s out s' \/ malformed s out s' \/ extended o s out s'.
Proof.
  intros [Hle Hpay]. unfold deliverOutput, bind at 1, get. cbn [app].
  set (d := ds_delivery s).
  case_if; [left; apply related_refl|]. bool_prop.
  set (cut := if po_startSeq o <? d_expectedSequence d then _ else _).
  assert (snd cut <= d_expectedSequence d ->
    cut = (range host (d_expectedSequence d) (po_endSeq o), d_expectedSequence d)) as Hcut.
  { subst cut. case_if; bool_prop; cbn; intros Hs.
    - by rewrite Hpay, range_drop by lia.
    - rewrite Hpay. by replace (po_startSeq o) with (d_expectedSequence d) by lia. }
  destruct cut as [payload startSeq]. case_if.
  { pose proof (quiet_recover routeId s) as Hq. destruct (recover routeId s) as [[r s'] out]. by left. }
  bool_prop. cbn in Hcut. specialize (Hcut ltac:(lia)). injection Hcut as -> ->.
  unfold TerminalOutputTextDecoder_decode.
  destruct (decode_chunk (d_outputTextDecoder d) _) as [[data decoder]|] eqn:Ed.
  - unfold bind, upd, modify, new_ticket, get, call, emit, ret. cbn. right. right.
    eexists _, data, decoder, _, _, _. split; [reflexivity|]. split; [exact Ed|].
    by repeat split.
  - unfold bind, upd, modify, reportTerminalDeliveryFailure, call, emit. cbn -[recover].
    set (s1 := mkDState _ _). pose proof (quiet_recover routeId s1) as Hq.
    destruct (recover routeId s1) as [[r s'] out]. right. left. by exists out.
Qed.

Lemma faithful_reset s old b t :
  faithful host old b t (ds_delivery s) ->
  faithful host (old ++ [mkSegment b (d_expectedSequence (ds_delivery s)) t])
    (d_expectedSequence (ds_delivery s)) [] (set_decoder new_decoder (ds_delivery s)).
Proof.
  intros (Ho & Hb & Hd & Hp & He). split; [|split; [cbn; lia|]].
  - apply Forall_app. split; [done|]. constructor; [|done]. split; [done|]. by eexists.
  - cbn. rewrite range_empty. by repeat split.
Qed.

Lemma texts_snoc old s : texts (old ++ [s]) = texts old ++ seg_text s.
Proof. unfold texts. rewrite fmap_app, concat_app. cbn. by rewrite app_nil_r. Qed.

Lemma faithful_extended o s out s' old b t :
  extended o s out s' -> faithful host old b t (ds_delivery s) ->
  faithful host old b (t ++ delivered out) (ds_delivery s').
Proof.
  intros (payload & data & decoder & n & q & len & -> & Ed & Hlt & -> & E1 & E2 & E3 & E4)
    (Ho & Hb & Hd & Hp & He).
  split; [done|]. rewrite E1, E2, E3, E4. split; [lia|]. split; [|done].
  rewrite <- (range_app host b (d_expectedSequence (ds_delivery s))) by lia.
  rewrite decode_chunk_app, Hd, Ed. cbn. by rewrite app_nil_r.
Qed.

Lemma grow_deliver o : honest_output host o -> respects (grow host) (deliverOutput routeId o).
Proof.
  intros Ho s. pose proof (deliver_cases o s Ho) as Hc.
  destruct (deliverOutput routeId o s) as [[r s'] out].
  intros old b t Hf. destruct Hc as [Hq|[(out' & -> & Hq)|He]].
  - destruct (faithful_quiet _ _ _ _ _ _ Hq Hf) as [Hf' E]. exists old, b, t.
    by rewrite E, app_nil_r.
  - apply faithful_reset in Hf. destruct (faithful_quiet _ _ _ _ _ _ Hq Hf) as [Hf' E].
    eexists _, _, _. split; [exact Hf'|]. cbn [delivered utf8_report]. rewrite E, texts_snoc.
    cbn. by rewrite !app_nil_r.
  - exists old, b, (t ++ delivered out). split; [by eapply faithful_extended|]. by rewrite app_assoc.
Qed.

Lemma keep_deliver o : honest_output host o -> respects (keep host) (deliverOutput routeId o).
Proof.
  intros Ho s. pose proof (deliver_cases o s Ho) as Hc.
  destruct (deliverOutput routeId o s) as [[r s'] out].
  intros Hu old b t Hf. destruct Hc as [Hq|[(out' & -> & Hq)|He]].
  - destruct (faithful_quiet _ _ _ _ _ _ Hq Hf) as [Hf' E]. by rewrite E, app_nil_r.
  - exfalso. apply Hu. left.
  - by eapply faithful_extended.
Qed.
End text.

(** ** Every operation *)

Section operations.
Context (host : Z -> Z) `{StreamSchemas} (routeId : Z) (normalize : jsstring -> jsstring).
Context (R : step_relation delivery_state stream_effect).
Context (R_quiet : forall A (m : D A), respects quiet m -> respects R m).
Context (R_deliver : forall o, honest_output host o -> respects R (deliverOutput routeId o)).
Context (R_honest : forall s out s',
  (Forall (honest_output host) (d_pendingOutput (ds_delivery s)) ->
   no_data_events (d_orderedEvents (ds_delivery s)) -> related R s out s') -> related R s out s').
Context (R_pending : forall l, Forall (honest_output host) l ->
  respects R (upd (set_pendingOutput l))).

Definition rebases : Prop := forall seq, respects R (rebase routeId seq).

Lemma R_for_each l :
  Forall (honest_output host) l -> respects R (for_each (deliverOutput routeId) l).
Proof. intros Hl. apply respects_for_each. intros o Ho. apply R_deliver. by eapply Forall_forall in Ho. Qed.

Lemma R_take {A} (k : list PendingRemoteTerminalOutput -> D A) :
  (forall l, Forall (honest_output host) l -> respects R (k l)) ->
  respects R (bind take_pending k).
Proof.
  intros Hk s. unfold take_pending.
  pose proof (R_pending [] (Forall_nil_2 _) s) as Hp.
  unfold bind, get, ret, upd, modify in *. cbn in *.
  destruct (k (d_pendingOutput (ds_delivery s)) _) as [[r s'] out] eqn:Ek.
  apply R_honest. intros Hs _. specialize (Hk _ Hs (mkDState (ds_nextCorrelationId s)
    (set_pendingOutput [] (ds_delivery s)))). rewrite Ek in Hk.
  change out with ([] ++ out). by eapply related_trans.
Qed.

Lemma R_dispatch e : respects R (dispatch routeId e).
Proof. apply R_quiet, quiet_dispatch. Qed.

Lemma R_resume c :
  (c <> None -> rebases) -> respects R (resumeWithoutSnapshot routeId c).
Proof.
  intros Hc. unfold resumeWithoutSnapshot. apply respects_bind.
  { destruct c as [seq|]; [by apply Hc | apply respects_ret]. }
  intros _. apply respects_bind; [apply R_dispatch|]. intros _. apply R_take, R_for_each.
Qed.

Lemma R_window snap l :
  Forall (honest_output host) l -> respects R (deliver_window routeId snap l).
Proof.
  induction 1 as [|o l Ho Hl IH]; cbn [deliver_window]; [apply respects_ret|].
  case_if; [done|]. case_if.
  - apply respects_bind; [apply R_quiet, quiet_recover|]. intros; apply respects_ret.
  - apply respects_bind; [by apply R_deliver|]. intros _. exact IH.
Qed.

Lemma R_call c : is_data c = false -> respects R (call c).
Proof. intros Hc. by apply R_quiet, quiet_call. Qed.

Lemma R_ackSnapshot snap : rebases -> respects R (ackSnapshot routeId snap).
Proof.
  intros Hr. unfold ackSnapshot. apply respects_bind; [apply Hr|]. intros _.
  apply respects_bind; [apply R_quiet, quiet_send|]. intros _.
  apply respects_bind; [apply R_dispatch|]. intros _. apply R_take. intros l Hl.
  apply respects_bind; [by apply R_window|]. intros ok.
  apply respects_bind; [apply respects_get|]. intros s.
  case_if; [by apply R_call | apply respects_ret].
Qed.

Lemma R_failure e : rebases -> respects R (handleSnapshotFailure routeId e).
Proof.
  intros Hr. unfold handleSnapshotFailure.
  apply respects_bind; [apply R_quiet; quiet_upd|]. intros _.
  apply respects_bind; [apply respects_get|]. intros s. apply respects_bind.
  - case_if.
    + apply respects_bind; [apply R_quiet, quiet_manualComplete|]. intros _.
      case_if; [by apply R_resume | apply respects_ret].
    + case_if; [|apply respects_ret]. apply respects_bind; [by apply R_resume|]. intros _.
      apply respects_bind; [apply respects_get|]. intros s'.
      case_if; [by apply R_call | apply respects_ret].
  - intros _. case_if; [apply R_quiet, quiet_report|].
    case_if; [apply R_quiet, quiet_report | apply respects_ret].
Qed.

Lemma R_snapshotEnd f : rebases -> respects R (handleSnapshotEnd routeId normalize f).
Proof.
  intros Hr. unfold handleSnapshotEnd.
  destruct (decodeTerminalMultiplexSnapshotEndRecord _) as [e|]; [|apply R_quiet, quiet_recover].
  case_if; [apply R_quiet, quiet_recover|]. case_if; [by apply R_failure|].
  apply respects_bind; [apply respects_get|]. intros s.
  destruct (assembler_end _ _) as [[snap|] a]; (apply respects_bind; [apply R_quiet; quiet_upd|]; intros _).
  - case_if.
    + apply respects_bind; [apply R_quiet, quiet_manualComplete|]. intros _.
      unfold ackManualSnapshot. apply respects_bind; [apply R_quiet, quiet_send|]. intros _.
      by apply R_resume.
    + apply respects_bind; [apply R_quiet, quiet_new_ticket|]. intros n. apply R_quiet, quiet_publish.
  - apply R_quiet, quiet_recover.
Qed.

Lemma R_output f : opcode f = Output -> honest_frame host f -> respects R (handleOutput routeId f).
Proof.
  intros Ho Hf. specialize (Hf Ho). unfold handleOutput.
  case_if; [apply R_quiet, quiet_recover|].
  assert (honest_output host (mkOutput (payload f) (Frame.seq f - byteLength (payload f)) (Frame.seq f)))
    as Hh by (split; [cbn; pose proof (byteLength_nonneg (payload f)); lia | done]).
  intros s. pose proof (R_deliver _ Hh s) as Hd. unfold bind, get.
  destruct (isSnapshotting (ds_delivery s)).
  - unfold upd, modify. cbn. apply R_honest. intros Hs _.
    specialize (R_pending (d_pendingOutput (ds_delivery s) ++ [_])
      (Forall_app_2 _ _ _ Hs (Forall_cons_2 _ _ _ Hh (Forall_nil_2 _))) s). exact R_pending.
  - by destruct (deliverOutput routeId _ s) as [[r s'] out].
Qed.

Lemma R_handleDelivery f :
  honest_frame host f -> (opcode f = SnapshotEnd -> rebases) ->
  respects R (handleDelivery routeId normalize f).
Proof.
  intros Hf Hr. unfold handleDelivery. destruct (opcode f) eqn:Eo; try apply respects_ret.
  - destruct (decodeTerminalMultiplexEndRecord f);
      (apply respects_bind; [|intros; apply respects_ret]).
    + apply R_quiet, quiet_run_acks.
    + apply R_quiet, quiet_report.
  - apply respects_bind; [by apply R_output | intros; apply respects_ret].
  - apply respects_bind; [apply respects_get|]. intros s. destruct (assembler_start _ _) as [ok a].
    apply respects_bind; [apply R_quiet; quiet_upd|]. intros _.
    apply respects_bind; [apply R_dispatch | intros; apply respects_ret].
  - apply respects_bind; [apply respects_get|]. intros s. destruct (assembler_chunk _ _) as [ok a].
    apply respects_bind; [apply R_quiet; quiet_upd|]. intros _.
    apply respects_bind; [|intros; apply respects_ret].
    destruct ok; [apply respects_ret | apply R_quiet, quiet_recover].
  - apply respects_bind; [by apply R_snapshotEnd, Hr | intros; apply respects_ret].
  - destruct (decodeTerminalMultiplexModelRestoreRecord f) as [v|];
      (apply respects_bind; [|intros _; try (apply respects_bind; [apply R_dispatch | intros _]);
                                 apply respects_ret]).
    + case_if; [apply respects_ret | apply R_quiet, quiet_run_events, events_quiet_publish].
    + apply R_quiet, quiet_report.
Qed.

Lemma R_handleUnordered f :
  honest_frame host f -> (opcode f = SnapshotEnd -> rebases) ->
  respects R (handleUnordered routeId normalize f).
Proof.
  intros Hf Hr. unfold handleUnordered. apply respects_bind; [apply respects_get|]. intros s.
  destruct (match opcode f with Ack => _ | _ => _ end) as [ok answered].
  case_if; [apply respects_bind; [apply R_quiet, quiet_run_manual | intros; apply respects_ret]|].
  destruct (match opcode f with Credit => _ | _ => _ end) as [[n reason]|].
  - apply respects_bind; [apply R_quiet, quiet_send | intros; apply respects_ret].
  - by apply R_handleDelivery.
Qed.

(** The effects of an ordered event publish no output. *)
Lemma R_ordered f r s :
  events_handle f (d_orderedEvents (ds_delivery s)) = Some r ->
  let '(_, s', out) := run_events routeId (fun _ => r) s in related R s out s'.
Proof.
  intros Ee. destruct (run_events routeId (fun _ => r) s) as [[rr s'] out] eqn:El.
  apply R_honest. intros _ Hn. pose proof (events_handle_quiet _ _ _ Ee Hn) as Hr.
  assert (events_quiet (fun _ => r)) as Hfun by (intros ? _; exact Hr).
  pose proof (R_quiet _ _ (quiet_run_events routeId _ Hfun) s) as Hq. by rewrite El in Hq.
Qed.

Lemma R_handle f :
  honest_frame host f -> (opcode f = SnapshotEnd -> rebases) ->
  respects R (handle routeId normalize f).
Proof.
  intros Hf Hr s. unfold handle, bind at 1, get.
  destruct (events_handle f (d_orderedEvents (ds_delivery s))) as [r|] eqn:Ee.
  - pose proof (R_ordered f r s Ee) as Ho. unfold bind.
    destruct (run_events routeId (fun _ => r) s) as [[[[]|x] s'] out]; cbn; [by rewrite app_nil_r | done].
  - pose proof (R_handleUnordered f Hf Hr s) as Ho.
    by destruct (handleUnordered routeId normalize f s) as [[r s'] out].
Qed.

Lemma R_parsed n :
  rebases -> respects R (onParsed routeId n).
Proof.
  intros Hr. unfold onParsed. apply respects_bind; [apply respects_get|]. intros s.
  destruct (d_tickets (ds_delivery s) !! n) as [[]|]; try apply respects_ret;
    (apply respects_bind; [apply R_quiet; quiet_upd|]; intros _).
  - apply R_quiet, quiet_run_acks.
  - by apply R_ackSnapshot.
Qed.

Lemma R_parsed_output n s q e c :
  d_tickets (ds_delivery s) !! n = Some (ticket_output q e c) \/
  d_tickets (ds_delivery s) !! n = Some ticket_used \/ d_tickets (ds_delivery s) !! n = None ->
  let '(_, s', out) := onParsed routeId n s in related R s out s'.
Proof.
  intros Ht. unfold onParsed, bind at 1, get.
  destruct Ht as [->|[->| ->]]; [|apply related_refl..].
  set (m := bind _ _). cut (respects R m); [intros Hm; specialize (Hm s); by destruct (m s) as [[? ?] ?]|].
  apply respects_bind; [apply R_quiet; quiet_upd|]. intros _. apply R_quiet, quiet_run_acks.
Qed.

Lemma R_newEpoch :
  respects R (upd (set_decoder TerminalOutputTextDecoder_reset)) ->
  respects R (prepareForNewEpoch routeId).
Proof.
  intros Hr. unfold prepareForNewEpoch.
  apply respects_bind; [apply R_dispatch|]. intros _.
  apply respects_bind; [apply R_quiet; quiet_upd|]. intros _.
  apply respects_bind; [by apply R_pending|]. intros _.
  apply respects_bind; [exact Hr|]. intros _.
  apply respects_bind; [apply R_quiet; quiet_upd|]. intros _.
  apply respects_bind; [|intros _; apply R_quiet, quiet_manualComplete].
  apply R_quiet, respects_modify. intros s _. cbn. split; [apply Forall_nil_2 | done].
Qed.

Lemma R_other e :
  match e with de_frame _ | de_parsed _ | de_newEpoch => False | _ => True end ->
  respects R (delivery_step routeId normalize e).
Proof.
  destruct e; try done; intros _; cbn [delivery_step].
  - apply respects_bind; [apply R_quiet; quiet_upd | intros _; apply R_dispatch].
  - apply R_dispatch.
  - apply R_dispatch.
  - apply R_dispatch.
  - apply respects_bind; [|intros; apply respects_ret]. unfold requestSnapshot.
    apply respects_bind; [apply respects_get|]. intros s. case_if; [apply respects_ret|].
    apply respects_bind; [apply R_quiet, quiet_allocate|]. intros id.
    apply respects_bind; [apply R_quiet, quiet_run_manual | intros; apply respects_ret].
  - apply respects_bind; [apply R_quiet; quiet_upd | intros _; apply R_quiet, quiet_manualComplete].
  - apply R_quiet, quiet_run_acks.
  - apply respects_bind; [apply respects_get|]. intros s. apply R_quiet, quiet_run_manual.
Qed.
End operations.

(** ** Runs *)

(** The events that may end a segment: the end of a snapshot, the parse of a
    snapshot, a new epoch. *)
Definition resyncs (e : delivery_event) (s : delivery_state) : bool :=
  match e with
  | de_frame f => bool_decide (opcode f = SnapshotEnd)
  | de_parsed n =>
      match d_tickets (ds_delivery s) !! n with Some (ticket_snapshot _) => true | _ => false end
  | de_newEpoch => true
  | _ => false
  end.

Fixpoint resync_free `{StreamSchemas} (routeId : Z) (normalize : jsstring -> jsstring)
    (events : list delivery_event) (s : delivery_state) : Prop :=
  match events with
  | [] => True
  | e :: rest =>
      let '(_, s1, out1) := delivery_step routeId normalize e s in
      resyncs e s = false /\ (utf8_report ∉ out1) /\ resync_free routeId normalize rest s1
  end.

Section runs.
Context (host : Z -> Z) `{StreamSchemas} (routeId : Z) (normalize : jsstring -> jsstring).

Lemma grow_honest s out s' :
  (Forall (honest_output host) (d_pendingOutput (ds_delivery s)) ->
   no_data_events (d_orderedEvents (ds_delivery s)) -> related (grow host) s out s') ->
  related (grow host) s out s'.
Proof.
  intros Hi old b t Hf. pose proof Hf as (_ & _ & _ & Hp & He). exact (Hi Hp He old b t Hf).
Qed.

Lemma keep_honest s out s' :
  (Forall (honest_output host) (d_pendingOutput (ds_delivery s)) ->
   no_data_events (d_orderedEvents (ds_delivery s)) -> related (keep host) s out s') ->
  related (keep host) s out s'.
Proof.
  intros Hi Hu old b t Hf. pose proof Hf as (_ & _ & _ & Hp & He). exact (Hi Hp He Hu old b t Hf).
Qed.

Lemma grow_pending l :
  Forall (honest_output host) l -> respects (grow host) (upd (set_pendingOutput l)).
Proof.
  intros Hl. apply respects_modify. intros s old b t (Ho & Hb & Hd & Hp & He).
  exists old, b, t. cbn. rewrite app_nil_r. by repeat split.
Qed.

Lemma keep_pending l :
  Forall (honest_output host) l -> respects (keep host) (upd (set_pendingOutput l)).
Proof.
  intros Hl. apply respects_modify. intros s _ old b t (Ho & Hb & Hd & Hp & He).
  rewrite app_nil_r. by repeat split.
Qed.

Lemma grow_reset : respects (grow host) (upd (set_decoder TerminalOutputTextDecoder_reset)).
Proof.
  apply respects_modify. intros s old b t Hf. apply faithful_reset in Hf.
  eexists _, _, _. split; [exact Hf|]. rewrite texts_snoc. cbn. by rewrite !app_nil_r.
Qed.

Lemma grow_rebase seq : respects (grow host) (rebase routeId seq).
Proof.
  unfold rebase. apply respects_bind; [apply grow_quiet, quiet_run_acks|]. intros _ s old b t Hf.
  apply faithful_reset in Hf. cbn.
  exists (old ++ [mkSegment b (d_expectedSequence (ds_delivery s)) t]), seq, [].
  split; [|rewrite texts_snoc; cbn; by rewrite !app_nil_r].
  destruct Hf as (Ho & _ & _ & Hp & He). split; [done|]. cbn. rewrite range_empty.
  split; [lia|]. by repeat split.
Qed.

Lemma grow_step e :
  honest_event host e -> respects (grow host) (delivery_step routeId normalize e).
Proof.
  intros He.
  assert (Hq : forall A (m : D A), respects quiet m -> respects (grow host) m)
    by (intros; by apply grow_quiet).
  assert (Hr : rebases routeId (grow host)) by (intros seq; apply grow_rebase).
  assert (Hd := grow_deliver host routeId).
  destruct e; try (by eapply R_other); cbn [delivery_step].
  - apply respects_bind; [|intros; apply respects_ret].
    eapply R_handle; eauto using grow_honest, grow_pending.
  - eapply R_parsed; eauto using grow_honest, grow_pending.
  - eapply R_newEpoch; eauto using grow_pending, grow_reset.
Qed.

Lemma keep_step e s :
  honest_event host e -> resyncs e s = false ->
  let '(_, s', out) := delivery_step routeId normalize e s in related (keep host) s out s'.
Proof.
  intros He Hn.
  assert (Hq : forall A (m : D A), respects quiet m -> respects (keep host) m)
    by (intros; by apply keep_quiet).
  assert (Hd := keep_deliver host routeId).
  destruct e as [f|n| | | | | | | | |]; try done;
    try (eapply (R_other routeId normalize (keep host) Hq); done).
  - cbn in Hn. apply bool_decide_eq_false in Hn.
    assert (respects (keep host) (delivery_step routeId normalize (de_frame f))) as Hm; [|exact (Hm s)].
    cbn [delivery_step]. apply respects_bind; [|intros; apply respects_ret].
    eapply R_handle; eauto using keep_honest, keep_pending. done.
  - cbn in Hn. cbn [delivery_step].
    destruct (d_tickets (ds_delivery s) !! n) as [[q e c|snap|]|] eqn:Et; try done.
    + apply (R_parsed_output routeId (keep host) Hq n s q e c). by left.
    + apply (R_parsed_output routeId (keep host) Hq n s 0 0 0). by right; left.
    + apply (R_parsed_output routeId (keep host) Hq n s 0 0 0). by right; right.
Qed.

Lemma faithful_new c : faithful host [] 0 [] (ds_delivery (mkDState c newDelivery)).
Proof.
  split; [done|]. split; [cbn; lia|]. cbn. rewrite range_empty.
  repeat split; try apply Forall_nil_2.
Qed.

Lemma run_grow events : forall s old b t,
  Forall (honest_event host) events -> faithful host old b t (ds_delivery s) ->
  let '(s', out) := delivery_run routeId normalize events s in
  exists old' b' t', faithful host old' b' t' (ds_delivery s')
    /\ texts old' ++ t' = texts old ++ t ++ delivered out.
Proof.
  induction events as [|e events IH]; intros s old b t Hh Hf; cbn [delivery_run].
  { exists old, b, t. by rewrite app_nil_r. }
  apply Forall_cons in Hh as [He Hh]. pose proof (grow_step e He s) as Hs.
  destruct (delivery_step _ _ e s) as [[r s1] out1]. destruct (Hs _ _ _ Hf) as (old1 & b1 & t1 & Hf1 & E1).
  specialize (IH s1 old1 b1 t1 Hh Hf1). destruct (delivery_run _ _ events s1) as [s2 out2].
  destruct IH as (old2 & b2 & t2 & Hf2 & E2). exists old2, b2, t2. split; [done|].
  by rewrite E2, delivered_app, !app_assoc, <- (app_assoc (texts old)), <- E1.
Qed.

Lemma run_keep events : forall s old b t,
  Forall (honest_event host) events -> resync_free routeId normalize events s ->
  faithful host old b t (ds_delivery s) ->
  let '(s', out) := delivery_run routeId normalize events s in
  faithful host old b (t ++ delivered out) (ds_delivery s').
Proof.
  induction events as [|e events IH]; intros s old b t Hh Hn Hf; cbn [delivery_run resync_free] in *.
  { by rewrite app_nil_r. }
  apply Forall_cons in Hh as [He Hh]. pose proof (keep_step e s He) as Hs.
  destruct (delivery_step _ _ e s) as [[r s1] out1]. destruct Hn as (Hn & Hu & Hrest).
  specialize (IH s1 old b _ Hh Hrest (Hs Hn Hu _ _ _ Hf)).
  destruct (delivery_run _ _ events s1) as [s2 out2]. by rewrite delivered_app, app_assoc.
Qed.
End runs.

Lemma faithful_segment host old b t d :
  faithful host old b t d -> segment_ok host (mkSegment b (d_expectedSequence d) t).
Proof. intros (_ & Hb & Hd & _). split; [done|]. by eexists. Qed.

(** ** Properties *)

(** C4. The renderer never sees corrupted text: along any run of a new delivery in
    which output frames carry the host's bytes (in any order, with gaps,
    repetitions and overlaps, between any other frames, parses, timers and epochs),
    the text handed to [onData] is a concatenation of segments, each the exact
    UTF-8 decoding by a fresh decoder of one contiguous range of the host's stream,
    and the last one, from [b], ends at the expected sequence.  As long as no
    snapshot ends or is parsed, no epoch starts and no malformed output is
    reported, that last segment just grows: what is delivered is the decoding of
    everything from [b] to the expected sequence, whatever the frame boundaries. *)
Theorem delivered_text host `{StreamSchemas} routeId normalize c events1 events2 :
  Forall (honest_event host) (events1 ++ events2) ->
  let '(s1, out1) := delivery_run routeId normalize events1 (mkDState c newDelivery) in
  let '(s2, out2) := delivery_run routeId normalize events2 s1 in
  exists segs b t,
    Forall (segment_ok host) segs
    /\ segment_ok host (mkSegment b (d_expectedSequence (ds_delivery s1)) t)
    /\ texts segs ++ t = delivered out1
    /\ (resync_free routeId normalize events2 s1 ->
        segment_ok host (mkSegment b (d_expectedSequence (ds_delivery s2)) (t ++ delivered out2))).
Proof.
  intros [Hh1 Hh2]%Forall_app.
  pose proof (run_grow host routeId normalize events1 _ [] 0 [] Hh1 (faithful_new host c)) as Hg.
  destruct (delivery_run routeId normalize events1 _) as [s1 out1].
  destruct Hg as (old & b & t & Hf & E).
  pose proof (run_keep host routeId normalize events2 s1 old b t Hh2) as Hk.
  destruct (delivery_run routeId normalize events2 s1) as [s2 out2].
  exists old, b, t. split; [apply Hf|]. split; [by eapply faithful_segment|]. split; [exact E|].
  intros Hn. by eapply faithful_segment, Hk.
Qed.

(** A character cut by a frame boundary, and a repeated frame. *)
Definition sample_stream (i : Z) : Z := if i =? 0 then 0xc3 else if i =? 1 then 0xa9 else 0x61.

Definition output_frame (e : Z) (data : bytes) : TerminalMultiplexFrame := mkFrame Output None 1 1 e 0 data.

Definition failed_snapshot_frame : TerminalMultiplexFrame :=
  mkFrame SnapshotEnd None 1 1 0 5
    (encodeTerminalMultiplexSnapshotEndRecord (mkSnapshotEnd 5 1 0 0 0)).

Definition sample_outputs : list delivery_event :=
  [de_frame (output_frame 1 [0xc3]); de_frame (output_frame 1 [0xc3]);
   de_frame (output_frame 3 [0xa9; 0x61])].

Definition sample_live : delivery_state :=
  fst (delivery_run (H := sample_schemas) 1 id [de_frame failed_snapshot_frame] (mkDState 1 newDelivery)).

Lemma delivered_text_witness :
  let '(s2, out2) := delivery_run (H := sample_schemas) 1 id sample_outputs sample_live in
  delivered out2 = [0xe9; 0x61]
  /\ exists b t, segment_ok sample_stream
       (mkSegment b (d_expectedSequence (ds_delivery s2)) (t ++ delivered out2)).
Proof.
  pose proof (delivered_text (H := sample_schemas) sample_stream 1 id 1
    [de_frame failed_snapshot_frame] sample_outputs) as Hd.
  unfold sample_live.
  destruct (delivery_run (H := sample_schemas) 1 id [de_frame failed_snapshot_frame] _) as [s1 out1] eqn:E1.
  cbn [fst].
  assert (s1 = sample_live) as -> by (unfold sample_live; by rewrite E1).
  assert (delivered (snd (delivery_run (H := sample_schemas) 1 id sample_outputs sample_live))
    = [0xe9; 0x61]) as Ev by (vm_compute; reflexivity).
  destruct (delivery_run (H := sample_schemas) 1 id sample_outputs sample_live) as [s2 out2].
  split; [exact Ev|]. destruct Hd as (segs & b & t & _ & _ & _ & Hs).
  - repeat constructor; try discriminate; intros _; vm_compute; reflexivity.
  - exists b, t. apply Hs. clear Hs. vm_compute. repeat split; intros Hin;
      repeat (apply elem_of_cons in Hin as [?|Hin]; [discriminate|]); by apply elem_of_nil in Hin.
Defined.
