(* ===== verification/DeliveryEffects.v ===== *)
(** What the operations of a delivery do to the outside: proofs about Delivery.v.

    Section [operations] is generic: whatever compositional property holds of the
    primitive steps (updating the delivery, allocating a correlation id, an effect a
    delivery is allowed, the two errors) holds of every operation; the host's
    recovery effects are never reached.  It is then used for the effects and the
    correlation ids ([calm]) and for the errors ([client_error]). *)

From stdpp Require Import base list.
From Stdlib Require Import ZArith Lia ZifyBool.
From S2P Require Import Prelude JsText Json Frame Records Recovery SideEffects Acks.
From S2P Require Import Snapshot Effects StreamRecords Delivery.

Open Scope Z_scope.

(** The effects of the operations themselves, [onEnd] apart. *)
Definition delivery_op (op : TerminalMultiplexOpcode) : bool :=
  match op with Ack | Credit | SnapshotRequest => true | _ => false end.

Definition calm_effect (route : Z) (o : stream_effect) : bool :=
  match o with
  | o_send op r _ _ _ => delivery_op op && (r =? route)
  | o_callback _ | o_manual _ _ => true
  | o_input _ _ | o_ended | o_closed _ => false
  end.

Definition client_error (x : stream_error) : Prop := x <> HostRecoveryEffect.

Section operations.
Context `{StreamSchemas} (routeId : Z) (normalize : jsstring -> jsstring).
Context (Q : forall A, D A -> Prop) `{!Compositional Q}.
Hypothesis Q_upd : forall f, Q unit (upd f).
Hypothesis Q_allocate : Q Z allocateCorrelationId.
Hypothesis Q_emit : forall o, calm_effect routeId o = true -> Q unit (emit o).
Hypothesis Q_unsafe : Q bytes (throw UnsafeJson).

#[local] Hint Resolve Q_upd Q_allocate Q_unsafe : effects.

Lemma Q_send op s c p : delivery_op op = true -> Q unit (send routeId op s c p).
Proof. intros E. apply Q_emit. cbn. by rewrite E, Z.eqb_refl. Qed.

Lemma Q_call c : Q unit (call c).
Proof. by apply Q_emit. Qed.

#[local] Hint Resolve Q_call : effects.

Lemma Q_encodeJson v : Q bytes (encodeJson v).
Proof. unfold encodeJson. compose. Qed.

#[local] Hint Resolve Q_encodeJson : effects.
#[local] Hint Extern 1 (Q _ (send _ _ _ _ _)) => apply Q_send; reflexivity : effects.

Lemma Q_setCredit b r : Q unit (setCredit routeId b r).
Proof. unfold setCredit. compose. Qed.

Lemma Q_execute e :
  is_client_effect e = true -> Q unit (executeRemoteTerminalRecoveryEffect routeId e).
Proof.
  intros He. destruct e; try done; cbn [executeRemoteTerminalRecoveryEffect];
    [compose | apply Q_setCredit | compose].
Qed.

Lemma Q_dispatch e : is_client_event e = true -> Q unit (dispatch routeId e).
Proof.
  intros He. unfold dispatch. apply comp_bind; [apply comp_get|]. intros s.
  pose proof (client_step_effects (d_recovery (ds_delivery s)) e He) as Hf.
  destruct (reduceRecovery _ e) as [st effects]. cbn in Hf.
  apply comp_bind; [apply Q_upd|]. intros _. apply (comp_for_each Q). intros f Hin. apply Q_execute.
  rewrite forallb_forall in Hf. by apply Hf, list_elem_of_In.
Qed.

#[local] Hint Extern 1 (Q _ (dispatch _ _)) => apply Q_dispatch; reflexivity : effects.

Lemma Q_recover : Q unit (recover routeId).
Proof. unfold recover. compose. Qed.

#[local] Hint Resolve Q_recover : effects.

Lemma Q_run_events f : Q unit (run_events routeId f).
Proof. unfold run_events. compose. unfold run_event_effect. compose. Qed.

#[local] Hint Resolve Q_run_events : effects.

(** Acknowledgement operations that do not end the stream. *)
Definition is_ack_end (e : ack_effect) : bool := match e with ack_end => true | _ => false end.

Lemma Q_run_ack e : is_ack_end e = false -> Q unit (run_ack_effect routeId e).
Proof.
  intros He. destruct e; try done; cbn [run_ack_effect]; [unfold sendRemoteTerminalDeliveryAck|]; compose.
Qed.

Lemma Q_acks f :
  (forall a, forallb (fun e => negb (is_ack_end e)) (snd (f a)) = true) -> Q unit (run_acks routeId f).
Proof.
  intros Hf. unfold run_acks. apply comp_bind; [apply comp_get|]. intros s.
  specialize (Hf (d_acks (ds_delivery s))). destruct (f _) as [a effects]. cbn in Hf.
  apply comp_bind; [apply Q_upd|]. intros _. apply (comp_for_each Q). intros e Hin. apply Q_run_ack.
  rewrite forallb_forall in Hf. by apply negb_true_iff, Hf, list_elem_of_In.
Qed.

Lemma Q_timer : Q unit (onAckTimer routeId).
Proof. apply Q_acks. intros a. unfold acks_timer. by case_if. Qed.

Lemma Q_run_manual r : Q unit (run_manual routeId r).
Proof. unfold run_manual. compose. unfold run_manual_effect. compose. Qed.

#[local] Hint Resolve Q_run_manual : effects.

Lemma Q_manualComplete r : Q unit (manualComplete routeId r).
Proof. unfold manualComplete. compose. Qed.

Lemma Q_new_ticket t : Q nat (new_ticket t).
Proof. unfold new_ticket. compose. Qed.

Lemma Q_report f : Q unit (reportTerminalDeliveryFailure f).
Proof. apply Q_call. Qed.

#[local] Hint Resolve Q_manualComplete Q_new_ticket Q_report Q_setCredit : effects.

Lemma Q_deliverOutput o : Q unit (deliverOutput routeId o).
Proof. unfold deliverOutput. compose. Qed.

#[local] Hint Resolve Q_deliverOutput : effects.

Lemma Q_handleOutput f : Q unit (handleOutput routeId f).
Proof. unfold handleOutput. compose. Qed.

Lemma Q_rebase q : Q unit (rebase routeId q).
Proof. unfold rebase. apply comp_bind; [by apply Q_acks|]. intros _. compose. Qed.

Lemma Q_take : Q _ take_pending.
Proof. unfold take_pending. compose. Qed.

#[local] Hint Resolve Q_handleOutput Q_rebase Q_take : effects.

Lemma Q_resume c : Q unit (resumeWithoutSnapshot routeId c).
Proof. unfold resumeWithoutSnapshot. compose. Qed.

Lemma Q_window snap outputs : Q bool (deliver_window routeId snap outputs).
Proof. induction outputs; cbn [deliver_window]; compose. Qed.

#[local] Hint Resolve Q_resume Q_window : effects.

Lemma Q_ackSnapshot snap : Q unit (ackSnapshot routeId snap).
Proof. unfold ackSnapshot, sendRemoteTerminalDeliveryAck. compose. Qed.

Lemma Q_ackManual snap : Q unit (ackManualSnapshot routeId snap).
Proof. unfold ackManualSnapshot, sendRemoteTerminalDeliveryAck. compose. Qed.

Lemma Q_publish snap n : Q unit (publishRemoteTerminalSnapshot normalize snap n).
Proof. unfold publishRemoteTerminalSnapshot. compose. Qed.

#[local] Hint Resolve Q_ackSnapshot Q_ackManual Q_publish : effects.

Lemma Q_failure e : Q unit (handleSnapshotFailure routeId e).
Proof. unfold handleSnapshotFailure. compose. Qed.

#[local] Hint Resolve Q_failure : effects.

Lemma Q_snapshotEnd f : Q unit (handleSnapshotEnd routeId normalize f).
Proof. unfold handleSnapshotEnd. compose. Qed.

#[local] Hint Resolve Q_snapshotEnd : effects.

(** Every branch of [handleDelivery] that does not end the stream. *)
Lemma Q_handleDelivery f :
  opcode f <> End_ \/ decodeTerminalMultiplexEndRecord f = None ->
  Q bool (handleDelivery routeId normalize f).
Proof.
  intros He. unfold handleDelivery. destruct (opcode f) eqn:Eo; try solve [compose].
  destruct He as [He| ->]; [done|]. compose.
Qed.

Lemma Q_beginInitial i : Q unit (beginInitialSnapshot routeId i).
Proof. unfold beginInitialSnapshot. compose. Qed.
Lemma Q_gate : Q unit (gateOutputCredit routeId).
Proof. unfold gateOutputCredit. compose. Qed.
Lemma Q_setGated g : Q unit (setDeliveryGated routeId g).
Proof. unfold setDeliveryGated. destruct g; compose. Qed.
Lemma Q_beginReveal : Q unit (beginReveal routeId).
Proof. unfold beginReveal. compose. Qed.
Lemma Q_requestSnapshot rows : Q _ (requestSnapshot routeId rows).
Proof. unfold requestSnapshot. compose. Qed.
Lemma Q_newEpoch : Q unit (prepareForNewEpoch routeId).
Proof. unfold prepareForNewEpoch. compose. Qed.
Lemma Q_dispose : Q unit (dispose routeId).
Proof. unfold dispose. compose. Qed.
Lemma Q_manualTimeout i : Q unit (onManualTimeout routeId i).
Proof. unfold onManualTimeout. compose. Qed.
End operations.

(** ** The effects and the errors of a step *)

Program Definition calm (route : Z) : step_relation delivery_state stream_effect := mkStep
  (fun s out s' => Forall (fun o => calm_effect route o = true) out
     /\ ds_nextCorrelationId s <= ds_nextCorrelationId s') _ _.
Next Obligation. intros route s. split; [done | lia]. Qed.
Next Obligation.
  intros route s1 o1 s2 o2 s3 [H1 H2] [H3 H4]. split; [by apply Forall_app | lia].
Qed.

(** A computation that is calm and throws no host error. *)
Definition safe (route : Z) (A : Type) (m : D A) : Prop :=
  respects (calm route) m /\ throws client_error m.

#[export] Instance safe_compositional route : Compositional (safe route).
Proof. apply (and_compositional (fun A m => respects (calm route) m) (fun A m => throws client_error m)). Qed.

Lemma safe_upd route f : safe route unit (upd f).
Proof. split; [|done]. apply respects_modify. intros s. split; [done | cbn; lia]. Qed.

Lemma safe_emit route o : calm_effect route o = true -> safe route unit (emit o).
Proof. intros Ho. split; [|done]. apply respects_emit. intros s. split; [by constructor | lia]. Qed.

Lemma safe_allocate route : safe route Z allocateCorrelationId.
Proof.
  split; intros s; unfold allocateCorrelationId, run_result, bind, get; case_if; cbn; try done;
    (split; [done | cbn; lia]).
Qed.

Lemma safe_unsafe route : safe route bytes (throw UnsafeJson).
Proof. split; [apply respects_throw | by apply throws_throw]. Qed.

#[export] Hint Resolve safe_upd safe_emit safe_allocate safe_unsafe : effects.

(** As [safe], but the stream may end, as the last thing. *)
Definition ending (route : Z) {A} (m : D A) : Prop := forall s,
  let '(r, s', out) := m s in
  (exists pre tail, out = pre ++ tail /\ related (calm route) s pre s'
     /\ (tail = [] \/ tail = [o_ended]))
  /\ match r with Exn x => client_error x | Ret _ => True end.

Lemma safe_ending route A (m : D A) : safe route A m -> ending route m.
Proof.
  intros [H1 H2] s. specialize (H1 s). specialize (H2 s). unfold run_result in H2.
  destruct (m s) as [[r s'] out]. split; [|by destruct r].
  exists out, []. by rewrite app_nil_r; auto.
Qed.

Lemma ending_bind route A B (m : D A) (k : A -> D B) :
  safe route A m -> (forall a, ending route (k a)) -> ending route (bind m k).
Proof.
  intros [H1 H2] Hk s. unfold bind. specialize (H1 s). specialize (H2 s). unfold run_result in H2.
  destruct (m s) as [[[a|x] s1] o1]; cbn in H2.
  - specialize (Hk a s1). destruct (k a s1) as [[r s2] o2].
    destruct Hk as [(pre & tail & -> & Hc & Ht) Hr]. split; [|done].
    exists (o1 ++ pre), tail. rewrite app_assoc. split; [done|]. split; [|done].
    by eapply related_trans.
  - split; [|done]. exists o1, []. by rewrite app_nil_r; auto.
Qed.

Lemma ending_ret route A B (m : D A) (b : B) : ending route m -> ending route (bind m (fun _ => ret b)).
Proof.
  intros Hm s. unfold bind. specialize (Hm s). destruct (m s) as [[[a|x] s1] o1]; [|done].
  cbn. destruct Hm as [(pre & tail & -> & Hc & Ht) _]. split; [|done].
  exists pre, tail. by rewrite app_nil_r; auto.
Qed.

(** Acknowledgement operations that may end the stream, as the last thing. *)
Definition may_end (f : RemoteTerminalDeliveryAcks -> RemoteTerminalDeliveryAcks * list ack_effect)
    : Prop :=
  forall a, exists pre tail, snd (f a) = pre ++ tail
    /\ forallb (fun e => negb (is_ack_end e)) pre = true /\ (tail = [] \/ tail = [ack_end]).

Lemma publishExit_tail a : exists tail, snd (publishExit a) = tail /\ (tail = [] \/ tail = [ack_end]).
Proof. unfold publishExit. repeat case_match; eexists; split; try reflexivity; auto. Qed.

Lemma noteParsed_may_end st en b : may_end (noteParsed st en b).
Proof.
  intros a. unfold noteParsed. destruct (advance _ _ _) as [c parsed]. cbn zeta.
  set (a1 := mkAcks c parsed _ _ _).
  destruct (if _ : bool then flush a1 else _) as [a2 flushed] eqn:E.
  destruct (publishExit_tail a2) as (tail & Et & Ht). destruct (publishExit a2) as [a3 ended].
  cbn in Et |- *. subst ended. exists (ack_advance parsed :: flushed), tail.
  split; [done|]. split; [|done]. cbn. revert E. case_if; intros [= _ <-]; done.
Qed.

Lemma deferExit_may_end q : may_end (deferExit q).
Proof. intros a. destruct (publishExit_tail (mkAcks (completions a) (parsedSequence a) (pendingBytes a) (Some q) (timer a))) as (t & E & Ht). by exists [], t. Qed.

Section ends.
Context `{StreamSchemas} (route : Z) (normalize : jsstring -> jsstring).

Lemma for_each_app {A} (f : A -> D unit) l1 l2 s :
  for_each f (l1 ++ l2) s = bind (for_each f l1) (fun _ => for_each f l2) s.
Proof.
  revert s. induction l1 as [|a l1 IH]; intros s; cbn [app for_each].
  { unfold bind, ret. by destruct (for_each f l2 s) as [[? ?] ?]. }
  unfold bind. destruct (f a s) as [[[u|x] s1] o1]; [|done]. rewrite IH. unfold bind.
  destruct (for_each f l1 s1) as [[[u1|x1] s2] o2]; [|done].
  destruct (for_each f l2 s2) as [[r s3] o3]. by rewrite app_assoc.
Qed.

Lemma ending_end : ending route (for_each (run_ack_effect route) [ack_end]).
Proof.
  intros s. cbn. split; [|done]. exists [o_callback onEnd], [o_ended].
  split; [done|]. split; [split; [by repeat constructor | cbn; lia] | auto].
Qed.

Lemma ending_acks f : may_end f -> ending route (run_acks route f).
Proof.
  intros Hf. unfold run_acks. apply ending_bind; [apply comp_get|]. intros s.
  destruct (Hf (d_acks (ds_delivery s))) as (pre & tail & E & Hp & Ht).
  destruct (f _) as [a effects]. cbn in E. subst effects.
  apply ending_bind; [apply safe_upd|]. intros _ s1. rewrite for_each_app. revert s1.
  change (ending route (bind (for_each (run_ack_effect route) pre)
    (fun _ => for_each (run_ack_effect route) tail))).
  apply ending_bind.
  - apply (comp_for_each (safe route)). intros e Hin. apply Q_run_ack; eauto with effects; try apply _.
    rewrite forallb_forall in Hp. by apply negb_true_iff, Hp, list_elem_of_In.
  - intros _. destruct Ht as [-> | ->]; [|apply ending_end].
    apply safe_ending. apply comp_ret.
Qed.

Ltac by_operations := apply safe_ending; solve [ first
  [ apply Q_ackSnapshot | apply Q_handleDelivery | apply Q_run_events | apply Q_run_manual
  | apply Q_setCredit | apply Q_timer | apply Q_beginInitial | apply Q_gate | apply Q_setGated
  | apply Q_beginReveal | apply Q_requestSnapshot | apply Q_newEpoch | apply Q_dispose
  | apply Q_manualTimeout | apply comp_ret ]; eauto with effects; try apply _ ].

Lemma ending_parsed n : ending route (onParsed route n).
Proof.
  unfold onParsed. apply ending_bind; [apply comp_get|]. intros s.
  destruct (d_tickets _ !! n) as [[a b c|snap|]|]; try by_operations.
  - apply ending_bind; [apply safe_upd|]. intros _. apply ending_acks, noteParsed_may_end.
  - apply ending_bind; [apply safe_upd|]. intros _. by_operations.
Qed.

Lemma ending_handleDelivery f : ending route (handleDelivery route normalize f).
Proof.
  destruct (decide (opcode f = End_)) as [Eo|Eo]; [|by_operations].
  destruct (decodeTerminalMultiplexEndRecord f) as [e|] eqn:Ee; [|by_operations].
  unfold handleDelivery. rewrite Eo, Ee. apply ending_ret, ending_acks, deferExit_may_end.
Qed.

Lemma ending_handle f : ending route (handle route normalize f).
Proof.
  unfold handle. apply ending_bind; [apply comp_get|]. intros s.
  destruct (events_handle f _) as [r|].
  { apply ending_ret. by_operations. }
  unfold handleUnordered. apply ending_bind; [apply comp_get|]. intros s1.
  destruct (match opcode f with Ack => _ | _ => _ end) as [acknowledged answered].
  destruct acknowledged; [apply ending_ret; by_operations|].
  destruct (match opcode f with Credit => _ | _ => _ end) as [[b r]|];
    [apply ending_ret; by_operations | apply ending_handleDelivery].
Qed.

Lemma ending_step e : ending route (delivery_step route normalize e).
Proof.
  destruct e; cbn [delivery_step]; try by_operations.
  - apply ending_ret, ending_handle.
  - apply ending_parsed.
  - apply ending_ret. by_operations.
Qed.
End ends.

(** ** Properties *)

(** What a delivery may do, whatever happens to it and in whatever state: a
    step only sends Ack, Credit and SnapshotRequest frames on the stream's own
    route, calls the renderer and resolves manual snapshots; the end of the stream
    is signalled at most once and as the last thing of the step; correlation ids
    are never given back; and the error kept for host effects is never thrown. *)
Theorem delivery_contract `{StreamSchemas} route normalize e s :
  let '(r, s', out) := delivery_step route normalize e s in
  (exists pre tail, out = pre ++ tail
     /\ Forall (fun o => calm_effect route o = true) pre /\ (tail = [] \/ tail = [o_ended]))
  /\ ds_nextCorrelationId s <= ds_nextCorrelationId s'
  /\ r <> Exn HostRecoveryEffect.
Proof.
  pose proof (ending_step route normalize e s) as He.
  destruct (delivery_step route normalize e s) as [[r s'] out].
  destruct He as [(pre & tail & -> & [Hc Hn] & Ht) Hr].
  split; [by exists pre, tail|]. split; [done|]. destruct r; [done|]. intros [= ->]. by apply Hr.
Qed.
