(* ===== verification/Controls.v ===== *)
(** The control side of one terminal stream on the client
    (packages/client/src/runtime/terminal-multiplex/stream/control-sender.ts).

    The sender works on the state of its stream: its own fields, the delivery it is
    wired to, the correlation ids of the connection, and [ss_link], what
    [options.send] answers during the step (the connection, Wire.v, decides it).
    Every call of [options.send] is the effect [o_send]; with the link it tells which
    frames left.  The timer of an input is the operation [inputTimeout]; clearing the
    timer and deleting the entry always go together, so the entry stands for both. *)

From stdpp Require Import base list.
From Stdlib Require Import ZArith Lia ZifyBool String.
From S2P Require Import Prelude JsText Json Frame Records Recovery SideEffects Acks.
From S2P Require Import Snapshot Effects StreamRecords Delivery.

Open Scope Z_scope.

(** What [options.send] returns for each of its arguments. *)
Definition link : Type := TerminalMultiplexOpcode -> Z -> Z -> Z -> bytes -> bool.

Record DeliveryState := mkDeliveryState {
  visible_ : bool;
  interested : bool;
  priority_ : priority
}.

(** An entry of [pendingInputs]: true when a promise waits for it. *)
Record PendingInput := mkPendingInput {
  pi_correlationId : Z;
  pi_resolve : bool
}.

Record RemoteTerminalControlSender := mkControls {
  inputSeq : Z;
  inputAckSeq : Z;
  inputCreditBytes : Z;
  inputMaxFrameBytes : Z;
  pendingInputs : list PendingInput;  (** a Map, in insertion order *)
  deliveryState : DeliveryState;
  pendingRevealStateVersion : option Z
}.

Definition newControls : RemoteTerminalControlSender :=
  mkControls 0 0 0 (64 * 1024) [] (mkDeliveryState true true active_priority) None.

(** The state of a stream and of what it shares with its connection. *)
Record stream_state := mkStreamState {
  ss_link : link;
  ss_nextCorrelationId : Z;
  ss_controls : RemoteTerminalControlSender;
  ss_delivery : RemoteTerminalDelivery;
  ss_closed : bool
}.

Definition C (A : Type) : Type := M stream_state stream_effect stream_error A.

Definition delivery_lens : lens stream_state delivery_state := mkLens
  (fun s => mkDState (ss_nextCorrelationId s) (ss_delivery s))
  (fun d s => mkStreamState (ss_link s) (ds_nextCorrelationId d) (ss_controls s) (ds_delivery d)
                (ss_closed s)).

Definition in_delivery {A} (m : D A) : C A := zoom delivery_lens m.

Definition upd_controls (f : RemoteTerminalControlSender -> RemoteTerminalControlSender) : C unit :=
  modify (fun s => mkStreamState (ss_link s) (ss_nextCorrelationId s) (f (ss_controls s))
                     (ss_delivery s) (ss_closed s)).

Definition c_allocate : C Z := in_delivery allocateCorrelationId.

Definition c_call (c : RemoteRuntimeMultiplexedTerminalCallback) : C unit := emit (o_callback c).

Definition getParsedSeq (s : stream_state) : Z := parsedSequence (d_acks (ss_delivery s)).

(** [pendingInputs.set(id, ..)]. *)
Fixpoint pending_set (p : PendingInput) (l : list PendingInput) : list PendingInput :=
  match l with
  | [] => [p]
  | q :: rest => if pi_correlationId q =? pi_correlationId p then p :: rest else q :: pending_set p rest
  end.

Fixpoint pending_get (id : Z) (l : list PendingInput) : option PendingInput :=
  match l with
  | [] => None
  | q :: rest => if pi_correlationId q =? id then Some q else pending_get id rest
  end.

Definition pending_delete (id : Z) (l : list PendingInput) : list PendingInput :=
  List.filter (fun q => negb (pi_correlationId q =? id)) l.

Definition set_pendingInputs (l : list PendingInput) (c : RemoteTerminalControlSender) :=
  mkControls (inputSeq c) (inputAckSeq c) (inputCreditBytes c) (inputMaxFrameBytes c) l
    (deliveryState c) (pendingRevealStateVersion c).
Definition set_inputSeqs (sent acked : Z) (c : RemoteTerminalControlSender) :=
  mkControls sent acked (inputCreditBytes c) (inputMaxFrameBytes c) (pendingInputs c)
    (deliveryState c) (pendingRevealStateVersion c).
Definition set_inputCredit (credit frame : Z) (c : RemoteTerminalControlSender) :=
  mkControls (inputSeq c) (inputAckSeq c) credit frame (pendingInputs c)
    (deliveryState c) (pendingRevealStateVersion c).
Definition set_deliveryState (d : DeliveryState) (reveal : option Z) (c : RemoteTerminalControlSender) :=
  mkControls (inputSeq c) (inputAckSeq c) (inputCreditBytes c) (inputMaxFrameBytes c)
    (pendingInputs c) d reveal.

Definition priority_text (p : priority) : jsstring :=
  match p with parked => js "parked" | visible => js "visible" | active_priority => js "active" end.

Definition control_rejected : message := literal (js "Remote terminal control was rejected.").

Section controls.
Context `{StreamSchemas} (routeId : Z) (clientId : jsstring).

Definition c_send (op : TerminalMultiplexOpcode) (seq correlationId : Z) (payload : bytes) : C bool :=
  (s <- get ;;
   emit (o_send op routeId seq correlationId payload) ;;;
   ret (ss_link s op routeId seq correlationId payload))%eff.

(** [pending.resolve?.(accepted)]. *)
Definition resolveInput (accepted : bool) (p : PendingInput) : C unit :=
  if pi_resolve p then emit (o_input (pi_correlationId p) accepted) else ret tt.

(** The id of the input when the frame was sent. *)
Definition sendInputFrame (text : jsstring) (kind : Z) (resolve : bool) : C (option Z) :=
  (let data := text_encode text in
   s <- get ;;
   let c := ss_controls s in
   let inFlight := inputSeq c - inputAckSeq c in
   if (byteLength data >? inputMaxFrameBytes c) || (inFlight + byteLength data >? inputCreditBytes c)
   then ret None
   else
     let nextSeq := inputSeq c + byteLength data in
     correlationId <- c_allocate ;;
     sent <- c_send Input nextSeq correlationId
               (encodeTerminalMultiplexInputRecord (mkInput kind data)) ;;
     if sent : bool then
       upd_controls (fun c => set_pendingInputs
           (pending_set (mkPendingInput correlationId resolve) (pendingInputs c))
           (set_inputSeqs nextSeq (inputAckSeq c) c)) ;;;
       ret (Some correlationId)
     else ret None)%eff.

Definition is_sent (r : option Z) : bool := match r with Some _ => true | None => false end.

Definition sendInput (text : jsstring) : C bool :=
  (r <- sendInputFrame text 0 false ;; ret (is_sent r))%eff.

(** The id of the pending promise, or [None] when it is already resolved with
    false. *)
Definition sendInputAccepted (text : jsstring) : C (option Z) := sendInputFrame text 0 true.

Definition sendQueryReply (text : jsstring) : C bool :=
  (r <- sendInputFrame text 1 false ;; ret (is_sent r))%eff.

(** The 10 s timer of an input. *)
Definition inputTimeout (correlationId : Z) : C unit :=
  (s <- get ;;
   match pending_get correlationId (pendingInputs (ss_controls s)) with
   | None => ret tt
   | Some pending =>
       upd_controls (fun c => set_pendingInputs (pending_delete correlationId (pendingInputs c)) c) ;;;
       resolveInput false pending ;;;
       c_call (onError (literal (js "Remote terminal input acknowledgement timed out.")) None)
   end)%eff.

Definition sendJson (op : TerminalMultiplexOpcode) (value : TerminalMultiplexJsonObject) : C bool :=
  (id <- c_allocate ;;
   payload <- in_delivery (encodeJson value) ;;
   c_send op 0 id payload)%eff.

Definition resize (cols rows : SpecFloat.spec_float) : C bool :=
  sendJson Resize [(js "cols", JNum cols); (js "rows", JNum rows); (js "reason", JStr (js "fit"))].

Definition claimViewport (cols rows : SpecFloat.spec_float) : C bool :=
  sendJson ClaimViewport [(js "action", JStr (js "claim")); (js "cols", JNum cols);
    (js "rows", JNum rows); (js "clientId", JStr clientId)].

Definition signal (name : jsstring) : C bool := sendJson Signal [(js "signal", JStr name)].

Definition kill (keepHistory : bool) : C bool :=
  (id <- c_allocate ;;
   c_send Kill 0 id (encodeTerminalMultiplexKillRecord (mkKill keepHistory)))%eff.

Definition hidden (d : DeliveryState) : bool := negb (visible_ d) && negb (interested d).

Definition priority_value (p : priority) : Z :=
  match p with parked => 0 | visible => 1 | active_priority => 2 end.

Definition setDeliveryState (state : DeliveryState) : C bool :=
  (stateVersion <- c_allocate ;;
   s <- get ;;
   let revealing := hidden (deliveryState (ss_controls s)) && (visible_ state || interested state) in
   (if revealing then in_delivery (gateOutputCredit routeId) else ret tt) ;;;
   s <- get ;;
   sent <- c_send VisibilityGate (getParsedSeq s) stateVersion
             (encodeTerminalMultiplexVisibilityRecord
                (mkVisibility (visible_ state) (interested state) (priority_value (priority_ state))
                   stateVersion)) ;;
   if sent : bool then
     upd_controls (fun c => set_deliveryState state (pendingRevealStateVersion c) c) ;;;
     in_delivery (setDeliveryGated routeId (hidden state)) ;;;
     upd_controls (fun c => set_deliveryState (deliveryState c)
                              (if revealing then Some stateVersion else None) c) ;;;
     ret true
   else ret false)%eff.

Definition clearPendingInputs : C unit :=
  (s <- get ;;
   for_each (resolveInput false) (pendingInputs (ss_controls s)) ;;;
   upd_controls (set_pendingInputs []))%eff.

Definition c_prepareForNewEpoch : C unit :=
  (upd_controls (fun c => set_deliveryState (deliveryState c) None
                            (set_inputCredit 0 (inputMaxFrameBytes c) (set_inputSeqs 0 0 c))) ;;;
   clearPendingInputs)%eff.

(** The part of [handleAck] for an input acknowledgement. *)
Definition handleInputAck (frame : TerminalMultiplexFrame) (ack : TerminalMultiplexAckRecord) : C unit :=
  (s <- get ;;
   match pending_get (correlationId frame) (pendingInputs (ss_controls s)) with
   | Some pending =>
       upd_controls (fun c => set_pendingInputs (pending_delete (correlationId frame) (pendingInputs c)) c) ;;;
       resolveInput (ack_status ack =? 0) pending
   | None => ret tt
   end ;;;
   if negb (ack_status ack =? 0) then
     upd_controls (set_inputSeqs (ack_cumulativeSeq ack) (ack_cumulativeSeq ack)) ;;;
     c_call (onInputRejected (ack_errorCode ack))
   else if ack_cumulativeSeq ack >? inputAckSeq (ss_controls s) then
     upd_controls (fun c => set_inputSeqs (inputSeq c) (ack_cumulativeSeq ack) c)
   else ret tt)%eff.

(** The reveal snapshot asked for once the host has applied the visibility. *)
Definition revealSnapshot (stateVersion : Z) : C unit :=
  (upd_controls (fun c => set_deliveryState (deliveryState c) None c) ;;;
   in_delivery (beginReveal routeId) ;;;
   s <- get ;;
   id <- c_allocate ;;
   payload <- in_delivery (encodeJson [(js "stateVersion", JNum (number_of_Z stateVersion))]) ;;
   c_send RevealSnapshot (getParsedSeq s) id payload ;;; ret tt)%eff.

Definition handleAck (frame : TerminalMultiplexFrame) : C unit :=
  (match decodeTerminalMultiplexAckRecord (payload frame) with
   | None => c_call (onError control_rejected None)
   | Some ack =>
       if negb (ack_cumulativeSeq ack =? Frame.seq frame) then c_call (onError control_rejected None)
       else if ack_kind ack =? 1 then handleInputAck frame ack
       else if ack_status ack =? 1 then c_call (onError control_rejected None)
       else
         s <- get ;;
         match pendingRevealStateVersion (ss_controls s) with
         | Some stateVersion =>
             if (ack_kind ack =? 3) && (correlationId frame =? stateVersion)
             then revealSnapshot stateVersion else ret tt
         | None => ret tt
         end
   end)%eff.

Definition handleCredit (frame : TerminalMultiplexFrame) : C bool :=
  match decodeTerminalMultiplexCreditRecord (payload frame) with
  | None => ret false
  | Some credit =>
      if negb (credit_direction credit =? 1) || negb (Frame.seq frame =? 0)
         || negb (correlationId frame =? 0) then ret false
      else (upd_controls (set_inputCredit (credit_maxInFlightBytes credit)
                            (Z.min (64 * 1024) (credit_maxFrameBytes credit))) ;;;
            ret true)%eff
  end.

Definition c_dispose : C unit := clearPendingInputs.

Definition c_close : C unit :=
  (c_dispose ;;;
   s <- get ;;
   id <- c_allocate ;;
   c_send Unsubscribe (getParsedSeq s) id [] ;;; ret tt)%eff.
End controls.
