(* ===== verification/Stream.v ===== *)
(** One terminal stream on the client
    (packages/client/src/runtime/terminal-multiplex/stream/stream.ts): the delivery and
    the control sender wired together, the frames dispatched between them, closing.

    [options.onEnd] of the delivery is the effect [o_ended]; it is always the last
    effect of a delivery operation ([ended_last]), so [in_stream] closes the stream
    right after the operation.  [stream_step] is one thing that happens to a stream: a
    frame, a call of the public object, a call of the connection, a timer or a parse
    report of the renderer, each with the link of that moment. *)

From stdpp Require Import base list.
From Stdlib Require Import ZArith Lia ZifyBool String.
From S2P Require Import Prelude JsText Json Frame Records Recovery SideEffects Acks.
From S2P Require Import Snapshot Effects StreamRecords Delivery Controls.

Open Scope Z_scope.

Inductive client_type := client_desktop | client_mobile.

Record RemoteTerminalStreamOptions := mkStreamOptions {
  so_streamId : Z;
  so_terminal : jsstring;
  so_transportGeneration : jsstring;
  so_clientId : jsstring;
  so_clientType : client_type;
  so_viewport : option (SpecFloat.spec_float * SpecFloat.spec_float)
}.

Definition newStream (l : link) (nextCorrelationId : Z) : stream_state :=
  mkStreamState l nextCorrelationId newControls newDelivery false.

Definition set_closed : C unit :=
  modify (fun s => mkStreamState (ss_link s) (ss_nextCorrelationId s) (ss_controls s)
                     (ss_delivery s) true).

Definition is_ended (o : stream_effect) : bool := match o with o_ended => true | _ => false end.

Definition is_string (text : jsstring) (v : option json) : bool := bool_decide (as_string v = Some text).

Definition as_number (v : option json) : option SpecFloat.spec_float :=
  match v with Some (JNum x) => Some x | _ => None end.

Definition is_true (v : option json) : bool :=
  match v with Some (JBool true) => true | _ => false end.

(** [isDriver(value)], a type guard: the driver the value is. *)
Definition isDriver (v : option json) : option driver :=
  match as_record v with
  | None => None
  | Some o =>
      let kind := property (js "kind") o in
      if is_string (js "idle") kind then Some driver_idle
      else if is_string (js "desktop") kind then Some driver_desktop
      else if is_string (js "mobile") kind then driver_mobile <$> as_string (property (js "clientId") o)
      else None
  end.

Definition client_type_text (t : client_type) : jsstring :=
  match t with client_desktop => js "desktop" | client_mobile => js "mobile" end.

Definition MAX_SNAPSHOT_BYTES : Z := 2 * 1024 * 1024.

Section stream.
Context `{StreamSchemas} (options : RemoteTerminalStreamOptions)
  (normalizeTerminalTitle : jsstring -> jsstring).

Abbreviation route := (so_streamId options).

(** [close(sendUnsubscribe)]. *)
Definition s_close (sendUnsubscribe : bool) : C unit :=
  (s <- get ;;
   if ss_closed s then ret tt else
   (if sendUnsubscribe then c_close route else c_dispose) ;;;
   set_closed ;;;
   in_delivery (dispose route) ;;;
   emit (o_closed route))%eff.

(** Runs an operation of the delivery, then what its [onEnd] does. *)
Definition in_stream {A} (m : D A) : C A := fun s =>
  let '(r, s1, out1) := in_delivery m s in
  if existsb is_ended out1 then
    let '(_, s2, out2) := s_close false s1 in (r, s2, out1 ++ out2)
  else (r, s1, out1).

Definition fail (text : message) (retryable : bool) : C unit :=
  (c_call (onError text (Some retryable)) ;;;
   s_close false ;;;
   if retryable then c_call onTransportClose else ret tt)%eff.

Definition delivery_json (d : DeliveryState) : json :=
  JObj [(js "visible", JBool (visible_ d)); (js "interested", JBool (interested d));
        (js "priority", JStr (priority_text (priority_ d)))].

Definition subscribe_json (s : stream_state) : TerminalMultiplexJsonObject :=
  [(js "terminal", JStr (so_terminal options));
   (js "transportGeneration", JStr (so_transportGeneration options));
   (js "client", JObj [(js "id", JStr (so_clientId options));
                       (js "type", JStr (client_type_text (so_clientType options)))])]
  ++ match so_viewport options with
     | Some (cols, rows) => [(js "viewport", JObj [(js "cols", JNum cols); (js "rows", JNum rows)])]
     | None => []
     end
  ++ [(js "lastParsedSeq", JStr (decimal (getParsedSeq s)));
      (js "delivery", delivery_json (deliveryState (ss_controls s)));
      (js "snapshotMaxBytes", JNum (number_of_Z MAX_SNAPSHOT_BYTES));
      (js "capabilities", JObj [(js "dualScreenSnapshot", JNum (number_of_Z 1));
        (js "parseAck", JNum (number_of_Z 1)); (js "explicitWriteAck", JNum (number_of_Z 1))])].

Definition subscribe : C bool :=
  (correlationId <- c_allocate ;;
   s <- get ;;
   payload <- in_delivery (encodeJson (subscribe_json s)) ;;
   c_send route Subscribe (getParsedSeq s) correlationId payload)%eff.

Definition s_prepareForNewEpoch : C unit :=
  (in_delivery (Delivery.prepareForNewEpoch route) ;;; c_prepareForNewEpoch)%eff.

Definition resubscribe : C bool := (s_prepareForNewEpoch ;;; subscribe)%eff.

Definition handleSubscribed (frame : TerminalMultiplexFrame) : C unit :=
  let value := default [] (decodeTerminalMultiplexJson (payload frame)) in
  match as_number (property (js "snapshotId") value) with
  | Some snapshotId =>
      if is_string (so_terminal options) (property (js "terminal") value)
         && is_string (so_transportGeneration options) (property (js "transportGeneration") value)
         && is_string (js "snapshot") (property (js "initialState") value)
      then in_delivery (beginInitialSnapshot route (integer_of snapshotId))
      else fail (literal (js "Invalid terminal subscription response.")) false
  | None => fail (literal (js "Invalid terminal subscription response.")) false
  end.

Definition handleError (frame : TerminalMultiplexFrame) : C unit :=
  let value := default [] (decodeTerminalMultiplexJson (payload frame)) in
  fail (literal (default (js "Remote terminal protocol error.")
                   (as_string (property (js "message") value))))
    (is_true (property (js "retryable") value)).

Definition handleFitOverride (frame : TerminalMultiplexFrame) : C unit :=
  let value := default [] (decodeTerminalMultiplexJson (payload frame)) in
  match as_string (property (js "mode") value), as_number (property (js "cols") value),
        as_number (property (js "rows") value) with
  | Some mode, Some cols, Some rows =>
      if bool_decide (mode ∈ [js "mobile-fit"; js "desktop-fit"; js "remote-desktop-fit"])
      then c_call (onFitOverrideChanged mode cols rows) else ret tt
  | _, _, _ => ret tt
  end.

Definition handleDriver (frame : TerminalMultiplexFrame) : C unit :=
  let value := default [] (decodeTerminalMultiplexJson (payload frame)) in
  match isDriver (property (js "driver") value) with
  | Some d => c_call (onDriverChanged d)
  | None => ret tt
  end.

(** The frames the delivery leaves to the stream. *)
Definition handleControl (frame : TerminalMultiplexFrame) : C unit :=
  (match opcode frame with
   | Subscribed => handleSubscribed frame
   | Error => handleError frame
   | FitOverride => handleFitOverride frame
   | Driver => handleDriver frame
   | Ack => handleAck route frame
   | Credit =>
       accepted <- handleCredit frame ;;
       if accepted : bool then ret tt
       else fail (literal (js "Invalid remote terminal input credit.")) false
   | _ => ret tt
   end)%eff.

Definition s_handle (frame : TerminalMultiplexFrame) : C unit :=
  (s <- get ;;
   if ss_closed s then ret tt else
   match unsupportedOpcode frame with
   | Some _ => fail (literal (js "Remote terminal sent an unsupported opcode.")) false
   | None =>
       handled <- in_stream (handle route normalizeTerminalTitle frame) ;;
       if handled : bool then ret tt else handleControl frame
   end)%eff.

Definition transportClosed (permanent : bool) : C unit :=
  (s <- get ;;
   if ss_closed s then ret tt else
   if permanent then
     set_closed ;;; c_dispose ;;; in_delivery (dispose route) ;;; c_call onTransportClose
   else s_prepareForNewEpoch)%eff.

(** A method of [publicStream]: nothing happens once the stream is closed. *)
Definition unless_closed {A} (default : A) (m : C A) : C A :=
  (s <- get ;; if ss_closed s then ret default else m)%eff.

(** The default of [request(scrollbackRows)]. *)
Definition serializeBuffer (rows : Z) : C (option Z) :=
  unless_closed None (in_delivery (requestSnapshot route rows)).

Inductive stream_event :=
  | se_frame (frame : TerminalMultiplexFrame)
  | se_sendInput (text : jsstring)
  | se_sendInputAccepted (text : jsstring)
  | se_sendQueryReply (text : jsstring)
  | se_resize (cols rows : SpecFloat.spec_float)
  | se_claimViewport (cols rows : SpecFloat.spec_float)
  | se_setDeliveryState (state : DeliveryState)
  | se_signal (name : jsstring)
  | se_kill (keepHistory : bool)
  | se_serializeBuffer (rows : Z)
  | se_close
  | se_subscribe
  | se_resubscribe
  | se_transportClosed (permanent : bool)
  | se_parsed (n : nat)
  | se_ackTimer
  | se_manualTimeout (id : Z)
  | se_inputTimeout (id : Z).

Definition stream_step (e : stream_event) : C unit :=
  (match e with
   | se_frame frame => s_handle frame
   | se_sendInput text => unless_closed false (sendInput route text) ;;; ret tt
   | se_sendInputAccepted text => unless_closed None (sendInputAccepted route text) ;;; ret tt
   | se_sendQueryReply text => unless_closed false (sendQueryReply route text) ;;; ret tt
   | se_resize cols rows => unless_closed false (resize route cols rows) ;;; ret tt
   | se_claimViewport cols rows =>
       unless_closed false (claimViewport route (so_clientId options) cols rows) ;;; ret tt
   | se_setDeliveryState state =>
       unless_closed false (Controls.setDeliveryState route state) ;;; ret tt
   | se_signal name => unless_closed false (signal route name) ;;; ret tt
   | se_kill keepHistory => unless_closed false (kill route keepHistory) ;;; ret tt
   | se_serializeBuffer rows => serializeBuffer rows ;;; ret tt
   | se_close => s_close true
   | se_subscribe => subscribe ;;; ret tt
   | se_resubscribe => resubscribe ;;; ret tt
   | se_transportClosed permanent => transportClosed permanent
   | se_parsed n => in_stream (onParsed route n)
   | se_ackTimer => in_stream (onAckTimer route)
   | se_manualTimeout id => in_stream (onManualTimeout route id)
   | se_inputTimeout id => inputTimeout id
   end)%eff.

Definition with_link (l : link) (s : stream_state) : stream_state :=
  mkStreamState l (ss_nextCorrelationId s) (ss_controls s) (ss_delivery s) (ss_closed s).

(** A run: each event with the link of its moment, and what it did. *)
Fixpoint stream_run (events : list (link * stream_event)) (s : stream_state)
    : stream_state * list (link * stream_event * list stream_effect) :=
  match events with
  | [] => (s, [])
  | (l, e) :: rest =>
      let '(_, s1, out1) := stream_step e (with_link l s) in
      let '(s2, log) := stream_run rest s1 in
      (s2, (l, e, out1) :: log)
  end.
End stream.
