(* ===== verification/StreamInputs.v ===== *)
(** The input side of a stream, step by step: proofs about Controls.v and Stream.v.

    [inputs] is the part of the state that input flow control uses, [tracked] the
    effects it owns: Input frames, the settling of input promises and the closing of
    the stream.  [step_moves] says what every event does to them: [apply_event] for
    the events that change them, [send_moves] for the three input methods, and nothing
    else, except that the stream may close on the way, which settles every promise. *)

From stdpp Require Import base list.
From Stdlib Require Import ZArith Lia ZifyBool String.
From S2P Require Import Prelude JsText Json Frame Records Recovery SideEffects Acks.
From S2P Require Import Snapshot Effects StreamRecords Delivery DeliveryEffects Controls Stream.

Open Scope Z_scope.

Record inputs := mkInputs {
  i_sent : Z;
  i_acked : Z;
  i_credit : Z;
  i_frame : Z;
  i_pending : list PendingInput
}.

Definition inputs_of (s : stream_state) : inputs :=
  let c := ss_controls s in
  mkInputs (inputSeq c) (inputAckSeq c) (inputCreditBytes c) (inputMaxFrameBytes c) (pendingInputs c).

Definition tracked (o : stream_effect) : bool :=
  match o with
  | o_send Input _ _ _ _ | o_input _ _ | o_closed _ => true
  | _ => false
  end.

Definition io (out : list stream_effect) : list stream_effect := List.filter tracked out.

Lemma io_app a b : io (a ++ b) = io a ++ io b.
Proof. apply List.filter_app. Qed.

(** The promises of the entries, settled with [accepted]. *)
Definition settle (accepted : bool) (l : list PendingInput) : list stream_effect :=
  (fun p => o_input (pi_correlationId p) accepted) <$> List.filter pi_resolve l.

Lemma io_settle b l : io (settle b l) = settle b l.
Proof.
  unfold settle, io. induction l as [|p l IH]; [done|]. cbn.
  destruct (pi_resolve p); cbn; [by rewrite IH | done].
Qed.

Definition clear_inputs (i : inputs) : inputs :=
  mkInputs (i_sent i) (i_acked i) (i_credit i) (i_frame i) [].

Definition epoch_inputs (i : inputs) : inputs := mkInputs 0 0 0 (i_frame i) [].

(** An input acknowledgement. *)
Definition ack_inputs (f : TerminalMultiplexFrame) (ack : TerminalMultiplexAckRecord) (i : inputs)
    : inputs * list stream_effect :=
  let settled := match pending_get (correlationId f) (i_pending i) with
                 | Some p => settle (ack_status ack =? 0) [p] | None => [] end in
  let pending := pending_delete (correlationId f) (i_pending i) in
  if negb (ack_status ack =? 0)
  then (mkInputs (ack_cumulativeSeq ack) (ack_cumulativeSeq ack) (i_credit i) (i_frame i) pending, settled)
  else (mkInputs (i_sent i) (Z.max (i_acked i) (ack_cumulativeSeq ack)) (i_credit i) (i_frame i) pending,
        settled).

(** The acknowledgement of input a frame carries. *)
Definition input_ack (f : TerminalMultiplexFrame) : option TerminalMultiplexAckRecord :=
  match opcode f, unsupportedOpcode f, decodeTerminalMultiplexAckRecord (payload f) with
  | Ack, None, Some ack =>
      if (ack_cumulativeSeq ack =? Frame.seq f) && (ack_kind ack =? 1) then Some ack else None
  | _, _, _ => None
  end.

(** The input credit a frame carries. *)
Definition input_credit (f : TerminalMultiplexFrame) : option TerminalMultiplexCreditRecord :=
  match opcode f, unsupportedOpcode f, decodeTerminalMultiplexCreditRecord (payload f) with
  | Credit, None, Some credit =>
      if (credit_direction credit =? 1) && (Frame.seq f =? 0) && (correlationId f =? 0)
      then Some credit else None
  | _, _, _ => None
  end.

Definition apply_event (e : stream_event) (closed : bool) (i : inputs)
    : inputs * list stream_effect :=
  match e with
  | se_frame f =>
      if closed then (i, []) else
      match input_ack f, input_credit f with
      | Some ack, _ => ack_inputs f ack i
      | None, Some credit =>
          (mkInputs (i_sent i) (i_acked i) (credit_maxInFlightBytes credit)
             (Z.min (64 * 1024) (credit_maxFrameBytes credit)) (i_pending i), [])
      | None, None => (i, [])
      end
  | se_resubscribe => (epoch_inputs i, settle false (i_pending i))
  | se_transportClosed false => if closed then (i, []) else (epoch_inputs i, settle false (i_pending i))
  | se_inputTimeout id =>
      match pending_get id (i_pending i) with
      | Some p => (mkInputs (i_sent i) (i_acked i) (i_credit i) (i_frame i)
                     (pending_delete id (i_pending i)), settle false [p])
      | None => (i, [])
      end
  | _ => (i, [])
  end.

(** ** Steps that leave the inputs alone *)

Definition same_inputs (s s' : stream_state) : Prop :=
  inputs_of s' = inputs_of s /\ ss_link s' = ss_link s /\ ss_closed s' = ss_closed s
  /\ ss_nextCorrelationId s <= ss_nextCorrelationId s'.

Lemma same_inputs_refl s : same_inputs s s.
Proof. by repeat split. Qed.

Program Definition aside : step_relation stream_state stream_effect := mkStep
  (fun s out s' => same_inputs s s' /\ io out = []) _ _.
Next Obligation. intros s. split; [|done]. by repeat split. Qed.
Next Obligation.
  intros s1 o1 s2 o2 s3 [(E1 & E2 & E3 & H1) E4] [(F1 & F2 & F3 & H2) F4].
  split; [|by rewrite io_app, E4, F4]. split; [congruence|]. split; [congruence|].
  split; [congruence | lia].
Qed.

Definition Aside (A : Type) (m : C A) : Prop := respects aside m.

#[export] Instance Aside_compositional : Compositional Aside := respects_compositional aside.

Lemma calm_untracked route out : Forall (fun o => calm_effect route o = true) out -> io out = [].
Proof.
  unfold io. induction 1 as [|o out Ho _ IH]; [done|]. cbn. rewrite IH.
  destruct o as [op| | | | |]; try done. by destruct op.
Qed.

Lemma aside_delivery route A (m : D A) : safe route A m -> Aside A (in_delivery m).
Proof.
  intros [H _]. eapply respects_zoom; [|exact H].
  intros s out d [Ho Hn]. split; [by repeat split | by eapply calm_untracked].
Qed.

Lemma aside_allocate : Aside Z c_allocate.
Proof. apply (aside_delivery 0), safe_allocate. Qed.

Lemma aside_emit o : tracked o = false -> Aside unit (emit o).
Proof.
  intros Ho. apply respects_emit. intros s. split; [by repeat split|].
  cbn. by rewrite Ho.
Qed.

Lemma aside_call c : Aside unit (c_call c).
Proof. by apply aside_emit. Qed.

Lemma aside_encode v : Aside bytes (in_delivery (encodeJson v)).
Proof.
  apply (aside_delivery 0). unfold encodeJson.
  destruct (encodeTerminalMultiplexJson v); [apply comp_ret | apply safe_unsafe].
Qed.

Lemma aside_controls f :
  (forall c, inputSeq (f c) = inputSeq c /\ inputAckSeq (f c) = inputAckSeq c
     /\ inputCreditBytes (f c) = inputCreditBytes c /\ inputMaxFrameBytes (f c) = inputMaxFrameBytes c
     /\ pendingInputs (f c) = pendingInputs c) ->
  Aside unit (upd_controls f).
Proof.
  intros Hf. apply respects_modify. intros s. split; [|done]. unfold same_inputs, inputs_of. cbn.
  destruct (Hf (ss_controls s)) as (-> & -> & -> & -> & ->). split_and!; try done.
Qed.

#[export] Hint Resolve aside_allocate aside_call aside_encode : effects.

Section aside.
Context `{StreamSchemas} (options : RemoteTerminalStreamOptions) (normalize : jsstring -> jsstring).

Abbreviation route := (so_streamId options).

Lemma aside_send op q c p : op <> Input -> Aside bool (c_send route op q c p).
Proof.
  intros Ho. unfold c_send. apply comp_bind; [apply comp_get|]. intros s.
  apply comp_bind; [|intros; apply comp_ret]. apply aside_emit. by destruct op.
Qed.

#[local] Hint Extern 1 (Aside _ (c_send _ _ _ _ _)) => apply aside_send; discriminate : effects.
#[local] Hint Extern 1 (Aside _ (upd_controls _)) =>
  apply aside_controls; intros; split_and!; reflexivity : effects.

Lemma aside_sendJson op v : op <> Input -> Aside bool (sendJson route op v).
Proof. intros Ho. unfold sendJson. compose. by apply aside_send. Qed.

Lemma aside_kill k : Aside bool (kill route k).
Proof. unfold kill. compose. Qed.

Ltac by_delivery := apply (aside_delivery route); first
  [ apply Q_gate | apply Q_setGated | apply Q_beginReveal | apply Q_requestSnapshot | apply Q_newEpoch
  | apply Q_dispose | apply Q_beginInitial ]; eauto with effects; apply _.

Lemma aside_setDeliveryState d : Aside bool (Controls.setDeliveryState route d).
Proof.
  unfold Controls.setDeliveryState. compose; by_delivery.
Qed.

Lemma aside_reveal v : Aside unit (revealSnapshot route v).
Proof. unfold revealSnapshot. compose; by_delivery. Qed.

Lemma aside_subscribe : Aside bool (subscribe options).
Proof. unfold subscribe. compose. Qed.

Lemma aside_serialize rows : Aside _ (serializeBuffer options rows).
Proof. unfold serializeBuffer, unless_closed. compose; by_delivery. Qed.

Lemma aside_dispose : Aside unit (in_delivery (dispose route)).
Proof. by_delivery. Qed.

Lemma aside_newEpoch : Aside unit (in_delivery (Delivery.prepareForNewEpoch route)).
Proof. by_delivery. Qed.

Lemma aside_beginInitial i : Aside unit (in_delivery (beginInitialSnapshot route i)).
Proof. by_delivery. Qed.

Lemma aside_fit f : Aside unit (handleFitOverride f).
Proof. unfold handleFitOverride. compose. Qed.

Lemma aside_driver f : Aside unit (handleDriver f).
Proof. unfold handleDriver. compose. Qed.
End aside.

(** ** Steps that change the inputs *)

(** From [s] the inputs become [fst a] with the tracked effects [snd a]; on the way
    the stream may have closed, settling every promise that was left. *)
Definition moves (route : Z) (a : inputs * list stream_effect) (s : stream_state)
    (out : list stream_effect) (s' : stream_state) : Prop :=
  ss_link s' = ss_link s /\ ss_nextCorrelationId s <= ss_nextCorrelationId s'
  /\ ((ss_closed s' = ss_closed s /\ inputs_of s' = fst a /\ io out = snd a)
      \/ (ss_closed s = false /\ inputs_of s' = clear_inputs (fst a)
          /\ exists tail, io out = snd a ++ settle false (i_pending (fst a)) ++ tail
             /\ ((tail = [] /\ ss_closed s' = false) \/ (tail = [o_closed route] /\ ss_closed s' = true)))).

(** What closing does when the event itself leaves the inputs alone; closing twice is
    closing once, so it is a step relation. *)
Definition stays (route : Z) (s : stream_state) (out : list stream_effect) (s' : stream_state) : Prop :=
  moves route (inputs_of s, []) s out s'.

Lemma moves_aside route s out s' : same_inputs s s' -> io out = [] -> stays route s out s'.
Proof. intros (E1 & E2 & E3 & H1) E4. split; [done|]. split; [done|]. by left. Qed.

Lemma moves_after route a s1 o1 s2 o2 s3 :
  same_inputs s1 s2 -> io o1 = [] -> moves route a s2 o2 s3 -> moves route a s1 (o1 ++ o2) s3.
Proof.
  intros (E1 & E2 & E3 & Hn) E4 (F1 & F2 & F). split; [congruence|]. split; [lia|].
  rewrite io_app, E4, <- E3. exact F.
Qed.

Lemma moves_stays route a s1 o1 s2 o2 s3 :
  moves route a s1 o1 s2 -> stays route s2 o2 s3 -> moves route a s1 (o1 ++ o2) s3.
Proof.
  intros (F1 & F2 & F) (E1 & E2 & E). split; [congruence|]. split; [lia|]. rewrite io_app.
  destruct F as [(Ec & Ei & Eo)|(Ec & Ei & t & Eo & Ht)]; destruct E as [(Dc & Di & Do)|(Dc & Di & t2 & Do & Ht2)];
    cbn [fst snd] in *; rewrite Eo, Do.
  - left. rewrite app_nil_r. split_and!; congruence.
  - right. rewrite <- Ec. split; [done|]. rewrite Di, Ei. split; [done|]. by exists t2.
  - right. split; [done|]. split; [congruence|]. exists t. split; [by rewrite app_nil_r|].
    rewrite Dc. exact Ht.
  - right. split; [done|]. rewrite Di, Ei. split; [done|]. exists t2. split; [|done].
    destruct Ht as [[-> _]|[_ Ht]]; [|congruence]. cbn. by rewrite app_nil_r, <- app_assoc.
Qed.

Program Definition closing (route : Z) : step_relation stream_state stream_effect :=
  mkStep (stays route) _ _.
Next Obligation. intros route s. apply moves_aside; [by repeat split | done]. Qed.
Next Obligation. intros route s1 o1 s2 o2 s3 H1 H2. by eapply moves_stays. Qed.

Definition Closing (route : Z) (A : Type) (m : C A) : Prop := respects (closing route) m.

#[export] Instance Closing_compositional route : Compositional (Closing route) :=
  respects_compositional (closing route).

Lemma closing_aside route A (m : C A) : Aside A m -> Closing route A m.
Proof.
  intros H s. specialize (H s). destruct (m s) as [[r s'] out]. destruct H. by apply moves_aside.
Qed.

(** A computation that always returns and changes the inputs by [a]. *)
Definition does_at {A} (a : inputs -> inputs * list stream_effect) (m : C A) (s : stream_state) : Prop :=
  let '(r, s', out) := m s in
  is_ret r = true /\ ss_link s' = ss_link s /\ ss_closed s' = ss_closed s
  /\ ss_nextCorrelationId s <= ss_nextCorrelationId s'
  /\ inputs_of s' = fst (a (inputs_of s)) /\ io out = snd (a (inputs_of s)).

Definition does {A} (a : inputs -> inputs * list stream_effect) (m : C A) : Prop :=
  forall s, does_at a m s.

Lemma does_moves route A a (m : C A) s :
  does a m -> let '(_, s', out) := m s in moves route (a (inputs_of s)) s out s'.
Proof.
  intros H. specialize (H s). unfold does_at in H. destruct (m s) as [[r s'] out].
  destruct H as (_ & E1 & E2 & Hn & E3 & E4). split; [done|]. split; [done|]. by left.
Qed.

(** Then a part that leaves the inputs alone, or closes. *)
Lemma does_then route A B a (m : C A) (k : A -> C B) s :
  does a m -> (forall x, Closing route B (k x)) ->
  let '(_, s', out) := bind m k s in moves route (a (inputs_of s)) s out s'.
Proof.
  intros Hm Hk. pose proof (does_moves route A a m s Hm) as H. unfold bind.
  destruct (m s) as [[[x|x] s1] o1]; [|done]. specialize (Hk x s1).
  destruct (k x s1) as [[r s2] o2]. by eapply moves_stays.
Qed.

Definition then_inputs (a b : inputs -> inputs * list stream_effect) (i : inputs) :=
  let '(i1, o1) := a i in let '(i2, o2) := b i1 in (i2, o1 ++ o2).

Lemma does_bind_at A B a b (m : C A) (k : A -> C B) s :
  does_at a m s -> (forall x, does b (k x)) -> does_at (then_inputs a b) (bind m k) s.
Proof.
  unfold does, does_at, then_inputs, bind. intros Hm Hk.
  destruct (m s) as [[[x|x] s1] o1]; [|by destruct Hm].
  specialize (Hk x s1). destruct (k x s1) as [[r s2] o2].
  destruct Hm as (_ & E1 & E2 & Hn & E3 & E4), Hk as (Hr & F1 & F2 & Hn' & F3 & F4).
  destruct (a (inputs_of s)) as [i1 p1]. cbn in E3, E4. rewrite E3 in F3, F4.
  destruct (b i1) as [i2 p2]. cbn in F3, F4 |- *. rewrite io_app, E4, F4.
  split_and!; try congruence; try done; lia.
Qed.

Lemma does_bind A B a b (m : C A) (k : A -> C B) :
  does a m -> (forall x, does b (k x)) -> does (then_inputs a b) (bind m k).
Proof. intros Hm Hk s. by apply does_bind_at. Qed.

Lemma does_at_eq A a b (m : C A) s :
  does_at a m s -> a (inputs_of s) = b (inputs_of s) -> does_at b m s.
Proof. unfold does_at. by intros H <-. Qed.

Definition no_change (i : inputs) : inputs * list stream_effect := (i, []).

Lemma does_aside A (m : C A) : Aside A m -> throws (fun _ => False) m -> does no_change m.
Proof.
  intros Ha Ht s. specialize (Ha s). specialize (Ht s). unfold run_result in Ht. unfold does_at.
  destruct (m s) as [[r s'] out]. destruct Ha as [(E1 & E2 & E3 & Hn) E4].
  split; [by destruct r|]. split_and!; done.
Qed.

Lemma does_ret A (a : A) : does no_change (ret a : C A).
Proof. apply does_aside; [apply (comp_ret (Q := Aside)) | apply throws_ret]. Qed.

Lemma does_call c : does no_change (c_call c).
Proof. apply does_aside; [apply aside_call | apply throws_emit]. Qed.

Lemma does_controls f a :
  (forall c, (inputSeq (f c), inputAckSeq (f c), inputCreditBytes (f c), inputMaxFrameBytes (f c),
              pendingInputs (f c)) =
     (let i := fst (a (mkInputs (inputSeq c) (inputAckSeq c) (inputCreditBytes c) (inputMaxFrameBytes c)
                         (pendingInputs c))) in
      (i_sent i, i_acked i, i_credit i, i_frame i, i_pending i))) ->
  (forall i, snd (a i) = []) ->
  does a (upd_controls f).
Proof.
  intros Hf Ho s. split; [done|]. split; [done|]. split; [done|]. split; [cbn; lia|].
  split; [|by rewrite Ho].
  unfold inputs_of at 1. cbn. specialize (Hf (ss_controls s)). cbn in Hf. injection Hf as -> -> -> -> ->.
  fold (inputs_of s). by destruct (fst (a (inputs_of s))).
Qed.

Lemma does_resolve b p : does (fun i => (i, settle b [p])) (resolveInput b p).
Proof.
  intros s. unfold does_at, resolveInput, settle. cbn. destruct (pi_resolve p); cbn; split_and!; done || lia.
Qed.

Lemma does_settle b l : does (fun i => (i, settle b l)) (for_each (resolveInput b) l).
Proof.
  induction l as [|p l IH]; cbn [for_each]; [apply does_ret|].
  intros s. eapply does_at_eq; [apply (does_bind _ _ _ _ _ _ (does_resolve b p) (fun _ => IH))|].
  unfold then_inputs, settle. cbn. by destruct (pi_resolve p).
Qed.

Lemma does_clear : does (fun i => (clear_inputs i, settle false (i_pending i))) clearPendingInputs.
Proof.
  intros s. unfold clearPendingInputs, does_at, bind at 1, get.
  pose proof (does_bind _ _ _ _ _ _ (does_settle false (pendingInputs (ss_controls s)))
    (fun _ => does_controls (set_pendingInputs []) (fun i => (clear_inputs i, []))
                (fun _ => eq_refl) (fun _ => eq_refl)) s) as H.
  unfold does_at in H. destruct (bind _ _ s) as [[r s'] out].
  unfold then_inputs in H. cbn [fst snd] in H. rewrite app_nil_r in H. exact H.
Qed.

Lemma does_newEpoch : does (fun i => (epoch_inputs i, settle false (i_pending i))) c_prepareForNewEpoch.
Proof.
  intros s. eapply does_at_eq; [apply (does_bind _ _ _ _ _ _ (does_controls
    (fun c => set_deliveryState (deliveryState c) None
                (set_inputCredit 0 (inputMaxFrameBytes c) (set_inputSeqs 0 0 c)))
    (fun i => (mkInputs 0 0 0 (i_frame i) (i_pending i), [])) (fun _ => eq_refl) (fun _ => eq_refl))
    (fun _ => does_clear)) | done].
Qed.

Lemma pending_delete_absent id l : pending_get id l = None -> pending_delete id l = l.
Proof.
  unfold pending_delete. induction l as [|p l IH]; [done|]. cbn.
  destruct (pi_correlationId p =? id); [done|]. intros H. cbn. by rewrite IH.
Qed.

(** [newEpoch] and [dispose] never throw. *)
Definition returns (A : Type) (m : D A) : Prop := throws (fun _ => False) m.

#[export] Instance returns_compositional : Compositional returns := throws_compositional _.

Section steps.
Context `{StreamSchemas} (options : RemoteTerminalStreamOptions) (normalize : jsstring -> jsstring).

Abbreviation route := (so_streamId options).

Lemma returns_upd f : returns unit (upd f).
Proof. apply throws_modify. Qed.

Lemma returns_cancel : returns unit (manualComplete route None).
Proof.
  unfold manualComplete. apply comp_bind; [apply comp_get|]. intros s.
  unfold run_manual. apply comp_bind; [apply returns_upd|]. intros _.
  destruct (d_manualSnapshot (ds_delivery s)) as [p|]; [|apply comp_ret].
  cbn. destruct (manual_waiting p); [|apply comp_ret]. cbn.
  apply (comp_bind (Q := returns)); [apply throws_emit|]. intros _. apply comp_ret.
Qed.

Lemma returns_newEpoch : returns unit (Delivery.prepareForNewEpoch route).
Proof.
  assert (Hd : returns unit (dispatch route reset)).
  { unfold dispatch. apply comp_bind; [apply comp_get|]. intros s. cbn [reduceRecovery transition].
    apply comp_bind; [apply returns_upd|]. intros _. apply comp_ret. }
  unfold Delivery.prepareForNewEpoch.
  repeat (apply comp_bind; [first [exact Hd | apply returns_upd]|]; intros _). apply returns_cancel.
Qed.

Lemma returns_dispose : returns unit (dispose route).
Proof. unfold dispose. apply comp_bind; [apply returns_upd|]. intros _. apply returns_cancel. Qed.

Lemma does_epoch :
  does (fun i => (epoch_inputs i, settle false (i_pending i))) (s_prepareForNewEpoch options).
Proof.
  intros s. eapply does_at_eq; [apply (does_bind _ _ _ _ _ _
    (does_aside _ _ (aside_newEpoch options) (throws_zoom delivery_lens _ _ returns_newEpoch))
    (fun _ => does_newEpoch)) | done].
Qed.

(** ** Closing *)

(** The two ways of letting the promises go before the stream is closed. *)
Lemma clears b s :
  let '(_, s', out) := (if b : bool then c_close route else c_dispose) s in
  ss_link s' = ss_link s /\ ss_closed s' = ss_closed s
  /\ ss_nextCorrelationId s <= ss_nextCorrelationId s'
  /\ inputs_of s' = clear_inputs (inputs_of s) /\ io out = settle false (i_pending (inputs_of s)).
Proof.
  pose proof (does_clear s) as H0. unfold does_at in H0. destruct b; [unfold c_close, bind at 1|]; unfold c_dispose;
    destruct (clearPendingInputs s) as [[[u|x] s1] o1]; destruct H0 as (Hr & E1 & E2 & Hn & E3 & E4); try done.
  set (k := (_ <- get ;; _)%eff).
  assert (Hk : Aside unit k).
  { subst k. compose. by apply aside_send. }
  specialize (Hk s1). destruct (k s1) as [[r s2] o2]. destruct Hk as [(F1 & F2 & F3 & Hn') F4].
  rewrite io_app, E4, F4, app_nil_r. rewrite F1, E3. split_and!; done || congruence || lia.
Qed.

Lemma closed_tail s :
  let '(_, s', out) := (set_closed ;;; in_delivery (dispose route) ;;; emit (o_closed route))%eff s in
  ss_link s' = ss_link s /\ ss_closed s' = true
  /\ ss_nextCorrelationId s <= ss_nextCorrelationId s' /\ inputs_of s' = inputs_of s
  /\ io out = [o_closed route].
Proof.
  unfold set_closed, bind at 1, modify. set (s1 := mkStreamState _ _ _ _ true).
  pose proof (does_aside _ _ (aside_dispose options) (throws_zoom delivery_lens _ _ returns_dispose) s1) as Hd.
  unfold does_at in Hd. unfold bind.
  destruct (in_delivery (dispose route) s1) as [[[u|x] s2] o2]; destruct Hd as (Hr & E1 & E2 & Hn & E3 & E4);
    [|done].
  cbn [emit app]. rewrite io_app, E4. by split_and!.
Qed.

Lemma close_after (pre : C unit) s :
  ss_closed s = false ->
  (let '(_, s', out) := pre s in
   ss_link s' = ss_link s /\ ss_closed s' = ss_closed s
   /\ ss_nextCorrelationId s <= ss_nextCorrelationId s'
   /\ inputs_of s' = clear_inputs (inputs_of s) /\ io out = settle false (i_pending (inputs_of s))) ->
  let '(_, s', out) :=
    (pre ;;; set_closed ;;; in_delivery (dispose route) ;;; emit (o_closed route))%eff s in
  stays route s out s'.
Proof.
  intros Ec H1. unfold bind at 1.
  destruct (pre s) as [[[u|x] s1] o1]; destruct H1 as (E1 & E2 & Hn & E3 & E4).
  - pose proof (closed_tail s1) as H2.
    destruct ((set_closed ;;; in_delivery (dispose route) ;;; emit (o_closed route))%eff s1) as [[r s2] o2].
    destruct H2 as (F1 & F2 & Hn' & F3 & F4). split; [congruence|]. split; [lia|].
    right. split; [done|]. rewrite io_app, E4, F3, E3. split; [done|].
    exists (io o2). split; [done|]. auto.
  - split; [done|]. split; [done|]. right. split; [done|]. rewrite E3, E4.
    split; [done|]. exists []. rewrite app_nil_r. split; [done|]. left. split; [done | congruence].
Qed.

Lemma closing_close b : Closing route unit (s_close options b).
Proof.
  intros s. unfold s_close, bind at 1, get. destruct (ss_closed s) eqn:Ec.
  { apply moves_aside; [by repeat split | done]. }
  destruct b; [pose proof (close_after _ s Ec (clears true s)) as H1
             | pose proof (close_after _ s Ec (clears false s)) as H1];
    revert H1; [set (m := bind (c_close route) _) | set (m := bind c_dispose _)];
    destruct (m s) as [[r s1] o1]; done.
Qed.

Lemma ending_aside A (m : D A) s :
  ending route m -> let '(_, s', out) := in_delivery m s in same_inputs s s' /\ io out = [].
Proof.
  intros H0. specialize (H0 (view delivery_lens s)). unfold in_delivery, zoom.
  destruct (m (view delivery_lens s)) as [[r d] out].
  destruct H0 as [(pre & tail & -> & [Hc Hn] & Ht) _].
  split; [by repeat split|]. rewrite io_app, (calm_untracked _ _ Hc).
  by destruct Ht as [-> | ->].
Qed.

Lemma closing_in_stream A (m : D A) : ending route m -> Closing route A (in_stream options m).
Proof.
  intros H0 s. unfold in_stream. pose proof (ending_aside A m s H0) as H1.
  destruct (in_delivery m s) as [[r s1] o1]. destruct H1 as [H1 E1].
  destruct (existsb is_ended o1); [|by apply moves_aside].
  pose proof (closing_close false s1) as H2. destruct (s_close options false s1) as [[r2 s2] o2].
  eapply (related_trans (closing route)); [|exact H2]. by apply moves_aside.
Qed.

Lemma closing_fail text retryable : Closing route unit (fail options text retryable).
Proof.
  unfold fail. apply comp_bind; [apply closing_aside; auto with effects|]. intros _.
  apply comp_bind; [apply closing_close|]. intros _.
  destruct retryable; apply closing_aside; [auto with effects | apply comp_ret].
Qed.
End steps.

(** ** Frames *)

Section frames.
Context `{StreamSchemas} (options : RemoteTerminalStreamOptions) (normalize : jsstring -> jsstring).

Abbreviation route := (so_streamId options).

(** An acknowledgement that is not of a snapshot request, or an input credit, is
    none of the delivery's business. *)
Lemma delivery_refuses f s :
  (opcode f = Ack /\ (forall ack, decodeTerminalMultiplexAckRecord (payload f) = Some ack ->
     ack_kind ack <> 3)) \/ (opcode f = Credit /\ outputCredit f = None) ->
  handle route normalize f s = (Ret false, s, []).
Proof.
  intros [[Eo Ha]|[Eo Hc]]; unfold handle, bind at 1, get; unfold events_handle; rewrite Eo.
  - unfold handleUnordered, bind at 1, get. rewrite Eo. unfold manual_handleAck.
    destruct (manual_matches _ _); cbn [negb]; [|unfold handleDelivery; by rewrite Eo].
    destruct (decodeTerminalMultiplexAckRecord (payload f)) as [ack|] eqn:Ed;
      [|unfold handleDelivery; by rewrite Eo].
    specialize (Ha ack eq_refl). rewrite (proj2 (Z.eqb_neq _ _) Ha). cbn [negb orb].
    unfold handleDelivery. by rewrite Eo.
  - unfold handleUnordered, bind at 1, get. rewrite Eo, Hc. unfold handleDelivery. by rewrite Eo.
Qed.

(** The entry of an id is taken and its promise settled. *)
Definition take_inputs (id : Z) (accepted : bool) (i : inputs) : inputs * list stream_effect :=
  (mkInputs (i_sent i) (i_acked i) (i_credit i) (i_frame i) (pending_delete id (i_pending i)),
   match pending_get id (i_pending i) with Some p => settle accepted [p] | None => [] end).

Lemma does_take id accepted p s :
  pending_get id (pendingInputs (ss_controls s)) = Some p ->
  does_at (take_inputs id accepted)
    (upd_controls (fun c => set_pendingInputs (pending_delete id (pendingInputs c)) c) ;;;
     resolveInput accepted p)%eff s.
Proof.
  intros Hp. eapply does_at_eq; [apply (does_bind _ _ _ _ _ _ (does_controls
    (fun c => set_pendingInputs (pending_delete id (pendingInputs c)) c)
    (fun i => (mkInputs (i_sent i) (i_acked i) (i_credit i) (i_frame i) (pending_delete id (i_pending i)), []))
    (fun _ => eq_refl) (fun _ => eq_refl)) (fun _ => does_resolve accepted p))|].
  unfold take_inputs, then_inputs. cbn. by rewrite Hp.
Qed.

(** What an acknowledgement does once its promise is settled. *)
Definition seq_inputs (ack : TerminalMultiplexAckRecord) (acked : Z) (i : inputs) : inputs :=
  if negb (ack_status ack =? 0)
  then mkInputs (ack_cumulativeSeq ack) (ack_cumulativeSeq ack) (i_credit i) (i_frame i) (i_pending i)
  else if ack_cumulativeSeq ack >? acked
  then mkInputs (i_sent i) (ack_cumulativeSeq ack) (i_credit i) (i_frame i) (i_pending i) else i.

Lemma does_input_ack f ack : does (ack_inputs f ack) (handleInputAck f ack).
Proof.
  intros s. unfold handleInputAck, does_at, bind at 1, get.
  match goal with |- context [bind ?m ?k s] => set (first := m); set (next := k) end.
  assert (Hf : does_at (take_inputs (correlationId f) (ack_status ack =? 0)) first s).
  { subst first. destruct (pending_get _ _) as [p|] eqn:Ep; [by apply does_take|].
    eapply does_at_eq; [apply does_ret|]. unfold no_change, take_inputs.
    cbn [inputs_of i_pending]. rewrite Ep, pending_delete_absent by done. done. }
  assert (Hn : forall u, does (fun i => (seq_inputs ack (inputAckSeq (ss_controls s)) i, [])) (next u)).
  { intros u. subst next. unfold seq_inputs. cbn beta. destruct (negb _).
    - intros s1. eapply does_at_eq; [apply (does_bind _ _ _ _ _ _ (does_controls
        (set_inputSeqs (ack_cumulativeSeq ack) (ack_cumulativeSeq ack))
        (fun i => (mkInputs (ack_cumulativeSeq ack) (ack_cumulativeSeq ack) (i_credit i) (i_frame i)
                     (i_pending i), [])) (fun _ => eq_refl) (fun _ => eq_refl))
        (fun _ => does_call _)) | done].
    - destruct (_ >? _); [by apply does_controls | apply does_ret]. }
  pose proof (does_bind_at _ _ _ _ first next s Hf Hn) as Hb.
  unfold does_at in Hb. destruct (bind first next s) as [[r s'] out]. destruct Hb as (H1 & H2 & H3 & H4 & H5 & H6).
  split_and!; try done; [rewrite H5 | cbn [app]; rewrite H6]; unfold then_inputs, take_inputs, ack_inputs, seq_inputs;
    cbn [fst snd inputs_of i_acked i_pending i_sent i_credit i_frame]; repeat case_if; cbn [fst snd];
    rewrite ?app_nil_r; try done; f_equal; lia.
Qed.

Lemma closing_handleAck f :
  unsupportedOpcode f = None -> opcode f = Ack -> input_ack f = None ->
  Closing route unit (handleAck route f).
Proof.
  intros Hu Ho Hi. apply closing_aside. unfold handleAck. unfold input_ack in Hi. rewrite Ho, Hu in Hi.
  destruct (decodeTerminalMultiplexAckRecord (payload f)) as [ack|]; [|apply aside_call].
  destruct (ack_cumulativeSeq ack =? Frame.seq f); cbn [negb andb] in *; [|apply aside_call].
  destruct (ack_kind ack =? 1); [done|]. compose. by apply aside_reveal.
Qed.

Lemma closing_control f :
  unsupportedOpcode f = None -> input_ack f = None -> input_credit f = None ->
  Closing route unit (handleControl options f).
Proof.
  intros Hu Hi Hc. unfold handleControl. destruct (opcode f) eqn:Eo; try apply comp_ret.
  - unfold handleSubscribed. repeat case_match; try apply closing_fail.
    apply closing_aside, aside_beginInitial.
  - apply closing_fail.
  - by apply closing_handleAck.
  - unfold handleCredit. unfold input_credit in Hc. rewrite Eo, Hu in Hc.
    apply comp_bind; [|intros [|]; [apply comp_ret | apply closing_fail]].
    destruct (decodeTerminalMultiplexCreditRecord (payload f)) as [c|]; [|apply comp_ret].
    destruct (credit_direction c =? 1), (Frame.seq f =? 0), (correlationId f =? 0); try done; apply comp_ret.
  - apply closing_aside, aside_fit.
  - apply closing_aside, aside_driver.
Qed.

Lemma input_ack_refused f ack :
  input_ack f = Some ack -> opcode f = Ack /\ unsupportedOpcode f = None
  /\ decodeTerminalMultiplexAckRecord (payload f) = Some ack
  /\ (ack_cumulativeSeq ack =? Frame.seq f) = true /\ (ack_kind ack =? 1) = true.
Proof.
  unfold input_ack. destruct (opcode f); try done. destruct (unsupportedOpcode f); try done.
  destruct (decodeTerminalMultiplexAckRecord (payload f)) as [a|]; try done.
  case_if; [|done]. intros [= ->]. apply andb_true_iff in E as [E1 E2]. done.
Qed.

Lemma input_credit_refused f c :
  input_credit f = Some c -> opcode f = Credit /\ unsupportedOpcode f = None
  /\ decodeTerminalMultiplexCreditRecord (payload f) = Some c
  /\ (credit_direction c =? 1) = true /\ (Frame.seq f =? 0) = true /\ (correlationId f =? 0) = true.
Proof.
  unfold input_credit. destruct (opcode f); try done. destruct (unsupportedOpcode f); try done.
  destruct (decodeTerminalMultiplexCreditRecord (payload f)) as [a|]; try done.
  case_if; [|done]. intros [= ->]. apply andb_true_iff in E as [[E1 E2]%andb_true_iff E3]. done.
Qed.

(** An open stream hands an input acknowledgement to the controls. *)
Lemma handle_ack_frame f ack s :
  input_ack f = Some ack -> ss_closed s = false ->
  s_handle options normalize f s = handleInputAck f ack s.
Proof.
  intros (Eo & Eu & Ed & Es & Ek)%input_ack_refused Ec. unfold s_handle, bind at 1, get. rewrite Ec, Eu.
  unfold in_stream, in_delivery, zoom, bind at 1.
  rewrite (delivery_refuses f (view delivery_lens s)).
  2:{ left. split; [done|]. intros a. rewrite Ed. intros [= <-]. lia. }
  cbn [existsb]. unfold handleControl. rewrite Eo. unfold handleAck. rewrite Ed, Es, Ek. cbn [negb].
  destruct s as [lk n c d cl].
  cbn [update delivery_lens view ds_delivery ds_nextCorrelationId ss_link ss_nextCorrelationId ss_controls
    ss_delivery ss_closed].
  by destruct (handleInputAck f ack _) as [[r s'] out].
Qed.

Lemma frame_moves f s :
  let '(_, s', out) := s_handle options normalize f s in
  moves route (apply_event (se_frame f) (ss_closed s) (inputs_of s)) s out s'.
Proof.
  unfold s_handle, bind at 1, get, apply_event. destruct (ss_closed s) eqn:Ec.
  { apply moves_aside; [by repeat split | done]. }
  destruct (unsupportedOpcode f) as [u|] eqn:Eu.
  { assert (input_ack f = None) as ->
      by (unfold input_ack; rewrite Eu; by destruct (opcode f)).
    assert (input_credit f = None) as -> by (unfold input_credit; rewrite Eu; by destruct (opcode f)).
    match goal with |- context [fail options ?t false] =>
      pose proof (closing_fail options t false s) as Hf end.
    destruct (fail options _ false s) as [[r s'] out]. exact Hf. }
  destruct (input_ack f) as [ack|] eqn:Ea; [|destruct (input_credit f) as [c|] eqn:Ecr].
  - pose proof (does_moves route _ _ _ s (does_input_ack f ack)) as Hm.
    rewrite <- (handle_ack_frame f ack s Ea Ec) in Hm.
    unfold s_handle, bind at 1, get in Hm. rewrite Ec, Eu in Hm. exact Hm.
  - apply input_credit_refused in Ecr as (Eo & _ & Ed & Es & Ek & Ei).
    unfold in_stream, in_delivery, zoom, bind at 1.
    rewrite (delivery_refuses f (view delivery_lens s)).
    2:{ right. split; [done|]. unfold outputCredit. rewrite Ed. by apply Z.eqb_eq in Es as ->. }
    cbn [existsb]. unfold handleControl. rewrite Eo. unfold handleCredit. rewrite Ed, Es, Ek, Ei.
    destruct s as [lk n ctl d cl]. split; [done|]. split; [cbn; lia|]. left. done.
  - pose proof (Closing_compositional route) as _.
    assert (Hc : Closing route unit (handled <- in_stream options (handle route normalize f) ;;
      if handled : bool then ret tt else handleControl options f)%eff).
    { apply (comp_bind (Q := Closing route)); [apply closing_in_stream, ending_handle|].
      intros [|]; [apply (comp_ret (Q := Closing route)) | by apply closing_control]. }
    specialize (Hc s). destruct (bind _ _ s) as [[r s'] out]. exact Hc.
Qed.
End frames.

(** ** Inputs sent *)

(** The input method an event calls: text, kind, whether a promise waits. *)
Definition input_call (e : stream_event) : option (jsstring * Z * bool) :=
  match e with
  | se_sendInput text => Some (text, 0, false)
  | se_sendInputAccepted text => Some (text, 0, true)
  | se_sendQueryReply text => Some (text, 1, false)
  | _ => None
  end.

(** An input frame within the window of [i], and what its acceptance changes. *)
Definition fits (i : inputs) (data : bytes) : Prop :=
  byteLength data <= i_frame i /\ i_sent i + byteLength data - i_acked i <= i_credit i.

Definition sent_inputs (i : inputs) (data : bytes) (id : Z) (promise : bool) : inputs :=
  mkInputs (i_sent i + byteLength data) (i_acked i) (i_credit i) (i_frame i)
    (pending_set (mkPendingInput id promise) (i_pending i)).

Definition input_frame_payload (kind : Z) (data : bytes) : bytes :=
  encodeTerminalMultiplexInputRecord (mkInput kind data).

Definition send_moves (route : Z) (text : jsstring) (kind : Z) (promise : bool)
    (s : stream_state) (out : list stream_effect) (s' : stream_state) : Prop :=
  stays route s out s'
  \/ (ss_closed s = false /\ ss_closed s' = false /\ ss_link s' = ss_link s
      /\ ss_nextCorrelationId s' = ss_nextCorrelationId s + 1
      /\ let data := text_encode text in
         let seq := i_sent (inputs_of s) + byteLength data in
         let id := ss_nextCorrelationId s in
         let p := input_frame_payload kind data in
         fits (inputs_of s) data
         /\ io out = [o_send Input route seq id p]
         /\ inputs_of s' = (if ss_link s Input route seq id p
                            then sent_inputs (inputs_of s) data id promise else inputs_of s)).

Section sends.
Context `{StreamSchemas} (options : RemoteTerminalStreamOptions) (normalize : jsstring -> jsstring).

Abbreviation route := (so_streamId options).

Lemma sendInputFrame_moves text kind promise s :
  ss_closed s = false ->
  let '(_, s', out) := sendInputFrame route text kind promise s in
  send_moves route text kind promise s out s'.
Proof.
  intros Ec. unfold sendInputFrame, bind at 1, get.
  destruct ((byteLength (text_encode text) >? inputMaxFrameBytes (ss_controls s))
    || (inputSeq (ss_controls s) - inputAckSeq (ss_controls s) + byteLength (text_encode text)
        >? inputCreditBytes (ss_controls s))) eqn:Eg.
  { left. apply moves_aside; [by repeat split | done]. }
  destruct s as [lk n c d cl]. unfold c_allocate, in_delivery, zoom, allocateCorrelationId, bind, get.
  cbn [view delivery_lens ds_nextCorrelationId ss_nextCorrelationId ss_delivery].
  destruct (n >? 0xffffffff) eqn:En.
  { cbn -[text_encode byteLength]. left. apply moves_aside; [apply same_inputs_refl | done]. }
  unfold c_send. cbn -[text_encode encodeTerminalMultiplexInputRecord byteLength] in *.
  destruct (lk Input _ _ n _) eqn:El; cbn -[text_encode encodeTerminalMultiplexInputRecord byteLength];
    right; unfold input_frame_payload, fits, inputs_of, sent_inputs;
    cbn -[text_encode encodeTerminalMultiplexInputRecord byteLength]; rewrite El;
    split_and!; done || lia.
Qed.

Lemma bind_ret {A B} (m : C A) (b : B) s :
  (m ;;; ret b)%eff s =
    (let '(r, s', out) := m s in (match r with Ret _ => Ret b | Exn x => Exn x end, s', out)).
Proof.
  unfold bind, ret. destruct (m s) as [[[x|x] s'] out]; [|done]. by rewrite app_nil_r.
Qed.

Lemma send_step e text kind promise s :
  input_call e = Some (text, kind, promise) ->
  let '(_, s', out) := stream_step options normalize e s in
  send_moves route text kind promise s out s'.
Proof.
  assert (Hs : forall A (d : A) (m : C A),
    (ss_closed s = false -> let '(_, s', out) := m s in send_moves route text kind promise s out s') ->
    let '(_, s', out) := (unless_closed d m ;;; ret tt)%eff s in
    send_moves route text kind promise s out s').
  { intros A d m Hm. rewrite bind_ret.
    unfold unless_closed, bind, get. destruct (ss_closed s) eqn:Ec.
    - left. apply moves_aside; [by repeat split | done].
    - specialize (Hm eq_refl). by destruct (m s) as [[r s'] out]. }
  assert (Hb : forall (m : C (option Z)) (k : option Z -> C bool),
    (forall x, k x = ret (is_sent x)) ->
    (let '(_, s', out) := m s in send_moves route text kind promise s out s') ->
    let '(_, s', out) := bind m k s in send_moves route text kind promise s out s').
  { intros m k Hk Hm. unfold bind. destruct (m s) as [[[x|x] s'] out]; [|done].
    rewrite Hk. cbn. by rewrite app_nil_r. }
  destruct e; intros [= <- <- <-]; cbn [stream_step]; apply Hs; intros Ec.
  - apply Hb; [done | by apply sendInputFrame_moves].
  - by apply sendInputFrame_moves.
  - apply Hb; [done | by apply sendInputFrame_moves].
Qed.

(** ** Every event *)

Lemma closing_unless {A} (d : A) (m : C A) :
  Closing route A m -> Closing route unit (unless_closed d m ;;; ret tt)%eff.
Proof.
  intros Hm. apply (comp_bind (Q := Closing route)); [|intros; apply (comp_ret (Q := Closing route))].
  apply (comp_bind (Q := Closing route)); [apply (comp_get (Q := Closing route))|].
  intros s. destruct (ss_closed s); [apply (comp_ret (Q := Closing route)) | done].
Qed.

Lemma closing_moves (m : C unit) s :
  Closing route unit m -> let '(_, s', out) := m s in moves route (inputs_of s, []) s out s'.
Proof. intros Hm. exact (Hm s). Qed.

Definition set_closed_state (s : stream_state) : stream_state :=
  mkStreamState (ss_link s) (ss_nextCorrelationId s) (ss_controls s) (ss_delivery s) true.

(** A permanent close of the transport closes the stream without telling its owner. *)
Lemma permanent_moves s :
  ss_closed s = false ->
  let '(_, s', out) := transportClosed options true s in
  ss_link s' = ss_link s /\ ss_nextCorrelationId s <= ss_nextCorrelationId s' /\ ss_closed s' = true
  /\ inputs_of s' = clear_inputs (inputs_of s) /\ io out = settle false (i_pending (inputs_of s)).
Proof.
  intros Ec. unfold transportClosed, bind at 1, get. rewrite Ec.
  pose proof (does_then route _ _ _ _ _ (set_closed_state s) does_clear (fun _ =>
    closing_aside route _ _ (comp_bind (Q := Aside) _ _ _ _ (aside_dispose options)
      (fun _ => aside_call onTransportClose)))) as Hm.
  unfold bind at 1, set_closed, modify. fold (set_closed_state s). unfold c_dispose.
  destruct (bind clearPendingInputs _ (set_closed_state s)) as [[r s'] out].
  destruct Hm as (E1 & E2 & [(E3 & E4 & E5)|(E3 & _)]); [|done].
  cbn [app]. by split_and!.
Qed.

Lemma transport_moves permanent s :
  permanent = false \/ ss_closed s = true ->
  let '(_, s', out) := transportClosed options permanent s in
  moves route (apply_event (se_transportClosed permanent) (ss_closed s) (inputs_of s)) s out s'.
Proof.
  unfold transportClosed, bind at 1, get. intros Hp. destruct (ss_closed s) eqn:Ec.
  { destruct permanent; cbn [apply_event]; (apply moves_aside; [apply same_inputs_refl | done]). }
  destruct Hp as [-> |[=]]. cbn [apply_event].
  pose proof (does_moves route _ _ _ s (does_epoch options)) as Hm.
  destruct (s_prepareForNewEpoch options s) as [[r s'] out]. exact Hm.
Qed.

Lemma timeout_moves id s :
  let '(_, s', out) := inputTimeout id s in
  moves route (apply_event (se_inputTimeout id) (ss_closed s) (inputs_of s)) s out s'.
Proof.
  unfold inputTimeout, bind at 1, get. cbn [apply_event inputs_of i_pending].
  destruct (pending_get id (pendingInputs (ss_controls s))) as [p|] eqn:Ep;
    [|by apply moves_aside; [repeat split|]].
  pose proof (does_take id false p s Ep) as Ht. revert Ht.
  assert (Hassoc : forall (a b : C unit) (k : C unit), (a ;;; b ;;; k)%eff s = ((a ;;; b) ;;; k)%eff s).
  { intros a b k. unfold bind. destruct (a s) as [[[u|x] s1] o1]; [|done].
    destruct (b s1) as [[[u1|x1] s2] o2]; [|done]. destruct (k s2) as [[r s3] o3].
    by rewrite app_assoc. }
  rewrite Hassoc. set (m := bind (upd_controls _) _). intros Ht.
  pose proof (does_bind_at _ _ _ _ m _ s Ht (fun _ => does_call
    (onError (literal (js "Remote terminal input acknowledgement timed out.")) None))) as Hb.
  unfold does_at in Hb. destruct (bind m _ s) as [[r s'] out].
  destruct Hb as (_ & E1 & E2 & Hn & E3 & E4). split; [done|]. split; [done|]. left.
  split; [done|]. cbn [app]. unfold then_inputs, take_inputs, no_change in E3, E4.
  cbn [inputs_of i_pending fst snd] in E3, E4. rewrite Ep, app_nil_r in E4. done.
Qed.

(** What every other event does to the inputs. *)
Lemma step_moves e s :
  input_call e = None -> e <> se_transportClosed true \/ ss_closed s = true ->
  let '(_, s', out) := stream_step options normalize e s in
  moves route (apply_event e (ss_closed s) (inputs_of s)) s out s'.
Proof.
  intros He Ht. destruct e; try done; cbn [stream_step].
  - apply frame_moves.
  - apply closing_moves, closing_unless, closing_aside. by apply aside_sendJson.
  - apply closing_moves, closing_unless, closing_aside. by apply aside_sendJson.
  - apply closing_moves, closing_unless, closing_aside, aside_setDeliveryState.
  - apply closing_moves, closing_unless, closing_aside. by apply aside_sendJson.
  - apply closing_moves, closing_unless, closing_aside, aside_kill.
  - apply closing_moves, closing_aside.
    apply comp_bind; [apply aside_serialize | intros; apply (comp_ret (Q := Aside))].
  - apply closing_moves, closing_close.
  - apply closing_moves, closing_aside.
    apply comp_bind; [apply aside_subscribe | intros; apply (comp_ret (Q := Aside))].
  - rewrite bind_ret. unfold resubscribe.
    pose proof (does_then route _ _ _ _ _ s (does_epoch options)
      (fun _ => closing_aside route _ _ (aside_subscribe options))) as Hm.
    destruct (bind _ _ s) as [[r s'] out]. exact Hm.
  - apply transport_moves. destruct permanent, Ht as [Ht|Ht]; auto; congruence.
  - apply closing_moves, closing_in_stream, ending_parsed.
  - apply closing_moves, closing_in_stream, safe_ending, Q_timer; auto with effects; apply _.
  - apply closing_moves, closing_in_stream, safe_ending, Q_manualTimeout; auto with effects; apply _.
  - apply timeout_moves.
Qed.
End sends.
