(* ===== verification/StreamFlow.v ===== *)
(** What the input side of a stream promises over whole runs: proofs on the steps of
    StreamInputs.v.

    - [input_window_respected]: the frames a stream sends refine a sliding window;
    - [input_promises_settled_once]: every promise of [sendInputAccepted] is settled
      exactly once, at the latest when the stream closes;
    - [stream_closes_once]: a stream closes once and is then silent;
    - [stale_rejection_desynchronises]: a defect of the rewinding after a rejection. *)

From stdpp Require Import base list.
From Stdlib Require Import ZArith Lia ZifyBool.
From S2P Require Import Prelude JsText Json Frame Records Recovery SideEffects Acks.
From S2P Require Import Snapshot Effects StreamRecords Delivery Controls Stream StreamInputs.

Open Scope Z_scope.

(** ** The window *)

(** The specification's state: whether the stream is closed, and the window, an
    [inputs] whose pending entries play no part. *)
Record window_spec := mkWindowSpec {
  ws_closed : bool;
  ws_window : inputs
}.

Definition spec_of (s : stream_state) : window_spec :=
  mkWindowSpec (ss_closed s) (clear_inputs (inputs_of s)).

Definition set_sent (q : Z) (w : inputs) : inputs :=
  mkInputs q (i_acked w) (i_credit w) (i_frame w) (i_pending w).

(** One effect: an input frame must carry a record of the wire format whose sequence
    continues the last one sent, within the frame limit and the credit; it advances
    the window if the connection took it. *)
Definition window_effect (route : Z) (l : link) (w : inputs) (o : stream_effect) : option inputs :=
  match o with
  | o_send Input r q id p =>
      match decodeTerminalMultiplexInputRecord p with
      | None => None
      | Some record =>
          let len := byteLength (input_data record) in
          if (r =? route) && (q =? i_sent w + len) && (len <=? i_frame w) && (q - i_acked w <=? i_credit w)
          then Some (if l Input r q id p then set_sent q w else w) else None
      end
  | _ => Some w
  end.

Definition window_effects (route : Z) (l : link) (out : list stream_effect) (w : inputs) : option inputs :=
  fold_left (fun acc o => w ← acc; window_effect route l w o) out (Some w).

Definition is_input_send (o : stream_effect) : bool :=
  match o with o_send Input _ _ _ _ => true | _ => false end.

Definition is_closed_effect (o : stream_effect) : bool :=
  match o with o_closed _ => true | _ => false end.

Definition closes (e : stream_event) (out : list stream_effect) : bool :=
  existsb is_closed_effect out
  || match e with se_transportClosed permanent => permanent | _ => false end.

(** One event: first what it does to the window, then the frames sent, none of them
    once the stream is closed. *)
Definition window_step (route : Z) (entry : link * stream_event * list stream_effect) (w : window_spec)
    : option window_spec :=
  let '(l, e, out) := entry in
  if ws_closed w && existsb is_input_send out then None else
  w1 ← window_effects route l out (fst (apply_event e (ws_closed w) (ws_window w)));
  Some (mkWindowSpec (ws_closed w || closes e out) (clear_inputs w1)).

Fixpoint window_run (route : Z) (log : list (link * stream_event * list stream_effect)) (w : window_spec)
    : option window_spec :=
  match log with
  | [] => Some w
  | entry :: rest => w1 ← window_step route entry w; window_run route rest w1
  end.

(** ** Promises *)

Definition requested_ids (entry : link * stream_event * list stream_effect) : list Z :=
  let '(l, e, out) := entry in
  match e with
  | se_sendInputAccepted _ =>
      out ≫= (fun o => match o with
                       | o_send Input r q id p => if l Input r q id p then [id] else []
                       | _ => [] end)
  | _ => []
  end.

Definition settled_ids (out : list stream_effect) : list Z :=
  out ≫= (fun o => match o with o_input id _ => [id] | _ => [] end).

Definition waiting (l : list PendingInput) : list Z := pi_correlationId <$> List.filter pi_resolve l.

(** ** Lemmas on the window *)

Lemma clear_apply e c i :
  clear_inputs (fst (apply_event e c (clear_inputs i))) = clear_inputs (fst (apply_event e c i)).
Proof.
  destruct e; try done; cbn [apply_event].
  - destruct c; [done|]. destruct (input_ack frame) as [ack|]; [|by destruct (input_credit frame)].
    unfold ack_inputs. by destruct (negb _).
  - by destruct permanent, c.
  - cbn. by destruct (pending_get id (i_pending i)).
Qed.

Lemma clear_clear i : clear_inputs (clear_inputs i) = clear_inputs i.
Proof. done. Qed.

Lemma frame_bound_event e c i :
  i_frame i <= 65536 -> i_frame (fst (apply_event e c i)) <= 65536.
Proof.
  intros Hi. destruct e; try done; cbn [apply_event].
  - destruct c; [done|]. destruct (input_ack frame) as [ack|].
    + unfold ack_inputs. by destruct (negb _).
    + destruct (input_credit frame); cbn; lia.
  - by destruct permanent, c.
  - by destruct (pending_get id (i_pending i)).
Qed.

(** Only tracked effects matter. *)
Lemma window_effects_io route l out w :
  window_effects route l (io out) w = window_effects route l out w.
Proof.
  unfold window_effects, io. generalize (Some w). induction out as [|o out IH]; intros acc; [done|].
  cbn [List.filter]. destruct (tracked o) eqn:Et; [apply IH|]. rewrite IH. cbn [fold_left]. f_equal.
  destruct acc as [v|]; [|done]. destruct o as [op| | | | |]; try done. by destruct op.
Qed.

Lemma exists_io f out :
  (forall o, f o = true -> tracked o = true) -> existsb f (io out) = existsb f out.
Proof.
  intros Hf. unfold io. induction out as [|o out IH]; [done|]. cbn. destruct (tracked o) eqn:Et.
  - cbn. by rewrite IH.
  - rewrite IH. destruct (f o) eqn:Ef; [|done]. apply Hf in Ef. congruence.
Qed.

Lemma settle_silent b l : existsb is_input_send (settle b l) = false /\ existsb is_closed_effect (settle b l) = false.
Proof. unfold settle. induction (List.filter pi_resolve l) as [|p k IH]; [done | exact IH]. Qed.

Lemma settle_window route l b k w : window_effects route l (settle b k) w = Some w.
Proof. unfold settle, window_effects. induction (List.filter pi_resolve k) as [|p r IH]; [done | exact IH]. Qed.

Lemma window_effects_app route l a b w :
  window_effects route l (a ++ b) w = (w1 ← window_effects route l a w; window_effects route l b w1).
Proof.
  unfold window_effects. rewrite fold_left_app. destruct (fold_left _ a (Some w)); [done|].
  cbn. induction b as [|o b IH]; [done | exact IH].
Qed.

(** The effects of [apply_event] settle promises. *)
Lemma apply_event_settles e c i : exists b l, snd (apply_event e c i) = settle b l.
Proof.
  assert (Hn : forall r : inputs, exists b l, snd (r, [] : list stream_effect) = settle b l)
    by (intros; by exists false, []).
  destruct e; try apply Hn; cbn [apply_event].
  - destruct c; [apply Hn|]. destruct (input_ack frame) as [ack|]; [|destruct (input_credit frame); apply Hn].
    unfold ack_inputs.
    destruct (pending_get _ _) as [p|]; destruct (negb _); cbn [snd];
      first [by exists (ack_status ack =? 0), [p] | by exists false, []].
  - by eexists _, _.
  - destruct permanent, c; try apply Hn. by eexists _, _.
  - destruct (pending_get id (i_pending i)) as [p|]; [|apply Hn]. by eexists _, _.
Qed.

Lemma permanent_dec e : {e = se_transportClosed true} + {e <> se_transportClosed true}.
Proof. destruct e; try (by right). destruct permanent; [by left | by right]. Qed.

Lemma closes_other e out :
  e <> se_transportClosed true -> closes e out = existsb is_closed_effect out.
Proof.
  intros He. unfold closes. destruct e; try apply orb_false_r. destruct permanent; [done | apply orb_false_r].
Qed.

Lemma closed_io out : existsb is_closed_effect (io out) = existsb is_closed_effect out.
Proof. apply exists_io. by intros []. Qed.

Lemma sends_io out : existsb is_input_send (io out) = existsb is_input_send out.
Proof. apply exists_io. by intros [[]| | | | |]. Qed.

Section window.
Context `{StreamSchemas} (options : RemoteTerminalStreamOptions) (normalize : jsstring -> jsstring).

Abbreviation route := (so_streamId options).

Definition event_ok (e : stream_event) : Prop :=
  match input_call e with Some (text, _, _) => Forall is_u16 text | None => True end.

(** What a step must keep for the window. *)
Definition window_ok (e : stream_event) (s : stream_state) (out : list stream_effect)
    (s' : stream_state) : Prop :=
  window_step route (ss_link s, e, out) (spec_of s) = Some (spec_of s')
  /\ i_frame (inputs_of s') <= 65536.

Lemma window_step_eq e s out w1 s' :
  existsb is_input_send out = false ->
  window_effects route (ss_link s) out (fst (apply_event e (ss_closed s) (clear_inputs (inputs_of s)))) = Some w1 ->
  ss_closed s' = ss_closed s || closes e out -> clear_inputs (inputs_of s') = clear_inputs w1 ->
  window_step route (ss_link s, e, out) (spec_of s) = Some (spec_of s').
Proof.
  intros Hs Hw Hc Hi. unfold window_step, spec_of. cbn [ws_closed ws_window]. rewrite Hs, andb_false_r, Hw.
  cbn. by rewrite Hc, Hi.
Qed.

Lemma window_moves e s out s' :
  e <> se_transportClosed true \/ ss_closed s = true ->
  i_frame (inputs_of s) <= 65536 ->
  moves route (apply_event e (ss_closed s) (inputs_of s)) s out s' -> window_ok e s out s'.
Proof.
  intros He Hf (_ & _ & Hm). destruct (apply_event_settles e (ss_closed s) (inputs_of s)) as (b & l & Es).
  pose proof (frame_bound_event e (ss_closed s) (inputs_of s) Hf) as Hb.
  pose proof (clear_apply e (ss_closed s) (inputs_of s)) as Hclr.
  destruct (apply_event e (ss_closed s) (inputs_of s)) as [i1 o1] eqn:Ea. cbn [fst snd] in *. subst o1.
  destruct (settle_silent b l) as [H1 H2].
  destruct Hm as [(Ec & Ei & Eo)|(Ec & Ei & tail & Eo & Ht)]; (split; [|by rewrite Ei]).
  - eapply window_step_eq.
    + by rewrite <- sends_io, Eo.
    + by rewrite <- window_effects_io, Eo, settle_window.
    + destruct He as [He|He]; [|by rewrite Ec, He].
      by rewrite closes_other, <- closed_io, Eo, H2, orb_false_r.
    + by rewrite Ei.
  - destruct He as [He|He]; [|congruence].
    destruct (settle_silent false (i_pending i1)) as [H3 H4].
    assert (Ht' : tail = [] \/ tail = [o_closed route]) by tauto.
    eapply window_step_eq.
    + rewrite <- sends_io, Eo, !existsb_app, H1, H3. by destruct Ht' as [-> | ->].
    + rewrite <- window_effects_io, Eo, window_effects_app, settle_window. cbn [mbind option_bind].
      rewrite window_effects_app, settle_window. cbn [mbind option_bind]. by destruct Ht' as [-> | ->].
    + rewrite Ec, closes_other, <- closed_io, Eo, !existsb_app, H2, H4 by done.
      by destruct Ht as [[-> ->]|[-> ->]].
    + by rewrite Ei.
Qed.

Lemma window_permanent s :
  ss_closed s = false -> i_frame (inputs_of s) <= 65536 ->
  let '(_, s', out) := stream_step options normalize (se_transportClosed true) s in
  window_ok (se_transportClosed true) s out s'.
Proof.
  intros Ec Hf. cbn [stream_step]. pose proof (permanent_moves options s Ec) as Hm.
  destruct (transportClosed options true s) as [[r s'] out]. destruct Hm as (E1 & _ & E2 & E3 & E4).
  destruct (settle_silent false (i_pending (inputs_of s))) as [H3 H4]. split; [|by rewrite E3].
  eapply window_step_eq.
  - by rewrite <- sends_io, E4.
  - by rewrite <- window_effects_io, E4, settle_window.
  - unfold closes. by rewrite orb_true_r, orb_true_r.
  - by rewrite E3.
Qed.

Lemma input_frame_decodes kind text :
  0 <= kind <= 1 -> Forall is_u16 text -> byteLength (text_encode text) <= 65536 ->
  decodeTerminalMultiplexInputRecord (input_frame_payload kind (text_encode text))
    = Some (mkInput kind (text_encode text)).
Proof.
  intros Hk Ht Hl. apply input_roundtrip. split; [done|]. cbn [input_data]. split.
  - pose proof (byteLength_nonneg (text_encode text)). unfold is_u32, U32_MAX. lia.
  - unfold isStrictUtf8. destruct (text_decode_encode_is_Some text Ht) as [u ->]. done.
Qed.

Lemma window_send e text kind promise s out s' :
  input_call e = Some (text, kind, promise) -> Forall is_u16 text ->
  i_frame (inputs_of s) <= 65536 ->
  send_moves route text kind promise s out s' -> window_ok e s out s'.
Proof.
  intros He Ht Hf [Hm|(E1 & E2 & E3 & E4 & [Hlen Hcr] & E5 & E6)].
  { assert (apply_event e (ss_closed s) (inputs_of s) = (inputs_of s, [])) as Ea by by destruct e.
    apply window_moves; [left; by destruct e | done | by rewrite Ea]. }
  set (data := text_encode text) in *. set (id := ss_nextCorrelationId s) in *.
  assert (Hk : 0 <= kind <= 1) by (destruct e; try done; injection He as <- <- <-; lia).
  split; [|rewrite E6; case_if; exact Hf]. unfold window_step, spec_of. cbn [ws_closed ws_window].
  rewrite E1. cbn [andb].
  assert (Hev : apply_event e false (clear_inputs (inputs_of s)) = (clear_inputs (inputs_of s), []))
    by by destruct e.
  rewrite Hev. cbn [fst]. rewrite <- window_effects_io, E5. unfold window_effects. cbn [fold_left mbind option_bind window_effect].
  assert (Hb : byteLength data <= 65536) by lia. pose proof (input_frame_decodes kind text Hk Ht Hb) as Hd.
  fold data in Hd. rewrite Hd. cbn [input_data clear_inputs i_sent i_acked i_credit i_frame].
  rewrite Z.eqb_refl, Z.eqb_refl, (proj2 (Z.leb_le _ _) Hlen), (proj2 (Z.leb_le _ _) Hcr). cbn [andb].
  assert (closes e out = false) as ->.
  { rewrite closes_other by by destruct e. by rewrite <- closed_io, E5. }
  rewrite E2, E6. cbn. by case_if.
Qed.

Lemma window_step_holds e s :
  event_ok e -> i_frame (inputs_of s) <= 65536 ->
  let '(_, s', out) := stream_step options normalize e s in window_ok e s out s'.
Proof.
  intros He Hf. destruct (input_call e) as [[[text kind] promise]|] eqn:Ei.
  - pose proof (send_step options normalize e text kind promise s Ei) as Hm.
    destruct (stream_step _ _ e s) as [[r s'] out]. unfold event_ok in He. rewrite Ei in He.
    by eapply window_send.
  - destruct (permanent_dec e) as [-> |Hp]; [destruct (ss_closed s) eqn:Ec; [|by apply window_permanent]|].
    + pose proof (step_moves options normalize (se_transportClosed true) s Ei (or_intror Ec)) as Hm.
      destruct (stream_step _ _ _ s) as [[r s'] out]. apply window_moves; auto.
    + pose proof (step_moves options normalize e s Ei (or_introl Hp)) as Hm.
      destruct (stream_step _ _ _ s) as [[r s'] out]. apply window_moves; auto.
Qed.
End window.

(** ** Lemmas on the promises *)

Definition ids (l : list PendingInput) : list Z := pi_correlationId <$> l.

Lemma settled_io out : settled_ids (io out) = settled_ids out.
Proof.
  unfold settled_ids, io. induction out as [|o out IH]; [done|]. cbn [List.filter].
  destruct o as [[]| | | | |]; cbn; try rewrite <- IH; done.
Qed.

Lemma settled_app a b : settled_ids (a ++ b) = settled_ids a ++ settled_ids b.
Proof. apply bind_app. Qed.

Lemma settled_settle b l : settled_ids (settle b l) = waiting l.
Proof.
  unfold settled_ids, settle, waiting. induction (List.filter pi_resolve l) as [|p k IH]; [done|].
  cbn. by rewrite <- IH.
Qed.

Lemma requested_io l e out : requested_ids (l, e, io out) = requested_ids (l, e, out).
Proof.
  destruct e; try done. unfold requested_ids, io. induction out as [|o out IH]; [done|]. cbn [List.filter].
  destruct o as [[]| | | | |]; cbn; try rewrite <- IH; done.
Qed.

Lemma waiting_app a b : waiting (a ++ b) = waiting a ++ waiting b.
Proof. unfold waiting. by rewrite List.filter_app, fmap_app. Qed.

Lemma pending_get_mem id l p : pending_get id l = Some p -> pi_correlationId p = id /\ p ∈ l.
Proof.
  induction l as [|q l IH]; [done|]. cbn. destruct (pi_correlationId q =? id) eqn:E.
  - intros [= ->]. apply Z.eqb_eq in E. split; [done | left].
  - intros H. destruct (IH H). split; [done | by right].
Qed.

Lemma pending_delete_perm id l p :
  NoDup (ids l) -> pending_get id l = Some p -> l ≡ₚ p :: pending_delete id l.
Proof.
  unfold pending_delete. induction l as [|q l IH]; [done|]. cbn. intros [Hn Hd]%NoDup_cons.
  destruct (pi_correlationId q =? id) eqn:E; cbn.
  - intros [= ->]. apply Z.eqb_eq in E. change (List.filter _ l) with (pending_delete id l).
    rewrite pending_delete_absent; [done|]. subst id. clear -Hn.
    induction l as [|x l IH]; [done|]. cbn. destruct (pi_correlationId x =? _) eqn:E.
    + apply Z.eqb_eq in E. cbn in Hn. rewrite <- E in Hn. exfalso. apply Hn. left.
    + apply IH. intros H. apply Hn. by right.
  - intros H. rewrite (IH Hd H) at 1. by rewrite Permutation_swap.
Qed.

Lemma pending_delete_ids id l : ids (pending_delete id l) `sublist_of` ids l.
Proof.
  unfold ids, pending_delete. induction l as [|q l IH]; [done|]. cbn.
  destruct (pi_correlationId q =? id); cbn; by constructor.
Qed.

Lemma pending_set_fresh p l : pi_correlationId p ∉ ids l -> pending_set p l = l ++ [p].
Proof.
  induction l as [|q l IH]; [done|]. cbn. intros [Hn Hr]%not_elem_of_cons.
  rewrite (proj2 (Z.eqb_neq _ _)) by done. by rewrite IH.
Qed.

Lemma waiting_perm a b : a ≡ₚ b -> waiting a ≡ₚ waiting b.
Proof.
  intros H. unfold waiting. apply fmap_Permutation.
  induction H as [|x k l _ IH|x y l|k l m _ IH1 _ IH2]; cbn; [done| | |by etrans].
  - destruct (pi_resolve x); [by constructor | done].
  - destruct (pi_resolve x), (pi_resolve y); try done. apply perm_swap.
Qed.

Lemma take_settles id accepted i :
  NoDup (ids (i_pending i)) ->
  let '(i', out) := take_inputs id accepted i in
  settled_ids out ++ waiting (i_pending i') ≡ₚ waiting (i_pending i)
  /\ ids (i_pending i') `sublist_of` ids (i_pending i).
Proof.
  intros Hd. unfold take_inputs. cbn [i_pending]. split; [|apply pending_delete_ids].
  destruct (pending_get id (i_pending i)) as [p|] eqn:Ep.
  - rewrite settled_settle, <- waiting_app. cbn [app]. apply waiting_perm. symmetry.
    by apply pending_delete_perm.
  - by rewrite pending_delete_absent.
Qed.

(** [apply_event] settles what it removes. *)
Lemma apply_event_promises e c i :
  NoDup (ids (i_pending i)) ->
  let '(i', out) := apply_event e c i in
  settled_ids out ++ waiting (i_pending i') ≡ₚ waiting (i_pending i)
  /\ ids (i_pending i') `sublist_of` ids (i_pending i)
  /\ requested_ids (fun _ _ _ _ _ => true, e, out) = [].
Proof.
  intros Hd. destruct e; cbn [apply_event]; try by split_and!.
  - destruct c; [by split_and!|]. destruct (input_ack frame) as [ack|];
      [|destruct (input_credit frame); by split_and!].
    pose proof (take_settles (correlationId frame) (ack_status ack =? 0) i Hd) as Ht.
    unfold take_inputs in Ht. unfold ack_inputs.
    destruct Ht. destruct (negb _); by split_and!.
  - rewrite settled_settle. cbn. by rewrite app_nil_r; split_and!; try apply sublist_nil_l.
  - destruct permanent, c; try by split_and!. rewrite settled_settle. cbn. rewrite app_nil_r.
    split_and!; try done. apply sublist_nil_l.
  - pose proof (take_settles id false i Hd) as Ht. unfold take_inputs in Ht.
    destruct Ht as [Ht1 Ht2]. destruct (pending_get id (i_pending i)) eqn:Ep; [by split_and!|].
    by split_and!.
Qed.

Definition promises_ok (s : stream_state) : Prop :=
  NoDup (ids (i_pending (inputs_of s)))
  /\ Forall (fun id => id < ss_nextCorrelationId s) (ids (i_pending (inputs_of s)))
  /\ (ss_closed s = true -> i_pending (inputs_of s) = []).

(** What a step does to the promises. *)
Definition promises_step (e : stream_event) (s : stream_state) (out : list stream_effect)
    (s' : stream_state) : Prop :=
  let requested := requested_ids (ss_link s, e, out) in
  promises_ok s' /\ ss_nextCorrelationId s <= ss_nextCorrelationId s'
  /\ NoDup requested
  /\ Forall (fun id => ss_nextCorrelationId s <= id < ss_nextCorrelationId s') requested
  /\ settled_ids out ++ waiting (i_pending (inputs_of s'))
       ≡ₚ waiting (i_pending (inputs_of s)) ++ requested.

Lemma settle_requests l e b k : requested_ids (l, e, settle b k) = [].
Proof.
  destruct e; try done. cbn. unfold settle. induction (List.filter pi_resolve k) as [|p r IH]; [done | exact IH].
Qed.

Lemma requested_app l e a b : requested_ids (l, e, a ++ b) = requested_ids (l, e, a) ++ requested_ids (l, e, b).
Proof. destruct e; try done. cbn. apply bind_app. Qed.

Lemma sublist_below l k (n m : Z) :
  k `sublist_of` l -> n <= m -> Forall (fun id => id < n) l -> Forall (fun id => id < m) k.
Proof.
  intros Hs Hn Hl. apply Forall_forall. intros x Hx.
  rewrite Forall_forall in Hl. specialize (Hl x (elem_of_sublist _ _ _ Hx Hs)). cbn in Hl. lia.
Qed.

Section promises.
Context `{StreamSchemas} (options : RemoteTerminalStreamOptions) (normalize : jsstring -> jsstring).

Abbreviation route := (so_streamId options).

Lemma promises_clear e s out s' b l i1 tail :
  promises_ok s -> ss_nextCorrelationId s <= ss_nextCorrelationId s' ->
  settled_ids (settle b l) ++ waiting (i_pending i1) ≡ₚ waiting (i_pending (inputs_of s)) ->
  inputs_of s' = clear_inputs i1 -> io out = settle b l ++ settle false (i_pending i1) ++ tail ->
  tail = [] \/ tail = [o_closed route] -> promises_step e s out s'.
Proof.
  intros Hok Hn Hp Ei Eo Ht. unfold promises_step.
  assert (requested_ids (ss_link s, e, out) = []) as ->.
  { rewrite <- requested_io, Eo, !requested_app, !settle_requests. destruct e; try done. by destruct Ht as [-> | ->]. }
  unfold promises_ok. rewrite Ei. cbn [i_pending clear_inputs ids fmap list_fmap].
  rewrite <- settled_io, Eo, !settled_app, settled_settle, (settled_settle false), !app_nil_r.
  split_and!; try done; try by constructor.
  rewrite settled_settle in Hp. destruct Ht as [-> | ->]; cbn; by rewrite ?app_nil_r, Hp.
Qed.

Lemma promises_moves e s out s' :
  promises_ok s -> moves route (apply_event e (ss_closed s) (inputs_of s)) s out s' ->
  promises_step e s out s'.
Proof.
  intros Hok (_ & Hn & Hm). pose proof Hok as (Hd & Hl & Hc).
  destruct (apply_event_settles e (ss_closed s) (inputs_of s)) as (b & l & Es).
  pose proof (apply_event_promises e (ss_closed s) (inputs_of s) Hd) as Hp.
  destruct (apply_event e (ss_closed s) (inputs_of s)) as [i1 o1] eqn:Ea. cbn [fst snd] in *. subst o1.
  destruct Hp as (Hp & Hsub & _).
  destruct Hm as [(Ec & Ei & Eo)|(Ec & Ei & tail & Eo & Ht)];
    [|eapply promises_clear; try done; tauto].
  unfold promises_step. rewrite <- requested_io, Eo, settle_requests, <- settled_io, Eo, app_nil_r, Ei.
  split_and!; try done; try by constructor.
  split_and!; rewrite ?Ei.
  - by eapply sublist_NoDup.
  - by eapply sublist_below.
  - intros E. rewrite Ec in E. rewrite (Hc E) in Hsub. by apply sublist_nil_r in Hsub; destruct (i_pending i1).
Qed.

Lemma promises_send e text kind promise s out s' :
  input_call e = Some (text, kind, promise) -> promises_ok s ->
  send_moves route text kind promise s out s' -> promises_step e s out s'.
Proof.
  intros He Hok [Hm|(E1 & E2 & E3 & E4 & _ & E5 & E6)].
  { assert (apply_event e (ss_closed s) (inputs_of s) = (inputs_of s, [])) as Ea by by destruct e.
    apply promises_moves; [done | by rewrite Ea]. }
  destruct Hok as (Hd & Hl & Hc). unfold promises_step.
  set (id := ss_nextCorrelationId s) in *. set (i := inputs_of s) in *.
  assert (Hfresh : id ∉ ids (i_pending i)).
  { intros Hin. rewrite Forall_forall in Hl. specialize (Hl id Hin). cbn in Hl. lia. }
  rewrite <- requested_io, E5, <- settled_io, E5. cbn [settled_ids mbind list_bind app].
  destruct (ss_link s Input route _ id _) eqn:Elink; rewrite E6.
  - assert (Hset : i_pending (sent_inputs i (text_encode text) id promise) = i_pending i ++ [mkPendingInput id promise])
      by by apply pending_set_fresh.
    assert (Hreq : requested_ids (ss_link s, e, [o_send Input route (i_sent i + byteLength (text_encode text)) id
        (input_frame_payload kind (text_encode text))]) = if promise then [id] else []).
    { destruct e; try done; injection He as <- <- <-; [done| |done]. cbn [requested_ids mbind list_bind].
      by rewrite Elink. }
    rewrite Hreq, Hset, waiting_app. split; [|split; [lia|]; split; [|split]].
    + unfold promises_ok. rewrite E6, Hset. unfold ids. rewrite fmap_app. split; [|split].
      * apply NoDup_app. split; [done|]. split; [|apply NoDup_singleton].
        intros x Hx [->|[]%elem_of_nil]%elem_of_cons. done.
      * rewrite E4. apply Forall_app. split; [|constructor; [cbn; lia | constructor]].
        eapply sublist_below; [reflexivity | | exact Hl]. lia.
      * intros E. congruence.
    + destruct promise; [apply NoDup_singleton | constructor].
    + destruct promise; [constructor; [lia | constructor] | constructor].
    + unfold waiting at 2. cbn. by destruct promise.
  - assert (requested_ids (ss_link s, e, [o_send Input route (i_sent i + byteLength (text_encode text)) id
        (input_frame_payload kind (text_encode text))]) = []) as ->.
    { destruct e; try done. cbn [requested_ids mbind list_bind]. by rewrite Elink. }
    rewrite app_nil_r. split_and!; try done; try lia; try by constructor.
    unfold promises_ok. rewrite E6. split_and!; try done; [|by congruence].
    eapply sublist_below; [reflexivity | | exact Hl]. lia.
Qed.

Lemma promises_step_holds e s :
  promises_ok s ->
  let '(_, s', out) := stream_step options normalize e s in promises_step e s out s'.
Proof.
  intros Hok. destruct (input_call e) as [[[text kind] promise]|] eqn:Ei.
  - pose proof (send_step options normalize e text kind promise s Ei) as Hm.
    destruct (stream_step _ _ e s) as [[r s'] out]. by eapply promises_send.
  - assert (Hc : e <> se_transportClosed true \/ ss_closed s = true \/ (e = se_transportClosed true /\ ss_closed s = false)).
    { destruct (permanent_dec e); destruct (ss_closed s); auto. }
    destruct Hc as [Hc|[Hc|[-> Hc]]].
    + pose proof (step_moves options normalize e s Ei (or_introl Hc)) as Hm.
      destruct (stream_step _ _ _ s) as [[r s'] out]. by apply promises_moves.
    + pose proof (step_moves options normalize e s Ei (or_intror Hc)) as Hm.
      destruct (stream_step _ _ _ s) as [[r s'] out]. by apply promises_moves.
    + cbn [stream_step]. pose proof (permanent_moves options s Hc) as Hm.
      destruct (transportClosed options true s) as [[r s'] out]. destruct Hm as (_ & Hn & _ & E3 & E4).
      eapply (promises_clear _ s out s' false [] (inputs_of s) []); try done; [|by auto].
      by rewrite E4, app_nil_r.
Qed.
End promises.

(** ** Closing *)

Definition closed_effects (out : list stream_effect) : list stream_effect := List.filter is_closed_effect out.

Lemma closed_effects_io out : closed_effects (io out) = closed_effects out.
Proof.
  unfold closed_effects, io. induction out as [|o out IH]; [done|]. cbn [List.filter].
  destruct o as [[]| | | | |]; cbn; try rewrite IH; done.
Qed.

Lemma closed_effects_app a b : closed_effects (a ++ b) = closed_effects a ++ closed_effects b.
Proof. apply List.filter_app. Qed.

Lemma closed_effects_settle b l : closed_effects (settle b l) = [].
Proof. unfold closed_effects, settle. induction (List.filter pi_resolve l) as [|p k IH]; [done | exact IH]. Qed.

Definition closing_step (route : Z) (s : stream_state) (out : list stream_effect) (s' : stream_state) : Prop :=
  (closed_effects out = [] /\ (ss_closed s = true -> ss_closed s' = true))
  \/ (closed_effects out = [o_closed route] /\ ss_closed s = false /\ ss_closed s' = true).

Section closing.
Context `{StreamSchemas} (options : RemoteTerminalStreamOptions) (normalize : jsstring -> jsstring).

Abbreviation route := (so_streamId options).

Lemma closing_moves_step e s out s' :
  moves route (apply_event e (ss_closed s) (inputs_of s)) s out s' -> closing_step route s out s'.
Proof.
  intros (_ & _ & Hm). destruct (apply_event_settles e (ss_closed s) (inputs_of s)) as (b & l & Es).
  destruct Hm as [(Ec & _ & Eo)|(Ec & _ & tail & Eo & Ht)]; unfold closing_step;
    rewrite <- closed_effects_io, Eo, Es.
  - left. rewrite closed_effects_settle. split; [done | congruence].
  - rewrite !closed_effects_app, !closed_effects_settle. cbn [app].
    destruct Ht as [[-> E]|[-> E]]; [left | by right]. split; [done | congruence].
Qed.

Lemma closing_step_holds e s :
  let '(_, s', out) := stream_step options normalize e s in closing_step route s out s'.
Proof.
  destruct (input_call e) as [[[text kind] promise]|] eqn:Ei.
  - pose proof (send_step options normalize e text kind promise s Ei) as Hm.
    destruct (stream_step _ _ e s) as [[r s'] out]. destruct Hm as [Hm|(E1 & E2 & _ & _ & _ & E5 & _)].
    + apply (closing_moves_step e).
      by assert (apply_event e (ss_closed s) (inputs_of s) = (inputs_of s, [])) as -> by by destruct e.
    + left. rewrite <- closed_effects_io, E5. split; [done | congruence].
  - destruct (permanent_dec e) as [-> |Hp]; [destruct (ss_closed s) eqn:Ec|].
    + pose proof (step_moves options normalize _ s Ei (or_intror Ec)) as Hm.
      destruct (stream_step _ _ _ s) as [[r s'] out]. by eapply closing_moves_step.
    + cbn [stream_step]. pose proof (permanent_moves options s Ec) as Hm.
      destruct (transportClosed options true s) as [[r s'] out]. destruct Hm as (_ & _ & E2 & _ & E4).
      left. rewrite <- closed_effects_io, E4, closed_effects_settle. done.
    + pose proof (step_moves options normalize e s Ei (or_introl Hp)) as Hm.
      destruct (stream_step _ _ _ s) as [[r s'] out]. by eapply closing_moves_step.
Qed.

(** The events that reach a stream from its owner, the user and the connection;
    the others come from the renderer and the timers. *)
Definition outer_event (e : stream_event) : bool :=
  match e with
  | se_subscribe | se_resubscribe | se_parsed _ | se_ackTimer | se_manualTimeout _ | se_inputTimeout _ => false
  | _ => true
  end.
End closing.

(** ** Runs *)

Definition log_effects (log : list (link * stream_event * list stream_effect)) : list stream_effect :=
  log ≫= snd.

Section runs.
Context `{StreamSchemas} (options : RemoteTerminalStreamOptions) (normalize : jsstring -> jsstring).

Abbreviation route := (so_streamId options).

Lemma promises_run events : forall s,
  promises_ok s ->
  let '(s', log) := stream_run options normalize events s in
  promises_ok s' /\ ss_nextCorrelationId s <= ss_nextCorrelationId s'
  /\ NoDup (log ≫= requested_ids)
  /\ Forall (fun id => ss_nextCorrelationId s <= id < ss_nextCorrelationId s') (log ≫= requested_ids)
  /\ settled_ids (log_effects log) ++ waiting (i_pending (inputs_of s'))
       ≡ₚ waiting (i_pending (inputs_of s)) ++ (log ≫= requested_ids).
Proof.
  induction events as [|[l e] events IH]; intros s Hok; cbn [stream_run].
  { cbn. rewrite app_nil_r. split_and!; try done; try lia; constructor. }
  pose proof (promises_step_holds options normalize e (with_link l s) Hok) as Hs.
  destruct (stream_step _ _ e (with_link l s)) as [[r s1] out].
  destruct Hs as (Hok1 & Hn1 & Hd1 & Hf1 & Hp1). cbn [with_link ss_link ss_nextCorrelationId] in *.
  specialize (IH s1 Hok1). destruct (stream_run _ _ events s1) as [s2 log].
  destruct IH as (Hok2 & Hn2 & Hd2 & Hf2 & Hp2). split; [done|]. split; [lia|].
  cbn [mbind list_bind]. split; [|split].
  - apply NoDup_app. split; [done|]. split; [|done]. intros x Hx Hx2.
    rewrite Forall_forall in Hf1, Hf2. specialize (Hf1 x Hx). specialize (Hf2 x Hx2). cbn in Hf1, Hf2. lia.
  - apply Forall_app. split; eapply Forall_impl; try eassumption; cbn; lia.
  - unfold log_effects in *. cbn [mbind list_bind snd]. rewrite settled_app, <- app_assoc, Hp2, app_assoc, Hp1.
    by rewrite <- app_assoc.
Qed.

Lemma closing_run events : forall s,
  let '(s', log) := stream_run options normalize events s in closing_step route s (log_effects log) s'.
Proof.
  induction events as [|[l e] events IH]; intros s; cbn [stream_run]; [by left|].
  pose proof (closing_step_holds options normalize e (with_link l s)) as Hs.
  destruct (stream_step _ _ e (with_link l s)) as [[r s1] out].
  specialize (IH s1). destruct (stream_run _ _ events s1) as [s2 log]. unfold closing_step, log_effects in *.
  cbn [mbind list_bind snd with_link ss_closed] in *. rewrite closed_effects_app.
  destruct Hs as [[-> H1]|(-> & H1 & H2)], IH as [[-> H3]|(-> & H3 & H4)]; cbn [app];
    [left; auto | right; split_and!; auto | right; split_and!; auto |].
  - destruct (ss_closed s); [rewrite H1 in H3 by done; done | done].
  - congruence.
Qed.
(** An open stream takes an input that fits, when the connection does. *)
Lemma send_accepted text s :
  ss_closed s = false -> ss_nextCorrelationId s <= 0xffffffff -> fits (inputs_of s) (text_encode text) ->
  (forall op r n id p, ss_link s op r n id p = true) ->
  let '(_, s', out) := stream_step options normalize (se_sendInput text) s in
  ss_closed s' = false
  /\ inputs_of s' = sent_inputs (inputs_of s) (text_encode text) (ss_nextCorrelationId s) false
  /\ o_send Input route (i_sent (inputs_of s) + byteLength (text_encode text)) (ss_nextCorrelationId s)
       (input_frame_payload 0 (text_encode text)) ∈ out.
Proof.
  intros Hc Hn [Hf1 Hf2] Hl. cbn [stream_step]. destruct s as [lk n c d cl].
  cbn [ss_closed ss_nextCorrelationId ss_link inputs_of ss_controls i_frame i_credit i_sent i_acked] in *. subst cl.
  unfold unless_closed, sendInput, sendInputFrame, c_allocate, in_delivery, zoom, allocateCorrelationId,
    c_send, bind, get.
  cbn [ss_closed ss_controls view delivery_lens ds_nextCorrelationId ss_nextCorrelationId ss_delivery].
  replace (byteLength (text_encode text) >? inputMaxFrameBytes c) with false by lia.
  replace (inputSeq c - inputAckSeq c + byteLength (text_encode text) >? inputCreditBytes c) with false by lia.
  cbn -[text_encode encodeTerminalMultiplexInputRecord byteLength].
  replace (n >? 4294967295) with false by lia.
  cbn -[text_encode encodeTerminalMultiplexInputRecord byteLength]. rewrite Hl.
  cbn -[text_encode encodeTerminalMultiplexInputRecord byteLength].
  split; [done|]. split; [done | left].
Qed.

Lemma ack_step f a s :
  input_ack f = Some a -> ss_closed s = false ->
  let '(_, s', _) := stream_step options normalize (se_frame f) s in
  ss_closed s' = false /\ inputs_of s' = fst (ack_inputs f a (inputs_of s)).
Proof.
  intros Hf Hc. cbn [stream_step]. rewrite (handle_ack_frame options normalize f a s Hf Hc).
  pose proof (does_input_ack f a s) as Hd. unfold does_at in Hd.
  destruct (handleInputAck f a s) as [[r s'] out].
  destruct Hd as (_ & _ & E & _ & Hi & _). split; [congruence | done].
Qed.
End runs.

(** ** Properties *)

(** C15. Input flow control refines a sliding window.  Along any run of a stream,
    from any state, every Input frame offered to the connection decodes to a record
    whose sequence is the last accepted sequence plus its length, within the host's
    frame limit and within the credit beyond the acknowledged sequence; the window
    moves with accepted frames, input acknowledgements, input credits and epochs and
    with nothing else, and no Input frame follows the closing of the stream. *)
Theorem input_window_respected `{StreamSchemas} options normalize events s :
  Forall (fun le => event_ok (snd le)) events -> i_frame (inputs_of s) <= 65536 ->
  let '(s', log) := stream_run options normalize events s in
  window_run (so_streamId options) log (spec_of s) = Some (spec_of s').
Proof.
  revert s. induction events as [|[l e] events IH]; intros s Hev Hf; cbn [stream_run]; [done|].
  apply Forall_cons in Hev as [He Hev].
  pose proof (window_step_holds options normalize e (with_link l s) He Hf) as Hs.
  destruct (stream_step _ _ e (with_link l s)) as [[r s1] out]. destruct Hs as [Hs Hf1].
  specialize (IH s1 Hev Hf1). destruct (stream_run _ _ events s1) as [s2 log].
  cbn [window_run]. change (spec_of (with_link l s)) with (spec_of s) in Hs.
  cbn [with_link ss_link] in Hs. rewrite Hs. exact IH.
Qed.

(** C40. Every promise of [sendInputAccepted] is settled exactly once.  Along any run
    of a new stream the ids of the inputs sent with a promise are distinct, and they
    are the settled ones together with the ones still waiting, each once; when the
    stream is closed none is waiting. *)
Theorem input_promises_settled_once `{StreamSchemas} options normalize events l n :
  let '(s', log) := stream_run options normalize events (newStream l n) in
  NoDup (log ≫= requested_ids)
  /\ settled_ids (log_effects log) ++ waiting (pendingInputs (ss_controls s')) ≡ₚ (log ≫= requested_ids)
  /\ (ss_closed s' = true -> waiting (pendingInputs (ss_controls s')) = []).
Proof.
  assert (Hok : promises_ok (newStream l n)) by (split_and!; [constructor | constructor | done]).
  pose proof (promises_run options normalize events (newStream l n) Hok) as Hr.
  destruct (stream_run _ _ events _) as [s' log]. destruct Hr as ((_ & _ & Hc) & _ & Hd & _ & Hp).
  split; [done|]. split; [exact Hp|]. intros E. cbn [inputs_of i_pending] in Hc. by rewrite (Hc E).
Qed.

(** A stream closes once: along any run [onClose] of its owner is called at most
    once, and only by a stream that was open and is closed from then on; and a closed
    stream ignores frames, the methods of the public object, [close] and
    [transportClosed]: they change nothing and have no effect. *)
Theorem stream_closes_once `{StreamSchemas} options normalize events s :
  (let '(s', log) := stream_run options normalize events s in
   closed_effects (log_effects log) = [] /\ (ss_closed s = true -> ss_closed s' = true)
   \/ closed_effects (log_effects log) = [o_closed (so_streamId options)]
      /\ ss_closed s = false /\ ss_closed s' = true)
  /\ (forall e, ss_closed s = true -> outer_event e = true ->
      stream_step options normalize e s = (Ret tt, s, [])).
Proof.
  split; [apply closing_run|]. intros e Hc He.
  destruct e; try done; cbn [stream_step]; unfold s_handle, serializeBuffer, s_close, transportClosed,
    unless_closed, bind, get; by rewrite Hc.
Qed.

(** A rejection that arrives late rewinds the input sequence behind a frame
    already sent.  A stream whose input was rejected at [q] sends a new input, which
    the connection takes; then the rejection of another input sent before arrives,
    then the acceptance of the new one: the stream now believes more bytes
    acknowledged than it has sent, and its next input carries a sequence the host has
    already passed. *)
Theorem stale_rejection_desynchronises `{StreamSchemas} options normalize l text f2 f3 a2 a3 q s :
  let len := byteLength (text_encode text) in
  ss_closed s = false -> ss_nextCorrelationId s <= 0xffffffff ->
  i_sent (inputs_of s) = q -> i_acked (inputs_of s) = q -> fits (inputs_of s) (text_encode text) ->
  (forall op r n id p, l op r n id p = true) ->
  input_ack f2 = Some a2 -> ack_status a2 <> 0 -> ack_cumulativeSeq a2 = q ->
  input_ack f3 = Some a3 -> ack_status a3 = 0 -> ack_cumulativeSeq a3 = q + len ->
  let '(s', log) := stream_run options normalize
    [(l, se_sendInput text); (l, se_frame f2); (l, se_frame f3)] s in
  o_send Input (so_streamId options) (q + len) (ss_nextCorrelationId s)
    (input_frame_payload 0 (text_encode text)) ∈ log_effects log
  /\ i_sent (inputs_of s') = q /\ i_acked (inputs_of s') = q + len.
Proof.
  intros len Hc Hn <- Ha Hf Hl H2 S2 Q2 H3 S3 Q3.
  assert (Hlen : 0 <= len) by apply byteLength_nonneg.
  cbn [stream_run]. pose proof (send_accepted options normalize text (with_link l s)) as Hs.
  destruct (stream_step _ _ (se_sendInput text) _) as [[r0 s1] out1].
  destruct Hs as (C1 & I1 & O1); [done|done|done|intros; apply Hl|].
  pose proof (ack_step options normalize f2 a2 (with_link l s1) H2 C1) as Hs.
  destruct (stream_step _ _ (se_frame f2) _) as [[r1 s2] out2]. destruct Hs as [C2 I2].
  pose proof (ack_step options normalize f3 a3 (with_link l s2) H3 C2) as Hs.
  destruct (stream_step _ _ (se_frame f3) _) as [[r2 s3] out3]. destruct Hs as [C3 I3].
  split; [unfold log_effects; cbn [mbind list_bind snd]; rewrite elem_of_app; left; exact O1|].
  change (inputs_of (with_link l s1)) with (inputs_of s1) in I2.
  change (inputs_of (with_link l s2)) with (inputs_of s2) in I3. rewrite I3. unfold ack_inputs at 1 2.
  rewrite I2. unfold ack_inputs.
  rewrite (proj2 (Z.eqb_neq _ _) S2), S3, Q2, Q3. cbn. split; [done | lia].
Qed.

(** ** Witnesses *)

Definition sample_options : RemoteTerminalStreamOptions :=
  mkStreamOptions 1 [0x74] [0x67] [0x63] client_desktop None.

Definition open_link : link := fun _ _ _ _ _ => true.

Definition sample_frame (op : TerminalMultiplexOpcode) (q id : Z) (p : bytes) : TerminalMultiplexFrame :=
  mkFrame op None 1 1 q id p.

Definition credit_frame (n : Z) : TerminalMultiplexFrame :=
  sample_frame Credit 0 0 (encodeTerminalMultiplexCreditRecord (mkCredit 1 0 n n 65536)).

Definition input_ack_frame (status q id : Z) : TerminalMultiplexFrame :=
  sample_frame Ack q id (encodeTerminalMultiplexAckRecord (mkAck 1 status 0 0 q 0)).

(** Two inputs, one refused by the window, an acknowledgement, a close. *)
Definition sample_inputs : list (link * stream_event) :=
  (open_link,.) <$>
    [se_frame (credit_frame 3); se_sendInputAccepted [0x61; 0x62]; se_sendInputAccepted [0x63; 0x64];
     se_frame (input_ack_frame 0 2 1); se_sendInputAccepted [0xe9]; se_close].

Definition sample_run : stream_state * list (link * stream_event * list stream_effect) :=
  stream_run (H := sample_schemas) sample_options id sample_inputs (newStream open_link 1).

Lemma input_window_respected_witness :
  i_sent (inputs_of (fst sample_run)) = 4
  /\ window_run 1 (snd sample_run) (spec_of (newStream open_link 1)) = Some (spec_of (fst sample_run)).
Proof.
  split; [vm_compute; reflexivity|].
  pose proof (input_window_respected (H := sample_schemas) sample_options id sample_inputs
    (newStream open_link 1)) as Hw.
  unfold sample_run. destruct (stream_run _ _ sample_inputs _) as [s' log]. apply Hw.
  - repeat constructor; try discriminate; vm_compute; discriminate.
  - cbn. lia.
Defined.

Lemma input_promises_settled_once_witness :
  snd sample_run ≫= requested_ids = [1; 2]
  /\ settled_ids (log_effects (snd sample_run)) ≡ₚ [1; 2].
Proof.
  pose proof (input_promises_settled_once (H := sample_schemas) sample_options id sample_inputs open_link 1) as Hw.
  assert (Hr : snd sample_run ≫= requested_ids = [1; 2]) by (vm_compute; reflexivity).
  assert (Hc : ss_closed (fst sample_run) = true) by (vm_compute; reflexivity).
  split; [done|]. unfold sample_run in *. destruct (stream_run _ _ sample_inputs _) as [s' log].
  destruct Hw as (_ & Hp & He). cbn [fst snd] in *. rewrite (He Hc), app_nil_r, Hr in Hp. exact Hp.
Defined.

Lemma stream_closes_once_witness :
  closed_effects (log_effects (snd sample_run)) = [o_closed 1]
  /\ stream_step (H := sample_schemas) sample_options id se_close (fst sample_run) = (Ret tt, fst sample_run, []).
Proof.
  split; [vm_compute; reflexivity|].
  apply (stream_closes_once (H := sample_schemas) sample_options id [] (fst sample_run)); vm_compute; reflexivity.
Defined.

(** A stream with 100 bytes of credit, nothing in flight. *)
Definition sample_open : stream_state :=
  fst (stream_run (H := sample_schemas) sample_options id
         [(open_link, se_frame (credit_frame 100))] (newStream open_link 1)).

Definition sample_stale : stream_state * list (link * stream_event * list stream_effect) :=
  stream_run (H := sample_schemas) sample_options id
    [(open_link, se_sendInput [0x61; 0x62]); (open_link, se_frame (input_ack_frame 1 0 7));
     (open_link, se_frame (input_ack_frame 0 2 1))] sample_open.

Lemma stale_rejection_desynchronises_witness :
  i_sent (inputs_of (fst sample_stale)) = 0 /\ i_acked (inputs_of (fst sample_stale)) = 2.
Proof.
  assert (Hw : let '(s', log) := sample_stale in
    o_send Input 1 2 1 (input_frame_payload 0 [0x61; 0x62]) ∈ log_effects log
    /\ i_sent (inputs_of s') = 0 /\ i_acked (inputs_of s') = 2).
  { refine (stale_rejection_desynchronises (H := sample_schemas) sample_options id open_link [0x61; 0x62]
      (input_ack_frame 1 0 7) (input_ack_frame 0 2 1) (mkAck 1 1 0 0 0 0) (mkAck 1 0 0 0 2 0) 0 sample_open
      _ _ _ _ _ _ _ _ _ _ _ _); first [done | vm_compute; reflexivity | vm_compute; discriminate | idtac]. }
  destruct sample_stale as [s' log]. apply Hw.
Defined.
