(* ===== verification/Wire.v ===== *)
(** The wire of one terminal multiplex connection
    (packages/client/src/runtime/terminal-multiplex/connection/wire.ts): frames, the
    epoch handshake, heartbeats.

    The callbacks of the options ([onError], [onAccepted], [onStreamFrame]) are the
    last thing a method does, so each is an effect its owner (Multiplexer.v) carries
    out after the method.  [sendBytes] answers for the transport: what it returns, or
    false when it throws, which [send] catches; the clocks and [document.hidden] are
    arguments. *)

From stdpp Require Import base list gmap.
From Stdlib Require Import ZArith Lia ZifyBool.
From S2P Require Import Prelude Frame Records Effects.

Open Scope Z_scope.

Definition HEARTBEAT_MS : Z := 15000.
Definition HEARTBEAT_TIMEOUT_MS : Z := HEARTBEAT_MS * 2.

Record RemoteTerminalMultiplexWire := mkWire {
  w_epoch : Z;
  epochAccepted : bool;
  lastAuthenticatedFrameAt : Z;
  pendingHeartbeats : gmap Z Z;
  heartbeatTimer : bool
}.

Definition newWire : RemoteTerminalMultiplexWire := mkWire 0 false 0 ∅ false.

Inductive WireError :=
  | InvalidFrame (code : FrameDecodeCode)
  | EpochMismatch
  | InvalidOffer
  | InvalidHeartbeat
  | InvalidPong
  | HeartbeatTimedOut.

Inductive wire_effect :=
  | w_bytes (bs : bytes)  (** [options.sendBytes] *)
  | w_stream (frame : TerminalMultiplexFrame)  (** [options.onStreamFrame] *)
  | w_accepted  (** [options.onAccepted] *)
  | w_error (e : WireError)  (** [options.onError] *).

Inductive wire_exception := WireIdsExhausted.

(** The wire and the next correlation id of its owner. *)
Record wire_state := mkWireState {
  wo_nextCorrelationId : Z;
  wo_wire : RemoteTerminalMultiplexWire
}.

Definition W (A : Type) : Type := M wire_state wire_effect wire_exception A.

Definition upd_wire (f : RemoteTerminalMultiplexWire -> RemoteTerminalMultiplexWire) : W unit :=
  modify (fun s => mkWireState (wo_nextCorrelationId s) (f (wo_wire s))).

Definition w_allocate : W Z :=
  (s <- get ;;
   if wo_nextCorrelationId s >? 0xffffffff then throw WireIdsExhausted
   else modify (fun s => mkWireState (wo_nextCorrelationId s + 1) (wo_wire s)) ;;;
        ret (wo_nextCorrelationId s))%eff.

Definition set_epoch (e : Z) (w : RemoteTerminalMultiplexWire) :=
  mkWire e (epochAccepted w) (lastAuthenticatedFrameAt w) (pendingHeartbeats w) (heartbeatTimer w).
Definition set_accepted (b : bool) (w : RemoteTerminalMultiplexWire) :=
  mkWire (w_epoch w) b (lastAuthenticatedFrameAt w) (pendingHeartbeats w) (heartbeatTimer w).
Definition set_last (t : Z) (w : RemoteTerminalMultiplexWire) :=
  mkWire (w_epoch w) (epochAccepted w) t (pendingHeartbeats w) (heartbeatTimer w).
Definition set_heartbeats (m : gmap Z Z) (w : RemoteTerminalMultiplexWire) :=
  mkWire (w_epoch w) (epochAccepted w) (lastAuthenticatedFrameAt w) m (heartbeatTimer w).
Definition set_timer (b : bool) (w : RemoteTerminalMultiplexWire) :=
  mkWire (w_epoch w) (epochAccepted w) (lastAuthenticatedFrameAt w) (pendingHeartbeats w) b.

(** The bytes [send] offers to the transport, if the frame can be encoded. *)
Definition wire_bytes (w : RemoteTerminalMultiplexWire) (op : TerminalMultiplexOpcode)
    (routeId seq correlationId : Z) (payload : bytes) : option bytes :=
  if w_epoch w =? 0 then None else
  match encodeTerminalMultiplexFrame (mkFrame op None routeId (w_epoch w) seq correlationId payload) with
  | Ret bs => Some bs
  | Exn _ => None
  end.

Section wire.
Context (sendBytes : bytes -> bool) (hidden : bool).

Definition wire_send (op : TerminalMultiplexOpcode) (routeId seq correlationId : Z) (payload : bytes)
    : W bool :=
  (s <- get ;;
   match wire_bytes (wo_wire s) op routeId seq correlationId payload with
   | None => ret false
   | Some bs => emit (w_bytes bs) ;;; ret (sendBytes bs)
   end)%eff.

Definition sendHeartbeat (phase correlationId micros : Z) : W unit :=
  ((if phase =? 0
    then upd_wire (fun w => set_heartbeats (<[correlationId := micros]> (pendingHeartbeats w)) w)
    else ret tt) ;;;
   wire_send Heartbeat 0 0 correlationId
     (encodeTerminalMultiplexHeartbeatRecord (mkHeartbeat phase (if hidden then 1 else 0) 0 micros)) ;;;
   ret tt)%eff.

(** [monotonicMicros()], from [performance.now()] in milliseconds times 1000. *)
Definition handleEpoch (micros : Z) (frame : TerminalMultiplexFrame) : W unit :=
  (s <- get ;;
   match decodeTerminalMultiplexEpochRecord (payload frame) with
   | None => emit (w_error InvalidOffer)
   | Some record =>
       if negb (epoch_phase record =? 0) || (epoch frame =? 0) || negb (w_epoch (wo_wire s) =? 0)
       then emit (w_error InvalidOffer)
       else
         upd_wire (set_epoch (epoch frame)) ;;;
         wire_send Epoch 0 0 0
           (encodeTerminalMultiplexEpochRecord
              (mkEpoch 1 (epoch_protocolMinor record) (epoch_maxFrameBytes record)
                 (epoch_maxStreams record) (epoch_heartbeatMs record)
                 (epoch_connectionGeneration record))) ;;;
         upd_wire (set_accepted true) ;;;
         id <- w_allocate ;;
         sendHeartbeat 0 id micros ;;;
         upd_wire (set_timer true) ;;;
         emit w_accepted
   end)%eff.

Definition handleHeartbeat (frame : TerminalMultiplexFrame) : W unit :=
  (s <- get ;;
   match decodeTerminalMultiplexHeartbeatRecord (payload frame) with
   | None => emit (w_error InvalidHeartbeat)
   | Some record =>
       if negb (routeId frame =? 0) || negb (seq frame =? 0) || (correlationId frame =? 0)
       then emit (w_error InvalidHeartbeat)
       else if hb_phase record =? 0 then
         sendHeartbeat 1 (correlationId frame) (hb_monotonicMicros record)
       else if bool_decide (pendingHeartbeats (wo_wire s) !! correlationId frame
                              = Some (hb_monotonicMicros record))
       then upd_wire (fun w => set_heartbeats (delete (correlationId frame) (pendingHeartbeats w)) w)
       else emit (w_error InvalidPong)
   end)%eff.

(** [handle(bytes)] at [now] milliseconds. *)
Definition wire_handle (now micros : Z) (bs : bytes) : W unit :=
  (match decodeTerminalMultiplexFrame bs TERMINAL_MULTIPLEX_DEFAULT_MAX_FRAME_BYTES with
   | Exn e => emit (w_error (InvalidFrame (code e)))
   | Ret frame =>
       upd_wire (set_last now) ;;;
       match opcode frame with
       | Epoch => handleEpoch micros frame
       | _ =>
           s <- get ;;
           if (w_epoch (wo_wire s) =? 0) || negb (epoch frame =? w_epoch (wo_wire s))
           then emit (w_error EpochMismatch)
           else match opcode frame with
                | Heartbeat => handleHeartbeat frame
                | _ => emit (w_stream frame)
                end
       end
   end)%eff.

Definition heartbeatTick (now micros : Z) : W unit :=
  (s <- get ;;
   let idleMs := now - lastAuthenticatedFrameAt (wo_wire s) in
   if idleMs >=? HEARTBEAT_TIMEOUT_MS then emit (w_error HeartbeatTimedOut)
   else if idleMs >=? HEARTBEAT_MS then
     id <- w_allocate ;; sendHeartbeat 0 id micros
   else ret tt)%eff.
End wire.

Definition wire_reset (_ : RemoteTerminalMultiplexWire) : RemoteTerminalMultiplexWire := newWire.

(** What happens to a wire between two resets. *)
Inductive wire_event :=
  | we_bytes (now micros : Z) (bs : bytes)
  | we_tick (now micros : Z)
  | we_send (op : TerminalMultiplexOpcode) (routeId seq correlationId : Z) (payload : bytes).

Definition wire_step (sendBytes : bytes -> bool) (hidden : bool) (e : wire_event) : W unit :=
  (match e with
   | we_bytes now micros bs => wire_handle sendBytes hidden now micros bs
   | we_tick now micros => heartbeatTick sendBytes hidden now micros
   | we_send op r q id p => wire_send sendBytes op r q id p ;;; ret tt
   end)%eff.

(** A run: each event with the transport's answer and the visibility of the moment. *)
Fixpoint wire_run (events : list ((bytes -> bool) * bool * wire_event)) (s : wire_state)
    : wire_state * list wire_effect :=
  match events with
  | [] => (s, [])
  | (sendBytes, hidden, e) :: rest =>
      let '(_, s1, out1) := wire_step sendBytes hidden e s in
      let '(s2, out2) := wire_run rest s1 in
      (s2, out1 ++ out2)
  end.

(** ** Specification vocabulary *)

(** What an effect says about the epoch: frames handed to the streams and frames
    sent carry it. *)
Definition epoch_effect (e : Z) (o : wire_effect) : Prop :=
  match o with
  | w_stream f => e <> 0 /\ epoch f = e
  | w_bytes bs => e <> 0 /\ exists f, epoch f = e /\ encodeTerminalMultiplexFrame f = Ret bs
  | w_accepted => e <> 0
  | w_error _ => True
  end.

Definition is_accepted (o : wire_effect) : bool := match o with w_accepted => true | _ => false end.

Definition accepted_count (out : list wire_effect) : nat := length (List.filter is_accepted out).

Lemma accepted_count_app a b : accepted_count (a ++ b) = (accepted_count a + accepted_count b)%nat.
Proof. unfold accepted_count. by rewrite List.filter_app, length_app. Qed.

(** ** Lemmas *)

(** Steps that keep the epoch and do not accept one. *)
Program Definition within : step_relation wire_state wire_effect := mkStep
  (fun s out s' => w_epoch (wo_wire s') = w_epoch (wo_wire s)
     /\ epochAccepted (wo_wire s') = epochAccepted (wo_wire s)
     /\ Forall (epoch_effect (w_epoch (wo_wire s))) out /\ accepted_count out = 0%nat) _ _.
Next Obligation. intros s. by split_and!. Qed.
Next Obligation.
  intros s1 o1 s2 o2 s3 (E1 & A1 & F1 & C1) (E2 & A2 & F2 & C2). rewrite E1 in F2.
  rewrite accepted_count_app, C1, C2. split; [congruence|]. split; [congruence|].
  split; [by apply Forall_app | done].
Qed.

Definition Within (A : Type) (m : W A) : Prop := respects within m.

#[export] Instance Within_compositional : Compositional Within := respects_compositional within.

Lemma within_upd f :
  (forall w, w_epoch (f w) = w_epoch w /\ epochAccepted (f w) = epochAccepted w) -> Within unit (upd_wire f).
Proof. intros Hf. apply respects_modify. intros s. destruct (Hf (wo_wire s)). by split_and!. Qed.

#[local] Hint Extern 1 (Within _ (upd_wire _)) => apply within_upd; intros; split; reflexivity : effects.

Lemma within_error e : Within unit (emit (w_error e)).
Proof. apply respects_emit. intros s. split_and!; try done. by repeat constructor. Qed.

Lemma within_allocate : Within Z w_allocate.
Proof.
  intros s. unfold w_allocate, bind, get. case_if; cbn; by split_and!.
Qed.

#[local] Hint Resolve within_error within_allocate : effects.

Lemma wire_bytes_epoch w op r q c p bs :
  wire_bytes w op r q c p = Some bs -> epoch_effect (w_epoch w) (w_bytes bs).
Proof.
  unfold wire_bytes. destruct (w_epoch w =? 0) eqn:E0; [done|].
  destruct (encodeTerminalMultiplexFrame _) as [b|] eqn:Ee; [|done]. intros [= <-].
  split; [lia|]. by eexists; split; [|exact Ee].
Qed.

Section sending.
Context (sendBytes : bytes -> bool) (hidden : bool).

Lemma within_send op r q c p : Within bool (wire_send sendBytes op r q c p).
Proof.
  intros s. unfold wire_send, bind, get.
  destruct (wire_bytes (wo_wire s) op r q c p) as [bs|] eqn:E; [|by split_and!].
  cbn. split_and!; try done. constructor; [by eapply wire_bytes_epoch | constructor].
Qed.

#[local] Hint Resolve within_send : effects.

Lemma within_heartbeat p c m : Within unit (sendHeartbeat sendBytes hidden p c m).
Proof. unfold sendHeartbeat. compose. Qed.

#[local] Hint Resolve within_heartbeat : effects.

Lemma within_handleHeartbeat f : Within unit (handleHeartbeat sendBytes hidden f).
Proof. unfold handleHeartbeat. compose. Qed.

Lemma within_tick now m : Within unit (heartbeatTick sendBytes hidden now m).
Proof. unfold heartbeatTick. compose. Qed.

(** What a step may do to the epoch: keep it, or accept one when there was none. *)
Definition wire_moves (s : wire_state) (out : list wire_effect) (s' : wire_state) : Prop :=
  Forall (epoch_effect (w_epoch (wo_wire s'))) out
  /\ ((w_epoch (wo_wire s') = w_epoch (wo_wire s) /\ accepted_count out = 0%nat
       /\ epochAccepted (wo_wire s') = epochAccepted (wo_wire s))
      \/ (w_epoch (wo_wire s) = 0 /\ w_epoch (wo_wire s') <> 0 /\ (accepted_count out <= 1)%nat
          /\ epochAccepted (wo_wire s') = true)).

Lemma within_moves s out s' : related within s out s' -> wire_moves s out s'.
Proof. intros (E & A & F & C). split; [by rewrite E | by left]. Qed.

(** Sending neither throws nor changes the wire. *)
Definition wire_out (w : RemoteTerminalMultiplexWire) op r q c p : list wire_effect :=
  match wire_bytes w op r q c p with Some bs => [w_bytes bs] | None => [] end.

Lemma wire_send_run op r q c p s :
  exists b, wire_send sendBytes op r q c p s = (Ret b, s, wire_out (wo_wire s) op r q c p).
Proof.
  unfold wire_send, wire_out, bind, get. destruct (wire_bytes _ _ _ _ _ _) as [bs|]; by eexists.
Qed.

Lemma wire_out_ok w op r q c p :
  Forall (epoch_effect (w_epoch w)) (wire_out w op r q c p) /\ accepted_count (wire_out w op r q c p) = 0%nat.
Proof.
  unfold wire_out. destruct (wire_bytes w op r q c p) as [bs|] eqn:E; [|by split].
  split; [|done]. constructor; [by eapply wire_bytes_epoch | constructor].
Qed.

Lemma sendHeartbeat_run p c m s :
  exists w out, sendHeartbeat sendBytes hidden p c m s = (Ret tt, mkWireState (wo_nextCorrelationId s) w, out)
    /\ w_epoch w = w_epoch (wo_wire s) /\ epochAccepted w = epochAccepted (wo_wire s)
    /\ Forall (epoch_effect (w_epoch (wo_wire s))) out /\ accepted_count out = 0%nat.
Proof.
  destruct s as [n w]. unfold sendHeartbeat.
  set (w' := if p =? 0 then set_heartbeats (<[c := m]> (pendingHeartbeats w)) w else w).
  set (pay := encodeTerminalMultiplexHeartbeatRecord _).
  exists w', (wire_out w' Frame.Heartbeat 0 0 c pay).
  assert (Ew : w_epoch w' = w_epoch w /\ epochAccepted w' = epochAccepted w)
    by (subst w'; by destruct (p =? 0)).
  destruct (wire_send_run Frame.Heartbeat 0 0 c pay (mkWireState n w')) as [b Hb].
  pose proof (wire_out_ok w' Frame.Heartbeat 0 0 c pay) as [F C]. destruct Ew as [E A]. rewrite E in F.
  split_and!; try done. subst w'. unfold bind.
  destruct (p =? 0); cbn [upd_wire modify ret wo_wire wo_nextCorrelationId]; rewrite Hb; cbn [app];
    by rewrite app_nil_r.
Qed.

Lemma epoch_moves micros f s :
  let '(_, s', out) := handleEpoch sendBytes hidden micros f s in wire_moves s out s'.
Proof.
  unfold handleEpoch, bind at 1, get.
  destruct (decodeTerminalMultiplexEpochRecord (payload f)) as [record|];
    [|apply within_moves, (within_error InvalidOffer s)].
  case_if; [apply within_moves, (within_error InvalidOffer s)|]. bool_prop.
  unfold bind at 1, upd_wire at 1, modify.
  match goal with |- context [wire_send sendBytes ?op ?r ?q ?c ?pl] => set (pay := pl) end.
  set (s1 := mkWireState _ (set_epoch _ _)). unfold bind at 1.
  destruct (wire_send_run Frame.Epoch 0 0 0 pay s1) as [b ->].
  destruct (wire_out_ok (wo_wire s1) Frame.Epoch 0 0 0 pay) as [F1 C1].
  set (out1 := wire_out _ _ _ _ _ _) in *. clearbody out1.
  unfold bind at 1, upd_wire at 1, modify. set (s2 := mkWireState _ (set_accepted _ _)).
  unfold bind at 1, w_allocate, bind at 1, get.
  assert (Hn : epoch f <> 0) by done.
  destruct (wo_nextCorrelationId s2 >? 4294967295).
  { cbn. rewrite app_nil_r. split; [exact F1|]. right. split_and!; try done. lia. }
  unfold bind at 1, modify. set (s3 := mkWireState (wo_nextCorrelationId s2 + 1) _).
  unfold ret at 1, bind. destruct (sendHeartbeat_run 0 (wo_nextCorrelationId s2) micros s3) as (w & out2 & -> & E2 & A2 & F2 & C2).
  cbn. rewrite ?app_nil_r. split.
  - cbn. rewrite E2. apply Forall_app. split; [exact F1|]. apply Forall_app. split; [exact F2|].
    by repeat constructor.
  - right. cbn. rewrite E2, A2, !accepted_count_app, C1, C2. split_and!; try done.
Qed.

Lemma step_wire_moves e s :
  let '(_, s', out) := wire_step sendBytes hidden e s in wire_moves s out s'.
Proof.
  destruct e as [now micros bs|now micros|op r q c p]; cbn [wire_step].
  - unfold wire_handle. destruct (decodeTerminalMultiplexFrame bs _) as [f|e];
      [|apply within_moves, (within_error _ s)].
    unfold bind at 1, upd_wire, modify. set (s1 := mkWireState _ (set_last _ _)).
    assert (Hsame : forall out s', wire_moves s1 out s' -> wire_moves s out s') by done.
    destruct (decide (opcode f = Frame.Epoch)) as [Eo|Eo].
    { rewrite Eo. pose proof (epoch_moves micros f s1) as Hm.
      destruct (handleEpoch sendBytes hidden micros f s1) as [[r s'] out]. by apply Hsame. }
    assert (Hw : Within unit (s2 <- get ;;
      if (w_epoch (wo_wire s2) =? 0) || negb (epoch f =? w_epoch (wo_wire s2))
      then emit (w_error EpochMismatch)
      else match opcode f with Frame.Heartbeat => handleHeartbeat sendBytes hidden f | _ => emit (w_stream f) end)%eff).
    { intros s2. unfold bind, get. case_if; [apply (within_error _ s2)|]. bool_prop.
      assert (Hs : related within s2 [w_stream f] s2).
      { split_and!; try done. constructor; [|constructor]. done. }
      destruct (opcode f); try exact Hs.
      pose proof (within_handleHeartbeat f s2) as Hh.
      by destruct (handleHeartbeat sendBytes hidden f s2) as [[r s3] o3]. }
    specialize (Hw s1). unfold bind, get in Hw |- *.
    destruct (opcode f); try done; destruct (if _ : bool then _ else _) as [[r s'] out];
      apply Hsame, within_moves; exact Hw.
  - pose proof (within_tick now micros s) as Hw.
    destruct (heartbeatTick sendBytes hidden now micros s) as [[r s'] out]. by apply within_moves.
  - assert (Hw : Within unit (wire_send sendBytes op r q c p ;;; ret tt)%eff) by compose.
    specialize (Hw s). destruct (bind _ _ s) as [[x s'] out]. by apply within_moves.
Qed.
End sending.

Lemma epoch_effect_zero e o : epoch_effect 0 o -> epoch_effect e o.
Proof. by destruct o as [bs|f| |x]; cbn; try intros [? ?]. Qed.

Lemma wire_run_moves events : forall s,
  let '(s', out) := wire_run events s in wire_moves s out s'.
Proof.
  induction events as [|[[sendBytes hidden] e] events IH]; intros s; cbn [wire_run].
  { split; [constructor | by left]. }
  pose proof (step_wire_moves sendBytes hidden e s) as Hs.
  destruct (wire_step sendBytes hidden e s) as [[r s1] out1].
  specialize (IH s1). destruct (wire_run events s1) as [s2 out2].
  destruct Hs as [F1 Hs], IH as [F2 IH].
  assert (F1' : Forall (epoch_effect (w_epoch (wo_wire s2))) out1).
  { destruct IH as [(E2 & _)|(Z2 & _)]; [by rewrite E2|].
    rewrite Z2 in F1. eapply Forall_impl; [exact F1|]. apply epoch_effect_zero. }
  split; [by apply Forall_app|]. rewrite accepted_count_app.
  destruct Hs as [(E1 & C1 & A1)|(Z1 & N1 & C1 & A1)], IH as [(E2 & C2 & A2)|(Z2 & N2 & C2 & A2)].
  - left. rewrite C1, C2. split_and!; congruence || done.
  - right. rewrite C1. split_and!; congruence || lia.
  - right. rewrite C2, E2, A2. split_and!; try done. lia.
  - congruence.
Qed.

(** ** Properties *)

(** Epoch isolation.  Between two resets of a wire, whatever bytes arrive and
    whatever the transport and the clock do: every frame handed to a stream and every
    frame sent carries the one epoch the host offered (so nothing of an earlier
    connection is delivered or answered), nothing is handed over or sent before that
    offer, and the connection is reported accepted at most once. *)
Theorem wire_epoch_isolation events n :
  let '(s', out) := wire_run events (mkWireState n newWire) in
  Forall (epoch_effect (w_epoch (wo_wire s'))) out
  /\ (accepted_count out <= 1)%nat
  /\ (w_accepted ∈ out -> epochAccepted (wo_wire s') = true).
Proof.
  pose proof (wire_run_moves events (mkWireState n newWire)) as Hr.
  destruct (wire_run events _) as [s' out]. destruct Hr as [F [(_ & C & _)|(_ & _ & C & A)]];
    (split; [exact F|]); (split; [lia|]); intros Hin; [|done].
  exfalso. assert (Hf : w_accepted ∈ List.filter is_accepted out)
    by (by apply list_elem_of_In, filter_In; rewrite <- list_elem_of_In).
  unfold accepted_count in C. destruct (List.filter is_accepted out); [by apply elem_of_nil in Hf | done].
Qed.

(** A host that offers epoch 7, then sends an output frame of it. *)
Definition sample_frame_bytes (f : TerminalMultiplexFrame) : bytes :=
  match encodeTerminalMultiplexFrame f with Ret bs => bs | Exn _ => [] end.

Definition sample_wire_events : list ((bytes -> bool) * bool * wire_event) :=
  (fun e => (fun _ => true, false, e)) <$>
    [we_bytes 0 5 (sample_frame_bytes (mkFrame Frame.Epoch None 0 7 0 0
        (encodeTerminalMultiplexEpochRecord (mkEpoch 0 0 65536 16 15000 1))));
     we_bytes 10 5 (sample_frame_bytes (mkFrame Frame.Output None 1 7 1 0 [0x61]));
     we_bytes 20 5 (sample_frame_bytes (mkFrame Frame.Output None 1 6 2 0 [0x62]))].

Definition sample_wire_run : wire_state * list wire_effect :=
  wire_run sample_wire_events (mkWireState 1 newWire).

Lemma wire_epoch_isolation_witness :
  w_epoch (wo_wire (fst sample_wire_run)) = 7 /\ length (snd sample_wire_run) = 5%nat
  /\ Forall (epoch_effect 7) (snd sample_wire_run).
Proof.
  assert (E7 : w_epoch (wo_wire (fst sample_wire_run)) = 7) by (vm_compute; reflexivity).
  split; [exact E7|]. split; [vm_compute; reflexivity|].
  pose proof (wire_epoch_isolation sample_wire_events 1) as Hw. rewrite <- E7.
  unfold sample_wire_run. destruct (wire_run sample_wire_events _) as [s' out]. apply Hw.
Defined.
