(* ===== verification/Multiplexer.v ===== *)
(** The multiplexer of the terminals of one runtime host
    (packages/client/src/runtime/terminal-multiplex/multiplexer.ts): one connection
    shared by the streams, reconnected while there are streams.

    The asynchronous methods are cut at their awaits; each part is an event
    ([mux_event]) carrying what the closure of the source captured (the attempt, the
    arguments).  A promise is a number, allocated in order.  The effects of the streams
    and of the wire are carried out here in the order they were made: frames are
    encoded by the wire and given to the subscription, [onClose] removes the stream.
    The subscription of an attempt is named by the attempt.

    [readRuntimeStatus], [openTerminalMultiplexSubscription], [client.show] and the
    subscription's [sendBinary] and [unsubscribe] belong to the transport: calling them
    is an effect, their answers are events, and [transport] says whether [sendBinary]
    returns (true) or throws. *)

From stdpp Require Import base list gmap.
From Stdlib Require Import ZArith Lia ZifyBool String.
From S2P Require Import Prelude JsText Json Frame Records Recovery SideEffects Acks.
From S2P Require Import Snapshot Effects StreamRecords Delivery Controls Stream Wire.

Open Scope Z_scope.

(** A stream object, as it is between two steps. *)
Record mux_stream := mkMuxStream {
  ms_options : RemoteTerminalStreamOptions;
  ms_controls : RemoteTerminalControlSender;
  ms_delivery : RemoteTerminalDelivery;
  ms_closed : bool
}.

Record RemoteRuntimeTerminalMultiplexer := mkMux {
  objects : gmap Z mux_stream;
      (** every stream made; one that has left the map may still be called back *)
  streams : list Z;  (** the keys of the Map, in insertion order *)
  wire : RemoteTerminalMultiplexWire;
  subscription : option Z;
  connectPromise : option Z;
  resolveReady : option Z;  (** also [rejectReady]: both are set and cleared together *)
  serverReady : bool;
  nextStreamId : Z;
  nextCorrelationId : Z;
  reconnectTimer : bool;
  connectionAttempt : Z;
  recovering : bool;
  pendingFrames : list bytes;
  nextPromise : Z
}.

Definition newMultiplexer : RemoteRuntimeTerminalMultiplexer :=
  mkMux ∅ [] newWire None None None false 1 1 false 0 false [] 1.

Inductive mux_error :=
  | StreamIdsExhausted
  | CorrelationIdsGone
  | NoTransportGeneration
  | NotWritable.

Inductive mux_effect :=
  | x_bytes (subscription : Z) (bs : bytes)  (** [subscription.sendBinary(bytes)] *)
  | x_stream (streamId : Z) (o : stream_effect)  (** an effect of a stream on its user *)
  | x_status (attempt : Z)  (** [readRuntimeStatus] *)
  | x_open (attempt : Z)  (** [openTerminalMultiplexSubscription] *)
  | x_unsubscribe (subscription : Z)
  | x_resolve (promise : Z)  (** [resolveReady()] *)
  | x_reject (promise : Z)  (** [rejectReady(error)] *)
  | x_release  (** [releaseIfCurrent] *).

Definition X (A : Type) : Type := M RemoteRuntimeTerminalMultiplexer mux_effect mux_error A.

(** The fields, one setter each. *)
Definition set_streams x m := mkMux (objects m) x (wire m) (subscription m) (connectPromise m) (resolveReady m)
  (serverReady m) (nextStreamId m) (nextCorrelationId m) (reconnectTimer m) (connectionAttempt m)
  (recovering m) (pendingFrames m) (nextPromise m).
Definition set_object id v m := mkMux (<[id := v]> (objects m)) (streams m) (wire m) (subscription m)
  (connectPromise m) (resolveReady m) (serverReady m) (nextStreamId m) (nextCorrelationId m)
  (reconnectTimer m) (connectionAttempt m) (recovering m) (pendingFrames m) (nextPromise m).
Definition set_wire x n m := mkMux (objects m) (streams m) x (subscription m) (connectPromise m) (resolveReady m)
  (serverReady m) (nextStreamId m) n (reconnectTimer m) (connectionAttempt m)
  (recovering m) (pendingFrames m) (nextPromise m).
Definition set_subscription x m := mkMux (objects m) (streams m) (wire m) x (connectPromise m) (resolveReady m)
  (serverReady m) (nextStreamId m) (nextCorrelationId m) (reconnectTimer m) (connectionAttempt m)
  (recovering m) (pendingFrames m) (nextPromise m).
Definition set_promise c r n m := mkMux (objects m) (streams m) (wire m) (subscription m) c r
  (serverReady m) (nextStreamId m) (nextCorrelationId m) (reconnectTimer m) (connectionAttempt m)
  (recovering m) (pendingFrames m) n.
Definition set_serverReady x m := mkMux (objects m) (streams m) (wire m) (subscription m) (connectPromise m)
  (resolveReady m) x (nextStreamId m) (nextCorrelationId m) (reconnectTimer m) (connectionAttempt m)
  (recovering m) (pendingFrames m) (nextPromise m).
Definition set_nextStreamId x m := mkMux (objects m) (streams m) (wire m) (subscription m) (connectPromise m)
  (resolveReady m) (serverReady m) x (nextCorrelationId m) (reconnectTimer m) (connectionAttempt m)
  (recovering m) (pendingFrames m) (nextPromise m).
Definition set_reconnectTimer x m := mkMux (objects m) (streams m) (wire m) (subscription m) (connectPromise m)
  (resolveReady m) (serverReady m) (nextStreamId m) (nextCorrelationId m) x (connectionAttempt m)
  (recovering m) (pendingFrames m) (nextPromise m).
Definition set_attempt x m := mkMux (objects m) (streams m) (wire m) (subscription m) (connectPromise m)
  (resolveReady m) (serverReady m) (nextStreamId m) (nextCorrelationId m) (reconnectTimer m) x
  (recovering m) (pendingFrames m) (nextPromise m).
Definition set_recovering x m := mkMux (objects m) (streams m) (wire m) (subscription m) (connectPromise m)
  (resolveReady m) (serverReady m) (nextStreamId m) (nextCorrelationId m) (reconnectTimer m)
  (connectionAttempt m) x (pendingFrames m) (nextPromise m).
Definition set_pendingFrames x m := mkMux (objects m) (streams m) (wire m) (subscription m) (connectPromise m)
  (resolveReady m) (serverReady m) (nextStreamId m) (nextCorrelationId m) (reconnectTimer m)
  (connectionAttempt m) (recovering m) x (nextPromise m).

Definition stream_delete (id : Z) (l : list Z) : list Z := List.filter (fun k => negb (k =? id)) l.

Definition resetConnection (m : RemoteRuntimeTerminalMultiplexer) : RemoteRuntimeTerminalMultiplexer :=
  mkMux (objects m) (streams m) (wire_reset (wire m)) None None None false (nextStreamId m) 1 false
    (connectionAttempt m + 1) (recovering m) [] (nextPromise m).

Section mux.
Context `{StreamSchemas} (normalizeTerminalTitle : jsstring -> jsstring)
  (transport : bytes -> bool) (hidden : bool) (isLocal : bool).

(** [options.sendBytes] of the wire. *)
Definition sendBytes (m : RemoteRuntimeTerminalMultiplexer) (bs : bytes) : bool :=
  match subscription m with Some _ => transport bs | None => false end.

(** What [send] of the multiplexer answers to a stream. *)
Definition mux_link (m : RemoteRuntimeTerminalMultiplexer) : link := fun op routeId seq id payload =>
  match subscription m, wire_bytes (wire m) op routeId seq id payload with
  | Some _, Some bs => transport bs
  | _, _ => false
  end.

(** Sends a frame of a stream. *)
Definition mux_send (op : TerminalMultiplexOpcode) (routeId seq id : Z) (payload : bytes) : X unit :=
  (m <- get ;;
   match subscription m, wire_bytes (wire m) op routeId seq id payload with
   | Some sub, Some bs => emit (x_bytes sub bs)
   | _, _ => ret tt
   end)%eff.

Definition unsubscribe (sub : option Z) : X unit :=
  match sub with Some s => emit (x_unsubscribe s) | None => ret tt end.

Definition closeIfIdle : X unit :=
  (m <- get ;;
   match streams m with
   | [] => modify resetConnection ;;; unsubscribe (subscription m) ;;; emit x_release
   | _ => ret tt
   end)%eff.

(** Carries out one effect of the stream [id]. *)
Definition run_stream_effect (id : Z) (o : stream_effect) : X unit :=
  (match o with
   | o_send op routeId seq correlationId payload => mux_send op routeId seq correlationId payload
   | o_closed streamId =>
       modify (fun m => set_streams (stream_delete streamId (streams m)) m) ;;; closeIfIdle
   | o_ended => ret tt
   | o_callback _ | o_manual _ _ | o_input _ _ => emit (x_stream id o)
   end)%eff.

Definition stream_state_of (m : RemoteRuntimeTerminalMultiplexer) (v : mux_stream) : stream_state :=
  mkStreamState (mux_link m) (nextCorrelationId m) (ms_controls v) (ms_delivery v) (ms_closed v).

(** Runs a computation of the stream object [id], then its effects. *)
Definition on_object {A} (id : Z) (absent : A) (f : RemoteTerminalStreamOptions -> C A) : X A :=
  (m <- get ;;
   match objects m !! id with
   | None => ret absent
   | Some v =>
       let '(r, s, out) := f (ms_options v) (stream_state_of m v) in
       modify (fun m => set_wire (wire m) (ss_nextCorrelationId s)
         (set_object id (mkMuxStream (ms_options v) (ss_controls s) (ss_delivery s) (ss_closed s)) m)) ;;;
       for_each (run_stream_effect id) out ;;;
       match r with Ret a => ret a | Exn _ => throw CorrelationIdsGone end
   end)%eff.

(** [this.streams.get(id)?.method(..)]. *)
Definition on_stream {A} (id : Z) (absent : A) (f : RemoteTerminalStreamOptions -> C A) : X A :=
  (m <- get ;; if bool_decide (id ∈ streams m) then on_object id absent f else ret absent)%eff.

(** [handleClose(attempt)]. *)
Definition handleClose (attempt : Z) : X unit :=
  (m <- get ;;
   if negb (attempt =? connectionAttempt m) then ret tt else
   match streams m with
   | [] =>
       match resolveReady m with Some p => emit (x_reject p) | None => ret tt end ;;;
       modify resetConnection ;;;
       unsubscribe (subscription m) ;;;
       emit x_release
   | _ =>
       for_each (fun id => on_stream id tt (fun o => Stream.transportClosed o false)) (streams m) ;;;
       modify (set_recovering true) ;;;
       modify resetConnection ;;;
       unsubscribe (subscription m) ;;;
       modify (set_reconnectTimer true)
   end)%eff.

Definition failConnection (attempt : Z) : X unit :=
  (m <- get ;;
   if negb (attempt =? connectionAttempt m) then ret tt else handleClose attempt)%eff.

(** The loop of [resolveIfReady]; false when it returned early. *)
Fixpoint resubscribe_all (l : list Z) : X bool :=
  (match l with
   | [] => ret true
   | id :: rest =>
       writable <- on_stream id true Stream.resubscribe ;;
       if writable : bool then resubscribe_all rest
       else m <- get ;; failConnection (connectionAttempt m) ;;; ret false
   end)%eff.

Definition resolveIfReady : X unit :=
  (m <- get ;;
   match subscription m with
   | None => ret tt
   | Some _ =>
       if negb (epochAccepted (wire m)) || negb (serverReady m) then ret tt else
       completed <- (if recovering m then
                       modify (set_recovering false) ;;; resubscribe_all (streams m)
                     else ret true) ;;
       if completed : bool then
         m <- get ;;
         match resolveReady m with Some p => emit (x_resolve p) | None => ret tt end ;;;
         modify (fun m => set_promise (connectPromise m) None (nextPromise m) m)
       else ret tt
   end)%eff.

(** Carries out one effect of the wire. *)
Definition run_wire_effect (o : wire_effect) : X unit :=
  (match o with
   | w_bytes bs => m <- get ;;
       match subscription m with Some sub => emit (x_bytes sub bs) | None => ret tt end
   | w_stream frame => on_stream (routeId frame) tt (fun o => s_handle o normalizeTerminalTitle frame)
   | w_accepted => resolveIfReady
   | w_error _ => m <- get ;; failConnection (connectionAttempt m)
   end)%eff.

Definition run_wire (f : (bytes -> bool) -> W unit) : X unit :=
  (m <- get ;;
   let '(r, s, out) := f (sendBytes m) (mkWireState (nextCorrelationId m) (wire m)) in
   modify (set_wire (wo_wire s) (wo_nextCorrelationId s)) ;;;
   for_each run_wire_effect out ;;;
   match r with Ret _ => ret tt | Exn _ => throw CorrelationIdsGone end)%eff.

(** [handleBinary(attempt, bytes)]. *)
Definition handleBinary (now micros attempt : Z) (bs : bytes) : X unit :=
  (m <- get ;;
   if negb (attempt =? connectionAttempt m) then ret tt else
   match subscription m with
   | None => modify (fun m => set_pendingFrames (pendingFrames m ++ [bs]) m)
   | Some _ => run_wire (fun sb => wire_handle sb hidden now micros bs)
   end)%eff.

(** The first part of [openConnection], up to its first await. *)
Definition openConnection : X unit :=
  (modify (fun m => set_attempt (connectionAttempt m + 1) m) ;;;
   m <- get ;;
   emit (x_status (connectionAttempt m)))%eff.

(** [ensureConnected()]: [None] when the promise is already resolved. *)
Definition ensureConnected : X (option Z) :=
  (m <- get ;;
   let connected := match subscription m with
                    | Some _ => epochAccepted (wire m) && serverReady m | None => false end in
   if connected : bool then ret None else
   match connectPromise m with
   | Some p => ret (Some p)
   | None =>
       let p := nextPromise m in
       modify (set_promise (connectPromise m) (Some p) (p + 1)) ;;;
       openConnection ;;;
       modify (fun m => set_promise (Some p) (resolveReady m) (nextPromise m) m) ;;;
       ret (Some p)
   end)%eff.

(** [openConnection] after [readRuntimeStatus]: the capability, or an error. *)
Definition statusRead (attempt : Z) (status : option bool) : X unit :=
  match status with
  | Some capable => if negb isLocal && negb capable then failConnection attempt
                    else emit (x_open attempt)
  | None => failConnection attempt
  end.

(** [openConnection] after the subscription was opened, or refused. *)
Definition subscriptionOpened (now micros attempt : Z) (opened : bool) : X unit :=
  (if negb opened then failConnection attempt else
   m <- get ;;
   if negb (attempt =? connectionAttempt m) then emit (x_unsubscribe attempt) else
   modify (set_subscription (Some attempt)) ;;;
   catch
     (m <- get ;;
      modify (set_pendingFrames []) ;;;
      for_each (handleBinary now micros attempt) (pendingFrames m) ;;;
      resolveIfReady)
     (failConnection attempt))%eff.

Definition onReady (attempt : Z) : X unit :=
  (m <- get ;;
   if attempt =? connectionAttempt m then modify (set_serverReady true) ;;; resolveIfReady
   else ret tt)%eff.

(** [subscribeTerminal] once both promises are resolved. *)
Definition subscribeTerminal (terminal : jsstring) (transportGeneration : option jsstring)
    (clientId : jsstring) (type : client_type)
    (viewport : option (SpecFloat.spec_float * SpecFloat.spec_float)) : X Z :=
  (match transportGeneration with
   | None | Some [] => throw NoTransportGeneration
   | Some generation =>
       m <- get ;;
       if nextStreamId m >? 0x7fffffff then throw StreamIdsExhausted else
       let id := nextStreamId m in
       let options := mkStreamOptions id terminal generation clientId type viewport in
       modify (fun m => set_nextStreamId (id + 1)
         (set_object id (mkMuxStream options newControls newDelivery false)
            (set_streams (streams m ++ [id]) m))) ;;;
       writable <- on_stream id false Stream.subscribe ;;
       if writable : bool then ret id
       else modify (fun m => set_streams (stream_delete id (streams m)) m) ;;; throw NotWritable
   end)%eff.

(** The timer set by [handleClose]. *)
Definition onReconnectTimer : X unit :=
  (m <- get ;;
   if reconnectTimer m then modify (set_reconnectTimer false) ;;; ensureConnected ;;; ret tt
   else ret tt)%eff.

Definition onHeartbeatTimer (now micros : Z) : X unit :=
  (m <- get ;;
   if heartbeatTimer (wire m) then run_wire (fun sb => heartbeatTick sb hidden now micros)
   else ret tt)%eff.

Inductive mux_event :=
  | me_ensureConnected  (** the first part of [subscribeTerminal] *)
  | me_subscribeTerminal (terminal : jsstring) (transportGeneration : option jsstring)
      (clientId : jsstring) (type : client_type)
      (viewport : option (SpecFloat.spec_float * SpecFloat.spec_float))
  | me_statusRead (attempt : Z) (status : option bool)
  | me_opened (now micros attempt : Z) (opened : bool)
  | me_ready (attempt : Z)
  | me_binary (now micros attempt : Z) (bs : bytes)
  | me_error (attempt : Z)
  | me_closed (attempt : Z)
  | me_reconnectTimer
  | me_heartbeatTimer (now micros : Z)
  | me_stream (id : Z) (e : stream_event)  (** a user, a timer or the renderer *).

Definition mux_step (e : mux_event) : X unit :=
  (match e with
   | me_ensureConnected => ensureConnected ;;; ret tt
   | me_subscribeTerminal t g c ty v => subscribeTerminal t g c ty v ;;; ret tt
   | me_statusRead a s => statusRead a s
   | me_opened now micros a o => subscriptionOpened now micros a o
   | me_ready a => onReady a
   | me_binary now micros a bs => handleBinary now micros a bs
   | me_error a => failConnection a
   | me_closed a => handleClose a
   | me_reconnectTimer => onReconnectTimer
   | me_heartbeatTimer now micros => onHeartbeatTimer now micros
   | me_stream id e => on_object id tt (fun o => stream_step o normalizeTerminalTitle e)
   end)%eff.
End mux.

(** A run: each event with the transport and the visibility of the moment. *)
Fixpoint mux_run `{StreamSchemas} (normalize : jsstring -> jsstring) (isLocal : bool)
    (events : list ((bytes -> bool) * bool * mux_event)) (m : RemoteRuntimeTerminalMultiplexer)
    : RemoteRuntimeTerminalMultiplexer * list mux_effect :=
  match events with
  | [] => (m, [])
  | (transport, hidden, e) :: rest =>
      let '(_, m1, out1) := mux_step normalize transport hidden isLocal e m in
      let '(m2, out2) := mux_run normalize isLocal rest m1 in
      (m2, out1 ++ out2)
  end.

(** ** registry.ts: one multiplexer per target *)

Inductive RuntimeClientTarget :=
  | target_local
  | target_environment (environmentId : jsstring).

Definition targetKey (target : RuntimeClientTarget) : jsstring :=
  match target with
  | target_local => js "local"
  | target_environment environmentId => js "environment:" ++ environmentId
  end.

(** The map of the module, and the number of the next multiplexer made. *)
Record registry := mkRegistry {
  multiplexers : gmap jsstring nat;
  made : nat
}.

Definition getRuntimeTerminalMultiplexer (target : RuntimeClientTarget) (r : registry) : nat * registry :=
  match multiplexers r !! targetKey target with
  | Some multiplexer => (multiplexer, r)
  | None => (made r, mkRegistry (<[targetKey target := made r]> (multiplexers r)) (S (made r)))
  end.

(** The [releaseIfCurrent] callback given to a multiplexer. *)
Definition releaseIfCurrent (key : jsstring) (current : nat) (r : registry) : registry :=
  if bool_decide (multiplexers r !! key = Some current)
  then mkRegistry (delete key (multiplexers r)) (made r) else r.
