(* ===== verification/MuxSafety.v ===== *)
(** What the multiplexer does with its connections and its promises: proofs about
    Multiplexer.v.

    Section [operations] is generic in a step relation: what holds of the few steps
    that touch the connection (releasing it, settling or dropping the connect promise,
    starting an attempt) holds of every operation.  It is used twice, for
    [subscriptions_released] and for [abandoned_connect_promise]. *)

From stdpp Require Import base list gmap.
From Stdlib Require Import ZArith Lia ZifyBool.
From S2P Require Import Prelude JsText Json Frame Records Recovery SideEffects Acks.
From S2P Require Import Snapshot Effects StreamRecords Delivery Controls Stream StreamInputs.
From S2P Require Import StreamFlow Wire Multiplexer.

Open Scope Z_scope.

(** ** The core of the state *)

Definition same_core (m m' : RemoteRuntimeTerminalMultiplexer) : Prop :=
  subscription m' = subscription m /\ connectPromise m' = connectPromise m
  /\ resolveReady m' = resolveReady m /\ connectionAttempt m' = connectionAttempt m
  /\ nextPromise m' = nextPromise m.

(** Effects on the connection and its promises. *)
Definition core_effect (o : mux_effect) : bool :=
  match o with x_unsubscribe _ | x_resolve _ | x_reject _ | x_status _ => true | _ => false end.

Program Definition core : step_relation RemoteRuntimeTerminalMultiplexer mux_effect := mkStep
  (fun m out m' => same_core m m' /\ Forall (fun o => core_effect o = false) out) _ _.
Next Obligation. intros m. by repeat split. Qed.
Next Obligation.
  intros m1 o1 m2 o2 m3 [(A1 & A2 & A3 & A4 & A5) F1] [(B1 & B2 & B3 & B4 & B5) F2].
  split; [|by apply Forall_app]. split_and!; congruence.
Qed.

Lemma respects_catch {S O E A} (R : step_relation S O) (m h : M S O E A) :
  respects R m -> respects R h -> respects R (catch m h).
Proof.
  intros Hm Hh s. unfold catch. specialize (Hm s). destruct (m s) as [[[a|x] s1] o1]; [done|].
  specialize (Hh s1). destruct (h s1) as [[r s2] o2]. by eapply related_trans.
Qed.

(** Going to a new epoch does not close a stream, so it leaves the core alone. *)
Lemma epoch_keeps_open `{StreamSchemas} o s :
  let '(_, _, out) := Stream.transportClosed o false s in existsb is_closed_effect out = false.
Proof.
  unfold Stream.transportClosed, bind, get. destruct (ss_closed s); [done|].
  pose proof (does_epoch o s) as Hd. unfold does_at in Hd.
  destruct (s_prepareForNewEpoch o s) as [[r s'] out]. destruct Hd as (_ & _ & _ & _ & _ & Eo).
  cbn [app snd] in *. rewrite <- closed_io, Eo. apply settle_silent.
Qed.

Definition Core (A : Type) (x : X A) : Prop := respects core x.

#[export] Instance Core_compositional : Compositional Core := respects_compositional core.

Lemma core_modify f : (forall m, same_core m (f m)) -> Core unit (modify f).
Proof. intros Hf m. by split. Qed.

Lemma core_emit o : core_effect o = false -> Core unit (emit o).
Proof. intros Ho m. split; [by repeat split | by constructor]. Qed.

Lemma core_throw A e : Core A (throw e).
Proof. apply respects_throw. Qed.

Lemma core_stream_effect id o : is_closed_effect o = false -> Core unit (run_stream_effect id o).
Proof.
  intros Ho. destruct o; try done; cbn [run_stream_effect]; try by apply core_emit; try apply comp_ret.
  - unfold mux_send. compose. by apply core_emit.
Qed.

Lemma core_epochs `{StreamSchemas} transport l :
  Core unit (for_each (fun id => on_stream transport id tt (fun o => Stream.transportClosed o false)) l).
Proof.
  apply (comp_for_each Core). intros id _. unfold on_stream, on_object.
  apply comp_bind; [apply comp_get|]. intros m0. case_if; [|apply comp_ret].
  apply comp_bind; [apply comp_get|]. intros m.
  destruct (objects m !! id) as [v|]; [|apply comp_ret].
  pose proof (epoch_keeps_open (ms_options v) (stream_state_of transport m v)) as Ho.
  destruct (Stream.transportClosed _ false _) as [[r s] out].
  apply comp_bind; [by apply core_modify; intros; split_and!|]. intros _.
  apply comp_bind; [|intros _; destruct r; [apply comp_ret | apply core_throw]].
  apply (comp_for_each Core). intros o Hin. apply core_stream_effect.
  destruct (is_closed_effect o) eqn:Eclosed; [|done]. exfalso. revert Ho. apply not_false_iff_true.
  apply existsb_exists. exists o. split; [by apply list_elem_of_In | done].
Qed.

Section operations.
Context `{StreamSchemas} (normalize : jsstring -> jsstring) (transport : bytes -> bool)
  (hidden isLocal : bool).
Context (R : step_relation RemoteRuntimeTerminalMultiplexer mux_effect).
Hypothesis R_core : forall m out m', related core m out m' -> related R m out m'.
Hypothesis R_release : forall m, related R m
  (match subscription m with Some a => [x_unsubscribe a] | None => [] end) (resetConnection m).
Hypothesis R_settle : forall m p o, resolveReady m = Some p -> o = x_resolve p \/ o = x_reject p ->
  related R m [o] m.
Hypothesis R_clear : forall m,
  related R m [] (set_promise (connectPromise m) None (nextPromise m) m).
Hypothesis R_connect : forall m, connectPromise m = None ->
  related R m [x_status (connectionAttempt m + 1)]
    (set_promise (Some (nextPromise m)) (Some (nextPromise m)) (nextPromise m + 1)
       (set_attempt (connectionAttempt m + 1) m)).

Definition Q (A : Type) (x : X A) : Prop := respects R x.

#[local] Instance Q_compositional : Compositional Q := respects_compositional R.

Lemma Q_throw A e : Q A (throw e).
Proof. apply respects_throw. Qed.

Lemma Q_modify f : (forall m, same_core m (f m)) -> Q unit (modify f).
Proof. intros Hf m. apply R_core. by split. Qed.

Lemma Q_emit o : core_effect o = false -> Q unit (emit o).
Proof. intros Ho m. apply R_core. split; [by repeat split | by constructor]. Qed.

#[local] Hint Resolve Q_throw : effects.
#[local] Hint Extern 1 (Q _ (modify _)) => apply Q_modify; intros; split_and!; reflexivity : effects.
#[local] Hint Extern 1 (Q _ (emit _)) => apply Q_emit; reflexivity : effects.

(** [this.resetConnection(); subscription?.unsubscribe()], with the subscription read
    before. *)
Lemma release_then A (k : unit -> X A) m :
  (forall u, Q A (k u)) ->
  let '(_, m', out) := (modify resetConnection ;;; u <- unsubscribe (subscription m) ;; k u)%eff m in
  related R m out m'.
Proof.
  intros Hk. unfold bind, modify. pose proof (R_release m) as Hr. unfold unsubscribe.
  destruct (subscription m) as [a|]; cbn [emit ret app];
    specialize (Hk tt (resetConnection m)); destruct (k tt (resetConnection m)) as [[r m'] out];
    apply (related_trans R _ _ _ _ _ Hr Hk).
Qed.

Lemma Q_mux_send op r q c p : Q unit (mux_send op r q c p).
Proof. unfold mux_send. compose. Qed.

Lemma Q_closeIfIdle : Q unit closeIfIdle.
Proof.
  intros m. unfold closeIfIdle, bind at 1, get. destruct (streams m); [|apply related_refl].
  pose proof (release_then unit (fun _ => emit x_release) m (fun _ => Q_emit x_release eq_refl)) as Hr.
  destruct (bind (modify resetConnection) _ m) as [[r m'] out]. exact Hr.
Qed.

#[local] Hint Resolve Q_mux_send Q_closeIfIdle : effects.

Lemma Q_run_stream_effect id o : Q unit (run_stream_effect id o).
Proof. unfold run_stream_effect. compose. Qed.

#[local] Hint Resolve Q_run_stream_effect : effects.

Lemma Q_on_object A id (a : A) f : Q A (on_object transport id a f).
Proof. unfold on_object. compose. Qed.

#[local] Hint Resolve Q_on_object : effects.

Lemma Q_on_stream A id (a : A) f : Q A (on_stream transport id a f).
Proof. unfold on_stream. compose. Qed.

#[local] Hint Resolve Q_on_stream : effects.

Lemma Q_handleClose attempt : Q unit (handleClose transport attempt).
Proof.
  intros m. unfold handleClose, bind at 1, get. case_if; [apply related_refl|].
  destruct (streams m) as [|id ids] eqn:Es.
  - pose proof (release_then unit (fun _ => emit x_release) m (fun _ => Q_emit x_release eq_refl)) as Hr.
    destruct (resolveReady m) as [p|] eqn:Ep; unfold bind at 1; cbn [emit ret];
      destruct (bind (modify resetConnection) _ m) as [[r m'] out]; cbn [app]; [|exact Hr].
    change (x_reject p :: out) with ([x_reject p] ++ out). eapply related_trans; [|exact Hr].
    eapply R_settle; [exact Ep | by right].
  - rewrite <- Es. set (l := streams m). clearbody l. unfold bind at 1. pose proof (core_epochs transport l m) as Hc.
    destruct (for_each _ l m) as [[[u|x] m1] o1]; [|by apply R_core].
    assert (Esub : subscription m1 = subscription m) by apply Hc.
    unfold bind at 1, modify at 1. set (m2 := set_recovering true m1).
    assert (Esub2 : subscription m2 = subscription m) by done. rewrite <- Esub2.
    pose proof (release_then unit (fun _ => modify (set_reconnectTimer true)) m2
      (fun _ => Q_modify (set_reconnectTimer true) (fun _ => ltac:(by split_and!)))) as Hr.
    destruct (bind (modify resetConnection) _ m2) as [[r m'] out].
    cbn [app]. eapply related_trans; [apply R_core; exact Hc|].
    change out with ([] ++ out). eapply related_trans; [|exact Hr].
    apply R_core. split; [by split_and! | done].
Qed.

#[local] Hint Resolve Q_handleClose : effects.

Lemma Q_failConnection attempt : Q unit (failConnection transport attempt).
Proof. unfold failConnection. compose. Qed.

#[local] Hint Resolve Q_failConnection : effects.

Lemma Q_resubscribe_all l : Q bool (resubscribe_all transport l).
Proof. induction l; cbn [resubscribe_all]; compose. Qed.

#[local] Hint Resolve Q_resubscribe_all : effects.

Lemma Q_resolve : Q unit (m <- get ;;
  match resolveReady m with Some p => emit (x_resolve p) | None => ret tt end ;;;
  modify (fun m => set_promise (connectPromise m) None (nextPromise m) m))%eff.
Proof.
  intros m. unfold bind, get, modify. destruct (resolveReady m) as [p|] eqn:E; cbn.
  - change [x_resolve p] with ([x_resolve p] ++ []). eapply related_trans; [|apply R_clear].
    eapply R_settle; [exact E | by left].
  - apply R_clear.
Qed.

Lemma Q_resolveIfReady : Q unit (resolveIfReady transport).
Proof.
  unfold resolveIfReady. apply comp_bind; [apply comp_get|]. intros m.
  destruct (subscription m); [|apply comp_ret]. case_if; [apply comp_ret|].
  apply comp_bind; [destruct (recovering m); compose|].
  intros [|]; [apply Q_resolve | apply comp_ret].
Qed.

#[local] Hint Resolve Q_resolveIfReady : effects.

Lemma Q_run_wire_effect o : Q unit (run_wire_effect normalize transport o).
Proof. unfold run_wire_effect. compose. Qed.

#[local] Hint Resolve Q_run_wire_effect : effects.

Lemma Q_run_wire f : Q unit (run_wire normalize transport f).
Proof. unfold run_wire. compose. Qed.

#[local] Hint Resolve Q_run_wire : effects.

Lemma Q_handleBinary now micros attempt bs :
  Q unit (handleBinary normalize transport hidden now micros attempt bs).
Proof. unfold handleBinary. compose. Qed.

#[local] Hint Resolve Q_handleBinary : effects.

Lemma Q_ensureConnected : Q (option Z) ensureConnected.
Proof.
  intros m. unfold ensureConnected, bind at 1, get.
  destruct (match subscription m with Some _ => _ | None => false end); [apply related_refl|].
  destruct (connectPromise m) as [p|] eqn:Ep; [apply related_refl|].
  pose proof (R_connect m Ep) as Hc. destruct m. cbn in *. exact Hc.
Qed.

#[local] Hint Resolve Q_ensureConnected : effects.

Lemma Q_opened_rest now micros attempt :
  Q unit (catch
     (m <- get ;;
      modify (set_pendingFrames []) ;;;
      for_each (handleBinary normalize transport hidden now micros attempt) (pendingFrames m) ;;;
      resolveIfReady transport)%eff
     (failConnection transport attempt)).
Proof. apply respects_catch; [|apply Q_failConnection]. change (Q unit (m <- get ;;
      modify (set_pendingFrames []) ;;;
      for_each (handleBinary normalize transport hidden now micros attempt) (pendingFrames m) ;;;
      resolveIfReady transport)%eff). compose. Qed.

(** Every event but the opening of a subscription. *)
Definition opens (e : mux_event) : option Z :=
  match e with me_opened _ _ attempt true => Some attempt | _ => None end.

Lemma Q_step e : opens e = None -> Q unit (mux_step normalize transport hidden isLocal e).
Proof.
  intros He. destruct e; cbn [mux_step]; try solve [compose].
  - unfold subscribeTerminal. compose.
  - unfold statusRead. compose.
  - destruct opened; [done|]. unfold subscriptionOpened. cbn [negb]. compose.
  - unfold onReady. compose.
  - unfold onReconnectTimer. compose.
  - unfold onHeartbeatTimer. compose.
Qed.
End operations.

(** ** Subscriptions *)

Definition unsubscribed (out : list mux_effect) : list Z :=
  out ≫= (fun o => match o with x_unsubscribe a => [a] | _ => [] end).

(** The attempts whose connection was started. *)
Definition started (out : list mux_effect) : list Z :=
  out ≫= (fun o => match o with x_status a => [a] | _ => [] end).

Definition held (m : RemoteRuntimeTerminalMultiplexer) : list Z :=
  match subscription m with Some a => [a] | None => [] end.

Lemma unsubscribed_app a b : unsubscribed (a ++ b) = unsubscribed a ++ unsubscribed b.
Proof. apply bind_app. Qed.
Lemma started_app a b : started (a ++ b) = started a ++ started b.
Proof. apply bind_app. Qed.

Lemma core_effects out :
  Forall (fun o => core_effect o = false) out -> unsubscribed out = [] /\ started out = [].
Proof.
  induction 1 as [|o out Ho _ [IH1 IH2]]; [done|]. cbn. unfold unsubscribed, started in *.
  rewrite IH1, IH2. by destruct o.
Qed.

(** The subscription is of the current attempt; every attempt started is not later
    than the current one, and the current one has a connect promise. *)
Definition attempts_ok (st : list Z) (m : RemoteRuntimeTerminalMultiplexer) : Prop :=
  (forall a, subscription m = Some a -> a = connectionAttempt m /\ connectPromise m <> None)
  /\ (forall a, a ∈ st -> a <= connectionAttempt m /\ (a = connectionAttempt m -> connectPromise m <> None)).

Program Definition holds : step_relation RemoteRuntimeTerminalMultiplexer mux_effect := mkStep
  (fun m out m' => forall st, attempts_ok st m ->
     attempts_ok (st ++ started out) m' /\ unsubscribed out ++ held m' = held m) _ _.
Next Obligation. intros m st H. by rewrite app_nil_r. Qed.
Next Obligation.
  intros m1 o1 m2 o2 m3 H1 H2 st H. destruct (H1 st H) as [H3 E1]. destruct (H2 _ H3) as [H4 E2].
  rewrite started_app, unsubscribed_app, app_assoc. split; [done|]. by rewrite <- app_assoc, E2.
Qed.

Lemma holds_core m out m' : related core m out m' -> related holds m out m'.
Proof.
  intros [(E1 & E2 & E3 & E4 & E5) F] st [H1 H2]. destruct (core_effects out F) as [-> ->].
  rewrite app_nil_r. unfold attempts_ok, held. by rewrite E1, E2, E4.
Qed.

Lemma holds_release m : related holds m
  (match subscription m with Some a => [x_unsubscribe a] | None => [] end) (resetConnection m).
Proof.
  intros st [H1 H2]. unfold held. split; [|by destruct (subscription m)].
  split; [done|]. intros a Ha. cbn [resetConnection connectionAttempt].
  assert (started (match subscription m with Some a => [x_unsubscribe a] | None => [] end) = []) as Es
    by by destruct (subscription m).
  rewrite Es, app_nil_r in Ha. destruct (H2 a Ha). split; lia.
Qed.

Lemma holds_quiet m o m' :
  unsubscribed o = [] -> started o = [] -> subscription m' = subscription m ->
  connectPromise m' = connectPromise m -> connectionAttempt m' = connectionAttempt m -> related holds m o m'.
Proof.
  intros E1 E2 E3 E4 E5 st H. rewrite E1, E2, app_nil_r. unfold attempts_ok, held. by rewrite E3, E4, E5.
Qed.

Lemma holds_connect m : connectPromise m = None -> related holds m [x_status (connectionAttempt m + 1)]
    (set_promise (Some (nextPromise m)) (Some (nextPromise m)) (nextPromise m + 1)
       (set_attempt (connectionAttempt m + 1) m)).
Proof.
  intros Ep st [H1 H2]. assert (Es : subscription m = None).
  { destruct (subscription m) as [a|]; [|done]. by destruct (H1 a eq_refl). }
  split; [|unfold held; cbn; by rewrite Es]. split; [cbn; by rewrite Es|].
  intros a Ha. cbn [set_promise set_attempt connectionAttempt connectPromise].
  apply elem_of_app in Ha as [Ha|Ha]; [destruct (H2 a Ha); split; [lia | done]|].
  apply elem_of_cons in Ha as [->|Ha]; [split; [lia | done] | by apply elem_of_nil in Ha].
Qed.

Lemma holds_settle m p o :
  resolveReady m = Some p -> o = x_resolve p \/ o = x_reject p -> related holds m [o] m.
Proof. intros _ [-> | ->]; by apply holds_quiet. Qed.

Lemma holds_clear m : related holds m [] (set_promise (connectPromise m) None (nextPromise m) m).
Proof. by apply holds_quiet. Qed.

#[local] Hint Resolve holds_core holds_release holds_settle holds_clear holds_connect : core.

(** The events of the transport: an attempt is opened once, after it was started. *)
Fixpoint honest_run `{StreamSchemas} (normalize : jsstring -> jsstring) (isLocal : bool)
    (events : list ((bytes -> bool) * bool * mux_event)) (m : RemoteRuntimeTerminalMultiplexer)
    (st op : list Z) : Prop :=
  match events with
  | [] => True
  | (transport, hidden, e) :: rest =>
      let '(_, m1, out) := mux_step normalize transport hidden isLocal e m in
      match opens e with Some a => a ∈ st /\ a ∉ op | None => True end
      /\ honest_run normalize isLocal rest m1 (st ++ started out)
           (op ++ match opens e with Some a => [a] | None => [] end)
  end.

Definition opened_attempts (events : list ((bytes -> bool) * bool * mux_event)) : list Z :=
  events ≫= (fun e => match opens (snd e) with Some a => [a] | None => [] end).

Section runs.
Context `{StreamSchemas} (normalize : jsstring -> jsstring) (isLocal : bool).

Lemma holds_opened transport hidden now micros a m st :
  attempts_ok st m -> a ∈ st -> a ∉ held m ->
  let '(_, m', out) := mux_step normalize transport hidden isLocal (me_opened now micros a true) m in
  attempts_ok (st ++ started out) m' /\ unsubscribed out ++ held m' ≡ₚ held m ++ [a].
Proof.
  intros Hok Ha Hn. cbn [mux_step]. unfold subscriptionOpened. cbn [negb]. unfold bind at 1, get.
  destruct (a =? connectionAttempt m) eqn:Ec; cbn [negb].
  - apply Z.eqb_eq in Ec. assert (Es : subscription m = None).
    { destruct (subscription m) as [b|] eqn:Eb; [|done]. destruct Hok as [H1 _]. destruct (H1 b Eb) as [-> _].
      exfalso. apply Hn. unfold held. rewrite Eb, Ec. left. }
    unfold bind at 1, modify. set (m1 := set_subscription (Some a) m).
    assert (Hok1 : attempts_ok st m1).
    { destruct Hok as [H1 H2]. split; [|exact H2]. intros b [= <-]. split; [done|].
      destruct (H2 a Ha) as [_ Hp]. by apply Hp. }
    pose proof (Q_opened_rest normalize transport hidden holds ltac:(auto) ltac:(auto) ltac:(eauto)
      ltac:(auto) now micros a m1) as Hr.
    destruct (catch _ _ m1) as [[r m'] out]. destruct (Hr st Hok1) as [H3 H4]. cbn [app].
    split; [done|]. rewrite H4. unfold held. by rewrite Es.
  - cbn. rewrite app_nil_r. split; [done|]. apply Permutation_app_comm with (l := [a]).
Qed.

Lemma holds_step transport hidden e m st :
  opens e = None -> attempts_ok st m ->
  let '(_, m', out) := mux_step normalize transport hidden isLocal e m in
  attempts_ok (st ++ started out) m' /\ unsubscribed out ++ held m' = held m.
Proof.
  intros He Hok.
  pose proof (Q_step normalize transport hidden isLocal holds ltac:(auto) ltac:(auto) ltac:(eauto)
    ltac:(auto) ltac:(auto) e He m) as Hr.
  destruct (mux_step _ _ _ _ e m) as [[r m'] out]. by apply Hr.
Qed.

Lemma holds_run events : forall m st op,
  attempts_ok st m -> (forall a, a ∈ held m -> a ∈ op) ->
  honest_run normalize isLocal events m st op ->
  let '(m', out) := mux_run normalize isLocal events m in
  unsubscribed out ++ held m' ≡ₚ held m ++ opened_attempts events.
Proof.
  induction events as [|[[transport hidden] e] events IH]; intros m st op Hok Hop Hh; cbn [mux_run honest_run] in *.
  { cbn. by rewrite app_nil_r. }
  assert (Hs : match opens e with Some a => a ∈ st /\ a ∉ op | None => True end ->
    let '(_, m', out) := mux_step normalize transport hidden isLocal e m in
    attempts_ok (st ++ started out) m'
    /\ unsubscribed out ++ held m' ≡ₚ held m ++ match opens e with Some a => [a] | None => [] end).
  { intros Ho. destruct (opens e) as [a|] eqn:Eo.
    - destruct e; try done. destruct opened; [|done]. injection Eo as ->. destruct Ho as [H1 H2].
      apply holds_opened; [done | done | intros Hin; by apply H2, Hop].
    - pose proof (holds_step transport hidden e m st Eo Hok) as Hs.
      destruct (mux_step _ _ _ _ e m) as [[r m1] out]. destruct Hs as [H1 H2].
      split; [done|]. by rewrite H2, app_nil_r. }
  destruct (mux_step _ _ _ _ e m) as [[r m1] out1]. destruct Hh as [Ho Hh].
  destruct (Hs Ho) as [Hok1 Hp1].
  assert (Hop1 : forall a, a ∈ held m1 -> a ∈ op ++ match opens e with Some a => [a] | None => [] end).
  { intros a Ha. assert (Hin : a ∈ unsubscribed out1 ++ held m1) by (apply elem_of_app; by right).
    rewrite Hp1, elem_of_app in Hin. rewrite elem_of_app. destruct Hin; [left; by apply Hop | by right]. }
  specialize (IH m1 _ _ Hok1 Hop1 Hh). destruct (mux_run _ _ events m1) as [m2 out2].
  unfold opened_attempts in *. cbn [mbind list_bind snd].
  rewrite unsubscribed_app, <- app_assoc, IH, app_assoc, Hp1, <- app_assoc. done.
Qed.
End runs.

(** ** The connect promise *)

Definition settles (p : Z) (o : mux_effect) : bool :=
  match o with x_resolve q | x_reject q => q =? p | _ => false end.

(** [p] is not the promise that [resolveReady] settles, and never will be. *)
Definition lost (p : Z) (m : RemoteRuntimeTerminalMultiplexer) : Prop :=
  resolveReady m <> Some p /\ p < nextPromise m.

Program Definition forgets (p : Z) : step_relation RemoteRuntimeTerminalMultiplexer mux_effect := mkStep
  (fun m out m' => lost p m -> lost p m' /\ existsb (settles p) out = false) _ _.
Next Obligation. done. Qed.
Next Obligation.
  intros p m1 o1 m2 o2 m3 H1 H2 H. destruct (H1 H) as [H3 E1]. destruct (H2 H3) as [H4 E2].
  split; [done|]. by rewrite existsb_app, E1, E2.
Qed.

Lemma core_settles p out : Forall (fun o => core_effect o = false) out -> existsb (settles p) out = false.
Proof. induction 1 as [|o out Ho _ IH]; [done|]. cbn. rewrite IH. by destruct o. Qed.

Lemma forgets_core p m out m' : related core m out m' -> related (forgets p) m out m'.
Proof.
  intros [(E1 & E2 & E3 & E4 & E5) F] H. split; [|by apply core_settles]. unfold lost. by rewrite E3, E5.
Qed.

Lemma forgets_release p m : related (forgets p) m
  (match subscription m with Some a => [x_unsubscribe a] | None => [] end) (resetConnection m).
Proof. intros [H1 H2]. split; [by split | by destruct (subscription m)]. Qed.

Lemma forgets_settle p m q o :
  resolveReady m = Some q -> o = x_resolve q \/ o = x_reject q -> related (forgets p) m [o] m.
Proof.
  intros Eq Ho [H1 H2]. split; [by split|]. assert (q <> p) by congruence. cbn.
  destruct Ho as [-> | ->]; cbn; by rewrite (proj2 (Z.eqb_neq _ _)).
Qed.

Lemma forgets_clear p m : related (forgets p) m [] (set_promise (connectPromise m) None (nextPromise m) m).
Proof. intros [H1 H2]. by split. Qed.

Lemma forgets_connect p m : connectPromise m = None -> related (forgets p) m [x_status (connectionAttempt m + 1)]
    (set_promise (Some (nextPromise m)) (Some (nextPromise m)) (nextPromise m + 1)
       (set_attempt (connectionAttempt m + 1) m)).
Proof.
  intros _ [H1 H2]. split; [|done]. split; cbn; [|lia]. intros [= E]. lia.
Qed.

Section lost.
Context `{StreamSchemas} (normalize : jsstring -> jsstring) (isLocal : bool) (p : Z).

Lemma forgets_step transport hidden e m :
  let '(_, m', out) := mux_step normalize transport hidden isLocal e m in related (forgets p) m out m'.
Proof.
  destruct (opens e) as [a|] eqn:Eo.
  - destruct e; try done. destruct opened; [|done]. cbn [mux_step]. unfold subscriptionOpened. cbn [negb].
    unfold bind at 1, get. case_if; [cbn; by intros|]. unfold bind at 1, modify.
    set (m1 := set_subscription _ m).
    pose proof (Q_opened_rest normalize transport hidden (forgets p) (forgets_core p) (forgets_release p)
      (forgets_settle p) (forgets_clear p) now micros attempt m1) as Hr.
    destruct (catch _ _ m1) as [[r m'] out]. exact Hr.
  - pose proof (Q_step normalize transport hidden isLocal (forgets p) (forgets_core p) (forgets_release p)
      (forgets_settle p) (forgets_clear p) (forgets_connect p) e Eo m) as Hr.
    by destruct (mux_step _ _ _ _ e m) as [[r m'] out].
Qed.

Lemma forgets_run events : forall m,
  let '(m', out) := mux_run normalize isLocal events m in related (forgets p) m out m'.
Proof.
  induction events as [|[[transport hidden] e] events IH]; intros m; cbn [mux_run]; [by intros|].
  pose proof (forgets_step transport hidden e m) as Hs.
  destruct (mux_step _ _ _ _ e m) as [[r m1] out1]. specialize (IH m1).
  destruct (mux_run _ _ events m1) as [m2 out2]. by eapply (related_trans (forgets p)).
Qed.
End lost.

(** The loop over the streams returns. *)
Definition Returns (A : Type) (x : X A) : Prop := throws (fun _ => False) x.

#[export] Instance Returns_compositional : Compositional Returns := throws_compositional _.

Lemma returns_stream_effect id o : Returns unit (run_stream_effect id o).
Proof.
  assert (He : forall o, Returns unit (emit o)) by done.
  assert (Hm : forall f, Returns unit (modify f)) by done.
  destruct o; cbn [run_stream_effect]; try apply comp_ret; try apply He.
  - unfold mux_send. compose.
  - apply comp_bind; [apply Hm|]. intros _. unfold closeIfIdle. apply comp_bind; [apply comp_get|]. intros m.
    destruct (streams m); [|apply comp_ret]. apply comp_bind; [apply Hm|]. intros _.
    apply comp_bind; [|intros _; apply He]. unfold unsubscribe. destruct (subscription m); [apply He | apply comp_ret].
Qed.

Lemma returns_epochs `{StreamSchemas} transport l :
  Returns unit (for_each (fun id => on_stream transport id tt (fun o => Stream.transportClosed o false)) l).
Proof.
  apply (comp_for_each Returns). intros id _. unfold on_stream, on_object.
  apply comp_bind; [apply comp_get|]. intros m0. destruct (bool_decide _); [|apply comp_ret].
  apply comp_bind; [apply comp_get|]. intros m. destruct (objects m !! id) as [v|]; [|apply comp_ret].
  set (s0 := stream_state_of transport m v).
  assert (Hr : let '(r, _, _) := Stream.transportClosed (ms_options v) false s0 in is_ret r = true).
  { unfold Stream.transportClosed, bind, get. destruct (ss_closed s0); [done|].
    pose proof (does_epoch (ms_options v) s0) as Hd. unfold does_at in Hd.
    destruct (s_prepareForNewEpoch (ms_options v) s0) as [[r s'] out]. apply Hd. }
  destruct (Stream.transportClosed (ms_options v) false s0) as [[[u|x] s] out]; [|done].
  apply comp_bind; [done|]. intros _. apply comp_bind; [|intros _; apply comp_ret].
  apply (comp_for_each Returns). intros o _. apply returns_stream_effect.
Qed.

(** Losing the connection with streams drops the promise without settling it. *)
Lemma close_drops `{StreamSchemas} normalize transport hidden isLocal m p :
  streams m <> [] -> p < nextPromise m ->
  let '(_, m', out) := mux_step normalize transport hidden isLocal (me_closed (connectionAttempt m)) m in
  lost p m' /\ existsb (settles p) out = false.
Proof.
  intros Hs Hp. cbn [mux_step]. unfold handleClose, bind at 1, get. rewrite Z.eqb_refl. cbn [negb].
  destruct (streams m) as [|id ids] eqn:Es; [done|]. rewrite <- Es. set (l := streams m). clearbody l.
  pose proof (core_epochs transport l m) as Hc. pose proof (returns_epochs transport l m) as Hr.
  unfold bind at 1. unfold run_result in Hr. revert Hc Hr.
  destruct (for_each _ l m) as [[[u|x] m1] o1]; [|done]. intros [(_ & _ & _ & _ & E5) F] _.
  unfold bind, modify, unsubscribe. destruct (subscription m) as [a|]; cbn [emit ret app fst snd];
    (split; [split; cbn; [done | lia] |]); rewrite existsb_app, (core_settles p o1 F); done.
Qed.

(** ** Properties *)

(** C26. No connection is leaked.  Along any run of a new multiplexer in which the
    transport opens an attempt at most once and only after it was started, every
    subscription that was opened has been unsubscribed exactly once or is the one
    held now, whatever the attempts, errors, closings, frames and streams were. *)
Theorem subscriptions_released `{StreamSchemas} normalize isLocal events :
  honest_run normalize isLocal events newMultiplexer [] [] ->
  let '(m', out) := mux_run normalize isLocal events newMultiplexer in
  unsubscribed out ++ held m' ≡ₚ opened_attempts events.
Proof.
  intros Hh. apply (holds_run normalize isLocal events newMultiplexer [] []); [|intros a Ha; by apply elem_of_nil in Ha | done].
  split; [done|]. intros a Ha. by apply elem_of_nil in Ha.
Qed.

(** A terminal being opened can wait for ever: when the connection is lost while
    the multiplexer has streams, the pending connect promise, which a concurrent
    [subscribeTerminal] awaits, is dropped; nothing that happens later, a successful
    reconnection included, resolves or rejects it. *)
Theorem abandoned_connect_promise `{StreamSchemas} normalize transport hidden isLocal m p events :
  streams m <> [] -> connectPromise m = Some p -> resolveReady m = Some p -> p < nextPromise m ->
  let '(_, out) := mux_run normalize isLocal
    ((transport, hidden, me_closed (connectionAttempt m)) :: events) m in
  (x_resolve p ∉ out) /\ (x_reject p ∉ out).
Proof.
  intros Hs _ _ Hp. cbn [mux_run].
  pose proof (close_drops normalize transport hidden isLocal m p Hs Hp) as Hc.
  destruct (mux_step _ _ _ _ _ m) as [[r m1] out1]. destruct Hc as [Hl E1].
  pose proof (forgets_run normalize isLocal p events m1) as Hr.
  destruct (mux_run _ _ events m1) as [m2 out2]. destruct (Hr Hl) as [_ E2].
  assert (E : existsb (settles p) (out1 ++ out2) = false) by by rewrite existsb_app, E1, E2.
  split; intros Hin%list_elem_of_In; apply (not_true_iff_false _) in E; apply E, existsb_exists;
    eexists; (split; [exact Hin | apply Z.eqb_refl]).
Qed.

(** ** Witnesses *)

Definition calm_event (e : mux_event) : (bytes -> bool) * bool * mux_event := (fun _ => true, false, e).

Definition epoch_offer (e : Z) : bytes :=
  sample_frame_bytes (mkFrame Frame.Epoch None 0 e 0 0
    (encodeTerminalMultiplexEpochRecord (mkEpoch 0 0 65536 16 15000 1))).

(** A connection, a stream on it, its loss, a second attempt. *)
Definition sample_connection : list ((bytes -> bool) * bool * mux_event) := calm_event <$>
  [me_ensureConnected; me_statusRead 1 (Some true); me_binary 0 0 1 (epoch_offer 7); me_opened 0 0 1 true;
   me_ready 1; me_subscribeTerminal [0x74] (Some [0x67]) [0x63] client_desktop None;
   me_closed 1; me_reconnectTimer; me_statusRead 3 (Some true); me_opened 0 0 3 true].

Definition sample_reconnecting : RemoteRuntimeTerminalMultiplexer :=
  fst (mux_run (H := sample_schemas) id false sample_connection newMultiplexer).

Lemma subscriptions_released_witness :
  opened_attempts sample_connection = [1; 3]
  /\ (let '(m', out) := mux_run (H := sample_schemas) id false sample_connection newMultiplexer in
      unsubscribed out ++ held m' ≡ₚ [1; 3]).
Proof.
  split; [vm_compute; reflexivity|].
  apply (subscriptions_released (H := sample_schemas) id false sample_connection).
  vm_compute. split_and!; try done; try (repeat constructor);
    intros Hin; repeat (apply elem_of_cons in Hin as [Hin|Hin]; [discriminate|]); by apply elem_of_nil in Hin.
Defined.

Lemma abandoned_connect_promise_witness :
  resolveReady sample_reconnecting = Some 2
  /\ (let '(_, out) := mux_run (H := sample_schemas) id false
        (calm_event <$> [me_closed 3; me_reconnectTimer; me_statusRead 5 (Some true);
           me_binary 0 0 5 (epoch_offer 9); me_opened 0 0 5 true; me_ready 5]) sample_reconnecting in
      (x_resolve 3 ∈ out) /\ (x_resolve 2 ∉ out) /\ (x_reject 2 ∉ out)).
Proof.
  split; [vm_compute; reflexivity|].
  pose proof (abandoned_connect_promise (H := sample_schemas) id (fun _ => true) false false
    sample_reconnecting 2 (calm_event <$> [me_reconnectTimer; me_statusRead 5 (Some true);
           me_binary 0 0 5 (epoch_offer 9); me_opened 0 0 5 true; me_ready 5])) as Hw.
  assert (Hr : x_resolve 3 ∈ snd (mux_run (H := sample_schemas) id false
    (calm_event <$> [me_closed 3; me_reconnectTimer; me_statusRead 5 (Some true);
           me_binary 0 0 5 (epoch_offer 9); me_opened 0 0 5 true; me_ready 5]) sample_reconnecting)).
  { vm_compute. repeat first [left | right]. }
  destruct (mux_run _ _ _ sample_reconnecting) as [m' out].
  split; [exact Hr|]. apply Hw; vm_compute; done.
Defined.
