(* ===== verification/JsMap.v ===== *)
(** The JavaScript [Map] with integer keys: a list of entries in insertion order.

    [set] on a present key keeps its place, on an absent key appends;
    [delete] removes the entry.  Keys never repeat ([keys_ok]).  [map_sum] adds up a
    measure of the values: the counters the source keeps next to its maps are such
    sums. *)

From stdpp Require Import base list sets.
From Stdlib Require Import ZArith Lia ZifyBool.
From S2P Require Import Prelude.

#[local] Set Warnings "-clear-no-such-hyp".

Abbreviation jsmap V := (list (Z * V)).

Section jsmap.
Context {V : Type}.
Implicit Types m : jsmap V.

Fixpoint map_get (k : Z) m : option V :=
  match m with
  | [] => None
  | (k', v) :: rest => if k' =? k then Some v else map_get k rest
  end.

Fixpoint map_set (k : Z) (v : V) m : jsmap V :=
  match m with
  | [] => [(k, v)]
  | (k', w) :: rest => if k' =? k then (k, v) :: rest else (k', w) :: map_set k v rest
  end.

Fixpoint map_delete (k : Z) m : jsmap V :=
  match m with
  | [] => []
  | (k', w) :: rest => if k' =? k then rest else (k', w) :: map_delete k rest
  end.

Definition map_has (k : Z) m : bool := match map_get k m with Some _ => true | None => false end.

Definition map_keys m : list Z := fst <$> m.

Definition map_size m : Z := Z.of_nat (length m).

Fixpoint map_sum (f : V -> Z) m : Z :=
  match m with
  | [] => 0
  | (_, v) :: rest => f v + map_sum f rest
  end.

Definition keys_ok m : Prop := NoDup (map_keys m).

(** ** Laws *)

Lemma map_get_set_eq k v m : map_get k (map_set k v m) = Some v.
Proof.
  induction m as [|[j w] m IH]; cbn; [by rewrite Z.eqb_refl|].
  destruct (j =? k) eqn:E; cbn; [by rewrite Z.eqb_refl | by rewrite E].
Qed.

Lemma map_get_set_ne k k' v m : k <> k' -> map_get k' (map_set k v m) = map_get k' m.
Proof.
  intros Hn. induction m as [|[j w] m IH]; cbn.
  - case_if; [lia | done].
  - destruct (j =? k) eqn:E; cbn; [|by rewrite IH].
    destruct (k =? k') eqn:E1; [lia|]. by replace (j =? k') with false by lia.
Qed.

Lemma map_get_set k k' v m :
  map_get k' (map_set k v m) = if decide (k = k') then Some v else map_get k' m.
Proof. case_decide as E; [subst; apply map_get_set_eq | by apply map_get_set_ne]. Qed.

Lemma map_get_None k m : map_get k m = None <-> (k ∉ map_keys m).
Proof.
  unfold map_keys. induction m as [|[j w] m IH]; cbn; [split; [intros _; set_solver | done]|].
  case_if; bool_prop; [split; [done | set_solver]|]. rewrite IH. set_solver.
Qed.

Lemma map_get_keys k v m : map_get k m = Some v -> k ∈ map_keys m.
Proof.
  intros H. destruct (decide (k ∈ map_keys m)) as [|Hn]; [done|].
  apply map_get_None in Hn. congruence.
Qed.

Lemma map_get_elem k v m : map_get k m = Some v -> (k, v) ∈ m.
Proof.
  induction m as [|[j w] m IH]; cbn; [done|]. case_if; bool_prop; intros H.
  - simplify_eq. left.
  - right. auto.
Qed.

Lemma map_elem_get k v m : keys_ok m -> (k, v) ∈ m -> map_get k m = Some v.
Proof.
  unfold keys_ok, map_keys. induction m as [|[j w] m IH]; cbn; [set_solver|].
  intros [Hj Hm]%NoDup_cons [Heq|Hin]%elem_of_cons.
  - simplify_eq. by rewrite Z.eqb_refl.
  - case_if; bool_prop; [|auto]. subst. exfalso. apply Hj.
    apply list_elem_of_fmap. by exists (k, v).
Qed.

Lemma map_get_app k m1 m2 :
  map_get k (m1 ++ m2) = match map_get k m1 with Some v => Some v | None => map_get k m2 end.
Proof. induction m1 as [|[j w] m1 IH]; cbn; [done|]. by case_if. Qed.

Lemma map_keys_set_in k v m : k ∈ map_keys m -> map_keys (map_set k v m) = map_keys m.
Proof.
  unfold map_keys. induction m as [|[j w] m IH]; cbn; [set_solver|].
  intros H. case_if; bool_prop; cbn; [by subst|]. rewrite IH; [done|]. set_solver.
Qed.

Lemma map_set_new k v m : map_get k m = None -> map_set k v m = m ++ [(k, v)].
Proof. induction m as [|[j w] m IH]; cbn; [done|]. case_if; [done|]. intros H. by rewrite IH. Qed.

Lemma map_set_length_new k v m : map_get k m = None -> map_size (map_set k v m) = map_size m + 1.
Proof. intros H. rewrite map_set_new by done. unfold map_size. rewrite length_app. cbn. lia. Qed.

Lemma map_set_length_in k v w m : map_get k m = Some w -> map_size (map_set k v m) = map_size m.
Proof.
  unfold map_size. induction m as [|[j x] m IH]; cbn; [done|]. case_if; cbn; [done|].
  intros H. specialize (IH H). lia.
Qed.

Lemma keys_ok_set k v m : keys_ok m -> keys_ok (map_set k v m).
Proof.
  unfold keys_ok. intros H. destruct (map_get k m) eqn:E.
  - rewrite map_keys_set_in; [done|]. by eapply map_get_keys.
  - rewrite map_set_new by done. unfold map_keys. rewrite fmap_app. apply NoDup_app.
    split_and!; [done | | apply NoDup_singleton].
    intros x Hx Hx'. apply map_get_None in E. set_solver.
Qed.

Lemma map_keys_delete k m x : x ∈ map_keys (map_delete k m) -> x ∈ map_keys m.
Proof. unfold map_keys. induction m as [|[j w] m IH]; cbn; [done|]. case_if; cbn; set_solver. Qed.

Lemma keys_ok_delete k m : keys_ok m -> keys_ok (map_delete k m).
Proof.
  unfold keys_ok. induction m as [|[j w] m IH]; cbn; [done|].
  intros [Hj Hm]%NoDup_cons. case_if; [done|]. cbn. apply NoDup_cons. split; [|auto].
  intros H. apply Hj. by eapply map_keys_delete.
Qed.

Lemma map_get_delete_ne k k' m : k <> k' -> map_get k' (map_delete k m) = map_get k' m.
Proof.
  intros Hn. induction m as [|[j w] m IH]; cbn; [done|].
  destruct (j =? k) eqn:E; cbn; [|by rewrite IH]. by replace (j =? k') with false by lia.
Qed.

Lemma map_get_delete_eq k m : keys_ok m -> map_get k (map_delete k m) = None.
Proof.
  unfold keys_ok. induction m as [|[j w] m IH]; cbn; [done|].
  intros [Hj Hm]%NoDup_cons. case_if; bool_prop; cbn.
  - subst. by apply map_get_None.
  - case_if; bool_prop; [lia | auto].
Qed.

Lemma map_get_delete k k' m : keys_ok m ->
  map_get k' (map_delete k m) = if decide (k = k') then None else map_get k' m.
Proof.
  intros H. case_decide as E; [subst; by apply map_get_delete_eq | by apply map_get_delete_ne].
Qed.

Lemma map_delete_none k m : map_get k m = None -> map_delete k m = m.
Proof. induction m as [|[j w] m IH]; cbn; [done|]. case_if; [done|]. intros H. by rewrite IH. Qed.

Lemma map_size_delete k v m : map_get k m = Some v -> map_size (map_delete k m) = map_size m - 1.
Proof.
  unfold map_size. induction m as [|[j x] m IH]; cbn; [done|]. case_if; cbn; [lia|].
  intros H. specialize (IH H). lia.
Qed.

Lemma map_size_delete_le k m : map_size (map_delete k m) <= map_size m.
Proof. unfold map_size. induction m as [|[j x] m IH]; cbn; [done|]. case_if; cbn; lia. Qed.

Lemma map_set_twice k v w m : map_set k v (map_set k w m) = map_set k v m.
Proof.
  induction m as [|[j x] m IH]; cbn; [by rewrite Z.eqb_refl|].
  destruct (j =? k) eqn:E; cbn; [by rewrite Z.eqb_refl|]. by rewrite E, IH.
Qed.

(** ** Sums *)

Lemma map_sum_app f m1 m2 : map_sum f (m1 ++ m2) = map_sum f m1 + map_sum f m2.
Proof. induction m1 as [|[k v] m1 IH]; cbn; lia. Qed.

Lemma map_sum_set_in f k v w m :
  map_get k m = Some w -> map_sum f (map_set k v m) = map_sum f m - f w + f v.
Proof.
  induction m as [|[j x] m IH]; cbn; [done|]. case_if; cbn; intros H; [simplify_eq; lia|].
  rewrite IH by done. lia.
Qed.

Lemma map_sum_set_new f k v m :
  map_get k m = None -> map_sum f (map_set k v m) = map_sum f m + f v.
Proof. intros H. rewrite map_set_new by done. rewrite map_sum_app. cbn. lia. Qed.

Lemma map_sum_delete f k v m :
  map_get k m = Some v -> map_sum f (map_delete k m) = map_sum f m - f v.
Proof.
  induction m as [|[j x] m IH]; cbn; [done|]. case_if; cbn; intros H; [simplify_eq; lia|].
  rewrite IH by done. lia.
Qed.

Lemma map_forall_entries (P : V -> Prop) m : keys_ok m ->
  (forall k v, map_get k m = Some v -> P v) -> Forall (fun e => P (snd e)) m.
Proof.
  intros Hk H. apply Forall_forall. intros [k v] Hin. apply (H k). by apply map_elem_get.
Qed.

Lemma map_sum_nonneg f m : Forall (fun e => 0 <= f (snd e)) m -> 0 <= map_sum f m.
Proof. induction 1 as [|[k v] m H _ IH]; cbn in *; lia. Qed.

Lemma map_sum_ge f k v m : Forall (fun e => 0 <= f (snd e)) m ->
  map_get k m = Some v -> f v <= map_sum f m.
Proof.
  induction 1 as [|[j x] m H Hm IH]; cbn in *; [done|]. pose proof (map_sum_nonneg f m Hm).
  case_if; intros H'; [simplify_eq; lia|]. specialize (IH H'). lia.
Qed.

Lemma map_sum_ext f g m : (forall k v, map_get k m = Some v -> f v = g v) -> keys_ok m ->
  map_sum f m = map_sum g m.
Proof.
  intros H Hk. pose proof (map_forall_entries (fun v => f v = g v) m Hk H) as HF. clear H Hk.
  induction HF as [|[k v] m Hv _ IH]; cbn in *; congruence.
Qed.

(** ** Properties of every entry *)

Lemma map_forall_set (P : Z -> V -> Prop) k v m :
  (forall j w, map_get j m = Some w -> P j w) -> P k v ->
  forall j w, map_get j (map_set k v m) = Some w -> P j w.
Proof. intros H Hv j w. rewrite map_get_set. case_decide as E; [intros; by simplify_eq | apply H]. Qed.

Lemma map_forall_delete (P : Z -> V -> Prop) k m : keys_ok m ->
  (forall j w, map_get j m = Some w -> P j w) ->
  forall j w, map_get j (map_delete k m) = Some w -> P j w.
Proof. intros Hk H j w. rewrite map_get_delete by done. case_decide as E; [done | apply H]. Qed.
End jsmap.

#[export] Instance keys_ok_dec {V} (m : jsmap V) : Decision (keys_ok m).
Proof. unfold keys_ok. apply _. Defined.

Create HintDb jsmap.
#[export] Hint Resolve keys_ok_set keys_ok_delete : jsmap.
