(* ===== verification/RpcValues.v ===== *)
(** The values the runtime protocol peer is built from
    (packages/protocol/typescript/src): statuses and errors (error.ts), the limits and
    checks of peer-values.ts, call destinations (call-destination.ts) and the calls a
    client makes (transport.ts).

    Integers of the generated messages (uint32, uint64) and [byteLength]s are [Z].  A
    thrown value is a [RuntimeProtocolError] or any other value, named by a number and with
    its message when it is an [Error].
    [timeoutMs] is a JavaScript number. *)

From stdpp Require Import base list.
From Stdlib Require Import ZArith Lia ZifyBool String SpecFloat.
From S2P Require Import Prelude JsText Json.

Open Scope Z_scope.

(** ** StatusCode, PeerKind, TransportFeature (generated enums) *)

Module StatusCode.
Definition OK_UNSPECIFIED : Z := 0.
Definition CANCELLED : Z := 1.
Definition UNKNOWN : Z := 2.
Definition INVALID_ARGUMENT : Z := 3.
Definition DEADLINE_EXCEEDED : Z := 4.
Definition RESOURCE_EXHAUSTED : Z := 8.
Definition FAILED_PRECONDITION : Z := 9.
Definition UNIMPLEMENTED : Z := 12.
Definition INTERNAL : Z := 13.
Definition UNAVAILABLE : Z := 14.
Definition UNAUTHENTICATED : Z := 16.
End StatusCode.

Module PeerKind.
Definition CHROME_EXTENSION : Z := 1.
Definition IOS_APP : Z := 2.
End PeerKind.

Module TransportFeature.
Definition UNSPECIFIED : Z := 0.
Definition ROUTED_CALLS : Z := 1.
Definition REVERSE_CALLS : Z := 2.
End TransportFeature.

(** ** Errors *)

Inductive thrown :=
  | RuntimeProtocolError (code : Z) (message : jsstring)
  | OtherValue (value : Z) (message : option jsstring).

(** [new RuntimeProtocolError(code, message)]: the default message is for an empty one. *)
Definition newRuntimeProtocolError (code : Z) (message : jsstring) : thrown :=
  RuntimeProtocolError code
    (match message with
     | [] => js "Runtime protocol call failed with status " ++ decimal code
     | _ => message
     end).

(** [Pick<Status, 'code' | 'message'>]. *)
Record Status := mkStatus {
  status_code : Z;
  status_message : jsstring
}.

Definition statusError (status : option Status) : option thrown :=
  match status with
  | None => None
  | Some s =>
      if status_code s =? StatusCode.OK_UNSPECIFIED then None else
      let code :=
        if (status_code s >=? StatusCode.CANCELLED) && (status_code s <=? StatusCode.UNAUTHENTICATED)
        then status_code s else StatusCode.UNKNOWN in
      Some (newRuntimeProtocolError code (status_message s))
  end.

(** ** Limits *)

Definition PROTOCOL_VERSION : Z := 2.
Definition DEFAULT_TIMEOUT_MS : Z := 30000.
Definition INITIAL_CALL_CREDIT_BYTES : Z := 1024 * 1024.
Definition MAX_FRAME_BYTES : Z := 1024 * 1024.
Definition MAX_PENDING_RESPONSE_BYTES : Z := 8 * 1024 * 1024.
Definition MAX_PENDING_REQUEST_BYTES : Z := 8 * 1024 * 1024.
Definition MAX_PENDING_SEND_BYTES : Z := 16 * 1024 * 1024.
Definition MAX_PENDING_SEND_BATCHES : Z := 256.
Definition MAX_LOCALLY_CANCELLED_CALLS : Z := 1024.
Definition MAX_PENDING_CALLS : Z := 128.

(** What [ensureCallAdmission] throws, if anything. *)
Definition ensureCallAdmission (isClosed isReady : bool) (pendingCount : Z) : option thrown :=
  if isClosed
  then Some (newRuntimeProtocolError StatusCode.UNAVAILABLE (js "Runtime connection closed")) else
  if negb isReady
  then Some (newRuntimeProtocolError StatusCode.UNAVAILABLE
               (js "Runtime protocol handshake is incomplete")) else
  if pendingCount >=? MAX_PENDING_CALLS
  then Some (newRuntimeProtocolError StatusCode.RESOURCE_EXHAUSTED
               (js "Runtime protocol has too many pending calls"))
  else None.

(** ** Peers and features *)

Inductive peer_kind := chrome_extension | ios_app.

Record RuntimePeerInfo := mkPeerInfo {
  pi_kind : peer_kind;
  pi_reverseCalls : bool;
  pi_name : jsstring;
  pi_version : jsstring;
  pi_instanceId : jsstring
}.

Definition resolvePeerKind (kind : peer_kind) : Z :=
  match kind with
  | chrome_extension => PeerKind.CHROME_EXTENSION
  | ios_app => PeerKind.IOS_APP
  end.

Definition resolveTransportFeatures (info : RuntimePeerInfo) : list Z :=
  match pi_kind info with
  | ios_app => []
  | chrome_extension =>
      if pi_reverseCalls info
      then [TransportFeature.ROUTED_CALLS; TransportFeature.REVERSE_CALLS]
      else [TransportFeature.ROUTED_CALLS]
  end.

(** ** Timeouts *)

(** [Math.ceil] of a finite number. *)
Definition ceil_finite (negative : bool) (m : positive) (e : Z) : Z :=
  let v := if negative then Zneg m else Zpos m in
  if 0 <=? e then v * 2 ^ e else - ((- v) / 2 ^ (- e)).

Definition clamp_timeout (ms : Z) : Z := Z.max 1 (Z.min ms 0xffffffff).

Definition boundedTimeout (timeoutMs fallbackMs : option spec_float) : outcome thrown Z :=
  match (match timeoutMs with Some t => Some t | None => fallbackMs end) with
  | None => Ret 0
  | Some (S754_zero _) => Ret (clamp_timeout 0)
  | Some (S754_finite s m e) => Ret (clamp_timeout (ceil_finite s m e))
  | Some (S754_infinity _) | Some S754_nan =>
      Exn (newRuntimeProtocolError StatusCode.INVALID_ARGUMENT
             (js "Runtime call timeout must be finite"))
  end.

(** The delay [setTimeout(handler, ms)] waits: its argument is converted to a signed
    32-bit integer, and a negative delay is zero (HTML, "timer initialization steps"). *)
Definition timer_delay (ms : Z) : Z :=
  let w := ms mod 2 ^ 32 in
  Z.max 0 (if w <? 2 ^ 31 then w else w - 2 ^ 32).

(** ** Calls *)

(** [call.options.signal]: whether it is aborted, and why. *)
Record RuntimeCall := mkCall {
  rc_method : jsstring;
  rc_payload : bytes;
  rc_destination : option jsstring;  (** [options.destination.environmentId] *)
  rc_signal : option (option thrown);
  rc_timeoutMs : option spec_float
}.

Definition signal_aborted (call : RuntimeCall) : option thrown :=
  match rc_signal call with Some r => r | None => None end.

(** [Welcome]; [daemonVersion] is not read. *)
Record Welcome := mkWelcome {
  wl_protocolVersion : Z;
  wl_runtimeId : jsstring;
  wl_sessionId : jsstring;
  wl_maxFrameBytes : Z;
  wl_initialCallCreditBytes : Z;
  wl_keepAliveIntervalMs : Z;
  wl_enabledTransportFeatures : list Z
}.

Definition has_feature (f : Z) (w : option Welcome) : bool :=
  match w with
  | Some w => bool_decide (f ∈ wl_enabledTransportFeatures w)
  | None => false
  end.

(** The white space and line terminators [String.prototype.trim] removes. *)
Definition is_js_space (c : Z) : bool :=
  between 0x09 c 0x0d || (c =? 0x20) || (c =? 0xa0) || (c =? 0x1680) || between 0x2000 c 0x200a
  || (c =? 0x2028) || (c =? 0x2029) || (c =? 0x202f) || (c =? 0x205f) || (c =? 0x3000)
  || (c =? 0xfeff).

Fixpoint trim_start (s : jsstring) : jsstring :=
  match s with
  | c :: rest => if is_js_space c then trim_start rest else s
  | [] => []
  end.

Definition js_trim (s : jsstring) : jsstring := rev (trim_start (rev (trim_start s))).

(** What [ensureCallDestination] throws, if anything. *)
Definition ensureCallDestination (call : RuntimeCall) (welcome : option Welcome) : option thrown :=
  match rc_destination call with
  | None => None
  | Some environmentId =>
      if bool_decide (js_trim environmentId = [])
      then Some (newRuntimeProtocolError StatusCode.INVALID_ARGUMENT
                   (js "Runtime environment destination is invalid")) else
      if negb (has_feature TransportFeature.ROUTED_CALLS welcome)
      then Some (newRuntimeProtocolError StatusCode.FAILED_PRECONDITION
                   (js "Runtime connection did not negotiate routed calls"))
      else None
  end.

(** ** Deadlines *)

(** [n >= x] for a finite number [x]. *)
Definition reaches (n : Z) (x : spec_float) : Prop :=
  match x with
  | S754_zero _ => 0 <= n
  | S754_finite s m e =>
      let v := if s then Zneg m else Zpos m in
      if 0 <=? e then v * 2 ^ e <= n else v <= n * 2 ^ (- e)
  | S754_infinity _ | S754_nan => False
  end.

Lemma ceil_finite_spec s m e :
  reaches (ceil_finite s m e) (S754_finite s m e) /\
  ~ reaches (ceil_finite s m e - 1) (S754_finite s m e).
Proof.
  unfold reaches, ceil_finite. set (v := if s then Zneg m else Zpos m).
  destruct (0 <=? e) eqn:E; bool_prop; [lia|].
  assert (Hp : 0 < 2 ^ (- e)) by (apply Z.pow_pos_nonneg; lia).
  set (d := 2 ^ (- e)) in *. pose proof (Z.div_mod (- v) d ltac:(lia)).
  pose proof (Z.mod_pos_bound (- v) d Hp). nia.
Qed.

Lemma reaches_mono a b x : a <= b -> reaches a x -> reaches b x.
Proof.
  intros H. destruct x as [|?| |s m e]; cbn; try done; [lia|].
  set (v := if s then Zneg m else Zpos m). destruct (0 <=? e) eqn:E; bool_prop; [lia|].
  assert (Hp : 0 < 2 ^ (- e)) by (apply Z.pow_pos_nonneg; lia). nia.
Qed.

(** The deadline of a call: the timer is set to the requested number of milliseconds
    rounded up, at least 1 and at most 2^32 - 1.  Up to 2^31 - 1 the timer waits that
    long; beyond, its argument wraps to a negative number and it fires at once. *)
Theorem call_deadline timeoutMs fallbackMs x ms :
  match timeoutMs with Some t => Some t | None => fallbackMs end = Some x ->
  boundedTimeout timeoutMs fallbackMs = Ret ms ->
  1 <= ms <= 2 ^ 32 - 1 /\
  (ms < 2 ^ 32 - 1 -> reaches ms x) /\ (1 < ms -> ~ reaches (ms - 1) x) /\
  timer_delay ms = (if ms <? 2 ^ 31 then ms else 0).
Proof.
  intros Hx. unfold boundedTimeout. rewrite Hx.
  assert (Ht : forall ms, 1 <= ms <= 2 ^ 32 - 1 -> timer_delay ms = (if ms <? 2 ^ 31 then ms else 0)).
  { intros n Hn. unfold timer_delay. rewrite Z.mod_small by lia. repeat case_if; bool_prop; lia. }
  destruct x as [b|?| |s m e]; intros H; try done; injection H as <-; unfold clamp_timeout.
  - split_and!; [lia | lia | cbn; lia | cbn; lia | apply Ht; lia].
  - destruct (ceil_finite_spec s m e) as [H1 H2]. set (c := ceil_finite s m e) in *.
    split_and!; [lia | lia | | | apply Ht; lia].
    + intros H3. eapply reaches_mono; [|exact H1]. lia.
    + intros H3 H4. apply H2. eapply reaches_mono; [|exact H4]. lia.
Qed.

(** Half a second and a bit; thirty days, for which the timer fires at once. *)
Lemma call_deadline_witness :
  let half := SpecFloat.S754_finite false 1001 (-1) in
  let month := number_of_Z 2592000000 in
  (boundedTimeout (Some half) None = Ret 501 /\ timer_delay 501 = 501 /\
   boundedTimeout (Some month) None = Ret 2592000000 /\ timer_delay 2592000000 = 0) /\
  (1 <= 2592000000 <= 2 ^ 32 - 1 /\
   (2592000000 < 2 ^ 32 - 1 -> reaches 2592000000 month) /\
   (1 < 2592000000 -> ~ reaches (2592000000 - 1) month) /\
   timer_delay 2592000000 = (if 2592000000 <? 2 ^ 31 then 2592000000 else 0)).
Proof.
  intros half month. split; [vm_compute; done|].
  apply (call_deadline (Some month) None month 2592000000); vm_compute; reflexivity.
Defined.
