(* ===== verification/CallTables.v ===== *)
(** The call identifiers of a client: their allocation (call-id-sequence.ts) and the
    memory of the calls cancelled locally (locally-cancelled-calls.ts), whose late frames
    are ignored. *)

From stdpp Require Import base list gmap.
From Stdlib Require Import ZArith Lia ZifyBool String.
From S2P Require Import Prelude JsText Json RpcValues.

Open Scope Z_scope.

#[local] Set Warnings "-clear-no-such-hyp".

(** ** ClientCallIdSequence *)

Definition MAX_CALL_ID : Z := 0xffffffffffffffff.

(** [next]; zero when every odd 64-bit id has been used. *)
Record ClientCallIdSequence := mkCallIds { next : Z }.

Definition newCallIds : ClientCallIdSequence := mkCallIds 1.

Definition exhausted_call_ids : thrown :=
  newRuntimeProtocolError StatusCode.RESOURCE_EXHAUSTED
    (js "Runtime protocol exhausted client call IDs").

Definition allocate (c : ClientCallIdSequence) : outcome thrown Z * ClientCallIdSequence :=
  if next c =? 0 then (Exn exhausted_call_ids, c) else
  let callId := next c in
  (Ret callId, mkCallIds (if callId =? MAX_CALL_ID then 0 else callId + 2)).

Definition isRetired (c : ClientCallIdSequence) (callId : Z) : bool :=
  (callId >? 0) && (callId mod 2 =? 1) && ((next c =? 0) || (callId <? next c)).

(** ** LocallyCancelledCalls *)

Record LocallyCancelledCalls := mkCancelled {
  ids : gset Z;
  lc_limit : nat;
  lc_next : nat;
  storage : list Z
}.

Definition newCancelled (limit : nat) : LocallyCancelledCalls := mkCancelled ∅ limit 0 [].

Definition contains (callId : Z) (c : LocallyCancelledCalls) : bool :=
  bool_decide (callId ∈ ids c).

Definition cancelled_delete (callId : Z) (c : LocallyCancelledCalls) : bool * LocallyCancelledCalls :=
  (contains callId c, mkCancelled (ids c ∖ {[callId]}) (lc_limit c) (lc_next c) (storage c)).

Definition cancelled_insert (callId : Z) (c : LocallyCancelledCalls) : LocallyCancelledCalls :=
  if contains callId c then c else
  let added := ids c ∪ {[callId]} in
  if (List.length (storage c) <? lc_limit c)%nat
  then mkCancelled added (lc_limit c) (lc_next c) (storage c ++ [callId])
  else
    mkCancelled
      (match storage c !! lc_next c with Some old => added ∖ {[old]} | None => added end)
      (lc_limit c) ((lc_next c + 1) mod lc_limit c)%nat (<[lc_next c := callId]> (storage c)).

(** ** Reference: the last [limit] cancelled calls

    The calls cancelled, newest first, each with whether its end is still awaited. *)

Inductive cancel_op :=
  | cancelled (callId : Z)
  | ended (callId : Z).

Definition run_cancel_op (c : LocallyCancelledCalls) (o : cancel_op) : LocallyCancelledCalls :=
  match o with
  | cancelled id => cancelled_insert id c
  | ended id => snd (cancelled_delete id c)
  end.

Definition window_op (limit : nat) (w : list (Z * bool)) (o : cancel_op) : list (Z * bool) :=
  match o with
  | cancelled id => take limit ((id, true) :: w)
  | ended id => (fun e => (fst e, snd e && negb (fst e =? id))) <$> w
  end.

(** A peer cancels a call once: no id is cancelled while the window remembers it. *)
Fixpoint cancels_fresh (limit : nat) (w : list (Z * bool)) (l : list cancel_op) : bool :=
  match l with
  | [] => true
  | o :: rest =>
      match o with
      | cancelled id => bool_decide (id ∉ fst <$> w)
      | ended _ => true
      end && cancels_fresh limit (window_op limit w o) rest
  end.

(** The ring, oldest entry first. *)
Definition rotated (c : LocallyCancelledCalls) : list Z :=
  drop (lc_next c) (storage c) ++ take (lc_next c) (storage c).

Record cancel_sim (limit : nat) (w : list (Z * bool)) (c : LocallyCancelledCalls) : Prop := {
  cs_limit : lc_limit c = limit;
  cs_ring : rotated c = rev (fst <$> w);
  cs_next : (lc_next c < limit)%nat;
  cs_filling : (List.length (storage c) < limit)%nat -> lc_next c = 0%nat;
  cs_length : (List.length (storage c) <= limit)%nat;
  cs_distinct : NoDup (fst <$> w);
  cs_ids : forall id, id ∈ ids c <-> (id, true) ∈ w
}.

Lemma length_window limit w c : cancel_sim limit w c -> List.length w = List.length (storage c).
Proof.
  intros H. pose proof (f_equal List.length (cs_ring _ _ _ H)) as E.
  unfold rotated in E. rewrite length_app, length_drop, length_take, length_rev, length_fmap in E.
  lia.
Qed.

Lemma sim_new limit : (0 < limit)%nat -> cancel_sim limit [] (newCancelled limit).
Proof.
  intros H. split; cbn; try done; try lia; [constructor|]. set_solver.
Qed.

Lemma sim_ended limit w c id :
  cancel_sim limit w c -> cancel_sim limit (window_op limit w (ended id)) (run_cancel_op c (ended id)).
Proof.
  intros H. destruct H as [H1 H2 H3 H4 H5 H6 H7].
  assert (E : fst <$> window_op limit w (ended id) = fst <$> w).
  { cbn. rewrite <- list_fmap_compose. by apply list_fmap_ext. }
  split; rewrite ?E; try done. intros x. cbn. rewrite elem_of_difference, elem_of_singleton, H7.
  rewrite list_elem_of_fmap. split.
  - intros [Hx Hn]. exists (x, true). cbn. split; [|done]. f_equal. symmetry.
    apply negb_true_iff, Z.eqb_neq. done.
  - intros ([y b] & Heq & Hy). cbn in Heq. simplify_eq. symmetry in H0.
    apply andb_true_iff in H0 as [-> Hn]. split; [done|]. intros ->. by rewrite Z.eqb_refl in Hn.
Qed.

(** Inserting in the ring: at the end while it fills, over the oldest entry after. *)
Lemma sim_cancelled limit w c id : (0 < limit)%nat -> (id ∉ fst <$> w) ->
  cancel_sim limit w c ->
  cancel_sim limit (window_op limit w (cancelled id)) (run_cancel_op c (cancelled id)).
Proof.
  intros Hl Hn H. pose proof (length_window _ _ _ H) as Hlen. destruct H as [H1 H2 H3 H4 H5 H6 H7].
  assert (Hc : contains id c = false).
  { apply bool_decide_eq_false. rewrite H7. intros Hin. apply Hn.
    apply list_elem_of_fmap. by exists (id, true). }
  cbn [run_cancel_op window_op]. unfold cancelled_insert. rewrite Hc, H1.
  destruct (List.length (storage c) <? limit)%nat eqn:Ef.
  - apply Nat.ltb_lt in Ef. rewrite take_ge by (cbn; lia).
    specialize (H4 Ef). unfold rotated in H2. rewrite H4, drop_0, take_0, app_nil_r in H2.
    split; cbn [lc_limit lc_next storage ids fmap list_fmap fst]; try done.
    + unfold rotated. cbn. rewrite H4, drop_0, take_0, app_nil_r. by rewrite H2.
    + rewrite length_app. cbn. lia.
    + by constructor.
    + intros x. rewrite elem_of_union, elem_of_singleton, H7, elem_of_cons. naive_solver.
  - apply Nat.ltb_ge in Ef. assert (Hst : List.length (storage c) = limit) by lia.
    destruct limit as [|n]; [lia|]. cbn [take].
    destruct (lookup_lt_is_Some_2 (storage c) (lc_next c)) as [old Hold]; [lia|]. rewrite Hold.
    (* the oldest entry of the window *)
    assert (Hw : exists w' b, w = w' ++ [(old, b)] /\ List.length w' = n).
    { destruct w as [|[o b] w' _] using rev_ind; [cbn in Hlen; lia|].
      exists w', b. rewrite length_app in Hlen. cbn in Hlen. split; [|lia].
      rewrite fmap_app, rev_app_distr in H2. unfold rotated in H2.
      rewrite (drop_S _ _ _ Hold) in H2. cbn in H2. by simplify_eq. }
    destruct Hw as (w' & b & -> & Hw'). rewrite take_app_length' by lia.
    rewrite fmap_app, rev_app_distr in H2. cbn in H2.
    rewrite fmap_app in H6, Hn. apply NoDup_app in H6 as (Hd & Hold' & _).
    assert (Hout : (old ∉ fst <$> w')). { intros Hin. apply (Hold' _ Hin). by left. }
    unfold rotated in H2. rewrite (drop_S _ _ _ Hold) in H2. cbn in H2.
    injection H2 as H2.
    split; cbn [lc_limit lc_next storage ids fmap list_fmap fst]; try done.
    + unfold rotated. cbn [lc_next storage fmap list_fmap rev fst].
      destruct (decide (lc_next c = n)) as [En|En].
      * rewrite En in *. replace ((n + 1) mod S n)%nat with 0%nat
          by (replace (n + 1)%nat with (S n) by lia; by rewrite Nat.Div0.mod_same).
        rewrite drop_0, take_0, app_nil_r, <- H2.
        rewrite drop_ge by lia. cbn.
        rewrite insert_take_drop by lia. f_equal. rewrite drop_ge by lia. done.
      * rewrite Nat.mod_small by lia. rewrite drop_insert_lt by lia.
        replace (lc_next c + 1)%nat with (S (lc_next c)) by lia.
        rewrite (take_S_r _ _ id) by (rewrite list_lookup_insert_eq; [done | lia]).
        rewrite take_insert_ge by lia.
        by rewrite app_assoc, H2.
    + apply Nat.mod_upper_bound. lia.
    + rewrite length_insert. lia.
    + rewrite length_insert. lia.
    + constructor; [|done]. intros Hin. apply Hn. apply elem_of_app. by left.
    + intros x. rewrite elem_of_difference, elem_of_union, !elem_of_singleton, H7.
      rewrite elem_of_app, !elem_of_cons, elem_of_nil. split.
      * intros [[[Hx | [Hx | []]] | ->] Hx']; [by right | by simplify_eq | by left].
      * intros [Hx | Hx].
        -- simplify_eq. split; [by right|]. intros ->. apply Hn. rewrite elem_of_app. right. by left.
        -- split; [by left; left|]. intros ->. apply Hout. apply list_elem_of_fmap. by exists (old, true).
Qed.

Lemma sim_run limit l : (0 < limit)%nat -> forall w c,
  cancel_sim limit w c -> cancels_fresh limit w l = true ->
  cancel_sim limit (fold_left (window_op limit) l w) (fold_left run_cancel_op l c).
Proof.
  intros Hl. induction l as [|o l IH]; intros w c H Hf; [done|].
  rewrite !fold_left_cons. cbn in Hf. apply andb_true_iff in Hf as [Ho Hf]. apply IH; [|done].
  destruct o as [id|id]; [apply sim_cancelled | apply sim_ended]; try done.
  by apply bool_decide_eq_true in Ho.
Qed.

(** The memory of the cancelled calls is exactly the last [limit] of them: after any
    sequence of cancellations of fresh calls and of received ends, an id is contained if
    and only if it is among the last [limit] cancelled and its end was not received; the
    memory never holds more than [limit] ids. *)
Theorem cancelled_calls_window limit l :
  (0 < limit)%nat -> cancels_fresh limit [] l = true ->
  let c := fold_left run_cancel_op l (newCancelled limit) in
  (forall id, contains id c = bool_decide ((id, true) ∈ fold_left (window_op limit) l [])) /\
  (List.length (storage c) <= limit)%nat /\ (size (ids c) <= limit)%nat.
Proof.
  intros Hl Hf c. pose proof (sim_run _ _ Hl _ _ (sim_new _ Hl) Hf) as H. fold c in H.
  pose proof (length_window _ _ _ H) as Hw. destruct H as [_ _ _ _ Hlen Hd Hids].
  set (w := fold_left (window_op limit) l []) in *. split_and!; [|done|].
  - intros id. unfold contains. apply bool_decide_ext, Hids.
  - rewrite <- Hw in Hlen. etrans; [|exact Hlen].
    rewrite <- (length_fmap fst w). rewrite <- (size_list_to_set (C := gset Z)) by done.
    apply subseteq_size. intros id Hin%Hids. apply elem_of_list_to_set, list_elem_of_fmap.
    by exists (id, true).
Qed.

(** A ring of two: the third cancellation forgets the first call, the end of the second
    is remembered. *)
Lemma cancelled_calls_window_witness :
  let l := [cancelled 1; cancelled 3; ended 3; cancelled 5] in
  let c := fold_left run_cancel_op l (newCancelled 2) in
  (contains 1 c, contains 3 c, contains 5 c) = (false, false, true) /\
  (forall id, contains id c = bool_decide ((id, true) ∈ fold_left (window_op 2) l [])).
Proof.
  split; [vm_compute; reflexivity|].
  apply (cancelled_calls_window 2); [lia | vm_compute; reflexivity].
Defined.

(** ** Call ids *)

(** [n] allocations. *)
Fixpoint allocations (n : nat) (c : ClientCallIdSequence) : list (outcome thrown Z) * ClientCallIdSequence :=
  match n with
  | O => ([], c)
  | S n =>
      let '(r, c) := allocate c in
      let '(rs, c) := allocations n c in (r :: rs, c)
  end.

(** What is true of a sequence after [n] allocations. *)
Definition allocated (n : Z) : ClientCallIdSequence :=
  mkCallIds (if n <? 2 ^ 63 then 2 * n + 1 else 0).

Lemma allocate_spec n : 0 <= n ->
  allocate (allocated n) =
    (if n <? 2 ^ 63 then (Ret (2 * n + 1), allocated (n + 1)) else (Exn exhausted_call_ids, allocated n)).
Proof.
  intros Hn. unfold allocate, allocated, MAX_CALL_ID. cbn [next].
  destruct (n <? 2 ^ 63) eqn:E; bool_prop; [|done].
  replace (2 * n + 1 =? 0) with false by lia.
  destruct (n + 1 <? 2 ^ 63) eqn:E1; bool_prop.
  - replace (2 * n + 1 =? 0xffffffffffffffff) with false by lia. do 2 f_equal. lia.
  - replace (2 * n + 1 =? 0xffffffffffffffff) with true by lia. done.
Qed.

Lemma allocations_spec n : forall k, 0 <= k ->
  let '(rs, c) := allocations n (allocated k) in
  List.length rs = n /\ c = allocated (Z.min (k + Z.of_nat n) (Z.max k (2 ^ 63))) /\
  forall i r, rs !! i = Some r ->
    r = if k + Z.of_nat i <? 2 ^ 63 then Ret (2 * (k + Z.of_nat i) + 1) else Exn exhausted_call_ids.
Proof.
  induction n as [|n IH]; intros k Hk; cbn [allocations].
  { split_and!; [done | f_equal; lia | done]. }
  rewrite allocate_spec by done. destruct (k <? 2 ^ 63) eqn:E; bool_prop.
  - specialize (IH (k + 1) ltac:(lia)). destruct (allocations n (allocated (k + 1))) as [rs c].
    destruct IH as (Hlen & -> & H). split_and!; [cbn; lia | f_equal; lia|].
    intros [|i] r Hi; cbn in Hi; [|apply H in Hi as ->].
    + injection Hi as <-. replace (k + Z.of_nat 0) with k by lia. by replace (k <? 2 ^ 63) with true by lia.
    + by replace (k + Z.of_nat (S i)) with (k + 1 + Z.of_nat i) by lia.
  - specialize (IH k Hk). destruct (allocations n (allocated k)) as [rs c].
    destruct IH as (Hlen & -> & H). split_and!; [cbn; lia | f_equal; lia|].
    intros [|i] r Hi; cbn in Hi; [|apply H in Hi as ->].
    + injection Hi as <-. by replace (k + Z.of_nat 0 <? 2 ^ 63) with false by lia.
    + replace (k + Z.of_nat i <? 2 ^ 63) with false by lia.
      by replace (k + Z.of_nat (S i) <? 2 ^ 63) with false by lia.
Qed.

Lemma isRetired_spec n id : 0 <= n <= 2 ^ 63 ->
  isRetired (allocated n) id = true <->
  id mod 2 = 1 /\ 0 < id /\ (n = 2 ^ 63 \/ id <= 2 * n - 1).
Proof.
  intros Hn. unfold isRetired, allocated. cbn [next].
  pose proof (Z.div_mod id 2 ltac:(lia)) as Hd.
  destruct (n <? 2 ^ 63) eqn:E; bool_prop; lia.
Qed.

(** The first 2^63 allocations of a client return the odd ids 1, 3, 5, ... in order,
    all of 64 bits, every later one fails, and the retired ids are exactly the ids
    returned. *)
Theorem call_ids_allocated n :
  let '(rs, c) := allocations n newCallIds in
  (forall i r, rs !! i = Some r ->
     r = if Z.of_nat i <? 2 ^ 63 then Ret (2 * Z.of_nat i + 1) else Exn exhausted_call_ids) /\
  (forall i id, rs !! i = Some (Ret id) -> 0 < id <= MAX_CALL_ID) /\
  (forall id, id <= MAX_CALL_ID -> isRetired c id = true <-> Ret id ∈ rs).
Proof.
  pose proof (allocations_spec n 0 ltac:(lia)) as H. change (allocated 0) with newCallIds in H.
  destruct (allocations n newCallIds) as [rs c]. destruct H as (Hlen & -> & H).
  split_and!.
  - intros i r Hi. by rewrite (H i r Hi).
  - intros i id Hi. apply H in Hi. unfold MAX_CALL_ID. case_if_in Hi; [|done]. injection Hi as ->. bool_prop. lia.
  - unfold MAX_CALL_ID. intros id Hid. rewrite isRetired_spec by lia. rewrite list_elem_of_lookup. split.
    + intros (Ho & Hp & Hb). pose proof (Z.div_mod id 2 ltac:(lia)) as Hd.
      destruct (lookup_lt_is_Some_2 rs (Z.to_nat (id / 2))) as [r Hr]; [lia|].
      exists (Z.to_nat (id / 2)). rewrite Hr. f_equal. rewrite (H _ _ Hr).
      rewrite Z2Nat.id by lia. replace (0 + id / 2 <? 2 ^ 63) with true by lia.
      f_equal. lia.
    + intros [i Hi]. pose proof (lookup_lt_Some _ _ _ Hi). apply H in Hi. case_if_in Hi; [|done].
      injection Hi as ->. bool_prop. split_and!; [|lia|lia].
      replace (2 * (0 + Z.of_nat i) + 1) with (1 + (Z.of_nat i) * 2) by lia.
      rewrite Z.mod_add by lia. done.
Qed.
