(* ===== verification/EventStream.v ===== *)
(** The event stream of a streaming call
    (packages/protocol/typescript/src/event-stream.ts): the queue it is built on and the
    stream itself.

    A stream lives in a larger state [S], reached by a lens; its callbacks [onConsumed]
    and [onCancel] are computations over [S], called where the source calls them.  The
    promise a consumer reads with is a number; [settle p r] is the effect of settling it. *)

From stdpp Require Import base list.
From Stdlib Require Import ZArith Lia ZifyBool String.
From S2P Require Import Prelude JsText Json Effects RpcValues.

Open Scope Z_scope.

#[local] Set Warnings "-clear-no-such-hyp".

(** ** StreamQueue *)

Record StreamQueue (A : Type) := mkQueue {
  head : nat;
  values : list A
}.
Arguments mkQueue {A}.
Arguments head {A}.
Arguments values {A}.

Section queue.
Context {A : Type}.

Definition newQueue : StreamQueue A := mkQueue 0 [].

Definition queue_size (q : StreamQueue A) : Z := Z.of_nat (List.length (values q)) - Z.of_nat (head q).

Definition queue_clear (_ : StreamQueue A) : StreamQueue A := mkQueue 0 [].

Definition queue_push (value : A) (q : StreamQueue A) : StreamQueue A :=
  mkQueue (head q) (values q ++ [value]).

Definition queue_shift (q : StreamQueue A) : option A * StreamQueue A :=
  match values q !! head q with
  | None => (None, q)
  | Some value =>
      let head := (head q + 1)%nat in
      if (64 <=? head)%nat && (List.length (values q) <=? head * 2)%nat
      then (Some value, mkQueue 0 (drop head (values q)))
      else (Some value, mkQueue head (values q))
  end.

Definition queue_takeAll (q : StreamQueue A) : list A * StreamQueue A :=
  (drop (head q) (values q), queue_clear q).
End queue.

(** ** RuntimeEventStream *)

Definition MAX_BUFFERED_BYTES : Z := 1024 * 1024.
Definition MAX_BUFFERED_EVENTS : Z := 1024.
Definition MAX_WAITING_CONSUMERS : Z := 128.

Record RuntimeEventStream := mkEventStream {
  buffered : StreamQueue bytes;
  bufferedBytes : Z;
  failure : option thrown;
  isEnded : bool;
  waiting : StreamQueue Z
}.

Definition newEventStream : RuntimeEventStream := mkEventStream newQueue 0 None false newQueue.

(** What a read promise settles with. *)
Inductive read_result :=
  | read_value (value : bytes)
  | read_done
  | read_rejected (error : thrown).

Section stream.
Context {S O X : Type}.
Variable this : lens S RuntimeEventStream.
Variable onConsumed : Z -> M S O X unit.
Variable onCancel : Z -> jsstring -> M S O X unit.
Variable settle : Z -> read_result -> O.

Definition assign (f : RuntimeEventStream -> RuntimeEventStream) : M S O X unit :=
  modify (fun s => update this (f (view this s)) s).

Definition set_buffered (q : StreamQueue bytes) (n : Z) (e : RuntimeEventStream) : RuntimeEventStream :=
  mkEventStream q n (failure e) (isEnded e) (waiting e).

Definition set_waiting (q : StreamQueue Z) (e : RuntimeEventStream) : RuntimeEventStream :=
  mkEventStream (buffered e) (bufferedBytes e) (failure e) (isEnded e) q.

Definition set_ended (e : RuntimeEventStream) : RuntimeEventStream :=
  mkEventStream (buffered e) (bufferedBytes e) (failure e) true (waiting e).

(** [next()]; [p] is the promise it returns. *)
Definition stream_next (p : Z) : M S O X unit :=
  (s <- get ;;
   let e := view this s in
   match queue_shift (buffered e) with
   | (Some value, q) =>
       assign (set_buffered q (bufferedBytes e - byteLength value)) ;;;
       onConsumed (byteLength value) ;;;
       emit (settle p (read_value value))
   | (None, _) =>
       match failure e with
       | Some error => emit (settle p (read_rejected error))
       | None =>
           if isEnded e then emit (settle p read_done) else
           if queue_size (waiting e) >=? MAX_WAITING_CONSUMERS
           then emit (settle p (read_rejected
                  (newRuntimeProtocolError StatusCode.RESOURCE_EXHAUSTED
                     (js "Too many pending stream reads"))))
           else assign (set_waiting (queue_push p (waiting e)))
       end
   end)%eff.

(** [for (const consumer of this.waiting.takeAll()) settle(consumer)]. *)
Definition settle_waiting (r : read_result) : M S O X unit :=
  (s <- get ;;
   let '(consumers, q) := queue_takeAll (waiting (view this s)) in
   assign (set_waiting q) ;;;
   for_each (fun p => emit (settle p r)) consumers)%eff.

(** [return()]; [onCancel] settles [p] when it is done. *)
Definition stream_return (p : Z) : M S O X unit :=
  (s <- get ;;
   let e := view this s in
   assign (fun e => set_buffered (queue_clear (buffered e)) 0 (set_ended e)) ;;;
   (if bufferedBytes e >? 0 then onConsumed (bufferedBytes e) else ret tt) ;;;
   settle_waiting read_done ;;;
   if negb (isEnded e) then onCancel p (js "Runtime stream consumer stopped")
   else emit (settle p read_done))%eff.

Definition stream_push (value : bytes) : M S O X bool :=
  (s <- get ;;
   let e := view this s in
   if isEnded e then ret false else
   match queue_shift (waiting e) with
   | (Some consumer, q) =>
       assign (set_waiting q) ;;;
       onConsumed (byteLength value) ;;;
       emit (settle consumer (read_value value)) ;;;
       ret true
   | (None, _) =>
       if (queue_size (buffered e) >=? MAX_BUFFERED_EVENTS)
          || (bufferedBytes e + byteLength value >? MAX_BUFFERED_BYTES)
       then ret false
       else assign (set_buffered (queue_push value (buffered e)) (bufferedBytes e + byteLength value)) ;;;
            ret true
   end)%eff.

Definition stream_end : M S O X unit :=
  (assign set_ended ;;; settle_waiting read_done)%eff.

Definition stream_fail (error : thrown) : M S O X unit :=
  (assign (fun e => mkEventStream (queue_clear (buffered e)) 0 (Some error) true (waiting e)) ;;;
   settle_waiting (read_rejected error))%eff.
End stream.

(** ** The queue is a FIFO list *)

Section queue_laws.
Context {A : Type}.
Implicit Types q : StreamQueue A.

(** The values still in the queue, oldest first. *)
Definition contents q : list A := drop (head q) (values q).

(** What is kept of the values already taken is bounded by what is still in the queue. *)
Definition queue_ok q : Prop :=
  (head q <= List.length (values q))%nat /\ ((head q < 64)%nat \/ (2 * head q < List.length (values q))%nat).

Lemma queue_ok_new : queue_ok newQueue.
Proof. split; cbn; lia. Qed.

Lemma queue_size_contents q : queue_ok q -> queue_size q = Z.of_nat (List.length (contents q)).
Proof. intros [H _]. unfold queue_size, contents. rewrite length_drop. lia. Qed.

Lemma queue_push_spec x q : queue_ok q ->
  queue_ok (queue_push x q) /\ contents (queue_push x q) = contents q ++ [x].
Proof.
  intros [H1 H2]. unfold queue_ok, queue_push, contents. cbn.
  rewrite length_app. cbn. split; [lia|]. rewrite drop_app_le by lia. done.
Qed.

Lemma queue_shift_spec q : queue_ok q ->
  queue_ok (snd (queue_shift q)) /\
  match fst (queue_shift q) with
  | Some x => contents q = x :: contents (snd (queue_shift q))
  | None => contents q = [] /\ snd (queue_shift q) = q
  end.
Proof.
  intros [H1 H2]. unfold queue_ok, queue_shift, contents in *.
  destruct (values q !! head q) as [x|] eqn:E.
  - pose proof (lookup_lt_Some _ _ _ E) as Hl.
    pose proof (drop_S _ _ _ E) as Hd. rewrite <- Nat.add_1_r in Hd.
    case_if; cbn [fst snd head values].
    + rewrite length_drop, drop_0. split; [lia | exact Hd].
    + apply andb_false_iff in E0 as [E0|E0]; apply Nat.leb_gt in E0; (split; [lia | exact Hd]).
  - apply lookup_ge_None in E. cbn [fst snd]. rewrite drop_ge by done. split_and!; done || lia.
Qed.

Lemma contents_takeAll q : fst (queue_takeAll q) = contents q.
Proof. done. Qed.

Lemma contents_new : contents newQueue = [].
Proof. done. Qed.

(** The operations of a client of the queue, and what it sees. *)
Inductive queue_op := op_push (x : A) | op_shift | op_takeAll | op_clear.

Definition queue_run q (o : queue_op) : list A * StreamQueue A :=
  match o with
  | op_push x => ([], queue_push x q)
  | op_shift => let '(r, q) := queue_shift q in (option_list r, q)
  | op_takeAll => queue_takeAll q
  | op_clear => ([], queue_clear q)
  end.

Definition list_run (l : list A) (o : queue_op) : list A * list A :=
  match o with
  | op_push x => ([], l ++ [x])
  | op_shift => (take 1 l, drop 1 l)
  | op_takeAll => (l, [])
  | op_clear => ([], [])
  end.

Fixpoint run_ops {T} (f : T -> queue_op -> list A * T) (ops : list queue_op) (t : T) : list (list A) * T :=
  match ops with
  | [] => ([], t)
  | o :: rest => let '(r, t) := f t o in let '(rs, t) := run_ops f rest t in (r :: rs, t)
  end.

Lemma queue_run_spec q o : queue_ok q ->
  queue_ok (snd (queue_run q o)) /\
  list_run (contents q) o = (fst (queue_run q o), contents (snd (queue_run q o))).
Proof.
  intros H. destruct o as [x| | |]; cbn [queue_run list_run fst snd].
  - destruct (queue_push_spec x q H) as [Ho Hc]. by rewrite Hc.
  - destruct (queue_shift_spec q H) as [Ho Hc].
    destruct (queue_shift q) as [[x|] q']; cbn [fst snd option_list] in *; [by rewrite Hc|].
    destruct Hc as [Hc ->]. by rewrite Hc.
  - split; [apply queue_ok_new | done].
  - split; [apply queue_ok_new | done].
Qed.

(** The queue is a first-in first-out list, although it takes values by moving a
    head and drops the taken prefix only now and then: every sequence of operations on a
    new queue answers what the same operations answer on a list, the size is the number
    of values in that list, and the array kept is at most 63 slots longer than twice
    that number. *)
Theorem stream_queue_fifo ops :
  let '(answers, q) := run_ops queue_run ops newQueue in
  run_ops list_run ops [] = (answers, contents q) /\
  queue_size q = Z.of_nat (List.length (contents q)) /\
  Z.of_nat (List.length (values q)) <= 2 * queue_size q + 63.
Proof.
  assert (H : forall q, queue_ok q -> let '(answers, q') := run_ops queue_run ops q in
    run_ops list_run ops (contents q) = (answers, contents q') /\ queue_ok q').
  { induction ops as [|o ops IH]; intros q Hq; cbn [run_ops]; [done|].
    destruct (queue_run_spec q o Hq) as [Ho ->].
    destruct (queue_run q o) as [r q1]. cbn [fst snd] in *. specialize (IH q1 Ho).
    destruct (run_ops queue_run ops q1) as [rs q2]. by destruct IH as [-> Hq2]. }
  specialize (H newQueue queue_ok_new). rewrite contents_new in H.
  destruct (run_ops queue_run ops newQueue) as [answers q]. destruct H as [H Hq].
  split_and!; [done | by apply queue_size_contents|].
  destruct Hq as [H1 H2]. unfold queue_size. lia.
Qed.
End queue_laws.

(** ** A stream by itself

    The stream with callbacks that only record that they were called. *)

Inductive stream_obs :=
  | obs_settle (p : Z) (r : read_result)
  | obs_consumed (byteLength : Z)
  | obs_cancel (p : Z)
  | obs_accepted (value : bytes).

Inductive stream_event :=
  | se_next (p : Z)
  | se_return (p : Z)
  | se_push (value : bytes)
  | se_end
  | se_fail (error : thrown).

Definition self : lens RuntimeEventStream RuntimeEventStream := mkLens (fun e => e) (fun e _ => e).

Definition stream_step (ev : stream_event) : M RuntimeEventStream stream_obs thrown unit :=
  let consumed n := emit (obs_consumed n) in
  let cancel p (_ : jsstring) := emit (obs_cancel p) in
  (match ev with
   | se_next p => stream_next self consumed obs_settle p
   | se_return p => stream_return self consumed cancel obs_settle p
   | se_push value =>
       accepted <- stream_push self consumed obs_settle value ;;
       if accepted : bool then emit (obs_accepted value) else ret tt
   | se_end => stream_end self obs_settle
   | se_fail error => stream_fail self obs_settle error
   end)%eff.

(** What was read, taken in, consumed and settled. *)
Definition delivered (out : list stream_obs) : list bytes :=
  omap (fun o => match o with obs_settle _ (read_value v) => Some v | _ => None end) out.
Definition accepted (out : list stream_obs) : list bytes :=
  omap (fun o => match o with obs_accepted v => Some v | _ => None end) out.
Definition settled (out : list stream_obs) : list Z :=
  omap (fun o => match o with obs_settle p _ | obs_cancel p => Some p | _ => None end) out.
Definition consumed_bytes (out : list stream_obs) : Z :=
  foldr Z.add 0 (omap (fun o => match o with obs_consumed n => Some n | _ => None end) out).
Definition total (l : list bytes) : Z := foldr Z.add 0 (byteLength <$> l).
Definition reads (evs : list stream_event) : list Z :=
  omap (fun e => match e with se_next p | se_return p => Some p | _ => None end) evs.
Definition is_stop (e : stream_event) : bool :=
  match e with se_return _ | se_fail _ => true | _ => false end.
Definition is_fail (e : stream_event) : bool := match e with se_fail _ => true | _ => false end.

Record stream_inv (evs : list stream_event) (out : list stream_obs) (e : RuntimeEventStream) : Prop := {
  si_buffered : queue_ok (buffered e);
  si_waiting : queue_ok (waiting e);
  si_bytes : bufferedBytes e = total (contents (buffered e));
  si_limit : bufferedBytes e <= MAX_BUFFERED_BYTES;
  si_events : queue_size (buffered e) <= MAX_BUFFERED_EVENTS;
  si_consumers : queue_size (waiting e) <= MAX_WAITING_CONSUMERS;
  si_either : contents (buffered e) = [] \/ contents (waiting e) = [];
  si_ended : isEnded e = true -> contents (waiting e) = [];
  si_order : exists lost, accepted out = delivered out ++ contents (buffered e) ++ lost /\
    (lost <> [] -> isEnded e = true /\ existsb is_stop evs = true);
  si_consumed : existsb is_fail evs = false ->
    consumed_bytes out + bufferedBytes e = total (accepted out);
  si_settled : Permutation (reads evs) (settled out ++ contents (waiting e))
}.

Lemma total_app l1 l2 : total (l1 ++ l2) = total l1 + total l2.
Proof. unfold total. induction l1; cbn in *; lia. Qed.

Lemma consumed_app o1 o2 : consumed_bytes (o1 ++ o2) = consumed_bytes o1 + consumed_bytes o2.
Proof.
  unfold consumed_bytes. rewrite omap_app.
  set (f := fun o => match o with obs_consumed n => Some n | _ => None end).
  induction (omap f o1); cbn; lia.
Qed.

Lemma total_nonneg l : 0 <= total l.
Proof. unfold total. induction l as [|b l IH]; cbn in *; [done|]. pose proof (byteLength_nonneg b). lia. Qed.

(** Settling every waiting consumer. *)
Lemma settle_waiting_self r e :
  settle_waiting (X := thrown) self obs_settle r e =
  (Ret tt, set_waiting newQueue e, (fun p => obs_settle p r) <$> contents (waiting e)).
Proof.
  unfold settle_waiting, assign, bind, get, modify. cbn.
  fold (contents (waiting e)). generalize (contents (waiting e)) as l.
  assert (H : forall l (s : RuntimeEventStream),
    for_each (X := thrown) (fun p => emit (obs_settle p r)) l s = (Ret tt, s, (fun p => obs_settle p r) <$> l)).
  { induction l as [|p l IH]; intros s; cbn; [done|]. unfold bind, emit. by rewrite IH. }
  intros l. by rewrite H.
Qed.

Lemma settled_all l r : settled ((fun p => obs_settle p r) <$> l) = l.
Proof. unfold settled. induction l as [|p l IH]; cbn; [done|]. by rewrite IH. Qed.

Lemma quiet_all l r : (forall v, r <> read_value v) ->
  let out := (fun p => obs_settle p r) <$> l in
  delivered out = [] /\ accepted out = [] /\ consumed_bytes out = 0.
Proof.
  intros Hr. cbn. unfold delivered, accepted, consumed_bytes.
  induction l as [|p l (H1 & H2 & H3)]; cbn; [done|]. destruct r; cbn; [by destruct (Hr value) | |]; done.
Qed.

Ltac obs_app :=
  unfold delivered, accepted, settled, reads in *; rewrite ?omap_app, ?consumed_app, ?existsb_app;
  cbn [omap list_omap existsb is_fail is_stop orb consumed_bytes foldr].

Lemma step_next p evs out e : stream_inv evs out e ->
  let '(_, e', o) := stream_step (se_next p) e in stream_inv (evs ++ [se_next p]) (out ++ o) e'.
Proof.
  intros [B W Hb Hl He Hc Hx Hn (lost & Ho & Hlost) Hs Hp].
  unfold stream_step, stream_next, bind, get. cbn [view self].
  pose proof (queue_shift_spec _ B) as [B' Hq].
  destruct (queue_shift (buffered e)) as [[v|] q]; cbn [fst snd] in *.
  - rewrite Hq in Hb. change (total (v :: contents q)) with (byteLength v + total (contents q)) in Hb.
    pose proof (byteLength_nonneg v).
    assert (Hw : contents (waiting e) = []). { destruct Hx as [Hx|Hx]; [congruence | done]. }
    unfold assign, modify, emit. cbn [app set_buffered update view self].
    split; cbn [set_buffered buffered bufferedBytes failure isEnded waiting]; try done; try lia.
    + rewrite queue_size_contents in * by done. rewrite Hq in He. cbn in He. lia.
    + by right.
    + exists lost. obs_app. rewrite Ho, Hq, app_nil_r, <- app_assoc. split; [done|].
      intros Hne. destruct (Hlost Hne) as [? ->]. done.
    + obs_app. rewrite orb_false_r, app_nil_r. intros Hf. specialize (Hs Hf). unfold accepted in Hs. lia.
    + obs_app. rewrite Hw in *. rewrite !app_nil_r in *. by rewrite Hp.
  - destruct Hq as [Hq ->].
    assert (Hid : forall r, (forall v, r <> read_value v) ->
      stream_inv (evs ++ [se_next p]) (out ++ [obs_settle p r]) e).
    { intros r Hr. assert (delivered [obs_settle p r] = []) as Hd.
      { destruct r; cbn; [by destruct (Hr value) | done | done]. }
      split; try done.
      - exists lost. unfold delivered, accepted in *. rewrite !omap_app, Hd. cbn.
        rewrite !app_nil_r. rewrite existsb_app. cbn. rewrite orb_false_r. done.
      - obs_app. rewrite orb_false_r, app_nil_r. intros Hf. specialize (Hs Hf). unfold accepted in Hs. lia.
      - obs_app. rewrite Hp. solve_Permutation. }
    destruct (failure e) as [err|]; [by apply Hid|].
    destruct (isEnded e) eqn:Een; [by apply Hid|].
    destruct (queue_size (waiting e) >=? MAX_WAITING_CONSUMERS) eqn:Em; [by apply Hid|].
    bool_prop. unfold assign, modify. cbn [set_waiting update view self].
    destruct (queue_push_spec p _ W) as [W' Hw'].
    split; cbn [set_waiting buffered bufferedBytes failure isEnded waiting]; try done.
    + rewrite queue_size_contents in * by done. rewrite Hw', length_app. cbn. lia.
    + by left.
    + by rewrite Een.
    + exists lost. obs_app. rewrite !app_nil_r. rewrite Een in *. rewrite orb_false_r. done.
    + obs_app. rewrite orb_false_r, app_nil_r. intros Hf. specialize (Hs Hf). unfold accepted in Hs. lia.
    + obs_app. rewrite Hw', Hp, app_nil_r. solve_Permutation.
Qed.

Lemma step_push v evs out e : stream_inv evs out e ->
  let '(_, e', o) := stream_step (se_push v) e in stream_inv (evs ++ [se_push v]) (out ++ o) e'.
Proof.
  intros [B W Hb Hl He Hc Hx Hn (lost & Ho & Hlost) Hs Hp].
  unfold stream_step, stream_push, bind, get. cbn [view self].
  assert (Hsame : stream_inv (evs ++ [se_push v]) (out ++ []) e).
  { rewrite app_nil_r. split; try done.
    - exists lost. obs_app. by rewrite orb_false_r.
    - obs_app. by rewrite orb_false_r.
    - obs_app. by rewrite app_nil_r. }
  destruct (isEnded e) eqn:Een; [exact Hsame|].
  assert (lost = []) as ->. { destruct lost; [done|]. by destruct (Hlost ltac:(done)) as [? _]. }
  pose proof (byteLength_nonneg v).
  pose proof (queue_shift_spec _ W) as [W' Hq].
  destruct (queue_shift (waiting e)) as [[p|] q]; cbn [fst snd] in *.
  - assert (Hempty : contents (buffered e) = []). { destruct Hx as [Hx|Hx]; [done | congruence]. }
    unfold assign, modify, emit, ret. cbn [app set_waiting update view self].
    split; cbn [set_waiting buffered bufferedBytes failure isEnded waiting]; try done.
    + rewrite queue_size_contents in * by done. rewrite Hq in Hc. cbn in Hc. lia.
    + by left.
    + by rewrite Een.
    + exists []. obs_app. rewrite Hempty, ?app_nil_r in *. rewrite Ho. done.
    + obs_app. rewrite orb_false_r. intros Hf. specialize (Hs Hf). unfold accepted in Hs.
      rewrite total_app. cbn. lia.
    + obs_app. rewrite app_nil_r, Hp, Hq. solve_Permutation.
  - destruct Hq as [Hq ->].
    destruct ((queue_size (buffered e) >=? MAX_BUFFERED_EVENTS)
              || (bufferedBytes e + byteLength v >? MAX_BUFFERED_BYTES)) eqn:Em; [exact Hsame|].
    bool_prop. unfold assign, modify, emit, ret. cbn [app set_buffered update view self].
    destruct (queue_push_spec v _ B) as [B' Hb'].
    split; cbn [set_buffered buffered bufferedBytes failure isEnded waiting]; try done; try lia.
    + rewrite Hb', total_app. cbn. lia.
    + rewrite queue_size_contents in * by done. rewrite Hb', length_app. cbn. lia.
    + by right.
    + exists []. obs_app. rewrite Hb', !app_nil_r in *. rewrite Ho, <- app_assoc. done.
    + obs_app. rewrite orb_false_r. intros Hf. specialize (Hs Hf). unfold accepted in Hs.
      rewrite total_app. cbn. lia.
    + obs_app. by rewrite !app_nil_r, Hp.
Qed.

(** Ending the stream one way or another: the waiting consumers are settled. *)
Lemma stop_inv ev evs out (e e1 : RuntimeEventStream) r o1 o2 :
  stream_inv evs out e -> (forall v, r <> read_value v) ->
  isEnded e1 = true -> waiting e1 = waiting e ->
  ((buffered e1 = buffered e /\ bufferedBytes e1 = bufferedBytes e) \/
   (buffered e1 = newQueue /\ bufferedBytes e1 = 0 /\ is_stop ev = true)) ->
  delivered (o1 ++ o2) = [] -> accepted (o1 ++ o2) = [] -> settled (o1 ++ o2) = reads [ev] ->
  (is_fail ev = false -> consumed_bytes (o1 ++ o2) = bufferedBytes e - bufferedBytes e1) ->
  stream_inv (evs ++ [ev])
    (out ++ o1 ++ ((fun p => obs_settle p r) <$> contents (waiting e)) ++ o2) (set_waiting newQueue e1).
Proof.
  intros [B W Hb Hl He Hc Hx Hn (lost & Ho & Hlost) Hs Hp] Hr Hend Hw Hbuf D A T C.
  set (w := (fun p => obs_settle p r) <$> contents (waiting e)).
  destruct (quiet_all (contents (waiting e)) r Hr) as (D' & A' & C').
  pose proof (settled_all (contents (waiting e)) r) as T'. fold w in D', A', C', T'.
  unfold delivered, accepted, settled, reads in *. rewrite omap_app in D. rewrite omap_app in A. rewrite omap_app in T. rewrite consumed_app in C.
  apply app_eq_nil in D as [D1 D2]. apply app_eq_nil in A as [A1 A2].
  assert (Hq : queue_ok (buffered e1)).
  { destruct Hbuf as [[-> _]|(-> & _ & _)]; [done | apply queue_ok_new]. }
  split; cbn [set_waiting buffered bufferedBytes failure isEnded waiting]; try done.
  - apply queue_ok_new.
  - destruct Hbuf as [[-> ->]|(-> & -> & _)]; done.
  - destruct Hbuf as [[_ ->]|(_ & -> & _)]; [done | unfold MAX_BUFFERED_BYTES; lia].
  - destruct Hbuf as [[-> _]|(-> & _ & _)]; [done | done].
  - by right.
  - destruct Hbuf as [[-> _]|(-> & _ & Hstop)].
    + exists lost. unfold delivered, accepted. rewrite !omap_app, D1, D2, A1, A2, D', A', existsb_app.
      rewrite !app_nil_r. split; [done|]. intros Hne. destruct (Hlost Hne) as [_ ->]. done.
    + exists (contents (buffered e) ++ lost). unfold delivered, accepted.
      rewrite !omap_app, D1, D2, A1, A2, D', A', existsb_app. rewrite !app_nil_r. split; [done|].
      intros _. cbn. by rewrite Hstop, orb_true_r.
  - rewrite existsb_app. cbn. intros [Hf1 Hf2]%orb_false_iff. rewrite orb_false_r in Hf2.
    specialize (C Hf2). specialize (Hs Hf1). unfold accepted. rewrite !omap_app, A1, A2, A', !app_nil_r.
    rewrite !consumed_app, C'. lia.
  - unfold reads, settled. rewrite !omap_app, <- T, T', Hp. rewrite app_nil_r. solve_Permutation.
Qed.

Lemma step_return_self p e :
  stream_step (se_return p) e =
  (Ret tt, set_waiting newQueue (set_buffered newQueue 0 (set_ended e)),
   (if bufferedBytes e >? 0 then [obs_consumed (bufferedBytes e)] else []) ++
   ((fun p => obs_settle p read_done) <$> contents (waiting e)) ++
   [if isEnded e then obs_settle p read_done else obs_cancel p]).
Proof.
  unfold stream_step, stream_return, bind, get, assign, modify.
  cbn [view update self].
  destruct (bufferedBytes e >? 0); cbn [emit ret app];
    rewrite settle_waiting_self; destruct (isEnded e); reflexivity.
Qed.

Lemma step_stop ev evs out e : stream_inv evs out e ->
  match ev with se_next _ | se_push _ => False | _ => True end ->
  let '(_, e', o) := stream_step ev e in stream_inv (evs ++ [ev]) (out ++ o) e'.
Proof.
  intros H Hev. destruct ev as [|p|?| |err]; try done.
  - rewrite step_return_self.
    pose proof (si_bytes _ _ _ H) as Hb. pose proof (total_nonneg (contents (buffered e))).
    rewrite <- Hb in *.
    apply (stop_inv (se_return p) evs out e (set_buffered newQueue 0 (set_ended e)) read_done);
      try done; try (right; done);
      destruct (bufferedBytes e >? 0) eqn:Ez; destruct (isEnded e); try done;
      bool_prop; intros _; cbn; lia.
  - unfold stream_step, stream_end, bind, assign, modify. rewrite settle_waiting_self.
    cbn [view update self app set_ended waiting]. rewrite <- (app_nil_r (_ <$> _)).
    apply (stop_inv se_end evs out e (set_ended e) read_done [] []); try done; [by left|].
    intros _. cbn. lia.
  - unfold stream_step, stream_fail, bind, assign, modify. rewrite settle_waiting_self.
    cbn [view update self app waiting]. rewrite <- (app_nil_r (_ <$> _)).
    eapply (stop_inv (se_fail err) evs out e _ (read_rejected err) [] []); try done. by right.
Qed.

Lemma step_inv ev evs out e : stream_inv evs out e ->
  let '(_, e', o) := stream_step ev e in stream_inv (evs ++ [ev]) (out ++ o) e'.
Proof.
  intros H. destruct ev; [by apply step_next | | by apply step_push | | ]; by apply step_stop.
Qed.

Lemma stream_never_throws ev e : exists e' o, stream_step ev e = (Ret tt, e', o).
Proof.
  destruct ev as [p|p|v| |err].
  - unfold stream_step, stream_next, bind, get, assign, modify, emit.
    destruct (queue_shift _) as [[v|] q]; [by eexists _, _|].
    destruct (failure _); [by eexists _, _|]. repeat case_if; by eexists _, _.
  - rewrite step_return_self. by eexists _, _.
  - unfold stream_step, stream_push, bind, get, assign, modify, emit, ret.
    case_if; [by eexists _, _|]. destruct (queue_shift _) as [[v'|] q]; [by eexists _, _|].
    case_if; by eexists _, _.
  - unfold stream_step, stream_end, bind, assign, modify. rewrite settle_waiting_self. by eexists _, _.
  - unfold stream_step, stream_fail, bind, assign, modify. rewrite settle_waiting_self. by eexists _, _.
Qed.

(** What a stream promises its consumers, over any run of a new stream: the values
    read are the values taken in, in order and without loss, as long as the consumer does
    not stop and the stream does not fail; every byte taken in is consumed exactly when
    it is read or discarded; every read settles exactly once or waits, and none waits
    once the stream has ended; at most 1 MiB, 1024 values and 128 reads are held. *)
Theorem stream_reads_in_order evs :
  let '(_, e, out) := for_each stream_step evs newEventStream in
  (existsb is_stop evs = false -> accepted out = delivered out ++ contents (buffered e)) /\
  (existsb is_fail evs = false -> consumed_bytes out + bufferedBytes e = total (accepted out)) /\
  Permutation (reads evs) (settled out ++ contents (waiting e)) /\
  (isEnded e = true -> contents (waiting e) = []) /\
  bufferedBytes e = total (contents (buffered e)) /\ bufferedBytes e <= MAX_BUFFERED_BYTES /\
  queue_size (buffered e) <= MAX_BUFFERED_EVENTS /\ queue_size (waiting e) <= MAX_WAITING_CONSUMERS.
Proof.
  assert (H : forall evs evs0 out0 e0, stream_inv evs0 out0 e0 ->
    let '(_, e, out) := for_each stream_step evs e0 in stream_inv (evs0 ++ evs) (out0 ++ out) e).
  { clear evs. induction evs as [|ev evs IH]; intros evs0 out0 e0 H; cbn [for_each].
    { cbn. by rewrite !app_nil_r. }
    unfold bind. pose proof (step_inv ev evs0 out0 e0 H) as H1.
    destruct (stream_never_throws ev e0) as (e1 & o1 & E). rewrite E in *.
    specialize (IH _ _ _ H1). destruct (for_each stream_step evs e1) as [[r e2] o2].
    by rewrite <- !app_assoc in IH. }
  assert (H0 : stream_inv [] [] newEventStream).
  { split; try done; try apply queue_ok_new; [by left|]. by exists []. }
  specialize (H evs _ _ _ H0). destruct (for_each stream_step evs newEventStream) as [[r e] out].
  destruct H as [B W Hb Hl He Hc Hx Hn (lost & Ho & Hlost) Hs Hp].
  split_and!; try done. cbn in *. intros Hstop. destruct lost; [by rewrite app_nil_r in Ho|].
  destruct (Hlost ltac:(done)) as [_ ?]. congruence.
Qed.
