(* ===== verification/RpcFrame.v ===== *)
(** The frames of the runtime protocol: their data (generated from frame.proto), the wire
    preamble (frame-codec.ts) and the receiving side (frame-receiver.ts).

    The protobuf runtime ([toBinary], [fromBinary] of @bufbuild/protobuf) is third-party
    code: the class [FrameBinary] holds its two functions, [FrameBinaryLaws] what its
    documentation states of them. *)

From stdpp Require Import base list countable.
From Stdlib Require Import ZArith Lia ZifyBool String.
From S2P Require Import Prelude JsText Json RpcValues.

Open Scope Z_scope.

#[local] Set Warnings "-clear-no-such-hyp".

(** ** Frames *)

Record Hello := mkHello {
  hl_supportedProtocolVersions : list Z;
  hl_peerKind : Z;
  hl_peerName : jsstring;
  hl_peerVersion : jsstring;
  hl_peerInstanceId : jsstring;
  hl_maxFrameBytes : Z;
  hl_initialCallCreditBytes : Z;
  hl_supportedTransportFeatures : list Z
}.

(** [cs_destination]: [Some None] is a destination whose target is not set. *)
Record CallStart := mkCallStart {
  cs_callId : Z;
  cs_procedure : jsstring;
  cs_timeoutMs : Z;
  cs_destination : option (option jsstring)
}.

Inductive FrameBody :=
  | fb_hello (hello : Hello)
  | fb_welcome (welcome : Welcome)
  | fb_callStart (start : CallStart)
  | fb_payload (callId : Z) (data : bytes)
  | fb_callEnd (callId : Z) (status : option Status)
  | fb_cancel (callId : Z) (status : option Status)
  | fb_windowUpdate (callId creditBytes : Z)
  | fb_ping (nonce : Z)
  | fb_pong (nonce : Z)
  | fb_goAway (status : option Status)
  | fb_undefined.

Record ProtocolFrame := mkProtocolFrame {
  fr_protocolVersion : Z;
  fr_sequence : Z;
  fr_body : FrameBody
}.

(** [fromBinary] answers [None] where it throws. *)
Class FrameBinary := {
  toBinary : ProtocolFrame -> bytes;
  fromBinary : bytes -> option ProtocolFrame
}.

(** Parsing what was serialized gives the message back. *)
Class FrameBinaryLaws (B : FrameBinary) := {
  fromBinary_toBinary : forall f, fromBinary (toBinary f) = Some f;
  toBinary_ok : forall f, bytes_ok (toBinary f)
}.

(** ** The wire preamble *)

Definition WIRE_MAGIC : bytes := [0x41; 0x47; 0x53; 0x54].
Definition WIRE_PREAMBLE_BYTES : Z := byteLength WIRE_MAGIC + 1.

Definition internal (message : jsstring) : thrown := newRuntimeProtocolError StatusCode.INTERNAL message.

Definition hasProtocolMagic (bs : bytes) : bool :=
  (byteLength bs >=? byteLength WIRE_MAGIC)
  && bool_decide (bs !! 0%nat = WIRE_MAGIC !! 0%nat) && bool_decide (bs !! 1%nat = WIRE_MAGIC !! 1%nat)
  && bool_decide (bs !! 2%nat = WIRE_MAGIC !! 2%nat) && bool_decide (bs !! 3%nat = WIRE_MAGIC !! 3%nat).

Section codec.
Context {B : FrameBinary}.

(** [new Uint8Array(5 + payload.byteLength)], then the magic, the version and the payload
    are written in it. *)
Definition encodeProtocolFrame (frame : ProtocolFrame) : bytes :=
  let payload := toBinary frame in
  let bs := new_buffer (Z.to_nat WIRE_PREAMBLE_BYTES + List.length payload) in
  let bs := view_set_bytes 0 WIRE_MAGIC bs in
  let bs := <[List.length WIRE_MAGIC := PROTOCOL_VERSION]> bs in
  view_set_bytes (Z.to_nat WIRE_PREAMBLE_BYTES) payload bs.

Definition is_undefined (b : FrameBody) : bool :=
  match b with fb_undefined => true | _ => false end.

Definition decodeProtocolFrame (bs : bytes) : outcome thrown (option ProtocolFrame) :=
  if negb (hasProtocolMagic bs) then Ret None else
  if byteLength bs <? WIRE_PREAMBLE_BYTES
  then Exn (internal (js "Runtime protocol preamble is incomplete")) else
  if negb (bool_decide (bs !! List.length WIRE_MAGIC = Some PROTOCOL_VERSION))
  then Exn (newRuntimeProtocolError StatusCode.FAILED_PRECONDITION
              (js "Runtime protocol wire version mismatch")) else
  match fromBinary (drop (Z.to_nat WIRE_PREAMBLE_BYTES) bs) with
  | None => Exn (internal (js "Runtime protocol frame is malformed"))
  | Some frame =>
      if is_undefined (fr_body frame)
      then Exn (internal (js "Runtime protocol frame body is missing")) else
      if negb (fr_protocolVersion frame =? PROTOCOL_VERSION)
      then Exn (newRuntimeProtocolError StatusCode.FAILED_PRECONDITION
                  (js "Runtime protocol frame version mismatch"))
      else Ret (Some frame)
  end.

(** ** ProtocolReceiver *)

Record ProtocolReceiver := mkReceiver {
  rv_maxFrameBytes : Z;
  rv_sequence : Z
}.

Definition newReceiver : ProtocolReceiver := mkReceiver MAX_FRAME_BYTES 0.

Definition receiver_configure (welcome : Welcome) (r : ProtocolReceiver) : ProtocolReceiver :=
  mkReceiver (wl_maxFrameBytes welcome) (rv_sequence r).

Definition claims (bs : bytes) : bool := hasProtocolMagic bs.

Definition sequence_failed : thrown := internal (js "Runtime protocol sequence failed").

Definition receive (bs : bytes) (r : ProtocolReceiver)
    : outcome thrown (option ProtocolFrame) * ProtocolReceiver :=
  if byteLength bs >? rv_maxFrameBytes r then
    if negb (hasProtocolMagic bs) then (Ret None, r)
    else (Exn (newRuntimeProtocolError StatusCode.RESOURCE_EXHAUSTED
                 (js "Runtime protocol frame exceeds the limit")), r)
  else
    match decodeProtocolFrame bs with
    | Exn e => (Exn e, r)
    | Ret None => (Ret None, r)
    | Ret (Some frame) =>
        if negb (fr_sequence frame =? rv_sequence r + 1) then (Exn sequence_failed, r)
        else (Ret (Some frame), mkReceiver (rv_maxFrameBytes r) (fr_sequence frame))
    end.
End codec.

(** ** Laws *)

Section laws.
Context {B : FrameBinary}.

Lemma encodeProtocolFrame_eq frame :
  encodeProtocolFrame frame = WIRE_MAGIC ++ [PROTOCOL_VERSION] ++ toBinary frame.
Proof.
  unfold encodeProtocolFrame. apply list_eq. intros i.
  set (p := toBinary frame). change (Z.to_nat WIRE_PREAMBLE_BYTES) with 5%nat.
  change (List.length WIRE_MAGIC) with 4%nat.
  assert (Hnew : forall j, (j < 5 + List.length p)%nat ->
    exists x, (<[4%nat:=PROTOCOL_VERSION]> (view_set_bytes 0 WIRE_MAGIC (new_buffer (5 + List.length p)))) !! j = Some x).
  { intros j Hj. apply lookup_lt_is_Some_2.
    rewrite length_insert, length_view_set_bytes, length_new_buffer. done. }
  rewrite lookup_view_set_bytes. destruct (decide (i < 5 + List.length p)%nat) as [Hi|Hi].
  - destruct (Hnew i Hi) as [x Hx]. rewrite Hx. cbn [fmap option_fmap option_map].
    destruct (decide (5 <= i)%nat) as [H5|H5].
    + rewrite (lookup_app_r WIRE_MAGIC) by (cbn; lia).
      change (List.length WIRE_MAGIC) with 4%nat.
      rewrite lookup_app_r by (cbn; lia). change (List.length [PROTOCOL_VERSION]) with 1%nat.
      replace (i - 4 - 1)%nat with (i - 5)%nat by lia.
      destruct (lookup_lt_is_Some_2 p (i - 5)) as [y Hy]; [lia|]. by rewrite Hy.
    + cbn [default]. change (default x None) with x. rewrite <- Hx. destruct (decide (i = 4%nat)) as [->|H4].
      * rewrite list_lookup_insert_eq; [done|]. rewrite length_view_set_bytes, length_new_buffer. lia.
      * rewrite list_lookup_insert_ne by lia. rewrite lookup_view_set_bytes.
        destruct (lookup_lt_is_Some_2 (new_buffer (5 + List.length p)) i) as [z Hz];
          [rewrite length_new_buffer; lia|].
        rewrite Hz. destruct i as [|[|[|[|i]]]]; [reflexivity.. | lia].
  - rewrite (lookup_ge_None_2 (WIRE_MAGIC ++ _)) by (rewrite !length_app; cbn; lia).
    match goal with |- _ <$> ?l !! i = _ => rewrite (lookup_ge_None_2 l i) end; [done|].
    rewrite length_insert, length_view_set_bytes, length_new_buffer. lia.
Qed.

Lemma length_encode frame : byteLength (encodeProtocolFrame frame) = WIRE_PREAMBLE_BYTES + byteLength (toBinary frame).
Proof.
  rewrite encodeProtocolFrame_eq. change WIRE_PREAMBLE_BYTES with 5. unfold byteLength.
  rewrite !length_app. cbn [List.length WIRE_MAGIC]. lia.
Qed.

Lemma magic_encode frame : hasProtocolMagic (encodeProtocolFrame frame) = true.
Proof.
  unfold hasProtocolMagic. rewrite length_encode, encodeProtocolFrame_eq.
  change WIRE_PREAMBLE_BYTES with 5. change (byteLength WIRE_MAGIC) with 4.
  replace (5 + byteLength (toBinary frame) >=? 4) with true by (unfold byteLength; lia). done.
Qed.

Lemma decode_encoded `{!FrameBinaryLaws B} frame :
  fr_body frame <> fb_undefined -> fr_protocolVersion frame = PROTOCOL_VERSION ->
  decodeProtocolFrame (encodeProtocolFrame frame) = Ret (Some frame).
Proof.
  intros Hb Hv. unfold decodeProtocolFrame. rewrite magic_encode, length_encode. cbn [negb].
  replace (WIRE_PREAMBLE_BYTES + byteLength (toBinary frame) <? WIRE_PREAMBLE_BYTES) with false
    by (unfold byteLength; lia).
  rewrite encodeProtocolFrame_eq.
  rewrite bool_decide_true by done. cbn [negb].
  change (drop (Z.to_nat WIRE_PREAMBLE_BYTES) (WIRE_MAGIC ++ [PROTOCOL_VERSION] ++ toBinary frame))
    with (toBinary frame).
  rewrite fromBinary_toBinary, Hv. cbn. by destruct (fr_body frame).
Qed.

(** What is accepted is a frame of this version, framed with the preamble. *)
Lemma decode_accepted bs frame :
  decodeProtocolFrame bs = Ret (Some frame) ->
  hasProtocolMagic bs = true /\ bs !! 4%nat = Some PROTOCOL_VERSION /\
  fromBinary (drop 5 bs) = Some frame /\ fr_protocolVersion frame = PROTOCOL_VERSION /\
  fr_body frame <> fb_undefined.
Proof.
  unfold decodeProtocolFrame. change (Z.to_nat WIRE_PREAMBLE_BYTES) with 5%nat.
  change (List.length WIRE_MAGIC) with 4%nat.
  destruct (hasProtocolMagic bs); cbn [negb]; [|done].
  destruct (byteLength bs <? _); [done|].
  case_bool_decide as Hv; cbn [negb]; [|done].
  destruct (fromBinary _) as [f|]; [|done].
  destruct (is_undefined (fr_body f)) eqn:Eu; [done|].
  destruct (fr_protocolVersion f =? PROTOCOL_VERSION) eqn:Ev; cbn [negb]; [|done].
  intros H. injection H as ->. bool_prop. split_and!; try done. intros Hn. by rewrite Hn in Eu.
Qed.

(** Receiving encoded frames one after the other. *)
Fixpoint receive_all (l : list bytes) (r : ProtocolReceiver) : list (outcome thrown (option ProtocolFrame)) * ProtocolReceiver :=
  match l with
  | [] => ([], r)
  | bs :: rest => let '(x, r) := receive bs r in let '(xs, r) := receive_all rest r in (x :: xs, r)
  end.

Lemma receive_encoded `{!FrameBinaryLaws B} frame r :
  fr_body frame <> fb_undefined -> fr_protocolVersion frame = PROTOCOL_VERSION ->
  byteLength (encodeProtocolFrame frame) <= rv_maxFrameBytes r ->
  receive (encodeProtocolFrame frame) r =
    if fr_sequence frame =? rv_sequence r + 1
    then (Ret (Some frame), mkReceiver (rv_maxFrameBytes r) (fr_sequence frame))
    else (Exn sequence_failed, r).
Proof.
  intros Hb Hv Hm. unfold receive.
  replace (byteLength (encodeProtocolFrame frame) >? rv_maxFrameBytes r) with false by lia.
  rewrite decode_encoded by done. by destruct (fr_sequence frame =? _).
Qed.
End laws.
