(* ===== verification/RpcSender.v ===== *)
(** The sending side of the runtime protocol (frame-sender.ts): frames are numbered and
    encoded when their batch is scheduled, and the batches are given to the transport one
    after the other.

    [tail] is the chain of promises of the source: the batches scheduled and not
    finished, oldest first.  A batch names what awaits it ([sb_done]).  [sendBytes], what
    [tail] reports to [onFailure] and the settling of a batch are effects; the microtask
    that starts a batch ([transmit]) and the settling of [sendBytes] ([sent]) are events.

    An [AbortSignal] is a number; [aborted] tells of the signals aborted their reason and
    whether the sender was closed before.  The sender's own signal is aborted exactly when
    [isClosed] is set. *)

From stdpp Require Import base list.
From Stdlib Require Import ZArith Lia ZifyBool String.
From S2P Require Import Prelude JsText Json RpcValues RpcFrame.

Open Scope Z_scope.

#[local] Set Warnings "-clear-no-such-hyp".

Definition MIN_KEEP_ALIVE_INTERVAL_MS : Z := 1000.
Definition MAX_TIMER_MS : Z := 0x7fffffff.
Definition MAX_SEQUENCE : Z := 0xffffffffffffffff.

Definition connection_closed : thrown :=
  newRuntimeProtocolError StatusCode.UNAVAILABLE (js "Runtime connection closed").
Definition exhausted (message : jsstring) : thrown :=
  newRuntimeProtocolError StatusCode.RESOURCE_EXHAUSTED message.

Record EncodedFrame := mkEncoded {
  ef_bytes : bytes;
  ef_sequence : Z
}.

Record abort_record := mkAbort {
  ab_reason : thrown;
  ab_after_close : bool
}.

Section sender.
Context {B : FrameBinary} {K : Type}.

Record send_batch := mkBatch {
  sb_frames : list EncodedFrame;  (** not yet sent *)
  sb_byteLength : Z;
  sb_signal : option Z;
  sb_done : K;
  sb_sending : bool  (** the first of [sb_frames] was given to [sendBytes] *)
}.

Record ProtocolSender := mkSender {
  initialCallCreditBytes : Z;
  ps_isClosed : bool;
  keepAliveIntervalMs : Z;
  keepAliveNonce : Z;
  keepAliveTimer : bool;
  ps_maxFrameBytes : Z;
  pendingBatchCount : Z;
  ps_pendingBytes : Z;
  pendingPongNonce : option Z;
  pongTimer : option Z;  (** the nonce its closure captured *)
  ps_sequence : Z;
  ps_tail : list send_batch
}.

Definition newSender : ProtocolSender :=
  mkSender 0 false 0 0 false MAX_FRAME_BYTES 0 0 None None 0 [].

Inductive sender_effect :=
  | fx_sendBytes (frame : EncodedFrame) (signal : option Z)
  | fx_failure (error : thrown)
  | fx_done (awaiting : K) (error : option thrown).

(** ** Fields *)

Definition set_keep_alive (interval nonce : Z) (timer : bool) (pending pong : option Z)
    (s : ProtocolSender) : ProtocolSender :=
  mkSender (initialCallCreditBytes s) (ps_isClosed s) interval nonce timer (ps_maxFrameBytes s)
    (pendingBatchCount s) (ps_pendingBytes s) pending pong (ps_sequence s) (ps_tail s).

Definition set_queue (count pending sequence : Z) (tail : list send_batch) (s : ProtocolSender)
    : ProtocolSender :=
  mkSender (initialCallCreditBytes s) (ps_isClosed s) (keepAliveIntervalMs s) (keepAliveNonce s)
    (keepAliveTimer s) (ps_maxFrameBytes s) count pending (pendingPongNonce s) (pongTimer s)
    sequence tail.

Definition set_tail (tail : list send_batch) (s : ProtocolSender) : ProtocolSender :=
  set_queue (pendingBatchCount s) (ps_pendingBytes s) (ps_sequence s) tail s.

Definition sender_close (s : ProtocolSender) : ProtocolSender :=
  if ps_isClosed s then s else
  mkSender (initialCallCreditBytes s) true (keepAliveIntervalMs s) (keepAliveNonce s) false
    (ps_maxFrameBytes s) (pendingBatchCount s) (ps_pendingBytes s) None None (ps_sequence s) (ps_tail s).

Definition sender_configure (welcome : Welcome) (s : ProtocolSender) : ProtocolSender :=
  mkSender (wl_initialCallCreditBytes welcome) (ps_isClosed s) (keepAliveIntervalMs s)
    (keepAliveNonce s) (keepAliveTimer s) (Z.min (wl_maxFrameBytes welcome) MAX_FRAME_BYTES)
    (pendingBatchCount s) (ps_pendingBytes s) (pendingPongNonce s) (pongTimer s) (ps_sequence s)
    (ps_tail s).

(** ** Scheduling *)

(** [encodeBatch]: the frames and the next sequence. *)
Fixpoint encodeBatch (maxFrameBytes sequence : Z) (bodies : list FrameBody)
    : outcome thrown (list EncodedFrame * Z) :=
  match bodies with
  | [] => Ret ([], sequence)
  | body :: rest =>
      if sequence =? MAX_SEQUENCE
      then Exn (exhausted (js "Runtime protocol sequence is exhausted")) else
      let sequence := sequence + 1 in
      let bs := encodeProtocolFrame (mkProtocolFrame PROTOCOL_VERSION sequence body) in
      if byteLength bs >? maxFrameBytes
      then Exn (exhausted (js "Runtime protocol frame exceeds the negotiated limit")) else
      match encodeBatch maxFrameBytes sequence rest with
      | Exn e => Exn e
      | Ret (frames, next) => Ret (mkEncoded bs sequence :: frames, next)
      end
  end.

Definition frames_bytes (frames : list EncodedFrame) : Z :=
  foldr Z.add 0 ((fun f => byteLength (ef_bytes f)) <$> frames).

(** [sendBatch] up to its [await]; what it throws, if anything. *)
Definition sendBatch (bodies : list FrameBody) (signal : option Z) (done : K) (s : ProtocolSender)
    : option thrown * ProtocolSender :=
  match encodeBatch (ps_maxFrameBytes s) (ps_sequence s) bodies with
  | Exn e => (Some e, s)
  | Ret (frames, nextSequence) =>
      let length := frames_bytes frames in
      if (pendingBatchCount s >=? MAX_PENDING_SEND_BATCHES)
         || (length >? MAX_PENDING_SEND_BYTES - ps_pendingBytes s)
      then (Some (exhausted (js "Runtime protocol send queue budget exceeded")), s)
      else (None, set_queue (pendingBatchCount s + 1) (ps_pendingBytes s + length) nextSequence
                    (ps_tail s ++ [mkBatch frames length signal done false]) s)
  end.

(** ** Transmission *)

(** Why a batch's signals stop it: the reason of the first that was aborted. *)
Definition stop_reason (aborted : Z -> option abort_record) (signal : option Z) (s : ProtocolSender)
    : option thrown :=
  let own := if ps_isClosed s then Some connection_closed else None in
  match signal with
  | None => own
  | Some id =>
      match aborted id with
      | None => own
      | Some a => Some (if ab_after_close a then connection_closed else ab_reason a)
      end
  end.

(** The batch at the head of [tail] is over: the counters are restored, a failure that no
    signal explains is reported, and the batch settles. *)
Definition finish_batch (aborted : Z -> option abort_record) (b : send_batch) (error : option thrown)
    (s : ProtocolSender) : ProtocolSender * list sender_effect :=
  let report :=
    match error with
    | None => []
    | Some e =>
        let explained := match sb_signal b with
                         | Some id => bool_decide (aborted id <> None)
                         | None => false
                         end in
        if explained || ps_isClosed s then [] else [fx_failure e]
    end in
  (set_queue (pendingBatchCount s - 1) (ps_pendingBytes s - sb_byteLength b) (ps_sequence s)
     (tail (ps_tail s)) s,
   report ++ [fx_done (sb_done b) error]).

(** One turn of the loop of [transmitFrames]. *)
Definition transmit_next (aborted : Z -> option abort_record) (b : send_batch) (s : ProtocolSender)
    : ProtocolSender * list sender_effect :=
  match sb_frames b with
  | [] => finish_batch aborted b None s
  | frame :: _ =>
      match stop_reason aborted (sb_signal b) s with
      | Some e => finish_batch aborted b (Some e) s
      | None =>
          (set_tail (mkBatch (sb_frames b) (sb_byteLength b) (sb_signal b) (sb_done b) true
                       :: tail (ps_tail s)) s,
           [fx_sendBytes frame (sb_signal b)])
      end
  end.

(** The microtask that starts the batch at the head of [tail]. *)
Definition transmit (aborted : Z -> option abort_record) (s : ProtocolSender)
    : ProtocolSender * list sender_effect :=
  match ps_tail s with
  | b :: _ =>
      if sb_sending b then (s, []) else
      if ps_isClosed s then finish_batch aborted b (Some connection_closed) s else
      match stop_reason aborted (sb_signal b) s with
      | Some e => finish_batch aborted b (Some e) s
      | None => transmit_next aborted b s
      end
  | [] => (s, [])
  end.

(** The promise of [sendBytes] settles. *)
Definition sent (aborted : Z -> option abort_record) (error : option thrown) (s : ProtocolSender)
    : ProtocolSender * list sender_effect :=
  match ps_tail s with
  | b :: _ =>
      if negb (sb_sending b) then (s, []) else
      match error with
      | Some e => finish_batch aborted b (Some e) s
      | None =>
          transmit_next aborted
            (mkBatch (tail (sb_frames b)) (sb_byteLength b) (sb_signal b) (sb_done b) true) s
      end
  | [] => (s, [])
  end.

(** ** The frames the methods send *)

Definition hello_bodies (info : RuntimePeerInfo) : list FrameBody :=
  [fb_hello (mkHello [PROTOCOL_VERSION] (resolvePeerKind (pi_kind info)) (pi_name info)
     (pi_version info) (pi_instanceId info) MAX_FRAME_BYTES INITIAL_CALL_CREDIT_BYTES
     (resolveTransportFeatures info))].

Definition start_bodies (callId : Z) (call : RuntimeCall) (timeoutMs : Z) (duplex : bool)
    : list FrameBody :=
  [fb_callStart (mkCallStart callId (rc_method call) timeoutMs (Some <$> rc_destination call));
   fb_payload callId (rc_payload call)]
  ++ (if duplex then [] else [fb_callEnd callId (Some (mkStatus StatusCode.OK_UNSPECIFIED []))]).

Definition sender_start (callId : Z) (call : RuntimeCall) (timeoutMs : Z) (duplex : bool) (done : K)
    (s : ProtocolSender) : option thrown * ProtocolSender :=
  if byteLength (rc_payload call) >? initialCallCreditBytes s
  then (Some (exhausted (js "Runtime request exceeds daemon call credit")), s)
  else sendBatch (start_bodies callId call timeoutMs duplex) (Some callId) done s.

Definition cancel_bodies (callId : Z) (reason : jsstring) (code : Z) : list FrameBody :=
  [fb_cancel callId (Some (mkStatus code reason))].

(** [create(StatusSchema, status)]: an undefined status is the default one. *)
Definition end_bodies (callId : Z) (status : option Status) : list FrameBody :=
  [fb_callEnd callId (Some (default (mkStatus StatusCode.OK_UNSPECIFIED []) status))].

Definition payload_bodies (callId : Z) (data : bytes) : list FrameBody := [fb_payload callId data].

Definition credit_bodies (callId byteLength : Z) : list FrameBody := [fb_windowUpdate callId byteLength].

Definition ping_bodies (nonce : Z) : list FrameBody := [fb_ping nonce].

Definition pong_bodies (nonce : Z) : list FrameBody := [fb_pong nonce].

(** ** Keepalive *)

Definition schedulePing (s : ProtocolSender) : ProtocolSender :=
  if ps_isClosed s || (keepAliveIntervalMs s =? 0) then s else
  set_keep_alive (keepAliveIntervalMs s) (keepAliveNonce s) true (pendingPongNonce s) (pongTimer s) s.

Definition keepAlive (intervalMs : Z) (s : ProtocolSender) : ProtocolSender :=
  if (intervalMs =? 0) || ps_isClosed s then s else
  schedulePing
    (set_keep_alive (Z.min (Z.max intervalMs MIN_KEEP_ALIVE_INTERVAL_MS) MAX_TIMER_MS)
       (keepAliveNonce s) (keepAliveTimer s) (pendingPongNonce s) (pongTimer s) s).

Definition unexpected_pong : thrown := internal (js "Runtime daemon sent an unexpected Pong").

Definition acceptPong (nonce : Z) (s : ProtocolSender) : outcome thrown unit * ProtocolSender :=
  if negb (bool_decide (pendingPongNonce s = Some nonce)) then (Exn unexpected_pong, s) else
  (Ret tt,
   schedulePing (set_keep_alive (keepAliveIntervalMs s) (keepAliveNonce s) (keepAliveTimer s) None None s)).

(** The keepalive timer fires: the nonce to ping with. *)
Definition sendPing (s : ProtocolSender) : Z * ProtocolSender :=
  let nonce := keepAliveNonce s + 1 in
  (nonce, set_keep_alive (keepAliveIntervalMs s) nonce false (pendingPongNonce s) (pongTimer s) s).

(** The ping of [nonce] was sent. *)
Definition pingSent (nonce : Z) (s : ProtocolSender) : ProtocolSender :=
  if ps_isClosed s then s else
  set_keep_alive (keepAliveIntervalMs s) (keepAliveNonce s) (keepAliveTimer s) (Some nonce) (Some nonce) s.

(** The pong timer fires: what it reports to [onFailure]. *)
Definition pongTimeout (s : ProtocolSender) : option thrown * ProtocolSender :=
  match pongTimer s with
  | None => (None, s)
  | Some nonce =>
      (if bool_decide (pendingPongNonce s = Some nonce)
       then Some (newRuntimeProtocolError StatusCode.DEADLINE_EXCEEDED (js "Runtime keepalive timed out"))
       else None,
       set_keep_alive (keepAliveIntervalMs s) (keepAliveNonce s) (keepAliveTimer s) (pendingPongNonce s) None s)
  end.

(** ** The send queue

    The counters are those of the batches of the chain, and the budgets are kept. *)

Definition batches_bytes (l : list send_batch) : Z := foldr Z.add 0 (sb_byteLength <$> l).

Record sender_ok (s : ProtocolSender) : Prop := {
  so_count : pendingBatchCount s = Z.of_nat (List.length (ps_tail s));
  so_bytes : ps_pendingBytes s = batches_bytes (ps_tail s);
  so_count_max : pendingBatchCount s <= MAX_PENDING_SEND_BATCHES;
  so_bytes_max : ps_pendingBytes s <= MAX_PENDING_SEND_BYTES;
  so_sizes : Forall (fun b => 0 <= sb_byteLength b) (ps_tail s)
}.

Lemma sender_ok_new : sender_ok newSender.
Proof. split; try done. Qed.

(** Fields the queue does not depend on. *)
Lemma sender_ok_same s s' :
  sender_ok s -> pendingBatchCount s' = pendingBatchCount s -> ps_pendingBytes s' = ps_pendingBytes s ->
  ps_tail s' = ps_tail s -> sender_ok s'.
Proof. intros [H1 H2 H3 H4 H5] E1 E2 E3. split; rewrite ?E1, ?E2, ?E3; done. Qed.

Lemma frames_bytes_nonneg frames : 0 <= frames_bytes frames.
Proof.
  unfold frames_bytes. induction frames as [|f l IH]; cbn in *; [done|].
  assert (0 <= byteLength (ef_bytes f)) by (unfold byteLength; lia). lia.
Qed.

Lemma batches_bytes_app l1 l2 : batches_bytes (l1 ++ l2) = batches_bytes l1 + batches_bytes l2.
Proof. unfold batches_bytes. induction l1 as [|b l1 IH]; cbn in *; lia. Qed.

Lemma sender_ok_batch bodies signal k s : sender_ok s -> sender_ok (snd (sendBatch bodies signal k s)).
Proof.
  intros H. unfold sendBatch. destruct (encodeBatch _ _ bodies) as [[frames n]|e]; [|exact H].
  case_if; [exact H|]. bool_prop. destruct H as [Q1 Q2 Q3 Q4 Q5].
  split; cbn [snd set_queue pendingBatchCount ps_pendingBytes ps_tail].
  - rewrite length_app. cbn. lia.
  - rewrite batches_bytes_app. cbn. lia.
  - lia.
  - lia.
  - apply Forall_app. split; [done|]. repeat constructor. cbn. apply frames_bytes_nonneg.
Qed.

Lemma sender_ok_start id call t d k s : sender_ok s -> sender_ok (snd (sender_start id call t d k s)).
Proof. intros H. unfold sender_start. case_if; [exact H | by apply sender_ok_batch]. Qed.

Lemma sender_ok_finish aborted b b' rest e s : sender_ok s -> ps_tail s = b :: rest ->
  sb_byteLength b' = sb_byteLength b -> sender_ok (fst (finish_batch aborted b' e s)).
Proof.
  intros [H1 H2 H3 H4 H5] Ht Hb. rewrite Ht in *. inversion_clear H5 as [|? ? Hb0 Hr].
  unfold finish_batch. cbn [fst].
  split; cbn [set_queue pendingBatchCount ps_pendingBytes ps_tail]; rewrite ?Ht; cbn [tail].
  - cbn in H1. lia.
  - unfold batches_bytes in *. cbn in H2. lia.
  - lia.
  - lia.
  - done.
Qed.

Lemma sender_ok_next aborted b b' rest s : sender_ok s -> ps_tail s = b :: rest ->
  sb_byteLength b' = sb_byteLength b -> sender_ok (fst (transmit_next aborted b' s)).
Proof.
  intros H Ht Hb. unfold transmit_next.
  destruct (sb_frames b'); [by eapply sender_ok_finish|].
  destruct (stop_reason _ _ _); [by eapply sender_ok_finish|].
  destruct H as [H1 H2 H3 H4 H5]. rewrite Ht in *. inversion_clear H5 as [|? ? Hb0 Hr].
  split; cbn [fst set_tail set_queue pendingBatchCount ps_pendingBytes ps_tail]; rewrite ?Ht; cbn [tail]; try done.
  - rewrite H2. unfold batches_bytes. cbn. lia.
  - constructor; [cbn; lia | done].
Qed.

Lemma sender_ok_transmit aborted s : sender_ok s -> sender_ok (fst (transmit aborted s)).
Proof.
  intros H. unfold transmit. destruct (ps_tail s) as [|b rest] eqn:E; [exact H|].
  case_if; [exact H|]. case_if; [by eapply sender_ok_finish|].
  destruct (stop_reason _ _ _); [by eapply sender_ok_finish | by eapply sender_ok_next].
Qed.

Lemma sender_ok_sent aborted e s : sender_ok s -> sender_ok (fst (sent aborted e s)).
Proof.
  intros H. unfold sent. destruct (ps_tail s) as [|b rest] eqn:E; [exact H|].
  case_if; [exact H|]. destruct e; [by eapply sender_ok_finish | by eapply sender_ok_next].
Qed.

Lemma sender_ok_close s : sender_ok s -> sender_ok (sender_close s).
Proof. intros H. unfold sender_close. case_if; [exact H | by eapply sender_ok_same]. Qed.
Lemma sender_ok_configure w s : sender_ok s -> sender_ok (sender_configure w s).
Proof. intros H. by eapply sender_ok_same. Qed.
Lemma sender_ok_schedulePing s : sender_ok s -> sender_ok (schedulePing s).
Proof. intros H. unfold schedulePing. case_if; [exact H | by eapply sender_ok_same]. Qed.
Lemma sender_ok_keepAlive n s : sender_ok s -> sender_ok (keepAlive n s).
Proof.
  intros H. unfold keepAlive. case_if; [exact H|]. apply sender_ok_schedulePing. by eapply sender_ok_same.
Qed.
Lemma sender_ok_pong n s : sender_ok s -> sender_ok (snd (acceptPong n s)).
Proof.
  intros H. unfold acceptPong. case_if; [exact H|]. apply sender_ok_schedulePing. by eapply sender_ok_same.
Qed.
Lemma sender_ok_ping s : sender_ok s -> sender_ok (snd (sendPing s)).
Proof. intros H. by eapply sender_ok_same. Qed.
Lemma sender_ok_pingSent n s : sender_ok s -> sender_ok (pingSent n s).
Proof. intros H. unfold pingSent. case_if; [exact H | by eapply sender_ok_same]. Qed.
Lemma sender_ok_pongTimeout s : sender_ok s -> sender_ok (snd (pongTimeout s)).
Proof. intros H. unfold pongTimeout. destruct (pongTimer s); [by eapply sender_ok_same | exact H]. Qed.
End sender.

Create HintDb sender.
#[export] Hint Resolve sender_ok_batch sender_ok_start sender_ok_transmit sender_ok_sent sender_ok_close
  sender_ok_configure sender_ok_keepAlive sender_ok_pong sender_ok_ping sender_ok_pingSent
  sender_ok_pongTimeout : sender.

Arguments send_batch : clear implicits.
Arguments ProtocolSender : clear implicits.
Arguments sender_effect : clear implicits.
