(* ===== verification/RpcLink.v ===== *)
(** The connection between a sender and the receiver of the other side: frames are
    accepted in the order they were scheduled as long as every batch is transmitted, and
    no longer after a batch is given up because its signal is aborted. *)

From stdpp Require Import base list countable.
From Stdlib Require Import ZArith Lia ZifyBool.
From S2P Require Import Prelude JsText Json RpcValues RpcFrame RpcSender.

Open Scope Z_scope.

#[local] Set Warnings "-clear-no-such-hyp".

Section link.
Context {B : FrameBinary} {K : Type}.

Inductive sender_event :=
  | ev_batch (bodies : list FrameBody) (signal : option Z) (done : K)
  | ev_transmit
  | ev_sent (error : option thrown)
  | ev_configure (welcome : Welcome)
  | ev_close.

(** A step: the new state, its effects, and the bodies it scheduled. *)
Definition sender_step (aborted : Z -> option abort_record) (e : sender_event) (s : ProtocolSender K)
    : ProtocolSender K * list (sender_effect K) * list FrameBody :=
  match e with
  | ev_batch bodies signal done =>
      match sendBatch bodies signal done s with
      | (None, s) => (s, [], bodies)
      | (Some _, s) => (s, [], [])
      end
  | ev_transmit => (transmit aborted s, [])
  | ev_sent error => (sent aborted error s, [])
  | ev_configure welcome => (sender_configure welcome s, [], [])
  | ev_close => (sender_close s, [], [])
  end.

Fixpoint sender_run (aborted : Z -> option abort_record) (l : list sender_event) (s : ProtocolSender K)
    : ProtocolSender K * list (sender_effect K) * list FrameBody :=
  match l with
  | [] => (s, [], [])
  | e :: rest =>
      let '(s, o1, b1) := sender_step aborted e s in
      let '(s, o2, b2) := sender_run aborted rest s in (s, o1 ++ o2, b1 ++ b2)
  end.

(** The frames given to [sendBytes]. *)
Definition transmitted (out : list (sender_effect K)) : list EncodedFrame :=
  omap (fun o => match o with fx_sendBytes f _ => Some f | _ => None end) out.

(** ** Numbering *)

Fixpoint number (sequence : Z) (bodies : list FrameBody) : list ProtocolFrame :=
  match bodies with
  | [] => []
  | body :: rest => mkProtocolFrame PROTOCOL_VERSION (sequence + 1) body :: number (sequence + 1) rest
  end.

Definition encoded (f : ProtocolFrame) : EncodedFrame := mkEncoded (encodeProtocolFrame f) (fr_sequence f).

Lemma number_app n l1 l2 :
  number n (l1 ++ l2) = number n l1 ++ number (n + Z.of_nat (List.length l1)) l2.
Proof.
  revert n. induction l1 as [|b l1 IH]; intros n; cbn [number app List.length].
  - by rewrite Z.add_0_r.
  - rewrite IH. do 3 f_equal. lia.
Qed.

Lemma length_number n l : List.length (number n l) = List.length l.
Proof. revert n. induction l as [|b l IH]; intros n; cbn; [done|]. by rewrite IH. Qed.

Lemma encodeBatch_spec bodies max : forall sequence frames next,
  encodeBatch max sequence bodies = Ret (frames, next) ->
  frames = encoded <$> number sequence bodies /\ next = sequence + Z.of_nat (List.length bodies) /\
  Forall (fun f => byteLength (ef_bytes f) <= max) frames.
Proof.
  induction bodies as [|body bodies IH]; intros sequence frames next; cbn [encodeBatch number].
  - intros H. injection H as <- <-. split_and!; [done | cbn; lia | constructor].
  - case_if; [done|].
    destruct (byteLength (encodeProtocolFrame _) >? max) eqn:El; [done|].
    destruct (encodeBatch max (sequence + 1) bodies) as [[fs n]|e] eqn:Er; [|done].
    intros H. injection H as <- <-. destruct (IH _ _ _ Er) as (-> & -> & Hf).
    split_and!; [done | cbn [List.length]; lia | constructor; [cbn; lia | done]].
Qed.

(** ** The invariant of a clean run *)

Definition batch_frames (b : send_batch K) : list EncodedFrame :=
  if sb_sending b then tail (sb_frames b) else sb_frames b.

Definition waiting_frames (s : ProtocolSender K) : list EncodedFrame := concat (batch_frames <$> ps_tail s).

Definition no_abort (_ : Z) : option abort_record := None.

Record link_inv (s : ProtocolSender K) (out : list (sender_effect K)) (bodies : list FrameBody) : Prop := {
  li_open : ps_isClosed s = false;
  li_limit : ps_maxFrameBytes s <= MAX_FRAME_BYTES;
  li_frames : transmitted out ++ waiting_frames s = encoded <$> number 0 bodies;
  li_sequence : ps_sequence s = Z.of_nat (List.length bodies);
  li_sizes : Forall (fun f => byteLength (ef_bytes f) <= MAX_FRAME_BYTES) (encoded <$> number 0 bodies);
  li_head : match ps_tail s with
            | b :: rest => (sb_sending b = true -> sb_frames b <> []) /\ Forall (fun b => sb_sending b = false) rest
            | [] => True
            end
}.

(** Events that neither close nor fail the sender. *)
Definition clean (e : sender_event) : bool :=
  match e with
  | ev_batch bodies _ _ => forallb (fun b => negb (is_undefined b)) bodies
  | ev_transmit => true
  | ev_sent error => match error with None => true | Some _ => false end
  | ev_configure welcome => true
  | ev_close => false
  end.

Lemma transmitted_app o1 o2 : transmitted (o1 ++ o2) = transmitted o1 ++ transmitted o2.
Proof. apply omap_app. Qed.

Lemma stop_reason_open (s : ProtocolSender K) signal : ps_isClosed s = false -> stop_reason no_abort signal s = None.
Proof. intros H. unfold stop_reason, no_abort. rewrite H. by destruct signal. Qed.

(** The head of the queue advances to its frames [frames]. *)
Lemma next_inv (s : ProtocolSender K) b rest out bodies frames :
  ps_tail s = b :: rest -> ps_isClosed s = false -> ps_maxFrameBytes s <= MAX_FRAME_BYTES ->
  transmitted out ++ frames ++ concat (batch_frames <$> rest) = encoded <$> number 0 bodies ->
  ps_sequence s = Z.of_nat (List.length bodies) ->
  Forall (fun f => byteLength (ef_bytes f) <= MAX_FRAME_BYTES) (encoded <$> number 0 bodies) ->
  Forall (fun b => sb_sending b = false) rest ->
  forall sending,
  let '(s', o) := transmit_next no_abort (mkBatch frames (sb_byteLength b) (sb_signal b) (sb_done b) sending) s in
  link_inv s' (out ++ o) bodies.
Proof.
  intros Ht Ho Hm Hf Hs Hz Hr sending. unfold transmit_next. cbn [sb_frames sb_signal].
  rewrite stop_reason_open by done. destruct frames as [|f frames].
  - unfold finish_batch. cbn [app]. split; cbn; try done.
    + unfold waiting_frames. cbn. rewrite Ht, transmitted_app. cbn. by rewrite app_nil_r.
    + rewrite Ht. cbn. destruct rest as [|b' rest]; [done|]. inversion Hr; subst. split; [congruence | done].
  - split; cbn; try done.
    + unfold waiting_frames. cbn. rewrite Ht, transmitted_app. cbn. by rewrite <- app_assoc.
    + rewrite Ht. done.
Qed.

Lemma step_link e s out bodies : link_inv s out bodies -> clean e = true ->
  let '(s', o, b) := sender_step no_abort e s in link_inv s' (out ++ o) (bodies ++ b).
Proof.
  intros H He. pose proof H as [H1 H2 H3 H4 H5 H6].
  assert (Hid : link_inv s (out ++ []) (bodies ++ [])) by by rewrite !app_nil_r.
  destruct e as [new signal done| |error|welcome|]; cbn [sender_step].
  - unfold sendBatch. destruct (encodeBatch _ _ new) as [[frames n]|e] eqn:E; [|exact Hid].
    case_if; [exact Hid|]. destruct (encodeBatch_spec _ _ _ _ _ E) as (-> & -> & Hmax).
    rewrite app_nil_r.
    assert (Hnum : encoded <$> number 0 (bodies ++ new)
      = (encoded <$> number 0 bodies) ++ (encoded <$> number (ps_sequence s) new)).
    { rewrite number_app, fmap_app, H4. by rewrite Z.add_0_l. }
    split; cbn; try done.
    + unfold waiting_frames. cbn. rewrite fmap_app, concat_app, Hnum, app_assoc. cbn.
      rewrite app_nil_r. f_equal. exact H3.
    + rewrite length_app. lia.
    + rewrite Hnum. apply Forall_app. split; [done|]. eapply List.Forall_impl; [|exact Hmax]. cbn. lia.
    + destruct (ps_tail s) as [|b rest]; cbn; [done|]. destruct H6 as [H6 H7]. split; [done|].
      apply Forall_app. split; [done | by repeat constructor].
  - unfold transmit. rewrite app_nil_r. destruct (ps_tail s) as [|b rest] eqn:Et.
    { by rewrite app_nil_r. }
    destruct (sb_sending b) eqn:Es; [by rewrite app_nil_r|].
    rewrite H1, stop_reason_open by done. destruct H6 as [H6 H7].
    destruct b as [fs n sg k sd]. cbn in Es. subst sd.
    apply (next_inv s (mkBatch fs n sg k false) rest out bodies fs); try done.
    unfold waiting_frames in H3. rewrite Et in H3. exact H3.
  - destruct error; [done|]. unfold sent. rewrite app_nil_r.
    destruct (ps_tail s) as [|b rest] eqn:Et; [by rewrite app_nil_r|].
    destruct (sb_sending b) eqn:Es; cbn [negb]; [|by rewrite app_nil_r].
    destruct H6 as [H6 H7].
    apply (next_inv s b rest out bodies (tail (sb_frames b))); try done.
    unfold waiting_frames in H3. rewrite Et in H3. cbn in H3. unfold batch_frames in H3 at 1.
    by rewrite Es in H3.
  - rewrite !app_nil_r. split; try done. cbn. unfold MAX_FRAME_BYTES in *. lia.
  - done.
Qed.

Definition defined (b : FrameBody) : Prop := b <> fb_undefined.

Lemma clean_defined bodies : forallb (fun b => negb (is_undefined b)) bodies = true -> Forall defined bodies.
Proof.
  induction bodies as [|b bodies IH]; cbn; [constructor|]. intros [H1 H2]%andb_true_iff.
  constructor; [by intros -> | auto].
Qed.

Lemma run_link events : Forall (fun e => clean e = true) events -> forall s out bodies,
  link_inv s out bodies -> Forall defined bodies ->
  let '(s', o, b) := sender_run no_abort events s in
  link_inv s' (out ++ o) (bodies ++ b) /\ Forall defined (bodies ++ b).
Proof.
  induction 1 as [|e events He _ IH]; intros s out bodies H Hd; cbn [sender_run].
  { by rewrite !app_nil_r. }
  pose proof (step_link e s out bodies H He) as H1.
  assert (Hb : Forall defined (snd (sender_step no_abort e s))).
  { destruct e; cbn; try constructor. destruct (sendBatch _ _ _ _) as [[x|] s']; cbn; [constructor|].
    by apply clean_defined. }
  destruct (sender_step no_abort e s) as [[s1 o1] b1]. cbn in Hb.
  specialize (IH s1 (out ++ o1) (bodies ++ b1) H1 ltac:(by apply Forall_app)).
  destruct (sender_run no_abort events s1) as [[s2 o2] b2]. by rewrite <- !app_assoc in IH.
Qed.

Lemma number_take k bodies : forall n, number n (take k bodies) = take k (number n bodies).
Proof.
  revert bodies. induction k as [|k IH]; intros bodies n; [done|].
  destruct bodies as [|b bodies]; [done|]. cbn. by rewrite IH.
Qed.

Lemma receive_numbered `{!FrameBinaryLaws B} max bodies : forall n,
  Forall defined bodies ->
  Forall (fun f => byteLength (ef_bytes f) <= max) (encoded <$> number n bodies) ->
  receive_all (ef_bytes <$> (encoded <$> number n bodies)) (mkReceiver max n) =
    ((fun f => Ret (Some f)) <$> number n bodies, mkReceiver max (n + Z.of_nat (List.length bodies))).
Proof.
  induction bodies as [|b bodies IH]; intros n Hd Hm.
  { cbn. by rewrite Z.add_0_r. }
  inversion_clear Hd as [|? ? Hb Hd']. inversion_clear Hm as [|? ? Hf Hm'].
  cbn [number fmap list_fmap receive_all encoded ef_bytes].
  rewrite receive_encoded by done. cbn [fr_sequence rv_sequence rv_maxFrameBytes].
  rewrite Z.eqb_refl. cbn [fmap list_fmap] in IH. rewrite IH by done. do 2 f_equal. cbn [List.length]. lia.
Qed.

(** C5. The frames a sender transmits are those its batches were numbered with: whatever
    is scheduled, as long as no signal aborts, the transport does not fail and the sender
    is not closed, the other side's receiver accepts every transmitted frame, with the
    bodies in the order they were scheduled, none lost, repeated or changed, and all of
    them once the queue has drained. *)
Theorem frames_arrive_in_order `{!FrameBinaryLaws B} events :
  Forall (fun e => clean e = true) events ->
  let '(s, out, bodies) := sender_run no_abort events newSender in
  exists n, (n <= List.length bodies)%nat /\
    receive_all (ef_bytes <$> transmitted out) newReceiver =
      ((fun f => Ret (Some f)) <$> number 0 (take n bodies), mkReceiver MAX_FRAME_BYTES (Z.of_nat n)) /\
    (ps_tail s = [] -> n = List.length bodies).
Proof.
  intros He. pose proof (run_link events He newSender [] []) as H.
  destruct (sender_run no_abort events newSender) as [[s out] bodies]. cbn [app] in H.
  destruct H as [[_ _ Hf _ Hz _] Hd]; [by split | constructor|].
  exists (List.length (transmitted out)).
  assert (Hlen : (List.length (transmitted out) <= List.length bodies)%nat).
  { apply (f_equal List.length) in Hf. rewrite length_app, length_fmap, length_number in Hf. lia. }
  assert (Ht : transmitted out = encoded <$> number 0 (take (List.length (transmitted out)) bodies)).
  { rewrite number_take, fmap_take, <- Hf. by rewrite take_app_length. }
  split_and!; [done | |].
  - rewrite Ht at 1. unfold newReceiver. rewrite receive_numbered.
    + rewrite length_take. do 3 f_equal. lia.
    + by apply Forall_take.
    + rewrite number_take, fmap_take. by apply Forall_take.
  - intros Hs. apply (f_equal List.length) in Hf. unfold waiting_frames in Hf. rewrite Hs in Hf.
    rewrite length_app, length_fmap, length_number in Hf. cbn in Hf. lia.
Qed.

Lemma sendBatch_accepted bodies signal done (s s' : ProtocolSender K) :
  sendBatch bodies signal done s = (None, s') ->
  ps_isClosed s' = ps_isClosed s /\ ps_maxFrameBytes s' = ps_maxFrameBytes s /\
  ps_sequence s' = ps_sequence s + Z.of_nat (List.length bodies) /\
  ps_tail s' = ps_tail s ++ [mkBatch (encoded <$> number (ps_sequence s) bodies)
                               (frames_bytes (encoded <$> number (ps_sequence s) bodies)) signal done false] /\
  Forall (fun f => byteLength (ef_bytes f) <= ps_maxFrameBytes s) (encoded <$> number (ps_sequence s) bodies).
Proof.
  unfold sendBatch. destruct (encodeBatch _ _ bodies) as [[frames n]|e] eqn:E; [|done].
  case_if; [done|]. intros H. injection H as <-.
  destruct (encodeBatch_spec _ _ _ _ _ E) as (-> & -> & Hm). by split_and!.
Qed.

(** A batch whose signal is aborted before its turn is given up without a trace, but
    its frames keep their numbers: the next frame the sender transmits is refused by the
    receiver that accepted everything before, and nothing is reported on this side. *)
Theorem aborted_batch_breaks_link `{!FrameBinaryLaws B} aborted (s s1 s2 : ProtocolSender K) r
    bodies id a d1 body d2 :
  ps_isClosed s = false -> ps_tail s = [] -> ps_sequence s = rv_sequence r ->
  ps_maxFrameBytes s <= rv_maxFrameBytes r ->
  bodies <> [] -> aborted id = Some a -> defined body ->
  sendBatch bodies (Some id) d1 s = (None, s1) ->
  sendBatch [body] None d2 s1 = (None, s2) ->
  let '(s3, o1) := transmit aborted s2 in
  let '(s4, o2) := transmit aborted s3 in
  (exists e, o1 = [fx_done d1 (Some e)]) /\
  exists f, o2 = [fx_sendBytes f None] /\ receive (ef_bytes f) r = (Exn sequence_failed, r).
Proof.
  intros Ho Ht Hseq Hmax Hne Ha Hd H1 H2.
  destruct (sendBatch_accepted _ _ _ _ _ H1) as (O1 & M1 & Q1 & T1 & _).
  destruct (sendBatch_accepted _ _ _ _ _ H2) as (O2 & M2 & Q2 & T2 & F2).
  rewrite Ht in T1. rewrite T1 in T2. cbn [app] in T2.
  unfold transmit at 1. rewrite T2. cbn [sb_sending]. rewrite O2, O1, Ho.
  unfold stop_reason. cbn [sb_signal]. rewrite Ha.
  unfold finish_batch at 1. cbn [sb_signal]. rewrite Ha, bool_decide_true by done. cbn [orb app].
  set (s3 := set_queue _ _ _ _ s2).
  assert (T3 : ps_tail s3 = [mkBatch (encoded <$> number (ps_sequence s1) [body])
    (frames_bytes (encoded <$> number (ps_sequence s1) [body])) None d2 false]).
  { unfold s3. cbn. by rewrite T2. }
  assert (O3 : ps_isClosed s3 = false) by (unfold s3; cbn; congruence).
  unfold transmit. rewrite T3. cbn [sb_sending]. unfold stop_reason. cbn [sb_signal]. rewrite O3.
  unfold transmit_next. cbn [number sb_frames sb_signal fmap list_fmap].
  unfold stop_reason. rewrite O3. split; [by eexists|].
  exists (encoded (mkProtocolFrame PROTOCOL_VERSION (ps_sequence s1 + 1) body)). split; [done|].
  cbn [encoded ef_bytes]. rewrite receive_encoded.
  - cbn [fr_sequence]. replace (ps_sequence s1 + 1 =? rv_sequence r + 1) with false; [done|].
    destruct bodies; [done|]. cbn [List.length] in Q1. lia.
  - done.
  - done.
  - inversion_clear F2 as [|? ? HF _]. cbn in HF. rewrite M1 in HF. lia.
Qed.
End link.

(** ** A protobuf runtime to try the protocol with

    Any serialization that can be parsed back will do; this one numbers the frames. *)

Definition body_code (b : FrameBody) : Z * list Z * list (list Z) :=
  match b with
  | fb_hello h =>
      (0, [hl_peerKind h; hl_maxFrameBytes h; hl_initialCallCreditBytes h],
       [hl_supportedProtocolVersions h; hl_peerName h; hl_peerVersion h; hl_peerInstanceId h;
        hl_supportedTransportFeatures h])
  | fb_welcome w =>
      (1, [wl_protocolVersion w; wl_maxFrameBytes w; wl_initialCallCreditBytes w; wl_keepAliveIntervalMs w],
       [wl_runtimeId w; wl_sessionId w; wl_enabledTransportFeatures w])
  | fb_callStart c =>
      match cs_destination c with
      | None => (2, [cs_callId c; cs_timeoutMs c], [cs_procedure c])
      | Some None => (3, [cs_callId c; cs_timeoutMs c], [cs_procedure c])
      | Some (Some d) => (4, [cs_callId c; cs_timeoutMs c], [cs_procedure c; d])
      end
  | fb_payload id data => (5, [id], [data])
  | fb_callEnd id None => (6, [id], [])
  | fb_callEnd id (Some s) => (7, [id; status_code s], [status_message s])
  | fb_cancel id None => (8, [id], [])
  | fb_cancel id (Some s) => (9, [id; status_code s], [status_message s])
  | fb_windowUpdate id n => (10, [id; n], [])
  | fb_ping n => (11, [n], [])
  | fb_pong n => (12, [n], [])
  | fb_goAway None => (13, [], [])
  | fb_goAway (Some s) => (14, [status_code s], [status_message s])
  | fb_undefined => (15, [], [])
  end.

Definition code_body (c : Z * list Z * list (list Z)) : FrameBody :=
  match c with
  | (0, [k; m; i], [v; n; pv; id; f]) => fb_hello (mkHello v k n pv id m i f)
  | (1, [v; m; i; k], [r; s; f]) => fb_welcome (mkWelcome v r s m i k f)
  | (2, [id; t], [p]) => fb_callStart (mkCallStart id p t None)
  | (3, [id; t], [p]) => fb_callStart (mkCallStart id p t (Some None))
  | (4, [id; t], [p; d]) => fb_callStart (mkCallStart id p t (Some (Some d)))
  | (5, [id], [data]) => fb_payload id data
  | (6, [id], _) => fb_callEnd id None
  | (7, [id; c], [m]) => fb_callEnd id (Some (mkStatus c m))
  | (8, [id], _) => fb_cancel id None
  | (9, [id; c], [m]) => fb_cancel id (Some (mkStatus c m))
  | (10, [id; n], _) => fb_windowUpdate id n
  | (11, [n], _) => fb_ping n
  | (12, [n], _) => fb_pong n
  | (13, _, _) => fb_goAway None
  | (14, [c], [m]) => fb_goAway (Some (mkStatus c m))
  | _ => fb_undefined
  end.

Lemma code_body_code b : code_body (body_code b) = b.
Proof.
  destruct b as [h|w|c|?|? [[]|]|? [[]|]|?|?|?|[[]|]|]; try done;
    [by destruct h | by destruct w | destruct c as [? ? ? [[|]|]]; done].
Qed.

Definition frame_code (f : ProtocolFrame) : Z * Z * (Z * list Z * list (list Z)) :=
  (fr_protocolVersion f, fr_sequence f, body_code (fr_body f)).

Definition code_frame (c : Z * Z * (Z * list Z * list (list Z))) : ProtocolFrame :=
  let '(v, n, b) := c in mkProtocolFrame v n (code_body b).

Fixpoint pos_bytes (p : positive) : bytes :=
  match p with xH => [] | xO p => 0 :: pos_bytes p | xI p => 1 :: pos_bytes p end.

Fixpoint bytes_pos (bs : bytes) : positive :=
  match bs with
  | [] => xH
  | b :: rest => if b =? 0 then xO (bytes_pos rest) else xI (bytes_pos rest)
  end.

Lemma bytes_pos_bytes p : bytes_pos (pos_bytes p) = p.
Proof. induction p; cbn; by f_equal. Qed.

#[local] Instance sample_binary : FrameBinary := {
  toBinary f := pos_bytes (encode (frame_code f));
  fromBinary bs := code_frame <$> decode (bytes_pos bs)
}.

#[local] Instance sample_binary_laws : FrameBinaryLaws sample_binary.
Proof.
  split.
  - intros f. cbn. rewrite bytes_pos_bytes, decode_encode. destruct f. cbn. by rewrite code_body_code.
  - intros f. cbn. generalize (encode (frame_code f)) as p. intros p. unfold bytes_ok, is_byte.
    induction p; cbn; constructor; try done; lia.
Qed.

(** Two batches, interleaved with their transmission. *)
Lemma frames_arrive_in_order_witness :
  let events := [ev_batch [fb_ping 7; fb_payload 1 [3; 4]] None tt; ev_transmit;
                 ev_batch [fb_pong 8] None tt; ev_sent None; ev_sent None; ev_transmit; ev_sent None] in
  let '(s, out, bodies) := sender_run no_abort events newSender in
  bodies = [fb_ping 7; fb_payload 1 [3; 4]; fb_pong 8] /\ ps_tail s = [] /\
  exists n, (n <= List.length bodies)%nat /\
    receive_all (ef_bytes <$> transmitted out) newReceiver =
      ((fun f => Ret (Some f)) <$> number 0 (take n bodies), mkReceiver MAX_FRAME_BYTES (Z.of_nat n)) /\
    (ps_tail s = [] -> n = List.length bodies).
Proof.
  intros events. pose proof (frames_arrive_in_order events) as H.
  assert (E : let '(s, _, bodies) := sender_run no_abort events newSender in
    bodies = [fb_ping 7; fb_payload 1 [3; 4]; fb_pong 8] /\ ps_tail s = []) by (vm_compute; done).
  destruct (sender_run no_abort events newSender) as [[s out] bodies].
  destruct E as [-> E]. split_and!; [done | done|]. apply H. by repeat constructor.
Defined.

(** A call that is started and cancelled before the transport takes it. *)
Definition started (callId : Z) : option thrown * ProtocolSender unit :=
  sendBatch [fb_ping 1; fb_payload callId []] (Some callId) tt newSender.

Lemma aborted_batch_breaks_link_witness :
  let aborted id := if id =? 1 then Some (mkAbort (OtherValue 0 None) false) else None in
  let s1 := snd (started 1) in
  let s2 := snd (sendBatch [fb_cancel 1 None] None tt s1) in
  let '(s3, o1) := transmit aborted s2 in
  let '(s4, o2) := transmit aborted s3 in
  (exists e, o1 = [fx_done tt (Some e)]) /\
  exists f, o2 = [fx_sendBytes f None] /\ receive (ef_bytes f) newReceiver = (Exn sequence_failed, newReceiver).
Proof.
  intros aborted s1 s2.
  apply (aborted_batch_breaks_link aborted newSender s1 s2 newReceiver
           [fb_ping 1; fb_payload 1 []] 1 (mkAbort (OtherValue 0 None) false) tt (fb_cancel 1 None) tt);
    try done; vm_compute; try reflexivity; discriminate.
Defined.
