(* ===== verification/PendingCalls.v ===== *)
(** The calls a client waits for, with the byte budgets of its connection
    (pending-calls.ts).

    A pending call is named by its id; its stream, its abort controller and its cleanup
    belong to the peer.  [take] and [markStreamEnded] tell the peer whether to clean up
    and abort the call. *)

From stdpp Require Import base list.
From Stdlib Require Import ZArith Lia ZifyBool String.
From S2P Require Import Prelude JsText Json JsMap RpcValues.

Open Scope Z_scope.

#[local] Set Warnings "-clear-no-such-hyp".

Inductive call_kind :=
  | unary_call (promise : Z) (payloads : list bytes)
  | stream_call (isRemoteEnded : bool).

Record PendingCall := mkPendingCall {
  pc_kind : call_kind;
  bufferedResponseBytes : Z;
  incomingCreditBytes : Z;
  pc_requestBytes : Z
}.

Record PendingCalls := mkPending {
  calls : jsmap PendingCall;
  responseBytes : Z;
  requestBytes : Z
}.

Definition newPending : PendingCalls := mkPending [] 0 0.

Definition is_ended (p : PendingCall) : bool :=
  match pc_kind p with stream_call ended => ended | unary_call _ _ => false end.

Definition set_call (callId : Z) (call : PendingCall) (p : PendingCalls) : PendingCalls :=
  mkPending (map_set callId call (calls p)) (responseBytes p) (requestBytes p).

Definition pending_size (p : PendingCalls) : Z := map_size (calls p).

Definition pending_add (callId : Z) (call : PendingCall) (p : PendingCalls) : PendingCalls :=
  set_call callId call p.

Definition pending_get (callId : Z) (p : PendingCalls) : option PendingCall := map_get callId (calls p).

Definition pending_keys (p : PendingCalls) : list Z := map_keys (calls p).

Definition reserveRequestBytes (byteLength : Z) (p : PendingCalls) : option thrown * PendingCalls :=
  if byteLength >? MAX_PENDING_REQUEST_BYTES - requestBytes p
  then (Some (newRuntimeProtocolError StatusCode.RESOURCE_EXHAUSTED
                (js "Runtime connection request budget exceeded")), p)
  else (None, mkPending (calls p) (responseBytes p) (requestBytes p + byteLength)).

(** The next two and [markStreamEnded] are given the object [pending] of [callId]. *)
Definition reserveResponseBytes (callId : Z) (pending : PendingCall) (byteLength : Z) (p : PendingCalls)
    : bool * PendingCalls :=
  if byteLength >? MAX_PENDING_RESPONSE_BYTES - responseBytes p then (false, p) else
  let pending := mkPendingCall (pc_kind pending) (bufferedResponseBytes pending + byteLength)
                   (incomingCreditBytes pending) (pc_requestBytes pending) in
  (true, mkPending (map_set callId pending (calls p)) (responseBytes p + byteLength) (requestBytes p)).

Definition restoreResponseBytes (callId : Z) (pending : PendingCall) (byteLength : Z) (p : PendingCalls)
    : bool * PendingCalls :=
  if (byteLength >? bufferedResponseBytes pending) || (byteLength >? responseBytes p) then (false, p) else
  let pending := mkPendingCall (pc_kind pending) (bufferedResponseBytes pending - byteLength)
                   (incomingCreditBytes pending) (pc_requestBytes pending) in
  (true, mkPending (map_set callId pending (calls p)) (responseBytes p - byteLength) (requestBytes p)).

Definition markStreamEnded (callId : Z) (pending : PendingCall) (p : PendingCalls) : bool * PendingCalls :=
  match pc_kind pending with
  | stream_call false =>
      (true, mkPending
         (map_set callId (mkPendingCall (stream_call true) (bufferedResponseBytes pending)
                            (incomingCreditBytes pending) 0) (calls p))
         (responseBytes p) (requestBytes p - pc_requestBytes pending))
  | _ => (false, p)
  end.

(** The call, when there is one; it is to be cleaned up and aborted unless [is_ended]. *)
Definition pending_take (callId : Z) (p : PendingCalls) : option PendingCall * PendingCalls :=
  match map_get callId (calls p) with
  | None => (None, p)
  | Some pending =>
      (Some pending,
       mkPending (map_delete callId (calls p)) (responseBytes p - bufferedResponseBytes pending)
         (if is_ended pending then requestBytes p else requestBytes p - pc_requestBytes pending))
  end.

(** [pending.incomingCreditBytes = credit]. *)
Definition set_credit (callId : Z) (credit : Z) (p : PendingCalls) : PendingCalls :=
  match map_get callId (calls p) with
  | None => p
  | Some c => set_call callId (mkPendingCall (pc_kind c) (bufferedResponseBytes c) credit (pc_requestBytes c)) p
  end.

(** [pending.payloads.push(data)]. *)
Definition push_payload (callId : Z) (data : bytes) (p : PendingCalls) : PendingCalls :=
  match map_get callId (calls p) with
  | Some (mkPendingCall (unary_call promise payloads) b c r) =>
      set_call callId (mkPendingCall (unary_call promise (payloads ++ [data])) b c r) p
  | _ => p
  end.

(** ** Accounting

    The counters are the sums over the calls, the budgets are kept, and for every call
    that the other side has not ended, the bytes held and the credit left add up to the
    initial credit. *)

Definition call_ok (c : PendingCall) : Prop :=
  0 <= bufferedResponseBytes c <= INITIAL_CALL_CREDIT_BYTES /\ 0 <= pc_requestBytes c /\
  (is_ended c = true -> pc_requestBytes c = 0) /\
  (is_ended c = false -> bufferedResponseBytes c + incomingCreditBytes c = INITIAL_CALL_CREDIT_BYTES).

Record pending_ok (p : PendingCalls) : Prop := {
  po_keys : keys_ok (calls p);
  po_response : responseBytes p = map_sum bufferedResponseBytes (calls p);
  po_request : requestBytes p = map_sum pc_requestBytes (calls p);
  po_response_max : responseBytes p <= MAX_PENDING_RESPONSE_BYTES;
  po_request_max : requestBytes p <= MAX_PENDING_REQUEST_BYTES;
  po_calls : forall id c, map_get id (calls p) = Some c -> call_ok c
}.

Lemma pending_ok_new : pending_ok newPending.
Proof. split; try done. constructor. Qed.

Lemma calls_nonneg p : pending_ok p ->
  Forall (fun e => 0 <= bufferedResponseBytes (snd e)) (calls p) /\
  Forall (fun e => 0 <= pc_requestBytes (snd e)) (calls p).
Proof.
  intros [Hk _ _ _ _ Hc].
  split; (apply (map_forall_entries (fun c => 0 <= _ c)); [done|]); intros k c Hg;
    destruct (Hc k c Hg) as (? & ? & _); lia.
Qed.

Lemma request_nonneg p : pending_ok p -> 0 <= requestBytes p.
Proof. intros H. rewrite (po_request _ H). apply map_sum_nonneg. by apply calls_nonneg. Qed.

Lemma response_ge p id c : pending_ok p -> map_get id (calls p) = Some c ->
  bufferedResponseBytes c <= responseBytes p.
Proof. intros H Hc. rewrite (po_response _ H). eapply map_sum_ge; [by apply calls_nonneg | done]. Qed.

Lemma request_ge p id c : pending_ok p -> map_get id (calls p) = Some c ->
  pc_requestBytes c <= requestBytes p.
Proof. intros H Hc. rewrite (po_request _ H). eapply map_sum_ge; [by apply calls_nonneg | done]. Qed.

(** Starting a call: the request is reserved, then the call is added. *)
Lemma pending_ok_started p id call n :
  pending_ok p -> map_get id (calls p) = None -> 0 <= n ->
  fst (reserveRequestBytes n p) = None -> is_ended call = false ->
  bufferedResponseBytes call = 0 -> incomingCreditBytes call = INITIAL_CALL_CREDIT_BYTES ->
  pc_requestBytes call = n ->
  pending_ok (pending_add id call (snd (reserveRequestBytes n p))).
Proof.
  intros [Hk Hr Hq Hrm Hqm Hc] Hid Hn. unfold reserveRequestBytes. case_if; [done|].
  bool_prop. intros _ He Hb Hi Hp. unfold pending_add, set_call. cbn [snd calls responseBytes requestBytes].
  split; cbn [calls responseBytes requestBytes snd]; [by apply keys_ok_set | | | exact Hrm | lia |].
  - rewrite map_sum_set_new by done. lia.
  - rewrite map_sum_set_new by done. lia.
  - apply (map_forall_set (fun _ => call_ok)); [done|].
    unfold call_ok. rewrite He, Hb, Hi, Hp. unfold INITIAL_CALL_CREDIT_BYTES. split_and!; try lia; discriminate.
Qed.

(** A call's bytes and credit change together. *)
Lemma pending_ok_moved p id c c' d :
  pending_ok p -> map_get id (calls p) = Some c -> call_ok c' ->
  bufferedResponseBytes c' = bufferedResponseBytes c + d -> pc_requestBytes c' = pc_requestBytes c ->
  responseBytes p + d <= MAX_PENDING_RESPONSE_BYTES ->
  pending_ok (mkPending (map_set id c' (calls p)) (responseBytes p + d) (requestBytes p)).
Proof.
  intros [Hk Hr Hq Hrm Hqm Hc] Hid Hok Hb Hrq Hmax.
  split; cbn [calls responseBytes requestBytes]; [by apply keys_ok_set | | | exact Hmax | exact Hqm |].
  - rewrite (map_sum_set_in _ _ _ _ _ Hid). lia.
  - rewrite (map_sum_set_in _ _ _ _ _ Hid). lia.
  - by apply (map_forall_set (fun _ => call_ok)).
Qed.

Lemma pending_ok_ended p id c :
  pending_ok p -> map_get id (calls p) = Some c -> pending_ok (snd (markStreamEnded id c p)).
Proof.
  intros H Hid. pose proof (request_ge _ _ _ H Hid). pose proof H as [Hk Hr Hq Hrm Hqm Hc].
  unfold markStreamEnded. destruct (pc_kind c) as [|[]] eqn:E; [exact H | exact H |].
  destruct (Hc _ _ Hid) as (H1 & H2 & H3 & H4).
  split; cbn [calls responseBytes requestBytes snd]; [by apply keys_ok_set | | | exact Hrm | lia |].
  - rewrite (map_sum_set_in _ _ _ _ _ Hid). cbn. lia.
  - rewrite (map_sum_set_in _ _ _ _ _ Hid). cbn. lia.
  - apply (map_forall_set (fun _ => call_ok)); [done|]. unfold call_ok, is_ended. cbn [pc_kind bufferedResponseBytes pc_requestBytes]. split_and!; try lia; discriminate.
Qed.

Lemma pending_ok_take p id : pending_ok p -> pending_ok (snd (pending_take id p)).
Proof.
  intros H. unfold pending_take. destruct (map_get id (calls p)) as [c|] eqn:Hid; [|exact H].
  pose proof (request_ge _ _ _ H Hid) as Hge. destruct H as [Hk Hr Hq Hrm Hqm Hc].
  destruct (Hc _ _ Hid) as (H1 & H2 & H3 & H4).
  split; cbn [calls responseBytes requestBytes snd]; [by apply keys_ok_delete | | | lia | destruct (is_ended c); lia |].
  - rewrite (map_sum_delete _ _ _ _ Hid). lia.
  - rewrite (map_sum_delete _ _ _ _ Hid). destruct (is_ended c); [|lia]. rewrite H3 by done. lia.
  - by apply map_forall_delete.
Qed.
