(* ===== verification/DuplexRequests.v ===== *)
(** The requests of duplex calls (duplex-requests.ts): payloads are sent one after the
    other, each when the daemon has granted credit for it.

    [requests] holds every request opened; [dr_live] tells whether it is still in the
    source's map (a request that left it is reached by the sends under way).  The promise
    chain [tail] of a request is its list of works, oldest first: the head is about to run
    ([w_ready]), waits for credit ([w_waiting], its [wake] is set) or is being sent
    ([w_sending]).  An [end] waits for the chain; nothing is added to it afterwards. *)

From stdpp Require Import base list.
From Stdlib Require Import ZArith Lia ZifyBool String.
From S2P Require Import Prelude JsText Json JsMap RpcValues RpcFrame RpcSender.

Open Scope Z_scope.

#[local] Set Warnings "-clear-no-such-hyp".

Inductive work_state := w_ready | w_waiting | w_sending.

Record duplex_work := mkWork {
  dw_promise : Z;
  dw_bytes : bytes;
  dw_state : work_state
}.

Record duplex_request := mkRequest {
  dr_live : bool;
  dr_credit : Z;
  dr_limit : Z;
  dr_closed : bool;
  dr_ending : bool;
  dr_works : list duplex_work;
  dr_end : option Z  (** the promise of the [end] that awaits the chain *)
}.

Record DuplexRequests := mkDuplex {
  requests : jsmap duplex_request;
  dx_pendingBytes : Z;
  dx_pendingCount : Z
}.

Definition newDuplex : DuplexRequests := mkDuplex [] 0 0.

Definition duplex_closed : thrown :=
  newRuntimeProtocolError StatusCode.CANCELLED (js "Duplex request is closed").

Definition set_request (callId : Z) (r : duplex_request) (d : DuplexRequests) : DuplexRequests :=
  mkDuplex (map_set callId r (requests d)) (dx_pendingBytes d) (dx_pendingCount d).

(** [this.requests.get(callId)]. *)
Definition live_request (callId : Z) (d : DuplexRequests) : option duplex_request :=
  match map_get callId (requests d) with
  | Some r => if dr_live r then Some r else None
  | None => None
  end.

Definition duplex_open (callId credit initialBytes : Z) (d : DuplexRequests) : DuplexRequests :=
  set_request callId (mkRequest true (credit - initialBytes) credit false false [] None) d.

(** [request.wake?.()]. *)
Definition wake (works : list duplex_work) : list duplex_work :=
  match works with
  | w :: rest =>
      match dw_state w with
      | w_waiting => mkWork (dw_promise w) (dw_bytes w) w_ready :: rest
      | _ => works
      end
  | [] => []
  end.

Definition duplex_update (callId bytes : Z) (d : DuplexRequests) : outcome thrown bool * DuplexRequests :=
  match live_request callId d with
  | None => (Ret false, d)
  | Some r =>
      if (bytes <=? 0) || (dr_credit r + bytes >? dr_limit r)
      then (Exn (internal (js "Duplex request credit exceeds its limit")), d)
      else
        (Ret true,
         set_request callId
           (mkRequest (dr_live r) (dr_credit r + bytes) (dr_limit r) (dr_closed r) (dr_ending r)
              (wake (dr_works r)) (dr_end r)) d)
  end.

Definition duplex_close (callId : Z) (d : DuplexRequests) : DuplexRequests :=
  match live_request callId d with
  | None => d
  | Some r =>
      set_request callId
        (mkRequest false (dr_credit r) (dr_limit r) true (dr_ending r) (wake (dr_works r)) (dr_end r)) d
  end.

(** [send] up to its first [await]: what it throws, or the work is in the chain. *)
Definition duplex_send (callId promise : Z) (payload : bytes) (d : DuplexRequests)
    : option thrown * DuplexRequests :=
  match live_request callId d with
  | None => (Some duplex_closed, d)
  | Some r =>
      if dr_closed r || dr_ending r then (Some duplex_closed, d) else
      if (dx_pendingCount d >=? MAX_PENDING_SEND_BATCHES) || (byteLength payload >? dr_limit r)
         || (dx_pendingBytes d + byteLength payload >? MAX_PENDING_SEND_BYTES)
      then (Some (exhausted (js "Duplex request buffer limit exceeded")), d)
      else
        (None,
         mkDuplex
           (map_set callId
              (mkRequest (dr_live r) (dr_credit r) (dr_limit r) (dr_closed r) (dr_ending r)
                 (dr_works r ++ [mkWork promise payload w_ready]) (dr_end r)) (requests d))
           (dx_pendingBytes d + byteLength payload) (dx_pendingCount d + 1))
  end.

(** [end] up to its [await]. *)
Definition duplex_end (callId promise : Z) (d : DuplexRequests) : option thrown * DuplexRequests :=
  match live_request callId d with
  | None => (Some duplex_closed, d)
  | Some r =>
      if dr_closed r || dr_ending r then (Some duplex_closed, d) else
      (None,
       set_request callId
         (mkRequest (dr_live r) (dr_credit r) (dr_limit r) (dr_closed r) true (dr_works r) (Some promise)) d)
  end.

(** What the chain of a request does next. *)
Inductive duplex_action :=
  | da_none
  | da_reject (promise : Z)  (** the send or the end is refused: the request is closed *)
  | da_payload (data : bytes)  (** [sender.payload] *)
  | da_end (promise : Z).  (** [sender.end] *)

(** The head of the chain is over. *)
Definition pop_work (callId : Z) (r : duplex_request) (w : duplex_work) (d : DuplexRequests) : DuplexRequests :=
  mkDuplex
    (map_set callId
       (mkRequest (dr_live r) (dr_credit r) (dr_limit r) (dr_closed r) (dr_ending r) (tail (dr_works r))
          (dr_end r)) (requests d))
    (dx_pendingBytes d - byteLength (dw_bytes w)) (dx_pendingCount d - 1).

(** The continuation of the chain: the loop of the head work when it is ready, or the
    [end] when the chain is done.  [aborted] is [request.signal.aborted]. *)
Definition duplex_step (aborted : bool) (callId : Z) (d : DuplexRequests) : duplex_action * DuplexRequests :=
  match map_get callId (requests d) with
  | None => (da_none, d)
  | Some r =>
      match dr_works r with
      | w :: rest =>
          match dw_state w with
          | w_ready =>
              if negb (dr_closed r) && negb aborted && (dr_credit r <? byteLength (dw_bytes w)) then
                (da_none,
                 set_request callId
                   (mkRequest (dr_live r) (dr_credit r) (dr_limit r) (dr_closed r) (dr_ending r)
                      (mkWork (dw_promise w) (dw_bytes w) w_waiting :: rest) (dr_end r)) d)
              else if dr_closed r || aborted then (da_reject (dw_promise w), pop_work callId r w d)
              else
                (da_payload (dw_bytes w),
                 set_request callId
                   (mkRequest (dr_live r) (dr_credit r - byteLength (dw_bytes w)) (dr_limit r) (dr_closed r)
                      (dr_ending r) (mkWork (dw_promise w) (dw_bytes w) w_sending :: rest) (dr_end r)) d)
          | _ => (da_none, d)
          end
      | [] =>
          match dr_end r with
          | None => (da_none, d)
          | Some promise =>
              (if dr_closed r || aborted then da_reject promise else da_end promise,
               set_request callId
                 (mkRequest (dr_live r) (dr_credit r) (dr_limit r) (dr_closed r) (dr_ending r) [] None) d)
          end
      end
  end.

(** [sender.payload] of the head has settled: the promise of its [send]. *)
Definition duplex_sent (callId : Z) (d : DuplexRequests) : option Z * DuplexRequests :=
  match map_get callId (requests d) with
  | None => (None, d)
  | Some r =>
      match dr_works r with
      | w :: _ =>
          match dw_state w with
          | w_sending => (Some (dw_promise w), pop_work callId r w d)
          | _ => (None, d)
          end
      | [] => (None, d)
      end
  end.

(** ** The state of the requests *)

Definition works_bytes (r : duplex_request) : Z :=
  foldr Z.add 0 ((fun w => byteLength (dw_bytes w)) <$> dr_works r).
Definition works_count (r : duplex_request) : Z := Z.of_nat (List.length (dr_works r)).

Record duplex_ok (d : DuplexRequests) : Prop := {
  dx_keys : keys_ok (requests d);
  dx_bytes : dx_pendingBytes d = map_sum works_bytes (requests d);
  dx_count : dx_pendingCount d = map_sum works_count (requests d);
  dx_bytes_max : dx_pendingBytes d <= MAX_PENDING_SEND_BYTES;
  dx_count_max : dx_pendingCount d <= MAX_PENDING_SEND_BATCHES;
  dx_credit : forall id r, map_get id (requests d) = Some r -> dr_credit r <= dr_limit r
}.

Lemma duplex_ok_new : duplex_ok newDuplex.
Proof. split; try done. constructor. Qed.

Lemma wake_measures works :
  foldr Z.add 0 ((fun w => byteLength (dw_bytes w)) <$> wake works) =
    foldr Z.add 0 ((fun w => byteLength (dw_bytes w)) <$> works) /\
  List.length (wake works) = List.length works.
Proof. destruct works as [|w works]; cbn; [done|]. by destruct (dw_state w). Qed.

Lemma live_request_get id d r : live_request id d = Some r -> map_get id (requests d) = Some r /\ dr_live r = true.
Proof.
  unfold live_request. destruct (map_get id (requests d)) as [x|]; [|done].
  destruct (dr_live x) eqn:E; [|done]. intros H. by injection H as ->.
Qed.

Lemma works_app l1 l2 :
  foldr Z.add 0 ((fun w => byteLength (dw_bytes w)) <$> l1 ++ l2) =
    foldr Z.add 0 ((fun w => byteLength (dw_bytes w)) <$> l1) +
    foldr Z.add 0 ((fun w => byteLength (dw_bytes w)) <$> l2).
Proof. induction l1 as [|w l1 IH]; cbn in *; lia. Qed.

Lemma works_bytes_nonneg r : 0 <= works_bytes r.
Proof.
  unfold works_bytes. induction (dr_works r) as [|w l IH]; cbn in *; [done|].
  assert (0 <= byteLength (dw_bytes w)) by (unfold byteLength; lia). lia.
Qed.

(** A request changes: the counters follow, the credit stays within its limit. *)
Lemma duplex_ok_set id r r' d db dc :
  duplex_ok d -> map_get id (requests d) = Some r -> dr_credit r' <= dr_limit r' ->
  works_bytes r' = works_bytes r + db -> works_count r' = works_count r + dc ->
  dx_pendingBytes d + db <= MAX_PENDING_SEND_BYTES -> dx_pendingCount d + dc <= MAX_PENDING_SEND_BATCHES ->
  duplex_ok (mkDuplex (map_set id r' (requests d)) (dx_pendingBytes d + db) (dx_pendingCount d + dc)).
Proof.
  intros [Hk Hb Hc Hbm Hcm Hcr] Hid Hl Hdb Hdc Hmb Hmc.
  split; cbn [requests dx_pendingBytes dx_pendingCount]; [by apply keys_ok_set | | | exact Hmb | exact Hmc |].
  - rewrite (map_sum_set_in _ _ _ _ _ Hid). lia.
  - rewrite (map_sum_set_in _ _ _ _ _ Hid). lia.
  - by apply (map_forall_set (fun _ r => dr_credit r <= dr_limit r)).
Qed.

Lemma duplex_ok_same id r r' d :
  duplex_ok d -> map_get id (requests d) = Some r -> dr_credit r' <= dr_limit r' ->
  works_bytes r' = works_bytes r -> works_count r' = works_count r ->
  duplex_ok (set_request id r' d).
Proof.
  intros H Hid Hl Hb Hc. pose proof (duplex_ok_set id r r' d 0 0 H Hid Hl) as H1.
  rewrite !Z.add_0_r in H1. apply H1; [lia | lia | apply H | apply H].
Qed.

Lemma duplex_ok_open id credit n d :
  duplex_ok d -> map_get id (requests d) = None -> 0 <= n -> duplex_ok (duplex_open id credit n d).
Proof.
  intros [Hk Hb Hc Hbm Hcm Hcr] Hid Hn. unfold duplex_open, set_request.
  split; cbn [requests dx_pendingBytes dx_pendingCount]; [by apply keys_ok_set | | | exact Hbm | exact Hcm |].
  - rewrite map_sum_set_new by done. change (works_bytes _) with 0. lia.
  - rewrite map_sum_set_new by done. change (works_count _) with 0. lia.
  - apply (map_forall_set (fun _ r => dr_credit r <= dr_limit r)); [done | cbn; lia].
Qed.

Lemma duplex_ok_update id n d : duplex_ok d -> duplex_ok (snd (duplex_update id n d)).
Proof.
  intros H. unfold duplex_update. destruct (live_request id d) as [r|] eqn:E; [|exact H].
  case_if; [exact H|]. apply live_request_get in E as [E _]. bool_prop.
  destruct (wake_measures (dr_works r)) as [Hwb Hwl].
  eapply duplex_ok_same; [exact H | exact E | cbn; lia | exact Hwb | unfold works_count; cbn; by rewrite Hwl].
Qed.

Lemma duplex_ok_close id d : duplex_ok d -> duplex_ok (duplex_close id d).
Proof.
  intros H. unfold duplex_close. destruct (live_request id d) as [r|] eqn:E; [|exact H].
  apply live_request_get in E as [E _]. destruct (wake_measures (dr_works r)) as [Hwb Hwl].
  eapply duplex_ok_same; [exact H | exact E | cbn; eapply dx_credit; done | exact Hwb |].
  unfold works_count. cbn. by rewrite Hwl.
Qed.

Lemma duplex_ok_send id p payload d : duplex_ok d -> duplex_ok (snd (duplex_send id p payload d)).
Proof.
  intros H. unfold duplex_send. destruct (live_request id d) as [r|] eqn:E; [|exact H].
  case_if; [exact H|]. case_if; [exact H|]. apply live_request_get in E as [E _]. bool_prop.
  eapply duplex_ok_set; [exact H | exact E | cbn; eapply dx_credit; done | | | | ].
  - unfold works_bytes. cbn [dr_works]. rewrite works_app. cbn. lia.
  - unfold works_count. cbn [dr_works]. rewrite length_app. cbn. lia.
  - lia.
  - lia.
Qed.

Lemma duplex_ok_end id p d : duplex_ok d -> duplex_ok (snd (duplex_end id p d)).
Proof.
  intros H. unfold duplex_end. destruct (live_request id d) as [r|] eqn:E; [|exact H].
  case_if; [exact H|]. apply live_request_get in E as [E _].
  eapply duplex_ok_same; [exact H | exact E | cbn; eapply dx_credit; done | done | done].
Qed.

Lemma duplex_ok_pop id r w rest d : duplex_ok d ->
  map_get id (requests d) = Some r -> dr_works r = w :: rest -> duplex_ok (pop_work id r w d).
Proof.
  intros H E Ew. assert (Hl : 0 <= byteLength (dw_bytes w)) by (unfold byteLength; lia).
  assert (H' := duplex_ok_set id r
    (mkRequest (dr_live r) (dr_credit r) (dr_limit r) (dr_closed r) (dr_ending r) rest (dr_end r)) d
    (- byteLength (dw_bytes w)) (-1) H E).
  unfold pop_work. rewrite Ew. apply H'; cbn; [eapply dx_credit; done | | | |].
  - unfold works_bytes. rewrite Ew. cbn. lia.
  - unfold works_count. rewrite Ew. cbn [List.length dr_works]. lia.
  - pose proof (dx_bytes_max _ H). lia.
  - pose proof (dx_count_max _ H). lia.
Qed.

Lemma duplex_ok_step aborted id d : duplex_ok d -> duplex_ok (snd (duplex_step aborted id d)).
Proof.
  intros H. unfold duplex_step. destruct (map_get id (requests d)) as [r|] eqn:E; [|exact H].
  destruct (dr_works r) as [|w rest] eqn:Ew.
  - destruct (dr_end r); [|exact H]. cbn [snd].
    eapply duplex_ok_same; [exact H | exact E | cbn; eapply dx_credit; done | |];
      unfold works_bytes, works_count; by rewrite Ew.
  - destruct (dw_state w); [|exact H|exact H]. pose proof (dx_credit _ H _ _ E).
    repeat case_if; cbn [snd].
    + eapply duplex_ok_same; [exact H | exact E | cbn; lia | |];
        unfold works_bytes, works_count; by rewrite Ew.
    + by eapply duplex_ok_pop.
    + eapply duplex_ok_same; [exact H | exact E | cbn; unfold byteLength; lia | |];
        unfold works_bytes, works_count; by rewrite Ew.
Qed.

Lemma duplex_ok_sent id d : duplex_ok d -> duplex_ok (snd (duplex_sent id d)).
Proof.
  intros H. unfold duplex_sent. destruct (map_get id (requests d)) as [r|] eqn:E; [|exact H].
  destruct (dr_works r) as [|w rest] eqn:Ew; [exact H|].
  destruct (dw_state w); [exact H | exact H|]. by eapply duplex_ok_pop.
Qed.
