(* ===== verification/IncomingCalls.v ===== *)
(** Reverse calls: the calls a daemon makes to handlers of this peer (incoming-calls.ts),
    and the registry of the handlers (handler.ts).

    [in_calls] holds every call started; [ic_live] tells whether it is still in the
    source's map (the invocation of a call that left it goes on).  The async [invoke] is
    cut at its awaits: [ic_run] says what it waits for.  What the methods do to the sender,
    to the call's abort controller and to the promise of [reserveCredit] are effects, in
    order. *)

From stdpp Require Import base list gmap.
From Stdlib Require Import ZArith Lia ZifyBool String.
From S2P Require Import Prelude JsText Json JsMap Effects RpcValues RpcFrame RpcSender.

Open Scope Z_scope.

#[local] Set Warnings "-clear-no-such-hyp".

(** ** RuntimeHandlerRegistry *)

Inductive handler_kind := unary_handler | stream_handler.

(** A registered handler: its kind, and a name for the object. *)
Record EncodedRuntimeHandler := mkHandler {
  eh_kind : handler_kind;
  eh_object : Z
}.

#[export] Instance handler_kind_eq_dec : EqDecision handler_kind.
Proof. solve_decision. Defined.
#[export] Instance handler_eq_dec : EqDecision EncodedRuntimeHandler.
Proof. solve_decision. Defined.

Definition RuntimeHandlerRegistry : Type := gmap jsstring EncodedRuntimeHandler.

(** The descriptor of a method: the type of its service, its name, and its policies when
    it has them (the route, and the peer kinds admitted). *)
Record method_descriptor := mkMethod {
  md_typeName : jsstring;
  md_name : jsstring;
  md_policy : option (list Z);
  md_route : option Z
}.

Definition LOCAL_ONLY : Z := 1.

Definition methodProcedure (m : method_descriptor) : jsstring :=
  js "/" ++ md_typeName m ++ js "/" ++ md_name m.

(** The message of the [Error] thrown, if any. *)
Definition validateReverseMethod (m : method_descriptor) : option jsstring :=
  match md_policy m, md_route m with
  | Some peerKinds, Some route =>
      if negb (route =? LOCAL_ONLY) || negb (bool_decide (PeerKind.CHROME_EXTENSION ∈ peerKinds))
      then Some (js "Reverse runtime handler is not allowed for a local Chrome peer") else None
  | _, _ => Some (js "Reverse runtime handler has no method policy")
  end.

(** [registerUnary] and [registerServerStream]. *)
Definition register_handler (m : method_descriptor) (h : EncodedRuntimeHandler) (r : RuntimeHandlerRegistry)
    : outcome jsstring RuntimeHandlerRegistry :=
  match validateReverseMethod m with
  | Some e => Exn e
  | None =>
      let procedure := methodProcedure m in
      match r !! procedure with
      | Some _ => Exn (js "Runtime handler is already registered for " ++ procedure)
      | None => Ret (<[procedure := h]> r)
      end
  end.

(** The function [register] returns. *)
Definition unregister_handler (procedure : jsstring) (h : EncodedRuntimeHandler)
    (r : RuntimeHandlerRegistry) : RuntimeHandlerRegistry :=
  if bool_decide (r !! procedure = Some h) then delete procedure r else r.

(** ** Calls *)

Definition MAX_ACTIVE_REVERSE_CALLS : Z := 128.

(** What [invoke] waits for. *)
Inductive invocation :=
  | iv_none  (** not invoked, or over *)
  | iv_handler
  | iv_credit (payload : bytes)
  | iv_sending.

Record IncomingCall := mkIncoming {
  ic_live : bool;
  ic_creditWaiter : option Z;  (** its [byteLength] *)
  ic_failure : option thrown;
  ic_handler : option EncodedRuntimeHandler;
  ic_incomingCreditBytes : Z;
  outgoingCreditBytes : Z;
  ic_request : option bytes;
  ic_timeout : bool;
  ic_timeoutMs : Z;
  ic_run : invocation
}.

Record IncomingCalls := mkIncomingCalls {
  in_calls : jsmap IncomingCall;
  initialOutgoingCreditBytes : Z;
  lastCallId : Z;
  in_requestBytes : Z
}.

Definition newIncoming : IncomingCalls := mkIncomingCalls [] 0 0 0.

Inductive incoming_effect :=
  | ie_abort (callId : Z) (reason : thrown)
  | ie_end (callId : Z) (status : option Status)
  | ie_restoreCredit (callId byteLength : Z)
  | ie_payload (callId : Z) (data : bytes)
  | ie_credit (callId : Z) (error : option thrown)  (** the promise of [reserveCredit] settles *)
  | ie_invoke (callId : Z) (handler : EncodedRuntimeHandler) (request : bytes) (timeoutMs : Z).

Definition I (A : Type) : Type := M IncomingCalls incoming_effect thrown A.

Definition set_incoming (callId : Z) (c : IncomingCall) (s : IncomingCalls) : IncomingCalls :=
  mkIncomingCalls (map_set callId c (in_calls s)) (initialOutgoingCreditBytes s) (lastCallId s) (in_requestBytes s).

Definition live_incoming (callId : Z) (s : IncomingCalls) : option IncomingCall :=
  match map_get callId (in_calls s) with
  | Some c => if ic_live c then Some c else None
  | None => None
  end.

Definition live_count (s : IncomingCalls) : Z := map_sum (fun c => if ic_live c then 1 else 0) (in_calls s).

Definition request_length (c : IncomingCall) : Z :=
  match ic_request c with Some request => byteLength request | None => 0 end.

(** Field updates of a call. *)
Definition with_request (request : option bytes) (credit : Z) (c : IncomingCall) : IncomingCall :=
  mkIncoming (ic_live c) (ic_creditWaiter c) (ic_failure c) (ic_handler c) credit
    (outgoingCreditBytes c) request (ic_timeout c) (ic_timeoutMs c) (ic_run c).
Definition with_failure (failure : thrown) (c : IncomingCall) : IncomingCall :=
  mkIncoming (ic_live c) (ic_creditWaiter c) (Some failure) (ic_handler c) (ic_incomingCreditBytes c)
    (outgoingCreditBytes c) (ic_request c) (ic_timeout c) (ic_timeoutMs c) (ic_run c).
Definition with_outgoing (waiter : option Z) (credit : Z) (c : IncomingCall) : IncomingCall :=
  mkIncoming (ic_live c) waiter (ic_failure c) (ic_handler c) (ic_incomingCreditBytes c)
    credit (ic_request c) (ic_timeout c) (ic_timeoutMs c) (ic_run c).
Definition with_run (run : invocation) (c : IncomingCall) : IncomingCall :=
  mkIncoming (ic_live c) (ic_creditWaiter c) (ic_failure c) (ic_handler c) (ic_incomingCreditBytes c)
    (outgoingCreditBytes c) (ic_request c) (ic_timeout c) (ic_timeoutMs c) run.
Definition removed (c : IncomingCall) : IncomingCall :=
  mkIncoming false None (ic_failure c) (ic_handler c) (ic_incomingCreditBytes c)
    (outgoingCreditBytes c) None false (ic_timeoutMs c) (ic_run c).

Definition upd_call (callId : Z) (c : IncomingCall) : I unit := modify (set_incoming callId c).

Definition incoming_isRetired (callId : Z) (s : IncomingCalls) : bool :=
  (callId >? 0) && (callId mod 2 =? 0) && (callId <=? lastCallId s).

(** ** Methods *)

Definition configure (credit : Z) : I unit :=
  (if (credit >? MAX_SAFE_INTEGER) || (credit <=? 0)
   then throw (internal (js "Reverse call credit is invalid"))
   else modify (fun s => mkIncomingCalls (in_calls s) credit (lastCallId s) (in_requestBytes s)))%eff.

(** [remove]; [reason] is the reason of the call's signal. *)
Definition incoming_remove (callId : Z) (c : IncomingCall) (reason : thrown) : I unit :=
  (modify (fun s => mkIncomingCalls (map_set callId (removed c) (in_calls s))
             (initialOutgoingCreditBytes s) (lastCallId s) (in_requestBytes s - request_length c)) ;;;
   match ic_creditWaiter c with
   | Some _ => emit (ie_credit callId (Some reason))
   | None => ret tt
   end)%eff.

(** The code and message of an error; its callers construct a [RuntimeProtocolError]. *)
Definition error_status (e : thrown) : Status :=
  match e with
  | RuntimeProtocolError code message => mkStatus code message
  | OtherValue _ m => mkStatus StatusCode.INTERNAL (default [] m)
  end.

Definition normalizeError (e : thrown) : thrown :=
  match e with
  | RuntimeProtocolError _ _ => e
  | OtherValue _ m => newRuntimeProtocolError StatusCode.INTERNAL (default (js "Reverse handler failed") m)
  end.

Definition incoming_fail (callId : Z) (error : thrown) : I unit :=
  (s <- get ;;
   match live_incoming callId s with
   | None => ret tt
   | Some c =>
       emit (ie_abort callId error) ;;;
       incoming_remove callId c error ;;;
       emit (ie_end callId (Some (error_status error)))
   end)%eff.

Definition incoming_start (handlers : RuntimeHandlerRegistry) (start : CallStart) (welcome : option Welcome)
    : I unit :=
  (if negb (has_feature TransportFeature.REVERSE_CALLS welcome)
   then throw (newRuntimeProtocolError StatusCode.FAILED_PRECONDITION
                 (js "Runtime sent a reverse call without negotiation")) else
   s <- get ;;
   let callId := cs_callId start in
   if (callId =? 0) || negb (callId mod 2 =? 0) || (callId <=? lastCallId s)
   then throw (internal (js "Daemon sent an invalid reverse call ID")) else
   if live_count s >=? MAX_ACTIVE_REVERSE_CALLS
   then throw (exhausted (js "Runtime protocol has too many reverse calls")) else
   match cs_destination start with
   | Some _ => throw (newRuntimeProtocolError StatusCode.INVALID_ARGUMENT
                        (js "Reverse calls cannot have a runtime destination"))
   | None =>
       modify (fun s => mkIncomingCalls
         (map_set callId
            (mkIncoming true None None (handlers !! cs_procedure start) INITIAL_CALL_CREDIT_BYTES
               (initialOutgoingCreditBytes s) None (cs_timeoutMs start >? 0) (cs_timeoutMs start) iv_none)
            (in_calls s))
         (initialOutgoingCreditBytes s) callId (in_requestBytes s))
   end)%eff.

(** [required]. *)
Definition incoming_required (callId : Z) (frame : jsstring) : I IncomingCall :=
  (s <- get ;;
   match live_incoming callId s with
   | None => throw (internal (frame ++ js " addressed an unknown reverse call"))
   | Some c => ret c
   end)%eff.

Definition incoming_payload (callId : Z) (data : bytes) : I unit :=
  (c <- incoming_required callId (js "Payload") ;;
   match ic_failure c with
   | Some _ => ret tt
   | None =>
       match ic_request c with
       | Some _ => throw (internal (js "Reverse unary request has two payloads"))
       | None =>
           if byteLength data >? ic_incomingCreditBytes c
           then throw (exhausted (js "Daemon exceeded call credit")) else
           s <- get ;;
           if byteLength data >? MAX_PENDING_REQUEST_BYTES - in_requestBytes s
           then upd_call callId (with_failure (exhausted (js "Reverse request buffer budget exceeded")) c)
           else
             modify (fun s => mkIncomingCalls
               (map_set callId
                  (with_request (Some data) (ic_incomingCreditBytes c - byteLength data) c) (in_calls s))
               (initialOutgoingCreditBytes s) (lastCallId s) (in_requestBytes s + byteLength data))
       end
   end)%eff.

Definition endRequest (callId : Z) (status : option Status) : I unit :=
  (c <- incoming_required callId (js "CallEnd") ;;
   if match status with Some s => negb (status_code s =? StatusCode.OK_UNSPECIFIED) | None => false end
   then incoming_remove callId c (OtherValue 0 None) else
   match ic_failure c with
   | Some e => incoming_fail callId e
   | None =>
       match ic_request c with
       | None =>
           incoming_fail callId (newRuntimeProtocolError StatusCode.INVALID_ARGUMENT (js "Request is missing"))
       | Some request =>
           modify (fun s => mkIncomingCalls
             (map_set callId (with_request None (ic_incomingCreditBytes c) c) (in_calls s))
             (initialOutgoingCreditBytes s) (lastCallId s) (in_requestBytes s - byteLength request)) ;;;
           emit (ie_restoreCredit callId (byteLength request)) ;;;
           match ic_handler c with
           | None =>
               incoming_fail callId (newRuntimeProtocolError StatusCode.UNIMPLEMENTED
                                       (js "Reverse procedure is not registered"))
           | Some handler =>
               upd_call callId (with_run iv_handler (with_request None (ic_incomingCreditBytes c) c)) ;;;
               emit (ie_invoke callId handler request (ic_timeoutMs c))
           end
       end
   end)%eff.

Definition incoming_cancel (callId : Z) (status : option Status) : I unit :=
  (s <- get ;;
   match live_incoming callId s with
   | None =>
       if incoming_isRetired callId s then ret tt
       else throw (internal (js "Cancel addressed an unknown reverse call"))
   | Some c =>
       let code :=
         match status with
         | Some s => if status_code s =? StatusCode.DEADLINE_EXCEEDED then StatusCode.DEADLINE_EXCEEDED
                     else StatusCode.CANCELLED
         | None => StatusCode.CANCELLED
         end in
       let message :=
         match status with
         | Some (mkStatus _ (ch :: m)) => ch :: m
         | _ => js "Reverse call cancelled"
         end in
       let error := newRuntimeProtocolError code message in
       emit (ie_abort callId error) ;;;
       incoming_remove callId c error ;;;
       emit (ie_end callId (Some (error_status error)))
   end)%eff.

Definition addCredit (callId creditBytes : Z) : I unit :=
  (if creditBytes =? 0
   then throw (newRuntimeProtocolError StatusCode.INVALID_ARGUMENT (js "WindowUpdate has no credit")) else
   s <- get ;;
   match live_incoming callId s with
   | None =>
       if incoming_isRetired callId s then ret tt
       else throw (internal (js "WindowUpdate addressed an unknown reverse call"))
   | Some c =>
       if (creditBytes >? MAX_SAFE_INTEGER)
          || (creditBytes >? initialOutgoingCreditBytes s - outgoingCreditBytes c)
       then throw (newRuntimeProtocolError StatusCode.INVALID_ARGUMENT
                     (js "WindowUpdate credit is invalid"))
       else
         let credit := outgoingCreditBytes c + creditBytes in
         match ic_creditWaiter c with
         | Some waiter =>
             if waiter <=? credit
             then upd_call callId (with_outgoing None (credit - waiter) c) ;;;
                  emit (ie_credit callId None)
             else upd_call callId (with_outgoing (Some waiter) credit c)
         | None => upd_call callId (with_outgoing None credit c)
         end
   end)%eff.

(** [for (const [callId, call] of this.calls) ...]. *)
Definition incoming_close (error : thrown) : I unit :=
  (s <- get ;;
   for_each (fun callId =>
     s <- get ;;
     match live_incoming callId s with
     | Some c => emit (ie_abort callId error) ;;; incoming_remove callId c error
     | None => ret tt
     end) (map_keys (in_calls s)))%eff.

(** The timer of a call fires. *)
Definition incoming_timeout (callId : Z) : I unit :=
  (s <- get ;;
   match live_incoming callId s with
   | Some c =>
       if ic_timeout c
       then incoming_fail callId (newRuntimeProtocolError StatusCode.DEADLINE_EXCEEDED
                                    (js "Reverse call deadline exceeded"))
       else ret tt
   | None => ret tt
   end)%eff.

(** ** invoke *)

(** [catch (error)] of [invoke]. *)
Definition invoke_catch (callId : Z) (error : thrown) : I unit :=
  (s <- get ;;
   match map_get callId (in_calls s) with
   | None => ret tt
   | Some c =>
       upd_call callId (with_run iv_none c) ;;;
       if ic_live c
       then incoming_fail callId (normalizeError error)
       else ret tt
   end)%eff.

(** After the handler: [if (this.calls.get(callId) === call)]. *)
Definition invoke_finish (callId : Z) : I unit :=
  (s <- get ;;
   match map_get callId (in_calls s) with
   | None => ret tt
   | Some c =>
       upd_call callId (with_run iv_none c) ;;;
       if ic_live c
       then incoming_remove callId (with_run iv_none c) (OtherValue 0 None) ;;; emit (ie_end callId None)
       else ret tt
   end)%eff.

Definition credit_exceeded : thrown :=
  exhausted (js "Reverse response exceeds its flow-control allowance").

(** [sendPayload] up to the await of [reserveCredit]. *)
Definition sendPayload (callId : Z) (c : IncomingCall) (payload : bytes) : I unit :=
  (s <- get ;;
   let n := byteLength payload in
   if n <=? outgoingCreditBytes c then
     upd_call callId (with_run (iv_credit payload)
                        (with_outgoing (ic_creditWaiter c) (outgoingCreditBytes c - n) c)) ;;;
     emit (ie_credit callId None)
   else if (n >? initialOutgoingCreditBytes s) || bool_decide (ic_creditWaiter c <> None) then
     upd_call callId (with_run (iv_credit payload) c) ;;;
     emit (ie_credit callId (Some credit_exceeded))
   else upd_call callId (with_run (iv_credit payload) (with_outgoing (Some n) (outgoingCreditBytes c) c)))%eff.

Inductive handler_result :=
  | hr_payload (payload : bytes)  (** the result of a unary handler, or a value of a stream *)
  | hr_done  (** the end of a stream *)
  | hr_throws (error : thrown).

(** What the handler of [callId] answers; [aborted] is the reason of the call's signal. *)
Definition handler_answers (aborted : option thrown) (callId : Z) (r : handler_result) : I unit :=
  (s <- get ;;
   match map_get callId (in_calls s) with
   | None => ret tt
   | Some c =>
       match ic_run c, r with
       | iv_handler, hr_throws e => invoke_catch callId e
       | iv_handler, hr_done => invoke_finish callId
       | iv_handler, hr_payload payload =>
           match eh_kind <$> ic_handler c, aborted with
           | Some stream_handler, Some reason => invoke_catch callId reason
           | _, _ => sendPayload callId c payload
           end
       | _, _ => ret tt
       end
   end)%eff.

(** The promise of [reserveCredit] has settled. *)
Definition credit_settled (callId : Z) (error : option thrown) : I unit :=
  (s <- get ;;
   match map_get callId (in_calls s) with
   | None => ret tt
   | Some c =>
       match ic_run c, error with
       | iv_credit payload, None => upd_call callId (with_run iv_sending c) ;;; emit (ie_payload callId payload)
       | iv_credit _, Some e => invoke_catch callId e
       | _, _ => ret tt
       end
   end)%eff.

(** The promise of [sender.payload] has settled. *)
Definition payload_settled (callId : Z) (error : option thrown) : I unit :=
  (s <- get ;;
   match map_get callId (in_calls s) with
   | None => ret tt
   | Some c =>
       match ic_run c, error with
       | iv_sending, Some e => invoke_catch callId e
       | iv_sending, None =>
           match eh_kind <$> ic_handler c with
           | Some stream_handler => upd_call callId (with_run iv_handler c)
           | _ => invoke_finish callId
           end
       | _, _ => ret tt
       end
   end)%eff.
