(* ===== verification/Peer.v ===== *)
(** The runtime protocol peer (peer.ts), with the handshake (handshake.ts), the
    acceptance of response payloads (incoming-payload.ts), the settling of calls
    (call-state.ts), the opening of streams (stream-calls.ts) and the dispatch of received
    frames (incoming-frame.ts).

    Every entry point is a computation over one state, in which the parts of the peer are
    called where the source calls them; an async method is cut at its awaits.  What
    awaits a promise of the sender, of a reverse call or of the handshake is a
    [continuation]; when the promise settles its continuation joins [p_jobs], the
    microtask queue, and runs as an event ([run_job]).  A promise given to a caller is a
    number, settling it is an effect.  The abort controllers are named by the call they
    belong to (zero is the handshake's), [p_aborted] is which are aborted. *)

From stdpp Require Import base list gmap.
From Stdlib Require Import ZArith Lia ZifyBool String SpecFloat.
From S2P Require Import Prelude JsText Json JsMap Effects RpcValues CallTables EventStream RpcFrame.
From S2P Require Import RpcSender PendingCalls DuplexRequests IncomingCalls.

Open Scope Z_scope.

#[local] Set Warnings "-clear-no-such-hyp".

(** ** State *)

(** The listener and the timer of a call that has not been cleaned up (call-state.ts,
    [createCallLifecycle]). *)
Record CallLifecycle := mkLifecycle {
  lf_listening : bool;
  lf_timeoutMs : Z;
  lf_timer : bool
}.

(** ProtocolHandshake.  [hs_ready] is what the promise [ready] settled with,
    [hs_awaiting] the promise of the [hello] that awaits it. *)
Record ProtocolHandshake := mkHandshake {
  offeredTransportFeatures : list Z;
  hs_pending : bool;
  hs_timer : bool;
  hs_welcome : option Welcome;
  hs_ready : option (outcome thrown Welcome);
  hs_awaiting : option Z
}.

Definition newHandshake : ProtocolHandshake := mkHandshake [] false false None None None.

(** What the promise of a cancellation is for. *)
Inductive cancel_waiter :=
  | cw_none
  | cw_cancel (promise : Z)  (** [RuntimeStream.cancel] *)
  | cw_return (promise : Z)  (** [return] of the event stream *)
  | cw_reject (promise : Z) (error : thrown).  (** a failed [send] or [end] of a duplex *)

Inductive continuation :=
  | k_ignore
  | k_ping (nonce : Z)
  | k_hello (promise : Z)
  | k_ready (promise : Z)
  | k_unary (callId : Z)
  | k_open (callId promise : Z)
  | k_cancel (waiter : cancel_waiter)
  | k_duplex (callId : Z)
  | k_duplex_end (callId promise : Z)
  | k_incoming_credit (callId : Z)
  | k_incoming_payload (callId : Z).

Section peer.
Context {B : FrameBinary}.

Record RuntimePeer := mkPeer {
  p_callIds : ClientCallIdSequence;
  p_duplexRequests : DuplexRequests;
  p_handlers : RuntimeHandlerRegistry;
  p_handshake : ProtocolHandshake;
  p_incoming : IncomingCalls;
  p_isClosed : bool;
  p_cancelled : LocallyCancelledCalls;
  p_pending : PendingCalls;
  p_receiver : ProtocolReceiver;
  p_sender : ProtocolSender continuation;
  p_streams : gmap Z RuntimeEventStream;
  p_lifecycles : gmap Z CallLifecycle;
  p_aborted : gmap Z abort_record;
  p_jobs : list (continuation * option thrown)
}.

Definition newPeer : RuntimePeer :=
  mkPeer newCallIds newDuplex ∅ newHandshake newIncoming false
    (newCancelled (Z.to_nat MAX_LOCALLY_CANCELLED_CALLS)) newPending newReceiver newSender ∅ ∅ ∅ [].

Inductive promise_value :=
  | pv_unit
  | pv_welcome (welcome : Welcome)
  | pv_stream (callId : Z).

Inductive peer_effect :=
  | x_sendBytes (frame : EncodedFrame) (signal : option Z)
  | x_unary (promise : Z) (result : outcome thrown bytes)  (** a unary call settles *)
  | x_settle (promise : Z) (result : outcome thrown promise_value)
  | x_read (promise : Z) (result : read_result)  (** a read of an event stream settles *)
  | x_terminated (error : thrown)
  | x_invoke (callId : Z) (handler : EncodedRuntimeHandler) (request : bytes) (timeoutMs : Z).

Definition P (A : Type) : Type := M RuntimePeer peer_effect thrown A.

(** ** Parts *)

Definition set_callIds (v : ClientCallIdSequence) (s : RuntimePeer) : RuntimePeer :=
  mkPeer v (p_duplexRequests s) (p_handlers s) (p_handshake s) (p_incoming s) (p_isClosed s)
    (p_cancelled s) (p_pending s) (p_receiver s) (p_sender s) (p_streams s) (p_lifecycles s)
    (p_aborted s) (p_jobs s).
Definition set_duplex (v : DuplexRequests) (s : RuntimePeer) : RuntimePeer :=
  mkPeer (p_callIds s) v (p_handlers s) (p_handshake s) (p_incoming s) (p_isClosed s)
    (p_cancelled s) (p_pending s) (p_receiver s) (p_sender s) (p_streams s) (p_lifecycles s)
    (p_aborted s) (p_jobs s).
Definition set_handlers (v : RuntimeHandlerRegistry) (s : RuntimePeer) : RuntimePeer :=
  mkPeer (p_callIds s) (p_duplexRequests s) v (p_handshake s) (p_incoming s) (p_isClosed s)
    (p_cancelled s) (p_pending s) (p_receiver s) (p_sender s) (p_streams s) (p_lifecycles s)
    (p_aborted s) (p_jobs s).
Definition set_handshake (v : ProtocolHandshake) (s : RuntimePeer) : RuntimePeer :=
  mkPeer (p_callIds s) (p_duplexRequests s) (p_handlers s) v (p_incoming s) (p_isClosed s)
    (p_cancelled s) (p_pending s) (p_receiver s) (p_sender s) (p_streams s) (p_lifecycles s)
    (p_aborted s) (p_jobs s).
Definition set_incoming_calls (v : IncomingCalls) (s : RuntimePeer) : RuntimePeer :=
  mkPeer (p_callIds s) (p_duplexRequests s) (p_handlers s) (p_handshake s) v (p_isClosed s)
    (p_cancelled s) (p_pending s) (p_receiver s) (p_sender s) (p_streams s) (p_lifecycles s)
    (p_aborted s) (p_jobs s).
Definition set_isClosed (s : RuntimePeer) : RuntimePeer :=
  mkPeer (p_callIds s) (p_duplexRequests s) (p_handlers s) (p_handshake s) (p_incoming s) true
    (p_cancelled s) (p_pending s) (p_receiver s) (p_sender s) (p_streams s) (p_lifecycles s)
    (p_aborted s) (p_jobs s).
Definition set_cancelled (v : LocallyCancelledCalls) (s : RuntimePeer) : RuntimePeer :=
  mkPeer (p_callIds s) (p_duplexRequests s) (p_handlers s) (p_handshake s) (p_incoming s)
    (p_isClosed s) v (p_pending s) (p_receiver s) (p_sender s) (p_streams s) (p_lifecycles s)
    (p_aborted s) (p_jobs s).
Definition set_pending (v : PendingCalls) (s : RuntimePeer) : RuntimePeer :=
  mkPeer (p_callIds s) (p_duplexRequests s) (p_handlers s) (p_handshake s) (p_incoming s)
    (p_isClosed s) (p_cancelled s) v (p_receiver s) (p_sender s) (p_streams s) (p_lifecycles s)
    (p_aborted s) (p_jobs s).
Definition set_receiver (v : ProtocolReceiver) (s : RuntimePeer) : RuntimePeer :=
  mkPeer (p_callIds s) (p_duplexRequests s) (p_handlers s) (p_handshake s) (p_incoming s)
    (p_isClosed s) (p_cancelled s) (p_pending s) v (p_sender s) (p_streams s) (p_lifecycles s)
    (p_aborted s) (p_jobs s).
Definition set_sender (v : ProtocolSender continuation) (s : RuntimePeer) : RuntimePeer :=
  mkPeer (p_callIds s) (p_duplexRequests s) (p_handlers s) (p_handshake s) (p_incoming s)
    (p_isClosed s) (p_cancelled s) (p_pending s) (p_receiver s) v (p_streams s) (p_lifecycles s)
    (p_aborted s) (p_jobs s).
Definition set_streams (v : gmap Z RuntimeEventStream) (s : RuntimePeer) : RuntimePeer :=
  mkPeer (p_callIds s) (p_duplexRequests s) (p_handlers s) (p_handshake s) (p_incoming s)
    (p_isClosed s) (p_cancelled s) (p_pending s) (p_receiver s) (p_sender s) v (p_lifecycles s)
    (p_aborted s) (p_jobs s).
Definition set_lifecycles (v : gmap Z CallLifecycle) (s : RuntimePeer) : RuntimePeer :=
  mkPeer (p_callIds s) (p_duplexRequests s) (p_handlers s) (p_handshake s) (p_incoming s)
    (p_isClosed s) (p_cancelled s) (p_pending s) (p_receiver s) (p_sender s) (p_streams s) v
    (p_aborted s) (p_jobs s).
Definition set_aborted (v : gmap Z abort_record) (s : RuntimePeer) : RuntimePeer :=
  mkPeer (p_callIds s) (p_duplexRequests s) (p_handlers s) (p_handshake s) (p_incoming s)
    (p_isClosed s) (p_cancelled s) (p_pending s) (p_receiver s) (p_sender s) (p_streams s)
    (p_lifecycles s) v (p_jobs s).
Definition set_jobs (v : list (continuation * option thrown)) (s : RuntimePeer) : RuntimePeer :=
  mkPeer (p_callIds s) (p_duplexRequests s) (p_handlers s) (p_handshake s) (p_incoming s)
    (p_isClosed s) (p_cancelled s) (p_pending s) (p_receiver s) (p_sender s) (p_streams s)
    (p_lifecycles s) (p_aborted s) v.

(** The event stream of a call. *)
Definition stream_of (callId : Z) : lens RuntimePeer RuntimeEventStream :=
  mkLens (fun s => default newEventStream (p_streams s !! callId))
    (fun e s => set_streams (<[callId := e]> (p_streams s)) s).

Definition add_job (k : continuation) (error : option thrown) : P unit :=
  modify (fun s => set_jobs (p_jobs s ++ [(k, error)]) s).

(** [controller.abort(reason)]: only the first has an effect. *)
Definition abort (id : Z) (reason : thrown) : P unit :=
  modify (fun s =>
    match p_aborted s !! id with
    | Some _ => s
    | None => set_aborted (<[id := mkAbort reason (ps_isClosed (p_sender s))]> (p_aborted s)) s
    end).

(** The reason [abort()] gives. *)
Definition AbortError : thrown := OtherValue 1 (Some (js "This operation was aborted")).

(** [sendBatch]: a batch that is refused settles with the error. *)
Definition schedule (r : ProtocolSender continuation -> option thrown * ProtocolSender continuation)
    (k : continuation) : P unit :=
  (s <- get ;;
   match r (p_sender s) with
   | (None, sender) => modify (set_sender sender)
   | (Some e, sender) => modify (set_sender sender) ;;; add_job k (Some e)
   end)%eff.

Definition send (bodies : list FrameBody) (signal : option Z) (k : continuation) : P unit :=
  schedule (sendBatch bodies signal k) k.

(** The effects of reverse calls, carried out by the peer. *)
Definition run_incoming_effect (e : incoming_effect) : P unit :=
  match e with
  | ie_abort callId reason => abort callId reason
  | ie_end callId status => send (end_bodies callId status) None k_ignore
  | ie_restoreCredit callId n => send (credit_bodies callId n) None k_ignore
  | ie_payload callId data => send (payload_bodies callId data) (Some callId) (k_incoming_payload callId)
  | ie_credit callId error => add_job (k_incoming_credit callId) error
  | ie_invoke callId handler request timeoutMs => emit (x_invoke callId handler request timeoutMs)
  end.

Definition in_incoming {A} (m : I A) : P A := fun s =>
  let '(r, calls, effects) := m (p_incoming s) in
  let '(_, s, out) := for_each run_incoming_effect effects (set_incoming_calls calls s) in
  (r, s, out).

(** ** Calls (call-state.ts) *)

Definition cleanup (callId : Z) (pending : PendingCall) : P unit :=
  (modify (fun s => set_lifecycles (delete callId (p_lifecycles s)) s) ;;;
   match pc_kind pending with
   | stream_call _ => modify (fun s => set_duplex (duplex_close callId (p_duplexRequests s)) s)
   | unary_call _ _ => ret tt
   end)%eff.

(** [this.pending.take(callId)]. *)
Definition take_call (callId : Z) : P (option PendingCall) :=
  (s <- get ;;
   let '(r, pending) := pending_take callId (p_pending s) in
   modify (set_pending pending) ;;;
   match r with
   | Some call => if is_ended call then ret tt else cleanup callId call ;;; abort callId AbortError
   | None => ret tt
   end ;;;
   ret r)%eff.

Definition failPendingCall (callId : Z) (pending : PendingCall) (error : thrown) : P unit :=
  match pc_kind pending with
  | unary_call promise _ => emit (x_unary promise (Exn error))
  | stream_call _ => stream_fail (stream_of callId) x_read error
  end.

Definition completePendingCall (callId : Z) (pending : PendingCall) (status : option Status) : P unit :=
  match statusError status with
  | Some error => failPendingCall callId pending error
  | None =>
      match pc_kind pending with
      | stream_call _ => stream_end (stream_of callId) x_read
      | unary_call promise [data] => emit (x_unary promise (Ret data))
      | unary_call promise _ =>
          emit (x_unary promise (Exn (internal (js "Unary call returned an invalid payload count"))))
      end
  end.

Definition finishFailed (callId : Z) (error : thrown) : P unit :=
  (pending <- take_call callId ;;
   match pending with
   | Some call => failPendingCall callId call error
   | None => ret tt
   end)%eff.

(** ** Handshake *)

Definition handshake_ready (pending : bool) (result : outcome thrown Welcome) (h : ProtocolHandshake)
    : ProtocolHandshake :=
  mkHandshake (offeredTransportFeatures h) pending false (hs_welcome h) (Some result) None.

(** [ready] settles: the [hello] awaiting it continues. *)
Definition settle_ready (result : outcome thrown Welcome) : P unit :=
  (s <- get ;;
   modify (set_handshake (handshake_ready false result (p_handshake s))) ;;;
   match hs_awaiting (p_handshake s) with
   | Some promise => add_job (k_ready promise) None
   | None => ret tt
   end)%eff.

Definition handshake_fail (error : thrown) : P unit :=
  (s <- get ;;
   if hs_pending (p_handshake s)
   then abort 0 error ;;; settle_ready (Exn error)
   else ret tt)%eff.

(** ** terminate, cancel and restoreCredit *)

Definition terminate (error : thrown) (shouldNotify : bool) : P unit :=
  (s <- get ;;
   if p_isClosed s then ret tt else
   modify set_isClosed ;;;
   modify (fun s => set_sender (sender_close (p_sender s)) s) ;;;
   handshake_fail error ;;;
   in_incoming (incoming_close error) ;;;
   s <- get ;;
   for_each (fun callId => finishFailed callId error) (pending_keys (p_pending s)) ;;;
   if shouldNotify then emit (x_terminated error) else ret tt)%eff.

(** [cancel(callId, reason, code)]; [waiter] awaits its promise. *)
Definition cancel (callId : Z) (reason : option jsstring) (code : Z) (waiter : cancel_waiter) : P unit :=
  (let error := newRuntimeProtocolError code (default (js "Runtime call cancelled") reason) in
   pending <- take_call callId ;;
   match pending with
   | None => add_job (k_cancel waiter) None
   | Some call =>
       modify (fun s => set_cancelled (cancelled_insert callId (p_cancelled s)) s) ;;;
       failPendingCall callId call error ;;;
       send (cancel_bodies callId (default [] reason) code) None (k_cancel waiter)
   end)%eff.

Definition accounting_invalid : thrown := internal (js "Runtime response accounting is invalid").

Definition restoreCredit (callId byteLength : Z) : P unit :=
  (s <- get ;;
   match pending_get callId (p_pending s) with
   | None => ret tt
   | Some call =>
       if byteLength =? 0 then ret tt else
       match restoreResponseBytes callId call byteLength (p_pending s) with
       | (false, _) => terminate accounting_invalid true
       | (true, pending) =>
           modify (set_pending pending) ;;;
           if is_ended call then
             if bufferedResponseBytes call - byteLength =? 0
             then _ <- take_call callId ;; ret tt
             else ret tt
           else
             modify (fun s => set_pending
               (set_credit callId
                  (Z.min INITIAL_CALL_CREDIT_BYTES (incomingCreditBytes call + byteLength)) (p_pending s)) s) ;;;
             send (credit_bodies callId byteLength) None k_ignore
       end
   end)%eff.

(** ** Received frames *)

(** acceptCallPayload: the rejection, if any. *)
Definition acceptCallPayload (callId : Z) (data : bytes) : P (option (Z * jsstring)) :=
  (s <- get ;;
   match pending_get callId (p_pending s) with
   | None =>
       if contains callId (p_cancelled s) then ret None else
       if isRetired (p_callIds s) callId
       then throw (internal (js "Payload followed a completed call"))
       else throw (internal (js "Payload addressed an unknown call"))
   | Some call =>
       if is_ended call then throw (internal (js "Payload followed a successful CallEnd")) else
       if byteLength data >? incomingCreditBytes call
       then throw (exhausted (js "Daemon exceeded call credit")) else
       match reserveResponseBytes callId call (byteLength data) (p_pending s) with
       | (false, _) =>
           ret (Some (StatusCode.RESOURCE_EXHAUSTED, js "Runtime connection response budget exceeded"))
       | (true, pending) =>
           modify (set_pending (set_credit callId (incomingCreditBytes call - byteLength data) pending)) ;;;
           match pc_kind call with
           | unary_call _ payloads =>
               if negb (bool_decide (payloads = []))
               then throw (internal (js "Unary call returned multiple payloads"))
               else modify (fun s => set_pending (push_payload callId data (p_pending s)) s) ;;; ret None
           | stream_call _ =>
               pushed <- stream_push (stream_of callId) (restoreCredit callId) x_read data ;;
               if pushed : bool then ret None
               else ret (Some (StatusCode.RESOURCE_EXHAUSTED, js "Runtime stream buffer limit exceeded"))
           end
       end
   end)%eff.

Definition acceptPayload (callId : Z) (data : bytes) : P unit :=
  (if callId mod 2 =? 0 then in_incoming (incoming_payload callId data) else
   rejection <- acceptCallPayload callId data ;;
   match rejection with
   | Some (code, reason) => cancel callId (Some reason) code cw_none
   | None => ret tt
   end)%eff.

(** A CallEnd or Cancel for a call that is not pending. *)
Definition finish_unknown (callId : Z) (message : jsstring) : P unit :=
  (s <- get ;;
   let '(deleted, remembered) := cancelled_delete callId (p_cancelled s) in
   modify (set_cancelled remembered) ;;;
   if deleted || isRetired (p_callIds s) callId then ret tt else throw (internal message))%eff.

Definition finishCall (callId : Z) (status : option Status) : P unit :=
  (modify (fun s => set_duplex (duplex_close callId (p_duplexRequests s)) s) ;;;
   if callId mod 2 =? 0 then in_incoming (endRequest callId status) else
   s <- get ;;
   match pending_get callId (p_pending s) with
   | None => finish_unknown callId (js "CallEnd addressed an unknown call")
   | Some call =>
       match pc_kind call, statusError status with
       | stream_call _, None =>
           match markStreamEnded callId call (p_pending s) with
           | (false, _) => throw (internal (js "Stream received duplicate CallEnd"))
           | (true, pending) =>
               modify (set_pending pending) ;;;
               cleanup callId call ;;;
               abort callId AbortError ;;;
               stream_end (stream_of callId) x_read ;;;
               if bufferedResponseBytes call =? 0 then _ <- take_call callId ;; ret tt else ret tt
           end
       | _, _ => _ <- take_call callId ;; completePendingCall callId call status
       end
   end)%eff.

Definition finishCancelled (callId : Z) (status : option Status) : P unit :=
  (if callId mod 2 =? 0 then in_incoming (incoming_cancel callId status) else
   pending <- take_call callId ;;
   match pending with
   | None => finish_unknown callId (js "Cancel addressed an unknown call")
   | Some call =>
       failPendingCall callId call
         (default (newRuntimeProtocolError StatusCode.CANCELLED (js "Runtime call cancelled"))
            (statusError status))
   end)%eff.

(** [features.every((f, i) => f !== UNSPECIFIED && offered.has(f) && features.indexOf(f) === i)]. *)
Fixpoint features_ok (offered seen features : list Z) : bool :=
  match features with
  | [] => true
  | f :: rest =>
      negb (f =? TransportFeature.UNSPECIFIED) && bool_decide (f ∈ offered) && bool_decide (f ∉ seen)
      && features_ok offered (seen ++ [f]) rest
  end.

Definition handshake_accept (w : Welcome) : P unit :=
  (s <- get ;;
   let h := p_handshake s in
   if bool_decide (hs_welcome h <> None) || negb (hs_pending h)
      || negb (wl_protocolVersion w =? PROTOCOL_VERSION)
      || (wl_maxFrameBytes w <? WIRE_PREAMBLE_BYTES) || (wl_maxFrameBytes w >? MAX_FRAME_BYTES)
      || (wl_initialCallCreditBytes w <? 1) || (wl_keepAliveIntervalMs w <? 1)
      || negb (features_ok (offeredTransportFeatures h) [] (wl_enabledTransportFeatures w))
      || bool_decide (wl_runtimeId w = []) || bool_decide (wl_sessionId w = [])
   then throw (newRuntimeProtocolError StatusCode.FAILED_PRECONDITION (js "Daemon sent an invalid Welcome"))
   else
     modify (fun s => set_handshake (mkHandshake (offeredTransportFeatures h) (hs_pending h) (hs_timer h)
                                       (Some w) (hs_ready h) (hs_awaiting h)) s) ;;;
     modify (fun s => set_receiver (receiver_configure w (p_receiver s)) s) ;;;
     modify (fun s => set_sender (sender_configure w (p_sender s)) s) ;;;
     settle_ready (Ret w) ;;;
     modify (fun s => set_sender (keepAlive (wl_keepAliveIntervalMs w) (p_sender s)) s))%eff.

Definition updateCredit (callId creditBytes : Z) : P unit :=
  (if callId mod 2 =? 0 then in_incoming (addCredit callId creditBytes) else
   s <- get ;;
   match duplex_update callId creditBytes (p_duplexRequests s) with
   | (Exn e, _) => throw e
   | (Ret updated, duplex) =>
       modify (set_duplex duplex) ;;;
       if updated || isRetired (p_callIds s) callId then ret tt
       else throw (internal (js "Credit addressed an unknown duplex request"))
   end)%eff.

Definition opens_connection (b : FrameBody) : bool :=
  match b with fb_welcome _ | fb_goAway _ => true | _ => false end.

(** The function [createIncomingFrameHandler] returns. *)
Definition handleFrame (frame : ProtocolFrame) : P unit :=
  (s <- get ;;
   if bool_decide (hs_welcome (p_handshake s) = None) && negb (opens_connection (fr_body frame))
   then throw (newRuntimeProtocolError StatusCode.FAILED_PRECONDITION
                 (js "Runtime sent a call frame before Welcome")) else
   match fr_body frame with
   | fb_welcome w =>
       handshake_accept w ;;; in_incoming (configure (wl_initialCallCreditBytes w))
   | fb_payload callId data => acceptPayload callId data
   | fb_callStart start =>
       in_incoming (incoming_start (p_handlers s) start (hs_welcome (p_handshake s)))
   | fb_callEnd callId status => finishCall callId status
   | fb_cancel callId status => finishCancelled callId status
   | fb_goAway status =>
       terminate (default (newRuntimeProtocolError StatusCode.UNAVAILABLE (js "Daemon left"))
                    (statusError status)) true
   | fb_ping nonce => send (pong_bodies nonce) None k_ignore
   | fb_pong nonce =>
       match acceptPong nonce (p_sender s) with
       | (Exn e, _) => throw e
       | (Ret _, sender) => modify (set_sender sender)
       end
   | fb_windowUpdate callId creditBytes => updateCredit callId creditBytes
   | fb_hello _ | fb_undefined => throw (internal (js "Daemon sent an invalid protocol frame"))
   end)%eff.

(** [receive(bytes)]: [ProtocolReceiver.dispatch]. *)
Definition peer_receive (bs : bytes) : P bool :=
  (s <- get ;;
   if p_isClosed s then ret (claims bs) else
   rescue
     (match receive bs (p_receiver s) with
      | (Exn e, _) => throw e
      | (Ret None, _) => ret false
      | (Ret (Some frame), receiver) =>
          modify (set_receiver receiver) ;;; handleFrame frame ;;; ret true
      end)
     (fun error => terminate error true ;;; ret true))%eff.

(** ** Calls of the client *)

Definition guard (error : option thrown) : P unit :=
  match error with Some e => throw e | None => ret tt end.

(** An async function: what it throws rejects its promise. *)
Definition async (promise : Z) (m : P unit) : P unit :=
  rescue m (fun e => emit (x_settle promise (Exn e))).
Definition async_unary (promise : Z) (m : P unit) : P unit :=
  rescue m (fun e => emit (x_unary promise (Exn e))).

Definition lift {A} (r : outcome thrown A) : P A :=
  match r with Ret a => ret a | Exn e => throw e end.

(** [ensureCallDestination], [ensureCallAdmission] and the id of the call. *)
Definition admit_call (call : RuntimeCall) : P Z :=
  (s <- get ;;
   guard (ensureCallDestination call (hs_welcome (p_handshake s))) ;;;
   guard (ensureCallAdmission (p_isClosed s) (bool_decide (hs_welcome (p_handshake s) <> None))
            (pending_size (p_pending s))) ;;;
   let '(r, callIds) := allocate (p_callIds s) in
   modify (set_callIds callIds) ;;;
   lift r)%eff.

(** [createCallLifecycle]: the timeout of the call. *)
Definition createCallLifecycle (callId : Z) (call : RuntimeCall) (fallbackMs : option spec_float) : P Z :=
  (timeoutMs <- lift (boundedTimeout (rc_timeoutMs call) fallbackMs) ;;
   let listening := match rc_signal call with Some None => true | _ => false end in
   modify (fun s => set_lifecycles
     (<[callId := mkLifecycle listening timeoutMs (negb (timeoutMs =? 0))]> (p_lifecycles s)) s) ;;;
   ret timeoutMs)%eff.

(** The request is reserved, or the call ends here. *)
Definition reserve_request (callId : Z) (call : RuntimeCall) : P unit :=
  (s <- get ;;
   match reserveRequestBytes (byteLength (rc_payload call)) (p_pending s) with
   | (Some e, _) =>
       modify (fun s => set_lifecycles (delete callId (p_lifecycles s)) s) ;;;
       abort callId e ;;;
       throw e
   | (None, pending) => modify (set_pending pending)
   end)%eff.

Definition add_call (callId : Z) (kind : call_kind) (call : RuntimeCall) : P unit :=
  modify (fun s => set_pending
    (pending_add callId (mkPendingCall kind 0 INITIAL_CALL_CREDIT_BYTES (byteLength (rc_payload call)))
       (p_pending s)) s).

Definition start_call (callId : Z) (call : RuntimeCall) (timeoutMs : Z) (duplex : bool) (k : continuation)
    : P unit :=
  schedule (sender_start callId call timeoutMs duplex k) k.

Definition unary (call : RuntimeCall) (promise : Z) : P unit :=
  async_unary promise
    (callId <- admit_call call ;;
     timeoutMs <- createCallLifecycle callId call (Some (number_of_Z DEFAULT_TIMEOUT_MS)) ;;
     reserve_request callId call ;;;
     add_call callId (unary_call promise []) call ;;;
     match signal_aborted call with
     | Some reason => finishFailed callId reason
     | None => start_call callId call timeoutMs false (k_unary callId)
     end)%eff.

(** The async part of [openStream], [openRuntimeStream]. *)
Definition openRuntimeStream (callId : Z) (call : RuntimeCall) (timeoutMs : Z) (duplex : bool) (promise : Z)
    : P unit :=
  async promise
    (reserve_request callId call ;;;
     modify (fun s => set_streams (<[callId := newEventStream]> (p_streams s)) s) ;;;
     add_call callId (stream_call false) call ;;;
     match signal_aborted call with
     | Some reason => finishFailed callId reason ;;; throw reason
     | None =>
         (if duplex then
            modify (fun s => set_duplex
              (duplex_open callId
                 (match hs_welcome (p_handshake s) with Some w => wl_initialCallCreditBytes w | None => 0 end)
                 (byteLength (rc_payload call)) (p_duplexRequests s)) s)
          else ret tt) ;;;
         start_call callId call timeoutMs duplex (k_open callId promise)
     end)%eff.

(** [subscribe] ([duplex] false) throws what [duplex] (an async function) rejects with. *)
Definition openStream (call : RuntimeCall) (duplex : bool) (promise : Z) : P unit :=
  (let opening :=
     (callId <- admit_call call ;;
      timeoutMs <- createCallLifecycle callId call None ;;
      openRuntimeStream callId call timeoutMs duplex promise)%eff in
   if duplex then async promise opening else opening)%eff.

(** [hello] and [ProtocolHandshake.open]. *)
Definition hello (info : RuntimePeerInfo) (timeoutMs : spec_float) (promise : Z) : P unit :=
  (s <- get ;;
   if p_isClosed s then emit (x_settle promise (Exn connection_closed)) else
   let h := p_handshake s in
   match hs_welcome h with
   | Some w => emit (x_settle promise (Ret (pv_welcome w)))
   | None =>
       if hs_pending h
       then emit (x_settle promise (Exn (newRuntimeProtocolError StatusCode.FAILED_PRECONDITION
                                           (js "Runtime protocol handshake is already pending"))))
       else
         let offered := resolveTransportFeatures info in
         modify (set_handshake
           (match boundedTimeout (Some timeoutMs) None with
            | Ret _ => mkHandshake offered true true None None None
            | Exn e => mkHandshake offered false false None (Some (Exn e)) None
            end)) ;;;
         send (hello_bodies info) (Some 0) (k_hello promise)
   end)%eff.

(** [await ready] of [open]. *)
Definition await_ready (promise : Z) : P unit :=
  (s <- get ;;
   let h := p_handshake s in
   match hs_ready h with
   | Some (Ret w) => emit (x_settle promise (Ret (pv_welcome w)))
   | Some (Exn e) => terminate e true ;;; emit (x_settle promise (Exn e))
   | None =>
       modify (set_handshake (mkHandshake (offeredTransportFeatures h) (hs_pending h) (hs_timer h)
                                (hs_welcome h) None (Some promise)))
   end)%eff.

Definition peer_close (error : option thrown) : P unit :=
  terminate (default connection_closed error) false.

(** ** Event streams and duplex requests *)

Definition onCancel (callId promise : Z) (reason : jsstring) : P unit :=
  cancel callId (Some reason) StatusCode.CANCELLED (cw_return promise).

Definition read_next (callId promise : Z) : P unit :=
  stream_next (stream_of callId) (restoreCredit callId) x_read promise.

Definition read_return (callId promise : Z) : P unit :=
  stream_return (stream_of callId) (restoreCredit callId) (onCancel callId) x_read promise.

(** [catch (error) { await context.cancel().catch(() => {}); throw error }]. *)
Definition reject_duplex (callId promise : Z) (error : thrown) : P unit :=
  cancel callId None StatusCode.CANCELLED (cw_reject promise error).

Definition send_duplex (callId promise : Z) (payload : bytes) : P unit :=
  (s <- get ;;
   match duplex_send callId promise payload (p_duplexRequests s) with
   | (Some e, _) => reject_duplex callId promise e
   | (None, duplex) => modify (set_duplex duplex)
   end)%eff.

Definition end_duplex (callId promise : Z) : P unit :=
  (s <- get ;;
   match duplex_end callId promise (p_duplexRequests s) with
   | (Some e, _) => reject_duplex callId promise e
   | (None, duplex) => modify (set_duplex duplex)
   end)%eff.

Definition is_aborted (id : Z) (s : RuntimePeer) : bool := bool_decide (p_aborted s !! id <> None).

(** The chain of the duplex request [callId] continues. *)
Definition run_duplex (callId : Z) : P unit :=
  (s <- get ;;
   let '(action, duplex) := duplex_step (is_aborted callId s) callId (p_duplexRequests s) in
   modify (set_duplex duplex) ;;;
   match action with
   | da_none => ret tt
   | da_reject promise => reject_duplex callId promise duplex_closed
   | da_payload data => send (payload_bodies callId data) (Some callId) (k_duplex callId)
   | da_end promise => send (end_bodies callId None) None (k_duplex_end callId promise)
   end)%eff.

(** ** Continuations *)

Definition settle_unit (promise : Z) (error : option thrown) : P unit :=
  emit (x_settle promise (match error with None => Ret pv_unit | Some e => Exn e end)).

Definition run_continuation (k : continuation) (error : option thrown) : P unit :=
  (match k with
   | k_ignore => ret tt
   | k_ping nonce =>
       match error with
       | None => modify (fun s => set_sender (pingSent nonce (p_sender s)) s)
       | Some _ => ret tt
       end
   | k_hello promise =>
       match error with
       | None => await_ready promise
       | Some e => terminate e true ;;; emit (x_settle promise (Exn e))
       end
   | k_ready promise => await_ready promise
   | k_unary callId => match error with None => ret tt | Some e => finishFailed callId e end
   | k_open callId promise =>
       match error with
       | None => emit (x_settle promise (Ret (pv_stream callId)))
       | Some e => finishFailed callId e ;;; emit (x_settle promise (Exn e))
       end
   | k_cancel waiter =>
       match waiter with
       | cw_none => ret tt
       | cw_cancel promise => settle_unit promise error
       | cw_return promise =>
           emit (x_read promise (match error with None => read_done | Some e => read_rejected e end))
       | cw_reject promise e => emit (x_settle promise (Exn e))
       end
   | k_duplex callId =>
       s <- get ;;
       let '(promise, duplex) := duplex_sent callId (p_duplexRequests s) in
       modify (set_duplex duplex) ;;;
       match promise, error with
       | None, _ => ret tt
       | Some promise, None => settle_unit promise None
       | Some promise, Some e => reject_duplex callId promise e
       end
   | k_duplex_end callId promise =>
       match error with
       | None => settle_unit promise None
       | Some e => reject_duplex callId promise e
       end
   | k_incoming_credit callId => in_incoming (credit_settled callId error)
   | k_incoming_payload callId => in_incoming (payload_settled callId error)
   end)%eff.

Definition run_job : P unit :=
  (s <- get ;;
   match p_jobs s with
   | [] => ret tt
   | (k, error) :: rest => modify (set_jobs rest) ;;; run_continuation k error
   end)%eff.

(** ** Timers, signals and the transport *)

Definition run_sender_effect (e : sender_effect continuation) : P unit :=
  match e with
  | fx_sendBytes frame signal => emit (x_sendBytes frame signal)
  | fx_failure error => terminate error true
  | fx_done k error => add_job k error
  end.

Definition in_sender (f : (Z -> option abort_record) -> ProtocolSender continuation ->
    ProtocolSender continuation * list (sender_effect continuation)) : P unit :=
  (s <- get ;;
   let '(sender, effects) := f (fun id => p_aborted s !! id) (p_sender s) in
   modify (set_sender sender) ;;;
   for_each run_sender_effect effects)%eff.

(** The listener on the caller's signal. *)
Definition signal_aborts (callId : Z) (reason : thrown) : P unit :=
  (s <- get ;;
   match p_lifecycles s !! callId with
   | Some l =>
       if lf_listening l then
         modify (set_lifecycles (<[callId := mkLifecycle false (lf_timeoutMs l) (lf_timer l)]> (p_lifecycles s))) ;;;
         abort callId reason ;;;
         cancel callId (Some (js "Runtime call cancelled")) StatusCode.CANCELLED cw_none
       else ret tt
   | None => ret tt
   end)%eff.

Definition call_timeout : thrown :=
  newRuntimeProtocolError StatusCode.DEADLINE_EXCEEDED (js "Runtime call deadline exceeded").

(** The timer of a call. *)
Definition call_timer (callId : Z) : P unit :=
  (s <- get ;;
   match p_lifecycles s !! callId with
   | Some l =>
       if lf_timer l then
         modify (set_lifecycles (<[callId := mkLifecycle (lf_listening l) (lf_timeoutMs l) false]> (p_lifecycles s))) ;;;
         abort callId call_timeout ;;;
         cancel callId (Some (js "Runtime call deadline exceeded")) StatusCode.DEADLINE_EXCEEDED cw_none
       else ret tt
   | None => ret tt
   end)%eff.

Definition handshake_timer : P unit :=
  (s <- get ;;
   if hs_timer (p_handshake s)
   then terminate (newRuntimeProtocolError StatusCode.DEADLINE_EXCEEDED
                     (js "Runtime protocol handshake timed out")) true
   else ret tt)%eff.

Definition ping_timer : P unit :=
  (s <- get ;;
   if keepAliveTimer (p_sender s) then
     let '(nonce, sender) := sendPing (p_sender s) in
     modify (set_sender sender) ;;;
     send (ping_bodies nonce) None (k_ping nonce)
   else ret tt)%eff.

Definition pong_timer : P unit :=
  (s <- get ;;
   let '(error, sender) := pongTimeout (p_sender s) in
   modify (set_sender sender) ;;;
   match error with Some e => terminate e true | None => ret tt end)%eff.

(** ** Events *)

Inductive peer_event :=
  | pe_hello (info : RuntimePeerInfo) (timeoutMs : spec_float) (promise : Z)
  | pe_receive (bs : bytes)
  | pe_close (error : option thrown)
  | pe_unary (call : RuntimeCall) (promise : Z)
  | pe_open (call : RuntimeCall) (duplex : bool) (promise : Z)
  | pe_next (callId promise : Z)
  | pe_return (callId promise : Z)
  | pe_cancel (callId : Z) (reason : option jsstring) (promise : Z)
  | pe_duplex_send (callId promise : Z) (payload : bytes)
  | pe_duplex_end (callId promise : Z)
  | pe_duplex_run (callId : Z)
  | pe_register (m : method_descriptor) (h : EncodedRuntimeHandler)
  | pe_unregister (procedure : jsstring) (h : EncodedRuntimeHandler)
  | pe_handler (callId : Z) (result : handler_result)
  | pe_job
  | pe_transmit
  | pe_sent (error : option thrown)
  | pe_signal (callId : Z) (reason : thrown)
  | pe_call_timer (callId : Z)
  | pe_incoming_timer (callId : Z)
  | pe_handshake_timer
  | pe_ping_timer
  | pe_pong_timer.

(** A consumer only holds the streams that were opened. *)
Definition holding_stream (callId : Z) (m : P unit) : P unit :=
  (s <- get ;; match p_streams s !! callId with Some _ => m | None => ret tt end)%eff.

Definition peer_step (e : peer_event) : P unit :=
  (match e with
   | pe_hello info timeoutMs promise => hello info timeoutMs promise
   | pe_receive bs => _ <- peer_receive bs ;; ret tt
   | pe_close error => peer_close error
   | pe_unary call promise => unary call promise
   | pe_open call duplex promise => openStream call duplex promise
   | pe_next callId promise => holding_stream callId (read_next callId promise)
   | pe_return callId promise => holding_stream callId (read_return callId promise)
   | pe_cancel callId reason promise =>
       holding_stream callId (cancel callId reason StatusCode.CANCELLED (cw_cancel promise))
   | pe_duplex_send callId promise payload => send_duplex callId promise payload
   | pe_duplex_end callId promise => end_duplex callId promise
   | pe_duplex_run callId => run_duplex callId
   | pe_register m h =>
       modify (fun s => match register_handler m h (p_handlers s) with
                        | Ret r => set_handlers r s
                        | Exn _ => s
                        end)
   | pe_unregister procedure h => modify (fun s => set_handlers (unregister_handler procedure h (p_handlers s)) s)
   | pe_handler callId result =>
       s <- get ;;
       in_incoming (handler_answers (ab_reason <$> p_aborted s !! callId) callId result)
   | pe_job => run_job
   | pe_transmit => in_sender transmit
   | pe_sent error => in_sender (fun aborted => sent aborted error)
   | pe_signal callId reason => signal_aborts callId reason
   | pe_call_timer callId => call_timer callId
   | pe_incoming_timer callId => in_incoming (incoming_timeout callId)
   | pe_handshake_timer => handshake_timer
   | pe_ping_timer => ping_timer
   | pe_pong_timer => pong_timer
   end)%eff.

(** A run: a step that throws leaves the state it reached. *)
Fixpoint peer_run (l : list peer_event) (s : RuntimePeer) : RuntimePeer * list peer_effect :=
  match l with
  | [] => (s, [])
  | e :: rest =>
      let '(_, s, o1) := peer_step e s in
      let '(s, o2) := peer_run rest s in (s, o1 ++ o2)
  end.
End peer.
