(* ===== verification/IncomingSafety.v ===== *)
(** Reverse calls: the budgets of incoming-calls.ts, and that a call is ended at most
    once, whatever the daemon sends, the handlers answer and the timers do. *)

From stdpp Require Import base list gmap.
From Stdlib Require Import ZArith Lia ZifyBool.
From S2P Require Import Prelude JsMap Effects RpcValues RpcFrame RpcSender IncomingCalls.

Open Scope Z_scope.

#[local] Set Warnings "-clear-no-such-hyp".

(** ** The invariant *)

Definition incoming_call_ok (initial last : Z) (id : Z) (c : IncomingCall) : Prop :=
  0 < id <= last /\ 0 <= outgoingCreditBytes c /\ outgoingCreditBytes c <= initial /\
  0 <= ic_incomingCreditBytes c /\ (ic_live c = false -> ic_request c = None) /\
  (match ic_creditWaiter c with Some n => outgoingCreditBytes c < n <= initial | None => True end).

Record incoming_ok (s : IncomingCalls) : Prop := {
  io_keys : keys_ok (in_calls s);
  io_initial : 0 <= initialOutgoingCreditBytes s;
  io_last : 0 <= lastCallId s;
  io_bytes : in_requestBytes s = map_sum request_length (in_calls s);
  io_bytes_max : in_requestBytes s <= MAX_PENDING_REQUEST_BYTES;
  io_live : live_count s <= MAX_ACTIVE_REVERSE_CALLS;
  io_calls : forall id c, map_get id (in_calls s) = Some c ->
    incoming_call_ok (initialOutgoingCreditBytes s) (lastCallId s) id c
}.

Lemma incoming_ok_new : incoming_ok newIncoming.
Proof. split; try done. constructor. Qed.

(** Whether a call may still be ended: not when it was started and removed. *)
Definition endable (id : Z) (s : IncomingCalls) : Z :=
  match map_get id (in_calls s) with
  | Some c => if ic_live c then 1 else 0
  | None => if id <=? lastCallId s then 0 else 1
  end.

Definition is_end (id : Z) (e : incoming_effect) : Z :=
  match e with ie_end j _ => if j =? id then 1 else 0 | _ => 0 end.

Definition ends (id : Z) (out : list incoming_effect) : Z := foldr Z.add 0 (is_end id <$> out).

Lemma ends_cons id e out : ends id (e :: out) = is_end id e + ends id out.
Proof. done. Qed.

Lemma ends_app id o1 o2 : ends id (o1 ++ o2) = ends id o1 + ends id o2.
Proof. unfold ends. induction o1 as [|e o1 IH]; cbn in *; lia. Qed.

Lemma endable_range id s : 0 <= endable id s <= 1.
Proof. unfold endable. destruct (map_get id (in_calls s)) as [c|]; [destruct (ic_live c)|case_if]; lia. Qed.

(** What every method but [start] and [configure] does to the calls. *)
Definition incoming_rel : step_relation IncomingCalls incoming_effect.
Proof.
  refine (mkStep (fun s out s' => incoming_ok s ->
    incoming_ok s' /\ (forall id, ends id out + endable id s' <= endable id s) /\
    (in_calls s = [] -> in_calls s' = [])) _ _).
  - intros s H. split_and!; [exact H | intros id; cbn; lia | done].
  - intros s1 o1 s2 o2 s3 H12 H23 H. destruct (H12 H) as (H2 & E1 & K1). destruct (H23 H2) as (H3 & E2 & K2).
    split_and!; [exact H3 | | auto]. intros id. rewrite ends_app. specialize (E1 id). specialize (E2 id). lia.
Defined.

(** ** Changing a call *)

Definition replaced (id : Z) (c : IncomingCall) (bytes : Z) (s : IncomingCalls) : IncomingCalls :=
  mkIncomingCalls (map_set id c (in_calls s)) (initialOutgoingCreditBytes s) (lastCallId s) bytes.

Lemma request_length_nonneg c : 0 <= request_length c.
Proof. unfold request_length. destruct (ic_request c); unfold byteLength; lia. Qed.

Lemma replaced_ok id c c' s bytes : incoming_ok s -> map_get id (in_calls s) = Some c ->
  incoming_call_ok (initialOutgoingCreditBytes s) (lastCallId s) id c' ->
  (ic_live c' = true -> ic_live c = true) ->
  bytes = in_requestBytes s - request_length c + request_length c' ->
  bytes <= MAX_PENDING_REQUEST_BYTES ->
  incoming_ok (replaced id c' bytes s) /\
  (forall j, endable j (replaced id c' bytes s) =
     if decide (id = j) then (if ic_live c' then 1 else 0) else endable j s) /\
  (in_calls s = [] -> in_calls (replaced id c' bytes s) = []).
Proof.
  intros [Hk Hi Hl Hb Hm Hv Hc] Hg Hc' Hlive -> Hbytes. split_and!.
  - split; cbn [replaced in_calls initialOutgoingCreditBytes lastCallId in_requestBytes].
    + by apply keys_ok_set.
    + exact Hi.
    + exact Hl.
    + rewrite (map_sum_set_in _ _ _ _ _ Hg). lia.
    + exact Hbytes.
    + unfold live_count in *. cbn [replaced in_calls]. rewrite (map_sum_set_in _ _ _ _ _ Hg).
      destruct (ic_live c'); [rewrite Hlive by done; lia|]. destruct (ic_live c); lia.
    + apply (map_forall_set (incoming_call_ok (initialOutgoingCreditBytes s) (lastCallId s))); done.
  - intros j. unfold endable. cbn [replaced in_calls lastCallId]. rewrite map_get_set.
    by case_decide.
  - intros E. by rewrite E in Hg.
Qed.

(** A change that leaves the liveness of the call. *)
Lemma rel_upd id c c' s : map_get id (in_calls s) = Some c ->
  (incoming_ok s -> incoming_call_ok (initialOutgoingCreditBytes s) (lastCallId s) id c') ->
  ic_live c' = ic_live c -> ic_request c' = ic_request c ->
  related incoming_rel s [] (set_incoming id c' s).
Proof.
  intros Hg Hc Hlive Hr H. pose proof (io_bytes_max _ H).
  assert (request_length c' = request_length c) as E by (unfold request_length; by rewrite Hr).
  destruct (replaced_ok id c c' s (in_requestBytes s) H Hg (Hc H)) as (H1 & H2 & H3);
    [by rewrite Hlive | lia | done |].
  split_and!; [exact H1 | | exact H3]. intros j. change (set_incoming id c' s) with (replaced id c' (in_requestBytes s) s).
  rewrite H2. cbn. case_decide as E'; [|lia]. subst j. unfold endable. rewrite Hg, Hlive. lia.
Qed.

(** Removing a live call, possibly ending it. *)
Lemma rel_remove id c s reason (tail : list incoming_effect) :
  live_incoming id s = Some c -> (forall j, ends j tail = 0 \/ (j = id /\ ends j tail = 1)) ->
  let '(r, s', out) := incoming_remove id c reason s in
  r = Ret tt /\ related incoming_rel s (out ++ tail) s'.
Proof.
  intros Hlive Htail. unfold live_incoming in Hlive.
  destruct (map_get id (in_calls s)) as [c0|] eqn:Hg; [|done].
  destruct (ic_live c0) eqn:El; [|done]. injection Hlive as ->.
  assert (Hrel : forall o, (forall j, ends j o = 0) ->
    related incoming_rel s (o ++ tail) (replaced id (removed c) (in_requestBytes s - request_length c) s)).
  { intros o Ho H. pose proof (io_calls _ H _ _ Hg) as (H1 & H2 & H3 & H4 & H5 & H6).
    pose proof (request_length_nonneg c). pose proof (io_bytes_max _ H).
    destruct (replaced_ok id c (removed c) s (in_requestBytes s - request_length c) H Hg)
      as (K1 & K2 & K3); [unfold incoming_call_ok; cbn; tauto | done | cbn; lia | lia |].
    split_and!; [exact K1 | | exact K3]. intros j. rewrite K2, ends_app, Ho.
    specialize (Htail j). pose proof (endable_range j s).
    case_decide as E; cbn [removed ic_live]; [|destruct Htail as [->|[-> _]]; [lia | done]].
    subst j. unfold endable. rewrite Hg, El. destruct Htail as [->|[_ ->]]; lia. }
  unfold incoming_remove, bind, modify. destruct (ic_creditWaiter c); cbn [emit ret app];
    (split; [done|]); [apply (Hrel [ie_credit id (Some reason)]) | apply (Hrel [])]; done.
Qed.

Lemma no_ends e : (forall j, is_end j e = 0) -> forall j, ends j [e] = 0.
Proof. intros H j. cbn. rewrite H. lia. Qed.

Lemma one_end id status : forall j, ends j [ie_end id status] = 0 \/ (j = id /\ ends j [ie_end id status] = 1).
Proof. intros j. cbn. destruct (id =? j) eqn:E; bool_prop; [right; subst; split; lia | by left]. Qed.

(** [call.abort.abort(error); this.remove(callId, call); this.sender.end(...)]. *)
Lemma rel_end id c s reason e status :
  live_incoming id s = Some c ->
  let '(_, s', out) :=
    (emit (ie_abort id e) ;;; incoming_remove id c reason ;;; emit (ie_end id status))%eff s in
  related incoming_rel s out s'.
Proof.
  intros Hlive. pose proof (rel_remove id c s reason [ie_end id status] Hlive (one_end id status)) as H.
  unfold bind, emit. destruct (incoming_remove id c reason s) as [[r s'] out]. destruct H as [-> H].
  cbn [app]. intros Hok. destruct (H Hok) as (H1 & H2 & H3).
  split_and!; [exact H1 | | exact H3]. intros j. specialize (H2 j). by rewrite ends_cons, Z.add_0_l.
Qed.

(** ** The methods *)

Definition Qi (A : Type) (m : I A) : Prop := respects incoming_rel m.

#[export] Instance Qi_compositional : Compositional Qi.
Proof. apply (respects_compositional incoming_rel). Qed.

Lemma Qi_throw A e : Qi A (throw e).
Proof. apply respects_throw. Qed.

Lemma Qi_emit e : (forall j, is_end j e = 0) -> Qi unit (emit e).
Proof.
  intros H s Hok. split_and!; [exact Hok | | done]. intros j. rewrite (no_ends e H j). lia.
Qed.

(** A method that looks a call up, and then replaces it. *)
Lemma Qi_read A (k : IncomingCalls -> I A) : (forall s, respects_from incoming_rel (eq s) (k s)) ->
  Qi A (bind get k).
Proof. apply respects_get_bind. Qed.

Lemma from_eq {A} (m : I A) s :
  (let '(_, s', out) := m s in related incoming_rel s out s') -> respects_from incoming_rel (eq s) m.
Proof. by intros H s' <-. Qed.

Lemma Qi_fail id e : Qi unit (incoming_fail id e).
Proof.
  apply Qi_read. intros s. apply from_eq.
  destruct (live_incoming id s) as [c|] eqn:E; [|apply related_refl].
  by apply (rel_end id c s e e).
Qed.

Lemma live_incoming_get id s c : live_incoming id s = Some c ->
  map_get id (in_calls s) = Some c /\ ic_live c = true.
Proof.
  unfold live_incoming. destruct (map_get id (in_calls s)) as [x|]; [|done].
  destruct (ic_live x) eqn:E; [|done]. intros H. by injection H as ->.
Qed.

(** An update followed by something that respects the relation. *)
Lemma upd_then {A} id c c' s (m : I A) : map_get id (in_calls s) = Some c ->
  (incoming_ok s -> incoming_call_ok (initialOutgoingCreditBytes s) (lastCallId s) id c') ->
  ic_live c' = ic_live c -> ic_request c' = ic_request c -> Qi A m ->
  let '(_, s', out) := (upd_call id c' ;;; m)%eff s in related incoming_rel s out s'.
Proof.
  intros Hg Hc Hl Hr Hm. unfold upd_call, bind, modify. pose proof (Hm (set_incoming id c' s)) as H.
  pose proof (rel_upd id c c' s Hg Hc Hl Hr) as H1.
  destruct (m (set_incoming id c' s)) as [[r s2] o2].
  by apply (related_trans incoming_rel s [] (set_incoming id c' s) o2 s2).
Qed.

Lemma upd_only id c c' s : map_get id (in_calls s) = Some c ->
  (incoming_ok s -> incoming_call_ok (initialOutgoingCreditBytes s) (lastCallId s) id c') ->
  ic_live c' = ic_live c -> ic_request c' = ic_request c ->
  let '(_, s', out) := upd_call id c' s in related incoming_rel s out s'.
Proof. intros Hg Hc Hl Hr. unfold upd_call, modify. by eapply rel_upd. Qed.

Lemma with_run_ok run id c s : map_get id (in_calls s) = Some c -> incoming_ok s ->
  incoming_call_ok (initialOutgoingCreditBytes s) (lastCallId s) id (with_run run c).
Proof. intros Hg H. exact (io_calls _ H _ _ Hg). Qed.

Lemma Qi_catch id e : Qi unit (invoke_catch id e).
Proof.
  apply Qi_read. intros s. apply from_eq.
  destruct (map_get id (in_calls s)) as [c|] eqn:E; [|apply related_refl].
  eapply upd_then; [exact E | by apply with_run_ok | done | done |].
  destruct (ic_live c); [apply Qi_fail | apply comp_ret].
Qed.

Lemma Qi_finish id : Qi unit (invoke_finish id).
Proof.
  apply Qi_read. intros s. apply from_eq.
  destruct (map_get id (in_calls s)) as [c|] eqn:E; [|apply related_refl].
  destruct (ic_live c) eqn:El; [|eapply upd_then; [exact E | by apply with_run_ok | done | done | apply comp_ret]].
  unfold upd_call, bind at 1, modify. set (s1 := set_incoming id (with_run iv_none c) s).
  assert (Hlive : live_incoming id s1 = Some (with_run iv_none c)).
  { unfold live_incoming, s1. cbn. rewrite map_get_set_eq. cbn. by rewrite El. }
  pose proof (rel_remove id _ s1 (OtherValue 0 None) [ie_end id None] Hlive (one_end id None)) as H.
  unfold bind, emit. destruct (incoming_remove id (with_run iv_none c) (OtherValue 0 None) s1) as [[r s'] out].
  destruct H as [-> H]. apply (related_trans incoming_rel s [] s1); [|exact H].
  eapply rel_upd; [exact E | by apply with_run_ok | done | done].
Qed.

Lemma Qi_sendPayload id c payload s : map_get id (in_calls s) = Some c ->
  let '(_, s', out) := sendPayload id c payload s in related incoming_rel s out s'.
Proof.
  intros E. unfold sendPayload, bind at 1, get.
  assert (Hn : 0 <= byteLength payload) by (unfold byteLength; lia).
  destruct (byteLength payload <=? outgoingCreditBytes c) eqn:E1;
    [|destruct ((byteLength payload >? initialOutgoingCreditBytes s) || bool_decide (ic_creditWaiter c <> None)) eqn:E2];
    bool_prop.
  - cbn [app]. pose proof (upd_then id c (with_run (iv_credit payload)
      (with_outgoing (ic_creditWaiter c) (outgoingCreditBytes c - byteLength payload) c)) s
      (emit (ie_credit id None)) E) as Hu.
    destruct ((_ ;;; _)%eff s) as [[r s'] out]. apply Hu; try done; try (by apply Qi_emit).
    intros Hok. destruct (io_calls _ Hok _ _ E) as (J1 & J2 & J3 & J4 & J5 & J6).
    unfold incoming_call_ok. cbn. split_and!; try done; try lia.
    destruct (ic_creditWaiter c); [lia | done].
  - cbn [app]. pose proof (upd_then id c (with_run (iv_credit payload) c) s
      (emit (ie_credit id (Some credit_exceeded))) E) as Hu.
    destruct ((_ ;;; _)%eff s) as [[r s'] out]. apply Hu; try done; try (by apply Qi_emit).
    by apply with_run_ok.
  - cbn [app]. pose proof (upd_only id c (with_run (iv_credit payload)
      (with_outgoing (Some (byteLength payload)) (outgoingCreditBytes c) c)) s E) as Hu.
    destruct (upd_call _ _ s) as [[r s'] out]. apply Hu; try done.
    intros Hok. destruct (io_calls _ Hok _ _ E) as (J1 & J2 & J3 & J4 & J5 & J6).
    unfold incoming_call_ok. cbn. split_and!; try done; lia.
Qed.

Lemma Qi_answers aborted id r : Qi unit (handler_answers aborted id r).
Proof.
  apply Qi_read. intros s. apply from_eq.
  destruct (map_get id (in_calls s)) as [c|] eqn:E; [|apply related_refl].
  assert (H : forall m : I unit, Qi unit m -> let '(_, s', out) := m s in related incoming_rel s out s').
  { intros m Hm. apply (Hm s). }
  destruct (ic_run c); try apply related_refl.
  destruct r as [payload| |e]; [|apply H, Qi_finish | apply H, Qi_catch].
  pose proof (Qi_sendPayload id c payload s E) as Hs.
  destruct (eh_kind <$> ic_handler c) as [[]|]; destruct aborted; try exact Hs. apply H, Qi_catch.
Qed.

Lemma Qi_credit_settled id e : Qi unit (credit_settled id e).
Proof.
  apply Qi_read. intros s. apply from_eq.
  destruct (map_get id (in_calls s)) as [c|] eqn:E; [|apply related_refl].
  destruct (ic_run c); try apply related_refl.
  destruct e; [apply (Qi_catch id _ s)|].
  eapply upd_then; [exact E | by apply with_run_ok | done | done | by apply Qi_emit].
Qed.

Lemma Qi_payload_settled id e : Qi unit (payload_settled id e).
Proof.
  apply Qi_read. intros s. apply from_eq.
  destruct (map_get id (in_calls s)) as [c|] eqn:E; [|apply related_refl].
  destruct (ic_run c); try apply related_refl.
  destruct e; [apply (Qi_catch id _ s)|].
  destruct (eh_kind <$> ic_handler c) as [[]|]; try apply (Qi_finish id s).
  eapply upd_only; [exact E | by apply with_run_ok | done | done].
Qed.

Lemma Qi_timeout id : Qi unit (incoming_timeout id).
Proof.
  apply comp_bind; [apply comp_get|]. intros s. destruct (live_incoming id s); [|apply comp_ret].
  case_if; [apply Qi_fail | apply comp_ret].
Qed.

Lemma Qi_close e : Qi unit (incoming_close e).
Proof.
  apply comp_bind; [apply comp_get|]. intros s0. apply (comp_for_each Qi). intros id _.
  apply Qi_read. intros s. apply from_eq.
  destruct (live_incoming id s) as [c|] eqn:E; [|apply related_refl].
  pose proof (rel_remove id c s e [] E (fun j => or_introl eq_refl)) as H.
  unfold bind, emit. destruct (incoming_remove id c e s) as [[r s'] out]. destruct H as [-> H].
  rewrite app_nil_r in H. cbn [app]. intros Hok. destruct (H Hok) as (H1 & H2 & H3). split_and!; [exact H1 | | exact H3].
  intros j. specialize (H2 j). by rewrite ends_cons, Z.add_0_l.
Qed.

Lemma Qi_cancel id status : Qi unit (incoming_cancel id status).
Proof.
  apply Qi_read. intros s. apply from_eq.
  destruct (live_incoming id s) as [c|] eqn:E; [|case_if; apply related_refl].
  by apply (rel_end id c s).
Qed.

Lemma Qi_addCredit id n : 0 <= n -> Qi unit (addCredit id n).
Proof.
  intros Hn. unfold addCredit. case_if; [apply Qi_throw|].
  apply Qi_read. intros s. apply from_eq.
  destruct (live_incoming id s) as [c|] eqn:Ec; [|case_if; apply related_refl].
  apply live_incoming_get in Ec as [Ec _]. case_if; [apply related_refl|]. bool_prop.
  assert (Hok : forall w credit, 0 <= credit <= initialOutgoingCreditBytes s ->
    match w with Some k => credit < k <= initialOutgoingCreditBytes s | None => True end ->
    incoming_ok s -> incoming_call_ok (initialOutgoingCreditBytes s) (lastCallId s) id (with_outgoing w credit c)).
  { intros w credit Hc Hw Hok. destruct (io_calls _ Hok _ _ Ec) as (J1 & J2 & J3 & J4 & J5 & J6).
    unfold incoming_call_ok. cbn. split_and!; try done; lia. }
  destruct (ic_creditWaiter c) as [w|] eqn:Ew; [case_if; bool_prop|].
  - eapply upd_then; [exact Ec | | done | done | by apply Qi_emit].
    intros Hi. apply Hok; [|done|done]. destruct (io_calls _ Hi _ _ Ec) as (J1 & J2 & J3 & J4 & J5 & J6).
    rewrite Ew in J6. lia.
  - eapply upd_only; [exact Ec | | done | done].
    intros Hi. destruct (io_calls _ Hi _ _ Ec) as (J1 & J2 & J3 & J4 & J5 & J6).
    rewrite Ew in J6. apply Hok; [lia | lia | done].
  - eapply upd_only; [exact Ec | | done | done].
    intros Hi. destruct (io_calls _ Hi _ _ Ec) as (J1 & J2 & J3 & J4 & J5 & J6).
    apply Hok; [lia | done | done].
Qed.

Lemma Qi_required {A} id frame (k : IncomingCall -> I A) :
  (forall s c, live_incoming id s = Some c ->
     let '(_, s', out) := k c s in related incoming_rel s out s') ->
  Qi A (bind (incoming_required id frame) k).
Proof.
  intros H s. specialize (H s). unfold incoming_required, bind, get.
  destruct (live_incoming id s) as [c|]; [|apply related_refl]. cbn.
  specialize (H c eq_refl). by destruct (k c s) as [[r s'] out].
Qed.

(** A change of the request a call holds. *)
Lemma rel_request id c c' bytes s : map_get id (in_calls s) = Some c ->
  (incoming_ok s -> incoming_call_ok (initialOutgoingCreditBytes s) (lastCallId s) id c') ->
  ic_live c' = ic_live c -> bytes = in_requestBytes s - request_length c + request_length c' ->
  (incoming_ok s -> bytes <= MAX_PENDING_REQUEST_BYTES) ->
  related incoming_rel s [] (replaced id c' bytes s).
Proof.
  intros Hg Hc Hlive Hb Hm H.
  destruct (replaced_ok id c c' s bytes H Hg (Hc H)) as (H1 & H2 & H3);
    [by rewrite Hlive | done | by apply Hm|].
  split_and!; [exact H1 | | exact H3]. intros j. rewrite H2. cbn.
  case_decide as E'; [|lia]. subst j. unfold endable. rewrite Hg, Hlive. lia.
Qed.

Lemma Qi_payload id data : Qi unit (incoming_payload id data).
Proof.
  apply Qi_required. intros s c E. apply live_incoming_get in E as [E El].
  destruct (ic_failure c); [apply related_refl|].
  destruct (ic_request c) eqn:Er; [apply related_refl|].
  case_if; [apply related_refl|]. unfold bind, get.
  case_if; cbn [app].
  - eapply upd_only; [exact E | | done | done]. intros H. exact (io_calls _ H _ _ E).
  - bool_prop. unfold modify. apply (rel_request id c _ _ s E); cbn.
    + intros H. destruct (io_calls _ H _ _ E) as (J1 & J2 & J3 & J4 & J5 & J6).
      unfold incoming_call_ok. cbn. split_and!; try done; try lia.
    + done.
    + unfold request_length. cbn. rewrite Er. lia.
    + intros _. lia.
Qed.

Lemma Qi_endRequest id status : Qi unit (endRequest id status).
Proof.
  apply Qi_required. intros s c Elive. pose proof Elive as E. apply live_incoming_get in E as [E El].
  case_if.
  { pose proof (rel_remove id c s (OtherValue 0 None) [] Elive (fun j => or_introl eq_refl)) as H.
    destruct (incoming_remove id c (OtherValue 0 None) s) as [[r s'] out]. destruct H as [_ H].
    by rewrite app_nil_r in H. }
  destruct (ic_failure c) as [e|]; [apply (Qi_fail id e s)|].
  destruct (ic_request c) as [request|] eqn:Er; [|apply (Qi_fail id _ s)].
  unfold bind at 1, modify.
  set (c1 := with_request None (ic_incomingCreditBytes c) c).
  set (s1 := mkIncomingCalls _ _ _ _).
  assert (H1 : related incoming_rel s [] s1).
  { apply (rel_request id c c1 (in_requestBytes s - byteLength request) s E).
    - intros H. destruct (io_calls _ H _ _ E) as (J1 & J2 & J3 & J4 & J5 & J6).
      unfold incoming_call_ok, c1. cbn. split_and!; done || lia.
    - done.
    - unfold request_length, c1. cbn. rewrite Er. lia.
    - intros H. pose proof (io_bytes_max _ H). unfold byteLength. lia. }
  assert (E1 : map_get id (in_calls s1) = Some c1) by apply map_get_set_eq.
  unfold bind at 1, emit at 1.
  assert (H3 : related incoming_rel s [ie_restoreCredit id (byteLength request)] s1).
  { intros Hok. destruct (H1 Hok) as (K1 & K2 & K3). split_and!; [exact K1 | | exact K3].
    intros j. specialize (K2 j). by rewrite ends_cons, Z.add_0_l. }
  destruct (ic_handler c) as [handler|].
  - pose proof (upd_then id c1 (with_run iv_handler c1) s1
      (emit (ie_invoke id handler request (ic_timeoutMs c))) E1) as H4.
    match goal with |- context [(upd_call id ?x ;;; ?m)%eff s1] => change ((upd_call id x ;;; m)%eff s1)
      with ((upd_call id (with_run iv_handler c1) ;;; emit (ie_invoke id handler request (ic_timeoutMs c)))%eff s1) end.
    destruct ((_ ;;; _)%eff s1) as [[r s'] out].
    eapply (related_trans incoming_rel s _ s1); [exact H3|]. apply H4; try done; try (by apply Qi_emit).
    intros H. exact (io_calls _ H _ _ E1).
  - match goal with |- context [incoming_fail id ?e s1] => pose proof (Qi_fail id e s1) as H4;
      destruct (incoming_fail id e s1) as [[r s'] out] end.
    by eapply (related_trans incoming_rel s _ s1).
Qed.

Lemma incoming_start_ok handlers start welcome s : incoming_ok s ->
  let '(_, s', out) := incoming_start handlers start welcome s in
  incoming_ok s' /\ (forall id, ends id out + endable id s' <= endable id s).
Proof.
  intros H. unfold incoming_start.
  assert (Hid : incoming_ok s /\ (forall id, ends id [] + endable id s <= endable id s)).
  { split; [exact H | intros id; cbn; lia]. }
  case_if; [exact Hid|]. unfold bind, get. case_if; [exact Hid|]. case_if; [exact Hid|].
  destruct (cs_destination start); [exact Hid|]. unfold modify. cbn [app]. clear Hid. bool_prop.
  set (id := cs_callId start) in *. destruct H as [Hk Hi Hl Hb Hm Hv Hc].
  assert (Hfresh : map_get id (in_calls s) = None).
  { destruct (map_get id (in_calls s)) as [c|] eqn:Eg; [|done]. destruct (Hc _ _ Eg) as [? _]. lia. }
  assert (Hsum : forall c, request_length c = 0 -> map_sum request_length (map_set id c (in_calls s)) = in_requestBytes s).
  { intros c Hr. rewrite map_sum_set_new by done. lia. }
  split; [split; cbn [in_calls initialOutgoingCreditBytes lastCallId in_requestBytes]|].
  - by apply keys_ok_set.
  - exact Hi.
  - lia.
  - by rewrite Hsum.
  - exact Hm.
  - unfold live_count in *. cbn [in_calls]. rewrite map_sum_set_new by done. cbn [ic_live]. lia.
  - apply (map_forall_set (incoming_call_ok (initialOutgoingCreditBytes s) id)).
    + intros j c Hj. destruct (Hc _ _ Hj) as (J1 & J2). split; [lia | exact J2].
    + unfold incoming_call_ok. cbn. split_and!; try done; lia.
  - intros j. unfold endable. cbn [in_calls lastCallId ends fmap list_fmap foldr].
    rewrite map_get_set. case_decide as Ej.
    + subst j. rewrite Hfresh. cbn [ic_live]. replace (id <=? lastCallId s) with false by lia. lia.
    + destruct (map_get j (in_calls s)) as [c|]; [lia|]. repeat case_if; bool_prop; lia.
Qed.

Lemma configure_ok credit s : incoming_ok s -> in_calls s = [] ->
  let '(_, s', out) := configure credit s in
  incoming_ok s' /\ in_calls s' = [] /\ out = [] /\ (forall id, endable id s' = endable id s).
Proof.
  intros H E. unfold configure. case_if; [by split_and!|]. unfold modify. split_and!; try done.
  bool_prop. destruct H as [Hk Hi Hl Hb Hm Hv Hc].
  split; cbn [in_calls initialOutgoingCreditBytes lastCallId in_requestBytes]; try done; [lia|].
  by rewrite E.
Qed.

(** ** Runs *)

Inductive incoming_event :=
  | rv_start (start : CallStart)
  | rv_payload (callId : Z) (data : bytes)
  | rv_end (callId : Z) (status : option Status)
  | rv_cancel (callId : Z) (status : option Status)
  | rv_credit (callId creditBytes : Z)
  | rv_close (error : thrown)
  | rv_timeout (callId : Z)
  | rv_handler (aborted : option thrown) (callId : Z) (result : handler_result)
  | rv_credit_settled (callId : Z) (error : option thrown)
  | rv_payload_settled (callId : Z) (error : option thrown).

Definition incoming_step (handlers : RuntimeHandlerRegistry) (welcome : option Welcome)
    (e : incoming_event) : I unit :=
  match e with
  | rv_start start => incoming_start handlers start welcome
  | rv_payload callId data => incoming_payload callId data
  | rv_end callId status => endRequest callId status
  | rv_cancel callId status => incoming_cancel callId status
  | rv_credit callId n => addCredit callId n
  | rv_close error => incoming_close error
  | rv_timeout callId => incoming_timeout callId
  | rv_handler aborted callId r => handler_answers aborted callId r
  | rv_credit_settled callId e => credit_settled callId e
  | rv_payload_settled callId e => payload_settled callId e
  end.

Fixpoint incoming_run handlers welcome (l : list incoming_event) (s : IncomingCalls)
    : IncomingCalls * list incoming_effect :=
  match l with
  | [] => (s, [])
  | e :: rest =>
      let '(_, s, o1) := incoming_step handlers welcome e s in
      let '(s, o2) := incoming_run handlers welcome rest s in (s, o1 ++ o2)
  end.

(** Credit on the wire is an unsigned integer. *)
Definition incoming_event_ok (e : incoming_event) : Prop :=
  match e with rv_credit _ n => 0 <= n | _ => True end.

Lemma incoming_step_ok handlers welcome e s : incoming_event_ok e -> incoming_ok s ->
  let '(_, s', out) := incoming_step handlers welcome e s in
  incoming_ok s' /\ (forall id, ends id out + endable id s' <= endable id s).
Proof.
  intros He H. assert (HQ : forall m : I unit, Qi unit m ->
    let '(_, s', out) := m s in incoming_ok s' /\ (forall id, ends id out + endable id s' <= endable id s)).
  { intros m Hm. specialize (Hm s). destruct (m s) as [[r s'] out]. by destruct (Hm H) as (H1 & H2 & _). }
  destruct e; cbn [incoming_step]; [by apply incoming_start_ok|..]; apply HQ.
  - apply Qi_payload.
  - apply Qi_endRequest.
  - apply Qi_cancel.
  - by apply Qi_addCredit.
  - apply Qi_close.
  - apply Qi_timeout.
  - apply Qi_answers.
  - apply Qi_credit_settled.
  - apply Qi_payload_settled.
Qed.

Lemma incoming_run_ok handlers welcome l : Forall incoming_event_ok l -> forall s, incoming_ok s ->
  let '(s', out) := incoming_run handlers welcome l s in
  incoming_ok s' /\ (forall id, ends id out + endable id s' <= endable id s).
Proof.
  induction 1 as [|e l He _ IH]; intros s H; cbn [incoming_run].
  { split; [exact H | intros id; cbn; lia]. }
  pose proof (incoming_step_ok handlers welcome e s He H) as H1.
  destruct (incoming_step handlers welcome e s) as [[r s1] o1]. destruct H1 as [H1 E1].
  specialize (IH s1 H1). destruct (incoming_run handlers welcome l s1) as [s2 o2].
  destruct IH as [H2 E2]. split; [exact H2|]. intros id. rewrite ends_app.
  specialize (E1 id). specialize (E2 id). lia.
Qed.

(** The initial credit is only set by [configure]. *)
Definition keep_initial : step_relation IncomingCalls incoming_effect.
Proof.
  refine (mkStep (fun s _ s' => initialOutgoingCreditBytes s' = initialOutgoingCreditBytes s) _ _).
  - done.
  - intros s1 o1 s2 o2 s3 H1 H2. congruence.
Defined.

Definition Ki (A : Type) (m : I A) : Prop := respects keep_initial m.

#[export] Instance Ki_compositional : Compositional Ki.
Proof. apply (respects_compositional keep_initial). Qed.

Lemma Ki_emit e : Ki unit (emit e).
Proof. by intros s. Qed.
Lemma Ki_throw A e : Ki A (throw e).
Proof. by intros s. Qed.
Lemma Ki_upd id c : Ki unit (upd_call id c).
Proof. by intros s. Qed.
Lemma Ki_modify f : (forall s, initialOutgoingCreditBytes (f s) = initialOutgoingCreditBytes s) -> Ki unit (modify f).
Proof. intros H s. apply H. Qed.

#[local] Hint Resolve Ki_emit Ki_throw Ki_upd Ki_modify : effects.

Lemma Ki_remove id c r : Ki unit (incoming_remove id c r).
Proof. unfold incoming_remove. compose. Qed.
#[local] Hint Resolve Ki_remove : effects.
Lemma Ki_fail id e : Ki unit (incoming_fail id e).
Proof. unfold incoming_fail. compose. Qed.
#[local] Hint Resolve Ki_fail : effects.
Lemma Ki_catch id e : Ki unit (invoke_catch id e).
Proof. unfold invoke_catch. compose. Qed.
Lemma Ki_finish id : Ki unit (invoke_finish id).
Proof. unfold invoke_finish. compose. Qed.
Lemma Ki_sendPayload id c p : Ki unit (sendPayload id c p).
Proof. unfold sendPayload. compose. Qed.
Lemma Ki_required id f : Ki IncomingCall (incoming_required id f).
Proof. unfold incoming_required. compose. Qed.
#[local] Hint Resolve Ki_catch Ki_finish Ki_sendPayload Ki_required : effects.

Lemma Ki_step handlers welcome e : Ki unit (incoming_step handlers welcome e).
Proof.
  destruct e; cbn [incoming_step]; unfold incoming_start, incoming_payload, endRequest, incoming_cancel,
    addCredit, incoming_close, incoming_timeout, handler_answers, credit_settled, payload_settled; compose.
Qed.

Lemma initial_kept handlers welcome e s :
  initialOutgoingCreditBytes (run_state (incoming_step handlers welcome e s)) = initialOutgoingCreditBytes s.
Proof.
  pose proof (Ki_step handlers welcome e s) as H. unfold run_state.
  by destruct (incoming_step handlers welcome e s) as [[r s'] out].
Qed.

(** Closing removes every call. *)
Lemma removed_live id c error s : exists s' out, incoming_remove id c error s = (Ret tt, s', out) /\
  forall j, live_incoming j s' = if decide (j = id) then None else live_incoming j s.
Proof.
  unfold incoming_remove, bind, modify. destruct (ic_creditWaiter c); cbn; eexists _, _; (split; [reflexivity|]); intros j;
    unfold live_incoming; cbn; rewrite map_get_set; repeat case_decide; cbn; congruence.
Qed.

(** The body of the loop of [incoming_close]. *)
Definition close_one (error : thrown) (callId : Z) : I unit :=
  (s <- get ;;
   match live_incoming callId s with
   | Some c => emit (ie_abort callId error) ;;; incoming_remove callId c error
   | None => ret tt
   end)%eff.

Lemma close_one_live error id s : exists s' out, close_one error id s = (Ret tt, s', out) /\
  forall j, live_incoming j s' = if decide (j = id) then None else live_incoming j s.
Proof.
  unfold close_one, bind at 1, get. destruct (live_incoming id s) as [c|] eqn:El.
  - destruct (removed_live id c error s) as (s1 & out1 & E1 & H1). unfold bind, emit. rewrite E1. eexists _, _. split; [reflexivity | exact H1].
  - eexists _, _. split; [reflexivity|]. intros j. case_decide; congruence.
Qed.

Lemma closed_live error ids s : exists s' out, for_each (close_one error) ids s = (Ret tt, s', out) /\
  forall j, live_incoming j s' <> None -> live_incoming j s <> None /\ (j ∉ ids).
Proof.
  revert s. induction ids as [|id ids IH]; intros s; cbn [for_each].
  { eexists _, _. split; [reflexivity|]. intros j H. split; [exact H | apply not_elem_of_nil]. }
  destruct (close_one_live error id s) as (s1 & out1 & E1 & H1). unfold bind. rewrite E1. destruct (IH s1) as (s2 & out2 & -> & H2).
  eexists _, _. split; [reflexivity|]. intros j Hj. specialize (H2 j Hj) as [H2 Hin]. rewrite H1 in H2. rewrite not_elem_of_cons. case_decide; [done|]. auto.
Qed.

Lemma close_leaves_none error s j : live_incoming j (run_state (incoming_close error s)) = None.
Proof.
  change (incoming_close error) with (s <- get ;; for_each (close_one error) (map_keys (in_calls s)))%eff. unfold run_state, bind, get.
  destruct (closed_live error (map_keys (in_calls s)) s) as (s' & out & -> & H).
  destruct (live_incoming j s') as [c|] eqn:E; [|done]. exfalso. destruct (H j) as [Hl Hin]; [congruence|]. apply Hin.
  unfold live_incoming in Hl. destruct (map_get j (in_calls s)) eqn:Eg; [|done]. by eapply map_get_keys.
Qed.

(** C39. Reverse calls over any run of a configured connection, whatever the daemon sends
    and whenever handlers answer and timers fire: a call is ended at most once, never
    while it is in the map, at most 128 calls are active, the requests held fit the 8 MiB
    budget and are exactly the bytes counted, and no call's credit leaves the interval
    from zero to the initial credit; closing then leaves no call. *)
Theorem reverse_calls_end_once handlers welcome credit events :
  0 < credit <= Json.MAX_SAFE_INTEGER -> Forall incoming_event_ok events ->
  let '(s, out) := incoming_run handlers welcome events (run_state (configure credit newIncoming)) in
  (forall id, 0 <= ends id out <= 1 /\ (live_incoming id s <> None -> ends id out = 0)) /\
  live_count s <= MAX_ACTIVE_REVERSE_CALLS /\
  in_requestBytes s = map_sum request_length (in_calls s) /\ in_requestBytes s <= MAX_PENDING_REQUEST_BYTES /\
  (forall id c, map_get id (in_calls s) = Some c -> 0 <= outgoingCreditBytes c <= credit) /\
  (forall error id, live_incoming id (run_state (incoming_close error s)) = None).
Proof.
  intros Hcredit He.
  assert (H0 : incoming_ok (run_state (configure credit newIncoming)) /\
    initialOutgoingCreditBytes (run_state (configure credit newIncoming)) = credit).
  { pose proof (configure_ok credit newIncoming incoming_ok_new eq_refl) as H.
    assert (E : configure credit newIncoming = (Ret tt, mkIncomingCalls [] credit 0 0, [])).
    { unfold configure. replace ((credit >? Json.MAX_SAFE_INTEGER) || (credit <=? 0)) with false; [done|].
      symmetry. apply orb_false_iff. split; lia. }
    rewrite E in *. split; [apply H | done]. }
  destruct H0 as [H0 Hinit].
  assert (Hkeep : forall l s, initialOutgoingCreditBytes s = credit ->
    initialOutgoingCreditBytes (fst (incoming_run handlers welcome l s)) = credit).
  { clear. induction l as [|e l IH]; intros s Hs; cbn [incoming_run]; [done|].
    assert (H1 : initialOutgoingCreditBytes (run_state (incoming_step handlers welcome e s)) = credit).
    { pose proof (initial_kept handlers welcome e s) as Hk. congruence. }
    unfold run_state in H1. destruct (incoming_step handlers welcome e s) as [[r s1] o1].
    specialize (IH s1 H1). by destruct (incoming_run handlers welcome l s1) as [s2 o2]. }
  specialize (Hkeep events _ Hinit).
  pose proof (incoming_run_ok handlers welcome events He _ H0) as H.
  assert (Hnonneg : forall id out, 0 <= ends id out).
  { intros id out. induction out as [|e out IH]; [done|]. rewrite ends_cons.
    destruct e; cbn [is_end]; try lia. case_if; lia. }
  destruct (incoming_run handlers welcome events _) as [s out]. cbn [fst] in Hkeep. destruct H as [H E].
  split_and!; [|apply H|apply H|apply H| |intros; apply close_leaves_none].
  - intros id. specialize (E id). pose proof (endable_range id s).
    pose proof (endable_range id (run_state (configure credit newIncoming))). specialize (Hnonneg id out).
    split; [lia|]. intros Hl. destruct (live_incoming id s) as [c|] eqn:El; [|done].
    apply live_incoming_get in El as [Eg El]. unfold endable in E at 1. rewrite Eg, El in E. lia.
  - intros id c Hg. destruct (io_calls _ H _ _ Hg) as (J1 & J2 & J3 & _). lia.
Qed.

Definition sample_handlers : RuntimeHandlerRegistry := <[[1] := mkHandler unary_handler 7]> ∅.
Definition sample_welcome : Welcome := mkWelcome 2 [1] [1] 1000 64 1000 [TransportFeature.REVERSE_CALLS].
Definition sample_events : list incoming_event :=
  [rv_start (mkCallStart 2 [1] 0 None); rv_start (mkCallStart 4 [9] 0 None);
   rv_payload 2 [5]; rv_end 2 None; rv_payload 4 []; rv_end 4 None;
   rv_handler None 2 (hr_payload [6; 6]); rv_credit_settled 2 None; rv_payload_settled 2 None; rv_cancel 2 None].

(** One call answered, one refused; each is ended once. *)
Lemma reverse_calls_end_once_witness :
  let '(s, out) := incoming_run sample_handlers (Some sample_welcome) sample_events
                     (run_state (configure 64 newIncoming)) in
  (ends 2 out, ends 4 out) = (1, 1) /\
  (forall id, 0 <= ends id out <= 1 /\ (live_incoming id s <> None -> ends id out = 0)) /\
  live_count s <= MAX_ACTIVE_REVERSE_CALLS /\
  in_requestBytes s = map_sum request_length (in_calls s) /\ in_requestBytes s <= MAX_PENDING_REQUEST_BYTES /\
  (forall id c, map_get id (in_calls s) = Some c -> 0 <= outgoingCreditBytes c <= 64) /\
  (forall error id, live_incoming id (run_state (incoming_close error s)) = None).
Proof.
  pose proof (reverse_calls_end_once sample_handlers (Some sample_welcome) 64 sample_events) as H.
  assert (E : (let '(s, out) := incoming_run sample_handlers (Some sample_welcome) sample_events
                     (run_state (configure 64 newIncoming)) in (ends 2 out, ends 4 out)) = (1, 1))
    by (vm_compute; reflexivity).
  destruct (incoming_run _ _ _ _) as [s out]. split; [exact E|].
  apply H; [unfold Json.MAX_SAFE_INTEGER; lia | by repeat constructor].
Defined.

(** The answer of a handler whose call the daemon has cancelled is still sent: the
    call is ended, then its payload is scheduled, with the call's aborted signal. *)
Theorem cancelled_call_still_answers s id c h payload status reason :
  live_incoming id s = Some c -> ic_run c = iv_handler -> ic_handler c = Some h ->
  eh_kind h = unary_handler -> ic_creditWaiter c = None -> byteLength payload <= outgoingCreditBytes c ->
  exists e,
  run_out ((incoming_cancel id status ;;; handler_answers (Some reason) id (hr_payload payload) ;;;
            credit_settled id None)%eff s) =
    [ie_abort id e; ie_end id (Some (error_status e)); ie_credit id None; ie_payload id payload].
Proof.
  intros Hl Hr Hh Hk Hw Hp.
  assert (H1 : exists e s1, incoming_cancel id status s = (Ret tt, s1, [ie_abort id e; ie_end id (Some (error_status e))]) /\
    map_get id (in_calls s1) = Some (removed c)).
  { unfold incoming_cancel, bind at 1, get. rewrite Hl. unfold incoming_remove. rewrite Hw.
    eexists _, _. split; [reflexivity|]. cbn [in_calls]. apply map_get_set_eq. }
  destruct H1 as (e & s1 & H1 & G1). exists e.
  set (c2 := with_run (iv_credit payload) (with_outgoing None (outgoingCreditBytes c - byteLength payload) (removed c))).
  assert (H2 : handler_answers (Some reason) id (hr_payload payload) s1 =
    (Ret tt, set_incoming id c2 s1, [ie_credit id None])).
  { unfold handler_answers, bind at 1, get. rewrite G1. cbn [removed ic_run ic_handler]. rewrite Hr, Hh.
    cbn [fmap option_fmap option_map]. rewrite Hk. unfold sendPayload, bind at 1, get.
    cbn [outgoingCreditBytes removed].
    replace (byteLength payload <=? outgoingCreditBytes c) with true by lia. reflexivity. }
  assert (H3 : exists s3, credit_settled id None (set_incoming id c2 s1) = (Ret tt, s3, [ie_payload id payload])).
  { unfold credit_settled, bind at 1, get. cbn [set_incoming in_calls]. rewrite map_get_set_eq.
    eexists. reflexivity. }
  destruct H3 as [s3 H3]. unfold bind. rewrite H1, H2, H3. reflexivity.
Qed.

Lemma cancelled_call_still_answers_witness :
  let s := fst (incoming_run sample_handlers (Some sample_welcome) (take 4 sample_events)
                  (run_state (configure 64 newIncoming))) in
  exists e,
  run_out ((incoming_cancel 2 None ;;; handler_answers (Some (OtherValue 0 None)) 2 (hr_payload [6; 6]) ;;;
            credit_settled 2 None)%eff s) =
    [ie_abort 2 e; ie_end 2 (Some (error_status e)); ie_credit 2 None; ie_payload 2 [6; 6]].
Proof.
  intros s.
  apply (cancelled_call_still_answers s 2
    (mkIncoming true None None (Some (mkHandler unary_handler 7)) (1024 * 1024 - 1) 64 None false 0 iv_handler)
    (mkHandler unary_handler 7)); try reflexivity. vm_compute. discriminate.
Defined.
