(* ===== verification/PeerSafety.v ===== *)
(** The peer over any run: its accounting, and the settling of its unary calls.

    [J id d] is the invariant of the peer, [d] bytes of the call [id] being on their way
    between the pending call and its stream ([J 0 0] between two operations).  [R] is
    what every operation but the start of a call does: it keeps the invariant, settles as
    many unary calls as it removes, never adds a call, and leaves none when it closes the
    peer. *)

From stdpp Require Import base list gmap.
From Stdlib Require Import ZArith Lia ZifyBool.
From S2P Require Import Prelude JsMap Effects RpcValues CallTables EventStream RpcFrame.
From S2P Require Import RpcSender PendingCalls DuplexRequests IncomingCalls IncomingSafety Peer.

Open Scope Z_scope.

#[local] Set Warnings "-clear-no-such-hyp".

Section safety.
Context {B : FrameBinary}.

Definition stream_ok (e : RuntimeEventStream) : Prop :=
  queue_ok (buffered e) /\ queue_ok (waiting e) /\ bufferedBytes e = total (contents (buffered e)).

Definition is_stream (c : PendingCall) : bool :=
  match pc_kind c with stream_call _ => true | unary_call _ _ => false end.

Definition held (id d : Z) (j : Z) : Z := if j =? id then d else 0.

Record J (id d : Z) (s : RuntimePeer) : Prop := {
  j_pending : pending_ok (p_pending s);
  j_size : pending_size (p_pending s) <= MAX_PENDING_CALLS;
  j_streams : forall j c, map_get j (calls (p_pending s)) = Some c -> is_stream c = true ->
    exists e, p_streams s !! j = Some e /\ bufferedResponseBytes c = bufferedBytes e + held id d j;
  j_stream_ok : forall j e, p_streams s !! j = Some e -> stream_ok e;
  j_duplex : duplex_ok (p_duplexRequests s);
  j_sender : sender_ok (p_sender s);
  j_incoming : incoming_ok (p_incoming s);
  j_handshake : hs_welcome (p_handshake s) = None -> in_calls (p_incoming s) = [];
  j_ids : exists n, 0 <= n <= 2 ^ 63 /\ p_callIds s = allocated n /\
    (forall j, map_get j (calls (p_pending s)) <> None -> j <= 2 * n - 1) /\
    (forall j, map_get j (requests (p_duplexRequests s)) <> None -> j <= 2 * n - 1)
}.

Abbreviation ok := (J 0 0).

(** Unary calls settled, and waiting to be. *)
Definition is_settled (p : Z) (x : peer_effect) : Z :=
  match x with x_unary q _ => if q =? p then 1 else 0 | _ => 0 end.
Definition settled (p : Z) (out : list peer_effect) : Z := foldr Z.add 0 (is_settled p <$> out).
Definition is_waiting (p : Z) (c : PendingCall) : Z :=
  match pc_kind c with unary_call q _ => if q =? p then 1 else 0 | stream_call _ => 0 end.
Definition pend (p : Z) (s : RuntimePeer) : Z := map_sum (is_waiting p) (calls (p_pending s)).

Lemma unary_settled_cons p x out : settled p (x :: out) = is_settled p x + settled p out.
Proof. done. Qed.

Lemma unary_settled_app p o1 o2 : settled p (o1 ++ o2) = settled p o1 + settled p o2.
Proof. unfold settled. induction o1 as [|x o1 IH]; cbn in *; lia. Qed.

Definition no_calls (s : RuntimePeer) : Prop := calls (p_pending s) = [].

Definition R : step_relation RuntimePeer peer_effect.
Proof.
  refine (mkStep (fun s out s' => ok s ->
    ok s' /\ (forall p, settled p out + pend p s' = pend p s) /\
    (no_calls s -> no_calls s') /\ (p_isClosed s' = true -> p_isClosed s = true \/ no_calls s')) _ _).
  - intros s H. split_and!; [exact H | done | done | by left].
  - intros s1 o1 s2 o2 s3 H12 H23 H. destruct (H12 H) as (H2 & E1 & K1 & C1).
    destruct (H23 H2) as (H3 & E2 & K2 & C2). split_and!; [exact H3 | | auto | ].
    + intros p. rewrite unary_settled_app. specialize (E1 p). specialize (E2 p). lia.
    + intros Hc. destruct (C2 Hc) as [Hc2|]; [|by right]. destruct (C1 Hc2) as [|]; [by left | right; auto].
Defined.

#[local] Arguments R : simpl never.

Definition Q (A : Type) (m : P A) : Prop := respects R m.

#[export] Instance Qp_compositional : Compositional Q.
Proof. apply (respects_compositional R). Qed.

(** ** Changing one part *)

Lemma J_set_sender id d v s : J id d s -> sender_ok v -> J id d (set_sender v s).
Proof. intros [] Hv. by split. Qed.
Lemma J_set_duplex id d v s : J id d s -> duplex_ok v ->
  (forall j, map_get j (requests v) <> None -> map_get j (requests (p_duplexRequests s)) <> None) ->
  J id d (set_duplex v s).
Proof.
  intros [? ? ? ? ? ? ? ? (n & Hn & Ha & Hp & Hd)] Hv Hk. split; try done. exists n. split_and!; auto; try lia.
Qed.
Lemma J_set_jobs id d v s : J id d s -> J id d (set_jobs v s).
Proof. intros []. by split. Qed.
Lemma J_set_aborted id d v s : J id d s -> J id d (set_aborted v s).
Proof. intros []. by split. Qed.
Lemma J_set_lifecycles id d v s : J id d s -> J id d (set_lifecycles v s).
Proof. intros []. by split. Qed.
Lemma J_set_cancelled id d v s : J id d s -> J id d (set_cancelled v s).
Proof. intros []. by split. Qed.
Lemma J_set_handlers id d v s : J id d s -> J id d (set_handlers v s).
Proof. intros []. by split. Qed.
Lemma J_set_receiver id d v s : J id d s -> J id d (set_receiver v s).
Proof. intros []. by split. Qed.
Lemma J_set_isClosed id d s : J id d s -> J id d (set_isClosed s).
Proof. intros []. by split. Qed.
Lemma J_set_handshake id d v s : J id d s ->
  (hs_welcome v = None -> hs_welcome (p_handshake s) = None) -> J id d (set_handshake v s).
Proof. intros [] Hv. split; try done. cbn. auto. Qed.
Lemma J_set_incoming id d v s : J id d s -> incoming_ok v ->
  (hs_welcome (p_handshake s) = None -> in_calls v = []) -> J id d (set_incoming_calls v s).
Proof. intros [] Hv Hk. by split. Qed.

(** The stream of a call changes. *)
Lemma J_set_stream id d d' j e s : J id d s -> stream_ok e ->
  (forall c, map_get j (calls (p_pending s)) = Some c -> is_stream c = true ->
     bufferedResponseBytes c = bufferedBytes e + held id d' j) ->
  (forall k, k <> j -> held id d k = held id d' k) ->
  J id d' (set_streams (<[j := e]> (p_streams s)) s).
Proof.
  intros [H1 H2 H3 H4 H5 H6 H7 H8 H9] He Hj Hother. split; try done; cbn.
  - intros k c Hc Hs. destruct (decide (k = j)) as [->|Hn].
    + exists e. split; [by rewrite lookup_insert_eq | by apply Hj].
    + destruct (H3 k c Hc Hs) as (e' & He' & Hb). exists e'.
      rewrite lookup_insert_ne by done. by rewrite <- Hother.
  - intros k e'. destruct (decide (k = j)) as [->|Hn].
    + rewrite lookup_insert_eq. intros E. by injection E as <-.
    + rewrite lookup_insert_ne by done. apply H4.
Qed.

(** A step that leaves the calls and the peer open. *)
Lemma R_simple s out s' :
  p_pending s' = p_pending s -> (p_isClosed s' = true -> p_isClosed s = true) ->
  (forall p, settled p out = 0) -> (ok s -> ok s') -> related R s out s'.
Proof.
  intros Hp Hc Ho Hj H. split_and!; [auto | | | auto].
  - intros p. rewrite Ho. unfold pend. by rewrite Hp.
  - unfold no_calls. by rewrite Hp.
Qed.

Lemma Qp_emit x : (forall p, is_settled p x = 0) -> Q unit (emit x).
Proof. intros H s. apply R_simple; try done. intros p. rewrite unary_settled_cons, H. done. Qed.

Lemma Qp_throw A e : Q A (throw e).
Proof. apply respects_throw. Qed.

Lemma Qp_modify f : (forall s, p_pending (f s) = p_pending s) -> (forall s, p_isClosed (f s) = p_isClosed s) ->
  (forall s, ok s -> ok (f s)) -> Q unit (modify f).
Proof. intros H1 H2 H3 s. apply R_simple; try done; [by rewrite H2 | apply H3]. Qed.

Lemma Qp_read A (k : RuntimePeer -> P A) : (forall s, respects_from R (eq s) (k s)) -> Q A (bind get k).
Proof. apply respects_get_bind. Qed.

Lemma at_state {A} (m : P A) s :
  (let '(_, s', out) := m s in related R s out s') -> respects_from R (eq s) m.
Proof. by intros H s' <-. Qed.

Lemma Qp_job k e : Q unit (add_job k e).
Proof. apply Qp_modify; try done. intros s. apply J_set_jobs. Qed.

Lemma Qp_abort id r : Q unit (abort id r).
Proof.
  apply Qp_modify; intros s; destruct (p_aborted s !! id); try done. apply J_set_aborted.
Qed.

Lemma Qp_schedule r k : (forall s, sender_ok s -> sender_ok (snd (r s))) -> Q unit (schedule r k).
Proof.
  intros Hr. apply Qp_read. intros s. apply at_state.
  assert (Hs : ok s -> ok (set_sender (snd (r (p_sender s))) s)).
  { intros H. apply J_set_sender; [exact H | apply Hr, H]. }
  destruct (r (p_sender s)) as [[e|] v]; cbn [snd] in Hs.
  - unfold bind, add_job, modify. cbn [app]. apply R_simple; try done. intros H. apply J_set_jobs. auto.
  - apply R_simple; done.
Qed.

Lemma Qp_send bodies signal k : Q unit (send bodies signal k).
Proof. apply Qp_schedule. intros s. apply sender_ok_batch. Qed.

#[local] Hint Resolve Qp_emit Qp_throw Qp_job Qp_abort Qp_send : effects.

Lemma Qp_incoming_effect e : Q unit (run_incoming_effect e).
Proof. destruct e; cbn [run_incoming_effect]; auto with effects. Qed.

(** A method of the reverse calls. *)
Lemma Qp_in_incoming_from {A} (m : I A) s :
  (incoming_ok (p_incoming s) -> let '(_, calls, _) := m (p_incoming s) in
     incoming_ok calls /\ (hs_welcome (p_handshake s) = None -> in_calls (p_incoming s) = [] -> in_calls calls = [])) ->
  let '(_, s', out) := in_incoming m s in related R s out s'.
Proof.
  intros Hm. unfold in_incoming. destruct (m (p_incoming s)) as [[r v] effects].
  set (s1 := set_incoming_calls v s).
  assert (H1 : related R s [] s1).
  { apply R_simple; try done. intros H. destruct (Hm (j_incoming _ _ _ H)) as [Hv Hk].
    apply J_set_incoming; [exact H | exact Hv|]. intros Hw. apply Hk; [done|]. by apply (j_handshake _ _ _ H). }
  pose proof (comp_for_each Q run_incoming_effect effects (fun e _ => Qp_incoming_effect e) s1) as H2.
  destruct (for_each run_incoming_effect effects s1) as [[r' s2] out].
  by apply (related_trans R s [] s1 out s2).
Qed.

Lemma Qp_in_incoming {A} (m : I A) : Qi A m -> Q A (in_incoming m).
Proof.
  intros Hm s. apply Qp_in_incoming_from. intros Hok. specialize (Hm (p_incoming s)).
  destruct (m (p_incoming s)) as [[r v] out]. by destruct (Hm Hok) as (H1 & _ & H3).
Qed.

(** ** Streams by themselves *)

Lemma stream_ok_new : stream_ok newEventStream.
Proof. split_and!; try done; apply queue_ok_new. Qed.

(** What a stream operation that has no callbacks does. *)
Lemma settle_waiting_run id r s :
  settle_waiting (X := thrown) (stream_of id) x_read r s =
  (Ret tt, update (stream_of id) (set_waiting newQueue (view (stream_of id) s)) s,
   (fun p => x_read p r) <$> contents (waiting (view (stream_of id) s))).
Proof.
  unfold settle_waiting, assign, bind, get, modify. cbn [queue_takeAll].
  fold (contents (waiting (view (stream_of id) s))). generalize (contents (waiting (view (stream_of id) s))) as l.
  assert (H : forall l (s : RuntimePeer),
    for_each (X := thrown) (fun p => emit (x_read p r)) l s = (Ret tt, s, (fun p => x_read p r) <$> l)).
  { induction l as [|p l IH]; intros s'; cbn; [done|]. unfold bind, emit. by rewrite IH. }
  intros l. rewrite H. done.
Qed.

Lemma settled_reads p r l : settled p ((fun q => x_read q r) <$> l) = 0.
Proof. induction l as [|q l IH]; [done|]. cbn [fmap list_fmap]. rewrite unary_settled_cons. done. Qed.

(** Rewriting the stream of a call that is not pending, or keeping its bytes. *)
Lemma J_update_stream id d j e s : J id d s -> stream_ok e ->
  (bufferedBytes e = bufferedBytes (view (stream_of j) s) \/ map_get j (calls (p_pending s)) = None) ->
  J id d (update (stream_of j) e s).
Proof.
  intros H He Hj. apply (J_set_stream id d d j e s H He); [|done].
  intros c Hc Hs. destruct Hj as [Hj|Hj]; [|congruence].
  destruct (j_streams _ _ _ H j c Hc Hs) as (e' & He' & Hb).
  rewrite Hj. cbn [view stream_of]. by rewrite He'.
Qed.

Lemma view_ok id d j s : J id d s -> stream_ok (view (stream_of j) s).
Proof.
  intros H. cbn. destruct (p_streams s !! j) as [e|] eqn:E; [|apply stream_ok_new].
  by apply (j_stream_ok _ _ _ H j).
Qed.

Lemma update_twice id e1 e2 s : update (stream_of id) e2 (update (stream_of id) e1 s) = update (stream_of id) e2 s.
Proof. cbn. unfold set_streams. cbn. by rewrite insert_insert_eq. Qed.

Lemma view_update id e s : view (stream_of id) (update (stream_of id) e s) = e.
Proof. cbn. by rewrite lookup_insert_eq. Qed.

Lemma R_update_stream id e s out :
  (forall p, settled p out = 0) -> (ok s -> stream_ok e) ->
  (bufferedBytes e = bufferedBytes (view (stream_of id) s) \/ map_get id (calls (p_pending s)) = None) ->
  related R s out (update (stream_of id) e s).
Proof.
  intros Ho He Hj. apply R_simple; try done. intros H. apply J_update_stream; auto.
Qed.

Lemma Qp_stream_end id : Q unit (stream_end (stream_of id) x_read).
Proof.
  intros s. unfold stream_end, assign, bind, modify. rewrite settle_waiting_run.
  rewrite view_update, update_twice. cbn [app].
  apply R_update_stream; [intros p; apply settled_reads | | by left].
  intros H. destruct (view_ok _ _ id _ H) as (H1 & H2 & H3). split_and!; [exact H1 | apply queue_ok_new | exact H3].
Qed.

(** Failing the stream of a call that is no longer pending. *)
Lemma R_stream_fail id e s : map_get id (calls (p_pending s)) = None ->
  let '(r, s', out) := stream_fail (X := thrown) (stream_of id) x_read e s in
  related R s out s' /\ p_pending s' = p_pending s /\ r = Ret tt.
Proof.
  intros Hg. unfold stream_fail, assign, bind, modify. rewrite settle_waiting_run.
  rewrite view_update, update_twice. cbn [app]. split; [|done].
  apply R_update_stream; [intros p; apply settled_reads | | by right].
  intros H. split_and!; [apply queue_ok_new | apply queue_ok_new | done].
Qed.

(** ** Taking a call *)

Lemma requests_close id j v : map_get j (requests (duplex_close id v)) <> None -> map_get j (requests v) <> None.
Proof.
  unfold duplex_close. destruct (live_request id v) as [r|] eqn:E; [|done].
  apply live_request_get in E as [E _]. unfold set_request. cbn [requests]. rewrite map_get_set.
  case_decide as Ej; [subst; congruence | done].
Qed.

Lemma J_close_duplex id d j s : J id d s -> J id d (set_duplex (duplex_close j (p_duplexRequests s)) s).
Proof.
  intros H. apply J_set_duplex; [exact H | apply duplex_ok_close, H | intros k; apply (requests_close j)].
Qed.

Lemma Qp_close_duplex id : Q unit (modify (fun s => set_duplex (duplex_close id (p_duplexRequests s)) s)).
Proof. apply Qp_modify; try done. intros s. apply J_close_duplex. Qed.

Lemma Qp_cleanup id c : Q unit (cleanup id c).
Proof.
  unfold cleanup. apply comp_bind; [apply Qp_modify; try done; intros s; apply J_set_lifecycles|].
  intros _. destruct (pc_kind c); [apply comp_ret | apply Qp_close_duplex].
Qed.

#[local] Hint Resolve Qp_incoming_effect Qp_in_incoming Qp_stream_end Qp_close_duplex Qp_cleanup : effects.

(** What is left when the call [id] has been taken. *)
Definition taken (id : Z) (s : RuntimePeer) : RuntimePeer := set_pending (snd (pending_take id (p_pending s))) s.

Lemma map_size_nonneg {V} (m : jsmap V) : 0 <= map_size m.
Proof. unfold map_size. lia. Qed.

Lemma get_taken id j s : pending_ok (p_pending s) ->
  map_get j (calls (p_pending (taken id s))) = if decide (id = j) then None else map_get j (calls (p_pending s)).
Proof.
  intros H. unfold taken, pending_take. cbn [p_pending set_pending].
  destruct (map_get id (calls (p_pending s))) as [c|] eqn:E; cbn [snd calls].
  - by rewrite map_get_delete by apply H.
  - case_decide as Ej; [by subst | done].
Qed.

(** Taking a call settles the difference, whatever it was. *)
Lemma J_taken id i d s : J i d s -> i = id \/ d = 0 -> ok (taken id s).
Proof.
  intros H Hi. pose proof (j_pending _ _ _ H) as Hp. destruct H as [H1 H2 H3 H4 H5 H6 H7 H8 (n & Hn & Ha & Hk & Hd)].
  split; try done.
  - by apply pending_ok_take.
  - unfold taken, pending_take, pending_size in *. cbn [p_pending set_pending].
    destruct (map_get id (calls (p_pending s))) as [c|] eqn:E; cbn [snd calls]; [|exact H2].
    pose proof (map_size_delete_le id (calls (p_pending s))). lia.
  - intros j c. rewrite get_taken by done. case_decide as Ej; [done|]. intros Hc Hs.
    destruct (H3 j c Hc Hs) as (e & He & Hb). exists e. split; [exact He|].
    rewrite Hb. unfold held. destruct Hi as [Hi | Hi]; subst; repeat case_if; lia.
  - exists n. split_and!; try done; try lia. intros j. rewrite get_taken by done. case_decide; [done | apply Hk].
Qed.

Lemma pend_taken id p s : pend p (taken id s) =
  pend p s - match map_get id (calls (p_pending s)) with Some c => is_waiting p c | None => 0 end.
Proof.
  unfold pend, taken, pending_take. cbn [p_pending set_pending].
  destruct (map_get id (calls (p_pending s))) as [c|] eqn:E; cbn [snd calls]; [|lia].
  by rewrite (map_sum_delete _ _ _ _ E).
Qed.

Lemma no_calls_taken id s : no_calls s -> no_calls (taken id s).
Proof.
  unfold no_calls, taken, pending_take. cbn [p_pending set_pending]. intros E. by rewrite E.
Qed.

Lemma set_pending_id s : set_pending (p_pending s) s = s.
Proof. by destruct s. Qed.

(** [take_call]: the call is removed, then steps that keep everything. *)
Lemma take_call_spec id s :
  let '(r, s', out) := take_call id s in
  exists c, r = Ret c /\ c = map_get id (calls (p_pending s)) /\ related R (taken id s) out s' /\
    p_pending s' = p_pending (taken id s) /\ out = [] /\ (c = None -> s' = s).
Proof.
  unfold take_call, bind at 1, get. unfold taken.
  assert (Hfst : fst (pending_take id (p_pending s)) = map_get id (calls (p_pending s))).
  { unfold pending_take. by destruct (map_get id (calls (p_pending s))). }
  assert (Hv : fst (pending_take id (p_pending s)) = None -> snd (pending_take id (p_pending s)) = p_pending s).
  { unfold pending_take. by destruct (map_get id (calls (p_pending s))). }
  destruct (pending_take id (p_pending s)) as [[c|] v]; cbn [fst snd] in *; unfold bind at 1, modify at 1; cbn [app];
    set (s1 := set_pending v s).
  - unfold bind at 1. destruct (is_ended c).
    + cbn. eexists. split_and!; [done | exact Hfst | apply (related_refl R) | done | done | done].
    + assert (HQ : Q unit (cleanup id c ;;; abort id AbortError)%eff) by (apply comp_bind; auto with effects).
      specialize (HQ s1). unfold cleanup, bind, modify, abort in *. cbn [app] in *.
      destruct (pc_kind c); cbn [ret app] in *;
        (eexists; split_and!; [done | exact Hfst | exact HQ | | done | done]).
      all: cbn; by destruct (p_aborted s !! id).
  - cbn. eexists. split_and!; [done | exact Hfst | apply (related_refl R) | done | done|].
    intros _. unfold s1. rewrite Hv by done. apply set_pending_id.
Qed.

Lemma R_taken id s c : map_get id (calls (p_pending s)) = Some c ->
  (forall p, is_waiting p c = 0) -> related R s [] (taken id s).
Proof.
  intros Hg Hw H. split_and!; [apply (J_taken id 0 0); auto | | apply no_calls_taken | by left].
  intros p. rewrite pend_taken, Hg, Hw. cbn. lia.
Qed.

(** Failing a call that has just been taken: its promise settles. *)
Lemma fail_taken id i d c e s s1 : map_get id (calls (p_pending s)) = Some c -> J i d s -> i = id \/ d = 0 ->
  related R (taken id s) [] s1 -> p_pending s1 = p_pending (taken id s) ->
  let '(r, s', out) := failPendingCall id c e s1 in
  ok s' /\ (forall p, settled p out + pend p s' = pend p s) /\ (no_calls s -> no_calls s') /\
  (p_isClosed s' = true -> p_isClosed s = true \/ no_calls s') /\ r = Ret tt /\ p_pending s' = p_pending (taken id s).
Proof.
  intros Hg HJ Hi H1 Hp1. pose proof (J_taken id i d s HJ Hi) as Ht. destruct (H1 Ht) as (J1 & E1 & K1 & C1).
  assert (Hpend : forall p, pend p s1 + is_waiting p c = pend p s).
  { intros p. specialize (E1 p). rewrite pend_taken, Hg in E1. cbn in E1. lia. }
  assert (Hnone : map_get id (calls (p_pending s1)) = None).
  { rewrite Hp1, get_taken by apply HJ. by rewrite decide_True. }
  unfold failPendingCall. destruct (pc_kind c) as [promise payloads|ended] eqn:Ek.
  - unfold emit. split_and!; [exact J1 | | | exact C1 | done | exact Hp1].
    + intros p. specialize (Hpend p). rewrite unary_settled_cons. unfold is_waiting in Hpend. rewrite Ek in Hpend. cbn. lia.
    + intros Hn. apply K1, no_calls_taken, Hn.
  - pose proof (R_stream_fail id e s1 Hnone) as H2.
    destruct (stream_fail (stream_of id) x_read e s1) as [[r s'] out]. destruct H2 as (H2 & Hp2 & ->).
    destruct (H2 J1) as (J2 & E2 & K2 & C2). split_and!; [exact J2 | | | | done | congruence].
    + intros p. specialize (Hpend p). specialize (E2 p). unfold is_waiting in Hpend. rewrite Ek in Hpend. lia.
    + intros Hn. apply K2, K1, no_calls_taken, Hn.
    + intros Hc. destruct (C2 Hc) as [Hc2|]; [|by right]. destruct (C1 Hc2) as [|]; [by left | right; auto].
Qed.

(** The same, from a state where the call's stream is [d] bytes behind. *)
Lemma finishFailed_from id i d e s : J i d s -> i = id \/ d = 0 ->
  let '(r, s', out) := finishFailed id e s in
  (match map_get id (calls (p_pending s)) with Some _ => ok s' | None => J i d s' end) /\
  (forall p, settled p out + pend p s' = pend p s) /\ (no_calls s -> no_calls s') /\
  (p_isClosed s' = true -> p_isClosed s = true \/ no_calls s') /\ r = Ret tt /\
  p_pending s' = p_pending (taken id s).
Proof.
  intros H Hi. pose proof (take_call_spec id s) as Ht. unfold finishFailed, bind.
  destruct (take_call id s) as [[r1 s1] o1]. destruct Ht as (c & -> & Hc & H1 & Hp1 & -> & Hsame). cbn [app].
  destruct (map_get id (calls (p_pending s))) as [call|] eqn:Hg; subst c.
  - pose proof (fail_taken id i d call e s s1 Hg H Hi H1 Hp1) as Hf.
    destruct (failPendingCall id call e s1) as [[r s'] out]. exact Hf.
  - rewrite Hsame by done. unfold ret. cbn [app].
    assert (Et : p_pending s = p_pending (taken id s)) by (unfold taken, pending_take; by rewrite Hg).
    split_and!; try done. by left.
Qed.

Lemma Qp_finishFailed id e : Q unit (finishFailed id e).
Proof.
  intros s. destruct (finishFailed id e s) as [[r s'] out] eqn:E. intros H.
  pose proof (finishFailed_from id 0 0 e s H (or_intror eq_refl)) as Hf. rewrite E in Hf.
  destruct Hf as (H1 & H2 & H3 & H4 & _). split_and!; try done.
  by destruct (map_get id (calls (p_pending s))).
Qed.

#[local] Hint Resolve Qp_finishFailed : effects.

(** ** Closing the peer *)

(** Steps that do not touch the calls. *)
Definition same_pending : step_relation RuntimePeer peer_effect.
Proof.
  refine (mkStep (fun s _ s' => p_pending s' = p_pending s) _ _); [done|].
  intros s1 o1 s2 o2 s3 H1 H2. congruence.
Defined.

Definition Same (A : Type) (m : P A) : Prop := respects same_pending m.

#[export] Instance Same_compositional : Compositional Same.
Proof. apply (respects_compositional same_pending). Qed.

Lemma Same_modify f : (forall s, p_pending (f s) = p_pending s) -> Same unit (modify f).
Proof. intros H s. apply H. Qed.
Lemma Same_emit x : Same unit (emit x).
Proof. by intros s. Qed.
Lemma Same_job k e : Same unit (add_job k e).
Proof. by intros s. Qed.
Lemma Same_abort id r : Same unit (abort id r).
Proof. intros s. cbn. by destruct (p_aborted s !! id). Qed.

Lemma Same_send bodies signal k : Same unit (send bodies signal k).
Proof.
  intros s. unfold send, schedule, bind, get. destruct (sendBatch _ _ _ _) as [[e|] v]; done.
Qed.

#[local] Hint Resolve Same_emit Same_job Same_abort Same_send : effects.

Lemma Same_incoming {A} (m : I A) : Same A (in_incoming m).
Proof.
  intros s. unfold in_incoming. destruct (m (p_incoming s)) as [[r v] effects].
  assert (He : forall e, Same unit (run_incoming_effect e)).
  { intros e. destruct e; cbn [run_incoming_effect]; auto with effects. }
  pose proof (comp_for_each Same run_incoming_effect effects (fun e _ => He e) (set_incoming_calls v s)) as H.
  by destruct (for_each run_incoming_effect effects (set_incoming_calls v s)) as [[r' s'] out].
Qed.

Lemma Same_settle_ready r : Same unit (settle_ready r).
Proof.
  unfold settle_ready. apply comp_bind; [apply comp_get|]. intros s.
  apply comp_bind; [by apply Same_modify|]. intros _. destruct (hs_awaiting _); [apply Same_job | apply comp_ret].
Qed.

Lemma Same_handshake_fail e : Same unit (handshake_fail e).
Proof.
  unfold handshake_fail. apply comp_bind; [apply comp_get|]. intros s. case_if; [|apply comp_ret].
  apply comp_bind; [apply Same_abort | intros _; apply Same_settle_ready].
Qed.

Lemma R_set_handshake v s : (hs_welcome v = None -> hs_welcome (p_handshake s) = None) ->
  related R s [] (set_handshake v s).
Proof. intros H. apply R_simple; try done. intros Hs. by apply J_set_handshake. Qed.

Lemma Qp_settle_ready r : Q unit (settle_ready r).
Proof.
  apply Qp_read. intros s. apply at_state. unfold bind, modify.
  set (s1 := set_handshake _ s).
  assert (H1 : related R s [] s1) by (apply R_set_handshake; done).
  destruct (hs_awaiting (p_handshake s)) as [p|]; [|exact H1].
  pose proof (Qp_job (k_ready p) None s1) as H2. unfold add_job, modify in *.
  by apply (related_trans R s [] s1).
Qed.

Lemma Qp_handshake_fail e : Q unit (handshake_fail e).
Proof.
  unfold handshake_fail. apply comp_bind; [apply comp_get|]. intros s. case_if; [|apply comp_ret].
  apply comp_bind; [apply Qp_abort | intros _; apply Qp_settle_ready].
Qed.

#[local] Hint Resolve Qp_settle_ready Qp_handshake_fail Qi_close : effects.

Lemma all_none_nil {V} (m : jsmap V) : (forall j, map_get j m = None) -> m = [].
Proof. destruct m as [|[k v] m]; [done|]. intros H. specialize (H k). cbn in H. by rewrite Z.eqb_refl in H. Qed.

Lemma finish_all e l : forall s, ok s ->
  (forall j, map_get j (calls (p_pending s)) <> None -> j ∈ l) ->
  let '(r, s', out) := for_each (fun id => finishFailed id e) l s in r = Ret tt /\ no_calls s'.
Proof.
  induction l as [|id l IH]; intros s H Hl; cbn [for_each].
  - cbn. split; [done|]. apply all_none_nil. intros j.
    destruct (map_get j (calls (p_pending s))) eqn:E; [|done]. assert (j ∈ []) by (apply Hl; congruence). set_solver.
  - unfold bind. pose proof (finishFailed_from id 0 0 e s H (or_intror eq_refl)) as Hf.
    destruct (finishFailed id e s) as [[r s1] o1]. destruct Hf as (H1 & _ & _ & _ & -> & Hp).
    assert (H1' : ok s1) by (by destruct (map_get id (calls (p_pending s)))).
    specialize (IH s1 H1'). rewrite Hp in IH.
    assert (Hl' : forall j, map_get j (calls (p_pending (taken id s))) <> None -> j ∈ l).
    { intros j. rewrite get_taken by apply H. case_decide as Ej; [done|]. intros Hj.
      specialize (Hl j Hj). set_solver. }
    specialize (IH Hl'). by destruct (for_each _ l s1) as [[r2 s2] o2].
Qed.

(** The part of [terminate] that fails the calls. *)
Definition fail_calls (e : thrown) : P unit :=
  (s <- get ;; for_each (fun id => finishFailed id e) (pending_keys (p_pending s)))%eff.

Lemma Qp_fail_calls e : Q unit (fail_calls e).
Proof.
  unfold fail_calls. apply comp_bind; [apply comp_get|]. intros s.
  apply (comp_for_each Q). auto with effects.
Qed.

Lemma fail_calls_all e s : ok s -> let '(r, s', out) := fail_calls e s in r = Ret tt /\ no_calls s'.
Proof.
  intros H. unfold fail_calls, bind, get.
  pose proof (finish_all e (pending_keys (p_pending s)) s H) as Hf.
  destruct (for_each _ _ s) as [[r s'] out]. apply Hf.
  intros j Hj. unfold pending_keys. destruct (map_get j (calls (p_pending s))) eqn:E; [|done].
  by eapply map_get_keys.
Qed.

(** What comes before it. *)
Definition closing (e : thrown) : P unit :=
  (modify (fun s => set_sender (sender_close (p_sender s)) s) ;;;
   handshake_fail e ;;; in_incoming (incoming_close e))%eff.

Lemma Qp_closing e : Q unit (closing e).
Proof.
  unfold closing. apply comp_bind; [|intros _; apply comp_bind; auto with effects].
  apply Qp_modify; try done. intros s H. apply J_set_sender; [exact H | apply sender_ok_close, H].
Qed.

Lemma in_incoming_result {A} (m : I A) s : run_result (in_incoming m s) = run_result (m (p_incoming s)).
Proof.
  unfold in_incoming, run_result. destruct (m (p_incoming s)) as [[r v] effects].
  by destruct (for_each run_incoming_effect effects (set_incoming_calls v s)) as [[r' s'] out].
Qed.

Lemma bind_assoc {X A C} (m : P X) (k : X -> P A) (h : A -> P C) s :
  bind (bind m k) h s = bind m (fun x => bind (k x) h) s.
Proof.
  unfold bind. destruct (m s) as [[[x|e] s1] o1]; [|done].
  destruct (k x s1) as [[[a|e] s2] o2]; [|done].
  destruct (h a s2) as [[r s3] o3]. by rewrite app_assoc.
Qed.

Lemma bind_ext {X A} (m : P X) (k k' : X -> P A) s :
  (forall x s, k x s = k' x s) -> bind m k s = bind m k' s.
Proof. intros H. unfold bind. destruct (m s) as [[[x|e] s1] o1]; [|done]. by rewrite H. Qed.

Lemma bind_modify {A} f (k : unit -> P A) s : bind (modify f) k s = k tt (f s).
Proof. unfold bind, modify. by destruct (k tt (f s)) as [[r s'] o]. Qed.

Lemma bind_get {A} (k : RuntimePeer -> P A) s : bind get k s = k s s.
Proof. unfold bind, get. by destruct (k s s) as [[r s'] o]. Qed.

Lemma terminate_eq e b s : terminate e b s =
  if p_isClosed s then (Ret tt, s, [])
  else (closing e ;;; fail_calls e ;;; (if b then emit (x_terminated e) else ret tt))%eff (set_isClosed s).
Proof.
  unfold terminate. rewrite bind_get. destruct (p_isClosed s); [done|].
  rewrite bind_modify. unfold closing. rewrite bind_assoc. apply bind_ext. intros _ s1.
  rewrite bind_assoc. apply bind_ext. intros _ s2. apply bind_ext. intros _ s3.
  unfold fail_calls. by rewrite bind_assoc.
Qed.

(** Computations that never throw. *)
Definition Total {S O} (A : Type) (m : M S O thrown A) : Prop := throws (fun _ => False) m.

#[export] Instance Total_compositional {S O} : Compositional (@Total S O).
Proof. apply (throws_compositional (fun _ => False)). Qed.

Lemma Total_run {S O A} (m : M S O thrown A) s : Total A m -> exists a s' o, m s = (Ret a, s', o).
Proof.
  intros H. specialize (H s). unfold run_result in H. destruct (m s) as [[[a|x] s'] o]; [|done].
  by eexists _, _, _.
Qed.

Lemma Total_emit {S O} (x : O) : Total (S := S) unit (emit x).
Proof. done. Qed.
Lemma Total_modify {S O} (f : S -> S) : Total (O := O) unit (modify f).
Proof. done. Qed.

#[local] Hint Resolve Total_emit Total_modify : effects.

Lemma Total_close e : Total unit (incoming_close e).
Proof. unfold incoming_close, incoming_remove. compose. Qed.

Lemma Total_in_incoming {A} (m : I A) : Total A m -> Total A (in_incoming m).
Proof.
  intros H s. pose proof (in_incoming_result m s) as Hi. rewrite Hi. apply H.
Qed.

Lemma Total_closing e : Total unit (closing e).
Proof.
  unfold closing, handshake_fail, settle_ready, abort, add_job. compose.
  apply Total_in_incoming, Total_close.
Qed.

Lemma Total_fail_calls e : Total unit (fail_calls e).
Proof.
  unfold fail_calls, finishFailed, take_call, failPendingCall, cleanup, abort, stream_fail, settle_waiting,
    assign. compose.
Qed.

Lemma Qp_terminate e b : Q unit (terminate e b).
Proof.
  intros s. rewrite terminate_eq. destruct (p_isClosed s) eqn:Ec; [apply related_refl|].
  pose proof (Qp_closing e (set_isClosed s)) as H1.
  destruct (Total_run _ (set_isClosed s) (Total_closing e)) as ([] & s1 & o1 & E1).
  unfold bind at 1. rewrite E1 in H1 |- *.
  pose proof (Qp_fail_calls e s1) as H2. pose proof (fail_calls_all e s1) as Hall.
  destruct (Total_run _ s1 (Total_fail_calls e)) as ([] & s2 & o2 & E2).
  unfold bind at 1. rewrite E2 in H2, Hall |- *.
  enough (Hgoal : forall o3, (forall p, settled p o3 = 0) -> related R s (o1 ++ o2 ++ o3) s2)
    by (destruct b; cbn [emit ret]; apply Hgoal; done).
  intros o3 Ho H. assert (H0 : ok (set_isClosed s)) by (by apply J_set_isClosed).
  destruct (H1 H0) as (J1 & P1 & N1 & _). destruct (H2 J1) as (J2 & P2 & N2 & _).
  destruct (Hall J1) as [_ Hn].
  split_and!; [exact J2 | | done | by right].
  intros p. rewrite !unary_settled_app, Ho. specialize (P1 p). specialize (P2 p).
  change (pend p (set_isClosed s)) with (pend p s) in P1. lia.
Qed.
#[local] Hint Resolve Qp_terminate : effects.

(** ** Cancelling and restoring credit *)

(** What [R] says of a step that starts from [ok]. *)
Definition kept (s : RuntimePeer) (out : list peer_effect) (s' : RuntimePeer) : Prop :=
  ok s' /\ (forall p, settled p out + pend p s' = pend p s) /\
  (no_calls s -> no_calls s') /\ (p_isClosed s' = true -> p_isClosed s = true \/ no_calls s').

Lemma kept_then s o1 s1 o2 s2 : kept s o1 s1 -> related R s1 o2 s2 -> kept s (o1 ++ o2) s2.
Proof.
  intros (H1 & E1 & K1 & C1) H12. destruct (H12 H1) as (H2 & E2 & K2 & C2). split_and!; [exact H2 | | auto | ].
  - intros p. rewrite unary_settled_app. specialize (E1 p). specialize (E2 p). lia.
  - intros Hc. destruct (C2 Hc) as [Hc2|]; [|by right]. destruct (C1 Hc2) as [|]; [by left | right; auto].
Qed.

Lemma kept_of s out s' : ok s -> related R s out s' -> kept s out s'.
Proof. intros H HR. exact (HR H). Qed.

(** A step before it that leaves the calls. *)
Lemma kept_before s s1 out s' : p_pending s1 = p_pending s -> p_isClosed s1 = p_isClosed s ->
  kept s1 out s' -> kept s out s'.
Proof.
  intros Hp Hc (H1 & E1 & K1 & C1). unfold kept, no_calls, pend in *. rewrite Hp, Hc in *. done.
Qed.

Lemma held_zero i j : held i 0 j = 0.
Proof. unfold held. by case_if. Qed.

Lemma J_zero i s : J i 0 s -> ok s.
Proof.
  intros []. split; try done. intros j c Hc Hs. destruct (j_streams0 j c Hc Hs) as (e & He & Hb).
  exists e. by rewrite held_zero in *.
Qed.

Lemma J_no_call i d s : J i d s -> map_get i (calls (p_pending s)) = None -> ok s.
Proof.
  intros [] Hn. split; try done. intros j c Hc Hs. destruct (j_streams0 j c Hc Hs) as (e & He & Hb).
  exists e. split; [done|]. rewrite Hb, held_zero. unfold held. case_if; [|done]. bool_prop. congruence.
Qed.

Lemma cancel_from id i d reason code waiter s : J i d s -> i = id \/ d = 0 ->
  map_get id (calls (p_pending s)) <> None \/ d = 0 ->
  let '(r, s', out) := cancel id reason code waiter s in kept s out s' /\ r = Ret tt.
Proof.
  intros H Hi Hd. unfold cancel. set (error := newRuntimeProtocolError _ _).
  pose proof (take_call_spec id s) as Ht. unfold bind at 1.
  destruct (take_call id s) as [[r1 s1] o1]. destruct Ht as (c & -> & Hc & H1 & Hp1 & -> & Hsame).
  destruct (map_get id (calls (p_pending s))) as [call|] eqn:Hg; subst c.
  - unfold bind at 1, modify at 1. cbn [app].
    set (s2 := set_cancelled (cancelled_insert id (p_cancelled s1)) s1).
    assert (H2 : related R (taken id s) [] s2).
    { apply (related_trans R (taken id s) [] s1 [] s2); [exact H1|].
      apply R_simple; try done. apply J_set_cancelled. }
    pose proof (fail_taken id i d call error s s2 Hg H Hi H2 Hp1) as Hf.
    unfold bind at 1. destruct (failPendingCall id call error s2) as [[r3 s3] o3].
    destruct Hf as (J3 & P3 & N3 & C3 & -> & _).
    pose proof (Qp_send (cancel_bodies id (default [] reason) code) None (k_cancel waiter) s3) as H4.
    assert (T4 : Total unit (send (cancel_bodies id (default [] reason) code) None (k_cancel waiter))).
    { unfold send, schedule, add_job. compose. }
    destruct (Total_run _ s3 T4) as ([] & s4 & o4 & E4). rewrite E4 in *. split; [|done].
    apply (kept_then s o3 s3); [by split_and! | exact H4].
  - rewrite Hsame by done. cbn [app]. destruct Hd as [Hd | ->]; [done|]. unfold add_job, modify. split; [|done].
    apply (kept_of _ _ _ (J_zero _ _ H)), (Qp_job _ _ s).
Qed.

Lemma Qp_cancel id reason code waiter : Q unit (cancel id reason code waiter).
Proof.
  intros s. destruct (cancel id reason code waiter s) as [[r s'] out] eqn:E. intros H.
  pose proof (cancel_from id 0 0 reason code waiter s H (or_intror eq_refl) (or_intror eq_refl)) as Hc.
  rewrite E in Hc. apply Hc.
Qed.

#[local] Hint Resolve Qp_cancel : effects.

(** A stream's bytes are those of its call. *)
Lemma held_eq id d : held id d id = d.
Proof. unfold held. by rewrite Z.eqb_refl. Qed.
Lemma held_ne id d j : j <> id -> held id d j = 0.
Proof. unfold held. intros H. by replace (j =? id) with false by lia. Qed.

(** Replacing the call [id] by one of the same kind. *)
Lemma J_set_call id d d' c c' v s : J id d s -> map_get id (calls (p_pending s)) = Some c ->
  pending_ok v -> calls v = map_set id c' (calls (p_pending s)) ->
  is_stream c' = is_stream c ->
  (is_stream c = true -> bufferedResponseBytes c' - bufferedResponseBytes c = d' - d) ->
  J id d' (set_pending v s).
Proof.
  intros [H1 H2 H3 H4 H5 H6 H7 H8 (n & Hn & Ha & Hk & Hd)] Hg Hv Ec Es Eb.
  split; try done; cbn [p_pending set_pending p_streams p_callIds p_duplexRequests].
  - unfold pending_size in *. rewrite Ec. by rewrite (map_set_length_in _ _ _ _ Hg).
  - intros j x. rewrite Ec, map_get_set. case_decide as Ej; intros Hj Hs.
    + subst j. injection Hj as <-. rewrite Es in Hs. destruct (H3 id c Hg Hs) as (e & He & Hb).
      exists e. split; [done|]. rewrite held_eq in *. specialize (Eb Hs). lia.
    + destruct (H3 j x Hj Hs) as (e & He & Hb). exists e. split; [done|]. rewrite held_ne in * by done. lia.
  - exists n. split_and!; try done; try lia. intros j. rewrite Ec, map_get_set. case_decide as Ej; [|apply Hk].
    intros _. subst j. apply Hk. congruence.
Qed.

Lemma pend_set_call id c c' v s : map_get id (calls (p_pending s)) = Some c ->
  calls v = map_set id c' (calls (p_pending s)) -> (forall p, is_waiting p c' = is_waiting p c) ->
  forall p, pend p (set_pending v s) = pend p s.
Proof.
  intros Hg Ec Hw p. unfold pend. cbn [p_pending set_pending]. rewrite Ec.
  rewrite (map_sum_set_in _ _ _ _ _ Hg), Hw. lia.
Qed.

Lemma no_calls_get id c s : map_get id (calls (p_pending s)) = Some c -> ~ no_calls s.
Proof. unfold no_calls. intros Hg E. by rewrite E in Hg. Qed.
(** Taking a stream call settles nothing. *)
Lemma take_stream id c s : map_get id (calls (p_pending s)) = Some c -> is_stream c = true ->
  let '(r, s', out) := (_ <- take_call id ;; ret tt)%eff s in related R s out s' /\ r = Ret tt.
Proof.
  intros Hg Hs. pose proof (take_call_spec id s) as Ht. unfold bind, ret.
  destruct (take_call id s) as [[r1 s1] o1]. destruct Ht as (x & -> & _ & H1 & _ & -> & _). split; [|done].
  apply (related_trans R s [] (taken id s) [] s1); [|exact H1].
  apply (R_taken id s c Hg). intros p. unfold is_waiting. unfold is_stream in Hs. by destruct (pc_kind c).
Qed.

Lemma J_unary id d c s : J id d s -> map_get id (calls (p_pending s)) = Some c -> is_stream c = false -> ok s.
Proof.
  intros [] Hg Hu. split; try done. intros j x Hx Hs. destruct (j_streams0 j x Hx Hs) as (e & He & Hb).
  exists e. split; [done|]. rewrite Hb, held_zero. unfold held. case_if; [|done]. bool_prop. subst. congruence.
Qed.

(** Some bytes of a call are given back. *)
Lemma restored_ok id n c c' s : J id n s -> map_get id (calls (p_pending s)) = Some c ->
  0 <= n <= bufferedResponseBytes c -> pc_kind c' = pc_kind c ->
  bufferedResponseBytes c' = bufferedResponseBytes c - n -> pc_requestBytes c' = pc_requestBytes c ->
  (is_ended c = false ->
     incomingCreditBytes c' = Z.min INITIAL_CALL_CREDIT_BYTES (incomingCreditBytes c + n)) ->
  let v := mkPending (map_set id c' (calls (p_pending s))) (responseBytes (p_pending s) - n)
             (requestBytes (p_pending s)) in
  kept s [] (set_pending v s).
Proof.
  intros H Hg Hn Hk Hb Hr Hc v. pose proof (j_pending _ _ _ H) as Hp.
  destruct (po_calls _ Hp _ _ Hg) as (C1 & C2 & C3 & C4).
  assert (Hended : is_ended c' = is_ended c) by (unfold is_ended; by rewrite Hk).
  assert (Hv : pending_ok v).
  { unfold v. replace (responseBytes (p_pending s) - n) with (responseBytes (p_pending s) + (- n)) by lia.
    pose proof (po_response_max _ Hp).
    apply (pending_ok_moved (p_pending s) id c c' (- n) Hp Hg); [|lia|done|lia].
    unfold call_ok. rewrite Hended, Hb, Hr. split_and!; [lia | lia | lia | done |].
    intros He. specialize (C4 He). rewrite (Hc He), Z.min_r by lia. lia. }
  split_and!; [|  | |by left].
  - apply (J_zero id). apply (J_set_call id n 0 c c' v s H Hg Hv); [done | unfold is_stream; by rewrite Hk|].
    intros _. lia.
  - intros p. cbn [settled fmap list_fmap foldr]. rewrite (pend_set_call id c c' v s Hg); [lia | done|].
    intros q. unfold is_waiting. by rewrite Hk.
  - intros Hno. by destruct (no_calls_get _ _ _ Hg).
Qed.

Lemma Total_terminate e b : Total unit (terminate e b).
Proof.
  intros s. rewrite terminate_eq. destruct (p_isClosed s); [done|].
  apply (comp_bind (Q := @Total RuntimePeer peer_effect)); [apply Total_closing|]. intros _.
  apply (comp_bind (Q := @Total RuntimePeer peer_effect)); [apply Total_fail_calls|]. intros _. by destruct b.
Qed.

Lemma Total_send bodies signal k : Total unit (send bodies signal k).
Proof. unfold send, schedule, add_job. compose. Qed.

Lemma buffered_ge id n c s : J id n s -> 0 <= n -> map_get id (calls (p_pending s)) = Some c ->
  is_stream c = true -> n <= bufferedResponseBytes c <= responseBytes (p_pending s).
Proof.
  intros H Hn Hg Hs. destruct (j_streams _ _ _ H _ _ Hg Hs) as (e & He & Hb).
  destruct (j_stream_ok _ _ _ H _ _ He) as (_ & _ & Ht). pose proof (total_nonneg (contents (buffered e))).
  rewrite held_eq in Hb. split; [lia|]. apply (response_ge _ id); [apply H | done].
Qed.

Lemma restoreCredit_from id n s : J id n s -> 0 <= n ->
  let '(r, s', out) := restoreCredit id n s in kept s out s' /\ r = Ret tt.
Proof.
  intros H Hn. unfold restoreCredit. rewrite bind_get. unfold pending_get.
  destruct (map_get id (calls (p_pending s))) as [c|] eqn:Hg.
  2: { split; [|done]. apply kept_of; [by eapply J_no_call | apply related_refl]. }
  destruct (n =? 0) eqn:E0.
  { bool_prop. subst. split; [|done]. apply kept_of; [by eapply J_zero | apply related_refl]. }
  unfold restoreResponseBytes.
  destruct ((n >? bufferedResponseBytes c) || (n >? responseBytes (p_pending s))) eqn:Eg.
  { destruct (is_stream c) eqn:Es.
    - pose proof (buffered_ge id n c s H Hn Hg Es). lia.
    - pose proof (Qp_terminate accounting_invalid true s) as HQ.
      destruct (Total_run _ s (Total_terminate accounting_invalid true)) as ([] & s1 & o1 & E1).
      rewrite E1 in *. split; [|done]. apply kept_of; [by eapply J_unary | exact HQ]. }
  bool_prop. rewrite bind_modify.
  set (c1 := mkPendingCall (pc_kind c) (bufferedResponseBytes c - n) (incomingCreditBytes c) (pc_requestBytes c)).
  destruct (is_ended c) eqn:Ee.
  - pose proof (restored_ok id n c c1 s H Hg ltac:(lia) eq_refl eq_refl eq_refl ltac:(congruence)) as K.
    cbn zeta in K. set (s1 := set_pending _ s) in *.
    case_if; [|by split].
    assert (Es : is_stream c1 = true) by (unfold is_ended, is_stream in *; cbn; by destruct (pc_kind c)).
    pose proof (take_stream id c1 s1 (map_get_set_eq _ _ _) Es) as Ht.
    destruct ((_ <- take_call id ;; ret tt)%eff s1) as [[r s2] o]. destruct Ht as [Ht ->].
    split; [|done]. by apply (kept_then s [] s1).
  - rewrite bind_modify. set (s1 := set_pending _ (set_pending _ s)).
    set (c2 := mkPendingCall (pc_kind c) (bufferedResponseBytes c - n)
      (Z.min INITIAL_CALL_CREDIT_BYTES (incomingCreditBytes c + n)) (pc_requestBytes c)).
    pose proof (restored_ok id n c c2 s H Hg ltac:(lia) eq_refl eq_refl eq_refl (fun _ => eq_refl)) as K.
    cbn zeta in K.
    assert (E1 : s1 = set_pending (mkPending (map_set id c2 (calls (p_pending s)))
      (responseBytes (p_pending s) - n) (requestBytes (p_pending s))) s).
    { unfold s1, set_credit, set_call. cbn [p_pending set_pending calls responseBytes requestBytes].
      rewrite map_get_set_eq. cbn [calls responseBytes requestBytes]. by rewrite map_set_twice. }
    rewrite E1. clear E1 s1. set (s1 := set_pending _ s) in *.
    pose proof (Qp_send (credit_bodies id n) None k_ignore s1) as HQ.
    destruct (Total_run _ s1 (Total_send (credit_bodies id n) None k_ignore)) as ([] & s2 & o2 & E2).
    rewrite E2 in *. split; [|done]. by apply (kept_then s [] s1).
Qed.
End safety.
