(* ===== verification/PeerStreams.v ===== *)
(** The streams of the peer and the frames of its calls: reading a stream, accepting a
    payload, ending and cancelling a call keep the invariant of the peer and settle the
    unary calls they remove. *)

From stdpp Require Import base list gmap.
From Stdlib Require Import ZArith Lia ZifyBool String.
From S2P Require Import Prelude JsText Json JsMap Effects RpcValues CallTables EventStream RpcFrame.
From S2P Require Import RpcSender PendingCalls DuplexRequests IncomingCalls IncomingSafety Peer PeerSafety.

Open Scope Z_scope.

#[local] Set Warnings "-clear-no-such-hyp".

Section streams.
Context {B : FrameBinary}.

#[local] Arguments R : simpl never.

#[local] Hint Resolve Qp_emit Qp_throw Qp_job Qp_abort Qp_send Qp_incoming_effect Qp_in_incoming Qp_stream_end
  Qp_close_duplex Qp_cleanup Qp_finishFailed Qp_settle_ready Qp_handshake_fail Qp_terminate Qp_cancel : effects.

(** ** Steps from a state where a stream is behind its call *)

(** [kept], without the invariant. *)
Definition steps (s : RuntimePeer) (out : list peer_effect) (s' : RuntimePeer) : Prop :=
  (forall p, PeerSafety.settled p out + pend p s' = pend p s) /\
  (no_calls s -> no_calls s') /\ (p_isClosed s' = true -> p_isClosed s = true \/ no_calls s').

Lemma steps_kept s o1 s1 o2 s2 : steps s o1 s1 -> kept s1 o2 s2 -> kept s (o1 ++ o2) s2.
Proof.
  intros (E1 & K1 & C1) (H2 & E2 & K2 & C2). split_and!; [exact H2 | | auto | ].
  - intros p. rewrite unary_settled_app. specialize (E1 p). specialize (E2 p). lia.
  - intros Hc. destruct (C2 Hc) as [Hc2|]; [|by right]. destruct (C1 Hc2) as [|]; [by left | right; auto].
Qed.

Lemma steps_same s s' : p_pending s' = p_pending s -> p_isClosed s' = p_isClosed s -> steps s [] s'.
Proof. intros Hp Hc. unfold steps, no_calls, pend. rewrite Hp, Hc. split_and!; [done | done | by left]. Qed.

(** From [kept] to [Q]. *)
Lemma related_from {A} (m : P A) s : (J 0 0 s -> let '(_, s', out) := m s in kept s out s') ->
  let '(_, s', out) := m s in related R s out s'.
Proof. destruct (m s) as [[r s'] out]. intros H. exact H. Qed.

Lemma Qp_from {A} (m : P A) : (forall s, J 0 0 s -> let '(_, s', out) := m s in kept s out s') -> Q A m.
Proof. intros H s. apply related_from, H. Qed.

Lemma kept_from_Q {A} (m : P A) s : Q A m -> J 0 0 s -> let '(_, s', out) := m s in kept s out s'.
Proof. intros HQ H. specialize (HQ s). destruct (m s) as [[r s'] out]. exact (HQ H). Qed.

Lemma kept_emit s out s' x : (forall p, is_settled p x = 0) -> kept s out s' -> kept s (out ++ [x]) s'.
Proof.
  intros Hx (H1 & H2 & H3). split; [exact H1|]. split; [|exact H3].
  intros p. rewrite unary_settled_app, unary_settled_cons, Hx. specialize (H2 p). cbn. lia.
Qed.

Lemma stream_ok_waiting q e : stream_ok e -> queue_ok q -> stream_ok (set_waiting q e).
Proof. intros (H1 & H2 & H3) Hq. by split_and!. Qed.

Lemma J_zero_at i s : J 0 0 s -> J i 0 s.
Proof.
  intros []. split; try done. intros j c Hc Hs. destruct (j_streams j c Hc Hs) as (e & He & Hb).
  exists e. by rewrite held_zero in *.
Qed.

(** Giving a stream another number of bytes. *)
Lemma J_stream_bytes id d j d' e s : J id d s -> stream_ok e ->
  (d = 0 \/ id = j) -> bufferedBytes e + d' = bufferedBytes (view (stream_of j) s) + held id d j ->
  J j d' (update (stream_of j) e s).
Proof.
  intros H He Hd Hb.
  assert (H' : J j (held id d j) s).
  { destruct Hd as [Hd | Hd]; subst; [rewrite held_zero; by eapply J_zero_at, J_zero | by rewrite held_eq]. }
  apply (J_set_stream j (held id d j) d' j e s H' He).
  - intros c Hc Hs. destruct (j_streams _ _ _ H' j c Hc Hs) as (x & Hx & E).
    revert Hb. cbn [view stream_of]. rewrite Hx. cbn [default]. rewrite held_eq in E. rewrite held_eq. cbn [from_option]. unfold Datatypes.id in *. lia.
  - intros k Hk. by rewrite !held_ne.
Qed.

Lemma stream_shift e : stream_ok e ->
  match queue_shift (buffered e) with
  | (Some v, q) => stream_ok (set_buffered q (bufferedBytes e - byteLength v) e)
  | (None, q) => True
  end.
Proof.
  intros (H1 & H2 & H3). destruct (queue_shift_spec _ H1) as [Hq Hc].
  destruct (queue_shift (buffered e)) as [[v|] q]; cbn [fst snd] in *; [|done].
  split_and!; [exact Hq | exact H2|]. cbn [bufferedBytes set_buffered buffered]. rewrite H3, Hc.
  unfold total. cbn [fmap list_fmap foldr contents]. lia.
Qed.

Lemma steps_stream id e s : steps s [] (update (stream_of id) e s).
Proof. by apply steps_same. Qed.

Lemma Qp_read_next id promise : Q unit (read_next id promise).
Proof.
  apply Qp_from. intros s H. unfold read_next, stream_next. rewrite bind_get.
  set (e := view (stream_of id) s). pose proof (view_ok 0 0 id s H) as He. fold e in He.
  pose proof (stream_shift e He) as Hs.
  destruct (queue_shift (buffered e)) as [[v|] q].
  - unfold assign. rewrite bind_modify. fold e.
    set (s1 := update (stream_of id) (set_buffered q (bufferedBytes e - byteLength v) e) s).
    assert (H1 : J id (byteLength v) s1).
    { apply (J_stream_bytes 0 0 id); [exact H | exact Hs | by left|]. fold e. rewrite held_zero. cbn. lia. }
    pose proof (restoreCredit_from id (byteLength v) s1 H1 (byteLength_nonneg v)) as Hr.
    unfold bind. destruct (restoreCredit id (byteLength v) s1) as [[r s2] o2]. destruct Hr as [Hr ->].
    cbn [emit]. apply kept_emit; [done|]. apply (steps_kept s [] s1); [by apply steps_same | exact Hr].
  - destruct (failure e); [by apply (Qp_emit (x_read _ _))|].
    case_if; [by apply (Qp_emit (x_read _ _))|].
    case_if; [by apply (Qp_emit (x_read _ _))|].
    unfold assign, modify. fold e. apply (kept_of _ _ _ H). apply R_update_stream; [done | | by left].
    intros _. apply stream_ok_waiting; [exact He|]. apply queue_push_spec, He.
Qed.

Lemma J_same_streams id d s s' : J id d s -> s' = s -> J id d s'.
Proof. by intros H ->. Qed.

(** The readers waiting on a stream are settled. *)
Lemma settle_waiting_from id r s : J 0 0 s ->
  let '(x, s', out) := settle_waiting (X := thrown) (stream_of id) x_read r s in kept s out s' /\ x = Ret tt.
Proof.
  intros H. rewrite settle_waiting_run. split; [|done]. apply (kept_of _ _ _ H).
  apply R_update_stream; [intros p; apply settled_reads | | by left].
  intros _. apply stream_ok_waiting; [by eapply view_ok | apply queue_ok_new].
Qed.

Lemma Qp_read_return id promise : Q unit (read_return id promise).
Proof.
  apply Qp_from. intros s H. unfold read_return, stream_return. rewrite bind_get.
  set (e := view (stream_of id) s). pose proof (view_ok 0 0 id s H) as He. fold e in He.
  unfold assign at 1. rewrite bind_modify. fold e.
  set (e1 := set_buffered _ _ _). set (s1 := update (stream_of id) e1 s).
  destruct He as (Hq1 & Hq2 & Ht).
  assert (H1 : J id (bufferedBytes e) s1).
  { apply (J_stream_bytes 0 0 id); [exact H | | by left | fold e; rewrite held_zero; cbn; lia].
    split_and!; [apply queue_ok_new | exact Hq2 | done]. }
  set (tail := (settle_waiting _ _ _ ;;; _)%eff).
  assert (Htail : forall s, J 0 0 s -> let '(_, s', out) := tail s in kept s out s').
  { intros s2 H2. unfold tail, bind. pose proof (settle_waiting_from id read_done s2 H2) as Hw.
    destruct (settle_waiting (stream_of id) x_read read_done s2) as [[x s3] o3]. destruct Hw as [Hw ->].
    case_if.
    - pose proof (Qp_cancel id (Some (js "Runtime stream consumer stopped")) StatusCode.CANCELLED (cw_return promise) s3) as Hc.
      unfold onCancel. destruct (cancel _ _ _ _ s3) as [[y s4] o4]. by apply (kept_then s2 o3 s3).
    - cbn [emit]. by apply kept_emit. }
  assert (Hend : forall o2 s2, kept s1 o2 s2 ->
    let '(_, s', out) := tail s2 in kept s (o2 ++ out) s').
  { intros o2 s2 Hk. specialize (Htail s2 (proj1 Hk)). destruct (tail s2) as [[y s3] o3].
    apply (kept_then s o2 s2); [|exact (fun _ => Htail)].
    apply (steps_kept s [] s1); [by apply steps_same | exact Hk]. }
  pose proof (total_nonneg (contents (buffered e))) as Hn.
  case_if; bool_prop.
  - unfold bind at 1. pose proof (restoreCredit_from id (bufferedBytes e) s1 H1 ltac:(lia)) as Hr.
    destruct (restoreCredit id (bufferedBytes e) s1) as [[r s2] o2]. destruct Hr as [Hr ->].
    specialize (Hend o2 s2 Hr). by destruct (tail s2) as [[y s3] o3].
  - unfold bind at 1, ret at 1. assert (Hz : J 0 0 s1).
    { replace (bufferedBytes e) with 0 in H1 by lia. by eapply J_zero. }
    specialize (Hend [] s1 (kept_of _ _ _ Hz (related_refl R s1))). by destruct (tail s1) as [[y s3] o3].
Qed.

(** ** Payloads *)

(** [n] bytes of the call [id] have been reserved, and not given to its stream yet. *)
Lemma reserved_ok id n c s : J 0 0 s -> map_get id (calls (p_pending s)) = Some c ->
  is_ended c = false -> 0 <= n <= incomingCreditBytes c ->
  fst (reserveResponseBytes id c n (p_pending s)) = true ->
  let s1 := set_pending (set_credit id (incomingCreditBytes c - n)
              (snd (reserveResponseBytes id c n (p_pending s)))) s in
  J id n s1 /\ steps s [] s1 /\
  map_get id (calls (p_pending s1)) =
    Some (mkPendingCall (pc_kind c) (bufferedResponseBytes c + n) (incomingCreditBytes c - n) (pc_requestBytes c)).
Proof.
  intros H Hg He Hn. pose proof (j_pending _ _ _ H) as Hp.
  destruct (po_calls _ Hp _ _ Hg) as (C1 & C2 & C3 & C4). specialize (C4 He).
  unfold reserveResponseBytes. case_if; [done|]. intros _. cbn [snd]. bool_prop.
  set (c' := mkPendingCall (pc_kind c) (bufferedResponseBytes c + n) (incomingCreditBytes c - n) (pc_requestBytes c)).
  unfold set_credit. cbn [calls responseBytes requestBytes]. rewrite map_get_set_eq. unfold set_call.
  cbn [calls responseBytes requestBytes pc_kind bufferedResponseBytes pc_requestBytes]. rewrite map_set_twice.
  fold c'. set (v := mkPending _ _ _).
  assert (Hended : is_ended c' = false) by done.
  assert (Hv : pending_ok v).
  { apply (pending_ok_moved (p_pending s) id c c' n Hp Hg); [|done|done|lia].
    unfold call_ok. rewrite Hended. cbn [c' bufferedResponseBytes pc_requestBytes incomingCreditBytes].
    split_and!; [lia | lia | lia | done | lia]. }
  unfold steps. split_and!.
  - apply (J_zero_at id) in H. apply (J_set_call id 0 n c c' v s H Hg Hv); [done | done |].
    intros _. cbn [c' bufferedResponseBytes]. lia.
  - intros p. cbn [PeerSafety.settled fmap list_fmap foldr]. rewrite (pend_set_call id c c' v s Hg); [lia | done | done].
  - intros Hno. by destruct (no_calls_get _ _ _ Hg).
  - by left.
  - cbn [v p_pending set_pending calls]. apply map_get_set_eq.
Qed.

Lemma stream_push_from id v s : J id (byteLength v) s ->
  let '(r, s', out) := stream_push (stream_of id) (restoreCredit id) x_read v s in
  match r with Ret true => kept s out s' | Ret false => s' = s /\ out = [] | Exn _ => False end.
Proof.
  intros H. pose proof (view_ok _ _ id s H) as He. unfold stream_push. rewrite bind_get.
  set (e := view (stream_of id) s) in *. case_if; [by split|].
  pose proof (queue_shift_spec _ (proj1 (proj2 He))) as [Hq _].
  destruct (queue_shift (waiting e)) as [[consumer|] q]; cbn [snd] in Hq.
  - unfold assign. rewrite bind_modify. fold e. set (s1 := update (stream_of id) _ s).
    assert (H1 : J id (byteLength v) s1).
    { apply J_update_stream; [exact H | by apply stream_ok_waiting | by left]. }
    pose proof (restoreCredit_from id (byteLength v) s1 H1 (byteLength_nonneg v)) as Hr.
    unfold bind at 1. destruct (restoreCredit id (byteLength v) s1) as [[r s2] o2]. destruct Hr as [Hr ->].
    unfold bind, emit, ret. cbn [app]. apply kept_emit; [done|].
    apply (steps_kept s [] s1); [by apply steps_same | exact Hr].
  - case_if; [by split|]. unfold assign. rewrite bind_modify. fold e. unfold ret.
    set (s1 := update (stream_of id) _ s). destruct He as (Hq1 & Hq2 & Ht). destruct (queue_push_spec v _ Hq1) as [Hpush Hcont].
    apply (steps_kept s [] s1 [] s1); [by apply steps_same|].
    apply kept_of; [|apply related_refl]. apply (J_zero id).
    apply (J_stream_bytes id (byteLength v) id); [exact H | | by right | fold e; rewrite held_eq; cbn; lia].
    split_and!; [exact Hpush | exact Hq2|]. cbn [set_buffered bufferedBytes buffered]. rewrite Hcont, Ht, total_app.
    unfold total. cbn [fmap list_fmap foldr]. lia.
Qed.

(** A payload that is accepted, one that is refused, and one that breaks the connection. *)
Definition payload_outcome (id : Z) (s : RuntimePeer) (r : outcome thrown (option (Z * jsstring)))
    (s' : RuntimePeer) (out : list peer_effect) : Prop :=
  match r with
  | Ret (Some _) => steps s out s' /\ exists d, J id d s' /\ map_get id (calls (p_pending s')) <> None
  | _ => kept s out s'
  end.

Lemma kept_refl s : J 0 0 s -> kept s [] s.
Proof. intros H. apply (kept_of _ _ _ H), related_refl. Qed.

Lemma push_payload_ok id data promise payloads b c r s : J 0 0 s ->
  map_get id (calls (p_pending s)) = Some (mkPendingCall (unary_call promise payloads) b c r) ->
  kept s [] (set_pending (push_payload id data (p_pending s)) s).
Proof.
  intros H Hg. unfold push_payload. rewrite Hg. unfold set_call.
  set (c' := mkPendingCall (unary_call promise (payloads ++ [data])) b c r).
  set (v := mkPending _ _ _). pose proof (j_pending _ _ _ H) as Hp.
  assert (Hv : pending_ok v).
  { unfold v. replace (responseBytes (p_pending s)) with (responseBytes (p_pending s) + 0) by lia.
    pose proof (po_response_max _ Hp).
    eapply pending_ok_moved; [exact Hp | exact Hg | exact (po_calls _ Hp _ _ Hg) | cbn; lia | done | lia]. }
  split_and!; [| | |by left].
  - by apply (J_zero id), (J_set_call id 0 0 _ c' v s (J_zero_at id s H) Hg Hv).
  - intros p. erewrite pend_set_call; [|exact Hg | done | done]. cbn. lia.
  - intros Hno. by destruct (no_calls_get _ _ _ Hg).
Qed.

Lemma acceptCallPayload_from id data s : J 0 0 s ->
  let '(r, s', out) := acceptCallPayload id data s in payload_outcome id s r s' out.
Proof.
  intros H. unfold acceptCallPayload. rewrite bind_get. unfold pending_get.
  destruct (map_get id (calls (p_pending s))) as [c|] eqn:Hg; [|repeat case_if; by apply kept_refl].
  case_if; [by apply kept_refl|]. case_if; [by apply kept_refl|]. bool_prop.
  pose proof (byteLength_nonneg data) as Hn.
  pose proof (reserved_ok id (byteLength data) c s H Hg E ltac:(lia)) as Hres.
  destruct (reserveResponseBytes id c (byteLength data) (p_pending s)) as [[] v]; cbn [fst snd] in Hres.
  2: { cbn [ret payload_outcome]. split; [by apply steps_same|]. exists 0. split; [by apply J_zero_at | congruence]. }
  specialize (Hres eq_refl) as (H1 & S1 & Hg1). rewrite bind_modify.
  set (s1 := set_pending (set_credit id (incomingCreditBytes c - byteLength data) v) s) in *.
  destruct (pc_kind c) as [promise payloads|ended] eqn:Ek.
  - assert (H0 : J 0 0 s1) by (eapply J_unary; [exact H1 | exact Hg1 | done]).
    case_if; [apply (steps_kept s [] s1 [] s1); [exact S1 | by apply kept_refl]|].
    rewrite bind_modify. unfold ret. cbn [payload_outcome].
    apply (steps_kept s [] s1 [] (set_pending (push_payload id data (p_pending s1)) s1)); [exact S1|]. by eapply push_payload_ok.
  - pose proof (stream_push_from id data s1 H1) as Hpush. unfold bind at 1.
    destruct (stream_push (stream_of id) (restoreCredit id) x_read data s1) as [[[[]|x] s2] o2]; [| |done].
    + cbn [ret payload_outcome]. rewrite app_nil_r. by apply (steps_kept s [] s1).
    + destruct Hpush as [-> ->]. cbn [ret payload_outcome app]. split; [exact S1|].
      exists (byteLength data). split; [exact H1 | by rewrite Hg1].
Qed.

Lemma Qp_acceptPayload id data : Q unit (acceptPayload id data).
Proof.
  unfold acceptPayload. case_if; [apply Qp_in_incoming, Qi_payload|].
  apply Qp_from. intros s H. pose proof (acceptCallPayload_from id data s H) as Ha. unfold bind.
  destruct (acceptCallPayload id data s) as [[[[[code reason]|]|x] s1] o1]; cbn [payload_outcome] in Ha.
  - destruct Ha as (S1 & d & H1 & Hg).
    pose proof (cancel_from id id d (Some reason) code cw_none s1 H1 (or_introl eq_refl) (or_introl Hg)) as Hc.
    destruct (cancel id (Some reason) code cw_none s1) as [[r s2] o2]. destruct Hc as [Hc _].
    by apply (steps_kept s o1 s1).
  - cbn [ret]. by rewrite app_nil_r.
  - exact Ha.
Qed.

(** ** The end of a call *)

(** A call that has been taken is settled with its result. *)
Lemma complete_taken id c status s s1 : map_get id (calls (p_pending s)) = Some c -> J 0 0 s ->
  related R (taken id s) [] s1 -> p_pending s1 = p_pending (taken id s) ->
  let '(_, s', out) := completePendingCall id c status s1 in kept s out s'.
Proof.
  intros Hg H H1 Hp1. unfold completePendingCall. destruct (statusError status) as [e|].
  { pose proof (fail_taken id 0 0 c e s s1 Hg H (or_intror eq_refl) H1 Hp1) as Hf.
    destruct (failPendingCall id c e s1) as [[r s2] o2]. destruct Hf as (F1 & F2 & F3 & F4 & _).
    by split_and!. }
  destruct (H1 (J_taken id 0 0 s H (or_intror eq_refl))) as (J1 & E1 & K1 & C1).
  assert (Hs : forall out, (forall p, PeerSafety.settled p out = is_waiting p c) -> kept s out s1).
  { intros out Ho. split_and!; [exact J1 | | | exact C1].
    - intros p. specialize (E1 p). rewrite pend_taken, Hg in E1. rewrite Ho. cbn in E1. lia.
    - intros Hn. apply K1, no_calls_taken, Hn. }
  unfold is_waiting in Hs. destruct (pc_kind c) as [promise [|data [|]]|ended]; try (apply Hs; intros p; cbn; lia).
  pose proof (Qp_stream_end id s1) as H2. destruct (stream_end (stream_of id) x_read s1) as [[r s2] o2].
  apply (kept_then s [] s1); [by apply Hs | exact H2].
Qed.

Lemma Qp_finish_unknown id message : Q unit (finish_unknown id message).
Proof.
  apply Qp_from. intros s H. unfold finish_unknown. rewrite bind_get.
  destruct (cancelled_delete id (p_cancelled s)) as [deleted remembered]. rewrite bind_modify.
  case_if; cbn [ret throw]; apply (kept_of _ _ _ H); (apply R_simple; [done | done | done | apply J_set_cancelled]).
Qed.

Lemma Qp_take_complete id c status s : map_get id (calls (p_pending s)) = Some c -> J 0 0 s ->
  let '(_, s', out) := (_ <- take_call id ;; completePendingCall id c status)%eff s in kept s out s'.
Proof.
  intros Hg H. pose proof (take_call_spec id s) as Ht. unfold bind.
  destruct (take_call id s) as [[r1 s1] o1]. destruct Ht as (x & -> & _ & H1 & Hp1 & -> & _).
  pose proof (complete_taken id c status s s1 Hg H H1 Hp1) as Hc.
  by destruct (completePendingCall id c status s1) as [[r s2] o2].
Qed.

(** A stream whose end has been received keeps its bytes until they are read. *)
Lemma markStreamEnded_ok id c s : J 0 0 s -> map_get id (calls (p_pending s)) = Some c ->
  pc_kind c = stream_call false ->
  let s1 := set_pending (snd (markStreamEnded id c (p_pending s))) s in
  kept s [] s1 /\ exists c1, map_get id (calls (p_pending s1)) = Some c1 /\ is_stream c1 = true.
Proof.
  intros H Hg Hk. pose proof (pending_ok_ended _ id c (j_pending _ _ _ H) Hg) as Hv.
  unfold markStreamEnded in *. rewrite Hk in *. cbn [snd] in *.
  set (c' := mkPendingCall (stream_call true) _ _ _) in *. set (v := mkPending _ _ _) in *.
  split; [|exists c'; by rewrite <- (map_get_set_eq id c' (calls (p_pending s)))].
  split_and!; [| | | by left].
  - apply (J_zero id), (J_set_call id 0 0 c c' v s (J_zero_at id s H) Hg Hv); [done | unfold is_stream; by rewrite Hk |].
    intros _. cbn. lia.
  - intros p. rewrite (pend_set_call id c c' v s Hg); [done | done|].
    intros q. unfold is_waiting. by rewrite Hk.
  - intros Hno. by destruct (no_calls_get _ _ _ Hg).
Qed.

(** Steps that keep the calls. *)
Lemma Same_finish id c : Same unit (cleanup id c ;;; abort id AbortError ;;; stream_end (stream_of id) x_read)%eff.
Proof.
  apply comp_bind; [|intros _; apply comp_bind; [apply Same_abort|]].
  - unfold cleanup. apply comp_bind; [by apply Same_modify|]. intros _.
    destruct (pc_kind c); [apply comp_ret | by apply Same_modify].
  - intros _ s. unfold stream_end, assign. rewrite bind_modify, settle_waiting_run. done.
Qed.

Lemma Total_finish id c : Total unit (cleanup id c ;;; abort id AbortError ;;; stream_end (stream_of id) x_read)%eff.
Proof. unfold cleanup, abort, stream_end, settle_waiting, assign. compose; done. Qed.

Lemma finish_stream id c s : J 0 0 s -> map_get id (calls (p_pending s)) = Some c ->
  pc_kind c = stream_call false ->
  let '(_, s', out) :=
    (modify (set_pending (snd (markStreamEnded id c (p_pending s)))) ;;;
     (cleanup id c ;;; abort id AbortError ;;; stream_end (stream_of id) x_read) ;;;
     if bufferedResponseBytes c =? 0 then _ <- take_call id ;; ret tt else ret tt)%eff s in kept s out s'.
Proof.
  intros H Hg Hk. destruct (markStreamEnded_ok id c s H Hg Hk) as (K1 & c1 & Hg1 & Hs1).
  rewrite bind_modify. set (s1 := set_pending _ s) in *.
  set (m := (cleanup id c ;;; _)%eff).
  assert (HQ : Q unit m).
  { apply comp_bind; [auto with effects|]. intros _. apply comp_bind; auto with effects. }
  destruct (Total_run m s1 (Total_finish id c)) as ([] & s2 & o2 & E2).
  specialize (HQ s1). pose proof (Same_finish id c s1) as Hsame. fold m in Hsame.
  unfold bind at 1. rewrite E2 in *. cbn [same_pending related] in Hsame.
  case_if; [|cbn [ret]; rewrite app_nil_r; by apply (kept_then s [] s1)].
  rewrite <- Hsame in Hg1. pose proof (take_stream id c1 s2 Hg1 Hs1) as Ht.
  destruct ((_ <- take_call id ;; ret tt)%eff s2) as [[r s3] o3]. destruct Ht as [Ht _].
  by apply (kept_then s o2 s2); [apply (kept_then s [] s1)|].
Qed.

Lemma Qp_finishCall id status : Q unit (finishCall id status).
Proof.
  unfold finishCall. apply comp_bind; [apply Qp_close_duplex|]. intros _.
  case_if; [apply Qp_in_incoming, Qi_endRequest|].
  apply Qp_from. intros s H. rewrite bind_get. unfold pending_get.
  destruct (map_get id (calls (p_pending s))) as [c|] eqn:Hg; [|apply (kept_from_Q _ s (Qp_finish_unknown _ _)), H].
  pose proof (Qp_take_complete id c status s Hg H) as Hc.
  destruct (pc_kind c) as [promise payloads|ended] eqn:Hk; [exact Hc|].
  destruct (statusError status); [exact Hc|].
  destruct ended; [unfold markStreamEnded; rewrite Hk; by apply kept_refl|].
  pose proof (finish_stream id c s H Hg Hk) as Hf.
  unfold markStreamEnded in *. rewrite Hk in *. cbn [snd] in Hf. rewrite bind_modify in *.
  rewrite (bind_ext _ _ _ _ (fun _ s => eq_sym (bind_assoc _ _ _ s))), <- bind_assoc. exact Hf.
Qed.

Lemma Qp_finishCancelled id status : Q unit (finishCancelled id status).
Proof.
  unfold finishCancelled. case_if; [apply Qp_in_incoming, Qi_cancel|].
  apply Qp_from. intros s H. pose proof (take_call_spec id s) as Ht. unfold bind.
  destruct (take_call id s) as [[r1 s1] o1]. destruct Ht as (x & -> & Hx & H1 & Hp1 & -> & Hsame).
  destruct x as [c|]; symmetry in Hx.
  - pose proof (fail_taken id 0 0 c (default (newRuntimeProtocolError StatusCode.CANCELLED
      (js "Runtime call cancelled")) (statusError status)) s s1 Hx H (or_intror eq_refl) H1 Hp1) as Hf.
    destruct (failPendingCall _ _ _ s1) as [[r s2] o2]. destruct Hf as (F1 & F2 & F3 & F4 & _).
    by split_and!.
  - rewrite Hsame by done. pose proof (kept_from_Q _ s (Qp_finish_unknown id (js "Cancel addressed an unknown call")) H) as Hu.
    by destruct (finish_unknown _ _ s) as [[r s2] o2].
Qed.
End streams.
