(* ===== verification/PeerRuns.v ===== *)
(** The peer over any run of events: frames received, calls started, streams read,
    timers, signals and settled promises.  Two theorems: the accounting of the peer, and
    the settling of its unary calls. *)

From stdpp Require Import base list gmap.
From Stdlib Require Import ZArith Lia ZifyBool String SpecFloat.
From S2P Require Import Prelude JsText Json JsMap Effects RpcValues CallTables EventStream RpcFrame.
From S2P Require Import RpcSender RpcLink PendingCalls DuplexRequests IncomingCalls IncomingSafety Peer.
From S2P Require Import PeerSafety PeerStreams.

Open Scope Z_scope.

#[local] Set Warnings "-clear-no-such-hyp".

Section runs.
Context {B : FrameBinary}.

#[local] Arguments R : simpl never.

#[local] Hint Resolve Qp_emit Qp_throw Qp_job Qp_abort Qp_send Qp_incoming_effect Qp_in_incoming Qp_stream_end
  Qp_close_duplex Qp_cleanup Qp_finishFailed Qp_settle_ready Qp_handshake_fail Qp_terminate Qp_cancel
  Qp_read_next Qp_read_return Qp_acceptPayload Qp_finishCall Qp_finishCancelled Total_emit Total_modify : effects.

(** ** Frames *)

Lemma Qp_set_sender f : (forall s, sender_ok s -> sender_ok (f s)) ->
  Q unit (modify (fun s => set_sender (f (p_sender s)) s)).
Proof. intros Hf. apply Qp_modify; try done. intros s H. apply J_set_sender; [exact H | apply Hf, H]. Qed.

Lemma requests_update id n j v : map_get j (requests (snd (duplex_update id n v))) <> None ->
  map_get j (requests v) <> None.
Proof.
  unfold duplex_update. destruct (live_request id v) as [r|] eqn:E; [|done].
  apply live_request_get in E as [E _]. case_if; [done|]. cbn [snd set_request requests].
  rewrite map_get_set. case_decide as Ej; [subst; congruence | done].
Qed.

Lemma Qp_updateCredit id n : 0 <= n -> Q unit (updateCredit id n).
Proof.
  intros Hn. unfold updateCredit. case_if; [by apply Qp_in_incoming, Qi_addCredit|].
  apply Qp_from. intros s H. rewrite bind_get.
  assert (H1 : J 0 0 (set_duplex (snd (duplex_update id n (p_duplexRequests s))) s)).
  { apply J_set_duplex; [exact H | apply duplex_ok_update, H | intros j; apply requests_update]. }
  destruct (duplex_update id n (p_duplexRequests s)) as [[updated|e] v]; cbn [snd] in H1; [|by apply kept_refl].
  rewrite bind_modify. case_if; cbn [ret throw]; apply (kept_of _ _ _ H); by apply R_simple.
Qed.

(** The handshake is accepted before any reverse call. *)
Lemma handshake_accept_from w s : J 0 0 s ->
  let '(r, s', out) := handshake_accept w s in
  kept s out s' /\ (r = Ret tt -> in_calls (p_incoming s') = []).
Proof.
  intros H. unfold handshake_accept. rewrite bind_get.
  destruct (decide (hs_welcome (p_handshake s) = None)) as [Hw|Hw];
    [|rewrite bool_decide_true by exact Hw; split; [by apply kept_refl | done]].
  pose proof (j_handshake _ _ _ H Hw) as Hin.
  case_if; [split; [by apply kept_refl | done]|]. clear E.
  rewrite !bind_modify. set (s1 := set_sender _ _).
  assert (H1 : related R s [] s1).
  { apply R_simple; try done. intros _. apply J_set_sender; [|apply sender_ok_configure, H].
    apply J_set_receiver, J_set_handshake; [exact H | done]. }
  unfold settle_ready. rewrite bind_assoc, bind_get, bind_assoc, bind_modify. set (s2 := set_handshake _ s1).
  assert (H2 : related R s [] s2).
  { apply (related_trans R s [] s1 [] s2); [exact H1 | by apply R_set_handshake]. }
  set (m := (_ ;;; _)%eff).
  assert (HQ : Q unit m).
  { apply comp_bind; [destruct (hs_awaiting _); [apply Qp_job | apply comp_ret]|]. intros _.
    apply (Qp_set_sender (keepAlive _)). intros v. apply sender_ok_keepAlive. }
  pose proof (HQ s2) as H3.
  assert (Hsame : p_incoming (run_state (m s2)) = p_incoming s2).
  { unfold m. by destruct (hs_awaiting _). }
  destruct (m s2) as [[r s3] o3]. cbn [run_state fst snd] in Hsame.
  split; [|intros _; by rewrite Hsame].
  apply (kept_then s [] s2); [by apply (kept_of _ _ _ H) | exact H3].
Qed.

Definition body_ok (b : FrameBody) : bool :=
  match b with fb_windowUpdate _ creditBytes => 0 <=? creditBytes | _ => true end.

Lemma Qp_handleFrame f : body_ok (fr_body f) = true -> Q unit (handleFrame f).
Proof.
  intros Hf. apply Qp_read. intros s. apply at_state. case_if; [apply related_refl|].
  destruct (fr_body f) as [info|w|start|id data|id status|id status|id n|nonce|nonce|status|] eqn:Eb;
    try apply related_refl.
  - apply (related_from (handshake_accept w ;;; in_incoming (configure (wl_initialCallCreditBytes w)))%eff s).
    intros H. pose proof (handshake_accept_from w s H) as Ha. unfold bind.
    destruct (handshake_accept w s) as [[[[]|e] s1] o1]; destruct Ha as [K1 Hin]; [|exact K1].
    specialize (Hin eq_refl).
    pose proof (Qp_in_incoming_from (configure (wl_initialCallCreditBytes w)) s1) as Hc.
    destruct (in_incoming (configure (wl_initialCallCreditBytes w)) s1) as [[r s2] o2].
    apply (kept_then s o1 s1); [exact K1 | apply Hc]. intros Hok.
    pose proof (configure_ok (wl_initialCallCreditBytes w) (p_incoming s1) Hok Hin) as Hconf.
    destruct (configure _ (p_incoming s1)) as [[r' v] o']. by destruct Hconf as (? & ? & _).
  - apply Qp_in_incoming_from. intros Hok.
    pose proof (incoming_start_ok (p_handlers s) start (hs_welcome (p_handshake s)) (p_incoming s) Hok) as Hs.
    destruct (incoming_start _ _ _ (p_incoming s)) as [[r v] o]. destruct Hs as [Hv _]. split; [exact Hv|].
    intros Hw. cbn [opens_connection negb] in E. rewrite Hw, bool_decide_true in E by done. discriminate.
  - apply Qp_acceptPayload.
  - apply Qp_finishCall.
  - apply Qp_finishCancelled.
  - cbn [body_ok] in Hf. apply Qp_updateCredit. lia.
  - apply Qp_send.
  - pose proof (fun H => sender_ok_pong nonce (p_sender s) (j_sender 0 0 s H)) as Hs.
    destruct (acceptPong nonce (p_sender s)) as [[x|e] v]; cbn [snd] in Hs; [|apply related_refl].
    apply R_simple; try done. intros H. apply J_set_sender; [exact H | by apply Hs].
  - apply Qp_terminate.
Qed.

(** The frame received has a credit that is not negative: it is an unsigned field. *)
Definition received_ok (bs : bytes) : bool :=
  match decodeProtocolFrame bs with
  | Ret (Some frame) => body_ok (fr_body frame)
  | _ => true
  end.

Lemma receive_decoded bs r frame r' : receive bs r = (Ret (Some frame), r') ->
  decodeProtocolFrame bs = Ret (Some frame).
Proof.
  unfold receive. case_if; [by case_if|].
  destruct (decodeProtocolFrame bs) as [[f|]|e]; try done. case_if; [done|]. intros H. by injection H as -> _.
Qed.

Lemma Qp_rescue {A} (m : P A) h : Q A m -> (forall x, Q A (h x)) -> Q A (rescue m h).
Proof.
  intros Hm Hh s. unfold rescue. specialize (Hm s). destruct (m s) as [[[a|x] s1] o1]; [exact Hm|].
  specialize (Hh x s1). destruct (h x s1) as [[r s2] o2]. by apply (related_trans R s o1 s1).
Qed.

Lemma Qp_receive bs : received_ok bs = true -> Q bool (peer_receive bs).
Proof.
  intros Hb. unfold peer_receive. apply comp_bind; [apply comp_get|]. intros s.
  case_if; [apply comp_ret|]. apply Qp_rescue.
  - destruct (receive bs (p_receiver s)) as [[[f|]|e] r] eqn:Er; [|apply comp_ret | apply Qp_throw].
    unfold received_ok in Hb. rewrite (receive_decoded _ _ _ _ Er) in Hb.
    apply comp_bind; [|intros _; apply comp_bind; [by apply Qp_handleFrame | intros _; apply comp_ret]].
    apply Qp_modify; try done. intros x. apply J_set_receiver.
  - intros x. apply comp_bind; [apply Qp_terminate | intros _; apply comp_ret].
Qed.

(** ** Calls *)

(** The id of a call that is starting. *)
Record admitted (id : Z) (s : RuntimePeer) : Prop := {
  ad_call : map_get id (calls (p_pending s)) = None;
  ad_request : map_get id (requests (p_duplexRequests s)) = None;
  ad_size : pending_size (p_pending s) < MAX_PENDING_CALLS;
  ad_open : p_isClosed s = false;
  ad_known : forall n, 0 <= n <= 2 ^ 63 -> p_callIds s = allocated n -> id <= 2 * n - 1
}.

Lemma allocated_inj n m : 0 <= n <= 2 ^ 63 -> 0 <= m <= 2 ^ 63 -> allocated n = allocated m -> n = m.
Proof.
  intros Hn Hm H. unfold allocated in H. injection H. repeat case_if; bool_prop; lia.
Qed.

Lemma admit_call_from call s : J 0 0 s ->
  let '(r, s1, out) := admit_call call s in
  out = [] /\ J 0 0 s1 /\ p_pending s1 = p_pending s /\ p_isClosed s1 = p_isClosed s /\
  (forall id, r = Ret id -> admitted id s1).
Proof.
  intros H. unfold admit_call. rewrite bind_get. unfold guard.
  destruct (ensureCallDestination _ _); [by split_and!|].
  unfold ensureCallAdmission. destruct (p_isClosed s) eqn:Ec; [by split_and!|].
  destruct (bool_decide _); [|by split_and!]. cbn [negb].
  destruct (pending_size (p_pending s) >=? MAX_PENDING_CALLS) eqn:Es; [by split_and!|]. bool_prop.
  unfold bind at 1, ret at 1. unfold bind at 1, ret at 1.
  destruct (j_ids _ _ _ H) as (n & Hn & Ha & Hk & Hd). rewrite Ha, allocate_spec by lia.
  destruct (n <? 2 ^ 63) eqn:En; bool_prop; cbn [lift]; unfold bind, modify, ret, throw; cbn [app].
  - split_and!; [done | | done | done |].
    + destruct H. split; try done. exists (n + 1). split_and!; [lia | lia | done | |];
        intros j Hj; [specialize (Hk j Hj) | specialize (Hd j Hj)]; cbn in *; lia.
    + intros id Hid. injection Hid as <-. split; cbn [p_pending p_duplexRequests p_isClosed p_callIds set_callIds].
      * destruct (map_get _ (calls (p_pending s))) eqn:E; [|done].
        specialize (Hk (2 * n + 1) ltac:(congruence)). lia.
      * destruct (map_get _ (requests (p_duplexRequests s))) eqn:E; [|done].
        specialize (Hd (2 * n + 1) ltac:(congruence)). lia.
      * lia.
      * exact Ec.
      * intros m Hm E. apply allocated_inj in E; lia.
  - split_and!; [done | | done | done | done]. destruct H. split; try done. by exists n.
Qed.

(** The call is added, its request reserved. *)
Lemma J_started id c n s : J 0 0 s -> admitted id s -> 0 <= n ->
  fst (reserveRequestBytes n (p_pending s)) = None ->
  c = mkPendingCall (pc_kind c) 0 INITIAL_CALL_CREDIT_BYTES n -> is_ended c = false ->
  (is_stream c = true -> bufferedBytes (view (stream_of id) s) = 0 /\ p_streams s !! id <> None) ->
  let s1 := set_pending (pending_add id c (snd (reserveRequestBytes n (p_pending s)))) s in
  J 0 0 s1 /\ (forall p, pend p s1 = pend p s + is_waiting p c).
Proof.
  intros H [Hc Hr Hsize Ho Hknown] Hn Hres Ec He Hst s1.
  assert (Hcalls : calls (p_pending s1) = map_set id c (calls (p_pending s))).
  { unfold s1, reserveRequestBytes in *. case_if; [discriminate | done]. }
  split.
  - destruct H as [H1 H2 H3 H4 H5 H6 H7 H8 (m & Hm & Ha & Hk & Hd)]. split; try done.
    + apply pending_ok_started; try done; by rewrite Ec.
    + unfold pending_size in *. rewrite Hcalls, map_set_length_new by done. lia.
    + intros j x. rewrite Hcalls, map_get_set. case_decide as Ej; [|apply H3]. intros Hx Hs.
      injection Hx as <-. subst j. destruct (Hst Hs) as [Hb He']. cbn [view stream_of] in Hb.
      change (p_streams s1) with (p_streams s). destruct (p_streams s !! id) as [e|]; [|done].
      exists e. split; [done|]. rewrite held_zero, Ec. cbn in *. lia.
    + exists m. split_and!; try done; try lia. intros j. rewrite Hcalls, map_get_set.
      case_decide as Ej; [|apply Hk]. intros _. subst j. by apply Hknown.
  - intros p. unfold pend. rewrite Hcalls, map_sum_set_new by done. lia.
Qed.

(** A step that starts at most the unary call of [promise]. *)
Definition starts (promise : option Z) (p : Z) : Z :=
  match promise with Some q => if q =? p then 1 else 0 | None => 0 end.

Definition progress (promise : option Z) (s : RuntimePeer) (out : list peer_effect) (s' : RuntimePeer) : Prop :=
  J 0 0 s' /\ (forall p, PeerSafety.settled p out + pend p s' = pend p s + starts promise p) /\
  ((p_isClosed s = true -> no_calls s) -> p_isClosed s' = true -> no_calls s').

Lemma progress_kept s out s' : kept s out s' -> progress None s out s'.
Proof.
  intros (H1 & H2 & H3 & H4). split_and!; [exact H1 | |].
  - intros p. rewrite H2. cbn. lia.
  - intros Hs Hc. destruct (H4 Hc); auto.
Qed.

Lemma progress_then q s o1 s1 o2 s2 : progress q s o1 s1 -> kept s1 o2 s2 -> progress q s (o1 ++ o2) s2.
Proof.
  intros (H1 & E1 & C1) (H2 & E2 & N2 & C2). split_and!; [exact H2 | |].
  - intros p. rewrite unary_settled_app. specialize (E1 p). specialize (E2 p). lia.
  - intros Hs Hc. destruct (C2 Hc); auto.
Qed.

(** A step before it that leaves the calls. *)
Lemma progress_before q s s1 out s' : p_pending s1 = p_pending s -> p_isClosed s1 = p_isClosed s ->
  progress q s1 out s' -> progress q s out s'.
Proof.
  intros Hp Hc (H1 & E1 & C1). unfold progress, no_calls, pend in *. rewrite Hp, Hc in *. done.
Qed.

Lemma Qp_start_call id call t d k : Q unit (start_call id call t d k).
Proof. apply Qp_schedule. intros s. apply sender_ok_start. Qed.

Lemma Total_start_call id call t d k : Total unit (start_call id call t d k).
Proof. unfold start_call, schedule, add_job. compose. Qed.

(** What is left of [admitted] once the call has been added. *)
Record admitted_request (id : Z) (s : RuntimePeer) : Prop := {
  ar_request : map_get id (requests (p_duplexRequests s)) = None;
  ar_known : forall n, 0 <= n <= 2 ^ 63 -> p_callIds s = allocated n -> id <= 2 * n - 1
}.

Lemma progress_refl s : J 0 0 s -> progress None s [] s.
Proof. intros H. by apply progress_kept, kept_refl. Qed.

(** The id and the timeout of a call, then the rest of its start; [f] is what the rest
    starts. *)
Lemma admitted_then {A} call fallback (f : outcome thrown A -> option Z) (k : Z -> Z -> P A) s :
  J 0 0 s -> (forall e, f (Exn e) = None) ->
  (forall id t s1, J 0 0 s1 -> admitted id s1 -> let '(r, s', out) := k id t s1 in progress (f r) s1 out s') ->
  let '(r, s', out) :=
    (callId <- admit_call call ;; t <- createCallLifecycle callId call fallback ;; k callId t)%eff s in
  progress (f r) s out s'.
Proof.
  intros H Hf Hk. pose proof (admit_call_from call s H) as Ha. unfold bind at 1.
  destruct (admit_call call s) as [[[id|e] s1] o1]; destruct Ha as (-> & H1 & Hp & Hc & Had).
  2: { rewrite Hf. apply (progress_before _ s s1); [done | done | by apply progress_refl]. }
  specialize (Had id eq_refl). unfold createCallLifecycle. rewrite bind_assoc.
  destruct (boundedTimeout (rc_timeoutMs call) fallback) as [t|e]; cbn [lift].
  2: { unfold bind, throw. cbn [app]. rewrite Hf. apply (progress_before _ s s1); [done | done | by apply progress_refl]. }
  unfold bind at 1, ret at 1. rewrite bind_assoc, bind_modify. unfold bind, ret. cbn [app].
  set (s2 := set_lifecycles _ s1). specialize (Hk id t s2 (J_set_lifecycles _ _ _ _ H1)).
  assert (Had2 : admitted id s2) by (by destruct Had).
  specialize (Hk Had2). destruct (k id t s2) as [[r s3] o3].
  by apply (progress_before _ s s2).
Qed.

Lemma reserved_then {A} id call (f : outcome thrown A -> option Z) (k : P A) s :
  J 0 0 s -> (forall e, f (Exn e) = None) ->
  (fst (reserveRequestBytes (byteLength (rc_payload call)) (p_pending s)) = None ->
   let '(r, s', out) :=
     k (set_pending (snd (reserveRequestBytes (byteLength (rc_payload call)) (p_pending s))) s) in
   progress (f r) s out s') ->
  let '(r, s', out) := (reserve_request id call ;;; k)%eff s in progress (f r) s out s'.
Proof.
  intros H Hf Hk. unfold reserve_request. rewrite bind_assoc, bind_get.
  destruct (reserveRequestBytes _ (p_pending s)) as [[e|] v]; cbn [fst snd] in Hk.
  - rewrite bind_assoc, bind_modify. set (s1 := set_lifecycles _ s).
    pose proof (kept_from_Q (abort id e) s1 (Qp_abort id e) (J_set_lifecycles _ _ _ _ H)) as Ha.
    unfold abort, bind, modify, throw in *. cbn [app]. rewrite Hf. apply progress_kept.
    by apply (kept_before s s1).
  - specialize (Hk eq_refl). rewrite bind_modify. exact Hk.
Qed.

(** The call is added, and then steps that start nothing. *)
Lemma added_then id call kind (f : outcome thrown unit -> option Z) (k : P unit) q s : J 0 0 s -> admitted id s ->
  fst (reserveRequestBytes (byteLength (rc_payload call)) (p_pending s)) = None ->
  match kind with
  | unary_call promise _ => q = Some promise
  | stream_call remote => q = None /\ remote = false /\ bufferedBytes (view (stream_of id) s) = 0 /\ p_streams s !! id <> None
  end ->
  (forall s1, J 0 0 s1 -> admitted_request id s1 -> let '(r, s', out) := k s1 in kept s1 out s' /\ f r = q) ->
  let '(r, s', out) := (add_call id kind call ;;; k)%eff
      (set_pending (snd (reserveRequestBytes (byteLength (rc_payload call)) (p_pending s))) s) in
  progress (f r) s out s'.
Proof.
  intros H Had Hres Hkind Hk. unfold add_call. rewrite bind_modify.
  set (c := mkPendingCall kind 0 INITIAL_CALL_CREDIT_BYTES (byteLength (rc_payload call))).
  destruct (J_started id c (byteLength (rc_payload call)) s H Had ltac:(apply byteLength_nonneg) Hres eq_refl)
    as [H1 Hp]; [destruct kind; [done | by destruct Hkind as (_ & -> & _)] |
                 destruct kind; [done | by intros _; destruct Hkind as (_ & _ & ? & ?)] |].
  set (s1 := set_pending _ (set_pending _ s)).
  change (set_pending (pending_add id c _) s) with s1 in H1, Hp.
  assert (Hr : admitted_request id s1) by (destruct Had; by split).
  specialize (Hk s1 H1 Hr). destruct (k s1) as [[r s'] out]. destruct Hk as [(K1 & K2 & K3 & K4) ->].
  split_and!; [exact K1 | |].
  - intros p. rewrite K2, Hp. unfold is_waiting. cbn [c pc_kind].
    destruct kind; [by subst q | destruct Hkind as (-> & _); cbn; lia].
  - intros _ Hc. destruct (K4 Hc) as [Hc'|]; [|done]. pose proof (ad_open _ _ Had). unfold s1 in Hc'. cbn in Hc'. congruence.
Qed.

Definition unary_body (call : RuntimeCall) (promise callId timeoutMs : Z) : P unit :=
  (reserve_request callId call ;;;
   add_call callId (unary_call promise []) call ;;;
   match signal_aborted call with
   | Some reason => finishFailed callId reason
   | None => start_call callId call timeoutMs false (k_unary callId)
   end)%eff.

Lemma finishFailed_total id e s : J 0 0 s ->
  let '(r, s', out) := finishFailed id e s in kept s out s' /\ r = Ret tt.
Proof.
  intros H. pose proof (kept_from_Q _ s (Qp_finishFailed id e) H) as HQ.
  pose proof (finishFailed_from id 0 0 e s H (or_intror eq_refl)) as Hr.
  destruct (finishFailed id e s) as [[r s1] o1]. destruct Hr as (_ & _ & _ & _ & -> & _). by split.
Qed.

Lemma start_call_total id call t d k s : J 0 0 s ->
  let '(r, s', out) := start_call id call t d k s in kept s out s' /\ r = Ret tt.
Proof.
  intros H. pose proof (kept_from_Q _ s (Qp_start_call id call t d k) H) as HQ.
  destruct (Total_run _ s (Total_start_call id call t d k)) as ([] & s1 & o1 & E1). rewrite E1 in *. by split.
Qed.

Definition started_unary (promise : Z) (r : outcome thrown unit) : option Z :=
  match r with Ret _ => Some promise | Exn _ => None end.

Lemma unary_body_from call promise id t s : J 0 0 s -> admitted id s ->
  let '(r, s', out) := unary_body call promise id t s in progress (started_unary promise r) s out s'.
Proof.
  intros H Had. unfold unary_body. apply reserved_then; [exact H | done|]. intros Hres.
  apply (added_then id call (unary_call promise []) (started_unary promise) _ (Some promise) s H Had Hres eq_refl).
  intros s1 H1 _. destruct (signal_aborted call) as [reason|].
  - pose proof (finishFailed_total id reason s1 H1) as Hf.
    destruct (finishFailed id reason s1) as [[r s2] o2]. by destruct Hf as [Hf ->].
  - pose proof (start_call_total id call t false (k_unary id) s1 H1) as Hf.
    destruct (start_call _ _ _ _ _ s1) as [[r s2] o2]. by destruct Hf as [Hf ->].
Qed.

Lemma unary_from call promise s : J 0 0 s ->
  let '(_, s', out) := unary call promise s in progress (Some promise) s out s'.
Proof.
  intros H. unfold unary, async_unary, rescue.
  pose proof (admitted_then call (Some (number_of_Z DEFAULT_TIMEOUT_MS)) (started_unary promise)
    (unary_body call promise) s H (fun _ => eq_refl) (unary_body_from call promise)) as Ha.
  unfold unary_body in Ha. destruct (bind (admit_call call) _ s) as [[[[]|e] s1] o1]; cbn [started_unary] in Ha.
  - exact Ha.
  - cbn [emit]. destruct Ha as (H1 & E1 & C1). split_and!; [exact H1 | | exact C1].
    intros p. rewrite unary_settled_app, unary_settled_cons. specialize (E1 p). cbn in *. lia.
Qed.

Lemma J_open_duplex id credit n s : J 0 0 s -> admitted_request id s -> 0 <= n ->
  J 0 0 (set_duplex (duplex_open id credit n (p_duplexRequests s)) s).
Proof.
  intros H [Hr Hknown] Hn. pose proof (duplex_ok_open id credit n _ (j_duplex _ _ _ H) Hr Hn) as Hv.
  destruct H as [H1 H2 H3 H4 H5 H6 H7 H8 (m & Hm & Ha & Hk & Hd)]. split; try done.
  exists m. split_and!; try done; try lia. intros j.
  cbn [p_duplexRequests set_duplex duplex_open set_request requests]. rewrite map_get_set.
  case_decide as Ej; [|apply Hd]. intros _. subst j. by apply Hknown.
Qed.

(** Nothing is started, whatever the result. *)
Definition no_start {A} (_ : outcome thrown A) : option Z := None.

Lemma async_from promise (m : P unit) s :
  (let '(r, s', out) := m s in progress (no_start r) s out s') ->
  let '(r, s', out) := async promise m s in progress (no_start r) s out s'.
Proof.
  unfold async, rescue. destruct (m s) as [[[[]|e] s1] o1]; intros H; [exact H|]. cbn [emit].
  destruct H as (H1 & E1 & C1). split_and!; [exact H1 | | exact C1].
  intros p. rewrite unary_settled_app. specialize (E1 p). cbn in *. lia.
Qed.

Definition open_rest (id : Z) (call : RuntimeCall) (t : Z) (duplex : bool) (promise : Z) : P unit :=
  (match signal_aborted call with
   | Some reason => finishFailed id reason ;;; throw reason
   | None =>
       (if duplex then
          modify (fun s => set_duplex
            (duplex_open id
               (match hs_welcome (p_handshake s) with Some w => wl_initialCallCreditBytes w | None => 0 end)
               (byteLength (rc_payload call)) (p_duplexRequests s)) s)
        else ret tt) ;;;
       start_call id call t duplex (k_open id promise)
   end)%eff.

Lemma open_rest_from id call t duplex promise s : J 0 0 s -> admitted_request id s ->
  let '(r, s', out) := open_rest id call t duplex promise s in
  kept s out s' /\ no_start r = None.
Proof.
  intros H Had. unfold open_rest. destruct (signal_aborted call) as [reason|].
  - pose proof (finishFailed_total id reason s H) as Hf. unfold bind.
    destruct (finishFailed id reason s) as [[r s1] o1]. destruct Hf as [Hf ->]. cbn [throw].
    by rewrite app_nil_r.
  - pose proof (fun s1 H1 => start_call_total id call t duplex (k_open id promise) s1 H1) as Hstart.
    destruct duplex.
    + rewrite bind_modify. set (s1 := set_duplex _ s).
      specialize (Hstart s1 (J_open_duplex id _ _ s H Had (byteLength_nonneg _))).
      destruct (start_call _ _ _ _ _ s1) as [[r s2] o2]. split; [|done].
      apply (kept_before s s1); [done | done | apply Hstart].
    + specialize (Hstart s H). unfold bind, ret. destruct (start_call _ _ _ _ _ s) as [[r s2] o2].
      by destruct Hstart.
Qed.

Lemma openRuntimeStream_from id call t duplex promise s : J 0 0 s -> admitted id s ->
  let '(r, s', out) := openRuntimeStream id call t duplex promise s in progress (no_start r) s out s'.
Proof.
  intros H Had. unfold openRuntimeStream. apply async_from.
  apply (reserved_then id call no_start); [exact H | done|]. intros Hres. rewrite bind_modify.
  set (s1 := update (stream_of id) newEventStream s).
  assert (H1 : J 0 0 s1) by (apply J_update_stream; [exact H | apply stream_ok_new | right; apply Had]).
  assert (Had1 : admitted id s1) by (by destruct Had).
  assert (Hst : bufferedBytes (view (stream_of id) s1) = 0 /\ p_streams s1 !! id <> None).
  { unfold s1. rewrite view_update. split; [done|]. cbn. by rewrite lookup_insert_eq. }
  pose proof (added_then id call (stream_call false) no_start _ None s1 H1 Had1 Hres
    (conj eq_refl (conj eq_refl Hst)) (open_rest_from id call t duplex promise)) as Ha.
  unfold open_rest in Ha. change (set_streams _ (set_pending ?v s)) with (set_pending v s1).
  destruct (bind (add_call id (stream_call false) call) _ _) as [[r s2] o2].
  by apply (progress_before _ s s1).
Qed.

Lemma openStream_from call duplex promise s : J 0 0 s ->
  let '(r, s', out) := openStream call duplex promise s in progress (no_start r) s out s'.
Proof.
  intros H. unfold openStream.
  pose proof (admitted_then call None (@no_start unit)
    (fun id t => openRuntimeStream id call t duplex promise) s H (fun _ => eq_refl)
    (fun id t s1 H1 Had => openRuntimeStream_from id call t duplex promise s1 H1 Had)) as Ha.
  destruct duplex; [apply async_from|]; exact Ha.
Qed.

(** ** The other events *)

Lemma Qp_await_ready promise : Q unit (await_ready promise).
Proof.
  unfold await_ready. apply Qp_read. intros s. apply at_state.
  destruct (hs_ready (p_handshake s)) as [[w|e]|].
  - by apply (Qp_emit (x_settle _ _)).
  - assert (HQ : Q unit (terminate e true ;;; emit (x_settle promise (Exn e)))%eff)
      by (apply comp_bind; [apply Qp_terminate | intros _; by apply Qp_emit]).
    apply HQ.
  - by apply R_set_handshake.
Qed.

Lemma Qp_hello info timeoutMs promise : Q unit (hello info timeoutMs promise).
Proof.
  apply Qp_from. intros s H. unfold hello. rewrite bind_get.
  pose proof (fun x (Hx : forall p, is_settled p x = 0) => kept_from_Q _ s (Qp_emit x Hx) H) as Hemit.
  case_if; [by apply (Hemit (x_settle _ _))|].
  destruct (hs_welcome (p_handshake s)) as [w|] eqn:Ew; [by apply (Hemit (x_settle _ _))|].
  case_if; [by apply (Hemit (x_settle _ _))|]. rewrite bind_modify. set (s1 := set_handshake _ s).
  assert (H1 : J 0 0 s1) by (apply J_set_handshake; done).
  pose proof (kept_from_Q _ s1 (Qp_send (hello_bodies info) (Some 0) (k_hello promise)) H1) as Hs.
  destruct (send _ _ _ s1) as [[r s2] o2]. by apply (kept_before s s1).
Qed.

Lemma Qp_reject_duplex id promise e : Q unit (reject_duplex id promise e).
Proof. apply Qp_cancel. Qed.

Lemma Qp_settle_unit promise e : Q unit (settle_unit promise e).
Proof. by apply Qp_emit. Qed.

#[local] Hint Resolve Qp_await_ready Qp_hello Qp_reject_duplex Qp_settle_unit : effects.

Lemma R_set_duplex v s : (J 0 0 s -> duplex_ok v) ->
  (forall j, map_get j (requests v) <> None -> map_get j (requests (p_duplexRequests s)) <> None) ->
  related R s [] (set_duplex v s).
Proof. intros Hv Hk. apply R_simple; try done. intros H. by apply J_set_duplex; auto. Qed.

Lemma Qp_after_duplex {A} v (m : P A) s : (J 0 0 s -> duplex_ok v) ->
  (forall j, map_get j (requests v) <> None -> map_get j (requests (p_duplexRequests s)) <> None) ->
  Q A m -> let '(_, s', out) := (modify (set_duplex v) ;;; m)%eff s in related R s out s'.
Proof.
  intros Hv Hk Hm. rewrite bind_modify. specialize (Hm (set_duplex v s)).
  destruct (m (set_duplex v s)) as [[r s'] out]. apply (related_trans R s [] (set_duplex v s)); [|exact Hm].
  by apply R_set_duplex.
Qed.

Lemma requests_set id r v j : map_get id (requests v) <> None ->
  map_get j (map_set id r (requests v)) <> None -> map_get j (requests v) <> None.
Proof. intros Hid. rewrite map_get_set. case_decide as E; [by subst | done]. Qed.

Lemma Qp_send_duplex id promise payload : Q unit (send_duplex id promise payload).
Proof.
  apply Qp_read. intros s. apply at_state.
  assert (Hv : J 0 0 s -> duplex_ok (snd (duplex_send id promise payload (p_duplexRequests s)))).
  { intros H. apply duplex_ok_send, H. }
  assert (Hk : forall j, map_get j (requests (snd (duplex_send id promise payload (p_duplexRequests s)))) <> None ->
    map_get j (requests (p_duplexRequests s)) <> None).
  { intros j. unfold duplex_send. destruct (live_request id _) as [r|] eqn:E; [|done].
    apply live_request_get in E as [E _]. repeat (case_if; [done|]). cbn [snd requests].
    apply requests_set. congruence. }
  destruct (duplex_send id promise payload (p_duplexRequests s)) as [[e|] v]; cbn [snd] in *.
  - apply (Qp_reject_duplex id promise e s).
  - by apply R_set_duplex.
Qed.

Lemma Qp_end_duplex id promise : Q unit (end_duplex id promise).
Proof.
  apply Qp_read. intros s. apply at_state.
  assert (Hv : J 0 0 s -> duplex_ok (snd (duplex_end id promise (p_duplexRequests s)))).
  { intros H. apply duplex_ok_end, H. }
  assert (Hk : forall j, map_get j (requests (snd (duplex_end id promise (p_duplexRequests s)))) <> None ->
    map_get j (requests (p_duplexRequests s)) <> None).
  { intros j. unfold duplex_end. destruct (live_request id _) as [r|] eqn:E; [|done].
    apply live_request_get in E as [E _]. repeat (case_if; [done|]). cbn [snd set_request requests].
    apply requests_set. congruence. }
  destruct (duplex_end id promise (p_duplexRequests s)) as [[e|] v]; cbn [snd] in *.
  - apply (Qp_reject_duplex id promise e s).
  - by apply R_set_duplex.
Qed.

Lemma requests_step aborted id v j : map_get j (requests (snd (duplex_step aborted id v))) <> None ->
  map_get j (requests v) <> None.
Proof.
  unfold duplex_step. destruct (map_get id (requests v)) as [r|] eqn:E; [|done].
  assert (Hid : map_get id (requests v) <> None) by congruence.
  destruct (dr_works r) as [|w rest]; [destruct (dr_end r); [|done] | destruct (dw_state w); try done];
    repeat case_if; cbn [snd set_request requests pop_work]; by apply requests_set.
Qed.

Lemma requests_sent id v j : map_get j (requests (snd (duplex_sent id v))) <> None ->
  map_get j (requests v) <> None.
Proof.
  unfold duplex_sent. destruct (map_get id (requests v)) as [r|] eqn:E; [|done].
  destruct (dr_works r) as [|w rest]; [done|]. destruct (dw_state w); try done.
  cbn [snd requests pop_work]. apply requests_set. congruence.
Qed.

Lemma Qp_run_duplex id : Q unit (run_duplex id).
Proof.
  apply Qp_read. intros s. apply at_state.
  assert (Hv : J 0 0 s -> duplex_ok (snd (duplex_step (is_aborted id s) id (p_duplexRequests s)))).
  { intros H. apply duplex_ok_step, H. }
  pose proof (fun j => requests_step (is_aborted id s) id (p_duplexRequests s) j) as Hk.
  destruct (duplex_step _ id (p_duplexRequests s)) as [action v]; cbn [snd] in *.
  apply Qp_after_duplex; [done | done|]. destruct action; auto with effects. apply comp_ret.
Qed.

Lemma Qp_continuation k e : Q unit (run_continuation k e).
Proof.
  destruct k as [|nonce|promise|promise|id|id promise|waiter|id|id promise|id|id]; cbn [run_continuation].
  - apply comp_ret.
  - destruct e; [apply comp_ret|]. apply (Qp_set_sender (pingSent nonce)). intros v. apply sender_ok_pingSent.
  - destruct e; [|auto with effects]. apply comp_bind; [auto with effects | intros _; by apply Qp_emit].
  - auto with effects.
  - destruct e; [auto with effects | apply comp_ret].
  - destruct e; [|by apply Qp_emit]. apply comp_bind; [auto with effects | intros _; by apply Qp_emit].
  - destruct waiter; [apply comp_ret | by apply Qp_emit | by apply Qp_emit | by apply Qp_emit].
  - apply Qp_read. intros s. apply at_state.
    assert (Hv : J 0 0 s -> duplex_ok (snd (duplex_sent id (p_duplexRequests s)))).
    { intros H. apply duplex_ok_sent, H. }
    pose proof (fun j => requests_sent id (p_duplexRequests s) j) as Hk.
    destruct (duplex_sent id (p_duplexRequests s)) as [promise v]; cbn [snd] in *.
    apply Qp_after_duplex; [done | done|]. destruct promise; [|apply comp_ret]. destruct e; auto with effects.
  - destruct e; auto with effects.
  - apply Qp_in_incoming, Qi_credit_settled.
  - apply Qp_in_incoming, Qi_payload_settled.
Qed.

#[local] Hint Resolve Qp_continuation Qp_send_duplex Qp_end_duplex Qp_run_duplex : effects.

Lemma Qp_run_job : Q unit run_job.
Proof.
  apply Qp_read. intros s. apply at_state. destruct (p_jobs s) as [|[k e] rest]; [apply related_refl|].
  rewrite bind_modify. pose proof (Qp_continuation k e (set_jobs rest s)) as Hk.
  destruct (run_continuation k e (set_jobs rest s)) as [[r s'] out].
  apply (related_trans R s [] (set_jobs rest s)); [|exact Hk].
  apply R_simple; try done. apply J_set_jobs.
Qed.

Lemma Qp_in_sender f : (forall aborted v, sender_ok v -> sender_ok (fst (f aborted v))) -> Q unit (in_sender f).
Proof.
  intros Hf. apply Qp_read. intros s. apply at_state. specialize (Hf (fun id => p_aborted s !! id) (p_sender s)).
  destruct (f _ (p_sender s)) as [v effects]. cbn [fst] in Hf. rewrite bind_modify.
  assert (HQ : Q unit (for_each run_sender_effect effects)).
  { apply (comp_for_each Q). intros [frame signal|e|k e] _; cbn [run_sender_effect]; auto with effects. }
  specialize (HQ (set_sender v s)). destruct (for_each _ _ (set_sender v s)) as [[r s'] out].
  apply (related_trans R s [] (set_sender v s)); [|exact HQ].
  apply R_simple; try done. intros H. apply J_set_sender; [exact H | apply Hf, H].
Qed.

(** A modification that leaves the calls, and then steps that keep everything. *)
Lemma Qp_then_modify v s (m : P unit) : related R s [] v -> Q unit m ->
  let '(_, s', out) := (modify (fun _ => v) ;;; m)%eff s in related R s out s'.
Proof.
  intros Hv Hm. rewrite bind_modify. specialize (Hm v). destruct (m v) as [[r s'] out].
  by apply (related_trans R s [] v).
Qed.

Lemma R_set_lifecycles v s : related R s [] (set_lifecycles v s).
Proof. apply R_simple; try done. apply J_set_lifecycles. Qed.

Lemma Qp_signal_aborts id reason : Q unit (signal_aborts id reason).
Proof.
  apply Qp_read. intros s. apply at_state. destruct (p_lifecycles s !! id) as [l|]; [|apply related_refl].
  case_if; [|apply related_refl].
  apply (Qp_then_modify (set_lifecycles _ s) s (abort id reason ;;; cancel id _ _ _)%eff); [apply R_set_lifecycles|].
  apply comp_bind; auto with effects.
Qed.

Lemma Qp_call_timer id : Q unit (call_timer id).
Proof.
  apply Qp_read. intros s. apply at_state. destruct (p_lifecycles s !! id) as [l|]; [|apply related_refl].
  case_if; [|apply related_refl].
  apply (Qp_then_modify (set_lifecycles _ s) s (abort id call_timeout ;;; cancel id _ _ _)%eff);
    [apply R_set_lifecycles|].
  apply comp_bind; auto with effects.
Qed.

Lemma R_set_sender v s : (J 0 0 s -> sender_ok v) -> related R s [] (set_sender v s).
Proof. intros Hv. apply R_simple; try done. intros H. by apply J_set_sender; auto. Qed.

Lemma Qp_handshake_timer : Q unit handshake_timer.
Proof.
  apply comp_bind; [apply comp_get|]. intros s. case_if; [apply Qp_terminate | apply comp_ret].
Qed.

Lemma Qp_ping_timer : Q unit ping_timer.
Proof.
  apply Qp_read. intros s. apply at_state. case_if; [|apply related_refl].
  pose proof (fun H => sender_ok_ping (p_sender s) (j_sender 0 0 s H)) as Hv.
  destruct (sendPing (p_sender s)) as [nonce v]. cbn [snd] in Hv.
  apply (Qp_then_modify (set_sender v s) s); [by apply R_set_sender | apply Qp_send].
Qed.

Lemma Qp_pong_timer : Q unit pong_timer.
Proof.
  apply Qp_read. intros s. apply at_state.
  pose proof (fun H => sender_ok_pongTimeout (p_sender s) (j_sender 0 0 s H)) as Hv.
  destruct (pongTimeout (p_sender s)) as [e v]. cbn [snd] in Hv.
  apply (Qp_then_modify (set_sender v s) s); [by apply R_set_sender|].
  destruct e; [apply Qp_terminate | apply comp_ret].
Qed.

Lemma Qp_holding id m : Q unit m -> Q unit (holding_stream id m).
Proof.
  intros Hm. apply comp_bind; [apply comp_get|]. intros s. destruct (p_streams s !! id); [exact Hm | apply comp_ret].
Qed.

#[local] Hint Resolve Qp_run_job Qp_signal_aborts Qp_call_timer Qp_handshake_timer Qp_ping_timer Qp_pong_timer
  Qp_holding Qp_in_incoming Qi_timeout : effects.

(** ** Runs *)

(** The credit of a received frame is unsigned. *)
Definition peer_event_ok (e : peer_event) : bool :=
  match e with pe_receive bs => received_ok bs | _ => true end.

(** The unary call an event starts. *)
Definition event_promise (e : peer_event) : option Z :=
  match e with pe_unary _ promise => Some promise | _ => None end.

Lemma step_progress e s : peer_event_ok e = true -> J 0 0 s ->
  let '(_, s', out) := peer_step e s in progress (event_promise e) s out s'.
Proof.
  intros He H.
  assert (HQ : forall m : P unit, Q unit m -> let '(_, s', out) := m s in progress None s out s').
  { intros m Hm. specialize (Hm s). destruct (m s) as [[r s'] out]. by apply progress_kept, Hm. }
  destruct e; cbn [event_promise peer_event_ok] in *.
  4: by apply unary_from.
  4: by apply openStream_from.
  all: apply HQ; cbn [peer_step]; auto with effects.
  - apply comp_bind; [by apply Qp_receive | intros _; apply comp_ret].
  - apply Qp_terminate.
  - apply Qp_modify; intros v; destruct (register_handler m h (p_handlers v)); try done. apply J_set_handlers.
  - apply Qp_modify; try done. intros v. apply J_set_handlers.
  - apply comp_bind; [apply comp_get|]. intros v. apply Qp_in_incoming, Qi_answers.
  - apply Qp_in_sender. intros aborted v. apply sender_ok_transmit.
  - apply Qp_in_sender. intros aborted v. apply sender_ok_sent.
Qed.

Lemma J_new : J 0 0 newPeer.
Proof.
  split; cbn [newPeer p_pending p_streams p_duplexRequests p_sender p_incoming p_handshake p_callIds].
  - apply pending_ok_new.
  - done.
  - done.
  - done.
  - apply duplex_ok_new.
  - apply sender_ok_new.
  - apply incoming_ok_new.
  - done.
  - exists 0. by split_and!.
Qed.

(** The unary calls of a run whose promise is [p]. *)
Definition unary_calls (p : Z) (l : list peer_event) : Z :=
  foldr Z.add 0 ((fun e => starts (event_promise e) p) <$> l).

Lemma run_progress l : Forall (fun e => peer_event_ok e = true) l -> forall s, J 0 0 s ->
  (p_isClosed s = true -> no_calls s) ->
  let '(s', out) := peer_run l s in
  J 0 0 s' /\ (p_isClosed s' = true -> no_calls s') /\
  (forall p, PeerSafety.settled p out + pend p s' = pend p s + unary_calls p l).
Proof.
  induction 1 as [|e l He Hl IH]; intros s H Hc; cbn [peer_run].
  - split_and!; [exact H | exact Hc | intros p; cbn; lia].
  - pose proof (step_progress e s He H) as Hstep. destruct (peer_step e s) as [[r s1] o1]. destruct Hstep as (H1 & E1 & C1).
    specialize (IH s1 H1). destruct (peer_run l s1) as [s2 o2].
    destruct (IH (C1 Hc)) as (H2 & C2 & E2).
    split_and!; [exact H2 | exact C2|]. intros p. rewrite unary_settled_app. specialize (E1 p). specialize (E2 p).
    unfold unary_calls in *. cbn [fmap list_fmap foldr]. lia.
Qed.

Lemma peer_run_app l1 l2 s : peer_run (l1 ++ l2) s =
  let '(s1, o1) := peer_run l1 s in let '(s2, o2) := peer_run l2 s1 in (s2, o1 ++ o2).
Proof.
  revert s. induction l1 as [|e l1 IH]; intros s; cbn [peer_run app].
  - by destruct (peer_run l2 s) as [s2 o2].
  - destruct (peer_step e s) as [[r s1] o1]. rewrite IH. destruct (peer_run l1 s1) as [s2 o2].
    destruct (peer_run l2 s2) as [s3 o3]. by rewrite app_assoc.
Qed.

(** Closing the peer leaves no call. *)
Lemma terminate_empties e b s : J 0 0 s -> (p_isClosed s = true -> no_calls s) ->
  no_calls (run_state (terminate e b s)).
Proof.
  intros H Hc. rewrite terminate_eq. destruct (p_isClosed s) eqn:Ec; [by apply Hc|].
  pose proof (J_set_isClosed _ _ _ H) as H0.
  pose proof (kept_from_Q _ _ (Qp_closing e) H0) as K1.
  destruct (Total_run _ (set_isClosed s) (Total_closing e)) as ([] & s1 & o1 & E1).
  unfold bind at 1. rewrite E1 in *. pose proof (fail_calls_all e s1 (proj1 K1)) as Hall.
  unfold bind at 1. destruct (fail_calls e s1) as [[r s2] o2]. destruct Hall as [-> Hall].
  by destruct b.
Qed.

(** C2. The accounting of the peer holds over every run.  Its counters are the sums of
    what its calls, its send queue, its duplex requests and its reverse calls hold, and
    stay within their budgets; at most 128 calls are pending; what a call has buffered is
    what its stream holds, and with the credit left to the daemon adds up to the initial
    credit, so that giving the credit of a read back never fails. *)
Theorem peer_accounting events : Forall (fun e => peer_event_ok e = true) events ->
  let '(s, _) := peer_run events newPeer in
  let pending := p_pending s in
  responseBytes pending = map_sum bufferedResponseBytes (calls pending) /\
  requestBytes pending = map_sum pc_requestBytes (calls pending) /\
  responseBytes pending <= MAX_PENDING_RESPONSE_BYTES /\ requestBytes pending <= MAX_PENDING_REQUEST_BYTES /\
  pending_size pending <= MAX_PENDING_CALLS /\
  (forall id c, pending_get id pending = Some c ->
     0 <= bufferedResponseBytes c <= INITIAL_CALL_CREDIT_BYTES /\ 0 <= pc_requestBytes c /\
     (is_ended c = false -> bufferedResponseBytes c + incomingCreditBytes c = INITIAL_CALL_CREDIT_BYTES) /\
     (is_stream c = true -> exists e, p_streams s !! id = Some e /\
        bufferedResponseBytes c = total (contents (buffered e)) /\
        forall n, 0 <= n <= bufferedBytes e -> fst (restoreResponseBytes id c n pending) = true)) /\
  (let sender := p_sender s in
   ps_pendingBytes sender = batches_bytes (ps_tail sender) /\
   pendingBatchCount sender = Z.of_nat (List.length (ps_tail sender)) /\
   ps_pendingBytes sender <= MAX_PENDING_SEND_BYTES /\ pendingBatchCount sender <= MAX_PENDING_SEND_BATCHES) /\
  (let duplex := p_duplexRequests s in
   dx_pendingBytes duplex = map_sum works_bytes (requests duplex) /\
   dx_pendingCount duplex = map_sum works_count (requests duplex) /\
   dx_pendingBytes duplex <= MAX_PENDING_SEND_BYTES /\ dx_pendingCount duplex <= MAX_PENDING_SEND_BATCHES) /\
  (let incoming := p_incoming s in
   in_requestBytes incoming = map_sum request_length (in_calls incoming) /\
   in_requestBytes incoming <= MAX_PENDING_REQUEST_BYTES /\ live_count incoming <= MAX_ACTIVE_REVERSE_CALLS).
Proof.
  intros He. pose proof (run_progress events He newPeer J_new ltac:(done)) as H.
  destruct (peer_run events newPeer) as [s out]. destruct H as (H & _ & _).
  pose proof (j_pending _ _ _ H) as Hp. pose proof (j_sender _ _ _ H) as [S1 S2 S3 S4 _].
  pose proof (j_duplex _ _ _ H) as [_ D1 D2 D3 D4 _]. pose proof (j_incoming _ _ _ H) as [_ _ _ I1 I2 I3 _].
  cbn zeta.
  split; [exact (po_response _ Hp)|]. split; [exact (po_request _ Hp)|].
  split; [exact (po_response_max _ Hp)|]. split; [exact (po_request_max _ Hp)|].
  split; [exact (j_size _ _ _ H)|]. split; [|tauto].
  intros id c Hg. destruct (po_calls _ Hp _ _ Hg) as (C1 & C2 & C3 & C4). split_and!; try done; try lia.
  intros Hs. destruct (j_streams _ _ _ H _ _ Hg Hs) as (e & Hst & Hb). rewrite held_zero in Hb.
  destruct (j_stream_ok _ _ _ H _ _ Hst) as (_ & _ & Ht).
  exists e. split_and!; [done | lia|]. intros n Hn. pose proof (response_ge _ _ _ Hp Hg).
  unfold restoreResponseBytes. case_if; [|done]. bool_prop. lia.
Qed.

(** C1. Every unary call settles at most once, and exactly once when the peer closes: over
    every run, the settlements of a promise and the pending calls that hold it are as many
    as the calls it was given for, whether they were refused, answered, cancelled, timed
    out or failed; a closed peer has no pending call, and closing any peer settles every
    call that was still pending. *)
Theorem unary_settles_once events error : Forall (fun e => peer_event_ok e = true) events ->
  (let '(s, out) := peer_run events newPeer in
   forall promise,
     PeerSafety.settled promise out + map_sum (is_waiting promise) (calls (p_pending s)) =
       unary_calls promise events /\
     (p_isClosed s = true -> calls (p_pending s) = [])) /\
  (let '(s, out) := peer_run (events ++ [pe_close error]) newPeer in
   calls (p_pending s) = [] /\ forall promise, PeerSafety.settled promise out = unary_calls promise events).
Proof.
  intros He. pose proof (run_progress events He newPeer J_new ltac:(done)) as H.
  rewrite peer_run_app. destruct (peer_run events newPeer) as [s out]. destruct H as (H & Hc & Hp).
  split; [intros promise; split; [apply Hp | exact Hc]|]. cbn [peer_run].
  pose proof (terminate_empties (default connection_closed error) false s H Hc) as Hn.
  pose proof (kept_from_Q _ s (Qp_terminate (default connection_closed error) false) H) as Hk.
  cbn [peer_step]. unfold peer_close. destruct (terminate _ _ s) as [[r s1] o1]. cbn [run_state fst snd] in Hn.
  rewrite app_nil_r. split; [exact Hn|]. intros promise. destruct Hk as (_ & Hk & _). specialize (Hk promise).
  specialize (Hp promise). rewrite unary_settled_app. unfold pend in *. unfold no_calls in Hn. rewrite Hn in Hk.
  cbn [map_sum] in *. cbn in Hp, Hk |- *. lia.
Qed.
End runs.

(** ** An example: a handshake, three calls, and a payload for each of two *)

#[local] Existing Instance sample_binary.

Definition run_welcome : Welcome :=
  mkWelcome PROTOCOL_VERSION [1] [1] MAX_FRAME_BYTES 64 1000 [TransportFeature.REVERSE_CALLS].
Definition run_call : RuntimeCall := mkCall (js "/a/b") [1; 2] None None None.
Definition run_frame (sequence : Z) (body : FrameBody) : peer_event :=
  pe_receive (encodeProtocolFrame (mkProtocolFrame PROTOCOL_VERSION sequence body)).

Definition run_events : list peer_event :=
  [pe_hello (mkPeerInfo chrome_extension true [] [] []) (number_of_Z 1000) 1;
   pe_transmit; pe_sent None; pe_job;
   run_frame 1 (fb_welcome run_welcome); pe_job;
   pe_unary run_call 2; pe_unary run_call 3; pe_open run_call false 4;
   pe_transmit; pe_sent None; pe_sent None;
   run_frame 2 (fb_payload 1 [7; 7]); run_frame 3 (fb_callEnd 1 None);
   run_frame 4 (fb_payload 5 [8; 9; 10])].

Lemma run_events_ok : Forall (fun e => peer_event_ok e = true) run_events.
Proof. repeat constructor; vm_compute; reflexivity. Qed.

Lemma peer_accounting_witness :
  Forall (fun e => peer_event_ok e = true) run_events /\
  let '(s, _) := peer_run run_events newPeer in
  responseBytes (p_pending s) = 3 /\ pending_size (p_pending s) = 2 /\
  exists e, p_streams s !! 5 = Some e /\ total (contents (buffered e)) = 3.
Proof.
  split; [exact run_events_ok|]. pose proof (peer_accounting run_events run_events_ok) as H.
  assert (E : let '(s, _) := peer_run run_events newPeer in
    responseBytes (p_pending s) = 3 /\ pending_size (p_pending s) = 2 /\
    pending_get 5 (p_pending s) = Some (mkPendingCall (stream_call false) 3 1048573 2))
    by (vm_compute; split_and!; reflexivity).
  destruct (peer_run run_events newPeer) as [s out]. destruct E as (E1 & E2 & E3).
  destruct H as (_ & _ & _ & _ & _ & H & _). destruct (H _ _ E3) as (_ & _ & _ & Hs).
  destruct (Hs eq_refl) as (e & He & Hb & _). split_and!; [exact E1 | exact E2|].
  exists e. split; [exact He | symmetry; exact Hb].
Defined.

Lemma unary_settles_once_witness :
  Forall (fun e => peer_event_ok e = true) run_events /\
  let '(_, out) := peer_run (run_events ++ [pe_close None]) newPeer in
  PeerSafety.settled 2 out = 1 /\ PeerSafety.settled 3 out = 1 /\ PeerSafety.settled 4 out = 0.
Proof.
  split; [exact run_events_ok|]. pose proof (unary_settles_once run_events None run_events_ok) as [_ H].
  destruct (peer_run (run_events ++ [pe_close None]) newPeer) as [s out]. destruct H as [_ H].
  split_and!; apply H.
Defined.
