(* ===== verification/SessionMerge.v ===== *)
(** The three-way merge of a session document
    (packages/client/src/runtime/session-document: merge.ts,
    session-field-ownership.ts).

    A document is a JSON object, its properties in the order of [Object.keys]; an [Entry]
    is a value or [undefined].  [===] on two objects compares identities, which values
    do not have: [identical] answers it, and implies equality.  A path is the list of its
    segments, joined with dots in the result only. *)

From stdpp Require Import base list gmap.
From Stdlib Require Import ZArith Lia ZifyBool String SpecFloat.
From S2P Require Import Prelude JsText Json.

Open Scope Z_scope.

#[local] Set Warnings "-clear-no-such-hyp".

Definition Entry : Type := option json.
Definition Path : Type := list jsstring.

(** ** Property lookups and key order *)

Definition isRecord (value : Entry) : bool := match value with Some (JObj _) => true | _ => false end.

(** [Object.hasOwn(object, key)]. *)
Definition hasOwn (key : jsstring) (props : TerminalMultiplexJsonObject) : bool :=
  match property key props with Some _ => true | None => false end.

(** [[...new Set(keys)]]: the first occurrences. *)
Fixpoint js_set (seen keys : list jsstring) : list jsstring :=
  match keys with
  | [] => []
  | k :: rest => if bool_decide (k ∈ seen) then js_set seen rest else k :: js_set (k :: seen) rest
  end.

(** The number of an integer-like key: its decimal numeral, without leading zeros, below
    2^32 - 1. *)
Fixpoint numeral (acc : Z) (key : jsstring) : option Z :=
  match key with
  | [] => Some acc
  | c :: rest => if (0x30 <=? c) && (c <=? 0x39) then numeral (acc * 10 + (c - 0x30)) rest else None
  end.

Definition array_index (key : jsstring) : option Z :=
  match key with
  | [] => None
  | c :: rest =>
      if (c =? 0x30) && negb (bool_decide (rest = [])) then None else
      match numeral 0 key with
      | Some n => if n <? 2 ^ 32 - 1 then Some n else None
      | None => None
      end
  end.

Fixpoint insert_index (entry : jsstring * json) (l : list (jsstring * json)) : list (jsstring * json) :=
  match l with
  | [] => [entry]
  | e :: rest =>
      if default 0 (array_index (fst e)) <? default 0 (array_index (fst entry))
      then e :: insert_index entry rest else entry :: l
  end.

Definition is_index (e : jsstring * json) : bool :=
  match array_index (fst e) with Some _ => true | None => false end.

(** The properties of an object built from entries with distinct keys: the integer-like
    keys in ascending order, then the others in the order of the entries. *)
Definition from_entries (entries : list (jsstring * json)) : TerminalMultiplexJsonObject :=
  foldr insert_index [] (List.filter is_index entries) ++ List.filter (fun e => negb (is_index e)) entries.

(** The properties every object inherits: a table written as an object literal answers
    for them too. *)
Definition inherited : list jsstring :=
  [js "constructor"; js "__defineGetter__"; js "__defineSetter__"; js "hasOwnProperty";
   js "__lookupGetter__"; js "__lookupSetter__"; js "isPrototypeOf"; js "propertyIsEnumerable";
   js "toString"; js "valueOf"; js "__proto__"; js "toLocaleString"].

(** ** Ownership of fields (session-field-ownership.ts) *)

(** [owner_other] is what a table answers for an inherited property. *)
Inductive SessionFieldOwner := owner_local | owner_remote | owner_other.

Definition table_lookup {A} (key : jsstring) (other : A) (table : list (jsstring * A)) : option A :=
  match List.find (fun e => jsstring_eqb (fst e) key) table with
  | Some (_, v) => Some v
  | None => if bool_decide (key ∈ inherited) then Some other else None
  end.

Definition TERMINAL_TAB_FIELD_OWNERS : list (jsstring * SessionFieldOwner) :=
  [(js "ptyId", owner_remote); (js "worktreeInstanceId", owner_remote); (js "createdAt", owner_remote);
   (js "pendingActivationSpawn", owner_remote); (js "title", owner_local); (js "defaultTitle", owner_local);
   (js "generatedTitle", owner_local); (js "quickCommandLabel", owner_local);
   (js "customTitle", owner_local); (js "color", owner_local); (js "isPinned", owner_local);
   (js "sortOrder", owner_local); (js "shellOverride", owner_local); (js "startupCwd", owner_local);
   (js "launchAgent", owner_local)].

Definition terminalTabFieldOwner (path : Path) : option SessionFieldOwner :=
  match path with
  | root :: _ :: _ :: field :: _ =>
      if jsstring_eqb root (js "tabsByWorktree")
      then table_lookup field owner_other TERMINAL_TAB_FIELD_OWNERS else None
  | _ => None
  end.

Definition isEmptyEntry (value : Entry) : bool :=
  match value with
  | None | Some JNull => true
  | Some (JStr s) => bool_decide (s = [])
  | _ => false
  end.

Definition resolveTerminalTabField (desired current : Entry) (owner : SessionFieldOwner) : Entry :=
  match owner with
  | owner_local => desired
  | _ => if isEmptyEntry current && negb (isEmptyEntry desired) then desired else current
  end.

(** [rule_other] is what the table answers for an inherited property. *)
Inductive RootFieldRule := rule_local | rule_live_sessions | rule_other.

Definition ROOT_FIELD_RULES : list (jsstring * RootFieldRule) :=
  [(js "activeRepoId", rule_local); (js "activeWorkspaceKey", rule_local);
   (js "activeWorktreeId", rule_local); (js "activeTabId", rule_local);
   (js "activeGroupIdByWorktree", rule_local); (js "activeTabIdByWorktree", rule_local);
   (js "activeFileIdByWorktree", rule_local); (js "activeTabTypeByWorktree", rule_local);
   (js "activeBrowserTabIdByWorktree", rule_local); (js "markdownFrontmatterVisible", rule_local);
   (js "lastVisitedAtByWorktreeId", rule_local);
   (js "activeWorktreeIdsOnShutdown", rule_live_sessions);
   (js "activeConnectionIdsAtShutdown", rule_live_sessions)].

Definition rootFieldRule (path : Path) : option RootFieldRule :=
  match path with
  | root :: _ => table_lookup root rule_other ROOT_FIELD_RULES
  | [] => None
  end.

Section merge.
(** Whether two values are one object. *)
Context (identical : json -> json -> bool).

(** [a === b]. *)
Definition strict_equal (a b : json) : bool :=
  match a, b with
  | JNull, JNull => true
  | JBool x, JBool y => Bool.eqb x y
  | JNum x, JNum y => SFeqb x y
  | JStr x, JStr y => jsstring_eqb x y
  | JArr _, JArr _ | JObj _, JObj _ => identical a b
  | _, _ => false
  end.

(** [Array.prototype.includes] compares numbers with SameValueZero. *)
Definition same_value_zero (a b : json) : bool :=
  match a, b with
  | JNum S754_nan, JNum S754_nan => true
  | _, _ => strict_equal a b
  end.

Definition resolveRootField (desired current : Entry) (rule : RootFieldRule) : Entry :=
  match rule, desired, current with
  | rule_live_sessions, Some (JArr d), Some (JArr c) =>
      Some (JArr (fold_left
        (fun merged value => if existsb (same_value_zero value) merged then merged else merged ++ [value]) d c))
  | _, _, _ => desired
  end.

(** ** merge.ts *)

Definition MAX_DEPTH : nat := 64.

(** [equal(a, b, depth)], with [fuel] the levels left: [MAX_DEPTH + 1 - depth]. *)
Fixpoint equal_within (fuel : nat) (a b : Entry) : bool :=
  match fuel with
  | O => false
  | S fuel =>
      match a, b with
      | None, None => true
      | None, Some y => match y with JNull => true | _ => false end
      | Some x, None => match x with JNull => true | _ => false end
      | Some x, Some y =>
          strict_equal x y ||
          match x, y with
          | JArr l, JArr m =>
              (List.length l =? List.length m)%nat
              && forallb (fun p => equal_within fuel (Some (fst p)) (Some (snd p))) (combine l m)
          | JObj p, JObj q =>
              (List.length p =? List.length q)%nat
              && forallb (fun e => hasOwn (fst e) q && equal_within fuel (property (fst e) p) (property (fst e) q)) p
          | _, _ => false
          end
      end
  end.

Definition equal (a b : Entry) : bool := equal_within (S MAX_DEPTH) a b.

Inductive TerminalLayoutField :=
  | tl_root | tl_activeLeafId | tl_expandedLeafId | tl_ptyIdsByLeafId | tl_buffersByLeafId
  | tl_scrollbackRefsByLeafId | tl_titlesByLeafId.

Definition getTerminalLayoutField (path : Path) : option TerminalLayoutField :=
  match path with
  | [root; _; field] =>
      if negb (jsstring_eqb root (js "terminalLayoutsByTabId")) then None else
      if jsstring_eqb field (js "root") then Some tl_root else
      if jsstring_eqb field (js "activeLeafId") then Some tl_activeLeafId else
      if jsstring_eqb field (js "expandedLeafId") then Some tl_expandedLeafId else
      if jsstring_eqb field (js "ptyIdsByLeafId") then Some tl_ptyIdsByLeafId else
      if jsstring_eqb field (js "buffersByLeafId") then Some tl_buffersByLeafId else
      if jsstring_eqb field (js "scrollbackRefsByLeafId") then Some tl_scrollbackRefsByLeafId else
      if jsstring_eqb field (js "titlesByLeafId") then Some tl_titlesByLeafId else None
  | _ => None
  end.

Definition is_string (s : jsstring) (value : option json) : bool :=
  match value with Some (JStr t) => jsstring_eqb t s | _ => false end.

(** The set [collectTerminalLeafIds] returns, as a list. *)
Fixpoint collectTerminalLeafIds (value : json) : list jsstring :=
  match value with
  | JObj props =>
      let collected := map (fun p => (fst p, collectTerminalLeafIds (snd p))) props in
      let child (key : jsstring) :=
        match List.find (fun p => jsstring_eqb (fst p) key) collected with Some p => snd p | None => [] end in
      match property (js "leafId") props with
      | Some (JStr leafId) =>
          if is_string (js "leaf") (property (js "type") props) then [leafId]
          else if is_string (js "split") (property (js "type") props)
               then child (js "first") ++ child (js "second") else []
      | _ =>
          if is_string (js "split") (property (js "type") props)
          then child (js "first") ++ child (js "second") else []
      end
  | _ => []
  end.

Definition mergeTerminalLayoutRoot (desired current : Entry) : Entry :=
  match desired, current with
  | Some (JObj d), Some (JObj c) =>
      let desiredLeaves := js_set [] (collectTerminalLeafIds (JObj d)) in
      let currentLeaves := js_set [] (collectTerminalLeafIds (JObj c)) in
      if (List.length desiredLeaves <? List.length currentLeaves)%nat
         && forallb (fun leafId => bool_decide (leafId ∈ currentLeaves)) desiredLeaves
      then current else desired
  | _, _ => desired
  end.

Definition object_keys (props : TerminalMultiplexJsonObject) : list jsstring := props.*1.

Definition record_or_empty (value : Entry) : TerminalMultiplexJsonObject :=
  match value with Some (JObj p) => p | _ => [] end.

Definition all_keys (b d c : TerminalMultiplexJsonObject) : list jsstring :=
  js_set [] (object_keys b ++ object_keys d ++ object_keys c).

(** The value of a leaf in [mergeTerminalLeafMap]. *)
Definition merge_leaf (base desired current : Entry) : Entry :=
  if equal base desired then current
  else if equal base current || equal desired current then desired else current.

Definition some_entries (entries : list (jsstring * Entry)) : list (jsstring * json) :=
  omap (fun e => match snd e with Some v => Some (fst e, v) | None => None end) entries.

(** [result[key] = value]: assigning to [__proto__] adds no property. *)
Definition mergeTerminalLeafMap (base desired current : Entry) : Entry :=
  match desired, current with
  | Some (JObj d), Some (JObj c) =>
      let b := record_or_empty base in
      Some (JObj (from_entries (some_entries
        (map (fun key => (key, merge_leaf (property key b) (property key d) (property key c)))
           (List.filter (fun key => negb (jsstring_eqb key (js "__proto__"))) (all_keys b d c))))))
  | _, _ => current
  end.

Definition isTerminalTabCollectionPath (path : Path) : bool :=
  match path with [root; _] => jsstring_eqb root (js "tabsByWorktree") | _ => false end.

Definition isTerminalTabPath (path : Path) : bool :=
  match path with [root; _; _] => jsstring_eqb root (js "tabsByWorktree") | _ => false end.

Definition Items : Type := list (jsstring * json).

Definition keys_of (items : Items) : list jsstring := items.*1.

Fixpoint keyed_from (map : Items) (values : list json) : option Items :=
  match values with
  | [] => Some map
  | value :: rest =>
      match value with
      | JObj props =>
          match property (js "id") props with
          | Some (JStr id) => if bool_decide (id ∈ keys_of map) then None else keyed_from (map ++ [(id, value)]) rest
          | _ => None
          end
      | _ => None
      end
  end.

Definition keyed (values : list json) : option Items := keyed_from [] values.

(** The keys, in their order, of the items that all three have. *)
Definition common_order (base desired current : Items) (keys : list jsstring) : list jsstring :=
  List.filter
    (fun id => bool_decide (id ∈ keys_of base) && bool_decide (id ∈ keys_of desired) && bool_decide (id ∈ keys_of current))
    keys.

Fixpoint index_of (id : jsstring) (order : list jsstring) : nat :=
  match order with
  | [] => O
  | x :: rest => if bool_decide (x = id) then O else S (index_of id rest)
  end.

(** Where an item goes: after the nearest of the items before it that is already there. *)
Definition insert_position (before order : list jsstring) : nat :=
  match List.find (fun key => bool_decide (key ∈ order)) (rev before) with
  | None | Some [] => O
  | Some predecessor => S (index_of predecessor order)
  end.

Definition insert_item (before : list jsstring) (id : jsstring) (order : list jsstring) : list jsstring :=
  if bool_decide (id ∈ order) then order
  else take (insert_position before order) order ++ id :: drop (insert_position before order) order.

Fixpoint insert_items (before rest order : list jsstring) : list jsstring :=
  match rest with
  | [] => order
  | id :: rest => insert_items (before ++ [id]) rest (insert_item before id order)
  end.

Definition changed_order (base desired current : Items) : bool :=
  negb (bool_decide (common_order base desired current (keys_of base) = common_order base desired current (keys_of desired))).

(** The merged order. *)
Definition merged_order (base desired current : Items) : list jsstring :=
  if changed_order base desired current
  then insert_items [] (keys_of current) (keys_of desired)
  else insert_items [] (keys_of desired) (keys_of current).

Definition order_conflict (base desired current : Items) : bool :=
  changed_order base desired current
  && negb (bool_decide (common_order base desired current (keys_of base) = common_order base desired current (keys_of current)))
  && negb (bool_decide (common_order base desired current (keys_of desired) = common_order base desired current (keys_of current))).

(** The object [merge] takes for the base of two records. *)
Definition recordBase (path : Path) (base : Entry) : option TerminalMultiplexJsonObject :=
  match base with
  | Some (JObj b) => Some b
  | None => if isTerminalTabPath path then Some [] else None
  | _ => None
  end.

(** The items of three arrays that are merged item by item. *)
Definition mergedItems (path : Path) (base desired current : Entry) : option (Items * Items * Items) :=
  match desired, current with
  | Some (JArr d), Some (JArr c) =>
      match base with
      | Some (JArr b) =>
          match keyed b, keyed d, keyed c with
          | Some b, Some d, Some c => Some (b, d, c)
          | _, _, _ => None
          end
      | None =>
          if isTerminalTabCollectionPath path then
            match keyed d, keyed c with Some d, Some c => Some ([], d, c) | _, _ => None end
          else None
      | _ => None
      end
  | _, _ => None
  end.

(** [merge]: the merged entry and the conflicts pushed; [fuel] bounds the levels left. *)
Fixpoint merge (fuel : nat) (force : bool) (path : Path) (base desired current : Entry) : Entry * list Path :=
  match fuel with
  | O => (current, [])
  | S fuel =>
      if equal base desired then (current, []) else
      if equal base current || equal desired current then (desired, []) else
      if (MAX_DEPTH <? List.length path)%nat then (current, [path]) else
      if match path with [root; _] => jsstring_eqb root (js "terminalLayoutsByTabId") | _ => false end
         && (negb (isRecord desired) || negb (isRecord current))
      then (desired, []) else
      match getTerminalLayoutField path with
      | Some tl_root => (mergeTerminalLayoutRoot desired current, [])
      | Some (tl_activeLeafId | tl_expandedLeafId | tl_titlesByLeafId) => (desired, [])
      | Some (tl_ptyIdsByLeafId | tl_buffersByLeafId | tl_scrollbackRefsByLeafId) =>
          (mergeTerminalLeafMap base desired current, [])
      | None =>
      match terminalTabFieldOwner path with
      | Some owner => (resolveTerminalTabField desired current owner, [])
      | None =>
          match recordBase path base, desired, current, mergedItems path base desired current with
          | Some b, Some (JObj d), Some (JObj c), _ =>
              let results := map (fun key =>
                (key, merge fuel force (path ++ [key]) (property key b) (property key d) (property key c)))
                (all_keys b d c) in
              (Some (JObj (from_entries (some_entries (map (fun r => (fst r, fst (snd r))) results)))),
               List.concat (map (fun r => snd (snd r)) results))
          | _, _, _, Some (b, d, c) =>
              let results := map (fun id =>
                (id, merge fuel force (path ++ [id]) (property id b) (property id d) (property id c)))
                (merged_order b d c) in
              (Some (JArr (omap (fun r => fst (snd r)) results)),
               (if order_conflict b d c && negb force then [path ++ [js "$order"]] else [])
                 ++ List.concat (map (fun r => snd (snd r)) results))
          | _, _, _, None =>
              if force then (desired, []) else
              match rootFieldRule path with
              | Some rule => (resolveRootField desired current rule, [])
              | None =>
                  match current with
                  | None => (current, [])
                  | Some _ => (current, [path])
                  end
              end
          end
      end
      end
  end.

Inductive SessionMergeResult :=
  | merged_ok (document : TerminalMultiplexJsonObject)
  | merged_conflict (paths : list jsstring).

Definition MERGE_LEVELS : nat := S (S MAX_DEPTH).

Definition mergeSessionEdit (base desired current : TerminalMultiplexJsonObject) (force : bool) : SessionMergeResult :=
  let '(value, conflicts) := merge MERGE_LEVELS force [] (Some (JObj base)) (Some (JObj desired)) (Some (JObj current)) in
  let paths := map (join (js ".")) conflicts in
  match conflicts, value with
  | [], Some (JObj document) => merged_ok document
  | _, _ => merged_conflict paths
  end.
End merge.

(** ** Properties of an object by key *)

Lemma jsstring_eqb_spec a b : jsstring_eqb a b = true <-> a = b.
Proof. unfold jsstring_eqb. by rewrite bool_decide_eq_true. Qed.

Lemma property_None key props : property key props = None <-> key ∉ props.*1.
Proof.
  induction props as [|[k v] props IH]; cbn; [set_solver|].
  unfold jsstring_eqb. case_bool_decide as E; [set_solver|]. rewrite IH. set_solver.
Qed.

Lemma property_elem key v props : property key props = Some v -> (key, v) ∈ props.
Proof.
  induction props as [|[k w] props IH]; cbn; [done|].
  unfold jsstring_eqb. case_bool_decide as E; [intros H; injection H as ->; subst; left | right; auto].
Qed.

Lemma elem_property key v props : NoDup props.*1 -> (key, v) ∈ props -> property key props = Some v.
Proof.
  induction props as [|[k w] props IH]; cbn; [set_solver|].
  intros [Hk Hn]%NoDup_cons Hin. unfold jsstring_eqb. case_bool_decide as E.
  - subst. apply elem_of_cons in Hin as [Hin|Hin]; [by injection Hin as ->|].
    destruct Hk. apply list_elem_of_fmap. by exists (key, v).
  - apply elem_of_cons in Hin as [Hin|Hin]; [by injection Hin as -> | auto].
Qed.

Lemma property_perm key l m : NoDup l.*1 -> l ≡ₚ m -> property key m = property key l.
Proof.
  intros Hn Hp. assert (Hm : NoDup m.*1) by by rewrite <- Hp.
  destruct (property key l) as [v|] eqn:E.
  - apply property_elem in E. apply elem_property; [done|]. by rewrite <- Hp.
  - apply property_None in E. apply property_None. by rewrite <- Hp.
Qed.

Lemma insert_index_perm e l : insert_index e l ≡ₚ e :: l.
Proof.
  induction l as [|x l IH]; cbn; [done|]. case_if; [|done]. rewrite IH. apply perm_swap.
Qed.

Lemma from_entries_perm es : from_entries es ≡ₚ es.
Proof.
  unfold from_entries.
  assert (H : forall l, foldr insert_index [] l ≡ₚ l).
  { induction l as [|e l IH]; cbn; [done|]. by rewrite insert_index_perm, IH. }
  rewrite H. induction es as [|e es IH]; cbn; [done|]. destruct (is_index e); cbn; [by rewrite IH|].
  by rewrite <- Permutation_middle, IH.
Qed.

Lemma property_from_entries key es : NoDup es.*1 -> property key (from_entries es) = property key es.
Proof. intros H. apply property_perm; [done | symmetry; apply from_entries_perm]. Qed.

Lemma js_set_spec keys : forall seen,
  NoDup (js_set seen keys) /\ forall k, k ∈ js_set seen keys <-> k ∈ keys /\ k ∉ seen.
Proof.
  induction keys as [|x keys IH]; intros seen; cbn; [split; [constructor | set_solver]|].
  case_bool_decide as E.
  - destruct (IH seen) as [H1 H2]. split; [done|]. intros k. rewrite H2, elem_of_cons.
    split; [tauto|]. intros [[->|Hk] Hs]; [done | tauto].
  - destruct (IH (x :: seen)) as [H1 H2]. split.
    + apply NoDup_cons. split; [|done]. intros Hx. apply H2 in Hx as [_ Hx]. apply Hx. by left.
    + intros k. rewrite !elem_of_cons, H2, not_elem_of_cons. destruct (decide (k = x)) as [->|Hk]; tauto.
Qed.

Lemma all_keys_spec b d c :
  NoDup (all_keys b d c) /\
  forall k, k ∉ all_keys b d c -> property k b = None /\ property k d = None /\ property k c = None.
Proof.
  destruct (js_set_spec (object_keys b ++ object_keys d ++ object_keys c) []) as [H1 H2].
  split; [exact H1|]. intros k Hk. rewrite !property_None.
  assert (Hn : k ∉ b.*1 ++ d.*1 ++ c.*1).
  { intros Hin. apply Hk, H2. split; [exact Hin | apply not_elem_of_nil]. }
  by rewrite !not_elem_of_app in Hn.
Qed.

(** The object built from a value for each key. *)
Lemma property_some_entries (f : jsstring -> Entry) key keys : NoDup keys ->
  property key (from_entries (some_entries (map (fun k => (k, f k)) keys))) =
    if decide (key ∈ keys) then f key else None.
Proof.
  intros Hn.
  assert (Hsub : forall l, (some_entries (map (fun k => (k, f k)) l)).*1 `sublist_of` l).
  { induction l as [|k l IH]; cbn; [constructor|]. destruct (f k); cbn; by constructor. }
  assert (Hnd : NoDup (some_entries (map (fun k => (k, f k)) keys)).*1)
    by (eapply sublist_NoDup; [exact Hn | apply Hsub]).
  rewrite property_from_entries by done. case_decide as Hin.
  - destruct (f key) as [v|] eqn:Ef.
    + apply elem_property; [done|]. apply list_elem_of_omap. exists (key, f key). split.
      * rewrite list_elem_of_In. apply in_map_iff. exists key. split; [done|]. by apply list_elem_of_In.
      * cbn. by rewrite Ef.
    + destruct (property _ _) as [v|] eqn:E; [|done]. apply property_elem in E.
      apply list_elem_of_omap in E as ([k e] & Hk & Hv). apply list_elem_of_In, in_map_iff in Hk as (x & Hx & _).
      injection Hx as -> <-. cbn in Hv. destruct (f k) eqn:E2; [|done]. injection Hv as -> ->. congruence.
  - apply property_None. intros H. apply Hin.
    apply (sublist_subseteq _ _ (Hsub keys)). exact H.
Qed.
