(* ===== verification/SessionMergeSpec.v ===== *)
(** What the merge of a session document does: an edit of one side survives whatever the
    other side edits elsewhere, a conflict is reported only where both sides changed a
    value that has no owner, a forced merge reports none, and the order of merged items
    is the one of the side that moved them. *)

From stdpp Require Import base list gmap.
From Stdlib Require Import ZArith Lia ZifyBool String SpecFloat.
From S2P Require Import Prelude JsText Json SessionMerge.

Open Scope Z_scope.

#[local] Set Warnings "-clear-no-such-hyp".

(** Every object in a value has distinct keys. *)
Fixpoint distinct (v : json) : bool :=
  match v with
  | JArr l => forallb distinct l
  | JObj props => bool_decide (NoDup props.*1) && forallb (fun p => distinct (snd p)) props
  | _ => true
  end.

Definition entry_distinct (e : Entry) : Prop := match e with Some v => distinct v = true | None => True end.

Lemma distinct_keys props : distinct (JObj props) = true -> NoDup props.*1.
Proof. cbn. rewrite andb_true_iff, bool_decide_eq_true. by intros [H _]. Qed.

Lemma distinct_property key props : distinct (JObj props) = true -> entry_distinct (property key props).
Proof.
  cbn. rewrite andb_true_iff. intros [_ H]. destruct (property key props) as [v|] eqn:E; [|done].
  apply property_elem, list_elem_of_In in E. rewrite forallb_forall in H. exact (H _ E).
Qed.

Section spec.
Context (identical : json -> json -> bool).
Context (identical_eq : forall a b, identical a b = true -> a = b).

#[local] Abbreviation strict_equal := (strict_equal identical).
#[local] Abbreviation equal_within := (equal_within identical).
#[local] Abbreviation equal := (equal identical).

(** ** Equality *)

Lemma SFeqb_spec x y : SFeqb x y = true ->
  x = y \/ (exists s t, x = S754_zero s /\ y = S754_zero t).
Proof.
  unfold SFeqb, SFcompare.
  destruct x as [[]|[]| |[] m e], y as [[]|[]| |[] n f]; try done;
    try (intros _; by left); try (intros _; right; by eexists _, _).
  all: destruct (Z.compare_spec e f) as [->| |]; try done.
  all: intros H; left; destruct (Pos.compare_cont Eq m n) eqn:E; try done.
  all: apply Pos.compare_eq in E; by subst.
Qed.

Lemma SFeqb_refl x : x = S754_nan \/ SFeqb x x = true.
Proof.
  unfold SFeqb, SFcompare. destruct x as [[]|[]| |[] m e]; try (by left); right; try done.
  all: by rewrite Z.compare_refl, Pos.compare_cont_refl.
Qed.

Lemma SFeqb_sym x y : SFeqb x y = true -> SFeqb y x = true.
Proof. intros H. destruct (SFeqb_spec _ _ H) as [->|(s & t & -> & ->)]; done. Qed.

Lemma SFeqb_trans x y z : SFeqb x y = true -> SFeqb y z = true -> SFeqb x z = true.
Proof.
  intros H1 H2. destruct (SFeqb_spec _ _ H1) as [->|(s & t & -> & ->)]; [done|].
  by destruct (SFeqb_spec _ _ H2) as [<-|(s' & t' & E & ->)].
Qed.

Lemma strict_equal_sym a b : strict_equal a b = true -> strict_equal b a = true.
Proof.
  destruct a, b; cbn; try done.
  - intros H. apply Bool.eqb_prop in H as ->. apply Bool.eqb_reflx.
  - apply SFeqb_sym.
  - intros H. apply jsstring_eqb_spec in H as ->. by apply jsstring_eqb_spec.
  - intros H. pose proof (identical_eq _ _ H) as E. by rewrite <- E in *.
  - intros H. pose proof (identical_eq _ _ H) as E. by rewrite <- E in *.
Qed.

Lemma strict_equal_trans a b c : strict_equal a b = true -> strict_equal b c = true -> strict_equal a c = true.
Proof.
  destruct a, b; cbn; try done; destruct c; cbn; try done.
  - intros H. by apply Bool.eqb_prop in H as ->.
  - apply SFeqb_trans.
  - intros H. by apply jsstring_eqb_spec in H as ->.
  - intros H. by rewrite (identical_eq _ _ H).
  - intros H. by rewrite (identical_eq _ _ H).
Qed.

Lemma array_equal n l m :
  ((List.length l =? List.length m)%nat
   && forallb (fun p => equal_within n (Some (fst p)) (Some (snd p))) (combine l m)) = true <->
  Forall2 (fun x y => equal_within n (Some x) (Some y) = true) l m.
Proof.
  revert m. induction l as [|x l IH]; intros [|y m]; cbn [List.length combine forallb].
  - split; [constructor | done].
  - split; [done | by inversion 1].
  - split; [done | by inversion 1].
  - specialize (IH m). change (S (List.length l) =? S (List.length m))%nat with (List.length l =? List.length m)%nat.
    cbn [fst snd]. rewrite !andb_true_iff in *. split.
    + intros (H1 & H2 & H3). constructor; [done | by apply IH].
    + inversion 1 as [|? ? ? ? Hxy Hlm]; subst. apply IH in Hlm. tauto.
Qed.

Lemma record_equal n p q : NoDup p.*1 -> NoDup q.*1 ->
  ((List.length p =? List.length q)%nat
   && forallb (fun e => hasOwn (fst e) q && equal_within n (property (fst e) p) (property (fst e) q)) p) = true <->
  p.*1 ≡ₚ q.*1 /\ forall key, key ∈ p.*1 -> equal_within n (property key p) (property key q) = true.
Proof.
  intros Hp Hq. rewrite andb_true_iff, Nat.eqb_eq, forallb_forall. split.
  - intros [Hlen Hall].
    assert (Hin : forall key, key ∈ p.*1 -> hasOwn key q = true /\ equal_within n (property key p) (property key q) = true).
    { intros key Hkey. apply list_elem_of_fmap in Hkey as ([k v] & -> & Hkv). apply list_elem_of_In in Hkv.
      specialize (Hall _ Hkv). by apply andb_true_iff in Hall. }
    split; [|intros key Hkey; by apply Hin].
    apply submseteq_length_Permutation; [|rewrite !length_fmap; lia].
    apply NoDup_submseteq; [done|]. intros key Hkey. destruct (Hin key Hkey) as [Ho _]. unfold hasOwn in Ho.
    destruct (property key q) eqn:E; [|done]. apply property_elem in E. apply list_elem_of_fmap. by eexists (_, _).
  - intros [Hperm Hall]. split.
    + apply Permutation_length in Hperm. by rewrite !length_fmap in Hperm.
    + intros [k v] Hkv%list_elem_of_In. cbn [fst].
      assert (Hk : k ∈ p.*1) by (apply list_elem_of_fmap; by exists (k, v)).
      rewrite andb_true_iff. split; [|by apply Hall]. unfold hasOwn. rewrite Hperm in Hk.
      destruct (property k q) eqn:E; [done|]. by apply property_None in E.
Qed.

Lemma forallb_weaken {A} (f g : A -> bool) l : (forall x, f x = true -> g x = true) ->
  forallb f l = true -> forallb g l = true.
Proof. rewrite !forallb_forall. auto. Qed.

Lemma equal_mono n m a b : (n <= m)%nat -> equal_within n a b = true -> equal_within m a b = true.
Proof.
  intros Hnm. induction Hnm as [|m Hnm IH]; [done|]. intros H. specialize (IH H). clear H Hnm.
  revert a b IH. induction m as [|m IH]; [done|]. intros [x|] [y|] H; try done.
  cbn [SessionMerge.equal_within] in H |- *. apply orb_true_iff in H as [H|H]; [by rewrite H|].
  apply orb_true_iff. right. destruct x, y; try done.
  - apply andb_true_iff in H as [H1 H2]. rewrite H1. cbn [andb].
    revert H2. apply forallb_weaken. intros p. apply IH.
  - apply andb_true_iff in H as [H1 H2]. rewrite H1. cbn [andb].
    revert H2. apply forallb_weaken. intros p. rewrite !andb_true_iff. intros [Ho Hp]. split; [done | by apply IH].
Qed.

Lemma array_distinct l x : distinct (JArr l) = true -> x ∈ l -> distinct x = true.
Proof. cbn. rewrite forallb_forall. intros H Hx. by apply H, list_elem_of_In. Qed.

Lemma Forall2_sym_within (P Q : json -> json -> Prop) (D : json -> Prop) l m :
  (forall x y, D x -> D y -> P x y -> Q y x) -> (forall x, x ∈ l -> D x) -> (forall y, y ∈ m -> D y) ->
  Forall2 P l m -> Forall2 Q m l.
Proof.
  intros HPQ Hl Hm H. induction H as [|x y l m Hxy H IH]; constructor.
  - apply HPQ; [apply Hl; left | apply Hm; left | done].
  - apply IH; intros z Hz; [apply Hl | apply Hm]; by right.
Qed.

Lemma equal_sym n a b : entry_distinct a -> entry_distinct b ->
  equal_within n a b = true -> equal_within n b a = true.
Proof.
  revert a b. induction n as [|n IH]; [done|]. intros [x|] [y|] Ha Hb H; try done.
  cbn [SessionMerge.equal_within] in H |- *. apply orb_true_iff in H as [H|H];
    [by rewrite (strict_equal_sym _ _ H)|]. apply orb_true_iff. right.
  destruct x as [| | | |l|p], y as [| | | |m|q]; try done.
  - apply array_equal in H. apply array_equal.
    eapply (Forall2_sym_within _ _ (fun x => distinct x = true)); [|..|exact H].
    + intros x y Hx Hy. by apply (IH (Some x) (Some y)).
    + intros x. by apply array_distinct.
    + intros x. by apply array_distinct.
  - cbn [entry_distinct] in Ha, Hb. pose proof (distinct_keys _ Ha). pose proof (distinct_keys _ Hb).
    apply record_equal in H as [P1 E1]; [|done|done]. apply record_equal; [done|done|].
    split; [done|]. intros key Hkey. apply IH; [by apply distinct_property..|].
    apply E1. by rewrite P1.
Qed.

Lemma equal_trans n a b c : entry_distinct a -> entry_distinct b -> entry_distinct c ->
  equal_within n a b = true -> equal_within n b c = true -> equal_within n a c = true.
Proof.
  revert a b c. induction n as [|n IH]; [done|]. intros [x|] [y|] [z|] Ha Hb Hc H1 H2; try done.
  - cbn [SessionMerge.equal_within] in *. apply orb_true_iff in H1 as [H1|H1], H2 as [H2|H2].
    + rewrite (strict_equal_trans _ _ _ H1 H2). done.
    + destruct y, z; try done; destruct x; try done.
      all: cbn in H1; injection (identical_eq _ _ H1) as ->; rewrite H2; apply orb_true_r.
    + destruct x, y; try done; destruct z; try done.
      all: cbn in H2; injection (identical_eq _ _ H2) as <-; rewrite H1; apply orb_true_r.
    + apply orb_true_iff. right. destruct x as [| | | |l|p], y as [| | | |m|q], z as [| | | |k|r]; try done.
      * apply array_equal in H1, H2. apply array_equal. cbn [entry_distinct] in *.
        revert k Hc H2. induction H1 as [|x y l m Hxy Hlm IHl]; intros k Hc Hk; [exact Hk|].
        inversion Hk as [|? z ? k' Hyz Hmk]; subst.
        cbn in Ha, Hb, Hc. apply andb_true_iff in Ha as [? Ha], Hb as [? Hb], Hc as [? Hc].
        constructor; [by apply (IH (Some x) (Some y) (Some z)) | by apply IHl].
      * cbn [entry_distinct] in Ha, Hb, Hc.
        pose proof (distinct_keys _ Ha). pose proof (distinct_keys _ Hb). pose proof (distinct_keys _ Hc).
        apply record_equal in H1 as [P1 E1]; [|done|done]. apply record_equal in H2 as [P2 E2]; [|done|done].
        apply record_equal; [done|done|]. split; [by rewrite P1|]. intros key Hkey.
        apply (IH _ (property key q)); [by apply distinct_property.. | by apply E1|].
        apply E2. by rewrite <- P1.
  - cbn in H2 |- *. destruct y; try done. by destruct x.
  - cbn in *. by destruct x, z.
  - cbn in *. destruct y; try done. by destruct z.
Qed.

(** ** Values at a path *)

(** The value under a key: a property of a record, or the item of that id. *)
Definition child (key : jsstring) (e : Entry) : Entry :=
  match e with
  | Some (JObj props) => property key props
  | Some (JArr l) => match keyed l with Some items => property key items | None => None end
  | _ => None
  end.

Fixpoint at_path (path : list jsstring) (e : Entry) : Entry :=
  match path with
  | [] => e
  | key :: rest => at_path rest (child key e)
  end.

(** Every proper prefix of the path leads to a record. *)
Fixpoint record_path (path : list jsstring) (e : Entry) : bool :=
  match path with
  | [] => true
  | key :: rest => isRecord e && record_path rest (child key e)
  end.

(** Two values the merge does not tell apart. *)
Definition same (a b : Entry) : Prop := a = b \/ equal a b = true.

Lemma same_sym a b : entry_distinct a -> entry_distinct b -> same a b -> same b a.
Proof. intros Ha Hb [->|H]; [by left | right; by apply equal_sym]. Qed.

Lemma same_trans a b c : entry_distinct a -> entry_distinct b -> entry_distinct c ->
  same a b -> same b c -> same a c.
Proof.
  intros Ha Hb Hc [->|H1] [->|H2]; [by left | by right | by right |].
  right. by apply (equal_trans _ a b c).
Qed.

Lemma at_None path : at_path path None = None.
Proof. induction path as [|k rest IH]; cbn; [done | exact IH]. Qed.

Lemma record_child key e : isRecord e = true -> entry_distinct e -> entry_distinct (child key e).
Proof. destruct e as [[| | | | |p]|]; try done. intros _. apply distinct_property. Qed.

Lemma record_equal_within n key a b : isRecord a = true -> isRecord b = true ->
  entry_distinct a -> entry_distinct b ->
  equal_within (S n) a b = true -> child key a = child key b \/ n = 0%nat \/ equal_within n (child key a) (child key b) = true.
Proof.
  destruct a as [[| | | | |p]|], b as [[| | | | |q]|]; try done. intros _ _ Ha Hb.
  cbn [SessionMerge.equal_within]. rewrite orb_true_iff. intros [H|H].
  { cbn in H. injection (identical_eq _ _ H) as ->. by left. }
  right. destruct n as [|n]; [by left | right]. cbn [child]. cbn [entry_distinct] in Ha, Hb.
  apply record_equal in H as [Hperm Hkeys]; [|by apply distinct_keys..].
  destruct (decide (key ∈ p.*1)) as [Hin|Hout]; [by apply Hkeys|].
  assert (Hq : key ∉ q.*1) by by rewrite <- Hperm.
  apply property_None in Hout, Hq. by rewrite Hout, Hq.
Qed.

Lemma record_equal_child key a b : isRecord a = true -> isRecord b = true -> entry_distinct a -> entry_distinct b ->
  equal a b = true -> same (child key a) (child key b).
Proof.
  intros Ra Rb Ha Hb H. destruct (record_equal_within MAX_DEPTH key a b Ra Rb Ha Hb H) as [E|[E|E]].
  - by left.
  - discriminate E.
  - right. by apply (equal_mono MAX_DEPTH); [apply le_S, le_n|].
Qed.

(** What two records that are equal hold at a path is the same. *)
Lemma equal_at path : forall a b, record_path path a = true -> record_path path b = true ->
  entry_distinct a -> entry_distinct b -> same a b ->
  entry_distinct (at_path path a) /\ entry_distinct (at_path path b) /\ same (at_path path a) (at_path path b).
Proof.
  induction path as [|k rest IH]; intros a b Ra Rb Da Db H; [done|].
  cbn in Ra, Rb |- *. apply andb_true_iff in Ra as [Ra Ra'], Rb as [Rb Rb'].
  apply IH; [done | done | by apply record_child | by apply record_child |].
  destruct H as [->|H]; [by left | by apply record_equal_child].
Qed.

(** ** Edits of one side *)

(** No proper prefix of the path is a field that an owner decides. *)
Definition undivided (path : Path) : bool :=
  (List.length path <=? 3)%nat
  || match path with
     | root :: _ => negb (jsstring_eqb root (js "terminalLayoutsByTabId")) && negb (jsstring_eqb root (js "tabsByWorktree"))
     | [] => true
     end.

Lemma undivided_prefix pre key rest : undivided (pre ++ key :: rest) = true ->
  getTerminalLayoutField pre = None /\ terminalTabFieldOwner pre = None.
Proof.
  unfold undivided. rewrite length_app. cbn [List.length]. intros [H|H]%orb_true_iff.
  - apply Nat.leb_le in H. destruct pre as [|x [|y [|z pre]]]; cbn [List.length] in H; [done..|lia].
  - destruct pre as [|root pre]; [done|]. cbn [app] in H. rewrite andb_true_iff, !negb_true_iff in H.
    destruct H as [H1 H2]. split; destruct pre as [|y [|z [|w pre]]]; cbn [getTerminalLayoutField terminalTabFieldOwner];
      by rewrite ?H1, ?H2.
Qed.

(** One level of the merge of three records on such a path. *)
Lemma merge_records fuel force pre key rest b d c : undivided (pre ++ key :: rest) = true ->
  (List.length pre <= MAX_DEPTH)%nat -> isRecord b = true -> isRecord d = true -> isRecord c = true ->
  equal b d = false -> equal b c = false -> equal d c = false ->
  let result := fst (merge identical (S fuel) force pre b d c) in
  isRecord result = true /\
  child key result =
    if decide (child key b = None /\ child key d = None /\ child key c = None) then None
    else fst (merge identical fuel force (pre ++ [key]) (child key b) (child key d) (child key c)).
Proof.
  intros Hu Hlen Rb Rd Rc E1 E2 E3. destruct (undivided_prefix _ _ _ Hu) as [F1 F2].
  destruct b as [[| | | | |b]|], d as [[| | | | |d]|], c as [[| | | | |c]|]; try done.
  cbn [merge]. rewrite E1, E2, E3, F1, F2. cbn [orb].
  replace (MAX_DEPTH <? List.length pre)%nat with false by (symmetry; apply Nat.ltb_ge; exact Hlen).
  cbn [isRecord negb orb]. rewrite andb_false_r. cbn [recordBase fst]. split; [done|].
  cbn [child]. rewrite map_map. cbn [fst snd].
  destruct (all_keys_spec b d c) as [Hnd Hout].
  rewrite (property_some_entries
    (fun k => fst (merge identical fuel force (pre ++ [k]) (property k b) (property k d) (property k c)))) by done.
  case_decide as Hin; case_decide as Hnone; try done.
  - destruct Hnone as (N1 & N2 & N3). rewrite N1, N2, N3. destruct fuel; reflexivity.
  - by destruct (Hnone (Hout _ Hin)).
Qed.

Lemma merge_unchanged fuel force path b d c : equal b d = true ->
  merge identical (S fuel) force path b d c = (c, []).
Proof. intros H. cbn [merge]. by rewrite H. Qed.

Lemma merge_current fuel force path b d c : equal b d = false -> equal b c || equal d c = true ->
  merge identical (S fuel) force path b d c = (d, []).
Proof. intros H1 H2. cbn [merge]. by rewrite H1, H2. Qed.

(** What the merge owes at a path: an edit of one side there survives. *)
Definition keeps_edits (path : list jsstring) (b d c result : Entry) : Prop :=
  (equal (at_path path b) (at_path path d) = true -> same (at_path path result) (at_path path c)) /\
  (equal (at_path path b) (at_path path c) = true -> same (at_path path result) (at_path path d)).

Section early.
Context (path : list jsstring) (b d c : Entry).
Context (Rb : record_path path b = true) (Rd : record_path path d = true) (Rc : record_path path c = true).
Context (Db : entry_distinct b) (Dd : entry_distinct d) (Dc : entry_distinct c).

Lemma keeps_current : equal b d = true -> keeps_edits path b d c c.
Proof.
  intros E. destruct (equal_at path b d) as (Hb & Hd & H); [done..| by right |].
  destruct (equal_at path c c) as (Hc & _ & _); [done..| by left |].
  split; [by left|]. intros H'. apply (same_trans _ (at_path path b)); [done..| | done].
  apply same_sym; [done.. | by right].
Qed.

Lemma keeps_desired : equal b c || equal d c = true -> keeps_edits path b d c d.
Proof.
  intros E. split; [|by left]. intros H'.
  destruct (equal_at path b b) as (Hb & _ & _); [done..| by left |].
  apply orb_true_iff in E as [E|E].
  - destruct (equal_at path b c) as (_ & Hc & H); [done..| by right |].
    destruct (equal_at path d d) as (Hd & _ & _); [done..| by left |].
    apply (same_trans _ (at_path path b)); [done..| | done]. apply same_sym; [done.. | by right].
  - by destruct (equal_at path d c) as (Hd & Hc & H); [done..| by right |].
Qed.
End early.

Lemma one_sided path : forall fuel force pre b d c,
  (List.length path < fuel)%nat -> (List.length pre + List.length path <= S MAX_DEPTH)%nat ->
  undivided (pre ++ path) = true ->
  record_path path b = true -> record_path path d = true -> record_path path c = true ->
  entry_distinct b -> entry_distinct d -> entry_distinct c ->
  keeps_edits path b d c (fst (merge identical fuel force pre b d c)).
Proof.
  induction path as [|k rest IH]; intros [|fuel] force pre b d c Hfuel Hdepth Hu Rb Rd Rc Db Dd Dc;
    cbn [List.length] in Hfuel, Hdepth; try lia.
  all: destruct (equal b d) eqn:E1;
    [rewrite (merge_unchanged _ _ _ _ _ _ E1); by apply keeps_current|].
  all: destruct (equal b c || equal d c) eqn:E2;
    [rewrite (merge_current _ _ _ _ _ _ E1 E2); by apply keeps_desired|].
  - apply orb_false_iff in E2 as [E2 E3]. unfold keeps_edits. cbn [at_path]. by rewrite E1, E2.
  - apply orb_false_iff in E2 as [E2 E3]. cbn [record_path] in Rb, Rd, Rc.
    apply andb_true_iff in Rb as [Rb Rb'], Rd as [Rd Rd'], Rc as [Rc Rc'].
    assert (Hpre : (List.length pre <= MAX_DEPTH)%nat) by (clear - Hdepth; lia).
    destruct (merge_records fuel force pre k rest b d c Hu Hpre Rb Rd Rc E1 E2 E3) as [_ Hchild].
    unfold keeps_edits. cbn [at_path]. rewrite Hchild. case_decide as Hnone.
    + destruct Hnone as (-> & -> & ->). rewrite !at_None. by split; left.
    + apply IH; [clear - Hfuel; lia | rewrite length_app; cbn [List.length]; clear - Hdepth; lia | by rewrite <- app_assoc | done..| | |];
        by apply record_child.
Qed.

(** ** Conflicts *)

(** The orders of the items of three arrays, all moved differently. *)
Definition order_moved (path : Path) (b d c : Entry) : Prop :=
  exists items_b items_d items_c,
    mergedItems path b d c = Some (items_b, items_d, items_c) /\ order_conflict items_b items_d items_c = true.

(** A conflict at [rest] under three entries at [pre]: a value that each side changed
    differently, that the authority still has and that no owner or rule decides; or items
    that both sides moved; or a value nested too deep. *)
Inductive conflict_at (force : bool) (pre : Path) (b d c : Entry) : Path -> Prop :=
  | conflict_value rest :
      force = false ->
      equal (at_path rest b) (at_path rest d) = false ->
      equal (at_path rest b) (at_path rest c) = false ->
      equal (at_path rest d) (at_path rest c) = false ->
      at_path rest c <> None ->
      getTerminalLayoutField (pre ++ rest) = None ->
      terminalTabFieldOwner (pre ++ rest) = None ->
      rootFieldRule (pre ++ rest) = None ->
      conflict_at force pre b d c (pre ++ rest)
  | conflict_order rest :
      force = false ->
      order_moved (pre ++ rest) (at_path rest b) (at_path rest d) (at_path rest c) ->
      conflict_at force pre b d c ((pre ++ rest) ++ [js "$order"])
  | conflict_depth rest :
      (MAX_DEPTH < List.length (pre ++ rest))%nat ->
      equal (at_path rest b) (at_path rest d) = false ->
      conflict_at force pre b d c (pre ++ rest).

Lemma conflict_child force pre key b d c p :
  conflict_at force (pre ++ [key]) (child key b) (child key d) (child key c) p ->
  conflict_at force pre b d c p.
Proof.
  assert (E : forall rest, (pre ++ [key]) ++ rest = pre ++ key :: rest) by (intros; by rewrite <- app_assoc).
  intros H. destruct H as [rest| |]; rewrite E in *.
  - by apply (conflict_value force pre b d c (key :: rest)).
  - by apply (conflict_order force pre b d c (key :: rest)).
  - by apply (conflict_depth force pre b d c (key :: rest)).
Qed.

Lemma in_results {A} (f : A -> Entry * list Path) p keys :
  p ∈ List.concat (map (fun r => snd (snd r)) (map (fun k => (k, f k)) keys)) ->
  exists key, key ∈ keys /\ p ∈ snd (f key).
Proof.
  induction keys as [|k keys IH]; cbn; [by intros ?%not_elem_of_nil|].
  intros [H|H]%elem_of_app; [exists k; split; [left | done]|].
  destruct (IH H) as (key & Hk & Hp). exists key. split; [by right | done].
Qed.

Lemma record_base_child path b props key : recordBase path b = Some props -> property key props = child key b.
Proof. destruct b as [[| | | | |p]|]; cbn; try done; [by intros [= ->] | case_if; by intros [= <-]]. Qed.

Lemma merged_items_child path b d c ib id' ic key : mergedItems path b d c = Some (ib, id', ic) ->
  property key ib = child key b /\ property key id' = child key d /\ property key ic = child key c.
Proof.
  unfold mergedItems. destruct d as [[| | | |d| ]|], c as [[| | | |c| ]|], b as [[| | | |b| ]|]; try done; cbn [child].
  - destruct (keyed b), (keyed d), (keyed c); try done. by intros [= -> -> ->].
  - case_if; [|done]. destruct (keyed d), (keyed c); try done. by intros [= <- -> ->].
Qed.

(** One level of the merge. *)
Definition part_results (f : jsstring -> Entry * list Path) (keys : list jsstring) : list (jsstring * (Entry * list Path)) :=
  map (fun k => (k, f k)) keys.

Inductive merge_view (fuel : nat) (force : bool) (path : Path) (b d c : Entry) : Entry * list Path -> Prop :=
  | view_current : equal b d = true -> merge_view fuel force path b d c (c, [])
  | view_desired : equal b d = false -> equal b c || equal d c = true -> merge_view fuel force path b d c (d, [])
  | view_deep : equal b d = false -> (MAX_DEPTH < List.length path)%nat -> merge_view fuel force path b d c (c, [path])
  | view_owned v : path <> [] -> merge_view fuel force path b d c (v, [])
  | view_records pb pd pc :
      recordBase path b = Some pb -> d = Some (JObj pd) -> c = Some (JObj pc) ->
      let parts := part_results (fun key => merge identical fuel force (path ++ [key])
        (property key pb) (property key pd) (property key pc)) (all_keys pb pd pc) in
      merge_view fuel force path b d c
        (Some (JObj (from_entries (some_entries (map (fun r => (fst r, fst (snd r))) parts)))),
         List.concat (map (fun r => snd (snd r)) parts))
  | view_items ib id' ic :
      mergedItems path b d c = Some (ib, id', ic) ->
      let parts := part_results (fun key => merge identical fuel force (path ++ [key])
        (property key ib) (property key id') (property key ic)) (merged_order ib id' ic) in
      merge_view fuel force path b d c
        (Some (JArr (omap (fun r => fst (snd r)) parts)),
         (if order_conflict ib id' ic && negb force then [path ++ [js "$order"]] else [])
           ++ List.concat (map (fun r => snd (snd r)) parts))
  | view_leaf v ps :
      equal b d = false -> equal b c = false -> equal d c = false ->
      getTerminalLayoutField path = None -> terminalTabFieldOwner path = None ->
      (recordBase path b = None \/ isRecord d = false \/ isRecord c = false) ->
      ps = [] \/ (force = false /\ rootFieldRule path = None /\ c <> None /\ ps = [path]) ->
      merge_view fuel force path b d c (v, ps).

Lemma merge_step fuel force path b d c :
  merge_view fuel force path b d c (merge identical (S fuel) force path b d c).
Proof.
  cbn [merge]. destruct (equal b d) eqn:E1; [by apply view_current|].
  destruct (equal b c || equal d c) eqn:E2; [by apply view_desired|].
  destruct (MAX_DEPTH <? List.length path)%nat eqn:E4; [apply view_deep; [done | by apply Nat.ltb_lt]|].
  case_match; [apply view_owned; intros ->; done|].
  destruct (getTerminalLayoutField path) as [f|] eqn:E5.
  { assert (path <> []) by (intros ->; done). destruct f; by apply view_owned. }
  destruct (terminalTabFieldOwner path) eqn:E6; [apply view_owned; intros ->; done|].
  apply orb_false_iff in E2 as [E2 E3].
  assert (Hleaf : recordBase path b = None \/ isRecord d = false \/ isRecord c = false ->
    merge_view fuel force path b d c (if force then (d, []) else
      match rootFieldRule path with
      | Some rule => (resolveRootField identical d c rule, [])
      | None => match c with None => (c, []) | Some _ => (c, [path]) end
      end)).
  { intros Hr. destruct force; [by apply view_leaf; try done; left|].
    destruct (rootFieldRule path) eqn:E7; [by apply view_leaf; try done; left|].
    destruct c; apply view_leaf; try done; [right | left]; done. }
  destruct (recordBase path b) as [pb|] eqn:Er.
  - destruct d as [[| | | |ld|pd]|], c as [[| | | |lc|pc]|];
      try (apply Hleaf; right; first [by left | by right]); [|by apply view_records].
    destruct (mergedItems path b (Some (JArr ld)) (Some (JArr lc))) as [[[ib id'] ic]|] eqn:Ei; [by apply view_items|].
    apply Hleaf. by right; left.
  - destruct (mergedItems path b d c) as [[[ib id'] ic]|] eqn:Ei; [by apply view_items|].
    apply Hleaf. by left.
Qed.

Lemma conflict_sound fuel : forall force pre b d c p,
  p ∈ snd (merge identical fuel force pre b d c) -> conflict_at force pre b d c p.
Proof.
  induction fuel as [|fuel IH]; intros force pre b d c p; [by intros ?%not_elem_of_nil|].
  destruct (merge_step fuel force pre b d c)
    as [| | E1 Hdeep | |pb pd pc Hb -> -> parts|ib id' ic Hi parts|v ps E1 E2 E3 F1 F2 _ Hps]; cbn [snd].
  - by intros ?%not_elem_of_nil.
  - by intros ?%not_elem_of_nil.
  - intros ->%list_elem_of_singleton. pose proof (conflict_depth force pre b d c []) as Hc.
    rewrite !app_nil_r in Hc. by apply Hc.
  - by intros ?%not_elem_of_nil.
  - intros (key & _ & Hp)%in_results. apply (conflict_child _ _ key), IH.
    rewrite <- (record_base_child _ _ _ key Hb). exact Hp.
  - intros [Hp|(key & _ & Hp)%in_results]%elem_of_app.
    + destruct (order_conflict ib id' ic && negb force) eqn:Eo; [|by apply not_elem_of_nil in Hp].
      apply list_elem_of_singleton in Hp as ->. apply andb_true_iff in Eo as [Eo Ef]. apply negb_true_iff in Ef.
      pose proof (conflict_order force pre b d c []) as Hc. rewrite !app_nil_r in Hc.
      apply Hc; [done | by exists ib, id', ic].
    + destruct (merged_items_child _ _ _ _ _ _ _ key Hi) as (H1 & H2 & H3).
      rewrite H1, H2, H3 in Hp. by apply (conflict_child _ _ key), IH.
  - destruct Hps as [->|(-> & F3 & Hc & ->)]; [by intros ?%not_elem_of_nil|].
    intros ->%list_elem_of_singleton. pose proof (conflict_value false pre b d c []) as Hv.
    rewrite !app_nil_r in Hv. by apply Hv.
Qed.

(** ** Levels *)

Lemma merge_fuel n : forall m force path b d c,
  (List.length path <= S MAX_DEPTH)%nat ->
  (MERGE_LEVELS <= n + List.length path)%nat -> (MERGE_LEVELS <= m + List.length path)%nat ->
  merge identical n force path b d c = merge identical m force path b d c.
Proof.
  induction n as [|n IH]; intros [|m] force path b d c Hlen Hn Hm;
    [unfold MERGE_LEVELS, MAX_DEPTH in *; lia..|].
  cbn [merge]. destruct (equal b d); [done|]. destruct (equal b c || equal d c); [done|].
  destruct (MAX_DEPTH <? List.length path)%nat eqn:E; [done|]. apply Nat.ltb_ge in E.
  assert (Hpart : forall (pb pd pc : TerminalMultiplexJsonObject) keys,
    map (fun key => (key, merge identical n force (path ++ [key]) (property key pb) (property key pd) (property key pc))) keys =
    map (fun key => (key, merge identical m force (path ++ [key]) (property key pb) (property key pd) (property key pc))) keys).
  { intros pb pd pc keys. apply map_ext. intros key. f_equal.
    apply IH; rewrite length_app; cbn [List.length]; clear - E Hn Hm; lia. }
  case_match; [done|]. destruct (getTerminalLayoutField path); [done|].
  destruct (terminalTabFieldOwner path); [done|].
  destruct (recordBase path b), d as [[| | | | |]|], c as [[| | | | |]|];
    try match goal with |- context [mergedItems ?p ?x ?y ?z] => destruct (mergedItems p x y z) as [[[ib id'] ic]|] end;
    cbv zeta; by rewrite ?Hpart.
Qed.

(** ** Forced merges *)

Fixpoint height (v : json) : nat :=
  match v with
  | JArr l => S (list_max (map height l))
  | JObj props => S (list_max (map (fun p => height (snd p)) props))
  | _ => 0
  end.

Lemma height_le (l : list nat) n : In n l -> (n <= list_max l)%nat.
Proof.
  induction l as [|x l IH]; [done|]. change (list_max (x :: l)) with (Nat.max x (list_max l)).
  intros [->|H]; [lia | specialize (IH H); lia].
Qed.

Lemma keyed_from_spec values : forall items result, keyed_from items values = Some result ->
  NoDup (keys_of items) -> NoDup (keys_of result) /\ forall e, e ∈ result -> e ∈ items \/ snd e ∈ values.
Proof.
  induction values as [|v values IH]; intros items result; cbn [keyed_from].
  { intros [= ->] Hn. split; [done | by left]. }
  destruct v as [| | | | |props]; try done. destruct (property (js "id") props) as [[| | |id| |]|]; try done.
  case_bool_decide as E; [done|]. intros H Hn. apply IH in H as [H1 H2].
  - split; [done|]. intros e He. destruct (H2 e He) as [[Hi|Hi]%elem_of_app|Hi]; [by left | | right; by right].
    apply list_elem_of_singleton in Hi as ->. right. left.
  - unfold keys_of in *. rewrite fmap_app. apply NoDup_app. split; [done|]. split.
    + intros x Hx ->%list_elem_of_singleton. done.
    + apply NoDup_singleton.
Qed.

Lemma keyed_spec values items : keyed values = Some items ->
  NoDup (keys_of items) /\ forall e, e ∈ items -> snd e ∈ values.
Proof.
  intros H. apply keyed_from_spec in H as [H1 H2]; [|constructor]. split; [done|].
  intros e He. destruct (H2 e He) as [Hn|Hv]; [by apply not_elem_of_nil in Hn | done].
Qed.

Lemma height_child key v w : child key (Some v) = Some w -> (S (height w) <= height v)%nat.
Proof.
  destruct v as [| | | |l|props]; try done; cbn [child height].
  - destruct (keyed l) as [items|] eqn:E; [|done]. intros H%property_elem.
    apply keyed_spec in E as [_ E]. apply E in H. cbn [snd] in H. apply le_n_S, height_le, in_map. by apply list_elem_of_In.
  - intros H%property_elem. apply le_n_S, height_le, in_map_iff. exists (key, w). split; [done | by apply list_elem_of_In].
Qed.

Lemma height_at path : forall v, (height v < List.length path)%nat -> at_path path (Some v) = None.
Proof.
  induction path as [|key path IH]; intros v H; cbn [List.length] in H; [lia|]. cbn [at_path].
  destruct (child key (Some v)) as [w|] eqn:E; [|apply at_None]. apply height_child in E. apply IH. lia.
Qed.

(** The merge of three records is a record. *)
Lemma merge_root_record fuel force b d c :
  exists document, fst (merge identical (S fuel) force [] (Some (JObj b)) (Some (JObj d)) (Some (JObj c))) = Some (JObj document).
Proof.
  destruct (merge_step fuel force [] (Some (JObj b)) (Some (JObj d)) (Some (JObj c)))
    as [| | E1 Hdeep | |pb pd pc|ib id' ic Hi parts|v ps _ _ _ _ _ [H|[H|H]]]; try done; by eexists.
Qed.

(** ** The order of merged items *)

Lemma insert_item_spec before id order : NoDup order ->
  NoDup (insert_item before id order) /\ order `sublist_of` insert_item before id order /\
  (forall x, x ∈ insert_item before id order <-> x = id \/ x ∈ order) /\
  (forall P : jsstring -> bool, (P id = true -> id ∈ order) ->
     List.filter P (insert_item before id order) = List.filter P order).
Proof.
  intros Hn. unfold insert_item. case_bool_decide as E.
  { split_and!; try done. intros x. split; [by right | by intros [->|]]. }
  generalize (insert_position before order).
  intros n. assert (Hp : take n order ++ id :: drop n order ≡ₚ id :: order)
    by (by rewrite <- Permutation_middle, take_drop).
  split_and!.
  - rewrite Hp. by apply NoDup_cons.
  - rewrite <- (take_drop n order) at 1. apply sublist_app; [done | by constructor].
  - intros x. by rewrite Hp, elem_of_cons.
  - intros P HP. rewrite <- (take_drop n order) at 3. rewrite !List.filter_app. cbn.
    destruct (P id); [by destruct (E (HP eq_refl)) | done].
Qed.

Lemma insert_items_spec rest : forall before order, NoDup order ->
  NoDup (insert_items before rest order) /\ order `sublist_of` insert_items before rest order /\
  (forall x, x ∈ insert_items before rest order <-> x ∈ rest \/ x ∈ order) /\
  (forall P : jsstring -> bool, (forall x, P x = true -> x ∈ order) ->
     List.filter P (insert_items before rest order) = List.filter P order).
Proof.
  induction rest as [|id rest IH]; intros before order Hn; cbn [insert_items].
  { split_and!; try done. intros x. rewrite elem_of_nil. tauto. }
  destruct (insert_item_spec before id order Hn) as (H1 & H2 & H3 & H4).
  destruct (IH (before ++ [id]) _ H1) as (I1 & I2 & I3 & I4). split_and!.
  - done.
  - by transitivity (insert_item before id order).
  - intros x. rewrite I3, H3, elem_of_cons. tauto.
  - intros P HP. rewrite I4, H4; [done | apply HP|]. intros x Hx. apply H3. right. by apply HP.
Qed.

Lemma merged_items_nodup path base desired current b d c :
  mergedItems path base desired current = Some (b, d, c) -> NoDup (keys_of d) /\ NoDup (keys_of c).
Proof.
  unfold mergedItems. destruct desired as [[| | | |ld| ]|], current as [[| | | |lc| ]|], base as [[| | | |lb| ]|]; try done.
  - destruct (keyed lb), (keyed ld) eqn:Ed, (keyed lc) eqn:Ec; try done. intros [= -> -> ->].
    by apply keyed_spec in Ed as [? _], Ec as [? _].
  - case_if; [|done]. destruct (keyed ld) eqn:Ed, (keyed lc) eqn:Ec; try done. intros [= <- -> ->].
    by apply keyed_spec in Ed as [? _], Ec as [? _].
Qed.

(** The merged order extends the order of the side that decides. *)
Lemma merged_order_spec b d c : NoDup (keys_of d) -> NoDup (keys_of c) ->
  let primary := if changed_order b d c then keys_of d else keys_of c in
  NoDup (merged_order b d c) /\ primary `sublist_of` merged_order b d c /\
  (forall id, id ∈ merged_order b d c <-> id ∈ keys_of d \/ id ∈ keys_of c) /\
  common_order b d c (merged_order b d c) = common_order b d c primary.
Proof.
  intros Hd Hc. unfold merged_order, common_order.
  destruct (changed_order b d c); cbv zeta.
  - destruct (insert_items_spec (keys_of c) [] (keys_of d) Hd) as (H1 & H2 & H3 & H4). split_and!; try done.
    + intros id. rewrite H3. tauto.
    + apply H4. intros x. rewrite !andb_true_iff, !bool_decide_eq_true. tauto.
  - destruct (insert_items_spec (keys_of d) [] (keys_of c) Hc) as (H1 & H2 & H3 & H4). split_and!; try done.
    apply H4. intros x. rewrite !andb_true_iff, !bool_decide_eq_true. tauto.
Qed.

Lemma merged_value base desired current force document :
  mergeSessionEdit identical base desired current force = merged_ok document ->
  fst (merge identical MERGE_LEVELS force [] (Some (JObj base)) (Some (JObj desired)) (Some (JObj current)))
    = Some (JObj document).
Proof.
  unfold mergeSessionEdit. generalize (merge identical MERGE_LEVELS force [] (Some (JObj base)) (Some (JObj desired)) (Some (JObj current))).
  intros [[[| | | | |p]|] [|]]; try done. by intros [= ->].
Qed.

Lemma merged_conflicts base desired current force paths :
  mergeSessionEdit identical base desired current force = merged_conflict paths ->
  exists conflicts,
    conflicts = snd (merge identical MERGE_LEVELS force [] (Some (JObj base)) (Some (JObj desired)) (Some (JObj current))) /\
    conflicts <> [] /\ paths = map (join (js ".")) conflicts.
Proof.
  destruct (merge_root_record (S MAX_DEPTH) force base desired current) as [document Hroot].
  change (S (S MAX_DEPTH)) with MERGE_LEVELS in Hroot. unfold mergeSessionEdit. revert Hroot.
  generalize (merge identical MERGE_LEVELS force [] (Some (JObj base)) (Some (JObj desired)) (Some (JObj current))).
  generalize (join (js ".")). intros joined [value conflicts]. cbn [fst snd]. intros ->.
  destruct conflicts as [|p ps]; [done|]. intros [= <-]. by exists (p :: ps).
Qed.

Lemma conflict_deep pre b d c p : conflict_at true pre b d c p ->
  exists rest, (MAX_DEPTH < List.length (pre ++ rest))%nat /\ equal (at_path rest b) (at_path rest d) = false.
Proof. by inversion 1 as [| |rest]; try exists rest. Qed.

(** ** Properties *)

(** C6. An edit of one side survives the merge: where the merge succeeds, at a path through
    records above which no owner decides a whole field, what only the authority changed is
    the authority's and what only the client changed is the client's, whatever the two
    sides did elsewhere in the document and whether or not the merge is forced. *)
Theorem one_sided_edits_survive base desired current force document path :
  mergeSessionEdit identical base desired current force = merged_ok document ->
  distinct (JObj base) = true -> distinct (JObj desired) = true -> distinct (JObj current) = true ->
  (List.length path <= S MAX_DEPTH)%nat -> undivided path = true ->
  record_path path (Some (JObj base)) = true -> record_path path (Some (JObj desired)) = true ->
  record_path path (Some (JObj current)) = true ->
  keeps_edits path (Some (JObj base)) (Some (JObj desired)) (Some (JObj current)) (Some (JObj document)).
Proof.
  intros Hm Db Dd Dc Hlen Hu Rb Rd Rc.
  assert (Hfuel : (List.length path < MERGE_LEVELS)%nat) by (apply le_n_S; exact Hlen).
  pose proof (one_sided path MERGE_LEVELS force [] (Some (JObj base)) (Some (JObj desired)) (Some (JObj current))
    Hfuel Hlen Hu Rb Rd Rc Db Dd Dc) as H.
  apply merged_value in Hm. by rewrite Hm in H.
Qed.

(** C30. A merge that fails names its conflicts, and each one is real: an unforced collision
    of three pairwise different values that the authority still has and that no owner or
    field rule decides, items that both sides reordered differently, or a value nested
    deeper than the merge looks. *)
Theorem conflicts_are_real base desired current force paths :
  mergeSessionEdit identical base desired current force = merged_conflict paths ->
  paths <> [] /\
  forall s, s ∈ paths -> exists p, s = join (js ".") p /\
    conflict_at force [] (Some (JObj base)) (Some (JObj desired)) (Some (JObj current)) p.
Proof.
  intros H. apply merged_conflicts in H as (conflicts & Hc & Hn & ->). split; [by destruct conflicts|].
  intros s Hs. apply list_elem_of_In, in_map_iff in Hs as (p & <- & Hp). exists p. split; [done|].
  subst conflicts. by apply (conflict_sound MERGE_LEVELS), list_elem_of_In.
Qed.

(** A forced merge always succeeds: with [force], no edit of documents nested at most
    64 deep is a conflict, whatever the authority holds. *)
Theorem forced_merge_succeeds base desired current :
  (height (JObj base) <= MAX_DEPTH)%nat -> (height (JObj desired) <= MAX_DEPTH)%nat ->
  exists document, mergeSessionEdit identical base desired current true = merged_ok document.
Proof.
  intros Hb Hd. destruct (mergeSessionEdit identical base desired current true) as [document|paths] eqn:E;
    [by exists document|]. exfalso.
  apply merged_conflicts in E as (conflicts & Hc & Hn & _). destruct conflicts as [|p ps]; [done|].
  pose proof (conflict_sound MERGE_LEVELS true [] (Some (JObj base)) (Some (JObj desired)) (Some (JObj current)) p) as Hs.
  rewrite <- Hc in Hs. destruct (conflict_deep _ _ _ _ _ (Hs (list_elem_of_here _ _))) as (rest & Hdeep & E).
  cbn [app] in Hdeep.
  rewrite !height_at in E; [done|..]; eapply Nat.le_lt_trans; eassumption.
Qed.

(** The items of three arrays merge into one order without repetition, of exactly the
    items the client or the authority has; it extends the order of the side that decides,
    and the items all three know stand as the client moved them when the authority did
    not, and as the authority has them when the client did not move them. *)
Theorem merged_items_order path base desired current b d c :
  mergedItems path base desired current = Some (b, d, c) ->
  NoDup (merged_order b d c) /\
  (forall id, id ∈ merged_order b d c <-> id ∈ keys_of d \/ id ∈ keys_of c) /\
  (if changed_order b d c then keys_of d else keys_of c) `sublist_of` merged_order b d c /\
  (common_order b d c (keys_of c) = common_order b d c (keys_of b) ->
   common_order b d c (merged_order b d c) = common_order b d c (keys_of d)) /\
  (common_order b d c (keys_of d) = common_order b d c (keys_of b) ->
   common_order b d c (merged_order b d c) = common_order b d c (keys_of c)).
Proof.
  intros Hi. destruct (merged_items_nodup _ _ _ _ _ _ _ Hi) as [Hd Hc].
  destruct (merged_order_spec b d c Hd Hc) as (H1 & H2 & H3 & H4). split_and!; try done.
  - intros E. rewrite H4. unfold changed_order. case_bool_decide as E'; cbn [negb]; congruence.
  - intros E. rewrite H4. unfold changed_order. case_bool_decide as E'; cbn [negb]; congruence.
Qed.

(** The merge ends: 66 levels of recursion, the two guards on depth, are all it ever
    takes, and more of them change nothing. *)
Theorem merge_levels_enough fuel force base desired current :
  (MERGE_LEVELS <= fuel)%nat ->
  merge identical fuel force [] base desired current = merge identical MERGE_LEVELS force [] base desired current.
Proof.
  intros H. apply merge_fuel; cbn [List.length]; [apply Nat.le_0_l | by rewrite Nat.add_0_r..|].
  by rewrite Nat.add_0_r.
Qed.
End spec.

(** ** Witnesses *)

Definition no_identity : json -> json -> bool := fun _ _ => false.

Lemma no_identity_eq a b : no_identity a b = true -> a = b.
Proof. done. Qed.

Definition item (id title : string) : json := JObj [(js "id", JStr (js id)); (js "title", JStr (js title))].

(** The client changed the theme and moved [b] first; the authority changed the size and
    added [c] after [a]. *)
Definition base_document : TerminalMultiplexJsonObject :=
  [(js "ui", JObj [(js "theme", JStr (js "dark")); (js "size", JStr (js "small"))]);
   (js "items", JArr [item "a" "A"; item "b" "B"])].

Definition desired_document : TerminalMultiplexJsonObject :=
  [(js "ui", JObj [(js "theme", JStr (js "light")); (js "size", JStr (js "small"))]);
   (js "items", JArr [item "b" "B"; item "a" "A"])].

Definition current_document : TerminalMultiplexJsonObject :=
  [(js "ui", JObj [(js "theme", JStr (js "dark")); (js "size", JStr (js "large"))]);
   (js "items", JArr [item "a" "A"; item "c" "C"; item "b" "B"])].

Definition merged_document : TerminalMultiplexJsonObject :=
  [(js "ui", JObj [(js "theme", JStr (js "light")); (js "size", JStr (js "large"))]);
   (js "items", JArr [item "b" "B"; item "a" "A"; item "c" "C"])].

(** The same with the theme changed on both sides. *)
Definition colliding_document : TerminalMultiplexJsonObject :=
  [(js "ui", JObj [(js "theme", JStr (js "blue")); (js "size", JStr (js "large"))]);
   (js "items", JArr [item "a" "A"; item "b" "B"])].

Lemma one_sided_edits_survive_witness :
  mergeSessionEdit no_identity base_document desired_document current_document false = merged_ok merged_document /\
  keeps_edits no_identity [js "ui"; js "theme"] (Some (JObj base_document)) (Some (JObj desired_document))
    (Some (JObj current_document)) (Some (JObj merged_document)).
Proof.
  assert (H : mergeSessionEdit no_identity base_document desired_document current_document false = merged_ok merged_document)
    by (vm_compute; reflexivity).
  split; [exact H|].
  apply (one_sided_edits_survive no_identity no_identity_eq base_document desired_document current_document false
    merged_document [js "ui"; js "theme"] H); try (vm_compute; reflexivity).
  apply Nat.leb_le. vm_compute. reflexivity.
Defined.

Lemma conflicts_are_real_witness :
  exists p, js "ui.theme" = join (js ".") p /\
    conflict_at no_identity false [] (Some (JObj base_document)) (Some (JObj desired_document))
      (Some (JObj colliding_document)) p.
Proof.
  apply (proj2 (conflicts_are_real no_identity base_document desired_document colliding_document false
    [js "ui.theme"] ltac:(vm_compute; reflexivity))). left.
Defined.

Lemma forced_merge_succeeds_witness :
  exists document, mergeSessionEdit no_identity base_document desired_document colliding_document true = merged_ok document.
Proof. apply (forced_merge_succeeds no_identity); apply Nat.leb_le; vm_compute; reflexivity. Defined.

Lemma merged_items_order_witness :
  let items := map (fun id => (js id, item id id)) in
  NoDup (merged_order (items ["a"; "b"]%string) (items ["b"; "a"]%string) (items ["a"; "c"; "b"]%string)).
Proof.
  intros items.
  apply (merged_items_order [js "items"]
    (Some (JArr [item "a" "a"; item "b" "b"])) (Some (JArr [item "b" "b"; item "a" "a"]))
    (Some (JArr [item "a" "a"; item "c" "c"; item "b" "b"]))).
  vm_compute. reflexivity.
Defined.

Lemma merge_levels_enough_witness :
  merge no_identity 100 false [] (Some (JObj base_document)) (Some (JObj desired_document)) (Some (JObj current_document)) =
  merge no_identity MERGE_LEVELS false [] (Some (JObj base_document)) (Some (JObj desired_document)) (Some (JObj current_document)).
Proof. apply (merge_levels_enough no_identity 100). apply Nat.leb_le. vm_compute. reflexivity. Defined.
