(* ===== verification/GitGraph.v ===== *)
(** The lanes of the commit graph
    (packages/client/src/workspace-panel/git-graph: layout.ts, the edges of layout-path.ts,
    the paging of state.ts).

    A vertex is named by its row, its index in [vertices]; the objects of the source are
    the elements of that list, updated in place.  [layout_loop] is the [while] of
    [buildGitGraphLayout] and [follow] the [for (;;)] of [determinePath]; their fuel counts
    iterations, [None] is a loop still running.  An edge keeps the grid points and the
    locks its SVG path is made of; the path text itself (pixels, [toFixed]) is not
    modelled. *)

From stdpp Require Import base list.
From Stdlib Require Import ZArith Lia ZifyBool.
From S2P Require Import Prelude JsText JsMap.

Open Scope Z_scope.

#[local] Set Warnings "-clear-no-such-hyp".

(** ** Commits *)

(** The fields of a [GitHistoryItem] the graph reads. *)
Record GitHistoryItem := mkItem { it_id : jsstring; it_parentIds : list jsstring }.

Record GitGraphGrid := mkGrid { grid_x : Z; grid_y : Z; grid_offsetX : Z; grid_offsetY : Z }.

Definition GIT_GRAPH_DEFAULT_GRID : GitGraphGrid := mkGrid 16 24 16 12.

(** [GIT_GRAPH_COLORS.length]: the reference colour and five lane colours. *)
Definition GIT_GRAPH_COLORS_length : nat := 6.

Record GitGraphVertex := mkGraphVertex
  { gv_commitId : jsstring; gv_row : nat; gv_column : Z; gv_colorIndex : nat; gv_isCurrentHead : bool }.

Record GridPoint := mkPoint { pt_x : Z; pt_y : nat }.

(** [e_stub]: the line ends 0.6 rows below its only point, as [makeOffPageEdge] draws it. *)
Record GitGraphEdge := mkEdge
  { e_fromCommitId : jsstring; e_toCommitId : jsstring; e_colorIndex : nat;
    e_points : list GridPoint; e_locks : list bool; e_isMerge : bool; e_stub : bool }.

Record GitGraphLayout := mkLayout
  { l_vertices : list GitGraphVertex; l_edges : list GitGraphEdge; l_columnCount : Z; l_width : Z }.

Record ParentEntry := mkEntry { pe_targetIndex : option nat; pe_sha : jsstring }.

(** A connection is the row of its target and its colour. *)
Record MutableVertex := mkVertex
  { v_commitId : jsstring; v_parentEntries : list ParentEntry; v_nextParentPtr : nat;
    v_x : Z; v_nextX : Z; v_colour : option nat; v_connections : jsmap (nat * nat) }.

#[export] Instance MutableVertex_inhabited : Inhabited MutableVertex :=
  populate (mkVertex [] [] 0 0 0 None []).

(** ** Operations of a vertex *)

Definition pointOf (v : MutableVertex) (row : nat) : GridPoint := mkPoint (v_x v) row.
Definition nextPointOf (v : MutableVertex) (row : nat) : GridPoint := mkPoint (v_nextX v) row.

Definition registerUnavailablePoint (x : Z) (targetIndex colour : nat) (v : MutableVertex) : MutableVertex :=
  if negb (x =? v_nextX v) then v else
  mkVertex (v_commitId v) (v_parentEntries v) (v_nextParentPtr v) (v_x v) (x + 1) (v_colour v)
    (map_set x (targetIndex, colour) (v_connections v)).

Definition getPointConnectingTo (v : MutableVertex) (row targetIndex colour : nat) : option GridPoint :=
  match List.find (fun c => (fst (snd c) =? targetIndex)%nat && (snd (snd c) =? colour)%nat) (v_connections v) with
  | Some (x, _) => Some (mkPoint x row)
  | None => None
  end.

(** [v.nextParentPtr++]. *)
Definition bump (v : MutableVertex) : MutableVertex :=
  mkVertex (v_commitId v) (v_parentEntries v) (S (v_nextParentPtr v)) (v_x v) (v_nextX v) (v_colour v) (v_connections v).

(** [Object.assign(v, { colour, x })]. *)
Definition place (colour : nat) (x : Z) (v : MutableVertex) : MutableVertex :=
  mkVertex (v_commitId v) (v_parentEntries v) (v_nextParentPtr v) x (v_nextX v) (Some colour) (v_connections v).

Definition on_branch (v : MutableVertex) : bool := match v_colour v with Some _ => true | None => false end.

Definition nextEntry (v : MutableVertex) : option ParentEntry := v_parentEntries v !! v_nextParentPtr v.

Definition is_merge (v : MutableVertex) : bool := (1 <? List.length (v_parentEntries v))%nat.

(** The row [indexById] holds for an id: the last item of that id. *)
Fixpoint index_by_id (row : nat) (items : list GitHistoryItem) (id : jsstring) : option nat :=
  match items with
  | [] => None
  | item :: rest =>
      match index_by_id (S row) rest id with
      | Some i => Some i
      | None => if bool_decide (it_id item = id) then Some row else None
      end
  end.

Definition new_vertex (items : list GitHistoryItem) (item : GitHistoryItem) : MutableVertex :=
  mkVertex (it_id item) (map (fun sha => mkEntry (index_by_id 0 items sha) sha) (it_parentIds item)) 0 0 0 None [].

Definition buildVertices (items : list GitHistoryItem) : list MutableVertex := map (new_vertex items) items.

(** The colour taken and the colours, grown by one when none is free. *)
Fixpoint available_from (i : nat) (availableColours : list nat) (startAt : nat) : option nat :=
  match availableColours with
  | [] => None
  | row :: rest => if (row <? startAt)%nat then Some i else available_from (S i) rest startAt
  end.

Definition getAvailableColour (availableColours : list nat) (startAt : nat) : nat * list nat :=
  match available_from 0 availableColours startAt with
  | Some i => (i, availableColours)
  | None => (List.length availableColours, availableColours ++ [0%nat])
  end.

Definition makeEdge (fromCommitId toCommitId : jsstring) (colour : nat) (points : list GridPoint)
    (locks : list bool) (isMerge : bool) : GitGraphEdge :=
  mkEdge fromCommitId toCommitId (colour mod GIT_GRAPH_COLORS_length) points locks isMerge false.

Definition makeOffPageEdge (childId parentSha : jsstring) (colour : nat) (lastPoint : GridPoint)
    (isMerge : bool) : GitGraphEdge :=
  mkEdge childId parentSha (colour mod GIT_GRAPH_COLORS_length) [lastPoint] [true] isMerge true.

(** ** determinePath *)

(** [determinePath] works on the vertices, the colours and the edges. *)
Record Graph := mkGraph { g_vertices : list MutableVertex; g_colours : list nat; g_edges : list GitGraphEdge }.

(** A line under way: the vertices, its last point, its points and its locks. *)
Record Line := mkLine
  { ln_vertices : list MutableVertex; ln_last : GridPoint; ln_points : list GridPoint; ln_locks : list bool }.

(** The line of a merge: down the rows until a line towards the target is met. *)
Fixpoint connect_rows (rows : list nat) (target colour : nat) (l : Line) : Line * bool :=
  match rows with
  | [] => (l, false)
  | row :: rest =>
      let curV := ln_vertices l !!! row in
      let connecting := getPointConnectingTo curV row target colour in
      let found := match connecting with Some _ => true | None => false end in
      let curPoint := default (nextPointOf curV row) connecting in
      let lock := if negb found && negb (row =? target)%nat then pt_x (ln_last l) <? pt_x curPoint else true in
      let l := mkLine (alter (registerUnavailablePoint (pt_x curPoint) target colour) row (ln_vertices l))
                 curPoint (ln_points l ++ [curPoint]) (ln_locks l ++ [lock]) in
      if found then (l, true) else connect_rows rest target colour l
  end.

(** The line of a branch: down the rows to the target. *)
Fixpoint walk_rows (rows : list nat) (target colour : nat) (l : Line) : Line :=
  match rows with
  | [] => l
  | row :: rest =>
      let curV := ln_vertices l !!! row in
      let curPoint := if (row =? target)%nat && on_branch curV then pointOf curV row else nextPointOf curV row in
      let l := mkLine (alter (registerUnavailablePoint (pt_x curPoint) target colour) row (ln_vertices l))
                 curPoint (ln_points l ++ [curPoint]) (ln_locks l ++ [pt_x (ln_last l) <? pt_x curPoint]) in
      if (row =? target)%nat then l else walk_rows rest target colour l
  end.

Definition rows_from (row : nat) (vs : list MutableVertex) : list nat := seq row (List.length vs - row).

(** The branch from [vertex] on: the vertices, the edges and [finalRow]. *)
Fixpoint follow (fuel : nat) (vs : list MutableVertex) (edges : list GitGraphEdge) (vertex row : nat)
    (lastPoint : GridPoint) (colour : nat) : option (list MutableVertex * list GitGraphEdge * nat) :=
  match fuel with
  | O => None
  | S fuel =>
      let v := vs !!! vertex in
      match nextEntry v with
      | None => Some (vs, edges, List.length vs)
      | Some parentEntry =>
          let off_page (sha : jsstring) :=
            Some (alter bump vertex vs,
                  edges ++ [makeOffPageEdge (v_commitId v) sha colour lastPoint (is_merge v)], List.length vs) in
          match pe_targetIndex parentEntry with
          | None => off_page (pe_sha parentEntry)
          | Some targetIndex =>
              if (targetIndex <? row)%nat then off_page (v_commitId (vs !!! targetIndex)) else
              let l := walk_rows (rows_from row vs) targetIndex colour (mkLine vs lastPoint [lastPoint] []) in
              let vs := alter bump vertex (ln_vertices l) in
              let parentVertex := vs !!! targetIndex in
              let edges := edges ++ [makeEdge (v_commitId v) (v_commitId parentVertex) colour
                                       (ln_points l) (ln_locks l) (is_merge v)] in
              if on_branch parentVertex then Some (vs, edges, S targetIndex)
              else follow fuel (alter (place colour (pt_x (ln_last l))) targetIndex vs) edges targetIndex
                     (S targetIndex) (ln_last l) colour
          end
      end
  end.

(** What a merge that joins a line drawn already joins: the row and the colour. *)
Definition merge_connect (vs : list MutableVertex) (startAt : nat) : option (nat * nat) :=
  let startVertex := vs !!! startAt in
  match nextEntry startVertex with
  | Some (mkEntry (Some targetIndex) _) =>
      if is_merge startVertex && on_branch startVertex then
        match v_colour (vs !!! targetIndex) with Some colour => Some (targetIndex, colour) | None => None end
      else None
  | _ => None
  end.

Definition determinePath (fuel startAt : nat) (g : Graph) : option Graph :=
  let vs := g_vertices g in
  let startVertex := vs !!! startAt in
  match merge_connect vs startAt with
  | Some (targetIndex, colour) =>
      let start := pointOf startVertex startAt in
      let '(l, found) := connect_rows (rows_from (S startAt) vs) targetIndex colour (mkLine vs start [start] []) in
      Some (mkGraph (if found then alter bump startAt (ln_vertices l) else ln_vertices l) (g_colours g)
        (g_edges g ++ [makeEdge (v_commitId startVertex) (v_commitId (vs !!! targetIndex)) colour
                         (ln_points l) (ln_locks l) true]))
  | None =>
      let '(colour, colours) := getAvailableColour (g_colours g) startAt in
      let lastPoint := if on_branch startVertex then pointOf startVertex startAt else nextPointOf startVertex startAt in
      let vs := if on_branch startVertex then vs else alter (place colour (pt_x lastPoint)) startAt vs in
      let vs := alter (registerUnavailablePoint (pt_x lastPoint) startAt colour) startAt vs in
      match follow fuel vs (g_edges g) startAt (S startAt) lastPoint colour with
      | Some (vs, edges, finalRow) => Some (mkGraph vs (<[colour := finalRow]> colours) edges)
      | None => None
      end
  end.

(** ** buildGitGraphLayout *)

Definition unfinished (v : MutableVertex) : bool :=
  (v_nextParentPtr v <? List.length (v_parentEntries v))%nat || negb (on_branch v).

(** [while (i < vertices.length)]. *)
Fixpoint layout_loop (fuel i : nat) (g : Graph) : option Graph :=
  match fuel with
  | O => None
  | S fuel =>
      if (i <? List.length (g_vertices g))%nat then
        if unfinished (g_vertices g !!! i) then
          match determinePath (S (List.length (g_vertices g))) i g with
          | Some g => layout_loop fuel i g
          | None => None
          end
        else layout_loop fuel (S i) g
      else Some g
  end.

Definition out_vertex (headCommitId : option jsstring) (row : nat) (v : MutableVertex) : GitGraphVertex :=
  mkGraphVertex (v_commitId v) row (v_x v) (default 0%nat (v_colour v) mod GIT_GRAPH_COLORS_length)
    (match headCommitId with Some id => bool_decide (v_commitId v = id) | None => false end).

Definition max_of (f : MutableVertex -> Z) (vs : list MutableVertex) : Z :=
  fold_left (fun m v => Z.max m (f v)) vs 0.

Definition layout_of (grid : GitGraphGrid) (headCommitId : option jsstring) (g : Graph) : GitGraphLayout :=
  mkLayout (imap (out_vertex headCommitId) (g_vertices g)) (g_edges g) (max_of v_x (g_vertices g) + 1)
    (grid_offsetX grid * 2 + Z.max 0 (max_of v_nextX (g_vertices g) - 1) * grid_x grid).

Definition start_graph (items : list GitHistoryItem) : Graph := mkGraph (buildVertices items) [] [].

Definition buildGitGraphLayout (fuel : nat) (grid : GitGraphGrid) (headCommitId : option jsstring)
    (items : list GitHistoryItem) : option GitGraphLayout :=
  match items with
  | [] => Some (mkLayout [] [] 0 0)
  | _ =>
      match layout_loop fuel 0 (start_graph items) with
      | Some g => Some (layout_of grid headCommitId g)
      | None => None
      end
  end.

(** ** Pages (state.ts) *)

(** [dedupeGitHistoryItems]. *)
Fixpoint append_new (seen : list jsstring) (appended : list GitHistoryItem) : list GitHistoryItem :=
  match appended with
  | [] => []
  | item :: rest =>
      if bool_decide (it_id item ∈ seen) then append_new seen rest
      else item :: append_new (it_id item :: seen) rest
  end.

Definition dedupeGitHistoryItems (existing appended : list GitHistoryItem) : list GitHistoryItem :=
  existing ++ append_new (map it_id existing) appended.
