(* ===== verification/GitGraphSpec.v ===== *)
(** The layout of the commit graph: for commits listed before their parents, as git lists
    them, the layout ends, draws each parent link once, and its lines meet the commits
    they link; for other lists it may not end. *)

From stdpp Require Import base list.
From Stdlib Require Import ZArith Lia ZifyBool.
From S2P Require Import Prelude JsText JsMap GitGraph.

Open Scope Z_scope.

#[local] Set Warnings "-clear-no-such-hyp".

Implicit Types (vs : list MutableVertex) (v w : MutableVertex).

(** ** Vertices *)

(** What registering a point leaves alone. *)
Definition summary v : jsstring * list ParentEntry * nat * Z * option nat :=
  (v_commitId v, v_parentEntries v, v_nextParentPtr v, v_x v, v_colour v).

(** What no operation changes. *)
Definition static v : jsstring * list ParentEntry := (v_commitId v, v_parentEntries v).

(** The connections of the vertex at row [i]: below its next column, and towards itself
    exactly the one of its own place, once it has a colour. *)
Record vertex_ok (i : nat) v : Prop := {
  vo_ptr : (v_nextParentPtr v <= List.length (v_parentEntries v))%nat;
  vo_keys : forall x t, (x, t) ∈ v_connections v -> x < v_nextX v;
  vo_placed : forall c, v_colour v = Some c -> (v_x v, (i, c)) ∈ v_connections v;
  vo_own : forall x c, (x, (i, c)) ∈ v_connections v -> v_colour v = Some c /\ v_x v = x }.

Definition vertices_ok vs : Prop := forall i v, vs !! i = Some v -> vertex_ok i v.

Lemma register_summary x t c v : summary (registerUnavailablePoint x t c v) = summary v.
Proof. unfold registerUnavailablePoint. by destruct (negb _). Qed.

Lemma register_other x t c v : x <> v_nextX v -> registerUnavailablePoint x t c v = v.
Proof. intros H. unfold registerUnavailablePoint. by replace (x =? v_nextX v) with false by lia. Qed.

Lemma register_connections i t c v : vertex_ok i v ->
  v_connections (registerUnavailablePoint (v_nextX v) t c v) = v_connections v ++ [(v_nextX v, (t, c))] /\
  v_nextX (registerUnavailablePoint (v_nextX v) t c v) = v_nextX v + 1.
Proof.
  intros H. unfold registerUnavailablePoint. rewrite Z.eqb_refl. cbn. split; [|done]. apply map_set_new, map_get_None.
  intros Hin. apply list_elem_of_fmap in Hin as ([x tc] & E & Hin). apply (vo_keys _ _ H) in Hin. cbn in E. lia.
Qed.

Lemma register_connection i x t c v e : vertex_ok i v ->
  e ∈ v_connections (registerUnavailablePoint x t c v) -> e ∈ v_connections v \/ e = (x, (t, c)).
Proof.
  intros H. destruct (decide (x = v_nextX v)) as [->|Hx]; [|rewrite register_other by done; by left].
  destruct (register_connections i t c v H) as [-> _]. rewrite elem_of_app, list_elem_of_singleton. tauto.
Qed.

Lemma register_keeps i x t c v e : vertex_ok i v ->
  e ∈ v_connections v -> e ∈ v_connections (registerUnavailablePoint x t c v).
Proof.
  intros H He. destruct (decide (x = v_nextX v)) as [->|Hx]; [|by rewrite register_other].
  destruct (register_connections i t c v H) as [-> _]. apply elem_of_app. by left.
Qed.

(** Registering a line towards another vertex. *)
Lemma register_ok i x t c v : t <> i -> vertex_ok i v -> vertex_ok i (registerUnavailablePoint x t c v).
Proof.
  intros Ht H. destruct (decide (x = v_nextX v)) as [->|Hx]; [|by rewrite register_other].
  destruct (register_connections i t c v H) as [Hc Hn].
  pose proof (register_summary (v_nextX v) t c v) as Hs.
  unfold summary in Hs. injection Hs as _ E2 E3 E4 E5. destruct H as [H1 H2 H3 H4].
  split; rewrite ?Hc, ?Hn, ?E2, ?E3, ?E4, ?E5; [done|..].
  - intros y tc [Hy|Hy%list_elem_of_singleton]%elem_of_app; [apply H2 in Hy; lia|]. injection Hy as -> _. lia.
  - intros c' Hc'. apply elem_of_app. left. by apply H3.
  - intros y c' [Hy|Hy%list_elem_of_singleton]%elem_of_app; [by apply H4|]. by injection Hy as _ ->.
Qed.

(** A line that reaches a vertex without a colour gives it its place. *)
Lemma register_place_ok i c v : v_colour v = None -> vertex_ok i v ->
  vertex_ok i (place c (v_nextX v) (registerUnavailablePoint (v_nextX v) i c v)) /\
  vertex_ok i (registerUnavailablePoint (v_nextX v) i c (place c (v_nextX v) v)).
Proof.
  intros Hnone H. split.
  - destruct (register_connections i i c v H) as [Hc Hn].
    pose proof (register_summary (v_nextX v) i c v) as Hs. unfold summary in Hs. injection Hs as _ E2 E3 _ _.
    destruct H as [H1 H2 H3 H4]. split; cbn; rewrite ?Hc, ?Hn, ?E2, ?E3; [done|..].
    + intros y tc [Hy|Hy%list_elem_of_singleton]%elem_of_app; [apply H2 in Hy; lia|]. injection Hy as -> _. lia.
    + intros c' [= <-]. apply elem_of_app. right. by apply list_elem_of_singleton.
    + intros y c' [Hy|Hy%list_elem_of_singleton]%elem_of_app; [apply H4 in Hy as [Hy _]; congruence|].
      by injection Hy as -> ->.
  - assert (Hm : map_set (v_nextX v) (i, c) (v_connections v) = v_connections v ++ [(v_nextX v, (i, c))]).
    { destruct (register_connections i i c v H) as [Hc _]. unfold registerUnavailablePoint in Hc.
      by rewrite Z.eqb_refl in Hc. }
    unfold registerUnavailablePoint. cbn. rewrite Z.eqb_refl. cbn. rewrite Hm.
    destruct H as [H1 H2 H3 H4]. split; cbn; [done|..].
    + intros y tc [Hy|Hy%list_elem_of_singleton]%elem_of_app; [apply H2 in Hy; lia|]. injection Hy as -> _. lia.
    + intros c' [= <-]. apply elem_of_app. right. by apply list_elem_of_singleton.
    + intros y c' [Hy|Hy%list_elem_of_singleton]%elem_of_app; [apply H4 in Hy as [Hy _]; congruence|].
      by injection Hy as -> ->.
Qed.

Lemma bump_ok i v : nextEntry v <> None -> vertex_ok i v -> vertex_ok i (bump v).
Proof.
  intros Hn H. destruct H as [H1 H2 H3 H4]. split; cbn; [|done..].
  unfold nextEntry in Hn. destruct (v_parentEntries v !! v_nextParentPtr v) eqn:E; [|done].
  apply lookup_lt_Some in E. unfold lt in E. exact E.
Qed.

Lemma placed_below i v : vertex_ok i v -> on_branch v = true -> v_x v < v_nextX v.
Proof.
  unfold on_branch. intros H. destruct (v_colour v) eqn:E; [|done]. intros _.
  eapply (vo_keys _ _ H), (vo_placed _ _ H), E.
Qed.

(** The point a merge line joins. *)
Lemma connecting_point v row t c p : getPointConnectingTo v row t c = Some p ->
  pt_y p = row /\ (pt_x p, (t, c)) ∈ v_connections v.
Proof.
  unfold getPointConnectingTo. destruct (List.find _ _) as [[x [t' c']]|] eqn:E; [|done]. intros [= <-]. split; [done|].
  apply find_some in E as [Hin E]. cbn in E |- *. apply andb_true_iff in E as [E1 E2].
  apply Nat.eqb_eq in E1, E2. subst. by apply list_elem_of_In.
Qed.

Lemma connecting_point_exists v row t c x : (x, (t, c)) ∈ v_connections v -> getPointConnectingTo v row t c <> None.
Proof.
  unfold getPointConnectingTo. intros Hin. destruct (List.find _ _) as [[y tc]|] eqn:E; [done|].
  apply list_elem_of_In in Hin. apply (find_none _ _ E) in Hin. cbn in Hin. by rewrite !Nat.eqb_refl in Hin.
Qed.

(** ** Lines *)

(** Registering the points of a line with colour [c] towards [t]. *)
Record lined (t c : nat) (ps : list GridPoint) vs vs' : Prop := {
  li_summary : summary <$> vs' = summary <$> vs;
  li_row : forall r v', vs' !! r = Some v' -> exists v, vs !! r = Some v /\
    (forall e, e ∈ v_connections v -> e ∈ v_connections v') /\
    (forall x tc, (x, tc) ∈ v_connections v' ->
       (x, tc) ∈ v_connections v \/ tc = (t, c) /\ mkPoint x r ∈ ps) /\
    (t <> r -> vertex_ok r v -> vertex_ok r v') }.

Lemma summary_lookup vs vs' r v : summary <$> vs' = summary <$> vs -> vs !! r = Some v ->
  exists v', vs' !! r = Some v' /\ summary v' = summary v.
Proof.
  intros H Hv. assert (E : (summary <$> vs') !! r = Some (summary v)) by (by rewrite H, list_lookup_fmap, Hv).
  rewrite list_lookup_fmap in E. destruct (vs' !! r) as [v'|]; [|done]. cbn in E. exists v'. split; [done | congruence].
Qed.

Lemma summary_length vs vs' : summary <$> vs' = summary <$> vs -> List.length vs' = List.length vs.
Proof. intros H. apply (f_equal List.length) in H. by rewrite !length_fmap in H. Qed.

Lemma fmap_alter_same {A B} (f : A -> B) (g : A -> A) i (l : list A) : (forall x, f (g x) = f x) ->
  f <$> alter g i l = f <$> l.
Proof.
  intros H. apply list_eq. intros j. rewrite !list_lookup_fmap. destruct (decide (i = j)) as [->|Hij].
  - rewrite list_lookup_alter_eq. destruct (l !! j); cbn; [by rewrite H | done].
  - by rewrite list_lookup_alter_ne.
Qed.

Lemma lined_refl t c vs : lined t c [] vs vs.
Proof. split; [done|]. intros r v Hv. exists v. split_and!; auto. Qed.

Lemma lined_trans t c ps qs vs1 vs2 vs3 : lined t c ps vs1 vs2 -> lined t c qs vs2 vs3 ->
  lined t c (ps ++ qs) vs1 vs3.
Proof.
  intros [S1 R1] [S2 R2]. split; [by rewrite S2|]. intros r v3 H3.
  destruct (R2 r v3 H3) as (v2 & H2 & K2 & N2 & O2). destruct (R1 r v2 H2) as (v1 & H1 & K1 & N1 & O1).
  exists v1. split_and!; auto. intros x tc Hx. destruct (N2 x tc Hx) as [Hx'|[-> Hp]].
  - destruct (N1 x tc Hx') as [|[-> Hp]]; [by left|]. right. split; [done|]. apply elem_of_app. by left.
  - right. split; [done|]. apply elem_of_app. by right.
Qed.

Lemma lined_mark vs row x t c : (forall v, vs !! row = Some v -> vertex_ok row v) ->
  lined t c [mkPoint x row] vs (alter (registerUnavailablePoint x t c) row vs).
Proof.
  intros Hok. split; [apply fmap_alter_same, register_summary|].
  intros r v' Hv. destruct (decide (row = r)) as [<-|Hr].
  - rewrite list_lookup_alter_eq in Hv. destruct (vs !! row) as [v|] eqn:E; [|done]. injection Hv as <-.
    specialize (Hok v eq_refl). exists v. split_and!; [done|..].
    + intros e. by apply (register_keeps row).
    + intros y tc Hy. destruct (register_connection row x t c v _ Hok Hy) as [|[= -> ->]]; [by left|].
      right. split; [done | by apply list_elem_of_singleton].
    + intros Ht _. by apply register_ok.
  - rewrite list_lookup_alter_ne in Hv by done. exists v'. split_and!; auto.
Qed.

Definition rows_ok (from : nat) vs : Prop := forall i v, (from <= i)%nat -> vs !! i = Some v -> vertex_ok i v.

Lemma rows_ok_mark from vs f : rows_ok from vs -> rows_ok (S from) (alter f from vs).
Proof. intros H i v Hi Hv. rewrite list_lookup_alter_ne in Hv by lia. apply (H i v); [lia | done]. Qed.

Lemma lookup_total_some vs i v : vs !! i = Some v -> vs !!! i = v.
Proof. apply list_lookup_total_correct. Qed.

(** The line of a branch goes straight down, one point per row, to its target. *)
Lemma walk_rows_spec k : forall row t c l w,
  (row <= t)%nat -> (t < row + k)%nat -> ln_vertices l !! t = Some w -> rows_ok row (ln_vertices l) ->
  let l' := walk_rows (seq row k) t c l in
  exists ps, ln_points l' = ln_points l ++ ps ++ [ln_last l'] /\
    map pt_y (ps ++ [ln_last l']) = seq row (S (t - row)) /\
    lined t c (ps ++ [ln_last l']) (ln_vertices l) (ln_vertices l') /\
    ln_last l' = (if on_branch w then pointOf w t else nextPointOf w t) /\
    ln_vertices l' !! t = Some (if on_branch w then w else registerUnavailablePoint (v_nextX w) t c w).
Proof.
  induction k as [|k IH]; intros row t c l w Hrow Hk Hw Hok; [lia|]. cbn [seq walk_rows].
  assert (Hr : is_Some (ln_vertices l !! row)) by (apply lookup_lt_is_Some; apply lookup_lt_Some in Hw; lia).
  destruct Hr as [v Hv]. rewrite (lookup_total_some _ _ _ Hv).
  assert (Hokv : forall u, ln_vertices l !! row = Some u -> vertex_ok row u) by (intros u Hu; by apply Hok).
  destruct (row =? t)%nat eqn:E.
  - apply Nat.eqb_eq in E as ->. cbn [andb]. rewrite Hv in Hw. injection Hw as <-. exists []. cbn [ln_points ln_last ln_vertices].
    split; [done|]. split; [rewrite Nat.sub_diag; by destruct (on_branch v)|].
    split; [by destruct (on_branch v); apply lined_mark|]. split; [done|].
    rewrite list_lookup_alter_eq, Hv. cbn. destruct (on_branch v) eqn:Eb; [|done].
    cbn. rewrite register_other; [done|]. apply Hokv in Hv. pose proof (placed_below _ _ Hv Eb). lia.
  - apply Nat.eqb_neq in E. cbn [andb].
    set (l1 := mkLine _ _ _ _). destruct (IH (S row) t c l1 w) as (ps & H1 & H2 & H3 & H4 & H5).
    + lia.
    + lia.
    + subst l1. cbn. by rewrite list_lookup_alter_ne.
    + by apply rows_ok_mark.
    + exists (nextPointOf v row :: ps). split_and!; [by rewrite H1; subst l1; cbn; rewrite <- !app_assoc| | |done|done].
      * cbn [app map pt_y nextPointOf]. rewrite H2. replace (t - row)%nat with (S (t - S row)) by lia. done.
      * change ((nextPointOf v row :: ps) ++ ?y) with ([nextPointOf v row] ++ (ps ++ y)).
        apply (lined_trans _ _ _ _ _ (ln_vertices l1)); [|done]. by apply lined_mark.
Qed.

(** The line of a merge goes down to a point from which a line of the target's lane leads
    to the target. *)
Lemma connect_rows_spec k : forall row t c l x w,
  (row <= t)%nat -> (t < row + k)%nat -> ln_vertices l !! t = Some w -> (x, (t, c)) ∈ v_connections w ->
  rows_ok row (ln_vertices l) ->
  exists l' ps r v, connect_rows (seq row k) t c l = (l', true) /\
    ln_points l' = ln_points l ++ ps ++ [ln_last l'] /\
    map pt_y (ps ++ [ln_last l']) = seq row (S (r - row)) /\ (row <= r <= t)%nat /\
    lined t c (ps ++ [ln_last l']) (ln_vertices l) (ln_vertices l') /\
    ln_vertices l !! r = Some v /\ (pt_x (ln_last l'), (t, c)) ∈ v_connections v /\ pt_y (ln_last l') = r /\
    ln_vertices l' !! t = Some w.
Proof.
  induction k as [|k IH]; intros row t c l x w Hrow Hk Hw Hx Hok; [lia|]. cbn [seq connect_rows].
  assert (Hr : is_Some (ln_vertices l !! row)) by (apply lookup_lt_is_Some; apply lookup_lt_Some in Hw; lia).
  destruct Hr as [v Hv]. rewrite (lookup_total_some _ _ _ Hv).
  assert (Hokv : forall u, ln_vertices l !! row = Some u -> vertex_ok row u) by (intros u Hu; by apply Hok).
  destruct (getPointConnectingTo v row t c) as [p|] eqn:Ep; cbn [default from_option id].
  - destruct (connecting_point _ _ _ _ _ Ep) as [Ey Hp]. eexists _, [], row, v. split; [done|]. cbn [ln_points ln_last ln_vertices app].
    split; [done|]. split; [cbn; by rewrite Nat.sub_diag, Ey|]. split; [lia|].
    split; [replace [p] with [mkPoint (pt_x p) row] by (by destruct p; cbn in Ey; subst); by apply lined_mark|].
    split_and!; try done. destruct (decide (row = t)) as [->|Hne]; [|by rewrite list_lookup_alter_ne].
    rewrite list_lookup_alter_eq, Hw. rewrite Hw in Hv. injection Hv as <-. cbn.
    rewrite register_other; [done|]. pose proof (vo_keys _ _ (Hokv _ Hw) _ _ Hp). lia.
  - assert (Hne : row <> t).
    { intros ->. rewrite Hw in Hv. injection Hv as <-. by apply (connecting_point_exists _ t _ _ _ Hx). }
    set (l1 := mkLine _ _ _ _). destruct (IH (S row) t c l1 x w) as (l' & ps & r & u & H1 & H2 & H3 & H4 & H5 & H6 & H7 & H8 & H9).
    + lia.
    + lia.
    + subst l1. cbn. by rewrite list_lookup_alter_ne.
    + done.
    + by apply rows_ok_mark.
    + exists l', (nextPointOf v row :: ps), r, u. split_and!; [done|by rewrite H2; subst l1; cbn; rewrite <- !app_assoc| |lia|lia| | |done|done|done].
      * cbn [app map pt_y nextPointOf]. rewrite H3. replace (r - row)%nat with (S (r - S row)) by lia. done.
      * change ((nextPointOf v row :: ps) ++ ?y) with ([nextPointOf v row] ++ (ps ++ y)).
        apply (lined_trans _ _ _ _ _ (ln_vertices l1)); [|done]. by apply lined_mark.
      * subst l1. cbn in H6. by rewrite list_lookup_alter_ne in H6 by lia.
Qed.

(** ** Links *)

(** A parent link: child, parent, whether the child is a merge. *)
Definition Link : Type := jsstring * jsstring * bool.

Definition item_links (item : GitHistoryItem) : list Link :=
  map (fun sha => (it_id item, sha, (1 <? List.length (it_parentIds item))%nat)) (it_parentIds item).

Definition parent_links (items : list GitHistoryItem) : list Link := List.concat (map item_links items).

Definition link_of (e : GitGraphEdge) : Link := (e_fromCommitId e, e_toCommitId e, e_isMerge e).

(** The links of a vertex that are drawn, and how much there is left to do for it. *)
Definition drawn v : list Link :=
  map (fun entry => (v_commitId v, pe_sha entry, is_merge v)) (take (v_nextParentPtr v) (v_parentEntries v)).

Definition left_over v : nat :=
  (List.length (v_parentEntries v) - v_nextParentPtr v) + (if on_branch v then 0 else 1).

Definition work vs : nat := sum_list (left_over <$> vs).

Lemma fmap_summary {A} (f : MutableVertex -> A) vs vs' : (forall v v', summary v = summary v' -> f v = f v') ->
  summary <$> vs' = summary <$> vs -> f <$> vs' = f <$> vs.
Proof.
  intros Hf H. apply list_eq. intros i. apply (f_equal (.!! i)) in H. rewrite !list_lookup_fmap in *.
  destruct (vs' !! i), (vs !! i); cbn in *; try done. apply (inj Some) in H. f_equal. by apply Hf.
Qed.

Lemma summary_drawn v v' : summary v = summary v' -> drawn v = drawn v'.
Proof. intros H. unfold summary in H. injection H as H1 H2 H3 H4 H5. unfold drawn, is_merge. by rewrite H1, H2, H3. Qed.

Lemma summary_left_over v v' : summary v = summary v' -> left_over v = left_over v'.
Proof. intros H. unfold summary in H. injection H as H1 H2 H3 H4 H5. unfold left_over, on_branch. by rewrite H2, H3, H5. Qed.

Lemma summary_static v v' : summary v = summary v' -> static v = static v'.
Proof. intros H. unfold summary in H. injection H as H1 H2 _ _ _. unfold static. by rewrite H1, H2. Qed.

Lemma sum_alter (f : MutableVertex -> nat) g i : forall vs v, vs !! i = Some v ->
  (sum_list (f <$> alter g i vs) + f v = sum_list (f <$> vs) + f (g v))%nat.
Proof.
  induction i as [|i IH]; intros [|u vs] v; try done; intros Hv.
  - injection Hv as ->. change (alter g 0%nat (v :: vs)) with (g v :: vs). rewrite !fmap_cons. cbn [sum_list_with id]. lia.
  - specialize (IH vs v Hv). change (alter g (S i) (u :: vs)) with (u :: alter g i vs).
    rewrite !fmap_cons. cbn [sum_list_with id]. lia.
Qed.

Lemma work_alter g i vs v : vs !! i = Some v ->
  (work (alter g i vs) + left_over v = work vs + left_over (g v))%nat.
Proof. apply sum_alter. Qed.

Lemma drawn_alter g i : forall vs v l, vs !! i = Some v -> drawn (g v) = drawn v ++ l ->
  List.concat (map drawn (alter g i vs)) ≡ₚ l ++ List.concat (map drawn vs).
Proof.
  induction i as [|i IH]; intros [|u vs] v l; try done; intros Hv Hg.
  - injection Hv as ->. change (alter g 0%nat (v :: vs)) with (g v :: vs). cbn [map List.concat].
    rewrite Hg, !app_assoc. by rewrite (Permutation_app_comm (drawn v) l).
  - change (alter g (S i) (u :: vs)) with (u :: alter g i vs). cbn [map List.concat].
    rewrite (IH vs v l Hv Hg), !app_assoc. by rewrite (Permutation_app_comm (drawn u) l).
Qed.

Lemma bump_drawn v entry : nextEntry v = Some entry ->
  drawn (bump v) = drawn v ++ [(v_commitId v, pe_sha entry, is_merge v)].
Proof. unfold nextEntry, drawn. cbn. intros H. by rewrite (take_S_r _ _ _ H), map_app. Qed.

Lemma bump_left_over v entry : nextEntry v = Some entry -> (S (left_over (bump v)) = left_over v)%nat.
Proof.
  unfold nextEntry, left_over. cbn. intros H%lookup_lt_Some. unfold on_branch. cbn.
  change (Datatypes.length (v_parentEntries v)) with (List.length (v_parentEntries v)) in H. lia.
Qed.

Lemma place_left_over c x v : on_branch v = false -> (S (left_over (place c x v)) = left_over v)%nat.
Proof. unfold left_over. intros ->. cbn. lia. Qed.

(** ** Targets *)

Lemma index_by_id_spec items : forall row id t, index_by_id row items id = Some t ->
  exists k item, t = (row + k)%nat /\ items !! k = Some item /\ it_id item = id.
Proof.
  induction items as [|item items IH]; intros row id t; [done|]. cbn.
  destruct (index_by_id (S row) items id) as [i|] eqn:E.
  - intros [= <-]. destruct (IH _ _ _ E) as (k & item' & -> & Hk & Hid). exists (S k), item'. split; [lia | done].
  - case_bool_decide; [|done]. intros [= <-]. exists 0%nat, item. split; [lia | done].
Qed.

(** Every commit comes before its parents. *)
Fixpoint children_first_from (all : list GitHistoryItem) (row : nat) (items : list GitHistoryItem) : bool :=
  match items with
  | [] => true
  | item :: rest =>
      forallb (fun sha => match index_by_id 0 all sha with Some t => (row <? t)%nat | None => true end)
        (it_parentIds item)
      && children_first_from all (S row) rest
  end.

Definition children_first (items : list GitHistoryItem) : bool := children_first_from items 0 items.

Lemma children_first_spec all items : forall row k item sha t, children_first_from all row items = true ->
  items !! k = Some item -> sha ∈ it_parentIds item -> index_by_id 0 all sha = Some t -> (row + k < t)%nat.
Proof.
  induction items as [|item' items IH]; intros row [|k] item sha t; try done; cbn; rewrite andb_true_iff; intros [H1 H2].
  - intros [= ->] Hs Ht. rewrite forallb_forall in H1. apply list_elem_of_In, H1 in Hs. rewrite Ht in Hs.
    apply Nat.ltb_lt in Hs. lia.
  - intros Hk Hs Ht. specialize (IH (S row) k item sha t H2 Hk Hs Ht). lia.
Qed.

Section layout.
Context (items : list GitHistoryItem) (ordered : children_first items = true).

Definition of_items vs : Prop := static <$> vs = static <$> buildVertices items.

Lemma of_items_entry vs i v entry : of_items vs -> vs !! i = Some v -> nextEntry v = Some entry ->
  match pe_targetIndex entry with
  | Some t => (i < t)%nat /\ exists w, vs !! t = Some w /\ v_commitId w = pe_sha entry
  | None => True
  end.
Proof.
  intros Hof Hv He. destruct (pe_targetIndex entry) as [t|] eqn:Et; [|done].
  assert (Hi : (static <$> vs) !! i = Some (static v)) by (by rewrite list_lookup_fmap, Hv).
  rewrite Hof in Hi. unfold buildVertices in Hi. rewrite list_lookup_fmap in Hi. unfold fmap in Hi. 
  rewrite list_lookup_fmap in Hi. destruct (items !! i) as [item|] eqn:Eitem; [|done].
  injection Hi as Hid Hentries. unfold nextEntry in He. rewrite <- Hentries in He.
  rewrite list_lookup_fmap in He. destruct (it_parentIds item !! v_nextParentPtr v) as [sha|] eqn:Esha; [|done].
  injection He as <-. cbn in Et |- *. split.
  - apply (children_first_spec items items 0 i item sha t); try done. by apply list_elem_of_lookup_2 in Esha.
  - destruct (index_by_id_spec _ _ _ _ Et) as (k & item' & -> & Hk & Hid'). cbn [Nat.add].
    assert (Ht : (static <$> vs) !! k = Some (static (new_vertex items item')))
      by (rewrite Hof; unfold buildVertices; rewrite !list_lookup_fmap, Hk; done).
    rewrite list_lookup_fmap in Ht. destruct (vs !! k) as [w|]; [|done]. exists w. split; [done|].
    injection Ht as Ht _. by rewrite Ht.
Qed.

Lemma of_items_summary vs vs' : of_items vs -> summary <$> vs' = summary <$> vs -> of_items vs'.
Proof. unfold of_items. intros H Hs. by rewrite (fmap_summary static vs vs' summary_static Hs). Qed.

Lemma of_items_alter vs i g : of_items vs -> (forall v, static (g v) = static v) -> of_items (alter g i vs).
Proof. unfold of_items. intros H Hg. by rewrite fmap_alter_same. Qed.

(** ** The invariant of the layout *)

(** The line of an edge starts at its child; unless the parent is not on the page, it goes
    down row by row and ends at the parent or at a point, above the parent's row, of an
    edge drawn before into the same parent with the same colour. *)
Record edge_meets vs (before : list GitGraphEdge) (e : GitGraphEdge) (i : nat) v : Prop := {
  em_child : vs !! i = Some v;
  em_placed : on_branch v = true;
  em_from : e_fromCommitId e = v_commitId v;
  em_start : head (e_points e) = Some (pointOf v i);
  em_down : map pt_y (e_points e) = seq i (List.length (e_points e));
  em_end : if e_stub e then List.length (e_points e) = 1%nat else
    exists j w p, vs !! j = Some w /\ on_branch w = true /\ e_toCommitId e = v_commitId w /\ (i < j)%nat /\
      last (e_points e) = Some p /\
      (p = pointOf w j \/
       (pt_y p < j)%nat /\ exists e', e' ∈ before /\ e_stub e' = false /\ e_toCommitId e' = v_commitId w /\
         e_colorIndex e' = e_colorIndex e /\ p ∈ e_points e') }.

Definition edges_meet vs (edges : list GitGraphEdge) : Prop :=
  forall before e after, edges = before ++ e :: after -> exists i v, edge_meets vs before e i v.

(** Every connection of a vertex is its own or was registered by an edge. *)
Definition connections_drawn vs (edges : list GitGraphEdge) : Prop :=
  forall r v x j c, vs !! r = Some v -> (x, (j, c)) ∈ v_connections v ->
    r = j \/ (r < j)%nat /\ exists e w, e ∈ edges /\ e_stub e = false /\ vs !! j = Some w /\
      e_toCommitId e = v_commitId w /\ e_colorIndex e = (c mod GIT_GRAPH_COLORS_length)%nat /\
      mkPoint x r ∈ e_points e.

Record graph_ok vs (edges : list GitGraphEdge) : Prop := {
  go_items : of_items vs;
  go_vertices : vertices_ok vs;
  go_drawn : map link_of edges ≡ₚ List.concat (map drawn vs);
  go_connections : connections_drawn vs edges;
  go_edges : edges_meet vs edges }.

(** Vertices keep what they have. *)
Definition grown vs vs' : Prop :=
  forall i v, vs !! i = Some v -> exists v', vs' !! i = Some v' /\ v_commitId v' = v_commitId v /\
    (v_nextParentPtr v <= v_nextParentPtr v')%nat /\ v_parentEntries v' = v_parentEntries v /\
    (on_branch v = true -> on_branch v' = true /\ v_colour v' = v_colour v /\ v_x v' = v_x v).

Lemma grown_refl vs : grown vs vs.
Proof. intros i v Hv. exists v. split_and!; auto. Qed.

Lemma grown_trans vs1 vs2 vs3 : grown vs1 vs2 -> grown vs2 vs3 -> grown vs1 vs3.
Proof.
  intros H1 H2 i v Hv. destruct (H1 i v Hv) as (v2 & Hv2 & A2 & B2 & C2 & D2).
  destruct (H2 i v2 Hv2) as (v3 & Hv3 & A3 & B3 & C3 & D3). exists v3. split_and!; [done|congruence|lia|congruence|].
  intros Hb. destruct (D2 Hb) as (E1 & E2 & E3). destruct (D3 E1) as (F1 & F2 & F3). split_and!; congruence.
Qed.

Lemma grown_summary vs vs' : summary <$> vs' = summary <$> vs -> grown vs vs'.
Proof.
  intros H i v Hv. destruct (summary_lookup vs vs' i v H Hv) as (v' & Hv' & Hs). exists v'.
  unfold summary in Hs. injection Hs as H1 H2 H3 H4 H5. unfold on_branch. rewrite H5. split_and!; auto; lia.
Qed.

Lemma grown_alter vs i g : (forall v, vs !! i = Some v -> grown [v] [g v]) -> grown vs (alter g i vs).
Proof.
  intros H j v Hv. destruct (decide (i = j)) as [->|Hij].
  - destruct (H v Hv 0%nat v eq_refl) as (v' & [= <-] & H'). exists (g v). split; [|done].
    by rewrite list_lookup_alter_eq, Hv.
  - exists v. rewrite list_lookup_alter_ne by done. split_and!; auto.
Qed.

Lemma grown_bump v : grown [v] [bump v].
Proof. intros [|i] w; [|done]. intros [= <-]. exists (bump v). split_and!; try done. cbn. lia. Qed.

Lemma grown_place c x v : on_branch v = false -> grown [v] [place c x v].
Proof. intros H [|i] w; [|done]. intros [= <-]. exists (place c x v). split_and!; try done. congruence. Qed.

Lemma edges_meet_grown vs vs' edges : grown vs vs' -> edges_meet vs edges -> edges_meet vs' edges.
Proof.
  intros Hg H before e after He. destruct (H _ _ _ He) as (i & v & [A B C D E F]).
  destruct (Hg i v A) as (v' & A' & B' & _ & _ & C'). destruct (C' B) as (C1 & C2 & C3). exists i, v'. split; try done.
  - congruence.
  - unfold pointOf. rewrite D, C3. done.
  - destruct (e_stub e); [done|]. destruct F as (j & w & p & F1 & F2 & F3 & F4 & F5 & F6).
    destruct (Hg j w F1) as (w' & G1 & G2 & _ & _ & G3). destruct (G3 F2) as (G4 & G5 & G6).
    exists j, w', p. split_and!; try done; [congruence|].
    destruct F6 as [->|(F6 & e' & E1 & E2 & E3 & E4 & E5)]; [left; unfold pointOf; by rewrite G6|].
    right. split; [done|]. exists e'. split_and!; try done. congruence.
Qed.

(** Drawing one more edge. *)
Lemma add_edge vs vs' edges e i v :
  graph_ok vs edges -> grown vs vs' -> of_items vs' -> vertices_ok vs' ->
  List.concat (map drawn vs') ≡ₚ link_of e :: List.concat (map drawn vs) ->
  (forall r u' x j c, vs' !! r = Some u' -> (x, (j, c)) ∈ v_connections u' ->
     r = j \/ (exists u, vs !! r = Some u /\ (x, (j, c)) ∈ v_connections u) \/
     ((r < j)%nat /\ exists w, e_stub e = false /\ vs' !! j = Some w /\ e_toCommitId e = v_commitId w /\
      e_colorIndex e = (c mod GIT_GRAPH_COLORS_length)%nat /\ mkPoint x r ∈ e_points e)) ->
  edge_meets vs' edges e i v ->
  graph_ok vs' (edges ++ [e]).
Proof.
  intros [G1 G2 G3 G4 G5] Hg Hof Hok Hd Hc He. split; try done.
  - rewrite map_app. cbn. rewrite G3, Hd. by rewrite Permutation_app_comm.
  - intros r u' x j c Hu Hx. destruct (Hc r u' x j c Hu Hx) as [|[(u & Hu0 & Hx0)|(Hlt & w & K1 & K2 & K3 & K4 & K5)]]; [by left| |].
    + destruct (G4 r u x j c Hu0 Hx0) as [|(Hlt & e0 & w & K1 & K2 & K3 & K4 & K5 & K6)]; [by left|]. right. split; [done|].
      destruct (Hg j w K3) as (w' & L1 & L2 & _). exists e0, w'. split_and!; try done; [|congruence].
      apply elem_of_app. by left.
    + right. split; [done|]. exists e, w. split_and!; try done. apply elem_of_app. right. by apply list_elem_of_singleton.
  - intros before e0 after. induction after as [|y after _] using rev_ind; intros Heq.
    + apply app_inj_tail in Heq as [<- <-]. by exists i, v.
    + rewrite app_comm_cons, app_assoc in Heq. apply app_inj_tail in Heq as [-> _].
      by apply (edges_meet_grown vs vs' _ Hg G5 before e0 after).
Qed.

(** What happens to the parent when a line reaches it. *)
Record parent_step (t : nat) w1 (g : MutableVertex -> MutableVertex) : Prop := {
  ps_static : forall u, static (g u) = static u;
  ps_connections : forall u, v_connections (g u) = v_connections u;
  ps_drawn : forall u, drawn (g u) = drawn u;
  ps_ok : vertex_ok t (g w1);
  ps_placed : on_branch (g w1) = true;
  ps_grown : grown [w1] [g w1] }.

Lemma static_fields v v' : static v' = static v -> v_commitId v' = v_commitId v /\ v_parentEntries v' = v_parentEntries v.
Proof. unfold static. intros H. by injection H. Qed.

Section add_line.
Context (vs vs1 : list MutableVertex) (edges : list GitGraphEdge) (i t c : nat) (v w w1 : MutableVertex).
Context (entry : ParentEntry) (ps : list GridPoint) (p : GridPoint) (locks : list bool) (g : MutableVertex -> MutableVertex).
Context (Hok : graph_ok vs edges) (Hv : vs !! i = Some v) (Hplaced : on_branch v = true).
Context (He : nextEntry v = Some entry) (Ht : pe_targetIndex entry = Some t).
Context (Hw : vs !! t = Some w) (Hl : lined t c (ps ++ [p]) vs vs1) (Hw1 : vs1 !! t = Some w1).
Context (Hg : parent_step t w1 g) (Hy : map pt_y (ps ++ [p]) = seq (S i) (S (List.length ps))).
Context (Hend : p = pointOf (g w1) t \/
  (pt_y p < t)%nat /\ exists u, vs !! pt_y p = Some u /\ (pt_x p, (t, c)) ∈ v_connections u).

Definition line_edge : GitGraphEdge :=
  makeEdge (v_commitId v) (v_commitId w) c (pointOf v i :: ps ++ [p]) locks (is_merge v).

Definition line_vertices : list MutableVertex := alter g t (alter bump i vs1).

Lemma line_target : (i < t)%nat /\ v_commitId w = pe_sha entry.
Proof.
  pose proof (of_items_entry vs i v entry (go_items _ _ Hok) Hv He) as H. rewrite Ht in H.
  destruct H as (H1 & u & Hu & H2). split; [done|]. congruence.
Qed.

Lemma line_child : exists v1, vs1 !! i = Some v1 /\ summary v1 = summary v /\ line_vertices !! i = Some (bump v1).
Proof.
  destruct line_target as [Hlt _]. destruct (summary_lookup vs vs1 i v (li_summary _ _ _ _ _ Hl) Hv) as (v1 & H1 & H2).
  exists v1. split_and!; [done..|]. unfold line_vertices. rewrite list_lookup_alter_ne by lia.
  by rewrite list_lookup_alter_eq, H1.
Qed.

Lemma line_parent : line_vertices !! t = Some (g w1).
Proof.
  destruct line_target as [Hlt _]. unfold line_vertices. rewrite list_lookup_alter_eq, list_lookup_alter_ne by lia.
  by rewrite Hw1.
Qed.

Lemma line_lookup r u' : line_vertices !! r = Some u' ->
  exists u1, vs1 !! r = Some u1 /\ v_connections u' = v_connections u1 /\
    (r <> t -> vertex_ok r u1 -> (r = i -> nextEntry u1 <> None) -> vertex_ok r u').
Proof.
  destruct line_target as [Hlt _]. unfold line_vertices.
  destruct (decide (t = r)) as [<-|Hr].
  - rewrite list_lookup_alter_eq, list_lookup_alter_ne by lia. rewrite Hw1. intros [= <-]. exists w1.
    split_and!; [done | apply (ps_connections _ _ _ Hg) | done].
  - rewrite list_lookup_alter_ne by done. destruct (decide (i = r)) as [<-|Hi].
    + rewrite list_lookup_alter_eq. destruct (vs1 !! i) as [u1|]; [|done]. intros [= <-]. exists u1.
      split_and!; [done..|]. intros _ Hu Hn. apply bump_ok; auto.
    + rewrite list_lookup_alter_ne by done. intros Hu. exists u'. split_and!; auto.
Qed.

Lemma line_grown : grown vs line_vertices.
Proof.
  destruct line_target as [Hlt _]. apply (grown_trans _ vs1); [apply grown_summary, (li_summary _ _ _ _ _ Hl)|].
  apply (grown_trans _ (alter bump i vs1)).
  - apply grown_alter. intros u _. apply grown_bump.
  - apply grown_alter. intros u Hu. rewrite list_lookup_alter_ne in Hu by lia. rewrite Hw1 in Hu. injection Hu as <-.
    apply (ps_grown _ _ _ Hg).
Qed.

Lemma summary_nextEntry u u' : summary u = summary u' -> nextEntry u = nextEntry u'.
Proof. unfold summary, nextEntry. intros H. injection H as _ H2 H3 _ _. by rewrite H2, H3. Qed.

Lemma summary_bump_drawn v1 : summary v1 = summary v -> drawn (bump v1) = drawn v1 ++ [link_of line_edge].
Proof.
  intros Hs. rewrite (bump_drawn v1 entry) by (rewrite <- He; by apply summary_nextEntry). do 2 f_equal.
  destruct line_target as [_ Hid]. unfold link_of, line_edge. cbn. rewrite Hid.
  apply summary_static, static_fields in Hs as [E1 E2]. unfold is_merge. by rewrite E1, E2.
Qed.

Lemma line_commit : v_commitId (g w1) = v_commitId w.
Proof.
  destruct (static_fields _ _ (ps_static _ _ _ Hg w1)) as [-> _].
  destruct (summary_lookup vs vs1 t w (li_summary _ _ _ _ _ Hl) Hw) as (w2 & Hw2 & Hs2).
  rewrite Hw1 in Hw2. injection Hw2 as <-. by destruct (static_fields _ _ (summary_static _ _ Hs2)).
Qed.

Lemma line_rows q : q ∈ ps ++ [p] -> (pt_y q <= t)%nat.
Proof.
  assert (Hp : (pt_y p <= t)%nat) by (destruct Hend as [->|[H _]]; [cbn; lia | lia]).
  assert (E : pt_y p = (S i + List.length ps)%nat).
  { apply (f_equal last) in Hy. rewrite seq_S, last_snoc, map_app in Hy. cbn [map] in Hy. rewrite last_snoc in Hy.
    by injection Hy as Hy. }
  intros Hq. assert (Hin : In (pt_y q) (map pt_y (ps ++ [p]))) by (apply in_map; by apply list_elem_of_In).
  rewrite Hy in Hin. apply in_seq in Hin. lia.
Qed.

Lemma line_meets : exists v', edge_meets line_vertices edges line_edge i v'.
Proof.
  destruct line_target as [Hlt Hid]. destruct line_child as (v1 & H1 & Hs & H2). exists (bump v1).
  pose proof Hs as Hs'. unfold summary in Hs'. injection Hs' as E1 E2 E3 E4 E5. split; [done|..].
  - unfold on_branch. cbn. rewrite E5. exact Hplaced.
  - by cbn.
  - cbn. unfold pointOf. cbn. by rewrite E4.
  - cbn [line_edge makeEdge e_points map pointOf pt_y]. unfold line_edge. cbn [makeEdge e_points map pointOf pt_y List.length].
    rewrite Hy. cbn [List.length seq]. rewrite length_app. cbn [List.length]. by rewrite Nat.add_1_r.
  - cbn [line_edge makeEdge e_stub e_points e_toCommitId e_colorIndex]. unfold line_edge. cbn.
    pose proof line_commit as Hwid.
    exists t, (g w1), p. split_and!; [apply line_parent | apply (ps_placed _ _ _ Hg) | done | done | by rewrite last_cons, last_snoc|].
    destruct Hend as [->|(Hr & u & Hu & Hc)]; [by left|]. right. split; [done|].
    destruct (go_connections _ _ Hok _ _ _ _ _ Hu Hc) as [Hr'|(_ & e' & w' & K1 & K2 & K3 & K4 & K5 & K6)]; [lia|].
    exists e'. split_and!; try done; [congruence|]. by destruct p.
Qed.

Lemma line_ok : graph_ok line_vertices (edges ++ [line_edge]).
Proof.
  destruct line_meets as [v' Hm]. destruct line_child as (v1 & H1 & Hs & H2). destruct line_target as [Hlt Hid].
  apply (add_edge vs line_vertices edges line_edge i v' Hok line_grown).
  - unfold line_vertices. apply of_items_alter; [|apply (ps_static _ _ _ Hg)]. apply of_items_alter; [|done].
    apply (of_items_summary vs); [apply (go_items _ _ Hok) | apply (li_summary _ _ _ _ _ Hl)].
  - intros r u' Hu'. destruct (decide (r = t)) as [->|Hr].
    + rewrite line_parent in Hu'. injection Hu' as <-. apply (ps_ok _ _ _ Hg).
    + destruct (line_lookup r u' Hu') as (u1 & Hu1 & _ & Hk). destruct (li_row _ _ _ _ _ Hl r u1 Hu1) as (u & Hu & _ & _ & Hk').
      apply Hk; [done | apply Hk'; [done | by apply (go_vertices _ _ Hok)]|]. intros ->.
      rewrite H1 in Hu1. injection Hu1 as <-. rewrite (summary_nextEntry _ _ Hs), He. done.
  - unfold line_vertices.
    rewrite (drawn_alter g t (alter bump i vs1) w1 []); [|by rewrite list_lookup_alter_ne by lia | by rewrite app_nil_r, (ps_drawn _ _ _ Hg)].
    cbn [app]. rewrite (drawn_alter bump i vs1 v1 [link_of line_edge] H1 (summary_bump_drawn v1 Hs)). cbn [app].
    apply Permutation_cons; [done|]. pose proof (fmap_summary drawn vs vs1 summary_drawn (li_summary _ _ _ _ _ Hl)) as E.
    unfold fmap in E. change (list_fmap _ _ drawn) with (map drawn) in E. by rewrite E.
  - intros r u' x j c' Hu' Hx. destruct (line_lookup r u' Hu') as (u1 & Hu1 & Hcs & _). rewrite Hcs in Hx.
    destruct (li_row _ _ _ _ _ Hl r u1 Hu1) as (u & Hu & _ & Hn & _). destruct (Hn x (j, c') Hx) as [Hx'|[[= -> ->] Hp]].
    { right. left. by exists u. }
    destruct (decide (r = t)) as [|Hr]; [by left|]. right. right.
    assert (Hrt : (r <= t)%nat) by (apply (line_rows (mkPoint x r)); exact Hp).
    split; [lia|]. exists (g w1). split_and!; [done | apply line_parent | by cbn; rewrite line_commit | done|].
    cbn. apply elem_of_cons. by right.
  - done.
Qed.
End add_line.

(** ** determinePath *)

Lemma graph_grown_ok vs vs' edges : graph_ok vs edges -> grown vs vs' -> of_items vs' -> vertices_ok vs' ->
  List.concat (map drawn vs') ≡ₚ List.concat (map drawn vs) ->
  (forall r u' x j c, vs' !! r = Some u' -> (x, (j, c)) ∈ v_connections u' ->
     r = j \/ exists u, vs !! r = Some u /\ (x, (j, c)) ∈ v_connections u) ->
  graph_ok vs' edges.
Proof.
  intros [G1 G2 G3 G4 G5] Hg Hof Hok Hd Hc. split; try done.
  - by rewrite G3, Hd.
  - intros r u' x j c Hu Hx. destruct (Hc r u' x j c Hu Hx) as [|(u & Hu0 & Hx0)]; [by left|].
    destruct (G4 r u x j c Hu0 Hx0) as [|(Hlt & e & w & K1 & K2 & K3 & K4 & K5 & K6)]; [by left|]. right. split; [done|].
    destruct (Hg j w K3) as (w' & L1 & L2 & _). exists e, w'. split_and!; try done. congruence.
  - by apply (edges_meet_grown vs).
Qed.

(** The parent is not on the page. *)
Lemma off_page_ok vs edges i v entry c : graph_ok vs edges -> vs !! i = Some v -> on_branch v = true ->
  nextEntry v = Some entry ->
  graph_ok (alter bump i vs)
    (edges ++ [makeOffPageEdge (v_commitId v) (pe_sha entry) c (pointOf v i) (is_merge v)]).
Proof.
  intros Hok Hv Hp He.
  assert (Hlook : forall r u', alter bump i vs !! r = Some u' -> exists u, vs !! r = Some u /\
    v_connections u' = v_connections u /\ (vertex_ok r u -> vertex_ok r u')).
  { intros r u'. destruct (decide (i = r)) as [<-|Hr].
    - rewrite list_lookup_alter_eq, Hv. intros [= <-]. exists v. split_and!; try done. apply bump_ok. congruence.
    - rewrite list_lookup_alter_ne by done. intros Hu. exists u'. auto. }
  apply (add_edge vs _ edges _ i (bump v)); [done|..].
  - apply grown_alter. intros u _. apply grown_bump.
  - by apply of_items_alter; [apply (go_items _ _ Hok)|].
  - intros r u' Hu'. destruct (Hlook r u' Hu') as (u & Hu & _ & Hk). by apply Hk, (go_vertices _ _ Hok).
  - by apply (drawn_alter bump i vs v [(v_commitId v, pe_sha entry, is_merge v)] Hv), bump_drawn.
  - intros r u' x j c' Hu' Hx. destruct (Hlook r u' Hu') as (u & Hu & E & _). rewrite E in Hx. right. left. by exists u.
  - split; try done. by rewrite list_lookup_alter_eq, Hv.
Qed.

(** What the line of a branch does to the parent it reaches. *)
Definition reach (w : MutableVertex) (t c : nat) : MutableVertex :=
  if on_branch w then w else registerUnavailablePoint (v_nextX w) t c w.

Definition settle (w : MutableVertex) (c : nat) (x : Z) : MutableVertex -> MutableVertex :=
  if on_branch w then id else place c x.

Lemma reach_on_branch w t c : on_branch (reach w t c) = on_branch w.
Proof.
  unfold reach. destruct (on_branch w) eqn:E; [done|]. rewrite <- E.
  pose proof (register_summary (v_nextX w) t c w) as Hs. unfold summary in Hs. injection Hs as _ _ _ _ Hc.
  unfold on_branch. by rewrite Hc.
Qed.

Lemma settle_step w t c : vertex_ok t w -> parent_step t (reach w t c) (settle w c (v_nextX w)).
Proof.
  intros Hok. pose proof (reach_on_branch w t c) as Hb. unfold settle, reach in *. destruct (on_branch w) eqn:E.
  - split; try done. apply grown_refl.
  - split; try done; [|by apply grown_place]. apply register_place_ok; [|done].
    unfold on_branch in E. by destruct (v_colour w).
Qed.

Lemma settle_left_over w t c x :
  (left_over (settle w c x (reach w t c)) + (if on_branch w then 0 else 1) = left_over (reach w t c))%nat.
Proof.
  pose proof (reach_on_branch w t c) as Hb. unfold settle. destruct (on_branch w); [unfold id; lia|].
  pose proof (place_left_over c x _ Hb). lia.
Qed.

(** The line of a branch to the next parent. *)
Lemma walk_ok vs edges i v entry t c : graph_ok vs edges -> vs !! i = Some v -> on_branch v = true ->
  nextEntry v = Some entry -> pe_targetIndex entry = Some t ->
  let l := walk_rows (rows_from (S i) vs) t c (mkLine vs (pointOf v i) [pointOf v i] []) in
  exists w, vs !! t = Some w /\ (i < t)%nat /\
  let vs1 := alter bump i (ln_vertices l) in
  vs1 !! t = Some (reach w t c) /\
  let vs2 := if on_branch w then vs1 else alter (place c (pt_x (ln_last l))) t vs1 in
  graph_ok vs2 (edges ++ [makeEdge (v_commitId v) (v_commitId w) c (ln_points l) (ln_locks l) (is_merge v)]) /\
  grown vs vs2 /\ List.length vs2 = List.length vs /\
  (work vs2 + (if on_branch w then 1 else 2) = work vs)%nat /\
  (on_branch w = false -> exists w', vs2 !! t = Some w' /\ on_branch w' = true /\ ln_last l = pointOf w' t).
Proof.
  intros Hok Hv Hp He Ht l. pose proof (of_items_entry vs i v entry (go_items _ _ Hok) Hv He) as H. rewrite Ht in H.
  destruct H as (Hlt & w & Hw & Hid). exists w. split; [done|]. split; [done|].
  pose proof (go_vertices _ _ Hok t w Hw) as Hwok.
  destruct (walk_rows_spec (List.length vs - S i) (S i) t c (mkLine vs (pointOf v i) [pointOf v i] []) w)
    as (ps & H1 & H2 & H3 & H4 & H5).
  { lia. } { apply lookup_lt_Some in Hw. change (Datatypes.length vs) with (List.length vs) in Hw. lia. } { done. }
  { intros r u _ Hu. by apply (go_vertices _ _ Hok). }
  fold (rows_from (S i) vs) in H1, H2, H3, H4, H5. fold l in H1, H2, H3, H4, H5. cbn [ln_vertices ln_points] in H1, H2, H3, H4, H5.
  fold (reach w t c) in H5. set (w1 := reach w t c) in *.
  intros vs1. assert (Hvs1 : vs1 !! t = Some w1) by (subst vs1; by rewrite list_lookup_alter_ne by lia). split; [done|].
  set (g := settle w c (pt_x (ln_last l))).
  assert (Hvs2 : (if on_branch w then vs1 else alter (place c (pt_x (ln_last l))) t vs1) = alter g t vs1)
    by (subst g; unfold settle; destruct (on_branch w); [by rewrite list_alter_id | done]).
  intros vs2. subst vs2. rewrite Hvs2.
  assert (Hlast : ln_last l = pointOf (g w1) t)
    by (rewrite H4; subst g w1; unfold settle, reach; destruct (on_branch w) eqn:E; [done | by rewrite H4]).
  assert (Hg : parent_step t w1 g).
  { subst g. replace (settle w c (pt_x (ln_last l))) with (settle w c (v_nextX w)) by
      (rewrite H4; unfold settle; by destruct (on_branch w)). by apply settle_step. }
  assert (Hlen : List.length ps = (t - S i)%nat).
  { apply (f_equal List.length) in H2. rewrite length_map, length_app, length_seq in H2. cbn [List.length] in H2. lia. }
  assert (Hy : map pt_y (ps ++ [ln_last l]) = seq (S i) (S (List.length ps))) by (by rewrite H2, Hlen).
  assert (Hwork : forall v1, ln_vertices l !! i = Some v1 -> summary v1 = summary v ->
    (work (alter g t vs1) + (if on_branch w then 1 else 2) = work vs)%nat).
  { intros v1 Hv1 Hsv. pose proof (work_alter g t vs1 w1 Hvs1) as W1.
    pose proof (work_alter bump i (ln_vertices l) v1 Hv1) as W2.
    pose proof (bump_left_over v1 entry ltac:(rewrite <- He; by apply summary_nextEntry)) as W3.
    assert (W4 : work (ln_vertices l) = work vs)
      by (unfold work; by rewrite (fmap_summary left_over vs (ln_vertices l) summary_left_over (li_summary _ _ _ _ _ H3))).
    fold vs1 in W2. pose proof (settle_left_over w t c (pt_x (ln_last l))) as W5. fold g w1 in W5.
    destruct (on_branch w); lia. }
  destruct (summary_lookup vs (ln_vertices l) i v (li_summary _ _ _ _ _ H3) Hv) as (v1 & Hv1 & Hsv).
  split; [|split; [|split; [|split]]].
  - pose proof (line_ok vs (ln_vertices l) edges i t c v w w1 entry ps (ln_last l) (ln_locks l) g Hok Hv Hp He Ht Hw H3 H5 Hg Hy
      (or_introl Hlast)) as Hline. unfold line_edge in Hline. rewrite H1. exact Hline.
  - exact (line_grown vs (ln_vertices l) edges i t c v w w1 entry ps (ln_last l) g Hok Hv Hp He Ht Hw H3 H5 Hg
      (or_introl Hlast)).
  - subst vs1. rewrite !length_alter. apply (summary_length _ _ (li_summary _ _ _ _ _ H3)).
  - by apply (Hwork v1).
  - intros E. exists (g w1). split; [by rewrite list_lookup_alter_eq, Hvs1|]. split; [apply (ps_placed _ _ _ Hg) | done].
Qed.

(** What a run of [follow] or [determinePath] achieves. *)
Definition progress vs vs' (edges' : list GitGraphEdge) : Prop :=
  graph_ok vs' edges' /\ grown vs vs' /\ List.length vs' = List.length vs /\ (work vs' <= work vs)%nat.

Lemma length_of vs i v : vs !! i = Some v -> (i < List.length vs)%nat.
Proof. apply lookup_lt_Some. Qed.

Lemma follow_spec fuel : forall vs edges i v c, graph_ok vs edges -> vs !! i = Some v -> on_branch v = true ->
  (List.length vs < i + fuel)%nat ->
  exists vs' edges' finalRow, follow fuel vs edges i (S i) (pointOf v i) c = Some (vs', edges', finalRow) /\
    progress vs vs' edges' /\ (nextEntry v <> None -> (work vs' < work vs)%nat).
Proof.
  induction fuel as [|fuel IH]; intros vs edges i v c Hok Hv Hp Hfuel; [apply length_of in Hv; lia|].
  cbn [follow]. rewrite (lookup_total_some _ _ _ Hv). destruct (nextEntry v) as [entry|] eqn:He.
  2: { exists vs, edges, (List.length vs). split; [done|]. split; [|done]. split_and!; [done | apply grown_refl | done | lia]. }
  assert (Hoff : forall sha, sha = pe_sha entry -> exists vs' edges' finalRow,
    Some (alter bump i vs, edges ++ [makeOffPageEdge (v_commitId v) sha c (pointOf v i) (is_merge v)], List.length vs)
      = Some (vs', edges', finalRow) /\ progress vs vs' edges' /\ (work vs' < work vs)%nat).
  { intros sha ->. eexists _, _, _. split; [done|]. pose proof (work_alter bump i vs v Hv) as W1.
    pose proof (bump_left_over v entry He) as W2. split; [|lia]. split_and!; [|..|lia].
    - by apply off_page_ok.
    - apply grown_alter. intros u _. apply grown_bump.
    - apply length_alter. }
  destruct (pe_targetIndex entry) as [t|] eqn:Ht.
  2: { destruct (Hoff (pe_sha entry) eq_refl) as (vs' & edges' & finalRow & H1 & H2 & H3). by exists vs', edges', finalRow. }
  pose proof (of_items_entry vs i v entry (go_items _ _ Hok) Hv He) as Hfwd. rewrite Ht in Hfwd. destruct Hfwd as [Hlt _].
  replace (t <? S i)%nat with false by (symmetry; apply Nat.ltb_ge; lia).
  destruct (walk_ok vs edges i v entry t c Hok Hv Hp He Ht) as (w & Hw & _ & Hvs1 & Hok' & Hg & Hlen & Hwork & Hplaced).
  cbv zeta in *. set (l := walk_rows _ _ _ _) in *. rewrite (lookup_total_some _ _ _ Hvs1), reach_on_branch.
  assert (Hid : v_commitId (reach w t c) = v_commitId w)
    by (unfold reach; destruct (on_branch w); [done | apply static_fields, summary_static, register_summary]).
  rewrite Hid. destruct (on_branch w) eqn:Ew.
  - eexists _, _, _. split; [done|]. split; [|intros _; lia]. split_and!; [done|done|done|lia].
  - destruct (Hplaced eq_refl) as (w' & Hw' & Hp' & Hlast).
    destruct (IH _ _ t w' c Hok' Hw' Hp' ltac:(lia)) as (vs' & edges' & finalRow & H1 & (P1 & P2 & P3 & P4) & _).
    rewrite <- Hlast in H1. exists vs', edges', finalRow. split; [exact H1|]. split; [|intros _; lia].
    split_and!; [done | by eapply grown_trans | lia | lia].
Qed.

(** A merge joins the lane of its next parent. *)
Lemma connect_ok vs edges i v entry t c w : graph_ok vs edges -> vs !! i = Some v -> on_branch v = true ->
  nextEntry v = Some entry -> pe_targetIndex entry = Some t -> vs !! t = Some w -> v_colour w = Some c ->
  exists l, connect_rows (rows_from (S i) vs) t c (mkLine vs (pointOf v i) [pointOf v i] []) = (l, true) /\
    progress vs (alter bump i (ln_vertices l))
      (edges ++ [makeEdge (v_commitId v) (v_commitId w) c (ln_points l) (ln_locks l) (is_merge v)]) /\
    (work (alter bump i (ln_vertices l)) < work vs)%nat.
Proof.
  intros Hok Hv Hp He Ht Hw Hc. pose proof (of_items_entry vs i v entry (go_items _ _ Hok) Hv He) as H. rewrite Ht in H.
  destruct H as (Hlt & _). pose proof (go_vertices _ _ Hok t w Hw) as Hwok.
  destruct (connect_rows_spec (List.length vs - S i) (S i) t c (mkLine vs (pointOf v i) [pointOf v i] []) (v_x w) w)
    as (l & ps & r & u & H1 & H2 & H3 & H4 & H5 & H6 & H7 & H8 & H9).
  { lia. } { apply length_of in Hw. lia. } { done. } { by apply (vo_placed _ _ Hwok). }
  { intros k z _ Hz. by apply (go_vertices _ _ Hok). }
  exists l. split; [done|]. cbn [ln_vertices ln_points] in H2, H5, H6.
  assert (Hwb : on_branch w = true) by (unfold on_branch; by rewrite Hc).
  assert (Hg : parent_step t w id) by (split; try done; apply grown_refl).
  assert (Hend : ln_last l = pointOf (id w) t \/ (pt_y (ln_last l) < t)%nat /\
    exists u, vs !! pt_y (ln_last l) = Some u /\ (pt_x (ln_last l), (t, c)) ∈ v_connections u).
  { destruct (decide (r = t)) as [->|Hr]; [left|right; split; [lia | exists u; by rewrite H8]].
    rewrite Hw in H6. injection H6 as <-. apply (vo_own _ _ Hwok) in H7 as [_ H7]. unfold pointOf, id.
    destruct (ln_last l) as [x y]. cbn in H7, H8. by rewrite H7, H8. }
  assert (Hy : map pt_y (ps ++ [ln_last l]) = seq (S i) (S (List.length ps))).
  { rewrite H3. f_equal. apply (f_equal List.length) in H3.
    rewrite length_map, length_app, length_seq in H3. cbn [List.length] in H3. lia. }
  assert (Eid : alter id t (alter bump i (ln_vertices l)) = alter bump i (ln_vertices l)) by (by apply list_alter_id).
  destruct (summary_lookup vs (ln_vertices l) i v (li_summary _ _ _ _ _ H5) Hv) as (v1 & Hv1 & Hsv).
  assert (Hwork : (work (alter bump i (ln_vertices l)) < work vs)%nat).
  { pose proof (work_alter bump i (ln_vertices l) v1 Hv1) as W2.
    pose proof (bump_left_over v1 entry ltac:(rewrite <- He; by apply summary_nextEntry)) as W3.
    assert (W4 : work (ln_vertices l) = work vs)
      by (unfold work; by rewrite (fmap_summary left_over vs (ln_vertices l) summary_left_over (li_summary _ _ _ _ _ H5))).
    lia. }
  split; [|done]. rewrite <- Eid, H2. split_and!.
  - exact (line_ok vs (ln_vertices l) edges i t c v w w entry ps (ln_last l) (ln_locks l) id Hok Hv Hp He Ht Hw H5 H9 Hg Hy Hend).
  - exact (line_grown vs (ln_vertices l) edges i t c v w w entry ps (ln_last l) id Hok Hv Hp He Ht Hw H5 H9 Hg Hend).
  - rewrite !length_alter. apply (summary_length _ _ (li_summary _ _ _ _ _ H5)).
  - rewrite Eid. lia.
Qed.

Lemma alter_alter (f h : MutableVertex -> MutableVertex) i vs : alter f i (alter h i vs) = alter (fun u => f (h u)) i vs.
Proof.
  apply list_eq. intros j. destruct (decide (i = j)) as [<-|Hj]; [|by rewrite !list_lookup_alter_ne].
  rewrite !list_lookup_alter_eq. by destruct (vs !! i).
Qed.

(** A commit without a lane starts one. *)
Lemma start_lane_ok vs edges i v c : graph_ok vs edges -> vs !! i = Some v -> on_branch v = false ->
  let vs' := alter (registerUnavailablePoint (v_nextX v) i c) i (alter (place c (v_nextX v)) i vs) in
  exists v', progress vs vs' edges /\ (work vs' < work vs)%nat /\
    vs' !! i = Some v' /\ on_branch v' = true /\ pointOf v' i = nextPointOf v i.
Proof.
  intros Hok Hv Hb vs'. set (v' := registerUnavailablePoint (v_nextX v) i c (place c (v_nextX v) v)).
  assert (Hnone : v_colour v = None) by (unfold on_branch in Hb; by destruct (v_colour v)).
  pose proof (go_vertices _ _ Hok i v Hv) as Hvok. pose proof (proj2 (register_place_ok i c v Hnone Hvok)) as Hv'ok. fold v' in Hv'ok.
  assert (Hs : summary v' = summary (place c (v_nextX v) v)) by apply register_summary.
  assert (Hfields : on_branch v' = true /\ v_x v' = v_nextX v).
  { unfold summary in Hs. injection Hs as _ _ _ E4 E5. unfold on_branch. by rewrite E4, E5. }
  assert (Hvs' : vs' = alter (fun u => registerUnavailablePoint (v_nextX v) i c (place c (v_nextX v) u)) i vs)
    by (subst vs'; apply alter_alter).
  assert (Hi : vs' !! i = Some v') by (by rewrite Hvs', list_lookup_alter_eq, Hv).
  assert (Hother : forall r u', vs' !! r = Some u' -> r <> i -> vs !! r = Some u')
    by (intros r u'; rewrite Hvs'; intros Hu Hr; by rewrite list_lookup_alter_ne in Hu by done).
  assert (Hstatic : forall u, static (registerUnavailablePoint (v_nextX v) i c (place c (v_nextX v) u)) = static u)
    by (intros u; by apply (summary_static _ (place c (v_nextX v) u)), register_summary).
  assert (Hdrawn : forall u, drawn (registerUnavailablePoint (v_nextX v) i c (place c (v_nextX v) u)) = drawn u)
    by (intros u; by apply (summary_drawn _ (place c (v_nextX v) u)), register_summary).
  assert (Hg : grown vs vs').
  { apply (grown_trans _ (alter (place c (v_nextX v)) i vs)).
    - apply grown_alter. intros u Hu. rewrite Hv in Hu. injection Hu as <-. by apply grown_place.
    - apply grown_summary, fmap_alter_same, register_summary. }
  assert (Hwork : (work vs' < work vs)%nat).
  { pose proof (work_alter (fun u => registerUnavailablePoint (v_nextX v) i c (place c (v_nextX v) u)) i vs v Hv) as W.
    cbv beta in W. fold v' in W. rewrite <- Hvs', (summary_left_over _ _ Hs) in W.
    pose proof (place_left_over c (v_nextX v) v Hb). lia. }
  exists v'. split; [|split; [|split; [done|split; [by destruct Hfields|]]]].
  - split_and!; [|done|subst vs'; by rewrite !length_alter|].
    + apply (graph_grown_ok vs); [done..| | | |].
      * rewrite Hvs'. apply of_items_alter; [apply (go_items _ _ Hok) | done].
      * intros r u' Hu'. destruct (decide (r = i)) as [->|Hr]; [by rewrite Hi in Hu'; injection Hu' as <-|].
        by apply (go_vertices _ _ Hok), Hother.
      * rewrite Hvs'. by rewrite (drawn_alter _ i vs v []) by (done || by rewrite app_nil_r).
      * intros r u' x j c' Hu' Hx. destruct (decide (r = i)) as [->|Hr].
        { rewrite Hi in Hu'. injection Hu' as <-.
          assert (Hm : vertex_ok i v) by done.
          unfold v', registerUnavailablePoint in Hx. cbn in Hx. rewrite Z.eqb_refl in Hx. cbn in Hx.
          destruct (register_connections i i c v Hm) as [Hcs _]. unfold registerUnavailablePoint in Hcs.
          rewrite Z.eqb_refl in Hcs. cbn in Hcs. rewrite Hcs in Hx.
          apply elem_of_app in Hx as [Hx|Hx%list_elem_of_singleton]; [right; by exists v | left; by injection Hx as _ -> _]. }
        { right. exists u'. split; [by apply Hother | done]. }
    + lia.
  - done.
  - unfold pointOf, nextPointOf. destruct Hfields as [_ ->]. done.
Qed.

Lemma unfinished_next v : unfinished v = true -> on_branch v = true -> nextEntry v <> None.
Proof.
  unfold unfinished, nextEntry. intros H Hb. rewrite Hb, orb_false_r in H. apply Nat.ltb_lt in H.
  intros Hn. apply lookup_ge_None in Hn. change (Datatypes.length (v_parentEntries v)) with (List.length (v_parentEntries v)) in Hn. lia.
Qed.

Lemma determinePath_spec g i v : graph_ok (g_vertices g) (g_edges g) -> g_vertices g !! i = Some v -> unfinished v = true ->
  exists g', determinePath (S (List.length (g_vertices g))) i g = Some g' /\
    progress (g_vertices g) (g_vertices g') (g_edges g') /\ (work (g_vertices g') < work (g_vertices g))%nat.
Proof.
  destruct g as [vs colours edges]. cbn [g_vertices g_edges]. intros Hok Hv Hun.
  unfold determinePath, merge_connect. cbn [g_vertices g_edges g_colours]. rewrite (lookup_total_some _ _ _ Hv).
  assert (Hbranch : exists g',
    (let '(colour, colours) := getAvailableColour colours i in
     let lastPoint := if on_branch v then pointOf v i else nextPointOf v i in
     let vs0 := if on_branch v then vs else alter (place colour (pt_x lastPoint)) i vs in
     let vs0 := alter (registerUnavailablePoint (pt_x lastPoint) i colour) i vs0 in
     match follow (S (List.length vs)) vs0 edges i (S i) lastPoint colour with
     | Some (vs0, edges0, finalRow) => Some (mkGraph vs0 (<[colour := finalRow]> colours) edges0)
     | None => None
     end) = Some g' /\ progress vs (g_vertices g') (g_edges g') /\ (work (g_vertices g') < work vs)%nat).
  { destruct (getAvailableColour colours i) as [c cs]. cbv zeta. destruct (on_branch v) eqn:Eb.
    - assert (E : alter (registerUnavailablePoint (pt_x (pointOf v i)) i c) i vs = vs).
      { apply list_eq. intros j. destruct (decide (i = j)) as [<-|Hj]; [|by rewrite list_lookup_alter_ne].
        rewrite list_lookup_alter_eq, Hv. cbn. rewrite register_other; [done|].
        pose proof (placed_below i v (go_vertices _ _ Hok i v Hv) Eb). lia. }
      rewrite E. destruct (follow_spec (S (List.length vs)) vs edges i v c Hok Hv Eb ltac:(lia)) as (vs' & edges' & fr & H1 & H2 & H3).
      rewrite H1. eexists. split; [done|]. split; [exact H2|]. by apply H3, unfinished_next.
    - cbn [pt_x nextPointOf]. destruct (start_lane_ok vs edges i v c Hok Hv Eb) as (v' & (P1 & P2 & P3 & P4) & W & Hi & Hb & Hpt).
      cbv zeta in P1, P2, P3, P4, W, Hi. rewrite <- Hpt.
      destruct (follow_spec (S (List.length vs)) _ edges i v' c P1 Hi Hb ltac:(lia)) as (vs' & edges' & fr & H1 & (Q1 & Q2 & Q3 & Q4) & _).
      rewrite H1. eexists. split; [done|]. cbn [g_vertices g_edges]. split; [|lia].
      split_and!; [done | by eapply grown_trans | lia | lia]. }
  destruct (nextEntry v) as [[[t|] sha]|] eqn:He; try exact Hbranch.
  destruct (is_merge v && on_branch v) eqn:Em; [|exact Hbranch]. apply andb_true_iff in Em as [Em Eb].
  destruct (v_colour (vs !!! t)) as [c|] eqn:Ec; [|exact Hbranch].
  pose proof (of_items_entry vs i v _ (go_items _ _ Hok) Hv He) as (_ & w & Hw & _). cbn in Hw.
  rewrite (lookup_total_some _ _ _ Hw) in Ec |- *.
  destruct (connect_ok vs edges i v _ t c w Hok Hv Eb He eq_refl Hw Ec) as (l & H1 & H2 & H3).
  rewrite H1. eexists. split; [done|]. cbn [g_vertices g_edges]. rewrite <- Em. done.
Qed.

(** ** The loop *)

Lemma finished_grown vs vs' i v v' : vertices_ok vs' -> grown vs vs' -> vs !! i = Some v -> vs' !! i = Some v' ->
  unfinished v = false -> unfinished v' = false.
Proof.
  intros Hok Hg Hv Hv' H. destruct (Hg i v Hv) as (u & Hu & _ & Hptr & He & Hb). rewrite Hv' in Hu. injection Hu as <-.
  unfold unfinished in *. apply orb_false_iff in H as [H1 H2]. apply negb_false_iff in H2. destruct (Hb H2) as [-> _].
  rewrite orb_false_r. apply Nat.ltb_ge in H1. apply Nat.ltb_ge. rewrite He. lia.
Qed.

Lemma layout_loop_spec fuel : forall i g, graph_ok (g_vertices g) (g_edges g) ->
  (forall j v, (j < i)%nat -> g_vertices g !! j = Some v -> unfinished v = false) ->
  (work (g_vertices g) + (List.length (g_vertices g) - i) < fuel)%nat ->
  exists g', layout_loop fuel i g = Some g' /\ graph_ok (g_vertices g') (g_edges g') /\
    (forall j v, g_vertices g' !! j = Some v -> unfinished v = false).
Proof.
  induction fuel as [|fuel IH]; intros i g Hok Hdone Hfuel; [lia|]. cbn [layout_loop].
  destruct (i <? List.length (g_vertices g))%nat eqn:E.
  - apply Nat.ltb_lt in E. destruct (lookup_lt_is_Some_2 (g_vertices g) i E) as [v Hv].
    rewrite (lookup_total_some _ _ _ Hv). destruct (unfinished v) eqn:Eu.
    + destruct (determinePath_spec g i v Hok Hv Eu) as (g' & H1 & (P1 & P2 & P3 & P4) & W). rewrite H1.
      apply IH; [done| |lia]. intros j u' Hj Hu'.
      assert (Hu : is_Some (g_vertices g !! j)) by (apply lookup_lt_is_Some; apply length_of in Hu'; unfold length in *; lia).
      destruct Hu as [u Hu]. apply (finished_grown _ _ j u u' (go_vertices _ _ P1) P2 Hu Hu'). by apply (Hdone j).
    + apply IH; [done| |lia]. intros j u Hj Hu. destruct (decide (j = i)) as [->|Hne]; [congruence|].
      apply (Hdone j u); [lia | done].
  - apply Nat.ltb_ge in E. exists g. split_and!; [done..|]. intros j v Hv. apply (Hdone j v); [|done].
    apply length_of in Hv. lia.
Qed.

Lemma start_graph_ok : graph_ok (buildVertices items) [].
Proof.
  assert (Hlook : forall i v, buildVertices items !! i = Some v -> v_nextParentPtr v = 0%nat /\ v_connections v = [] /\ v_colour v = None).
  { intros i v Hv. unfold buildVertices in Hv. change (map (new_vertex items) items) with (new_vertex items <$> items) in Hv.
    rewrite list_lookup_fmap in Hv. destruct (items !! i); [|done]. injection Hv as <-. done. }
  split.
  - done.
  - intros i v Hv. destruct (Hlook i v Hv) as (H1 & H2 & H3). split; rewrite ?H1, ?H2, ?H3; try done; [lia|..].
    + by intros x t ?%not_elem_of_nil.
    + by intros x c ?%not_elem_of_nil.
  - cbn. assert (E : map drawn (buildVertices items) = map (fun _ => []) (buildVertices items)).
    { apply list_eq. intros i. change (map drawn (buildVertices items)) with (drawn <$> buildVertices items).
      change (map (fun _ => []) (buildVertices items)) with ((fun _ : MutableVertex => @nil Link) <$> buildVertices items).
      rewrite !list_lookup_fmap. destruct (buildVertices items !! i) as [v|] eqn:E; [|done]. cbn. unfold drawn.
      by destruct (Hlook i v E) as (-> & _). }
    rewrite E. clear E Hlook. induction (buildVertices items) as [|v vs IH]; [done | exact IH].
  - intros r v x j c Hv Hx. destruct (Hlook r v Hv) as (_ & H2 & _). rewrite H2 in Hx. by apply not_elem_of_nil in Hx.
  - intros before e after H. by destruct before.
Qed.

(** Iterations that always suffice. *)
Definition layout_fuel : nat := S (work (buildVertices items) + List.length items).

Lemma layout_loop_start fuel : (layout_fuel <= fuel)%nat ->
  exists g, layout_loop fuel 0 (start_graph items) = Some g /\ graph_ok (g_vertices g) (g_edges g) /\
    (forall j v, g_vertices g !! j = Some v -> unfinished v = false).
Proof.
  intros Hf. apply layout_loop_spec; [apply start_graph_ok | lia|].
  cbn [start_graph g_vertices]. unfold layout_fuel, buildVertices in *. rewrite length_map. lia.
Qed.

(** All the links of finished vertices are drawn. *)
Lemma finished_links vs : of_items vs -> vertices_ok vs -> (forall j v, vs !! j = Some v -> unfinished v = false) ->
  List.concat (map drawn vs) = parent_links items.
Proof.
  intros Hof Hok Hdone. unfold parent_links. f_equal. apply list_eq. intros i.
  change (map drawn vs) with (drawn <$> vs). change (map item_links items) with (item_links <$> items).
  assert (Hi : (static <$> vs) !! i = (static <$> buildVertices items) !! i) by (by rewrite Hof).
  unfold buildVertices in Hi. change (map (new_vertex items) items) with (new_vertex items <$> items) in Hi.
  rewrite !list_lookup_fmap in *. destruct (vs !! i) as [v|] eqn:Ev, (items !! i) as [item|]; try done.
  cbn in Hi |- *. apply (inj Some) in Hi. f_equal. specialize (Hdone i v Ev). pose proof (vo_ptr _ _ (Hok i v Ev)) as Hptr.
  unfold unfinished in Hdone. apply orb_false_iff in Hdone as [Hdone _]. apply Nat.ltb_ge in Hdone.
  unfold drawn. rewrite take_ge by (change (Datatypes.length (v_parentEntries v)) with (List.length (v_parentEntries v)); lia).
  apply static_fields in Hi as [H1 H2]. cbn in H1, H2. unfold is_merge. rewrite H1, H2. unfold item_links.
  rewrite map_map, length_map. done.
Qed.

Lemma of_items_ids vs : of_items vs -> map v_commitId vs = map it_id items.
Proof.
  intros H. apply (f_equal (map fst)) in H. unfold fmap, buildVertices in H.
  change (list_fmap _ _ static) with (map static) in H. rewrite !map_map in H. exact H.
Qed.
End layout.

(** ** The layout *)

Lemma layout_loop_more fuel : forall i g r more, layout_loop fuel i g = Some r -> (fuel <= more)%nat ->
  layout_loop more i g = Some r.
Proof.
  induction fuel as [|fuel IH]; intros i g r [|more] H Hle; try done; [lia|]. cbn [layout_loop] in *.
  destruct (_ <? _)%nat; [|done]. destruct (unfinished _); [|apply IH; [done | lia]].
  destruct (determinePath _ _ _); [apply IH; [done | lia] | done].
Qed.

Lemma max_of_ge f vs v : v ∈ vs -> f v <= max_of f vs.
Proof.
  unfold max_of. assert (H : forall m, m <= fold_left (fun m v => Z.max m (f v)) vs m /\
    (v ∈ vs -> f v <= fold_left (fun m v => Z.max m (f v)) vs m)).
  { induction vs as [|w vs IH]; intros m; cbn; [split; [lia | by intros ?%not_elem_of_nil]|].
    destruct (IH (Z.max m (f w))) as [H1 H2]. split; [lia|]. intros [->|Hv]%elem_of_cons; [lia | auto]. }
  apply H.
Qed.

Lemma layout_vertex grid headCommitId g i v : g_vertices g !! i = Some v ->
  l_vertices (layout_of grid headCommitId g) !! i = Some (out_vertex headCommitId i v).
Proof. intros H. cbn. by rewrite list_lookup_imap, H. Qed.

(** C17. For commits listed before their parents the layout ends, within a number of steps
    known beforehand, and is complete: it has one vertex per commit, in order, each in a
    column it counts, and exactly one edge per parent link, marked when its child is a
    merge. *)
Theorem graph_layout_complete items grid headCommitId fuel :
  children_first items = true -> (layout_fuel items <= fuel)%nat ->
  exists layout, buildGitGraphLayout fuel grid headCommitId items = Some layout /\
    map gv_commitId (l_vertices layout) = map it_id items /\
    map gv_row (l_vertices layout) = seq 0 (List.length items) /\
    (forall u, u ∈ l_vertices layout -> gv_column u < l_columnCount layout) /\
    map link_of (l_edges layout) ≡ₚ parent_links items.
Proof.
  intros Hord Hf. destruct items as [|item rest] eqn:Eitems.
  { eexists. split; [reflexivity|]. split_and!; try done. by intros u ?%not_elem_of_nil. }
  rewrite <- Eitems in *. assert (Hb : buildGitGraphLayout fuel grid headCommitId items =
    match layout_loop fuel 0 (start_graph items) with Some g => Some (layout_of grid headCommitId g) | None => None end)
    by (by rewrite Eitems). clear Eitems. rewrite Hb.
  destruct (layout_loop_start items Hord fuel Hf) as (g & -> & Hok & Hdone). exists (layout_of grid headCommitId g). split; [done|].
  pose proof (of_items_ids items _ (go_items _ _ _ Hok)) as Hids.
  assert (Hlen : List.length (g_vertices g) = List.length items) by (rewrite <- (length_map v_commitId), Hids; apply length_map).
  split_and!.
  - cbn [layout_of l_vertices]. change (map ?f ?l) with (f <$> l) in *. by rewrite fmap_imap, (imap_const v_commitId).
  - cbn [layout_of l_vertices]. change (map ?f ?l) with (f <$> l). rewrite fmap_imap.
    transitivity (imap (fun row (_ : MutableVertex) => row) (g_vertices g)); [by apply imap_ext|].
    rewrite (imap_seq_0 (g_vertices g) (fun row => row)), list_fmap_id. by rewrite <- Hlen.
  - intros u Hu. cbn [layout_of l_vertices l_columnCount] in *. apply elem_of_lookup_imap in Hu as (row & v & -> & Hv).
    cbn. apply list_elem_of_lookup_2 in Hv. pose proof (max_of_ge v_x _ _ Hv). lia.
  - cbn [layout_of l_edges]. rewrite (go_drawn _ _ _ Hok).
    by rewrite (finished_links items Hord _ (go_items _ _ _ Hok) (go_vertices _ _ _ Hok) Hdone).
Qed.

(** The lines meet the commits: in the layout of commits listed before their parents,
    every edge starts at the place of its child and goes down one row at a time; it is a
    stub below the child when the parent is not listed; otherwise it ends at the place of
    its parent, which is below, or joins, above the parent, an edge drawn before into the
    same parent with the same colour. *)
Theorem graph_edges_meet items grid headCommitId fuel layout before e after :
  children_first items = true -> buildGitGraphLayout fuel grid headCommitId items = Some layout ->
  l_edges layout = before ++ e :: after ->
  exists i child, l_vertices layout !! i = Some child /\ e_fromCommitId e = gv_commitId child /\
    hd_error (e_points e) = Some (mkPoint (gv_column child) i) /\
    map pt_y (e_points e) = seq i (List.length (e_points e)) /\
    if e_stub e then List.length (e_points e) = 1%nat
    else exists j parent p, l_vertices layout !! j = Some parent /\ e_toCommitId e = gv_commitId parent /\ (i < j)%nat /\
      last (e_points e) = Some p /\
      (p = mkPoint (gv_column parent) j \/
       (pt_y p < j)%nat /\ exists e', e' ∈ before /\ e_stub e' = false /\ e_toCommitId e' = gv_commitId parent /\
         e_colorIndex e' = e_colorIndex e /\ p ∈ e_points e').
Proof.
  intros Hord Hb He. destruct items as [|item rest] eqn:Eitems.
  { injection Hb as <-. by destruct before. }
  rewrite <- Eitems in *. assert (Hb' : buildGitGraphLayout fuel grid headCommitId items =
    match layout_loop fuel 0 (start_graph items) with Some g => Some (layout_of grid headCommitId g) | None => None end)
    by (by rewrite Eitems). clear Eitems. rewrite Hb' in Hb. clear Hb'.
  destruct (layout_loop fuel 0 (start_graph items)) as [g|] eqn:El; [|done]. injection Hb as <-.
  destruct (layout_loop_start items Hord (Nat.max fuel (layout_fuel items)) (Nat.le_max_r _ _)) as (g' & Hg' & Hok & _).
  rewrite (layout_loop_more fuel _ _ _ _ El (Nat.le_max_l _ _)) in Hg'. injection Hg' as <-.
  cbn [layout_of l_edges] in He. destruct (go_edges _ _ _ Hok _ _ _ He) as (i & v & [A B C D E F]).
  exists i, (out_vertex headCommitId i v). split_and!; [by apply layout_vertex | done | by destruct (e_points e) | done|].
  destruct (e_stub e); [done|]. destruct F as (j & w & p & F1 & F2 & F3 & F4 & F5 & F6).
  exists j, (out_vertex headCommitId j w), p. by split_and!; [apply layout_vertex|..].
Qed.

(** A merge in the last row whose next parent is above it keeps [buildGitGraphLayout]
    running: its line has no row left to find that parent in, and the loop comes back to
    the same merge. *)
Lemma last_merge_loops vs i t c : merge_connect vs i = Some (t, c) -> S i = List.length vs ->
  unfinished (vs !!! i) = true ->
  forall fuel colours edges, layout_loop fuel i (mkGraph vs colours edges) = None.
Proof.
  intros Hm Hlast Hun. induction fuel as [|fuel IH]; intros colours edges; [done|].
  cbn [layout_loop g_vertices]. replace (i <? List.length vs)%nat with true by (symmetry; apply Nat.ltb_lt; lia).
  rewrite Hun. unfold determinePath. cbn [g_vertices]. rewrite Hm. unfold rows_from.
  rewrite <- Hlast, Nat.sub_diag. cbn [seq connect_rows ln_vertices]. apply IH.
Qed.

(** Commits whose merge comes after its parent: the layout of this page never ends. *)
Definition late_merge : list GitHistoryItem := [mkItem [1] []; mkItem [2] [[3]]; mkItem [3] [[9]; [1]]].

Lemma layout_loop_unfinished fuel i g g' : (i <? List.length (g_vertices g))%nat = true ->
  unfinished (g_vertices g !!! i) = true -> determinePath (S (List.length (g_vertices g))) i g = Some g' ->
  layout_loop (S fuel) i g = layout_loop fuel i g'.
Proof. intros H1 H2 H3. cbn [layout_loop]. by rewrite H1, H2, H3. Qed.

Lemma layout_loop_next fuel i g : (i <? List.length (g_vertices g))%nat = true ->
  unfinished (g_vertices g !!! i) = false -> layout_loop (S fuel) i g = layout_loop fuel (S i) g.
Proof. intros H1 H2. cbn [layout_loop]. by rewrite H1, H2. Qed.

Lemma unordered_merge_loops fuel grid headCommitId :
  children_first late_merge = false /\ buildGitGraphLayout fuel grid headCommitId late_merge = None.
Proof.
  split; [done|]. unfold buildGitGraphLayout, late_merge. fold late_merge.
  assert (H : layout_loop fuel 0 (start_graph late_merge) = None); [|by rewrite H].
  do 4 (destruct fuel as [|fuel]; [done|]).
  erewrite layout_loop_unfinished by (vm_compute; reflexivity).
  erewrite layout_loop_next by (vm_compute; reflexivity).
  erewrite layout_loop_unfinished by (vm_compute; reflexivity).
  erewrite layout_loop_next by (vm_compute; reflexivity).
  apply (last_merge_loops _ 2 0 0); vm_compute; reflexivity.
Qed.

(** Pages: the appended commits that are new, once each. *)
Lemma append_new_spec appended : forall seen,
  NoDup (map it_id (append_new seen appended)) /\
  (forall id, id ∈ map it_id (append_new seen appended) <-> id ∈ map it_id appended /\ id ∉ seen) /\
  append_new seen appended `sublist_of` appended.
Proof.
  induction appended as [|item rest IH]; intros seen; cbn [append_new map].
  { split_and!; [constructor | intros id; rewrite elem_of_nil; tauto | done]. }
  case_bool_decide as E.
  - destruct (IH seen) as (H1 & H2 & H3). split_and!; [done| |by apply sublist_cons].
    intros id. rewrite H2, elem_of_cons. split; [tauto|]. intros [[->|Hid] Hs]; [done | tauto].
  - destruct (IH (it_id item :: seen)) as (H1 & H2 & H3). cbn [map]. split_and!.
    + apply NoDup_cons. split; [|done]. rewrite H2, not_elem_of_cons. tauto.
    + intros id. rewrite !elem_of_cons, H2, not_elem_of_cons.
      destruct (decide (id = it_id item)) as [->|]; [tauto|]. tauto.
    + by apply sublist_skip.
Qed.

Lemma dedupe_ids existing appended : NoDup (map it_id existing) ->
  NoDup (map it_id (dedupeGitHistoryItems existing appended)) /\
  forall id, id ∈ map it_id (dedupeGitHistoryItems existing appended) <->
    id ∈ map it_id existing \/ id ∈ map it_id appended.
Proof.
  intros Hn. unfold dedupeGitHistoryItems. rewrite map_app.
  destruct (append_new_spec appended (map it_id existing)) as (H1 & H2 & _). split.
  - apply NoDup_app. split_and!; [done| |done]. intros id Hid Hin. by apply H2 in Hin as [_ Hin].
  - intros id. rewrite elem_of_app, H2. destruct (decide (id ∈ map it_id existing)); tauto.
Qed.

(** ** Witnesses *)

(** A merge of two branches from one commit, whose parent is on another page. *)
Definition merged_branches : list GitHistoryItem :=
  [mkItem [1] [[2]; [3]]; mkItem [2] [[4]]; mkItem [3] [[4]]; mkItem [4] [[9]]].

Lemma graph_layout_complete_witness :
  exists layout, buildGitGraphLayout 20 GIT_GRAPH_DEFAULT_GRID (Some [1]) merged_branches = Some layout /\
    map link_of (l_edges layout) ≡ₚ parent_links merged_branches.
Proof.
  destruct (graph_layout_complete merged_branches GIT_GRAPH_DEFAULT_GRID (Some [1]) 20) as (layout & H1 & _ & _ & _ & H2).
  - vm_compute. reflexivity.
  - apply Nat.leb_le. vm_compute. reflexivity.
  - exists layout. split; [exact H1 | exact H2].
Defined.

Lemma graph_edges_meet_witness : exists layout,
  buildGitGraphLayout 20 GIT_GRAPH_DEFAULT_GRID None merged_branches = Some layout /\
  exists i child, l_vertices layout !! i = Some child /\ gv_commitId child = [3].
Proof.
  eexists. split; [vm_compute; reflexivity|].
  destruct (graph_edges_meet merged_branches GIT_GRAPH_DEFAULT_GRID None 20 _
    [mkEdge [1] [2] 0 [mkPoint 0 0; mkPoint 0 1] [false] true false;
     mkEdge [2] [4] 0 [mkPoint 0 1; mkPoint 0 2; mkPoint 0 3] [false; false] false false;
     mkEdge [4] [9] 0 [mkPoint 0 3] [true] false true;
     mkEdge [1] [3] 1 [mkPoint 0 0; mkPoint 1 1; mkPoint 1 2] [true; false] true false]
    (mkEdge [3] [4] 1 [mkPoint 1 2; mkPoint 0 3] [false] false false) []
    ltac:(vm_compute; reflexivity) ltac:(vm_compute; reflexivity) ltac:(vm_compute; reflexivity))
    as (i & child & H1 & H2 & _).
  exists i, child. split; [exact H1 | symmetry; exact H2].
Defined.
