(* ===== verification/SessionClient.v ===== *)
(** The writer of a session document
    (packages/client/src/runtime/session-document: client.ts, authoritative-base.ts).

    [HostState] is the state of one host, with the works [enqueue] has chained to its
    [tail]: the works that wait, oldest first, and the [drain] that runs.  [drain] is cut at
    its awaits; each answer is an event.  An edit is named by [ed_id], its identity: [write]
    and [drain] compare edits by identity, and the only object [adoptAuthoritativeBase]
    changes is the pending edit just made.

    The client of the protocol ([get], [set], [flush]), the listeners and their
    preparations, and the toast are outside: calls to them are effects, their answers are
    events.  What [flushPendingSessionWrites] writes is the writes before [ev_prepared].
    An offer is the action of a toast; [ev_action] is a click on one. *)

From stdpp Require Import base list.
From Stdlib Require Import ZArith Lia ZifyBool.
From S2P Require Import Prelude JsText Json SessionMerge.

Open Scope Z_scope.

#[local] Set Warnings "-clear-no-such-hyp".

Abbreviation document := TerminalMultiplexJsonObject.

Record Version := mkVersion { vn_epoch : jsstring; vn_revision : Z }.

Record ShellSessionSnapshot := mkSnapshot { sn_session : document; sn_version : Version }.

Record Edit := mkEdit { ed_id : nat; ed_base : document; ed_desired : document }.

Record ConfirmedEdit := mkConfirmed { cf_edit : Edit; cf_snapshot : ShellSessionSnapshot }.

(** What a running [drain] waits for. *)
Inductive DrainPhase :=
  | dr_opening
  | dr_reading (attempt : nat)
  | dr_setting (attempt : nat) (snapshot : ShellSessionSnapshot).

Record Work := mkWork { wk_promise : nat; wk_confirmed : option ConfirmedEdit }.

Record Drain := mkDrain { dr_work : Work; dr_edit : Edit; dr_phase : DrainPhase }.

Record HostState := mkHost
  { hs_snapshot : ShellSessionSnapshot; hs_input : document; hs_pending : option Edit;
    hs_failedPending : option nat; hs_projected : option Version;
    hs_waiting : list Work; hs_running : option Drain;
    hs_offers : list (Edit * option ConfirmedEdit); hs_nextEdit : nat; hs_nextWork : nat }.

(** Why a save failed. *)
Inductive SaveError :=
  | ownerChanged
  | concurrentChanges (paths : list jsstring)
  | busy
  | rejected_with (error : Z).

(** [x_written] and [x_accepted] record the edits [write] makes and the saves accepted. *)
Inductive SessionEffect :=
  | x_open
  | x_get
  | x_set (edit : Edit) (force : bool) (snapshot : ShellSessionSnapshot) (doc : document)
  | x_settle (promise : nat) (result : option SaveError)
  | x_failed (error : SaveError) (offer : Edit * option ConfirmedEdit)
  | x_ownerChanged
  | x_dismiss
  | x_prepare (snapshot : ShellSessionSnapshot)
  | x_listeners (doc : document)
  | x_returned (result : option document)
  | x_written (edit : Edit)
  | x_accepted (edit : Edit) (saved : ShellSessionSnapshot).

Definition with_snapshot (snapshot : ShellSessionSnapshot) (s : HostState) : HostState :=
  mkHost snapshot (hs_input s) (hs_pending s) (hs_failedPending s) (hs_projected s) (hs_waiting s) (hs_running s)
    (hs_offers s) (hs_nextEdit s) (hs_nextWork s).
Definition with_input (input : document) (s : HostState) : HostState :=
  mkHost (hs_snapshot s) input (hs_pending s) (hs_failedPending s) (hs_projected s) (hs_waiting s) (hs_running s)
    (hs_offers s) (hs_nextEdit s) (hs_nextWork s).
Definition with_pending (pending : option Edit) (s : HostState) : HostState :=
  mkHost (hs_snapshot s) (hs_input s) pending (hs_failedPending s) (hs_projected s) (hs_waiting s) (hs_running s)
    (hs_offers s) (hs_nextEdit s) (hs_nextWork s).
Definition with_failed (failed : option nat) (s : HostState) : HostState :=
  mkHost (hs_snapshot s) (hs_input s) (hs_pending s) failed (hs_projected s) (hs_waiting s) (hs_running s)
    (hs_offers s) (hs_nextEdit s) (hs_nextWork s).
Definition with_projected (projected : option Version) (s : HostState) : HostState :=
  mkHost (hs_snapshot s) (hs_input s) (hs_pending s) (hs_failedPending s) projected (hs_waiting s) (hs_running s)
    (hs_offers s) (hs_nextEdit s) (hs_nextWork s).
Definition with_waiting (waiting : list Work) (s : HostState) : HostState :=
  mkHost (hs_snapshot s) (hs_input s) (hs_pending s) (hs_failedPending s) (hs_projected s) waiting (hs_running s)
    (hs_offers s) (hs_nextEdit s) (hs_nextWork s).
Definition with_running (running : option Drain) (s : HostState) : HostState :=
  mkHost (hs_snapshot s) (hs_input s) (hs_pending s) (hs_failedPending s) (hs_projected s) (hs_waiting s) running
    (hs_offers s) (hs_nextEdit s) (hs_nextWork s).
Definition with_offer (offer : Edit * option ConfirmedEdit) (s : HostState) : HostState :=
  mkHost (hs_snapshot s) (hs_input s) (hs_pending s) (hs_failedPending s) (hs_projected s) (hs_waiting s) (hs_running s)
    (hs_offers s ++ [offer]) (hs_nextEdit s) (hs_nextWork s).

(** The state [get] makes for a host read the first time. *)
Definition new_host (snapshot : ShellSessionSnapshot) : HostState :=
  mkHost snapshot (sn_session snapshot) None None None [] None [] 0 0.

Definition same_epoch (a b : Version) : bool := jsstring_eqb (vn_epoch a) (vn_epoch b).

Definition is_edit (pending : option nat) (edit : Edit) : bool :=
  match pending with Some id => (id =? ed_id edit)%nat | None => false end.

Definition pending_id (s : HostState) : option nat := option_map ed_id (hs_pending s).

(** [{ ...base, ...value }]. *)
Definition spread (base value : document) : document :=
  from_entries
    (map (fun e => (fst e, default (snd e) (property (fst e) value))) base
     ++ List.filter (fun e => negb (hasOwn (fst e) base)) value).

Section client.
Context (identical : json -> json -> bool).

#[local] Abbreviation mergeSessionEdit := (mergeSessionEdit identical).

Definition enqueue (confirmed : option ConfirmedEdit) (s : HostState) : HostState :=
  mkHost (hs_snapshot s) (hs_input s) (hs_pending s) (hs_failedPending s) (hs_projected s)
    (hs_waiting s ++ [mkWork (hs_nextWork s) confirmed]) (hs_running s) (hs_offers s) (hs_nextEdit s) (S (hs_nextWork s)).

Definition write (value : document) (patch : bool) (s : HostState) : HostState * list SessionEffect :=
  let base := hs_input s in
  let desired := if patch then spread base value else value in
  let edit := mkEdit (hs_nextEdit s) (match hs_pending s with Some p => ed_base p | None => base end) desired in
  (enqueue None
     (mkHost (hs_snapshot s) desired (Some edit) (hs_failedPending s) (hs_projected s) (hs_waiting s) (hs_running s)
        (hs_offers s) (S (hs_nextEdit s)) (hs_nextWork s)),
   [x_written edit]).

Definition adoptAuthoritativeBase (s : HostState) : HostState :=
  let authoritative := sn_session (hs_snapshot s) in
  match hs_pending s with
  | Some pending =>
      with_input (ed_desired pending)
        (with_pending (Some (mkEdit (ed_id pending) authoritative (ed_desired pending))) s)
  | None => with_input authoritative s
  end.

(** ** drain *)

(** The [catch] at the end of [drain]. *)
Definition save_failed (d : Drain) (error : SaveError) (confirmation : option ConfirmedEdit) (s : HostState) :
    HostState * list SessionEffect :=
  let offer := (dr_edit d, confirmation) in
  (with_running None (with_offer offer (with_failed (Some (ed_id (dr_edit d))) s)),
   [x_failed error offer; x_settle (wk_promise (dr_work d)) (Some error)]).

Definition is_forced (d : Drain) : bool := match wk_confirmed (dr_work d) with Some _ => true | None => false end.

(** An attempt, from the snapshot it merges with to the request. *)
Definition try_set (d : Drain) (attempt : nat) (snapshot : ShellSessionSnapshot) (s : HostState) :
    HostState * list SessionEffect :=
  if negb (same_epoch (sn_version snapshot) (sn_version (hs_snapshot s))) then save_failed d ownerChanged None s else
  let s := with_snapshot snapshot s in
  match mergeSessionEdit (ed_base (dr_edit d)) (ed_desired (dr_edit d)) (sn_session snapshot) (is_forced d) with
  | merged_conflict paths => save_failed d (concurrentChanges paths) (Some (mkConfirmed (dr_edit d) snapshot)) s
  | merged_ok doc =>
      (with_running (Some (mkDrain (dr_work d) (dr_edit d) (dr_setting attempt snapshot))) s,
       [x_set (dr_edit d) (is_forced d) snapshot doc])
  end.

(** [state.tail.then(() => this.drain(...))]: the oldest work starts when none runs. *)
Definition drain_start (s : HostState) : HostState * list SessionEffect :=
  match hs_running s, hs_waiting s with
  | None, w :: rest =>
      let s := with_waiting rest s in
      match hs_pending s with
      | None => (s, [x_settle (wk_promise w) None])
      | Some pending =>
          let edit := match wk_confirmed w with Some c => cf_edit c | None => pending end in
          (with_running (Some (mkDrain w edit dr_opening)) s, [x_open])
      end
  | _, _ => (s, [])
  end.

Definition drain_opened (answer : option Z) (s : HostState) : HostState * list SessionEffect :=
  match hs_running s with
  | Some (mkDrain w edit dr_opening as d) =>
      match answer with
      | Some error => save_failed d (rejected_with error) None s
      | None =>
          try_set d 0 (match wk_confirmed w with Some c => cf_snapshot c | None => hs_snapshot s end) s
      end
  | _ => (s, [])
  end.

Definition drain_read (answer : Z + ShellSessionSnapshot) (s : HostState) : HostState * list SessionEffect :=
  match hs_running s with
  | Some (mkDrain _ _ (dr_reading attempt) as d) =>
      match answer with
      | inl error => save_failed d (rejected_with error) None s
      | inr snapshot => try_set d attempt snapshot s
      end
  | _ => (s, [])
  end.

(** What [client.set] answers: saved, a version that is no longer current ([ABORTED]), or
    another error. *)
Inductive SetAnswer := set_saved (saved : ShellSessionSnapshot) | set_aborted (error : Z) | set_rejected (error : Z).

Definition save_accepted (d : Drain) (saved : ShellSessionSnapshot) (s : HostState) : HostState * list SessionEffect :=
  let current := hs_snapshot s in
  let s := if same_epoch (sn_version current) (sn_version saved)
              && (vn_revision (sn_version current) <=? vn_revision (sn_version saved))
           then with_snapshot saved s else s in
  let s :=
    match hs_pending s with
    | Some pending =>
        if is_edit (pending_id s) (dr_edit d) then with_pending None s
        else mkHost (hs_snapshot s) (hs_input s) (Some (mkEdit (hs_nextEdit s) (ed_desired (dr_edit d)) (ed_desired pending)))
               (hs_failedPending s) (hs_projected s) (hs_waiting s) (hs_running s) (hs_offers s) (S (hs_nextEdit s)) (hs_nextWork s)
    | None => s
    end in
  let s := if is_edit (hs_failedPending s) (dr_edit d) then with_failed None s else s in
  let s := with_running None (adoptAuthoritativeBase s) in
  (match hs_pending s with Some _ => enqueue None s | None => s end,
   [x_accepted (dr_edit d) saved; x_dismiss; x_settle (wk_promise (dr_work d)) None]).

Definition drain_set (answer : SetAnswer) (s : HostState) : HostState * list SessionEffect :=
  match hs_running s with
  | Some (mkDrain w edit (dr_setting attempt _) as d) =>
      match answer with
      | set_saved saved => save_accepted d saved s
      | set_rejected error => save_failed d (rejected_with error) None s
      | set_aborted error =>
          if is_forced d then save_failed d (rejected_with error) None s
          else if (S attempt <? 3)%nat
               then (with_running (Some (mkDrain w edit (dr_reading (S attempt)))) s, [x_get])
               else save_failed d busy None s
      end
  | _ => (s, [])
  end.

(** The action of a toast. *)
Definition click (k : nat) (s : HostState) : HostState * list SessionEffect :=
  match hs_offers s !! k with
  | Some (edit, confirmation) =>
      (enqueue confirmation (if is_edit (hs_failedPending s) edit then with_failed None s else s), [])
  | None => (s, [])
  end.

(** ** Reading *)

Definition pending_merge (session : document) (s : HostState) : SessionMergeResult :=
  match hs_pending s with
  | Some p => mergeSessionEdit (ed_base p) (ed_desired p) session false
  | None => merged_ok session
  end.

(** [get] once [client.get] has answered; [None]: it throws. *)
Definition get (snapshot : ShellSessionSnapshot) (s : HostState) : HostState * list SessionEffect :=
  let foreign := negb (same_epoch (sn_version (hs_snapshot s)) (sn_version snapshot)) in
  match hs_pending s, foreign with
  | Some _, true => (s, [x_returned None])
  | _, _ =>
      let s := if foreign || (vn_revision (sn_version (hs_snapshot s)) <=? vn_revision (sn_version snapshot))
               then with_snapshot snapshot s else s in
      let input := match pending_merge (sn_session (hs_snapshot s)) s with
                   | merged_ok doc => doc
                   | merged_conflict _ => match hs_pending s with Some p => ed_desired p | None => hs_input s end
                   end in
      (with_input input s, [x_returned (Some input)])
  end.

(** Whether a watched snapshot is older than the one held. *)
Definition stale (snapshot : ShellSessionSnapshot) (s : HostState) : bool :=
  same_epoch (sn_version (hs_snapshot s)) (sn_version snapshot)
  && (vn_revision (sn_version snapshot) <? vn_revision (sn_version (hs_snapshot s))).

Definition watched (snapshot : ShellSessionSnapshot) (s : HostState) : HostState * list SessionEffect :=
  let already := match hs_projected s with
                 | Some v => same_epoch v (sn_version snapshot) && (vn_revision v =? vn_revision (sn_version snapshot))
                 | None => false
                 end in
  (s, if stale snapshot s || already then [] else [x_prepare snapshot]).

(** What becomes of a watched snapshot; [taken]: a listener took the document. *)
Definition adopt_watched (snapshot : ShellSessionSnapshot) (taken : bool) (s : HostState) : HostState * list SessionEffect :=
  let s := with_snapshot snapshot s in
  match pending_merge (sn_session snapshot) s with
  | merged_conflict _ =>
      match hs_pending s with
      | Some p => if is_edit (hs_failedPending s) p then (s, []) else (enqueue None (with_failed (Some (ed_id p)) s), [])
      | None => (s, [])
      end
  | merged_ok doc =>
      (if taken then with_projected (Some (sn_version snapshot)) (with_input doc s) else s, [x_listeners doc])
  end.

(** After the preparations. *)
Definition prepared (snapshot : ShellSessionSnapshot) (taken : bool) (s : HostState) : HostState * list SessionEffect :=
  if stale snapshot s then (s, []) else
  match hs_pending s, same_epoch (sn_version (hs_snapshot s)) (sn_version snapshot) with
  | Some p, false =>
      if is_edit (hs_failedPending s) p then (s, []) else (with_failed (Some (ed_id p)) s, [x_ownerChanged])
  | _, _ => adopt_watched snapshot taken s
  end.

(** ** Runs *)

Inductive SessionEvent :=
  | ev_write (value : document) (patch : bool)
  | ev_flush
  | ev_start
  | ev_opened (answer : option Z)
  | ev_read (answer : Z + ShellSessionSnapshot)
  | ev_set (answer : SetAnswer)
  | ev_action (k : nat)
  | ev_get (snapshot : ShellSessionSnapshot)
  | ev_watched (snapshot : ShellSessionSnapshot)
  | ev_prepared (snapshot : ShellSessionSnapshot) (taken : bool)
  | ev_unsubscribed.

Definition session_step (s : HostState) (e : SessionEvent) : HostState * list SessionEffect :=
  match e with
  | ev_write value patch => write value patch s
  | ev_flush => (enqueue None s, [])
  | ev_start => drain_start s
  | ev_opened answer => drain_opened answer s
  | ev_read answer => drain_read answer s
  | ev_set answer => drain_set answer s
  | ev_action k => click k s
  | ev_get snapshot => get snapshot s
  | ev_watched snapshot => watched snapshot s
  | ev_prepared snapshot taken => prepared snapshot taken s
  | ev_unsubscribed => (with_projected None s, [])
  end.

Fixpoint session_run (s : HostState) (events : list SessionEvent) : HostState * list SessionEffect :=
  match events with
  | [] => (s, [])
  | e :: rest =>
      let '(s, effects) := session_step s e in
      let '(s, more) := session_run s rest in
      (s, effects ++ more)
  end.
End client.
