(* ===== verification/SessionClientSpec.v ===== *)
(** What the writer of a session document does with the edits it is given: the last one
    stays pending until a save of it is accepted, every save is a merge with the snapshot
    whose version it names, and a save makes at most three requests.  The last section
    shows an update of another client that is lost. *)

From stdpp Require Import base list.
From Stdlib Require Import ZArith Lia ZifyBool String.
From S2P Require Import Prelude JsText Json SessionMerge SessionMergeSpec SessionClient.

Open Scope Z_scope.

#[local] Set Warnings "-clear-no-such-hyp".

Section spec.
Context (identical : json -> json -> bool).

#[local] Abbreviation session_step := (session_step identical).
#[local] Abbreviation session_run := (session_run identical).

Lemma session_run_app s xs ys : session_run s (xs ++ ys) =
  let '(s1, fx) := session_run s xs in let '(s2, fy) := session_run s1 ys in (s2, fx ++ fy).
Proof.
  revert s. induction xs as [|e xs IH]; intros s; cbn [app SessionClient.session_run].
  - by destruct (session_run s ys).
  - destruct (session_step s e) as [s1 fx]. rewrite IH. destruct (session_run s1 xs) as [s2 fy].
    destruct (session_run s2 ys) as [s3 fz]. by rewrite app_assoc.
Qed.

(** What holds of the log and the state of every run. *)
Lemma run_invariant (Inv : list SessionEffect -> HostState -> Prop) s0 events :
  Inv [] s0 ->
  (forall log s e s' fx, Inv log s -> session_step s e = (s', fx) -> Inv (log ++ fx) s') ->
  Inv (snd (session_run s0 events)) (fst (session_run s0 events)).
Proof.
  intros H0 Hstep. induction events as [|e events IH] using rev_ind; [done|].
  rewrite session_run_app. destruct (session_run s0 events) as [s1 fx]. cbn [fst snd SessionClient.session_run] in *.
  destruct (session_step s1 e) as [s2 fy] eqn:E. cbn [fst snd]. rewrite app_nil_r. by apply (Hstep fx s1 e).
Qed.

(** ** Edits *)

Definition offer_edits (o : Edit * option ConfirmedEdit) : list Edit :=
  fst o :: match snd o with Some c => [cf_edit c] | None => [] end.

Definition work_edits (w : Work) : list Edit := match wk_confirmed w with Some c => [cf_edit c] | None => [] end.

(** The edits held elsewhere than in [pending]. *)
Definition known (s : HostState) : list Edit :=
  match hs_running s with Some d => [dr_edit d] | None => [] end
  ++ List.concat (map offer_edits (hs_offers s)) ++ List.concat (map work_edits (hs_waiting s)).

Definition pending_list (s : HostState) : list Edit := match hs_pending s with Some p => [p] | None => [] end.

(** Edits of one identity have one document. *)
Definition identities (s : HostState) : Prop :=
  (forall e, In e (known s) -> (ed_id e < hs_nextEdit s)%nat) /\
  forall p, hs_pending s = Some p -> (ed_id p < hs_nextEdit s)%nat /\
    forall e, In e (known s) -> ed_id e = ed_id p -> ed_desired e = ed_desired p.

Definition is_log (x : SessionEffect) : bool := match x with x_written _ | x_accepted _ _ => true | _ => false end.

(** A step that leaves the pending edit alone. *)
Definition quiet (s s' : HostState) (fx : list SessionEffect) : Prop :=
  hs_pending s' = hs_pending s /\ hs_nextEdit s' = hs_nextEdit s /\
  incl (known s') (known s ++ pending_list s) /\ forallb (fun x => negb (is_log x)) fx = true.

Lemma quiet_refl s fx : forallb (fun x => negb (is_log x)) fx = true -> quiet s s fx.
Proof. intros H. split_and!; try done. by apply incl_appl, incl_refl. Qed.

Lemma quiet_same s s' fx : hs_pending s' = hs_pending s -> hs_nextEdit s' = hs_nextEdit s ->
  hs_running s' = hs_running s -> hs_offers s' = hs_offers s -> hs_waiting s' = hs_waiting s ->
  forallb (fun x => negb (is_log x)) fx = true -> quiet s s' fx.
Proof.
  intros H1 H2 H3 H4 H5 H6. split_and!; try done. unfold known. rewrite H3, H4, H5. by apply incl_appl, incl_refl.
Qed.

Lemma quiet_trans s1 s2 s3 fx fy : quiet s1 s2 fx -> quiet s2 s3 fy -> quiet s1 s3 fy.
Proof.
  intros (A1 & A2 & A3 & A4) (B1 & B2 & B3 & B4). split_and!; [congruence | congruence | | done].
  intros e He. apply B3, in_app_iff in He as [He|He]; [by apply A3|].
  apply in_app_iff. right. unfold pending_list in *. by rewrite <- A1.
Qed.

Lemma quiet_enqueue s confirmed fx : forallb (fun x => negb (is_log x)) fx = true ->
  (forall c, confirmed = Some c -> In (cf_edit c) (known s)) -> quiet s (enqueue confirmed s) fx.
Proof.
  intros Hfx Hc. split_and!; try done. unfold known. cbn. rewrite map_app, concat_app.
  intros e. rewrite !in_app_iff. cbn. rewrite app_nil_r. unfold known in Hc.
  intros [H|[H|[H|H]]]; [tauto | tauto | tauto|]. left.
  destruct confirmed as [c|]; [|done]. destruct H as [<-|[]]. specialize (Hc c eq_refl).
  rewrite !in_app_iff in Hc. tauto.
Qed.

Lemma quiet_failed d error confirmation s : In (dr_edit d) (known s) ->
  (forall c, confirmation = Some c -> cf_edit c = dr_edit d) ->
  quiet s (fst (save_failed d error confirmation s)) (snd (save_failed d error confirmation s)).
Proof.
  intros Hd Hc. split_and!; try done. unfold known. cbn. rewrite map_app, concat_app. cbn. rewrite app_nil_r.
  intros e. rewrite !in_app_iff. unfold known in Hd. rewrite !in_app_iff in Hd. intros [[H|H]|H]; [tauto | | tauto].
  unfold offer_edits in H. cbn in H. destruct H as [<-|H]; [tauto|]. destruct confirmation as [c|]; [|done].
  destruct H as [<-|[]]. rewrite (Hc c eq_refl). tauto.
Qed.

Lemma quiet_running d s : In (dr_edit d) (known s ++ pending_list s) ->
  forall fx, forallb (fun x => negb (is_log x)) fx = true -> quiet s (with_running (Some d) s) fx.
Proof.
  intros Hd fx Hfx. split_and!; try done. intros e. unfold known at 1. cbn. intros [<-|He]; [done|].
  apply in_app_iff. left. unfold known. apply in_app_iff. by right.
Qed.

Lemma running_known s d : hs_running s = Some d -> In (dr_edit d) (known s).
Proof. intros H. unfold known. rewrite H. by left. Qed.

Lemma quiet_try d attempt snapshot s : hs_running s = Some d ->
  quiet s (fst (try_set identical d attempt snapshot s)) (snd (try_set identical d attempt snapshot s)).
Proof.
  intros Hd. pose proof (running_known s d Hd) as Hin. unfold try_set. destruct (negb _).
  { by apply quiet_failed. }
  assert (Hs : quiet s (with_snapshot snapshot s) []) by by apply quiet_same.
  destruct (mergeSessionEdit _ _ _ _ _) as [doc|paths]; cbn [fst snd].
  - apply (quiet_trans _ _ _ _ _ Hs), quiet_running; [|done]. apply in_app_iff. by left.
  - apply (quiet_trans _ _ _ _ _ Hs). apply quiet_failed; [done|]. by intros c [= <-].
Qed.

Lemma waiting_known s w rest : hs_waiting s = w :: rest -> forall e, In e (work_edits w) -> In e (known s).
Proof.
  intros H e He. unfold known. rewrite H, !in_app_iff. right. right. cbn. apply in_app_iff. by left.
Qed.

Lemma quiet_waiting s w rest fx : hs_waiting s = w :: rest -> forallb (fun x => negb (is_log x)) fx = true ->
  quiet s (with_waiting rest s) fx.
Proof.
  intros H Hfx. split_and!; try done. unfold known. cbn. rewrite H. cbn.
  intros e. rewrite !in_app_iff. tauto.
Qed.

Lemma quiet_start s : quiet s (fst (drain_start s)) (snd (drain_start s)).
Proof.
  unfold drain_start. destruct (hs_running s) eqn:Er; [by apply quiet_refl|].
  destruct (hs_waiting s) as [|w rest] eqn:Ew; [by apply quiet_refl|].
  assert (Hs : quiet s (with_waiting rest s) []) by by eapply quiet_waiting.
  cbv zeta. destruct (hs_pending (with_waiting rest s)) as [p|] eqn:Ep; cbn [fst snd]; [|by eapply quiet_waiting].
  split_and!; try done. intros e. unfold known at 1. cbn. intros [<-|He].
  - apply in_app_iff. destruct (wk_confirmed w) as [c|] eqn:Ec.
    + left. apply (waiting_known s w rest Ew). unfold work_edits. rewrite Ec. by left.
    + right. cbn in Ep. unfold pending_list. rewrite Ep. by left.
  - apply in_app_iff. left. unfold known. rewrite Ew. cbn. rewrite !in_app_iff in *. tauto.
Qed.

Lemma quiet_opened answer s : quiet s (fst (drain_opened identical answer s)) (snd (drain_opened identical answer s)).
Proof.
  unfold drain_opened. destruct (hs_running s) as [[w edit [| |]]|] eqn:Er; try by apply quiet_refl.
  pose proof (running_known s _ Er). destruct answer; [by apply quiet_failed | by apply quiet_try].
Qed.

Lemma quiet_read answer s : quiet s (fst (drain_read identical answer s)) (snd (drain_read identical answer s)).
Proof.
  unfold drain_read. destruct (hs_running s) as [[w edit [| |]]|] eqn:Er; try by apply quiet_refl.
  pose proof (running_known s _ Er). destruct answer; [by apply quiet_failed | by apply quiet_try].
Qed.

Lemma quiet_click k s : quiet s (fst (click k s)) (snd (click k s)).
Proof.
  unfold click. destruct (hs_offers s !! k) as [[edit confirmation]|] eqn:E; [|by apply quiet_refl]. cbn [fst snd].
  set (s1 := if is_edit _ _ then _ else _).
  assert (Hs : quiet s s1 []) by (subst s1; destruct (is_edit _ _); [by apply quiet_same | by apply quiet_refl]).
  apply (quiet_trans _ _ _ _ _ Hs), quiet_enqueue; [done|]. intros c ->.
  assert (Hk : known s1 = known s) by (subst s1; by destruct (is_edit _ _)). rewrite Hk.
  unfold known. rewrite !in_app_iff. right. left. apply in_concat. exists (offer_edits (edit, Some c)). split; [|right; by left].
  apply in_map, list_elem_of_In. by apply list_elem_of_lookup_2 in E.
Qed.

Lemma quiet_get snapshot s : quiet s (fst (get identical snapshot s)) (snd (get identical snapshot s)).
Proof.
  unfold get. cbv zeta. set (s1 := if _ || _ then _ else _).
  assert (H1 : hs_pending s1 = hs_pending s /\ hs_nextEdit s1 = hs_nextEdit s /\ hs_running s1 = hs_running s /\
    hs_offers s1 = hs_offers s /\ hs_waiting s1 = hs_waiting s) by (subst s1; by destruct (_ || _)).
  destruct H1 as (E1 & E2 & E3 & E4 & E5).
  destruct (hs_pending s) eqn:Ep; [destruct (negb _)|]; cbn [fst snd]; [by apply quiet_refl | |];
    apply quiet_same; cbn; congruence || done.
Qed.

Lemma quiet_prepared snapshot taken s :
  quiet s (fst (prepared identical snapshot taken s)) (snd (prepared identical snapshot taken s)).
Proof.
  unfold prepared. destruct (stale snapshot s); [by apply quiet_refl|].
  assert (H : quiet s (fst (adopt_watched identical snapshot taken s)) (snd (adopt_watched identical snapshot taken s))).
  { unfold adopt_watched. cbv zeta. destruct (pending_merge _ _ _) as [doc|paths]; [destruct taken; by apply quiet_same|].
    destruct (hs_pending (with_snapshot snapshot s)) as [p|] eqn:Ep; [|by apply quiet_same].
    destruct (is_edit _ _); [by apply quiet_same|]. cbn [fst snd].
    apply (quiet_trans _ (with_failed (Some (ed_id p)) (with_snapshot snapshot s)) _ []); [by apply quiet_same|].
    by apply quiet_enqueue. }
  destruct (hs_pending s) as [p|] eqn:Ep; [|exact H]. destruct (same_epoch _ _); [exact H|].
  destruct (is_edit _ _); [by apply quiet_refl | by apply quiet_same].
Qed.

(** Every step is quiet, a write, or an accepted save. *)
Lemma step_kinds s e :
  quiet s (fst (session_step s e)) (snd (session_step s e)) \/
  (exists value patch, session_step s e = write value patch s) \/
  (exists d saved, hs_running s = Some d /\ session_step s e = save_accepted d saved s).
Proof.
  destruct e as [value patch| | |answer|answer|answer|k|snapshot|snapshot|snapshot taken|]; cbn [SessionClient.session_step].
  - right. left. by exists value, patch.
  - left. by apply quiet_enqueue.
  - left. apply quiet_start.
  - left. apply quiet_opened.
  - left. apply quiet_read.
  - unfold drain_set. destruct (hs_running s) as [[w edit [| |attempt snapshot]]|] eqn:Er; try (left; by apply quiet_refl).
    pose proof (running_known s _ Er) as Hin.
    destruct answer as [saved|error|error]; [right; right; by eexists _, saved | left | left; by apply quiet_failed].
    destruct (is_forced _); [by apply quiet_failed|]. destruct (_ <? _)%nat; [|by apply quiet_failed].
    apply quiet_running; [|done]. apply in_app_iff. by left.
  - left. apply quiet_click.
  - left. apply quiet_get.
  - left. unfold watched. apply quiet_refl. by destruct (_ || _).
  - left. apply quiet_prepared.
  - left. by apply quiet_same.
Qed.

(** ** The last edit *)

Definition last_written (log : list SessionEffect) : option document :=
  fold_left (fun last x => match x with x_written e => Some (ed_desired e) | _ => last end) log None.

(** The documents written last and of which no save was accepted since: at most one. *)
Definition track (unsaved : document -> Prop) (x : SessionEffect) : document -> Prop :=
  match x with
  | x_written e => fun doc => doc = ed_desired e
  | x_accepted e _ => fun doc => unsaved doc /\ doc <> ed_desired e
  | _ => unsaved
  end.

Definition unsaved (log : list SessionEffect) : document -> Prop := fold_left track log (fun _ => False).

Definition edit_kept (log : list SessionEffect) (s : HostState) : Prop :=
  identities s /\
  (forall doc, unsaved log doc -> exists p, hs_pending s = Some p /\ ed_desired p = doc) /\
  (forall p, hs_pending s = Some p -> last_written log = Some (ed_desired p)).

Lemma unlogged fx : forallb (fun x => negb (is_log x)) fx = true -> forall (u : document -> Prop) last,
  fold_left track fx u = u /\
  fold_left (fun last x => match x with x_written e => Some (ed_desired e) | _ => last end) fx last = last.
Proof.
  induction fx as [|x fx IH]; intros H u last; [done|]. cbn in H. apply andb_true_iff in H as [H1 H2].
  specialize (IH H2). destruct x; try done; cbn; apply IH.
Qed.

Lemma kept_quiet log s s' fx : edit_kept log s -> quiet s s' fx -> edit_kept (log ++ fx) s'.
Proof.
  intros ((I1 & I2) & K1 & K2) (Q1 & Q2 & Q3 & Q4).
  assert (Hbelow : forall e, In e (known s') -> In e (known s) \/ hs_pending s = Some e).
  { intros e He. apply Q3, in_app_iff in He as [He|He]; [by left|]. right. unfold pending_list in He.
    destruct (hs_pending s); [|done]. by destruct He as [->|[]]. }
  destruct (unlogged fx Q4 (unsaved log) (last_written log)) as [L1 L2].
  split; [|split].
  - split; rewrite ?Q1, Q2.
    + intros e He. destruct (Hbelow e He) as [He'|He']; [by apply I1 | by apply I2].
    + intros p Hp. destruct (I2 p Hp) as [Hlt Hid]. split; [done|]. intros e He Heq.
      destruct (Hbelow e He) as [He'|He']; [by apply Hid | congruence].
  - unfold unsaved in *. rewrite fold_left_app, L1, Q1. exact K1.
  - unfold last_written in *. rewrite fold_left_app, L2, Q1. exact K2.
Qed.

Lemma kept_write log s value patch : edit_kept log s ->
  edit_kept (log ++ snd (write value patch s)) (fst (write value patch s)).
Proof.
  intros ((I1 & I2) & K1 & K2). unfold write. cbv zeta. set (desired := if patch then _ else _).
  assert (Hk : forall e, In e (known (fst (write value patch s))) -> In e (known s)).
  { intros e. unfold known. cbn. rewrite map_app, concat_app. cbn. by rewrite app_nil_r. }
  split; [|split].
  - split; cbn.
    + intros e He. apply Hk, I1 in He. lia.
    + intros p [= <-]. cbn. split; [lia|]. intros e He Heq. apply Hk, I1 in He. lia.
  - intros doc. unfold unsaved. rewrite fold_left_app. cbn. intros ->. by eexists.
  - intros p [= <-]. unfold last_written. by rewrite fold_left_app.
Qed.

Lemma accepted_fields d saved s : let s' := fst (save_accepted d saved s) in
  (hs_nextEdit s <= hs_nextEdit s')%nat /\ incl (known s') (known s) /\
  match hs_pending s with
  | Some p =>
      if (ed_id p =? ed_id (dr_edit d))%nat then hs_pending s' = None
      else exists p', hs_pending s' = Some p' /\ ed_desired p' = ed_desired p /\
             ed_id p' = hs_nextEdit s /\ hs_nextEdit s' = S (hs_nextEdit s)
  | None => hs_pending s' = None
  end.
Proof.
  unfold save_accepted, pending_id. cbv zeta. set (s1 := if same_epoch _ _ && _ then _ else s).
  assert (E : hs_pending s1 = hs_pending s /\ hs_nextEdit s1 = hs_nextEdit s /\ hs_offers s1 = hs_offers s /\
    hs_waiting s1 = hs_waiting s /\ hs_failedPending s1 = hs_failedPending s)
    by (subst s1; by destruct (same_epoch _ _ && _)).
  clearbody s1. destruct E as (E1 & E2 & E3 & E4 & E5). unfold adoptAuthoritativeBase, known. rewrite <- E3, <- E4, <- E2, E1.
  destruct (hs_pending s) as [p|]; cbn [option_map is_edit].
  - destruct (_ =? _)%nat; cbn; rewrite ?E5; destruct (is_edit _ _); repeat (cbn; rewrite ?E1); cbn;
      rewrite ?map_app, ?concat_app; cbn; rewrite ?app_nil_r;
      (split; [lia|]); (split; [by apply incl_appr, incl_refl|]); eauto.
  - rewrite ?E5; destruct (is_edit _ _); repeat (cbn; rewrite ?E1); cbn;
      (split; [lia|]); (split; [by apply incl_appr, incl_refl|]); eauto.
Qed.

Lemma kept_accepted log s d saved : hs_running s = Some d -> edit_kept log s ->
  edit_kept (log ++ snd (save_accepted d saved s)) (fst (save_accepted d saved s)).
Proof.
  intros Hd ((I1 & I2) & K1 & K2). pose proof (running_known s d Hd) as Hin.
  pose proof (accepted_fields d saved s) as (F1 & F2 & F3). set (s' := fst (save_accepted d saved s)) in *.
  unfold edit_kept, unsaved, last_written in *. rewrite !fold_left_app. cbn [snd save_accepted fold_left track].
  destruct (hs_pending s) as [p|] eqn:Ep.
  - destruct (I2 p eq_refl) as [Hlt Hid]. destruct (ed_id p =? ed_id (dr_edit d))%nat eqn:E.
    + apply Nat.eqb_eq in E. split; [|split].
      * split; [intros e He; apply F2, I1 in He; lia | by rewrite F3].
      * intros doc [Hu Hne]. destruct (K1 doc Hu) as (p' & [= <-] & <-). destruct Hne. symmetry. apply Hid; [done | lia].
      * by rewrite F3.
    + destruct F3 as (p' & H1 & H2 & H3 & H4). rewrite H1. split; [|split].
      * split; [intros e He; apply F2, I1 in He; lia|]. rewrite H1. intros q [= <-]. split; [lia|].
        intros e He Heq. apply F2, I1 in He. lia.
      * intros doc [Hu _]. destruct (K1 doc Hu) as (q & [= <-] & <-). by exists p'.
      * intros q [= <-]. rewrite H2. by apply K2.
  - rewrite F3. split; [|split]; [|by intros doc [Hu _]; destruct (K1 doc Hu) as (q & Hq & _)|done].
    split; [intros e He; apply F2, I1 in He; lia | by rewrite F3].
Qed.

Lemma kept_step log s e s' fx : edit_kept log s -> session_step s e = (s', fx) -> edit_kept (log ++ fx) s'.
Proof.
  intros H Hstep. destruct (step_kinds s e) as [Hq|[(value & patch & Hw)|(d & saved & Hd & Ha)]].
  - rewrite Hstep in Hq. by apply (kept_quiet log s).
  - rewrite Hstep in Hw. pose proof (kept_write log s value patch H) as K. by rewrite <- Hw in K.
  - rewrite Hstep in Ha. pose proof (kept_accepted log s d saved Hd H) as K. by rewrite <- Ha in K.
Qed.

(** ** Requests *)

(** Every request to save is a merge with the snapshot it names. *)
Definition merged_save (x : SessionEffect) : Prop :=
  match x with
  | x_set edit force snapshot doc =>
      mergeSessionEdit identical (ed_base edit) (ed_desired edit) (sn_session snapshot) force = merged_ok doc
  | _ => True
  end.

Lemma try_merged d attempt snapshot s x : In x (snd (try_set identical d attempt snapshot s)) -> merged_save x.
Proof.
  unfold try_set. destruct (negb _); [by intros [<-|[<-|[]]]|].
  destruct (mergeSessionEdit _ _ _ _ _) eqn:E; [intros [<-|[]]; exact E | by intros [<-|[<-|[]]]].
Qed.

Lemma failed_merged d error confirmation s x : In x (snd (save_failed d error confirmation s)) -> merged_save x.
Proof. by intros [<-|[<-|[]]]. Qed.

Lemma step_merged s e x : In x (snd (session_step s e)) -> merged_save x.
Proof.
  destruct e; cbn [SessionClient.session_step].
  - by intros [<-|[]].
  - intros [].
  - unfold drain_start. cbv zeta. repeat case_match; cbn; try (intros []; fail); intros [<-|[]]; exact I.
  - unfold drain_opened. repeat case_match; try (intros []; fail); (apply failed_merged || apply try_merged).
  - unfold drain_read. repeat case_match; try (intros []; fail); (apply failed_merged || apply try_merged).
  - unfold drain_set. repeat case_match; try (intros []; fail); try apply failed_merged.
    + by intros [<-|[<-|[<-|[]]]].
    + by intros [<-|[]].
  - unfold click. repeat case_match; intros [].
  - unfold get. cbv zeta. repeat case_match; by intros [<-|[]].
  - unfold watched. cbn [snd]. destruct (_ || _); [intros [] | by intros [<-|[]]].
  - unfold prepared, adopt_watched. cbv zeta. repeat case_match; cbn; try (intros []; fail); by intros [<-|[]].
  - intros [].
Qed.

(** ** Attempts *)

Definition is_set (x : SessionEffect) : bool := match x with x_set _ _ _ _ => true | _ => false end.
Definition is_open (x : SessionEffect) : bool := match x with x_open => true | _ => false end.

Definition count (p : SessionEffect -> bool) (log : list SessionEffect) : nat := List.length (List.filter p log).

(** The requests the running save may still make. *)
Definition budget (s : HostState) : nat :=
  match hs_running s with
  | Some d =>
      match dr_phase d with
      | dr_opening => 3
      | dr_reading attempt => 3 - attempt
      | dr_setting attempt _ => 2 - attempt
      end
  | None => 0
  end.

Definition attempts_ok (s : HostState) : Prop :=
  match hs_running s with
  | Some d => match dr_phase d with dr_opening => True | dr_reading attempt | dr_setting attempt _ => (attempt <= 2)%nat end
  | None => True
  end.

(** A step spends the budget: what it requests and what is left. *)
Definition spends (s s' : HostState) (fx : list SessionEffect) : Prop :=
  attempts_ok s' /\ (count is_set fx + budget s' <= 3 * count is_open fx + budget s)%nat.

Lemma spends_same s s' fx : hs_running s' = hs_running s -> count is_set fx = 0%nat -> attempts_ok s -> spends s s' fx.
Proof. unfold spends, attempts_ok, budget. intros -> -> H. split; [done | lia]. Qed.

Lemma spends_done s s' fx : hs_running s' = None -> count is_set fx = 0%nat -> spends s s' fx.
Proof. unfold spends, attempts_ok, budget. intros -> ->. split; [done | lia]. Qed.

Lemma spends_try d attempt snapshot s : (attempt <= 2)%nat -> (3 - attempt <= budget s)%nat ->
  spends s (fst (try_set identical d attempt snapshot s)) (snd (try_set identical d attempt snapshot s)).
Proof.
  intros Ha Hb. unfold try_set. cbv zeta. repeat case_match; try (by apply spends_done).
  split; [exact Ha|]. cbn. lia.
Qed.

Lemma accepted_idle d saved s : hs_running (fst (save_accepted d saved s)) = None.
Proof. unfold save_accepted. cbv zeta. cbn [fst]. set (s' := with_running None _). by destruct (hs_pending s'). Qed.

Lemma spends_set answer s : attempts_ok s -> spends s (fst (drain_set answer s)) (snd (drain_set answer s)).
Proof.
  intros Hok. unfold drain_set. destruct (hs_running s) as [[w edit [| |a sn]]|] eqn:E; try by apply spends_same.
  destruct answer as [saved|error|error]; [|repeat case_match|by apply spends_done].
  - apply spends_done; [apply accepted_idle | done].
  - by apply spends_done.
  - unfold spends, attempts_ok, budget in *. rewrite E in *. cbn in *. apply Nat.leb_le in H0. split; lia.
  - by apply spends_done.
Qed.

Lemma step_spends s e : attempts_ok s -> spends s (fst (session_step s e)) (snd (session_step s e)).
Proof.
  intros Hok. destruct e; cbn [SessionClient.session_step].
  - by apply spends_same.
  - by apply spends_same.
  - unfold drain_start. cbv zeta. destruct (hs_running s) eqn:E; [by apply spends_same|].
    repeat case_match; try by apply spends_same. all: split; [done | cbn; lia].
  - unfold drain_opened. destruct (hs_running s) as [[w edit [| |]]|] eqn:E; try by apply spends_same.
    repeat case_match; try by apply spends_done. all: apply spends_try; [lia | unfold budget; rewrite E; cbn; lia].
  - unfold drain_read. destruct (hs_running s) as [[w edit [| |]]|] eqn:E; try by apply spends_same.
    destruct answer; [by apply spends_done|]. unfold attempts_ok in Hok. rewrite E in Hok.
    apply spends_try; [exact Hok | unfold budget; rewrite E; cbn; lia].
  - by apply spends_set.
  - unfold click. repeat case_match; by apply spends_same.
  - unfold get. cbv zeta. repeat case_match; by apply spends_same.
  - unfold watched. apply spends_same; [done | | done]. by destruct (_ || _).
  - unfold prepared, adopt_watched. cbv zeta. repeat case_match; by apply spends_same.
  - by apply spends_same.
Qed.

(** ** Properties *)

(** C7. No edit is lost by the writer: in every run, the document written last is the
    pending one until a save of that very document is accepted, whatever fails, conflicts,
    is read or is received meanwhile; and what is pending is the document written last. *)
Theorem last_edit_is_kept snapshot events :
  let '(s, log) := session_run (new_host snapshot) events in
  (forall doc, unsaved log doc -> exists p, hs_pending s = Some p /\ ed_desired p = doc) /\
  (forall p, hs_pending s = Some p -> last_written log = Some (ed_desired p)).
Proof.
  pose proof (run_invariant edit_kept (new_host snapshot) events) as H.
  destruct (session_run (new_host snapshot) events) as [s log]. cbn [fst snd] in H. apply H.
  - split; [split; [by intros e | done] | done].
  - intros log' s1 e s2 fx. apply kept_step.
Qed.

(** C31. A save is safe to make at the version it names: the document of every request is
    the merge of its edit with the snapshot of that version, so that, at a path through
    records above which no owner decides a whole field, it holds the snapshot's value where
    the edit changed nothing and the edit's value where the snapshot has the value the edit
    started from. *)
Theorem saves_keep_both_sides (identical_eq : forall a b, identical a b = true -> a = b)
    s0 events edit force snapshot doc path :
  In (x_set edit force snapshot doc) (snd (session_run (new_host s0) events)) ->
  mergeSessionEdit identical (ed_base edit) (ed_desired edit) (sn_session snapshot) force = merged_ok doc /\
  (distinct (JObj (ed_base edit)) = true -> distinct (JObj (ed_desired edit)) = true ->
  distinct (JObj (sn_session snapshot)) = true ->
  (List.length path <= S MAX_DEPTH)%nat -> undivided path = true ->
  record_path path (Some (JObj (ed_base edit))) = true ->
  record_path path (Some (JObj (ed_desired edit))) = true ->
  record_path path (Some (JObj (sn_session snapshot))) = true ->
  keeps_edits identical path (Some (JObj (ed_base edit))) (Some (JObj (ed_desired edit)))
    (Some (JObj (sn_session snapshot))) (Some (JObj doc))).
Proof.
  intros Hin.
  assert (Hm : merged_save (x_set edit force snapshot doc)).
  { revert Hin. generalize (x_set edit force snapshot doc). intros x. apply (run_invariant (fun log _ => forall x, In x log -> merged_save x)).
    - by intros y.
    - intros log s e s' fx H Hstep y [Hy|Hy]%in_app_iff; [by apply H|]. apply (step_merged s e). by rewrite Hstep. }
  split; [exact Hm|]. intros Db Dd Dc Hlen Hu Rb Rd Rc.
  apply merged_value in Hm. rewrite <- Hm. apply one_sided; try done. apply le_n_S. exact Hlen.
Qed.

(** A save ends: a work makes at most three requests to save, however often the
    authority changes meanwhile. *)
Theorem save_attempts_bounded snapshot events :
  let log := snd (session_run (new_host snapshot) events) in
  (count is_set log <= 3 * count is_open log)%nat.
Proof.
  cbv zeta. set (Inv := fun log s => attempts_ok s /\ (count is_set log + budget s <= 3 * count is_open log)%nat).
  assert (H : Inv (snd (session_run (new_host snapshot) events)) (fst (session_run (new_host snapshot) events))).
  { apply run_invariant; [by split; cbn|]. intros log s e s' fx [Hok Hb] Hstep.
    destruct (step_spends s e Hok) as [Hok' Hs]. rewrite Hstep in Hok', Hs. cbn [fst snd] in Hok', Hs.
    split; [done|]. unfold count in *. rewrite !List.filter_app, !length_app. lia. }
  destruct H as [_ H]. lia.
Qed.
End spec.

(** ** Witnesses *)

Definition at_revision (revision : Z) (x y : string) : ShellSessionSnapshot :=
  mkSnapshot [(js "x", JStr (js x)); (js "y", JStr (js y))] (mkVersion (js "epoch") revision).

(** A write of [x], a save that finds [y] changed by another client and is asked again. *)
Definition contended_save : list SessionEvent :=
  [ev_write [(js "x", JStr (js "1"))] true; ev_start; ev_opened None; ev_set (set_aborted 0);
   ev_read (inr (at_revision 1 "0" "other"))].

Definition contended_edit : Edit :=
  mkEdit 0 (sn_session (at_revision 0 "0" "0")) (sn_session (at_revision 0 "1" "0")).

Lemma saves_keep_both_sides_witness :
  In (x_set contended_edit false (at_revision 1 "0" "other") (sn_session (at_revision 1 "1" "other")))
    (snd (session_run no_identity (new_host (at_revision 0 "0" "0")) contended_save)) /\
  keeps_edits no_identity [js "y"] (Some (JObj (ed_base contended_edit))) (Some (JObj (ed_desired contended_edit)))
    (Some (JObj (sn_session (at_revision 1 "0" "other")))) (Some (JObj (sn_session (at_revision 1 "1" "other")))).
Proof.
  assert (Hin : In (x_set contended_edit false (at_revision 1 "0" "other") (sn_session (at_revision 1 "1" "other")))
    (snd (session_run no_identity (new_host (at_revision 0 "0" "0")) contended_save)))
    by (vm_compute; do 4 right; left; reflexivity).
  split; [exact Hin|].
  apply (saves_keep_both_sides no_identity no_identity_eq (at_revision 0 "0" "0") contended_save contended_edit false
    (at_revision 1 "0" "other") (sn_session (at_revision 1 "1" "other")) [js "y"] Hin); try (vm_compute; reflexivity).
  apply Nat.leb_le. vm_compute. reflexivity.
Defined.

(** ** An update that is lost

    A write made while that save is under way: [adoptAuthoritativeBase] then gives the new
    edit the saved document as its base, which has the other client's [y]; the desired
    document was made from the one shown before, which has not.  The next save takes the
    difference for an edit and puts the old [y] back, although nobody wrote [y] here. *)
Definition write_during_save : list SessionEvent :=
  contended_save ++
  [ev_write [(js "x", JStr (js "2"))] true; ev_set (set_saved (at_revision 2 "1" "other")); ev_start; ev_opened None].

Lemma write_during_save_reverts :
  let log := snd (session_run no_identity (new_host (at_revision 0 "0" "0")) write_during_save) in
  exists edit snapshot doc, last log = Some (x_set edit false snapshot doc) /\
    property (js "y") (sn_session snapshot) = Some (JStr (js "other")) /\
    property (js "y") doc = Some (JStr (js "0")) /\
    forall value patch, In (ev_write value patch) write_during_save -> property (js "y") value = None.
Proof.
  cbv zeta. eexists _, _, _. split; [vm_compute; reflexivity|]. split; [vm_compute; reflexivity|].
  split; [vm_compute; reflexivity|]. intros value patch H. cbn in H.
  repeat (destruct H as [H|H]; [try discriminate H; injection H as <- <-; vm_compute; reflexivity|]). destruct H.
Qed.
