(* ===== verification/JsRecord.v ===== *)
(** JavaScript objects and [Map]s with string keys, and the string methods the source
    uses on them.

    A record is the list of its entries in the order of its keys: setting a present key
    keeps its place, an absent one is appended.  (Integer-like keys come first in an
    object; the keys the source adds here are identifiers with letters or dashes.)
    Strings are lists of UTF-16 code units. *)

From stdpp Require Import base list sets.
From Stdlib Require Import ZArith Lia ZifyBool.
From S2P Require Import Prelude JsText.

#[local] Set Warnings "-clear-no-such-hyp".

Abbreviation jsrecord V := (list (jsstring * V)).

Section jsrecord.
Context {V : Type}.
Implicit Types m : jsrecord V.

Fixpoint rec_get (k : jsstring) m : option V :=
  match m with
  | [] => None
  | (k', v) :: rest => if decide (k' = k) then Some v else rec_get k rest
  end.

Fixpoint rec_set (k : jsstring) (v : V) m : jsrecord V :=
  match m with
  | [] => [(k, v)]
  | (k', w) :: rest => if decide (k' = k) then (k, v) :: rest else (k', w) :: rec_set k v rest
  end.

(** [delete record[key]]. *)
Definition rec_delete (k : jsstring) m : jsrecord V := List.filter (fun e => negb (bool_decide (fst e = k))) m.

Definition rec_keys m : list jsstring := m.*1.

Definition rec_has (k : jsstring) m : bool := match rec_get k m with Some _ => true | None => false end.

(** ** Laws *)

Lemma rec_get_set k k' v m :
  rec_get k' (rec_set k v m) = if decide (k = k') then Some v else rec_get k' m.
Proof.
  induction m as [|[j w] m IH]; cbn; [done|].
  destruct (decide (j = k)) as [->|Hj]; cbn; [by case_decide|].
  case_decide as Hj'; [|by rewrite IH]. subst. by rewrite decide_False by congruence.
Qed.

Lemma rec_get_set_eq k v m : rec_get k (rec_set k v m) = Some v.
Proof. by rewrite rec_get_set, decide_True. Qed.

Lemma rec_get_set_ne k k' v m : k <> k' -> rec_get k' (rec_set k v m) = rec_get k' m.
Proof. intros. by rewrite rec_get_set, decide_False. Qed.

Lemma rec_get_delete k k' m :
  rec_get k' (rec_delete k m) = if decide (k = k') then None else rec_get k' m.
Proof.
  unfold rec_delete. induction m as [|[j w] m IH]; cbn; [by case_decide|].
  case_bool_decide as Hj; cbn; rewrite IH; repeat case_decide; congruence.
Qed.

Lemma rec_get_None k m : rec_get k m = None <-> (k ∉ rec_keys m).
Proof.
  unfold rec_keys. induction m as [|[j w] m IH]; cbn; [split; [intros _; set_solver | done]|].
  case_decide as Hj; [split; [done | set_solver]|]. rewrite IH. set_solver.
Qed.

Lemma rec_has_spec k m : rec_has k m = true <-> k ∈ rec_keys m.
Proof.
  unfold rec_has. destruct (rec_get k m) eqn:E.
  - split; [intros _|done]. destruct (decide (k ∈ rec_keys m)) as [|Hn]; [done|].
    apply rec_get_None in Hn. congruence.
  - apply rec_get_None in E. split; [done | intros ?; done].
Qed.

Lemma rec_get_elem k v m : rec_get k m = Some v -> (k, v) ∈ m.
Proof.
  induction m as [|[j w] m IH]; cbn; [done|]. case_decide; intros; simplify_eq; set_solver.
Qed.

Lemma rec_elem_get k v m : NoDup (rec_keys m) -> (k, v) ∈ m -> rec_get k m = Some v.
Proof.
  unfold rec_keys. induction m as [|[j w] m IH]; cbn; [set_solver|].
  intros [Hj Hm]%NoDup_cons [Heq|Hin]%elem_of_cons.
  - simplify_eq. by rewrite decide_True.
  - rewrite decide_False; [auto|]. intros ->. apply Hj. apply list_elem_of_fmap. by exists (k, v).
Qed.

Lemma rec_keys_set k v m : forall x, x ∈ rec_keys (rec_set k v m) <-> x = k \/ x ∈ rec_keys m.
Proof.
  intros x. rewrite <- !rec_has_spec. unfold rec_has. rewrite rec_get_set.
  case_decide; subst; [|destruct (rec_get x m); naive_solver].
  destruct (rec_get x m); naive_solver.
Qed.

Lemma rec_set_new k v m : rec_get k m = None -> rec_set k v m = m ++ [(k, v)].
Proof. induction m as [|[j w] m IH]; cbn; [done|]. case_decide; [done|]. intros. by rewrite IH. Qed.

Lemma rec_keys_set_in k v m : k ∈ rec_keys m -> rec_keys (rec_set k v m) = rec_keys m.
Proof.
  unfold rec_keys. induction m as [|[j w] m IH]; cbn; [set_solver|].
  intros H. case_decide; cbn; [by subst|]. rewrite IH; [done|]. set_solver.
Qed.

Lemma rec_keys_set_new k v m : k ∉ rec_keys m -> rec_keys (rec_set k v m) = rec_keys m ++ [k].
Proof.
  intros H. rewrite rec_set_new by by apply rec_get_None. unfold rec_keys. by rewrite fmap_app.
Qed.

Lemma rec_set_nodup k v m : NoDup (rec_keys m) -> NoDup (rec_keys (rec_set k v m)).
Proof.
  intros H. destruct (decide (k ∈ rec_keys m)).
  - by rewrite rec_keys_set_in.
  - rewrite rec_keys_set_new by done. apply NoDup_app. split_and!; [done | set_solver | apply NoDup_singleton].
Qed.

Lemma rec_delete_subset k m : rec_keys (rec_delete k m) ⊆ rec_keys m.
Proof.
  intros x. rewrite <- !rec_has_spec. unfold rec_has. rewrite rec_get_delete.
  case_decide; [done|]. by destruct (rec_get x m).
Qed.

Lemma rec_delete_nodup k m : NoDup (rec_keys m) -> NoDup (rec_keys (rec_delete k m)).
Proof.
  unfold rec_keys, rec_delete. induction m as [|[j w] m IH]; cbn; [done|].
  intros [Hj Hm]%NoDup_cons. case_bool_decide; cbn; [auto|]. apply NoDup_cons. split; [|auto].
  intros H'. apply Hj. by apply (rec_delete_subset k m).
Qed.
End jsrecord.

(** ** String methods *)

(** [s.indexOf(c)], [s.lastIndexOf(c)] for a string [c] of one unit. *)
Fixpoint indexOf (c : Z) (s : jsstring) : Z :=
  match s with
  | [] => -1
  | x :: rest =>
      if x =? c then 0
      else let i := indexOf c rest in if i =? -1 then -1 else i + 1
  end.

Fixpoint lastIndexOf (c : Z) (s : jsstring) : Z :=
  match s with
  | [] => -1
  | x :: rest =>
      let i := lastIndexOf c rest in
      if i =? -1 then (if x =? c then 0 else -1) else i + 1
  end.

Definition js_length (s : jsstring) : Z := Z.of_nat (List.length s).

(** [s.slice(start)] and [s.slice(0, stop)] for indices inside the string. *)
Definition slice_from (start : Z) (s : jsstring) : jsstring := drop (Z.to_nat start) s.
Definition slice_to (stop : Z) (s : jsstring) : jsstring := take (Z.to_nat stop) s.

(** White space and line terminators of ECMAScript, which [trim] removes. *)
Definition is_white (c : Z) : bool :=
  (9 <=? c) && (c <=? 13) || (c =? 0x20) || (c =? 0xa0) || (c =? 0x1680)
  || (0x2000 <=? c) && (c <=? 0x200a) || (c =? 0x2028) || (c =? 0x2029) || (c =? 0x202f)
  || (c =? 0x205f) || (c =? 0x3000) || (c =? 0xfeff).

Fixpoint trim_start (s : jsstring) : jsstring :=
  match s with
  | c :: rest => if is_white c then trim_start rest else s
  | [] => []
  end.

Definition trim (s : jsstring) : jsstring := rev (trim_start (rev (trim_start s))).

(** ** Their laws *)

Lemma indexOf_range c s : -1 <= indexOf c s < Z.max 0 (js_length s).
Proof. unfold js_length. induction s as [|x s IH]; cbn -[Z.max]; [lia|]. repeat case_if; lia. Qed.

Lemma indexOf_none c s : indexOf c s = -1 <-> (c ∉ s).
Proof.
  induction s as [|x s IH]; cbn; [split; [intros _; set_solver | done]|].
  pose proof (indexOf_range c s). case_if; bool_prop; [split; [lia | set_solver]|].
  case_if; bool_prop; rewrite not_elem_of_cons; [naive_solver|]. split; [lia | naive_solver].
Qed.

Lemma lastIndexOf_range c s : -1 <= lastIndexOf c s < Z.max 0 (js_length s).
Proof.
  unfold js_length. induction s as [|x s IH]; cbn -[Z.max]; [lia|].
  destruct (lastIndexOf c s =? -1) eqn:E; [case_if|]; lia.
Qed.

Lemma lastIndexOf_none c s : lastIndexOf c s = -1 <-> (c ∉ s).
Proof.
  induction s as [|x s IH]; cbn; [split; [intros _; set_solver | done]|].
  pose proof (lastIndexOf_range c s). repeat case_if; bool_prop; rewrite not_elem_of_cons.
  - split; [lia | naive_solver].
  - naive_solver.
  - split; [lia | naive_solver].
Qed.

Lemma indexOf_app c a b : c ∉ a -> indexOf c (a ++ c :: b) = js_length a.
Proof.
  unfold js_length. induction a as [|x a IH]; cbn; [by rewrite Z.eqb_refl|].
  intros [Hx Ha]%not_elem_of_cons. rewrite IH by done.
  rewrite (proj2 (Z.eqb_neq x c)) by congruence. case_if; bool_prop; lia.
Qed.

Lemma lastIndexOf_app c a b : c ∉ b -> lastIndexOf c (a ++ c :: b) = js_length a.
Proof.
  intros Hb. unfold js_length. induction a as [|x a IH]; cbn.
  - rewrite (proj2 (lastIndexOf_none c b) Hb). by rewrite !Z.eqb_refl.
  - rewrite IH. case_if; bool_prop; lia.
Qed.

(** A string is cut at the first occurrence of a unit it holds. *)
Lemma indexOf_split c s : 0 <= indexOf c s ->
  exists a b, s = a ++ c :: b /\ (c ∉ a) /\ js_length a = indexOf c s.
Proof.
  unfold js_length. induction s as [|x s IH]; cbn; [lia|]. case_if; bool_prop.
  - subst. exists [], s. split_and!; [done | set_solver | done].
  - pose proof (indexOf_range c s). case_if; bool_prop; [lia|]. intros _.
    destruct IH as (a & b & -> & Ha & Hl); [lia|].
    exists (x :: a), b. rewrite not_elem_of_cons. split_and!; [done | congruence | done | cbn; lia].
Qed.

Lemma slice_to_app a b : slice_to (js_length a) (a ++ b) = a.
Proof. unfold slice_to, js_length. rewrite Nat2Z.id. apply take_app_length. Qed.

Lemma slice_from_app a c b : slice_from (js_length a + 1) (a ++ c :: b) = b.
Proof.
  unfold slice_from, js_length. rewrite Z2Nat.inj_add, Nat2Z.id by lia.
  change (a ++ c :: b) with (a ++ [c] ++ b). rewrite app_assoc. apply drop_app_length'. rewrite length_app. done.
Qed.

Lemma js_length_app a b : js_length (a ++ b) = js_length a + js_length b.
Proof. unfold js_length. rewrite length_app. lia. Qed.
