(* ===== verification/PaneIdentity.v ===== *)
(** Identities of terminal panes (packages/protocol/typescript/src/terminal/pane-identity.ts
    and packages/client/src/terminal-pane/pane-manager: mint-stable-pane-id.ts,
    pane-identity-registry.ts).

    A pane has a number inside its manager and a durable leaf id, a lowercase UUID, which
    layouts and pane keys name it by.  The random source and [crypto.randomUUID] are
    parameters: what they answer is an argument of [mintStablePaneId], and the ids minted
    in a run are a stream [mint] read through a counter. *)

From stdpp Require Import base list sets strings.
From Stdlib Require Import ZArith Lia ZifyBool.
From S2P Require Import Prelude JsText Json JsMap JsRecord.

#[local] Set Warnings "-clear-no-such-hyp".

(** ** Leaf ids: UUID_RE *)

Definition is_hex (c : Z) : bool := between 0x30 c 0x39 || between 0x61 c 0x66.

(** The classes of the 36 units of [UUID_RE]. *)
Definition UUID_RE : list (Z -> bool) :=
  replicate 8 is_hex ++ [Z.eqb 0x2d]
  ++ replicate 4 is_hex ++ [Z.eqb 0x2d; fun c => between 0x31 c 0x35]
  ++ replicate 3 is_hex ++ [Z.eqb 0x2d; fun c => between 0x38 c 0x39 || between 0x61 c 0x62]
  ++ replicate 3 is_hex ++ [Z.eqb 0x2d] ++ replicate 12 is_hex.

Fixpoint matches (classes : list (Z -> bool)) (s : jsstring) : bool :=
  match classes, s with
  | [], [] => true
  | p :: classes', c :: s' => p c && matches classes' s'
  | _, _ => false
  end.

Definition isStablePaneId (value : jsstring) : bool := matches UUID_RE value.

Definition isTerminalLeafId (value : jsstring) : bool := isStablePaneId value.

#[global] Arguments isTerminalLeafId : simpl never.

(** ** Pane keys *)

(** [None] is the error that is thrown. *)
Definition makePaneKey (tabId stableLeafId : jsstring) : option jsstring :=
  if bool_decide (tabId = []) || bool_decide (0x3a ∈ tabId) then None
  else if negb (isTerminalLeafId stableLeafId) then None
  else Some (tabId ++ [0x3a] ++ stableLeafId).

Record ParsedPaneKey := mkParsedPaneKey {
  pk_tabId : jsstring;
  pk_leafId : jsstring;
  pk_stablePaneId : jsstring
}.

Definition parsePaneKey (paneKey : jsstring) : option ParsedPaneKey :=
  let first := indexOf 0x3a paneKey in
  if (first <=? 0) || negb (first =? lastIndexOf 0x3a paneKey) || (first =? js_length paneKey - 1)
  then None
  else
    let tabId := slice_to first paneKey in
    let leafId := slice_from (first + 1) paneKey in
    if negb (isTerminalLeafId leafId) then None else Some (mkParsedPaneKey tabId leafId leafId).

Record LegacyPaneKey := mkLegacyPaneKey {
  lk_tabId : jsstring;
  lk_numericPaneId : jsstring;
  lk_paneKey : jsstring
}.

(** [/^\d+$/]. *)
Definition is_digits (s : jsstring) : bool :=
  negb (bool_decide (s = [])) && forallb (fun c => between 0x30 c 0x39) s.

(** The argument is a string ([unknown] values of other types answer null). *)
Definition parseLegacyNumericPaneKey (paneKey : jsstring) : option LegacyPaneKey :=
  if 256 <? js_length paneKey then None
  else
    let trimmed := trim paneKey in
    let delimiter := indexOf 0x3a trimmed in
    if (delimiter <=? 0) || negb (delimiter =? lastIndexOf 0x3a trimmed)
       || (delimiter =? js_length trimmed - 1)
    then None
    else
      let numericPaneId := slice_from (delimiter + 1) trimmed in
      if negb (is_digits numericPaneId) then None
      else Some (mkLegacyPaneKey (slice_to delimiter trimmed) numericPaneId trimmed).

(** ** Minting (mint-stable-pane-id.ts) *)

Definition hex_digit (n : Z) : Z := if n <? 10 then 0x30 + n else 0x61 + (n - 10).

(** [byte.toString(16).padStart(2, '0')]. *)
Definition hex_byte (b : Z) : jsstring :=
  let digits := if b <? 16 then [hex_digit b] else [hex_digit (b / 16); hex_digit (b mod 16)] in
  replicate (2 - List.length digits) 0x30 ++ digits.

(** [randomUUID] is the answer of [crypto.randomUUID], when there is one; [random] the
    sixteen bytes [getRandomValues] or [Math.random] filled the array with. *)
Definition mintStablePaneId (randomUUID : option jsstring) (random : bytes) : jsstring :=
  match randomUUID with
  | Some id => id
  | None =>
      let bytes := <[6%nat := Z.lor (Z.land (nth 6 random 0) 0x0f) 0x40]> random in
      let bytes := <[8%nat := Z.lor (Z.land (nth 8 bytes 0) 0x3f) 0x80]> bytes in
      let hex := concat (hex_byte <$> bytes) in
      slice 0 8 hex ++ [0x2d] ++ slice 8 4 hex ++ [0x2d] ++ slice 12 4 hex ++ [0x2d]
      ++ slice 16 4 hex ++ [0x2d] ++ drop 20 hex
  end.

(** ** The registry of a pane manager (pane-identity-registry.ts) *)

Record PaneIdentityRegistry := mkRegistry {
  leafIdByNumericId : jsmap jsstring;
  numericIdByLeafId : jsrecord Z;
  publishedPaneIds : list Z
}.

Definition new_registry : PaneIdentityRegistry := mkRegistry [] [] [].

(** What the layouts and the registry rely on: minted ids are leaf ids ([minted_id_valid])
    and the first [limit] of them, those of the run, are distinct. *)
Class Minting (mint : nat -> jsstring) (limit : nat) := {
  mint_valid : forall n, isTerminalLeafId (mint n) = true;
  mint_injective : forall i j, (i < limit)%nat -> (j < limit)%nat -> mint i = mint j -> i = j
}.

Section minting.
Context (mint : nat -> jsstring).

(** [mintUnclaimedLeafId]: the loop goes on while the id is claimed; [n] ids were minted
    before. *)
Fixpoint mintUnclaimedLeafId (fuel : nat) (reg : PaneIdentityRegistry) (n : nat)
    : option (jsstring * nat) :=
  match fuel with
  | O => None
  | S fuel' =>
      let leafId := mint n in
      if rec_has leafId (numericIdByLeafId reg) then mintUnclaimedLeafId fuel' reg (S n)
      else Some (leafId, S n)
  end.

Definition mint_fuel (reg : PaneIdentityRegistry) : nat := S (List.length (numericIdByLeafId reg)).

Definition claimLeafId (leafIdHint : option jsstring) (reg : PaneIdentityRegistry) (n : nat)
    : option (jsstring * nat) :=
  match leafIdHint with
  | Some hint =>
      if isTerminalLeafId hint && negb (rec_has hint (numericIdByLeafId reg)) then Some (hint, n)
      else mintUnclaimedLeafId (mint_fuel reg) reg n
  | None => mintUnclaimedLeafId (mint_fuel reg) reg n
  end.
End minting.

Definition register (numericPaneId : Z) (leafId : jsstring) (reg : PaneIdentityRegistry)
    : PaneIdentityRegistry :=
  mkRegistry (map_set numericPaneId leafId (leafIdByNumericId reg))
             (rec_set leafId numericPaneId (numericIdByLeafId reg)) (publishedPaneIds reg).

Definition release (numericPaneId : Z) (reg : PaneIdentityRegistry) : PaneIdentityRegistry :=
  mkRegistry (map_delete numericPaneId (leafIdByNumericId reg))
             (match map_get numericPaneId (leafIdByNumericId reg) with
              | Some ((_ :: _) as leafId) => rec_delete leafId (numericIdByLeafId reg)
              | _ => numericIdByLeafId reg
              end)
             (List.filter (fun p => negb (p =? numericPaneId)) (publishedPaneIds reg)).

Definition markPublished (numericPaneId : Z) (reg : PaneIdentityRegistry) : PaneIdentityRegistry :=
  mkRegistry (leafIdByNumericId reg) (numericIdByLeafId reg)
             (if bool_decide (numericPaneId ∈ publishedPaneIds reg) then publishedPaneIds reg
              else publishedPaneIds reg ++ [numericPaneId]).

Definition getLeafId (numericPaneId : Z) (reg : PaneIdentityRegistry) : option jsstring :=
  map_get numericPaneId (leafIdByNumericId reg).

Definition getNumericIdForLeaf (leafId : jsstring) (reg : PaneIdentityRegistry) : option Z :=
  if negb (isTerminalLeafId leafId) then None else rec_get leafId (numericIdByLeafId reg).

(** [current] is [pane.leafId]; [Some] is the answer true, with the registry after it, and
    the pane takes [leafId]. *)
Definition adoptPaneLeafId (numericPaneId : Z) (current leafId : jsstring) (reg : PaneIdentityRegistry)
    : option PaneIdentityRegistry :=
  if negb (isTerminalLeafId leafId) || bool_decide (numericPaneId ∈ publishedPaneIds reg) then None
  else
    let adopt :=
      Some (register numericPaneId leafId
              (mkRegistry (leafIdByNumericId reg) (rec_delete current (numericIdByLeafId reg))
                          (publishedPaneIds reg))) in
    match rec_get leafId (numericIdByLeafId reg) with
    | Some existingOwner => if existingOwner =? numericPaneId then adopt else None
    | None => adopt
    end.

(** ** Leaf ids *)

Lemma matches_length classes s : matches classes s = true -> List.length s = List.length classes.
Proof.
  induction classes as [|p classes IH] in s |- *; destruct s; cbn; try done.
  intros [_ H]%andb_true_iff. by rewrite (IH s H).
Qed.

Lemma matches_elem classes s c : matches classes s = true -> c ∈ s -> exists p, p ∈ classes /\ p c = true.
Proof.
  induction classes as [|p classes IH] in s |- *; destruct s as [|x s]; cbn; try done; [set_solver|].
  intros [Hp H]%andb_true_iff [->|Hin]%elem_of_cons; [exists p; set_solver|].
  destruct (IH s H Hin) as (q & Hq & Hc). exists q. set_solver.
Qed.

Lemma leaf_id_length id : isTerminalLeafId id = true -> List.length id = 36%nat.
Proof. intros H. by apply matches_length in H. Qed.

Lemma leaf_id_nonempty id : isTerminalLeafId id = true -> id <> [].
Proof. by intros H%leaf_id_length ->. Qed.

(** A leaf id has no colon, and has a dash in its ninth place. *)
Lemma leaf_id_no_colon id : isTerminalLeafId id = true -> 0x3a ∉ id.
Proof.
  intros H Hin. destruct (matches_elem _ _ _ H Hin) as (p & Hp & Hc).
  assert (Hall : Forall (fun p => p 0x3a = false) UUID_RE) by by repeat constructor.
  rewrite Forall_forall in Hall. rewrite Hall in Hc; done.
Qed.

Lemma leaf_id_dash id : isTerminalLeafId id = true -> 0x2d ∈ id.
Proof.
  intros H. pose proof (leaf_id_length id H) as Hl.
  do 9 (destruct id as [|? id]; [done|]). unfold isTerminalLeafId, isStablePaneId in H.
  cbn -[is_hex between matches] in H. cbn [matches] in H. rewrite !andb_true_iff in H.
  destruct H as (_ & _ & _ & _ & _ & _ & _ & _ & H & _). bool_prop. set_solver.
Qed.

(** ** Pane keys *)

(** A pane key stands for exactly one pane: parsing the key of a tab and a leaf gives
    the tab and the leaf back, a key that parses is the key of what it parses to, and no
    legacy key is a pane key. *)
Theorem pane_key_roundtrip :
  (forall tabId leafId key, makePaneKey tabId leafId = Some key ->
     parsePaneKey key = Some (mkParsedPaneKey tabId leafId leafId))
  /\ (forall key p, parsePaneKey key = Some p -> makePaneKey (pk_tabId p) (pk_leafId p) = Some key)
  /\ (forall key p, parseLegacyNumericPaneKey key = Some p -> parsePaneKey (lk_paneKey p) = None).
Proof.
  split_and!.
  - intros t l key. unfold makePaneKey. destruct (_ || _) eqn:Et; [done|].
    destruct (isTerminalLeafId l) eqn:El; cbn [negb]; [|done]. intros [= <-]. bool_prop.
    assert (Hl : 0x3a ∉ l) by by apply leaf_id_no_colon.
    pose proof (leaf_id_length l El) as Hlen.
    unfold parsePaneKey. cbn [app]. rewrite indexOf_app, lastIndexOf_app by done.
    rewrite Z.eqb_refl, orb_false_r. rewrite js_length_app, slice_to_app, slice_from_app, El.
    assert (Ht : 0 < js_length t) by (unfold js_length; destruct t; cbn; [done | lia]).
    assert (Hl' : js_length (0x3a :: l) = 37) by (unfold js_length; rewrite length_cons, Hlen; done).
    destruct (_ || _) eqn:E; [exfalso; clear -E Ht Hl'; lia | done].
  - intros key p. unfold parsePaneKey. set (first := indexOf 0x3a key).
    destruct (_ || _) eqn:E; [done|].
    destruct (isTerminalLeafId _) eqn:El; cbn [negb]; [|done]. intros [= <-]. cbn. bool_prop.
    destruct (indexOf_split 0x3a key) as (a & b & Hk & Ha & Hl); [lia|].
    fold first in Hl. rewrite Hk in El |- *. rewrite <- Hl in El |- *.
    rewrite slice_from_app in El. rewrite slice_to_app, slice_from_app. unfold makePaneKey.
    rewrite El. rewrite bool_decide_eq_false_2, bool_decide_eq_false_2; [done | done |].
    intros ->. unfold js_length in Hl. cbn in Hl. lia.
  - intros key p. unfold parseLegacyNumericPaneKey. case_if; [done|].
    set (s := trim key). set (d := indexOf 0x3a s). destruct (_ || _) eqn:Ed; [done|].
    destruct (is_digits _) eqn:En; cbn [negb]; [|done]. intros [= <-]. cbn [lk_paneKey].
    unfold parsePaneKey. fold d. rewrite Ed.
    destruct (isTerminalLeafId _) eqn:El; cbn [negb]; [|done]. exfalso.
    apply leaf_id_dash in El. unfold is_digits in En. apply andb_true_iff in En as [_ En].
    rewrite forallb_forall in En. apply list_elem_of_In, En in El. done.
Qed.

(** ** Minted ids *)

Lemma is_hex_digit n : 0 <= n < 16 -> is_hex (hex_digit n) = true.
Proof. unfold is_hex, hex_digit, between. intros. case_if; lia. Qed.

Lemma hex_byte_digits b : is_byte b -> hex_byte b = [hex_digit (b / 16); hex_digit (b mod 16)].
Proof.
  unfold is_byte, hex_byte. intros H. case_if; [|done]. bool_prop.
  rewrite Z.div_small, Z.mod_small by lia. done.
Qed.

Lemma nibbles b : is_byte b -> 0 <= b / 16 < 16 /\ 0 <= b mod 16 < 16.
Proof.
  unfold is_byte. intros. split; [|apply Z.mod_pos_bound; lia].
  split; [apply Z.div_pos; lia | apply Z.div_lt_upper_bound; lia].
Qed.

(** The bytes of the version and the variant, checked over all bytes. *)
Definition all_bytes : list Z := Z.of_nat <$> seq 0 256.

Lemma byte_check (p : Z -> bool) b : forallb p all_bytes = true -> is_byte b -> p b = true.
Proof.
  rewrite forallb_forall. unfold is_byte. intros H Hb. apply H, list_elem_of_In, list_elem_of_fmap.
  exists (Z.to_nat b). rewrite elem_of_seq. lia.
Qed.

Definition version_byte (b : Z) : Z := Z.lor (Z.land b 0x0f) 0x40.
Definition variant_byte (b : Z) : Z := Z.lor (Z.land b 0x3f) 0x80.

Lemma version_byte_ok b : is_byte b ->
  is_byte (version_byte b) /\ hex_digit (version_byte b / 16) = 0x34.
Proof.
  intros H. pose proof (byte_check (fun b => (0 <=? version_byte b) && (version_byte b <? 256)
    && (hex_digit (version_byte b / 16) =? 0x34)) b eq_refl H) as E.
  cbn beta in E. bool_prop. unfold is_byte. lia.
Qed.

Lemma variant_byte_ok b : is_byte b ->
  is_byte (variant_byte b)
  /\ between 0x38 (hex_digit (variant_byte b / 16)) 0x39
     || between 0x61 (hex_digit (variant_byte b / 16)) 0x62 = true.
Proof.
  intros H. pose proof (byte_check (fun b => (0 <=? variant_byte b) && (variant_byte b <? 256)
    && (between 0x38 (hex_digit (variant_byte b / 16)) 0x39
        || between 0x61 (hex_digit (variant_byte b / 16)) 0x62)) b eq_refl H) as E.
  cbn beta in E. apply andb_true_iff in E as [E ?]. bool_prop. unfold is_byte. split; [lia | done].
Qed.

(** What is minted is a leaf id: always without [crypto.randomUUID]; with it, when its answer
    is a UUID. *)
Lemma minted_id_valid randomUUID random :
  (forall id, randomUUID = Some id -> isTerminalLeafId id = true) ->
  List.length random = 16%nat -> bytes_ok random ->
  isTerminalLeafId (mintStablePaneId randomUUID random) = true.
Proof.
  intros Hu Hl Hr. destruct randomUUID as [id|]; [by apply Hu|]. clear Hu.
  do 16 (destruct random as [|? random]; [done|]). destruct random; [|done]. clear Hl.
  unfold bytes_ok in Hr. rewrite !Forall_cons in Hr. destruct_and! Hr.
  unfold mintStablePaneId. cbn -[Z.lor Z.land hex_byte slice drop].
  repeat match goal with
    | |- context [hex_byte (Z.lor (Z.land ?b 15) 64)] =>
        change (Z.lor (Z.land b 15) 64) with (version_byte b);
        destruct (version_byte_ok b) as [? Hv]; [done|]
    | |- context [hex_byte (Z.lor (Z.land ?b 63) 128)] =>
        change (Z.lor (Z.land b 63) 128) with (variant_byte b);
        destruct (variant_byte_ok b) as [? Hw]; [done|]
    end.
  rewrite !hex_byte_digits by done.
  unfold isTerminalLeafId, isStablePaneId, slice.
  cbn -[is_hex between hex_digit Z.div Z.modulo version_byte variant_byte].
  rewrite Hv, Hw. rewrite !is_hex_digit by (by apply nibbles). done.
Qed.

(** ** The registry *)

Record registry_ok (reg : PaneIdentityRegistry) : Prop := {
  rk_inverse : forall p id, map_get p (leafIdByNumericId reg) = Some id
                            <-> rec_get id (numericIdByLeafId reg) = Some p;
  rk_valid : forall p id, map_get p (leafIdByNumericId reg) = Some id -> isTerminalLeafId id = true;
  rk_panes : keys_ok (leafIdByNumericId reg);
  rk_leaves : NoDup (rec_keys (numericIdByLeafId reg))
}.

Lemma new_registry_ok : registry_ok new_registry.
Proof. by split; cbn; try constructor. Qed.

Lemma registered_ok p id reg :
  registry_ok reg -> isTerminalLeafId id = true ->
  map_get p (leafIdByNumericId reg) = None -> rec_get id (numericIdByLeafId reg) = None ->
  registry_ok (register p id reg).
Proof.
  intros [Hi Hv Hp Hl] Hid Hp' Hl'. split; cbn.
  - intros q i. rewrite map_get_set, rec_get_set.
    repeat case_decide; subst; [done| | |apply Hi].
    + split; [congruence | intros Hx%Hi; congruence].
    + split; [intros Hx%Hi; congruence | congruence].
  - intros q i. rewrite map_get_set. case_decide; [intros Hx; injection Hx as <-; done | apply Hv].
  - by apply keys_ok_set.
  - by apply rec_set_nodup.
Qed.

Lemma release_ok p reg : registry_ok reg -> registry_ok (release p reg).
Proof.
  intros [Hi Hv Hp Hl]. destruct (map_get p (leafIdByNumericId reg)) as [id|] eqn:E.
  - assert (Hid : id <> []) by (apply leaf_id_nonempty; by eapply Hv).
    pose proof (proj1 (Hi p id) E) as E'.
    assert (Hr : release p reg = mkRegistry (map_delete p (leafIdByNumericId reg))
               (rec_delete id (numericIdByLeafId reg))
               (List.filter (fun q => negb (q =? p)) (publishedPaneIds reg)))
      by (unfold release; rewrite E; by destruct id).
    rewrite Hr. split; cbn.
    + intros q i. rewrite map_get_delete, rec_get_delete by done.
      repeat case_decide; subst; [done| | |apply Hi]; (split; [|done]) || (split; [done|]).
      * intros Hx%Hi. congruence.
      * intros Hx%Hi. congruence.
    + intros q i. rewrite map_get_delete by done. case_decide; [done | apply Hv].
    + by apply keys_ok_delete.
    + by apply rec_delete_nodup.
  - unfold release. rewrite E, map_delete_none by done. by split.
Qed.

(** A pane that adopts a leaf id gives up the one it had. *)
Lemma adopt_ok p current id reg reg' :
  registry_ok reg -> map_get p (leafIdByNumericId reg) = Some current ->
  adoptPaneLeafId p current id reg = Some reg' ->
  registry_ok reg' /\ getLeafId p reg' = Some id
  /\ forall q, q <> p -> getLeafId q reg' = getLeafId q reg.
Proof.
  intros [Hi Hv Hp Hl] Hc. unfold adoptPaneLeafId, getLeafId.
  destruct (isTerminalLeafId id) eqn:Eid; cbn [negb orb]; [|done]. case_if; [done|]. clear E.
  set (r := register p id _). intros H.
  assert (Hreg : reg' = r /\ (forall q, rec_get id (numericIdByLeafId reg) = Some q -> q = p)).
  { destruct (rec_get id (numericIdByLeafId reg)) as [q|] eqn:Eq; [case_if_in H; [|done]; bool_prop|];
      simplify_eq; split; congruence || done. }
  destruct Hreg as [-> Hown]. clear H. subst r. split_and!; [split; cbn| |]; cbn.
  - intros q i. rewrite map_get_set, rec_get_set, rec_get_delete.
    repeat case_decide; subst; split; intros Hx; try congruence;
      first [by apply Hi | apply Hi in Hx; congruence | apply Hi, Hown in Hx; congruence
            | apply Hi in Hc, Hx; congruence].
  - intros q i. rewrite map_get_set. destruct (decide (p = q)); [intros Hx; injection Hx as <-; done | apply Hv].
  - by apply keys_ok_set.
  - by apply rec_set_nodup, rec_delete_nodup.
  - apply map_get_set_eq.
  - intros q Hq. by apply map_get_set_ne.
Qed.

Section minting_laws.
Context (mint : nat -> jsstring) (limit : nat) `{!Minting mint limit}.

(** As many ids as are claimed, and one more, are enough to find one that is not. *)
Lemma mint_unclaimed_loop fuel reg n :
  (forall i, (i < fuel)%nat -> rec_has (mint (n + i)) (numericIdByLeafId reg) = true)
  \/ exists i, (i < fuel)%nat
       /\ mintUnclaimedLeafId mint fuel reg n = Some (mint (n + i)%nat, S (n + i))
       /\ rec_get (mint (n + i)%nat) (numericIdByLeafId reg) = None.
Proof.
  induction fuel as [|fuel IH] in n |- *; [left; lia|]. cbn.
  destruct (rec_has (mint n) (numericIdByLeafId reg)) eqn:E.
  - destruct (IH (S n)) as [H|(i & Hi & Hm & Hg)].
    + left. intros [|i] Hi; [by rewrite Nat.add_0_r|]. rewrite Nat.add_succ_r. apply H. lia.
    + right. exists (S i). rewrite Nat.add_succ_r. split_and!; [lia | done | done].
  - right. exists 0%nat. rewrite Nat.add_0_r. split_and!; [lia | done|].
    unfold rec_has in E. by destruct (rec_get _ _).
Qed.

Lemma mint_unclaimed reg n :
  (n + mint_fuel reg <= limit)%nat ->
  exists i, (i < mint_fuel reg)%nat /\ mintUnclaimedLeafId mint (mint_fuel reg) reg n = Some (mint (n + i)%nat, S (n + i))
            /\ rec_get (mint (n + i)%nat) (numericIdByLeafId reg) = None.
Proof.
  intros Hlim. destruct (mint_unclaimed_loop (mint_fuel reg) reg n) as [H|(i & ? & Hi)]; [exfalso|by exists i].
  set (ids := (fun i => mint (n + i)%nat) <$> seq 0 (mint_fuel reg)).
  assert (Hnd : NoDup ids).
  { apply NoDup_fmap_2_strong; [|apply NoDup_seq]. intros i j Hi%elem_of_seq Hj%elem_of_seq Hij.
    apply mint_injective in Hij; lia. }
  assert (Hin : ids ⊆ rec_keys (numericIdByLeafId reg)).
  { intros id (i & -> & Hi%elem_of_seq)%list_elem_of_fmap. apply rec_has_spec, H. lia. }
  apply NoDup_submseteq, submseteq_length in Hin; [|done].
  unfold ids, rec_keys in Hin. rewrite !length_fmap, length_seq in Hin. unfold mint_fuel in Hin. lia.
Qed.

(** What is claimed is a leaf id nobody has, the hint when that is one. *)
Lemma claim_sound hint reg n id n' :
  claimLeafId mint hint reg n = Some (id, n') ->
  isTerminalLeafId id = true /\ rec_get id (numericIdByLeafId reg) = None.
Proof.
  assert (Hm : forall fuel n, mintUnclaimedLeafId mint fuel reg n = Some (id, n') ->
            isTerminalLeafId id = true /\ rec_get id (numericIdByLeafId reg) = None).
  { induction fuel as [|fuel IH]; intros k; cbn; [done|]. unfold rec_has.
    destruct (rec_get (mint k) _) eqn:E; [apply IH|]. intros [= <- <-]. split; [apply mint_valid | done]. }
  unfold claimLeafId. destruct hint as [h|]; [|apply Hm].
  destruct (isTerminalLeafId h) eqn:Eh; cbn [andb]; [|apply Hm].
  unfold rec_has. destruct (rec_get h _) eqn:E; cbn [negb]; [apply Hm|]. by intros [= <- <-].
Qed.

(** Claiming always answers, with a leaf id nobody has; the hint when it is one. *)
Lemma claim_leaf_id hint reg n :
  (n + mint_fuel reg <= limit)%nat ->
  exists id n', (n' <= n + mint_fuel reg)%nat /\ claimLeafId mint hint reg n = Some (id, n') /\ isTerminalLeafId id = true
    /\ rec_get id (numericIdByLeafId reg) = None
    /\ (forall h, hint = Some h -> isTerminalLeafId h = true ->
          rec_get h (numericIdByLeafId reg) = None -> id = h /\ n' = n).
Proof.
  intros Hlim. unfold claimLeafId. destruct (mint_unclaimed reg n Hlim) as (i & Hi & Hm & Hg). pose proof (mint_valid (n + i)).
  assert (Hother : forall h, hint = Some h -> isTerminalLeafId h && negb (rec_has h (numericIdByLeafId reg)) = false ->
    isTerminalLeafId h = true -> rec_get h (numericIdByLeafId reg) = None -> False).
  { intros h _ Hf Hv Hn. unfold rec_has in Hf. by rewrite Hv, Hn in Hf. }
  destruct hint as [h|]; [case_if|].
  - exists h, n. bool_prop. split_and!; [lia | done | done | | by intros ? [= <-]].
    unfold rec_has in *. by destruct (rec_get h _).
  - exists (mint (n + i)%nat), (S (n + i)). split_and!; [lia | done..|].
    intros h' [= <-] Hv Hn. by destruct (Hother h eq_refl E Hv Hn).
  - exists (mint (n + i)%nat), (S (n + i)). split_and!; done || lia.
Qed.
End minting_laws.
