(* ===== verification/PaneLayout.v ===== *)
(** Layouts of terminal panes (packages/client/src/terminal-pane: terminal-layout-leaf-ids.ts,
    terminal-layout-leaf-detach.ts, merge-captured-leaf-state.ts).

    A layout is a binary tree of splits over leaves, with the selection and five records
    keyed by leaf id.  Normalisation renames leaves that are not UUIDs or that occur twice;
    the minted ids are [mint n], [mint (n + 1)], ..., the last component of a result is the
    number of ids minted so far.  The proofs are in PaneLayoutSpec.v. *)

From stdpp Require Import base list sets.
From Stdlib Require Import ZArith Lia ZifyBool SpecFloat.
From S2P Require Import Prelude JsText Json JsRecord PaneIdentity.

#[local] Set Warnings "-clear-no-such-hyp".

Inductive TerminalPaneSplitDirection := vertical | horizontal.

#[export] Instance TerminalPaneSplitDirection_eq_dec : EqDecision TerminalPaneSplitDirection.
Proof. solve_decision. Defined.

Inductive TerminalPaneLayoutNode :=
  | leaf (leafId : jsstring)
  | split (direction : TerminalPaneSplitDirection) (first second : TerminalPaneLayoutNode)
          (ratio : option spec_float).

Record TerminalScrollbackGrid := mkGrid { tg_cols : spec_float; tg_rows : spec_float }.

Record TerminalLayoutSnapshot := mkLayout {
  tl_root : option TerminalPaneLayoutNode;
  tl_activeLeafId : option jsstring;
  tl_expandedLeafId : option jsstring;
  tl_ptyIdsByLeafId : option (jsrecord jsstring);
  tl_buffersByLeafId : option (jsrecord jsstring);
  tl_scrollbackRefsByLeafId : option (jsrecord jsstring);
  tl_scrollbackGridsByLeafId : option (jsrecord TerminalScrollbackGrid);
  tl_titlesByLeafId : option (jsrecord jsstring)
}.

Definition EMPTY_TERMINAL_LAYOUT : TerminalLayoutSnapshot :=
  mkLayout None None None None None None None None.

(** [s && ...] on a string that may be null: null and the empty string are false. *)
Definition truthy (s : option jsstring) : option jsstring :=
  match s with
  | Some [] | None => None
  | Some _ => s
  end.

(** ** Leaves *)

Fixpoint leaves (node : TerminalPaneLayoutNode) : list jsstring :=
  match node with
  | leaf leafId => [leafId]
  | split _ first second _ => leaves first ++ leaves second
  end.

Definition collectLeafIdsInOrder (node : option TerminalPaneLayoutNode) : list jsstring :=
  match node with
  | None => []
  | Some node => leaves node
  end.

Fixpoint getLeftmostLeafId (node : TerminalPaneLayoutNode) : jsstring :=
  match node with
  | leaf leafId => leafId
  | split _ first _ _ => getLeftmostLeafId first
  end.

Definition firstLeafId (node : option TerminalPaneLayoutNode) : option jsstring :=
  match node with
  | None => None
  | Some node => Some (getLeftmostLeafId node)
  end.

Fixpoint collectLeafCounts (node : TerminalPaneLayoutNode) (counts : jsrecord Z) : jsrecord Z :=
  match node with
  | leaf leafId => rec_set leafId (default 0 (rec_get leafId counts) + 1) counts
  | split _ first second _ => collectLeafCounts second (collectLeafCounts first counts)
  end.

(** ** The active leaf *)

Definition hasLeafPtyBinding (ptyIdsByLeafId : option (jsrecord jsstring)) (leafId : jsstring) : bool :=
  match ptyIdsByLeafId with
  | Some ptyIds => rec_has leafId ptyIds
  | None => false
  end.

Definition resolveRootlessTerminalLayoutLeafId (snapshot : TerminalLayoutSnapshot) : option jsstring :=
  match truthy (tl_activeLeafId snapshot) with
  | Some active =>
      if isTerminalLeafId active then Some active
      else match List.filter isTerminalLeafId (rec_keys (default [] (tl_ptyIdsByLeafId snapshot))) with
           | [bound] => Some bound
           | _ => None
           end
  | None =>
      match List.filter isTerminalLeafId (rec_keys (default [] (tl_ptyIdsByLeafId snapshot))) with
      | [bound] => Some bound
      | _ => None
      end
  end.

Definition resolveTerminalLayoutActiveLeafId (root : option TerminalPaneLayoutNode)
    (activeLeafId : option jsstring) (ptyIdsByLeafId : option (jsrecord jsstring)) : option jsstring :=
  let leafIds := collectLeafIdsInOrder root in
  match leafIds with
  | [] => None
  | firstId :: _ =>
      let hasBoundLeaf := existsb (hasLeafPtyBinding ptyIdsByLeafId) leafIds in
      let present := match truthy activeLeafId with
                     | Some active => bool_decide (active ∈ leafIds)
                     | None => false
                     end in
      let bound := match activeLeafId with
                   | Some active => hasLeafPtyBinding ptyIdsByLeafId active
                   | None => false
                   end in
      if present && (negb hasBoundLeaf || bound) then activeLeafId
      else if hasBoundLeaf then List.find (hasLeafPtyBinding ptyIdsByLeafId) leafIds
      else if present then activeLeafId else Some firstId
  end.

Definition resolvePtyBoundActiveLeafId (root : option TerminalPaneLayoutNode)
    (activeLeafId : option jsstring) (ptyIdsByLeafId : option (jsrecord jsstring)) : option jsstring :=
  match root with
  | None =>
      match rec_keys (default [] ptyIdsByLeafId) with
      | bound :: _ => Some bound
      | [] => activeLeafId
      end
  | Some _ => resolveTerminalLayoutActiveLeafId root activeLeafId ptyIdsByLeafId
  end.

(** ** Normalisation *)

Record LeafIdRewrite := mkRewrite {
  nextLeafIdByInputLeafId : jsrecord jsstring;
  duplicatedInputLeafIds : list jsstring
}.

Definition remapLeafRecord {T} (source : option (jsrecord T)) (rewrite : LeafIdRewrite)
    : option (jsrecord T) :=
  match source with
  | None => None
  | Some source =>
      let next := fold_left (fun next '(leafId, value) =>
        if bool_decide (leafId ∈ duplicatedInputLeafIds rewrite) then next
        else match truthy (rec_get leafId (nextLeafIdByInputLeafId rewrite)) with
             | Some nextLeafId => rec_set nextLeafId value next
             | None => next
             end) source [] in
      match next with
      | [] => None
      | _ => Some next
      end
  end.

Definition getRemappedLeafId (leafId : option jsstring) (rewrite : LeafIdRewrite) : option jsstring :=
  match truthy leafId with
  | None => None
  | Some leafId =>
      if bool_decide (leafId ∈ duplicatedInputLeafIds rewrite) then None
      else rec_get leafId (nextLeafIdByInputLeafId rewrite)
  end.

Section normalize.
Context (mint : nat -> jsstring).

Fixpoint cloneLayoutWithLeafRewrite (node : TerminalPaneLayoutNode) (rewrite : LeafIdRewrite) (n : nat)
    : TerminalPaneLayoutNode * nat :=
  match node with
  | leaf leafId =>
      match rec_get leafId (nextLeafIdByInputLeafId rewrite) with
      | Some replacement => (leaf replacement, n)
      | None => (leaf (mint n), S n)
      end
  | split direction first second ratio =>
      let '(first', n) := cloneLayoutWithLeafRewrite first rewrite n in
      let '(second', n) := cloneLayoutWithLeafRewrite second rewrite n in
      (split direction first' second' ratio, n)
  end.

(** The loop over the counted leaves. *)
Fixpoint next_leaf_ids (counts : jsrecord Z) (next : jsrecord jsstring) (changed : bool) (n : nat)
    : jsrecord jsstring * bool * nat :=
  match counts with
  | [] => (next, changed, n)
  | (leafId, count) :: rest =>
      if (count =? 1) && isTerminalLeafId leafId
      then next_leaf_ids rest (rec_set leafId leafId next) changed n
      else if count =? 1 then next_leaf_ids rest (rec_set leafId (mint n) next) true (S n)
      else next_leaf_ids rest next true n
  end.

Definition normalize_rootless (snapshot : TerminalLayoutSnapshot) (n : nat)
    : TerminalLayoutSnapshot * bool * nat :=
  let activeLeafId := resolveRootlessTerminalLayoutLeafId snapshot in
  (mkLayout (tl_root snapshot) activeLeafId (tl_expandedLeafId snapshot) (tl_ptyIdsByLeafId snapshot)
     (tl_buffersByLeafId snapshot) (tl_scrollbackRefsByLeafId snapshot)
     (tl_scrollbackGridsByLeafId snapshot) (tl_titlesByLeafId snapshot),
   negb (bool_decide (activeLeafId = tl_activeLeafId snapshot)), n).

Definition normalize_rooted (snapshot : TerminalLayoutSnapshot) (root : TerminalPaneLayoutNode) (n : nat)
    : TerminalLayoutSnapshot * bool * nat :=
  let counts := collectLeafCounts root [] in
  let duplicated := rec_keys (List.filter (fun e => 1 <? snd e) counts) in
  let '(next, changed, n) := next_leaf_ids counts [] false n in
  let activeLeafId := resolveTerminalLayoutActiveLeafId (Some root) (tl_activeLeafId snapshot)
                        (tl_ptyIdsByLeafId snapshot) in
  let expandedLeafId := match truthy (tl_expandedLeafId snapshot) with
                        | Some expanded =>
                            if bool_decide (expanded ∈ rec_keys counts) then Some expanded else None
                        | None => None
                        end in
  let selectionChanged := negb (bool_decide (activeLeafId = tl_activeLeafId snapshot))
                          || negb (bool_decide (expandedLeafId = tl_expandedLeafId snapshot)) in
  if negb changed && negb selectionChanged then (snapshot, false, n)
  else
    let rewrite := mkRewrite next duplicated in
    let '(root, n) := if changed then cloneLayoutWithLeafRewrite root rewrite n else (root, n) in
    let remappedActiveLeafId := match getRemappedLeafId activeLeafId rewrite with
                                | Some id => Some id
                                | None => firstLeafId (Some root)
                                end in
    let ptyIdsByLeafId := remapLeafRecord (tl_ptyIdsByLeafId snapshot) rewrite in
    (mkLayout (Some root)
       (resolveTerminalLayoutActiveLeafId (Some root) remappedActiveLeafId ptyIdsByLeafId)
       (getRemappedLeafId expandedLeafId rewrite)
       ptyIdsByLeafId
       (remapLeafRecord (tl_buffersByLeafId snapshot) rewrite)
       (remapLeafRecord (tl_scrollbackRefsByLeafId snapshot) rewrite)
       (remapLeafRecord (tl_scrollbackGridsByLeafId snapshot) rewrite)
       (remapLeafRecord (tl_titlesByLeafId snapshot) rewrite),
     true, n).

Definition normalizeTerminalLayoutSnapshot (snapshot : option TerminalLayoutSnapshot) (n : nat)
    : TerminalLayoutSnapshot * bool * nat :=
  match snapshot with
  | None => normalize_rootless EMPTY_TERMINAL_LAYOUT n
  | Some snapshot =>
      match tl_root snapshot with
      | None => normalize_rootless snapshot n
      | Some root => normalize_rooted snapshot root n
      end
  end.
End normalize.

(** ** Detaching a leaf (terminal-layout-leaf-detach.ts) *)

Record DetachedTerminalLayoutLeaf := mkDetached {
  dt_sourceLayout : TerminalLayoutSnapshot;
  dt_detachedLayout : TerminalLayoutSnapshot;
  dt_ptyId : option jsstring
}.

(** The node left, and whether the leaf was found. *)
Fixpoint removeLeafFromTree (node : TerminalPaneLayoutNode) (leafId : jsstring)
    : option TerminalPaneLayoutNode * bool :=
  match node with
  | leaf id => if bool_decide (id = leafId) then (None, true) else (Some node, false)
  | split direction first second ratio =>
      let '(first', removed1) := removeLeafFromTree first leafId in
      let '(second', removed2) := removeLeafFromTree second leafId in
      if negb removed1 && negb removed2 then (Some node, false)
      else match first', second' with
           | None, _ => (second', true)
           | _, None => (first', true)
           | Some first', Some second' => (Some (split direction first' second' ratio), true)
           end
  end.

Definition omitLeafRecord {T} (source : option (jsrecord T)) (leafId : jsstring) : option (jsrecord T) :=
  match source with
  | None => None
  | Some record =>
      if negb (rec_has leafId record) then source
      else match rec_delete leafId record with
           | [] => None
           | next => Some next
           end
  end.

Definition singleLeafRecord {T} (is_truthy : T -> bool) (source : option (jsrecord T)) (leafId : jsstring)
    : option (jsrecord T) :=
  match rec_get leafId (default [] source) with
  | Some value => if is_truthy value then Some [(leafId, value)] else None
  | None => None
  end.

Definition nonempty (s : jsstring) : bool := negb (bool_decide (s = [])).

Definition without_leaf (layout : TerminalLayoutSnapshot) (node : TerminalPaneLayoutNode) (leafId : jsstring)
    : TerminalLayoutSnapshot :=
  let other (id : option jsstring) := if bool_decide (id = Some leafId) then None else id in
  let ptyIdsByLeafId := omitLeafRecord (tl_ptyIdsByLeafId layout) leafId in
  mkLayout (Some node)
    (resolveTerminalLayoutActiveLeafId (Some node) (other (tl_activeLeafId layout)) ptyIdsByLeafId)
    (other (tl_expandedLeafId layout))
    ptyIdsByLeafId
    (omitLeafRecord (tl_buffersByLeafId layout) leafId)
    (omitLeafRecord (tl_scrollbackRefsByLeafId layout) leafId)
    (omitLeafRecord (tl_scrollbackGridsByLeafId layout) leafId)
    (omitLeafRecord (tl_titlesByLeafId layout) leafId).

Definition only_leaf (layout : TerminalLayoutSnapshot) (leafId : jsstring) : TerminalLayoutSnapshot :=
  mkLayout (Some (leaf leafId)) (Some leafId) None
    (singleLeafRecord nonempty (tl_ptyIdsByLeafId layout) leafId)
    (singleLeafRecord nonempty (tl_buffersByLeafId layout) leafId)
    (singleLeafRecord nonempty (tl_scrollbackRefsByLeafId layout) leafId)
    (singleLeafRecord (fun _ => true) (tl_scrollbackGridsByLeafId layout) leafId)
    (singleLeafRecord nonempty (tl_titlesByLeafId layout) leafId).

Definition detachTerminalLayoutLeaf (mint : nat -> jsstring) (snapshot : option TerminalLayoutSnapshot)
    (leafId : jsstring) (n : nat) : option DetachedTerminalLayoutLeaf :=
  let '(layout, _, _) := normalizeTerminalLayoutSnapshot mint snapshot n in
  match tl_root layout with
  | None => None
  | Some root =>
      let originalLeafIds := collectLeafIdsInOrder (Some root) in
      if negb (bool_decide (leafId ∈ originalLeafIds)) || Nat.leb (List.length originalLeafIds) 1 then None
      else match removeLeafFromTree root leafId with
           | (Some node, true) =>
               let detached := only_leaf layout leafId in
               Some (mkDetached (without_leaf layout node leafId) detached
                       (rec_get leafId (default [] (tl_ptyIdsByLeafId detached))))
           | _ => None
           end
  end.

(** ** Captured state (merge-captured-leaf-state.ts) *)

Definition mergeCapturedLeafState {T} (prior : option (jsrecord T)) (fresh : jsrecord T)
    (currentLeafIds : list jsstring) : jsrecord T :=
  let keep := fold_left (fun merged '(leafId, value) =>
    if bool_decide (leafId ∈ currentLeafIds) then rec_set leafId value merged else merged) in
  keep fresh (keep (default [] prior) []).
