(* ===== verification/PaneLayoutSpec.v ===== *)
(** What normalising, detaching and capturing do to the layout of panes (PaneLayout.v). *)

From stdpp Require Import base list sets.
From Stdlib Require Import ZArith Lia ZifyBool String.
From S2P Require Import Prelude JsText Json JsRecord PaneIdentity PaneLayout.

Open Scope Z_scope.

#[local] Set Warnings "-clear-no-such-hyp".

(** ** The specification: well-formed layouts *)

Definition id_dec (a b : jsstring) : {a = b} + {a <> b} := decide (a = b).

(** How often a leaf id occurs. *)
Definition occurrences (k : jsstring) (l : list jsstring) : nat := count_occ id_dec l k.

(** The tree, its directions and ratios, without the ids. *)
Fixpoint same_shape (a b : TerminalPaneLayoutNode) : Prop :=
  match a, b with
  | leaf _, leaf _ => True
  | split d first second r, split d' first' second' r' =>
      d = d' /\ r = r' /\ same_shape first first' /\ same_shape second second'
  | _, _ => False
  end.

(** Leaves are distinct UUIDs, the active leaf is the one the selection resolves to, the
    expanded leaf is a leaf. *)
Definition layout_ok (s : TerminalLayoutSnapshot) : Prop :=
  match tl_root s with
  | None => tl_activeLeafId s = resolveRootlessTerminalLayoutLeafId s
  | Some root =>
      NoDup (leaves root) /\ Forall (fun id => isTerminalLeafId id = true) (leaves root)
      /\ tl_activeLeafId s = resolveTerminalLayoutActiveLeafId (Some root) (tl_activeLeafId s) (tl_ptyIdsByLeafId s)
      /\ (forall e, tl_expandedLeafId s = Some e -> e ∈ leaves root)
  end.

(** The records are objects: no key twice. *)
Definition records_ok (s : TerminalLayoutSnapshot) : Prop :=
  NoDup (rec_keys (default [] (tl_ptyIdsByLeafId s))) /\ NoDup (rec_keys (default [] (tl_buffersByLeafId s)))
  /\ NoDup (rec_keys (default [] (tl_scrollbackRefsByLeafId s)))
  /\ NoDup (rec_keys (default [] (tl_scrollbackGridsByLeafId s)))
  /\ NoDup (rec_keys (default [] (tl_titlesByLeafId s))).

(** What a record holds for a leaf. *)
Definition entry {T} (record : option (jsrecord T)) (id : jsstring) : option T :=
  rec_get id (default [] record).

(** Everything layout [a] records for leaf [i], layout [b] records for leaf [j]. *)
Definition same_entries (a : TerminalLayoutSnapshot) (i : jsstring) (b : TerminalLayoutSnapshot) (j : jsstring) : Prop :=
  entry (tl_ptyIdsByLeafId b) j = entry (tl_ptyIdsByLeafId a) i
  /\ entry (tl_buffersByLeafId b) j = entry (tl_buffersByLeafId a) i
  /\ entry (tl_scrollbackRefsByLeafId b) j = entry (tl_scrollbackRefsByLeafId a) i
  /\ entry (tl_scrollbackGridsByLeafId b) j = entry (tl_scrollbackGridsByLeafId a) i
  /\ entry (tl_titlesByLeafId b) j = entry (tl_titlesByLeafId a) i.

(** ** Leaves and counts *)

Lemma leaves_nonempty node : leaves node <> [].
Proof. induction node as [|d a IHa b IHb r]; cbn; [done|]. by destruct (leaves a). Qed.

Lemma leaves_head node : head (leaves node) = Some (getLeftmostLeafId node).
Proof. induction node as [|d a IHa b IHb r]; cbn; [done|]. by destruct (leaves a). Qed.

Lemma leftmost_elem node : getLeftmostLeafId node ∈ leaves node.
Proof. pose proof (leaves_head node). destruct (leaves node); simplify_eq/=; set_solver. Qed.

Lemma same_shape_refl node : same_shape node node.
Proof. induction node; cbn; auto. Qed.

Definition count_step (counts : jsrecord Z) (id : jsstring) : jsrecord Z :=
  rec_set id (default 0 (rec_get id counts) + 1) counts.

Lemma collect_fold node counts : collectLeafCounts node counts = fold_left count_step (leaves node) counts.
Proof.
  induction node as [id|d a IHa b IHb r] in counts |- *; cbn; [done|].
  by rewrite fold_left_app, IHa, IHb.
Qed.

Lemma count_fold l counts k :
  rec_get k (fold_left count_step l counts)
  = if decide (k ∈ l) then Some (default 0 (rec_get k counts) + Z.of_nat (occurrences k l))
    else rec_get k counts.
Proof.
  unfold occurrences. induction l as [|x l IH] in counts |- *; cbn -[Z.add Z.of_nat id_dec elem_of].
  { by rewrite decide_False by set_solver. }
  rewrite IH. unfold count_step. rewrite rec_get_set.
  destruct (id_dec x k) as [->|Hx].
  - rewrite (decide_True (P := k = k)) by done. cbn [default]. rewrite (decide_True (P := k ∈ k :: l)) by set_solver.
    cbn [from_option]. unfold id. destruct (decide (k ∈ l)) as [|Hn]; [f_equal; lia|].
    rewrite (proj1 (count_occ_not_In id_dec l k)) by (by rewrite <- list_elem_of_In). done.
  - rewrite (decide_False (P := x = k)) by done. repeat case_decide; set_solver.
Qed.

Lemma count_fold_nodup l counts : NoDup (rec_keys counts) -> NoDup (rec_keys (fold_left count_step l counts)).
Proof.
  induction l as [|x l IH] in counts |- *; cbn; [done|]. intros H. by apply IH, rec_set_nodup.
Qed.

Lemma leaf_counts node k :
  rec_get k (collectLeafCounts node [])
  = if decide (k ∈ leaves node) then Some (Z.of_nat (occurrences k (leaves node))) else None.
Proof. by rewrite collect_fold, count_fold. Qed.

Lemma leaf_counts_nodup node : NoDup (rec_keys (collectLeafCounts node [])).
Proof. rewrite collect_fold. apply count_fold_nodup. constructor. Qed.

Lemma leaf_counts_keys node k : k ∈ rec_keys (collectLeafCounts node []) <-> k ∈ leaves node.
Proof. rewrite <- rec_has_spec. unfold rec_has. rewrite leaf_counts. by case_decide. Qed.

Lemma occurrences_pos k l : k ∈ l <-> (0 < occurrences k l)%nat.
Proof. rewrite list_elem_of_In. apply count_occ_In. Qed.

Lemma nodup_occurrences l : NoDup l <-> (forall k, k ∈ l -> occurrences k l = 1%nat).
Proof.
  split.
  - intros H k Hk. rewrite NoDup_ListNoDup in H. apply (NoDup_count_occ' id_dec); [done|].
    by apply list_elem_of_In.
  - intros H. apply NoDup_ListNoDup, (NoDup_count_occ' id_dec). intros x Hx.
    by apply H, list_elem_of_In.
Qed.

(** ** The active leaf *)

Lemma resolve_active_elem root active ptys :
  exists a, resolveTerminalLayoutActiveLeafId (Some root) active ptys = Some a /\ a ∈ leaves root.
Proof.
  unfold resolveTerminalLayoutActiveLeafId. cbn [collectLeafIdsInOrder].
  pose proof (leaves_nonempty root) as Hne. destruct (leaves root) as [|x l] eqn:El; [done|].
  assert (Hp : (match truthy active with Some a => bool_decide (a ∈ x :: l) | None => false end) = true ->
               exists a, active = Some a /\ a ∈ x :: l).
  { destruct active as [[|c a]|]; cbn [truthy]; try done. intros ?%bool_decide_eq_true. by eexists. }
  destruct (match truthy active with Some _ => _ | None => _ end) eqn:Ep.
  - destruct Hp as (a & -> & Ha); [done|]. cbn [andb].
    destruct (negb _ || _); [by exists a|].
    destruct (existsb _ (x :: l)) eqn:Eb; [|by exists a].
    apply existsb_exists in Eb as (y & Hy & Hb).
    destruct (List.find _ (x :: l)) eqn:Ef; [|pose proof (find_none _ _ Ef y Hy); congruence].
    apply find_some in Ef as [Ef _]. eexists. split; [done|]. by apply list_elem_of_In.
  - cbn [andb]. destruct (existsb _ (x :: l)) eqn:Eb; [|exists x; set_solver].
    apply existsb_exists in Eb as (y & Hy & Hb).
    destruct (List.find _ (x :: l)) eqn:Ef; [|pose proof (find_none _ _ Ef y Hy); congruence].
    apply find_some in Ef as [Ef _]. eexists. split; [done|]. by apply list_elem_of_In.
Qed.

(** Resolving what was resolved changes nothing. *)
Lemma resolve_idem root active ptys :
  resolveTerminalLayoutActiveLeafId root (resolveTerminalLayoutActiveLeafId root active ptys) ptys
  = resolveTerminalLayoutActiveLeafId root active ptys.
Proof.
  unfold resolveTerminalLayoutActiveLeafId. destruct (collectLeafIdsInOrder root) as [|x l] eqn:El; [done|].
  set (ids := x :: l). set (bound := hasLeafPtyBinding ptys).
  destruct (match truthy active with Some _ => _ | None => _ end) eqn:Ep.
  - destruct (existsb bound ids) eqn:Eb; cbn [negb andb orb].
    + destruct (match active with Some a => bound a | None => false end) eqn:Ea; [by rewrite Ep, Ea|].
      destruct (List.find bound ids) as [y|] eqn:Ef; cbn [truthy].
      * apply find_some in Ef as Hf. destruct Hf as [Hin Hb]. rewrite Hb.
        by destruct y; [|rewrite bool_decide_eq_true_2 by by apply list_elem_of_In].
      * done.
    + by rewrite Ep.
  - cbn [andb]. destruct (existsb bound ids) eqn:Eb; cbn [negb andb orb].
    + destruct (List.find bound ids) as [y|] eqn:Ef; cbn [truthy]; [|done].
      apply find_some in Ef as Hf. destruct Hf as [Hin Hb]. rewrite Hb.
      by destruct y; [|rewrite bool_decide_eq_true_2 by by apply list_elem_of_In].
    + destruct x as [|c x]; cbn [truthy]; [done|]. by destruct (bool_decide _).
Qed.

Lemma rootless_idem s s' :
  tl_ptyIdsByLeafId s' = tl_ptyIdsByLeafId s -> tl_activeLeafId s' = resolveRootlessTerminalLayoutLeafId s ->
  resolveRootlessTerminalLayoutLeafId s' = resolveRootlessTerminalLayoutLeafId s.
Proof.
  unfold resolveRootlessTerminalLayoutLeafId. intros -> ->.
  set (b := List.filter isTerminalLeafId _).
  assert (Hb : forall x, x ∈ b -> isTerminalLeafId x = true).
  { intros x Hx%list_elem_of_In. by apply filter_In in Hx as [_ ?]. }
  assert (Hs : forall x, isTerminalLeafId x = true -> truthy (Some x) = Some x).
  { intros x Hx%leaf_id_nonempty. by destruct x. }
  assert (Hone : match truthy (match b with [x] => Some x | _ => None end) with
                 | Some a => if isTerminalLeafId a then Some a else match b with [x] => Some x | _ => None end
                 | None => match b with [x] => Some x | _ => None end
                 end = match b with [x] => Some x | _ => None end).
  { destruct b as [|x [|]]; try done. pose proof (Hb x ltac:(set_solver)) as Hv. by rewrite (Hs x Hv), Hv. }
  destruct (truthy (tl_activeLeafId s)) as [a|] eqn:Ea; [|done].
  destruct (isTerminalLeafId a) eqn:Ev; [|done]. by rewrite (Hs a Ev), Ev.
Qed.

(** ** Renaming *)

Section renaming.
Context (mint : nat -> jsstring) (limit : nat) `{!Minting mint limit}.

(** Ids of a layout are not minted by a later run. *)
Definition fresh (n : nat) (inputs : list jsstring) : Prop := forall j, (n <= j < limit)%nat -> mint j ∉ inputs.

(** [m] is a minted id with a number from [n] up to [n']. *)
Definition minted (n n' : nat) (m : jsstring) : Prop := exists j, (n <= j < n')%nat /\ m = mint j.

Record next_ok (inputs : list jsstring) (n0 n : nat) (next : jsrecord jsstring) : Prop := {
  nx_values : forall k k', rec_get k next = Some k' ->
    k ∈ inputs /\ (k' = k /\ isTerminalLeafId k = true \/ minted n0 n k' /\ isTerminalLeafId k = false);
  nx_injective : forall k1 k2 k', rec_get k1 next = Some k' -> rec_get k2 next = Some k' -> k1 = k2
}.

Lemma minted_mono n n1 n2 m : (n1 <= n2)%nat -> minted n n1 m -> minted n n2 m.
Proof. intros ? (j & ? & ->). exists j. split; [lia | done]. Qed.

Lemma next_ok_kept inputs n0 n next k :
  fresh n0 inputs -> (n <= limit)%nat -> next_ok inputs n0 n next -> k ∈ inputs -> isTerminalLeafId k = true ->
  rec_get k next = None -> next_ok inputs n0 n (rec_set k k next).
Proof.
  intros Hf Hlim [Hv Hi] Hk Hid Hn.
  assert (Hother : forall k1, rec_get k1 next = Some k -> False).
  { intros k1 H1. destruct (Hv _ _ H1) as [_ [[-> _]|[(j & Hj & ->) _]]]; [congruence|].
    by apply (Hf j); [lia|]. }
  split.
  - intros k1 k'. rewrite rec_get_set. case_decide; [|apply Hv]. intros [= <-]. subst. auto.
  - intros k1 k2 k'. rewrite !rec_get_set. repeat case_decide; subst; intros H1 H2; simplify_eq; try done.
    + by destruct (Hother k2).
    + by destruct (Hother k1).
    + by eapply Hi.
Qed.

Lemma next_ok_minted inputs n0 n next k :
  fresh n0 inputs -> (n < limit)%nat -> next_ok inputs n0 n next -> (n0 <= n)%nat -> k ∈ inputs ->
  isTerminalLeafId k = false -> rec_get k next = None ->
  next_ok inputs n0 (S n) (rec_set k (mint n) next).
Proof.
  intros Hf Hlim [Hv Hi] Hle Hk Hid Hn.
  assert (Hother : forall k1, rec_get k1 next = Some (mint n) -> False).
  { intros k1 H1. destruct (Hv _ _ H1) as [Hin [[Heq _]|[(j & Hj & Heq) _]]].
    - apply (Hf n); [lia | congruence].
    - apply mint_injective in Heq; lia. }
  split.
  - intros k1 k'. rewrite rec_get_set. case_decide; subst.
    + intros [= <-]. split; [done|]. right. split; [|done]. exists n. split; [lia | done].
    + intros H1. destruct (Hv _ _ H1) as [? [?|[? ?]]]; split; auto. right.
      split; [|done]. eapply minted_mono; [|done]. lia.
  - intros k1 k2 k'. rewrite !rec_get_set. repeat case_decide; subst; intros H1 H2; simplify_eq; try done.
    + by destruct (Hother k2).
    + by destruct (Hother k1).
    + by eapply Hi.
Qed.

(** The loop over the counted ids: which get a new id, when something changed, and that
    the new ids are right. *)
Lemma next_leaf_ids_dom counts next changed n next' changed' n' k :
  next_leaf_ids mint counts next changed n = (next', changed', n') ->
  is_Some (rec_get k next') <-> is_Some (rec_get k next) \/ (k, 1) ∈ counts.
Proof.
  revert next changed n. induction counts as [|[j c] counts IH]; intros next changed n H; cbn in H.
  { simplify_eq. set_solver. }
  rewrite elem_of_cons. destruct (c =? 1) eqn:Ec; cbn [andb] in H; bool_prop.
  - subst c. assert (Hs : forall v, is_Some (rec_get k (rec_set j v next)) <-> is_Some (rec_get k next) \/ k = j).
    { intros v. rewrite rec_get_set. case_decide; subst; [|naive_solver]. split; [auto | by eexists]. }
    destruct (isTerminalLeafId j); apply IH in H; rewrite H, Hs; clear;
      (split; [intros [[?|?]|?]; auto; subst; auto | intros [?|[?|?]]; auto; simplify_eq; auto]).
  - apply IH in H. rewrite H. clear -Ec. split; [intros [?|?]; auto|].
    intros [?|[?|?]]; auto. simplify_eq.
Qed.

Lemma next_leaf_ids_changed counts next changed n next' changed' n' :
  next_leaf_ids mint counts next changed n = (next', changed', n') ->
  (n <= n')%nat /\ (changed' = false -> n' = n)
  /\ (changed' = false <->
      changed = false /\ Forall (fun e => snd e = 1 /\ isTerminalLeafId (fst e) = true) counts).
Proof.
  revert next changed n. induction counts as [|[j c] counts IH]; intros next changed n H; cbn in H.
  { simplify_eq. split_and!; [lia | done|]. split; [intros ->; by split; [|constructor] | by intros []]. }
  rewrite Forall_cons. cbn [fst snd].
  destruct (c =? 1) eqn:Ec; cbn [andb] in H; bool_prop; [destruct (isTerminalLeafId j)|];
    apply IH in H as (Hle & Hn & Hc); clear IH.
  - split_and!; [lia | done|]. rewrite Hc. clear Hn Hc. tauto.
  - split_and!; [lia | intros Hx; apply Hc in Hx as [? _]; done|]. rewrite Hc. clear. naive_solver.
  - split_and!; [lia | intros Hx; apply Hc in Hx as [? _]; done|]. rewrite Hc. clear -Ec. naive_solver.
Qed.

Lemma next_leaf_ids_ok inputs n0 counts next changed n next' changed' n' :
  fresh n0 inputs ->
  next_leaf_ids mint counts next changed n = (next', changed', n') -> (n' <= limit)%nat ->
  (n0 <= n)%nat -> next_ok inputs n0 n next -> NoDup (rec_keys counts) ->
  (forall k, k ∈ rec_keys counts -> k ∈ inputs /\ rec_get k next = None) ->
  next_ok inputs n0 n' next'.
Proof.
  intros Hf. revert next changed n.
  induction counts as [|[j c] counts IH]; intros next changed n H Hlim Hle Hn Hnd Hk;
    cbn in H; [by simplify_eq|].
  assert (Hnl : (n <= n')%nat) by by apply (next_leaf_ids_changed ((j, c) :: counts) next changed n next' changed' n').
  cbn in Hnd. apply NoDup_cons in Hnd as [Hj Hnd].
  destruct (Hk j ltac:(cbn; set_solver)) as [Hjin Hjn].
  assert (Hrest : forall v k, k ∈ rec_keys counts -> k ∈ inputs /\ rec_get k (rec_set j v next) = None).
  { intros v k Hkin. rewrite rec_get_set_ne by (intros ->; done). apply Hk. cbn. set_solver. }
  destruct (c =? 1); cbn [andb] in H; [destruct (isTerminalLeafId j) eqn:Ej|].
  - eapply IH; [done | done | done | apply next_ok_kept; done || lia | done | apply Hrest].
  - apply next_leaf_ids_changed in H as Hs. destruct Hs as [Hs _].
    eapply IH; [done | done | lia | apply next_ok_minted; done || lia | done | apply Hrest].
  - eapply IH; [done | done | done | done | done|]. intros k Hkin. apply Hk. cbn. set_solver.
Qed.

(** The ids of the leaves of a clone, from left to right. *)
Fixpoint rewrite_ids (ids : list jsstring) (next : jsrecord jsstring) (n : nat) : list jsstring * nat :=
  match ids with
  | [] => ([], n)
  | k :: rest =>
      match rec_get k next with
      | Some k' => let '(rest', n') := rewrite_ids rest next n in (k' :: rest', n')
      | None => let '(rest', n') := rewrite_ids rest next (S n) in (mint n :: rest', n')
      end
  end.

Lemma rewrite_ids_app a b next n :
  rewrite_ids (a ++ b) next n
  = (fst (rewrite_ids a next n) ++ fst (rewrite_ids b next (snd (rewrite_ids a next n))),
     snd (rewrite_ids b next (snd (rewrite_ids a next n)))).
Proof.
  induction a as [|k a IH] in n |- *; cbn; [by destruct (rewrite_ids b next n)|].
  destruct (rec_get k next); rewrite IH; by destruct (rewrite_ids a next _).
Qed.

Lemma clone_leaves node rewrite n node' n' :
  cloneLayoutWithLeafRewrite mint node rewrite n = (node', n') ->
  rewrite_ids (leaves node) (nextLeafIdByInputLeafId rewrite) n = (leaves node', n')
  /\ same_shape node node'.
Proof.
  induction node as [id|d a IHa b IHb r] in n, node', n' |- *; cbn.
  - destruct (rec_get id _); intros [= <- <-]; done.
  - destruct (cloneLayoutWithLeafRewrite mint a rewrite n) as [a' n1] eqn:Ea.
    destruct (cloneLayoutWithLeafRewrite mint b rewrite n1) as [b' n2] eqn:Eb. intros [= <- <-].
    apply IHa in Ea as [Ea ?]. apply IHb in Eb as [Eb ?].
    rewrite rewrite_ids_app, Ea. cbn. by rewrite Eb.
Qed.

(** [o] is the id that input [i] gets. *)
Definition renamed (next : jsrecord jsstring) (n1 n2 : nat) (i o : jsstring) : Prop :=
  rec_get i next = Some o \/ rec_get i next = None /\ minted n1 n2 o.

Lemma rewrite_ids_renamed ids next n ids' n' :
  rewrite_ids ids next n = (ids', n') -> (n <= n')%nat /\ Forall2 (renamed next n n') ids ids'.
Proof.
  induction ids as [|k ids IH] in n, ids', n' |- *; cbn; [intros [= <- <-]; split; [lia | constructor]|].
  destruct (rec_get k next) as [k'|] eqn:Ek.
  - destruct (rewrite_ids ids next n) as [r m] eqn:Er. intros [= <- <-].
    apply IH in Er as [Hle Hr]. split; [lia|]. constructor; [by left | done].
  - destruct (rewrite_ids ids next (S n)) as [r m] eqn:Er. intros [= <- <-].
    apply IH in Er as [Hle Hr]. split; [lia|]. constructor.
    + right. split; [done|]. exists n. split; [lia | done].
    + eapply Forall2_impl; [exact Hr|]. intros x y [?|[? (j & ? & ?)]]; [by left|].
      right. split; [done|]. exists j. split; [lia | done].
Qed.

Lemma renamed_not_next inputs n0 n1 n2 next o k :
  fresh n0 inputs -> next_ok inputs n0 n1 next -> (n0 <= n1)%nat -> (n2 <= limit)%nat ->
  rec_get k next = Some o -> ~ minted n1 n2 o.
Proof.
  intros Hf [Hv _] Hle Hlim Hk (j & Hj & ->). destruct (Hv _ _ Hk) as [Hin [[Heq _]|[(i & Hi & Heq) _]]].
  - apply (Hf j); [lia | congruence].
  - apply mint_injective in Heq; lia.
Qed.

Lemma rewrite_ids_nodup inputs n0 n1 ids next n ids' n' :
  fresh n0 inputs -> next_ok inputs n0 n1 next -> (n0 <= n1)%nat -> (n1 <= n)%nat ->
  rewrite_ids ids next n = (ids', n') -> (n' <= limit)%nat ->
  (forall k, is_Some (rec_get k next) -> (occurrences k ids <= 1)%nat) -> NoDup ids'.
Proof.
  intros Hf Hn Hle. induction ids as [|k ids IH] in n, ids', n' |- *; intros Hle' H Hlim Ho; cbn in H; [simplify_eq; constructor|].
  unfold occurrences in Ho. cbn in Ho.
  assert (Hrest : forall j, is_Some (rec_get j next) -> (occurrences j ids <= 1)%nat).
  { intros j Hj. specialize (Ho j Hj). unfold occurrences. destruct (id_dec k j); lia. }
  destruct (rec_get k next) as [k'|] eqn:Ek.
  - destruct (rewrite_ids ids next n) as [r m] eqn:Er. simplify_eq.
    constructor; [|by eapply IH]. intros Hin.
    apply rewrite_ids_renamed in Er as [_ Hr].
    apply list_elem_of_lookup in Hin as [x Hx].
    destruct (Forall2_lookup_r _ _ _ _ _ Hr Hx) as (i & Hi & [Hs|[_ Hm]]).
    + apply (nx_injective _ _ _ _ Hn _ _ _ Ek) in Hs as <-.
      apply list_elem_of_lookup_2, occurrences_pos in Hi. specialize (Ho k ltac:(rewrite Ek; by eexists)).
      unfold occurrences in Hi. destruct (id_dec k k); [lia | done].
    + eapply (renamed_not_next inputs n0 n1 n'); [done | done | done | done | exact Ek|].
      destruct Hm as (j & Hj & ->). exists j. split; [lia | done].
  - destruct (rewrite_ids ids next (S n)) as [r m] eqn:Er. simplify_eq.
    apply rewrite_ids_renamed in Er as Hren. destruct Hren as [Hmn Hr].
    constructor; [|eapply IH; [|done|done|done]; lia]. intros Hin.
    apply list_elem_of_lookup in Hin as [x Hx].
    destruct (Forall2_lookup_r _ _ _ _ _ Hr Hx) as (i & Hi & [Hs|[_ (j & Hj & Heq)]]).
    + eapply (renamed_not_next inputs n0 n1 (S n)); [done | done | done | | exact Hs|]; [lia|].
      exists n. split; [lia | done].
    + apply mint_injective in Heq; lia.
Qed.

Lemma renamed_valid inputs n0 n1 n2 next i o :
  next_ok inputs n0 n1 next -> renamed next n1 n2 i o -> isTerminalLeafId o = true.
Proof.
  intros [Hv _] [Hs|[_ (j & _ & ->)]]; [|apply mint_valid].
  destruct (Hv _ _ Hs) as [_ [[-> ?]|[(j & _ & ->) _]]]; [done | apply mint_valid].
Qed.

(** ** Records *)

Lemma remap_fold {T} (source : jsrecord T) rewrite acc k k' :
  NoDup (rec_keys source) ->
  (forall k1 k2 x, rec_get k1 (nextLeafIdByInputLeafId rewrite) = Some x ->
     rec_get k2 (nextLeafIdByInputLeafId rewrite) = Some x -> k1 = k2) ->
  rec_get k (nextLeafIdByInputLeafId rewrite) = Some k' -> k' <> [] ->
  k ∉ duplicatedInputLeafIds rewrite ->
  rec_get k' (fold_left (fun next '(leafId, value) =>
        if bool_decide (leafId ∈ duplicatedInputLeafIds rewrite) then next
        else match truthy (rec_get leafId (nextLeafIdByInputLeafId rewrite)) with
             | Some nextLeafId => rec_set nextLeafId value next
             | None => next
             end) source acc)
  = match rec_get k source with Some v => Some v | None => rec_get k' acc end.
Proof.
  intros Hnd Hi Hk Hne Hd. induction source as [|[j v] source IH] in acc, Hnd |- *; cbn [fold_left rec_get]; [done|].
  cbn in Hnd. apply NoDup_cons in Hnd as [Hj Hnd]. rewrite IH by done. case_decide as Hjk.
  - subst j. apply rec_get_None in Hj. rewrite Hj, bool_decide_eq_false_2, Hk by done.
    destruct k' as [|c k']; [done|]. cbn [truthy]. apply rec_get_set_eq.
  - destruct (rec_get k source); [done|]. case_bool_decide; [done|].
    destruct (truthy _) as [x|] eqn:Ex; [|done]. apply rec_get_set_ne. intros ->.
    apply Hjk. eapply Hi; [|done]. by destruct (rec_get j _) as [[|]|].
Qed.

Lemma remap_entry {T} (source : option (jsrecord T)) rewrite k k' :
  NoDup (rec_keys (default [] source)) ->
  (forall k1 k2 x, rec_get k1 (nextLeafIdByInputLeafId rewrite) = Some x ->
     rec_get k2 (nextLeafIdByInputLeafId rewrite) = Some x -> k1 = k2) ->
  rec_get k (nextLeafIdByInputLeafId rewrite) = Some k' -> k' <> [] ->
  k ∉ duplicatedInputLeafIds rewrite ->
  entry (remapLeafRecord source rewrite) k' = entry source k.
Proof.
  intros Hnd Hi Hk Hne Hd. destruct source as [source|]; [|done]. cbn [default] in Hnd.
  unfold entry, remapLeafRecord. pose proof (remap_fold source rewrite [] k k' Hnd Hi Hk Hne Hd) as E.
  set (f := fold_left _ source []) in *. cbn [default].
  assert (Hf : default [] (match f with [] => None | _ => Some f end) = f) by by destruct f.
  rewrite Hf, E. cbn. by destruct (rec_get k source).
Qed.

(** ** Normalisation *)

Lemma leaf_counts_elem root k c :
  (k, c) ∈ collectLeafCounts root [] <-> k ∈ leaves root /\ c = Z.of_nat (occurrences k (leaves root)).
Proof.
  split.
  - intros H%rec_elem_get; [|apply leaf_counts_nodup]. rewrite leaf_counts in H.
    case_decide; [|done]. by injection H as <-.
  - intros [Hk ->]. apply rec_get_elem. rewrite leaf_counts. by rewrite decide_True.
Qed.

Lemma duplicated_spec root k :
  k ∈ rec_keys (List.filter (fun e => 1 <? snd e) (collectLeafCounts root []))
  <-> (1 < occurrences k (leaves root))%nat.
Proof.
  unfold rec_keys. rewrite list_elem_of_fmap. split.
  - intros ([j c] & -> & Hin%list_elem_of_In). apply filter_In in Hin as [Hin Hc].
    apply list_elem_of_In, leaf_counts_elem in Hin as [_ ->]. cbn in *. lia.
  - intros Ho. exists (k, Z.of_nat (occurrences k (leaves root))). split; [done|].
    apply list_elem_of_In, filter_In. split; [|cbn; lia].
    apply list_elem_of_In, leaf_counts_elem. split; [apply occurrences_pos; lia | done].
Qed.

(** The renaming that normalisation computes. *)
Lemma leaf_rewrite root n next changed n1 :
  fresh n (leaves root) ->
  next_leaf_ids mint (collectLeafCounts root []) [] false n = (next, changed, n1) ->
  (n1 <= limit)%nat ->
  (n <= n1)%nat /\ next_ok (leaves root) n n1 next
  /\ (forall k, is_Some (rec_get k next) <-> occurrences k (leaves root) = 1%nat)
  /\ (changed = false <-> NoDup (leaves root) /\ Forall (fun id => isTerminalLeafId id = true) (leaves root))
  /\ (changed = false -> n1 = n).
Proof.
  intros Hf H Hlim. pose proof (next_leaf_ids_changed _ _ _ _ _ _ _ H) as (Hle & Hn & Hc).
  split_and!; [done | | | | done].
  - eapply next_leaf_ids_ok; [done | exact H | done | done | | apply leaf_counts_nodup |].
    + split; cbn; intros; done.
    + intros k Hk. by apply leaf_counts_keys in Hk.
  - intros k. rewrite (next_leaf_ids_dom _ _ _ _ _ _ _ k H), leaf_counts_elem. cbn [rec_get].
    split; [intros [[? ?]|[Hk ?]]; [done | lia]|]. intros Ho. right. split; [|lia].
    apply occurrences_pos. lia.
  - rewrite Hc, nodup_occurrences, !Forall_forall. clear Hc. split.
    + intros [_ Hall]. split; intros k Hk;
        destruct (Hall (k, Z.of_nat (occurrences k (leaves root)))) as [? ?]; cbn in *; try done;
        try lia; by apply leaf_counts_elem.
    + intros [Ho Hv]. split; [done|]. intros [k c] [Hk ->]%leaf_counts_elem. cbn.
      rewrite Ho by done. auto.
Qed.

(** What becomes of the leaf [i] of a layout with leaves [ids]. *)
Definition leaf_renamed (ids : list jsstring) (n n' : nat) (i o : jsstring) : Prop :=
  if decide (occurrences i ids = 1%nat /\ isTerminalLeafId i = true) then o = i else minted n n' o.

Lemma renamed_spec ids n n1 n2 next i o :
  next_ok ids n n1 next -> (n <= n1)%nat -> (n1 <= n2)%nat ->
  (forall k, is_Some (rec_get k next) <-> occurrences k ids = 1%nat) ->
  renamed next n1 n2 i o -> leaf_renamed ids n n2 i o.
Proof.
  intros Hok Hle Hle2 Hd [Hs|[Hnone (j & Hj & ->)]]; unfold leaf_renamed.
  - pose proof (proj1 (Hd i) ltac:(by eexists)) as Ho.
    destruct (nx_values _ _ _ _ Hok _ _ Hs) as [_ [[-> Hv]|[Hm Hv]]].
    + by rewrite decide_True.
    + rewrite decide_False by (intros [_ ?]; congruence). eapply minted_mono; [|done]. done.
  - rewrite decide_False; [exists j; split; [lia | done]|].
    intros [Ho _]. apply Hd in Ho as [? ?]. congruence.
Qed.

(** The whole of what normalising a layout with panes does. *)
Record normalized (s : TerminalLayoutSnapshot) (root : TerminalPaneLayoutNode) (n : nat)
    (s' : TerminalLayoutSnapshot) (root' : TerminalPaneLayoutNode) (n' : nat) : Prop := {
  nz_root : tl_root s' = Some root';
  nz_shape : same_shape root root';
  nz_ok : layout_ok s';
  nz_leaves : Forall2 (leaf_renamed (leaves root) n n') (leaves root) (leaves root');
  nz_entries : records_ok s -> forall i k k', leaves root !! i = Some k -> leaves root' !! i = Some k' ->
    occurrences k (leaves root) = 1%nat -> same_entries s k s' k'
}.

Lemma same_entries_remap s s' root next n n1 k k' :
  next_ok (leaves root) n n1 next -> records_ok s -> rec_get k next = Some k' ->
  k ∉ rec_keys (List.filter (fun e => 1 <? snd e) (collectLeafCounts root [])) ->
  let rewrite := mkRewrite next (rec_keys (List.filter (fun e => 1 <? snd e) (collectLeafCounts root []))) in
  tl_ptyIdsByLeafId s' = remapLeafRecord (tl_ptyIdsByLeafId s) rewrite ->
  tl_buffersByLeafId s' = remapLeafRecord (tl_buffersByLeafId s) rewrite ->
  tl_scrollbackRefsByLeafId s' = remapLeafRecord (tl_scrollbackRefsByLeafId s) rewrite ->
  tl_scrollbackGridsByLeafId s' = remapLeafRecord (tl_scrollbackGridsByLeafId s) rewrite ->
  tl_titlesByLeafId s' = remapLeafRecord (tl_titlesByLeafId s) rewrite ->
  same_entries s k s' k'.
Proof.
  intros Hok (R1 & R2 & R3 & R4 & R5) Hs Hd rewrite E1 E2 E3 E4 E5. unfold same_entries.
  rewrite E1, E2, E3, E4, E5. clear E1 E2 E3 E4 E5.
  assert (Hne : k' <> []).
  { destruct (nx_values _ _ _ _ Hok _ _ Hs) as [_ [[-> Hv]|[(j & _ & ->) _]]]; apply leaf_id_nonempty;
      [done | apply mint_valid]. }
  pose proof (nx_injective _ _ _ _ Hok) as Hi.
  split_and!; by apply remap_entry.
Qed.

Lemma normalize_rooted_counter s root n s' changed n' :
  normalize_rooted mint s root n = (s', changed, n') ->
  forall next ch n1, next_leaf_ids mint (collectLeafCounts root []) [] false n = (next, ch, n1) ->
  (n1 <= n')%nat.
Proof.
  unfold normalize_rooted. cbv zeta. intros H next ch n1 En. rewrite En in H.
  destruct (negb ch && _); [by simplify_eq|].
  destruct ch; [|by simplify_eq].
  destruct (cloneLayoutWithLeafRewrite mint root _ n1) as [root' n2] eqn:Ec. simplify_eq.
  apply clone_leaves in Ec as [Ec _]. by apply rewrite_ids_renamed in Ec as [? _].
Qed.

Lemma normalize_rooted_spec s root n s' changed n' :
  tl_root s = Some root -> fresh n (leaves root) ->
  normalize_rooted mint s root n = (s', changed, n') -> (n' <= limit)%nat ->
  exists root', normalized s root n s' root' n'.
Proof.
  intros Hroot Hf H Hlim. pose proof (normalize_rooted_counter _ _ _ _ _ _ H) as Hn1'. revert H.
  unfold normalize_rooted. cbv zeta.
  destruct (next_leaf_ids mint (collectLeafCounts root []) [] false n) as [[next ch] n1] eqn:En.
  specialize (Hn1' _ _ _ eq_refl).
  destruct (leaf_rewrite _ _ _ _ _ Hf En ltac:(lia)) as (Hle & Hok & Hd & Hch & Hn1).
  set (dup := rec_keys (List.filter (fun e => 1 <? snd e) (collectLeafCounts root []))). set (act := resolveTerminalLayoutActiveLeafId _ _ _).
  set (exp := match truthy (tl_expandedLeafId s) with Some _ => _ | None => _ end).
  assert (Hkept : ch = false -> forall k, k ∈ leaves root -> rec_get k next = Some k).
  { intros Hc k Hk. apply Hch in Hc as [Hnd Hv]. rewrite Forall_forall in Hv.
    rewrite nodup_occurrences in Hnd. destruct (proj2 (Hd k) (Hnd k Hk)) as [k' Hk'].
    destruct (nx_values _ _ _ _ Hok _ _ Hk') as [_ [[-> _]|[_ ?]]]; [done|]. by rewrite Hv in H. }
  destruct (negb ch && negb _) eqn:Eu.
  { intros [= <- <- <-]. bool_prop. subst ch. specialize (Hkept eq_refl).
    pose proof (proj1 Hch eq_refl) as [Hnd Hv].
    exists root. split; [done | apply same_shape_refl | | |].
    - unfold layout_ok. rewrite Hroot. split_and!; [done | done | by symmetry|].
      intros e He. assert (Hx : exp = Some e) by congruence. unfold exp in Hx.
      destruct (truthy _); [|done]. case_bool_decide as Hin; [|done]. simplify_eq.
      by apply leaf_counts_keys in Hin.
    - apply Forall2_same_length_lookup_2; [done|]. intros i x y Hx Hy. simplify_eq.
      apply list_elem_of_lookup_2 in Hx. unfold leaf_renamed.
      rewrite decide_True; [done|]. rewrite nodup_occurrences in Hnd. rewrite Forall_forall in Hv. auto.
    - intros _ i k k' Hk Hk' _. simplify_eq. done. }
  clear Eu. set (rw := mkRewrite next dup).
  destruct (if ch then cloneLayoutWithLeafRewrite mint root rw n1 else (root, n1)) as [root' n2] eqn:Ec.
  intros [= <- <- <-]. exists root'.
  assert (Hc : rewrite_ids (leaves root) next n1 = (leaves root', n2) /\ same_shape root root').
  { destruct ch; [by apply clone_leaves in Ec|]. injection Ec as <- <-. split; [|apply same_shape_refl].
    specialize (Hkept eq_refl). clear -Hkept. induction (leaves root) as [|k l IH]; cbn; [done|].
    rewrite Hkept by set_solver. rewrite IH; [done|]. intros j Hj. apply Hkept. set_solver. }
  destruct Hc as [Hc Hshape].
  pose proof (rewrite_ids_renamed _ _ _ _ _ Hc) as [Hle2 Hren].
  assert (Hdup : forall k, occurrences k (leaves root) = 1%nat -> k ∉ dup).
  { intros k Ho Hin%duplicated_spec. lia. }
  split; cbn; [done | done | | |].
  - unfold layout_ok. cbn. split_and!.
    + eapply rewrite_ids_nodup; [exact Hf | exact Hok | done | | exact Hc | done |]; [done|].
      intros k Hk. apply Hd in Hk. lia.
    + apply Forall_forall. intros o Ho. apply list_elem_of_lookup in Ho as [x Hx].
      destruct (Forall2_lookup_r _ _ _ _ _ Hren Hx) as (i & _ & Hr). by eapply renamed_valid.
    + by rewrite resolve_idem.
    + intros e He. unfold getRemappedLeafId in He. destruct (truthy exp) as [x|] eqn:Ex; [|done].
      case_bool_decide; [done|]. cbn in He.
      assert (Hx : x ∈ leaves root).
      { unfold exp in Ex. destruct (truthy (tl_expandedLeafId s)) as [y|]; [|done].
        case_bool_decide as Hin; [|done]. apply leaf_counts_keys in Hin. by destruct y; simplify_eq/=. }
      apply list_elem_of_lookup in Hx as [p Hp].
      destruct (Forall2_lookup_l _ _ _ _ _ Hren Hp) as (o & Ho & [Hs|[Hs _]]); [|congruence].
      assert (o = e) by congruence. subst. by eapply list_elem_of_lookup_2.
  - eapply Forall2_impl; [exact Hren|]. intros i o Hr. by eapply renamed_spec.
  - intros Hrec i k k' Hk Hk' Ho.
    destruct (Forall2_lookup_lr _ _ _ _ _ _ Hren Hk Hk') as [Hs|[Hs _]].
    + by eapply same_entries_remap; [exact Hok | done | exact Hs | apply Hdup |..].
    + apply Hd in Ho as [? ?]. congruence.
Qed.

Lemma normalize_fixpoint s n : layout_ok s -> normalizeTerminalLayoutSnapshot mint (Some s) n = (s, false, n).
Proof.
  unfold layout_ok, normalizeTerminalLayoutSnapshot. destruct (tl_root s) as [root|] eqn:Er.
  - intros (Hnd & Hv & Ha & He). unfold normalize_rooted.
    destruct (next_leaf_ids mint (collectLeafCounts root []) [] false n) as [[next ch] n1] eqn:En.
    destruct (next_leaf_ids_changed _ _ _ _ _ _ _ En) as (_ & Hn1 & Hch).
    assert (ch = false) as ->.
    { apply Hch. split; [done|]. apply Forall_forall. intros [k c] [Hk ->]%leaf_counts_elem. cbn.
      rewrite nodup_occurrences in Hnd. rewrite Hnd by done. rewrite Forall_forall in Hv. auto. }
    rewrite Hn1 by done. rewrite <- Ha, bool_decide_eq_true_2 by done.
    assert (Hexp : match truthy (tl_expandedLeafId s) with
              | Some expanded => if bool_decide (expanded ∈ rec_keys (collectLeafCounts root [])) then Some expanded else None
              | None => None end = tl_expandedLeafId s).
    { destruct (tl_expandedLeafId s) as [e|]; [|done]. pose proof (He e eq_refl) as Hin.
      rewrite Forall_forall in Hv. pose proof (leaf_id_nonempty e (Hv e Hin)).
      destruct e as [|c e]; [done|]. cbn [truthy]. rewrite bool_decide_eq_true_2; [done|].
      by apply leaf_counts_keys. }
    rewrite Hexp, bool_decide_eq_true_2; done.
  - intros Ha. unfold normalize_rootless. rewrite <- Ha, bool_decide_eq_true_2 by done.
    by destruct s.
Qed.
End renaming.

Lemma normalize_spec mint limit `{!Minting mint limit} snapshot n s' changed n' :
  (forall s root, snapshot = Some s -> tl_root s = Some root -> fresh mint limit n (leaves root)) ->
  normalizeTerminalLayoutSnapshot mint snapshot n = (s', changed, n') -> (n' <= limit)%nat ->
  layout_ok s' /\ forall s root, snapshot = Some s -> tl_root s = Some root ->
    exists root', normalized mint s root n s' root' n'.
Proof.
  intros Hf H Hlim. destruct snapshot as [s|]; cbn in H; [destruct (tl_root s) as [root|] eqn:Er|].
  - destruct (normalize_rooted_spec mint limit s root n s' changed n') as [root' Hn]; try done; [by eapply Hf|].
    split; [by apply (nz_ok _ _ _ _ _ _ _ Hn)|]. intros ? ? [= <-] ?. simplify_eq. by exists root'.
  - unfold normalize_rootless in H. injection H as <- _ _. split; [|intros ? ? [= <-] ?; congruence].
    unfold layout_ok. cbn. rewrite Er. symmetry. by apply rootless_idem.
  - injection H as <- _ _. by split.
Qed.

(** C37. Normalising a layout gives a well-formed layout, which normalising again leaves
    alone: its leaves are distinct UUIDs, its active leaf is one of them, bound when any is,
    and its expanded leaf is one of them or none.  The tree, the directions and the ratios
    are kept; a leaf with a UUID of its own keeps it, any other gets an id minted in this
    run; and what the records hold for a leaf that occurs once goes to the id it gets. *)
Theorem normalized_layout mint limit `{!Minting mint limit} snapshot n s' changed n' :
  (forall s root, snapshot = Some s -> tl_root s = Some root -> fresh mint limit n (leaves root)) ->
  normalizeTerminalLayoutSnapshot mint snapshot n = (s', changed, n') -> (n' <= limit)%nat ->
  layout_ok s'
  /\ (forall m, normalizeTerminalLayoutSnapshot mint (Some s') m = (s', false, m))
  /\ (forall s root, snapshot = Some s -> tl_root s = Some root ->
        exists root', normalized mint s root n s' root' n').
Proof.
  intros Hf H Hlim. destruct (normalize_spec mint limit snapshot n s' changed n') as [Hok Hn]; [done..|]. split_and!; [done | intros m; by apply normalize_fixpoint | done].
Qed.

(** ** Detaching *)

Definition others (leafId : jsstring) (ids : list jsstring) : list jsstring :=
  List.filter (fun id => negb (bool_decide (id = leafId))) ids.

Lemma elem_others leafId ids x : x ∈ others leafId ids <-> x ∈ ids /\ x <> leafId.
Proof.
  unfold others. rewrite !list_elem_of_In, filter_In. case_bool_decide; cbn; naive_solver.
Qed.

Lemma others_none leafId ids : leafId ∉ ids -> others leafId ids = ids.
Proof.
  unfold others. induction ids as [|x ids IH]; cbn; [done|]. intros [? ?]%not_elem_of_cons.
  rewrite bool_decide_eq_false_2 by congruence. cbn. by rewrite IH.
Qed.

Lemma others_nodup leafId ids : NoDup ids -> NoDup (others leafId ids).
Proof. rewrite !NoDup_ListNoDup. apply List.NoDup_filter. Qed.

Lemma others_app leafId a b : others leafId (a ++ b) = others leafId a ++ others leafId b.
Proof. apply List.filter_app. Qed.

Lemma remove_leaf node leafId node' removed :
  removeLeafFromTree node leafId = (node', removed) ->
  collectLeafIdsInOrder node' = others leafId (leaves node)
  /\ removed = bool_decide (leafId ∈ leaves node) /\ (removed = false -> node' = Some node).
Proof.
  induction node as [id|d a IHa b IHb r] in node', removed |- *; cbn [leaves removeLeafFromTree].
  - unfold others. cbn. case_bool_decide; intros [= <- <-]; cbn.
    + subst. rewrite bool_decide_eq_true_2 by set_solver. done.
    + rewrite bool_decide_eq_false_2 by set_solver. done.
  - destruct (removeLeafFromTree a leafId) as [a' ra]. destruct (removeLeafFromTree b leafId) as [b' rb].
    destruct (IHa _ _ eq_refl) as (Ha & Hra & Hfa). destruct (IHb _ _ eq_refl) as (Hb & Hrb & Hfb).
    rewrite others_app, <- Ha, <- Hb.
    assert (Hr : bool_decide (leafId ∈ leaves a ++ leaves b) = ra || rb).
    { subst ra rb. repeat case_bool_decide; set_solver. }
    rewrite Hr. clear Hr Hra Hrb IHa IHb Ha Hb.
    destruct ra, rb; cbn [negb andb orb]; try rewrite Hfa by done; try rewrite Hfb by done;
      intros Hx; [destruct a', b' | destruct a' | destruct b' |]; simplify_eq;
      cbn [collectLeafIdsInOrder leaves app]; rewrite ?app_nil_r; split_and!; done.
Qed.

Lemma omit_entry {T} (source : option (jsrecord T)) leafId id :
  entry (omitLeafRecord source leafId) id = if decide (leafId = id) then None else entry source id.
Proof.
  unfold entry, omitLeafRecord. destruct source as [r|]; [|by case_decide].
  destruct (rec_has leafId r) eqn:E; cbn [negb default].
  - change (Datatypes.id r) with r. rewrite <- (rec_get_delete leafId id r).
    by destruct (rec_delete leafId r).
  - cbn. case_decide; [|done]. subst. unfold rec_has in E. by destruct (rec_get id r).
Qed.

Definition if_truthy {T} (p : T -> bool) (o : option T) : option T :=
  match o with
  | Some v => if p v then Some v else None
  | None => None
  end.

Lemma single_entry {T} p (source : option (jsrecord T)) leafId id :
  entry (singleLeafRecord p source leafId) id
  = if decide (leafId = id) then if_truthy p (entry source leafId) else None.
Proof.
  unfold singleLeafRecord, entry. destruct (rec_get leafId (default [] source)) as [v|]; cbn; [|by case_decide].
  destruct (p v); cbn; by case_decide.
Qed.

Lemma omit_binding ptys leafId id : id <> leafId ->
  hasLeafPtyBinding (omitLeafRecord ptys leafId) id = hasLeafPtyBinding ptys id.
Proof.
  intros Hn. pose proof (omit_entry ptys leafId id) as E. rewrite decide_False in E by congruence.
  unfold entry, hasLeafPtyBinding, rec_has in *. destruct (omitLeafRecord ptys leafId), ptys; cbn in *; by rewrite ?E, <- ?E.
Qed.

(** The active leaf of a well-formed layout is bound when any leaf is. *)
Lemma resolved_bound root a ptys :
  resolveTerminalLayoutActiveLeafId (Some root) (Some a) ptys = Some a ->
  a ∈ leaves root /\
  (hasLeafPtyBinding ptys a = true \/ forall x, x ∈ leaves root -> hasLeafPtyBinding ptys x = false).
Proof.
  intros H. destruct (resolve_active_elem root (Some a) ptys) as (a' & Ha & Hin).
  assert (a' = a) as -> by congruence. split; [done|]. clear Ha. revert H.
  unfold resolveTerminalLayoutActiveLeafId. cbn [collectLeafIdsInOrder].
  destruct (leaves root) as [|x l] eqn:El; [done|].
  destruct (existsb (hasLeafPtyBinding ptys) (x :: l)) eqn:Eb.
  - intros H. left. destruct (_ && _) eqn:E.
    + by apply andb_true_iff in E as [_ E].
    + by apply find_some in H as [_ ?].
  - intros _. right. intros y Hy. destruct (hasLeafPtyBinding ptys y) eqn:Ey; [|done].
    assert (existsb (hasLeafPtyBinding ptys) (x :: l) = true); [|congruence].
    apply existsb_exists. exists y. split; [by apply list_elem_of_In | done].
Qed.

Lemma resolve_keeps root a ptys :
  a ∈ leaves root -> a <> [] ->
  hasLeafPtyBinding ptys a = true \/ (forall x, x ∈ leaves root -> hasLeafPtyBinding ptys x = false) ->
  resolveTerminalLayoutActiveLeafId (Some root) (Some a) ptys = Some a.
Proof.
  intros Hin Hne Hb. unfold resolveTerminalLayoutActiveLeafId. cbn [collectLeafIdsInOrder].
  destruct (leaves root) as [|x l] eqn:El; [set_solver|].
  assert (Ht : truthy (Some a) = Some a) by by destruct a. rewrite Ht.
  rewrite bool_decide_eq_true_2 by done. cbn [andb].
  destruct Hb as [->|Hb]; [by rewrite orb_true_r|].
  assert (existsb (hasLeafPtyBinding ptys) (x :: l) = false) as ->; [|done].
  apply not_true_iff_false. intros (y & Hy & Hy')%existsb_exists.
  apply list_elem_of_In in Hy. by rewrite Hb in Hy'.
Qed.

(** No record of the layout has an entry for [id]. *)
Definition no_entries (s : TerminalLayoutSnapshot) (id : jsstring) : Prop :=
  entry (tl_ptyIdsByLeafId s) id = None /\ entry (tl_buffersByLeafId s) id = None
  /\ entry (tl_scrollbackRefsByLeafId s) id = None /\ entry (tl_scrollbackGridsByLeafId s) id = None
  /\ entry (tl_titlesByLeafId s) id = None.

Lemma without_leaf_entries layout node leafId :
  (forall id, id <> leafId -> same_entries layout id (without_leaf layout node leafId) id)
  /\ no_entries (without_leaf layout node leafId) leafId.
Proof.
  split; [intros id Hne|]; unfold same_entries, no_entries, without_leaf;
    cbn -[entry omitLeafRecord]; rewrite !omit_entry.
  - by rewrite !(decide_False (P := leafId = id)) by congruence.
  - by rewrite !decide_True by done.
Qed.

Lemma only_leaf_entries layout leafId :
  (forall id, id <> leafId -> no_entries (only_leaf layout leafId) id)
  /\ entry (tl_ptyIdsByLeafId (only_leaf layout leafId)) leafId
     = if_truthy nonempty (entry (tl_ptyIdsByLeafId layout) leafId)
  /\ entry (tl_buffersByLeafId (only_leaf layout leafId)) leafId
     = if_truthy nonempty (entry (tl_buffersByLeafId layout) leafId)
  /\ entry (tl_scrollbackRefsByLeafId (only_leaf layout leafId)) leafId
     = if_truthy nonempty (entry (tl_scrollbackRefsByLeafId layout) leafId)
  /\ entry (tl_scrollbackGridsByLeafId (only_leaf layout leafId)) leafId
     = entry (tl_scrollbackGridsByLeafId layout) leafId
  /\ entry (tl_titlesByLeafId (only_leaf layout leafId)) leafId
     = if_truthy nonempty (entry (tl_titlesByLeafId layout) leafId).
Proof.
  split.
  - intros id Hne. unfold no_entries, only_leaf. cbn -[entry singleLeafRecord]. rewrite !single_entry.
    by rewrite !(decide_False (P := leafId = id)) by congruence.
  - unfold only_leaf. cbn -[entry singleLeafRecord]. rewrite !single_entry, !decide_True by done. split_and!; try done.
    unfold if_truthy. by destruct (entry _ _).
Qed.

(** What is left of a well-formed layout is well formed, with the focus where it was. *)
Lemma without_leaf_ok layout root node leafId :
  layout_ok layout -> tl_root layout = Some root -> leaves node = others leafId (leaves root) ->
  layout_ok (without_leaf layout node leafId)
  /\ (tl_activeLeafId layout <> Some leafId -> tl_activeLeafId (without_leaf layout node leafId) = tl_activeLeafId layout).
Proof.
  unfold layout_ok. intros H Hr Hn. rewrite Hr in H. destruct H as (Hnd & Hv & Ha & He). split.
  - cbn [without_leaf tl_root tl_activeLeafId tl_expandedLeafId tl_ptyIdsByLeafId]. rewrite Hn. split_and!.
    + by apply others_nodup.
    + rewrite Forall_forall in *. intros x [Hx _]%elem_others. auto.
    + by rewrite resolve_idem.
    + intros e. case_bool_decide as Hx; [done|]. intros Heq. apply elem_others.
      split; [by apply He | congruence].
  - intros Hne. cbn [without_leaf tl_activeLeafId]. rewrite bool_decide_eq_false_2 by done.
    destruct (resolve_active_elem root (tl_activeLeafId layout) (tl_ptyIdsByLeafId layout)) as (a & Ha' & _).
    rewrite <- Ha in Ha'. rewrite Ha' in Ha, Hne |- *.
    symmetry in Ha. apply resolved_bound in Ha as [Hin Hb].
    rewrite Forall_forall in Hv. apply resolve_keeps.
    + rewrite Hn. apply elem_others. split; [done | congruence].
    + by apply leaf_id_nonempty, Hv.
    + rewrite omit_binding by congruence. destruct Hb as [Hb|Hb]; [by left | right].
      intros x Hx. rewrite Hn in Hx. apply elem_others in Hx as [Hx ?]. rewrite omit_binding by done. auto.
Qed.

Lemma only_leaf_ok layout leafId : isTerminalLeafId leafId = true -> layout_ok (only_leaf layout leafId).
Proof.
  intros Hv. unfold layout_ok, only_leaf. cbn [tl_root tl_activeLeafId tl_expandedLeafId tl_ptyIdsByLeafId leaves].
  split_and!; [apply NoDup_singleton | by repeat constructor | | done].
  symmetry. apply resolve_keeps; [set_solver | by apply leaf_id_nonempty |].
  destruct (hasLeafPtyBinding _ leafId) eqn:E; [by left | right]. by intros x ->%list_elem_of_singleton.
Qed.

(** Detaching a leaf splits a layout in two: it is refused only for a leaf the layout
    does not have or for its last one; otherwise what is left has the other leaves in their
    order, and the leaf is alone in a layout of its own; both are well formed, every record
    entry is on the side of its leaf and on no other (an empty string is dropped), the
    binding of the leaf is what is handed over, and the active leaf stays active unless it
    is the one detached. *)
Theorem detached_layouts mint limit `{!Minting mint limit} snapshot n layout changed n' leafId :
  (forall s root, snapshot = Some s -> tl_root s = Some root -> fresh mint limit n (leaves root)) ->
  normalizeTerminalLayoutSnapshot mint snapshot n = (layout, changed, n') -> (n' <= limit)%nat ->
  match detachTerminalLayoutLeaf mint snapshot leafId n with
  | None => forall root, tl_root layout = Some root -> leafId ∈ leaves root -> leaves root = [leafId]
  | Some (mkDetached source detached ptyId) =>
      exists root rest,
        tl_root layout = Some root /\ tl_root source = Some rest /\ tl_root detached = Some (leaf leafId)
        /\ leafId ∈ leaves root /\ leaves rest = others leafId (leaves root)
        /\ layout_ok source /\ layout_ok detached
        /\ (forall id, id <> leafId -> same_entries layout id source id /\ no_entries detached id)
        /\ no_entries source leafId
        /\ ptyId = if_truthy nonempty (entry (tl_ptyIdsByLeafId layout) leafId)
        /\ entry (tl_ptyIdsByLeafId detached) leafId = ptyId
        /\ entry (tl_scrollbackGridsByLeafId detached) leafId = entry (tl_scrollbackGridsByLeafId layout) leafId
        /\ (tl_activeLeafId layout <> Some leafId -> tl_activeLeafId source = tl_activeLeafId layout)
  end.
Proof.
  intros Hf H Hlim.
  destruct (normalize_spec mint limit snapshot n layout changed n') as [Hok _]; [done..|].
  unfold detachTerminalLayoutLeaf. rewrite H. destruct (tl_root layout) as [root|] eqn:Er; [|done].
  cbn [collectLeafIdsInOrder].
  pose proof Hok as Hok'. unfold layout_ok in Hok'. rewrite Er in Hok'. destruct Hok' as (Hnd & Hv & _ & _).
  destruct (negb (bool_decide _) || _) eqn:E.
  { intros ? [= <-] Hin. apply orb_true_iff in E as [E|E]; bool_prop; [done|].
    apply Nat.leb_le in E. destruct (leaves root) as [|x [|y l]]; cbn in E; [set_solver | set_solver | lia]. }
  bool_prop. apply Nat.leb_gt in H1.
  destruct (removeLeafFromTree root leafId) as [node removed] eqn:Erm.
  apply remove_leaf in Erm as (Hl & Hrm & _). rewrite bool_decide_eq_true_2 in Hrm by done. subst removed.
  destruct node as [node|].
  - cbn [collectLeafIdsInOrder] in Hl. rewrite Forall_forall in Hv.
    destruct (without_leaf_ok layout root node leafId) as [Hs Hact]; [done..|].
    destruct (without_leaf_entries layout node leafId) as [Hse Hsn].
    destruct (only_leaf_entries layout leafId) as (Hoe & Hop & _ & _ & Hog & _).
    exists root, node. split_and!; try done; [by apply only_leaf_ok, Hv | intros id Hid; split; auto].
  - exfalso. cbn in Hl. assert (Hall : forall x, x ∈ leaves root -> x = leafId).
    { intros x Hx. destruct (decide (x = leafId)) as [|Hne]; [done|]. exfalso.
      assert (Hin : x ∈ others leafId (leaves root)) by by apply elem_others.
      rewrite <- Hl in Hin. set_solver. }
    destruct (leaves root) as [|x [|y l]]; cbn in H1; [lia | lia|].
    apply NoDup_cons in Hnd as [Hx _]. apply Hx.
    rewrite (Hall x), (Hall y) by set_solver. set_solver.
Qed.

(** ** Captured state *)

(** A capture replaces what was kept for the panes it captured, keeps what was known of the
    other panes that are still there, and forgets the panes that are not. *)
Lemma captured_entry {T} (prior : option (jsrecord T)) fresh current id :
  NoDup (rec_keys (default [] prior)) -> NoDup (rec_keys fresh) ->
  rec_get id (mergeCapturedLeafState prior fresh current)
  = if decide (id ∈ current)
    then match rec_get id fresh with Some v => Some v | None => entry prior id end else None.
Proof.
  assert (Hkeep : forall (source acc : jsrecord T), NoDup (rec_keys source) ->
    rec_get id (fold_left (fun merged '(leafId, value) =>
      if bool_decide (leafId ∈ current) then rec_set leafId value merged else merged) source acc)
    = if decide (id ∈ current)
      then match rec_get id source with Some v => Some v | None => rec_get id acc end else rec_get id acc).
  { induction source as [|[j v] source IH]; intros acc Hnd; cbn [fold_left rec_get]; [by case_decide|].
    cbn in Hnd. apply NoDup_cons in Hnd as [Hj Hnd]. rewrite IH by done.
    destruct (decide (j = id)) as [->|Hne].
    - apply rec_get_None in Hj. rewrite Hj. case_decide; case_bool_decide; try done. apply rec_get_set_eq.
    - destruct (decide (id ∈ current)); [destruct (rec_get id source); [done|]|];
        case_bool_decide; try done; by apply rec_get_set_ne. }
  intros Hp Hf. unfold mergeCapturedLeafState, entry. rewrite !Hkeep by done. cbn [rec_get].
  repeat case_decide; try done. destruct (rec_get id fresh); [done|]. by destruct (rec_get id _).
Qed.

(** ** Witnesses *)

(** Three ids minted without [crypto.randomUUID]: every random byte is 1, 2 or 3. *)
Definition sample_mint (n : nat) : jsstring :=
  mintStablePaneId None (replicate 16 (1 + Z.of_nat (n mod 3))).

#[export] Instance sample_minting : Minting sample_mint 3.
Proof.
  split.
  - intros n. unfold sample_mint. apply minted_id_valid; [done | by rewrite length_replicate|].
    pose proof (Nat.mod_upper_bound n 3 ltac:(lia)). apply Forall_replicate. unfold is_byte. lia.
  - intros i j Hi Hj H. destruct i as [|[|[|i]]]; destruct j as [|[|[|j]]]; try lia; try done;
      by vm_compute in H.
Qed.

Definition sample_id : jsstring := js "0a1b2c3d-0000-4000-8000-00000000000f".

(** A pane with a UUID beside two panes of the same old name. *)
Definition sample_layout : TerminalLayoutSnapshot :=
  mkLayout (Some (split horizontal (leaf sample_id)
                    (split vertical (leaf (js "pane:1")) (leaf (js "pane:1")) None) None))
    (Some (js "pane:1")) (Some sample_id)
    (Some [(sample_id, js "pty-1"); (js "pane:1", js "pty-2")]) None None None
    (Some [(sample_id, js "shell")]).

Lemma sample_fresh : forall s root, Some sample_layout = Some s -> tl_root s = Some root ->
  fresh sample_mint 3 0 (leaves root).
Proof.
  intros s root [= <-] [= <-] j Hj. destruct j as [|[|[|j]]]; [| | |lia];
    by apply (bool_decide_eq_false _); vm_compute.
Qed.

Definition sample_normal : TerminalLayoutSnapshot :=
  fst (fst (normalizeTerminalLayoutSnapshot sample_mint (Some sample_layout) 0)).

Lemma sample_normalizes :
  normalizeTerminalLayoutSnapshot sample_mint (Some sample_layout) 0 = (sample_normal, true, 2%nat).
Proof. by vm_compute. Qed.

Lemma normalized_layout_witness :
  normalizeTerminalLayoutSnapshot sample_mint (Some sample_layout) 0 = (sample_normal, true, 2%nat)
  /\ tl_activeLeafId sample_normal = Some sample_id /\ layout_ok sample_normal.
Proof.
  split_and!; [exact sample_normalizes | by vm_compute |].
  apply (normalized_layout sample_mint 3 _ _ _ _ _ sample_fresh sample_normalizes). lia.
Defined.

Lemma detached_layouts_witness :
  match detachTerminalLayoutLeaf sample_mint (Some sample_layout) sample_id 0 with
  | Some (mkDetached source detached ptyId) =>
      ptyId = Some (js "pty-1") /\ layout_ok source /\ layout_ok detached
  | None => False
  end.
Proof.
  pose proof (detached_layouts sample_mint 3 _ _ _ _ _ sample_id sample_fresh sample_normalizes ltac:(lia)) as H.
  assert (Hp : match detachTerminalLayoutLeaf sample_mint (Some sample_layout) sample_id 0 with
               | Some (mkDetached _ _ ptyId) => ptyId = Some (js "pty-1") | None => False end) by by vm_compute.
  destruct (detachTerminalLayoutLeaf sample_mint (Some sample_layout) sample_id 0) as [[src det p]|]; [|done].
  destruct H as (root & rest & _ & _ & _ & _ & _ & Hs & Hd & _). by split_and!.
Defined.
