(* ===== verification/PaneManager.v ===== *)
(** The panes of a terminal tab (packages/client/src/terminal-pane/pane-manager:
    pane-manager.ts, live-pane-owner.ts, pane-creation.ts, pane-collection-layout.ts,
    pane-split-close.ts, pane-subtree-split.ts, pane-activation.ts, pane-drag-reorder.ts, the
    tree operations of pane-tree-ops.ts), the replay of a layout (layout-serialization.ts,
    title-leaf-id.ts) and its synchronisation with the host
    (terminal-live-layout-reconciliation.ts, use-terminal-live-layout-sync.ts).

    The elements of the document are a tree: a [pane] with its number and leaf id, a
    [pane_split] with its two children and their flex factors (the divider between them is
    left out).  An element is named by its path from the root, [false] for the first child.
    Terminals, styles and focus are outside; the callbacks of the manager are events in
    the order they are called.  The proofs are in PaneManagerSpec.v and PaneSync.v. *)

From stdpp Require Import base list sets.
From Stdlib Require Import ZArith Lia ZifyBool SpecFloat.
From S2P Require Import Prelude JsText Json JsMap JsRecord PaneIdentity PaneLayout.

#[local] Set Warnings "-clear-no-such-hyp".

Inductive PaneElement :=
  | pane (paneId : Z) (leafId : jsstring)
  | pane_split (direction : TerminalPaneSplitDirection) (first second : PaneElement)
               (grow_first grow_second : spec_float).

Definition path := list bool.

Inductive pane_event :=
  | PaneCreated (paneId : Z) (leafId : jsstring) (ptyId : option jsstring)
  | PaneClosed (paneId : Z) (leafId : jsstring) (detached : bool)
  | ActivePaneChange (paneId : Z)
  | LayoutChanged
  | PersistLayoutSnapshot.

Record PaneManager := mkManager {
  pm_root : option PaneElement;
  pm_panes : jsmap jsstring;
  pm_activePaneId : option Z;
  pm_nextPaneId : Z;
  pm_identities : PaneIdentityRegistry;
  pm_minted : nat;
  pm_events : list pane_event
}.

Definition FIRST_PANE_ID : Z := 1.

Definition new_manager (n : nat) : PaneManager := mkManager None [] None FIRST_PANE_ID new_registry n [].

(** ** The element tree *)

(** The panes under an element, from left to right. *)
Fixpoint panes_in (el : PaneElement) : list (Z * jsstring) :=
  match el with
  | pane paneId leafId => [(paneId, leafId)]
  | pane_split _ first second _ _ => panes_in first ++ panes_in second
  end.

(** The path of a pane's container. *)
Fixpoint path_to (paneId : Z) (el : PaneElement) : option path :=
  match el with
  | pane id _ => if id =? paneId then Some [] else None
  | pane_split _ first second _ _ =>
      match path_to paneId first with
      | Some p => Some (false :: p)
      | None => match path_to paneId second with
                | Some p => Some (true :: p)
                | None => None
                end
      end
  end.

Fixpoint sub_at (p : path) (el : PaneElement) : option PaneElement :=
  match p, el with
  | [], _ => Some el
  | b :: p', pane_split _ first second _ _ => sub_at p' (if b then second else first)
  | _ :: _, pane _ _ => None
  end.

(** [parent.replaceChild(f(el), el)] for the element at [p]. *)
Fixpoint update_at (p : path) (f : PaneElement -> PaneElement) (el : PaneElement) : PaneElement :=
  match p, el with
  | [], _ => f el
  | false :: p', pane_split d first second g1 g2 => pane_split d (update_at p' f first) second g1 g2
  | true :: p', pane_split d first second g1 g2 => pane_split d first (update_at p' f second) g1 g2
  | _ :: _, pane _ _ => el
  end.

(** The tree without a pane: its sibling is promoted into the place, and the flex factor,
    of their split. *)
Fixpoint remove_pane (paneId : Z) (el : PaneElement) : option PaneElement :=
  match el with
  | pane id _ => if id =? paneId then None else Some el
  | pane_split d first second g1 g2 =>
      match remove_pane paneId first, remove_pane paneId second with
      | None, rest | rest, None => rest
      | Some first', Some second' => Some (pane_split d first' second' g1 g2)
      end
  end.

Definition one : spec_float := number_of_Z 1.

Definition one_minus (r : spec_float) : spec_float := SFsub 53 1024 one r.

(** The flex factors of a new split: the ratio when it is inside (0, 1). *)
Definition split_grows (ratio : option spec_float) : spec_float * spec_float :=
  match ratio with
  | Some r => if SFltb (number_of_Z 0) r && SFltb r one then (r, one_minus r) else (one, one)
  | None => (one, one)
  end.

(** [wrapInSplit]: the existing element, the divider, the new pane. *)
Definition wrapInSplit (created : PaneElement) (direction : TerminalPaneSplitDirection)
    (ratio : option spec_float) (existing : PaneElement) : PaneElement :=
  let '(g1, g2) := split_grows ratio in pane_split direction existing created g1 g2.

(** [placeCreatedPaneBeforeSource], on the split that was just made. *)
Definition placeCreatedPaneBeforeSource (el : PaneElement) : PaneElement :=
  match el with
  | pane_split d existing created g1 g2 => pane_split d created existing g2 g1
  | pane _ _ => el
  end.

(** ** Panes *)

Section manager.
Context (mint : nat -> jsstring).

Definition with_panes (m : PaneManager) (root : option PaneElement) (panes : jsmap jsstring)
    (active : option Z) (identities : PaneIdentityRegistry) (events : list pane_event) : PaneManager :=
  mkManager root panes active (pm_nextPaneId m) identities (pm_minted m) (pm_events m ++ events).

(** [createPaneInternal]: the number and the leaf id of the new pane. *)
Definition createPaneInternal (leafIdHint : option jsstring) (m : PaneManager)
    : option (Z * jsstring * PaneManager) :=
  match claimLeafId mint leafIdHint (pm_identities m) (pm_minted m) with
  | None => None
  | Some (leafId, n) =>
      let id := pm_nextPaneId m in
      Some (id, leafId,
            mkManager (pm_root m) (map_set id leafId (pm_panes m)) (pm_activePaneId m) (id + 1)
                      (register id leafId (pm_identities m)) n (pm_events m))
  end.

Definition publishPaneCreated (paneId : Z) (leafId : jsstring) (ptyId : option jsstring) (m : PaneManager)
    : PaneManager :=
  with_panes m (pm_root m) (pm_panes m) (pm_activePaneId m) (markPublished paneId (pm_identities m))
             [PaneCreated paneId leafId (truthy ptyId)].

Definition with_root (m : PaneManager) (root : option PaneElement) (active : option Z) : PaneManager :=
  with_panes m root (pm_panes m) active (pm_identities m) [].

Definition emit_event (e : pane_event) (m : PaneManager) : PaneManager :=
  with_panes m (pm_root m) (pm_panes m) (pm_activePaneId m) (pm_identities m) [e].

(** [createInitialPane], on an empty root. *)
Definition createInitialPane (leafIdHint : option jsstring) (m : PaneManager) : option (Z * jsstring * PaneManager) :=
  match createPaneInternal leafIdHint m with
  | None => None
  | Some (id, leafId, m) =>
      Some (id, leafId, publishPaneCreated id leafId None (with_root m (Some (pane id leafId)) (Some id)))
  end.

(** [splitManagedPane] with the element at [p] as its container, which [place] rearranges
    when the new pane goes first. *)
Definition splitManagedPane (direction : TerminalPaneSplitDirection) (ratio : option spec_float)
    (leafIdHint ptyId : option jsstring) (before : bool) (p : path) (m : PaneManager)
    : option (Z * PaneManager) :=
  match createPaneInternal leafIdHint m with
  | None => None
  | Some (id, leafId, m) =>
      let wrap existing :=
        let split := wrapInSplit (pane id leafId) direction ratio existing in
        if before then placeCreatedPaneBeforeSource split else split in
      let root := match pm_root m with Some t => Some (update_at p wrap t) | None => None end in
      Some (id, emit_event LayoutChanged (publishPaneCreated id leafId ptyId (with_root m root (Some id))))
  end.

Definition container_path (paneId : Z) (m : PaneManager) : option path :=
  match map_get paneId (pm_panes m), pm_root m with
  | Some _, Some t => path_to paneId t
  | _, _ => None
  end.

(** [None] outside is the loop of [mintUnclaimedLeafId] that did not end; [None] inside is
    the answer null. *)
Definition splitPane (paneId : Z) (direction : TerminalPaneSplitDirection) (ratio : option spec_float)
    (leafIdHint : option jsstring) (m : PaneManager) : option (option Z * PaneManager) :=
  match container_path paneId m with
  | None => Some (None, m)
  | Some p =>
      match splitManagedPane direction ratio leafIdHint None false p m with
      | None => None
      | Some (id, m) => Some (Some id, m)
      end
  end.

Definition leaf_ids_in (el : PaneElement) : list jsstring := List.filter nonempty (panes_in el).*2.

(** [setsEqual] of two sets, given by their elements in order, with repetitions. *)
Definition setsEqual (left right : list jsstring) : bool :=
  let l := remove_dups left in
  let r := remove_dups right in
  Nat.eqb (List.length l) (List.length r) && forallb (fun x => bool_decide (x ∈ r)) l.

(** [findMountedSubtreeContainer]: from the container of the first leaf upwards. *)
Fixpoint climb (p : path) (k : nat) (expected : list jsstring) (root : PaneElement) : option path :=
  let here := match sub_at (take k p) root with
              | Some el => setsEqual (leaf_ids_in el) expected
              | None => false
              end in
  if here then Some (take k p)
  else match k with
       | O => None
       | S k' => climb p k' expected root
       end.

Definition findMountedSubtreeContainer (sourceLeafIds : list jsstring) (m : PaneManager) : option path :=
  match sourceLeafIds with
  | [] | [] :: _ => None
  | firstLeafId :: _ =>
      match getNumericIdForLeaf firstLeafId (pm_identities m) with
      | None => None
      | Some firstPaneId =>
          match container_path firstPaneId m, pm_root m with
          | Some p, Some t => climb p (List.length p) sourceLeafIds t
          | _, _ => None
          end
      end
  end.

Definition splitPaneAroundLeafIds (sourceLeafIds : list jsstring) (fallbackPaneId : Z)
    (direction : TerminalPaneSplitDirection) (ratio : option spec_float) (leafIdHint ptyId : option jsstring)
    (before : bool) (m : PaneManager) : option (option Z * PaneManager) :=
  let source := match findMountedSubtreeContainer sourceLeafIds m with
                | Some p => Some p
                | None => container_path fallbackPaneId m
                end in
  match source, map_get fallbackPaneId (pm_panes m) with
  | Some p, Some _ =>
      match splitManagedPane direction ratio leafIdHint ptyId before p m with
      | None => None
      | Some (id, m) => Some (Some id, m)
      end
  | _, _ => Some (None, m)
  end.

(** ** Closing, detaching, activating *)

Definition teardownManagedPane (paneId : Z) (detached : bool) (m : PaneManager) : PaneManager :=
  match map_get paneId (pm_panes m) with
  | None => m
  | Some closedLeafId =>
      let panes := map_delete paneId (pm_panes m) in
      let root := match pm_root m with Some t => remove_pane paneId t | None => None end in
      let active := if bool_decide (pm_activePaneId m = Some paneId) then head (map_keys panes)
                    else pm_activePaneId m in
      with_panes m root panes active (release paneId (pm_identities m))
                 [PaneClosed paneId closedLeafId detached; LayoutChanged]
  end.

Definition closePane (paneId : Z) (m : PaneManager) : PaneManager := teardownManagedPane paneId false m.

Definition detachPaneForExternalMove (paneId : Z) (m : PaneManager) : bool * PaneManager :=
  if negb (map_has paneId (pm_panes m)) || (map_size (pm_panes m) <=? 1) then (false, m)
  else (true, teardownManagedPane paneId true m).

Definition setActivePane (paneId : Z) (m : PaneManager) : PaneManager :=
  match map_get paneId (pm_panes m) with
  | None => m
  | Some _ =>
      with_panes m (pm_root m) (pm_panes m) (Some paneId) (pm_identities m)
        (if bool_decide (pm_activePaneId m = Some paneId) then [] else [ActivePaneChange paneId])
  end.

Definition adoptLeafId (paneId : Z) (leafId : jsstring) (m : PaneManager) : bool * PaneManager :=
  match map_get paneId (pm_panes m) with
  | None => (false, m)
  | Some current =>
      match adoptPaneLeafId paneId current leafId (pm_identities m) with
      | None => (false, m)
      | Some identities =>
          let rename el := match el with pane id l => if id =? paneId then pane id leafId else el | _ => el end in
          let root := match pm_root m with
                      | Some t => match path_to paneId t with
                                  | Some p => Some (update_at p rename t)
                                  | None => Some t
                                  end
                      | None => None
                      end in
          (true, with_panes m root (map_set paneId leafId (pm_panes m)) (pm_activePaneId m) identities [])
      end
  end.

(** ** Moving a pane (pane-drag-reorder.ts) *)

Inductive DropZone := zone_left | zone_right | zone_top | zone_bottom.

(** The parent's path and which child it is. *)
Definition parent_of (p : path) : option (path * bool) :=
  match rev p with
  | [] => None
  | b :: rest => Some (rev rest, b)
  end.

Definition split_direction (p : path) (el : PaneElement) : option TerminalPaneSplitDirection :=
  match sub_at p el with
  | Some (pane_split d _ _ _ _) => Some d
  | _ => None
  end.

Definition zone_direction (zone : DropZone) : TerminalPaneSplitDirection :=
  match zone with
  | zone_left | zone_right => vertical
  | zone_top | zone_bottom => horizontal
  end.

Definition zone_after (zone : DropZone) : bool :=
  match zone with
  | zone_right | zone_bottom => true
  | zone_left | zone_top => false
  end.

Definition isPaneDropNoOp (sourcePaneId targetPaneId : Z) (zone : DropZone) (m : PaneManager) : bool :=
  if sourcePaneId =? targetPaneId then true
  else match container_path sourcePaneId m, container_path targetPaneId m, pm_root m with
       | Some ps, Some pt, Some t =>
           match parent_of pt, parent_of ps with
           | Some (parent, target), Some (parent', source) =>
               if negb (bool_decide (parent' = parent)) then false
               else if negb (bool_decide (split_direction parent t = Some (zone_direction zone))) then false
               else if zone_after zone then source && negb target else target && negb source
           | _, _ => false
           end
       | _, _, _ => true
       end.

(** [insertPaneNextTo]. *)
Definition insert_next_to (source : PaneElement) (zone : DropZone) (target : PaneElement) : PaneElement :=
  if zone_after zone then pane_split (zone_direction zone) target source one one
  else pane_split (zone_direction zone) source target one one.

Definition movePane (sourcePaneId targetPaneId : Z) (zone : DropZone) (m : PaneManager) : PaneManager :=
  if (sourcePaneId =? targetPaneId) || isPaneDropNoOp sourcePaneId targetPaneId zone m then m
  else match map_get sourcePaneId (pm_panes m), map_get targetPaneId (pm_panes m), pm_root m with
       | Some leafId, Some _, Some t =>
           let root := match remove_pane sourcePaneId t with
                       | Some rest =>
                           match path_to targetPaneId rest with
                           | Some p => Some (update_at p (insert_next_to (pane sourcePaneId leafId) zone) rest)
                           | None => Some rest
                           end
                       | None => None
                       end in
           with_panes m root (pm_panes m) (pm_activePaneId m) (pm_identities m) [LayoutChanged]
       | _, _, _ => m
       end.

(** ** Equal sizes (pane-tree-ops.ts) *)

Fixpoint getEqualizeWeight (el : PaneElement) (direction : TerminalPaneSplitDirection) : Z :=
  match el with
  | pane _ _ => 1
  | pane_split d first second _ _ =>
      if negb (bool_decide (d = direction)) then 1
      else Z.max 1 (getEqualizeWeight first direction + getEqualizeWeight second direction)
  end.

(** The tree with its weights, and whether one changed. *)
Fixpoint equalizePaneSplitSizes (el : PaneElement) : PaneElement * bool :=
  match el with
  | pane _ _ => (el, false)
  | pane_split d first second g1 g2 =>
      let w1 := number_of_Z (getEqualizeWeight first d) in
      let w2 := number_of_Z (getEqualizeWeight second d) in
      let '(first', c1) := equalizePaneSplitSizes first in
      let '(second', c2) := equalizePaneSplitSizes second in
      (pane_split d first' second' w1 w2,
       negb (bool_decide (g1 = w1)) || negb (bool_decide (g2 = w2)) || c1 || c2)
  end.

Definition equalizePaneSizes (m : PaneManager) : PaneManager :=
  if map_size (pm_panes m) <? 2 then m
  else match pm_root m with
       | None => m
       | Some t =>
           let '(t', changed) := equalizePaneSplitSizes t in
           with_panes m (Some t') (pm_panes m) (pm_activePaneId m) (pm_identities m)
                      (if changed then [LayoutChanged] else [])
       end.

Definition destroy (m : PaneManager) : PaneManager :=
  with_panes m None [] None new_registry [].

(** ** Replaying a layout (layout-serialization.ts) *)

(** The map of leaf ids to pane numbers. *)
Fixpoint restoreNode (node : TerminalPaneLayoutNode) (paneId : Z) (paneByLeafId : jsrecord Z) (m : PaneManager)
    : option (jsrecord Z * PaneManager) :=
  match node with
  | leaf leafId => Some (rec_set leafId paneId paneByLeafId, m)
  | split direction first second ratio =>
      match splitPane paneId direction ratio (Some (getLeftmostLeafId second)) m with
      | None => None
      | Some (None, m) => restoreNode first paneId paneByLeafId m
      | Some (Some created, m) =>
          match restoreNode first paneId paneByLeafId m with
          | None => None
          | Some (paneByLeafId, m) => restoreNode second created paneByLeafId m
          end
      end
  end.

Definition replayTerminalLayout (snapshot : option TerminalLayoutSnapshot) (m : PaneManager)
    : option (jsrecord Z * PaneManager) :=
  let '(normalized, _, n) := normalizeTerminalLayoutSnapshot mint snapshot (pm_minted m) in
  let m := mkManager (pm_root m) (pm_panes m) (pm_activePaneId m) (pm_nextPaneId m) (pm_identities m) n (pm_events m) in
  let initialLeafId :=
    match tl_root normalized with
    | Some root => Some (getLeftmostLeafId root)
    | None => resolveRootlessTerminalLayoutLeafId (default normalized snapshot)
    end in
  match createInitialPane initialLeafId m with
  | None => None
  | Some (id, leafId, m) =>
      match tl_root normalized with
      | None => Some (rec_set leafId id [], m)
      | Some root => restoreNode root id [] m
      end
  end.

(** ** Which leaf a pane number stands for (title-leaf-id.ts) *)

Fixpoint collectReplayCreatedPaneLeafIds (node : TerminalPaneLayoutNode) : list jsstring :=
  match node with
  | leaf _ => []
  | split _ first second _ =>
      getLeftmostLeafId second :: collectReplayCreatedPaneLeafIds first ++ collectReplayCreatedPaneLeafIds second
  end.

Definition collectLeafIdsInReplayCreationOrder (node : option TerminalPaneLayoutNode) : list jsstring :=
  match node with
  | None => []
  | Some node => getLeftmostLeafId node :: collectReplayCreatedPaneLeafIds node
  end.

(** For a runtime pane id that is an integer. *)
Definition resolveNumericPaneLeafId (root : option TerminalPaneLayoutNode) (numericPaneId : Z) : option jsstring :=
  if numericPaneId <? FIRST_PANE_ID then None
  else collectLeafIdsInReplayCreationOrder root !! Z.to_nat (numericPaneId - FIRST_PANE_ID).

(** ** Following the host (terminal-live-layout-reconciliation.ts) *)

Record TerminalLiveLayoutInsertion := mkInsertion {
  li_sourceLeafId : jsstring;
  li_sourceLeafIds : list jsstring;
  li_newLeafId : jsstring;
  li_direction : TerminalPaneSplitDirection;
  li_before : bool;
  li_ratio : option spec_float
}.

Definition mounted (mountedLeafIds : list jsstring) (id : jsstring) : bool := bool_decide (id ∈ mountedLeafIds).

Fixpoint rightmostMountedLeafId (node : TerminalPaneLayoutNode) (ids : list jsstring) : option jsstring :=
  match node with
  | leaf leafId => if mounted ids leafId then Some leafId else None
  | split _ first second _ =>
      match rightmostMountedLeafId second ids with
      | Some id => Some id
      | None => rightmostMountedLeafId first ids
      end
  end.

Fixpoint leftmostMountedLeafId (node : TerminalPaneLayoutNode) (ids : list jsstring) : option jsstring :=
  match node with
  | leaf leafId => if mounted ids leafId then Some leafId else None
  | split _ first second _ =>
      match leftmostMountedLeafId first ids with
      | Some id => Some id
      | None => leftmostMountedLeafId second ids
      end
  end.

Fixpoint hasMountedLeaf (node : TerminalPaneLayoutNode) (ids : list jsstring) : bool :=
  match node with
  | leaf leafId => mounted ids leafId
  | split _ first second _ => hasMountedLeaf first ids || hasMountedLeaf second ids
  end.

Fixpoint mountedLeafIdsIn (node : TerminalPaneLayoutNode) (ids : list jsstring) : list jsstring :=
  match node with
  | leaf leafId => if mounted ids leafId then [leafId] else []
  | split _ first second _ => mountedLeafIdsIn first ids ++ mountedLeafIdsIn second ids
  end.

(** The mounted leaves and the insertions so far. *)
Definition plan_state : Type := list jsstring * list TerminalLiveLayoutInsertion.

(** One insertion beside the mounted leaves of [side]. *)
Definition plan_insertion (source : option jsstring) (side : TerminalPaneLayoutNode) (newLeafId : jsstring)
    (direction : TerminalPaneSplitDirection) (before : bool) (ratio : option spec_float) (st : plan_state)
    : plan_state :=
  match truthy source with
  | None => st
  | Some sourceLeafId =>
      if mounted (fst st) newLeafId then st
      else (fst st ++ [newLeafId],
            snd st ++ [mkInsertion sourceLeafId (mountedLeafIdsIn side (fst st)) newLeafId direction before ratio])
  end.

Fixpoint ensureSubtree (node : TerminalPaneLayoutNode) (st : plan_state) : bool * plan_state :=
  match node with
  | leaf leafId => (mounted (fst st) leafId, st)
  | split direction first second ratio =>
      let firstHasMounted := hasMountedLeaf first (fst st) in
      let secondHasMounted := hasMountedLeaf second (fst st) in
      if negb firstHasMounted && negb secondHasMounted then (false, st)
      else if firstHasMounted && negb secondHasMounted then
        let st := plan_insertion (rightmostMountedLeafId first (fst st)) first (getLeftmostLeafId second)
                                 direction false ratio st in
        let st := snd (ensureSubtree second st) in
        (true, snd (ensureSubtree first st))
      else if negb firstHasMounted && secondHasMounted then
        let st := plan_insertion (leftmostMountedLeafId second (fst st)) second (getLeftmostLeafId first)
                                 direction true ratio st in
        let st := snd (ensureSubtree first st) in
        (true, snd (ensureSubtree second st))
      else
        let st := snd (ensureSubtree first st) in
        (true, snd (ensureSubtree second st))
  end.

Definition planTerminalLiveLayoutInsertions (root : option TerminalPaneLayoutNode) (currentLeafIds : list jsstring)
    : list TerminalLiveLayoutInsertion :=
  match root with
  | None => []
  | Some root => snd (snd (ensureSubtree root (currentLeafIds, [])))
  end.

(** The loop over the insertions: whether a pane was created. *)
Definition apply_insertion (ptyIdsByLeafId : option (jsrecord jsstring)) (insertion : TerminalLiveLayoutInsertion)
    (m : PaneManager) : option (bool * PaneManager) :=
  let ptyId := truthy (rec_get (li_newLeafId insertion) (default [] ptyIdsByLeafId)) in
  let sourcePaneId := getNumericIdForLeaf (li_sourceLeafId insertion) (pm_identities m) in
  let present := match getNumericIdForLeaf (li_newLeafId insertion) (pm_identities m) with
                 | Some id => negb (id =? 0)
                 | None => false
                 end in
  match ptyId, sourcePaneId, present with
  | Some ptyId, Some sourcePaneId, false =>
      let splitRatio := match li_ratio insertion with
                        | Some ratio => Some (if li_before insertion then one_minus ratio else ratio)
                        | None => None
                        end in
      match splitPaneAroundLeafIds (li_sourceLeafIds insertion) sourcePaneId (li_direction insertion)
              splitRatio (Some (li_newLeafId insertion)) (Some ptyId) (li_before insertion) m with
      | None => None
      | Some (created, m) => Some (match created with Some _ => true | None => false end, m)
      end
  | _, _, _ => Some (false, m)
  end.

Fixpoint apply_insertions (ptyIdsByLeafId : option (jsrecord jsstring))
    (insertions : list TerminalLiveLayoutInsertion) (m : PaneManager) : option (bool * PaneManager) :=
  match insertions with
  | [] => Some (false, m)
  | insertion :: rest =>
      match apply_insertion ptyIdsByLeafId insertion m with
      | None => None
      | Some (applied, m) =>
          match apply_insertions ptyIdsByLeafId rest m with
          | None => None
          | Some (applied', m) => Some (applied || applied', m)
          end
      end
  end.

Definition getActivePane (m : PaneManager) : option Z :=
  match pm_activePaneId m with
  | Some id => if map_has id (pm_panes m) then Some id else None
  | None => None
  end.

(** The effect of [useTerminalLiveLayoutSync], in the browser renderer, with a manager. *)
Definition syncLiveLayout (restoredLayout : TerminalLayoutSnapshot) (m : PaneManager) : option PaneManager :=
  match tl_root restoredLayout with
  | None => Some m
  | Some root =>
      match planTerminalLiveLayoutInsertions (Some root) (pm_panes m).*2 with
      | [] => Some m
      | insertions =>
          match apply_insertions (tl_ptyIdsByLeafId restoredLayout) insertions m with
          | None => None
          | Some (applied, m) =>
              let m := if applied then emit_event PersistLayoutSnapshot m else m in
              let restored := match truthy (tl_activeLeafId restoredLayout) with
                              | Some id => getNumericIdForLeaf id (pm_identities m)
                              | None => None
                              end in
              let fallback := match getActivePane m with
                              | Some id => Some id
                              | None => head (map_keys (pm_panes m))
                              end in
              Some (match (match restored with Some id => Some id | None => fallback end) with
                    | Some id => setActivePane id m
                    | None => m
                    end)
          end
      end
  end.
End manager.
