(* ===== verification/PaneManagerSpec.v ===== *)
(** The panes of a manager (PaneManager.v): the invariant of its state, and what closing,
    replaying and naming do. *)

From stdpp Require Import base list sets.
From Stdlib Require Import ZArith Lia ZifyBool SpecFloat.
From S2P Require Import Prelude JsText Json JsMap JsRecord PaneIdentity PaneLayout PaneLayoutSpec PaneManager.

#[local] Set Warnings "-clear-no-such-hyp".

(** ** The tree of elements *)

Lemma path_to_spec id el p : path_to id el = Some p ->
  exists l, sub_at p el = Some (pane id l) /\ (id, l) ∈ panes_in el.
Proof.
  induction el as [i l|d a IHa b IHb g1 g2] in p |- *; cbn.
  - case_if; [|done]. bool_prop. intros [= <-]. subst. exists l. set_solver.
  - destruct (path_to id a) as [q|].
    + intros [= <-]. destruct (IHa q eq_refl) as (l & ? & ?). exists l. set_solver.
    + destruct (path_to id b) as [q|]; [|done]. intros [= <-].
      destruct (IHb q eq_refl) as (l & ? & ?). exists l. set_solver.
Qed.

Lemma path_to_is_Some id l el : (id, l) ∈ panes_in el -> is_Some (path_to id el).
Proof.
  induction el as [i k|d a IHa b IHb g1 g2]; cbn.
  - intros H%list_elem_of_singleton. simplify_eq. rewrite Z.eqb_refl. by eexists.
  - intros [H|H]%elem_of_app.
    + destruct (IHa H) as [q ->]. by eexists.
    + destruct (path_to id a); [by eexists|]. destruct (IHb H) as [q ->]. by eexists.
Qed.

Lemma update_at_panes p f el sub x :
  sub_at p el = Some sub -> panes_in (f sub) ≡ₚ x ++ panes_in sub ->
  panes_in (update_at p f el) ≡ₚ x ++ panes_in el.
Proof.
  induction p as [|b p IH] in el |- *; [by intros [= ->]|].
  destruct el as [|d a c g1 g2]; [done|]. destruct b; cbn; intros Hs Hf; rewrite (IH _ Hs Hf).
  2: by rewrite <- app_assoc.
  rewrite !app_assoc. by rewrite (Permutation_app_comm x (panes_in a)).
Qed.

Lemma update_at_same_panes p f el sub :
  sub_at p el = Some sub -> panes_in (f sub) = panes_in sub ->
  panes_in (update_at p f el) = panes_in el.
Proof.
  induction p as [|b p IH] in el |- *; [by intros [= ->]|].
  destruct el as [|d a c g1 g2]; [done|]. destruct b; cbn; intros Hs Hf; by rewrite (IH _ Hs Hf).
Qed.

Lemma sub_at_update p f el sub : sub_at p el = Some sub -> sub_at p (update_at p f el) = Some (f sub).
Proof.
  induction p as [|b p IH] in el |- *; [by intros [= ->]|]. destruct el as [|d a c g1 g2]; [done|]. destruct b; apply IH.
Qed.

Lemma update_at_twice p f g el : update_at p g (update_at p f el) = update_at p (fun x => g (f x)) el.
Proof.
  induction p as [|b p IH] in el |- *; [done|]. destruct el as [|d a c g1 g2]; [by destruct b|].
  destruct b; cbn; by rewrite IH.
Qed.

Lemma update_at_ext p f g el sub :
  sub_at p el = Some sub -> f sub = g sub -> update_at p f el = update_at p g el.
Proof.
  induction p as [|b p IH] in el |- *; [by intros [= ->]|]. destruct el as [|d a c g1 g2]; [done|].
  destruct b; cbn; intros Hs Hf; by rewrite (IH _ Hs Hf).
Qed.

Lemma sub_at_app p q el sub : sub_at p el = Some sub -> sub_at (p ++ q) el = sub_at q sub.
Proof.
  induction p as [|b p IH] in el |- *; [by intros [= ->]|]. destruct el as [|d a c g1 g2]; [done|]. destruct b; apply IH.
Qed.

Lemma update_at_app p q f el : update_at (p ++ q) f el = update_at p (update_at q f) el.
Proof.
  induction p as [|b p IH] in el |- *; [done|]. destruct el as [|d a c g1 g2]; [by destruct b|].
  destruct b; cbn; by rewrite IH.
Qed.

Definition other_panes (id : Z) (l : list (Z * jsstring)) : list (Z * jsstring) :=
  List.filter (fun e => negb (fst e =? id)) l.

Lemma remove_pane_panes id el :
  match remove_pane id el with Some t => panes_in t | None => [] end = other_panes id (panes_in el).
Proof.
  unfold other_panes. induction el as [i l|d a IHa b IHb g1 g2]; cbn [remove_pane panes_in].
  - cbn. destruct (i =? id); done.
  - rewrite List.filter_app, <- IHa, <- IHb.
    destruct (remove_pane id a), (remove_pane id b); cbn; rewrite ?app_nil_r; done.
Qed.

(** ** The invariant *)

Definition element_panes (root : option PaneElement) : list (Z * jsstring) :=
  match root with
  | Some t => panes_in t
  | None => []
  end.

Record manager_ok (m : PaneManager) : Prop := {
  mo_tree : element_panes (pm_root m) ≡ₚ pm_panes m;
  mo_registry : registry_ok (pm_identities m);
  mo_same : forall id, map_get id (leafIdByNumericId (pm_identities m)) = map_get id (pm_panes m);
  mo_keys : keys_ok (pm_panes m);
  mo_next : forall id, id ∈ map_keys (pm_panes m) -> 0 < id < pm_nextPaneId m;
  mo_first : 0 < pm_nextPaneId m;
  mo_active : match pm_activePaneId m with
              | Some id => id ∈ map_keys (pm_panes m)
              | None => pm_panes m = []
              end
}.

Lemma new_manager_ok n : manager_ok (new_manager n).
Proof.
  split; cbn; [done | apply new_registry_ok | done | constructor | set_solver | unfold FIRST_PANE_ID; lia | done].
Qed.

(** A leaf id names one pane. *)
Lemma leaf_names_pane m id id' l : manager_ok m ->
  map_get id (pm_panes m) = Some l -> map_get id' (pm_panes m) = Some l -> id = id'.
Proof.
  intros H H1 H2. rewrite <- !(mo_same m H) in *.
  apply (rk_inverse _ (mo_registry m H)) in H1, H2. congruence.
Qed.

Lemma tree_pane m id l : manager_ok m ->
  (id, l) ∈ element_panes (pm_root m) <-> map_get id (pm_panes m) = Some l.
Proof.
  intros H. rewrite (mo_tree m H). split; [apply map_elem_get, (mo_keys m H) | apply map_get_elem].
Qed.

Lemma pane_leaf_valid m id l : manager_ok m -> map_get id (pm_panes m) = Some l -> isTerminalLeafId l = true.
Proof. intros H Hl. rewrite <- (mo_same m H) in Hl. by eapply rk_valid; [apply (mo_registry m H)|]. Qed.

(** The number the manager answers for a leaf. *)
Lemma numeric_id m l id : manager_ok m ->
  getNumericIdForLeaf l (pm_identities m) = Some id <-> map_get id (pm_panes m) = Some l.
Proof.
  intros H. unfold getNumericIdForLeaf. rewrite <- (mo_same m H).
  rewrite (rk_inverse _ (mo_registry m H)). destruct (isTerminalLeafId l) eqn:E; cbn [negb]; [done|].
  split; [done|]. intros Hl. apply (rk_inverse _ (mo_registry m H)) in Hl.
  apply (rk_valid _ (mo_registry m H)) in Hl. congruence.
Qed.

Lemma tree_ids_nodup m : manager_ok m -> NoDup (element_panes (pm_root m)).*1.
Proof. intros H. rewrite (mo_tree m H). apply (mo_keys m H). Qed.

Lemma tree_leaves_nodup m : manager_ok m -> NoDup (element_panes (pm_root m)).*2.
Proof.
  intros H. rewrite (mo_tree m H). pose proof (mo_keys m H) as Hk.
  assert (Hinj : forall id id' l, (id, l) ∈ pm_panes m -> (id', l) ∈ pm_panes m -> id = id').
  { intros id id' l H1 H2. apply map_elem_get in H1, H2; [|done..]. by eapply leaf_names_pane. }
  unfold keys_ok, map_keys in Hk. induction (pm_panes m) as [|[id l] ps IH]; cbn in *; [constructor|].
  apply NoDup_cons in Hk as [Hid Hk]. apply NoDup_cons. split; [|apply IH; [done|]].
  - intros ([id' l'] & Heq & Hin)%list_elem_of_fmap. cbn in Heq. subst l'.
    assert (id = id') as -> by (eapply (Hinj _ _ l); set_solver).
    apply Hid, list_elem_of_fmap. by exists (id', l).
  - intros i i' k H1 H2. eapply (Hinj _ _ k); set_solver.
Qed.

Lemma container_path_spec m id p t : pm_root m = Some t -> container_path id m = Some p ->
  exists l, sub_at p t = Some (pane id l).
Proof.
  intros Ht. unfold container_path. rewrite Ht. destruct (map_get id (pm_panes m)) as [?|]; [|done].
  intros (k & ? & ?)%path_to_spec. by exists k.
Qed.

Lemma container_path_some m id l : manager_ok m -> map_get id (pm_panes m) = Some l ->
  exists t p, pm_root m = Some t /\ container_path id m = Some p /\ sub_at p t = Some (pane id l).
Proof.
  intros H Hl. pose proof (proj2 (tree_pane m id l H) Hl) as Hin. unfold element_panes in Hin.
  destruct (pm_root m) as [t|] eqn:Et; [|set_solver].
  destruct (path_to_is_Some id l t Hin) as [p Hp]. exists t, p. unfold container_path. rewrite Hl, Et.
  destruct (path_to_spec id t p Hp) as (l' & Hs & Hin'). split_and!; [done | done|].
  assert (l' = l); [|by subst].
  assert (Hl' : map_get id (pm_panes m) = Some l') by (apply (tree_pane m id l' H); by rewrite Et). congruence.
Qed.

(** ** Operations keep the invariant *)

Lemma mark_published_ok id reg : registry_ok reg -> registry_ok (markPublished id reg).
Proof. by intros [? ? ? ?]; split. Qed.

Section operations.
Context (mint : nat -> jsstring) (limit : nat) `{!Minting mint limit}.

(** A pane made but not yet in the tree. *)
Record created (hint : option jsstring) (m : PaneManager) (id : Z) (l : jsstring) (n : nat) : Prop := {
  cr_id : id = pm_nextPaneId m;
  cr_valid : isTerminalLeafId l = true;
  cr_new_pane : map_get id (pm_panes m) = None;
  cr_new_leaf : rec_get l (numericIdByLeafId (pm_identities m)) = None;
  cr_hint : forall h, hint = Some h -> isTerminalLeafId h = true ->
    rec_get h (numericIdByLeafId (pm_identities m)) = None -> l = h /\ n = pm_minted m
}.

Lemma create_spec hint m id l m1 : manager_ok m ->
  createPaneInternal mint hint m = Some (id, l, m1) ->
  created hint m id l (pm_minted m1)
  /\ m1 = mkManager (pm_root m) (pm_panes m ++ [(id, l)]) (pm_activePaneId m) (id + 1)
                    (register id l (pm_identities m)) (pm_minted m1) (pm_events m).
Proof.
  intros H. unfold createPaneInternal.
  destruct (claimLeafId mint hint (pm_identities m) (pm_minted m)) as [[l' n]|] eqn:E; [|done].
  intros [= <- <- <-]. cbn. pose proof (claim_sound mint limit _ _ _ _ _ E) as [Hv Hn].
  assert (Hp : map_get (pm_nextPaneId m) (pm_panes m) = None).
  { apply map_get_None. intros Hin%(mo_next m H). lia. }
  split; [split; try done|by rewrite map_set_new].
  intros h -> Hh Hnone. unfold claimLeafId in E. rewrite Hh in E. unfold rec_has in E.
  rewrite Hnone in E. cbn in E. by injection E as <- <-.
Qed.

Lemma grown_ok hint m id l n root' events : manager_ok m -> created hint m id l n ->
  element_panes root' ≡ₚ (id, l) :: element_panes (pm_root m) ->
  manager_ok (mkManager root' (pm_panes m ++ [(id, l)]) (Some id) (id + 1)
                (markPublished id (register id l (pm_identities m))) n events).
Proof.
  intros H [-> Hv Hp Hl _] Hr. pose proof (mo_first m H). split; cbn.
  - rewrite Hr, (mo_tree m H). by rewrite Permutation_app_comm.
  - apply mark_published_ok, registered_ok; [apply (mo_registry m H) | done | | done].
    by rewrite (mo_same m H).
  - intros i. rewrite <- map_set_new by done. rewrite !map_get_set. case_decide; [done|]. apply (mo_same m H).
  - rewrite <- map_set_new by done. apply keys_ok_set, (mo_keys m H).
  - intros i. unfold map_keys. rewrite fmap_app, elem_of_app. cbn.
    intros [Hi%(mo_next m H)|Hi%list_elem_of_singleton]; lia.
  - lia.
  - unfold map_keys. rewrite fmap_app, elem_of_app. right. cbn. set_solver.
Qed.

(** The element a new split puts in place of [existing]. *)
Definition split_element (direction : TerminalPaneSplitDirection) (ratio : option spec_float) (before : bool)
    (created existing : PaneElement) : PaneElement :=
  let split := wrapInSplit created direction ratio existing in
  if before then placeCreatedPaneBeforeSource split else split.

Lemma split_element_panes direction ratio before created existing :
  panes_in (split_element direction ratio before created existing) ≡ₚ panes_in created ++ panes_in existing.
Proof.
  unfold split_element, wrapInSplit. destruct (split_grows ratio) as [g1 g2].
  destruct before; cbn; [done | apply Permutation_app_comm].
Qed.

Lemma split_spec direction ratio hint ptyId before p m id m' t sub : manager_ok m ->
  pm_root m = Some t -> sub_at p t = Some sub ->
  splitManagedPane mint direction ratio hint ptyId before p m = Some (id, m') ->
  exists l, created hint m id l (pm_minted m')
    /\ pm_root m' = Some (update_at p (split_element direction ratio before (pane id l)) t)
    /\ pm_panes m' = pm_panes m ++ [(id, l)] /\ manager_ok m'.
Proof.
  intros H Ht Hs. unfold splitManagedPane.
  destruct (createPaneInternal mint hint m) as [[[i l] m1]|] eqn:E; [|done].
  apply create_spec in E as [Hc Hm1]; [|done].
  set (n := pm_minted m1) in *. clearbody n. subst m1. cbn.
  rewrite Ht. intros [= <- <-]. exists l. split_and!; [done | done | done|].
  eapply grown_ok; [done | exact Hc|]. cbn. rewrite Ht. cbn.
  rewrite (update_at_panes p _ t sub [(i, l)] Hs); [done|]. apply split_element_panes.
Qed.

Lemma initial_spec hint m id l m' : manager_ok m -> pm_root m = None ->
  createInitialPane mint hint m = Some (id, l, m') ->
  created hint m id l (pm_minted m') /\ pm_root m' = Some (pane id l) /\ pm_panes m' = [(id, l)] /\ manager_ok m'.
Proof.
  intros H Hr. unfold createInitialPane.
  destruct (createPaneInternal mint hint m) as [[[i k] m1]|] eqn:E; [|done].
  apply create_spec in E as [Hc Hm1]; [|done].
  set (n := pm_minted m1) in *. clearbody n. subst m1. cbn.
  intros [= <- <- <-]. cbn.
  assert (Hp : pm_panes m = []).
  { pose proof (mo_tree m H) as Ht. rewrite Hr in Ht. by apply Permutation_nil in Ht. }
  split_and!; [done | done | by rewrite Hp|]. eapply grown_ok; [done | exact Hc|]. by rewrite Hr.
Qed.

Lemma delete_other_panes id ps : keys_ok ps -> map_delete id ps = other_panes id ps.
Proof.
  unfold keys_ok, map_keys, other_panes. induction ps as [|[i l] ps IH]; cbn; [done|].
  intros [Hi Hk]%NoDup_cons. destruct (i =? id) eqn:E; cbn; [|by rewrite IH].
  bool_prop. subst. symmetry. clear IH Hk. induction ps as [|[j k] ps IH]; cbn in *; [done|].
  apply not_elem_of_cons in Hi as [Hj Hi]. rewrite (proj2 (Z.eqb_neq j id)) by done. cbn. by rewrite IH.
Qed.

Lemma other_panes_perm id a b : a ≡ₚ b -> other_panes id a ≡ₚ other_panes id b.
Proof.
  unfold other_panes. induction 1 as [|x a b _ IH|x y a|a b c _ IH1 _ IH2]; cbn.
  - done.
  - destruct (negb _); [by rewrite IH | done].
  - destruct (negb (x.1 =? id)), (negb (y.1 =? id)); by constructor || done.
  - by etransitivity.
Qed.

Lemma teardown_ok paneId detached m : manager_ok m -> manager_ok (teardownManagedPane paneId detached m).
Proof.
  intros H. unfold teardownManagedPane. destruct (map_get paneId (pm_panes m)) as [l|] eqn:El; [|done].
  pose proof (mo_keys m H) as Hk. split; cbn.
  - rewrite (delete_other_panes _ _ Hk), <- (other_panes_perm paneId _ _ (mo_tree m H)).
    unfold element_panes. destruct (pm_root m) as [t|]; [|done]. by rewrite <- remove_pane_panes.
  - apply release_ok, (mo_registry m H).
  - intros i. rewrite (map_get_delete _ _ _ Hk), map_get_delete by apply (rk_panes _ (mo_registry m H)).
    case_decide; [done | apply (mo_same m H)].
  - by apply keys_ok_delete.
  - intros i Hi%map_keys_delete. by apply (mo_next m H).
  - apply (mo_first m H).
  - pose proof (mo_active m H) as Ha. case_bool_decide as Hx.
    + unfold map_keys. destruct (map_delete paneId (pm_panes m)) as [|[i k] ps]; cbn; [done | set_solver].
    + destruct (pm_activePaneId m) as [a|]; [|by rewrite Ha].
      unfold map_keys in *. rewrite (delete_other_panes _ _ Hk). unfold other_panes.
      apply list_elem_of_fmap in Ha as ([i k] & -> & Hin). apply list_elem_of_fmap. exists (i, k).
      split; [done|]. apply list_elem_of_In, filter_In. split; [by apply list_elem_of_In|].
      cbn. apply negb_true_iff, Z.eqb_neq. cbn in Hx. congruence.
Qed.

Lemma set_active_ok paneId m : manager_ok m -> manager_ok (setActivePane paneId m).
Proof.
  intros H. unfold setActivePane. destruct (map_get paneId (pm_panes m)) as [l|] eqn:El; [|done].
  destruct H. split; cbn; try done. by eapply map_get_keys.
Qed.

(** The same panes in another tree. *)
Lemma rearranged_ok m root' events : manager_ok m -> element_panes root' ≡ₚ element_panes (pm_root m) ->
  manager_ok (with_panes m root' (pm_panes m) (pm_activePaneId m) (pm_identities m) events).
Proof. intros [] Hr. split; cbn; try done. by rewrite Hr. Qed.

Lemma equalize_panes el : panes_in (fst (equalizePaneSplitSizes el)) = panes_in el.
Proof.
  induction el as [i l|d a IHa b IHb g1 g2]; cbn; [done|].
  destruct (equalizePaneSplitSizes a), (equalizePaneSplitSizes b); cbn in *. congruence.
Qed.

Lemma equalize_ok m : manager_ok m -> manager_ok (equalizePaneSizes m).
Proof.
  intros H. unfold equalizePaneSizes. case_if; [done|]. destruct (pm_root m) as [t|] eqn:Et; [|done].
  pose proof (equalize_panes t) as Hp. destruct (equalizePaneSplitSizes t) as [t' c]. cbn in Hp.
  apply rearranged_ok; [done|]. rewrite Et. cbn. by rewrite Hp.
Qed.

Lemma insert_next_to_panes source zone target :
  panes_in (insert_next_to source zone target) ≡ₚ panes_in source ++ panes_in target.
Proof. unfold insert_next_to. destruct (zone_after zone); cbn; [apply Permutation_app_comm | done]. Qed.

Lemma other_panes_split id l ps : NoDup ps.*1 -> (id, l) ∈ ps -> ps ≡ₚ (id, l) :: other_panes id ps.
Proof.
  unfold other_panes. induction ps as [|[i k] ps IH]; cbn; [set_solver|].
  intros [Hi Hk]%NoDup_cons [Heq|Hin]%elem_of_cons.
  - simplify_eq. rewrite Z.eqb_refl. cbn. constructor.
    fold (other_panes i ps). rewrite <- (delete_other_panes i ps) by done. rewrite map_delete_none; [done|]. by apply map_get_None.
  - rewrite (proj2 (Z.eqb_neq i id)); cbn.
    + rewrite (IH Hk Hin) at 1. constructor.
    + intros ->. apply Hi, list_elem_of_fmap. by exists (id, l).
Qed.

Lemma move_ok source target zone m : manager_ok m -> manager_ok (movePane source target zone m).
Proof.
  intros H. unfold movePane. destruct (_ || _) eqn:Eno; [done|]. bool_prop.
  destruct (map_get source (pm_panes m)) as [l|] eqn:Es; [|done].
  destruct (map_get target (pm_panes m)) as [k|] eqn:Et; [|done].
  destruct (pm_root m) as [t|] eqn:Er; [|done]. apply rearranged_ok; [done|]. rewrite Er. cbn.
  pose proof (tree_ids_nodup m H) as Hnd. rewrite Er in Hnd. cbn in Hnd.
  apply (tree_pane m source l H) in Es. apply (tree_pane m target k H) in Et. rewrite Er in Es, Et. cbn in Es, Et.
  rewrite (other_panes_split source l (panes_in t) Hnd Es). pose proof (remove_pane_panes source t) as Hrm.
  assert (Ht : (target, k) ∈ other_panes source (panes_in t)).
  { apply list_elem_of_In, filter_In. split; [by apply list_elem_of_In | cbn; lia]. }
  rewrite <- Hrm in Ht |- *. destruct (remove_pane source t) as [rest|]; [|set_solver].
  destruct (path_to_is_Some target k rest Ht) as [p Hp]. rewrite Hp. cbn.
  apply path_to_spec in Hp as (k' & Hs & _).
  rewrite (update_at_panes p _ rest _ [(source, l)] Hs); [done|]. apply insert_next_to_panes.
Qed.

Lemma set_other_panes paneId (leafId current : jsstring) ps : NoDup ps.*1 -> (paneId, current) ∈ ps ->
  map_set paneId leafId ps ≡ₚ (paneId, leafId) :: other_panes paneId ps.
Proof.
  induction ps as [|[i k] ps IH]; cbn; [set_solver|].
  intros [Hi Hk]%NoDup_cons Hin. unfold other_panes. cbn. destruct (i =? paneId) eqn:E; bool_prop; cbn.
  - subst. fold (other_panes paneId ps). rewrite <- (delete_other_panes paneId ps), map_delete_none; [done| |done].
    by apply map_get_None.
  - rewrite IH; [by constructor | done|]. apply elem_of_cons in Hin as [|]; [simplify_eq | done].
Qed.

(** The pane at [p] with another leaf id. *)
Lemma rename_panes paneId current leafId p t :
  let t' := update_at p (fun el => match el with
              | pane id _ => if id =? paneId then pane id leafId else el | _ => el end) t in
  sub_at p t = Some (pane paneId current) ->
  other_panes paneId (panes_in t') = other_panes paneId (panes_in t)
  /\ (paneId, leafId) ∈ panes_in t' /\ (panes_in t').*1 = (panes_in t).*1.
Proof.
  cbv zeta. unfold other_panes. revert t. induction p as [|b p IH]; intros t Hs.
  - cbn in Hs. simplify_eq. cbn. rewrite Z.eqb_refl. cbn. rewrite Z.eqb_refl. set_solver.
  - destruct t as [|d a c g1 g2]; [done|].
    destruct b; cbn in Hs |- *; destruct (IH _ Hs) as (H1 & H2 & H3);
      rewrite !List.filter_app, !fmap_app, H1, H3; set_solver.
Qed.

Lemma adopt_manager_ok paneId leafId m : manager_ok m -> manager_ok (snd (adoptLeafId paneId leafId m)).
Proof.
  intros H. unfold adoptLeafId. destruct (map_get paneId (pm_panes m)) as [current|] eqn:Ec; [|done].
  destruct (adoptPaneLeafId paneId current leafId (pm_identities m)) as [reg|] eqn:Ea; [|done].
  assert (Hc : map_get paneId (leafIdByNumericId (pm_identities m)) = Some current) by by rewrite (mo_same m H).
  destruct (adopt_ok _ _ _ _ _ (mo_registry m H) Hc Ea) as (Hreg & Hid & Hoth).
  assert (Hkeys : map_keys (map_set paneId leafId (pm_panes m)) = map_keys (pm_panes m)).
  { apply map_keys_set_in. by eapply map_get_keys. }
  cbn. split; cbn -[map_keys]; rewrite ?Hkeys.
  - destruct (container_path_some m paneId current H Ec) as (t & p & Ht & Hp & Hs).
    unfold container_path in Hp. rewrite Ec, Ht in Hp. rewrite Ht, Hp. cbn.
    pose proof (tree_ids_nodup m H) as Hnd. pose proof (mo_tree m H) as Hperm. rewrite Ht in Hnd, Hperm.
    destruct (rename_panes paneId current leafId p t Hs) as (H1 & H2 & H3).
    rewrite (set_other_panes _ _ current); [|apply (mo_keys m H) | by apply map_get_elem].
    rewrite <- (other_panes_perm paneId _ _ Hperm). cbn [element_panes].
    etransitivity; [apply (other_panes_split paneId leafId); [by rewrite H3 | exact H2]|]. by rewrite H1.
  - done.
  - intros i. rewrite map_get_set. destruct (decide (paneId = i)) as [<-|Hne]; [done|].
    unfold getLeafId in Hoth. rewrite Hoth by done. apply (mo_same m H).
  - apply keys_ok_set, (mo_keys m H).
  - apply (mo_next m H).
  - apply (mo_first m H).
  - pose proof (mo_active m H) as Ha. destruct (pm_activePaneId m); [done|]. by rewrite Ha in Ec.
Qed.

(** ** Every sequence of calls *)

Inductive manager_op :=
  | op_initial (hint : option jsstring)
  | op_split (paneId : Z) (direction : TerminalPaneSplitDirection) (ratio : option spec_float) (hint : option jsstring)
  | op_split_around (ids : list jsstring) (fallback : Z) (direction : TerminalPaneSplitDirection)
                    (ratio : option spec_float) (hint ptyId : option jsstring) (before : bool)
  | op_close (paneId : Z)
  | op_detach (paneId : Z)
  | op_activate (paneId : Z)
  | op_adopt (paneId : Z) (leafId : jsstring)
  | op_move (source target : Z) (zone : DropZone)
  | op_equalize
  | op_destroy.

(** One call.  [createInitialPane] is called on an empty root: its one caller, the replay of a
    layout, has a new manager; on another root it does not count as a call. *)
Definition run_op (op : manager_op) (m : PaneManager) : option PaneManager :=
  match op with
  | op_initial hint =>
      match pm_root m with
      | None => option_map snd (createInitialPane mint hint m)
      | Some _ => Some m
      end
  | op_split paneId direction ratio hint => option_map snd (splitPane mint paneId direction ratio hint m)
  | op_split_around ids fallback direction ratio hint ptyId before =>
      option_map snd (splitPaneAroundLeafIds mint ids fallback direction ratio hint ptyId before m)
  | op_close paneId => Some (closePane paneId m)
  | op_detach paneId => Some (snd (detachPaneForExternalMove paneId m))
  | op_activate paneId => Some (setActivePane paneId m)
  | op_adopt paneId leafId => Some (snd (adoptLeafId paneId leafId m))
  | op_move source target zone => Some (movePane source target zone m)
  | op_equalize => Some (equalizePaneSizes m)
  | op_destroy => Some (destroy m)
  end.

Lemma climb_sub_at p k expected t q :
  is_Some (sub_at p t) -> climb p k expected t = Some q -> is_Some (sub_at q t).
Proof.
  intros Hp. induction k as [|k IH]; cbn [climb].
  - destruct (sub_at (take 0 p) t) eqn:E; [|done]. case_if; [|done]. intros [= <-]. by rewrite E.
  - destruct (sub_at (take (S k) p) t) eqn:E; [|apply IH]. case_if; [|apply IH]. intros [= <-]. by rewrite E.
Qed.

Lemma find_container_sub ids m q t :
  pm_root m = Some t -> findMountedSubtreeContainer ids m = Some q -> is_Some (sub_at q t).
Proof.
  intros Ht. unfold findMountedSubtreeContainer. destruct ids as [|[|c first] ids]; [done..|].
  destruct (getNumericIdForLeaf _ _) as [id|]; [|done].
  destruct (container_path id m) as [p|] eqn:Ep; [|done]. rewrite Ht.
  apply climb_sub_at. destruct (container_path_spec m id p t Ht Ep) as [l ->]. by eexists.
Qed.

Lemma split_around_ok ids fallback direction ratio hint ptyId before m r m' : manager_ok m ->
  splitPaneAroundLeafIds mint ids fallback direction ratio hint ptyId before m = Some (r, m') -> manager_ok m'.
Proof.
  intros H. unfold splitPaneAroundLeafIds.
  destruct (match findMountedSubtreeContainer ids m with Some p => Some p | None => container_path fallback m end)
    as [p|] eqn:Ep; [|by intros [= <- <-]].
  destruct (map_get fallback (pm_panes m)) as [l|] eqn:El; [|by intros [= <- <-]].
  destruct (container_path_some m fallback l H El) as (t & q & Ht & Hq & Hs).
  assert (Hsub : is_Some (sub_at p t)).
  { destruct (findMountedSubtreeContainer ids m) eqn:Ef; [simplify_eq; by eapply find_container_sub|].
    rewrite Hq in Ep. simplify_eq. by eexists. }
  destruct Hsub as [sub Hsub].
  destruct (splitManagedPane mint direction ratio hint ptyId before p m) as [[i m1]|] eqn:E; [|done].
  intros [= <- <-]. by destruct (split_spec _ _ _ _ _ _ _ _ _ _ _ H Ht Hsub E) as (? & _ & _ & _ & ?).
Qed.

Lemma split_pane_ok paneId direction ratio hint m r m' : manager_ok m ->
  splitPane mint paneId direction ratio hint m = Some (r, m') -> manager_ok m'.
Proof.
  intros H. unfold splitPane. destruct (container_path paneId m) as [p|] eqn:Ep; [|by intros [= <- <-]].
  assert (Hl : exists l, map_get paneId (pm_panes m) = Some l).
  { unfold container_path in Ep. destruct (map_get paneId (pm_panes m)); [by eexists | done]. }
  destruct Hl as [l Hl]. destruct (container_path_some m paneId l H Hl) as (t & q & Ht & Hq & Hs). simplify_eq.
  destruct (splitManagedPane mint direction ratio hint None false p m) as [[i m1]|] eqn:E; [|done].
  intros [= <- <-]. by destruct (split_spec _ _ _ _ _ _ _ _ _ _ _ H Ht Hs E) as (? & _ & _ & _ & ?).
Qed.

Lemma run_op_ok op m m' : manager_ok m -> run_op op m = Some m' -> manager_ok m'.
Proof.
  intros H. destruct op; cbn; try (intros [= <-]).
  - destruct (pm_root m) as [t|] eqn:Er; [by intros [= <-]|].
    destruct (createInitialPane mint hint m) as [[[i l] m1]|] eqn:E; [|done]. intros [= <-].
    by destruct (initial_spec _ _ _ _ _ H Er E) as (_ & _ & _ & ?).
  - destruct (splitPane mint paneId direction ratio hint m) as [[r m1]|] eqn:E; [|done]. intros [= <-].
    by eapply split_pane_ok.
  - destruct (splitPaneAroundLeafIds mint ids fallback direction ratio hint ptyId before m) as [[r m1]|] eqn:E; [|done].
    intros [= <-]. by eapply split_around_ok.
  - by apply teardown_ok.
  - unfold detachPaneForExternalMove. case_if; [done|]. by apply teardown_ok.
  - by apply set_active_ok.
  - by apply adopt_manager_ok.
  - by apply move_ok.
  - by apply equalize_ok.
  - split; cbn; [done | apply new_registry_ok | done | constructor | set_solver | apply (mo_first m H) | done].
Qed.

Fixpoint run_ops (ops : list manager_op) (m : PaneManager) : option PaneManager :=
  match ops with
  | [] => Some m
  | op :: rest =>
      match run_op op m with
      | Some m => run_ops rest m
      | None => None
      end
  end.

Lemma run_ops_ok ops m m' : manager_ok m -> run_ops ops m = Some m' -> manager_ok m'.
Proof.
  induction ops as [|op ops IH] in m |- *; cbn; intros H; [by intros [= <-]|].
  destruct (run_op op m) as [m1|] eqn:E; [|done]. by apply IH, (run_op_ok op m).
Qed.

Lemma create_total hint m : (pm_minted m + mint_fuel (pm_identities m) <= limit)%nat ->
  is_Some (createPaneInternal mint hint m).
Proof.
  intros Hlim. unfold createPaneInternal.
  destruct (claim_leaf_id mint limit hint (pm_identities m) (pm_minted m) Hlim) as (id & n' & _ & -> & _). by eexists.
Qed.

Lemma run_op_total op m : (pm_minted m + mint_fuel (pm_identities m) <= limit)%nat -> is_Some (run_op op m).
Proof.
  intros Hlim. assert (Hc : forall hint, is_Some (createPaneInternal mint hint m)) by (intros; by apply create_total).
  destruct op; cbn; try by eexists.
  - destruct (pm_root m); [by eexists|]. unfold createInitialPane. destruct (Hc hint) as [[[i0 l0] m1] ->]. by eexists.
  - unfold splitPane. destruct (container_path paneId m); [|by eexists]. unfold splitManagedPane.
    destruct (Hc hint) as [[[i0 l0] m1] ->]. by eexists.
  - unfold splitPaneAroundLeafIds. destruct (match findMountedSubtreeContainer _ _ with Some _ => _ | None => _ end); [|by eexists].
    destruct (map_get fallback (pm_panes m)); [|by eexists]. unfold splitManagedPane.
    destruct (Hc hint) as [[[i0 l0] m1] ->]. by eexists.
Qed.
End operations.

(** C22. In every sequence of calls on a new pane manager, whatever the order (the initial pane
    made on an empty root, as its caller does), the panes it
    keeps are exactly the pane elements of the document, each with a number and a leaf id of
    its own; the identity registry answers the number of a leaf and the leaf of a number
    accordingly; a pane is active as long as there is one; and a call never hangs looking
    for an unclaimed id while enough ids are left to mint. *)
Theorem panes_match_elements mint limit `{!Minting mint limit} n ops m :
  run_ops mint ops (new_manager n) = Some m ->
  (forall id l, (id, l) ∈ element_panes (pm_root m) <-> map_get id (pm_panes m) = Some l)
  /\ NoDup (element_panes (pm_root m)).*1 /\ NoDup (element_panes (pm_root m)).*2
  /\ (forall id l, getNumericIdForLeaf l (pm_identities m) = Some id <-> map_get id (pm_panes m) = Some l)
  /\ (forall id, getLeafId id (pm_identities m) = map_get id (pm_panes m))
  /\ match pm_activePaneId m with
     | Some id => is_Some (map_get id (pm_panes m))
     | None => pm_root m = None
     end
  /\ (forall op, (pm_minted m + mint_fuel (pm_identities m) <= limit)%nat -> is_Some (run_op mint op m)).
Proof.
  intros Hrun. pose proof (run_ops_ok mint limit ops _ _ (new_manager_ok n) Hrun) as H. split_and!.
  - intros id l. by apply tree_pane.
  - by apply tree_ids_nodup.
  - by apply tree_leaves_nodup.
  - intros id l. by apply numeric_id.
  - apply (mo_same m H).
  - pose proof (mo_active m H) as Ha. destruct (pm_activePaneId m) as [a|].
    + destruct (map_get a (pm_panes m)) eqn:E; [by eexists|]. by apply map_get_None in E.
    + pose proof (mo_tree m H) as Ht. rewrite Ha in Ht. destruct (pm_root m) as [t|]; [|done].
      symmetry in Ht. apply Permutation_nil in Ht. exfalso. clear -Ht. induction t; cbn in Ht; [done|].
      apply app_eq_nil in Ht as [? _]. auto.
  - intros op Hlim. by apply (run_op_total mint limit).
Qed.

Definition sample_ops : list manager_op :=
  [op_initial None; op_split 1 vertical None None; op_move 1 2 zone_bottom; op_detach 1; op_close 7].

Definition sample_manager : PaneManager := default (new_manager 0) (run_ops sample_mint sample_ops (new_manager 0)).

Lemma panes_match_elements_witness :
  run_ops sample_mint sample_ops (new_manager 0) = Some sample_manager
  /\ pm_root sample_manager = Some (pane 2 (sample_mint 1))
  /\ getNumericIdForLeaf (sample_mint 1) (pm_identities sample_manager) = Some 2.
Proof.
  assert (Hrun : run_ops sample_mint sample_ops (new_manager 0) = Some sample_manager) by by vm_compute.
  split_and!; [exact Hrun | by vm_compute |].
  destruct (panes_match_elements sample_mint 3 0 sample_ops sample_manager Hrun) as (_ & _ & _ & Hn & _).
  apply Hn. by vm_compute.
Defined.
