(* ===== verification/PaneReplay.v ===== *)
(** Layouts and pane managers together (PaneLayout.v, PaneManager.v): closing a pane is
    removing its leaf, replaying a layout rebuilds its tree and numbers its panes as the
    runtime titles expect. *)

From stdpp Require Import base list sets.
From Stdlib Require Import ZArith Lia ZifyBool SpecFloat.
From S2P Require Import Prelude JsText Json JsMap JsRecord PaneIdentity PaneLayout PaneLayoutSpec.
From S2P Require Import PaneManager PaneManagerSpec.

#[local] Set Warnings "-clear-no-such-hyp".

(** ** The layout an element tree shows *)

Fixpoint layout_of (el : PaneElement) : TerminalPaneLayoutNode :=
  match el with
  | pane _ leafId => leaf leafId
  | pane_split d first second _ _ => split d (layout_of first) (layout_of second) None
  end.

(** A layout without its ratios. *)
Fixpoint skeleton (node : TerminalPaneLayoutNode) : TerminalPaneLayoutNode :=
  match node with
  | leaf leafId => leaf leafId
  | split d first second _ => split d (skeleton first) (skeleton second) None
  end.

Lemma layout_leaves el : leaves (layout_of el) = (panes_in el).*2.
Proof. induction el as [|d a IHa b IHb]; cbn; [done|]. by rewrite fmap_app, IHa, IHb. Qed.

Lemma skeleton_leaves node : leaves (skeleton node) = leaves node.
Proof. induction node as [|d a IHa b IHb]; cbn; [done|]. by rewrite IHa, IHb. Qed.

Lemma skeleton_remove node leafId :
  removeLeafFromTree (skeleton node) leafId
  = (option_map skeleton (fst (removeLeafFromTree node leafId)), snd (removeLeafFromTree node leafId)).
Proof.
  induction node as [id|d a IHa b IHb r]; cbn; [by case_bool_decide|]. rewrite IHa, IHb.
  destruct (removeLeafFromTree a leafId) as [a' ra], (removeLeafFromTree b leafId) as [b' rb]. cbn.
  destruct ra, rb; cbn; try done; destruct a', b'; done.
Qed.

Lemma remove_layout id l el :
  (forall i k, (i, k) ∈ panes_in el -> i = id <-> k = l) ->
  option_map layout_of (remove_pane id el) = fst (removeLeafFromTree (layout_of el) l).
Proof.
  induction el as [i k|d a IHa b IHb g1 g2]; cbn; intros H.
  - specialize (H i k ltac:(set_solver)). destruct (i =? id) eqn:E; bool_prop; case_bool_decide; cbn; naive_solver.
  - specialize (IHa ltac:(intros ? ? ?; apply H; set_solver)). specialize (IHb ltac:(intros ? ? ?; apply H; set_solver)).
    destruct (removeLeafFromTree (layout_of a) l) as [a' ra] eqn:Ea.
    destruct (removeLeafFromTree (layout_of b) l) as [b' rb] eqn:Eb. cbn in IHa, IHb.
    apply remove_leaf in Ea as (_ & _ & Hfa). apply remove_leaf in Eb as (_ & _ & Hfb).
    subst a' b'. destruct ra, rb; try specialize (Hfa eq_refl); try specialize (Hfb eq_refl);
      destruct (remove_pane id a), (remove_pane id b); cbn in *; simplify_eq; congruence.
Qed.

(** The manager and the layouts agree on closing: when the panes of a manager show a
    layout, then after closing (or detaching) a pane they show the layout without its leaf,
    so what [detachTerminalLayoutLeaf] leaves is what is left on the screen; and nothing is
    left exactly when the pane was the last one. *)
Theorem closing_matches_layout mint limit `{!Minting mint limit} n ops m t root paneId leafId :
  run_ops mint ops (new_manager n) = Some m -> pm_root m = Some t -> layout_of t = skeleton root ->
  map_get paneId (pm_panes m) = Some leafId ->
  option_map layout_of (pm_root (closePane paneId m)) = option_map skeleton (fst (removeLeafFromTree root leafId))
  /\ pm_root (closePane paneId m) = pm_root (teardownManagedPane paneId true m)
  /\ (pm_root (closePane paneId m) = None <-> leaves root = [leafId]).
Proof.
  intros Hrun Ht Hl Hp. pose proof (run_ops_ok mint limit ops _ _ (new_manager_ok n) Hrun) as H.
  unfold closePane, teardownManagedPane. rewrite Hp, Ht. cbn [with_panes pm_root].
  assert (Hsame : option_map layout_of (remove_pane paneId t) = option_map skeleton (fst (removeLeafFromTree root leafId))).
  { rewrite (remove_layout paneId leafId t).
    - by rewrite Hl, skeleton_remove.
    - intros i k Hin. assert (Hik : map_get i (pm_panes m) = Some k) by (apply (tree_pane m i k H); by rewrite Ht).
      split; [intros ->; congruence | intros ->; by eapply leaf_names_pane]. }
  split_and!; [done | done|].
  destruct (removeLeafFromTree root leafId) as [node removed] eqn:Er. cbn in Hsame.
  apply remove_leaf in Er as (Hlv & _ & _).
  assert (Hin : leafId ∈ leaves root).
  { rewrite <- skeleton_leaves, <- Hl, layout_leaves. apply list_elem_of_fmap. exists (paneId, leafId). split; [done|].
    apply (tree_pane m paneId leafId H) in Hp. by rewrite Ht in Hp. }
  split.
  - intros Hn. rewrite Hn in Hsame. destruct node; [done|]. cbn in Hlv.
    pose proof (tree_leaves_nodup m H) as Hnd. rewrite Ht in Hnd. cbn in Hnd.
    rewrite <- layout_leaves, Hl, skeleton_leaves in Hnd.
    assert (Hall : forall x, x ∈ leaves root -> x = leafId).
    { intros x Hx. destruct (decide (x = leafId)) as [|Hne]; [done|]. exfalso.
      assert (Hx' : x ∈ others leafId (leaves root)) by by apply elem_others.
      rewrite <- Hlv in Hx'. set_solver. }
    destruct (leaves root) as [|x [|y l]]; [set_solver | by rewrite (Hall x) by set_solver|].
    apply NoDup_cons in Hnd as [Hx _]. destruct Hx. rewrite (Hall x), (Hall y) by set_solver. set_solver.
  - intros Hone. rewrite Hone in Hlv. unfold others in Hlv. cbn in Hlv. rewrite bool_decide_eq_true_2 in Hlv by done.
    destruct node as [node|]; [by destruct (leaves_nonempty node)|]. by destruct (remove_pane paneId t).
Qed.

Definition two_panes_ops : list manager_op := [op_initial None; op_split 1 vertical None None].

Definition two_panes : PaneManager := default (new_manager 0) (run_ops sample_mint two_panes_ops (new_manager 0)).

Lemma closing_matches_layout_witness :
  option_map layout_of (pm_root (closePane 1 two_panes)) = Some (leaf (sample_mint 1))
  /\ pm_root (closePane 1 two_panes) = pm_root (teardownManagedPane 1 true two_panes).
Proof.
  destruct (closing_matches_layout sample_mint 3 0 two_panes_ops two_panes
    (pane_split vertical (pane 1 (sample_mint 0)) (pane 2 (sample_mint 1)) one one)
    (split vertical (leaf (sample_mint 0)) (leaf (sample_mint 1)) None) 1 (sample_mint 0)
    ltac:(by vm_compute) ltac:(by vm_compute) eq_refl ltac:(by vm_compute)) as (H & Hd & _).
  split; [by rewrite H; vm_compute | exact Hd].
Defined.

(** ** Putting a tree in the place of a leaf *)

Fixpoint subst_leaf (l : jsstring) (by_node node : TerminalPaneLayoutNode) : TerminalPaneLayoutNode :=
  match node with
  | leaf id => if decide (id = l) then by_node else node
  | split d first second r => split d (subst_leaf l by_node first) (subst_leaf l by_node second) r
  end.

Lemma subst_absent l n node : l ∉ leaves node -> subst_leaf l n node = node.
Proof.
  induction node as [id|d a IHa b IHb r]; cbn; intros H.
  - rewrite decide_False; [done|]. set_solver.
  - rewrite IHa, IHb by set_solver. done.
Qed.

(** Replacing a leaf of what was put in. *)
Lemma subst_inside x l n n' node : x = l \/ x ∉ leaves node ->
  subst_leaf x n (subst_leaf l n' node) = subst_leaf l (subst_leaf x n n') node.
Proof.
  induction node as [id|d a IHa b IHb r]; cbn; intros H.
  - case_decide; [done|]. cbn. rewrite decide_False; [done|]. destruct H; [congruence | set_solver].
  - rewrite IHa, IHb; [done|..]; destruct H; [by left | right; set_solver | by left | right; set_solver].
Qed.

Lemma layout_update p f t sub l :
  sub_at p t = Some sub -> layout_of sub = leaf l -> NoDup (leaves (layout_of t)) ->
  layout_of (update_at p f t) = subst_leaf l (layout_of (f sub)) (layout_of t).
Proof.
  induction p as [|b p IH] in t |- *; intros Hs Hl Hnd.
  - cbn in Hs. simplify_eq. cbn. rewrite Hl. cbn. by rewrite decide_True.
  - destruct t as [|d a c g1 g2]; [done|].
    assert (Hin : forall u, sub_at p u = Some sub -> l ∈ leaves (layout_of u)).
    { clear -Hl. induction p as [|b p IH]; intros u Hu; [cbn in Hu; simplify_eq; rewrite Hl; set_solver|].
      destruct u as [|d a c g1 g2]; [done|]. destruct b; cbn in *; apply IH in Hu; set_solver. }
    cbn in Hnd. apply NoDup_app in Hnd as (Ha & Hd & Hc).
    destruct b; cbn in Hs |- *; rewrite (IH _ Hs Hl) by done; apply Hin in Hs.
    + rewrite (subst_absent l _ (layout_of a)); [done | set_solver].
    + rewrite (subst_absent l _ (layout_of c)); [done | set_solver].
Qed.

(** ** Replaying *)

(** Consecutive numbers. *)
Fixpoint numbered (k : Z) (ids : list jsstring) : jsmap jsstring :=
  match ids with
  | [] => []
  | l :: rest => (k, l) :: numbered (k + 1) rest
  end.

Lemma numbered_app k a b : numbered k (a ++ b) = numbered k a ++ numbered (k + Z.of_nat (List.length a)) b.
Proof.
  induction a as [|x a IH] in k |- *; cbn [app numbered List.length]; [by rewrite Z.add_0_r|].
  rewrite IH. cbn. do 3 f_equal. lia.
Qed.

Lemma numbered_get k ids i : k <= i -> map_get i (numbered k ids) = ids !! Z.to_nat (i - k).
Proof.
  induction ids as [|x ids IH] in k |- *; cbn [numbered map_get]; intros Hi; [done|].
  destruct (k =? i) eqn:E; bool_prop; [subst; by rewrite Z.sub_diag|].
  rewrite IH by lia. replace (Z.to_nat (i - k)) with (S (Z.to_nat (i - (k + 1)))) by lia. done.
Qed.

Lemma numbered_below k ids i : i < k -> map_get i (numbered k ids) = None.
Proof.
  induction ids as [|x ids IH] in k |- *; cbn [numbered map_get]; intros Hi; [done|].
  rewrite (proj2 (Z.eqb_neq k i)) by lia. apply IH. lia.
Qed.

(** The leaves of a layout, in the order a replay makes their panes. *)
Lemma creation_order node : getLeftmostLeafId node :: collectReplayCreatedPaneLeafIds node ≡ₚ leaves node.
Proof.
  induction node as [id|d a IHa b IHb r]; cbn; [done|]. rewrite <- IHa, <- IHb. cbn. constructor.
  by rewrite (Permutation_middle (collectReplayCreatedPaneLeafIds a)).
Qed.

Lemma collect_leaves node : forall l, l ∈ collectReplayCreatedPaneLeafIds node -> l ∈ leaves node.
Proof. intros l Hl. rewrite <- creation_order. set_solver. Qed.

Lemma rootless_valid s a : resolveRootlessTerminalLayoutLeafId s = Some a -> isTerminalLeafId a = true.
Proof.
  unfold resolveRootlessTerminalLayoutLeafId. set (b := List.filter isTerminalLeafId _).
  assert (Hb : forall x, match b with [y] => Some y | _ => None end = Some x -> isTerminalLeafId x = true).
  { intros x Hx. assert (Hin : In x b) by (destruct b as [|y [|]]; simplify_eq; by left).
    by apply filter_In in Hin as [_ ?]. }
  destruct (truthy (tl_activeLeafId s)) as [x|]; [|apply Hb].
  destruct (isTerminalLeafId x) eqn:Ex; [|apply Hb]. by intros [= <-].
Qed.

Section replay.
Context (mint : nat -> jsstring) (limit : nat) `{!Minting mint limit}.

(** The pane [id] of [m] showing leaf [l], and ids nobody has yet. *)
Definition unclaimed (m : PaneManager) (ids : list jsstring) : Prop :=
  Forall (fun l => isTerminalLeafId l = true /\ forall i, map_get i (pm_panes m) <> Some l) ids.

Lemma unclaimed_registry m l : manager_ok m -> (forall i, map_get i (pm_panes m) <> Some l) ->
  rec_get l (numericIdByLeafId (pm_identities m)) = None.
Proof.
  intros H Hl. destruct (rec_get l _) as [i|] eqn:E; [|done].
  apply (rk_inverse _ (mo_registry m H)) in E. rewrite (mo_same m H) in E. by destruct (Hl i).
Qed.

Lemma claim_hint m l : manager_ok m -> isTerminalLeafId l = true -> (forall i, map_get i (pm_panes m) <> Some l) ->
  claimLeafId mint (Some l) (pm_identities m) (pm_minted m) = Some (l, pm_minted m).
Proof.
  intros H Hv Hl. unfold claimLeafId, rec_has. by rewrite Hv, (unclaimed_registry m l H Hl).
Qed.

(** Splitting with the id of a leaf nobody has makes its pane. *)
Lemma split_hint direction ratio l ptyId before p m t sub : manager_ok m ->
  pm_root m = Some t -> sub_at p t = Some sub ->
  isTerminalLeafId l = true -> (forall i, map_get i (pm_panes m) <> Some l) ->
  exists m', splitManagedPane mint direction ratio (Some l) ptyId before p m = Some (pm_nextPaneId m, m')
    /\ manager_ok m' /\ pm_panes m' = pm_panes m ++ [(pm_nextPaneId m, l)]
    /\ pm_root m' = Some (update_at p (split_element direction ratio before (pane (pm_nextPaneId m) l)) t)
    /\ pm_minted m' = pm_minted m /\ pm_nextPaneId m' = pm_nextPaneId m + 1.
Proof.
  intros H Ht Hs Hv Hl.
  destruct (splitManagedPane mint direction ratio (Some l) ptyId before p m) as [[id m']|] eqn:E.
  - destruct (split_spec mint limit _ _ _ _ _ _ _ _ _ _ _ H Ht Hs E) as (k & Hc & Hr & Hp & Hok).
    destruct (cr_hint _ _ _ _ _ Hc l eq_refl Hv (unclaimed_registry m l H Hl)) as [-> Hn].
    pose proof (cr_id _ _ _ _ _ Hc) as ->. exists m'. split_and!; try done.
    unfold splitManagedPane, createPaneInternal in E. rewrite (claim_hint m l H Hv Hl) in E. cbn in E.
    rewrite Ht in E. injection E as <-. done.
  - unfold splitManagedPane, createPaneInternal in E. by rewrite (claim_hint m l H Hv Hl) in E.
Qed.

Lemma layout_of_wrap d ratio before id l el :
  layout_of (split_element d ratio before (pane id l) el)
  = if before then split d (leaf l) (layout_of el) None else split d (layout_of el) (leaf l) None.
Proof. unfold split_element, wrapInSplit. destruct (split_grows ratio). by destruct before. Qed.

Lemma subst_self l node : subst_leaf l (leaf l) node = node.
Proof. induction node as [id|d a IHa b IHb r]; cbn; [by case_decide; subst | by rewrite IHa, IHb]. Qed.

Lemma unclaimed_leaf m l t : manager_ok m -> pm_root m = Some t -> (forall i, map_get i (pm_panes m) <> Some l) ->
  l ∉ leaves (layout_of t).
Proof.
  intros H Ht Hl. rewrite layout_leaves. intros ([i k] & -> & Hin)%list_elem_of_fmap.
  apply (Hl i), (tree_pane m i k H). by rewrite Ht.
Qed.

(** Leaves that are in none of the panes, nor among those added. *)
Lemma unclaimed_grown m m' added ids : unclaimed m ids -> pm_panes m' = pm_panes m ++ added ->
  (forall l, l ∈ ids -> l ∉ added.*2) -> unclaimed m' ids.
Proof.
  unfold unclaimed. rewrite !Forall_forall. intros H Hp Ha l Hl. destruct (H l Hl) as [Hv Hn]. split; [done|].
  intros i. rewrite Hp, map_get_app. destruct (map_get i (pm_panes m)) eqn:E; [rewrite <- E; apply Hn|].
  intros Hi%map_get_elem. apply (Ha l Hl), list_elem_of_fmap. by exists (i, l).
Qed.

Lemma numbered_leaves k ids : (numbered k ids).*2 = ids.
Proof. induction ids as [|x ids IH] in k |- *; cbn; [done|]. by rewrite IH. Qed.

Lemma tree_layout_nodup m t : manager_ok m -> pm_root m = Some t -> NoDup (leaves (layout_of t)).
Proof. intros H Ht. rewrite layout_leaves. pose proof (tree_leaves_nodup m H) as Hn. by rewrite Ht in Hn. Qed.

(** [restoreNode] puts the tree of [node] in the place of its leftmost leaf. *)
Lemma restore_node node id byLeaf m t :
  manager_ok m -> pm_root m = Some t -> map_get id (pm_panes m) = Some (getLeftmostLeafId node) ->
  NoDup (leaves node) -> unclaimed m (collectReplayCreatedPaneLeafIds node) ->
  exists byLeaf' m' t', restoreNode mint node id byLeaf m = Some (byLeaf', m')
    /\ manager_ok m' /\ pm_root m' = Some t'
    /\ layout_of t' = subst_leaf (getLeftmostLeafId node) (skeleton node) (layout_of t)
    /\ pm_panes m' = pm_panes m ++ numbered (pm_nextPaneId m) (collectReplayCreatedPaneLeafIds node)
    /\ pm_nextPaneId m' = pm_nextPaneId m + Z.of_nat (List.length (collectReplayCreatedPaneLeafIds node))
    /\ pm_minted m' = pm_minted m
    /\ (forall l, l ∉ leaves node -> rec_get l byLeaf' = rec_get l byLeaf)
    /\ (forall l, l ∈ leaves node -> exists i, rec_get l byLeaf' = Some i /\ map_get i (pm_panes m') = Some l).
Proof.
  induction node as [l|d a IHa b IHb r] in id, byLeaf, m, t |- *; intros H Ht Hid Hnd Hun.
  { exists (rec_set l id byLeaf), m, t. cbn. rewrite app_nil_r, Z.add_0_r, subst_self. split_and!; try done.
    - intros x Hx. apply rec_get_set_ne. set_solver.
    - intros x ->%list_elem_of_singleton. exists id. by rewrite rec_get_set_eq. }
  cbn [getLeftmostLeafId leaves collectReplayCreatedPaneLeafIds] in *.
  set (la := getLeftmostLeafId a) in *. set (lb := getLeftmostLeafId b) in *.
  apply NoDup_app in Hnd as (Hna & Hdis & Hnb).
  pose proof (leftmost_elem a : la ∈ leaves a) as Hla. pose proof (leftmost_elem b : lb ∈ leaves b) as Hlb.
  pose proof (creation_order b) as Hob. fold lb in Hob.
  assert (Hnb' : lb ∉ collectReplayCreatedPaneLeafIds b) by (rewrite <- Hob in Hnb; by apply NoDup_cons in Hnb as [? _]).
  apply Forall_cons in Hun as [[Hvb Hnewb] Hun]. apply Forall_app in Hun as [Hua Hub].
  destruct (container_path_some m id la H Hid) as (t0 & p & Ht0 & Hp & Hs). simplify_eq.
  destruct (split_hint d r lb None false p m t _ H Ht Hs Hvb Hnewb) as (m1 & E1 & H1 & Hp1 & Hr1 & Hn1 & Hx1).
  set (t1 := update_at p _ t) in Hr1.
  assert (Hl1 : layout_of t1 = subst_leaf la (split d (leaf la) (leaf lb) None) (layout_of t)).
  { unfold t1. rewrite (layout_update p _ t _ la Hs); [by rewrite layout_of_wrap | done | by apply (tree_layout_nodup m)]. }
  destruct (IHa id byLeaf m1 t1) as (bl2 & m2 & t2 & E2 & H2 & Hr2 & Hl2 & Hp2 & Hx2 & Hn2 & Ho2 & Hi2); try done.
  { by rewrite Hp1, map_get_app, Hid. }
  { eapply unclaimed_grown; [exact Hua | exact Hp1|]. cbn. intros x Hx%collect_leaves. set_solver. }
  assert (Hnew : map_get (pm_nextPaneId m) (pm_panes m) = None).
  { apply map_get_None. intros Hin%(mo_next m H). lia. }
  destruct (IHb (pm_nextPaneId m) bl2 m2 t2) as (bl3 & m3 & t3 & E3 & H3 & Hr3 & Hl3 & Hp3 & Hx3 & Hn3 & Ho3 & Hi3); try done.
  { rewrite Hp2, Hp1, !map_get_app, Hnew. cbn. by rewrite Z.eqb_refl. }
  { eapply unclaimed_grown; [eapply unclaimed_grown; [exact Hub | exact Hp1|] | exact Hp2|]; cbn.
    - set_solver.
    - rewrite numbered_leaves. intros x Hx%collect_leaves Hx'%collect_leaves. by apply (Hdis x). }
  exists bl3, m3, t3. cbn [restoreNode]. unfold splitPane. fold lb. rewrite Hp, E1, E2, E3. split_and!; try done.
  - rewrite Hl3, Hl2, Hl1. rewrite (subst_inside la la) by by left.
    cbn [subst_leaf]. rewrite decide_True by done. rewrite decide_False by (intros Heq; apply (Hdis la Hla); congruence).
    rewrite (subst_inside lb la) by (right; by apply (unclaimed_leaf m lb t)).
    cbn [subst_leaf]. rewrite decide_True by done. rewrite (subst_absent lb); [done|].
    rewrite skeleton_leaves. intros Hin. by apply (Hdis lb).
  - rewrite Hp3, Hp2, Hp1, Hx2, Hx1. cbn [numbered]. rewrite numbered_app, <- !app_assoc. cbn. done.
  - rewrite Hx3, Hx2, Hx1. cbn [List.length]. rewrite length_app. lia.
  - congruence.
  - intros x Hx. rewrite Ho3, Ho2 by set_solver. done.
  - intros x [Hx|Hx]%elem_of_app; [|by apply Hi3]. rewrite Ho3 by by apply Hdis.
    destruct (Hi2 x Hx) as (i & Hi & Hg). exists i. split; [done|]. by rewrite Hp3, map_get_app, Hg.
Qed.

Lemma initial_hint l n : isTerminalLeafId l = true ->
  exists m, createInitialPane mint (Some l) (new_manager n) = Some (FIRST_PANE_ID, l, m)
    /\ manager_ok m /\ pm_root m = Some (pane FIRST_PANE_ID l) /\ pm_panes m = [(FIRST_PANE_ID, l)]
    /\ pm_minted m = n /\ pm_nextPaneId m = FIRST_PANE_ID + 1.
Proof.
  intros Hv. assert (Hc : exists m, createInitialPane mint (Some l) (new_manager n) = Some (FIRST_PANE_ID, l, m)).
  { unfold createInitialPane, createPaneInternal, claimLeafId, rec_has. cbn. rewrite Hv. cbn. by eexists. }
  destruct Hc as [m Hm]. exists m.
  destruct (initial_spec mint limit _ _ _ _ _ (new_manager_ok n) eq_refl Hm) as (_ & Hr & Hp & Hok).
  split_and!; try done; unfold createInitialPane, createPaneInternal, claimLeafId, rec_has in Hm; cbn in Hm;
    rewrite Hv in Hm; cbn in Hm; by injection Hm as <-.
Qed.
End replay.


(** C28. Replaying a stored layout in a new manager ends, and the panes it makes show the
    tree of the normalised layout, with its directions; the map it answers names, for each
    leaf, the pane that has it; and the pane with number [id] is the one the runtime titles
    attribute to it ([resolveNumericPaneLeafId]).  A layout without a tree gives one pane,
    the one it resolves to when it names one. *)
Theorem replay_rebuilds_layout mint limit `{!Minting mint limit} snapshot n layout changed n' :
  (forall s root, snapshot = Some s -> tl_root s = Some root -> fresh mint limit n (leaves root)) ->
  normalizeTerminalLayoutSnapshot mint snapshot n = (layout, changed, n') -> (n' < limit)%nat ->
  exists paneByLeafId m, replayTerminalLayout mint snapshot (new_manager n) = Some (paneByLeafId, m)
    /\ match tl_root layout with
       | Some root =>
           option_map layout_of (pm_root m) = Some (skeleton root)
           /\ (forall l id, l ∈ leaves root -> rec_get l paneByLeafId = Some id <-> map_get id (pm_panes m) = Some l)
           /\ (forall id, map_get id (pm_panes m) = resolveNumericPaneLeafId (Some root) id)
       | None =>
           exists l, isTerminalLeafId l = true /\ pm_root m = Some (pane FIRST_PANE_ID l)
             /\ paneByLeafId = [(l, FIRST_PANE_ID)] /\ (forall a, tl_activeLeafId layout = Some a -> l = a)
       end.
Proof.
  intros Hf Hn Hlim. destruct (normalize_spec mint limit snapshot n layout changed n') as [Hok _]; [done..|lia|].
  unfold replayTerminalLayout. cbn [new_manager pm_minted]. rewrite Hn.
  change (mkManager _ _ _ _ _ n' _) with (new_manager n').
  destruct (tl_root layout) as [root|] eqn:Er.
  - unfold layout_ok in Hok. rewrite Er in Hok. destruct Hok as (Hnd & Hv & _ & _).
    rewrite Forall_forall in Hv.
    destruct (initial_hint mint limit (getLeftmostLeafId root) n') as (m & -> & Hm & Hr & Hp & _ & Hx);
      [apply Hv, leftmost_elem|].
    pose proof (creation_order root) as Hco.
    assert (Hnc : NoDup (getLeftmostLeafId root :: collectReplayCreatedPaneLeafIds root)) by by rewrite Hco.
    apply NoDup_cons in Hnc as [Hnl Hnc].
    destruct (restore_node mint limit root FIRST_PANE_ID [] m _ Hm Hr) as (bl & m' & t' & -> & Hm' & Hr' & Hl & Hp' & _ & _ & _ & Hi).
    + by rewrite Hp.
    + done.
    + apply Forall_forall. intros l Hin. split; [apply Hv; by apply collect_leaves|].
      intros i. rewrite Hp. cbn [map_get]. case_if; [|done]. intros Heq. injection Heq as <-. done.
    + exists bl, m'. split; [done|]. rewrite Hr'. cbn [option_map]. rewrite Hl. cbn [layout_of subst_leaf].
      rewrite decide_True by done. split_and!; [done | |].
      * intros l id Hin. destruct (Hi l Hin) as (i & -> & Hg).
        split; [by intros [= <-] | intros Hg'; f_equal; by eapply leaf_names_pane].
      * intros id. rewrite Hp', Hp, Hx. unfold resolveNumericPaneLeafId, collectLeafIdsInReplayCreationOrder.
        change ([(FIRST_PANE_ID, getLeftmostLeafId root)] ++ numbered (FIRST_PANE_ID + 1) (collectReplayCreatedPaneLeafIds root))
          with (numbered FIRST_PANE_ID (getLeftmostLeafId root :: collectReplayCreatedPaneLeafIds root)).
        case_if; bool_prop; [by apply numbered_below | by apply numbered_get].
  - unfold layout_ok in Hok. rewrite Er in Hok.
    set (hint := resolveRootlessTerminalLayoutLeafId (default layout snapshot)).
    assert (Hh : hint = tl_activeLeafId layout).
    { unfold hint. destruct snapshot as [s|]; [|done]. cbn in Hn |- *. rewrite Hok.
      destruct (tl_root s) as [root|] eqn:Es; [|injection Hn as <- _ _; symmetry; by apply rootless_idem].
      destruct (normalize_rooted_spec mint limit s root n layout changed n' Es) as [root' Hz]; [by eapply Hf | done | lia|].
      rewrite (nz_root _ _ _ _ _ _ _ Hz) in Er. done. }
    destruct hint as [a|] eqn:Ea.
    + destruct (initial_hint mint limit a n') as (m & -> & _ & Hr & _); [by eapply rootless_valid|].
      exists (rec_set a FIRST_PANE_ID []), m. split; [done|]. exists a. split_and!; try done; [by eapply rootless_valid|].
      intros b Hb. congruence.
    + destruct (create_total mint limit None (new_manager n')) as [[[i l] m1] Hc]; [change (n' + 1 <= limit)%nat; lia|].
      unfold createInitialPane. rewrite Hc. pose proof (create_spec mint limit _ _ _ _ _ (new_manager_ok n') Hc) as [Hcr _].
      pose proof (cr_id _ _ _ _ _ Hcr) as Hi. cbn in Hi. subst i.
      eexists _, _. split; [reflexivity|]. exists l. split_and!; [by apply (cr_valid _ _ _ _ _ Hcr) | done | done|].
      intros b Hb. congruence.
Qed.

Lemma replay_rebuilds_layout_witness :
  exists paneByLeafId m,
    replayTerminalLayout sample_mint (Some sample_layout) (new_manager 0) = Some (paneByLeafId, m)
    /\ map_get 3 (pm_panes m) = resolveNumericPaneLeafId (tl_root sample_normal) 3.
Proof.
  destruct (replay_rebuilds_layout sample_mint 3 _ _ _ _ _ sample_fresh sample_normalizes) as (bl & m & E & H); [lia|].
  exists bl, m. split; [exact E|]. destruct (tl_root sample_normal) as [root|] eqn:Er; [|by vm_compute in Er].
  destruct H as (_ & _ & H). apply H.
Defined.
