(* ===== verification/PaneSync.v ===== *)
(** A pane manager that follows the layout of the host (PaneManager.v, [syncLiveLayout]):
    what the planned insertions make of the mounted panes. *)

From stdpp Require Import base list sets.
From Stdlib Require Import ZArith Lia ZifyBool SpecFloat.
From S2P Require Import Prelude JsText Json JsMap JsRecord PaneIdentity PaneLayout PaneLayoutSpec.
From S2P Require Import PaneManager PaneManagerSpec PaneReplay.

#[local] Set Warnings "-clear-no-such-hyp".

(** ** The part of a layout that is mounted *)

Fixpoint prune (ids : list jsstring) (node : TerminalPaneLayoutNode) : option TerminalPaneLayoutNode :=
  match node with
  | leaf l => if mounted ids l then Some (leaf l) else None
  | split d first second _ =>
      match prune ids first, prune ids second with
      | None, rest | rest, None => rest
      | Some first', Some second' => Some (split d first' second' None)
      end
  end.

Lemma prune_leaves ids node : collectLeafIdsInOrder (prune ids node) = mountedLeafIdsIn node ids.
Proof.
  induction node as [l|d a IHa b IHb r]; cbn; [by case_if|]. rewrite <- IHa, <- IHb.
  destruct (prune ids a), (prune ids b); cbn; rewrite ?app_nil_r; done.
Qed.

Lemma mounted_elem ids node l : l ∈ mountedLeafIdsIn node ids <-> l ∈ leaves node /\ l ∈ ids.
Proof.
  induction node as [k|d a IHa b IHb r]; cbn; unfold mounted.
  - case_bool_decide; set_solver.
  - rewrite !elem_of_app, IHa, IHb. tauto.
Qed.

Lemma has_mounted ids node : hasMountedLeaf node ids = true <-> is_Some (prune ids node).
Proof.
  induction node as [k|d a IHa b IHb r]; cbn; [case_if; split; try done; by eexists|].
  rewrite orb_true_iff, IHa, IHb. destruct (prune ids a), (prune ids b); unfold is_Some; naive_solver.
Qed.

Lemma not_mounted ids node : hasMountedLeaf node ids = false <-> prune ids node = None.
Proof.
  rewrite <- not_true_iff_false, has_mounted. destruct (prune ids node); unfold is_Some; naive_solver.
Qed.

(** Only the mounted leaves of the node itself matter. *)
Lemma prune_ext ids ids' node : (forall l, l ∈ leaves node -> l ∈ ids <-> l ∈ ids') -> prune ids node = prune ids' node.
Proof.
  induction node as [k|d a IHa b IHb r]; cbn; intros H.
  - unfold mounted. specialize (H k ltac:(set_solver)). repeat case_bool_decide; naive_solver.
  - rewrite IHa, IHb; [done|..]; intros l Hl; apply H; set_solver.
Qed.

Lemma prune_one ids node l : NoDup (leaves node) -> l ∈ leaves node ->
  (forall x, x ∈ leaves node -> x ∈ ids <-> x = l) -> prune ids node = Some (leaf l).
Proof.
  induction node as [k|d a IHa b IHb r]; cbn; intros Hnd Hl H.
  - apply list_elem_of_singleton in Hl as ->. unfold mounted. rewrite bool_decide_eq_true_2; [done|]. by apply H; set_solver.
  - apply NoDup_app in Hnd as (Ha & Hd & Hb).
    assert (Hnone : forall n, (forall x, x ∈ leaves n -> x ∈ leaves a ++ leaves b) -> l ∉ leaves n -> prune ids n = None).
    { intros n Hsub Hn. apply not_mounted, not_true_iff_false. rewrite has_mounted. intros [n' Hn'].
      pose proof (prune_leaves ids n) as Hp. rewrite Hn' in Hp. cbn in Hp.
      destruct (leaves n') as [|x xs] eqn:Ex; [by destruct (leaves_nonempty n')|].
      assert (Hx : x ∈ mountedLeafIdsIn n ids) by (rewrite <- Hp; set_solver).
      apply mounted_elem in Hx as [Hx Hx']. apply H in Hx'; [congruence | by apply Hsub]. }
    apply elem_of_app in Hl as [Hl|Hl].
    + rewrite (IHa Ha Hl), (Hnone b); [done | set_solver | by apply Hd|]. intros x Hx. apply H. set_solver.
    + rewrite (IHb Hb Hl), (Hnone a); [done | set_solver | intros Hx; by apply (Hd l)|]. intros x Hx. apply H. set_solver.
Qed.

(** Nothing of [node] is mounted. *)
Lemma none_mounted ids node l : prune ids node = None -> l ∈ leaves node -> l ∉ ids.
Proof.
  intros Hn Hl Hin. pose proof (prune_leaves ids node) as Hp. rewrite Hn in Hp. cbn in Hp.
  assert (Hx : l ∈ mountedLeafIdsIn node ids) by by apply mounted_elem. rewrite <- Hp in Hx. set_solver.
Qed.

Lemma prune_new ids node : NoDup (leaves node) -> prune ids node = None ->
  prune (ids ++ [getLeftmostLeafId node]) node = Some (leaf (getLeftmostLeafId node)).
Proof.
  intros Hnd Hn. apply prune_one; [done | apply leftmost_elem|]. intros x Hx.
  rewrite elem_of_app, list_elem_of_singleton. split; [|by right]. intros [Hin|?]; [|done].
  by destruct (none_mounted ids node x Hn Hx).
Qed.

Lemma prune_other ids node new : new ∉ leaves node -> prune (ids ++ [new]) node = prune ids node.
Proof.
  intros Hnew. apply prune_ext. intros l Hl. rewrite elem_of_app, list_elem_of_singleton. split; [|by left].
  by intros [?| ->].
Qed.

Lemma rightmost_mounted ids node : hasMountedLeaf node ids = true ->
  exists l, rightmostMountedLeafId node ids = Some l /\ l ∈ mountedLeafIdsIn node ids.
Proof.
  induction node as [k|d a IHa b IHb r]; cbn; [intros ->; exists k; set_solver|].
  intros H. destruct (hasMountedLeaf b ids) eqn:Eb.
  - destruct (IHb eq_refl) as (l & -> & ?). exists l. set_solver.
  - destruct (rightmostMountedLeafId b ids) as [l|] eqn:El.
    { exists l. split; [done|]. exfalso. clear -Eb El. induction b as [k|d a IHa b IHb r]; cbn in *; [by rewrite Eb in El|].
      apply orb_false_iff in Eb as [? ?]. destruct (rightmostMountedLeafId b ids); auto. }
    rewrite orb_false_r in H. destruct (IHa H) as (l & -> & ?). exists l. set_solver.
Qed.

Lemma leftmost_mounted ids node : hasMountedLeaf node ids = true ->
  exists l, leftmostMountedLeafId node ids = Some l /\ l ∈ mountedLeafIdsIn node ids.
Proof.
  induction node as [k|d a IHa b IHb r]; cbn; [intros ->; exists k; set_solver|].
  intros H. destruct (hasMountedLeaf a ids) eqn:Ea.
  - destruct (IHa eq_refl) as (l & -> & ?). exists l. set_solver.
  - destruct (leftmostMountedLeafId a ids) as [l|] eqn:El.
    { exists l. split; [done|]. exfalso. clear -Ea El. induction a as [k|d a IHa b IHb r]; cbn in *; [by rewrite Ea in El|].
      apply orb_false_iff in Ea as [? ?]. destruct (leftmostMountedLeafId a ids); auto. }
    destruct (IHb H) as (l & -> & ?). exists l. set_solver.
Qed.

(** ** Finding the container of a set of leaves *)

Lemma setsEqual_spec l r : setsEqual l r = true <-> forall x, x ∈ l <-> x ∈ r.
Proof.
  unfold setsEqual. rewrite andb_true_iff, Nat.eqb_eq, forallb_forall. split.
  - intros [Hlen Hall] x.
    assert (Hsub : remove_dups l ⊆ remove_dups r).
    { intros y Hy%list_elem_of_In%Hall. by apply bool_decide_eq_true_1 in Hy. }
    apply NoDup_submseteq in Hsub; [|apply NoDup_remove_dups].
    apply submseteq_length_Permutation in Hsub; [|lia].
    rewrite <- (elem_of_remove_dups l), <- (elem_of_remove_dups r). by rewrite Hsub.
  - intros H. assert (Hp : remove_dups l ≡ₚ remove_dups r).
    { apply NoDup_Permutation; [apply NoDup_remove_dups..|]. intros x. by rewrite !elem_of_remove_dups. }
    split; [by rewrite Hp|]. intros x Hx%list_elem_of_In. apply bool_decide_eq_true_2. by rewrite <- Hp.
Qed.

Lemma sub_at_panes p t sub : sub_at p t = Some sub -> panes_in sub ⊆ panes_in t.
Proof.
  induction p as [|b p IH] in t |- *; [by intros [= ->]|]. destruct t as [|d a c g1 g2]; [done|].
  cbn. destruct b; intros H%IH; set_solver.
Qed.

Lemma path_to_none id t : id ∉ (panes_in t).*1 -> path_to id t = None.
Proof.
  intros H. destruct (path_to id t) as [p|] eqn:E; [|done]. destruct H.
  apply path_to_spec in E as (l & _ & Hin). apply list_elem_of_fmap. by exists (id, l).
Qed.

Lemma path_to_prefix p t sub id l : NoDup (panes_in t).*1 -> sub_at p t = Some sub -> (id, l) ∈ panes_in sub ->
  exists q, path_to id t = Some (p ++ q) /\ path_to id sub = Some q.
Proof.
  intros Hnd Hs Hin. destruct (path_to_is_Some id l sub Hin) as [q Hq]. exists q. split; [|done].
  revert t Hnd Hs. induction p as [|b p IH]; intros t Hnd Hs; [cbn in Hs; by simplify_eq|].
  destruct t as [|d a c g1 g2]; [done|]. cbn in Hnd. rewrite fmap_app in Hnd.
  apply NoDup_app in Hnd as (Ha & Hd & Hc).
  destruct b; cbn in Hs |- *.
  - rewrite path_to_none; [by rewrite (IH c Hc Hs)|]. intros Hida. apply (Hd id Hida).
    apply sub_at_panes in Hs. apply list_elem_of_fmap. exists (id, l). split; [done | by apply Hs].
  - by rewrite (IH a Ha Hs).
Qed.

Lemma panes_nonempty t : panes_in t <> [].
Proof. induction t as [|d a IHa b IHb]; cbn; [done|]. by destruct (panes_in a). Qed.

(** An element strictly inside another lacks one of its leaves. *)
Lemma strictly_inside q t sub : q <> [] -> NoDup (panes_in t).*2 -> sub_at q t = Some sub ->
  exists l, l ∈ (panes_in t).*2 /\ l ∉ (panes_in sub).*2.
Proof.
  destruct q as [|b q]; [done|]. intros _ Hnd Hs. destruct t as [|d a c g1 g2]; [done|]. cbn in Hnd, Hs.
  rewrite fmap_app in Hnd. apply NoDup_app in Hnd as (Ha & Hd & Hc).
  assert (Hfirst : forall u, exists l, l ∈ (panes_in u).*2).
  { intros u. pose proof (panes_nonempty u). destruct (panes_in u) as [|[i l] ps]; [done|]. exists l. cbn. set_solver. }
  destruct b; [destruct (Hfirst a) as [l Hl] | destruct (Hfirst c) as [l Hl]]; exists l; cbn; rewrite fmap_app;
    (split; [set_solver|]); intros Hin; apply sub_at_panes in Hs;
    apply list_elem_of_fmap in Hin as ([i k] & -> & Hin); apply Hs in Hin.
  - apply (Hd _ Hl), list_elem_of_fmap. by exists (i, k).
  - refine (Hd k _ Hl). apply list_elem_of_fmap. by exists (i, k).
Qed.

Lemma climb_finds p q t sub : NoDup (panes_in t).*2 -> (forall l, l ∈ (panes_in t).*2 -> l <> []) ->
  sub_at p t = Some sub -> is_Some (sub_at q sub) ->
  climb (p ++ q) (List.length (p ++ q)) (panes_in sub).*2 t = Some p.
Proof.
  intros Hnd Hne Hs Hq.
  assert (Hids : forall el, panes_in el ⊆ panes_in t -> forall x, x ∈ leaf_ids_in el <-> x ∈ (panes_in el).*2).
  { intros el Hel x. unfold leaf_ids_in. rewrite !list_elem_of_In, filter_In, <- !list_elem_of_In.
    split; [by intros [? _]|]. intros Hx. split; [done|]. unfold nonempty. rewrite negb_true_iff, bool_decide_eq_false.
    apply Hne. apply list_elem_of_fmap in Hx as (e & -> & He). apply list_elem_of_fmap. exists e. auto. }
  assert (Hsubnd : NoDup (panes_in sub).*2).
  { clear -Hnd Hs. revert t Hnd Hs. induction p as [|b p IH]; intros t Hnd Hs; [cbn in Hs; by simplify_eq|].
    destruct t as [|d a c g1 g2]; [done|]. cbn in Hnd, Hs. rewrite fmap_app in Hnd.
    apply NoDup_app in Hnd as (Ha & _ & Hc). destruct b; [by apply (IH c) | by apply (IH a)]. }
  assert (Hhere : setsEqual (leaf_ids_in sub) (panes_in sub).*2 = true).
  { apply setsEqual_spec, Hids. by eapply sub_at_panes. }
  rewrite length_app. remember (List.length q) as n eqn:En. revert q Hq En.
  assert (Hgo : forall n q, is_Some (sub_at q sub) -> (n <= List.length q)%nat ->
            climb (p ++ q) (List.length p + n) (panes_in sub).*2 t = Some p).
  { clear n. induction n as [|n IH]; intros q Hq Hn.
    - rewrite Nat.add_0_r. destruct (List.length p) eqn:El; cbn [climb]; by rewrite <- El, take_app_length, Hs, Hhere.
    - rewrite Nat.add_succ_r. cbn [climb]. rewrite <- Nat.add_succ_r, take_app_add.
      assert (Hex : exists el, sub_at (take (S n) q) sub = Some el).
      { clear -Hq. revert sub Hq. generalize (S n) as k. induction q as [|b q IH]; intros k u Hq; [rewrite take_nil; by eexists|].
        destruct k; [by eexists|]. destruct u as [|d a c g1 g2]; [by destruct Hq|]. cbn in *. by apply IH. }
      destruct Hex as [el Hel]. rewrite (sub_at_app _ _ _ _ Hs), Hel.
      destruct (setsEqual (leaf_ids_in el) (panes_in sub).*2) eqn:E; [|by apply IH; [|lia]].
      exfalso. rewrite setsEqual_spec in E.
      assert (Hne' : take (S n) q <> []) by (destruct q; [cbn in Hn; lia | done]).
      destruct (strictly_inside _ _ _ Hne' Hsubnd Hel) as (l & Hl & Hl').
      apply E, Hids in Hl; [done|]. etrans; [by eapply sub_at_panes | by eapply sub_at_panes]. }
  intros q Hq ->. by apply Hgo.
Qed.

(** ** One insertion *)

Section follow.
Context (mint : nat -> jsstring) (limit : nat) `{!Minting mint limit}.

Lemma valid_nonempty l : isTerminalLeafId l = true -> l <> [].
Proof. by intros H ->. Qed.

Lemma tree_valid m t l : manager_ok m -> pm_root m = Some t -> l ∈ (panes_in t).*2 -> l <> [].
Proof.
  intros H Ht ([i k] & -> & Hin)%list_elem_of_fmap. apply valid_nonempty, (pane_leaf_valid m i k H), (tree_pane m i k H).
  by rewrite Ht.
Qed.

(** The leaves of an element find its container. *)
Lemma find_container m t p sub : manager_ok m -> pm_root m = Some t -> sub_at p t = Some sub ->
  findMountedSubtreeContainer (leaves (layout_of sub)) m = Some p.
Proof.
  intros H Ht Hs. rewrite layout_leaves. pose proof (sub_at_panes p t sub Hs) as Hsub.
  pose proof (tree_ids_nodup m H) as Hi. pose proof (tree_leaves_nodup m H) as Hl. rewrite Ht in Hi, Hl. cbn in Hi, Hl.
  destruct (panes_in sub) as [|[i l] ps] eqn:Ep; [by destruct (panes_nonempty sub)|].
  assert (Hin : (i, l) ∈ panes_in sub) by (rewrite Ep; set_solver).
  assert (Hg : map_get i (pm_panes m) = Some l) by (apply (tree_pane m i l H); rewrite Ht; apply Hsub; set_solver).
  destruct (path_to_prefix p t sub i l Hi Hs Hin) as (q & Hp & Hq). apply path_to_spec in Hq as (k & Hk & _).
  pose proof (climb_finds p q t sub Hl (fun x => tree_valid m t x H Ht) Hs (ex_intro _ _ Hk)) as Hc.
  rewrite Ep in Hc. cbn [fmap list_fmap snd] in Hc |- *. unfold findMountedSubtreeContainer.
  assert (Hne : l <> []) by (apply (tree_valid m t l H Ht), list_elem_of_fmap; exists (i, l); split; [done | apply Hsub; set_solver]).
  destruct l as [|c l]; [done|]. rewrite (proj2 (numeric_id m _ i H) Hg). unfold container_path. by rewrite Hg, Ht, Hp, Hc.
Qed.

Lemma insert_ok ptys m t p sub source l d before ratio pty :
  manager_ok m -> pm_root m = Some t -> sub_at p t = Some sub -> source ∈ leaves (layout_of sub) ->
  isTerminalLeafId l = true -> (forall i, map_get i (pm_panes m) <> Some l) ->
  truthy (rec_get l (default [] ptys)) = Some pty ->
  exists m' ratio', apply_insertion mint ptys (mkInsertion source (leaves (layout_of sub)) l d before ratio) m = Some (true, m')
    /\ manager_ok m' /\ pm_panes m' = pm_panes m ++ [(pm_nextPaneId m, l)]
    /\ pm_root m' = Some (update_at p (split_element d ratio' before (pane (pm_nextPaneId m) l)) t).
Proof.
  intros H Ht Hs Hsrc Hv Hl Hpty.
  rewrite layout_leaves in Hsrc. apply list_elem_of_fmap in Hsrc as ([i k] & Heq & Hin). cbn in Heq. subst k.
  assert (Hg : map_get i (pm_panes m) = Some source).
  { apply (tree_pane m i source H). rewrite Ht. by apply (sub_at_panes p t sub Hs). }
  assert (Hnone : getNumericIdForLeaf l (pm_identities m) = None).
  { destruct (getNumericIdForLeaf l (pm_identities m)) as [j|] eqn:E; [|done]. apply (numeric_id m l j H) in E. by destruct (Hl j). }
  unfold apply_insertion. cbn [li_newLeafId li_sourceLeafId li_sourceLeafIds li_direction li_before li_ratio].
  rewrite Hpty, Hnone, (proj2 (numeric_id m source i H) Hg).
  set (ratio' := match ratio with Some r => Some (if before then one_minus r else r) | None => None end).
  unfold splitPaneAroundLeafIds. rewrite (find_container m t p sub H Ht Hs), Hg.
  destruct (split_hint mint limit d ratio' l (Some pty) before p m t sub H Ht Hs Hv Hl) as (m' & -> & Hok & Hp & Hr & _ & _).
  exists m', ratio'. done.
Qed.

(** ** A subtree of the host's layout *)

Context (ptys : option (jsrecord jsstring)).

(** The manager shows [t] and [M] are the leaves of its panes. *)
Record scene (m : PaneManager) (t : PaneElement) (M : list jsstring) : Prop := {
  sc_ok : manager_ok m;
  sc_root : pm_root m = Some t;
  sc_mounted : forall x, x ∈ M <-> x ∈ (pm_panes m).*2
}.

(** The leaves of [node] are distinct ids, mounted or with a terminal to attach. *)
Definition wanted (M : list jsstring) (node : TerminalPaneLayoutNode) : Prop :=
  NoDup (leaves node)
  /\ forall l, l ∈ leaves node ->
       isTerminalLeafId l = true /\ (l ∈ M \/ is_Some (truthy (rec_get l (default [] ptys)))).

(** From [m] to [m'] by the insertions [J]: the element at [p] shows [node]. *)
Record followed (node : TerminalPaneLayoutNode) (p : path) (t : PaneElement) (M : list jsstring) (m : PaneManager)
    (M' : list jsstring) (J : list TerminalLiveLayoutInsertion) (m' : PaneManager) : Prop := {
  fo_apply : apply_insertions mint ptys J m = Some (match J with [] => false | _ => true end, m');
  fo_scene : exists sub, scene m' (update_at p (fun _ => sub) t) M' /\ layout_of sub = skeleton node;
  fo_panes : exists added, pm_panes m' = pm_panes m ++ added;
  fo_leaves : forall x, x ∈ M' <-> x ∈ M \/ x ∈ leaves node
}.

Definition ensures (node : TerminalPaneLayoutNode) : Prop :=
  forall p t sub M I m, scene m t M -> wanted M node -> sub_at p t = Some sub -> prune M node = Some (layout_of sub) ->
  exists M' J m', ensureSubtree node (M, I) = (true, (M', I ++ J)) /\ followed node p t M m M' J m'.

Lemma wanted_grows M M' node : wanted M node -> (forall x, x ∈ M -> x ∈ M') -> wanted M' node.
Proof. intros [? H] Hsub. split; [done|]. intros l Hl. destruct (H l Hl) as [? [?|?]]; auto. Qed.

Lemma wanted_split M d a b r : wanted M (split d a b r) ->
  wanted M a /\ wanted M b /\ (forall x, x ∈ leaves a -> x ∉ leaves b).
Proof.
  intros [Hnd H]. cbn in *. apply NoDup_app in Hnd as (? & ? & ?).
  split_and!; [split; [done|] | split; [done|] | done]; intros l Hl; apply H; set_solver.
Qed.

Lemma apply_insertions_app J K m m1 m2 b c :
  apply_insertions mint ptys J m = Some (b, m1) -> apply_insertions mint ptys K m1 = Some (c, m2) ->
  apply_insertions mint ptys (J ++ K) m = Some (b || c, m2).
Proof.
  induction J as [|x J IH] in m, b |- *; cbn; [intros [= <- <-] ->; done|].
  destruct (apply_insertion mint ptys x m) as [[b1 m0]|]; [|done].
  destruct (apply_insertions mint ptys J m0) as [[b2 m1']|] eqn:E; [|done]. intros [= <- <-] HK.
  by rewrite (IH m0 b2 E HK), orb_assoc.
Qed.

Lemma followed_app node node' p q t t1 M M1 M2 m m1 m2 J K : followed node p t M m M1 J m1 ->
  followed node' q t1 M1 m1 M2 K m2 ->
  apply_insertions mint ptys (J ++ K) m = Some (match J ++ K with [] => false | _ => true end, m2)
  /\ (exists added, pm_panes m2 = pm_panes m ++ added)
  /\ (forall x, x ∈ M2 <-> x ∈ M \/ x ∈ leaves node \/ x ∈ leaves node').
Proof.
  intros [Ha _ [x1 Hp] Hl] [Ha' _ [x2 Hp'] Hl']. split_and!.
  - rewrite (apply_insertions_app _ _ _ _ _ _ _ Ha Ha'). by destruct J, K.
  - exists (x1 ++ x2). by rewrite Hp', Hp, app_assoc.
  - intros x. rewrite Hl', Hl. tauto.
Qed.

(** The two children of a mounted split, in either order. *)
Lemma ensure_children (s : bool) d a b r sa sb g1 g2 p t M I m : ensures a -> ensures b ->
  scene m t M -> wanted M (split d a b r) -> sub_at p t = Some (pane_split d sa sb g1 g2) ->
  prune M a = Some (layout_of sa) -> prune M b = Some (layout_of sb) ->
  exists M' J m',
    snd (ensureSubtree (if s then a else b) (snd (ensureSubtree (if s then b else a) (M, I)))) = (M', I ++ J)
    /\ followed (split d a b r) p t M m M' J m'.
Proof.
  intros IHa IHb Hsc Hw Hs Ha Hb. destruct (wanted_split _ _ _ _ _ Hw) as (Hwa & Hwb & Hdis).
  assert (Hfirst : exists M1 J m1, ensureSubtree (if s then b else a) (M, I) = (true, (M1, I ++ J))
            /\ followed (if s then b else a) (p ++ [s]) t M m M1 J m1).
  { destruct s; [apply (IHb _ _ sb) | apply (IHa _ _ sa)]; try done; by rewrite (sub_at_app _ _ _ _ Hs). }
  destruct Hfirst as (M1 & J & m1 & E1 & F1). destruct (fo_scene _ _ _ _ _ _ _ _ F1) as (c1 & Hsc1 & Hc1).
  pose proof (fo_leaves _ _ _ _ _ _ _ _ F1) as Hl1.
  rewrite update_at_app in Hsc1. set (t1 := update_at p _ t) in Hsc1.
  assert (Hs1 : sub_at p t1 = Some (if s then pane_split d sa c1 g1 g2 else pane_split d c1 sb g1 g2)).
  { unfold t1. rewrite (sub_at_update _ _ _ _ Hs). by destruct s. }
  assert (Hsecond : exists M2 K m2, ensureSubtree (if s then a else b) (M1, I ++ J) = (true, (M2, (I ++ J) ++ K))
            /\ followed (if s then a else b) (p ++ [negb s]) t1 M1 m1 M2 K m2).
  { destruct s; [apply (IHa _ _ sa) | apply (IHb _ _ sb)]; try done;
      try (rewrite (sub_at_app _ _ _ _ Hs1); done); try (eapply wanted_grows; [done|]; intros; apply Hl1; by left).
    - rewrite <- Ha. apply prune_ext. intros l Hl. rewrite Hl1. split; [|by left]. intros [?|Hb']; [done | by destruct (Hdis l)].
    - rewrite <- Hb. apply prune_ext. intros l Hl. rewrite Hl1. split; [|by left]. intros [?|Ha']; [done | by destruct (Hdis l)]. }
  destruct Hsecond as (M2 & K & m2 & E2 & F2). destruct (fo_scene _ _ _ _ _ _ _ _ F2) as (c2 & Hsc2 & Hc2).
  destruct (followed_app _ _ _ _ _ _ _ _ _ _ _ _ _ _ F1 F2) as (Hap & Hpn & Hlv).
  exists M2, (J ++ K), m2. rewrite E1. cbn [snd]. rewrite E2. cbn [snd]. split; [by rewrite app_assoc|]. split; [done | | done|].
  - exists (pane_split d (if s then c2 else c1) (if s then c1 else c2) g1 g2).
    rewrite update_at_app in Hsc2. unfold t1 in Hsc2. rewrite update_at_twice in Hsc2.
    rewrite (update_at_ext p _ (fun _ => pane_split d (if s then c2 else c1) (if s then c1 else c2) g1 g2) _ _ Hs) in Hsc2
      by by destruct s.
    split; [done|]. cbn. by destruct s; rewrite Hc1, Hc2.
  - intros x. rewrite Hlv. cbn. rewrite elem_of_app. destruct s; tauto.
Qed.

Lemma update_at_here p t sub : sub_at p t = Some sub -> update_at p (fun _ => sub) t = t.
Proof.
  induction p as [|b p IH] in t |- *; [by intros [= ->]|]. destruct t as [|d a c g1 g2]; [done|].
  destruct b; cbn; intros Hs; by rewrite (IH _ Hs).
Qed.

Lemma split_element_shape d ratio before created el : exists g1 g2,
  split_element d ratio before created el = if before then pane_split d created el g1 g2 else pane_split d el created g1 g2.
Proof. unfold split_element, wrapInSplit. destruct (split_grows ratio) as [x y], before; by eexists _, _. Qed.

(** The leftmost leaf of the other side, beside the mounted leaves of [side]. *)
Lemma insert_beside before d ratio side other source M I m t p sub :
  scene m t M -> wanted M side -> wanted M other -> sub_at p t = Some sub ->
  hasMountedLeaf other M = false -> prune M side = Some (layout_of sub) -> source ∈ mountedLeafIdsIn side M ->
  let new := getLeftmostLeafId other in
  exists insertion m1 n g1 g2,
    plan_insertion (Some source) side new d before ratio (M, I) = (M ++ [new], I ++ [insertion])
    /\ apply_insertion mint ptys insertion m = Some (true, m1)
    /\ scene m1 (update_at p (fun _ => if before then pane_split d (pane n new) sub g1 g2
                                        else pane_split d sub (pane n new) g1 g2) t) (M ++ [new])
    /\ pm_panes m1 = pm_panes m ++ [(n, new)].
Proof.
  intros [H Ht Hm] [_ Hside] [_ Hother] Hs Hno Hp Hsrc new. pose proof (leftmost_elem other : new ∈ leaves other) as Hnew.
  assert (Hnm : new ∉ M).
  { by apply (none_mounted M other); [apply not_mounted|]. }
  destruct (Hother new Hnew) as [Hv [?|[pty Hpty]]]; [done|].
  pose proof (prune_leaves M side) as Hids. rewrite Hp in Hids. cbn in Hids.
  pose proof (proj1 (mounted_elem _ _ _) Hsrc) as [Hin _]. destruct (Hside source Hin) as [Hvs _].
  assert (Hfree : forall i, map_get i (pm_panes m) <> Some new).
  { intros i Hi%map_get_elem. apply Hnm, Hm, list_elem_of_fmap. by exists (i, new). }
  destruct (insert_ok ptys m t p sub source new d before ratio pty H Ht Hs) as (m1 & ratio' & Ha & Hok & Hpn & Hr);
    [by rewrite Hids | done..|].
  destruct (split_element_shape d ratio' before (pane (pm_nextPaneId m) new) sub) as (g1 & g2 & Hshape).
  eexists _, m1, (pm_nextPaneId m), g1, g2. split_and!; [|exact Ha| |done].
  - unfold plan_insertion. destruct source as [|c source]; [done|]. cbn [truthy fst snd]. unfold mounted.
    rewrite bool_decide_eq_false_2 by done. by rewrite Hids.
  - split; [done | | intros x; rewrite Hpn, fmap_app, !elem_of_app, Hm; done].
    rewrite Hr. f_equal. by apply (update_at_ext p _ _ t sub).
Qed.

(** An insertion, and what follows it. *)
Lemma followed_insertion node p t el M M' m m1 m' new n insertion J :
  apply_insertion mint ptys insertion m = Some (true, m1) -> pm_panes m1 = pm_panes m ++ [(n, new)] ->
  new ∈ leaves node -> followed node p (update_at p (fun _ => el) t) (M ++ [new]) m1 M' J m' ->
  followed node p t M m M' (insertion :: J) m'.
Proof.
  intros Ha Hp Hnew [Hap (sub & Hsc & Hl) [added Had] Hlv]. split.
  - cbn. by rewrite Ha, Hap.
  - exists sub. rewrite update_at_twice in Hsc. done.
  - exists ((n, new) :: added). by rewrite Had, Hp, <- app_assoc.
  - intros x. rewrite Hlv, elem_of_app, list_elem_of_singleton. split; [intros [[?| ->]|?]; auto | tauto].
Qed.

Lemma ensure_subtree node : ensures node.
Proof.
  induction node as [l|d a IHa b IHb r]; intros p t sub M I m Hsc Hw Hs Hp.
  { cbn in Hp |- *. destruct (mounted M l) eqn:El; [|done]. injection Hp as Hp. exists M, [], m. rewrite app_nil_r.
    split; [done|]. split; [done | | exists []; by rewrite app_nil_r|].
    - exists sub. by rewrite (update_at_here _ _ _ Hs).
    - intros x. cbn. unfold mounted in El. apply bool_decide_eq_true in El. set_solver. }
  destruct (wanted_split _ _ _ _ _ Hw) as (Hwa & Hwb & Hdis).
  cbn [ensureSubtree fst]. cbn [prune] in Hp.
  destruct (hasMountedLeaf a M) eqn:Ea, (hasMountedLeaf b M) eqn:Eb; cbn [negb andb].
  - apply has_mounted in Ea as [a' Ha]. apply has_mounted in Eb as [b' Hb]. rewrite Ha, Hb in Hp. injection Hp as Hp.
    destruct sub as [|d' sa sb g1 g2]; [done|]. cbn in Hp. injection Hp as <- -> ->.
    destruct (ensure_children false d a b r sa sb g1 g2 p t M I m) as (M' & J & m' & E & F); try done.
    exists M', J, m'. by rewrite E.
  - pose proof (rightmost_mounted _ _ Ea) as (source & -> & Hsrc). pose proof Eb as Hb. apply not_mounted in Hb.
    apply has_mounted in Ea as [a' Ha]. rewrite Ha, Hb in Hp. rewrite Hp in Ha.
    destruct (insert_beside false d r a b source M I m t p sub) as (ins & m1 & n & g1 & g2 & -> & Hap & Hsc1 & Hpn); try done.
    set (new := getLeftmostLeafId b) in *. pose proof (leftmost_elem b : new ∈ leaves b) as Hin.
    destruct (ensure_children true d a b r sub (pane n new) g1 g2 p _ (M ++ [new]) (I ++ [ins]) m1 IHa IHb Hsc1)
      as (M' & J & m' & E & F).
    + eapply wanted_grows; [done|]. set_solver.
    + by rewrite (sub_at_update _ _ _ _ Hs).
    + rewrite <- Ha. apply prune_other. intros Hl. by apply (Hdis new).
    + by apply prune_new; [apply Hwb|].
    + exists M', (ins :: J), m'. cbn [snd] in E |- *. rewrite E, <- app_assoc. split; [done|].
      eapply followed_insertion; [done | done | cbn; set_solver | done].
  - pose proof (leftmost_mounted _ _ Eb) as (source & -> & Hsrc). pose proof Ea as Ha. apply not_mounted in Ha.
    apply has_mounted in Eb as [b' Hb]. rewrite Ha, Hb in Hp. rewrite Hp in Hb.
    destruct (insert_beside true d r b a source M I m t p sub) as (ins & m1 & n & g1 & g2 & -> & Hap & Hsc1 & Hpn); try done.
    set (new := getLeftmostLeafId a) in *. pose proof (leftmost_elem a : new ∈ leaves a) as Hin.
    destruct (ensure_children false d a b r (pane n new) sub g1 g2 p _ (M ++ [new]) (I ++ [ins]) m1 IHa IHb Hsc1)
      as (M' & J & m' & E & F).
    + eapply wanted_grows; [done|]. set_solver.
    + by rewrite (sub_at_update _ _ _ _ Hs).
    + by apply prune_new; [apply Hwa|].
    + rewrite <- Hb. apply prune_other. by apply Hdis.
    + exists M', (ins :: J), m'. cbn [snd] in E |- *. rewrite E, <- app_assoc. split; [done|].
      eapply followed_insertion; [done | done | cbn; set_solver | done].
  - apply not_mounted in Ea, Eb. by rewrite Ea, Eb in Hp.
Qed.
End follow.

Lemma all_mounted_skeleton ids node : (forall l, l ∈ leaves node -> l ∈ ids) -> prune ids node = Some (skeleton node).
Proof.
  induction node as [l|d a IHa b IHb r]; cbn; intros H.
  - unfold mounted. rewrite bool_decide_eq_true_2; [done|]. apply H. set_solver.
  - rewrite IHa, IHb by set_solver. done.
Qed.

(** With every leaf mounted there is nothing to insert. *)
Lemma all_mounted_plan node M I : (forall l, l ∈ leaves node -> l ∈ M) -> ensureSubtree node (M, I) = (true, (M, I)).
Proof.
  induction node as [l|d a IHa b IHb r]; cbn; intros H.
  - unfold mounted. rewrite bool_decide_eq_true_2; [done|]. apply H. set_solver.
  - assert (Hb : forall n, (forall l, l ∈ leaves n -> l ∈ M) -> hasMountedLeaf n M = true).
    { intros n Hn. apply has_mounted. rewrite all_mounted_skeleton by done. by eexists. }
    rewrite !Hb by set_solver. cbn [negb andb]. rewrite IHa by set_solver. cbn [snd]. rewrite IHb by set_solver. done.
Qed.

Lemma set_active_same id m : pm_root (setActivePane id m) = pm_root m /\ pm_panes (setActivePane id m) = pm_panes m.
Proof. unfold setActivePane. by destruct (map_get id (pm_panes m)). Qed.

(** C9. A pane manager that shows the part of the host's layout it has mounted follows the
    host: when each missing leaf comes with the terminal to attach, the synchronisation
    ends, and the panes then show the host's tree, with its directions and order; the panes
    that were there keep their numbers and leaves; when a pane was missing, the host's
    active leaf becomes the active pane; and a second synchronisation changes nothing. *)
Theorem live_layout_follows_host mint limit `{!Minting mint limit} n ops m t layout root :
  run_ops mint ops (new_manager n) = Some m -> pm_root m = Some t -> tl_root layout = Some root ->
  wanted (tl_ptyIdsByLeafId layout) (pm_panes m).*2 root ->
  prune (pm_panes m).*2 root = Some (layout_of t) ->
  exists m', syncLiveLayout mint layout m = Some m'
    /\ option_map layout_of (pm_root m') = Some (skeleton root)
    /\ (exists added, pm_panes m' = pm_panes m ++ added)
    /\ (forall l a, l ∈ leaves root -> l ∉ (pm_panes m).*2 -> truthy (tl_activeLeafId layout) = Some a ->
          a ∈ leaves root -> exists id, pm_activePaneId m' = Some id /\ map_get id (pm_panes m') = Some a)
    /\ syncLiveLayout mint layout m' = Some m'.
Proof.
  intros Hrun Ht Hroot Hw Hp. pose proof (run_ops_ok mint limit ops _ _ (new_manager_ok n) Hrun) as H.
  assert (Hsc : scene m t (pm_panes m).*2) by by split.
  destruct (ensure_subtree mint limit (tl_ptyIdsByLeafId layout) root [] t t _ [] m Hsc Hw eq_refl Hp)
    as (M' & J & m1 & HE & [Hap (sub & [Hok1 Hr1 Hm1] & Hsub) Hadd Hlv]).
  cbn in Hr1. assert (Hin : forall l, l ∈ leaves root -> l ∈ (pm_panes m1).*2) by (intros l Hl; apply Hm1, Hlv; auto).
  assert (Hagain : forall m2, pm_panes m2 = pm_panes m1 -> syncLiveLayout mint layout m2 = Some m2).
  { intros m2 Hm2. unfold syncLiveLayout, planTerminalLiveLayoutInsertions. rewrite Hroot, Hm2.
    by rewrite all_mounted_plan. }
  unfold syncLiveLayout at 1, planTerminalLiveLayoutInsertions. rewrite Hroot, HE. cbn [snd app].
  destruct J as [|x J].
  { cbn in Hap. injection Hap as <-. exists m. split_and!; try done.
    - by rewrite Hr1; cbn; rewrite Hsub.
    - intros l a Hl Hno. destruct Hno. by apply Hin.
    - by apply Hagain. }
  rewrite Hap. set (m2 := emit_event PersistLayoutSnapshot m1). change (pm_identities m2) with (pm_identities m1).
  set (target := match match truthy (tl_activeLeafId layout) with Some _ => _ | None => _ end with Some _ => _ | None => _ end).
  assert (Htarget : forall a, truthy (tl_activeLeafId layout) = Some a -> a ∈ leaves root ->
            exists id, target = Some id /\ map_get id (pm_panes m1) = Some a).
  { intros a Ha [[id a'] [-> Hid]]%Hin%list_elem_of_fmap. apply map_elem_get in Hid; [|apply (mo_keys m1 Hok1)].
    exists id. split; [|done]. unfold target. rewrite Ha. cbn. by rewrite (proj2 (numeric_id m1 a' id Hok1) Hid). }
  eexists. split; [reflexivity|].
  assert (Hsame : pm_root (match target with Some id => setActivePane id m2 | None => m2 end) = pm_root m1
                  /\ pm_panes (match target with Some id => setActivePane id m2 | None => m2 end) = pm_panes m1).
  { destruct target as [z|]; [exact (set_active_same z m2) | done]. }
  destruct Hsame as [Hsr Hsp]. split_and!.
  - by rewrite Hsr, Hr1; cbn; rewrite Hsub.
  - by rewrite Hsp.
  - intros l a _ _ Ha Hal. destruct (Htarget a Ha Hal) as (id & -> & Hid). exists id. unfold setActivePane.
    change (pm_panes m2) with (pm_panes m1). by rewrite Hid.
  - by apply Hagain.
Qed.

Definition one_pane : PaneManager := default (new_manager 0) (run_ops sample_mint [op_initial None] (new_manager 0)).

(** The host shows two more panes, one on each side of the mounted one. *)
Definition host_root : TerminalPaneLayoutNode :=
  split vertical (split horizontal (leaf (sample_mint 1)) (leaf (sample_mint 0)) None) (leaf (sample_mint 2)) None.

Definition host_layout : TerminalLayoutSnapshot :=
  mkLayout (Some host_root) (Some (sample_mint 2)) None
    (Some [(sample_mint 1, [49%Z]); (sample_mint 2, [50%Z])]) None None None None.

Lemma live_layout_follows_host_witness :
  exists m', syncLiveLayout sample_mint host_layout one_pane = Some m'
    /\ option_map layout_of (pm_root m') = Some host_root
    /\ exists id, pm_activePaneId m' = Some id /\ map_get id (pm_panes m') = Some (sample_mint 2).
Proof.
  destruct (live_layout_follows_host sample_mint 3 0 [op_initial None] one_pane (pane 1 (sample_mint 0)) host_layout host_root)
    as (m' & E & Hl & _ & Ha & _).
  1-3: by vm_compute.
  - split; [by apply (bool_decide_unpack _); vm_compute|]. intros l Hl.
    change (leaves host_root) with [sample_mint 1; sample_mint 0; sample_mint 2] in Hl.
    rewrite !elem_of_cons in Hl. destruct Hl as [->|[->|[->|Hl]]]; [| | |set_solver]; (split; [by vm_compute|]).
    + right. vm_compute. by eexists.
    + left. vm_compute. left.
    + right. vm_compute. by eexists.
  - by vm_compute.
  - exists m'. split_and!; [exact E | exact Hl|]. apply (Ha (sample_mint 1) (sample_mint 2)).
    + vm_compute. left.
    + by apply (bool_decide_unpack _); vm_compute.
    + by vm_compute.
    + vm_compute. do 2 right. left.
Defined.
