(* ===== verification/OutputSequence.v ===== *)
(** The sequence of a terminal's output after a restored snapshot
    (packages/client/src/terminal-pane/pty: ordered-output-sequence.ts) and the queue of
    the output that arrives while a snapshot is being restored
    (hidden-output-restore-queue.ts).

    [getPtyId()] is an argument.  Sequence numbers are the integers of the host's output:
    a chunk with number [seq] and raw length [n] stands for the range from [seq - n] to
    [seq].  What the queue calls back is a list of effects in order; none of the callbacks
    calls the queue. *)

From stdpp Require Import base list.
From Stdlib Require Import ZArith Lia ZifyBool.
From S2P Require Import Prelude JsText JsRecord.

#[local] Set Warnings "-clear-no-such-hyp".

(** [PtyDataMeta]; an absent object is [no_meta]. *)
Record PtyDataMeta := mkMeta {
  meta_seq : option Z;
  meta_rawLength : option Z;
  meta_background : bool;
  meta_droppedOutput : bool
}.

Definition no_meta : PtyDataMeta := mkMeta None None false false.

Record OrderedOutputChunk := mkChunk {
  oc_data : jsstring;
  oc_seq : option Z;
  oc_rawLength : option Z
}.

Inductive RestoredSnapshotReconciliation :=
  | rec_write (data : jsstring) (meta : PtyDataMeta)
  | drop_duplicate
  | force_fresh_restore.

Record OrderedOutputSequence := mkSequence {
  snapshotBaselineSeq : option Z;
  snapshotBaselinePtyId : option jsstring;
  snapshotExpectedStartSeq : option Z;
  snapshotDeliveryWindowStartSeq : option Z;
  renderedPtyId : option jsstring;
  renderedSeq : option Z;
  channelPtyId : option jsstring;
  channelSeq : option Z
}.

Definition new_sequence : OrderedOutputSequence := mkSequence None None None None None None None None.

(** A string that is neither absent nor empty. *)
Definition given (s : option jsstring) : option jsstring :=
  match s with
  | Some [] | None => None
  | _ => s
  end.

Definition set_baseline (seq : option Z) (ptyId : option jsstring) (expected window : option Z)
    (o : OrderedOutputSequence) : OrderedOutputSequence :=
  mkSequence seq ptyId expected window (renderedPtyId o) (renderedSeq o) (channelPtyId o) (channelSeq o).

Definition set_rendered (ptyId : option jsstring) (seq : option Z) (o : OrderedOutputSequence)
    : OrderedOutputSequence :=
  mkSequence (snapshotBaselineSeq o) (snapshotBaselinePtyId o) (snapshotExpectedStartSeq o)
    (snapshotDeliveryWindowStartSeq o) ptyId seq (channelPtyId o) (channelSeq o).

Definition set_channel (ptyId : option jsstring) (seq : option Z) (o : OrderedOutputSequence)
    : OrderedOutputSequence :=
  mkSequence (snapshotBaselineSeq o) (snapshotBaselinePtyId o) (snapshotExpectedStartSeq o)
    (snapshotDeliveryWindowStartSeq o) (renderedPtyId o) (renderedSeq o) ptyId seq.

Definition set_expected (expected : option Z) (o : OrderedOutputSequence) : OrderedOutputSequence :=
  set_baseline (snapshotBaselineSeq o) (snapshotBaselinePtyId o) expected (snapshotDeliveryWindowStartSeq o) o.

Definition clearSnapshotBaseline (o : OrderedOutputSequence) : OrderedOutputSequence :=
  set_baseline None None None None o.

(** [None] is the answer null: the chunk cannot be cut. *)
Definition sliceAfterSnapshot (chunk : OrderedOutputChunk) (snapshotSeq : option Z) : option jsstring :=
  match snapshotSeq, oc_seq chunk with
  | Some snapshotSeq, Some seq =>
      let rawLength := default (js_length (oc_data chunk)) (oc_rawLength chunk) in
      let startSeq := seq - rawLength in
      if snapshotSeq >=? seq then Some []
      else if snapshotSeq <=? startSeq then Some (oc_data chunk)
      else if negb (rawLength =? js_length (oc_data chunk)) then None
      else Some (slice_from (snapshotSeq - startSeq) (oc_data chunk))
  | _, _ => Some (oc_data chunk)
  end.

Definition recordRendered (ptyId : option jsstring) (seq : option Z) (o : OrderedOutputSequence)
    : OrderedOutputSequence :=
  match seq, given ptyId with
  | Some seq, Some id =>
      if bool_decide (renderedPtyId o = Some id)
      then set_rendered (renderedPtyId o) (Some (Z.max (default 0 (renderedSeq o)) seq)) o
      else set_rendered (Some id) (Some seq) o
  | _, _ => o
  end.

Definition setSnapshotBaseline (ptyId : jsstring) (seq pendingDeliveryStartSeq : option Z)
    (o : OrderedOutputSequence) : OrderedOutputSequence :=
  match seq with
  | None => clearSnapshotBaseline o
  | Some seq =>
      let windowStartSeq := match pendingDeliveryStartSeq with
                            | Some start => Some (Z.min start seq)
                            | None => None
                            end in
      if match windowStartSeq with Some start => start >=? seq | None => false end
      then clearSnapshotBaseline o
      else set_baseline (Some seq) (Some ptyId) (Some seq) windowStartSeq o
  end.

Definition reconcileLive (ptyId : option jsstring) (data : jsstring) (meta : PtyDataMeta)
    (o : OrderedOutputSequence) : RestoredSnapshotReconciliation * OrderedOutputSequence :=
  match snapshotBaselineSeq o with
  | None => (rec_write data meta, o)
  | Some baseline =>
      if negb (bool_decide (ptyId = snapshotBaselinePtyId o))
      then (rec_write data meta, clearSnapshotBaseline o)
      else match meta_seq meta with
      | None => (rec_write data meta, o)
      | Some seq =>
          if match snapshotDeliveryWindowStartSeq o with Some start => seq <=? start | None => false end
          then (rec_write data meta, clearSnapshotBaseline o)
          else
            let rawLength := default (js_length data) (meta_rawLength meta) in
            let startSeq := seq - rawLength in
            let expectedStartSeq := snapshotExpectedStartSeq o in
            let o := set_expected (Some (Z.max (default seq expectedStartSeq) seq)) o in
            if match expectedStartSeq with Some expected => startSeq >? expected | None => false end
            then (force_fresh_restore, o)
            else if seq <=? baseline then (drop_duplicate, o)
            else if startSeq >=? baseline then (rec_write data meta, o)
            else if negb (rawLength =? js_length data) then (force_fresh_restore, o)
            else
              let sliced := slice_from (baseline - startSeq) data in
              (rec_write sliced (mkMeta (Some seq) (Some (js_length sliced)) (meta_background meta)
                                   (meta_droppedOutput meta)), o)
      end
  end.

Definition observeChannel (ptyId : option jsstring) (meta : PtyDataMeta) (o : OrderedOutputSequence)
    : OrderedOutputSequence :=
  match meta_seq meta, given ptyId with
  | Some seq, Some id =>
      if negb (bool_decide (channelPtyId o = Some id)) then set_channel (Some id) (Some seq) o
      else
        let regressed := match channelSeq o with Some last => seq <? last | None => false end in
        let o := if regressed && bool_decide (renderedPtyId o = Some id) then set_rendered None None o else o in
        set_channel (channelPtyId o) (Some seq) o
  | _, _ => o
  end.

Definition sliceAfterRendered (ptyId : option jsstring) (data : jsstring) (meta : PtyDataMeta)
    (o : OrderedOutputSequence) : option jsstring :=
  match renderedPtyId o, renderedSeq o with
  | Some id, Some seq =>
      if negb (bool_decide (ptyId = Some id)) then Some data
      else sliceAfterSnapshot (mkChunk data (meta_seq meta) (meta_rawLength meta)) (Some seq)
  | _, _ => Some data
  end.

Definition advanceExpectedSeq (seq : Z) (o : OrderedOutputSequence) : OrderedOutputSequence :=
  match snapshotExpectedStartSeq o with
  | Some expected => set_expected (Some (Z.max expected seq)) o
  | None => o
  end.

Definition resetForExit (ptyId : jsstring) (o : OrderedOutputSequence) : OrderedOutputSequence :=
  let o := if bool_decide (snapshotBaselinePtyId o = Some ptyId) then clearSnapshotBaseline o else o in
  let o := if bool_decide (renderedPtyId o = Some ptyId) then set_rendered None None o else o in
  if bool_decide (channelPtyId o = Some ptyId) then set_channel None None o else o.

(** ** The queue of a restoration *)

Definition MAX_PENDING_CHARS : Z := 512 * 1024.

Record HiddenOutputRestoreQueue := mkQueue {
  q_chunks : list OrderedOutputChunk;
  q_pendingChars : Z;
  q_hasOverflow : bool
}.

Definition new_queue : HiddenOutputRestoreQueue := mkQueue [] 0 false.

Inductive queue_effect :=
  | SalvageDiscarded (data : jsstring)
  | WriteForeground (data : jsstring).

Inductive DrainOutcome := drained | overflow | refetch.

Definition salvages (chunks : list OrderedOutputChunk) : list queue_effect :=
  (fun chunk => SalvageDiscarded (oc_data chunk)) <$> chunks.

Definition discardSalvagingQueries (q : HiddenOutputRestoreQueue) : HiddenOutputRestoreQueue * list queue_effect :=
  (mkQueue [] 0 (q_hasOverflow q), salvages (q_chunks q)).

(** [queue]; [onActivity], which follows, is its owner's. *)
Definition queue_chunk (data : jsstring) (meta : PtyDataMeta) (q : HiddenOutputRestoreQueue)
    : HiddenOutputRestoreQueue * list queue_effect :=
  if bool_decide (data = []) then (q, [])
  else if q_hasOverflow q then (q, [SalvageDiscarded data])
  else if q_pendingChars q + js_length data >? MAX_PENDING_CHARS then
    let '(q, salvaged) := discardSalvagingQueries q in
    (mkQueue (q_chunks q) (q_pendingChars q) true, salvaged ++ [SalvageDiscarded data])
  else (mkQueue (q_chunks q ++ [mkChunk data (meta_seq meta) (meta_rawLength meta)])
                (q_pendingChars q + js_length data) false, []).

(** One round over the chunks: [Some rest] when a chunk could not be cut. *)
Fixpoint drain_chunks (ptyId : option jsstring) (snapshotSeq : option Z) (chunks : list OrderedOutputChunk)
    (o : OrderedOutputSequence) : option (list OrderedOutputChunk) * OrderedOutputSequence * list queue_effect :=
  match chunks with
  | [] => (None, o, [])
  | chunk :: rest =>
      match sliceAfterSnapshot chunk snapshotSeq with
      | None => (Some chunks, o, [])
      | Some data =>
          let o := match oc_seq chunk with Some seq => advanceExpectedSeq seq o | None => o end in
          let '(o, written) := if bool_decide (data = []) then (o, [])
                               else (recordRendered ptyId (oc_seq chunk) o, [WriteForeground data]) in
          let '(unread, o, effects) := drain_chunks ptyId snapshotSeq rest o in
          (unread, o, written ++ effects)
      end
  end.

(** The writes do not queue chunks, so the first round leaves none. *)
Definition drainAfterSnapshot (ptyId : option jsstring) (snapshotSeq : option Z) (q : HiddenOutputRestoreQueue)
    (o : OrderedOutputSequence)
    : DrainOutcome * HiddenOutputRestoreQueue * OrderedOutputSequence * list queue_effect :=
  if q_hasOverflow q then
    let '(q, salvaged) := discardSalvagingQueries q in
    (overflow, mkQueue (q_chunks q) (q_pendingChars q) false, o, salvaged)
  else
    let '(unread, o, effects) := drain_chunks ptyId snapshotSeq (q_chunks q) o in
    match unread with
    | Some rest => (refetch, mkQueue [] 0 false, o, effects ++ salvages rest)
    | None => (drained, mkQueue [] 0 false, o, effects)
    end.

Definition hasPending (q : HiddenOutputRestoreQueue) : bool := negb (bool_decide (q_chunks q = [])).

Definition takeForAbandonment (q : HiddenOutputRestoreQueue) : list OrderedOutputChunk * bool * HiddenOutputRestoreQueue :=
  (if q_hasOverflow q then [] else q_chunks q, q_hasOverflow q, new_queue).

(** ** The output of the host *)

Section host.
Context (H : jsstring) (shown : jsstring -> jsstring).

(** The host's output from [a] to [b]; [shown] is what is left of a part of it once the
    sequences meant for the client are taken out, the part itself when nothing is. *)
Definition range (a b : Z) : jsstring := take (Z.to_nat (b - a)) (drop (Z.to_nat a) H).

Definition only_removes : Prop := forall x, js_length (shown x) = js_length x -> shown x = x.

(** A chunk of data that stands for the range from [a] to [b]. *)
Definition honest (a b : Z) (data : jsstring) (seq rawLength : option Z) : Prop :=
  0 <= a <= b /\ b <= js_length H /\ data = shown (range a b) /\ seq = Some b
  /\ default (js_length data) rawLength = b - a.

(** Texts that show the output from [a] to [b] one after the other, each a range as it is
    shown, or verbatim. *)
Inductive rendering : Z -> list jsstring -> Z -> Prop :=
  | rendering_nil a : rendering a [] a
  | rendering_cons a b c data rest : a <= b -> data = shown (range a b) \/ data = range a b ->
      rendering b rest c -> rendering a (data :: rest) c.

(** Chunks that follow one another. *)
Inductive contiguous : Z -> list OrderedOutputChunk -> Z -> Prop :=
  | contiguous_nil a : contiguous a [] a
  | contiguous_cons a b c chunk rest : honest a b (oc_data chunk) (oc_seq chunk) (oc_rawLength chunk) ->
      oc_data chunk <> [] -> contiguous b rest c -> contiguous a (chunk :: rest) c.

(** Live data that arrives in order, with gaps perhaps, after [a] and beyond [window]. *)
Inductive in_order (window : option Z) : Z -> list (jsstring * PtyDataMeta) -> Z -> Prop :=
  | in_order_nil a : in_order window a [] a
  | in_order_cons a b c d data meta rest : a <= b -> honest b c data (meta_seq meta) (meta_rawLength meta) ->
      (forall w, window = Some w -> w < c) -> in_order window c rest d -> in_order window a ((data, meta) :: rest) d.
End host.

Definition written (effects : list queue_effect) : list jsstring :=
  omap (fun e => match e with WriteForeground data => Some data | _ => None end) effects.

(** What the live data writes until it asks for a fresh restoration. *)
Fixpoint live_run (ptyId : option jsstring) (live : list (jsstring * PtyDataMeta)) (o : OrderedOutputSequence)
    : list jsstring * bool :=
  match live with
  | [] => ([], false)
  | (data, meta) :: rest =>
      match reconcileLive ptyId data meta o with
      | (force_fresh_restore, _) => ([], true)
      | (drop_duplicate, o) => live_run ptyId rest o
      | (rec_write data _, o) => let '(texts, forced) := live_run ptyId rest o in (data :: texts, forced)
      end
  end.

Section exact.
Context (H : jsstring) (shown : jsstring -> jsstring) (Hshown : only_removes shown).

Lemma range_size a b : 0 <= a <= b -> b <= js_length H -> js_length (range H a b) = b - a.
Proof.
  intros Hab Hb. unfold range, js_length in *. rewrite length_take, length_drop. lia.
Qed.

Lemma range_tail a s b : 0 <= a <= s -> s <= b -> slice_from (s - a) (range H a b) = range H s b.
Proof.
  intros Ha Hs. unfold slice_from, range. rewrite skipn_firstn_comm, drop_drop.
  replace (Z.to_nat a + Z.to_nat (s - a))%nat with (Z.to_nat s) by lia.
  replace (Z.to_nat (b - a) - Z.to_nat (s - a))%nat with (Z.to_nat (b - s)) by lia. done.
Qed.

Lemma honest_verbatim a b data seq rawLength : honest H shown a b data seq rawLength ->
  default (js_length data) rawLength = js_length data -> data = range H a b.
Proof.
  intros (Ha & Hb & -> & _ & Hr) Hl. apply Hshown. rewrite range_size; congruence.
Qed.

(** The part of a range past the snapshot is not empty. *)
Lemma range_nonempty a b : 0 <= a -> a < b -> b <= js_length H -> range H a b <> [].
Proof. intros Ha Hab Hb Hn. pose proof (range_size a b ltac:(lia) Hb) as Hl. rewrite Hn in Hl. change (0 = b - a) in Hl. lia. Qed.

(** The baseline of a snapshot at [s], and the number expected next. *)
Definition baseline_at (p : jsstring) (s expected : Z) (window : option Z) (o : OrderedOutputSequence) : Prop :=
  snapshotBaselineSeq o = Some s /\ snapshotBaselinePtyId o = Some p
  /\ snapshotExpectedStartSeq o = Some expected /\ snapshotDeliveryWindowStartSeq o = window.

Lemma record_baseline p s e w ptyId seq o : baseline_at p s e w o -> baseline_at p s e w (recordRendered ptyId seq o).
Proof. unfold recordRendered. destruct seq, (given ptyId); try done. by case_if. Qed.

Lemma advance_baseline p s e w seq o : baseline_at p s e w o -> baseline_at p s (Z.max e seq) w (advanceExpectedSeq seq o).
Proof. intros (? & ? & He & ?). unfold advanceExpectedSeq. rewrite He. done. Qed.

(** A chunk after the snapshot is written whole, one across it cut, if it can be. *)
Lemma slice_cases a b chunk s : honest H shown a b (oc_data chunk) (oc_seq chunk) (oc_rawLength chunk) -> 0 <= s ->
  sliceAfterSnapshot chunk (Some s) =
    if b <=? s then Some [] else if s <=? a then Some (oc_data chunk)
    else if default (js_length (oc_data chunk)) (oc_rawLength chunk) =? js_length (oc_data chunk)
         then Some (range H s b) else None.
Proof.
  intros Hh Hs. pose proof (honest_verbatim _ _ _ _ _ Hh) as Hv. destruct Hh as (Ha & Hb & _ & Hseq & Hr).
  unfold sliceAfterSnapshot. rewrite Hseq, Hr. rewrite Z.geb_leb. case_if; [done|].
  replace (b - (b - a)) with a by lia. case_if; [done|]. bool_prop.
  destruct (b - a =? js_length (oc_data chunk)) eqn:El; cbn [negb]; [|done]. bool_prop.
  rewrite Hv by (rewrite Hr; lia). f_equal. apply range_tail; lia.
Qed.

Lemma drain_after p s w ptyId chunks o a b : contiguous H shown a chunks b -> 0 <= s -> s <= a -> baseline_at p s a w o ->
  let '(unread, o', effects) := drain_chunks ptyId (Some s) chunks o in
  unread = None /\ rendering H shown a (written effects) b /\ baseline_at p s b w o'.
Proof.
  intros Hc Hs. induction Hc as [a|a b c chunk rest Hh Hne _ IH] in o |- *; cbn [drain_chunks]; intros Ha Ho.
  { split_and!; [done | constructor | done]. }
  rewrite (slice_cases a b chunk s Hh Hs). pose proof Hh as (Hab & Hb & Hd & Hseq & _). rewrite Hseq.
  destruct (b <=? s) eqn:Eb; bool_prop.
  - assert (a = b) as <- by lia. cbn. apply (advance_baseline _ _ _ _ a) in Ho. rewrite Z.max_id in Ho.
    specialize (IH _ ltac:(lia) Ho). by destruct (drain_chunks _ _ _ _) as [[u o'] es].
  - rewrite (proj2 (Z.leb_le s a)) by lia. cbn zeta. rewrite bool_decide_eq_false_2 by done.
    apply (advance_baseline _ _ _ _ b) in Ho. rewrite Z.max_r in Ho by lia.
    apply (record_baseline _ _ _ _ ptyId (Some b)) in Ho. specialize (IH _ ltac:(lia) Ho).
    destruct (drain_chunks _ _ _ _) as [[u o'] es]. destruct IH as (-> & Hr & Ho'). split_and!; [done | | done].
    cbn. apply (rendering_cons _ _ a b); [lia | by left | exact Hr].
Qed.

Lemma drain_exact p s w ptyId chunks o a b : contiguous H shown a chunks b -> 0 <= s -> a <= s -> baseline_at p s s w o ->
  let '(unread, o', effects) := drain_chunks ptyId (Some s) chunks o in
  match unread with
  | None => rendering H shown s (written effects) (Z.max s b) /\ baseline_at p s (Z.max s b) w o'
  | Some _ => written effects = []
  end.
Proof.
  intros Hc Hs. induction Hc as [a|a b c chunk rest Hh Hne Hc IH] in o |- *; cbn [drain_chunks]; intros Ha Ho.
  { rewrite Z.max_l by lia. split; [constructor | done]. }
  rewrite (slice_cases a b chunk s Hh Hs). pose proof Hh as (Hab & Hb & Hd & Hseq & _). rewrite Hseq.
  pose proof (advance_baseline _ _ _ _ b _ Ho) as Ho1.
  destruct (b <=? s) eqn:Eb; bool_prop.
  { cbn. rewrite Z.max_l in Ho1 by lia. specialize (IH _ Eb Ho1). by destruct (drain_chunks _ _ _ _) as [[u o'] es]. }
  rewrite Z.max_r in Ho1 by lia.
  assert (Hrest : forall data, data <> [] -> data = shown (range H s b) \/ data = range H s b ->
    let '(unread, o', effects) := drain_chunks ptyId (Some s) rest (recordRendered ptyId (Some b) (advanceExpectedSeq b o)) in
    match unread with
    | None => rendering H shown s (written (WriteForeground data :: effects)) (Z.max s c) /\ baseline_at p s (Z.max s c) w o'
    | Some _ => written (WriteForeground data :: effects) = []
    end).
  { intros data Hdn Hdata. apply (record_baseline _ _ _ _ ptyId (Some b)) in Ho1.
    assert (Hbc : b <= c) by (clear -Hc; induction Hc as [|? ? ? ? ? (? & _) _ _ IH]; lia).
    pose proof (drain_after p s w ptyId rest _ b c Hc Hs ltac:(lia) Ho1) as Hx.
    destruct (drain_chunks _ _ _ _) as [[u o'] es]. destruct Hx as (-> & Hr & Hx). rewrite Z.max_r by lia.
    split; [|done]. cbn. econstructor; [|exact Hdata|exact Hr]. lia. }
  destruct (s <=? a) eqn:Ea; bool_prop.
  - assert (a = s) as -> by lia. cbn zeta. rewrite bool_decide_eq_false_2 by done.
    specialize (Hrest _ Hne (or_introl Hd)). by destruct (drain_chunks _ _ _ _) as [[u o'] es].
  - case_if; [|done]. cbn zeta. pose proof (range_nonempty s b Hs ltac:(lia) Hb) as Hn.
    rewrite bool_decide_eq_false_2 by done.
    specialize (Hrest _ Hn (or_intror eq_refl)). by destruct (drain_chunks _ _ _ _) as [[u o'] es].
Qed.

Lemma live_exact p s w live o a e : in_order H shown w a live e -> 0 <= s -> 0 <= a -> baseline_at p s (Z.max s a) w o ->
  exists x, rendering H shown (Z.max s a) (fst (live_run (Some p) live o)) x
    /\ (snd (live_run (Some p) live o) = false -> x = Z.max s e).
Proof.
  intros Hl Hs. induction Hl as [a|a b c d data meta rest Hab Hh Hw Hl IH] in o |- *; cbn [live_run]; intros Ha Ho.
  { exists (Z.max s a). split; [constructor | done]. }
  pose proof (honest_verbatim _ _ _ _ _ Hh) as Hv. destruct Hh as (Hbc & Hc & Hd & Hseq & Hr).
  pose proof Ho as (Hb1 & Hp1 & He1 & Hw1). unfold reconcileLive.
  rewrite Hb1, Hp1, bool_decide_eq_true_2, Hseq, Hw1, He1, Hr by done. cbn [negb default].
  replace (match w with Some start => c <=? start | None => false end) with false.
  2: { symmetry. destruct w as [z|]; [|done]. specialize (Hw z eq_refl). lia. }
  replace (c - (c - b)) with b by lia. cbn zeta.
  destruct (b >? Z.max s a) eqn:Eg; [exists (Z.max s a); split; [constructor | done]|]. bool_prop.
  assert (Ho1 : baseline_at p s (Z.max s c) w (set_expected (Some (Z.max (Z.max s a) c)) o)).
  { split_and!; try done. cbn. f_equal. lia. }
  specialize (IH _ ltac:(lia) Ho1).
  destruct IH as (x & Hx & Hf). destruct (c <=? s) eqn:Ecs; bool_prop.
  { exists x. split; [|exact Hf]. assert (Hm : Z.max s a = Z.max s c) by lia. by rewrite <- Hm in Hx. }
  replace (Z.max s c) with c in Hx by lia.
  destruct (b >=? s) eqn:Ebs; bool_prop.
  - exists x. destruct (live_run _ rest _) as [texts forced]. cbn in *. split; [|done].
    replace (Z.max s a) with b by lia. apply (rendering_cons _ _ b c); [lia | by left | exact Hx].
  - destruct (c - b =? js_length data) eqn:El; cbn [negb]; [|exists (Z.max s a); split; [constructor | done]]. bool_prop.
    exists x. destruct (live_run _ rest _) as [texts forced]. cbn in *. split; [|done].
    replace (Z.max s a) with s by lia. apply (rendering_cons _ _ s c); [lia | right | exact Hx].
    rewrite Hv by (rewrite Hr; lia). apply range_tail; lia.
Qed.
End exact.

(** C14. What a terminal shows after a restored snapshot is the host's output from the end of
    the snapshot on, without a repetition or a hole, as long as its data is numbered (see
    [unnumbered_output_repeated]): when the data that arrived during the restoration follows
    on from before that end, and the window of pending deliveries begins before it and before
    the ends of the later data, draining the queue writes the output from
    there to its end, or nothing when the snapshot has to be fetched again; and the data
    that arrives afterwards, in order, continues it until the first gap, where a fresh
    restoration is asked for instead of writing. *)
Theorem restored_output_exact H shown p s window chunks pendingChars a b live e o :
  only_removes shown -> 0 <= a <= s -> contiguous H shown a chunks b ->
  (forall w, window = Some w -> w < s) -> in_order H shown window b live e ->
  let o1 := setSnapshotBaseline p (Some s) window o in
  let '(outcome, _, o2, effects) := drainAfterSnapshot (Some p) (Some s) (mkQueue chunks pendingChars false) o1 in
  match outcome with
  | drained =>
      rendering H shown s (written effects) (Z.max s b)
      /\ exists x, rendering H shown (Z.max s b) (fst (live_run (Some p) live o2)) x
           /\ (snd (live_run (Some p) live o2) = false -> x = Z.max s e)
  | refetch => written effects = []
  | overflow => False
  end.
Proof.
  intros Hshown Ha Hc Hw Hl o1.
  assert (Hab : a <= b) by (clear -Hc; induction Hc as [|? ? ? ? ? (? & _) _ _ IH]; lia).
  assert (Ho : exists w, baseline_at p s s w o1 /\ in_order H shown w b live e).
  { unfold o1, setSnapshotBaseline. destruct window as [w|].
    - specialize (Hw w eq_refl). rewrite Z.min_l, Z.geb_leb, (proj2 (Z.leb_gt s w)) by lia. by exists (Some w).
    - by exists None. }
  destruct Ho as (w & Ho & Hl'). pose proof (drain_exact H shown Hshown p s w (Some p) chunks o1 a b Hc ltac:(lia) ltac:(lia) Ho) as Hd.
  unfold drainAfterSnapshot. cbn [q_hasOverflow q_chunks].
  destruct (drain_chunks (Some p) (Some s) chunks o1) as [[[rest|] o2] effects].
  - unfold written, salvages. rewrite omap_app. fold (written effects). rewrite Hd.
    clear. induction rest as [|c rest IH]; [done|]. exact IH.
  - destruct Hd as [Hr Ho2]. split; [exact Hr|]. apply (live_exact H shown Hshown p s w live o2 b e); [done | lia | lia | done].
Qed.

Definition sample_output : jsstring := [97; 98; 99; 100; 101; 102; 103; 104].

(** A snapshot at 3; one chunk across it and one after it; a live chunk, and one after a
    gap. *)
Lemma restored_output_exact_witness :
  let o1 := setSnapshotBaseline [1] (Some 3) None new_sequence in
  let '(outcome, _, o2, effects) :=
    drainAfterSnapshot (Some [1]) (Some 3)
      (mkQueue [mkChunk [99; 100] (Some 4) None; mkChunk [101] (Some 5) None] 3 false) o1 in
  outcome = drained /\ written effects = [[100]; [101]]
  /\ live_run (Some [1]) [([102], mkMeta (Some 6) None false false); ([104], mkMeta (Some 8) None false false)] o2 = ([[102]], true)
  /\ rendering sample_output id 3 (written effects) 5.
Proof.
  pose proof (restored_output_exact sample_output id [1] 3 None
    [mkChunk [99; 100] (Some 4) None; mkChunk [101] (Some 5) None] 3 2 5
    [([102], mkMeta (Some 6) None false false); ([104], mkMeta (Some 8) None false false)] 8 new_sequence) as H.
  cbn zeta in H |- *.
  destruct (drainAfterSnapshot _ _ _ _) as [[[outcome q] o2] effects] eqn:E. vm_compute in E. injection E as <- _ <- <-.
  split_and!; [done | done | by vm_compute|]. apply H; clear H.
  - done.
  - lia.
  - apply (contiguous_cons _ _ 2 4); [split_and!; vm_compute; congruence | done|].
    apply (contiguous_cons _ _ 4 5); [split_and!; vm_compute; congruence | done | constructor].
  - done.
  - apply (in_order_cons _ _ _ 5 5 6); [lia | split_and!; vm_compute; congruence | done|].
    apply (in_order_cons _ _ _ 6 7 8); [lia | split_and!; vm_compute; congruence | done | constructor].
Defined.

(** Data without a number is written whole after the snapshot, even when the snapshot has
    it: the terminal shows it twice. *)
Lemma unnumbered_output_repeated p s chunks pendingChars o :
  (forall c, c ∈ chunks -> oc_seq c = None /\ oc_data c <> []) ->
  let '(outcome, _, _, effects) := drainAfterSnapshot (Some p) (Some s) (mkQueue chunks pendingChars false) o in
  outcome = drained /\ written effects = oc_data <$> chunks.
Proof.
  intros Hc. unfold drainAfterSnapshot. cbn [q_hasOverflow q_chunks].
  assert (Hd : let '(unread, _, effects) := drain_chunks (Some p) (Some s) chunks o in
               unread = None /\ written effects = oc_data <$> chunks).
  { induction chunks as [|c chunks IH] in o, Hc |- *; [done|]. cbn [drain_chunks].
    destruct (Hc c ltac:(left)) as [Hs Hne]. unfold sliceAfterSnapshot. rewrite Hs. cbn zeta.
    rewrite bool_decide_eq_false_2 by done. specialize (IH (recordRendered (Some p) None o)).
    destruct (drain_chunks _ _ chunks _) as [[u o'] es]. destruct IH as [-> Hw]; [intros x Hx; apply Hc; by right|].
    split; [done|]. change (oc_data c :: written es = oc_data c :: (oc_data <$> chunks)). by rewrite Hw. }
  destruct (drain_chunks _ _ _ _) as [[[rest|] o'] es]; by destruct Hd.
Qed.
