(* ===== verification/ReplyQueries.v ===== *)
(** Queries in the output of a terminal that expect a reply
    (packages/client/src/terminal/reply-query-extraction.ts; the parser of
    terminal/osc-color-reply.ts; the scan of terminal-pane/emulator/color-scheme.ts) and
    what a hidden pane keeps of them
    (terminal-pane/pty/hidden-renderer-query.ts).

    A position in a string is what is left of it from there, so an index that a function
    answers is relative to its argument.  Replies and writes are effects; the position of
    the cursor and the colours are those of the terminal. *)

From stdpp Require Import base list sets.
From Stdlib Require Import ZArith Lia ZifyBool String.
From S2P Require Import Prelude JsText Json JsRecord OutputSequence.

Open Scope Z_scope.

#[local] Set Warnings "-clear-no-such-hyp".

Definition ESC : Z := 0x1b.
Definition HIDDEN_STARTUP_RENDERER_QUERY_PENDING_CHARS : nat := 64.

Definition startsWith (prefix s : jsstring) : bool :=
  match starts_with prefix s with Some _ => true | None => false end.

Definition endsWith (suffix s : jsstring) : bool := startsWith (rev suffix) (rev s).

(** ** CSI queries *)

(** The index of the final byte, from the start of the parameters. *)
Fixpoint findCsiFinalByteIndex (data : jsstring) : option nat :=
  match data with
  | [] => None
  | code :: rest =>
      if (0x40 <=? code) && (code <=? 0x7e) then Some O
      else match findCsiFinalByteIndex rest with
           | Some index => Some (S index)
           | None => None
           end
  end.

Definition CSI : jsstring := [ESC; 0x5b].
Definition csi (s : string) : jsstring := CSI ++ js s.

Definition isStatelessRendererReplyCsiQuery (sequence : jsstring) : bool :=
  if endsWith (js "c") sequence then true
  else bool_decide (sequence = csi "5n") || bool_decide (sequence = csi ">q")
       || bool_decide (sequence = csi "14t") || bool_decide (sequence = csi "16t").

Definition isStatefulRendererReplyCsiQuery (sequence : jsstring) : bool :=
  bool_decide (sequence = csi "6n") || startsWith (csi "?") sequence && endsWith (js "$p") sequence.

(** [data.indexOf('\x1b[')]: what follows from there. *)
Fixpoint find_csi (data : jsstring) : option jsstring :=
  match data with
  | [] => None
  | _ :: rest => if startsWith CSI data then Some data else find_csi rest
  end.

(** The loop of [splitCsiSequences], which [containsCsiRendererQuery] and
    [containsStatefulRendererQuery] share up to their early exit. *)
Fixpoint csi_sequences (fuel : nat) (data : jsstring) : list jsstring :=
  match fuel, find_csi data with
  | S fuel, Some candidate =>
      match findCsiFinalByteIndex (drop 2 candidate) with
      | None => []
      | Some index => take (index + 3) candidate :: csi_sequences fuel (drop (index + 3) candidate)
      end
  | _, _ => []
  end.

Definition splitCsiSequences (data : jsstring) : list jsstring := csi_sequences (List.length data) data.

Definition containsCsiRendererQuery (data : jsstring) : bool :=
  existsb (fun sequence => isStatelessRendererReplyCsiQuery sequence || isStatefulRendererReplyCsiQuery sequence)
          (splitCsiSequences data).

Definition containsStatefulRendererQuery (data : jsstring) : bool :=
  existsb isStatefulRendererReplyCsiQuery (splitCsiSequences data).

(** ** OSC colour queries *)

Inductive OscSlot := slot10 | slot11.

Inductive OscColorQueryResult :=
  | osc_match (slots : list OscSlot) (endIndex : nat)
  | osc_partial
  | osc_none.

Inductive OscTerminatorResult :=
  | osc_complete (endIndex : nat)
  | osc_unfinished
  | osc_absent.

Definition OSC : jsstring := ESC :: js "]".
Definition BEL : Z := 7.
Definition STRING_TERMINATOR : jsstring := [ESC; 0x5c].

Definition osc_prefix (slot : OscSlot) : jsstring :=
  OSC ++ match slot with slot10 => js "10;" | slot11 => js "11;" end.

Definition terminalOscColorQuerySlotsForBody (slot : OscSlot) (body : jsstring) : option (list OscSlot) :=
  match slot with
  | slot10 => if bool_decide (body = js "?") then Some [slot10]
              else if bool_decide (body = js "?;?") then Some [slot10; slot11] else None
  | slot11 => if bool_decide (body = js "?") then Some [slot11] else None
  end.

Definition parseTerminalOscTerminator (data : jsstring) : OscTerminatorResult :=
  match data with
  | [] => osc_unfinished
  | c :: rest =>
      if c =? BEL then osc_complete 1
      else if startsWith STRING_TERMINATOR data then osc_complete 2
      else if (c =? ESC) && bool_decide (rest = []) then osc_unfinished
      else osc_absent
  end.

(** [before] is the length up to the terminator. *)
Definition completeTerminalOscColorQuery (slot : OscSlot) (body : jsstring) (before : nat)
    (terminator : OscTerminatorResult) : OscColorQueryResult :=
  match terminator with
  | osc_unfinished => osc_partial
  | osc_absent => osc_none
  | osc_complete endIndex =>
      match terminalOscColorQuerySlotsForBody slot body with
      | Some slots => osc_match slots (before + endIndex)
      | None => osc_none
      end
  end.

Definition parseTerminalOscColorQueryBody (data : jsstring) (slot : OscSlot) (before : nat)
    : OscColorQueryResult :=
  match data with
  | [] => osc_partial
  | c :: rest =>
      if negb (c =? 0x3f) then osc_none
      else match parseTerminalOscTerminator rest with
      | osc_absent =>
          match slot, rest with
          | slot10, 0x3b :: rest' =>
              match rest' with
              | [] => osc_partial
              | 0x3f :: rest'' =>
                  completeTerminalOscColorQuery slot (js "?;?") (before + 3) (parseTerminalOscTerminator rest'')
              | _ => osc_none
              end
          | _, _ => osc_none
          end
      | terminator => completeTerminalOscColorQuery slot (js "?") (before + 1) terminator
      end
  end.

Definition parseTerminalOscColorQuery (data : jsstring) : OscColorQueryResult :=
  match starts_with (osc_prefix slot10) data with
  | Some body => parseTerminalOscColorQueryBody body slot10 5
  | None =>
      match starts_with (osc_prefix slot11) data with
      | Some body => parseTerminalOscColorQueryBody body slot11 5
      | None => if startsWith data (osc_prefix slot10) || startsWith data (osc_prefix slot11)
                then osc_partial else osc_none
      end
  end.

(** ** Extraction *)

Record ExtractedRendererQueryData := mkExtracted {
  ex_stateless : jsstring;
  ex_stateful : jsstring;
  ex_oscColor : jsstring;
  ex_pending : jsstring
}.

Definition query_empty : ExtractedRendererQueryData := mkExtracted [] [] [] [].

(** What a position that holds an escape character has: an end of the scan that leaves
    something pending, or a token of some length. *)
Inductive query_kind := stateless_query | stateful_query | osc_color_query | no_query.

Inductive scan_step :=
  | scan_pending (pending : jsstring)
  | scan_token (kind : query_kind) (length : nat).

Definition csi_kind (sequence : jsstring) : query_kind :=
  if isStatelessRendererReplyCsiQuery sequence then stateless_query
  else if isStatefulRendererReplyCsiQuery sequence then stateful_query
  else no_query.

Definition scan_candidate (input : jsstring) : scan_step :=
  if bool_decide (List.length input <= 1)%nat then scan_pending input
  else if startsWith CSI input then
    match findCsiFinalByteIndex (drop 2 input) with
    | None => scan_pending (take HIDDEN_STARTUP_RENDERER_QUERY_PENDING_CHARS input)
    | Some index => scan_token (csi_kind (take (index + 3) input)) (index + 3)
    end
  else if startsWith OSC input then
    match parseTerminalOscColorQuery input with
    | osc_partial => scan_pending (take HIDDEN_STARTUP_RENDERER_QUERY_PENDING_CHARS input)
    | osc_none => scan_token no_query 2
    | osc_match _ endIndex => scan_token osc_color_query endIndex
    end
  else match parseTerminalOscColorQuery input with
       | osc_partial => scan_pending input
       | _ => scan_token no_query 1
       end.

Definition add_query (kind : query_kind) (sequence : jsstring) (e : ExtractedRendererQueryData)
    : ExtractedRendererQueryData :=
  match kind with
  | stateless_query => mkExtracted (sequence ++ ex_stateless e) (ex_stateful e) (ex_oscColor e) (ex_pending e)
  | stateful_query => mkExtracted (ex_stateless e) (sequence ++ ex_stateful e) (ex_oscColor e) (ex_pending e)
  | osc_color_query => mkExtracted (ex_stateless e) (ex_stateful e) (sequence ++ ex_oscColor e) (ex_pending e)
  | no_query => e
  end.

(** The loop over the input, a step for each code unit that is no escape character. *)
Fixpoint extract_queries (fuel : nat) (input : jsstring) : ExtractedRendererQueryData :=
  match fuel, input with
  | S fuel, c :: rest =>
      if negb (c =? ESC) then extract_queries fuel rest
      else match scan_candidate input with
           | scan_pending pending => mkExtracted [] [] [] pending
           | scan_token kind length => add_query kind (take length input) (extract_queries fuel (drop length input))
           end
  | _, _ => query_empty
  end.

Definition extractHiddenStartupRendererQueryData (data pending : jsstring) : ExtractedRendererQueryData :=
  let input := pending ++ data in extract_queries (List.length input) input.

(** ** The color-scheme mode (2031) *)

Definition MODE_2031_SCAN_TAIL_LIMIT : nat := 128.
Definition C1_CSI : Z := 0x9b.

Inductive mode_state := subscribed | unsubscribed.

Definition is_param (c : Z) : bool := (0x30 <=? c) && (c <=? 0x39) || (c =? 0x3b).

(** [[0-9;]*]: the longest run of parameters, and the rest. *)
Fixpoint span_params (s : jsstring) : jsstring * jsstring :=
  match s with
  | [] => ([], [])
  | c :: rest => if is_param c then let '(params, rest) := span_params rest in (c :: params, rest) else ([], s)
  end.

Fixpoint split_params (params : jsstring) : list jsstring :=
  match params with
  | [] => [[]]
  | c :: rest =>
      if c =? 0x3b then [] :: split_params rest
      else match split_params rest with
           | param :: more => (c :: param) :: more
           | [] => [[c]]
           end
  end.

(** [Number(param)] of decimal digits. *)
Definition param_value (param : jsstring) : Z := fold_left (fun n c => n * 10 + (c - 0x30)) param 0.

Definition hasMode2031 (params : jsstring) : bool := existsb (fun param => param_value param =? 2031) (split_params params).

(** A match of [privateModeRe] at the start: its parameters, whether it ends in h, and the
    rest. *)
Definition match_private_mode (s : jsstring) : option (jsstring * bool * jsstring) :=
  let body := match starts_with (csi "?") s with
              | Some body => Some body
              | None => starts_with (C1_CSI :: js "?") s
              end in
  match body with
  | None => None
  | Some body =>
      match span_params body with
      | (params, c :: rest) =>
          if bool_decide (params = []) then None
          else if c =? 0x68 then Some (params, true, rest)
          else if c =? 0x6c then Some (params, false, rest)
          else None
      | _ => None
      end
  end.

(** The matches in order: the state after the last one of mode 2031. *)
Fixpoint scan_private_modes (fuel : nat) (s : jsstring) (state : option mode_state) : option mode_state :=
  match fuel, s with
  | S fuel, _ :: rest =>
      match match_private_mode s with
      | Some (params, high, rest) =>
          let state := if hasMode2031 params then Some (if high then subscribed else unsubscribed) else state in
          scan_private_modes fuel rest state
      | None => scan_private_modes fuel rest state
      end
  | _, _ => state
  end.

(** What follows the last escape character, or C1 introducer, itself included. *)
Fixpoint last_introducer (s : jsstring) : option jsstring :=
  match s with
  | [] => None
  | c :: rest =>
      match last_introducer rest with
      | Some tail => Some tail
      | None => if (c =? ESC) || (c =? C1_CSI) then Some s else None
      end
  end.

Definition extractPrivateModeScanTail (input : jsstring) : jsstring :=
  match last_introducer input with
  | None => []
  | Some tail =>
      if (MODE_2031_SCAN_TAIL_LIMIT <? List.length tail)%nat then []
      else if bool_decide (tail = [ESC]) || bool_decide (tail = CSI) || bool_decide (tail = [C1_CSI]) then tail
      else match starts_with (csi "?") tail with
           | Some params => if forallb is_param params then tail else []
           | None =>
               match starts_with (C1_CSI :: js "?") tail with
               | Some params => if forallb is_param params then tail else []
               | None => []
               end
           end
  end.

(** The final state and the tail. *)
Definition scanMode2031Sequences (previousTail data : jsstring) : option mode_state * jsstring :=
  if bool_decide (previousTail = []) && negb (existsb (fun c => (c =? ESC) || (c =? C1_CSI)) data)
  then (None, [])
  else
    let input := previousTail ++ data in
    (scan_private_modes (List.length input) input None, extractPrivateModeScanTail input).

(** ** The queries of a hidden pane (hidden-renderer-query.ts) *)

Record HiddenRendererQuery := mkHiddenQuery {
  mode2031ScanTail : jsstring;
  pendingQuery : jsstring
}.

Definition new_hidden_query : HiddenRendererQuery := mkHiddenQuery [] [].

Inductive query_effect :=
  | SendColorReplies (data : jsstring)  (** [sendTerminalOscColorQueryReplies] *)
  | WriteStatelessQueryData (data : jsstring)
  | WriteUnansweredQueryData (data : jsstring)
  | ReplyCursorPosition (row col : Z)
  | ReplyDeviceAttributes
  | SubscribeColorScheme  (** and the current scheme is sent *)
  | UnsubscribeColorScheme.

Definition when_given {A} (s : jsstring) (effect : jsstring -> A) : list A :=
  if bool_decide (s = []) then [] else [effect s].

Definition observeMode2031 (data : jsstring) (q : HiddenRendererQuery) : HiddenRendererQuery * list query_effect :=
  let '(state, tail) := scanMode2031Sequences (mode2031ScanTail q) data in
  (mkHiddenQuery tail (pendingQuery q),
   match state with
   | Some subscribed => [SubscribeColorScheme]
   | Some unsubscribed => [UnsubscribeColorScheme]
   | None => []
   end).

Definition observeSkipped (data : jsstring) (q : HiddenRendererQuery) : HiddenRendererQuery * list query_effect :=
  let extracted := extractHiddenStartupRendererQueryData data (pendingQuery q) in
  let '(q, observed) := observeMode2031 data (mkHiddenQuery (mode2031ScanTail q) (ex_pending extracted)) in
  (q, when_given (ex_oscColor extracted) SendColorReplies
      ++ when_given (ex_stateless extracted) WriteStatelessQueryData ++ observed).

Definition hasPendingModeSequence (q : HiddenRendererQuery) : bool := negb (bool_decide (mode2031ScanTail q = [])).

Record ForegroundQuery := mkForegroundQuery {
  fq_stateless : jsstring;
  fq_stateful : jsstring;
  fq_oscColor : jsstring;
  fq_remaining : jsstring;
  fq_consumed : nat
}.

(** The queries at the start of [pending ++ data], how much of it they take, and what stays
    pending. *)
Definition take_first_query (input : jsstring) (pendingLength : nat) : jsstring * jsstring * jsstring * nat * jsstring :=
  if startsWith CSI input then
    match findCsiFinalByteIndex (drop 2 input) with
    | None => ([], [], [], List.length input, take HIDDEN_STARTUP_RENDERER_QUERY_PENDING_CHARS input)
    | Some index =>
        let sequence := take (index + 3) input in
        match csi_kind sequence with
        | stateless_query => (sequence, [], [], index + 3, [])
        | stateful_query => ([], sequence, [], index + 3, [])
        | _ => ([], [], [], index + 3, [])
        end
    end%nat
  else if startsWith OSC input then
    match parseTerminalOscColorQuery input with
    | osc_partial => ([], [], [], List.length input, take HIDDEN_STARTUP_RENDERER_QUERY_PENDING_CHARS input)
    | osc_match _ endIndex => ([], [], take endIndex input, endIndex, [])
    | osc_none => ([], [], [], pendingLength, [])
    end
  else if bool_decide (List.length input = 1%nat) then ([], [], [], List.length input, input)
  else ([], [], [], pendingLength, []).

Definition takePendingForForeground (data : jsstring) (q : HiddenRendererQuery)
    : option ForegroundQuery * HiddenRendererQuery :=
  let pending := pendingQuery q in
  if bool_decide (pending = []) then (None, q)
  else
    let '(stateless, stateful, oscColor, consumedInput, nextPending) :=
      take_first_query (pending ++ data) (List.length pending) in
    let consumed := (consumedInput - List.length pending)%nat in
    (Some (mkForegroundQuery stateless stateful oscColor (drop consumed data) consumed),
     mkHiddenQuery (mode2031ScanTail q) nextPending).

(** The replies and what stays unanswered, for each sequence in order. *)
Fixpoint answer_sequences (sequences : list jsstring) (cursorX cursorY rows cols : Z)
    : list query_effect * jsstring :=
  match sequences with
  | [] => ([], [])
  | sequence :: rest =>
      let '(effects, unanswered) := answer_sequences rest cursorX cursorY rows cols in
      if bool_decide (sequence = csi "6n")
      then (ReplyCursorPosition (Z.min (cursorY + 1) rows) (Z.min (cursorX + 1) cols) :: effects, unanswered)
      else if bool_decide (sequence = csi "c") || bool_decide (sequence = csi "0c")
      then (ReplyDeviceAttributes :: effects, unanswered)
      else (effects, sequence ++ unanswered)
  end.

Definition salvageDiscarded (cursorX cursorY rows cols : Z) (data : jsstring) : list query_effect :=
  if negb (existsb (fun c => c =? ESC) data) then []
  else
    let extracted := extractHiddenStartupRendererQueryData data [] in
    let '(effects, unanswered) :=
      answer_sequences (splitCsiSequences (ex_stateful extracted ++ ex_stateless extracted)) cursorX cursorY rows cols in
    when_given (ex_oscColor extracted) SendColorReplies ++ effects ++ when_given unanswered WriteUnansweredQueryData.

Definition resetPending (q : HiddenRendererQuery) : HiddenRendererQuery := mkHiddenQuery (mode2031ScanTail q) [].

Definition consumePtyDataMetaChars (meta : PtyDataMeta) (consumedCurrentChars : nat) : PtyDataMeta :=
  match meta_rawLength meta with
  | Some rawLength =>
      if (consumedCurrentChars =? 0)%nat then meta
      else mkMeta (meta_seq meta) (Some (Z.max 0 (rawLength - Z.of_nat consumedCurrentChars)))
                  (meta_background meta) (meta_droppedOutput meta)
  | None => meta
  end.

(** ** Prefixes *)

Lemma starts_with_app p s t rest : starts_with p s = Some rest -> starts_with p (s ++ t) = Some (rest ++ t).
Proof.
  induction p as [|x p IH] in s |- *; [by intros [= ->]|]. destruct s as [|c s]; cbn; [done|].
  destruct (x =? c); [apply IH | done].
Qed.

Lemma starts_with_eq p s rest : starts_with p s = Some rest -> s = p ++ rest.
Proof.
  induction p as [|x p IH] in s |- *; [by intros [= ->]|]. destruct s as [|c s]; cbn; [done|].
  destruct (x =? c) eqn:E; [|done]. bool_prop. intros H. by rewrite (IH _ H), E.
Qed.

(** What is no prefix of a pattern, and has it not as a prefix, still has not when extended. *)
Lemma starts_with_none_app p s t : starts_with p s = None -> startsWith s p = false -> starts_with p (s ++ t) = None.
Proof.
  unfold startsWith. induction p as [|x p IH] in s |- *; [done|]. destruct s as [|c s]; cbn; [done|].
  rewrite (Z.eqb_sym c x). destruct (x =? c); [apply IH | done].
Qed.

Lemma prefix_shorter s t p : startsWith s p = false -> startsWith (s ++ t) p = false.
Proof.
  unfold startsWith. induction s as [|c s IH] in p |- *; [done|]. destruct p as [|x p]; cbn; [done|].
  destruct (c =? x); [apply IH | done].
Qed.

Lemma startsWith_app p s t : startsWith p s = true -> startsWith p (s ++ t) = true.
Proof.
  unfold startsWith. destruct (starts_with p s) as [rest|] eqn:E; [|done]. by rewrite (starts_with_app _ _ _ _ E).
Qed.

(** A pattern no longer than the string. *)
Lemma startsWith_long p s t : (List.length p <= List.length s)%nat -> startsWith p (s ++ t) = startsWith p s.
Proof.
  unfold startsWith. induction p as [|x p IH] in s |- *; [done|]. destruct s as [|c s]; cbn; [lia|].
  intros H. destruct (x =? c); [apply IH; lia | done].
Qed.

(** ** A scan of more input *)

Lemma final_byte_app s t i : findCsiFinalByteIndex s = Some i -> findCsiFinalByteIndex (s ++ t) = Some i.
Proof.
  induction s as [|c s IH] in i |- *; cbn; [done|]. case_if; [done|].
  destruct (findCsiFinalByteIndex s) as [j|]; [|done]. intros [= <-]. by rewrite (IH j eq_refl).
Qed.

Lemma final_byte_bound s i : findCsiFinalByteIndex s = Some i -> (i < List.length s)%nat.
Proof.
  induction s as [|c s IH] in i |- *; cbn; [done|]. case_if; [intros [= <-]; lia|].
  destruct (findCsiFinalByteIndex s) as [j|]; [|done]. intros [= <-]. specialize (IH j eq_refl). lia.
Qed.

Lemma terminator_app s t : parseTerminalOscTerminator s <> osc_unfinished ->
  parseTerminalOscTerminator (s ++ t) = parseTerminalOscTerminator s.
Proof.
  destruct s as [|c s]; [done|]. cbn [app parseTerminalOscTerminator]. case_if; [done|].
  destruct s as [|d s].
  - assert (Hst : forall u, (c =? ESC) = false -> startsWith STRING_TERMINATOR (c :: u) = false).
    { intros u Hc. unfold startsWith. cbn [STRING_TERMINATOR starts_with]. by rewrite Z.eqb_sym, Hc. }
    destruct (c =? ESC) eqn:Ec; [|by rewrite !Hst].
    assert (Hs : startsWith STRING_TERMINATOR [c] = false)
      by (unfold startsWith, STRING_TERMINATOR; cbn [starts_with]; by destruct (ESC =? c)).
    rewrite Hs, (bool_decide_eq_true_2 ([] = [])) by done. done.
  - intros _. change (c :: (d :: s) ++ t) with ((c :: d :: s) ++ t).
    rewrite startsWith_long by (cbn; lia). case_if; [done|]. by rewrite !bool_decide_eq_false_2 by done.
Qed.

Lemma terminator_bound s n : parseTerminalOscTerminator s = osc_complete n -> (1 <= n <= List.length s)%nat.
Proof.
  destruct s as [|c s]; [done|]. cbn [parseTerminalOscTerminator]. case_if; [intros [= <-]; cbn; lia|].
  destruct (startsWith STRING_TERMINATOR (c :: s)) eqn:Es; [|by case_if]. intros [= <-]. unfold startsWith in Es.
  destruct (starts_with STRING_TERMINATOR (c :: s)) as [r|] eqn:Er; [|done].
  apply starts_with_length in Er. cbn in *. lia.
Qed.

Lemma complete_query_app slot body n r r' : (r <> osc_unfinished -> r' = r) ->
  completeTerminalOscColorQuery slot body n r <> osc_partial ->
  completeTerminalOscColorQuery slot body n r' = completeTerminalOscColorQuery slot body n r.
Proof. intros H Hp. destruct r; by rewrite H. Qed.

Lemma query_body_app s t slot n : parseTerminalOscColorQueryBody s slot n <> osc_partial ->
  parseTerminalOscColorQueryBody (s ++ t) slot n = parseTerminalOscColorQueryBody s slot n.
Proof.
  destruct s as [|c s]; [done|]. cbn [app parseTerminalOscColorQueryBody]. case_if; [done|].
  pose proof (terminator_app s t) as Ht. destruct (parseTerminalOscTerminator s) as [k| |] eqn:Es.
  - by rewrite Ht.
  - done.
  - rewrite Ht by done. destruct slot; [|done]. destruct s as [|d s]; [done|]. cbn [app].
    destruct (decide (d = 0x3b)) as [->|Hd].
    + destruct s as [|x s]; [done|]. cbn [app]. destruct (decide (x = 0x3f)) as [->|Hx].
      * intros Hp. apply complete_query_app; [apply terminator_app | done].
      * intros _. destruct x as [|x|x]; try done. do 7 (destruct x as [x|x|]; try done).
    + intros _. destruct d as [|d|d]; try done. do 7 (destruct d as [d|d|]; try done).
Qed.

Lemma color_query_app s t : parseTerminalOscColorQuery s <> osc_partial ->
  parseTerminalOscColorQuery (s ++ t) = parseTerminalOscColorQuery s.
Proof.
  unfold parseTerminalOscColorQuery. destruct (starts_with (osc_prefix slot10) s) as [body|] eqn:E10.
  { rewrite (starts_with_app _ _ t _ E10). apply query_body_app. }
  destruct (startsWith s (osc_prefix slot10)) eqn:P10; cbn [orb].
  { destruct (starts_with (osc_prefix slot11) s) as [body|] eqn:E11; [|done].
    apply starts_with_eq in E11 as ->. unfold startsWith in P10. by cbn in P10. }
  rewrite (starts_with_none_app _ _ t E10 P10).
  destruct (starts_with (osc_prefix slot11) s) as [body|] eqn:E11.
  { rewrite (starts_with_app _ _ t _ E11). apply query_body_app. }
  destruct (startsWith s (osc_prefix slot11)) eqn:P11; [done|]. rewrite (starts_with_none_app _ _ t E11 P11).
  by rewrite !prefix_shorter.
Qed.

Lemma complete_query_bound slot body n r slots k :
  completeTerminalOscColorQuery slot body n r = osc_match slots k -> exists e, r = osc_complete e /\ k = (n + e)%nat.
Proof.
  destruct r as [e| |]; cbn; try done. destruct (terminalOscColorQuerySlotsForBody slot body); [|done].
  intros [= _ <-]. by exists e.
Qed.

Lemma query_body_bound s slot n slots k : parseTerminalOscColorQueryBody s slot n = osc_match slots k ->
  (n < k <= n + List.length s)%nat.
Proof.
  destruct s as [|c s]; [done|]. cbn [parseTerminalOscColorQueryBody List.length]. case_if; [done|].
  destruct (parseTerminalOscTerminator s) as [e| |] eqn:Es; intros H.
  - apply complete_query_bound in H as (e' & [= ->] & ->). apply terminator_bound in Es. lia.
  - done.
  - destruct slot; [|done]. destruct s as [|d s]; [done|]. destruct (decide (d = 0x3b)) as [->|Hd].
    + destruct s as [|x s]; [done|]. destruct (decide (x = 0x3f)) as [->|Hx].
      * apply complete_query_bound in H as (e' & He & ->). apply terminator_bound in He. cbn. lia.
      * destruct x as [|x|x]; try done. do 7 (destruct x as [x|x|]; try done).
    + destruct d as [|d|d]; try done. do 7 (destruct d as [d|d|]; try done).
Qed.

Lemma color_query_bound s slots k : parseTerminalOscColorQuery s = osc_match slots k ->
  (1 <= k <= List.length s)%nat.
Proof.
  unfold parseTerminalOscColorQuery.
  destruct (starts_with (osc_prefix slot10) s) as [body|] eqn:E10.
  { intros H%query_body_bound. apply starts_with_length in E10. cbn in E10. lia. }
  destruct (starts_with (osc_prefix slot11) s) as [body|] eqn:E11.
  { intros H%query_body_bound. apply starts_with_length in E11. cbn in E11. lia. }
  by case_if.
Qed.

Lemma scan_token_app s t kind n : scan_candidate s = scan_token kind n ->
  (1 <= n <= List.length s)%nat /\ scan_candidate (s ++ t) = scan_token kind n.
Proof.
  unfold scan_candidate. case_if; [done|]. bool_prop.
  rewrite (bool_decide_eq_false_2 (List.length (s ++ t) <= 1)%nat) by (rewrite length_app; lia).
  rewrite !startsWith_long by (cbn; lia). case_if.
  - destruct (findCsiFinalByteIndex (drop 2 s)) as [i|] eqn:Ei; [|done]. intros [= <- <-].
    pose proof (final_byte_bound _ _ Ei) as Hb. rewrite length_drop in Hb.
    rewrite drop_app_le by lia. rewrite (final_byte_app _ t _ Ei), take_app_le by lia. split; [lia | done].
  - pose proof (color_query_app s t) as Ha. case_if; destruct (parseTerminalOscColorQuery s) as [slots k| |] eqn:Ep;
      try done; rewrite Ha by done; intros [= <- <-].
    + apply color_query_bound in Ep. split; [lia | done].
    + split; [lia | done].
    + split; [lia | done].
    + split; [lia | done].
Qed.

Lemma scan_pending_full s pending : scan_candidate s = scan_pending pending ->
  (List.length pending < HIDDEN_STARTUP_RENDERER_QUERY_PENDING_CHARS)%nat -> pending = s.
Proof.
  assert (Ht : (List.length (take HIDDEN_STARTUP_RENDERER_QUERY_PENDING_CHARS s)
                < HIDDEN_STARTUP_RENDERER_QUERY_PENDING_CHARS)%nat -> take HIDDEN_STARTUP_RENDERER_QUERY_PENDING_CHARS s = s).
  { rewrite length_take. intros H. apply take_ge. lia. }
  unfold scan_candidate. repeat (case_if; try (by intros [= <-])).
  - destruct (findCsiFinalByteIndex (drop 2 s)); [done|]. by intros [= <-].
  - destruct (parseTerminalOscColorQuery s); try done. by intros [= <-].
  - destruct (parseTerminalOscColorQuery s); try done. by intros [= <-].
Qed.

Definition extract (input : jsstring) : ExtractedRendererQueryData := extract_queries (List.length input) input.

Lemma extract_fuel n m input : (List.length input <= n)%nat -> (List.length input <= m)%nat ->
  extract_queries n input = extract_queries m input.
Proof.
  induction n as [|n IH] in m, input |- *; intros Hn Hm; [destruct input; [by destruct m | cbn in Hn; lia]|].
  destruct input as [|c rest]; [by destruct m|]. destruct m as [|m]; [cbn in Hm; lia|].
  cbn [extract_queries]. cbn in Hn, Hm. case_if; [apply IH; lia|].
  destruct (scan_candidate (c :: rest)) as [p|kind k] eqn:Es; [done|]. f_equal.
  apply (scan_token_app _ []) in Es as [Hk _]. cbn in Hk. apply IH; rewrite length_drop; cbn; lia.
Qed.

Lemma extract_cons c rest : extract (c :: rest) =
  if negb (c =? ESC) then extract rest
  else match scan_candidate (c :: rest) with
       | scan_pending pending => mkExtracted [] [] [] pending
       | scan_token kind length => add_query kind (take length (c :: rest)) (extract (drop length (c :: rest)))
       end.
Proof.
  unfold extract at 1. cbn [extract_queries List.length]. case_if; [done|].
  destruct (scan_candidate (c :: rest)) as [p|kind k] eqn:Es; [done|]. f_equal.
  apply (scan_token_app _ []) in Es as [Hk _]. apply extract_fuel; [|done]. rewrite length_drop. cbn in *. lia.
Qed.

(** The queries of one extraction, then those of another. *)
Definition then_queries (a b : ExtractedRendererQueryData) : ExtractedRendererQueryData :=
  mkExtracted (ex_stateless a ++ ex_stateless b) (ex_stateful a ++ ex_stateful b)
              (ex_oscColor a ++ ex_oscColor b) (ex_pending b).

Lemma add_then kind sequence a b : then_queries (add_query kind sequence a) b = add_query kind sequence (then_queries a b).
Proof. unfold then_queries. destruct kind; cbn; by rewrite <- ?app_assoc. Qed.

Lemma extract_app x y : (List.length (ex_pending (extract x)) < HIDDEN_STARTUP_RENDERER_QUERY_PENDING_CHARS)%nat ->
  extract (x ++ y) = then_queries (extract x) (extract (ex_pending (extract x) ++ y)).
Proof.
  remember (List.length x) as n eqn:En. revert x En.
  induction n as [n IH] using (well_founded_induction lt_wf). intros x ->.
  destruct x as [|c rest]; [intros _; change (extract y = then_queries query_empty (extract y)); by destruct (extract y)|]. cbn [app]. rewrite !extract_cons.
  case_if; [apply (IH (List.length rest)); [cbn; lia | done]|].
  change (c :: rest ++ y) with ((c :: rest) ++ y).
  destruct (scan_candidate (c :: rest)) as [p|kind k] eqn:Es.
  - cbn [ex_pending]. intros Hp. rewrite (scan_pending_full _ _ Es Hp). unfold then_queries.
    cbn [app ex_stateless ex_stateful ex_oscColor ex_pending]. rewrite extract_cons, E.
    change (c :: rest ++ y) with ((c :: rest) ++ y).
    destruct (match scan_candidate ((c :: rest) ++ y) with scan_pending _ => _ | scan_token _ _ => _ end). done.
  - apply (scan_token_app _ y) in Es as [Hk ->]. rewrite take_app_le, drop_app_le by lia.
    intros Hp. assert (Hp' : ex_pending (add_query kind (take k (c :: rest)) (extract (drop k (c :: rest))))
                             = ex_pending (extract (drop k (c :: rest)))) by by destruct kind.
    rewrite Hp' in Hp |- *. rewrite add_then. f_equal.
    apply (IH (List.length (drop k (c :: rest)))); [rewrite length_drop; cbn in *; lia | done | done].
Qed.

(** ** What is pending *)

Lemma extract_plain s t : Forall (fun c => c <> ESC) s -> extract (s ++ t) = extract t.
Proof.
  induction 1 as [|c s Hc _ IH]; [done|]. cbn [app]. rewrite extract_cons.
  rewrite (proj2 (Z.eqb_neq c ESC)) by done. exact IH.
Qed.

Lemma pending_shape x : ex_pending (extract x) <> [] ->
  exists r, scan_candidate (ESC :: r) = scan_pending (ex_pending (extract x)).
Proof.
  remember (List.length x) as n eqn:En. revert x En.
  induction n as [n IH] using (well_founded_induction lt_wf). intros x ->.
  destruct x as [|c rest]; [done|]. rewrite extract_cons.
  destruct (c =? ESC) eqn:Ec; cbn [negb]; [|apply (IH (List.length rest)); [cbn; lia | done]].
  bool_prop. subst c. destruct (scan_candidate (ESC :: rest)) as [p|kind k] eqn:Es; [by exists rest|].
  apply (scan_token_app _ []) in Es as [Hk _].
  assert (Hp : forall e, ex_pending (add_query kind (take k (ESC :: rest)) e) = ex_pending e) by by destruct kind.
  rewrite Hp. apply (IH (List.length (drop k (ESC :: rest)))); [rewrite length_drop; cbn in *; lia | done].
Qed.

Lemma partial_is_osc s : parseTerminalOscColorQuery s = osc_partial -> (2 <= List.length s)%nat -> startsWith OSC s = true.
Proof.
  unfold parseTerminalOscColorQuery.
  assert (Hpre : forall slot body, starts_with (osc_prefix slot) s = Some body -> startsWith OSC s = true).
  { intros slot body ->%starts_with_eq. by destruct slot. }
  destruct (starts_with (osc_prefix slot10) s) eqn:E10; [intros _ _; by eapply Hpre|].
  destruct (starts_with (osc_prefix slot11) s) eqn:E11; [intros _ _; by eapply Hpre|].
  case_if; [|done]. intros _ Hl. apply orb_true_iff in E. unfold startsWith in *.
  destruct s as [|a [|b s]]; [cbn in Hl; lia | cbn in Hl; lia|].
  assert (H : (a =? ESC) = true /\ (b =? 0x5d) = true).
  { destruct E as [E|E]; cbn [osc_prefix OSC app starts_with] in E; destruct (a =? ESC) eqn:Ea; try done;
      split; try done; change (js "]" ++ _) with (0x5d :: js "10;") in E || change (js "]" ++ _) with (0x5d :: js "11;") in E;
      cbn [starts_with] in E; by destruct (b =? 0x5d). }
  destruct H as [Ha Hb]. bool_prop. subst. done.
Qed.

Lemma terminator_unfinished s : parseTerminalOscTerminator s = osc_unfinished -> s = [] \/ s = [ESC].
Proof.
  destruct s as [|c s]; [by left|]. cbn [parseTerminalOscTerminator]. case_if; [done|]. case_if; [done|].
  case_if; [|done]. bool_prop. subst. by right.
Qed.

(** The text of a colour query that more input may complete, after its prefix. *)
Lemma query_body_partial s slot n : parseTerminalOscColorQueryBody s slot n = osc_partial ->
  s ∈ [[]; [0x3f]; [0x3f; ESC]; [0x3f; 0x3b]; [0x3f; 0x3b; 0x3f]; [0x3f; 0x3b; 0x3f; ESC]].
Proof.
  destruct s as [|c s]; [set_solver|]. cbn [parseTerminalOscColorQueryBody].
  destruct (c =? 0x3f) eqn:Ec; cbn [negb]; [|done]. bool_prop. subst c.
  destruct (parseTerminalOscTerminator s) as [e| |] eqn:Es; intros H.
  - cbn in H. by destruct (terminalOscColorQuerySlotsForBody _ _).
  - destruct (terminator_unfinished _ Es) as [->| ->]; set_solver.
  - destruct slot; [|done]. destruct s as [|d s]; [done|]. destruct (decide (d = 0x3b)) as [->|Hd].
    + destruct s as [|x s]; [set_solver|]. destruct (decide (x = 0x3f)) as [->|Hx].
      * destruct (parseTerminalOscTerminator s) as [e| |] eqn:Et; [cbn in H; done | | done].
        destruct (terminator_unfinished _ Et) as [->| ->]; set_solver.
      * destruct x as [|x|x]; try done. do 7 (destruct x as [x|x|]; try done).
    + destruct d as [|d|d]; try done. do 7 (destruct d as [d|d|]; try done).
Qed.

(** A proper prefix of a pattern. *)
Lemma startsWith_prefix s p : startsWith s p = true -> exists k, s = take k p.
Proof.
  unfold startsWith. destruct (starts_with s p) as [rest|] eqn:E; [|done]. intros _.
  apply starts_with_eq in E as ->. exists (List.length s). by rewrite take_app_length.
Qed.

Lemma color_query_partial s : parseTerminalOscColorQuery s = osc_partial ->
  s = [] \/ s = [ESC] \/ exists r, s = ESC :: 0x5d :: r /\ (Forall (fun c => c <> ESC) r \/ last r = Some ESC).
Proof.
  unfold parseTerminalOscColorQuery.
  assert (Hbody : forall slot body, parseTerminalOscColorQueryBody body slot 5 = osc_partial ->
            exists r, osc_prefix slot ++ body = ESC :: 0x5d :: r /\ (Forall (fun c => c <> ESC) r \/ last r = Some ESC)).
  { intros slot body H%query_body_partial. destruct slot; cbn [osc_prefix OSC app]; eexists; (split; [reflexivity|]);
      repeat (apply elem_of_cons in H as [->|H]); try set_solver; cbn;
      try (left; repeat constructor; discriminate); by right. }
  destruct (starts_with (osc_prefix slot10) s) as [body|] eqn:E10.
  { apply starts_with_eq in E10 as ->. intros H. right; right. by apply Hbody. }
  destruct (starts_with (osc_prefix slot11) s) as [body|] eqn:E11.
  { apply starts_with_eq in E11 as ->. intros H. right; right. by apply Hbody. }
  assert (Hpre : forall slot, startsWith s (osc_prefix slot) = true ->
            s = [] \/ s = [ESC] \/ exists r, s = ESC :: 0x5d :: r /\ (Forall (fun c => c <> ESC) r \/ last r = Some ESC)).
  { intros slot [k ->]%startsWith_prefix. destruct k as [|[|k]]; [by left | right; left; by destruct slot|].
    right; right. destruct slot; eexists; (split; [reflexivity|]); left; apply Forall_take; repeat constructor; discriminate. }
  case_if; [|done]. intros _. apply orb_true_iff in E as [E|E]; by eapply Hpre.
Qed.

(** What completes pending text ends after it. *)
Lemma final_byte_none_app s t i : findCsiFinalByteIndex s = None -> findCsiFinalByteIndex (s ++ t) = Some i ->
  (List.length s <= i)%nat.
Proof.
  induction s as [|c s IH] in i |- *; cbn; [lia|]. case_if; [done|].
  destruct (findCsiFinalByteIndex s); [done|]. intros _.
  destruct (findCsiFinalByteIndex (s ++ t)) as [j|]; [|done]. intros [= <-]. specialize (IH j eq_refl eq_refl). lia.
Qed.

Lemma color_query_long s slots k : parseTerminalOscColorQuery s = osc_match slots k -> (5 < k)%nat.
Proof.
  unfold parseTerminalOscColorQuery.
  destruct (starts_with (osc_prefix slot10) s); [intros H%query_body_bound; lia|].
  destruct (starts_with (osc_prefix slot11) s); [intros H%query_body_bound; lia|]. by case_if.
Qed.

Lemma query_body_completed s t slot n slots k : parseTerminalOscColorQueryBody s slot n = osc_partial ->
  parseTerminalOscColorQueryBody (s ++ t) slot n = osc_match slots k -> (n + List.length s <= k)%nat.
Proof.
  intros Hp Hm. pose proof (query_body_bound _ _ _ _ _ Hm) as Hb. apply query_body_partial in Hp.
  repeat (apply elem_of_cons in Hp as [->|Hp]; [|]); try set_solver; cbn [app List.length] in *; try lia;
    cbn [parseTerminalOscColorQueryBody] in Hm; try (case_if_in Hm; [done|]).
  - destruct (parseTerminalOscTerminator _) as [e| |] eqn:Et in Hm; [|done|by destruct slot].
      apply complete_query_bound in Hm as (e' & [= <-] & ->). cbn [parseTerminalOscTerminator] in Et.
      repeat case_if_in Et; try done; injection Et as <-; lia.
  - cbn in Hm. destruct slot; [|done]. destruct t as [|x t]; [done|]. destruct (decide (x = 0x3f)) as [->|Hx].
    + apply complete_query_bound in Hm as (e & _ & ->). lia.
    + exfalso. destruct x as [|x|x]; try done. do 7 (destruct x as [x|x|]; try done).
  - cbn in Hm. destruct slot; [|done]. apply complete_query_bound in Hm as (e & He & ->). apply terminator_bound in He. lia.
  - cbn in Hm. destruct slot; [|done]. apply complete_query_bound in Hm as (e & He & ->).
      cbn [parseTerminalOscTerminator] in He. repeat case_if_in He; try done; injection He as <-; lia.
Qed.

Lemma completed_length s t slots k : parseTerminalOscColorQuery s = osc_partial ->
  parseTerminalOscColorQuery (s ++ t) = osc_match slots k -> (List.length s <= k)%nat.
Proof.
  intros Hp Hm. pose proof (color_query_long _ _ _ Hm) as Hk. revert Hp Hm. unfold parseTerminalOscColorQuery.
  destruct (starts_with (osc_prefix slot10) s) as [body|] eqn:E10.
  { rewrite (starts_with_app _ _ t _ E10). apply starts_with_eq in E10 as ->. rewrite length_app.
    intros Hp Hm. pose proof (query_body_completed _ _ _ _ _ _ Hp Hm). cbn in *. lia. }
  destruct (starts_with (osc_prefix slot11) s) as [body|] eqn:E11.
  { rewrite (starts_with_app _ _ t _ E11). apply starts_with_eq in E11 as ->. rewrite length_app.
    intros Hp Hm. cbn in Hm. pose proof (query_body_completed _ _ _ _ _ _ Hp Hm). cbn in *. lia. }
  case_if; [|done]. intros _ _. apply orb_true_iff in E as [[j ->]%startsWith_prefix|[j ->]%startsWith_prefix];
    rewrite length_take; cbn; lia.
Qed.

(** ** Taking the pending query in the foreground *)

Lemma then_empty e : then_queries query_empty e = e.
Proof. by destruct e. Qed.

Lemma take_pending_whole (input : jsstring) : (List.length (take HIDDEN_STARTUP_RENDERER_QUERY_PENDING_CHARS input)
    < HIDDEN_STARTUP_RENDERER_QUERY_PENDING_CHARS)%nat -> take HIDDEN_STARTUP_RENDERER_QUERY_PENDING_CHARS input = input.
Proof. rewrite length_take. intros H. apply take_ge. lia. Qed.

Lemma startsWith_pair a b c s : startsWith [a; b] (a :: c :: s) = (b =? c).
Proof. unfold startsWith. cbn [starts_with]. rewrite Z.eqb_refl. by destruct (b =? c). Qed.

(** What is pending with more input: one of three shapes. *)
Lemma pending_cases r : scan_candidate (ESC :: r) = scan_pending (ESC :: r) ->
  r = [] \/ (exists s, r = 0x5b :: s /\ findCsiFinalByteIndex s = None)
  \/ (exists s, r = 0x5d :: s /\ parseTerminalOscColorQuery (ESC :: r) = osc_partial).
Proof.
  unfold scan_candidate. case_if; bool_prop; [left; destruct r; [done | cbn in E; lia]|].
  destruct r as [|c s]; [by left|]. case_if.
  - unfold CSI in E0. rewrite startsWith_pair in E0. bool_prop. subst c. rewrite !skipn_cons, drop_0.
    destruct (findCsiFinalByteIndex s) eqn:Ei; [discriminate|]. intros _. right; left. by exists s.
  - case_if.
    + change OSC with [ESC; 0x5d] in E1. rewrite startsWith_pair in E1. bool_prop. subst c.
      destruct (parseTerminalOscColorQuery _) eqn:Ep; try discriminate. intros _. right; right. by exists s.
    + destruct (parseTerminalOscColorQuery (ESC :: c :: s)) eqn:Ep; try discriminate.
      apply partial_is_osc in Ep; [congruence | cbn; lia].
Qed.

Lemma drop_taken (consumed : nat) (p data : jsstring) : (List.length p <= consumed)%nat ->
  drop (consumed - List.length p) data = drop consumed (p ++ data).
Proof. intros H. by rewrite drop_app_ge. Qed.

Definition first_query (taken : jsstring * jsstring * jsstring * nat * jsstring) : ExtractedRendererQueryData :=
  let '(stateless, stateful, oscColor, _, _) := taken in mkExtracted stateless stateful oscColor [].

Lemma extract_candidate input rest : input = ESC :: rest ->
  extract input = match scan_candidate input with
                  | scan_pending pending => mkExtracted [] [] [] pending
                  | scan_token kind length => add_query kind (take length input) (extract (drop length input))
                  end.
Proof. intros ->. by rewrite extract_cons. Qed.

(** The two scans of the same text agree when what the second one consumes reaches past
    the pending part [p]. *)
Lemma take_first_spec p r data : p = ESC :: r ->
  (forall i, startsWith CSI (p ++ data) = true -> findCsiFinalByteIndex (drop 2 (p ++ data)) = Some i ->
     (List.length p <= i + 3)%nat) ->
  (forall slots k, parseTerminalOscColorQuery (p ++ data) = osc_match slots k -> (List.length p <= k)%nat) ->
  (startsWith OSC (p ++ data) = true -> parseTerminalOscColorQuery (p ++ data) = osc_none ->
     extract (drop 2 (p ++ data)) = extract data) ->
  (startsWith CSI (p ++ data) = false -> startsWith OSC (p ++ data) = false -> r = []) ->
  let taken := take_first_query (p ++ data) (List.length p) in
  let '(_, _, _, consumed, next) := taken in
  (List.length next < HIDDEN_STARTUP_RENDERER_QUERY_PENDING_CHARS)%nat ->
  extract (p ++ data) = then_queries (first_query taken) (extract (next ++ drop (consumed - List.length p) data)).
Proof.
  intros Hp Hcsi Hosc Hnone Hplain taken. set (input := p ++ data) in *.
  assert (Hi : input = ESC :: r ++ data) by (unfold input; by rewrite Hp).
  assert (Hwhole : drop (List.length input - List.length p) data = []).
  { unfold input. rewrite length_app. apply drop_ge. lia. }
  pose proof (extract_candidate _ _ Hi) as Hc. unfold taken, take_first_query.
  destruct (startsWith CSI input) eqn:Ec.
  - assert (Hl : ~ (List.length input <= 1)%nat) by (rewrite Hi in Ec |- *; by destruct (r ++ data); [|cbn; lia]).
    unfold scan_candidate in Hc. rewrite bool_decide_eq_false_2, Ec in Hc by done.
    destruct (findCsiFinalByteIndex (drop 2 input)) as [index|] eqn:Ei.
    + specialize (Hcsi index eq_refl eq_refl). rewrite Hc. destruct (csi_kind (take (index + 3) input)) eqn:Ek;
        try (by unfold csi_kind in Ek; repeat case_if_in Ek); intros _; cbn [first_query add_query app];
        (rewrite drop_taken by done); first [done | symmetry; apply then_empty].
    + intros Hn. rewrite Hc, Hwhole, (take_pending_whole _ Hn), app_nil_r, Hc, (take_pending_whole _ Hn). done.
  - destruct (startsWith OSC input) eqn:Eo.
    + assert (Hl : ~ (List.length input <= 1)%nat) by (rewrite Hi in Eo |- *; by destruct (r ++ data); [|cbn; lia]).
      unfold scan_candidate in Hc. rewrite bool_decide_eq_false_2, Ec, Eo in Hc by done.
      destruct (parseTerminalOscColorQuery input) as [slots k| |] eqn:Ep.
      * intros _. rewrite drop_taken by (by eapply Hosc). done.
      * intros Hn. rewrite Hc, Hwhole, (take_pending_whole _ Hn), app_nil_r, Hc, (take_pending_whole _ Hn). done.
      * intros _. rewrite Hc, Nat.sub_diag, drop_0. cbn [add_query]. rewrite Hnone by done. symmetry. apply then_empty.
    + rewrite (Hplain eq_refl eq_refl) in *. case_if; bool_prop; intros _; cbn [first_query app].
      * rewrite Hwhole, app_nil_r. symmetry. apply then_empty.
      * rewrite Nat.sub_diag, drop_0. unfold scan_candidate in Hc.
        assert (Hl : ~ (List.length input <= 1)%nat) by (rewrite Hi in E |- *; cbn in *; lia).
        rewrite bool_decide_eq_false_2, Ec, Eo in Hc by done.
        destruct (parseTerminalOscColorQuery input) eqn:Ep; cycle 1.
        { apply partial_is_osc in Ep; [congruence | lia]. }
        all: rewrite Hc, Hi; cbn [add_query]; change (drop 1 (ESC :: [] ++ data)) with data; symmetry; apply then_empty.
Qed.

Lemma take_pending_spec r data : scan_candidate (ESC :: r) = scan_pending (ESC :: r) -> last r <> Some ESC ->
  let p := ESC :: r in let taken := take_first_query (p ++ data) (List.length p) in
  let '(_, _, _, consumed, next) := taken in
  (List.length next < HIDDEN_STARTUP_RENDERER_QUERY_PENDING_CHARS)%nat ->
  extract (p ++ data) = then_queries (first_query taken) (extract (next ++ drop (consumed - List.length p) data)).
Proof.
  intros Hs Hlast p. apply (take_first_spec p r data eq_refl); unfold p; clear p.
  all: apply pending_cases in Hs as [->|[(s & -> & Hi)|(s & -> & Hp)]].
  - intros; cbn; lia.
  - intros i _ H. change (drop 2 ((ESC :: 0x5b :: s) ++ data)) with (s ++ data) in H.
    pose proof (final_byte_none_app _ _ _ Hi H). cbn. lia.
  - by intros i H.
  - intros slots k H%color_query_long. cbn. lia.
  - intros slots k H. destruct (starts_with (osc_prefix slot10) ((ESC :: 0x5b :: s) ++ data)) eqn:E10; [by cbn in E10|].
    unfold parseTerminalOscColorQuery in H. rewrite E10 in H. by cbn in H.
  - intros slots k H. by eapply completed_length.
  - intros Ho _. cbn [app] in Ho |- *. destruct data as [|c data]; [done|].
    change OSC with [ESC; 0x5d] in Ho. rewrite startsWith_pair in Ho. bool_prop. subst c. by rewrite extract_cons.
  - by intros H.
  - intros _ _. change (drop 2 ((ESC :: 0x5d :: s) ++ data)) with (s ++ data). apply extract_plain.
    apply color_query_partial in Hp as [Hp|[Hp|(r & Hp & Hr)]]; [done | done|]. injection Hp as <-.
    destruct Hr as [Hr|Hr]; [done|]. destruct Hlast. destruct s; [done|]. by rewrite last_cons, Hr.
  - done.
  - by intros H.
  - by intros _ H.
Qed.

(** ** Hidden output in chunks *)

Fixpoint skipped_run (chunks : list jsstring) (q : HiddenRendererQuery) : HiddenRendererQuery * list query_effect :=
  match chunks with
  | [] => (q, [])
  | data :: rest =>
      let '(q, effects) := observeSkipped data q in
      let '(q, more) := skipped_run rest q in (q, effects ++ more)
  end.

(** The text of the colour queries answered, and of the other queries written. *)
Definition color_queries (effects : list query_effect) : jsstring :=
  List.concat ((fun e => match e with SendColorReplies data => data | _ => [] end) <$> effects).

Definition stateless_queries (effects : list query_effect) : jsstring :=
  List.concat ((fun e => match e with WriteStatelessQueryData data => data | _ => [] end) <$> effects).

Lemma color_queries_app a b : color_queries (a ++ b) = color_queries a ++ color_queries b.
Proof. unfold color_queries. by rewrite fmap_app, List.concat_app. Qed.

Lemma stateless_queries_app a b : stateless_queries (a ++ b) = stateless_queries a ++ stateless_queries b.
Proof. unfold stateless_queries. by rewrite fmap_app, List.concat_app. Qed.

(** One chunk: its queries, and what is pending after it. *)
Lemma observe_skipped_spec data q : let '(q', effects) := observeSkipped data q in
  let e := extract (pendingQuery q ++ data) in
  pendingQuery q' = ex_pending e /\ color_queries effects = ex_oscColor e /\ stateless_queries effects = ex_stateless e.
Proof.
  unfold observeSkipped. change (extractHiddenStartupRendererQueryData data (pendingQuery q))
    with (extract (pendingQuery q ++ data)). set (e := extract _). unfold observeMode2031.
  destruct (scanMode2031Sequences _ data) as [state tail]. cbn [mode2031ScanTail pendingQuery].
  rewrite !color_queries_app, !stateless_queries_app. unfold when_given.
  destruct (decide (ex_oscColor e = [])) as [->|Ho], (decide (ex_stateless e = [])) as [->|Hs];
    rewrite ?(bool_decide_eq_true_2 ([] = [])), ?(bool_decide_eq_false_2 _ Ho), ?(bool_decide_eq_false_2 _ Hs) by done;
    destruct state as [[]|]; unfold color_queries, stateless_queries; cbn; by rewrite ?app_nil_r.
Qed.

(** A run over chunks, while less than the limit is pending before each of them. *)
Definition bounded_run (chunks : list jsstring) : Prop :=
  forall before after, chunks = before ++ after ->
    (List.length (pendingQuery (fst (skipped_run before new_hidden_query)))
     < HIDDEN_STARTUP_RENDERER_QUERY_PENDING_CHARS)%nat.

Lemma skipped_run_app a b q : skipped_run (a ++ b) q =
  (let '(q1, e1) := skipped_run a q in let '(q2, e2) := skipped_run b q1 in (q2, e1 ++ e2)).
Proof.
  induction a as [|d a IH] in q |- *; cbn; [by destruct (skipped_run b q)|].
  destruct (observeSkipped d q) as [q1 e1]. rewrite IH. destruct (skipped_run a q1) as [q2 e2].
  destruct (skipped_run b q2) as [q3 e3]. by rewrite app_assoc.
Qed.

Lemma skipped_run_spec chunks : bounded_run chunks ->
  let '(q, effects) := skipped_run chunks new_hidden_query in let e := extract (List.concat chunks) in
  pendingQuery q = ex_pending e /\ color_queries effects = ex_oscColor e /\ stateless_queries effects = ex_stateless e.
Proof.
  induction chunks as [|data chunks IH] using rev_ind; intros Hb; [done|].
  assert (Hb' : bounded_run chunks).
  { intros before after ->. apply (Hb before (after ++ [data])). by rewrite app_assoc. }
  specialize (IH Hb'). specialize (Hb' chunks [] ltac:(by rewrite app_nil_r)).
  rewrite skipped_run_app. destruct (skipped_run chunks new_hidden_query) as [q1 e1]. cbn [fst] in Hb'.
  destruct IH as (Hp & Hc & Hs). cbn [skipped_run].
  pose proof (observe_skipped_spec data q1) as Ho. destruct (observeSkipped data q1) as [q2 e2].
  destruct Ho as (Hp2 & Hc2 & Hs2). rewrite List.concat_app. cbn [List.concat]. rewrite app_nil_r, !color_queries_app, !stateless_queries_app.
  rewrite Hp in Hb', Hp2, Hc2, Hs2. rewrite (extract_app _ data Hb'). cbn [then_queries ex_pending ex_oscColor ex_stateless].
  by rewrite Hp2, Hc, Hs, Hc2, Hs2, !app_nil_r.
Qed.

(** C21. A query that a program sends is found however its text is cut into chunks: while a
    pane is hidden, the colour and stateless queries answered over a run of chunks, and what
    is left pending, are those of the whole text read at once, as long as no unfinished
    sequence reaches the limit of 64 characters.  And when the pane comes back in the
    middle of a query, what the foreground takes of it and leaves for the terminal are
    together the queries of the text, unless the pending text ends in the escape character of
    an unfinished terminator. *)
Theorem queries_survive_chunking chunks data : bounded_run chunks ->
  let '(q, effects) := skipped_run chunks new_hidden_query in
  let whole := extractHiddenStartupRendererQueryData (List.concat chunks) [] in
  color_queries effects = ex_oscColor whole /\ stateless_queries effects = ex_stateless whole
  /\ pendingQuery q = ex_pending whole
  /\ (last (pendingQuery q) <> Some ESC \/ pendingQuery q = [ESC] ->
      match takePendingForForeground data q with
      | (None, _) => pendingQuery q = []
      | (Some f, q') =>
          (List.length (pendingQuery q') < HIDDEN_STARTUP_RENDERER_QUERY_PENDING_CHARS)%nat ->
          extractHiddenStartupRendererQueryData data (pendingQuery q)
          = then_queries (mkExtracted (fq_stateless f) (fq_stateful f) (fq_oscColor f) [])
                         (extractHiddenStartupRendererQueryData (fq_remaining f) (pendingQuery q'))
      end).
Proof.
  intros Hb. pose proof (skipped_run_spec chunks Hb) as H. specialize (Hb chunks [] ltac:(by rewrite app_nil_r)).
  destruct (skipped_run chunks new_hidden_query) as [q effects]. cbn [fst] in Hb. destruct H as (Hp & Hc & Hs).
  split_and!; [done..|]. intros Hlast. unfold takePendingForForeground.
  destruct (decide (pendingQuery q = [])) as [Hn|Hn]; [by rewrite bool_decide_eq_true_2|].
  rewrite bool_decide_eq_false_2 by done.
  destruct (pending_shape (List.concat chunks)) as [r Hr]; [by rewrite <- Hp|]. rewrite <- Hp in Hr.
  pose proof (scan_pending_full _ _ Hr Hb) as Hq. rewrite Hq in Hr, Hlast |- *. clear Hp.
  assert (Hl : last r <> Some ESC).
  { destruct r as [|c r]; [done|]. rewrite last_cons in Hlast. destruct Hlast as [Hl|Hl]; [|done].
    intros Hx. by rewrite Hx in Hl. }
  pose proof (take_pending_spec r data Hr Hl) as Ht. cbn zeta in Ht.
  destruct (take_first_query ((ESC :: r) ++ data) (List.length (ESC :: r))) as [[[[a b] c] n] next].
  exact Ht.
Qed.

(** A device status query and a colour query, both cut in the middle, and the last one
    finished in the foreground. *)
Lemma queries_survive_chunking_witness :
  let chunks := [ESC :: js "]11;?"; BEL :: js "text" ++ [ESC]; js "[5"; js "n" ++ ESC :: js "[6"] in
  bounded_run chunks
  /\ stateless_queries (snd (skipped_run chunks new_hidden_query)) = csi "5n"
  /\ match takePendingForForeground (js "nmore") (fst (skipped_run chunks new_hidden_query)) with
     | (Some f, _) => fq_stateful f = csi "6n" /\ fq_remaining f = js "more"
     | _ => False
     end.
Proof.
  cbn zeta. assert (Hb : bounded_run [ESC :: js "]11;?"; BEL :: js "text" ++ [ESC]; js "[5"; js "n" ++ ESC :: js "[6"]).
  { intros before after H. destruct before as [|a [|b [|c [|d [|e before]]]]]; cbn [app] in H;
      simplify_eq H; intros; subst; vm_compute; lia. }
  pose proof (queries_survive_chunking _ (js "nmore") Hb) as H. split; [exact Hb|].
  destruct (skipped_run _ new_hidden_query) as [q effects] eqn:E. destruct H as (_ & Hs & _ & _). split.
  - cbn [snd]. rewrite Hs. by vm_compute.
  - cbn [fst]. vm_compute in E. injection E as <- _. by vm_compute.
Defined.

(** A colour query whose terminator is cut after its escape character, when it turns out
    to be another sequence: the foreground drops the escape character, and the query that
    follows is neither answered nor written as one. *)
Lemma split_terminator_loses_query :
  let q := fst (skipped_run [ESC :: js "]10;?" ++ [ESC]] new_hidden_query) in
  ex_stateful (extractHiddenStartupRendererQueryData (js "[6n") (pendingQuery q)) = csi "6n"
  /\ fst (takePendingForForeground (js "[6n") q) = Some (mkForegroundQuery [] [] [] (js "[6n") 0).
Proof. by vm_compute. Qed.
