(* ===== verification/OutputRestore.v ===== *)
(** The restoration of a terminal whose output was not shown while it was hidden
    (packages/client/src/terminal-pane/pty: hidden-output-restore-controller.ts,
    hidden-output-restore-run.ts, hidden-output-restore-timing.ts, hidden-output-schedule.ts,
    hidden-output-snapshot-replay.ts) and the delivery of output around it
    (output-delivery.ts).

    What the controller reads from outside (the process shown, the visibility, the clock) is
    the [RestoreEnv] of an event and does not change during it.  The async run is cut at its
    two awaits: for the snapshot, and for its replay, which the coordinator of the terminal
    starts and ends; the end of a run ([finally]) is an event of its own.  A timer that is
    set is a field of the state, and its firing an event.  Resizing the terminal to the grid
    of the snapshot and back is left out. *)

From stdpp Require Import base list.
From Stdlib Require Import ZArith Lia ZifyBool String.
From S2P Require Import Prelude JsText JsMap JsRecord Effects OutputSequence ReplyQueries.

Open Scope Z_scope.

#[local] Set Warnings "-clear-no-such-hyp".

Definition DEFERRED_RETRY_MAX : Z := 3.
Definition FLOOD_SUPPRESS_MS : Z := 2000.
Definition MAX_LOOP_ITERATIONS : Z := 3.

Record PtyBufferSnapshot := mkSnapshot {
  sn_data : jsstring;
  sn_seq : option Z;
  sn_pendingDeliveryStartSeq : option Z;
  sn_alternateScreen : bool;
  sn_scrollbackAnsi : option jsstring;
  sn_pendingEscapeTailAnsi : option jsstring
}.

(** What is outside, during one event. *)
Record RestoreEnv := mkEnv {
  isDisposed : bool;
  getPtyId : option jsstring;
  serializes : bool;  (** the transport has [serializeBuffer] *)
  isForeground : bool;
  isActive : bool;
  pipelineAvailable : bool;  (** [ensureWritePipelineAvailable()] *)
  hasLiveAgent : bool;
  now : Z
}.

(** [canUseSnapshot] (hidden-output-restore-setup.ts). *)
Definition canUseSnapshot (env : RestoreEnv) (ptyId : option jsstring) : bool :=
  match given ptyId with
  | Some _ => bool_decide (getPtyId env = ptyId) && serializes env
  | None => false
  end.

Record HiddenOutputRestoreTiming := mkTiming {
  deferredRetryTimer : bool;
  foregroundDeadlineTimer : option (jsstring * Z);  (** the process and the generation *)
  floodRepaintTimer : option jsstring;
  deferredRetryAttempts : Z;
  floodSuppressedUntil : Z
}.

Definition new_timing : HiddenOutputRestoreTiming := mkTiming false None None 0 0.

Record SnapshotRestore := mkSnapshotRestore {
  sr_ptyId : option jsstring;
  sr_generation : Z;
  sr_valid : bool;
  sr_started : bool;
  sr_snapshot : PtyBufferSnapshot
}.

Record HiddenOutputSnapshotReplay := mkReplay {
  activeRestore : option Z;
  restores : jsmap SnapshotRestore;
  nextRestore : Z
}.

(** Where a run is: waiting for a snapshot, for the replay of one, or past its end. *)
Inductive run_stage :=
  | awaiting_snapshot
  | awaiting_replay (restore : Z) (snapshot : PtyBufferSnapshot)
  | run_over.

Record RestoreRun := mkRun {
  currentPtyId : jsstring;
  restoreGeneration : Z;
  restoreIterations : Z;
  rr_stage : run_stage
}.

Record RestoreState := mkRestore {
  isNeeded : bool;
  inFlight : option Z;
  needsFreshSnapshot : bool;
  isRetryDeferred : bool;
  restorePtyId : option jsstring;
  generation : Z;
  isRendererStateDirty : bool;
  queue : HiddenOutputRestoreQueue;
  timing : HiddenOutputRestoreTiming;
  scheduled : option (Z * jsstring);
  replay : HiddenOutputSnapshotReplay;
  runs : jsmap RestoreRun;
  nextRun : Z;
  orderedOutput : OrderedOutputSequence;
  query : HiddenRendererQuery
}.

Definition new_restore : RestoreState :=
  mkRestore false None false false None 0 false new_queue new_timing None (mkReplay None [] 0) [] 0
    new_sequence new_hidden_query.

Definition set_isNeeded (v : bool) (s : RestoreState) : RestoreState :=
  mkRestore v (inFlight s) (needsFreshSnapshot s) (isRetryDeferred s) (restorePtyId s) (generation s) (isRendererStateDirty s) (queue s) (timing s) (scheduled s) (replay s) (runs s) (nextRun s) (orderedOutput s) (query s).
Definition set_inFlight (v : option Z) (s : RestoreState) : RestoreState :=
  mkRestore (isNeeded s) v (needsFreshSnapshot s) (isRetryDeferred s) (restorePtyId s) (generation s) (isRendererStateDirty s) (queue s) (timing s) (scheduled s) (replay s) (runs s) (nextRun s) (orderedOutput s) (query s).
Definition set_needsFreshSnapshot (v : bool) (s : RestoreState) : RestoreState :=
  mkRestore (isNeeded s) (inFlight s) v (isRetryDeferred s) (restorePtyId s) (generation s) (isRendererStateDirty s) (queue s) (timing s) (scheduled s) (replay s) (runs s) (nextRun s) (orderedOutput s) (query s).
Definition set_isRetryDeferred (v : bool) (s : RestoreState) : RestoreState :=
  mkRestore (isNeeded s) (inFlight s) (needsFreshSnapshot s) v (restorePtyId s) (generation s) (isRendererStateDirty s) (queue s) (timing s) (scheduled s) (replay s) (runs s) (nextRun s) (orderedOutput s) (query s).
Definition set_restorePtyId (v : option jsstring) (s : RestoreState) : RestoreState :=
  mkRestore (isNeeded s) (inFlight s) (needsFreshSnapshot s) (isRetryDeferred s) v (generation s) (isRendererStateDirty s) (queue s) (timing s) (scheduled s) (replay s) (runs s) (nextRun s) (orderedOutput s) (query s).
Definition set_generation (v : Z) (s : RestoreState) : RestoreState :=
  mkRestore (isNeeded s) (inFlight s) (needsFreshSnapshot s) (isRetryDeferred s) (restorePtyId s) v (isRendererStateDirty s) (queue s) (timing s) (scheduled s) (replay s) (runs s) (nextRun s) (orderedOutput s) (query s).
Definition set_isRendererStateDirty (v : bool) (s : RestoreState) : RestoreState :=
  mkRestore (isNeeded s) (inFlight s) (needsFreshSnapshot s) (isRetryDeferred s) (restorePtyId s) (generation s) v (queue s) (timing s) (scheduled s) (replay s) (runs s) (nextRun s) (orderedOutput s) (query s).
Definition set_queue (v : HiddenOutputRestoreQueue) (s : RestoreState) : RestoreState :=
  mkRestore (isNeeded s) (inFlight s) (needsFreshSnapshot s) (isRetryDeferred s) (restorePtyId s) (generation s) (isRendererStateDirty s) v (timing s) (scheduled s) (replay s) (runs s) (nextRun s) (orderedOutput s) (query s).
Definition set_timing (v : HiddenOutputRestoreTiming) (s : RestoreState) : RestoreState :=
  mkRestore (isNeeded s) (inFlight s) (needsFreshSnapshot s) (isRetryDeferred s) (restorePtyId s) (generation s) (isRendererStateDirty s) (queue s) v (scheduled s) (replay s) (runs s) (nextRun s) (orderedOutput s) (query s).
Definition set_scheduled (v : option (Z * jsstring)) (s : RestoreState) : RestoreState :=
  mkRestore (isNeeded s) (inFlight s) (needsFreshSnapshot s) (isRetryDeferred s) (restorePtyId s) (generation s) (isRendererStateDirty s) (queue s) (timing s) v (replay s) (runs s) (nextRun s) (orderedOutput s) (query s).
Definition set_replay (v : HiddenOutputSnapshotReplay) (s : RestoreState) : RestoreState :=
  mkRestore (isNeeded s) (inFlight s) (needsFreshSnapshot s) (isRetryDeferred s) (restorePtyId s) (generation s) (isRendererStateDirty s) (queue s) (timing s) (scheduled s) v (runs s) (nextRun s) (orderedOutput s) (query s).
Definition set_runs (v : jsmap RestoreRun) (s : RestoreState) : RestoreState :=
  mkRestore (isNeeded s) (inFlight s) (needsFreshSnapshot s) (isRetryDeferred s) (restorePtyId s) (generation s) (isRendererStateDirty s) (queue s) (timing s) (scheduled s) (replay s) v (nextRun s) (orderedOutput s) (query s).
Definition set_nextRun (v : Z) (s : RestoreState) : RestoreState :=
  mkRestore (isNeeded s) (inFlight s) (needsFreshSnapshot s) (isRetryDeferred s) (restorePtyId s) (generation s) (isRendererStateDirty s) (queue s) (timing s) (scheduled s) (replay s) (runs s) v (orderedOutput s) (query s).
Definition set_orderedOutput (v : OrderedOutputSequence) (s : RestoreState) : RestoreState :=
  mkRestore (isNeeded s) (inFlight s) (needsFreshSnapshot s) (isRetryDeferred s) (restorePtyId s) (generation s) (isRendererStateDirty s) (queue s) (timing s) (scheduled s) (replay s) (runs s) (nextRun s) v (query s).
Definition set_query (v : HiddenRendererQuery) (s : RestoreState) : RestoreState :=
  mkRestore (isNeeded s) (inFlight s) (needsFreshSnapshot s) (isRetryDeferred s) (restorePtyId s) (generation s) (isRendererStateDirty s) (queue s) (timing s) (scheduled s) (replay s) (runs s) (nextRun s) (orderedOutput s) v.

Inductive restore_effect :=
  | x_queue (e : queue_effect)
  | x_query (e : query_effect)
  | x_serialize (run : Z) (ptyId : jsstring)  (** [serializeSnapshot] *)
  | x_coordinate (restore : Z)  (** [coordinator.run] *)
  | x_discardTerminalOutput
  | x_writeReplayData (data : jsstring)
  | x_recordTerminalOutput
  | x_onRestoreSettled
  | x_writeUnavailableWarning
  | x_warnIterationCap (ptyId : jsstring) (outcome : DrainOutcome)
  | x_resetHiddenRendererRisk
  | x_resetSkippedRendererRisk
  | x_clearModeState
  | x_cancelRebuildCompletions
  | x_write (data : jsstring) (foreground startupQuery : bool)
  | x_scheduleStartupCommand
  | x_pulseVisiblePtySize.

Definition R (A : Type) : Type := M RestoreState restore_effect Empty_set A.

Definition upd_timing (f : HiddenOutputRestoreTiming -> HiddenOutputRestoreTiming) : R unit :=
  modify (fun s => set_timing (f (timing s)) s).

Definition upd_replay (f : HiddenOutputSnapshotReplay -> HiddenOutputSnapshotReplay) : R unit :=
  modify (fun s => set_replay (f (replay s)) s).

Definition upd_run (id : Z) (f : RestoreRun -> RestoreRun) : R unit :=
  modify (fun s => match map_get id (runs s) with
                   | Some r => set_runs (map_set id (f r) (runs s)) s
                   | None => s
                   end).

Definition end_run (id : Z) : R unit :=
  upd_run id (fun r => mkRun (currentPtyId r) (restoreGeneration r) (restoreIterations r) run_over).

Definition skip : R unit := ret tt.

Section env.
Context (env : RestoreEnv).

(** ** hidden-output-restore-timing.ts *)

Definition set_retry (timer : bool) (attempts : Z) (t : HiddenOutputRestoreTiming) : HiddenOutputRestoreTiming :=
  mkTiming timer (foregroundDeadlineTimer t) (floodRepaintTimer t) attempts (floodSuppressedUntil t).

Definition set_deadline (timer : option (jsstring * Z)) (t : HiddenOutputRestoreTiming) : HiddenOutputRestoreTiming :=
  mkTiming (deferredRetryTimer t) timer (floodRepaintTimer t) (deferredRetryAttempts t) (floodSuppressedUntil t).

Definition set_flood (timer : option jsstring) (until : Z) (t : HiddenOutputRestoreTiming) : HiddenOutputRestoreTiming :=
  mkTiming (deferredRetryTimer t) (foregroundDeadlineTimer t) timer (deferredRetryAttempts t) until.

Definition clearDeferredRetry : R unit := upd_timing (fun t => set_retry false (deferredRetryAttempts t) t).
Definition clearForegroundDeadline : R unit := upd_timing (set_deadline None).
Definition resetDeferredRetryAttempts : R unit := upd_timing (fun t => set_retry (deferredRetryTimer t) 0 t).
Definition resetFloodSuppression : R unit := upd_timing (set_flood None 0).

Definition queue_waiting (s : RestoreState) : bool := hasPending (queue s) || q_hasOverflow (queue s).

Definition armForegroundDeadline : R unit :=
  (s <- get ;;
   if isDisposed env || negb (bool_decide (foregroundDeadlineTimer (timing s) = None))
      || negb (isForeground env) || negb (queue_waiting s)
   then skip
   else match restorePtyId s with
        | None => skip
        | Some ptyId =>
            if negb (bool_decide (getPtyId env = Some ptyId)) then skip
            else upd_timing (set_deadline (Some (ptyId, generation s)))
        end)%eff.

Definition isForegroundBackpressure (s : RestoreState) : bool :=
  isForeground env && (negb (bool_decide (inFlight s = None)) || (now env <? floodSuppressedUntil (timing s))).

Definition noteFloodBackpressure : R unit :=
  (upd_timing (fun t => set_flood (floodRepaintTimer t) (now env + FLOOD_SUPPRESS_MS) t) ;;;
   match getPtyId env with
   | None => skip
   | Some ptyId => upd_timing (fun t => set_flood (Some ptyId) (floodSuppressedUntil t) t)
   end)%eff.

Definition dispose : R unit :=
  (clearDeferredRetry ;;; clearForegroundDeadline ;;; resetFloodSuppression)%eff.

(** ** hidden-output-snapshot-replay.ts *)

Definition upd_restore (id : Z) (f : SnapshotRestore -> SnapshotRestore) : R unit :=
  upd_replay (fun p => match map_get id (restores p) with
                       | Some r => mkReplay (activeRestore p) (map_set id (f r) (restores p)) (nextRestore p)
                       | None => p
                       end).

Definition isCurrent (restore : SnapshotRestore) (s : RestoreState) : bool :=
  sr_valid restore && negb (isDisposed env) && bool_decide (getPtyId env = sr_ptyId restore)
  && (generation s =? sr_generation restore).

(** [cancel], without the fit that follows a replay. *)
Definition cancelSnapshotReplay : R unit :=
  (s <- get ;;
   match activeRestore (replay s) with
   | None => skip
   | Some id =>
       let started := match map_get id (restores (replay s)) with Some r => sr_started r | None => false end in
       upd_restore id (fun r => mkSnapshotRestore (sr_ptyId r) (sr_generation r) false (sr_started r) (sr_snapshot r)) ;;;
       upd_replay (fun p => mkReplay None (restores p) (nextRestore p)) ;;;
       if started then emit x_cancelRebuildCompletions else skip
   end)%eff.

(** [apply], up to its await. *)
Definition apply (snapshot : PtyBufferSnapshot) : R Z :=
  (cancelSnapshotReplay ;;;
   s <- get ;;
   let id := nextRestore (replay s) in
   let restore := mkSnapshotRestore (getPtyId env) (generation s) true false snapshot in
   upd_replay (fun p => mkReplay (Some id) (map_set id restore (restores p)) (id + 1)) ;;;
   emit (x_coordinate id) ;;;
   ret id)%eff.

(** The bytes that clear the terminal, draw the snapshot and reset its modes. *)
Definition replay_writes (snapshot : PtyBufferSnapshot) : list jsstring :=
  (if negb (sn_alternateScreen snapshot) then [csi "2J" ++ csi "3J" ++ csi "H"]
   else match sn_scrollbackAnsi snapshot with
        | Some scrollback => [csi "?1049l" ++ csi "2J" ++ csi "3J" ++ csi "H"; scrollback;
                              csi "0m" ++ csi "?1049h" ++ csi "2J" ++ csi "H"]
        | None => [csi "0m" ++ csi "?1049h" ++ csi "2J" ++ csi "H"]
        end)
  ++ [sn_data snapshot]
  ++ [if hasLiveAgent env then csi "0 q" else csi "0 q" ++ csi "?25h" ++ csi "?1004l"]
  ++ match given (sn_pendingEscapeTailAnsi snapshot) with Some tail => [tail] | None => [] end.

(** The task the coordinator runs. *)
Definition replay_task (id : Z) : R unit :=
  (s <- get ;;
   match map_get id (restores (replay s)) with
   | None => skip
   | Some restore =>
       if negb (isCurrent restore s) then skip
       else
         upd_restore id (fun r => mkSnapshotRestore (sr_ptyId r) (sr_generation r) (sr_valid r) true (sr_snapshot r)) ;;;
         emit x_discardTerminalOutput ;;;
         for_each (fun data => emit (x_writeReplayData data)) (replay_writes (sr_snapshot restore)) ;;;
         modify (fun s => set_orderedOutput (recordRendered (getPtyId env) (sn_seq (sr_snapshot restore)) (orderedOutput s)) s) ;;;
         modify (set_isRendererStateDirty false) ;;;
         emit x_resetHiddenRendererRisk ;;;
         emit x_recordTerminalOutput
   end)%eff.

(** The end of [afterRestore], when the terminal fits its pane again and no override stops
    it. *)
Definition after_replay (id : Z) : R unit :=
  (s <- get ;;
   match map_get id (restores (replay s)) with
   | None => skip
   | Some restore =>
       if isCurrent restore s && negb (bool_decide (given (getPtyId env) = None)) then emit x_onRestoreSettled else skip
   end)%eff.

Definition retargetGeneration (ptyId : jsstring) (generation : Z) : R unit :=
  (s <- get ;;
   match activeRestore (replay s) with
   | None => skip
   | Some id =>
       match map_get id (restores (replay s)) with
       | Some r =>
           if sr_valid r && bool_decide (sr_ptyId r = Some ptyId)
           then upd_restore id (fun r => mkSnapshotRestore (sr_ptyId r) generation (sr_valid r) (sr_started r) (sr_snapshot r))
           else skip
       | None => skip
       end
   end)%eff.

(** ** hidden-output-restore-controller.ts *)

Definition clear_schedule : R unit := modify (set_scheduled None).

Definition clearPending : R unit :=
  (modify (set_queue new_queue) ;;;
   modify (set_needsFreshSnapshot false) ;;;
   modify (set_isRetryDeferred false) ;;;
   clear_schedule ;;;
   clearDeferredRetry ;;;
   clearForegroundDeadline ;;;
   resetDeferredRetryAttempts)%eff.

Definition clear : R unit :=
  (cancelSnapshotReplay ;;;
   clearPending ;;;
   modify (fun s => set_query (resetPending (query s)) s) ;;;
   modify (set_isRendererStateDirty false) ;;;
   emit x_resetHiddenRendererRisk ;;;
   modify (set_isNeeded false) ;;;
   modify (set_restorePtyId None) ;;;
   modify (fun s => set_generation (generation s + 1) s))%eff.

(** The scan tail of mode 2031 stays. *)
Definition resetIfPtyChanged : R unit :=
  (s <- get ;;
   match restorePtyId s with
   | None => skip
   | Some ptyId =>
       if bool_decide (getPtyId env = Some ptyId) then skip
       else
         clear ;;;
         modify (fun s => set_orderedOutput (clearSnapshotBaseline (orderedOutput s)) s) ;;;
         emit x_clearModeState ;;;
         resetFloodSuppression ;;;
         emit x_discardTerminalOutput
   end)%eff.

Definition abandon (expectedPtyId : jsstring) (quiet : bool) : R unit :=
  (s <- get ;;
   if negb (bool_decide (getPtyId env = Some expectedPtyId)) || negb (bool_decide (restorePtyId s = Some expectedPtyId))
   then resetIfPtyChanged
   else
     let '(chunks, hadOverflow, q) := takeForAbandonment (queue s) in
     modify (set_queue q) ;;;
     modify (fun s => set_generation (generation s + 1) s) ;;;
     retargetGeneration expectedPtyId (generation s + 1) ;;;
     modify (set_inFlight None) ;;;
     modify (set_isNeeded false) ;;;
     modify (set_restorePtyId None) ;;;
     clearPending ;;;
     modify (fun s => set_query (resetPending (query s)) s) ;;;
     modify (set_isRendererStateDirty false) ;;;
     emit x_resetHiddenRendererRisk ;;;
     (if quiet then skip else emit x_writeUnavailableWarning) ;;;
     if hadOverflow then skip
     else
       let data := List.concat (oc_data <$> chunks) in
       if bool_decide (data = []) then skip else emit (x_queue (WriteForeground data)))%eff.

Definition onDeferredRetryExhausted (ptyId : option jsstring) : R unit :=
  match given ptyId with
  | Some ptyId => abandon ptyId false
  | None => (clear ;;; emit x_writeUnavailableWarning)%eff
  end.

Definition scheduleDeferredRetry : R unit :=
  (s <- get ;;
   if isDisposed env || deferredRetryTimer (timing s) || negb (isForeground env) then skip
   else if deferredRetryAttempts (timing s) >=? DEFERRED_RETRY_MAX then onDeferredRetryExhausted (restorePtyId s)
   else upd_timing (fun t => set_retry true (deferredRetryAttempts t + 1) t))%eff.

Definition deferInactive (ptyId : jsstring) : R unit :=
  (s <- get ;;
   match scheduled s with
   | Some _ => skip
   | None => modify (set_scheduled (Some (generation s, ptyId)))
   end)%eff.

(** ** hidden-output-restore-run.ts *)

(** [clearState] when the run still restores its process. *)
Definition clear_if_current (ptyId : jsstring) : R unit :=
  (s <- get ;;
   if bool_decide (restorePtyId s = Some ptyId) then clear else skip)%eff.

(** One round of the loop, up to its first await. *)
Definition run_iterate (id iterations : Z) : R unit :=
  (s <- get ;;
   if isDisposed env then end_run id
   else match restorePtyId s with
   | None => clear ;;; end_run id
   | Some ptyId =>
       if negb (canUseSnapshot env (Some ptyId)) then
         clear_if_current ptyId ;;; emit x_writeUnavailableWarning ;;; end_run id
       else if negb (bool_decide (getPtyId env = Some ptyId)) then
         clear_if_current ptyId ;;; end_run id
       else
         modify (set_isNeeded false) ;;;
         upd_run id (fun _ => mkRun ptyId (generation s) iterations awaiting_snapshot) ;;;
         emit (x_serialize id ptyId)
   end)%eff.

Definition deferRetry : R unit :=
  (modify (set_needsFreshSnapshot false) ;;;
   modify (set_isRetryDeferred true) ;;;
   scheduleDeferredRetry)%eff.

(** The snapshot of the run arrives. *)
Definition run_snapshot (id : Z) (snapshot : option PtyBufferSnapshot) : R unit :=
  (s <- get ;;
   match map_get id (runs s) with
   | Some r =>
       match rr_stage r with
       | awaiting_snapshot =>
           let ptyId := currentPtyId r in
           let restorePtyChanged := negb (bool_decide (getPtyId env = Some ptyId))
                                    || negb (bool_decide (restorePtyId s = Some ptyId)) in
           if isDisposed env then end_run id
           else if negb (generation s =? restoreGeneration r) || restorePtyChanged then
             (if restorePtyChanged then clear_if_current ptyId else skip) ;;; end_run id
           else match snapshot with
           | None => modify (set_isNeeded true) ;;; deferRetry ;;; end_run id
           | Some snapshot =>
               resetDeferredRetryAttempts ;;;
               restore <- apply snapshot ;;
               upd_run id (fun r => mkRun ptyId (restoreGeneration r) (restoreIterations r + 1) (awaiting_replay restore snapshot))
           end
       | _ => skip
       end
   | None => skip
   end)%eff.

Definition complete : R unit :=
  (modify (set_isNeeded false) ;;; modify (set_restorePtyId None) ;;; clearForegroundDeadline)%eff.

Definition drain_queue (snapshotSeq : option Z) : R DrainOutcome :=
  (s <- get ;;
   let '(outcome, q, o, effects) := drainAfterSnapshot (getPtyId env) snapshotSeq (queue s) (orderedOutput s) in
   modify (set_queue q) ;;;
   modify (set_orderedOutput o) ;;;
   for_each (fun e => emit (x_queue e)) effects ;;;
   ret outcome)%eff.

(** The replay of the snapshot ends; [failed] when its promise rejects. *)
Definition run_replayed (id : Z) (failed : bool) : R unit :=
  (s <- get ;;
   match map_get id (runs s) with
   | Some r =>
       match rr_stage r with
       | awaiting_replay restore snapshot =>
           let ptyId := currentPtyId r in
           (if bool_decide (activeRestore (replay s) = Some restore)
            then upd_replay (fun p => mkReplay None (restores p) (nextRestore p)) else skip) ;;;
           if failed || isDisposed env || negb (generation s =? restoreGeneration r)
              || negb (bool_decide (restorePtyId s = Some ptyId)) || negb (bool_decide (getPtyId env = Some ptyId))
           then end_run id
           else
             modify (fun s => set_orderedOutput
               (setSnapshotBaseline ptyId (sn_seq snapshot) (sn_pendingDeliveryStartSeq snapshot) (orderedOutput s)) s) ;;;
             let needsFresh := needsFreshSnapshot s in
             modify (set_needsFreshSnapshot false) ;;;
             outcome <- drain_queue (sn_seq snapshot) ;;
             match outcome, needsFresh with
             | drained, false => complete ;;; end_run id
             | _, _ =>
                 if negb (isForeground env) then modify (set_isNeeded true) ;;; end_run id
                 else match outcome with
                 | overflow => noteFloodBackpressure ;;; abandon ptyId true ;;; end_run id
                 | _ =>
                     if restoreIterations r >=? MAX_LOOP_ITERATIONS then
                       emit (x_warnIterationCap ptyId outcome) ;;;
                       noteFloodBackpressure ;;; abandon ptyId true ;;; end_run id
                     else modify (set_isNeeded true) ;;; run_iterate id (restoreIterations r)
                 end
             end
       | _ => skip
       end
   | None => skip
   end)%eff.

(** ** Requests *)

Definition request (bypassScheduler : bool) : R unit :=
  (if negb (pipelineAvailable env) then skip
   else
     resetIfPtyChanged ;;;
     s <- get ;;
     let ptyId := match restorePtyId s with Some id => Some id | None => getPtyId env end in
     if negb (isNeeded s) && negb (hasPending (queue s)) || negb (canUseSnapshot env ptyId) then skip
     else
       modify (set_restorePtyId ptyId) ;;;
       match inFlight s with
       | Some _ => armForegroundDeadline
       | None =>
           if negb bypassScheduler && negb (isActive env) then
             match ptyId with Some ptyId => deferInactive ptyId | None => skip end
           else
             clear_schedule ;;;
             clearDeferredRetry ;;;
             modify (set_isRetryDeferred false) ;;;
             modify (fun s => set_runs (map_set (nextRun s) (mkRun [] 0 0 run_over) (runs s)) (set_nextRun (nextRun s + 1) s)) ;;;
             run_iterate (nextRun s) 0 ;;;
             modify (set_inFlight (Some (nextRun s)))
       end)%eff.

(** The [finally] of a run. *)
Definition run_settled (id : Z) : R unit :=
  (s <- get ;;
   match map_get id (runs s) with
   | Some (mkRun _ _ _ run_over) =>
       modify (fun s => set_runs (map_delete id (runs s)) s) ;;;
       (if bool_decide (inFlight s = Some id) then modify (set_inFlight None) else skip) ;;;
       (if queue_waiting s then modify (set_isNeeded true) ;;; armForegroundDeadline else skip) ;;;
       s <- get ;;
       if negb (isRetryDeferred s) && isNeeded s && isForeground env then request false else skip
   | _ => skip
   end)%eff.

Definition markNeeded : R unit :=
  (emit x_resetSkippedRendererRisk ;;;
   let ptyId := getPtyId env in
   if negb (canUseSnapshot env ptyId) then skip
   else
     s <- get ;;
     (match restorePtyId s with
      | Some id => if bool_decide (ptyId = Some id) then skip else clear
      | None => skip
      end) ;;;
     modify (set_restorePtyId ptyId) ;;;
     modify (set_isNeeded true) ;;;
     if isForeground env then request false else skip)%eff.

Definition markFreshSnapshotNeeded : R unit :=
  (modify (set_isNeeded true) ;;; modify (set_needsFreshSnapshot true))%eff.

Definition query_effects (step : HiddenRendererQuery -> HiddenRendererQuery * list query_effect) : R unit :=
  (s <- get ;;
   let '(q, effects) := step (query s) in
   modify (set_query q) ;;; for_each (fun e => emit (x_query e)) effects)%eff.

Definition skipRendererOutput (data : jsstring) : R unit :=
  (query_effects (observeSkipped data) ;;;
   markNeeded ;;;
   modify (set_isRendererStateDirty true) ;;;
   s <- get ;;
   match inFlight s with
   | Some _ => modify (set_needsFreshSnapshot true)
   | None => skip
   end)%eff.

Definition shouldSkipRendererOutput (shouldSnapshotHiddenOutput foreground : bool) (data : jsstring) (s : RestoreState) : bool :=
  negb foreground && shouldSnapshotHiddenOutput && canUseSnapshot env (getPtyId env)
  && (isRendererStateDirty s || negb (containsStatefulRendererQuery data)).

Definition queueLiveChunk (data : jsstring) (meta : PtyDataMeta) : R unit :=
  (let ptyId := getPtyId env in
   if bool_decide (data = []) || negb (canUseSnapshot env ptyId) then skip
   else
     s <- get ;;
     (match restorePtyId s with
      | Some id => if bool_decide (ptyId = Some id) then skip else clear
      | None => skip
      end) ;;;
     modify (set_restorePtyId ptyId) ;;;
     modify (set_isNeeded true) ;;;
     s <- get ;;
     let '(q, effects) := queue_chunk data meta (queue s) in
     modify (set_queue q) ;;;
     for_each (fun e => emit (x_queue e)) effects ;;;
     armForegroundDeadline)%eff.

(** ** Timers *)

Definition foreground_deadline : R unit :=
  (s <- get ;;
   match foregroundDeadlineTimer (timing s) with
   | None => skip
   | Some (ptyId, gen) =>
       clearForegroundDeadline ;;;
       if isDisposed env || negb (generation s =? gen) || negb (bool_decide (restorePtyId s = Some ptyId))
          || negb (isForeground env)
       then skip else abandon ptyId false
   end)%eff.

Definition deferred_retry : R unit :=
  (s <- get ;;
   if negb (deferredRetryTimer (timing s)) then skip
   else
     clearDeferredRetry ;;;
     if isDisposed env || negb (isNeeded s) then skip
     else modify (set_isRetryDeferred false) ;;; request false)%eff.

Definition flood_quiet : R unit :=
  (s <- get ;;
   match floodRepaintTimer (timing s) with
   | None => skip
   | Some ptyId =>
       upd_timing (fun t => set_flood None (floodSuppressedUntil t) t) ;;;
       if isDisposed env || negb (bool_decide (getPtyId env = Some ptyId)) then skip else markNeeded
   end)%eff.

Definition run_scheduled : R unit :=
  (s <- get ;;
   match scheduled s with
   | None => skip
   | Some (gen, ptyId) =>
       clear_schedule ;;;
       if negb (isDisposed env) && (generation s =? gen) && bool_decide (restorePtyId s = Some ptyId)
          && bool_decide (getPtyId env = Some ptyId) && canUseSnapshot env (Some ptyId)
          && (isNeeded s || hasPending (queue s)) && isForeground env
       then request true else skip
   end)%eff.

(** ** output-delivery.ts *)

(** [filterStartupOutput] and the screen of the terminal are its owner's; what observes the
    output on the way (activity, drafts, pixel sizes, side effects, commands) is left out. *)
Context (filterStartupOutput : jsstring -> jsstring) (alternateScreen shouldSnapshotHiddenOutput : bool).

(** [skipBackgroundAlternateScreenOutput] (output-writer.ts); the repaint it ends with is an
    effect. *)
Definition skipBackgroundAlternateScreenOutput (data : jsstring) : R unit :=
  (query_effects (observeSkipped data) ;;;
   emit x_resetSkippedRendererRisk ;;;
   modify (set_isRendererStateDirty true) ;;;
   emit x_pulseVisiblePtySize)%eff.

(** The end of the delivery: to the screen, to the queue, or to nothing. *)
Definition deliver_rendered (foreground : bool) (data : jsstring) (meta : PtyDataMeta)
    (pending : option ForegroundQuery) : R unit :=
  ((match pending with
    | Some f => for_each emit (when_given (fq_stateless f) (fun q => x_write q true true)
                               ++ when_given (fq_oscColor f) (fun q => x_query (SendColorReplies q)))
    | None => skip
    end) ;;;
   s <- get ;;
   let appliesToCurrentPty := match restorePtyId s with
                              | Some id => bool_decide (getPtyId env = Some id)
                              | None => false
                              end in
   let isInFlight := negb (bool_decide (inFlight s = None)) in
   let stateful := match pending with Some f => fq_stateful f | None => [] end in
   (if meta_background meta && isForeground env && alternateScreen && negb (containsStatefulRendererQuery data)
    then skipBackgroundAlternateScreenOutput data
    else if shouldSkipRendererOutput shouldSnapshotHiddenOutput foreground data s then skipRendererOutput data
    else if (isNeeded s || isInFlight) && appliesToCurrentPty then
      if foreground then
        (if bool_decide (stateful = []) then skip else queueLiveChunk stateful no_meta) ;;;
        queueLiveChunk data meta ;;;
        request false
      else if isInFlight then emit x_resetSkippedRendererRisk ;;; markFreshSnapshotNeeded
      else skip
    else
      (if bool_decide (stateful = []) then skip else emit (x_write stateful true true)) ;;;
      emit (x_write data foreground false) ;;;
      if foreground
      then modify (fun s => set_orderedOutput (recordRendered (getPtyId env) (meta_seq meta) (orderedOutput s)) s)
      else skip) ;;;
   emit x_scheduleStartupCommand)%eff.

(** From the reconciliation on. *)
Definition deliver_live (foreground : bool) (data : jsstring) (meta : PtyDataMeta) : R unit :=
  (s <- get ;;
   let '(pending, q) := if foreground then takePendingForForeground data (query s) else (None, query s) in
   modify (set_query q) ;;;
   let rendererData := match pending with Some f => fq_remaining f | None => data end in
   let rendererMeta := consumePtyDataMetaChars meta (match pending with Some f => fq_consumed f | None => O end) in
   modify (fun s => set_orderedOutput (observeChannel (getPtyId env) meta (orderedOutput s)) s) ;;;
   s <- get ;;
   match (if foreground then Some rendererData
          else sliceAfterRendered (getPtyId env) rendererData rendererMeta (orderedOutput s)) with
   | None => markNeeded ;;; emit x_scheduleStartupCommand
   | Some orderedData =>
       if negb foreground && bool_decide (orderedData = []) then emit x_scheduleStartupCommand
       else deliver_rendered foreground orderedData rendererMeta pending
   end)%eff.

Definition deliver_reconciled (data : jsstring) (meta : PtyDataMeta) : R unit :=
  (let foreground := isForeground env && negb (meta_background meta) in
   s <- get ;;
   (if foreground && hasPendingModeSequence (query s) then query_effects (observeMode2031 data) else skip) ;;;
   let '(reconciliation, o) := reconcileLive (getPtyId env) data meta (orderedOutput s) in
   modify (set_orderedOutput o) ;;;
   match reconciliation with
   | drop_duplicate => skip
   | force_fresh_restore =>
       if foreground && isForegroundBackpressure s then
         noteFloodBackpressure ;;;
         modify (fun s => set_orderedOutput (clearSnapshotBaseline (orderedOutput s)) s) ;;;
         deliver_live foreground data meta
       else
         let wasInFlight := negb (bool_decide (inFlight s = None)) in
         markNeeded ;;;
         if wasInFlight then markFreshSnapshotNeeded else skip
   | rec_write data meta => deliver_live foreground data meta
   end)%eff.

Definition deliverPtyOutput (incomingData : jsstring) (meta : PtyDataMeta) : R unit :=
  (let data := filterStartupOutput incomingData in
   resetIfPtyChanged ;;;
   s <- get ;;
   if meta_droppedOutput meta then
     if negb (meta_background meta) && isForegroundBackpressure s then
       noteFloodBackpressure ;;; deliver_reconciled data meta
     else
       markNeeded ;;;
       if bool_decide (data = []) then skip else emit (x_queue (SalvageDiscarded data))
   else deliver_reconciled data meta)%eff.
End env.

(** ** Runs *)

Inductive restore_event :=
  | ev_deliver (filter : jsstring -> jsstring) (alternate snapshotHidden : bool) (data : jsstring) (meta : PtyDataMeta)
  | ev_request  (** the pane becomes visible, or the terminal's backlog asks *)
  | ev_markNeeded  (** the terminal dropped a background backlog *)
  | ev_clear  (** before a spawn *)
  | ev_cancelReplay  (** a reattachment draws the terminal *)
  | ev_exit (ptyId : jsstring)
  | ev_snapshot (run : Z) (snapshot : option PtyBufferSnapshot)
  | ev_replay_task (restore : Z)
  | ev_after_replay (restore : Z)
  | ev_replayed (run : Z) (failed : bool)
  | ev_settled (run : Z)
  | ev_foreground_deadline
  | ev_deferred_retry
  | ev_flood_quiet
  | ev_scheduled
  | ev_dispose.

Definition restore_step (env : RestoreEnv) (e : restore_event) : R unit :=
  match e with
  | ev_deliver filter alternate snapshotHidden data meta => deliverPtyOutput env filter alternate snapshotHidden data meta
  | ev_request => request env false
  | ev_markNeeded => markNeeded env
  | ev_clear => (emit x_clearModeState ;;; clear)%eff
  | ev_cancelReplay => cancelSnapshotReplay
  | ev_exit ptyId => modify (fun s => set_orderedOutput (resetForExit ptyId (orderedOutput s)) s)
  | ev_snapshot run snapshot => run_snapshot env run snapshot
  | ev_replay_task restore => replay_task env restore
  | ev_after_replay restore => after_replay env restore
  | ev_replayed run failed => run_replayed env run failed
  | ev_settled run => run_settled env run
  | ev_foreground_deadline => foreground_deadline env
  | ev_deferred_retry => deferred_retry env
  | ev_flood_quiet => flood_quiet env
  | ev_scheduled => run_scheduled env
  | ev_dispose => dispose
  end.

(** The state and the effects of each event, in order. *)
Fixpoint restore_run (events : list (RestoreEnv * restore_event)) (s : RestoreState)
    : RestoreState * list (list restore_effect) :=
  match events with
  | [] => (s, [])
  | (env, e) :: rest =>
      let r := restore_step env e s in
      let '(s, out) := restore_run rest (run_state r) in (s, run_out r :: out)
  end.
