(* ===== verification/OutputRestoreSpec.v ===== *)
(** The restoration of hidden output (OutputRestore.v) never stalls while the terminal is
    visible: the invariant of its control state (one run in flight, retries, schedules) and
    what each operation makes of it. *)

From stdpp Require Import base list sets.
From Stdlib Require Import ZArith Lia ZifyBool.
From S2P Require Import Prelude JsText JsMap JsRecord Effects OutputSequence ReplyQueries OutputRestore.

#[local] Set Warnings "-clear-no-such-hyp".

(** ** The control state *)

Record control := mkControl {
  c_needed : bool;
  c_flight : option Z;
  c_deferred : bool;
  c_pty : option jsstring;
  c_gen : Z;
  c_scheduled : option (Z * jsstring);
  c_timer : bool;
  c_runs : jsmap RestoreRun;
  c_next : Z
}.

Definition ctl (s : RestoreState) : control :=
  mkControl (isNeeded s) (inFlight s) (isRetryDeferred s) (restorePtyId s) (generation s) (scheduled s)
    (deferredRetryTimer (timing s)) (runs s) (nextRun s).

(** Steps that leave it as it is. *)
Program Definition still : step_relation RestoreState restore_effect :=
  mkStep (fun s _ s' => ctl s' = ctl s) _ _.
Next Obligation. done. Qed.
Next Obligation. congruence. Qed.

Definition Still (A : Type) (m : R A) : Prop := respects still m.

#[export] Instance Still_compositional : Compositional Still := respects_compositional still.

Lemma still_modify f : (forall s, ctl (f s) = ctl s) -> Still unit (modify f).
Proof. intros H. by apply respects_modify. Qed.

Lemma still_emit e : Still unit (emit e).
Proof. by apply respects_emit. Qed.

Create HintDb restore.

#[local] Hint Extern 1 (Still _ (modify _)) => apply still_modify; intros; reflexivity : restore.
#[local] Hint Extern 1 (Still _ (emit _)) => apply still_emit : restore.
#[local] Hint Extern 1 (Still _ skip) => apply (comp_ret (Q := Still)) : restore.

Ltac go := repeat first [solve [eauto with restore] | compose_step].

Lemma still_deadline t : Still unit (upd_timing (set_deadline t)).
Proof. unfold upd_timing. go. Qed.
Lemma still_flood t u : Still unit (upd_timing (fun x => set_flood (t x) (u x) x)).
Proof. unfold upd_timing. go. Qed.
Lemma still_attempts : Still unit resetDeferredRetryAttempts.
Proof. unfold resetDeferredRetryAttempts, upd_timing. go. Qed.
#[local] Hint Resolve still_deadline still_flood still_attempts : restore.
#[local] Hint Extern 1 (Still _ (upd_replay _)) => unfold upd_replay; apply still_modify; intros; reflexivity : restore.

Lemma still_arm env : Still unit (armForegroundDeadline env).
Proof. unfold armForegroundDeadline. go. Qed.
Lemma still_clear_deadline : Still unit clearForegroundDeadline.
Proof. apply still_deadline. Qed.
Lemma still_reset_flood : Still unit resetFloodSuppression.
Proof. apply (still_flood (fun _ => None) (fun _ => 0)). Qed.
Lemma still_note_flood env : Still unit (noteFloodBackpressure env).
Proof.
  unfold noteFloodBackpressure. apply (comp_bind (Q := Still)).
  - apply (still_flood floodRepaintTimer (fun _ => now env + FLOOD_SUPPRESS_MS)).
  - intros _. destruct (getPtyId env) as [p|]; [|go]. apply (still_flood (fun _ => Some p) floodSuppressedUntil).
Qed.
Lemma still_cancel : Still unit cancelSnapshotReplay.
Proof. unfold cancelSnapshotReplay, upd_restore. go. Qed.
Lemma still_apply env snapshot : Still Z (apply env snapshot).
Proof. unfold apply. pose proof still_cancel. go. Qed.
Lemma still_retarget p g : Still unit (retargetGeneration p g).
Proof. unfold retargetGeneration, upd_restore. go. Qed.
Lemma still_replay_task env id : Still unit (replay_task env id).
Proof. unfold replay_task, upd_restore. go. Qed.
Lemma still_after_replay env id : Still unit (after_replay env id).
Proof. unfold after_replay. go. Qed.
Lemma still_drain env seq : Still DrainOutcome (drain_queue env seq).
Proof. unfold drain_queue. go. Qed.
Lemma still_query step : Still unit (query_effects step).
Proof. unfold query_effects. go. Qed.
#[local] Hint Resolve still_arm still_clear_deadline still_reset_flood still_note_flood still_cancel still_apply
  still_retarget still_replay_task still_after_replay still_drain still_query : restore.

(** What an operation makes of the control state, whatever the rest of the state is. *)
Definition wp {A} (m : R A) (c : control) (P : A -> control -> Prop) : Prop :=
  forall s, ctl s = c -> exists a, run_result (m s) = Ret a /\ P a (ctl (run_state (m s))).

Lemma wp_mono {A} (m : R A) c (P Q : A -> control -> Prop) :
  wp m c P -> (forall a c', P a c' -> Q a c') -> wp m c Q.
Proof. intros H HPQ s Hs. destruct (H s Hs) as (a & E & Ha). eauto. Qed.

Lemma wp_ret {A} (a : A) c (P : A -> control -> Prop) : P a c -> wp (ret a) c P.
Proof. intros H s <-. by exists a. Qed.

Lemma wp_bind {A B} (m : R A) (k : A -> R B) c (P : B -> control -> Prop) :
  wp m c (fun a c' => wp (k a) c' P) -> wp (bind m k) c P.
Proof.
  intros H s Hs. destruct (H s Hs) as (a & E & Hk). unfold bind, run_state, run_result in *.
  destruct (m s) as [[r s1] o1]. cbn in *. subst r. destruct (Hk s1 eq_refl) as (b & E & Hb).
  destruct (k a s1) as [[r s2] o2]. cbn in *. subst r. eauto.
Qed.

Lemma wp_get {B} (k : RestoreState -> R B) c (P : B -> control -> Prop) :
  (forall s, ctl s = c -> wp (k s) c P) -> wp (bind get k) c P.
Proof.
  intros H s Hs. destruct (H s Hs s Hs) as (a & E & Ha). exists a. unfold bind, get, run_state, run_result in *.
  by destruct (k s s) as [[r s2] o2].
Qed.

Lemma wp_modify f g c (P : unit -> control -> Prop) :
  (forall s, ctl (f s) = g (ctl s)) -> P tt (g c) -> wp (modify f) c P.
Proof. intros H HP s <-. exists tt. unfold run_state. cbn. by rewrite H. Qed.

Lemma wp_still {A} (m : R A) c (P : A -> control -> Prop) :
  Still A m -> (forall a, P a c) -> wp m c P.
Proof.
  intros H HP s <-. specialize (H s). unfold run_state, run_result. destruct (m s) as [[[a|[]] s1] o1].
  exists a. cbn in *. by rewrite H.
Qed.

Lemma wp_seq {A B} (m : R A) (k : A -> R B) c (P : A -> control -> Prop) (Q : B -> control -> Prop) :
  wp m c P -> (forall a c', P a c' -> wp (k a) c' Q) -> wp (bind m k) c Q.
Proof. intros Hm Hk. apply wp_bind. by eapply wp_mono. Qed.

Lemma wp_at {A} (m : R A) s (P : A -> control -> Prop) : wp m (ctl s) P ->
  exists a, P a (ctl (run_state (m s))).
Proof. intros H. destruct (H s eq_refl) as (a & _ & Ha). eauto. Qed.

(** *** The fields of the control state *)

Definition c_set_needed (v : bool) (c : control) : control :=
  mkControl v (c_flight c) (c_deferred c) (c_pty c) (c_gen c) (c_scheduled c) (c_timer c) (c_runs c) (c_next c).
Definition c_set_flight (v : option Z) (c : control) : control :=
  mkControl (c_needed c) v (c_deferred c) (c_pty c) (c_gen c) (c_scheduled c) (c_timer c) (c_runs c) (c_next c).
Definition c_set_deferred (v : bool) (c : control) : control :=
  mkControl (c_needed c) (c_flight c) v (c_pty c) (c_gen c) (c_scheduled c) (c_timer c) (c_runs c) (c_next c).
Definition c_set_pty (v : option jsstring) (c : control) : control :=
  mkControl (c_needed c) (c_flight c) (c_deferred c) v (c_gen c) (c_scheduled c) (c_timer c) (c_runs c) (c_next c).
Definition c_bump (c : control) : control :=
  mkControl (c_needed c) (c_flight c) (c_deferred c) (c_pty c) (c_gen c + 1) (c_scheduled c) (c_timer c) (c_runs c) (c_next c).
Definition c_set_scheduled (v : option (Z * jsstring)) (c : control) : control :=
  mkControl (c_needed c) (c_flight c) (c_deferred c) (c_pty c) (c_gen c) v (c_timer c) (c_runs c) (c_next c).
Definition c_set_timer (v : bool) (c : control) : control :=
  mkControl (c_needed c) (c_flight c) (c_deferred c) (c_pty c) (c_gen c) (c_scheduled c) v (c_runs c) (c_next c).
Definition c_set_runs (v : jsmap RestoreRun) (c : control) : control :=
  mkControl (c_needed c) (c_flight c) (c_deferred c) (c_pty c) (c_gen c) (c_scheduled c) (c_timer c) v (c_next c).

(** After [clear], and after [abandon]. *)
Definition c_clear (c : control) : control :=
  mkControl false (c_flight c) false None (c_gen c + 1) None false (c_runs c) (c_next c).
Definition c_abandon (c : control) : control :=
  mkControl false None false None (c_gen c + 1) None false (c_runs c) (c_next c).

Definition upd_runs (id : Z) (f : RestoreRun -> RestoreRun) (m : jsmap RestoreRun) : jsmap RestoreRun :=
  match map_get id m with Some r => map_set id (f r) m | None => m end.

Arguments upd_runs : simpl never.

Lemma wp_upd_run id f c (P : unit -> control -> Prop) :
  P tt (c_set_runs (upd_runs id f (c_runs c)) c) -> wp (upd_run id f) c P.
Proof.
  intros H. unfold upd_run. apply wp_modify with (g := fun c => c_set_runs (upd_runs id f (c_runs c)) c); [|done].
  intros s. unfold upd_runs. cbn. by destruct (map_get id (runs s)).
Qed.

Lemma wp_set_needed v c (P : unit -> control -> Prop) : P tt (c_set_needed v c) -> wp (modify (set_isNeeded v)) c P.
Proof. by apply wp_modify. Qed.
Lemma wp_set_flight v c (P : unit -> control -> Prop) : P tt (c_set_flight v c) -> wp (modify (set_inFlight v)) c P.
Proof. by apply wp_modify. Qed.
Lemma wp_set_deferred v c (P : unit -> control -> Prop) :
  P tt (c_set_deferred v c) -> wp (modify (set_isRetryDeferred v)) c P.
Proof. by apply wp_modify. Qed.
Lemma wp_set_pty v c (P : unit -> control -> Prop) : P tt (c_set_pty v c) -> wp (modify (set_restorePtyId v)) c P.
Proof. by apply wp_modify. Qed.
Lemma wp_bump c (P : unit -> control -> Prop) :
  P tt (c_bump c) -> wp (modify (fun s => set_generation (generation s + 1) s)) c P.
Proof. by apply wp_modify. Qed.
Lemma wp_clear_schedule c (P : unit -> control -> Prop) : P tt (c_set_scheduled None c) -> wp clear_schedule c P.
Proof. by apply wp_modify. Qed.
Lemma wp_clearDeferredRetry c (P : unit -> control -> Prop) : P tt (c_set_timer false c) -> wp clearDeferredRetry c P.
Proof. by apply wp_modify. Qed.

(** Reads the state, and states what was read about the control state. *)
Ltac read :=
  apply wp_get; let s := fresh "s" in let E := fresh "E" in intros s E;
  change (isNeeded s) with (c_needed (ctl s)); change (inFlight s) with (c_flight (ctl s));
  change (isRetryDeferred s) with (c_deferred (ctl s)); change (restorePtyId s) with (c_pty (ctl s));
  change (generation s) with (c_gen (ctl s)); change (scheduled s) with (c_scheduled (ctl s));
  change (deferredRetryTimer (timing s)) with (c_timer (ctl s)); change (runs s) with (c_runs (ctl s));
  change (nextRun s) with (c_next (ctl s)); rewrite ?E.

Ltac wp_step :=
  match goal with
  | |- wp (bind get _) _ _ => read
  | |- wp (bind _ _) _ _ => apply wp_bind
  | |- wp (ret _) _ _ => apply wp_ret
  | |- wp skip _ _ => apply wp_ret
  | |- wp (modify (set_isNeeded _)) _ _ => apply wp_set_needed
  | |- wp (modify (set_inFlight _)) _ _ => apply wp_set_flight
  | |- wp (modify (set_isRetryDeferred _)) _ _ => apply wp_set_deferred
  | |- wp (modify (set_restorePtyId _)) _ _ => apply wp_set_pty
  | |- wp (modify (fun s => set_generation _ s)) _ _ => apply wp_bump
  | |- wp clear_schedule _ _ => apply wp_clear_schedule
  | |- wp clearDeferredRetry _ _ => apply wp_clearDeferredRetry
  | |- wp (upd_run _ _) _ _ => apply wp_upd_run
  | |- wp _ _ _ => apply wp_still; [solve [eauto with restore | go] | lazymatch goal with |- forall _ : unit, _ => intros [] | _ => intros ? end]
  end.

Lemma wp_clearPending c (P : unit -> control -> Prop) :
  P tt (c_set_timer false (c_set_scheduled None (c_set_deferred false c))) -> wp clearPending c P.
Proof. intros H. unfold clearPending. repeat wp_step. exact H. Qed.

Lemma wp_clear c (P : unit -> control -> Prop) : P tt (c_clear c) -> wp clear c P.
Proof.
  intros H. unfold clear. do 2 wp_step. apply wp_bind, wp_clearPending. repeat wp_step. exact H.
Qed.

Section env.
Context (env : RestoreEnv).

Lemma wp_reset c (P : unit -> control -> Prop) :
  (c_pty c = None \/ c_pty c = getPtyId env -> P tt c) ->
  (forall q, c_pty c = Some q -> getPtyId env <> Some q -> P tt (c_clear c)) -> wp (resetIfPtyChanged env) c P.
Proof.
  intros H Hc. unfold resetIfPtyChanged. read. destruct (c_pty c) as [q|]; [|wp_step; auto].
  case_bool_decide; [wp_step; auto|]. apply wp_bind, wp_clear. repeat wp_step. by eapply Hc.
Qed.

Lemma wp_abandon p q c (P : unit -> control -> Prop) :
  (getPtyId env = Some p -> c_pty c = Some p -> P tt (c_abandon c)) ->
  (getPtyId env <> Some p \/ c_pty c <> Some p -> wp (resetIfPtyChanged env) c P) -> wp (abandon env p q) c P.
Proof.
  intros Ha Hr. unfold abandon. read. repeat case_bool_decide; cbn; try (apply Hr; tauto).
  destruct (takeForAbandonment (queue s)) as [[chunks hadOverflow] rest].
  do 12 wp_step. apply wp_bind, wp_clearPending. repeat first [wp_step | case_match]; auto.
Qed.
End env.

(** ** The invariant *)

(** At most one run restores in the current generation, and it is the one in flight; a retry
    waits for its run to be over; what is scheduled is for now. *)
Record control_ok (c : control) : Prop := mkControlOk {
  ok_keys : keys_ok (c_runs c);
  ok_flight : forall id, c_flight c = Some id -> is_Some (map_get id (c_runs c));
  ok_current : forall id r, map_get id (c_runs c) = Some r -> rr_stage r <> run_over ->
    restoreGeneration r = c_gen c -> c_flight c = Some id;
  ok_runs : forall id r, map_get id (c_runs c) = Some r ->
    id < c_next c /\ (rr_stage r <> run_over -> restoreGeneration r <= c_gen c);
  ok_deferred : c_deferred c = true -> c_needed c = true /\
    forall id r, c_flight c = Some id -> map_get id (c_runs c) = Some r -> rr_stage r = run_over;
  ok_scheduled : forall g q, c_scheduled c = Some (g, q) -> g = c_gen c /\ c_pty c = Some q /\ c_flight c = None
}.

Lemma ok_needed c : control_ok c -> control_ok (c_set_needed true c).
Proof. intros []; split; cbn; naive_solver. Qed.
Lemma ok_timer v c : control_ok c -> control_ok (c_set_timer v c).
Proof. intros []; split; cbn; auto. Qed.
Lemma ok_unschedule c : control_ok c -> control_ok (c_set_scheduled None c).
Proof. intros []; split; cbn; auto; done. Qed.
Lemma ok_undefer c : control_ok c -> control_ok (c_set_deferred false c).
Proof. intros []; split; cbn; auto; done. Qed.
Lemma ok_clear c : control_ok c -> control_ok (c_clear c).
Proof.
  intros [? ? Hc Hr ? ?]; split; cbn; auto; try done; intros id r Hget; destruct (Hr id r Hget) as [H1 H2].
  - intros Hs Hg. specialize (H2 Hs). lia.
  - split; [done|]. intros Hs. specialize (H2 Hs). lia.
Qed.
Lemma ok_abandon c : control_ok c -> control_ok (c_abandon c).
Proof.
  intros [? ? Hc Hr ? ?]; split; cbn; auto; try done; intros id r Hget; destruct (Hr id r Hget) as [H1 H2].
  - intros Hs Hg. specialize (H2 Hs). lia.
  - split; [done|]. intros Hs. specialize (H2 Hs). lia.
Qed.
Lemma ok_pty v c : c_pty c = None \/ c_pty c = v -> control_ok c -> control_ok (c_set_pty v c).
Proof. intros Hv []; split; cbn; auto. intros g q Hs. edestruct ok_scheduled0 as (? & ? & ?); [done|]. naive_solver congruence. Qed.

(** A run moves on without a new generation. *)
Lemma ok_upd_run id f c :
  (forall r, map_get id (c_runs c) = Some r -> rr_stage (f r) <> run_over ->
    rr_stage r <> run_over /\ restoreGeneration (f r) = restoreGeneration r) ->
  control_ok c -> control_ok (c_set_runs (upd_runs id f (c_runs c)) c).
Proof.
  intros Hf Hok. unfold upd_runs. destruct (map_get id (c_runs c)) as [r|] eqn:Hget; [|by destruct c].
  specialize (Hf r eq_refl). destruct Hok as [Hk Hfl Hc Hr Hd Hs].
  assert (Hall : forall j q, map_get j (map_set id (f r) (c_runs c)) = Some q ->
    exists q', map_get j (c_runs c) = Some q' /\ (rr_stage q <> run_over -> rr_stage q' <> run_over /\ restoreGeneration q = restoreGeneration q')).
  { intros j q. rewrite map_get_set. case_decide; [intros; simplify_eq; exists r; naive_solver | intros; exists q; auto]. }
  split; cbn; auto using keys_ok_set.
  - intros j Hj. rewrite map_get_set. case_decide; eauto.
  - intros j q Hq Hstage Hg. destruct (Hall j q Hq) as (q' & Hq' & Hst). destruct (Hst Hstage). eapply Hc; eauto. congruence.
  - intros j q Hq. destruct (Hall j q Hq) as (q' & Hq' & Hst). destruct (Hr j q' Hq') as [H1 H2]. split; [done|].
    intros Hstage. destruct (Hst Hstage) as [Hst' ->]. auto.
  - intros Hdef. destruct (Hd Hdef) as [Hn Hover]. split; [done|]. intros j q Hj Hq. destruct (Hall j q Hq) as (q' & Hq' & Hst).
    specialize (Hover j q' Hj Hq'). destruct (rr_stage q); [| |done]; by destruct Hst.
Qed.

Definition over (r : RestoreRun) : RestoreRun :=
  mkRun (currentPtyId r) (restoreGeneration r) (restoreIterations r) run_over.

Lemma ok_over id c : control_ok c -> control_ok (c_set_runs (upd_runs id over (c_runs c)) c).
Proof. by apply ok_upd_run. Qed.

#[local] Hint Resolve ok_needed ok_timer ok_unschedule ok_undefer ok_clear ok_abandon ok_over : restore.

Definition c_over (id : Z) (c : control) : control := c_set_runs (upd_runs id over (c_runs c)) c.

Lemma ok_pending_retry c : (forall id r, c_flight c = Some id -> map_get id (c_runs c) = Some r -> rr_stage r = run_over) ->
  control_ok c -> control_ok (c_set_deferred true (c_set_needed true c)).
Proof. intros Hover []; split; cbn; auto. Qed.

(** A run that begins is in flight. *)
Lemma ok_start r pty needed timer c : control_ok c -> c_flight c = None ->
  (rr_stage r <> run_over -> restoreGeneration r <= c_gen c) ->
  control_ok (mkControl needed (Some (c_next c)) false pty (c_gen c) None timer (map_set (c_next c) r (c_runs c)) (c_next c + 1)).
Proof.
  intros [Hk Hfl Hc Hr Hd Hs] Hnone Hle. split; cbn; auto using keys_ok_set; try done.
  - intros id [= <-]. rewrite map_get_set_eq. eauto.
  - intros id q. rewrite map_get_set. case_decide; [by intros; subst|]. intros Hq Hst Hg.
    specialize (Hc id q Hq Hst Hg). congruence.
  - intros id q. rewrite map_get_set. case_decide; [intros; simplify_eq; split; [lia | auto]|].
    intros Hq. destruct (Hr id q Hq). split; [lia | done].
Qed.

(** The run in flight asks for another snapshot. *)
Lemma ok_again id r r' c : map_get id (c_runs c) = Some r -> rr_stage r <> run_over ->
  restoreGeneration r = c_gen c -> restoreGeneration r' = c_gen c -> control_ok c ->
  control_ok (c_set_needed false (c_set_runs (upd_runs id (fun _ => r') (c_runs c)) c)).
Proof.
  intros Hget Hst Hg Hg' Hok. assert (Hdef : c_deferred c = false).
  { destruct (c_deferred c) eqn:E; [|done]. destruct Hok as [_ _ Hc _ Hd _].
    destruct (Hd E) as [_ Hover]. by rewrite (Hover id r (Hc id r Hget Hst Hg) Hget) in Hst. }
  assert (H : control_ok (c_set_runs (upd_runs id (fun _ => r') (c_runs c)) c)).
  { apply ok_upd_run; [|done]. intros q Hq. simplify_eq. split; [done | congruence]. }
  destruct H as [Hk Hfl Hc Hr Hd Hs]. split; cbn in *; auto. congruence.
Qed.

(** It is done, and nothing is left to restore. *)
Lemma ok_complete id r c : map_get id (c_runs c) = Some r -> rr_stage r <> run_over ->
  restoreGeneration r = c_gen c -> control_ok c -> control_ok (c_set_pty None (c_set_needed false c)).
Proof.
  intros Hget Hst Hg [Hk Hfl Hc Hr Hd Hs]. pose proof (Hc id r Hget Hst Hg) as Hflight. split; cbn; auto.
  - intros Hdef. destruct (Hd Hdef) as [_ Hover]. by rewrite (Hover id r Hflight Hget) in Hst.
  - intros g q Hsch. destruct (Hs g q Hsch) as (_ & _ & Hn). congruence.
Qed.

(** A settled run is forgotten. *)
Lemma ok_settle id r c : map_get id (c_runs c) = Some r -> rr_stage r = run_over -> control_ok c ->
  control_ok (c_set_flight (if bool_decide (c_flight c = Some id) then None else c_flight c)
                (c_set_runs (map_delete id (c_runs c)) c)).
Proof.
  intros Hget Hover [Hk Hfl Hc Hr Hd Hs].
  assert (Hsub : forall j q, map_get j (map_delete id (c_runs c)) = Some q -> j <> id /\ map_get j (c_runs c) = Some q).
  { intros j q. rewrite map_get_delete by done. case_decide; [done | auto]. }
  split; cbn; auto using keys_ok_delete.
  - intros j Hj. case_bool_decide; [done|]. rewrite map_get_delete by done. case_decide; [congruence | auto].
  - intros j q Hq Hst Hg. destruct (Hsub j q Hq) as [Hne Hj]. pose proof (Hc j q Hj Hst Hg). case_bool_decide; congruence.
  - intros j q Hq. destruct (Hsub j q Hq). eauto.
  - intros Hdef. destruct (Hd Hdef) as [Hn Ho]. split; [done|]. intros j q Hj Hq. destruct (Hsub j q Hq).
    case_bool_decide; [done | eauto].
  - intros g q Hsch. destruct (Hs g q Hsch) as (? & ? & Hn). by rewrite Hn.
Qed.

(** ** Operations *)

Lemma canUse_some env pty : canUseSnapshot env pty = true -> exists p, pty = Some p /\ getPtyId env = Some p.
Proof.
  unfold canUseSnapshot, given. destruct pty as [p|]; [|done]. case_match; [|done].
  intros [? _]%andb_true_iff. case_bool_decide; [eauto | done].
Qed.

Section ops.
Context (env : RestoreEnv).

Lemma wp_clear_if_current p c (P : unit -> control -> Prop) :
  (c_pty c = Some p -> P tt (c_clear c)) -> (c_pty c <> Some p -> P tt c) -> wp (clear_if_current p) c P.
Proof. intros H1 H2. unfold clear_if_current. read. case_bool_decide; [by apply wp_clear, H1 | wp_step; auto]. Qed.

Lemma wp_end_run id c (P : unit -> control -> Prop) : P tt (c_over id c) -> wp (end_run id) c P.
Proof. apply wp_upd_run. Qed.

Lemma wp_run_iterate id n c (P : unit -> control -> Prop) :
  (isDisposed env = true -> P tt (c_over id c)) ->
  (isDisposed env = false -> canUseSnapshot env (c_pty c) = false -> P tt (c_over id (c_clear c))) ->
  (forall p, isDisposed env = false -> canUseSnapshot env (Some p) = true -> c_pty c = Some p ->
    P tt (c_set_needed false (c_set_runs (upd_runs id (fun _ => mkRun p (c_gen c) n awaiting_snapshot) (c_runs c)) c))) ->
  wp (run_iterate env id n) c P.
Proof.
  intros Hd Hc Hgo. unfold run_iterate. read. destruct (isDisposed env) eqn:Edis; [by apply wp_end_run, Hd|].
  destruct (c_pty c) as [p|] eqn:Ep; [|by apply wp_bind, wp_clear, wp_end_run, Hc].
  destruct (canUseSnapshot env (Some p)) eqn:Euse.
  - destruct (canUse_some _ _ Euse) as (q & [= <-] & Eq). cbn. rewrite bool_decide_true by done. cbn.
    wp_step. wp_step. repeat wp_step. by apply (Hgo p).
  - cbn. apply wp_bind, wp_clear_if_current; [intros _ | congruence]. do 2 wp_step. by apply wp_end_run, Hc.
Qed.

Lemma wp_scheduleDeferredRetry c (P : unit -> control -> Prop) :
  ((isDisposed env = true \/ c_timer c = true \/ isForeground env = false) -> P tt c) -> P tt (c_set_timer true c) ->
  P tt (c_clear c) -> P tt (c_abandon c) -> wp (scheduleDeferredRetry env) c P.
Proof.
  intros H1 H2 H3 H4. unfold scheduleDeferredRetry. read.
  destruct (isDisposed env), (c_timer c), (isForeground env); cbn; try (wp_step; by apply H1; auto).
  destruct (_ >=? _); [|by apply wp_modify with (g := c_set_timer true)].
  unfold onDeferredRetryExhausted.
  destruct (given (c_pty c)) as [p|] eqn:Eg; [|apply wp_bind, wp_clear; by wp_step].
  assert (c_pty c = Some p) as Ep by (destruct (c_pty c) as [[|]|]; naive_solver).
  apply wp_abandon; [done|]. intros Hne. apply wp_reset; [|done]. rewrite Ep. intros [?|?]; [done | naive_solver].
Qed.
(** What [request] starts. *)
Definition first_run (p : jsstring) (c : control) : RestoreRun :=
  if isDisposed env then mkRun [] 0 0 run_over else mkRun p (c_gen c) 0 awaiting_snapshot.

Definition c_start (p : jsstring) (c : control) : control :=
  mkControl (isDisposed env && c_needed c) (Some (c_next c)) false (Some p) (c_gen c) None false
    (map_set (c_next c) (first_run p c) (c_runs c)) (c_next c + 1).

Lemma upd_runs_new id f r m : upd_runs id f (map_set id r m) = map_set id (f r) m.
Proof. unfold upd_runs. by rewrite map_get_set_eq, map_set_twice. Qed.

Lemma wp_start p c (P : unit -> control -> Prop) : canUseSnapshot env (Some p) = true -> c_pty c = Some p ->
  P tt (c_start p c) ->
  wp (clear_schedule ;;; clearDeferredRetry ;;; modify (set_isRetryDeferred false) ;;;
      modify (fun s => set_runs (map_set (nextRun s) (mkRun [] 0 0 run_over) (runs s)) (set_nextRun (nextRun s + 1) s)) ;;;
      run_iterate env (c_next c) 0 ;;; modify (set_inFlight (Some (c_next c))))%eff c P.
Proof.
  intros Huse Hp H. do 6 wp_step. apply wp_bind.
  apply wp_modify with (g := fun c => mkControl (c_needed c) (c_flight c) (c_deferred c) (c_pty c) (c_gen c) (c_scheduled c)
    (c_timer c) (map_set (c_next c) (mkRun [] 0 0 run_over) (c_runs c)) (c_next c + 1)); [done|].
  unfold c_start, first_run in H.
  apply wp_bind, wp_run_iterate; unfold c_over; cbn; rewrite Hp.
  - intros Hd. rewrite upd_runs_new. rewrite Hd in H. wp_step. exact H.
  - congruence.
  - intros q Hd _ [= <-]. rewrite upd_runs_new. rewrite Hd in H. wp_step. exact H.
Qed.

Definition request_pty (c : control) : option jsstring :=
  match c_pty c with Some id => Some id | None => getPtyId env end.

Lemma wp_request b c (P : unit -> control -> Prop) :
  (pipelineAvailable env = false -> P tt c) ->
  (forall c1, pipelineAvailable env = true ->
    c1 = c /\ (c_pty c = None \/ c_pty c = getPtyId env) \/ c1 = c_clear c /\ c_pty c <> None /\ c_pty c <> getPtyId env ->
    (c_needed c1 = false \/ canUseSnapshot env (request_pty c1) = false -> P tt c1) /\
    (forall p, canUseSnapshot env (Some p) = true -> request_pty c1 = Some p ->
      (c_flight c1 <> None -> P tt (c_set_pty (Some p) c1)) /\
      (c_flight c1 = None -> P tt (c_set_scheduled (Some (default (c_gen c1, p) (c_scheduled c1))) (c_set_pty (Some p) c1))) /\
      (c_flight c1 = None -> P tt (c_start p c1)))) ->
  wp (request env b) c P.
Proof.
  intros Hoff Hon. unfold request. destruct (pipelineAvailable env); cbn; [|wp_step; auto].
  apply wp_seq with (P := fun _ c1 => c1 = c /\ (c_pty c = None \/ c_pty c = getPtyId env)
    \/ c1 = c_clear c /\ c_pty c <> None /\ c_pty c <> getPtyId env).
  { apply wp_reset; [by left|]. intros q Hq Hne. right. rewrite Hq. split_and!; congruence. }
  intros _ c1 Hc1. destruct (Hon c1 eq_refl Hc1) as [Hidle Hgo]. read. fold (request_pty c1).
  destruct (canUseSnapshot env (request_pty c1)) eqn:Euse; cbn;
    [|rewrite orb_true_r; wp_step; auto].
  destruct (negb (c_needed c1) && negb (hasPending (queue s))) eqn:Ei; cbn.
  { wp_step. apply Hidle. left. by destruct (c_needed c1). }
  destruct (canUse_some _ _ Euse) as (p & Ep & Eq). rewrite Ep in Euse |- *.
  destruct (Hgo p Euse Ep) as (Harm & Hwait & Hstart). wp_step. wp_step.
  destruct (c_flight c1) as [id|] eqn:Ef; [wp_step; by apply Harm|].
  destruct (negb b && negb (isActive env)).
  - unfold deferInactive. read. cbn. specialize (Hwait eq_refl). cbn in *. destruct (c_scheduled c1) as [g|] eqn:Es.
    + wp_step. unfold c_set_pty, c_set_scheduled in *. cbn in *. by rewrite Es.
    + by apply wp_modify with (g := c_set_scheduled (Some (c_gen c1, p))).
  - change (c_next c1) with (c_next (c_set_pty (Some p) c1)). apply (wp_start p); [done | done|]. by apply Hstart.
Qed.

(** The terminal shows process [p], and its snapshots can be had. *)
Definition shows (p : jsstring) : Prop :=
  isDisposed env = false /\ getPtyId env = Some p /\ canUseSnapshot env (Some p) = true /\
  isForeground env = true /\ pipelineAvailable env = true.

Definition ready (p : jsstring) (c : control) : Prop :=
  (c_pty c = None \/ c_pty c = Some p) /\ (c_deferred c = true -> c_timer c = true \/ c_scheduled c <> None).

(** Something is under way that will restore. *)
Definition busy (c : control) : Prop := c_flight c <> None \/ c_timer c = true \/ c_scheduled c <> None.

Definition moving (p : jsstring) (c : control) : Prop := ready p c /\ (c_needed c = true -> busy c).

Definition kept (c c' : control) : Prop := control_ok c' /\ forall p, shows p -> moving p c -> moving p c'.

Definition Kept (A : Type) (m : R A) : Prop := forall c, control_ok c -> wp m c (fun _ c' => kept c c').

#[local] Instance Kept_compositional : Compositional Kept.
Proof.
  split.
  - intros A a c Hc. by apply wp_ret.
  - intros c Hc. apply (wp_still (A := RestoreState)); [apply (comp_get (Q := Still)) | done].
  - intros A B m k Hm Hk c Hc. eapply wp_seq; [by apply Hm|]. intros a c' [Hc' Hv].
    eapply wp_mono; [by apply Hk|]. intros b c'' [Hc'' Hv']. split; [done|]. intros p Hs H. by apply Hv', Hv.
Qed.

Lemma kept_still {A} (m : R A) : Still A m -> Kept A m.
Proof. intros H c Hc. by apply wp_still. Qed.

Lemma kept_same c : control_ok c -> kept c c.
Proof. by split. Qed.
Lemma kept_clear c : control_ok c -> kept c (c_clear c).
Proof. split; [auto with restore|]. intros p _ _. unfold moving, ready. cbn. naive_solver. Qed.
Lemma kept_abandon c : control_ok c -> kept c (c_abandon c).
Proof. split; [auto with restore|]. intros p _ _. unfold moving, ready. cbn. naive_solver. Qed.
Lemma kept_over id c : control_ok c -> kept c (c_over id c).
Proof. split; [by apply ok_over | done]. Qed.
#[local] Hint Resolve kept_same kept_clear kept_abandon kept_over : restore.

Lemma Kept_clear : Kept unit clear.
Proof. intros c Hc. apply wp_clear. auto with restore. Qed.
Lemma Kept_reset : Kept unit (resetIfPtyChanged env).
Proof. intros c Hc. apply wp_reset; auto with restore. Qed.
Lemma Kept_abandon p q : Kept unit (abandon env p q).
Proof. intros c Hc. apply wp_abandon; auto with restore. intros _. by apply Kept_reset. Qed.
Lemma Kept_end_run id : Kept unit (end_run id).
Proof. intros c Hc. apply wp_end_run. auto with restore. Qed.
Lemma Kept_clear_if_current p : Kept unit (clear_if_current p).
Proof. intros c Hc. apply wp_clear_if_current; auto with restore. Qed.

(** [request] gets a terminal moving that is free for it. *)
Definition free (c : control) : Prop :=
  c_deferred c = true -> (c_timer c = true \/ c_scheduled c <> None) \/ c_flight c = None.

Definition started (c c' : control) : Prop :=
  control_ok c' /\ forall p, shows p -> free c ->
    moving p c' /\ (c_pty c = None \/ c_pty c = Some p -> c_needed c = true -> busy c').

Lemma ready_free p c : ready p c -> free c.
Proof. intros [Hp Hd] H. auto. Qed.
#[local] Hint Resolve ready_free : restore.

Lemma moving_intro p c c' : c_pty c' = Some p -> (c_deferred c' = true -> c_timer c' = true \/ c_scheduled c' <> None) ->
  busy c' -> moving p c' /\ (c_pty c = None \/ c_pty c = Some p -> c_needed c = true -> busy c').
Proof. intros Hp Hd Hb. split; [|done]. split; [|done]. split; [by right | done]. Qed.

Lemma ok_schedule p c : control_ok c -> c_flight c = None -> c_pty c = Some p ->
  control_ok (c_set_scheduled (Some (default (c_gen c, p) (c_scheduled c))) c).
Proof.
  intros [Hk Hfl Hc Hr Hd Hs] Hf Hp. split; cbn; auto. intros g q [= E].
  destruct (c_scheduled c) as [[g' q']|] eqn:Esch; cbn in E; simplify_eq; eauto.
Qed.

Lemma request_starts b c : control_ok c -> wp (request env b) c (fun _ c' => started c c').
Proof.
  intros Hc. apply wp_request.
  { intros Hoff. split; [done|]. intros p (_ & _ & _ & _ & Hon) _. congruence. }
  intros c1 Hon Hc1. assert (Hc1' : control_ok c1 /\ forall p, shows p -> free c ->
    (c_pty c1 = None \/ c_pty c1 = Some p) /\ free c1 /\ (c_pty c = None \/ c_pty c = Some p -> c_needed c1 = c_needed c)).
  { destruct Hc1 as [[-> Hp1]|(-> & Hne & Hne')].
    - split; [done|]. intros p (_ & Hp & _) Hf. rewrite <- Hp. split_and!; auto.
    - split; [auto with restore|]. intros p (_ & Hp & _) _. split_and!; [by left | done |]. intros [?|?]; congruence. }
  destruct Hc1' as [Hok Hsame]. assert (Hpty : forall p, request_pty c1 = Some p -> c_pty c1 = None \/ c_pty c1 = Some p).
  { unfold request_pty. intros p. destruct (c_pty c1); naive_solver. }
  split.
  { intros Hidle. split; [done|]. intros p Hp Hr. destruct (Hsame p Hp Hr) as (Hp1 & _ & Hn1).
    assert (Hn : c_needed c1 = false).
    { destruct Hidle as [|Hidle]; [done|]. destruct Hp as (_ & Hp & Huse & _).
      assert (request_pty c1 = Some p) by (unfold request_pty; destruct Hp1 as [-> | ->]; done). congruence. }
    split; [|intros Hpc Hnc; rewrite <- (Hn1 Hpc) in Hnc; congruence].
    split; [|congruence]. split; [done|]. intros Hd. destruct (ok_deferred c1 Hok Hd). congruence. }
  intros q Huse Hq. specialize (Hpty q Hq). destruct (canUse_some _ _ Huse) as (q' & [= <-] & Eq).
  assert (Hok' : control_ok (c_set_pty (Some q) c1)) by (by apply ok_pty).
  assert (Hpq : forall p, shows p -> q = p) by (intros p (_ & Hp & _); congruence).
  split_and!.
  - intros Hf. split; [done|]. intros p Hp Hr. destruct (Hsame p Hp Hr) as (_ & Hfree & _). rewrite (Hpq p Hp).
    apply moving_intro; [done | intros Hd; by destruct (Hfree Hd) | by left].
  - intros Hf. split; [by apply (ok_schedule q (c_set_pty (Some q) c1))|]. intros p Hp Hr. rewrite (Hpq p Hp).
    apply moving_intro; [done | by right | right; by right].
  - intros Hf. split.
    + apply (ok_start (first_run q c1) (Some q) _ _ c1); [done | done|]. unfold first_run.
      destruct (isDisposed env); cbn; [done | lia].
    + intros p Hp Hr. rewrite (Hpq p Hp). apply moving_intro; [done | done | by left].
Qed.

Lemma Kept_request b : Kept unit (request env b).
Proof.
  intros c Hc. eapply wp_mono; [by apply request_starts|]. intros _ c' [Hok Hgo]. split; [done|].
  intros p Hp [Hr _]. apply Hgo; eauto with restore.
Qed.

(** The beginning of [markNeeded] and of [queueLiveChunk]. *)
Definition armed (c c' : control) : Prop :=
  control_ok c' /\ c_needed c' = true /\ forall p, shows p -> ready p c -> ready p c'.

Lemma wp_claim {B} (k : R B) c (P : B -> control -> Prop) : control_ok c ->
  (forall c', armed c c' -> wp k c' P) ->
  wp ((match c_pty c with
       | Some id => if bool_decide (getPtyId env = Some id) then skip else clear
       | None => skip
       end) ;;; modify (set_restorePtyId (getPtyId env)) ;;; modify (set_isNeeded true) ;;; k)%eff c P.
Proof.
  intros Hc Hk. apply wp_seq with (P := fun _ c1 => control_ok c1 /\ (c_pty c1 = None \/ c_pty c1 = getPtyId env)
    /\ (c_deferred c1 = true -> c1 = c)).
  { destruct (c_pty c) as [id|] eqn:Ep; [|wp_step; auto]. case_bool_decide; [wp_step; split_and!; auto; right; congruence|].
    apply wp_clear. split_and!; [auto with restore | by left | done]. }
  intros _ c1 (Hc1 & Hp1 & Hd1). do 4 wp_step. apply Hk. split_and!; [by apply ok_needed, ok_pty | done|].
  intros p (_ & Hp & _) [_ Hd]. split; cbn; [right; done|]. intros Hdef. specialize (Hd1 Hdef). subst. auto.
Qed.

(** [markNeeded] gets it to restore. *)
Definition engaged (c c' : control) : Prop :=
  control_ok c' /\ forall p, shows p -> ready p c -> ready p c' /\ busy c'.

Lemma armed_request b c c' : armed c c' -> wp (request env b) c' (fun _ c2 => engaged c c2).
Proof.
  intros (Hc' & Hn & Hr). eapply wp_mono; [by apply request_starts|]. intros _ c2 [Hok Hgo]. split; [done|].
  intros p Hp Hrc. pose proof (Hr p Hp Hrc) as Hr'.
  destruct (Hgo p Hp) as [[Hr2 _] Hb]; [by eapply ready_free|]. split; [done|]. apply Hb; [apply Hr' | done].
Qed.

Lemma markNeeded_engages c : control_ok c -> wp (markNeeded env) c (fun _ c' => engaged c c').
Proof.
  intros Hc. unfold markNeeded. do 2 wp_step. destruct (canUseSnapshot env (getPtyId env)) eqn:Euse; cbn.
  2: { wp_step. split; [done|]. intros p (_ & Hp & Huse & _) _. congruence. }
  read. apply wp_claim; [done|]. intros c' Ha. destruct (isForeground env) eqn:Ef; [by apply armed_request|].
  wp_step. destruct Ha as (Hc' & _). split; [done|]. intros p (_ & _ & _ & Hf & _) _. congruence.
Qed.

Lemma engaged_kept c c' : engaged c c' -> kept c c'.
Proof. intros [Hc' H]. split; [done|]. intros p Hp [Hr _]. destruct (H p Hp Hr). by split. Qed.

Lemma Kept_markNeeded : Kept unit (markNeeded env).
Proof. intros c Hc. eapply wp_mono; [by apply markNeeded_engages|]. intros a c'. apply engaged_kept. Qed.

#[local] Hint Extern 5 (Kept _ _) => apply kept_still; solve [eauto with restore | go] : restore.
#[local] Hint Resolve Kept_clear Kept_reset Kept_abandon Kept_end_run Kept_clear_if_current Kept_request Kept_markNeeded : restore.

(** *** Delivery *)

(** What is queued and then asked for. *)
Lemma armed_weaken c c' c'' : armed c c' -> armed c' c'' -> armed c c''.
Proof. intros (? & ? & H1) (? & ? & H2). split_and!; [done | done | auto]. Qed.

Lemma queueLiveChunk_arms data meta c : control_ok c ->
  wp (queueLiveChunk env data meta) c (fun _ c' => armed c c' \/ c' = c).
Proof.
  intros Hc. unfold queueLiveChunk. case_match; [wp_step; by right|]. read. apply wp_claim; [done|].
  intros c' Ha. read. case_match. repeat wp_step. by left.
Qed.

Lemma Kept_queue_request data meta b : Kept unit (queueLiveChunk env data meta ;;; request env b)%eff.
Proof.
  intros c Hc. eapply wp_seq; [by apply queueLiveChunk_arms|]. intros [] c' [Ha | ->]; [|by apply Kept_request].
  eapply wp_mono; [by apply armed_request|]. intros a c''. apply engaged_kept.
Qed.

Lemma Kept_queue_twice d1 m1 d2 m2 b :
  Kept unit (queueLiveChunk env d1 m1 ;;; queueLiveChunk env d2 m2 ;;; request env b)%eff.
Proof.
  intros c Hc. eapply wp_seq; [by apply queueLiveChunk_arms|]. intros [] c' [Ha | ->]; [|by apply Kept_queue_request].
  eapply wp_seq; [apply queueLiveChunk_arms; by destruct Ha|]. intros [] c'' Ha'.
  assert (Ha'' : armed c c'') by (destruct Ha' as [Ha' | ->]; [by eapply armed_weaken | done]).
  eapply wp_mono; [by apply armed_request|]. intros a c3. apply engaged_kept.
Qed.

(** A fresh snapshot asked for while a run is in flight. *)
Lemma markFresh_kept c c' : control_ok c' -> (forall p, shows p -> moving p c -> ready p c' /\ busy c') ->
  wp markFreshSnapshotNeeded c' (fun _ c'' => kept c c'').
Proof.
  intros Hc Hb. unfold markFreshSnapshotNeeded. repeat wp_step. split; [by apply ok_needed|].
  intros p Hp Hm. destruct (Hb p Hp Hm) as [Hr ?]. by split.
Qed.

Lemma Kept_skipRendererOutput data : Kept unit (skipRendererOutput env data).
Proof. unfold skipRendererOutput. repeat first [solve [eauto with restore] | compose_step]. Qed.

Lemma Kept_skipBackground data : Kept unit (skipBackgroundAlternateScreenOutput data).
Proof. unfold skipBackgroundAlternateScreenOutput. repeat first [solve [eauto with restore] | compose_step]. Qed.

Lemma Kept_writes foreground data meta stateful :
  Kept unit ((if bool_decide (stateful = []) then skip else emit (x_write stateful true true)) ;;;
             emit (x_write data foreground false) ;;;
             if foreground
             then modify (fun s => set_orderedOutput (recordRendered (getPtyId env) (meta_seq meta) (orderedOutput s)) s)
             else skip)%eff.
Proof. repeat first [solve [eauto with restore] | compose_step]. Qed.

Lemma Kept_deliver_rendered alternate hidden foreground data meta pending :
  Kept unit (deliver_rendered env alternate hidden foreground data meta pending).
Proof.
  unfold deliver_rendered. apply (comp_bind (Q := Kept)); [repeat first [solve [eauto with restore] | compose_step]|].
  intros _ c Hc. read. apply wp_seq with (P := fun _ c' => kept c c'); [|intros [] c' Hk; by wp_step].
  destruct (_ && negb (containsStatefulRendererQuery data)); [by apply Kept_skipBackground|].
  destruct (shouldSkipRendererOutput _ _ _ _ _); [by apply Kept_skipRendererOutput|].
  destruct (_ && match c_pty c with _ => _ end).
  - destruct foreground.
    + case_bool_decide; [|by apply Kept_queue_twice].
      do 2 wp_step. by apply Kept_queue_request.
    + case_bool_decide; cbn; [by wp_step; apply kept_same|]. do 2 wp_step. apply markFresh_kept; [done|].
      intros p _ [Hr _]. split; [done | by left].
  - by apply Kept_writes.
Qed.

Lemma Kept_deliver_live alternate hidden foreground data meta :
  Kept unit (deliver_live env alternate hidden foreground data meta).
Proof.
  pose proof Kept_deliver_rendered. unfold deliver_live. repeat first [solve [eauto with restore] | compose_step].
Qed.

Lemma Kept_deliver_reconciled alternate hidden data meta : Kept unit (deliver_reconciled env alternate hidden data meta).
Proof.
  pose proof Kept_deliver_live. unfold deliver_reconciled. intros c Hc. read.
  apply wp_seq with (P := fun _ c' => c' = c); [case_match; by wp_step|]. intros [] c' ->.
  destruct (reconcileLive _ _ _ _) as [rec o]. do 2 wp_step. destruct rec as [data' meta'| |].
  - by apply Kept_deliver_live.
  - by wp_step; apply kept_same.
  - destruct (_ && isForegroundBackpressure env s).
    { do 4 wp_step. by apply Kept_deliver_live. }
    eapply wp_seq; [by apply markNeeded_engages|]. intros [] c' He. case_match; [|wp_step; by apply engaged_kept].
    apply markFresh_kept; [by destruct He|]. intros p Hp [Hr _]. by apply He.
Qed.

Lemma Kept_deliver filter alternate hidden data meta : Kept unit (deliverPtyOutput env filter alternate hidden data meta).
Proof.
  pose proof Kept_deliver_reconciled. unfold deliverPtyOutput. repeat first [solve [eauto with restore] | compose_step].
Qed.

(** *** Runs *)

Lemma kept_next_stage id r f c : control_ok c -> map_get id (c_runs c) = Some r -> rr_stage r <> run_over ->
  restoreGeneration (f r) = restoreGeneration r -> kept c (c_set_runs (upd_runs id f (c_runs c)) c).
Proof.
  intros Hc Hget Hst Hg. split; [|done]. apply ok_upd_run; [|done]. intros q Hq. by simplify_eq.
Qed.

(** The retry of a run that had no snapshot. *)
Lemma deferRetry_kept id c : control_ok c -> c_flight c = Some id ->
  wp (modify (set_isNeeded true) ;;; deferRetry env ;;; end_run id)%eff c (fun _ c' => kept c c').
Proof.
  intros Hc Hf. unfold deferRetry.
  assert (Hover : control_ok (c_over id (c_set_deferred true (c_set_needed true c)))).
  { apply (ok_pending_retry (c_over id c)); [|by apply ok_over]. cbn. intros j r Hj. rewrite Hf in Hj. simplify_eq.
    unfold upd_runs. destruct (map_get j (c_runs c)) eqn:Ej; [rewrite map_get_set_eq; by intros [= <-] | congruence]. }
  repeat wp_step. apply wp_scheduleDeferredRetry; [intros Hno| | |]; apply wp_end_run.
  - split; [done|]. intros p (Hd & _ & _ & Hfg & _) [[Hp _] _]. cbn in Hno.
    destruct Hno as [?|[Ht|?]]; [congruence | | congruence]. split; [split; [done|]; by left|]. intros _. right; by left.
  - split; [by apply (ok_timer true _ Hover)|]. intros p _ [[Hp _] _]. split; [split; [done | by left]|]. intros _. right; by left.
  - split; [apply (ok_clear _ Hover)|]. intros p _ _. split; [split; [by left | done] | done].
  - split; [apply (ok_abandon _ Hover)|]. intros p _ _. split; [split; [by left | done] | done].
Qed.

Lemma Kept_stop (b : bool) p id : Kept unit ((if b then clear_if_current p else skip) ;;; end_run id)%eff.
Proof. repeat first [solve [eauto with restore] | compose_step]. Qed.

Lemma Kept_run_snapshot id snapshot : Kept unit (run_snapshot env id snapshot).
Proof.
  intros c Hc. unfold run_snapshot. read. destruct (map_get id (c_runs c)) as [r|] eqn:Hget; [|wp_step; by apply kept_same].
  destruct (rr_stage r) eqn:Hst; try (wp_step; by apply kept_same).
  destruct (isDisposed env); [by apply Kept_end_run|].
  destruct (c_gen c =? restoreGeneration r) eqn:Hg; [|by apply Kept_stop].
  destruct (negb _ || negb _); cbn beta iota zeta delta [negb orb]; [by apply (Kept_stop true)|].
  destruct snapshot as [snapshot|].
  - do 5 wp_step. apply kept_next_stage with (r := r); [done | done | by rewrite Hst | done].
  - apply deferRetry_kept; [done|]. eapply (ok_current c); [done | done | by rewrite Hst | lia].
Qed.

Lemma Kept_complete id r c : map_get id (c_runs c) = Some r -> rr_stage r <> run_over ->
  restoreGeneration r = c_gen c -> control_ok c -> wp (complete ;;; end_run id)%eff c (fun _ c' => kept c c').
Proof.
  intros Hget Hst Hg Hc. unfold complete. repeat wp_step. apply wp_end_run.
  split; [by apply (ok_over id), (ok_complete id r)|]. intros p _ [[_ Hd] _]. split; [split; [by left | done] | done].
Qed.

Lemma again_kept id r n c : map_get id (c_runs c) = Some r -> rr_stage r <> run_over ->
  restoreGeneration r = c_gen c -> control_ok c ->
  wp (modify (set_isNeeded true) ;;; run_iterate env id n)%eff c (fun _ c' => kept c c').
Proof.
  intros Hget Hst Hg Hc. do 2 wp_step. pose proof (ok_current c Hc id r Hget Hst Hg) as Hf.
  assert (Hc' : control_ok (c_set_needed true c)) by (by apply ok_needed). apply wp_run_iterate.
  - intros Hd. split; [by apply ok_over|]. intros p (? & _) _. congruence.
  - intros _ _. split; [by apply ok_over, ok_clear|]. intros p _ _. split; [split; [by left | done] | done].
  - intros p _ _ Hp. split; [by apply (ok_again id r)|]. intros q _ [[Hq Hd] _]. split; [by split | done].
Qed.

Lemma Kept_run_replayed id failed : Kept unit (run_replayed env id failed).
Proof.
  intros c Hc. unfold run_replayed. read. destruct (map_get id (c_runs c)) as [r|] eqn:Hget; [|wp_step; by apply kept_same].
  destruct (rr_stage r) as [|restore snapshot|] eqn:Hst; try (wp_step; by apply kept_same).
  do 2 wp_step. match goal with |- wp (if ?b then _ else _) _ _ => destruct b eqn:Hb end; [by apply Kept_end_run|].
  assert (Hg : restoreGeneration r = c_gen c) by lia. assert (Hst' : rr_stage r <> run_over) by (by rewrite Hst).
  assert (Hag : forall p, Kept unit (noteFloodBackpressure env ;;; abandon env p true ;;; end_run id)%eff)
    by (intros p; repeat first [solve [eauto with restore] | compose_step]).
  do 6 wp_step. rename a into outcome. destruct (isForeground env) eqn:Hfg.
  - assert (Hmore : wp (match outcome with
      | overflow => noteFloodBackpressure env ;;; abandon env (currentPtyId r) true ;;; end_run id
      | _ => if restoreIterations r >=? MAX_LOOP_ITERATIONS
             then emit (x_warnIterationCap (currentPtyId r) outcome) ;;; noteFloodBackpressure env ;;;
                  abandon env (currentPtyId r) true ;;; end_run id
             else modify (set_isNeeded true) ;;; run_iterate env id (restoreIterations r)
      end)%eff c (fun _ c' => kept c c')).
    { destruct outcome; [| by apply Hag |]; (destruct (_ >=? _); [do 2 wp_step; by apply Hag | by apply again_kept with (r := r)]). }
    destruct outcome, (needsFreshSnapshot s); cbn [negb]; try exact Hmore. by apply Kept_complete with (r := r).
  - assert (Hstop : wp (modify (set_isNeeded true) ;;; end_run id)%eff c (fun _ c' => kept c c')).
    { do 2 wp_step. apply wp_end_run. split; [by apply ok_over, ok_needed|]. intros p (_ & _ & _ & ? & _). congruence. }
    destruct outcome, (needsFreshSnapshot s); cbn [negb]; try exact Hstop. by apply Kept_complete with (r := r).
Qed.

(** *** Settling and timers *)

Lemma Kept_run_settled id : Kept unit (run_settled env id).
Proof.
  intros c Hc. unfold run_settled. read. destruct (map_get id (c_runs c)) as [[p g n st]|] eqn:Hget; [|wp_step; by apply kept_same].
  destruct st; try (wp_step; by apply kept_same). wp_step. apply wp_modify with (g := fun c => c_set_runs (map_delete id (c_runs c)) c); [done|].
  set (c1 := c_set_flight (if bool_decide (c_flight c = Some id) then None else c_flight c) (c_set_runs (map_delete id (c_runs c)) c)).
  assert (Hc1 : control_ok c1) by (by eapply ok_settle).
  apply wp_seq with (P := fun _ c' => c' = c1).
  { case_bool_decide; wp_step; [reflexivity|]. by destruct c. }
  intros [] c' ->. apply wp_seq with (P := fun _ c' => c' = c1 \/ c' = c_set_needed true c1).
  { case_match; repeat wp_step; auto. }
  intros [] c2 Hc2. assert (Hok : control_ok c2) by (destruct Hc2 as [-> | ->]; auto with restore).
  assert (Hr : forall p, moving p c -> ready p c2) by (intros q [Hr _]; destruct Hc2 as [-> | ->]; exact Hr).
  read. destruct (_ && isForeground env) eqn:Hgo.
  - eapply wp_mono; [by apply request_starts|]. intros _ c3 [Hc3 Hs]. split; [done|].
    intros q Hq Hm. apply Hs; eauto with restore.
  - wp_step. split; [done|]. intros q Hq Hm. split; [by apply Hr|]. intros Hn. right. apply (Hr q Hm).
    destruct Hq as (_ & _ & _ & Hfg & _). destruct (c_deferred c2); [done|]. by rewrite Hn, Hfg in Hgo.
Qed.

Lemma Kept_foreground_deadline : Kept unit (foreground_deadline env).
Proof. unfold foreground_deadline. repeat first [solve [eauto with restore] | compose_step]. Qed.

Lemma Kept_flood_quiet : Kept unit (flood_quiet env).
Proof. unfold flood_quiet. repeat first [solve [eauto with restore] | compose_step]. Qed.

(** The timer fires: the retry it waited for is asked for again. *)
Lemma Kept_deferred_retry : Kept unit (deferred_retry env).
Proof.
  intros c Hc. unfold deferred_retry. read. destruct (c_timer c); cbn [negb]; [|wp_step; by apply kept_same].
  do 2 wp_step. destruct (isDisposed env || negb (c_needed c)) eqn:Hoff.
  - wp_step. split; [by apply ok_timer|]. intros p (Hd & _) [[Hp _] _]. rewrite Hd in Hoff. cbn in Hoff.
    destruct (c_needed c) eqn:Hn; [done|]. split; [split; [done|] |]; cbn; [|congruence].
    intros Hdef. destruct (ok_deferred c Hc Hdef). congruence.
  - do 2 wp_step. eapply wp_mono; [apply request_starts; auto with restore|]. intros _ c' [Hc' Hs]. split; [done|].
    intros p Hp _. by apply Hs.
Qed.

Lemma Kept_run_scheduled : Kept unit (run_scheduled env).
Proof.
  intros c Hc. unfold run_scheduled. read. destruct (c_scheduled c) as [[g q]|] eqn:Hs; [|wp_step; by apply kept_same].
  destruct (ok_scheduled c Hc g q Hs) as (-> & Hp & Hf). do 2 wp_step.
  match goal with |- wp (if ?b then _ else _) _ _ => destruct b eqn:Hgo end.
  - eapply wp_mono; [apply request_starts; auto with restore|]. intros _ c' [Hc' Hst]. split; [done|].
    intros p Hsh _. apply Hst; [done|]. intros _. by right.
  - wp_step. split; [auto with restore|]. intros p (Hd & Hpty & Huse & Hfg & _) [[Hpq Hdt] _].
    assert (Hn : c_needed c = false); [|split; [split; [done|]; cbn; intros Hdef; destruct (ok_deferred c Hc Hdef) | cbn]; congruence].
    destruct (c_needed c) eqn:Hn; [|done]. destruct Hpq as [|Hpq]; [congruence|]. assert (q = p) as -> by congruence.
    rewrite Hd, Hp, Hpty, Huse, Hfg, Z.eqb_refl, !bool_decide_true in Hgo by done. done.
Qed.

Lemma Kept_step e : e <> ev_dispose -> Kept unit (restore_step env e).
Proof.
  pose proof Kept_deliver. pose proof Kept_run_snapshot. pose proof Kept_run_replayed. pose proof Kept_run_settled.
  pose proof Kept_foreground_deadline. pose proof Kept_flood_quiet. pose proof Kept_deferred_retry. pose proof Kept_run_scheduled.
  intros He. destruct e; cbn [restore_step]; try done; repeat first [solve [eauto with restore] | compose_step].
Qed.
End ops.

(** ** Histories *)

Lemma step_ok env e c : control_ok c -> wp (restore_step env e) c (fun _ c' => control_ok c').
Proof.
  intros Hc. assert (e = ev_dispose \/ e <> ev_dispose) as [-> | He] by (destruct e; naive_solver).
  - cbn. unfold dispose. do 2 wp_step. repeat wp_step. by apply ok_timer.
  - eapply wp_mono; [by apply Kept_step|]. by intros _ c' [Hc' _].
Qed.

Lemma run_ok events s : control_ok (ctl s) -> control_ok (ctl (fst (restore_run events s))).
Proof.
  revert s. induction events as [|[env e] events IH]; intros s Hs; [done|]. cbn.
  destruct (wp_at _ _ _ (step_ok env e _ Hs)) as (_ & H). specialize (IH _ H).
  by destruct (restore_run events _).
Qed.

Lemma new_ok : control_ok (ctl new_restore).
Proof. split; cbn; try done. constructor. Qed.

Lemma control_reachable events : control_ok (ctl (fst (restore_run events new_restore))).
Proof. apply run_ok, new_ok. Qed.

Lemma restore_run_app before after s :
  fst (restore_run (before ++ after) s) = fst (restore_run after (fst (restore_run before s))).
Proof.
  revert s. induction before as [|[env e] before IH]; intros s; [done|]. cbn. specialize (IH (run_state (restore_step env e s))).
  destruct (restore_run before _) as [s1 o1], (restore_run (before ++ after) _) as [s2 o2]. exact IH.
Qed.

Lemma run_moving p events s : control_ok (ctl s) -> moving p (ctl s) ->
  Forall (fun '(env, e) => shows env p /\ e <> ev_dispose) events ->
  moving p (ctl (fst (restore_run events s))).
Proof.
  intros Hok Hm Hall. revert s Hok Hm. induction Hall as [|[env e] events [Hsh He] Hall IH]; intros s Hok Hm; [done|]. cbn.
  destruct (wp_at _ _ _ (Kept_step env e He _ Hok)) as (_ & Hok' & Hmv). specialize (IH _ Hok' (Hmv p Hsh Hm)).
  by destruct (restore_run events _).
Qed.

(** A pane that becomes visible asks when no run waits for its end. *)
Lemma visible_moving env p c : control_ok c -> shows env p ->
  (forall id r, map_get id (c_runs c) = Some r -> rr_stage r <> run_over) ->
  wp (request env false) c (fun _ c' => control_ok c' /\ moving p c').
Proof.
  intros Hc Hsh Hsettled. eapply wp_mono; [by apply request_starts|]. intros a c' [Hc' Hgo]. split; [done|].
  apply Hgo; [done|]. intros Hdef. right. destruct (ok_deferred c Hc Hdef) as [_ Hover].
  destruct (c_flight c) as [id|] eqn:Hf; [|done]. destruct (ok_flight c Hc id Hf) as [r Hr].
  destruct (Hsettled id r Hr). eauto.
Qed.


Lemma busy_works s : control_ok (ctl s) -> busy (ctl s) ->
  (exists id r, inFlight s = Some id /\ map_get id (runs s) = Some r) \/ deferredRetryTimer (timing s) = true \/
  (exists q, scheduled s = Some (generation s, q) /\ restorePtyId s = Some q).
Proof.
  intros Hok [Hf|[Ht|Hs]]; [left|by right; left|right; right].
  - destruct (inFlight s) as [id|] eqn:Ef; [|by cbn in Hf]. destruct (ok_flight _ Hok id Ef) as [r Hr]. eauto.
  - destruct (scheduled s) as [[g q]|] eqn:Es; [|by cbn in Hs]. destruct (ok_scheduled _ Hok g q Es) as (-> & Hq & _). eauto.
Qed.

(** C8. The restoration never stalls while the terminal is visible: after any history, once
    the pane of a process that can give snapshots asks (with no run past its end still to
    settle), then whatever happens while the pane shows that process, output that is still to
    be restored has a run in flight, a retry on its timer, or a request scheduled for the
    current generation. *)
Theorem restore_never_stalls before env p after :
  let s0 := fst (restore_run before new_restore) in
  let s := fst (restore_run (before ++ (env, ev_request) :: after) new_restore) in
  (forall id r, map_get id (runs s0) = Some r -> rr_stage r <> run_over) ->
  shows env p -> Forall (fun '(env, e) => shows env p /\ e <> ev_dispose) after ->
  isNeeded s = true ->
  (exists id r, inFlight s = Some id /\ map_get id (runs s) = Some r) \/ deferredRetryTimer (timing s) = true \/
  (exists q, scheduled s = Some (generation s, q) /\ restorePtyId s = Some q).
Proof.
  intros s0 s Hsettled Hsh Hall Hn. pose proof (control_reachable before) as Hok0.
  destruct (wp_at _ _ _ (visible_moving env p _ Hok0 Hsh Hsettled)) as (_ & Hok1 & Hm1).
  assert (Hs : s = fst (restore_run after (run_state (request env false s0)))).
  { unfold s. rewrite restore_run_app. cbn. by destruct (restore_run after _). }
  apply busy_works; [apply control_reachable|]. rewrite Hs in Hn |- *. by apply (run_moving p).
Qed.

(** The pane of the process "1", hidden and then visible. *)
Definition example_env (visible : bool) : RestoreEnv := mkEnv false (Some [49]) true visible visible true false 0.

Definition hidden_history : list (RestoreEnv * restore_event) :=
  [(example_env false, ev_deliver id false true [104; 105] no_meta)].

Lemma restore_never_stalls_witness :
  let s := fst (restore_run (hidden_history ++ (example_env true, ev_request) :: [(example_env true, ev_snapshot 0 None)]) new_restore) in
  isNeeded s = true /\ deferredRetryTimer (timing s) = true /\
  ((exists id r, inFlight s = Some id /\ map_get id (runs s) = Some r) \/ deferredRetryTimer (timing s) = true \/
   (exists q, scheduled s = Some (generation s, q) /\ restorePtyId s = Some q)).
Proof.
  split; [vm_compute; reflexivity|]. split; [vm_compute; reflexivity|].
  apply (restore_never_stalls hidden_history (example_env true) [49] [(example_env true, ev_snapshot 0 None)]).
  - intros id r. vm_compute. discriminate.
  - vm_compute. repeat split.
  - repeat constructor; try discriminate.
  - vm_compute. reflexivity.
Defined.

(** At most one run restores in the current generation: it is the one in flight. *)
Lemma current_run_unique events id1 r1 id2 r2 :
  let s := fst (restore_run events new_restore) in
  map_get id1 (runs s) = Some r1 -> rr_stage r1 <> run_over -> restoreGeneration r1 = generation s ->
  map_get id2 (runs s) = Some r2 -> rr_stage r2 <> run_over -> restoreGeneration r2 = generation s ->
  id1 = id2 /\ inFlight s = Some id1.
Proof.
  intros s H1 Hst1 Hg1 H2 Hst2 Hg2. pose proof (control_reachable events) as Hok.
  pose proof (ok_current _ Hok id1 r1 H1 Hst1 Hg1) as Hf1. pose proof (ok_current _ Hok id2 r2 H2 Hst2 Hg2) as Hf2.
  split; [|exact Hf1]. rewrite Hf1 in Hf2. congruence.
Qed.
