(* ===== verification/OutputRestoreRuns.v ===== *)
(** What the runs of a restoration of hidden output (OutputRestore.v) ask for and draw: at
    most three snapshots each, and only snapshots of the process shown. *)

From stdpp Require Import base list sets.
From Stdlib Require Import ZArith Lia ZifyBool.
From S2P Require Import Prelude JsText JsMap JsRecord Effects OutputSequence ReplyQueries OutputRestore OutputRestoreSpec.

#[local] Set Warnings "-clear-no-such-hyp".

(** ** The rounds of a run *)

Definition is_request (id : Z) (e : restore_effect) : bool :=
  match e with x_serialize id' _ => id' =? id | _ => false end.

Definition requests (id : Z) (out : list restore_effect) : Z := Z.of_nat (length (List.filter (is_request id) out)).

(** What a run has used of its rounds; a run past its end has none left. *)
Definition used (id : Z) (m : jsmap RestoreRun) (next : Z) : Z :=
  match map_get id m with
  | Some r => match rr_stage r with
              | awaiting_snapshot => restoreIterations r + 1
              | awaiting_replay _ _ => restoreIterations r
              | run_over => MAX_LOOP_ITERATIONS
              end
  | None => if id <? next then MAX_LOOP_ITERATIONS else 0
  end.

Definition rounds_ok (m : jsmap RestoreRun) (next : Z) : Prop :=
  keys_ok m /\ forall id r, map_get id m = Some r -> id < next /\ match rr_stage r with
    | awaiting_snapshot => 0 <= restoreIterations r < MAX_LOOP_ITERATIONS
    | awaiting_replay _ _ => 1 <= restoreIterations r <= MAX_LOOP_ITERATIONS
    | run_over => True
    end.

Definition rounds (m : jsmap RestoreRun) (next : Z) (out : list restore_effect) (m' : jsmap RestoreRun) (next' : Z) : Prop :=
  rounds_ok m next -> rounds_ok m' next' /\ forall id, used id m next + requests id out <= used id m' next'.

Lemma rounds_nothing m next : rounds m next [] m next.
Proof. intros Hok. split; [done|]. intros id. change (requests id []) with 0. rewrite Z.add_0_r. apply Z.le_refl. Qed.

Program Definition counted : step_relation RestoreState restore_effect :=
  mkStep (fun s out s' => rounds (runs s) (nextRun s) out (runs s') (nextRun s')) _ _.
Next Obligation. intros s. apply rounds_nothing. Qed.
Next Obligation.
  intros s1 o1 s2 o2 s3 H1 H2 H. destruct (H1 H) as [Hok Hu]. destruct (H2 Hok) as [Hok' Hu']. split; [done|].
  intros id. specialize (Hu id). specialize (Hu' id). unfold requests in *. rewrite List.filter_app, length_app. lia.
Qed.

Definition Counted (A : Type) (m : R A) : Prop := respects counted m.

#[local] Instance Counted_compositional : Compositional Counted := respects_compositional counted.

(** Steps that leave the runs alone and ask for nothing. *)
Program Definition quiet : step_relation RestoreState restore_effect :=
  mkStep (fun s out s' => runs s' = runs s /\ nextRun s' = nextRun s /\ forall id, requests id out = 0) _ _.
Next Obligation. done. Qed.
Next Obligation.
  intros s1 o1 s2 o2 s3 (Hr1 & Hn1 & H1) (Hr2 & Hn2 & H2). split_and!; [congruence | congruence|].
  intros id. specialize (H1 id). specialize (H2 id). unfold requests in *. rewrite List.filter_app, length_app. lia.
Qed.

Definition Quiet (A : Type) (m : R A) : Prop := respects quiet m.

#[local] Instance Quiet_compositional : Compositional Quiet := respects_compositional quiet.

Lemma quiet_counted {A} (m : R A) : Quiet A m -> Counted A m.
Proof.
  intros H s. specialize (H s). destruct (m s) as [[a s'] out]. destruct H as (Hr & Hn & Ho). cbn. rewrite Hr, Hn.
  intros Hok. split; [done|]. intros id. rewrite Ho, Z.add_0_r. apply Z.le_refl.
Qed.

Lemma quiet_modify f : (forall s, runs (f s) = runs s /\ nextRun (f s) = nextRun s) -> Quiet unit (modify f).
Proof. intros H. apply respects_modify. intros s. cbn. by destruct (H s) as [-> ->]. Qed.

Lemma asks_emit e : (forall id, is_request id e = false) -> Quiet unit (emit e).
Proof. intros He. apply respects_emit. intros s. split_and!; [done | done|]. intros id. unfold requests. cbn. by rewrite He. Qed.

(** A run moves on. *)
Lemma rounds_set id r r' m next : map_get id m = Some r ->
  (rounds_ok m next -> used id m next <= used id (map_set id r' m) next /\ match rr_stage r' with
    | awaiting_snapshot => 0 <= restoreIterations r' < MAX_LOOP_ITERATIONS
    | awaiting_replay _ _ => 1 <= restoreIterations r' <= MAX_LOOP_ITERATIONS
    | run_over => True
    end) -> rounds m next [] (map_set id r' m) next.
Proof.
  intros Hget H Hok. destruct (H Hok) as [Hu Hr]. destruct Hok as [Hk Hall]. split.
  - split; [by apply keys_ok_set|]. intros j q. rewrite map_get_set. case_decide; [|apply Hall].
    intros [= <-]. subst j. split; [by eapply Hall | done].
  - intros j. change (requests j []) with 0. destruct (decide (id = j)) as [->|Hne]; [lia|].
    unfold used. rewrite map_get_set_ne by done. rewrite Z.add_0_r. apply Z.le_refl.
Qed.

#[local] Hint Extern 1 (Quiet _ (modify _)) => apply quiet_modify; intros; split; reflexivity : restore.
#[local] Hint Extern 1 (Quiet _ (emit _)) => apply asks_emit; intros; reflexivity : restore.
#[local] Hint Extern 1 (Quiet _ skip) => apply (comp_ret (Q := Quiet)) : restore.

#[local] Hint Extern 2 (Quiet _ _) =>
  progress unfold clear_schedule, clearDeferredRetry, clearForegroundDeadline, resetDeferredRetryAttempts,
    resetFloodSuppression, upd_timing, upd_replay : restore.

(** Takes an operation apart, down to its steps. *)
Ltac parts := repeat first [solve [eauto with restore] | compose_step].

Lemma quiet_clear : Quiet unit clear.
Proof. unfold clear, cancelSnapshotReplay, clearPending, upd_restore, upd_replay. parts. Qed.
#[local] Hint Resolve quiet_clear : restore.

Section rounds.
Context (env : RestoreEnv).

Lemma quiet_reset : Quiet unit (resetIfPtyChanged env).
Proof. unfold resetIfPtyChanged. parts. Qed.
#[local] Hint Resolve quiet_reset : restore.
Lemma quiet_abandon p q : Quiet unit (abandon env p q).
Proof. unfold abandon, retargetGeneration, upd_restore, upd_replay, clearPending. parts. Qed.
#[local] Hint Resolve quiet_abandon : restore.
Lemma quiet_arm : Quiet unit (armForegroundDeadline env).
Proof. unfold armForegroundDeadline. parts. Qed.
Lemma quiet_flood : Quiet unit (noteFloodBackpressure env).
Proof. unfold noteFloodBackpressure. parts. Qed.
Lemma quiet_apply snapshot : Quiet Z (apply env snapshot).
Proof. unfold apply, cancelSnapshotReplay, upd_restore, upd_replay. parts. Qed.
Lemma quiet_deferRetry : Quiet unit (deferRetry env).
Proof. unfold deferRetry, scheduleDeferredRetry, onDeferredRetryExhausted. parts. Qed.
Lemma quiet_replay_task id : Quiet unit (replay_task env id).
Proof. unfold replay_task, upd_restore, upd_replay. parts. Qed.
Lemma quiet_after_replay id : Quiet unit (after_replay env id).
Proof. unfold after_replay. parts. Qed.
Lemma quiet_query step : Quiet unit (query_effects step).
Proof. unfold query_effects. parts. Qed.
Lemma quiet_clear_if_current p : Quiet unit (clear_if_current p).
Proof. unfold clear_if_current. parts. Qed.
Lemma quiet_drain seq : Quiet DrainOutcome (drain_queue env seq).
Proof. unfold drain_queue. parts. Qed.
#[local] Hint Resolve quiet_arm quiet_flood quiet_apply quiet_deferRetry quiet_replay_task quiet_after_replay
  quiet_query quiet_clear_if_current quiet_drain : restore.

#[local] Hint Extern 3 (Counted _ _) => apply quiet_counted : restore.

Lemma counted_end_run id : Counted unit (end_run id).
Proof.
  apply respects_modify. intros s. cbn. destruct (map_get id (runs s)) as [r|] eqn:Hget.
  - apply rounds_set with (r := r); [done|]. intros [_ Hall]. destruct (Hall id r Hget) as [_ Hr]. split; [|done].
    unfold used. rewrite Hget, map_get_set_eq. cbn. destruct (rr_stage r); lia.
  - apply rounds_nothing.
Qed.
#[local] Hint Resolve counted_end_run : restore.

(** A round begins, or the run ends. *)
Definition round_begun (id n : Z) (s : RestoreState) (out : list restore_effect) (s' : RestoreState) : Prop :=
  nextRun s' = nextRun s /\
  ((runs s' = upd_runs id over (runs s) /\ forall j, requests j out = 0) \/
   (exists p g, runs s' = upd_runs id (fun _ => mkRun p g n awaiting_snapshot) (runs s) /\
      forall j, requests j out = if id =? j then 1 else 0)).

Definition Begins (id n : Z) (m : R unit) : Prop :=
  forall s, let '(_, s', out) := m s in round_begun id n s out s'.

Lemma begins_bind {A} id n (m : R A) (k : A -> R unit) : Quiet A m -> (forall a, Begins id n (k a)) -> Begins id n (bind m k).
Proof.
  intros Hm Hk s. unfold bind. specialize (Hm s). destruct (m s) as [[[a|[]] s1] o1]. specialize (Hk a s1).
  destruct (k a s1) as [[r s2] o2]. destruct Hm as (Hr & Hn & Ho), Hk as (Hn' & Hk). split; [congruence|].
  assert (Hcat : forall j, requests j (o1 ++ o2) = requests j o2).
  { intros j. specialize (Ho j). unfold requests in *. rewrite List.filter_app, length_app. lia. }
  rewrite <- Hr. destruct Hk as [[Hk Hj]|(p & g & Hk & Hj)]; [left|right; exists p, g]; (split; [exact Hk|]);
    intros j; rewrite Hcat; apply Hj.
Qed.

Lemma begins_end_run id n : Begins id n (end_run id).
Proof.
  intros s. cbn. split; [by destruct (map_get id (runs s))|]. left. split; [|done]. unfold upd_runs.
  by destruct (map_get id (runs s)).
Qed.

Lemma begins_ask id n p g : Begins id n (upd_run id (fun _ => mkRun p g n awaiting_snapshot) ;;; emit (x_serialize id p))%eff.
Proof.
  intros s. unfold bind, upd_run, modify, emit. split; [by destruct (map_get id (runs s))|]. right. exists p, g. split.
  - unfold upd_runs. by destruct (map_get id (runs s)).
  - intros j. unfold requests. cbn. by destruct (id =? j).
Qed.

Lemma run_iterate_begins id n : Begins id n (run_iterate env id n).
Proof.
  unfold run_iterate. apply begins_bind; [apply (comp_get (Q := Quiet))|]. intros s.
  pose proof (begins_end_run id n). pose proof quiet_clear.
  repeat case_match; repeat first [apply begins_ask | done | apply begins_bind; [by parts | intros _]].
Qed.

Lemma used_over id r m next : map_get id m = Some r -> rounds_ok m next -> used id m next <= MAX_LOOP_ITERATIONS.
Proof.
  intros Hget [_ Hall]. destruct (Hall id r Hget) as [_ H]. unfold used. rewrite Hget. destruct (rr_stage r); lia.
Qed.

(** Another round, when the last replay has ended and some are left. *)
Lemma rounds_again id r m next n p g : map_get id m = Some r ->
  (exists restore snapshot, rr_stage r = awaiting_replay restore snapshot) -> restoreIterations r = n -> n < MAX_LOOP_ITERATIONS ->
  forall out, (forall j, requests j out = if id =? j then 1 else 0) ->
  rounds m next out (upd_runs id (fun _ => mkRun p g n awaiting_snapshot) m) next.
Proof.
  intros Hget (restore & snapshot & Hst) Hn Hlt out Hout Hok. pose proof Hok as [Hk Hall].
  destruct (Hall id r Hget) as [Hid Hr]. rewrite Hst in Hr. unfold upd_runs. rewrite Hget. split.
  - apply (rounds_set id r); [done | | done]. intros _. unfold used. rewrite Hget, map_get_set_eq, Hst. cbn. lia.
  - intros j. rewrite Hout. unfold used. rewrite map_get_set. case_decide as E.
    + subst j. rewrite Z.eqb_refl, Hget, Hst. cbn. lia.
    + rewrite (proj2 (Z.eqb_neq _ _) E), Z.add_0_r. apply Z.le_refl.
Qed.

(** A computation counted from known runs. *)
Definition CountedFrom (m : jsmap RestoreRun) (next : Z) (A : Type) (op : R A) : Prop :=
  forall s, runs s = m -> nextRun s = next ->
    let '(_, s', out) := op s in rounds m next out (runs s') (nextRun s').

Lemma from_counted {A} m next (op : R A) : Counted A op -> CountedFrom m next A op.
Proof. intros H s <- <-. apply (H s). Qed.

Lemma from_quiet {A B} m next (op : R A) (k : A -> R B) :
  Quiet A op -> (forall a, CountedFrom m next B (k a)) -> CountedFrom m next B (bind op k).
Proof.
  intros Hop Hk s Hm Hn. unfold bind. specialize (Hop s). destruct (op s) as [[[a|[]] s1] o1]. destruct Hop as (Hr & Hn1 & Ho).
  specialize (Hk a s1 ltac:(congruence) ltac:(congruence)). destruct (k a s1) as [[r s2] o2].
  intros Hok. destruct (Hk Hok) as [Hok' Hu]. split; [done|]. intros j. specialize (Hu j). specialize (Ho j).
  unfold requests in *. rewrite List.filter_app, length_app. lia.
Qed.

Lemma from_bind {A B} m next (op : R A) (k : A -> R B) :
  CountedFrom m next A op -> (forall a, Counted B (k a)) -> CountedFrom m next B (bind op k).
Proof.
  intros Hop Hk s Hm Hn. unfold bind. specialize (Hop s Hm Hn). destruct (op s) as [[[a|[]] s1] o1].
  specialize (Hk a s1). destruct (k a s1) as [[r s2] o2]. subst m next. by eapply (related_trans counted s _ s1).
Qed.

Lemma counted_get {B} (k : RestoreState -> R B) :
  (forall s, CountedFrom (runs s) (nextRun s) B (k s)) -> Counted B (bind get k).
Proof.
  intros H s. unfold bind, get. specialize (H s s eq_refl eq_refl). by destruct (k s s) as [[r s2] o2].
Qed.

Lemma rounds_end_run id m next : CountedFrom m next unit (end_run id).
Proof. apply from_counted. auto with restore. Qed.

Lemma rounds_out m next out m' next' : (forall j, requests j out = 0) ->
  rounds m next [] m' next' -> rounds m next out m' next'.
Proof.
  intros Ho H Hok. destruct (H Hok) as [Hok' Hu]. split; [done|]. intros j. rewrite Ho. apply (Hu j).
Qed.

Lemma rounds_over id r m next : map_get id m = Some r -> rounds m next [] (map_set id (over r) m) next.
Proof.
  intros Hget. apply rounds_set with (r := r); [done|]. intros Hok. split; [|done]. rewrite (used_over id r) by done.
  unfold used. by rewrite map_get_set_eq.
Qed.

Lemma counted_again id r m next : map_get id m = Some r ->
  (exists restore snapshot, rr_stage r = awaiting_replay restore snapshot) -> restoreIterations r < MAX_LOOP_ITERATIONS ->
  CountedFrom m next unit (run_iterate env id (restoreIterations r)).
Proof.
  intros Hget Hst Hlt s <- <-. pose proof (run_iterate_begins id (restoreIterations r) s) as H.
  destruct (run_iterate env id _ s) as [[res s'] out]. destruct H as (Hn & [[Hr Ho]|(q & g & Hr & Ho)]); rewrite Hn, Hr.
  - unfold upd_runs. rewrite Hget. apply rounds_out; [done|]. by apply rounds_over.
  - by apply (rounds_again id r).
Qed.

(** A new run: its first round. *)
Lemma rounds_new m next r out : restoreIterations r = 0 -> (forall restore snapshot, rr_stage r <> awaiting_replay restore snapshot) ->
  (forall j, requests j out <= if next =? j then 1 else 0) -> rounds m next out (map_set next r m) (next + 1).
Proof.
  intros Hit Hst Hout [Hk Hall]. assert (Hnone : map_get next m = None).
  { destruct (map_get next m) as [q|] eqn:E; [|done]. destruct (Hall next q E). lia. }
  split.
  - split; [by apply keys_ok_set|]. intros j q. rewrite map_get_set. case_decide as E.
    + intros [= <-]. subst j. split; [lia|]. rewrite Hit. destruct (rr_stage r) eqn:Er; unfold MAX_LOOP_ITERATIONS; [lia | by destruct (Hst restore snapshot) | done].
    + intros Hq. destruct (Hall j q Hq). split; [lia | done].
  - intros j. specialize (Hout j). unfold used. rewrite map_get_set. case_decide as E.
    + subst j. rewrite Hnone, Z.ltb_irrefl, Z.eqb_refl, Hit in *. unfold MAX_LOOP_ITERATIONS.
      destruct (rr_stage r) eqn:Er; [lia | by destruct (Hst restore snapshot) | lia].
    + rewrite (proj2 (Z.eqb_neq _ _) E) in Hout. destruct (map_get j m); [lia|].
      assert ((j <? next + 1) = (j <? next)) as -> by lia. lia.
Qed.

Lemma counted_start b : Counted unit (request env b).
Proof.
  unfold request. destruct (negb (pipelineAvailable env)); [parts|].
  apply (comp_bind (Q := Counted)); [parts|]. intros _. apply counted_get. intros s.
  destruct (_ || _); [by apply from_counted; parts|]. apply from_quiet; [parts|]. intros _.
  destruct (inFlight s); [by apply from_counted; parts|].
  destruct (_ && negb (isActive env)); [apply from_counted; unfold deferInactive; by parts|].
  do 3 (apply from_quiet; [parts|]; intros _).
  set (id := nextRun s). set (m := runs s). intros s1 Hm Hn. unfold bind, modify. rewrite Hm, Hn. fold id.
  set (s2 := set_runs _ _). pose proof (run_iterate_begins id 0 s2) as H. destruct (run_iterate env id 0 s2) as [[[u|[]] s3] o3].
  destruct H as (Hn3 & H). cbn [app run_state]. rewrite app_nil_r.
  change (rounds m id o3 (runs s3) (nextRun s3)). rewrite Hn3. change (nextRun s2) with (id + 1).
  destruct H as [[-> Ho]|(p & g & -> & Ho)]; change (runs s2) with (map_set id (mkRun [] 0 0 run_over) m); rewrite upd_runs_new.
  - apply rounds_new; [done | done|]. intros j. rewrite Ho. by destruct (id =? j).
  - apply rounds_new; [done | done|]. intros j. by rewrite Ho.
Qed.
#[local] Hint Resolve counted_start : restore.

Lemma counted_markNeeded : Counted unit (markNeeded env).
Proof. unfold markNeeded. parts. Qed.
#[local] Hint Resolve counted_markNeeded : restore.

Lemma quiet_answers (pending : option ForegroundQuery) :
  Quiet unit (match pending with
    | Some f => for_each emit (when_given (fq_stateless f) (fun q => x_write q true true)
                               ++ when_given (fq_oscColor f) (fun q => x_query (SendColorReplies q)))
    | None => skip
    end).
Proof.
  destruct pending as [f|]; [|parts]. apply (comp_for_each Quiet). intros e He. apply asks_emit. intros id.
  unfold when_given in He. repeat case_match; set_solver.
Qed.

Lemma counted_deliver_rendered alternate hidden foreground data meta pending :
  Counted unit (deliver_rendered env alternate hidden foreground data meta pending).
Proof.
  unfold deliver_rendered, skipRendererOutput, queueLiveChunk, skipBackgroundAlternateScreenOutput, markFreshSnapshotNeeded.
  apply (comp_bind (Q := Counted)); [apply quiet_counted, quiet_answers|]. intros _. parts.
Qed.
#[local] Hint Resolve counted_deliver_rendered : restore.

Lemma counted_deliver filter alternate hidden data meta : Counted unit (deliverPtyOutput env filter alternate hidden data meta).
Proof.
  unfold deliverPtyOutput, deliver_reconciled, deliver_live, markFreshSnapshotNeeded. parts.
Qed.

Lemma counted_run_snapshot id snapshot : Counted unit (run_snapshot env id snapshot).
Proof.
  unfold run_snapshot. apply counted_get. intros s. destruct (map_get id (runs s)) as [r|] eqn:Hget; [|by apply from_counted; parts].
  destruct (rr_stage r) eqn:Hst; try (by apply from_counted; parts).
  destruct (isDisposed env); [by apply from_counted; parts|]. case_match; [by apply from_counted; parts|].
  destruct snapshot as [snapshot|]; [|by apply from_counted; parts].
  apply from_quiet; [parts|]. intros _. apply from_quiet; [parts|]. intros restore s1 Hm Hn. cbn. rewrite Hm, Hget. cbn.
  rewrite Hn. apply rounds_set with (r := r); [done|]. intros [_ Hall]. destruct (Hall id r Hget) as [_ Hr]. rewrite Hst in Hr.
  unfold used. rewrite Hget, map_get_set_eq, Hst. cbn. lia.
Qed.

Lemma counted_run_replayed id failed : Counted unit (run_replayed env id failed).
Proof.
  unfold run_replayed. apply counted_get. intros s. destruct (map_get id (runs s)) as [r|] eqn:Hget; [|by apply from_counted; parts].
  destruct (rr_stage r) as [|restore snapshot|] eqn:Hst; try (by apply from_counted; parts).
  apply from_quiet; [parts|]. intros _. case_match; [by apply from_counted; parts|].
  do 2 (apply from_quiet; [parts|]; intros _). apply from_quiet; [parts|]. intros outcome.
  assert (Hdone : Counted unit (complete ;;; end_run id)%eff) by (unfold complete; parts).
  assert (Hag : forall out, Counted unit (emit (x_warnIterationCap (currentPtyId r) out) ;;; noteFloodBackpressure env ;;;
    abandon env (currentPtyId r) true ;;; end_run id)%eff) by (intros out; parts).
  assert (Hmore : forall out : DrainOutcome, CountedFrom (runs s) (nextRun s) unit
    (if restoreIterations r >=? MAX_LOOP_ITERATIONS
     then emit (x_warnIterationCap (currentPtyId r) out) ;;; noteFloodBackpressure env ;;;
          abandon env (currentPtyId r) true ;;; end_run id
     else modify (set_isNeeded true) ;;; run_iterate env id (restoreIterations r))%eff).
  { intros out. destruct (_ >=? _) eqn:Hcap; [by apply from_counted|]. apply from_quiet; [parts|]. intros _.
    apply counted_again; [done | eauto | lia]. }
  destruct outcome, (needsFreshSnapshot s); first [by apply from_counted | destruct (negb (isForeground env))];
    first [by apply Hmore | by apply from_counted; parts].
Qed.

Lemma counted_run_settled id : Counted unit (run_settled env id).
Proof.
  unfold run_settled. apply counted_get. intros s. destruct (map_get id (runs s)) as [[p g n st]|] eqn:Hget;
    [|by apply from_counted; parts].
  destruct st; try (by apply from_counted; parts). apply from_bind; [|intros _; parts].
  intros s1 Hm Hn. cbn. rewrite Hm, Hn. intros [Hk Hall]. split.
  - split; [by apply keys_ok_delete|]. intros j q. rewrite map_get_delete by done. case_decide; [done | apply Hall].
  - intros j. change (requests j []) with 0. unfold used. rewrite map_get_delete by done. case_decide; [|lia].
    subst j. rewrite Hget. destruct (Hall id _ Hget) as [Hid _]. cbn. rewrite (proj2 (Z.ltb_lt _ _) Hid). lia.
Qed.

Lemma counted_step e : Counted unit (restore_step env e).
Proof.
  pose proof counted_deliver. pose proof counted_run_snapshot. pose proof counted_run_replayed. pose proof counted_run_settled.
  destruct e; cbn [restore_step]; try (by auto with restore);
    unfold cancelSnapshotReplay, upd_restore, foreground_deadline, deferred_retry, flood_quiet, run_scheduled, dispose; parts.
Qed.
End rounds.

Lemma run_counted events s :
  rounds (runs s) (nextRun s) (List.concat (snd (restore_run events s)))
    (runs (fst (restore_run events s))) (nextRun (fst (restore_run events s))).
Proof.
  revert s. induction events as [|[env e] events IH]; intros s; [apply rounds_nothing|]. cbn.
  pose proof (counted_step env e s) as Hstep. specialize (IH (run_state (restore_step env e s))). unfold run_state, run_out in *.
  destruct (restore_step env e s) as [[r s1] o1]. cbn in *. destruct (restore_run events s1) as [s2 outs]. cbn in *.
  exact (related_trans counted s o1 s1 _ s2 Hstep IH).
Qed.

(** A run asks for at most three snapshots, however much output arrives while it
    restores: after the third round it gives up instead of asking again. *)
Theorem restore_rounds_bounded events id :
  requests id (List.concat (snd (restore_run events new_restore))) <= MAX_LOOP_ITERATIONS.
Proof.
  destruct (run_counted events new_restore) as [Hok Hu]; [split; [constructor | done]|]. specialize (Hu id).
  assert (H0 : 0 <= used id (runs new_restore) (nextRun new_restore)) by (unfold used; cbn; by case_match).
  assert (Hmax : used id (runs (fst (restore_run events new_restore))) (nextRun (fst (restore_run events new_restore))) <= MAX_LOOP_ITERATIONS).
  { destruct (map_get id (runs (fst (restore_run events new_restore)))) as [r|] eqn:Hget; [by eapply used_over|].
    unfold used. rewrite Hget. by case_match. }
  lia.
Qed.

(** ** Whose snapshot is drawn *)

(** [taken p snapshot]: the snapshot is of process [p]. *)
Section taken.
Context (taken : jsstring -> PtyBufferSnapshot -> Prop).

(** A snapshot a run is given is of the process it asked for. *)
Definition answer_fits (s : RestoreState) (id : Z) (snapshot : option PtyBufferSnapshot) : Prop :=
  match snapshot with
  | Some snapshot => forall r, map_get id (runs s) = Some r -> rr_stage r = awaiting_snapshot -> taken (currentPtyId r) snapshot
  | None => True
  end.

Fixpoint answers_fit (events : list (RestoreEnv * restore_event)) (s : RestoreState) : Prop :=
  match events with
  | [] => True
  | (env, e) :: rest =>
      match e with ev_snapshot id snapshot => answer_fits s id snapshot | _ => True end
      /\ answers_fit rest (run_state (restore_step env e s))
  end.

Definition of_process (r : SnapshotRestore) : Prop := exists p, sr_ptyId r = Some p /\ taken p (sr_snapshot r).

Definition restores_fit (m : jsmap SnapshotRestore) : Prop := forall id r, map_get id m = Some r -> of_process r.

Context (env : RestoreEnv).

(** What is drawn is a snapshot of the process shown. *)
Definition drawn_fit (out : list restore_effect) : Prop :=
  forall data, x_writeReplayData data ∈ out ->
    exists p snapshot, isDisposed env = false /\ getPtyId env = Some p /\ taken p snapshot /\ data ∈ replay_writes env snapshot.

Program Definition faithful : step_relation RestoreState restore_effect :=
  mkStep (fun s out s' => restores_fit (restores (replay s)) -> restores_fit (restores (replay s')) /\ drawn_fit out) _ _.
Next Obligation. split; [done|]. intros data Hin. by apply not_elem_of_nil in Hin. Qed.
Next Obligation.
  intros s1 o1 s2 o2 s3 H1 H2 H. destruct (H1 H) as [Hf Hd]. destruct (H2 Hf) as [Hf' Hd']. split; [done|].
  intros data [Hin|Hin]%elem_of_app; [by apply Hd | by apply Hd'].
Qed.

Definition Faithful (A : Type) (m : R A) : Prop := respects faithful m.

#[local] Instance Faithful_compositional : Compositional Faithful := respects_compositional faithful.

Lemma faithful_modify f : (forall s, restores_fit (restores (replay s)) -> restores_fit (restores (replay (f s)))) ->
  Faithful unit (modify f).
Proof. intros H. apply respects_modify. intros s Hs. split; [by apply H|]. intros data Hin. by apply not_elem_of_nil in Hin. Qed.

Lemma faithful_emit e : (forall data, e <> x_writeReplayData data) -> Faithful unit (emit e).
Proof. intros He. apply respects_emit. intros s Hs. split; [done|]. intros data Hin. destruct (He data). set_solver. Qed.

#[local] Hint Extern 1 (Faithful _ (modify _)) => apply faithful_modify; intros; assumption : restore.
#[local] Hint Extern 1 (Faithful _ (emit _)) => apply faithful_emit; intros; discriminate : restore.
#[local] Hint Extern 1 (Faithful _ skip) => apply (comp_ret (Q := Faithful)) : restore.
#[local] Hint Extern 2 (Faithful _ _) =>
  progress unfold clear_schedule, clearDeferredRetry, clearForegroundDeadline, resetDeferredRetryAttempts,
    resetFloodSuppression, upd_timing : restore.

Lemma faithful_upd_restore id f : (forall r, of_process r -> of_process (f r)) -> Faithful unit (upd_restore id f).
Proof.
  intros Hf. apply faithful_modify. intros s Hs. cbn. destruct (map_get id (restores (replay s))) as [r|] eqn:Hget; [|done].
  cbn. intros j q. rewrite map_get_set. case_decide; [|apply Hs]. intros [= <-]. by apply Hf, (Hs id).
Qed.

Lemma faithful_inactive a : Faithful unit (upd_replay (fun p => mkReplay (a p) (restores p) (nextRestore p))).
Proof. apply faithful_modify. by intros s Hs. Qed.
#[local] Hint Extern 1 (Faithful _ (upd_restore _ _)) => apply faithful_upd_restore; let r := fresh in let H := fresh in intros r H; exact H : restore.
#[local] Hint Extern 1 (Faithful _ (upd_replay (fun p => mkReplay ?a _ _))) => apply (faithful_inactive (fun _ => a)) : restore.

Lemma faithful_cancel : Faithful unit cancelSnapshotReplay.
Proof. unfold cancelSnapshotReplay. parts. Qed.
#[local] Hint Resolve faithful_cancel : restore.
Lemma faithful_clear : Faithful unit clear.
Proof. unfold clear, clearPending. parts. Qed.
#[local] Hint Resolve faithful_clear : restore.
Lemma drawn_reset : Faithful unit (resetIfPtyChanged env).
Proof. unfold resetIfPtyChanged. parts. Qed.
#[local] Hint Resolve drawn_reset : restore.
Lemma faithful_abandon p q : Faithful unit (abandon env p q).
Proof. unfold abandon, retargetGeneration, clearPending. parts. Qed.
#[local] Hint Resolve faithful_abandon : restore.

Lemma faithful_upd_run id f : Faithful unit (upd_run id f).
Proof. apply faithful_modify. intros s Hs. by destruct (map_get id (runs s)). Qed.
#[local] Hint Resolve faithful_upd_run : restore.

Lemma faithful_arm : Faithful unit (armForegroundDeadline env).
Proof. unfold armForegroundDeadline. parts. Qed.
Lemma faithful_flood : Faithful unit (noteFloodBackpressure env).
Proof. unfold noteFloodBackpressure. parts. Qed.
Lemma faithful_deferRetry : Faithful unit (deferRetry env).
Proof. unfold deferRetry, scheduleDeferredRetry, onDeferredRetryExhausted. parts. Qed.
Lemma faithful_query step : Faithful unit (query_effects step).
Proof. unfold query_effects. parts. Qed.
Lemma faithful_clear_if_current p : Faithful unit (clear_if_current p).
Proof. unfold clear_if_current. parts. Qed.
Lemma faithful_drain seq : Faithful DrainOutcome (drain_queue env seq).
Proof. unfold drain_queue. parts. Qed.
Lemma faithful_run_iterate id n : Faithful unit (run_iterate env id n).
Proof. pose proof faithful_clear_if_current. unfold run_iterate, end_run. parts. Qed.
#[local] Hint Resolve faithful_arm faithful_flood faithful_deferRetry faithful_query faithful_clear_if_current
  faithful_drain faithful_run_iterate : restore.
Lemma faithful_request b : Faithful unit (request env b).
Proof. unfold request, deferInactive. parts. Qed.
#[local] Hint Resolve faithful_request : restore.
Lemma faithful_markNeeded : Faithful unit (markNeeded env).
Proof. unfold markNeeded. parts. Qed.
#[local] Hint Resolve faithful_markNeeded : restore.

Lemma faithful_deliver_rendered alternate hidden foreground data meta pending :
  Faithful unit (deliver_rendered env alternate hidden foreground data meta pending).
Proof.
  unfold deliver_rendered, skipRendererOutput, queueLiveChunk, skipBackgroundAlternateScreenOutput, markFreshSnapshotNeeded.
  apply (comp_bind (Q := Faithful)); [|intros _; parts]. destruct pending as [f|]; [|parts].
  apply (comp_for_each Faithful). intros e He. apply faithful_emit. intros w ->. unfold when_given in He.
  repeat case_match; set_solver.
Qed.
#[local] Hint Resolve faithful_deliver_rendered : restore.

Lemma faithful_deliver filter alternate hidden data meta : Faithful unit (deliverPtyOutput env filter alternate hidden data meta).
Proof. unfold deliverPtyOutput, deliver_reconciled, deliver_live, markFreshSnapshotNeeded. parts. Qed.

Lemma faithful_run_replayed id failed : Faithful unit (run_replayed env id failed).
Proof. unfold run_replayed, complete, end_run. parts. Qed.

Lemma faithful_run_settled id : Faithful unit (run_settled env id).
Proof. unfold run_settled. parts. Qed.

Lemma faithful_apply p snapshot : getPtyId env = Some p -> taken p snapshot -> Faithful Z (apply env snapshot).
Proof.
  intros Hp Ht. unfold apply. rewrite Hp. apply (comp_bind (Q := Faithful)); [parts|]. intros _.
  apply (comp_bind (Q := Faithful)); [apply (comp_get (Q := Faithful))|]. intros s.
  apply (comp_bind (Q := Faithful)); [|intros _; parts]. apply faithful_modify. intros s1 Hs1. cbn. intros j q.
  rewrite map_get_set. case_decide; [|apply Hs1]. intros [= <-]. by exists p.
Qed.

Definition FaithfulAt (s : RestoreState) (A : Type) (m : R A) : Prop :=
  let '(_, s', out) := m s in related faithful s out s'.

Lemma faithful_at {A} (m : R A) s : (restores_fit (restores (replay s)) -> Faithful A m) -> FaithfulAt s A m.
Proof.
  intros H. unfold FaithfulAt. pose proof (fun K => H K s) as H'. destruct (m s) as [[r s'] out]. intros K. exact (H' K K).
Qed.

Lemma faithful_at_get {B} (k : RestoreState -> R B) s : FaithfulAt s B (k s) -> FaithfulAt s B (bind get k).
Proof. unfold FaithfulAt, bind, get. by destruct (k s s) as [[r s2] o2]. Qed.

(** The replay of a restore that is still current. *)
Lemma faithful_replay_task id : Faithful unit (replay_task env id).
Proof.
  intros s. apply faithful_at_get. destruct (map_get id (restores (replay s))) as [r|] eqn:Hget; [|apply faithful_at; by parts].
  destruct (isCurrent env r s) eqn:Hcur; [|apply faithful_at; by parts]. apply faithful_at. cbn [negb].
  intros K. destruct (K id r Hget) as (p & Hp & Ht). unfold isCurrent in Hcur.
  assert (Hd : isDisposed env = false /\ getPtyId env = Some p).
  { rewrite !andb_true_iff, negb_true_iff, bool_decide_eq_true in Hcur. destruct Hcur as [[[_ ?] ?] _]. split; congruence. }
  assert (Hw : Faithful unit (for_each (fun data => emit (x_writeReplayData data)) (replay_writes env (sr_snapshot r)))).
  { apply (comp_for_each Faithful). intros data Hin. apply respects_emit. intros s1 Hs1. split; [done|].
    intros data' Hdata. assert (data' = data) as -> by set_solver. exists p, (sr_snapshot r). destruct Hd. auto. }
  parts.
Qed.

Lemma faithful_run_snapshot id snapshot s : answer_fits s id snapshot -> FaithfulAt s unit (run_snapshot env id snapshot).
Proof.
  intros Hfit. apply faithful_at_get. destruct (map_get id (runs s)) as [r|] eqn:Hget; [|by apply faithful_at; parts].
  destruct (rr_stage r) eqn:Hst; try (by apply faithful_at; unfold end_run; parts). apply faithful_at. intros K. unfold end_run.
  destruct (isDisposed env); [parts|].
  case_match eqn:Hcur; [parts|]. destruct snapshot as [snapshot|]; [|parts].
  pose proof (faithful_apply (currentPtyId r) snapshot) as Ha.
  destruct (bool_decide_reflect (getPtyId env = Some (currentPtyId r))) as [Hp|]; [|by rewrite orb_true_r in Hcur].
  specialize (Ha Hp (Hfit r Hget Hst)). parts.
Qed.

Lemma faithful_step e s : match e with ev_snapshot id snapshot => answer_fits s id snapshot | _ => True end ->
  FaithfulAt s unit (restore_step env e).
Proof.
  pose proof faithful_deliver. pose proof faithful_run_replayed. pose proof faithful_run_settled.
  pose proof faithful_replay_task. intros Hfit.
  destruct e; cbn [restore_step]; [..|by apply faithful_run_snapshot | | | | | | | | |]; apply faithful_at; intros _;
    unfold after_replay, foreground_deadline, deferred_retry, flood_quiet, run_scheduled, dispose; parts.
Qed.
End taken.

Lemma run_faithful taken events s i env e out data :
  answers_fit taken events s -> restores_fit taken (restores (replay s)) ->
  events !! i = Some (env, e) -> snd (restore_run events s) !! i = Some out -> x_writeReplayData data ∈ out ->
  exists p snapshot, isDisposed env = false /\ getPtyId env = Some p /\ taken p snapshot /\ data ∈ replay_writes env snapshot.
Proof.
  revert s i. induction events as [|[env' e'] events IH]; intros s i Hfit Hs He Hout Hdata; [done|].
  destruct Hfit as [Hfit Hrest]. pose proof (faithful_step taken env' e' s Hfit) as Hstep. unfold FaithfulAt in Hstep.
  cbn in Hout. unfold run_state, run_out in *. destruct (restore_step env' e' s) as [[r s1] o1]. cbn in *.
  destruct (Hstep Hs) as [Hs1 Hd]. destruct (restore_run events s1) as [s2 outs] eqn:E. destruct i as [|i]; cbn in *.
  - simplify_eq. by apply Hd.
  - apply (IH s1 i); try done. by rewrite E.
Qed.

(** C24. The terminal never draws the snapshot of another process: when each snapshot a run
    is given is of the process it asked for, whatever is replayed, in any history (the pane
    may be given another process while a snapshot or its replay is awaited), is part of a
    snapshot of the process shown at that moment, in a terminal that is not disposed. *)
Theorem never_foreign_snapshot taken events i env e out data :
  answers_fit taken events new_restore ->
  events !! i = Some (env, e) -> snd (restore_run events new_restore) !! i = Some out -> x_writeReplayData data ∈ out ->
  exists p snapshot, isDisposed env = false /\ getPtyId env = Some p /\ taken p snapshot /\ data ∈ replay_writes env snapshot.
Proof. intros Hfit. apply run_faithful; [done|]. intros id r Hget. cbn in Hget. congruence. Qed.

(** The snapshot arrives, is replayed, and its text is drawn. *)
Definition sample_snapshot : PtyBufferSnapshot := mkSnapshot [104; 105] (Some 2) None false None None.

Definition restored_history : list (RestoreEnv * restore_event) :=
  hidden_history ++ [(example_env true, ev_request); (example_env true, ev_snapshot 0 (Some sample_snapshot));
                     (example_env true, ev_replay_task 0)].

Lemma never_foreign_snapshot_witness :
  exists p snapshot, isDisposed (example_env true) = false /\ getPtyId (example_env true) = Some p /\
    (p = [49] /\ snapshot = sample_snapshot) /\ [104; 105] ∈ replay_writes (example_env true) snapshot.
Proof.
  apply (never_foreign_snapshot (fun p snapshot => p = [49] /\ snapshot = sample_snapshot) restored_history 3
    (example_env true) (ev_replay_task 0) (List.nth 3 (snd (restore_run restored_history new_restore)) [])).
  - vm_compute. repeat split; intros; by simplify_eq.
  - reflexivity.
  - vm_compute. reflexivity.
  - apply list_elem_of_In. vm_compute. auto 10.
Defined.

(** Output that an abandonment writes is erased when the replay of the snapshot has not begun
    yet: the replay stays current, begins afterwards, and clears the screen; nothing writes
    the output again. *)
Definition abandoned_history : list (RestoreEnv * restore_event) :=
  (fun e => (example_env true, e)) <$>
  [ev_markNeeded; ev_snapshot 0 (Some sample_snapshot); ev_deliver id false true [97] (mkMeta (Some 3) None false false);
   ev_foreground_deadline; ev_replay_task 0; ev_replayed 0 false; ev_settled 0].

Lemma abandoned_output_erased :
  let '(s, outs) := restore_run abandoned_history new_restore in
  x_queue (WriteForeground [97]) ∈ List.concat (firstn 4 outs)
  /\ x_discardTerminalOutput ∈ List.concat (skipn 4 outs)
  /\ List.filter (fun e => match e with x_write _ _ _ | x_queue _ => true | _ => false end) (List.concat (skipn 4 outs)) = []
  /\ isNeeded s = false /\ inFlight s = None /\ map_size (runs s) = 0.
Proof.
  destruct (restore_run abandoned_history new_restore) as [s outs] eqn:E. vm_compute in E. injection E as <- <-.
  split_and!; try reflexivity; apply list_elem_of_In; vm_compute; auto 10.
Qed.
