(* ===== verification/KeySyntax.v ===== *)
(** The syntax of keyboard shortcuts (packages/protocol/typescript/src/keybindings: model.ts,
    syntax.ts, normalization.ts, platform.ts): parsing a binding, its canonical text and the
    normalization of what a user types, with the theorem that normalizing is idempotent.

    The Unicode case mappings of the engine are the class [CaseMapping]; what is proved
    needs them on ASCII text only ([CaseMappingLaws]).  Tables that are objects in the
    source are looked up by keys and tokens of the keyboard; the names of
    [Object.prototype], which an object answers too, are none of them. *)

From stdpp Require Import base list sets.
From Stdlib Require Import ZArith Lia ZifyBool String.
From S2P Require Import Prelude JsText JsRecord Json.

Open Scope Z_scope.

#[local] Set Warnings "-clear-no-such-hyp".

(** ** Strings *)

(** [toUpperCase] and [toLowerCase]. *)
Class CaseMapping := {
  toUpperCase : jsstring -> jsstring;
  toLowerCase : jsstring -> jsstring
}.

Definition is_ascii (c : Z) : bool := (0 <=? c) && (c <? 128).
Definition ascii (s : jsstring) : bool := forallb is_ascii s.

Definition ascii_upper (c : Z) : Z := if (97 <=? c) && (c <=? 122) then c - 32 else c.
Definition ascii_lower (c : Z) : Z := if (65 <=? c) && (c <=? 90) then c + 32 else c.

Class CaseMappingLaws (K : CaseMapping) : Prop := {
  upper_ascii : forall s, ascii s = true -> toUpperCase s = ascii_upper <$> s;
  lower_ascii : forall s, ascii s = true -> toLowerCase s = ascii_lower <$> s
}.

(** The mapping that knows ASCII only. *)
Definition ascii_case : CaseMapping := {|
  toUpperCase := fmap ascii_upper;
  toLowerCase := fmap ascii_lower
|}.

Lemma ascii_case_laws : CaseMappingLaws ascii_case.
Proof. by split. Qed.

(** [s.split(sep)] for a separator of one unit. *)
Fixpoint split_on (sep : Z) (s : jsstring) : list jsstring :=
  match s with
  | [] => [[]]
  | c :: rest =>
      if c =? sep then [] :: split_on sep rest
      else match split_on sep rest with
           | piece :: pieces => (c :: piece) :: pieces
           | [] => [[c]]
           end
  end.

(** [parts.join(sep)]. *)
Fixpoint join (sep : jsstring) (parts : list jsstring) : jsstring :=
  match parts with
  | [] => []
  | [part] => part
  | part :: rest => part ++ sep ++ join sep rest
  end.

(** [a <= b] on strings: by code units. *)
Fixpoint str_leb (a b : jsstring) : bool :=
  match a, b with
  | [], _ => true
  | _ :: _, [] => false
  | x :: a, y :: b => if x <? y then true else if y <? x then false else str_leb a b
  end.

Definition text_eqb (a b : jsstring) : bool := bool_decide (a = b).

(** One unit, between two. *)
Definition unit_between (lo hi s : jsstring) : bool :=
  Nat.eqb (List.length s) 1 && str_leb lo s && str_leb s hi.

Definition is_letter (s : jsstring) : bool := unit_between (js "A") (js "Z") s.
Definition is_digit_token (s : jsstring) : bool := unit_between (js "0") (js "9") s.

(** ** model.ts, platform.ts *)

Inductive KeybindingPlatform := darwin | linux | win32.

(** The platform is a string of the host; all that is asked is whether it is one of these. *)
Definition getKeybindingPlatform (platform : jsstring) : KeybindingPlatform :=
  if text_eqb platform (js "darwin") then darwin else if text_eqb platform (js "win32") then win32 else linux.

Inductive ModifierToken := Mod | Cmd | Ctrl | Alt | Shift.

#[export] Instance ModifierToken_eq_dec : EqDecision ModifierToken.
Proof. solve_decision. Defined.

(** [PhysicalModifierToken] *)
Inductive physical_modifier := phys_Cmd | phys_Ctrl | phys_Alt | phys_Shift.

Definition token_of (m : physical_modifier) : ModifierToken :=
  match m with phys_Cmd => Cmd | phys_Ctrl => Ctrl | phys_Alt => Alt | phys_Shift => Shift end.

Record KeybindingInput := mkInput {
  ki_key : option jsstring;
  ki_code : option jsstring;
  ki_alt : option bool;
  ki_meta : option bool;
  ki_control : option bool;
  ki_shift : option bool;
  ki_altKey : option bool;
  ki_metaKey : option bool;
  ki_ctrlKey : option bool;
  ki_shiftKey : option bool;
  ki_doubleTapModifier : option physical_modifier
}.

Record ParsedKeybinding := mkParsed {
  pk_mod : bool;
  pk_meta : bool;
  pk_control : bool;
  pk_alt : bool;
  pk_shift : bool;
  pk_key : jsstring;
  pk_doubleTap : option ModifierToken
}.

Inductive KeybindingValidationResult := valid (value : jsstring) | invalid (error : jsstring).

(** ** syntax.ts *)

Inductive held_modifier := held_alt | held_meta | held_control | held_shift.

#[export] Instance held_modifier_eq_dec : EqDecision held_modifier.
Proof. solve_decision. Defined.

Definition hasModifier (input : KeybindingInput) (m : held_modifier) : bool :=
  let or_else (a b : option bool) := match a with Some v => v | None => default false b end in
  match m with
  | held_alt => or_else (ki_alt input) (ki_altKey input)
  | held_meta => or_else (ki_meta input) (ki_metaKey input)
  | held_control => or_else (ki_control input) (ki_ctrlKey input)
  | held_shift => or_else (ki_shift input) (ki_shiftKey input)
  end.

(** /^F([1-9]|1[0-9]|2[0-4])$/ *)
Definition isFunctionKeyToken (key : jsstring) : bool :=
  match key with
  | [f; d] => (f =? 70) && (49 <=? d) && (d <=? 57)
  | [f; t; d] => (f =? 70) && ((t =? 49) && (48 <=? d) && (d <=? 57) || (t =? 50) && (48 <=? d) && (d <=? 52))
  | _ => false
  end.

Definition key_names : jsrecord jsstring := [
  (js "[", js "BracketLeft"); (js "]", js "BracketRight"); (js "{", js "BracketLeft"); (js "}", js "BracketRight");
  (js "-", js "Minus"); (js "_", js "Underscore"); (js "=", js "Equal"); (js "+", js "Plus");
  (js ",", js "Comma"); (js ".", js "Period"); (js "/", js "Slash"); (js "\", js "Backslash");
  (js ";", js "Semicolon"); (js "'", js "Quote"); (js "`", js "Backquote");
  (js "RETURN", js "Enter"); (js "ESC", js "Escape"); (js "SPACEBAR", js "Space"); (js "PGUP", js "PageUp");
  (js "PGDN", js "PageDown"); (js "PLUS", js "Plus"); (js "MINUS", js "Minus"); (js "EQUAL", js "Equal");
  (js "UNDERSCORE", js "Underscore"); (js "ARROWLEFT", js "ArrowLeft"); (js "LEFT", js "ArrowLeft");
  (js "ARROWRIGHT", js "ArrowRight"); (js "RIGHT", js "ArrowRight"); (js "ARROWUP", js "ArrowUp"); (js "UP", js "ArrowUp");
  (js "ARROWDOWN", js "ArrowDown"); (js "DOWN", js "ArrowDown"); (js "PAGEUP", js "PageUp"); (js "PAGEDOWN", js "PageDown");
  (js "BACKSPACE", js "Backspace"); (js "DELETE", js "Delete"); (js "DEL", js "Delete"); (js "INSERT", js "Insert");
  (js "INS", js "Insert"); (js "ENTER", js "Enter"); (js "TAB", js "Tab"); (js "ESCAPE", js "Escape");
  (js "SPACE", js "Space"); (js "BRACKETLEFT", js "BracketLeft"); (js "BRACKETRIGHT", js "BracketRight");
  (js "NUMPADADD", js "NumpadAdd"); (js "NUMPADSUBTRACT", js "NumpadSubtract"); (js "ADD", js "NumpadAdd");
  (js "SUBTRACT", js "NumpadSubtract"); (js "COMMA", js "Comma"); (js "PERIOD", js "Period"); (js "SLASH", js "Slash");
  (js "BACKSLASH", js "Backslash"); (js "SEMICOLON", js "Semicolon"); (js "QUOTE", js "Quote");
  (js "BACKQUOTE", js "Backquote")].

Definition command_glyph : jsstring := [0x2318].
Definition control_glyph : jsstring := [0x2303].
Definition option_glyph : jsstring := [0x2325].
Definition shift_glyph : jsstring := [0x21e7].

Definition emptyParsedKeybinding : ParsedKeybinding := mkParsed false false false false false [] None.

Definition applyModifierToken (m : ModifierToken) (p : ParsedKeybinding) : ParsedKeybinding :=
  match m with
  | Mod => mkParsed true (pk_meta p) (pk_control p) (pk_alt p) (pk_shift p) (pk_key p) (pk_doubleTap p)
  | Cmd => mkParsed (pk_mod p) true (pk_control p) (pk_alt p) (pk_shift p) (pk_key p) (pk_doubleTap p)
  | Ctrl => mkParsed (pk_mod p) (pk_meta p) true (pk_alt p) (pk_shift p) (pk_key p) (pk_doubleTap p)
  | Alt => mkParsed (pk_mod p) (pk_meta p) (pk_control p) true (pk_shift p) (pk_key p) (pk_doubleTap p)
  | Shift => mkParsed (pk_mod p) (pk_meta p) (pk_control p) (pk_alt p) true (pk_key p) (pk_doubleTap p)
  end.

Definition set_key (key : jsstring) (p : ParsedKeybinding) : ParsedKeybinding :=
  mkParsed (pk_mod p) (pk_meta p) (pk_control p) (pk_alt p) (pk_shift p) key (pk_doubleTap p).

Definition set_doubleTap (m : ModifierToken) (p : ParsedKeybinding) : ParsedKeybinding :=
  mkParsed (pk_mod p) (pk_meta p) (pk_control p) (pk_alt p) (pk_shift p) (pk_key p) (Some m).

Definition modifier_text (m : ModifierToken) : jsstring :=
  match m with Mod => js "Mod" | Cmd => js "Cmd" | Ctrl => js "Ctrl" | Alt => js "Alt" | Shift => js "Shift" end.

Definition canonicalizeParsedKeybinding (parsed : ParsedKeybinding) : jsstring :=
  match pk_doubleTap parsed with
  | Some m => js "DoubleTap+" ++ modifier_text m
  | None =>
      join (js "+")
        ((if pk_mod parsed then [js "Mod"] else []) ++ (if pk_meta parsed then [js "Cmd"] else [])
         ++ (if pk_control parsed then [js "Ctrl"] else []) ++ (if pk_alt parsed then [js "Alt"] else [])
         ++ (if pk_shift parsed then [js "Shift"] else []) ++ [pk_key parsed])
  end.

Definition isSafeBareKey (parsed : ParsedKeybinding) : bool :=
  if pk_mod parsed || pk_meta parsed || pk_control parsed || pk_alt parsed then false
  else if pk_shift parsed then isFunctionKeyToken (pk_key parsed)
  else isFunctionKeyToken (pk_key parsed)
       || existsb (text_eqb (pk_key parsed))
            [js "Backspace"; js "Delete"; js "Enter"; js "Escape"; js "Tab"; js "ArrowLeft"; js "ArrowRight";
             js "ArrowUp"; js "ArrowDown"; js "PageUp"; js "PageDown"].

Definition digit_index_error : jsstring :=
  js "Pick a number key 1" ++ [0x2013] ++ js "9 with a modifier, like Cmd+1 or Ctrl+1.".

Section case.
Context `{K : CaseMapping}.

Definition normalizeKeyToken (token : jsstring) : option jsstring :=
  if text_eqb token (js " ") then Some (js "Space")
  else
    let trimmed := trim token in
    if text_eqb trimmed [] then None
    else
      let upper := toUpperCase trimmed in
      if is_letter upper then Some upper
      else if is_digit_token upper then Some upper
      else if isFunctionKeyToken upper then Some upper
      else rec_get upper key_names.

Definition parseModifierToken (rawPart : jsstring) : option ModifierToken :=
  let part := toLowerCase rawPart in
  let one_of (names : list jsstring) := existsb (text_eqb part) names in
  if one_of [js "mod"; js "cmdorctrl"; js "commandorcontrol"] then Some Mod
  else if one_of [js "cmd"; js "command"; js "meta"] || text_eqb rawPart command_glyph then Some Cmd
  else if one_of [js "ctrl"; js "control"] || text_eqb rawPart control_glyph then Some Ctrl
  else if one_of [js "alt"; js "option"; js "opt"] || text_eqb rawPart option_glyph then Some Alt
  else if one_of [js "shift"] || text_eqb rawPart shift_glyph then Some Shift
  else None.

Definition is_doubletap (rawPart : jsstring) : bool := text_eqb (toLowerCase rawPart) (js "doubletap").

(** The modifiers of a double tap, in order. *)
Fixpoint double_tap_modifiers (sawDoubleTap : bool) (rawParts : list jsstring) : option (list ModifierToken) :=
  match rawParts with
  | [] => Some []
  | rawPart :: rest =>
      if is_doubletap rawPart then
        if sawDoubleTap then None else double_tap_modifiers true rest
      else match parseModifierToken rawPart with
           | None => None
           | Some m => match double_tap_modifiers sawDoubleTap rest with
                       | Some ms => Some (m :: ms)
                       | None => None
                       end
           end
  end.

Definition parseDoubleTapKeybinding (rawParts : list jsstring) : option ParsedKeybinding :=
  match double_tap_modifiers false rawParts with
  | None | Some [] => None
  | Some (m :: ms) =>
      let parsed := fold_left (fun p m => applyModifierToken m p) (m :: ms) emptyParsedKeybinding in
      if pk_mod parsed && (pk_meta parsed || pk_control parsed) then Some (set_doubleTap Mod parsed)
      else match ms with
           | [] => Some (set_doubleTap m parsed)
           | _ :: _ => None
           end
  end.

Fixpoint parse_parts (rawParts : list jsstring) (parsed : ParsedKeybinding) : option ParsedKeybinding :=
  match rawParts with
  | [] => Some parsed
  | rawPart :: rest =>
      match parseModifierToken rawPart with
      | Some m => parse_parts rest (applyModifierToken m parsed)
      | None =>
          if negb (text_eqb (pk_key parsed) []) then None
          else match normalizeKeyToken rawPart with
               | None => None
               | Some key => if text_eqb key [] then None else parse_parts rest (set_key key parsed)
               end
      end
  end.

Definition parseKeybinding (binding : jsstring) : option ParsedKeybinding :=
  let rawParts := List.filter (fun part => negb (text_eqb part [])) (trim <$> split_on 43 binding) in
  match rawParts with
  | [] => None
  | _ :: _ =>
      if existsb is_doubletap rawParts then parseDoubleTapKeybinding rawParts
      else match parse_parts rawParts emptyParsedKeybinding with
           | Some parsed => if text_eqb (pk_key parsed) [] then None else Some parsed
           | None => None
           end
  end.

Definition normalizeKeybindingWithOptions (binding : jsstring) (allowBareKeybindings : bool) : KeybindingValidationResult :=
  match parseKeybinding binding with
  | None => invalid (js "Use a shortcut like Ctrl+Shift+P or Cmd+K.")
  | Some parsed =>
      if pk_mod parsed && (pk_meta parsed || pk_control parsed)
      then invalid (js "Use either Mod or a platform-specific modifier, not both.")
      else match pk_doubleTap parsed with
      | Some _ => valid (canonicalizeParsedKeybinding parsed)
      | None =>
          let isShiftInsert := pk_shift parsed && text_eqb (pk_key parsed) (js "Insert") in
          let isBareAllowed := allowBareKeybindings && isSafeBareKey parsed in
          if negb (pk_mod parsed) && negb (pk_meta parsed) && negb (pk_control parsed) && negb (pk_alt parsed)
             && negb isShiftInsert && negb isBareAllowed
          then invalid (js "Include at least one modifier key.")
          else valid (canonicalizeParsedKeybinding parsed)
      end
  end.

(** ** normalization.ts *)

Definition isDoubleTapBinding (binding : jsstring) : bool :=
  match parseKeybinding binding with
  | Some p => match pk_doubleTap p with Some _ => true | None => false end
  | None => false
  end.

Definition include (value : jsstring) (l : list jsstring) : list jsstring :=
  if existsb (text_eqb value) l then l else l ++ [value].

Fixpoint normalize_pieces (pieces : list jsstring) (bare : bool) (normalized : list jsstring)
    : list jsstring + jsstring :=
  match pieces with
  | [] => inl normalized
  | piece :: rest =>
      match normalizeKeybindingWithOptions piece bare with
      | invalid error => inr error
      | valid value => normalize_pieces rest bare (include value normalized)
      end
  end.

(** The bindings, or the error of the first that has one. *)
Definition normalizeKeybindingListWithOptions (input : jsstring) (bare : bool) : list jsstring + jsstring :=
  let trimmed := trim input in
  if text_eqb trimmed [] then inl [] else normalize_pieces (split_on 44 trimmed) bare [].

Fixpoint normalizeKeybindingArrayWithOptions_from (input : list jsstring) (bare : bool) (normalized : list jsstring)
    : list jsstring + jsstring :=
  match input with
  | [] => inl normalized
  | binding :: rest =>
      match normalizeKeybindingListWithOptions binding bare with
      | inr error => inr error
      | inl piece => normalizeKeybindingArrayWithOptions_from rest bare (fold_left (fun l b => include b l) piece normalized)
      end
  end.

Definition normalizeKeybindingArrayWithOptions (input : list jsstring) (bare : bool) : list jsstring + jsstring :=
  normalizeKeybindingArrayWithOptions_from input bare [].

(** [DIGIT_INDEX_KEY_PATTERN] (definitions.ts) *)
Definition is_index_digit (key : jsstring) : bool := unit_between (js "1") (js "9") key.

Definition canonicalizeDigitIndexBinding (binding : jsstring) : KeybindingValidationResult :=
  match parseKeybinding binding with
  | Some parsed =>
      match pk_doubleTap parsed with
      | None => if is_index_digit (pk_key parsed) then valid (canonicalizeParsedKeybinding (set_key (js "1") parsed))
                else invalid digit_index_error
      | Some _ => invalid digit_index_error
      end
  | None => invalid digit_index_error
  end.
End case.

(** ** Keys *)

(** The tokens a binding may name. *)
Definition single_units (lo n : nat) : list jsstring := (fun i => [Z.of_nat i]) <$> List.seq lo n.

Definition function_keys : list jsstring :=
  ((fun i => [70; Z.of_nat i]) <$> List.seq 49 9) ++ ((fun i => [70; 49; Z.of_nat i]) <$> List.seq 48 10)
  ++ ((fun i => [70; 50; Z.of_nat i]) <$> List.seq 48 5).

Definition key_tokens : list jsstring :=
  single_units 65 26 ++ single_units 48 10 ++ function_keys ++ remove_dups (key_names.*2).

Definition is_key (key : jsstring) : Prop := key ∈ key_tokens.

(** ** Laws *)

Lemma text_eqb_true a b : text_eqb a b = true <-> a = b.
Proof. apply bool_decide_eq_true. Qed.

Lemma text_eqb_refl a : text_eqb a a = true.
Proof. by apply text_eqb_true. Qed.

Lemma unit_between_elem (lo n : nat) s : unit_between [Z.of_nat lo] [Z.of_nat (lo + n - 1)] s = true -> (0 < n)%nat ->
  s ∈ single_units lo n.
Proof.
  unfold unit_between, single_units. destruct s as [|x [|y s]]; cbn; try done. intros H Hn.
  apply list_elem_of_fmap. exists (Z.to_nat x). rewrite elem_of_seq.
  repeat case_match; try done; (split; [f_equal; lia | lia]).
Qed.

Lemma letter_elem s : is_letter s = true -> s ∈ single_units 65 26.
Proof. intros H. by apply unit_between_elem; [|lia]. Qed.

Lemma digit_elem s : is_digit_token s = true -> s ∈ single_units 48 10.
Proof. intros H. by apply unit_between_elem; [|lia]. Qed.

Lemma function_key_elem s : isFunctionKeyToken s = true -> s ∈ function_keys.
Proof.
  unfold function_keys. rewrite !elem_of_app, !list_elem_of_fmap.
  destruct s as [|x [|y [|z [|w s]]]]; cbn -[List.seq]; try done; intros H.
  - left. exists (Z.to_nat y). rewrite elem_of_seq. split; [repeat f_equal; lia | lia].
  - destruct (y =? 49) eqn:E.
    + right; left. exists (Z.to_nat z). rewrite elem_of_seq. split; [repeat f_equal; lia | lia].
    + right; right. exists (Z.to_nat z). rewrite elem_of_seq. split; [repeat f_equal; lia | lia].
Qed.

Lemma normalized_token `{K : CaseMapping} token key : normalizeKeyToken token = Some key -> is_key key.
Proof.
  unfold normalizeKeyToken, is_key, key_tokens. rewrite !elem_of_app, elem_of_remove_dups.
  repeat case_match; intros; simplify_eq.
  - do 3 right. vm_compute. repeat first [left | right].
  - left. by apply letter_elem.
  - right; left. by apply digit_elem.
  - right; right; left. by apply function_key_elem.
  - do 3 right. apply list_elem_of_fmap. eexists (_, key). split; [done|]. by eapply rec_get_elem.
Qed.

Lemma ascii_app a b : ascii (a ++ b) = ascii a && ascii b.
Proof. apply forallb_app. Qed.

Lemma ascii_trim_start s : ascii s = true -> ascii (trim_start s) = true.
Proof.
  induction s as [|c s IH]; cbn; [done|]. intros H. destruct (is_white c); [|done].
  apply IH. by apply andb_true_iff in H as [_ ?].
Qed.

Lemma ascii_rev s : ascii (rev s) = ascii s.
Proof.
  induction s as [|c s IH]; [done|]. change (rev (c :: s)) with (rev s ++ [c]). rewrite ascii_app, IH. cbn.
  by rewrite andb_true_r, andb_comm.
Qed.

Lemma ascii_trim s : ascii s = true -> ascii (trim s) = true.
Proof. intros H. unfold trim. rewrite ascii_rev. apply ascii_trim_start. rewrite ascii_rev. by apply ascii_trim_start. Qed.

Lemma ascii_split sep s : ascii s = true -> Forall (fun p => ascii p = true) (split_on sep s).
Proof.
  induction s as [|c s IH]; cbn; [by repeat constructor|]. intros [Hc Hs]%andb_true_iff. specialize (IH Hs).
  destruct (c =? sep); [by constructor|]. destruct (split_on sep s) as [|piece pieces].
  - repeat constructor. cbn. by rewrite Hc.
  - apply Forall_cons in IH as [Hp Hps]. constructor; [|done]. cbn. by rewrite Hc.
Qed.

(** On ASCII text the case mapping does not matter. *)
Section ascii_text.
Context `{K : CaseMapping} `{!CaseMappingLaws K}.

Lemma normalizeKeyToken_ascii s : ascii s = true -> normalizeKeyToken s = normalizeKeyToken (K := ascii_case) s.
Proof. intros H. unfold normalizeKeyToken. by rewrite upper_ascii by by apply ascii_trim. Qed.

Lemma parseModifierToken_ascii s : ascii s = true -> parseModifierToken s = parseModifierToken (K := ascii_case) s.
Proof. intros H. unfold parseModifierToken. by rewrite lower_ascii. Qed.

Lemma is_doubletap_ascii s : ascii s = true -> is_doubletap s = is_doubletap (K := ascii_case) s.
Proof. intros H. unfold is_doubletap. by rewrite lower_ascii. Qed.

Lemma double_tap_modifiers_ascii parts saw : Forall (fun p => ascii p = true) parts ->
  double_tap_modifiers saw parts = double_tap_modifiers (K := ascii_case) saw parts.
Proof.
  intros H. revert saw. induction H as [|p parts Hp H IH]; intros saw; [done|]. cbn.
  by rewrite is_doubletap_ascii, parseModifierToken_ascii, !IH.
Qed.

Lemma parse_parts_ascii parts parsed : Forall (fun p => ascii p = true) parts ->
  parse_parts parts parsed = parse_parts (K := ascii_case) parts parsed.
Proof.
  intros H. revert parsed. induction H as [|p parts Hp H IH]; intros parsed; [done|]. cbn.
  rewrite parseModifierToken_ascii, normalizeKeyToken_ascii by done. by repeat case_match.
Qed.

Lemma parseKeybinding_ascii binding : ascii binding = true ->
  parseKeybinding binding = parseKeybinding (K := ascii_case) binding.
Proof.
  intros H. unfold parseKeybinding.
  set (parts := List.filter _ _).
  assert (Hp : Forall (fun p => ascii p = true) parts).
  { apply Forall_forall. intros p Hp. apply list_elem_of_In in Hp. apply List.filter_In in Hp as [Hp _].
    apply list_elem_of_In, list_elem_of_fmap in Hp as (q & -> & Hq). apply ascii_trim.
    pose proof (ascii_split 43 binding H) as Hs. rewrite Forall_forall in Hs. by apply Hs. }
  assert (Hd : existsb is_doubletap parts = existsb (is_doubletap (K := ascii_case)) parts).
  { induction Hp as [|p ps Hp0 Hp IH]; [done|]. cbn. by rewrite is_doubletap_ascii, IH. }
  unfold parseDoubleTapKeybinding. rewrite Hd, parse_parts_ascii, double_tap_modifiers_ascii by done. done.
Qed.

Lemma normalizeKeybinding_ascii binding bare : ascii binding = true ->
  normalizeKeybindingWithOptions binding bare = normalizeKeybindingWithOptions (K := ascii_case) binding bare.
Proof. intros H. unfold normalizeKeybindingWithOptions. by rewrite parseKeybinding_ascii. Qed.
End ascii_text.

(** *** What a binding parses to *)

Definition chord (p : ParsedKeybinding) : Prop := pk_doubleTap p = None /\ is_key (pk_key p).

(** A double tap: of one modifier, or one that normalization refuses. *)
Definition double_tap (p : ParsedKeybinding) : Prop :=
  (exists m, p = set_doubleTap m (applyModifierToken m emptyParsedKeybinding)) \/
  (pk_doubleTap p = Some Mod /\ pk_mod p && (pk_meta p || pk_control p) = true).

Lemma parse_parts_chord `{K : CaseMapping} parts p q : parse_parts parts p = Some q ->
  pk_doubleTap p = None -> (pk_key p = [] \/ is_key (pk_key p)) ->
  pk_doubleTap q = None /\ (pk_key q = [] \/ is_key (pk_key q)).
Proof.
  revert p. induction parts as [|part parts IH]; intros p; cbn; [by intros [= <-]|].
  destruct (parseModifierToken part) as [m|]; [|].
  - intros H Hd Hk. apply (IH _ H); by destruct m.
  - destruct (negb _); [done|]. destruct (normalizeKeyToken part) as [key|] eqn:Ek; [|done].
    destruct (text_eqb key []); [done|]. intros H Hd Hk. apply (IH _ H); [done|]. right. cbn. by eapply normalized_token.
Qed.

Lemma parsed_shape `{K : CaseMapping} binding p : parseKeybinding binding = Some p -> chord p \/ double_tap p.
Proof.
  unfold parseKeybinding. destruct (List.filter _ _) as [|part parts]; [done|].
  destruct (existsb _ _).
  - intros H. right. unfold parseDoubleTapKeybinding in H. destruct (double_tap_modifiers _ _) as [[|m ms]|]; [done| |done].
    destruct (_ && _) eqn:E; [injection H as <-; by right|]. destruct ms; [|done]. injection H as <-. left. by exists m.
  - destruct (parse_parts _ _) as [q|] eqn:Eq; [|done]. destruct (text_eqb (pk_key q) []) eqn:Ek; [done|].
    intros [= <-]. left. destruct (parse_parts_chord _ _ _ Eq eq_refl (or_introl eq_refl)) as [Hd [Hk|Hk]]; [|done].
    rewrite Hk in Ek. done.
Qed.

(** The canonical text of a chord parses to it. *)
Definition booleans : list bool := [false; true].

Definition chords : list ParsedKeybinding :=
  cmd ← booleans; meta ← booleans; control ← booleans; alt ← booleans; shift ← booleans; key ← key_tokens;
  [mkParsed cmd meta control alt shift key None].

Definition parsed_eqb (p q : ParsedKeybinding) : bool :=
  Bool.eqb (pk_mod p) (pk_mod q) && Bool.eqb (pk_meta p) (pk_meta q) && Bool.eqb (pk_control p) (pk_control q)
  && Bool.eqb (pk_alt p) (pk_alt q) && Bool.eqb (pk_shift p) (pk_shift q) && text_eqb (pk_key p) (pk_key q)
  && bool_decide (pk_doubleTap p = pk_doubleTap q).

Lemma all_booleans b : b ∈ booleans.
Proof. unfold booleans. rewrite !elem_of_cons. destruct b; auto. Qed.

Lemma chord_elem p : chord p -> p ∈ chords.
Proof.
  destruct p as [cmd meta control alt shift key tap]. intros [Hd Hk]. cbn [pk_doubleTap pk_key] in *. subst tap. unfold chords.
  apply list_elem_of_bind. exists cmd. split; [|apply all_booleans]. apply list_elem_of_bind. exists meta. split; [|apply all_booleans].
  apply list_elem_of_bind. exists control. split; [|apply all_booleans]. apply list_elem_of_bind. exists alt. split; [|apply all_booleans].
  apply list_elem_of_bind. exists shift. split; [|apply all_booleans]. apply list_elem_of_bind. exists key. split; [|exact Hk].
  by apply list_elem_of_singleton.
Qed.

Lemma chords_parse : forallb (fun p => ascii (canonicalizeParsedKeybinding p) &&
  match parseKeybinding (K := ascii_case) (canonicalizeParsedKeybinding p) with
  | Some q => parsed_eqb p q
  | None => false
  end) chords = true.
Proof. vm_compute. reflexivity. Qed.

Lemma parsed_eqb_true p q : parsed_eqb p q = true -> p = q.
Proof.
  unfold parsed_eqb. rewrite !andb_true_iff, !Bool.eqb_true_iff, text_eqb_true, bool_decide_eq_true.
  destruct p, q; cbn. naive_solver.
Qed.

Lemma chord_canonical p : chord p -> ascii (canonicalizeParsedKeybinding p) = true
  /\ parseKeybinding (K := ascii_case) (canonicalizeParsedKeybinding p) = Some p.
Proof.
  intros H%chord_elem%list_elem_of_In. pose proof chords_parse as Hall. rewrite forallb_forall in Hall.
  specialize (Hall p H). apply andb_true_iff in Hall as [Ha Hp]. split; [done|].
  destruct (parseKeybinding _) as [q|]; [|done]. by rewrite (parsed_eqb_true p q).
Qed.

Section canonical.
Context `{K : CaseMapping} `{!CaseMappingLaws K}.

Lemma parse_canonical p : chord p -> parseKeybinding (canonicalizeParsedKeybinding p) = Some p.
Proof. intros H. destruct (chord_canonical p H) as [Ha Hp]. by rewrite parseKeybinding_ascii. Qed.

Lemma parse_double_tap m :
  parseKeybinding (js "DoubleTap+" ++ modifier_text m) = Some (set_doubleTap m (applyModifierToken m emptyParsedKeybinding)).
Proof. rewrite parseKeybinding_ascii by by destruct m. by destruct m. Qed.

(** What a normalized binding parses to. *)
Lemma normalized_parses binding bare value : normalizeKeybindingWithOptions binding bare = valid value ->
  exists p, parseKeybinding value = Some p /\ value = canonicalizeParsedKeybinding p /\
    pk_mod p && (pk_meta p || pk_control p) = false /\
    (chord p \/ exists m, p = set_doubleTap m (applyModifierToken m emptyParsedKeybinding)) /\
    (pk_doubleTap p = None -> pk_mod p || pk_meta p || pk_control p || pk_alt p
       || (pk_shift p && text_eqb (pk_key p) (js "Insert")) || (bare && isSafeBareKey p) = true).
Proof.
  unfold normalizeKeybindingWithOptions. destruct (parseKeybinding binding) as [p|] eqn:Ep; [|done].
  destruct (pk_mod p && (pk_meta p || pk_control p)) eqn:Em; [done|].
  destruct (parsed_shape _ _ Ep) as [Hc|[[m ->]|[_ H]]]; [| |congruence].
  - pose proof Hc as [-> _]. destruct (_ && negb (bare && isSafeBareKey p)) eqn:Eb; [done|]. intros [= <-].
    exists p. split_and!; [by apply parse_canonical | done | done | by left|]. intros _.
    destruct (pk_mod p), (pk_meta p), (pk_control p), (pk_alt p), (pk_shift p && _), (bare && _); done.
  - cbn. intros [= <-]. exists (set_doubleTap m (applyModifierToken m emptyParsedKeybinding)).
    split_and!; [by destruct m; apply (parse_double_tap _) | by destruct m | done | right; by exists m | done].
Qed.

(** A normalized binding is its own normal form: what the settings store and show is
    accepted again, unchanged, wherever it is read back. *)
Theorem normalize_idempotent binding bare value :
  normalizeKeybindingWithOptions binding bare = valid value ->
  normalizeKeybindingWithOptions value bare = valid value.
Proof.
  intros H. destruct (normalized_parses _ _ _ H) as (p & Hp & Hv & Hm & Hs & Hb). unfold normalizeKeybindingWithOptions.
  rewrite Hp, Hm. destruct (pk_doubleTap p) eqn:Ed; [by rewrite Hv|]. specialize (Hb eq_refl).
  destruct (pk_mod p), (pk_meta p), (pk_control p), (pk_alt p), (pk_shift p && _), (bare && _); by rewrite ?Hv.
Qed.
End canonical.

Lemma normalize_idempotent_witness :
  normalizeKeybindingWithOptions (K := ascii_case) (js " cmdorctrl+ Pgup ") false = valid (js "Mod+PageUp") /\
  normalizeKeybindingWithOptions (K := ascii_case) (js "Mod+PageUp") false = valid (js "Mod+PageUp").
Proof.
  split; [vm_compute; reflexivity|]. pose proof ascii_case_laws.
  apply (normalize_idempotent (K := ascii_case) (js " cmdorctrl+ Pgup ")). vm_compute. reflexivity.
Defined.

Example example_normal : normalizeKeybindingWithOptions (K := ascii_case) (js " ctrl+ Shift+p ") false = valid (js "Ctrl+Shift+P").
Proof. vm_compute. reflexivity. Qed.
