(* ===== verification/KeyMatching.v ===== *)
(** Which key a press names, and whether a binding matches it
    (packages/protocol/typescript/src/keybindings: input.ts, matching.ts up to
    [keybindingMatchesInput], the recording of a press): two bindings that match one press
    are the same chord (but for the keys + and - of the numeric pad), and a recorded press
    is matched by what was recorded. *)

From stdpp Require Import base list sets.
From Stdlib Require Import ZArith Lia ZifyBool String.
From S2P Require Import Prelude JsText JsRecord Json KeySyntax.

Open Scope Z_scope.

#[local] Set Warnings "-clear-no-such-hyp".

(** ** input.ts *)

Definition MODIFIER_KEYS : list jsstring :=
  [js "Alt"; js "AltGraph"; js "Control"; js "Meta"; js "Shift"; js "OS"; js "Fn"; js "FnLock"; js "Hyper";
   js "Super"; js "Symbol"; js "SymbolLock"].

Definition PUNCTUATION_KEY_TOKENS : list jsstring :=
  [js "BracketLeft"; js "BracketRight"; js "Minus"; js "Underscore"; js "Equal"; js "Plus"; js "Comma"; js "Period";
   js "Slash"; js "Backslash"; js "Semicolon"; js "Quote"; js "Backquote"].

Definition has_text (l : list jsstring) (s : jsstring) : bool := existsb (text_eqb s) l.

Definition PHYSICAL_CODE_FALLBACK_KEYS : list jsstring := [[]; js "Dead"; js "Unidentified"].

Definition SHIFTED_PUNCTUATION_KEY_TOKENS : jsrecord jsstring :=
  [(js "<", js "Comma"); (js ">", js "Period"); (js "?", js "Slash"); (js "|", js "Backslash"); (js ":", js "Semicolon");
   ([34], js "Quote"); (js "~", js "Backquote")].

Definition key_of (input : KeybindingInput) : jsstring := default [] (ki_key input).
Definition code_of (input : KeybindingInput) : jsstring := default [] (ki_code input).

Definition isPunctuationKeyToken (token : option jsstring) : bool :=
  match token with Some token => has_text PUNCTUATION_KEY_TOKENS token | None => false end.

Definition is_mac (platform : jsstring) : bool :=
  match getKeybindingPlatform platform with darwin => true | _ => false end.

(** [code.startsWith(prefix)], with one more unit. *)
Definition is_coded (prefix code : jsstring) : bool :=
  text_eqb (take (List.length prefix) code) prefix && Nat.eqb (List.length code) (S (List.length prefix)).

Section case.
Context `{K : CaseMapping}.

Definition logicalKeyTokenFromInput (input : KeybindingInput) : option jsstring :=
  let key := key_of input in
  if has_text MODIFIER_KEYS key then None
  else match normalizeKeyToken key with
       | Some token => Some token
       | None => if hasModifier input held_shift then rec_get key SHIFTED_PUNCTUATION_KEY_TOKENS else None
       end.

Definition canUsePhysicalCodeFallback (input : KeybindingInput) : bool :=
  has_text PHYSICAL_CODE_FALLBACK_KEYS (key_of input).

Definition isLatinShortcutKey (key : jsstring) : bool :=
  Nat.eqb (List.length key) 1 &&
  (str_leb (js "A") (toUpperCase key) && str_leb (toUpperCase key) (js "Z") || str_leb (js "0") key && str_leb key (js "9")).

Definition shouldUseNonLatinShortcutPhysicalFallback (input : KeybindingInput) (platform : jsstring) : bool :=
  if is_mac platform then false
  else if negb (hasModifier input held_control || hasModifier input held_meta) then false
  else if hasModifier input held_control && hasModifier input held_alt then false
  else match logicalKeyTokenFromInput input with
       | Some _ => false
       | None =>
           let key := key_of input in
           negb (text_eqb key []) && negb (has_text MODIFIER_KEYS key) && negb (isLatinShortcutKey key)
       end.

Definition canFallBackToPhysicalCode (input : KeybindingInput) (platform : jsstring) : bool :=
  canUsePhysicalCodeFallback input || shouldUseNonLatinShortcutPhysicalFallback input platform.

Definition physicalCodeKeyTokenFromInput (input : KeybindingInput) : option jsstring :=
  let code := code_of input in
  if is_coded (js "Key") code then Some (toUpperCase (drop 3 code))
  else if is_coded (js "Digit") code then Some (drop 5 code)
  else normalizeKeyToken code.

Definition numpadCodeKeyTokenFromInput (input : KeybindingInput) : option jsstring :=
  let code := code_of input in
  if text_eqb code (js "NumpadAdd") || text_eqb code (js "NumpadSubtract") then normalizeKeyToken code else None.

Definition shouldUseMacOptionComposedCaptureFallback (input : KeybindingInput) (platform : jsstring) : bool :=
  if negb (is_mac platform) || negb (hasModifier input held_alt) || has_text MODIFIER_KEYS (key_of input) then false
  else match physicalCodeKeyTokenFromInput input with
       | Some token => if text_eqb token [] then false else is_letter token || isPunctuationKeyToken (Some token)
       | None => false
       end.

(** An empty token counts as none. *)
Definition token_given (token : option jsstring) : option jsstring :=
  match token with Some [] => None | _ => token end.

Definition keyTokenFromInput (input : KeybindingInput) (platform : jsstring) : option jsstring :=
  match token_given (numpadCodeKeyTokenFromInput input) with
  | Some token => Some token
  | None =>
      match token_given (logicalKeyTokenFromInput input) with
      | Some token => Some token
      | None =>
          if negb (canUsePhysicalCodeFallback input) && negb (shouldUseMacOptionComposedCaptureFallback input platform)
             && negb (shouldUseNonLatinShortcutPhysicalFallback input platform)
          then None else physicalCodeKeyTokenFromInput input
      end
  end.

Definition canonicalDoubleTapToken (m : physical_modifier) (platform : jsstring) : ModifierToken :=
  let isMac := text_eqb platform (js "darwin") in
  match m with
  | phys_Cmd => if isMac then Mod else Cmd
  | phys_Ctrl => if negb isMac then Mod else Ctrl
  | _ => token_of m
  end.

Definition keybindingFromInputWithOptions (input : KeybindingInput) (platform : jsstring) (bare : bool)
    : KeybindingValidationResult :=
  match ki_doubleTapModifier input with
  | Some m => normalizeKeybindingWithOptions (js "DoubleTap+" ++ modifier_text (canonicalDoubleTapToken m platform)) bare
  | None =>
      match token_given (keyTokenFromInput input platform) with
      | None => invalid (js "Press a key, not only a modifier.")
      | Some key =>
          let isMac := is_mac platform in
          let primary := if isMac then hasModifier input held_meta else hasModifier input held_control in
          normalizeKeybindingWithOptions (join (js "+")
            ((if primary then [js "Mod"] else []) ++ (if isMac && hasModifier input held_control then [js "Ctrl"] else [])
             ++ (if negb isMac && hasModifier input held_meta then [js "Cmd"] else [])
             ++ (if hasModifier input held_alt then [js "Alt"] else []) ++ (if hasModifier input held_shift then [js "Shift"] else [])
             ++ [key])) bare
      end
  end.

(** ** matching.ts *)

Record held := mkHeld { h_meta : bool; h_control : bool; h_alt : bool; h_shift : bool }.

Definition platformModifiers (parsed : ParsedKeybinding) (platform : jsstring) : held :=
  let isMac := text_eqb platform (js "darwin") in
  mkHeld (pk_meta parsed || (pk_mod parsed && isMac)) (pk_control parsed || (pk_mod parsed && negb isMac))
    (pk_alt parsed) (pk_shift parsed).

Definition modifierStateMatches (parsed : ParsedKeybinding) (input : KeybindingInput) (platform : jsstring) : bool :=
  let expected := platformModifiers parsed platform in
  Bool.eqb (hasModifier input held_meta) (h_meta expected) && Bool.eqb (hasModifier input held_control) (h_control expected)
  && Bool.eqb (hasModifier input held_alt) (h_alt expected) && Bool.eqb (hasModifier input held_shift) (h_shift expected).

Definition no_logical_key (input : KeybindingInput) : bool :=
  match logicalKeyTokenFromInput input with None => true | Some _ => false end.

Definition shouldUseMacOptionLetterPhysicalFallback (parsed : ParsedKeybinding) (input : KeybindingInput)
    (platform : jsstring) : bool :=
  is_mac platform && pk_alt parsed && hasModifier input held_alt && no_logical_key input.

Definition shouldUseMacOptionPunctuationPhysicalFallback (parsed : ParsedKeybinding) (input : KeybindingInput)
    (platform : jsstring) : bool :=
  is_mac platform && pk_alt parsed && hasModifier input held_alt && no_logical_key input.

Definition letterKeyMatches (input : KeybindingInput) (letter : jsstring) (parsed : ParsedKeybinding)
    (platform : jsstring) : bool :=
  let physical := (canFallBackToPhysicalCode input platform || shouldUseMacOptionLetterPhysicalFallback parsed input platform)
                  && bool_decide (ki_code input = Some (js "Key" ++ toUpperCase letter)) in
  match logicalKeyTokenFromInput input with
  | Some logicalKey => if is_letter logicalKey then text_eqb logicalKey (toUpperCase letter) else physical
  | None => physical
  end.

Definition digitKeyMatches (input : KeybindingInput) (digit platform : jsstring) : bool :=
  let physical := canFallBackToPhysicalCode input platform && bool_decide (ki_code input = Some (js "Digit" ++ digit)) in
  match logicalKeyTokenFromInput input with
  | Some logicalKey => if is_digit_token logicalKey then text_eqb logicalKey digit else physical
  | None => physical
  end.

Definition semanticPunctuationKey (input : KeybindingInput) : option jsstring :=
  let logicalKey := logicalKeyTokenFromInput input in
  if isPunctuationKeyToken logicalKey then logicalKey else None.

Definition physicalPunctuationKey (input : KeybindingInput) : option jsstring :=
  let physicalKey := physicalCodeKeyTokenFromInput input in
  if isPunctuationKeyToken physicalKey then physicalKey else None.

Definition shouldUseSemanticPunctuation (parsed : ParsedKeybinding) (input : KeybindingInput) (platform : jsstring) : bool :=
  negb (negb (is_mac platform) && pk_mod parsed && pk_alt parsed && hasModifier input held_control
        && hasModifier input held_alt && negb (hasModifier input held_meta)
        && match physicalPunctuationKey input with None => true | Some _ => false end).

Definition is_token (token : option jsstring) (key : jsstring) : bool :=
  match token with Some token => text_eqb token key | None => false end.

Definition keyMatches (parsedKey : jsstring) (input : KeybindingInput) (parsed : ParsedKeybinding) (platform : jsstring) : bool :=
  if is_letter parsedKey then letterKeyMatches input parsedKey parsed platform
  else if is_digit_token parsedKey then digitKeyMatches input parsedKey platform
  else if text_eqb parsedKey (js "NumpadAdd") || text_eqb parsedKey (js "NumpadSubtract") then
    is_token (numpadCodeKeyTokenFromInput input) parsedKey || is_token (logicalKeyTokenFromInput input) parsedKey
  else if isPunctuationKeyToken (Some parsedKey) then
    match semanticPunctuationKey input with
    | Some semanticKey => if negb (shouldUseSemanticPunctuation parsed input platform) then false else text_eqb semanticKey parsedKey
    | None =>
        (canFallBackToPhysicalCode input platform || shouldUseMacOptionPunctuationPhysicalFallback parsed input platform)
        && is_token (physicalPunctuationKey input) parsedKey
    end
  else match logicalKeyTokenFromInput input with
       | Some logicalKey => text_eqb logicalKey parsedKey
       | None => canFallBackToPhysicalCode input platform && is_token (physicalCodeKeyTokenFromInput input) parsedKey
       end.

Definition resolveModifierToken (m : ModifierToken) (platform : jsstring) : held_modifier :=
  match m with
  | Mod => if text_eqb platform (js "darwin") then held_meta else held_control
  | Cmd => held_meta
  | Ctrl => held_control
  | Alt => held_alt
  | Shift => held_shift
  end.

Definition keybindingMatchesInput (binding : jsstring) (input : KeybindingInput) (platform : jsstring) : bool :=
  match parseKeybinding binding with
  | None => false
  | Some parsed =>
      match pk_doubleTap parsed, ki_doubleTapModifier input with
      | Some m, Some n => bool_decide (resolveModifierToken m platform = resolveModifierToken (token_of n) platform)
      | Some _, None => false
      | None, Some _ => false
      | None, None => modifierStateMatches parsed input platform && keyMatches (pk_key parsed) input parsed platform
      end
  end.

(** ** conflict-identity.ts *)

Definition held_text (m : held_modifier) : jsstring :=
  match m with held_alt => js "alt" | held_meta => js "meta" | held_control => js "control" | held_shift => js "shift" end.

Definition keybindingConflictIdentityForParsed (parsed : ParsedKeybinding) (platform : jsstring) : jsstring :=
  match pk_doubleTap parsed with
  | Some m => js "DoubleTap:" ++ held_text (resolveModifierToken m platform)
  | None =>
      let modifiers := platformModifiers parsed platform in
      join (js "+") [if h_meta modifiers then js "Meta" else []; if h_control modifiers then js "Control" else [];
                     if h_alt modifiers then js "Alt" else []; if h_shift modifiers then js "Shift" else [];
                     pk_key parsed]
  end.

Definition keybindingConflictIdentity (binding platform : jsstring) : jsstring :=
  match parseKeybinding binding with
  | Some parsed => keybindingConflictIdentityForParsed parsed platform
  | None => binding
  end.
End case.

(** ** A press names one key *)

(** What the press names: the key it produced, or the physical key when it produced none. *)
Definition pressed `{K : CaseMapping} (input : KeybindingInput) : option jsstring :=
  match logicalKeyTokenFromInput input with
  | Some token => Some token
  | None => physicalCodeKeyTokenFromInput input
  end.

Definition numpad_code (input : KeybindingInput) : bool :=
  text_eqb (code_of input) (js "NumpadAdd") || text_eqb (code_of input) (js "NumpadSubtract").

Section pressed.
Context `{K : CaseMapping} `{!CaseMappingLaws K}.

Lemma fallback_not_logical input platform : canFallBackToPhysicalCode input platform = true ->
  logicalKeyTokenFromInput input = None.
Proof.
  unfold canFallBackToPhysicalCode. rewrite orb_true_iff. intros [H|H].
  - unfold canUsePhysicalCodeFallback, has_text, PHYSICAL_CODE_FALLBACK_KEYS in H. cbn [existsb] in H.
    rewrite !orb_true_iff, !text_eqb_true in H. unfold logicalKeyTokenFromInput.
    destruct H as [H|[H|[H|]]]; [..|done]; rewrite H; (destruct (has_text MODIFIER_KEYS _); [done|]);
      rewrite normalizeKeyToken_ascii by done; vm_compute (normalizeKeyToken _); by destruct (hasModifier input held_shift).
  - unfold shouldUseNonLatinShortcutPhysicalFallback in H. repeat case_match; done.
Qed.

Lemma letter_upper s : is_letter s = true -> toUpperCase s = s.
Proof.
  intros H%letter_elem. unfold single_units in H. apply list_elem_of_fmap in H as (n & -> & Hn).
  apply elem_of_seq in Hn. rewrite upper_ascii by (cbn; unfold is_ascii; lia). cbn. unfold ascii_upper.
  destruct ((97 <=? Z.of_nat n) && (Z.of_nat n <=? 122)) eqn:E; [lia | done].
Qed.

Lemma physical_letter input letter : is_letter letter = true -> ki_code input = Some (js "Key" ++ toUpperCase letter) ->
  physicalCodeKeyTokenFromInput input = Some letter.
Proof.
  intros Hl Hc. pose proof (letter_upper letter Hl) as Hu. unfold physicalCodeKeyTokenFromInput, code_of. rewrite Hc, Hu.
  apply letter_elem in Hl as Hel. unfold single_units in Hel. apply list_elem_of_fmap in Hel as (n & -> & _).
  cbn in Hu |- *. by rewrite Hu.
Qed.

Lemma physical_digit input digit : is_digit_token digit = true -> ki_code input = Some (js "Digit" ++ digit) ->
  physicalCodeKeyTokenFromInput input = Some digit.
Proof.
  intros Hd Hc. unfold physicalCodeKeyTokenFromInput, code_of. rewrite Hc.
  apply digit_elem in Hd. unfold single_units in Hd. by apply list_elem_of_fmap in Hd as (n & -> & _).
Qed.

Lemma mac_letter_not_logical parsed input platform : shouldUseMacOptionLetterPhysicalFallback parsed input platform = true ->
  logicalKeyTokenFromInput input = None.
Proof.
  unfold shouldUseMacOptionLetterPhysicalFallback, no_logical_key. rewrite !andb_true_iff. intros [_ H]. by case_match.
Qed.

Lemma is_token_true token key : is_token token key = true <-> token = Some key.
Proof. unfold is_token. destruct token; [rewrite text_eqb_true; naive_solver | done]. Qed.

Lemma letterKeyMatches_pressed input letter parsed platform : is_letter letter = true ->
  letterKeyMatches input letter parsed platform = true -> pressed input = Some letter.
Proof.
  intros Hl. unfold letterKeyMatches, pressed. set (physical := _ && bool_decide _).
  assert (Hphys : physical = true -> logicalKeyTokenFromInput input = None /\ physicalCodeKeyTokenFromInput input = Some letter).
  { unfold physical. rewrite andb_true_iff, orb_true_iff, bool_decide_eq_true. intros [Hf Hc]. split; [|by apply physical_letter].
    destruct Hf; [by eapply fallback_not_logical | by eapply mac_letter_not_logical]. }
  destruct (logicalKeyTokenFromInput input) as [token|].
  - destruct (is_letter token); [|intros H; by destruct (Hphys H)]. rewrite text_eqb_true, letter_upper by done. congruence.
  - intros H. by destruct (Hphys H).
Qed.

Lemma digitKeyMatches_pressed input digit platform : is_digit_token digit = true ->
  digitKeyMatches input digit platform = true -> pressed input = Some digit.
Proof.
  intros Hd. unfold digitKeyMatches, pressed. set (physical := _ && bool_decide _).
  assert (Hphys : physical = true -> logicalKeyTokenFromInput input = None /\ physicalCodeKeyTokenFromInput input = Some digit).
  { unfold physical. rewrite andb_true_iff, bool_decide_eq_true. intros [Hf Hc].
    split; [by eapply fallback_not_logical | by apply physical_digit]. }
  destruct (logicalKeyTokenFromInput input) as [token|].
  - destruct (is_digit_token token); [|intros H; by destruct (Hphys H)]. rewrite text_eqb_true. congruence.
  - intros H. by destruct (Hphys H).
Qed.

Lemma keyMatches_pressed key input parsed platform : numpad_code input = false ->
  keyMatches key input parsed platform = true -> pressed input = Some key.
Proof.
  intros Hnum. unfold keyMatches. destruct (is_letter key) eqn:Hl; [by apply letterKeyMatches_pressed|].
  destruct (is_digit_token key) eqn:Hd; [by apply digitKeyMatches_pressed|]. unfold pressed.
  destruct (_ || text_eqb key _).
  { unfold numpadCodeKeyTokenFromInput, numpad_code in *. rewrite Hnum. cbn. rewrite is_token_true. by intros ->. }
  destruct (isPunctuationKeyToken (Some key)).
  - unfold semanticPunctuationKey. destruct (isPunctuationKeyToken (logicalKeyTokenFromInput input)) eqn:Hp.
    + destruct (logicalKeyTokenFromInput input) as [token|]; [|done]. destruct (shouldUseSemanticPunctuation _ _ _); [|done]. cbn.
      rewrite text_eqb_true. congruence.
    + rewrite andb_true_iff, orb_true_iff, is_token_true. intros [Hf Hph].
      assert (logicalKeyTokenFromInput input = None) as ->.
      { destruct Hf; [by eapply fallback_not_logical | by eapply mac_letter_not_logical]. }
      unfold physicalPunctuationKey in Hph. by case_match.
  - destruct (logicalKeyTokenFromInput input); [rewrite text_eqb_true; congruence|].
    rewrite andb_true_iff, is_token_true. by intros [_ ?].
Qed.

Lemma modifiers_held parsed input platform : modifierStateMatches parsed input platform = true ->
  platformModifiers parsed platform =
    mkHeld (hasModifier input held_meta) (hasModifier input held_control) (hasModifier input held_alt) (hasModifier input held_shift).
Proof.
  unfold modifierStateMatches. rewrite !andb_true_iff, !Bool.eqb_true_iff. intros [[[-> ->] ->] ->].
  by destruct (platformModifiers parsed platform).
Qed.

(** The identity of a press: that of every binding it matches. *)
Definition press_identity (input : KeybindingInput) (platform : jsstring) : jsstring :=
  match ki_doubleTapModifier input with
  | Some m => js "DoubleTap:" ++ held_text (resolveModifierToken (token_of m) platform)
  | None =>
      join (js "+") [if hasModifier input held_meta then js "Meta" else []; if hasModifier input held_control then js "Control" else [];
                     if hasModifier input held_alt then js "Alt" else []; if hasModifier input held_shift then js "Shift" else [];
                     default [] (pressed input)]
  end.

Lemma match_identity binding input platform : numpad_code input = false ->
  keybindingMatchesInput binding input platform = true ->
  keybindingConflictIdentity binding platform = press_identity input platform.
Proof.
  intros Hnum. unfold keybindingMatchesInput, keybindingConflictIdentity, keybindingConflictIdentityForParsed, press_identity.
  destruct (parseKeybinding binding) as [p|]; [|done]. destruct (pk_doubleTap p), (ki_doubleTapModifier input); try done.
  - rewrite bool_decide_eq_true. by intros ->.
  - rewrite andb_true_iff. intros [Hm Hk]. by rewrite (modifiers_held _ _ _ Hm), (keyMatches_pressed _ _ _ _ Hnum Hk).
Qed.
End pressed.

(** ** Recording a press *)

(** The codes of keyboard events: [Key] with a letter, [Digit] with a digit, and names, which
    are the token they mean if they mean one. *)
Definition real_code `{K : CaseMapping} (input : KeybindingInput) : bool :=
  let code := code_of input in
  if is_coded (js "Key") code then is_letter (drop 3 code)
  else if is_coded (js "Digit") code then is_digit_token (drop 5 code)
  else match normalizeKeyToken code with
       | Some token => text_eqb token code && negb (is_letter code) && negb (is_digit_token code)
       | None => true
       end.

(** Ctrl+Alt with a punctuation mark that the physical key alone does not give: how AltGr is
    reported. *)
Definition altgr_text `{K : CaseMapping} (input : KeybindingInput) (platform : jsstring) : bool :=
  negb (is_mac platform) && hasModifier input held_control && hasModifier input held_alt && negb (hasModifier input held_meta)
  && isPunctuationKeyToken (logicalKeyTokenFromInput input)
  && match physicalPunctuationKey input with None => true | Some _ => false end.

Lemma keys_named : forallb (fun key =>
  negb (text_eqb key []) && (if is_letter key || is_digit_token key then true else Nat.ltb 1 (List.length key))) key_tokens = true.
Proof. vm_compute. reflexivity. Qed.

Section recording.
Context `{K : CaseMapping} `{!CaseMappingLaws K}.

Lemma key_nonempty key : is_key key -> key <> [].
Proof.
  intros H%list_elem_of_In ->. pose proof keys_named as Hall. rewrite forallb_forall in Hall. specialize (Hall _ H). done.
Qed.

Lemma token_given_key token key : token_given token = Some key -> token = Some key.
Proof. destruct token as [[|]|]; cbn; congruence. Qed.

Lemma token_given_none token : (forall key, token = Some key -> is_key key) -> token_given token = None -> token = None.
Proof. intros H. destruct token as [[|]|]; cbn; try done. intros _. by destruct (key_nonempty [] (H [] eq_refl)). Qed.

Lemma shifted_keys : forallb (fun e => bool_decide (snd e ∈ key_tokens)) SHIFTED_PUNCTUATION_KEY_TOKENS = true.
Proof. vm_compute. reflexivity. Qed.

Lemma logical_key input token : logicalKeyTokenFromInput input = Some token -> is_key token.
Proof.
  unfold logicalKeyTokenFromInput. destruct (has_text _ _); [done|]. destruct (normalizeKeyToken _) eqn:E.
  - intros [= <-]. by eapply normalized_token.
  - destruct (hasModifier _ _); [|done]. intros H%rec_get_elem%list_elem_of_In.
    pose proof shifted_keys as Hall. rewrite forallb_forall in Hall. specialize (Hall _ H). by apply bool_decide_eq_true in Hall.
Qed.

Lemma numpad_key input token : numpadCodeKeyTokenFromInput input = Some token -> token = code_of input /\ numpad_code input = true.
Proof.
  unfold numpadCodeKeyTokenFromInput, numpad_code. destruct (text_eqb (code_of input) (js "NumpadAdd")) eqn:E1.
  - apply text_eqb_true in E1. rewrite E1, normalizeKeyToken_ascii by done. vm_compute (normalizeKeyToken _). by intros [= <-].
  - destruct (text_eqb (code_of input) (js "NumpadSubtract")) eqn:E2; [|done]. apply text_eqb_true in E2.
    rewrite E2, normalizeKeyToken_ascii by done. vm_compute (normalizeKeyToken _). by intros [= <-].
Qed.

Lemma coded_split prefix code : is_coded prefix code = true -> code = prefix ++ drop (List.length prefix) code.
Proof. unfold is_coded. rewrite andb_true_iff, text_eqb_true. intros [H _].
  rewrite <- H at 1. by rewrite take_drop. Qed.

(** The physical key of a real code. *)
Lemma physical_cases input token : real_code input = true -> physicalCodeKeyTokenFromInput input = Some token ->
  is_key token /\
  (is_letter token = true /\ ki_code input = Some (js "Key" ++ toUpperCase token) \/
   is_digit_token token = true /\ ki_code input = Some (js "Digit" ++ token) \/
   is_letter token = false /\ is_digit_token token = false /\ code_of input = token).
Proof.
  unfold real_code, physicalCodeKeyTokenFromInput. intros Hr Ht.
  assert (Hcode : code_of input <> [] -> ki_code input = Some (code_of input)) by (unfold code_of; by destruct (ki_code input)).
  destruct (is_coded (js "Key") (code_of input)) eqn:E1; [|destruct (is_coded (js "Digit") (code_of input)) eqn:E2].
  - injection Ht as <-. rewrite letter_upper by done. rewrite (letter_upper _ Hr). unfold is_key, key_tokens.
    rewrite !elem_of_app. split; [left; by apply letter_elem|]. left. split; [done|]. rewrite (coded_split _ _ E1) in Hcode at 2.
    apply Hcode. intros H0. by rewrite H0 in E1.
  - injection Ht as <-. unfold is_key, key_tokens. rewrite !elem_of_app. split; [right; left; by apply digit_elem|].
    right; left. split; [done|]. rewrite (coded_split _ _ E2) in Hcode at 2. apply Hcode. intros H0. by rewrite H0 in E2.
  - split; [by eapply normalized_token|]. rewrite Ht in Hr. rewrite !andb_true_iff, !negb_true_iff, text_eqb_true in Hr.
    destruct Hr as [[-> Hl] Hd]. auto.
Qed.

(** The chord a recorded press is. *)
Definition recorded (input : KeybindingInput) (platform key : jsstring) : ParsedKeybinding :=
  let isMac := is_mac platform in
  mkParsed (if isMac then hasModifier input held_meta else hasModifier input held_control)
    (negb isMac && hasModifier input held_meta) (isMac && hasModifier input held_control)
    (hasModifier input held_alt) (hasModifier input held_shift) key None.

Lemma is_mac_darwin platform : is_mac platform = text_eqb platform (js "darwin").
Proof. unfold is_mac, getKeybindingPlatform. by repeat case_match. Qed.

Lemma recorded_modifiers input platform key : modifierStateMatches (recorded input platform key) input platform = true.
Proof.
  unfold modifierStateMatches, platformModifiers, recorded. rewrite is_mac_darwin.
  destruct (text_eqb platform (js "darwin")), (hasModifier input held_meta), (hasModifier input held_control),
    (hasModifier input held_alt), (hasModifier input held_shift); done.
Qed.

Lemma numpad_tokens key : text_eqb key (js "NumpadAdd") || text_eqb key (js "NumpadSubtract") = true ->
  is_letter key = false /\ is_digit_token key = false /\ isPunctuationKeyToken (Some key) = false.
Proof. rewrite orb_true_iff, !text_eqb_true. by intros [-> | ->]. Qed.

(** The key that was produced. *)
Lemma logical_matches input platform key parsed : logicalKeyTokenFromInput input = Some key ->
  isPunctuationKeyToken (Some key) && negb (shouldUseSemanticPunctuation parsed input platform) = false ->
  keyMatches key input parsed platform = true.
Proof.
  intros Hl Hs. unfold keyMatches, letterKeyMatches, digitKeyMatches, semanticPunctuationKey. rewrite Hl.
  destruct (is_letter key) eqn:El; [by rewrite letter_upper, text_eqb_refl|].
  destruct (is_digit_token key) eqn:Ed; [by rewrite text_eqb_refl|].
  destruct (_ || text_eqb key _); [cbn; by rewrite text_eqb_refl, orb_true_r|].
  destruct (isPunctuationKeyToken (Some key)); [|apply text_eqb_refl]. rewrite text_eqb_refl. by destruct (shouldUseSemanticPunctuation _ _ _).
Qed.

(** The physical key, when none was produced. *)
Lemma physical_matches input platform key : real_code input = true -> numpad_code input = false ->
  logicalKeyTokenFromInput input = None -> physicalCodeKeyTokenFromInput input = Some key ->
  canFallBackToPhysicalCode input platform = true \/ shouldUseMacOptionComposedCaptureFallback input platform = true ->
  keyMatches key input (recorded input platform key) platform = true.
Proof.
  intros Hr Hnum Hl Hph Hfall. destruct (physical_cases input key Hr Hph) as [Hkey Hcase].
  assert (Hmac : shouldUseMacOptionComposedCaptureFallback input platform = true ->
    is_letter key || isPunctuationKeyToken (Some key) = true /\
    shouldUseMacOptionLetterPhysicalFallback (recorded input platform key) input platform = true).
  { unfold shouldUseMacOptionComposedCaptureFallback, shouldUseMacOptionLetterPhysicalFallback, no_logical_key. rewrite Hl, Hph. cbn [pk_alt recorded].
    destruct (is_mac platform), (hasModifier input held_alt), (has_text MODIFIER_KEYS (key_of input)), (text_eqb key []);
      try done; intros H'; by split. }
  assert (Hany : is_letter key || isPunctuationKeyToken (Some key) = true ->
    canFallBackToPhysicalCode input platform || shouldUseMacOptionLetterPhysicalFallback (recorded input platform key) input platform = true).
  { intros _. destruct Hfall as [-> | Hf]; [done|]. destruct (Hmac Hf) as [_ ->]. by rewrite orb_true_r. }
  assert (Honly : is_letter key || isPunctuationKeyToken (Some key) = false -> canFallBackToPhysicalCode input platform = true).
  { intros Hno. destruct Hfall as [?|Hf]; [done|]. destruct (Hmac Hf). congruence. }
  unfold keyMatches, letterKeyMatches, digitKeyMatches, semanticPunctuationKey. rewrite Hl.
  destruct Hcase as [[El Hc]|[[Ed Hc]|(El & Ed & Hc)]].
  - rewrite El in *. rewrite Hany by done. by rewrite bool_decide_true.
  - assert (El : is_letter key = false).
    { apply digit_elem in Ed. unfold single_units in Ed. apply list_elem_of_fmap in Ed as (n & -> & Hn). apply elem_of_seq in Hn.
      unfold is_letter, unit_between. cbn. repeat case_match; try done; lia. }
    assert (Hp : isPunctuationKeyToken (Some key) = false).
    { apply digit_elem in Ed. unfold single_units in Ed. apply list_elem_of_fmap in Ed as (n & -> & Hn).
      unfold isPunctuationKeyToken, has_text, PUNCTUATION_KEY_TOKENS. cbn [existsb].
      rewrite !orb_false_iff. repeat split; by apply bool_decide_eq_false. }
    rewrite El, Ed. rewrite Honly by by rewrite El, Hp. by rewrite bool_decide_true.
  - rewrite El, Ed in *. destruct (_ || text_eqb key _) eqn:En.
    { unfold numpad_code in Hnum. rewrite Hc in Hnum. congruence. }
    destruct (isPunctuationKeyToken (Some key)) eqn:Ep.
    + unfold physicalPunctuationKey. rewrite Hph, Ep. cbn. rewrite text_eqb_refl, andb_true_r. by apply Hany.
    + rewrite Honly by done. rewrite Hph. cbn. apply text_eqb_refl.
Qed.

(** The key of a recorded press matches it. *)
Lemma recorded_key_matches input platform key : real_code input = true -> altgr_text input platform = false ->
  keyTokenFromInput input platform = Some key ->
  is_key key /\ keyMatches key input (recorded input platform key) platform = true.
Proof.
  intros Hr Halt. unfold keyTokenFromInput. destruct (token_given (numpadCodeKeyTokenFromInput input)) as [t|] eqn:En.
  { intros [= <-]. apply token_given_key in En as Hn. destruct (numpad_key _ _ Hn) as [Ht Hnum]. split.
    - unfold numpadCodeKeyTokenFromInput in Hn. case_match; [by eapply normalized_token | done].
    - unfold keyMatches. rewrite Ht in *. destruct (numpad_tokens _ Hnum) as (-> & -> & _).
      unfold numpad_code in Hnum. rewrite Hnum, Hn. cbn. by rewrite text_eqb_refl. }
  assert (Hnum : numpad_code input = false).
  { apply token_given_none in En; [|intros k Hk; destruct (numpad_key _ _ Hk) as [-> Hnum];
      unfold numpadCodeKeyTokenFromInput in Hk; case_match; [by eapply normalized_token | done]].
    destruct (numpad_code input) eqn:Hnum; [|done]. unfold numpadCodeKeyTokenFromInput, numpad_code in *. rewrite Hnum in En.
    apply orb_true_iff in Hnum. rewrite !text_eqb_true in Hnum. by destruct Hnum as [H|H]; rewrite H, normalizeKeyToken_ascii in En. }
  destruct (token_given (logicalKeyTokenFromInput input)) as [t|] eqn:El.
  { intros [= <-]. apply token_given_key in El. split; [by eapply logical_key|]. apply logical_matches; [done|].
    unfold shouldUseSemanticPunctuation. rewrite negb_involutive. unfold altgr_text in Halt. rewrite El in Halt.
    destruct (isPunctuationKeyToken (Some t)); [|done]. cbn [andb]. cbn [pk_mod pk_alt recorded].
    destruct (is_mac platform); [done|]. cbn [negb andb] in *.
    destruct (hasModifier input held_control), (hasModifier input held_alt), (hasModifier input held_meta); done. }
  apply token_given_none in El; [|apply logical_key].
  destruct (canUsePhysicalCodeFallback input) eqn:E1, (shouldUseMacOptionComposedCaptureFallback input platform) eqn:E2,
    (shouldUseNonLatinShortcutPhysicalFallback input platform) eqn:E3; cbn [negb andb]; try done;
    intros Hph; (split; [by eapply physical_cases|]); apply physical_matches; try done;
    unfold canFallBackToPhysicalCode; rewrite ?E1, ?E3; auto.
Qed.

Lemma normalize_double_tap m bare :
  normalizeKeybindingWithOptions (js "DoubleTap+" ++ modifier_text m) bare = valid (js "DoubleTap+" ++ modifier_text m).
Proof. unfold normalizeKeybindingWithOptions. rewrite parse_double_tap. by destruct m. Qed.

(** C20. A shortcut that is recorded from a press is matched by that press again, on every
    platform, with every layout: for the codes keyboards report, except where AltGr makes
    the punctuation mark. *)
Theorem recorded_press_matches input platform bare binding :
  real_code input = true -> altgr_text input platform = false ->
  keybindingFromInputWithOptions input platform bare = valid binding ->
  keybindingMatchesInput binding input platform = true.
Proof.
  intros Hr Halt. unfold keybindingFromInputWithOptions. destruct (ki_doubleTapModifier input) as [m|] eqn:Em.
  - rewrite normalize_double_tap. intros Hv.
    assert (binding = js "DoubleTap+" ++ modifier_text (canonicalDoubleTapToken m platform)) as -> by congruence.
    unfold keybindingMatchesInput. rewrite parse_double_tap, Em.
    cbn [pk_doubleTap set_doubleTap]. apply bool_decide_eq_true. unfold canonicalDoubleTapToken.
    destruct m, (text_eqb platform (js "darwin")) eqn:Ep; cbn [negb token_of resolveModifierToken]; by rewrite ?Ep.
  - destruct (token_given (keyTokenFromInput input platform)) as [key|] eqn:Ek; [|done]. apply token_given_key in Ek.
    destruct (recorded_key_matches input platform key Hr Halt Ek) as [Hkey Hmatch].
    intros Hv. assert (Hc : chord (recorded input platform key)) by (by split).
    destruct (normalized_parses _ _ _ Hv) as (p & Hp & Hb & _). unfold keybindingMatchesInput. rewrite Hp, Em.
    assert (p = recorded input platform key) as ->.
    { unfold normalizeKeybindingWithOptions in Hv.
      assert (Ht : forall l, l = canonicalizeParsedKeybinding (recorded input platform key) ->
        parseKeybinding l = Some (recorded input platform key)) by (intros l ->; by apply parse_canonical).
      rewrite Ht in Hv by (unfold recorded; by destruct (is_mac platform)).
      destruct (_ && _) in Hv; [done|]. cbn [pk_doubleTap recorded] in Hv. case_match; [done|].
      assert (binding = canonicalizeParsedKeybinding (recorded input platform key)) as -> by congruence.
      rewrite (parse_canonical _ Hc) in Hp. congruence. }
    cbn [pk_doubleTap recorded pk_key]. by rewrite recorded_modifiers, Hmatch.
Qed.
End recording.

Definition press (key code : jsstring) (meta control alt shift : bool) : KeybindingInput :=
  mkInput (Some key) (Some code) (Some alt) (Some meta) (Some control) (Some shift) None None None None None.

Lemma recorded_press_matches_witness :
  keybindingFromInputWithOptions (K := ascii_case) (press (js "{") (js "BracketLeft") false true false true) (js "linux") false
    = valid (js "Mod+Shift+BracketLeft")
  /\ keybindingMatchesInput (K := ascii_case) (js "Mod+Shift+BracketLeft") (press (js "{") (js "BracketLeft") false true false true) (js "linux") = true.
Proof.
  split; [vm_compute; reflexivity|]. pose proof ascii_case_laws.
  apply (recorded_press_matches (K := ascii_case) _ _ false); vm_compute; reflexivity.
Defined.

(** AltGr and 8 of a German keyboard on Windows: it is recorded, and never matches. *)
Lemma altgr_press_never_matches :
  let input := press (js "[") (js "Digit8") false true true false in
  keybindingFromInputWithOptions (K := ascii_case) input (js "win32") false = valid (js "Mod+Alt+BracketLeft")
  /\ keybindingMatchesInput (K := ascii_case) (js "Mod+Alt+BracketLeft") input (js "win32") = false.
Proof. vm_compute. by split. Qed.

(** The + of the numeric pad matches two bindings whose identities differ, so that they are
    not reported as a conflict. *)
Lemma numpad_press_matches_twice :
  let input := press (js "+") (js "NumpadAdd") false true false false in
  keybindingMatchesInput (K := ascii_case) (js "Mod+Plus") input (js "linux") = true
  /\ keybindingMatchesInput (K := ascii_case) (js "Mod+NumpadAdd") input (js "linux") = true
  /\ keybindingConflictIdentity (K := ascii_case) (js "Mod+Plus") (js "linux")
     <> keybindingConflictIdentity (K := ascii_case) (js "Mod+NumpadAdd") (js "linux").
Proof. split_and!; by vm_compute. Qed.
