(* ===== verification/KeyDefinitions.v ===== *)
(** The actions that have keyboard shortcuts
    (packages/protocol/typescript/src/keybindings: definition-1.ts to definition-4.ts,
    definitions.ts), as the tables of the source. *)

From stdpp Require Import base list.
From Stdlib Require Import ZArith String.
From S2P Require Import Prelude JsText JsRecord Json KeySyntax.

Open Scope Z_scope.

#[local] Set Warnings "-clear-no-such-hyp".

Record PlatformBindings := mkPlatformBindings {
  on_darwin : list jsstring;
  on_linux : list jsstring;
  on_win32 : list jsstring
}.

Definition platformBindings (bindings : list jsstring) : PlatformBindings := mkPlatformBindings bindings bindings bindings.

Record KeybindingDefinition := mkDefinition {
  kd_id : jsstring;
  kd_title : jsstring;
  kd_group : jsstring;
  kd_scope : jsstring;
  kd_searchKeywords : list jsstring;
  kd_defaultBindings : PlatformBindings;
  kd_allowInTerminal : bool;
  kd_allowBareKeybindings : bool;
  kd_conflictGroup : option jsstring
}.

Definition KEYBINDING_DEFINITIONS_1 : list KeybindingDefinition := [
  mkDefinition (js "app.commandPalette") (js "Open Command Palette") (js "Global") (js "global")
    [js "shortcut"; js "global"; js "command"; js "search"; js "worktree"; js "file"; js "agent"]
    (platformBindings [js "Mod+K"]) false false None;
  mkDefinition (js "worktree.navigateUp") (js "Previous worktree") (js "Global") (js "global")
    [js "shortcut"; js "global"; js "worktree"; js "previous"; js "up"]
    (platformBindings [js "Mod+Shift+ArrowUp"]) false false None;
  mkDefinition (js "worktree.navigateDown") (js "Next worktree") (js "Global") (js "global")
    [js "shortcut"; js "global"; js "worktree"; js "next"; js "down"]
    (platformBindings [js "Mod+Shift+ArrowDown"]) false false None;
  mkDefinition (js "workspace.create") (js "Create worktree") (js "Global") (js "global")
    [js "shortcut"; js "global"; js "worktree"; js "create"; js "new workspace"]
    (mkPlatformBindings [js "Mod+Alt+Shift+N"] [] []) false false None;
  mkDefinition (js "workspace.rename") (js "Rename worktree") (js "Global") (js "global")
    [js "shortcut"; js "global"; js "worktree"; js "rename"; js "workspace"; js "title"]
    (mkPlatformBindings [js "Mod+Alt+R"] [] []) false false (Some (js "workspace-shell"));
  mkDefinition (js "workspace.delete") (js "Delete Workspace") (js "Global") (js "global")
    [js "shortcut"; js "global"; js "workspace"; js "current workspace"; js "worktree"; js "delete"; js "remove"; js "trash"]
    (platformBindings []) true false None;
  mkDefinition (js "workspace.selectByIndex") (js "Select Workspace 1" ++ [0x2013] ++ js "9") (js "Global") (js "global")
    [js "shortcut"; js "global"; js "workspace"; js "worktree"; js "select"; js "switch"; js "number"; js "digit"; js "1-9"; js "index"]
    (mkPlatformBindings [js "Mod+Alt+1"] [js "Alt+Shift+1"] [js "Alt+Shift+1"]) false false None;
  mkDefinition (js "sidebar.left.toggle") (js "Toggle Sidebar") (js "Global") (js "global")
    [js "shortcut"; js "sidebar"; js "left"]
    (platformBindings [js "Mod+B"]) false false None;
  mkDefinition (js "workspacePanel.toggle") (js "Toggle Workspace Panel") (js "Global") (js "global")
    [js "shortcut"; js "panel"; js "tools"; js "explorer"; js "files"]
    (platformBindings [js "Mod+Shift+L"]) false false None;
  mkDefinition (js "workspacePanel.explorer.toggle") (js "Show Explorer") (js "Global") (js "global")
    [js "shortcut"; js "panel"; js "explorer"; js "files"]
    (platformBindings [js "Mod+Shift+E"]) false false None;
  mkDefinition (js "workspacePanel.search.toggle") (js "Show Search") (js "Global") (js "global")
    [js "shortcut"; js "panel"; js "search"]
    (platformBindings [js "Mod+Shift+F"]) false false None;
  mkDefinition (js "workspacePanel.sourceControl.toggle") (js "Show Changes & Review") (js "Global") (js "global")
    [js "shortcut"; js "panel"; js "source control"; js "git"]
    (platformBindings [js "Mod+Shift+G"]) false false None;
  mkDefinition (js "workspacePanel.review.toggle") (js "Show Review") (js "Global") (js "global")
    [js "shortcut"; js "panel"; js "review"; js "checks"; js "ci"]
    (platformBindings []) false false None;
  mkDefinition (js "workspacePanel.ports.toggle") (js "Show Ports") (js "Global") (js "global")
    [js "shortcut"; js "panel"; js "ports"]
    (mkPlatformBindings [js "Mod+Shift+I"] [] []) false false None;
  mkDefinition (js "sidebar.sleepingWorkspaces.toggle") (js "Toggle Sleeping Workspaces") (js "Global") (js "global")
    [js "shortcut"; js "sidebar"; js "sleeping"; js "asleep"; js "workspaces"; js "worktree"; js "filter"; js "show"; js "hide"]
    (platformBindings []) false false None;
  mkDefinition (js "sidebar.focusWorktreeList") (js "Focus worktree list") (js "Global") (js "global")
    [js "shortcut"; js "sidebar"; js "worktree"; js "focus"]
    (platformBindings [js "Mod+Shift+0"]) false false None].

Definition KEYBINDING_DEFINITIONS_2 : list KeybindingDefinition := [
  mkDefinition (js "zoom.in") (js "Zoom In") (js "Global") (js "global")
    [js "shortcut"; js "zoom"; js "in"; js "scale"]
    (platformBindings [js "Mod+Equal"; js "Mod+Shift+Plus"; js "Mod+NumpadAdd"]) false false None;
  mkDefinition (js "zoom.out") (js "Zoom Out") (js "Global") (js "global")
    [js "shortcut"; js "zoom"; js "out"; js "scale"]
    (platformBindings [js "Mod+Minus"; js "Mod+NumpadSubtract"]) false false None;
  mkDefinition (js "zoom.reset") (js "Reset Size") (js "Global") (js "global")
    [js "shortcut"; js "zoom"; js "reset"; js "size"; js "actual"]
    (platformBindings [js "Mod+0"]) false false None;
  mkDefinition (js "worktree.history.back") (js "Worktree History Back") (js "Global") (js "global")
    [js "shortcut"; js "worktree"; js "history"; js "back"]
    (platformBindings [js "Mod+Shift+ArrowLeft"]) true false None;
  mkDefinition (js "worktree.history.forward") (js "Worktree History Forward") (js "Global") (js "global")
    [js "shortcut"; js "worktree"; js "history"; js "forward"]
    (platformBindings [js "Mod+Shift+ArrowRight"]) true false None;
  mkDefinition (js "tab.newTerminal") (js "New terminal tab") (js "Tabs") (js "tabs")
    [js "shortcut"; js "tab"; js "terminal"; js "new"]
    (mkPlatformBindings [js "Mod+Alt+T"] [] []) false false None;
  mkDefinition (js "tab.newAgent") (js "New agent tab (default agent)") (js "Tabs") (js "tabs")
    [js "shortcut"; js "tab"; js "agent"; js "new"; js "default"; js "launch"]
    (mkPlatformBindings [js "Mod+Alt+Shift+T"] [] []) false false None;
  mkDefinition (js "tab.newBrowser") (js "New browser tab") (js "Tabs") (js "tabs")
    [js "shortcut"; js "tab"; js "browser"; js "new"]
    (mkPlatformBindings [js "Mod+Alt+B"] [] []) false false None;
  mkDefinition (js "tab.newSimulator") (js "New mobile emulator tab") (js "Tabs") (js "tabs")
    [js "shortcut"; js "tab"; js "simulator"; js "emulator"; js "mobile"; js "ios"; js "new"]
    (mkPlatformBindings [js "Mod+Alt+Shift+E"] [] []) false false None;
  mkDefinition (js "tab.newMarkdown") (js "New markdown tab") (js "Tabs") (js "tabs")
    [js "shortcut"; js "tab"; js "markdown"; js "file"; js "new"]
    (mkPlatformBindings [js "Mod+Alt+M"] [] []) false false None;
  mkDefinition (js "tab.close") (js "Close active tab") (js "Tabs") (js "tabs")
    [js "shortcut"; js "close"; js "tab"; js "pane"]
    (platformBindings [js "Mod+Backspace"]) false false None;
  mkDefinition (js "tab.closeAll") (js "Close all editor tabs") (js "Tabs") (js "tabs")
    [js "shortcut"; js "close"; js "all"; js "tabs"; js "files"; js "editors"]
    (platformBindings [js "Mod+Alt+W"]) false false None;
  mkDefinition (js "tab.rename") (js "Rename active tab") (js "Tabs") (js "tabs")
    [js "shortcut"; js "tab"; js "rename"; js "title"; js "label"]
    (platformBindings []) false false (Some (js "workspace-shell"));
  mkDefinition (js "tab.reopenClosed") (js "Reopen closed tab") (js "Tabs") (js "tabs")
    [js "shortcut"; js "tab"; js "reopen"; js "restore"; js "closed"]
    (mkPlatformBindings [js "Mod+Alt+Shift+R"] [] []) false false None;
  mkDefinition (js "tab.nextSameType") (js "Next tab (same type)") (js "Tab Navigation") (js "tabs")
    [js "shortcut"; js "tab"; js "next"; js "switch"; js "cycle"]
    (platformBindings [js "Mod+Shift+BracketRight"]) false false None;
  mkDefinition (js "tab.previousSameType") (js "Previous tab (same type)") (js "Tab Navigation") (js "tabs")
    [js "shortcut"; js "tab"; js "previous"; js "switch"; js "cycle"]
    (platformBindings [js "Mod+Shift+BracketLeft"]) false false None;
  mkDefinition (js "tab.nextAllTypes") (js "Next tab (all types)") (js "Tab Navigation") (js "tabs")
    [js "shortcut"; js "tab"; js "next"; js "switch"; js "cycle"; js "all"; js "any"]
    (platformBindings [js "Mod+Alt+BracketRight"]) false false None].

Definition KEYBINDING_DEFINITIONS_3 : list KeybindingDefinition := [
  mkDefinition (js "tab.previousAllTypes") (js "Previous tab (all types)") (js "Tab Navigation") (js "tabs")
    [js "shortcut"; js "tab"; js "previous"; js "switch"; js "cycle"; js "all"; js "any"]
    (platformBindings [js "Mod+Alt+BracketLeft"]) false false None;
  mkDefinition (js "tab.previousRecent") (js "Previous recent tab") (js "Tab Navigation") (js "tabs")
    [js "shortcut"; js "tab"; js "recent"; js "mru"; js "switch"; js "last used"]
    (platformBindings [js "Mod+Alt+PageDown"]) true false None;
  mkDefinition (js "tab.nextTerminal") (js "Next terminal tab") (js "Tab Navigation") (js "tabs")
    [js "shortcut"; js "tab"; js "terminal"; js "next"; js "switch"]
    (platformBindings [js "Alt+PageDown"]) true false None;
  mkDefinition (js "tab.previousTerminal") (js "Previous terminal tab") (js "Tab Navigation") (js "tabs")
    [js "shortcut"; js "tab"; js "terminal"; js "previous"; js "switch"]
    (platformBindings [js "Alt+PageUp"]) true false None;
  mkDefinition (js "tab.selectByIndex") (js "Select Tab 1" ++ [0x2013] ++ js "9") (js "Tab Navigation") (js "tabs")
    [js "shortcut"; js "tab"; js "select"; js "switch"; js "number"; js "digit"; js "1-9"; js "index"]
    (mkPlatformBindings [js "Ctrl+1"] [js "Alt+1"] [js "Alt+1"]) false false None;
  mkDefinition (js "tab.openQuickCommandsMenu") (js "Toggle Quick Commands menu") (js "Quick Commands") (js "tabs")
    [js "shortcut"; js "quick"; js "command"; js "menu"; js "tab"; js "group"; js "toggle"]
    (platformBindings []) false false (Some (js "global"));
  mkDefinition (js "editor.find") (js "Find in editor") (js "Editors") (js "editor")
    [js "shortcut"; js "editor"; js "find"; js "search"]
    (platformBindings [js "Mod+F"]) false false None;
  mkDefinition (js "editor.replace") (js "Replace in editor") (js "Editors") (js "editor")
    [js "shortcut"; js "editor"; js "replace"; js "find"; js "search"]
    (mkPlatformBindings [js "Mod+Alt+F"] [js "Mod+Shift+H"] [js "Mod+Shift+H"]) false false None;
  mkDefinition (js "editor.save") (js "Save File") (js "Editors") (js "editor")
    [js "shortcut"; js "editor"; js "save"]
    (platformBindings [js "Mod+S"]) false false None;
  mkDefinition (js "editor.markdownPreview") (js "Show Markdown Preview") (js "Editors") (js "editor")
    [js "shortcut"; js "editor"; js "markdown"; js "preview"]
    (platformBindings [js "Mod+Shift+V"]) false false None;
  mkDefinition (js "editor.addReviewNote") (js "Add Review Note") (js "Editors") (js "editor")
    [js "shortcut"; js "editor"; js "markdown"; js "note"; js "comment"; js "annotation"; js "review"]
    (platformBindings [js "Mod+Alt+N"]) false false None;
  mkDefinition (js "sourceControl.sendReviewNotes") (js "Send Review Notes to Agent") (js "Global") (js "global")
    [js "shortcut"; js "source control"; js "diff"; js "notes"; js "send"; js "agent"; js "review"; js "annotate"]
    (platformBindings []) false false (Some (js "editor"));
  mkDefinition (js "fileExplorer.undo") (js "Undo file operation") (js "File Explorer") (js "fileExplorer")
    [js "shortcut"; js "file explorer"; js "undo"]
    (platformBindings [js "Mod+Z"]) false false None;
  mkDefinition (js "fileExplorer.redo") (js "Redo file operation") (js "File Explorer") (js "fileExplorer")
    [js "shortcut"; js "file explorer"; js "redo"]
    (mkPlatformBindings [js "Mod+Shift+Z"] [js "Mod+Shift+Z"; js "Ctrl+Y"] [js "Mod+Shift+Z"; js "Ctrl+Y"]) false false None;
  mkDefinition (js "fileExplorer.rename") (js "Rename file") (js "File Explorer") (js "fileExplorer")
    [js "shortcut"; js "file explorer"; js "rename"]
    (platformBindings [js "Enter"; js "F2"]) false true None].

Definition KEYBINDING_DEFINITIONS_4 : list KeybindingDefinition := [
  mkDefinition (js "fileExplorer.copy") (js "Copy file") (js "File Explorer") (js "fileExplorer")
    [js "shortcut"; js "file explorer"; js "copy"; js "file"]
    (platformBindings [js "Mod+C"]) false false None;
  mkDefinition (js "fileExplorer.cut") (js "Cut file") (js "File Explorer") (js "fileExplorer")
    [js "shortcut"; js "file explorer"; js "cut"; js "move"; js "file"]
    (platformBindings [js "Mod+X"]) false false None;
  mkDefinition (js "fileExplorer.paste") (js "Paste file") (js "File Explorer") (js "fileExplorer")
    [js "shortcut"; js "file explorer"; js "paste"; js "file"]
    (platformBindings [js "Mod+V"]) false false None;
  mkDefinition (js "fileExplorer.selectAll") (js "Select all files") (js "File Explorer") (js "fileExplorer")
    [js "shortcut"; js "file explorer"; js "select all"; js "file"]
    (platformBindings [js "Mod+A"]) false false None;
  mkDefinition (js "fileExplorer.copyPath") (js "Copy file path") (js "File Explorer") (js "fileExplorer")
    [js "shortcut"; js "file explorer"; js "copy"; js "path"]
    (mkPlatformBindings [js "Mod+Alt+C"] [js "Alt+Shift+C"] [js "Alt+Shift+C"]) false false None;
  mkDefinition (js "fileExplorer.copyRelativePath") (js "Copy relative file path") (js "File Explorer") (js "fileExplorer")
    [js "shortcut"; js "file explorer"; js "copy"; js "relative"; js "path"]
    (platformBindings [js "Mod+Alt+Shift+C"]) false false None;
  mkDefinition (js "fileExplorer.delete") (js "Delete file") (js "File Explorer") (js "fileExplorer")
    [js "shortcut"; js "file explorer"; js "delete"; js "remove"; js "trash"]
    (mkPlatformBindings [js "Mod+Backspace"; js "Delete"] [js "Delete"] [js "Delete"]) false true None;
  mkDefinition (js "settings.search") (js "Search Settings") (js "Settings") (js "settings")
    [js "shortcut"; js "settings"; js "search"; js "find"]
    (platformBindings [js "Mod+F"]) false false None;
  mkDefinition (js "terminal.copySelection") (js "Copy terminal selection") (js "Terminal Panes") (js "terminal")
    [js "shortcut"; js "terminal"; js "copy"; js "selection"]
    (platformBindings []) false false None;
  mkDefinition (js "terminal.paste") (js "Paste into terminal") (js "Terminal Panes") (js "terminal")
    [js "shortcut"; js "terminal"; js "paste"; js "clipboard"]
    (mkPlatformBindings [js "Mod+V"] [js "Ctrl+V"; js "Ctrl+Shift+V"; js "Shift+Insert"] [js "Ctrl+V"; js "Ctrl+Shift+V"; js "Shift+Insert"]) false false None;
  mkDefinition (js "terminal.search") (js "Search active pane") (js "Terminal Panes") (js "terminal")
    [js "shortcut"; js "terminal"; js "search"; js "find"]
    (platformBindings [js "Mod+F"]) false false None;
  mkDefinition (js "terminal.clear") (js "Clear active pane") (js "Terminal Panes") (js "terminal")
    [js "shortcut"; js "pane"; js "clear"]
    (platformBindings [js "Mod+K"]) false false None;
  mkDefinition (js "terminal.focusNextPane") (js "Focus next pane") (js "Terminal Panes") (js "terminal")
    [js "shortcut"; js "pane"; js "focus"; js "next"]
    (mkPlatformBindings [js "Mod+Alt+BracketRight"] [js "Mod+BracketRight"] [js "Mod+BracketRight"]) false false None;
  mkDefinition (js "terminal.focusPreviousPane") (js "Focus previous pane") (js "Terminal Panes") (js "terminal")
    [js "shortcut"; js "pane"; js "focus"; js "previous"]
    (mkPlatformBindings [js "Mod+Alt+BracketLeft"] [js "Mod+BracketLeft"] [js "Mod+BracketLeft"]) false false None;
  mkDefinition (js "terminal.equalizePaneSizes") (js "Equalize pane sizes") (js "Terminal Panes") (js "terminal")
    [js "shortcut"; js "pane"; js "split"; js "equalize"; js "resize"; js "balance"; js "size"]
    (platformBindings []) false false None;
  mkDefinition (js "terminal.expandPane") (js "Expand / collapse pane") (js "Terminal Panes") (js "terminal")
    [js "shortcut"; js "pane"; js "expand"; js "collapse"]
    (platformBindings [js "Mod+Shift+Enter"]) false false None;
  mkDefinition (js "terminal.setTitle") (js "Set Title" ++ [0x2026]) (js "Terminal Panes") (js "terminal")
    [js "shortcut"; js "terminal"; js "pane"; js "set title"; js "title"; js "rename"]
    (platformBindings []) false false None;
  mkDefinition (js "terminal.clearPaneTitle") (js "Clear Pane Title") (js "Terminal Panes") (js "terminal")
    [js "shortcut"; js "terminal"; js "pane"; js "clear title"; js "remove title"; js "title"]
    (platformBindings []) false false None;
  mkDefinition (js "terminal.closePane") (js "Close active pane") (js "Terminal Panes") (js "terminal")
    [js "shortcut"; js "pane"; js "close"]
    (platformBindings [js "Mod+Shift+X"]) false false None;
  mkDefinition (js "terminal.splitRight") (js "Split terminal right") (js "Terminal Panes") (js "terminal")
    [js "shortcut"; js "pane"; js "split"; js "right"]
    (platformBindings [js "Mod+Backslash"]) false false None;
  mkDefinition (js "terminal.splitDown") (js "Split terminal down") (js "Terminal Panes") (js "terminal")
    [js "shortcut"; js "pane"; js "split"; js "down"]
    (mkPlatformBindings [js "Mod+Shift+Backslash"] [js "Alt+Shift+D"] [js "Alt+Shift+D"]) false false None].

Definition TUI_AGENT_DISPLAY_NAMES : jsrecord jsstring := [
  (js "claude", js "Claude"); (js "openclaude", js "OpenClaude"); (js "codex", js "Codex"); (js "devin", js "Devin"); (js "ante", js "Ante"); (js "trae", js "Trae"); (js "autohand", js "Autohand Code"); (js "opencode", js "OpenCode"); (js "mimo-code", js "MiMo Code"); (js "pi", js "Pi"); (js "omp", js "OMP"); (js "gemini", js "Gemini"); (js "antigravity", js "Antigravity"); (js "aider", js "Aider"); (js "goose", js "Goose"); (js "amp", js "Amp"); (js "kilo", js "Kilocode"); (js "kiro", js "Kiro"); (js "crush", js "Charm"); (js "aug", js "Auggie"); (js "cline", js "Cline"); (js "codebuff", js "Codebuff"); (js "command-code", js "Command Code"); (js "continue", js "Continue"); (js "cursor", js "Cursor"); (js "droid", js "Droid"); (js "kimi", js "Kimi"); (js "mistral-vibe", js "Mistral Vibe"); (js "qwen-code", js "Qwen Code"); (js "rovo", js "Rovo Dev"); (js "hermes", js "Hermes"); (js "openclaw", js "OpenClaw"); (js "copilot", js "GitHub Copilot"); (js "grok", js "Grok")].

Definition ALL_TUI_AGENTS : list jsstring := rec_keys TUI_AGENT_DISPLAY_NAMES.

Definition agentTabActionId (agent : jsstring) : jsstring := js "tab.newAgent." ++ agent.

Section case.
Context `{K : CaseMapping}.

Definition buildAgentTabKeybindingDefinitions : list KeybindingDefinition :=
  (fun agent =>
     let name := default [] (rec_get agent TUI_AGENT_DISPLAY_NAMES) in
     mkDefinition (agentTabActionId agent) (js "New " ++ name ++ js " tab") (js "Agents") (js "tabs")
       [js "shortcut"; js "tab"; js "agent"; js "new"; js "launch"; agent; toLowerCase name]
       (platformBindings []) false false None) <$> ALL_TUI_AGENTS.

Definition KEYBINDING_DEFINITIONS : list KeybindingDefinition :=
  KEYBINDING_DEFINITIONS_1 ++ KEYBINDING_DEFINITIONS_2 ++ KEYBINDING_DEFINITIONS_3 ++ KEYBINDING_DEFINITIONS_4
  ++ buildAgentTabKeybindingDefinitions.

Definition DEFINITIONS_BY_ID : jsrecord KeybindingDefinition :=
  fold_left (fun m d => rec_set (kd_id d) d m) KEYBINDING_DEFINITIONS [].

Definition isKeybindingActionId (value : jsstring) : bool := existsb (text_eqb value) (kd_id <$> KEYBINDING_DEFINITIONS).
End case.

Definition DIGIT_INDEX_ACTION_IDS : list jsstring := [js "tab.selectByIndex"; js "workspace.selectByIndex"].

Definition isDigitIndexActionId (actionId : jsstring) : bool := existsb (text_eqb actionId) DIGIT_INDEX_ACTION_IDS.

(** ** Their laws *)

Lemma definition_ids `{K : CaseMapping} : NoDup (kd_id <$> KEYBINDING_DEFINITIONS).
Proof. apply (bool_decide_unpack _). vm_compute. exact I. Qed.

Lemma definition_table `{K : CaseMapping} : DEFINITIONS_BY_ID = (fun d => (kd_id d, d)) <$> KEYBINDING_DEFINITIONS.
Proof. vm_compute. reflexivity. Qed.

Lemma definition_get `{K : CaseMapping} id d : rec_get id DEFINITIONS_BY_ID = Some d <-> d ∈ KEYBINDING_DEFINITIONS /\ kd_id d = id.
Proof.
  rewrite definition_table. split.
  - intros H%rec_get_elem. apply list_elem_of_fmap in H as (e & [= -> ->] & H). done.
  - intros [H <-]. apply rec_elem_get; [|apply list_elem_of_fmap; by exists d].
    unfold rec_keys. rewrite <- list_fmap_compose. apply definition_ids.
Qed.
