(* ===== verification/KeyConflicts.v ===== *)
(** The shortcuts of the actions, which presses fire them, and the conflicts the settings
    report (packages/protocol/typescript/src/keybindings: effective.ts, the end of
    normalization.ts, input.ts and matching.ts, conflict-identity.ts, format.ts).

    The overrides of a user are a record from action ids to bindings, empty when there are
    none. *)

From stdpp Require Import base list sets.
From Stdlib Require Import ZArith Lia ZifyBool String.
From S2P Require Import Prelude JsText JsRecord Json KeySyntax KeyMatching KeyDefinitions.

Open Scope Z_scope.

#[local] Set Warnings "-clear-no-such-hyp".

Abbreviation KeybindingOverrides := (jsrecord (list jsstring)).

Inductive KeybindingContext := context_app | context_terminal | context_browser.

Inductive TerminalShortcutPolicy := agentstart_first | terminal_first.

Record KeybindingMatchOptions := mkMatchOptions {
  mo_context : option KeybindingContext;
  mo_terminalShortcutPolicy : option TerminalShortcutPolicy
}.

Definition no_options : KeybindingMatchOptions := mkMatchOptions None None.

(** ** effective.ts *)

Definition normalizeTerminalShortcutPolicy (policy : option TerminalShortcutPolicy) : TerminalShortcutPolicy :=
  match policy with Some terminal_first => terminal_first | _ => agentstart_first end.

Definition isKeybindingAllowedInTerminal (definition : KeybindingDefinition) : bool :=
  text_eqb (kd_scope definition) (js "terminal") || kd_allowInTerminal definition.

Definition isKeybindingPotentialTerminalConflict (definition : KeybindingDefinition) : bool :=
  negb (text_eqb (kd_scope definition) (js "terminal")) && negb (kd_allowInTerminal definition).

Definition keybindingIsActiveInContext (definition : KeybindingDefinition) (options : KeybindingMatchOptions) : bool :=
  match mo_context options with
  | Some context_terminal =>
      match normalizeTerminalShortcutPolicy (mo_terminalShortcutPolicy options) with
      | agentstart_first => true
      | terminal_first => isKeybindingAllowedInTerminal definition
      end
  | _ => true
  end.

Definition bindings_on (bindings : PlatformBindings) (platform : KeybindingPlatform) : list jsstring :=
  match platform with darwin => on_darwin bindings | linux => on_linux bindings | win32 => on_win32 bindings end.

Definition index_digits : list jsstring := single_units 49 9.

(** [Number(digit) - 1] *)
Definition digit_index (digit : jsstring) : Z := default 0 (head digit) - 49.

Section case.
Context `{K : CaseMapping}.

Definition getDefaultBindings (definition : KeybindingDefinition) (platform : jsstring) : list jsstring :=
  (fun binding =>
     match normalizeKeybindingWithOptions binding (kd_allowBareKeybindings definition) with
     | valid value => value
     | invalid _ => binding
     end) <$> bindings_on (kd_defaultBindings definition) (getKeybindingPlatform platform).

Definition normalizeOptionsForAction (actionId : jsstring) : bool :=
  match rec_get actionId DEFINITIONS_BY_ID with Some d => kd_allowBareKeybindings d | None => false end.

Fixpoint canonical_digits (bindings canonical : list jsstring) : list jsstring :=
  match bindings with
  | [] => canonical
  | binding :: rest =>
      match canonicalizeDigitIndexBinding binding with
      | valid value => canonical_digits rest (include value canonical)
      | invalid _ => canonical_digits rest canonical
      end
  end.

Definition getEffectiveKeybindingsForAction (actionId platform : jsstring) (overrides : KeybindingOverrides) : list jsstring :=
  match rec_get actionId DEFINITIONS_BY_ID with
  | None => []
  | Some definition =>
      match rec_get actionId overrides with
      | Some override =>
          if isDigitIndexActionId actionId then canonical_digits override []
          else flat_map (fun binding =>
                 match normalizeKeybindingWithOptions binding (normalizeOptionsForAction actionId) with
                 | valid value => [value]
                 | invalid _ => []
                 end) override
      | None => getDefaultBindings definition platform
      end
  end.

(** ** normalization.ts, input.ts *)

Fixpoint finalize_digits (bindings canonical : list jsstring) : list jsstring + jsstring :=
  match bindings with
  | [] => inl canonical
  | binding :: rest =>
      match canonicalizeDigitIndexBinding binding with
      | valid value => finalize_digits rest (include value canonical)
      | invalid error => inr error
      end
  end.

Definition finalizeDigitIndexBindings (actionId : jsstring) (result : list jsstring + jsstring) : list jsstring + jsstring :=
  match result with
  | inl bindings => if isDigitIndexActionId actionId then finalize_digits bindings [] else result
  | inr _ => result
  end.

Definition normalizeKeybindingListForAction (actionId input : jsstring) : list jsstring + jsstring :=
  finalizeDigitIndexBindings actionId (normalizeKeybindingListWithOptions input (normalizeOptionsForAction actionId)).

Definition normalizeKeybindingArrayForAction (actionId : jsstring) (input : list jsstring) : list jsstring + jsstring :=
  finalizeDigitIndexBindings actionId (normalizeKeybindingArrayWithOptions input (normalizeOptionsForAction actionId)).

Definition keybindingFromInputForAction (actionId : jsstring) (input : KeybindingInput) (platform : jsstring)
    : KeybindingValidationResult :=
  match keybindingFromInputWithOptions input platform (normalizeOptionsForAction actionId) with
  | valid value => if isDigitIndexActionId actionId then canonicalizeDigitIndexBinding value else valid value
  | invalid error => invalid error
  end.

(** ** matching.ts *)

Definition keybindingMatchesAction (actionId : jsstring) (input : KeybindingInput) (platform : jsstring)
    (overrides : KeybindingOverrides) (options : KeybindingMatchOptions) : bool :=
  match rec_get actionId DEFINITIONS_BY_ID with
  | None => false
  | Some definition =>
      if negb (keybindingIsActiveInContext definition options) then false
      else existsb (fun binding => keybindingMatchesInput binding input platform)
             (getEffectiveKeybindingsForAction actionId platform overrides)
  end.

Definition digitFromInput (input : KeybindingInput) (platform : jsstring) : option jsstring :=
  List.find (fun digit => digitKeyMatches input digit platform) index_digits.

(** A binding of a digit row, for the digit pressed. *)
Definition digit_row (digit binding : jsstring) : option ParsedKeybinding :=
  match parseKeybinding binding with
  | Some parsed =>
      match pk_doubleTap parsed with
      | None => if is_index_digit (pk_key parsed) then Some (set_key digit parsed) else None
      | Some _ => None
      end
  | None => None
  end.

Definition matchKeybindingDigitIndex (actionId : jsstring) (input : KeybindingInput) (platform : jsstring)
    (overrides : KeybindingOverrides) (options : KeybindingMatchOptions) : option Z :=
  match rec_get actionId DEFINITIONS_BY_ID with
  | None => None
  | Some definition =>
      if negb (keybindingIsActiveInContext definition options) then None
      else match digitFromInput input platform with
      | None => None
      | Some digit =>
          if existsb (fun binding =>
               match digit_row digit binding with
               | Some candidate => keybindingMatchesInput (canonicalizeParsedKeybinding candidate) input platform
               | None => false
               end) (getEffectiveKeybindingsForAction actionId platform overrides)
          then Some (digit_index digit) else None
      end
  end.

(** ** conflict-identity.ts *)

Definition keybindingConflictIdentities (actionId binding platform : jsstring) : list jsstring :=
  let exact := keybindingConflictIdentity binding platform in
  if negb (isDigitIndexActionId actionId) then [exact]
  else match digit_row [] binding with
       | None => [exact]
       | Some parsed => (fun digit => keybindingConflictIdentityForParsed (set_key digit parsed) platform) <$> index_digits
       end.

(** ** format.ts *)

Definition formatModifierGlyph (m : ModifierToken) (isMac : bool) : jsstring :=
  match m with
  | Mod => if isMac then command_glyph else js "Ctrl"
  | Cmd => if isMac then command_glyph else js "Cmd"
  | Ctrl => if isMac then control_glyph else js "Ctrl"
  | Alt => if isMac then option_glyph else js "Alt"
  | Shift => if isMac then shift_glyph else js "Shift"
  end.

Definition key_labels : jsrecord jsstring := [
  (js "BracketLeft", js "["); (js "BracketRight", js "]"); (js "Minus", js "-"); (js "Underscore", js "_");
  (js "Equal", js "="); (js "Plus", js "+"); (js "ArrowLeft", [0x2190]); (js "ArrowRight", [0x2192]);
  (js "ArrowUp", [0x2191]); (js "ArrowDown", [0x2193]); (js "PageUp", js "PageUp"); (js "PageDown", js "PageDown");
  (js "NumpadAdd", js "Numpad +"); (js "NumpadSubtract", js "Numpad -"); (js "Comma", js ","); (js "Period", js ".");
  (js "Slash", js "/"); (js "Backslash", js "\"); (js "Semicolon", js ";"); (js "Quote", js "'"); (js "Backquote", js "`");
  (js "Enter", js "Enter"); (js "Backspace", js "Backspace"); (js "Delete", js "Delete"); (js "Insert", js "Insert");
  (js "Tab", js "Tab"); (js "Escape", js "Esc"); (js "Space", js "Space")].

Definition formatKeyToken (token : jsstring) : jsstring := default token (rec_get token key_labels).

Definition formatKeybinding (binding platform : jsstring) : list jsstring :=
  match parseKeybinding binding with
  | None => [binding]
  | Some parsed =>
      let isMac := text_eqb platform (js "darwin") in
      match pk_doubleTap parsed with
      | Some m => let glyph := formatModifierGlyph m isMac in [glyph; glyph]
      | None =>
          (if pk_mod parsed then [formatModifierGlyph Mod isMac] else []) ++ (if pk_meta parsed then [formatModifierGlyph Cmd isMac] else [])
          ++ (if pk_control parsed then [formatModifierGlyph Ctrl isMac] else []) ++ (if pk_alt parsed then [formatModifierGlyph Alt isMac] else [])
          ++ (if pk_shift parsed then [formatModifierGlyph Shift isMac] else []) ++ [formatKeyToken (pk_key parsed)]
      end
  end.

Definition formatKeybindingList (bindings : list jsstring) (platform : jsstring) : jsstring :=
  match bindings with
  | [] => js "Unassigned"
  | _ => join (js ", ") ((fun binding =>
      join (if isDoubleTapBinding binding then js " " else if text_eqb platform (js "darwin") then [] else js "+")
        (formatKeybinding binding platform)) <$> bindings)
  end.

(** What has one identity in one group of actions. *)
Record conflict_owner := mkOwner { co_binding : jsstring; co_actionIds : list jsstring }.

Record KeybindingConflict := mkConflict { kc_binding : jsstring; kc_actionIds : list jsstring }.

Definition conflict_groups (definition : KeybindingDefinition) : list jsstring :=
  match kd_conflictGroup definition with
  | Some group => if text_eqb group [] then [group] else include (kd_scope definition) [group]
  | None => [kd_scope definition]
  end.

Record conflict_claim := mkClaim { cl_action : jsstring; cl_binding : jsstring; cl_key : jsstring }.

(** What an action claims: for each binding and each group, its identities. *)
Definition conflict_claims (platform : jsstring) (overrides : KeybindingOverrides) (definition : KeybindingDefinition)
    : list conflict_claim :=
  flat_map (fun binding =>
    flat_map (fun group =>
      (fun identity => mkClaim (kd_id definition) binding (group ++ 0 :: identity)) <$>
        keybindingConflictIdentities (kd_id definition) binding platform)
      (conflict_groups definition))
    (getEffectiveKeybindingsForAction (kd_id definition) platform overrides).

Definition add_owner (owners : jsrecord conflict_owner) (claim : conflict_claim) : jsrecord conflict_owner :=
  let current := default (mkOwner (cl_binding claim) []) (rec_get (cl_key claim) owners) in
  let binding := if negb (isDigitIndexActionId (cl_action claim)) && existsb isDigitIndexActionId (co_actionIds current)
                 then cl_binding claim else co_binding current in
  rec_set (cl_key claim) (mkOwner binding (include (cl_action claim) (co_actionIds current))) owners.

Definition conflict_text (conflict : KeybindingConflict) : jsstring :=
  kc_binding conflict ++ 0 :: join [0] (kc_actionIds conflict).

Fixpoint first_conflicts (seen : list jsstring) (conflicts : list KeybindingConflict) : list KeybindingConflict :=
  match conflicts with
  | [] => []
  | conflict :: rest =>
      let key := conflict_text conflict in
      if existsb (text_eqb key) seen then first_conflicts seen rest else conflict :: first_conflicts (key :: seen) rest
  end.

Definition setIntersects (left right : list jsstring) : bool := existsb (fun value => existsb (text_eqb value) right) left.

Definition findKeybindingConflicts (platform : jsstring) (overrides : KeybindingOverrides) (ignoredActionIds : list jsstring)
    : list KeybindingConflict :=
  let ignored id := existsb (text_eqb id) ignoredActionIds in
  let customizedActions := List.filter (fun id => isKeybindingActionId id && negb (ignored id)) (rec_keys overrides) in
  let definitions := List.filter (fun d => negb (ignored (kd_id d))) KEYBINDING_DEFINITIONS in
  let owners := fold_left add_owner (flat_map (conflict_claims platform overrides) definitions) [] in
  first_conflicts []
    ((fun owner => mkConflict (co_binding owner) (co_actionIds owner)) <$>
      List.filter (fun owner => Nat.ltb 1 (List.length (co_actionIds owner)) && setIntersects (co_actionIds owner) customizedActions)
        (owners.*2)).
End case.
