(* ===== verification/KeyConflictsSpec.v ===== *)
(** The conflicts the settings report (KeyConflicts.v) are the real ones: two actions of one
    group that some press fires together are reported once one of them is customized, and
    every reported conflict has a press that fires its actions together. *)

From stdpp Require Import base list sets.
From Stdlib Require Import ZArith Lia ZifyBool String.
From S2P Require Import Prelude JsText JsRecord Json KeySyntax KeyMatching KeyDefinitions KeyConflicts.

Open Scope Z_scope.

#[local] Set Warnings "-clear-no-such-hyp".

(** ** Lists of strings *)

Lemma existsb_text s l : existsb (text_eqb s) l = true <-> s ∈ l.
Proof.
  rewrite existsb_exists. split.
  - intros (x & Hx & ->%text_eqb_true). by apply list_elem_of_In.
  - intros H. exists s. split; [by apply list_elem_of_In | apply text_eqb_refl].
Qed.

Lemma include_elem v l x : x ∈ include v l <-> x = v \/ x ∈ l.
Proof.
  unfold include. destruct (existsb (text_eqb v) l) eqn:E.
  - apply existsb_text in E. naive_solver.
  - rewrite elem_of_app, list_elem_of_singleton. tauto.
Qed.

Definition without (sep : Z) (s : jsstring) : Prop := sep ∉ s.

Lemma split_on_none sep s : without sep s -> split_on sep s = [s].
Proof.
  unfold without. induction s as [|c s IH]; cbn; [done|]. rewrite not_elem_of_cons. intros [Hc Hs].
  destruct (c =? sep) eqn:E; [lia|]. by rewrite IH.
Qed.

Lemma split_on_app sep s t : without sep s -> split_on sep (s ++ sep :: t) = s :: split_on sep t.
Proof.
  unfold without. induction s as [|c s IH]; cbn; [by rewrite Z.eqb_refl|]. rewrite not_elem_of_cons. intros [Hc Hs].
  destruct (c =? sep) eqn:E; [lia|]. by rewrite IH.
Qed.

Lemma split_join sep parts : Forall (without sep) parts -> parts <> [] -> split_on sep (join [sep] parts) = parts.
Proof.
  intros H. induction H as [|part parts Hp H IH]; [done|]. intros _. destruct parts as [|next parts].
  - by apply split_on_none.
  - change (join [sep] (part :: next :: parts)) with (part ++ sep :: join [sep] (next :: parts)).
    rewrite split_on_app by done. by rewrite IH.
Qed.

Lemma cut_inj sep (a b : jsstring) s t : without sep a -> without sep b -> a ++ sep :: s = b ++ sep :: t -> a = b /\ s = t.
Proof.
  unfold without. revert b. induction a as [|x a IH]; intros [|y b]; cbn; rewrite ?not_elem_of_cons; intros Ha Hb.
  - intros [= ->]. done.
  - intros [= -> _]. tauto.
  - intros [= -> _]. tauto.
  - intros [= -> H]. destruct (IH b) as [-> ->]; tauto.
Qed.

(** ** Chords *)

Lemma chords_clean : forallb (fun p => forallb (fun c => negb (c =? 0)) (canonicalizeParsedKeybinding p)
  && forallb (fun c => negb (c =? 43)) (pk_key p)) chords = true.
Proof. vm_compute. reflexivity. Qed.

Lemma clean_without c s : forallb (fun x => negb (x =? c)) s = true -> without c s.
Proof. rewrite forallb_forall. intros H Hin%list_elem_of_In. specialize (H _ Hin). lia. Qed.

Lemma chord_clean p : chord p -> without 0 (canonicalizeParsedKeybinding p) /\ without 43 (pk_key p).
Proof.
  intros H%chord_elem%list_elem_of_In. pose proof chords_clean as Hall. rewrite forallb_forall in Hall.
  specialize (Hall p H). apply andb_true_iff in Hall as [H1 H2]. split; by apply clean_without.
Qed.

(** What a binding in effect parses to. *)
Definition simple_tap (p : ParsedKeybinding) : Prop := exists m, p = set_doubleTap m (applyModifierToken m emptyParsedKeybinding).

Lemma held_text_inj m n : held_text m = held_text n -> m = n.
Proof. by destruct m, n. Qed.

(** Equal identities are those of the same held modifiers and the same key. *)
Definition same_press (p q : ParsedKeybinding) (platform : jsstring) : Prop :=
  match pk_doubleTap p, pk_doubleTap q with
  | Some m, Some n => resolveModifierToken m platform = resolveModifierToken n platform
  | None, None => platformModifiers p platform = platformModifiers q platform /\ pk_key p = pk_key q
  | _, _ => False
  end.

Definition identity_parts (p : ParsedKeybinding) (platform : jsstring) : list jsstring :=
  let modifiers := platformModifiers p platform in
  [if h_meta modifiers then js "Meta" else []; if h_control modifiers then js "Control" else [];
   if h_alt modifiers then js "Alt" else []; if h_shift modifiers then js "Shift" else []; pk_key p].

Lemma modifier_piece_clean (b : bool) s : without 43 s -> without 43 (if b then s else []).
Proof. destruct b; [done|]. intros _. unfold without. apply not_elem_of_nil. Qed.

Lemma identity_split p platform : pk_doubleTap p = None -> without 43 (pk_key p) ->
  split_on 43 (keybindingConflictIdentityForParsed p platform) = identity_parts p platform.
Proof.
  intros Hd Hk. unfold keybindingConflictIdentityForParsed. rewrite Hd. apply split_join; [|done].
  repeat (constructor; [first [done | apply modifier_piece_clean, clean_without; reflexivity]|]). constructor.
Qed.

Lemma tap_split m platform : split_on 43 (js "DoubleTap:" ++ held_text (resolveModifierToken m platform))
  = [js "DoubleTap:" ++ held_text (resolveModifierToken m platform)].
Proof. apply split_on_none, clean_without. by destruct (resolveModifierToken m platform). Qed.

Lemma identity_same p q platform : without 43 (pk_key p) -> without 43 (pk_key q) ->
  keybindingConflictIdentityForParsed p platform = keybindingConflictIdentityForParsed q platform -> same_press p q platform.
Proof.
  intros Hp Hq H. unfold same_press. destruct (pk_doubleTap p) as [m|] eqn:Ep, (pk_doubleTap q) as [n|] eqn:Eq.
  - unfold keybindingConflictIdentityForParsed in H. rewrite Ep, Eq in H. apply app_inv_head in H. by apply held_text_inj.
  - apply (f_equal (split_on 43)) in H. rewrite (identity_split q) in H by done.
    unfold keybindingConflictIdentityForParsed in H. rewrite Ep, tap_split in H. done.
  - apply (f_equal (split_on 43)) in H. rewrite (identity_split p) in H by done.
    unfold keybindingConflictIdentityForParsed in H. rewrite Eq, tap_split in H. done.
  - apply (f_equal (split_on 43)) in H. rewrite !identity_split in H by done. unfold identity_parts in H.
    destruct (platformModifiers p platform) as [a b c d], (platformModifiers q platform) as [a' b' c' d']. cbn in H.
    injection H as H1 H2 H3 H4 H5. split; [|done]. destruct a, a', b, b', c, c', d, d'; done.
Qed.

(** ** Bindings in effect *)

Definition accepted (result : KeybindingValidationResult) : bool := match result with valid _ => true | invalid _ => false end.

Lemma defaults_accepted `{K : CaseMapping} : forallb (fun d => forallb (fun platform =>
  forallb (fun b => ascii b && accepted (normalizeKeybindingWithOptions (K := ascii_case) b (kd_allowBareKeybindings d)))
    (bindings_on (kd_defaultBindings d) platform)) [darwin; linux; win32]) KEYBINDING_DEFINITIONS = true.
Proof. vm_compute. reflexivity. Qed.

Lemma digit_defaults `{K : CaseMapping} : forallb (fun d => forallb (fun platform =>
  forallb (fun b => match normalizeKeybindingWithOptions (K := ascii_case) b (kd_allowBareKeybindings d) with
                    | valid value => ascii value && match digit_row (K := ascii_case) [] value with Some _ => true | None => false end
                    | invalid _ => false
                    end)
    (bindings_on (kd_defaultBindings d) platform)) [darwin; linux; win32])
  (List.filter (fun d => isDigitIndexActionId (kd_id d)) KEYBINDING_DEFINITIONS) = true.
Proof. vm_compute. reflexivity. Qed.

Section spec.
Context `{K : CaseMapping} `{!CaseMappingLaws K}.

Definition in_normal_form (binding : jsstring) : Prop :=
  exists p, parseKeybinding binding = Some p /\ binding = canonicalizeParsedKeybinding p /\ (chord p \/ simple_tap p).

Lemma normalized_normal binding bare value : normalizeKeybindingWithOptions binding bare = valid value -> in_normal_form value.
Proof. intros H. destruct (normalized_parses _ _ _ H) as (p & Hp & Hv & _ & Hs & _). by exists p. Qed.

Lemma digit_key d : is_index_digit d = true -> d ∈ index_digits /\ is_key d.
Proof.
  intros H. assert (Hd : d ∈ index_digits) by (by apply unit_between_elem; [|lia]). split; [done|].
  unfold index_digits, single_units in Hd. apply list_elem_of_fmap in Hd as (n & -> & Hn%elem_of_seq).
  unfold is_key, key_tokens. rewrite !elem_of_app. right; left. unfold single_units. apply list_elem_of_fmap.
  exists n. split; [done|]. apply elem_of_seq. lia.
Qed.

Lemma index_digit d : d ∈ index_digits -> is_index_digit d = true /\ is_digit_token d = true /\ is_key d.
Proof.
  intros H. assert (is_index_digit d = true).
  { unfold index_digits, single_units in H. apply list_elem_of_fmap in H as (n & -> & Hn%elem_of_seq).
    unfold is_index_digit, unit_between. cbn. repeat case_match; try done; lia. }
  split; [done|]. split; [|by apply digit_key].
  unfold index_digits, single_units in H. apply list_elem_of_fmap in H as (n & -> & Hn%elem_of_seq).
  unfold is_digit_token, unit_between. cbn. repeat case_match; try done; lia.
Qed.

Lemma set_key_chord p d : chord p -> is_key d -> chord (set_key d p).
Proof. intros [Hd _] Hk. by split. Qed.

Lemma digit_normal binding value : canonicalizeDigitIndexBinding binding = valid value -> in_normal_form value.
Proof.
  unfold canonicalizeDigitIndexBinding. destruct (parseKeybinding binding) as [p|] eqn:Ep; [|done].
  destruct (pk_doubleTap p) eqn:Ed; [done|]. destruct (is_index_digit _); [|done].
  assert (Hc : chord (set_key (js "1") p)).
  { destruct (parsed_shape _ _ Ep) as [H|[[m ->]|[H _]]]; [|done|congruence]. apply set_key_chord; [done|].
    by apply (index_digit (js "1")), (bool_decide_unpack _). }
  intros H. assert (value = canonicalizeParsedKeybinding (set_key (js "1") p)) as -> by congruence.
  exists (set_key (js "1") p). split_and!; [by apply parse_canonical | done | by left].
Qed.

Lemma canonical_digits_normal bindings canonical b : b ∈ canonical_digits bindings canonical ->
  (forall x, x ∈ canonical -> in_normal_form x) -> in_normal_form b.
Proof.
  revert canonical. induction bindings as [|binding rest IH]; intros canonical; cbn; [auto|].
  destruct (canonicalizeDigitIndexBinding binding) as [value|] eqn:E; [|apply IH].
  intros Hb Hc. apply (IH _ Hb). intros x [->|Hx]%include_elem; [by eapply digit_normal | auto].
Qed.

Lemma effective_normal actionId platform overrides b :
  b ∈ getEffectiveKeybindingsForAction actionId platform overrides -> in_normal_form b.
Proof.
  unfold getEffectiveKeybindingsForAction. destruct (rec_get actionId DEFINITIONS_BY_ID) as [d|] eqn:Ed; [|by intros ?%not_elem_of_nil].
  destruct (rec_get actionId overrides) as [override|].
  - destruct (isDigitIndexActionId actionId).
    + intros H. apply (canonical_digits_normal _ _ _ H). by intros x ?%not_elem_of_nil.
    + rewrite list_elem_of_In, in_flat_map. intros (x & _ & Hx). destruct (normalizeKeybindingWithOptions x _) eqn:E; [|done].
      destruct Hx as [<-|[]]. by eapply normalized_normal.
  - unfold getDefaultBindings. intros (x & -> & Hx)%list_elem_of_fmap.
    apply definition_get in Ed as [Hd _]. pose proof defaults_accepted as Hall. rewrite forallb_forall in Hall.
    apply list_elem_of_In in Hd. specialize (Hall d Hd). rewrite forallb_forall in Hall.
    specialize (Hall (getKeybindingPlatform platform) ltac:(destruct (getKeybindingPlatform platform); cbn; auto)).
    rewrite forallb_forall in Hall. apply list_elem_of_In in Hx. specialize (Hall x Hx). apply andb_true_iff in Hall as [Ha Hv].
    rewrite normalizeKeybinding_ascii by done. destruct (normalizeKeybindingWithOptions (K := ascii_case) x _) as [value|] eqn:E; [|done].
    apply (normalized_normal x (kd_allowBareKeybindings d)). by rewrite normalizeKeybinding_ascii.
Qed.

Lemma normal_clean b : in_normal_form b -> without 0 b.
Proof.
  intros (p & _ & -> & [H|[m ->]]); [by apply chord_clean|]. apply clean_without. by destruct m.
Qed.

(** ** What fires an action *)

(** An action of the digit row is fired by its digits, another one by its bindings. *)
Definition fires (id : jsstring) (input : KeybindingInput) (platform : jsstring) (overrides : KeybindingOverrides)
    (options : KeybindingMatchOptions) : bool :=
  if isDigitIndexActionId id then
    match matchKeybindingDigitIndex id input platform overrides options with Some _ => true | None => false end
  else keybindingMatchesAction id input platform overrides options.

Lemma digit_row_identity digit binding candidate : digit ∈ index_digits -> in_normal_form binding ->
  digit_row digit binding = Some candidate ->
  chord candidate /\ exists parsed, digit_row [] binding = Some parsed /\ set_key digit parsed = candidate.
Proof.
  intros Hd (p & Hp & _ & Hs). unfold digit_row. rewrite Hp. destruct (pk_doubleTap p) eqn:Et; [done|].
  destruct (is_index_digit (pk_key p)); [|done]. intros [= <-]. split; [|by exists (set_key [] p)].
  split; [done|]. cbn [pk_key set_key]. by apply index_digit.
Qed.

(** What fires an action has an identity that the action claims. *)
Lemma fires_identity id input platform overrides options : numpad_code input = false ->
  fires id input platform overrides options = true ->
  exists b, b ∈ getEffectiveKeybindingsForAction id platform overrides /\
    press_identity input platform ∈ keybindingConflictIdentities id b platform.
Proof.
  intros Hn. unfold fires, keybindingConflictIdentities. destruct (isDigitIndexActionId id) eqn:Eid; cbn [negb].
  - unfold matchKeybindingDigitIndex. destruct (rec_get id _) as [d|]; [|done]. destruct (negb _); [done|].
    unfold digitFromInput. destruct (List.find _ _) as [digit|] eqn:Ef; [|done].
    apply List.find_some in Ef as [Hd%list_elem_of_In _]. destruct (existsb _ _) eqn:E; [|done]. intros _.
    apply existsb_exists in E as (b & Hb%list_elem_of_In & Hm). exists b. split; [done|].
    destruct (digit_row digit b) as [candidate|] eqn:Er; [|done].
    destruct (digit_row_identity digit b candidate Hd) as [Hc (p & Hp & <-)]; [by eapply effective_normal|done|].
    rewrite Hp. apply list_elem_of_fmap. exists digit. split; [|done].
    apply (match_identity _ _ _ Hn) in Hm. unfold keybindingConflictIdentity in Hm. by rewrite parse_canonical in Hm.
  - unfold keybindingMatchesAction. destruct (rec_get id _) as [d|]; [|done]. destruct (negb _); [done|].
    intros (b & Hb%list_elem_of_In & Hm)%existsb_exists. exists b. split; [done|]. apply list_elem_of_singleton.
    symmetry. by apply match_identity.
Qed.

(** ** Owners *)

Definition claims_of (claims : list conflict_claim) (key : jsstring) (owner : conflict_owner) : Prop :=
  NoDup (co_actionIds owner) /\
  (forall id, id ∈ co_actionIds owner <-> exists c, c ∈ claims /\ cl_key c = key /\ cl_action c = id) /\
  exists c, c ∈ claims /\ cl_key c = key /\ cl_binding c = co_binding owner.

Lemma include_nodup v l : NoDup l -> NoDup (include v l).
Proof.
  intros H. unfold include. destruct (existsb _ _) eqn:E; [done|]. apply NoDup_app. split; [done|]. split; [|apply NoDup_singleton].
  intros x Hx ->%list_elem_of_singleton. apply existsb_text in Hx. congruence.
Qed.

Lemma claims_of_more claims claim key owner : cl_key claim <> key -> claims_of claims key owner -> claims_of (claims ++ [claim]) key owner.
Proof.
  intros Hk (Hnd & Hids & (c & Hc & Hck & Hcb)). split; [done|]. split.
  - intros id. rewrite Hids. split; intros (e & He & Hek & Hea).
    + exists e. rewrite elem_of_app. auto.
    + apply elem_of_app in He as [He| ->%list_elem_of_singleton]; [by exists e | done].
  - exists c. rewrite elem_of_app. auto.
Qed.

Lemma claims_of_claim claims claim owner : claims_of claims (cl_key claim) owner \/
    owner = mkOwner (cl_binding claim) [] /\ (forall c, c ∈ claims -> cl_key c <> cl_key claim) ->
  forall binding, binding = cl_binding claim \/ binding = co_binding owner ->
  claims_of (claims ++ [claim]) (cl_key claim) (mkOwner binding (include (cl_action claim) (co_actionIds owner))).
Proof.
  intros Ho binding Hb. unfold claims_of. cbn [co_actionIds co_binding].
  assert (Hnd : NoDup (co_actionIds owner)) by (destruct Ho as [[? _]|[-> _]]; [done | apply NoDup_nil_2]).
  split; [by apply include_nodup|]. split.
  - intros id. rewrite include_elem. split.
    + intros [->|Hid]; [exists claim; rewrite elem_of_app, list_elem_of_singleton; auto|].
      destruct Ho as [(_ & Hids & _)|[-> _]]; [|by apply not_elem_of_nil in Hid].
      apply Hids in Hid as (c & Hc & ?). exists c. rewrite elem_of_app. auto.
    + intros (c & [Hc| ->%list_elem_of_singleton]%elem_of_app & Hk & <-); [|by left]. right.
      destruct Ho as [(_ & Hids & _)|[_ Hno]]; [apply Hids; by exists c | by destruct (Hno c Hc)].
  - assert (Hlast : claim ∈ claims ++ [claim]) by (rewrite elem_of_app, list_elem_of_singleton; auto).
    destruct Hb as [->| ->]; [by exists claim|]. destruct Ho as [(_ & _ & c & Hc & ?)|[-> _]]; [|by exists claim].
    exists c. rewrite elem_of_app. auto.
Qed.

Lemma owners_spec claims : NoDup (rec_keys (fold_left add_owner claims [])) /\ forall key,
  match rec_get key (fold_left add_owner claims []) with
  | Some owner => claims_of claims key owner
  | None => forall c, c ∈ claims -> cl_key c <> key
  end.
Proof.
  induction claims as [|claim claims [Hnd IH]] using rev_ind.
  - split; [apply NoDup_nil_2|]. by intros key c ?%not_elem_of_nil.
  - rewrite fold_left_app. cbn [fold_left]. unfold add_owner at 1 3. split; [by apply rec_set_nodup|]. intros key.
    rewrite rec_get_set. case_decide as Hk.
    + subst key. specialize (IH (cl_key claim)). apply claims_of_claim; [|destruct (negb _ && _); auto].
      destruct (rec_get _ _) as [o|]; cbn [default]; auto.
    + specialize (IH key). destruct (rec_get key _) as [o|]; [by apply claims_of_more|].
      intros c [Hc| ->%list_elem_of_singleton]%elem_of_app; auto.
Qed.

(** ** Conflicts *)

Definition definitions_in_force (ignored : list jsstring) : list KeybindingDefinition :=
  List.filter (fun d => negb (existsb (text_eqb (kd_id d)) ignored)) KEYBINDING_DEFINITIONS.

Definition all_claims (platform : jsstring) (overrides : KeybindingOverrides) (ignored : list jsstring) : list conflict_claim :=
  flat_map (conflict_claims platform overrides) (definitions_in_force ignored).

Definition customized (overrides : KeybindingOverrides) (ignored : list jsstring) : list jsstring :=
  List.filter (fun id => isKeybindingActionId id && negb (existsb (text_eqb id) ignored)) (rec_keys overrides).

Definition candidates (platform : jsstring) (overrides : KeybindingOverrides) (ignored : list jsstring) : list KeybindingConflict :=
  (fun owner => mkConflict (co_binding owner) (co_actionIds owner)) <$>
    List.filter (fun owner => Nat.ltb 1 (List.length (co_actionIds owner)) && setIntersects (co_actionIds owner) (customized overrides ignored))
      ((fold_left add_owner (all_claims platform overrides ignored) []).*2).

Lemma conflicts_of_candidates platform overrides ignored :
  findKeybindingConflicts platform overrides ignored = first_conflicts [] (candidates platform overrides ignored).
Proof. unfold findKeybindingConflicts, candidates, customized, all_claims, definitions_in_force. reflexivity. Qed.

Lemma in_force ignored d : d ∈ definitions_in_force ignored <-> d ∈ KEYBINDING_DEFINITIONS /\ (kd_id d ∉ ignored).
Proof.
  unfold definitions_in_force. rewrite list_elem_of_In, List.filter_In, <- list_elem_of_In, negb_true_iff, <- existsb_text.
  by rewrite not_true_iff_false.
Qed.

Lemma claim_elem platform overrides ignored c : c ∈ all_claims platform overrides ignored <->
  exists d b group identity, (d ∈ KEYBINDING_DEFINITIONS /\ (kd_id d ∉ ignored)) /\
    b ∈ getEffectiveKeybindingsForAction (kd_id d) platform overrides /\ group ∈ conflict_groups d /\
    identity ∈ keybindingConflictIdentities (kd_id d) b platform /\ c = mkClaim (kd_id d) b (group ++ 0 :: identity).
Proof.
  unfold all_claims, conflict_claims. rewrite list_elem_of_In, in_flat_map. setoid_rewrite <- list_elem_of_In.
  setoid_rewrite in_force. split.
  - intros (d & Hd & Hc). apply list_elem_of_In, in_flat_map in Hc as (b & Hb%list_elem_of_In & Hc).
    apply in_flat_map in Hc as (g & Hg%list_elem_of_In & Hc%list_elem_of_In). apply list_elem_of_fmap in Hc as (i & -> & Hi).
    exists d, b, g, i. auto.
  - intros (d & b & g & i & Hd & Hb & Hg & Hi & ->). exists d. split; [done|]. apply list_elem_of_In, in_flat_map.
    exists b. split; [by apply list_elem_of_In|]. apply in_flat_map. exists g. split; [by apply list_elem_of_In|].
    apply list_elem_of_In, list_elem_of_fmap. by exists i.
Qed.

Lemma setIntersects_true left right : setIntersects left right = true <-> exists x, x ∈ left /\ x ∈ right.
Proof.
  unfold setIntersects. rewrite existsb_exists. setoid_rewrite <- list_elem_of_In. by setoid_rewrite existsb_text.
Qed.

(** A candidate is what the claims on one key make. *)
Lemma candidate_elem platform overrides ignored c : c ∈ candidates platform overrides ignored <->
  exists key owner, rec_get key (fold_left add_owner (all_claims platform overrides ignored) []) = Some owner /\
    c = mkConflict (co_binding owner) (co_actionIds owner) /\ (1 < List.length (co_actionIds owner))%nat /\
    exists id, id ∈ co_actionIds owner /\ id ∈ customized overrides ignored.
Proof.
  destruct (owners_spec (all_claims platform overrides ignored)) as [Hnd _].
  unfold candidates. rewrite list_elem_of_fmap. split.
  - intros (o & -> & Ho). apply list_elem_of_In, List.filter_In in Ho as [Ho%list_elem_of_In Hc].
    apply andb_true_iff in Hc as [Hl%Nat.ltb_lt Hi%setIntersects_true].
    apply list_elem_of_fmap in Ho as ([key o'] & -> & Ho). exists key, o'. split_and!; try done. by apply rec_elem_get.
  - intros (key & o & Hget & -> & Hl & Hi). exists o. split; [done|]. apply list_elem_of_In, List.filter_In.
    split; [|by rewrite andb_true_iff, Nat.ltb_lt, setIntersects_true].
    apply list_elem_of_In, list_elem_of_fmap. exists (key, o). split; [done|]. by apply rec_get_elem.
Qed.

Lemma definitions_clean : forallb (fun d => forallb (fun x => negb (x =? 0)) (kd_id d)
  && forallb (fun group => forallb (fun x => negb (x =? 0)) group) (conflict_groups d)) KEYBINDING_DEFINITIONS = true.
Proof. vm_compute. reflexivity. Qed.

Lemma definition_clean d : d ∈ KEYBINDING_DEFINITIONS -> without 0 (kd_id d) /\ Forall (without 0) (conflict_groups d).
Proof.
  intros H%list_elem_of_In. pose proof definitions_clean as Hall. rewrite forallb_forall in Hall. specialize (Hall d H).
  apply andb_true_iff in Hall as [Hid Hg]. split; [by apply clean_without|]. apply Forall_forall.
  intros g Hin%list_elem_of_In. rewrite forallb_forall in Hg. by apply clean_without, Hg.
Qed.

Definition clean_conflict (c : KeybindingConflict) : Prop :=
  without 0 (kc_binding c) /\ Forall (without 0) (kc_actionIds c) /\ kc_actionIds c <> [].

Lemma candidate_clean platform overrides ignored c : c ∈ candidates platform overrides ignored -> clean_conflict c.
Proof.
  intros (key & o & Hget & -> & Hl & _)%candidate_elem. destruct (owners_spec (all_claims platform overrides ignored)) as [_ Ho].
  specialize (Ho key). rewrite Hget in Ho. destruct Ho as (_ & Hids & (e & He & _ & Hb)). unfold clean_conflict.
  cbn [kc_binding kc_actionIds]. split_and!.
  - rewrite <- Hb. apply claim_elem in He as (d & b & g & i & _ & Hb' & _ & _ & ->). by eapply normal_clean, effective_normal.
  - apply Forall_forall. intros id (f & Hf & _ & <-)%Hids. apply claim_elem in Hf as (d & b & g & i & [Hd _] & _ & _ & _ & ->).
    by apply definition_clean.
  - intros H0. rewrite H0 in Hl. cbn in Hl. lia.
Qed.

Lemma conflict_text_inj c c' : clean_conflict c -> clean_conflict c' -> conflict_text c = conflict_text c' -> c = c'.
Proof.
  destruct c as [b ids], c' as [b' ids']. intros (Hb & Hi & Hn) (Hb' & Hi' & Hn') H.
  apply cut_inj in H as [H1 H2]; [|done..]. cbn in *. rewrite H1. f_equal.
  rewrite <- (split_join 0 ids), <- (split_join 0 ids') by done. by rewrite H2.
Qed.

(** No conflict is lost for another one. *)
Lemma first_conflicts_elem conflicts seen c : c ∈ first_conflicts seen conflicts -> c ∈ conflicts.
Proof.
  revert seen. induction conflicts as [|x l IH]; intros seen; cbn [first_conflicts]; [done|].
  destruct (existsb _ _); rewrite !elem_of_cons; [intros ?%IH; auto|]. intros [?|?%IH]; auto.
Qed.

Lemma first_conflicts_kept conflicts seen c : Forall clean_conflict conflicts -> c ∈ conflicts ->
  (conflict_text c ∉ seen) -> c ∈ first_conflicts seen conflicts.
Proof.
  intros Hcl. revert seen. induction Hcl as [|x l Hx Hl IH]; intros seen; cbn [first_conflicts]; [by intros ?%not_elem_of_nil|].
  intros [->|Hc]%elem_of_cons Hs.
  - destruct (existsb _ _) eqn:E; [by apply existsb_text in E | by rewrite elem_of_cons; left].
  - destruct (existsb _ _) eqn:E; [by apply IH|]. rewrite elem_of_cons.
    destruct (decide (conflict_text c = conflict_text x)) as [He|Hne].
    + left. apply conflict_text_inj; [|done..]. rewrite Forall_forall in Hl. auto.
    + right. apply IH; [done|]. by rewrite not_elem_of_cons.
Qed.

Lemma conflict_reported platform overrides ignored c :
  c ∈ findKeybindingConflicts platform overrides ignored <-> c ∈ candidates platform overrides ignored.
Proof.
  rewrite conflicts_of_candidates. split; [apply first_conflicts_elem|]. intros H. apply first_conflicts_kept; [|done|].
  - apply Forall_forall. intros x. apply candidate_clean.
  - apply not_elem_of_nil.
Qed.

(** C16. The settings miss no conflict: when one press fires two actions that share a group,
    neither of them ignored by the caller, and one of them is customized, a conflict that names both is reported, on every
    platform and whatever the defaults, the overrides and the contexts are (for presses
    outside the numeric pad). *)
Theorem conflicts_complete platform overrides ignored input options left right group :
  left ∈ KEYBINDING_DEFINITIONS -> right ∈ KEYBINDING_DEFINITIONS -> kd_id left <> kd_id right ->
  (kd_id left ∉ ignored) -> (kd_id right ∉ ignored) ->
  group ∈ conflict_groups left -> group ∈ conflict_groups right ->
  kd_id left ∈ rec_keys overrides ->
  numpad_code input = false ->
  fires (kd_id left) input platform overrides options = true ->
  fires (kd_id right) input platform overrides options = true ->
  exists c, c ∈ findKeybindingConflicts platform overrides ignored /\
    kd_id left ∈ kc_actionIds c /\ kd_id right ∈ kc_actionIds c.
Proof.
  intros Hl Hr Hne Hil Hir Hgl Hgr Hov Hn (bl & Hbl & Hidl)%fires_identity (br & Hbr & Hidr)%fires_identity; [|done..].
  pose (key := group ++ 0 :: press_identity input platform).
  assert (Hcl : mkClaim (kd_id left) bl key ∈ all_claims platform overrides ignored)
    by (apply claim_elem; by exists left, bl, group, (press_identity input platform)).
  assert (Hcr : mkClaim (kd_id right) br key ∈ all_claims platform overrides ignored)
    by (apply claim_elem; by exists right, br, group, (press_identity input platform)).
  destruct (owners_spec (all_claims platform overrides ignored)) as [_ Ho]. specialize (Ho key).
  destruct (rec_get key _) as [owner|] eqn:Hget; [|by destruct (Ho _ Hcl)]. destruct Ho as (_ & Hids & _).
  assert (Hleft : kd_id left ∈ co_actionIds owner) by (apply Hids; by exists (mkClaim (kd_id left) bl key)).
  assert (Hright : kd_id right ∈ co_actionIds owner) by (apply Hids; by exists (mkClaim (kd_id right) br key)).
  exists (mkConflict (co_binding owner) (co_actionIds owner)). split; [|done]. apply conflict_reported, candidate_elem.
  exists key, owner. split_and!; [done..| |].
  - destruct (co_actionIds owner) as [|x [|y l]]; [by apply not_elem_of_nil in Hleft| |cbn; lia].
    apply list_elem_of_singleton in Hleft, Hright. congruence.
  - exists (kd_id left). split; [done|]. unfold customized. apply list_elem_of_In, List.filter_In.
    split; [by apply list_elem_of_In|]. apply andb_true_iff. split.
    + apply existsb_text. by apply list_elem_of_fmap_2.
    + by apply negb_true_iff, not_true_iff_false; rewrite existsb_text.
Qed.

(** ** Presses of a conflict *)

Definition held_token (m : held_modifier) : physical_modifier :=
  match m with held_meta => phys_Cmd | held_control => phys_Ctrl | held_alt => phys_Alt | held_shift => phys_Shift end.

(** A press that a parsed binding is for. *)
Definition press_of (p : ParsedKeybinding) (platform : jsstring) : KeybindingInput :=
  match pk_doubleTap p with
  | Some m =>
      mkInput None None None None None None None None None None
        (Some (held_token (resolveModifierToken m platform)))
  | None =>
      let modifiers := platformModifiers p platform in
      press (pk_key p) (pk_key p) (h_meta modifiers) (h_control modifiers) (h_alt modifiers) (h_shift modifiers)
  end.

Lemma keys_pressed : forallb (fun key => ascii key && negb (has_text MODIFIER_KEYS key)
  && is_token (normalizeKeyToken (K := ascii_case) key) key
  && (if isPunctuationKeyToken (Some key) then negb (is_coded (js "Key") key) && negb (is_coded (js "Digit") key) else true))
  key_tokens = true.
Proof. vm_compute. reflexivity. Qed.

Lemma key_pressed key meta control alt shift : is_key key ->
  logicalKeyTokenFromInput (press key key meta control alt shift) = Some key /\
  (isPunctuationKeyToken (Some key) = true -> physicalPunctuationKey (press key key meta control alt shift) = Some key).
Proof.
  intros H%list_elem_of_In. pose proof keys_pressed as Hall. rewrite forallb_forall in Hall. specialize (Hall key H).
  rewrite !andb_true_iff, is_token_true, negb_true_iff in Hall. destruct Hall as [[[Ha Hm] Hk] Hp].
  rewrite <- normalizeKeyToken_ascii in Hk by done. split.
  - unfold logicalKeyTokenFromInput. change (key_of (press key key meta control alt shift)) with key. by rewrite Hm, Hk.
  - intros Hpunct. rewrite Hpunct, andb_true_iff, !negb_true_iff in Hp. destruct Hp as [H1 H2].
    unfold physicalPunctuationKey, physicalCodeKeyTokenFromInput. change (code_of (press key key meta control alt shift)) with key.
    by rewrite H1, H2, Hk, Hpunct.
Qed.

(** The press of one binding matches every binding with its identity. *)
Lemma press_matches p q binding platform : parseKeybinding binding = Some q -> (chord q \/ simple_tap q) ->
  same_press p q platform -> keybindingMatchesInput binding (press_of p platform) platform = true.
Proof.
  intros Hq Hs Hsame. unfold keybindingMatchesInput. rewrite Hq. unfold same_press, press_of in *.
  destruct (pk_doubleTap p) as [m|] eqn:Ep, (pk_doubleTap q) as [n|] eqn:Eq; try done.
  - apply bool_decide_eq_true. rewrite <- Hsame. by destruct (resolveModifierToken m platform).
  - destruct Hsame as [Hm Hk], Hs as [[_ Hkey]|[m ->]]; [|done]. cbn [ki_doubleTapModifier press].
    apply andb_true_iff. split.
    + unfold modifierStateMatches, hasModifier. rewrite <- Hm. cbn [ki_alt ki_meta ki_control ki_shift press].
      by rewrite !Bool.eqb_reflx.
    + rewrite Hk. destruct (key_pressed (pk_key q) (h_meta (platformModifiers p platform)) (h_control (platformModifiers p platform))
        (h_alt (platformModifiers p platform)) (h_shift (platformModifiers p platform)) Hkey) as [Hl Hp].
      apply logical_matches; [done|]. destruct (isPunctuationKeyToken (Some (pk_key q))); [|done].
      unfold shouldUseSemanticPunctuation. rewrite Hp by done. by rewrite andb_false_r.
Qed.

Lemma digit_found digit input platform : digit ∈ index_digits -> logicalKeyTokenFromInput input = Some digit ->
  digitFromInput input platform = Some digit.
Proof.
  intros Hd Hl. destruct (index_digit _ Hd) as (_ & Hdig & _).
  unfold digitFromInput. destruct (List.find _ _) as [x|] eqn:E.
  - apply List.find_some in E as [_ E]. unfold digitKeyMatches in E. rewrite Hl, Hdig in E. apply text_eqb_true in E. by rewrite E.
  - apply list_elem_of_In in Hd. apply (List.find_none _ _ E) in Hd. unfold digitKeyMatches in Hd.
    rewrite Hl, Hdig, text_eqb_refl in Hd. done.
Qed.

Lemma canonical_digits_rows bindings canonical b : b ∈ canonical_digits bindings canonical ->
  (forall x, x ∈ canonical -> digit_row [] x <> None) -> digit_row [] b <> None.
Proof.
  revert canonical. induction bindings as [|binding rest IH]; intros canonical; cbn [canonical_digits]; [auto|].
  destruct (canonicalizeDigitIndexBinding binding) as [value|] eqn:E; [|apply IH].
  intros Hb Hc. apply (IH _ Hb). intros x [->|Hx]%include_elem; [|auto].
  destruct (digit_normal _ _ E) as (p & Hp & Hv & Hs). unfold canonicalizeDigitIndexBinding in E.
  destruct (parseKeybinding binding) as [q|] eqn:Eq; [|done]. destruct (pk_doubleTap q) eqn:Ed; [done|]. destruct (is_index_digit _); [|done].
  assert (Hrow : chord (set_key (js "1") q)).
  { destruct (parsed_shape _ _ Eq) as [H|[[m ->]|[H _]]]; [|done|congruence]. apply set_key_chord; [done|].
    by apply (index_digit (js "1")), (bool_decide_unpack _). }
  assert (value = canonicalizeParsedKeybinding (set_key (js "1") q)) as -> by congruence.
  unfold digit_row. rewrite parse_canonical by done. cbn [pk_doubleTap set_key]. by rewrite Ed.
Qed.

Lemma effective_digits id platform overrides b : isDigitIndexActionId id = true ->
  b ∈ getEffectiveKeybindingsForAction id platform overrides -> digit_row [] b <> None.
Proof.
  intros Hid. unfold getEffectiveKeybindingsForAction. destruct (rec_get id DEFINITIONS_BY_ID) as [d|] eqn:Ed; [|by intros ?%not_elem_of_nil].
  destruct (rec_get id overrides) as [override|].
  - rewrite Hid. intros H. apply (canonical_digits_rows _ _ _ H). by intros x ?%not_elem_of_nil.
  - unfold getDefaultBindings. intros (x & -> & Hx)%list_elem_of_fmap. apply definition_get in Ed as [Hd <-].
    pose proof digit_defaults as Hall. rewrite forallb_forall in Hall.
    specialize (Hall d). rewrite List.filter_In, <- list_elem_of_In, forallb_forall in Hall. specialize (Hall (conj Hd Hid)).
    specialize (Hall (getKeybindingPlatform platform) ltac:(destruct (getKeybindingPlatform platform); cbn; auto)).
    rewrite forallb_forall in Hall. apply list_elem_of_In in Hx as Hin. specialize (Hall x Hin).
    pose proof defaults_accepted as Hacc. rewrite forallb_forall in Hacc. apply list_elem_of_In in Hd. specialize (Hacc d Hd).
    rewrite forallb_forall in Hacc.
    specialize (Hacc (getKeybindingPlatform platform) ltac:(destruct (getKeybindingPlatform platform); cbn; auto)).
    rewrite forallb_forall in Hacc. specialize (Hacc x Hin). apply andb_true_iff in Hacc as [Hascii _].
    rewrite normalizeKeybinding_ascii by done. destruct (normalizeKeybindingWithOptions (K := ascii_case) x _) as [value|]; [|done].
    apply andb_true_iff in Hall as [Hv Hrow]. unfold digit_row in *. rewrite parseKeybinding_ascii by done. by case_match.
Qed.

(** An identity that an action claims is that of a chord or a double tap, whose press fires
    the action. *)
Lemma identity_of_parsed id platform overrides b i :
  b ∈ getEffectiveKeybindingsForAction id platform overrides -> i ∈ keybindingConflictIdentities id b platform ->
  exists p, (chord p \/ simple_tap p) /\ i = keybindingConflictIdentityForParsed p platform /\
    ((isDigitIndexActionId id = false /\ parseKeybinding b = Some p) \/
     (isDigitIndexActionId id = true /\ chord p /\ pk_key p ∈ index_digits /\ digit_row (pk_key p) b = Some p)).
Proof.
  intros Hb. destruct (effective_normal _ _ _ _ Hb) as (p & Hp & Heq & Hs). unfold keybindingConflictIdentities.
  destruct (isDigitIndexActionId id) eqn:Hid; cbn [negb].
  - pose proof (effective_digits _ _ _ _ Hid Hb) as Hrow. destruct (digit_row [] b) as [row|] eqn:Er; [|done].
    intros (digit & -> & Hd)%list_elem_of_fmap. exists (set_key digit row).
    assert (Hrow' : digit_row digit b = Some (set_key digit row)).
    { unfold digit_row in *. repeat case_match; try done. by injection Er as <-. }
    destruct (digit_row_identity digit b _ Hd (effective_normal _ _ _ _ Hb) Hrow') as [Hc _].
    split; [by left|]. split; [done|]. right. split_and!; done.
  - intros ->%list_elem_of_singleton. exists p. split; [done|]. split; [|by left].
    unfold keybindingConflictIdentity. by rewrite Hp.
Qed.

Lemma parsed_key_clean p : chord p \/ simple_tap p -> without 43 (pk_key p).
Proof. intros [H|[m ->]]; [by apply chord_clean|]. destruct m; apply not_elem_of_nil. Qed.

Lemma definition_found d : d ∈ KEYBINDING_DEFINITIONS -> rec_get (kd_id d) DEFINITIONS_BY_ID = Some d.
Proof. intros H. by apply definition_get. Qed.

Lemma identity_fires d platform overrides b i p : d ∈ KEYBINDING_DEFINITIONS ->
  b ∈ getEffectiveKeybindingsForAction (kd_id d) platform overrides -> i ∈ keybindingConflictIdentities (kd_id d) b platform ->
  chord p \/ simple_tap p -> i = keybindingConflictIdentityForParsed p platform ->
  fires (kd_id d) (press_of p platform) platform overrides no_options = true.
Proof.
  intros Hd Hb Hi Hs Hip. destruct (identity_of_parsed _ _ _ _ _ Hb Hi) as (q & Hqs & Hiq & Hcase).
  assert (Hsame : same_press p q platform) by (apply identity_same; [by apply parsed_key_clean.. | congruence]).
  unfold fires, keybindingMatchesAction, matchKeybindingDigitIndex. rewrite definition_found by done.
  change (keybindingIsActiveInContext d no_options) with true. cbn [negb].
  destruct Hcase as [[-> Hq]|(-> & Hc & Hkd & Hrow)].
  - apply existsb_exists. exists b. split; [by apply list_elem_of_In|]. by eapply press_matches.
  - assert (Hm : keybindingMatchesInput (canonicalizeParsedKeybinding q) (press_of p platform) platform = true)
      by (eapply press_matches; [by apply parse_canonical | by left | done]).
    assert (Hdig : digitFromInput (press_of p platform) platform = Some (pk_key q)).
    { destruct Hc as [Ht Hk]. unfold same_press in Hsame. rewrite Ht in Hsame. unfold press_of.
      destruct (pk_doubleTap p); [done|]. destruct Hsame as [_ ->]. apply digit_found; [done|]. by apply key_pressed. }
    rewrite Hdig. assert (existsb (fun binding => match digit_row (pk_key q) binding with
       | Some candidate => keybindingMatchesInput (canonicalizeParsedKeybinding candidate) (press_of p platform) platform
       | None => false end) (getEffectiveKeybindingsForAction (kd_id d) platform overrides) = true) as ->; [|done].
    apply existsb_exists. exists b. split; [by apply list_elem_of_In|]. by rewrite Hrow.
Qed.

(** C25. The settings report no conflict that is none: the actions of a reported conflict are
    two or more different actions of one group, one of them customized, none of them
    ignored, and there is a press that fires all of them. *)
Theorem conflicts_have_press platform overrides ignored c :
  c ∈ findKeybindingConflicts platform overrides ignored ->
  NoDup (kc_actionIds c) /\ (1 < List.length (kc_actionIds c))%nat /\
  (exists id, id ∈ kc_actionIds c /\ id ∈ rec_keys overrides) /\
  exists group input, forall id, id ∈ kc_actionIds c ->
    (id ∉ ignored) /\ fires id input platform overrides no_options = true /\
    exists d, d ∈ KEYBINDING_DEFINITIONS /\ kd_id d = id /\ group ∈ conflict_groups d.
Proof.
  intros (key & o & Hget & -> & Hl & id0 & Hid0 & Hcu)%conflict_reported%candidate_elem. cbn [kc_actionIds].
  destruct (owners_spec (all_claims platform overrides ignored)) as [_ Ho]. specialize (Ho key). rewrite Hget in Ho.
  destruct Ho as (Hnd & Hids & (e & He & Hek & _)). split; [done|]. split; [done|]. split.
  - exists id0. split; [done|]. by apply list_elem_of_In, List.filter_In in Hcu as [?%list_elem_of_In _].
  - apply claim_elem in He as (d & b & g & i & [Hd _] & Hb & Hg & Hi & ->). cbn [cl_key] in Hek. subst key.
    destruct (identity_of_parsed _ _ _ _ _ Hb Hi) as (p & Hs & Hip & _). exists g, (press_of p platform).
    intros id (f & Hf & Hfk & <-)%Hids. apply claim_elem in Hf as (d' & b' & g' & i' & [Hd' Hig] & Hb' & Hg' & Hi' & ->).
    cbn [cl_key cl_action] in *.
    assert (Hclean : forall d g, d ∈ KEYBINDING_DEFINITIONS -> g ∈ conflict_groups d -> without 0 g).
    { intros e h He Hh. destruct (definition_clean e He) as [_ H]. rewrite Forall_forall in H. auto. }
    apply cut_inj in Hfk as [-> ->]; [|by eauto..]. split; [done|]. split; [by eapply identity_fires | by exists d'].
Qed.
End spec.

(** Alt+4 renames a tab and selects the fourth one. *)
Definition example_overrides : KeybindingOverrides := [(js "tab.rename", [js "Ctrl+Shift+7"; js "Alt+4"])].

Lemma conflicts_complete_witness :
  let input := press (js "4") (js "Digit4") false false true false in
  fires (K := ascii_case) (js "tab.rename") input (js "linux") example_overrides no_options = true /\
  fires (K := ascii_case) (js "tab.selectByIndex") input (js "linux") example_overrides no_options = true /\
  exists c, c ∈ findKeybindingConflicts (K := ascii_case) (js "linux") example_overrides [] /\
    js "tab.rename" ∈ kc_actionIds c /\ js "tab.selectByIndex" ∈ kc_actionIds c.
Proof.
  cbn zeta. split; [vm_compute; reflexivity|]. split; [vm_compute; reflexivity|]. pose proof ascii_case_laws.
  apply (conflicts_complete (K := ascii_case) (js "linux") example_overrides [] (press (js "4") (js "Digit4") false false true false)
    no_options
    (mkDefinition (js "tab.rename") (js "Rename active tab") (js "Tabs") (js "tabs")
      [js "shortcut"; js "tab"; js "rename"; js "title"; js "label"] (platformBindings []) false false (Some (js "workspace-shell")))
    (mkDefinition (js "tab.selectByIndex") (js "Select Tab 1" ++ [0x2013] ++ js "9") (js "Tab Navigation") (js "tabs")
      [js "shortcut"; js "tab"; js "select"; js "switch"; js "number"; js "digit"; js "1-9"; js "index"]
      (mkPlatformBindings [js "Ctrl+1"] [js "Alt+1"] [js "Alt+1"]) false false None)
    (js "tabs")); cbn [kd_id].
  - apply (definition_get (K := ascii_case) (js "tab.rename")). vm_compute. reflexivity.
  - apply (definition_get (K := ascii_case) (js "tab.selectByIndex")). vm_compute. reflexivity.
  - by vm_compute.
  - apply not_elem_of_nil.
  - apply not_elem_of_nil.
  - apply (bool_decide_unpack _). vm_compute. exact I.
  - apply (bool_decide_unpack _). vm_compute. exact I.
  - apply (bool_decide_unpack _). vm_compute. exact I.
  - vm_compute. reflexivity.
  - vm_compute. reflexivity.
  - vm_compute. reflexivity.
Defined.

Lemma conflicts_have_press_witness :
  exists group input, forall id, id ∈ [js "tab.rename"; js "tab.selectByIndex"] ->
    (id ∉ []) /\ fires (K := ascii_case) id input (js "linux") example_overrides no_options = true /\
    exists d, d ∈ KEYBINDING_DEFINITIONS (K := ascii_case) /\ kd_id d = id /\ group ∈ conflict_groups d.
Proof.
  pose proof ascii_case_laws.
  destruct (conflicts_have_press (K := ascii_case) (js "linux") example_overrides []
    (mkConflict (js "Alt+4") [js "tab.rename"; js "tab.selectByIndex"])) as (_ & _ & _ & H').
  - apply list_elem_of_In. vm_compute. left. reflexivity.
  - exact H'.
Defined.
