(* ===== verification/ShellCommand.v ===== *)
(** Shell commands as text (packages/protocol/typescript/src/agent/shell-command.ts): the
    tokens of a command line, the quoting of one argument and the arguments a user types for
    an agent, for the three shells.  Quoting is what the tokenizer undoes, but for the
    backtick in PowerShell. *)

From stdpp Require Import base list.
From Stdlib Require Import ZArith Lia ZifyBool String.
From S2P Require Import Prelude JsText JsRecord Json KeySyntax.

Open Scope Z_scope.

#[local] Set Warnings "-clear-no-such-hyp".

Inductive StartupHostPlatform :=
  | aix | android | darwin_host | freebsd | haiku | linux_host | openbsd | sunos | win32_host | cygwin | netbsd.

#[export] Instance StartupHostPlatform_eq_dec : EqDecision StartupHostPlatform.
Proof. solve_decision. Defined.

Inductive AgentStartupShell := posix | powershell | cmd.

#[export] Instance AgentStartupShell_eq_dec : EqDecision AgentStartupShell.
Proof. solve_decision. Defined.

(** [None] is [unclosed-quote], the only error. *)
Abbreviation StartupCommandTokens := (option (list jsstring)).

Definition SPACE : Z := 32.
Definition DOUBLE_QUOTE : Z := 34.
Definition SINGLE_QUOTE : Z := 39.
Definition BACKSLASH : Z := 92.
Definition BACKTICK : Z := 96.
Definition CARET : Z := 94.

(** The tokens, the last one included when it has started. *)
Definition close_token (tokens : list jsstring) (token : jsstring) (tokenStarted : bool) : list jsstring :=
  if tokenStarted then tokens ++ [token] else tokens.

Definition is_quote (c : Z) : bool := (c =? DOUBLE_QUOTE) || (c =? SINGLE_QUOTE).

(** The loop, over the units that are left; a unit after the current one is there when the
    rest is not empty. *)
Fixpoint posix_tokens (tokens : list jsstring) (token : jsstring) (tokenStarted : bool) (quote : option Z) (value : jsstring)
    : StartupCommandTokens :=
  match value with
  | [] => match quote with Some _ => None | None => Some (close_token tokens token tokenStarted) end
  | char :: rest =>
      match quote, rest with
      | Some q, next :: rest' =>
          if (char =? BACKSLASH) && (q =? DOUBLE_QUOTE) then posix_tokens tokens (token ++ [next]) tokenStarted quote rest'
          else if char =? q then posix_tokens tokens token true None rest
          else posix_tokens tokens (token ++ [char]) tokenStarted quote rest
      | Some q, [] =>
          if char =? q then posix_tokens tokens token true None rest
          else posix_tokens tokens (token ++ [char]) tokenStarted quote rest
      | None, _ =>
          if is_quote char then posix_tokens tokens token true (Some char) rest
          else match rest with
          | next :: rest' =>
              if char =? BACKSLASH then posix_tokens tokens (token ++ [next]) true None rest'
              else if is_white char then posix_tokens (close_token tokens token tokenStarted) (if tokenStarted then [] else token) false None rest
              else posix_tokens tokens (token ++ [char]) true None rest
          | [] =>
              if is_white char then posix_tokens (close_token tokens token tokenStarted) (if tokenStarted then [] else token) false None rest
              else posix_tokens tokens (token ++ [char]) true None rest
          end
      end
  end.

Definition tokenizePosixStartupCommand (value : jsstring) : StartupCommandTokens := posix_tokens [] [] false None value.

Definition escape_of (shell : AgentStartupShell) : Z := match shell with cmd => CARET | _ => BACKTICK end.

Fixpoint windows_tokens (shell : AgentStartupShell) (tokens : list jsstring) (token : jsstring) (tokenStarted : bool)
    (quote : option Z) (value : jsstring) : StartupCommandTokens :=
  match value with
  | [] => match quote with Some _ => None | None => Some (close_token tokens token tokenStarted) end
  | char :: rest =>
      let unescaped :=
        match quote with
        | Some q =>
            if char =? q then
              match shell, rest with
              | powershell, next :: rest' =>
                  if (q =? SINGLE_QUOTE) && (next =? SINGLE_QUOTE)
                  then windows_tokens shell tokens (token ++ [SINGLE_QUOTE]) true quote rest'
                  else windows_tokens shell tokens token true None rest
              | _, _ => windows_tokens shell tokens token true None rest
              end
            else windows_tokens shell tokens (token ++ [char]) true quote rest
        | None =>
            if is_quote char then windows_tokens shell tokens token true (Some char) rest
            else if is_white char then
              windows_tokens shell (close_token tokens token tokenStarted) (if tokenStarted then [] else token) false None rest
            else windows_tokens shell tokens (token ++ [char]) true None rest
        end in
      match rest with
      | next :: rest' =>
          if char =? escape_of shell then windows_tokens shell tokens (token ++ [next]) true quote rest' else unescaped
      | [] => unescaped
      end
  end.

Definition tokenizeWindowsStartupCommand (value : jsstring) (shell : AgentStartupShell) : StartupCommandTokens :=
  windows_tokens shell [] [] false None value.

Definition tokenizeStartupCommand (value : jsstring) (shell : AgentStartupShell) : StartupCommandTokens :=
  match shell with
  | posix => tokenizePosixStartupCommand value
  | _ => tokenizeWindowsStartupCommand value shell
  end.

Definition resolveStartupShell (platform : StartupHostPlatform) (shell : option AgentStartupShell) : AgentStartupShell :=
  match shell with
  | Some shell => shell
  | None => match platform with win32_host => powershell | _ => posix end
  end.

(** The units [cmd] escapes: the caret, the operators, the parentheses, the per cent sign, the
    exclamation mark and the double quote. *)
Definition cmd_special (c : Z) : bool :=
  existsb (Z.eqb c) [94; 38; 124; 60; 62; 40; 41; 37; 33; 34].

(** One unit of an argument inside the quotes. *)
Definition quote_unit (shell : AgentStartupShell) (c : Z) : jsstring :=
  match shell with
  | powershell => if c =? SINGLE_QUOTE then [SINGLE_QUOTE; SINGLE_QUOTE] else [c]
  | cmd => if cmd_special c then [CARET; c] else [c]
  | posix => if c =? SINGLE_QUOTE then [SINGLE_QUOTE; BACKSLASH; SINGLE_QUOTE; SINGLE_QUOTE] else [c]
  end.

Definition quote_mark (shell : AgentStartupShell) : Z := match shell with cmd => DOUBLE_QUOTE | _ => SINGLE_QUOTE end.

Definition quoteStartupArg (value : jsstring) (shell : AgentStartupShell) : jsstring :=
  [quote_mark shell] ++ List.concat (quote_unit shell <$> value) ++ [quote_mark shell].

Definition commandSeparator (shell : AgentStartupShell) : jsstring :=
  match shell with cmd => js " & " | _ => js "; " end.

Definition quoted_args (args : list jsstring) (shell : AgentStartupShell) : jsstring :=
  join [SPACE] ((fun arg => quoteStartupArg arg shell) <$> args).

(** [None] is [unclosed-quote]; missing arguments are the empty text. *)
Definition planAgentCliArgsSuffix (agentArgs : option jsstring) (shell : AgentStartupShell) : option jsstring :=
  let trimmed := trim (default [] agentArgs) in
  if text_eqb trimmed [] then Some []
  else match tokenizeStartupCommand trimmed shell with
       | None => None
       | Some tokens => Some (quoted_args tokens shell)
       end.

Definition buildShellCommandFromArgv (args : list jsstring) (shell : AgentStartupShell) : jsstring :=
  let command := quoted_args args shell in
  match shell with
  | powershell => if text_eqb command [] then command else js "& " ++ command
  | _ => command
  end.

Definition clearEnvCommand (name : jsstring) (shell : AgentStartupShell) : jsstring :=
  match shell with
  | powershell => js "Remove-Item Env:" ++ name ++ js " -ErrorAction SilentlyContinue"
  | cmd => js "set " ++ [DOUBLE_QUOTE] ++ name ++ js "=" ++ [DOUBLE_QUOTE]
  | posix => js "unset " ++ name
  end.

(** ** Quoting and reading *)

(** What the tokenizer of a shell reads back: in PowerShell, no backtick. *)
Definition readable (shell : AgentStartupShell) (arg : jsstring) : Prop :=
  match shell with powershell => BACKTICK ∉ arg | _ => True end.

(** The tokenizer of a shell, from the middle of a line. *)
Definition read_on (shell : AgentStartupShell) (tokens : list jsstring) (token : jsstring) (tokenStarted : bool)
    (quote : option Z) (value : jsstring) : StartupCommandTokens :=
  match shell with
  | posix => posix_tokens tokens token tokenStarted quote value
  | _ => windows_tokens shell tokens token tokenStarted quote value
  end.

Lemma read_start value shell : tokenizeStartupCommand value shell = read_on shell [] [] false None value.
Proof. by destruct shell. Qed.

Section reading.
Context (shell : AgentStartupShell).

(** Outside of quotes. *)
Lemma read_plain tokens token started c rest : is_quote c = false -> is_white c = false ->
  c <> BACKSLASH -> c <> BACKTICK -> c <> CARET ->
  read_on shell tokens token started None (c :: rest) = read_on shell tokens (token ++ [c]) true None rest.
Proof.
  intros Hq Hw H1 H2 H3. unfold BACKSLASH, BACKTICK, CARET in *.
  destruct shell; cbn -[is_quote is_white]; unfold BACKSLASH, BACKTICK, CARET; rewrite Hq, Hw; destruct rest as [|n rest]; try done;
    case_match; try done; lia.
Qed.

Lemma read_space tokens token started rest :
  read_on shell tokens token started None (SPACE :: rest)
    = read_on shell (close_token tokens token started) (if started then [] else token) false None rest.
Proof. destruct shell; cbn; by destruct rest. Qed.

(** A unit of a quoted argument. *)
Lemma read_unit tokens token c rest : readable shell [c] -> rest <> [] ->
  read_on shell tokens token true (Some (quote_mark shell)) (quote_unit shell c ++ rest)
    = read_on shell tokens (token ++ [c]) true (Some (quote_mark shell)) rest.
Proof.
  unfold readable, SINGLE_QUOTE, DOUBLE_QUOTE, BACKTICK, quote_unit, quote_mark. destruct shell; intros Hr Hn.
  - destruct (c =? SINGLE_QUOTE) eqn:E.
    + unfold SINGLE_QUOTE in E. assert (c = 39) as -> by lia. destruct rest; [done|]. reflexivity.
    + destruct rest as [|n rest]; [done|]. cbn. unfold SINGLE_QUOTE, DOUBLE_QUOTE in *. by rewrite andb_false_r, E.
  - rewrite not_elem_of_cons in Hr. destruct Hr as [Hr _]. destruct (c =? SINGLE_QUOTE) eqn:E.
    + unfold SINGLE_QUOTE in E. assert (c = 39) as -> by lia. by destruct rest.
    + destruct rest as [|n rest]; [done|]. cbn. unfold SINGLE_QUOTE, BACKTICK in *. rewrite E. destruct (c =? 96) eqn:E'; [lia|done].
  - destruct (cmd_special c) eqn:E; [by destruct rest|]. destruct rest as [|n rest]; [done|]. cbn.
    unfold cmd_special in E. cbn [existsb] in E. unfold CARET, DOUBLE_QUOTE in *.
    destruct (c =? 94) eqn:E1; [done|]. destruct (c =? 34) eqn:E2; [|done]. rewrite !orb_false_iff in E. intuition lia.
Qed.

Lemma readable_cons c arg : readable shell (c :: arg) -> readable shell [c] /\ readable shell arg.
Proof. unfold readable. destruct shell; [done| |done]. rewrite !not_elem_of_cons. intros [? ?]. split; [|done].
  split; [done | apply not_elem_of_nil]. Qed.

Lemma read_units tokens token arg rest : readable shell arg -> rest <> [] ->
  read_on shell tokens token true (Some (quote_mark shell)) (List.concat (quote_unit shell <$> arg) ++ rest)
    = read_on shell tokens (token ++ arg) true (Some (quote_mark shell)) rest.
Proof.
  revert token. induction arg as [|c arg IH]; intros token Hr Hn; cbn [fmap list_fmap List.concat]; [by rewrite app_nil_r|].
  apply readable_cons in Hr as [Hc Ha]. rewrite <- app_assoc, read_unit, IH; [by rewrite <- app_assoc|..]; try done.
  by destruct (List.concat _), rest.
Qed.

(** A quoted argument is one token, up to what follows it. *)
Lemma read_quoted tokens token started arg rest : readable shell arg ->
  (shell = powershell -> head rest <> Some SINGLE_QUOTE) ->
  read_on shell tokens token started None (quoteStartupArg arg shell ++ rest) = read_on shell tokens (token ++ arg) true None rest.
Proof.
  intros Hr Hp. unfold quoteStartupArg. rewrite <- !app_assoc. cbn [app].
  transitivity (read_on shell tokens token true (Some (quote_mark shell)) (List.concat (quote_unit shell <$> arg) ++ quote_mark shell :: rest)).
  { destruct (List.concat (quote_unit shell <$> arg) ++ quote_mark shell :: rest) eqn:E;
      [by destruct (List.concat (quote_unit shell <$> arg)) | by destruct shell]. }
  rewrite read_units by done. destruct shell; cbn; destruct rest as [|n rest]; try done.
  destruct (n =? SINGLE_QUOTE) eqn:E; [|done]. destruct Hp; [done|]. cbn. f_equal. lia.
Qed.

(** Arguments after a token that has ended. *)
Lemma read_args tokens args : Forall (readable shell) args ->
  read_on shell tokens [] false None (quoted_args args shell) = Some (tokens ++ args).
Proof.
  intros H. revert tokens. induction H as [|arg args Ha H IH]; intros tokens.
  - rewrite app_nil_r. by destruct shell.
  - destruct args as [|next args].
    + unfold quoted_args. cbn [fmap list_fmap join]. rewrite <- (app_nil_r (quoteStartupArg arg shell)), read_quoted by done.
      by destruct shell.
    + change (quoted_args (arg :: next :: args) shell) with (quoteStartupArg arg shell ++ SPACE :: quoted_args (next :: args) shell).
      rewrite read_quoted, read_space by done. cbn [close_token app]. rewrite IH. by rewrite <- app_assoc.
Qed.

(** *** A command before its arguments *)

(** The unit that escapes the next one. *)
Definition shell_escape : Z := match shell with posix => BACKSLASH | _ => escape_of shell end.

Definition idle (token : jsstring) (started : bool) (quote : option Z) : Prop := started = false -> token = [] /\ quote = None.

Lemma idle_started token quote : idle token true quote.
Proof. done. Qed.

Lemma last_rest (c next : Z) rest e : last (c :: next :: rest) <> Some e -> last (next :: rest) <> Some e.
Proof. done. Qed.

Lemma last_rest' (c next : Z) rest e : last (c :: next :: rest) <> Some e -> last rest <> Some e \/ rest = [].
Proof. destruct rest; [by right | by left]. Qed.

Lemma read_end tokens token started quote ts rest : idle token started quote ->
  read_on shell tokens token started quote [] = Some ts ->
  read_on shell tokens token started quote (SPACE :: rest) = read_on shell ts [] false None rest.
Proof.
  intros Hi H. assert (quote = None) as -> by (destruct shell; cbn in H; by destruct quote).
  assert (ts = close_token tokens token started) as -> by (destruct shell; cbn in H; congruence).
  rewrite read_space. destruct started; [done|]. by destruct (Hi eq_refl) as [-> _].
Qed.
End reading.

Lemma posix_step tokens token started quote c next value : posix_tokens tokens token started quote (c :: next :: value) =
  match quote with
  | Some q =>
      if (c =? BACKSLASH) && (q =? DOUBLE_QUOTE) then posix_tokens tokens (token ++ [next]) started quote value
      else if c =? q then posix_tokens tokens token true None (next :: value)
      else posix_tokens tokens (token ++ [c]) started quote (next :: value)
  | None =>
      if is_quote c then posix_tokens tokens token true (Some c) (next :: value)
      else if c =? BACKSLASH then posix_tokens tokens (token ++ [next]) true None value
      else if is_white c then posix_tokens (close_token tokens token started) (if started then [] else token) false None (next :: value)
      else posix_tokens tokens (token ++ [c]) true None (next :: value)
  end.
Proof. by destruct quote. Qed.

Lemma windows_step shell tokens token started quote c next value :
  windows_tokens shell tokens token started quote (c :: next :: value) =
  if c =? escape_of shell then windows_tokens shell tokens (token ++ [next]) true quote value
  else match quote with
  | Some q =>
      if c =? q then
        if bool_decide (shell = powershell) && ((q =? SINGLE_QUOTE) && (next =? SINGLE_QUOTE))
        then windows_tokens shell tokens (token ++ [SINGLE_QUOTE]) true quote value
        else windows_tokens shell tokens token true None (next :: value)
      else windows_tokens shell tokens (token ++ [c]) true quote (next :: value)
  | None =>
      if is_quote c then windows_tokens shell tokens token true (Some c) (next :: value)
      else if is_white c then
        windows_tokens shell (close_token tokens token started) (if started then [] else token) false None (next :: value)
      else windows_tokens shell tokens (token ++ [c]) true None (next :: value)
  end.
Proof. by destruct shell, quote. Qed.

Lemma posix_app value : forall tokens token started quote ts rest, idle token started quote ->
  last value <> Some BACKSLASH -> posix_tokens tokens token started quote value = Some ts ->
  posix_tokens tokens token started quote (value ++ SPACE :: rest) = posix_tokens ts [] false None rest.
Proof.
  remember (List.length value) as n eqn:Hlen. assert (Hn : (List.length value <= n)%nat) by lia. clear Hlen. revert value Hn.
  induction n as [|n IH]; intros [|c value] Hn tokens token started quote ts rest Hi Hl; cbn in Hn; try lia;
    try exact (read_end posix tokens token started quote ts rest Hi).
  destruct value as [|next value].
  - assert (c <> BACKSLASH) by (by intros ->). intros H'.
    assert (Hc : (c =? BACKSLASH) = false) by lia. cbn [app]. cbn -[is_quote is_white SPACE] in H' |- *. rewrite ?Hc in *. cbn [andb].
    destruct quote as [q|].
    + destruct (c =? q); [|done]. by apply (read_end posix tokens token true None).
    + destruct (is_quote c); [done|]. destruct (is_white c).
      * assert (Hidle : idle (if started then [] else token) false None) by (destruct started; [done|]; by destruct (Hi eq_refl) as [-> _]).
        by apply (read_end posix (close_token tokens token started) _ false None).
      * by apply (read_end posix tokens _ true None).
  - apply last_rest in Hl as Hl1. apply last_rest' in Hl as Hl2.
    assert (IH1 : forall tokens token started quote, idle token started quote -> posix_tokens tokens token started quote (next :: value) = Some ts ->
      posix_tokens tokens token started quote ((next :: value) ++ SPACE :: rest) = posix_tokens ts [] false None rest)
      by (intros; apply IH; [cbn in *; lia|done..]).
    assert (IH2 : forall tokens token started quote, idle token started quote -> posix_tokens tokens token started quote value = Some ts ->
      posix_tokens tokens token started quote (value ++ SPACE :: rest) = posix_tokens ts [] false None rest).
    { intros ???? Hi' ?. destruct Hl2 as [Hl2| ->]; [apply IH; [cbn in *; lia|done..] | by apply (read_end posix)]. }
    clear IH. cbn [app] in *. rewrite !posix_step. destruct quote as [q|].
    + assert (started = true) as -> by (destruct started; [done|]; by destruct (Hi eq_refl)).
      destruct ((c =? BACKSLASH) && _); [by apply IH2|]. destruct (c =? q); by apply IH1.
    + destruct (is_quote c); [by apply IH1|]. destruct (c =? BACKSLASH); [by apply IH2|].
      destruct (is_white c); [|by apply IH1]. apply IH1. intros _. split; [|done]. destruct started; [done|]. by apply Hi.
Qed.

Lemma windows_app shell value : shell <> posix -> forall tokens token started quote ts rest, idle token started quote ->
  last value <> Some (escape_of shell) -> windows_tokens shell tokens token started quote value = Some ts ->
  windows_tokens shell tokens token started quote (value ++ SPACE :: rest) = windows_tokens shell ts [] false None rest.
Proof.
  intros Hshell. remember (List.length value) as n eqn:Hlen. assert (Hn : (List.length value <= n)%nat) by lia. clear Hlen. revert value Hn.
  assert (Hend : forall tokens token started quote ts rest, idle token started quote -> windows_tokens shell tokens token started quote [] = Some ts ->
    windows_tokens shell tokens token started quote (SPACE :: rest) = windows_tokens shell ts [] false None rest)
    by (pose proof (read_end shell) as He; by destruct shell).
  induction n as [|n IH]; intros [|c value] Hn tokens token started quote ts rest Hi Hl; cbn in Hn; try lia; try by apply Hend.
  destruct value as [|next value].
  - assert (c <> escape_of shell) by (by intros ->). intros H'.
    assert (Hc : (c =? escape_of shell) = false) by lia. cbn [app]. rewrite windows_step, Hc.
    cbn -[is_quote is_white SPACE escape_of] in H'. destruct quote as [q|].
    + change (SPACE =? SINGLE_QUOTE) with false. rewrite !andb_false_r. destruct (c =? q); [|done].
      apply Hend; [done|]. by destruct shell.
    + destruct (is_quote c); [done|]. destruct (is_white c); [|by apply Hend].
      apply Hend; [|done]. intros _. split; [|done]. destruct started; [done|]. by apply Hi.
  - apply last_rest in Hl as Hl1. apply last_rest' in Hl as Hl2.
    assert (IH1 : forall tokens token started quote, idle token started quote -> windows_tokens shell tokens token started quote (next :: value) = Some ts ->
      windows_tokens shell tokens token started quote ((next :: value) ++ SPACE :: rest) = windows_tokens shell ts [] false None rest)
      by (intros; apply IH; [cbn in *; lia|done..]).
    assert (IH2 : forall tokens token started quote, idle token started quote -> windows_tokens shell tokens token started quote value = Some ts ->
      windows_tokens shell tokens token started quote (value ++ SPACE :: rest) = windows_tokens shell ts [] false None rest).
    { intros ???? Hi' ?. destruct Hl2 as [Hl2| ->]; [apply IH; [cbn in *; lia|done..] | by apply Hend]. }
    clear IH. cbn [app] in *. rewrite !windows_step. destruct (c =? escape_of shell); [by apply IH2|].
    destruct quote as [q|].
    + destruct (c =? q); [|by apply IH1]. destruct (bool_decide _ && _); [by apply IH2 | by apply IH1].
    + destruct (is_quote c); [by apply IH1|]. destruct (is_white c); [|by apply IH1].
      apply IH1. intros _. split; [|done]. destruct started; [done|]. by apply Hi.
Qed.

(** *** Command lines *)

(** A command line that reads as tokens, and keeps doing so when arguments follow. *)
Definition command_line (shell : AgentStartupShell) (command : jsstring) (tokens : list jsstring) : Prop :=
  tokenizeStartupCommand command shell = Some tokens /\ last command <> Some (shell_escape shell).

Lemma command_read shell command tokens rest : command_line shell command tokens ->
  tokenizeStartupCommand (command ++ SPACE :: rest) shell = read_on shell tokens [] false None rest.
Proof.
  intros [H Hl]. rewrite read_start in *. destruct shell; cbn [read_on shell_escape] in *.
  - by apply posix_app.
  - by apply windows_app.
  - by apply windows_app.
Qed.

Lemma last_app_one {A} (l : list A) x : last (l ++ [x]) = Some x.
Proof. apply last_snoc. Qed.

Lemma quoted_last arg shell : last (quoteStartupArg arg shell) = Some (quote_mark shell).
Proof. unfold quoteStartupArg. rewrite app_assoc. apply last_snoc. Qed.

Lemma quoted_args_last args shell : args <> [] -> last (quoted_args args shell) = Some (quote_mark shell).
Proof.
  induction args as [|arg args IH]; [done|]. intros _. destruct args as [|next args]; [apply quoted_last|].
  change (quoted_args (arg :: next :: args) shell) with (quoteStartupArg arg shell ++ SPACE :: quoted_args (next :: args) shell).
  rewrite last_app, last_cons, IH by done. done.
Qed.

Lemma quote_not_escape shell : quote_mark shell <> shell_escape shell.
Proof. by destruct shell. Qed.

(** Quoted arguments after a command are its arguments, and more may follow. *)
Lemma command_args shell command tokens args : command_line shell command tokens -> Forall (readable shell) args ->
  args <> [] -> command_line shell (command ++ SPACE :: quoted_args args shell) (tokens ++ args).
Proof.
  intros Hc Ha Hn. split.
  - rewrite (command_read shell command tokens) by done. by apply read_args.
  - rewrite last_app, last_cons, quoted_args_last by done. intros [= H]. by destruct (quote_not_escape shell).
Qed.

(** A word of plain units after a command. *)
Definition plain_unit (c : Z) : bool :=
  negb (is_quote c) && negb (is_white c) && negb ((c =? BACKSLASH) || (c =? BACKTICK) || (c =? CARET)).

Lemma read_word shell tokens token started word : forallb plain_unit word = true -> word <> [] ->
  read_on shell tokens token started None word = read_on shell tokens (token ++ word) true None [].
Proof.
  intros H. revert token started. induction word as [|c word IH]; [done|]. intros token started _. cbn [forallb] in H.
  unfold plain_unit at 1 in H. rewrite !andb_true_iff, !negb_true_iff, !orb_false_iff in H.
  rewrite read_plain by (unfold BACKSLASH, BACKTICK, CARET in *; intuition lia || intuition).
  destruct word as [|next word]; [done|]. rewrite IH by (done || intuition). by rewrite <- app_assoc.
Qed.

Lemma command_word shell command tokens word : command_line shell command tokens -> forallb plain_unit word = true ->
  word <> [] -> command_line shell (command ++ SPACE :: word) (tokens ++ [word]).
Proof.
  intros Hc Hw Hn. split.
  - rewrite (command_read shell command tokens), read_word by done. by destruct shell.
  - rewrite last_app, last_cons. destruct (last word) as [c|] eqn:E; [|by apply last_None in E].
    apply last_Some in E as [l ->]. rewrite forallb_app in Hw. apply andb_true_iff in Hw as [_ Hw]. cbn [forallb] in Hw.
    rewrite andb_true_r in Hw. intros H. assert (c = shell_escape shell) as -> by congruence. by destruct shell.
Qed.

(** C32. The arguments a user types for an agent reach it unchanged: what is put on the command
    line reads as the very words the text read as, in each of the three shells (in
    PowerShell, words without a backtick). *)
Theorem typed_arguments_kept agentArgs shell tokens :
  tokenizeStartupCommand (trim agentArgs) shell = Some tokens ->
  Forall (readable shell) tokens ->
  exists suffix, planAgentCliArgsSuffix (Some agentArgs) shell = Some suffix /\
    tokenizeStartupCommand suffix shell = Some tokens.
Proof.
  intros Ht Hr. unfold planAgentCliArgsSuffix. change (default [] (Some agentArgs)) with agentArgs. cbn zeta.
  destruct (text_eqb (trim agentArgs) []) eqn:E.
  - apply text_eqb_true in E. rewrite E in Ht. by exists [].
  - rewrite Ht. exists (quoted_args tokens shell). split; [done|]. rewrite read_start. by rewrite read_args.
Qed.

Lemma typed_arguments_kept_witness :
  exists suffix, planAgentCliArgsSuffix (Some (js " --note 'it is' a\'b ")) posix = Some suffix /\
    tokenizeStartupCommand suffix posix = Some [js "--note"; js "it is"; js "a'b"].
Proof. apply typed_arguments_kept; [vm_compute; reflexivity | by repeat constructor]. Defined.

(** A backtick in single quotes is itself to PowerShell; the tokenizer takes it for an
    escape, so that it is lost, and what the quoting makes does not read back. *)
Lemma powershell_backtick_lost :
  planAgentCliArgsSuffix (Some (js "'a`b'")) powershell = Some (js "'ab'")
  /\ tokenizeStartupCommand (quoteStartupArg (js "a`") powershell) powershell = None.
Proof. split; vm_compute; reflexivity. Qed.
