(* ===== verification/AgentConfig.v ===== *)
(** The agents and how each is started (packages/protocol/typescript/src/agent:
    launch/config.ts), and the options a session is started with (session-options:
    catalog-types.ts, claude-codex.ts, gemini-cursor.ts, catalog.ts, launch.ts), as the
    tables of the source. *)

From stdpp Require Import base list.
From Stdlib Require Import ZArith Lia ZifyBool String.
From S2P Require Import Prelude JsText JsRecord Json KeySyntax ShellCommand.

Open Scope Z_scope.

#[local] Set Warnings "-clear-no-such-hyp".

(** ** types.ts, launch/config.ts *)

Inductive TuiAgent :=
  | agent_claude | agent_openclaude | agent_codex | agent_autohand | agent_opencode | agent_mimo_code
  | agent_pi | agent_omp | agent_gemini | agent_antigravity | agent_aider | agent_goose
  | agent_amp | agent_kilo | agent_kiro | agent_crush | agent_aug | agent_cline
  | agent_codebuff | agent_command_code | agent_continue | agent_cursor | agent_droid | agent_kimi
  | agent_mistral_vibe | agent_qwen_code | agent_rovo | agent_hermes | agent_openclaw | agent_copilot
  | agent_grok | agent_devin | agent_ante | agent_trae.

#[export] Instance TuiAgent_eq_dec : EqDecision TuiAgent.
Proof. solve_decision. Defined.

(** The agent as text. *)
Definition agent_id (agent : TuiAgent) : jsstring :=
  match agent with
  | agent_claude => js "claude"
  | agent_openclaude => js "openclaude"
  | agent_codex => js "codex"
  | agent_autohand => js "autohand"
  | agent_opencode => js "opencode"
  | agent_mimo_code => js "mimo-code"
  | agent_pi => js "pi"
  | agent_omp => js "omp"
  | agent_gemini => js "gemini"
  | agent_antigravity => js "antigravity"
  | agent_aider => js "aider"
  | agent_goose => js "goose"
  | agent_amp => js "amp"
  | agent_kilo => js "kilo"
  | agent_kiro => js "kiro"
  | agent_crush => js "crush"
  | agent_aug => js "aug"
  | agent_cline => js "cline"
  | agent_codebuff => js "codebuff"
  | agent_command_code => js "command-code"
  | agent_continue => js "continue"
  | agent_cursor => js "cursor"
  | agent_droid => js "droid"
  | agent_kimi => js "kimi"
  | agent_mistral_vibe => js "mistral-vibe"
  | agent_qwen_code => js "qwen-code"
  | agent_rovo => js "rovo"
  | agent_hermes => js "hermes"
  | agent_openclaw => js "openclaw"
  | agent_copilot => js "copilot"
  | agent_grok => js "grok"
  | agent_devin => js "devin"
  | agent_ante => js "ante"
  | agent_trae => js "trae"
  end.

Inductive AgentPromptInjectionMode :=
  | mode_argv | mode_flag_prompt | mode_flag_prompt_interactive | mode_flag_interactive | mode_hermes_query
  | mode_stdin_after_start.

Inductive DraftPasteReadySignal := render_quiet | codex_composer_prompt | render_cursor.

Inductive PreflightTrust := trust_cursor | trust_copilot | trust_codex.

(** [cfg_csi_u] is [windowsShiftEnterEncoding: 'csi-u']. *)
Record TuiAgentConfig := mkAgentConfig {
  cfg_detectCmd : jsstring;
  cfg_detectCmdAliases : option (list jsstring);
  cfg_launchCmd : jsstring;
  cfg_launchCmdByPlatform : list (StartupHostPlatform * jsstring);
  cfg_expectedProcess : jsstring;
  cfg_promptInjectionMode : AgentPromptInjectionMode;
  cfg_argvPromptSeparator : option jsstring;
  cfg_draftPromptFlag : option jsstring;
  cfg_draftPromptEnvVar : option jsstring;
  cfg_preflightTrust : option PreflightTrust;
  cfg_draftPasteReadySignal : option DraftPasteReadySignal;
  cfg_csi_u : bool
}.

Definition TUI_AGENT_CONFIG (agent : TuiAgent) : TuiAgentConfig :=
  match agent with
  | agent_claude => mkAgentConfig (js "claude") None (js "claude") [] (js "claude") mode_argv None (Some (js "--prefill")) None
      None None false
  | agent_openclaude => mkAgentConfig (js "openclaude") None (js "openclaude") [] (js "openclaude") mode_argv None (Some (js "--prefill")) None
      None None false
  | agent_codex => mkAgentConfig (js "codex") None (js "codex") [] (js "codex") mode_argv None None None
      (Some trust_codex) (Some codex_composer_prompt) false
  | agent_autohand => mkAgentConfig (js "autohand") None (js "autohand") [] (js "autohand") mode_stdin_after_start None None None
      None None false
  | agent_ante => mkAgentConfig (js "ante") None (js "ante") [] (js "ante") mode_stdin_after_start None None None
      None None false
  | agent_trae => mkAgentConfig (js "traecli") None (js "traecli") [] (js "traecli") mode_argv (Some (js "--")) None None
      None None false
  | agent_opencode => mkAgentConfig (js "opencode") None (js "opencode") [] (js "opencode") mode_flag_prompt None None None
      None (Some render_cursor) false
  | agent_mimo_code => mkAgentConfig (js "mimo") None (js "mimo") [] (js "mimo") mode_flag_prompt None None None
      None (Some render_cursor) false
  | agent_pi => mkAgentConfig (js "pi") None (js "pi") [] (js "pi") mode_argv None None (Some (js "AGENTSTART_PI_PREFILL"))
      None None false
  | agent_omp => mkAgentConfig (js "omp") None (js "omp") [] (js "omp") mode_argv None None (Some (js "AGENTSTART_OMP_PREFILL"))
      None None false
  | agent_gemini => mkAgentConfig (js "gemini") None (js "gemini") [] (js "gemini") mode_flag_prompt_interactive None None None
      None None false
  | agent_antigravity => mkAgentConfig (js "agy") None (js "agy") [] (js "agy") mode_flag_prompt_interactive None None None
      None None false
  | agent_aider => mkAgentConfig (js "aider") None (js "aider") [] (js "aider") mode_stdin_after_start None None None
      None None false
  | agent_goose => mkAgentConfig (js "goose") None (js "goose") [] (js "goose") mode_stdin_after_start None None None
      None None false
  | agent_amp => mkAgentConfig (js "amp") None (js "amp") [] (js "amp") mode_stdin_after_start None None None
      None None false
  | agent_kilo => mkAgentConfig (js "kilo") None (js "kilo") [] (js "kilo") mode_stdin_after_start None None None
      None None false
  | agent_kiro => mkAgentConfig (js "kiro-cli") None (js "kiro-cli chat --tui") [] (js "kiro-cli") mode_stdin_after_start None None None
      None None false
  | agent_crush => mkAgentConfig (js "crush") None (js "crush") [] (js "crush") mode_stdin_after_start None None None
      None None false
  | agent_aug => mkAgentConfig (js "auggie") None (js "auggie") [] (js "auggie") mode_stdin_after_start None None None
      None None false
  | agent_cline => mkAgentConfig (js "cline") None (js "cline") [] (js "cline") mode_stdin_after_start None None None
      None None false
  | agent_codebuff => mkAgentConfig (js "codebuff") None (js "codebuff") [] (js "codebuff") mode_stdin_after_start None None None
      None None false
  | agent_command_code => mkAgentConfig (js "command-code") None (js "command-code --trust") [] (js "command-code") mode_argv None None None
      None None false
  | agent_continue => mkAgentConfig (js "cn") None (js "cn") [] (js "cn") mode_stdin_after_start None None None
      None None false
  | agent_cursor => mkAgentConfig (js "cursor-agent") None (js "cursor-agent") [] (js "cursor-agent") mode_argv None None None
      (Some trust_cursor) None false
  | agent_droid => mkAgentConfig (js "droid") None (js "droid") [] (js "droid") mode_argv None None None
      None None true
  | agent_kimi => mkAgentConfig (js "kimi") None (js "kimi") [] (js "kimi") mode_stdin_after_start None None None
      None None false
  | agent_mistral_vibe => mkAgentConfig (js "vibe") (Some [js "mistral-vibe"]) (js "vibe") [] (js "vibe") mode_stdin_after_start None None None
      None None false
  | agent_qwen_code => mkAgentConfig (js "qwen") None (js "qwen") [] (js "qwen") mode_stdin_after_start None None None
      None None false
  | agent_rovo => mkAgentConfig (js "rovo") None (js "rovo") [] (js "rovo") mode_stdin_after_start None None None
      None None false
  | agent_hermes => mkAgentConfig (js "hermes") None (js "hermes --tui") [] (js "hermes") mode_hermes_query None None None
      None None false
  | agent_openclaw => mkAgentConfig (js "openclaw") None (js "openclaw") [] (js "openclaw") mode_stdin_after_start None None None
      None None false
  | agent_copilot => mkAgentConfig (js "copilot") None (js "copilot") [] (js "copilot") mode_flag_interactive None None None
      (Some trust_copilot) None false
  | agent_grok => mkAgentConfig (js "grok") None (js "grok") [] (js "grok") mode_argv (Some (js "--")) None None
      None None false
  | agent_devin => mkAgentConfig (js "devin") None (js "devin") [] (js "devin") mode_stdin_after_start None None None
      None None false
  end.

Definition getTuiAgentDetectCommands (config : TuiAgentConfig) : list jsstring :=
  cfg_detectCmd config :: default [] (cfg_detectCmdAliases config).

Definition getTuiAgentLaunchCommand (config : TuiAgentConfig) (platform : StartupHostPlatform) (isRemote : bool) : jsstring :=
  if isRemote && bool_decide (platform = linux_host) then cfg_launchCmd config
  else match List.find (fun e => bool_decide (fst e = platform)) (cfg_launchCmdByPlatform config) with
       | Some e => snd e
       | None => cfg_launchCmd config
       end.

(** ** session-options *)

Inductive SessionOptionValue := opt_text (s : jsstring) | opt_flag (b : bool).

(** [String(value)] *)
Definition value_text (value : SessionOptionValue) : jsstring :=
  match value with opt_text s => s | opt_flag true => js "true" | opt_flag false => js "false" end.

Record SessionOptionSelectChoice := mkChoice { ch_value : jsstring; ch_label : jsstring }.

Inductive SessionOptionCategory := cat_model | cat_thought_level | cat_model_config | cat_mode.

Inductive CatalogMidSessionApply :=
  | mid_command (build : SessionOptionValue -> jsstring) (pickerCommand : option jsstring) (detectsSwitchConfirmation : bool)
  | mid_toggle_command (command : jsstring)
  | mid_agent_picker (command : jsstring)
  | mid_unsupported.

Record CatalogOptionApply := mkApply {
  ap_launchArgs : option (SessionOptionValue -> list jsstring);
  ap_agentArgsOverride : option (list jsstring -> bool);
  ap_composedIntoModel : bool;
  ap_midSession : option CatalogMidSessionApply
}.

Inductive CatalogOptionKind :=
  | kind_select (choices : list SessionOptionSelectChoice) (defaultValue : jsstring)
  | kind_boolean (defaultValue : bool).

Record CatalogOption := mkOption {
  op_id : jsstring;
  op_label : jsstring;
  op_category : option SessionOptionCategory;
  op_kind : CatalogOptionKind;
  op_apply : CatalogOptionApply
}.

Record CatalogModel := mkModel {
  md_id : jsstring;
  md_label : jsstring;
  md_isDefault : bool;
  md_options : list CatalogOption
}.

Record AgentSessionOptionCatalog := mkCatalog {
  ct_models : list CatalogModel;
  ct_modelApply : CatalogOptionApply;
  ct_composeModelValue : option (jsstring -> jsrecord SessionOptionValue -> jsstring)
}.

Definition defaultValue (kind : CatalogOptionKind) : SessionOptionValue :=
  match kind with kind_select _ value => opt_text value | kind_boolean value => opt_flag value end.

(** [s.startsWith(prefix)] *)
Definition starts_with (s prefix : jsstring) : bool := text_eqb (take (List.length prefix) s) prefix.

(** *** claude-codex.ts *)

Definition hasFlag (tokens flags : list jsstring) : bool :=
  existsb (fun token => existsb (fun flag =>
    text_eqb token flag || starts_with token (flag ++ js "=")
    || (starts_with flag (js "-") && negb (starts_with flag (js "--")) && starts_with token flag)) flags) tokens.

(** The token before, if there is one. *)
Fixpoint with_previous (previous : option jsstring) (tokens : list jsstring) : list (jsstring * option jsstring) :=
  match tokens with
  | [] => []
  | token :: rest => (token, previous) :: with_previous (Some token) rest
  end.

Definition hasCodexEffortOverride (tokens : list jsstring) : bool :=
  if hasFlag tokens [js "--reasoning-effort"] then true
  else existsb (fun '(token, previous) =>
         (starts_with token (js "model_reasoning_effort=")
          && match previous with Some p => text_eqb p (js "-c") || text_eqb p (js "--config") | None => false end)
         || starts_with token (js "-cmodel_reasoning_effort=") || starts_with token (js "-c=model_reasoning_effort=")
         || starts_with token (js "--config=model_reasoning_effort=")) (with_previous None tokens).

Definition STANDARD_EFFORT_CHOICES : list SessionOptionSelectChoice :=
  [mkChoice (js "low") (js "Low"); mkChoice (js "medium") (js "Medium"); mkChoice (js "high") (js "High")].

Definition EXTENDED_EFFORT_CHOICES : list SessionOptionSelectChoice :=
  STANDARD_EFFORT_CHOICES ++ [mkChoice (js "xhigh") (js "Extra high"); mkChoice (js "max") (js "Max")].

Definition claudeEffort (extended : bool) : CatalogOption :=
  mkOption (js "effort") (js "Effort") (Some cat_thought_level)
    (kind_select (if extended then EXTENDED_EFFORT_CHOICES else STANDARD_EFFORT_CHOICES) (js "high"))
    (mkApply (Some (fun value => [js "--effort"; value_text value])) (Some (fun tokens => hasFlag tokens [js "--effort"])) false
       (Some (mid_command (fun value => js "/effort " ++ value_text value) None false))).

Definition CLAUDE_FAST_MODE : CatalogOption :=
  mkOption (js "fastMode") (js "Fast mode") (Some cat_mode) (kind_boolean false)
    (mkApply None None false (Some (mid_toggle_command (js "/fast")))).

Definition CLAUDE_SESSION_OPTION_CATALOG : AgentSessionOptionCatalog :=
  mkCatalog
    [mkModel (js "fable") (js "Fable") false [claudeEffort true];
     mkModel (js "opus") (js "Opus") false [claudeEffort true; CLAUDE_FAST_MODE];
     mkModel (js "sonnet") (js "Sonnet") true [claudeEffort true];
     mkModel (js "haiku") (js "Haiku") false []]
    (mkApply (Some (fun value => [js "--model"; value_text value])) (Some (fun tokens => hasFlag tokens [js "--model"])) false
       (Some (mid_command (fun value => js "/model " ++ value_text value) (Some (js "/model")) true)))
    None.

Definition CODEX_STANDARD_EFFORT_CHOICES : list SessionOptionSelectChoice :=
  [mkChoice (js "low") (js "Low"); mkChoice (js "medium") (js "Medium"); mkChoice (js "high") (js "High");
   mkChoice (js "xhigh") (js "Extra high")].

Definition CODEX_MAX_EFFORT_CHOICES : list SessionOptionSelectChoice :=
  CODEX_STANDARD_EFFORT_CHOICES ++ [mkChoice (js "max") (js "Max")].

Definition CODEX_ULTRA_EFFORT_CHOICES : list SessionOptionSelectChoice :=
  CODEX_MAX_EFFORT_CHOICES ++ [mkChoice (js "ultra") (js "Ultra")].

Definition codexEffort (choices : list SessionOptionSelectChoice) (value : jsstring) : CatalogOption :=
  mkOption (js "effort") (js "Reasoning effort") (Some cat_thought_level) (kind_select choices value)
    (mkApply (Some (fun value => [js "-c"; js "model_reasoning_effort=" ++ value_text value])) (Some hasCodexEffortOverride) false
       (Some (mid_agent_picker (js "/model")))).

Definition CODEX_SESSION_OPTION_CATALOG : AgentSessionOptionCatalog :=
  mkCatalog
    [mkModel (js "gpt-5.6-sol") (js "GPT-5.6 Sol") false [codexEffort CODEX_ULTRA_EFFORT_CHOICES (js "low")];
     mkModel (js "gpt-5.6-terra") (js "GPT-5.6 Terra") false [codexEffort CODEX_ULTRA_EFFORT_CHOICES (js "medium")];
     mkModel (js "gpt-5.6-luna") (js "GPT-5.6 Luna") false [codexEffort CODEX_MAX_EFFORT_CHOICES (js "medium")];
     mkModel (js "gpt-5.5") (js "GPT-5.5") false [codexEffort CODEX_STANDARD_EFFORT_CHOICES (js "medium")];
     mkModel (js "gpt-5.4") (js "GPT-5.4") false [codexEffort CODEX_STANDARD_EFFORT_CHOICES (js "medium")];
     mkModel (js "gpt-5.4-mini") (js "GPT-5.4 Mini") false [codexEffort CODEX_STANDARD_EFFORT_CHOICES (js "medium")];
     mkModel (js "gpt-5.3-codex-spark") (js "GPT-5.3 Codex Spark") false [codexEffort CODEX_STANDARD_EFFORT_CHOICES (js "high")]]
    (mkApply (Some (fun value => [js "-m"; value_text value])) (Some (fun tokens => hasFlag tokens [js "-m"; js "--model"])) false
       (Some (mid_agent_picker (js "/model"))))
    None.

(** *** gemini-cursor.ts *)

Definition hasModelFlag (tokens : list jsstring) : bool :=
  existsb (fun token =>
    text_eqb token (js "-m") || text_eqb token (js "--model") || starts_with token (js "-m=")
    || (starts_with token (js "-m") && negb (starts_with token (js "--"))) || starts_with token (js "--model=")) tokens.

Definition GEMINI_SESSION_OPTION_CATALOG : AgentSessionOptionCatalog :=
  mkCatalog
    [mkModel (js "gemini-3-pro-preview") (js "Gemini 3 Pro Preview") false [];
     mkModel (js "gemini-3-flash-preview") (js "Gemini 3 Flash Preview") false [];
     mkModel (js "gemini-2.5-pro") (js "Gemini 2.5 Pro") false [];
     mkModel (js "gemini-2.5-flash") (js "Gemini 2.5 Flash") false []]
    (mkApply (Some (fun value => [js "-m"; value_text value])) (Some hasModelFlag) false (Some (mid_agent_picker (js "/model"))))
    None.

Definition CURSOR_STANDARD_EFFORT_CHOICES : list SessionOptionSelectChoice :=
  [mkChoice (js "low") (js "Low"); mkChoice (js "medium") (js "Medium"); mkChoice (js "high") (js "High")].

Definition CURSOR_EXTENDED_EFFORT_CHOICES : list SessionOptionSelectChoice :=
  CURSOR_STANDARD_EFFORT_CHOICES ++ [mkChoice (js "xhigh") (js "Extra high")].

Definition CURSOR_MAX_EFFORT_CHOICES : list SessionOptionSelectChoice :=
  CURSOR_EXTENDED_EFFORT_CHOICES ++ [mkChoice (js "max") (js "Max")].

Definition CURSOR_OPENAI_EFFORT_CHOICES : list SessionOptionSelectChoice :=
  mkChoice (js "none") (js "None") :: CURSOR_MAX_EFFORT_CHOICES.

Definition CURSOR_MINIMAL_EFFORT_CHOICES : list SessionOptionSelectChoice :=
  mkChoice (js "minimal") (js "Minimal") :: CURSOR_STANDARD_EFFORT_CHOICES.

Definition cursorEffort (choices : list SessionOptionSelectChoice) (value : jsstring) : CatalogOption :=
  mkOption (js "effort") (js "Effort") (Some cat_thought_level) (kind_select choices value) (mkApply None None true None).

Definition CURSOR_FAST : CatalogOption :=
  mkOption (js "fastMode") (js "Fast mode") (Some cat_mode) (kind_boolean false) (mkApply None None true None).

Definition cursor_composeModelValue (modelId : jsstring) (values : jsrecord SessionOptionValue) : jsstring :=
  if text_eqb modelId (js "auto") then modelId
  else
    let effort :=
      match rec_get (js "effort") values with
      | Some (opt_text value) =>
          if negb (text_eqb value []) && negb (text_eqb modelId (js "gpt-5.3-codex") && text_eqb value (js "medium"))
          then js "-" ++ value else []
      | _ => []
      end in
    let fast := match rec_get (js "fastMode") values with Some (opt_flag true) => js "-fast" | _ => [] end in
    modelId ++ effort ++ fast.

Definition CURSOR_SESSION_OPTION_CATALOG : AgentSessionOptionCatalog :=
  mkCatalog
    [mkModel (js "auto") (js "Auto") true [];
     mkModel (js "gpt-5.6-sol") (js "GPT-5.6 Sol") false [cursorEffort CURSOR_OPENAI_EFFORT_CHOICES (js "medium"); CURSOR_FAST];
     mkModel (js "gpt-5.6-terra") (js "GPT-5.6 Terra") false [cursorEffort CURSOR_OPENAI_EFFORT_CHOICES (js "medium"); CURSOR_FAST];
     mkModel (js "gpt-5.6-luna") (js "GPT-5.6 Luna") false [cursorEffort CURSOR_OPENAI_EFFORT_CHOICES (js "medium"); CURSOR_FAST];
     mkModel (js "gpt-5.3-codex") (js "GPT-5.3 Codex") false [cursorEffort CURSOR_EXTENDED_EFFORT_CHOICES (js "medium"); CURSOR_FAST];
     mkModel (js "claude-fable-5-thinking") (js "Claude Fable 5 Thinking") false [cursorEffort CURSOR_MAX_EFFORT_CHOICES (js "high")];
     mkModel (js "claude-opus-5-thinking") (js "Claude Opus 5 Thinking") false [cursorEffort CURSOR_MAX_EFFORT_CHOICES (js "high"); CURSOR_FAST];
     mkModel (js "claude-sonnet-5-thinking") (js "Claude Sonnet 5 Thinking") false [cursorEffort CURSOR_MAX_EFFORT_CHOICES (js "high")];
     mkModel (js "cursor-grok-4.6") (js "Cursor Grok 4.6") false [cursorEffort CURSOR_EXTENDED_EFFORT_CHOICES (js "high"); CURSOR_FAST];
     mkModel (js "gemini-3.7-flash") (js "Gemini 3.7 Flash") false [cursorEffort CURSOR_STANDARD_EFFORT_CHOICES (js "high")];
     mkModel (js "gemini-3.6-flash") (js "Gemini 3.6 Flash") false [cursorEffort CURSOR_MINIMAL_EFFORT_CHOICES (js "high")];
     mkModel (js "composer-2.5") (js "Composer 2.5") false [CURSOR_FAST]]
    (mkApply (Some (fun value => [js "--model"; value_text value])) (Some hasModelFlag) false
       (Some (mid_command (fun value => js "/model " ++ value_text value) None false)))
    (Some cursor_composeModelValue).

(** *** catalog.ts, launch.ts *)

Definition getAgentSessionOptionCatalog (agent : TuiAgent) : option AgentSessionOptionCatalog :=
  match agent with
  | agent_claude => Some CLAUDE_SESSION_OPTION_CATALOG
  | agent_codex => Some CODEX_SESSION_OPTION_CATALOG
  | agent_gemini => Some GEMINI_SESSION_OPTION_CATALOG
  | agent_cursor => Some CURSOR_SESSION_OPTION_CATALOG
  | _ => None
  end.

Definition findCatalogModel (catalog : AgentSessionOptionCatalog) (modelId : jsstring) : option CatalogModel :=
  List.find (fun model => text_eqb (md_id model) modelId) (ct_models catalog).

Record ResolvedSessionOptionLaunch := mkResolved { rs_args : list jsstring; rs_appliedValues : jsrecord SessionOptionValue }.

Definition overridden (apply : CatalogOptionApply) (trailingAgentArgs : list jsstring) : bool :=
  match ap_agentArgsOverride apply with Some f => f trailingAgentArgs | None => false end.

(** The options of the model, in order. *)
Fixpoint resolve_options (catalog : AgentSessionOptionCatalog) (modelOverridden : bool) (trailingAgentArgs : list jsstring)
    (modelValues : jsrecord SessionOptionValue) (options : list CatalogOption) (r : ResolvedSessionOptionLaunch)
    : ResolvedSessionOptionLaunch :=
  match options with
  | [] => r
  | option :: rest =>
      let next :=
        match rec_get (op_id option) modelValues with
        | None => r
        | Some value =>
            if ap_composedIntoModel (op_apply option) then
              match ap_launchArgs (ct_modelApply catalog) with
              | Some _ => if negb modelOverridden then mkResolved (rs_args r) (rec_set (op_id option) value (rs_appliedValues r)) else r
              | None => r
              end
            else match ap_launchArgs (op_apply option) with
                 | None => r
                 | Some launchArgs =>
                     mkResolved (rs_args r ++ launchArgs value)
                       (if negb modelOverridden && negb (overridden (op_apply option) trailingAgentArgs)
                        then rec_set (op_id option) value (rs_appliedValues r) else rs_appliedValues r)
                 end
        end in
      resolve_options catalog modelOverridden trailingAgentArgs modelValues rest next
  end.

Definition resolveAgentSessionOptionLaunch (agent : TuiAgent) (values : option (jsrecord SessionOptionValue))
    (trailingAgentArgs : list jsstring) : ResolvedSessionOptionLaunch :=
  match getAgentSessionOptionCatalog agent, values with
  | Some catalog, Some values =>
      match rec_get (js "model") values with
      | Some (opt_text modelId) =>
          if text_eqb modelId [] then mkResolved [] []
          else
            let model := findCatalogModel catalog modelId in
            let modelValues :=
              match model with
              | Some m => fold_left (fun r option =>
                  rec_set (op_id option) (default (defaultValue (op_kind option)) (rec_get (op_id option) values)) r) (md_options m) []
              | None => []
              end in
            let composedModelId := match ct_composeModelValue catalog with
                                   | Some compose => compose modelId modelValues
                                   | None => modelId
                                   end in
            let modelOverridden := overridden (ct_modelApply catalog) trailingAgentArgs in
            let r := match ap_launchArgs (ct_modelApply catalog) with
                     | Some launchArgs => mkResolved (launchArgs (opt_text composedModelId))
                                            (if negb modelOverridden then [(js "model", opt_text modelId)] else [])
                     | None => mkResolved [] []
                     end in
            match model with
            | None => r
            | Some m => resolve_options catalog modelOverridden trailingAgentArgs modelValues (md_options m) r
            end
      | _ => mkResolved [] []
      end
  | _, _ => mkResolved [] []
  end.

Example options_of_cursor :
  resolveAgentSessionOptionLaunch agent_cursor
    (Some [(js "model", opt_text (js "gpt-5.3-codex")); (js "effort", opt_text (js "high")); (js "fastMode", opt_flag true)]) []
  = mkResolved [js "--model"; js "gpt-5.3-codex-high-fast"]
      [(js "model", opt_text (js "gpt-5.3-codex")); (js "effort", opt_text (js "high")); (js "fastMode", opt_flag true)].
Proof. vm_compute. reflexivity. Qed.
