(* ===== verification/AgentLaunch.v ===== *)
(** Starting an agent (packages/protocol/typescript/src/agent/launch: command.ts,
    startup.ts, resume-config.ts, draft-platform-limit.ts, hermes-startup-query.ts): the
    command line that starts it with the arguments of the user, the options of the session
    and the prompt.

    [btoa] and [TextEncoder] are written out; commands are read by the tokenizer of
    ShellCommand.v, as the source does. *)

From stdpp Require Import base list.
From Stdlib Require Import ZArith Lia ZifyBool String.
From S2P Require Import Prelude JsText JsRecord Json KeySyntax ShellCommand AgentConfig.

Open Scope Z_scope.

#[local] Set Warnings "-clear-no-such-hyp".

Abbreviation env := (jsrecord jsstring).

(** A text that is not blank. *)
Definition given (s : option jsstring) : option jsstring :=
  match s with
  | Some text => if text_eqb (trim text) [] then None else Some text
  | None => None
  end.

(** ** resume-config.ts *)

(** [SleepingAgentLaunchConfig] (session-resume.ts) *)
Record SleepingAgentLaunchConfig := mkLaunchConfig {
  lc_agentCommand : option jsstring;
  lc_agentArgs : jsstring;
  lc_agentEnv : env;
  lc_ompResumeFilePath : option jsstring
}.

Definition buildSleepingAgentLaunchConfig (agentCommand agentArgs : option jsstring) (agentEnv : option env)
    (ompResumeFilePath : option jsstring) : SleepingAgentLaunchConfig :=
  mkLaunchConfig (given agentCommand) (default [] agentArgs) (default [] agentEnv) (option_map trim (given ompResumeFilePath)).

(** ** command.ts *)

Record LaunchArgs := mkLaunchArgs {
  la_agent : TuiAgent;
  la_cmdOverrides : jsrecord jsstring;
  la_platform : StartupHostPlatform;
  la_shell : AgentStartupShell;
  la_agentArgs : option jsstring;
  la_sessionOptions : option (jsrecord SessionOptionValue);
  la_isRemote : bool
}.

Record ResolvedAgentLaunchCommand := mkCommand {
  rc_command : jsstring;
  rc_commandWithoutSessionOptions : jsstring;
  rc_appliedSessionOptions : jsrecord SessionOptionValue
}.

(** [override || getTuiAgentLaunchCommand(...)] *)
Definition base_command (args : LaunchArgs) : jsstring :=
  match rec_get (agent_id (la_agent args)) (la_cmdOverrides args) with
  | Some (c :: rest) => c :: rest
  | _ => getTuiAgentLaunchCommand (TUI_AGENT_CONFIG (la_agent args)) (la_platform args) (la_isRemote args)
  end.

(** A command with a suffix, if there is one. *)
Definition with_suffix (command suffix : jsstring) : jsstring :=
  if text_eqb suffix [] then command else command ++ SPACE :: suffix.

(** [None] is [unclosed-quote], the only error. *)
Definition resolveAgentLaunchCommand (args : LaunchArgs) : option ResolvedAgentLaunchCommand :=
  let command := base_command args in
  match planAgentCliArgsSuffix (la_agentArgs args) (la_shell args) with
  | None => None
  | Some suffix =>
      match match given (la_agentArgs args) with
            | Some agentArgs => tokenizeStartupCommand (trim agentArgs) (la_shell args)
            | None => Some []
            end with
      | None => None
      | Some trailingTokens =>
          let resolvedOptions := resolveAgentSessionOptionLaunch (la_agent args) (la_sessionOptions args) trailingTokens in
          let optionSuffix := quoted_args (rs_args resolvedOptions) (la_shell args) in
          let commandWithOptions := with_suffix command optionSuffix in
          Some (mkCommand (with_suffix commandWithOptions suffix) (with_suffix command suffix) (rs_appliedValues resolvedOptions))
      end
  end.

(** ** draft-platform-limit.ts *)

Definition WIN32_INLINE_DRAFT_LIMIT_CHARS : Z := 24000.

Definition inlineAgentDraftFitsPlatform (command : jsstring) (agentEnv : option env) (platform : StartupHostPlatform) : bool :=
  match platform with
  | win32_host =>
      let envChars := fold_left (fun total '(key, value) => total + js_length key + js_length value) (default [] agentEnv) 0 in
      js_length command + envChars <=? WIN32_INLINE_DRAFT_LIMIT_CHARS
  | _ => true
  end.

(** ** hermes-startup-query.ts *)

Definition QUERY_ENV_LIMIT : Z := 24000.
Definition QUERY_PLACEHOLDER : jsstring := js "__AGENTSTART_HERMES_STARTUP_QUERY__".
Definition QUERY_ARG_PLACEHOLDER : jsstring := js "--query=" ++ QUERY_PLACEHOLDER.
Definition POSIX_QUERY_VARIABLE : jsstring := js "__agentstart_hermes_startup_query".
Definition POWERSHELL_QUERY_VARIABLE : jsstring := js "agentstartHermesStartupQuery".
Definition POWERSHELL_NATIVE_QUERY_VARIABLE : jsstring := js "agentstartHermesNativeQuery".
Definition AGENTSTART_HERMES_STARTUP_QUERY_ENV : jsstring := js "AGENTSTART_HERMES_STARTUP_QUERY".

(** The digits of base 64. *)
Definition base64_digit (n : Z) : Z :=
  if n <? 26 then 65 + n else if n <? 52 then 97 + (n - 26) else if n <? 62 then 48 + (n - 52) else if n =? 62 then 43 else 47.

(** [btoa], on bytes. *)
Fixpoint btoa (bs : bytes) : jsstring :=
  match bs with
  | a :: b :: c :: rest =>
      [base64_digit (Z.shiftr a 2); base64_digit (Z.lor (Z.shiftl (Z.land a 3) 4) (Z.shiftr b 4));
       base64_digit (Z.lor (Z.shiftl (Z.land b 15) 2) (Z.shiftr c 6)); base64_digit (Z.land c 63)] ++ btoa rest
  | [a; b] =>
      [base64_digit (Z.shiftr a 2); base64_digit (Z.lor (Z.shiftl (Z.land a 3) 4) (Z.shiftr b 4));
       base64_digit (Z.shiftl (Z.land b 15) 2); 61]
  | [a] => [base64_digit (Z.shiftr a 2); base64_digit (Z.shiftl (Z.land a 3) 4); 61; 61]
  | [] => []
  end.

Definition encodePowerShellCommand (command : jsstring) : jsstring :=
  btoa (flat_map (fun code => [Z.land code 0xff; Z.shiftr code 8]) command).

(** [byte.toString(8).padStart(3, '0')] *)
Definition octal3 (byte : Z) : jsstring := [48 + byte / 64; 48 + byte / 8 mod 8; 48 + byte mod 8].

Definition encodePosixEvalScript (command : jsstring) : jsstring :=
  flat_map (fun byte => [BACKSLASH; 48] ++ octal3 byte) (text_encode command).

(** [s.replace(pattern, replacement)] for a pattern that is not empty and a replacement
    without replacement patterns. *)
Fixpoint replace_first (pattern replacement s : jsstring) : jsstring :=
  if starts_with s pattern then replacement ++ drop (List.length pattern) s
  else match s with
       | [] => []
       | c :: rest => c :: replace_first pattern replacement rest
       end.

Definition tokenizeCommand (value : jsstring) (shell : AgentStartupShell) : option (list jsstring) :=
  match tokenizeStartupCommand value shell with
  | Some [] | None => None
  | Some tokens => Some tokens
  end.

Definition HERMES_VALUELESS_FLAGS : list jsstring :=
  [js "--tui"; js "--cli"; js "--verbose"; js "-v"; js "--quiet"; js "-Q"; js "--worktree"; js "-w"; js "--accept-hooks";
   js "--checkpoints"; js "--yolo"; js "--pass-session-id"; js "--ignore-user-config"; js "--ignore-rules"; js "--safe-mode";
   js "--dev"].

Definition in_texts (s : jsstring) (l : list jsstring) : bool := existsb (text_eqb s) l.

(** The index of [chat]; an option that takes a value hides the word after it.  [None] is -1. *)
Fixpoint findChatSubcommand_from (index : nat) (args : list jsstring) : option nat :=
  match args with
  | [] => None
  | token :: rest =>
      if text_eqb token (js "chat") then Some index
      else if starts_with token (js "-") && negb (existsb (Z.eqb 61) token) && negb (in_texts token HERMES_VALUELESS_FLAGS)
      then match rest with
           | [] => None
           | _ :: rest' => findChatSubcommand_from (S (S index)) rest'
           end
      else findChatSubcommand_from (S index) rest
  end.

Definition findChatSubcommand (args : list jsstring) : option nat := findChatSubcommand_from 0 args.

Fixpoint stripAgentStartOwnedHermesArgs (args : list jsstring) : list jsstring :=
  match args with
  | [] => []
  | token :: rest =>
      if text_eqb token (js "--query") || text_eqb token (js "-q") then
        match rest with
        | [] => []
        | _ :: rest' => stripAgentStartOwnedHermesArgs rest'
        end
      else if starts_with token (js "--query=") || starts_with token (js "-q=")
              || (starts_with token (js "-q") && (2 <? js_length token)) || text_eqb token (js "--tui") || text_eqb token (js "--cli")
      then stripAgentStartOwnedHermesArgs rest
      else token :: stripAgentStartOwnedHermesArgs rest
  end.

(** [args.filter((_, index) => index !== at)] *)
Definition without_index (at_ : option nat) (args : list jsstring) : list jsstring :=
  match at_ with Some i => take i args ++ drop (S i) args | None => args end.

(** /^[A-Za-z_][A-Za-z0-9_]*=/ *)
Definition is_name_start (c : Z) : bool := (65 <=? c) && (c <=? 90) || (97 <=? c) && (c <=? 122) || (c =? 95).
Definition is_name_unit (c : Z) : bool := is_name_start c || (48 <=? c) && (c <=? 57).

Fixpoint name_then_equals (s : jsstring) : bool :=
  match s with
  | [] => false
  | c :: rest => if c =? 61 then true else is_name_unit c && name_then_equals rest
  end.

Definition is_assignment (s : jsstring) : bool :=
  match s with c :: rest => is_name_start c && name_then_equals rest | [] => false end.

Section case.
Context `{K : CaseMapping}.

Definition isHermesExecutableToken (value : jsstring) : bool :=
  let basename := toLowerCase (default [] (last (split_on 47 ((fun c => if c =? BACKSLASH then 47 else c) <$> value)))) in
  in_texts basename [js "hermes"; js "hermes.exe"; js "hermes.cmd"].

Definition executable_candidates (baseArgv : list jsstring) : list nat :=
  List.filter (fun index => match baseArgv !! index with Some token => isHermesExecutableToken token | None => false end)
    (List.seq 0 (List.length baseArgv)).

Definition normalizeHermesArgv (baseArgv configuredArgv : list jsstring) (shell : AgentStartupShell) : option (list jsstring) :=
  let candidates := executable_candidates baseArgv in
  let anchored := last (List.filter (fun index =>
    match findChatSubcommand (drop (S index) baseArgv) with Some _ => true | None => false end) candidates) in
  match match anchored with Some index => Some index | None => last candidates end with
  | None => None
  | Some executableIndex =>
      let commandPrefix := take (S executableIndex) baseArgv in
      let assigned := match commandPrefix with token :: _ => is_assignment token | [] => false end in
      if assigned && negb (bool_decide (shell = posix)) then None
      else
        let commandPrefix := if assigned then js "env" :: commandPrefix else commandPrefix in
        let baseArgs := drop (S executableIndex) baseArgv in
        let baseArgsWithoutChat := without_index (findChatSubcommand baseArgs) baseArgs in
        let configuredArgsWithoutChat := without_index (findChatSubcommand configuredArgv) configuredArgv in
        Some (commandPrefix ++ [js "chat"; QUERY_ARG_PLACEHOLDER] ++ stripAgentStartOwnedHermesArgs baseArgsWithoutChat
              ++ stripAgentStartOwnedHermesArgs configuredArgsWithoutChat ++ [js "--tui"])
  end.
End case.

Definition powershell_script (invocation : jsstring) : jsstring :=
  js "$" ++ POWERSHELL_QUERY_VARIABLE ++ js " = $env:" ++ AGENTSTART_HERMES_STARTUP_QUERY_ENV ++ js "; $"
  ++ POWERSHELL_NATIVE_QUERY_VARIABLE ++ js " = $" ++ POWERSHELL_QUERY_VARIABLE ++ js " -replace '(\\*)" ++ [DOUBLE_QUOTE]
  ++ js "', '$1$1\" ++ [DOUBLE_QUOTE] ++ js "'; Remove-Item Env:" ++ AGENTSTART_HERMES_STARTUP_QUERY_ENV
  ++ js " -ErrorAction SilentlyContinue; " ++ invocation.

Definition posix_script (encodedInvocation : jsstring) : jsstring :=
  POSIX_QUERY_VARIABLE ++ js "=" ++ [DOUBLE_QUOTE] ++ js "${" ++ AGENTSTART_HERMES_STARTUP_QUERY_ENV ++ js "}" ++ [DOUBLE_QUOTE]
  ++ js "; unset " ++ AGENTSTART_HERMES_STARTUP_QUERY_ENV ++ js "; eval " ++ [DOUBLE_QUOTE] ++ js "$(printf %b " ++ [DOUBLE_QUOTE]
  ++ encodedInvocation ++ [DOUBLE_QUOTE] ++ js ")" ++ [DOUBLE_QUOTE].

Definition buildQueryCommand (argv : list jsstring) (shell : AgentStartupShell) : jsstring :=
  match shell with
  | posix =>
      let invocation := replace_first (quoteStartupArg QUERY_ARG_PLACEHOLDER posix)
        ([DOUBLE_QUOTE] ++ js "--query=${" ++ POSIX_QUERY_VARIABLE ++ js "}" ++ [DOUBLE_QUOTE])
        (buildShellCommandFromArgv argv posix) in
      js "sh -c " ++ quoteStartupArg (posix_script (encodePosixEvalScript invocation)) posix
  | _ =>
      let invocation := replace_first (quoteStartupArg QUERY_ARG_PLACEHOLDER powershell)
        ([DOUBLE_QUOTE] ++ js "--query=$" ++ POWERSHELL_NATIVE_QUERY_VARIABLE ++ [DOUBLE_QUOTE])
        (buildShellCommandFromArgv argv powershell) in
      js "powershell.exe -NoProfile -EncodedCommand " ++ encodePowerShellCommand (powershell_script invocation)
  end.

(** The size of one variable of the environment. *)
Definition env_size (platform : StartupHostPlatform) (key value : jsstring) : Z :=
  match platform with
  | win32_host => js_length key + js_length value + 2
  | _ => Z.of_nat (List.length (text_encode (key ++ js "=" ++ value))) + 1
  end.

Definition command_size (platform : StartupHostPlatform) (command : jsstring) : Z :=
  match platform with
  | win32_host => js_length command
  | _ => Z.of_nat (List.length (text_encode command))
  end.

Definition planHermesStartupQuery `{K : CaseMapping} (baseCommand : jsstring) (agentArgs : option jsstring) (prompt : jsstring)
    (agentEnv : option env) (platform : StartupHostPlatform) (shell : AgentStartupShell) : option (jsstring * env) :=
  match tokenizeCommand baseCommand shell,
        match given agentArgs with Some text => tokenizeCommand text shell | None => Some [] end with
  | Some baseArgv, Some configuredArgv =>
      match normalizeHermesArgv baseArgv configuredArgv shell with
      | None => None
      | Some argv =>
          let command := buildQueryCommand argv shell in
          let vars := rec_set AGENTSTART_HERMES_STARTUP_QUERY_ENV prompt (default [] agentEnv) in
          let envSize := fold_left (fun total '(key, value) => total + env_size platform key value) vars 0 in
          if command_size platform command + envSize <=? QUERY_ENV_LIMIT then Some (command, vars) else None
      end
  | _, _ => None
  end.

(** ** startup.ts *)

Inductive StartupCommandDelivery := delivery_fast | delivery_shell_ready.

Record AgentStartupPlan := mkPlan {
  pl_agent : TuiAgent;
  pl_launchCommand : jsstring;
  pl_expectedProcess : jsstring;
  pl_followupPrompt : option jsstring;
  pl_launchConfig : SleepingAgentLaunchConfig;
  pl_env : option env;
  pl_startupCommandDelivery : option StartupCommandDelivery;
  pl_sessionOptions : option (jsrecord SessionOptionValue)
}.

Record StartupArgs := mkStartupArgs {
  sa_agent : TuiAgent;
  sa_prompt : jsstring;
  sa_cmdOverrides : jsrecord jsstring;
  sa_platform : StartupHostPlatform;
  sa_shell : option AgentStartupShell;
  sa_allowEmptyPromptLaunch : bool;
  sa_agentArgs : option jsstring;
  sa_agentEnv : option env;
  sa_sessionOptions : option (jsrecord SessionOptionValue);
  sa_isRemote : bool
}.

(** [appliedSessionOptionProps] *)
Definition appliedSessionOptionProps (values : jsrecord SessionOptionValue) : option (jsrecord SessionOptionValue) :=
  match values with [] => None | _ => Some values end.

(** Whether the prompt is put in the environment of hermes. *)
Definition usesQuery (args : StartupArgs) : bool :=
  match cfg_promptInjectionMode (TUI_AGENT_CONFIG (sa_agent args)) with
  | mode_hermes_query => negb (text_eqb (trim (sa_prompt args)) [])
  | _ => false
  end.

Definition startup_shell (args : StartupArgs) : AgentStartupShell := resolveStartupShell (sa_platform args) (sa_shell args).

Definition launch_args (args : StartupArgs) : LaunchArgs :=
  mkLaunchArgs (sa_agent args) (sa_cmdOverrides args) (sa_platform args) (startup_shell args)
    (if usesQuery args then None else sa_agentArgs args) (sa_sessionOptions args) (sa_isRemote args).

(** What stands between the command and the prompt. *)
Definition prompt_words (config : TuiAgentConfig) : option (list jsstring) :=
  match cfg_promptInjectionMode config with
  | mode_argv => Some (match cfg_argvPromptSeparator config with Some separator => [separator] | None => [] end)
  | mode_flag_prompt => Some [js "--prompt"]
  | mode_flag_prompt_interactive => Some [js "--prompt-interactive"]
  | mode_flag_interactive => Some [js "-i"]
  | mode_hermes_query | mode_stdin_after_start => None
  end.

(** The delivery a plan for codex asks for. *)
Definition codex_delivery (agent : TuiAgent) : option StartupCommandDelivery :=
  if bool_decide (agent = agent_codex) then Some delivery_shell_ready else None.

Definition buildAgentStartupPlan `{K : CaseMapping} (args : StartupArgs) : option AgentStartupPlan :=
  let config := TUI_AGENT_CONFIG (sa_agent args) in
  let shell := startup_shell args in
  let trimmedPrompt := trim (sa_prompt args) in
  match resolveAgentLaunchCommand (launch_args args) with
  | None => None
  | Some baseCommand =>
      let launchConfig := buildSleepingAgentLaunchConfig (Some (rc_commandWithoutSessionOptions baseCommand))
                            (sa_agentArgs args) (sa_agentEnv args) None in
      let plan command followup vars delivery :=
        mkPlan (sa_agent args) command (cfg_expectedProcess config) followup launchConfig vars delivery
          (appliedSessionOptionProps (rc_appliedSessionOptions baseCommand)) in
      if text_eqb trimmedPrompt [] then
        if negb (sa_allowEmptyPromptLaunch args) then None
        else Some (plan (rc_command baseCommand) None (sa_agentEnv args) None)
      else
        let prompted words := rc_command baseCommand ++ flat_map (fun word => SPACE :: word) words ++ SPACE :: quoteStartupArg trimmedPrompt shell in
        match cfg_promptInjectionMode config with
        | mode_argv =>
            let words := match cfg_argvPromptSeparator config with Some separator => [separator] | None => [] end in
            Some (plan (prompted words) None (sa_agentEnv args) (codex_delivery (sa_agent args)))
        | mode_flag_prompt => Some (plan (prompted [js "--prompt"]) None (sa_agentEnv args) None)
        | mode_hermes_query =>
            match planHermesStartupQuery (rc_command baseCommand) (sa_agentArgs args) trimmedPrompt (sa_agentEnv args)
                    (sa_platform args) shell with
            | None => None
            | Some (command, vars) => Some (plan command None (Some vars) None)
            end
        | mode_flag_prompt_interactive => Some (plan (prompted [js "--prompt-interactive"]) None (sa_agentEnv args) None)
        | mode_flag_interactive => Some (plan (prompted [js "-i"]) None (sa_agentEnv args) None)
        | mode_stdin_after_start => Some (plan (rc_command baseCommand) (Some trimmedPrompt) (sa_agentEnv args) None)
        end
  end.

(** The draft is [sa_prompt]; the plan has no follow-up. *)
Definition buildAgentDraftLaunchPlan (args : StartupArgs) : option AgentStartupPlan :=
  let config := TUI_AGENT_CONFIG (sa_agent args) in
  let shell := startup_shell args in
  let trimmed := trim (sa_prompt args) in
  if text_eqb trimmed [] then None
  else match resolveAgentLaunchCommand (mkLaunchArgs (sa_agent args) (sa_cmdOverrides args) (sa_platform args) shell
               (sa_agentArgs args) (sa_sessionOptions args) (sa_isRemote args)) with
  | None => None
  | Some baseCommand =>
      let launchConfig := buildSleepingAgentLaunchConfig (Some (rc_commandWithoutSessionOptions baseCommand))
                            (sa_agentArgs args) (sa_agentEnv args) None in
      let plan command vars delivery :=
        mkPlan (sa_agent args) command (cfg_expectedProcess config) None launchConfig vars delivery
          (appliedSessionOptionProps (rc_appliedSessionOptions baseCommand)) in
      let drafted :=
        match cfg_draftPromptFlag config, cfg_draftPromptEnvVar config with
        | Some flag, _ =>
            Some (plan (rc_command baseCommand ++ SPACE :: flag ++ SPACE :: quoteStartupArg trimmed shell) (sa_agentEnv args)
                    (codex_delivery (sa_agent args)))
        | None, Some variable =>
            Some (plan (rc_command baseCommand ++ commandSeparator shell ++ clearEnvCommand variable shell)
                    (Some (rec_set variable trimmed (default [] (sa_agentEnv args)))) None)
        | None, None => None
        end in
      match drafted with
      | None => None
      | Some plan => if inlineAgentDraftFitsPlatform (pl_launchCommand plan) (pl_env plan) (sa_platform args) then Some plan else None
      end
  end.
