(* ===== verification/AgentResume.v ===== *)
(** Resuming the session of an agent (packages/protocol/typescript/src/agent:
    session-resume.ts, resume-startup.ts): the session ids that are accepted from agents and
    from stored records, and the command line that resumes a session.

    Records that come from outside are JSON; the keys read are fixed. *)

From stdpp Require Import base list.
From Stdlib Require Import ZArith Lia ZifyBool String.
From S2P Require Import Prelude JsText JsRecord Json KeySyntax ShellCommand AgentConfig AgentLaunch.

Open Scope Z_scope.

#[local] Set Warnings "-clear-no-such-hyp".

(** ** session-resume.ts *)

Inductive ResumableTuiAgent :=
  | re_claude | re_codex | re_gemini | re_antigravity | re_opencode | re_pi | re_mimo_code | re_droid | re_grok | re_devin | re_omp.

#[export] Instance ResumableTuiAgent_eq_dec : EqDecision ResumableTuiAgent.
Proof. solve_decision. Defined.

(** A resumable agent among the agents. *)
Definition as_agent (agent : ResumableTuiAgent) : TuiAgent :=
  match agent with
  | re_claude => agent_claude | re_codex => agent_codex | re_gemini => agent_gemini | re_antigravity => agent_antigravity
  | re_opencode => agent_opencode | re_pi => agent_pi | re_mimo_code => agent_mimo_code | re_droid => agent_droid
  | re_grok => agent_grok | re_devin => agent_devin | re_omp => agent_omp
  end.

Definition RESUMABLE_TUI_AGENTS : list jsstring :=
  (fun agent => agent_id (as_agent agent)) <$>
    [re_claude; re_codex; re_gemini; re_antigravity; re_opencode; re_pi; re_mimo_code; re_droid; re_grok; re_devin; re_omp].

Inductive AgentHookSource :=
  | hook_claude | hook_codex | hook_gemini | hook_antigravity | hook_amp | hook_opencode | hook_mimo_code | hook_cursor | hook_pi
  | hook_omp | hook_droid | hook_command_code | hook_grok | hook_copilot | hook_hermes | hook_devin | hook_kimi.

Inductive AgentProviderSessionKey := session_id | conversation_id.

#[export] Instance AgentProviderSessionKey_eq_dec : EqDecision AgentProviderSessionKey.
Proof. solve_decision. Defined.

Record AgentProviderSessionMetadata := mkSession {
  ps_key : AgentProviderSessionKey;
  ps_id : jsstring;
  ps_transcriptPath : option jsstring
}.

Definition PROVIDER_SESSION_ID_MAX_LENGTH : Z := 512.

Definition hasUnsafeProviderSessionIdChars (value : jsstring) : bool :=
  existsb (fun code => (code <=? 0x1f) || (code =? 0x7f)) value.

Definition normalizeSessionId (value : option json) : option jsstring :=
  match value with
  | Some (JStr s) =>
      let trimmed := trim s in
      if (js_length trimmed =? 0) || (PROVIDER_SESSION_ID_MAX_LENGTH <? js_length trimmed) || starts_with trimmed (js "-")
         || hasUnsafeProviderSessionIdChars trimmed
      then None else Some trimmed
  | _ => None
  end.

Fixpoint readSessionId (record : TerminalMultiplexJsonObject) (keys : list jsstring) : option jsstring :=
  match keys with
  | [] => None
  | key :: rest =>
      match normalizeSessionId (property key record) with
      | Some normalized => Some normalized
      | None => readSessionId record rest
      end
  end.

Fixpoint readTranscriptPathFromKeys (record : TerminalMultiplexJsonObject) (keys : list jsstring) : option jsstring :=
  match keys with
  | [] => None
  | key :: rest =>
      match property key record with
      | Some (JStr raw) =>
          let trimmed := trim raw in
          if negb (text_eqb trimmed []) && negb (hasUnsafeProviderSessionIdChars trimmed) then Some trimmed
          else readTranscriptPathFromKeys record rest
      | _ => readTranscriptPathFromKeys record rest
      end
  end.

Definition withTranscriptPath (metadata : AgentProviderSessionMetadata) (payload : TerminalMultiplexJsonObject) (keys : list jsstring)
    : AgentProviderSessionMetadata :=
  match readTranscriptPathFromKeys payload keys with
  | Some transcriptPath => mkSession (ps_key metadata) (ps_id metadata) (Some transcriptPath)
  | None => metadata
  end.

Definition isResumableTuiAgent (value : json) : bool :=
  match value with JStr s => in_texts s RESUMABLE_TUI_AGENTS | _ => false end.

(** An array is an object too, without these keys. *)
Definition normalizeAgentProviderSession (raw : json) : option AgentProviderSessionMetadata :=
  match raw with
  | JObj record =>
      match match property (js "key") record with
            | Some (JStr key) => if text_eqb key (js "session_id") then Some session_id
                                 else if text_eqb key (js "conversation_id") then Some conversation_id else None
            | _ => None
            end with
      | None => None
      | Some key =>
          match normalizeSessionId (property (js "id") record) with
          | None => None
          | Some id => Some (mkSession key id (readTranscriptPathFromKeys record [js "transcriptPath"]))
          end
      end
  | _ => None
  end.

Definition agentProviderSessionsEqual (agent : option jsstring) (left right : option AgentProviderSessionMetadata) : bool :=
  match left, right with
  | Some l, Some r =>
      bool_decide (ps_key l = ps_key r) && text_eqb (ps_id l) (ps_id r)
      && (negb (bool_decide (agent = Some (js "pi"))) || bool_decide (ps_transcriptPath l = ps_transcriptPath r))
  | None, None => true
  | _, _ => false
  end.

(** A session with the id found, if one is. *)
Definition session_of (key : AgentProviderSessionKey) (id : option jsstring) : option AgentProviderSessionMetadata :=
  option_map (fun id => mkSession key id None) id.

Definition extractAgentProviderSession (source : AgentHookSource) (payload : TerminalMultiplexJsonObject)
    : option AgentProviderSessionMetadata :=
  match source with
  | hook_claude | hook_codex =>
      option_map (fun session => withTranscriptPath session payload [js "transcript_path"; js "transcriptPath"])
        (session_of session_id (readSessionId payload [js "session_id"]))
  | hook_gemini | hook_droid | hook_kimi => session_of session_id (readSessionId payload [js "session_id"])
  | hook_antigravity => session_of conversation_id (readSessionId payload [js "conversationId"])
  | hook_opencode | hook_mimo_code => session_of session_id (readSessionId payload [js "sessionID"])
  | hook_pi =>
      match option_map (fun session => withTranscriptPath session payload [js "session_file"])
              (session_of session_id (readSessionId payload [js "session_id"])) with
      | Some session => match ps_transcriptPath session with Some _ => Some session | None => None end
      | None => None
      end
  | hook_grok => session_of session_id (readSessionId payload [js "sessionId"; js "session_id"])
  | hook_devin => session_of session_id (readSessionId payload [js "session_id"; js "sessionId"])
  | hook_omp => session_of session_id (readSessionId payload [js "session_id"])
  | hook_amp | hook_cursor | hook_command_code | hook_copilot | hook_hermes => None
  end.

Definition getAgentResumeArgv (agent : ResumableTuiAgent) (providerSession : AgentProviderSessionMetadata)
    (ompResumeFilePath : option jsstring) : option (list jsstring) :=
  let id := ps_id providerSession in
  let for_session argv := match ps_key providerSession with session_id => Some argv | conversation_id => None end in
  match agent with
  | re_claude => for_session [js "claude"; js "--resume"; id]
  | re_codex => for_session [js "codex"; js "resume"; id]
  | re_gemini => for_session [js "gemini"; js "--resume"; id]
  | re_antigravity => match ps_key providerSession with
                      | conversation_id => Some [js "agy"; js "--conversation"; id]
                      | session_id => None
                      end
  | re_opencode => for_session [js "opencode"; js "--session"; id]
  | re_pi => match ps_key providerSession, ps_transcriptPath providerSession with
             | session_id, Some (c :: rest) => Some [js "pi"; js "--session"; c :: rest]
             | _, _ => None
             end
  | re_mimo_code => for_session [js "mimo"; js "--session"; id]
  | re_droid => for_session [js "droid"; js "--resume"; id]
  | re_grok => for_session [js "grok"; js "--resume"; id]
  | re_devin => for_session [js "devin"; js "--resume"; id]
  | re_omp => for_session [js "omp"; js "--resume"; match given ompResumeFilePath with Some path => trim path | None => id end]
  end.

(** ** resume-startup.ts *)

Record ResumableAgentRuntime := mkRuntime { ru_launchCommand : jsstring; ru_expectedProcess : jsstring }.

Definition RESUMABLE_AGENT_RUNTIME (agent : ResumableTuiAgent) : ResumableAgentRuntime :=
  let same name := mkRuntime name name in
  match agent with
  | re_claude => same (js "claude") | re_codex => same (js "codex") | re_gemini => same (js "gemini")
  | re_antigravity => same (js "agy") | re_opencode => same (js "opencode") | re_mimo_code => same (js "mimo")
  | re_droid => same (js "droid") | re_grok => same (js "grok") | re_devin => same (js "devin") | re_pi => same (js "pi")
  | re_omp => same (js "omp")
  end.

Record AgentResumeStartupPlan := mkResumePlan {
  rp_agent : ResumableTuiAgent;
  rp_launchCommand : jsstring;
  rp_expectedProcess : jsstring;
  rp_launchConfig : SleepingAgentLaunchConfig;
  rp_env : option env
}.

Record ResumeArgs := mkResumeArgs {
  ra_agent : ResumableTuiAgent;
  ra_providerSession : AgentProviderSessionMetadata;
  ra_cmdOverrides : jsrecord jsstring;
  ra_platform : StartupHostPlatform;
  ra_shell : option AgentStartupShell;
  ra_agentArgs : option jsstring;
  ra_agentEnv : option env;
  ra_agentCommand : option jsstring;
  ra_ompResumeFilePath : option jsstring
}.

(** The command that is resumed, before the arguments that name the session; [None]:
    [unclosed-quote]. *)
Definition resume_base (args : ResumeArgs) (shell : AgentStartupShell) : option jsstring :=
  match given (ra_agentCommand args) with
  | Some persisted => Some (trim persisted)
  | None =>
      let command := match rec_get (agent_id (as_agent (ra_agent args))) (ra_cmdOverrides args) with
                     | Some (c :: rest) => c :: rest
                     | _ => ru_launchCommand (RESUMABLE_AGENT_RUNTIME (ra_agent args))
                     end in
      match planAgentCliArgsSuffix (ra_agentArgs args) shell with
      | None => None
      | Some suffix => Some (with_suffix command suffix)
      end
  end.

Definition buildAgentResumeStartupPlan (args : ResumeArgs) : option AgentResumeStartupPlan :=
  match getAgentResumeArgv (ra_agent args) (ra_providerSession args) (ra_ompResumeFilePath args) with
  | None => None
  | Some resumeArgv =>
      let shell := resolveStartupShell (ra_platform args) (ra_shell args) in
      match resume_base args shell with
      | None => None
      | Some baseCommand =>
          Some (mkResumePlan (ra_agent args) (with_suffix baseCommand (quoted_args (drop 1 resumeArgv) shell))
                  (ru_expectedProcess (RESUMABLE_AGENT_RUNTIME (ra_agent args)))
                  (mkLaunchConfig (given (Some baseCommand)) (default [] (ra_agentArgs args)) (default [] (ra_agentEnv args))
                     (option_map trim (given (ra_ompResumeFilePath args))))
                  (ra_agentEnv args))
      end
  end.
