(* ===== verification/AgentLaunchSpec.v ===== *)
(** The command lines that start and resume agents (AgentLaunch.v, AgentResume.v): a shell
    reads the words that were meant, the prompt as one of them, and a POSIX shell finds
    nothing to expand or run in them. *)

From stdpp Require Import base list.
From Stdlib Require Import ZArith Lia ZifyBool String.
From S2P Require Import Prelude JsText JsRecord Json KeySyntax ShellCommand AgentConfig AgentLaunch AgentResume.

Open Scope Z_scope.

#[local] Set Warnings "-clear-no-such-hyp".

(** ** The words of a command *)

Lemma quoted_args_nil args shell : quoted_args args shell = [] <-> args = [].
Proof.
  split; [|by intros ->]. destruct args as [|arg args]; [done|]. intros H.
  assert (Hl : last (quoted_args (arg :: args) shell) = None) by by rewrite H. by rewrite quoted_args_last in Hl.
Qed.

(** The suffix of no arguments leaves the command alone. *)
Lemma suffix_args shell command tokens args : command_line shell command tokens -> Forall (readable shell) args ->
  command_line shell (with_suffix command (quoted_args args shell)) (tokens ++ args).
Proof.
  intros Hc Ha. unfold with_suffix. destruct (text_eqb _ []) eqn:E.
  - apply text_eqb_true, quoted_args_nil in E as ->. by rewrite app_nil_r.
  - apply command_args; [done..|]. intros ->. by rewrite (proj2 (quoted_args_nil [] shell)) in E.
Qed.

(** The words a user typed. *)
Definition typed_words (agentArgs : option jsstring) (shell : AgentStartupShell) : option (list jsstring) :=
  match given agentArgs with
  | Some text => tokenizeStartupCommand (trim text) shell
  | None => Some []
  end.

Lemma suffix_typed agentArgs shell : planAgentCliArgsSuffix agentArgs shell =
  option_map (fun typed => quoted_args typed shell) (typed_words agentArgs shell).
Proof.
  unfold planAgentCliArgsSuffix, typed_words, given. destruct agentArgs as [text|]; [|done].
  change (default [] (Some text)) with text. cbn zeta. destruct (text_eqb (trim text) []); [done|]. by destruct (tokenizeStartupCommand _ _).
Qed.

Definition option_words (args : LaunchArgs) (typed : list jsstring) : list jsstring :=
  rs_args (resolveAgentSessionOptionLaunch (la_agent args) (la_sessionOptions args) typed).

Lemma resolved_words args command tokens typed : resolveAgentLaunchCommand args = Some command ->
  command_line (la_shell args) (base_command args) tokens ->
  typed_words (la_agentArgs args) (la_shell args) = Some typed ->
  Forall (readable (la_shell args)) (option_words args typed ++ typed) ->
  command_line (la_shell args) (rc_command command) (tokens ++ option_words args typed ++ typed).
Proof.
  unfold resolveAgentLaunchCommand. rewrite suffix_typed. intros H Hc Ht [Ho Htyped]%Forall_app. rewrite Ht in H. cbn [option_map] in H.
  unfold typed_words in Ht. rewrite Ht in H. injection H as <-. cbn [rc_command]. rewrite app_assoc.
  apply suffix_args; [|done]. by apply suffix_args.
Qed.

Lemma words_after shell command tokens words : command_line shell command tokens ->
  Forall (fun word => forallb plain_unit word = true /\ word <> []) words ->
  command_line shell (command ++ flat_map (fun word => SPACE :: word) words) (tokens ++ words).
Proof.
  intros Hc H. revert command tokens Hc. induction H as [|word words [Hw Hn] H IH]; intros command tokens Hc; cbn [flat_map].
  - by rewrite !app_nil_r.
  - rewrite app_assoc. change (tokens ++ word :: words) with (tokens ++ [word] ++ words). rewrite app_assoc.
    apply IH. by apply command_word.
Qed.

Lemma prompt_words_check agent :
  match prompt_words (TUI_AGENT_CONFIG agent) with
  | Some words => forallb (fun word => forallb plain_unit word && negb (text_eqb word [])) words
  | None => true
  end = true.
Proof. by destruct agent. Qed.

Lemma prompt_words_plain agent words : prompt_words (TUI_AGENT_CONFIG agent) = Some words ->
  Forall (fun word => forallb plain_unit word = true /\ word <> []) words.
Proof.
  intros H. pose proof (prompt_words_check agent) as Hc. rewrite H, forallb_forall in Hc. apply Forall_forall.
  intros word Hw%list_elem_of_In. specialize (Hc word Hw). apply andb_true_iff in Hc as [Hp Hn]. split; [done|].
  intros ->. by rewrite text_eqb_refl in Hn.
Qed.

(** The commands of the table. *)
Lemma launch_command_words agent platform isRemote shell :
  command_line shell (getTuiAgentLaunchCommand (TUI_AGENT_CONFIG agent) platform isRemote)
    (split_on SPACE (cfg_launchCmd (TUI_AGENT_CONFIG agent))).
Proof.
  assert (getTuiAgentLaunchCommand (TUI_AGENT_CONFIG agent) platform isRemote = cfg_launchCmd (TUI_AGENT_CONFIG agent)) as ->.
  { unfold getTuiAgentLaunchCommand. destruct (_ && _); [done|]. by destruct agent. }
  split; [by destruct agent, shell | destruct agent, shell; vm_compute; congruence].
Qed.

(** How a plan is made when the prompt is put on the command line. *)
Lemma prompted_command `{K : CaseMapping} args plan words : buildAgentStartupPlan args = Some plan ->
  trim (sa_prompt args) <> [] -> prompt_words (TUI_AGENT_CONFIG (sa_agent args)) = Some words ->
  exists command, resolveAgentLaunchCommand (launch_args args) = Some command /\
    pl_launchCommand plan = rc_command command ++ flat_map (fun word => SPACE :: word) words
      ++ SPACE :: quoteStartupArg (trim (sa_prompt args)) (startup_shell args).
Proof.
  unfold buildAgentStartupPlan. intros H Hp Hw. destruct (resolveAgentLaunchCommand _) as [command|]; [|done]. exists command.
  split; [done|]. destruct (text_eqb (trim (sa_prompt args)) []) eqn:E; [by apply text_eqb_true in E|].
  unfold prompt_words in Hw. destruct (cfg_promptInjectionMode _); try done; injection Hw as <-; by injection H as <-.
Qed.

(** C13. The prompt reaches the agent as one argument, and nothing else changes: when the
    prompt is put on the command line, after a command that reads as words and does not end
    with the escape character of the shell, the shell reads the words of the command, the options
    of the session, the words the user typed, the flag or separator of the agent and the
    prompt, whatever quotes, spaces or signs it has, in each of the three shells (in
    PowerShell, without backticks). *)
Theorem prompt_is_one_argument `{K : CaseMapping} args plan words tokens typed :
  buildAgentStartupPlan args = Some plan -> trim (sa_prompt args) <> [] ->
  prompt_words (TUI_AGENT_CONFIG (sa_agent args)) = Some words ->
  command_line (startup_shell args) (base_command (launch_args args)) tokens ->
  typed_words (sa_agentArgs args) (startup_shell args) = Some typed ->
  Forall (readable (startup_shell args)) (option_words (launch_args args) typed ++ typed ++ [trim (sa_prompt args)]) ->
  tokenizeStartupCommand (pl_launchCommand plan) (startup_shell args)
    = Some (tokens ++ option_words (launch_args args) typed ++ typed ++ words ++ [trim (sa_prompt args)]).
Proof.
  intros H Hp Hw Hc Ht Hr. destruct (prompted_command _ _ _ H Hp Hw) as (command & Hres & ->).
  rewrite app_assoc in Hr. apply Forall_app in Hr as [Hr Hprompt].
  assert (Hargs : la_agentArgs (launch_args args) = sa_agentArgs args).
  { unfold launch_args, usesQuery. cbn [la_agentArgs]. unfold prompt_words in Hw. by destruct (cfg_promptInjectionMode _). }
  assert (Hcmd : command_line (startup_shell args) (rc_command command) (tokens ++ option_words (launch_args args) typed ++ typed)).
  { apply (resolved_words (launch_args args)); [done..| |done]. by rewrite Hargs. }
  apply (words_after _ _ _ words) in Hcmd; [|by eapply prompt_words_plain].
  apply (command_args _ _ _ [trim (sa_prompt args)]) in Hcmd; [|done..]. destruct Hcmd as [Hcmd _].
  rewrite <- !app_assoc in Hcmd. exact Hcmd.
Qed.

Lemma prompt_is_one_argument_witness :
  tokenizeStartupCommand (js "claude '--model' 'opus' '--effort' 'high' '-p' 'it'\''s $(rm -rf .)'") posix
    = Some ([js "claude"] ++ [js "--model"; js "opus"; js "--effort"; js "high"] ++ [js "-p"] ++ [] ++ [js "it's $(rm -rf .)"]).
Proof.
  apply (prompt_is_one_argument (K := ascii_case)
    (mkStartupArgs agent_claude (js " it's $(rm -rf .) ") [] linux_host None false (Some (js "-p")) None
       (Some [(js "model", opt_text (js "opus"))]) false)
    (mkPlan agent_claude (js "claude '--model' 'opus' '--effort' 'high' '-p' 'it'\''s $(rm -rf .)'") (js "claude") None
       (mkLaunchConfig (Some (js "claude '-p'")) (js "-p") [] None) None None
       (Some [(js "model", opt_text (js "opus")); (js "effort", opt_text (js "high"))]))
    [] [js "claude"] [js "-p"]); try (vm_compute; reflexivity).
  - by vm_compute.
  - apply (launch_command_words agent_claude linux_host false posix).
  - vm_compute. repeat constructor.
Defined.

(** ** What a POSIX shell may interpret *)

(** The units that mean nothing to a shell: letters, digits, the space, [-], [_], [.], [/]
    and [=]. *)
Definition shell_plain (c : Z) : bool :=
  (65 <=? c) && (c <=? 90) || (97 <=? c) && (c <=? 122) || (48 <=? c) && (c <=? 57)
  || existsb (Z.eqb c) [SPACE; 45; 95; 46; 47; 61].

(** Outside of single quotes, only those and an escaped single quote. *)
Fixpoint inert (quoted : bool) (s : jsstring) : bool :=
  match s with
  | [] => negb quoted
  | c :: rest =>
      if quoted then inert (negb (c =? SINGLE_QUOTE)) rest
      else if c =? SINGLE_QUOTE then inert true rest
      else match rest with
      | next :: rest' => if (c =? BACKSLASH) && (next =? SINGLE_QUOTE) then inert false rest' else shell_plain c && inert false rest
      | [] => shell_plain c
      end
  end.

Lemma inert_plain c rest : shell_plain c = true -> inert false (c :: rest) = inert false rest.
Proof.
  intros H. cbn [inert]. destruct (c =? SINGLE_QUOTE) eqn:E; [assert (c = 39) as -> by (unfold SINGLE_QUOTE in *; lia); done|].
  destruct rest as [|n rest]; [done|]. destruct (c =? BACKSLASH) eqn:E'; [assert (c = 92) as -> by (unfold BACKSLASH in *; lia); done|].
  by rewrite H.
Qed.

Lemma inert_word word rest : forallb shell_plain word = true -> inert false (word ++ rest) = inert false rest.
Proof. induction word as [|c word IH]; cbn [app forallb]; [done|]. intros [Hc Hw]%andb_true_iff. rewrite inert_plain; auto. Qed.

Lemma inert_units arg rest : inert true (List.concat (quote_unit posix <$> arg) ++ rest) = inert true rest.
Proof.
  induction arg as [|c arg IH]; [done|]. cbn [fmap list_fmap List.concat]. rewrite <- app_assoc. cbn [quote_unit].
  destruct (c =? SINGLE_QUOTE) eqn:E; [exact IH|]. cbn [app inert]. by rewrite E.
Qed.

Lemma inert_quoted arg rest : inert false (quoteStartupArg arg posix ++ rest) = inert false rest.
Proof.
  unfold quoteStartupArg. rewrite <- !app_assoc. change (inert true (List.concat (quote_unit posix <$> arg) ++ [SINGLE_QUOTE] ++ rest) = inert false rest).
  by rewrite inert_units.
Qed.

Lemma inert_args args rest : inert false (quoted_args args posix ++ rest) = inert false rest.
Proof.
  induction args as [|arg args IH]; [done|]. destruct args as [|next args]; [apply inert_quoted|].
  change (quoted_args (arg :: next :: args) posix) with (quoteStartupArg arg posix ++ SPACE :: quoted_args (next :: args) posix).
  rewrite <- app_assoc. cbn [app]. by rewrite inert_quoted, inert_plain.
Qed.

(** Text after which a shell is where it was. *)
Definition harmless (s : jsstring) : Prop := forall rest, inert false (s ++ rest) = inert false rest.

Lemma harmless_inert s : harmless s -> inert false s = true.
Proof. intros H. specialize (H []). by rewrite app_nil_r in H. Qed.

Lemma harmless_app s t : harmless s -> harmless t -> harmless (s ++ t).
Proof. intros Hs Ht rest. by rewrite <- app_assoc, Hs, Ht. Qed.

Lemma harmless_space s : harmless s -> harmless (SPACE :: s).
Proof. intros Hs rest. cbn [app]. by rewrite inert_plain, Hs. Qed.

Lemma harmless_word word : forallb shell_plain word = true -> harmless word.
Proof. intros H rest. by apply inert_word. Qed.

Lemma harmless_suffix command args : harmless command -> harmless (with_suffix command (quoted_args args posix)).
Proof.
  intros Hc. unfold with_suffix. destruct (text_eqb _ []); [done|]. apply harmless_app; [done|]. apply harmless_space.
  intros rest. apply inert_args.
Qed.

Lemma harmless_words words : Forall (fun word => forallb shell_plain word = true) words ->
  harmless (flat_map (fun word => SPACE :: word) words).
Proof.
  induction 1 as [|word words Hw H IH]; cbn [flat_map]; [done|]. apply (harmless_app (SPACE :: word)); [|done].
  by apply harmless_space, harmless_word.
Qed.

Lemma prompt_words_harmless agent words : prompt_words (TUI_AGENT_CONFIG agent) = Some words ->
  harmless (flat_map (fun word => SPACE :: word) words).
Proof. intros H. apply harmless_words. destruct agent; try discriminate H; injection H as <-; repeat constructor. Qed.

Lemma launch_command_harmless agent platform isRemote :
  harmless (getTuiAgentLaunchCommand (TUI_AGENT_CONFIG agent) platform isRemote).
Proof.
  apply harmless_word. unfold getTuiAgentLaunchCommand. destruct (_ && _); by destruct agent.
Qed.

Lemma base_harmless args : rec_get (agent_id (la_agent args)) (la_cmdOverrides args) = None -> harmless (base_command args).
Proof. intros H. unfold base_command. rewrite H. apply launch_command_harmless. Qed.

Lemma resolved_harmless args command : resolveAgentLaunchCommand args = Some command -> la_shell args = posix ->
  rec_get (agent_id (la_agent args)) (la_cmdOverrides args) = None -> harmless (rc_command command).
Proof.
  unfold resolveAgentLaunchCommand. rewrite suffix_typed. intros H Hs Ho. rewrite Hs in H.
  destruct (typed_words _ _) as [typed|]; [|done]. cbn [option_map] in H. destruct (match given _ with Some _ => _ | None => _ end); [|done].
  injection H as <-. by apply harmless_suffix, harmless_suffix, base_harmless.
Qed.

Lemma query_harmless argv : harmless (buildQueryCommand argv posix).
Proof.
  unfold buildQueryCommand. apply harmless_app; [by apply harmless_word|]. intros rest. apply inert_quoted.
Qed.

(** C12. Nothing of a prompt, an argument or an option is interpreted by a POSIX shell: in the
    command line that starts an agent whose command the user has not replaced, every unit of the prompt, of the arguments and of the options is
    inside single quotes or is an escaped quote; outside there are only the letters, digits,
    spaces and signs of plain words. *)
Theorem launch_is_inert `{K : CaseMapping} args plan : buildAgentStartupPlan args = Some plan ->
  startup_shell args = posix -> rec_get (agent_id (sa_agent args)) (sa_cmdOverrides args) = None ->
  inert false (pl_launchCommand plan) = true.
Proof.
  intros H Hs Ho. apply harmless_inert. destruct (text_eqb (trim (sa_prompt args)) []) eqn:Ep.
  - unfold buildAgentStartupPlan in H. rewrite Ep in H. destruct (resolveAgentLaunchCommand _) as [command|] eqn:Hc; [|done].
    destruct (negb _); [done|]. injection H as <-. by eapply resolved_harmless.
  - assert (Hp : trim (sa_prompt args) <> []) by (intros E; rewrite E in Ep; by rewrite text_eqb_refl in Ep).
    destruct (prompt_words (TUI_AGENT_CONFIG (sa_agent args))) as [words|] eqn:Hw.
    + destruct (prompted_command _ _ _ H Hp Hw) as (command & Hc & ->). apply harmless_app; [by eapply resolved_harmless|].
      apply harmless_app; [by eapply prompt_words_harmless|]. apply harmless_space. rewrite Hs. intros rest. apply inert_quoted.
    + unfold buildAgentStartupPlan in H. rewrite Ep in H. destruct (resolveAgentLaunchCommand _) as [command|] eqn:Hc; [|done].
      unfold prompt_words in Hw. destruct (cfg_promptInjectionMode _); try done.
      * unfold planHermesStartupQuery in H. rewrite Hs in H. repeat (case_match; simplify_eq); apply query_harmless.
      * injection H as <-. by eapply resolved_harmless.
Qed.

Lemma launch_is_inert_witness :
  inert false (js "copilot '--resume' -i '`id`; \$(reboot) && '\''x'\'''") = true.
Proof.
  apply (launch_is_inert (K := ascii_case)
    (mkStartupArgs agent_copilot (js "`id`; \$(reboot) && 'x'") [] linux_host None false (Some (js "--resume")) None None false)
    (mkPlan agent_copilot (js "copilot '--resume' -i '`id`; \$(reboot) && '\''x'\'''") (js "copilot") None
       (mkLaunchConfig (Some (js "copilot '--resume'")) (js "--resume") [] None) None None None)); vm_compute; reflexivity.
Defined.

(** The prompt of hermes is in its environment only. *)
Lemma hermes_prompt_hidden `{K : CaseMapping} base agentArgs prompt prompt' vars platform shell command environment command' environment' :
  planHermesStartupQuery base agentArgs prompt vars platform shell = Some (command, environment) ->
  planHermesStartupQuery base agentArgs prompt' vars platform shell = Some (command', environment') ->
  command = command' /\ rec_get AGENTSTART_HERMES_STARTUP_QUERY_ENV environment = Some prompt.
Proof.
  unfold planHermesStartupQuery. destruct (tokenizeCommand _ _); [|done]. destruct (match given _ with Some _ => _ | None => _ end); [|done].
  destruct (normalizeHermesArgv _ _ _); [|done]. destruct (_ <=? _); [|done]. intros H. destruct (_ <=? _); [|done].
  intros H'. simplify_eq. split; [done|]. apply rec_get_set_eq.
Qed.

(** ** Resuming *)

(** The sessions the client has: reported by the hook of an agent, or stored. *)
Definition accepted_session (session : AgentProviderSessionMetadata) : Prop :=
  (exists source payload, extractAgentProviderSession source payload = Some session)
  \/ (exists raw, normalizeAgentProviderSession raw = Some session).

Definition safe_id (id : jsstring) : Prop :=
  0 < js_length id <= PROVIDER_SESSION_ID_MAX_LENGTH /\ starts_with id (js "-") = false /\ hasUnsafeProviderSessionIdChars id = false.

Lemma normalized_id value id : normalizeSessionId value = Some id -> safe_id id.
Proof.
  unfold normalizeSessionId. destruct value as [[]|]; try done. destruct (_ || _) eqn:E; [done|]. intros [= <-].
  rewrite !orb_false_iff in E. destruct E as [[[E1 E2] E3] E4]. split; [|done]. unfold js_length in *. lia.
Qed.

Lemma read_id record keys id : readSessionId record keys = Some id -> safe_id id.
Proof.
  induction keys as [|key keys IH]; cbn [readSessionId]; [done|].
  destruct (normalizeSessionId _) eqn:E; [|done]. intros [= <-]. by eapply normalized_id.
Qed.

Lemma transcript_id metadata payload keys : ps_id (withTranscriptPath metadata payload keys) = ps_id metadata.
Proof. unfold withTranscriptPath. by destruct (readTranscriptPathFromKeys _ _). Qed.

Lemma session_of_id key id session : session_of key id = Some session -> id = Some (ps_id session).
Proof. unfold session_of. destruct id; [|done]. by intros [= <-]. Qed.

Lemma session_of_transcript key id payload keys session :
  option_map (fun s => withTranscriptPath s payload keys) (session_of key id) = Some session -> id = Some (ps_id session).
Proof. destruct id; [|done]. cbn. intros [= <-]. by rewrite transcript_id. Qed.

Lemma accepted_safe session : accepted_session session -> safe_id (ps_id session).
Proof.
  intros [(source & payload & H)|(raw & H)].
  - assert (Hread : exists keys, readSessionId payload keys = Some (ps_id session)).
    { destruct source; cbn [extractAgentProviderSession] in H; try done;
        try (eexists; by eapply session_of_id); try (eexists; by eapply session_of_transcript).
      destruct (option_map _ _) as [s|] eqn:E; [|done]. destruct (ps_transcriptPath s); [|done]. injection H as <-.
      eexists. by eapply session_of_transcript. }
    destruct Hread as [keys Hread]. by eapply read_id.
  - unfold normalizeAgentProviderSession in H. destruct raw as [| | | | |record]; try done.
    destruct (match property _ record with Some _ => _ | None => _ end); [|done].
    destruct (normalizeSessionId _) eqn:E; [|done]. injection H as <-. by eapply normalized_id.
Qed.

(** The words that name a session. *)
Lemma resume_argv agent session argv : getAgentResumeArgv agent session None = Some argv -> agent <> re_pi ->
  exists word, drop 1 argv = [word; ps_id session] /\ starts_with word (js "-") = negb (bool_decide (agent = re_codex))
    /\ forallb shell_plain word = true.
Proof. destruct agent; cbn; destruct (ps_key session); try done; intros [= <-] _; by eexists. Qed.

Lemma plain_readable shell word : forallb shell_plain word = true -> readable shell word.
Proof.
  destruct shell; try done. intros H Hin%list_elem_of_In. rewrite forallb_forall in H. by specialize (H _ Hin).
Qed.

(** C27. Resuming a session names that session and nothing else: after the words of the command,
    which does not end with the escape character of the shell, the shell reads two, the
    option (the subcommand, for codex) and the id the agent reported, which is no option, has
    at most 512 units and no control character.  This is for the agents resumed by id, all but
    pi and an omp session with a resume file, and in PowerShell for ids without a backtick. *)
Theorem resume_names_session args plan base tokens :
  buildAgentResumeStartupPlan args = Some plan -> accepted_session (ra_providerSession args) ->
  ra_agent args <> re_pi -> ra_ompResumeFilePath args = None ->
  resume_base args (resolveStartupShell (ra_platform args) (ra_shell args)) = Some base ->
  command_line (resolveStartupShell (ra_platform args) (ra_shell args)) base tokens ->
  readable (resolveStartupShell (ra_platform args) (ra_shell args)) (ps_id (ra_providerSession args)) ->
  exists word, tokenizeStartupCommand (rp_launchCommand plan) (resolveStartupShell (ra_platform args) (ra_shell args))
      = Some (tokens ++ [word; ps_id (ra_providerSession args)]) /\
    starts_with word (js "-") = negb (bool_decide (ra_agent args = re_codex)) /\ safe_id (ps_id (ra_providerSession args)).
Proof.
  intros H Hs Hpi Homp Hb Hc Hr. unfold buildAgentResumeStartupPlan in H. rewrite Homp in H.
  destruct (getAgentResumeArgv _ _ _) as [argv|] eqn:Ha; [|done]. rewrite Hb in H. injection H as <-. cbn [rp_launchCommand].
  destruct (resume_argv _ _ _ Ha Hpi) as (word & Hargv & Hword & Hplain). exists word. split; [|split; [done | by apply accepted_safe]].
  rewrite Hargv. eapply suffix_args; [done|]. repeat constructor; [by apply plain_readable | done].
Qed.

Definition resumed : AgentProviderSessionMetadata := mkSession session_id (js "a'1") None.

Lemma resume_names_session_witness :
  exists word, tokenizeStartupCommand (js "codex '--search' 'resume' 'a'\''1'") posix = Some ([js "codex"; js "--search"] ++ [word; js "a'1"])
    /\ starts_with word (js "-") = false /\ safe_id (js "a'1").
Proof.
  destruct (resume_names_session
    (mkResumeArgs re_codex resumed [] linux_host None (Some (js "--search")) None None None)
    (mkResumePlan re_codex (js "codex '--search' 'resume' 'a'\''1'") (js "codex")
       (mkLaunchConfig (Some (js "codex '--search'")) (js "--search") [] None) None)
    (js "codex '--search'") [js "codex"; js "--search"]) as (word & Hread & Hword & Hid).
  - vm_compute. reflexivity.
  - left. exists hook_codex, [(js "session_id", JStr (js " a'1 "))]. vm_compute. reflexivity.
  - done.
  - reflexivity.
  - vm_compute. reflexivity.
  - split; [vm_compute; reflexivity | by vm_compute].
  - exact I.
  - exists word. split; [exact Hread|]. split; [exact Hword | exact Hid].
Defined.

Example start_of_grok :
  option_map pl_launchCommand (buildAgentStartupPlan (K := ascii_case)
    (mkStartupArgs agent_grok (js " it's $HOME ") [] linux_host None false (Some (js "--fast")) None None false))
  = Some (js "grok '--fast' -- 'it'\''s $HOME'").
Proof. vm_compute. reflexivity. Qed.
