(* ===== verification/PollRunner.v ===== *)
(** The runner of polled tasks (packages/client/src/workspace-panel/coalesced-poll-runner.ts):
    the state of [createCoalescedPollRunner], its events and the pacing of its runs.

    A timer is the time it is due and the trigger it runs with.  An event carries the time
    ([Date.now()]) at which the code runs; the task returns a promise, its call is an effect
    and its end an event.  Times and multipliers are integers. *)

From stdpp Require Import base list.
From Stdlib Require Import ZArith Lia ZifyBool.
From S2P Require Import Prelude.

Open Scope Z_scope.

#[local] Set Warnings "-clear-no-such-hyp".

Record CoalescedPollRunnerTrigger := mkTrigger { tr_changeSignal : option bool }.

Record SlowTaskBackoffOptions := mkBackoff {
  bo_idleMultiplier : Z;
  bo_changeSignalMultiplier : Z;
  bo_maxIntervalMs : Z
}.

Definition slowTaskRequiredIdleMs (lastRunDurationMs multiplier minIntervalMs maxIntervalMs : Z) : Z :=
  Z.max minIntervalMs (Z.min (lastRunDurationMs * multiplier) maxIntervalMs).

Record PollOptions := mkPollOptions {
  po_minIntervalMs : option Z;
  po_slowTaskBackoff : option SlowTaskBackoffOptions
}.

(** [pr_inFlight] holds when the run in flight started; [pr_lastRunEndedAt] is [None] before
    the first end. *)
Record PollRunner := mkPollRunner {
  pr_disposed : bool;
  pr_inFlight : option Z;
  pr_rerunTrigger : option CoalescedPollRunnerTrigger;
  pr_lastRunEndedAt : option Z;
  pr_lastRunDurationMs : Z;
  pr_timeout : option (Z * option CoalescedPollRunnerTrigger)
}.

Definition new_poll_runner : PollRunner := mkPollRunner false None None None 0 None.

(** [trigger?.changeSignal] in a test. *)
Definition changeSignal (trigger : option CoalescedPollRunnerTrigger) : bool :=
  match trigger with Some (mkTrigger (Some true)) => true | _ => false end.

(** [{ changeSignal: rerunTrigger?.changeSignal || trigger?.changeSignal }] *)
Definition strongest (rerun trigger : option CoalescedPollRunnerTrigger) : CoalescedPollRunnerTrigger :=
  mkTrigger (if changeSignal rerun then Some true else match trigger with Some tr => tr_changeSignal tr | None => None end).

Inductive PollEffect := x_task.

Inductive PollEvent :=
  | pe_run (trigger : option CoalescedPollRunnerTrigger) | pe_timer | pe_settled | pe_dispose.

(** What happened: the time, the event and what it did. *)
Abbreviation poll_history := (list (Z * PollEvent * list PollEffect)).

Section runner.
Context (options : PollOptions).

Definition minIntervalMs : Z := match po_minIntervalMs options with Some interval => interval | None => 0 end.

Definition requiredIdleMsFor (s : PollRunner) (trigger : option CoalescedPollRunnerTrigger) : Z :=
  match po_slowTaskBackoff options with
  | None => minIntervalMs
  | Some backoff =>
      let multiplier := if changeSignal trigger then bo_changeSignalMultiplier backoff else bo_idleMultiplier backoff in
      slowTaskRequiredIdleMs (pr_lastRunDurationMs s) multiplier minIntervalMs (bo_maxIntervalMs backoff)
  end.

Definition clearScheduledRun (s : PollRunner) : PollRunner :=
  mkPollRunner (pr_disposed s) (pr_inFlight s) (pr_rerunTrigger s) (pr_lastRunEndedAt s) (pr_lastRunDurationMs s) None.

Definition start_task (now : Z) (s : PollRunner) : PollRunner * list PollEffect :=
  (mkPollRunner (pr_disposed s) (Some now) (pr_rerunTrigger s) (pr_lastRunEndedAt s) (pr_lastRunDurationMs s) None, [x_task]).

Definition schedule_run (allowedAt : Z) (trigger : option CoalescedPollRunnerTrigger) (s : PollRunner) : PollRunner * list PollEffect :=
  match pr_timeout s with
  | Some (timeoutFiresAt, _) => if timeoutFiresAt <=? allowedAt then (s, []) else
      (mkPollRunner (pr_disposed s) (pr_inFlight s) (pr_rerunTrigger s) (pr_lastRunEndedAt s) (pr_lastRunDurationMs s)
         (Some (allowedAt, trigger)), [])
  | None =>
      (mkPollRunner (pr_disposed s) (pr_inFlight s) (pr_rerunTrigger s) (pr_lastRunEndedAt s) (pr_lastRunDurationMs s)
         (Some (allowedAt, trigger)), [])
  end.

Definition run (now : Z) (trigger : option CoalescedPollRunnerTrigger) (s : PollRunner) : PollRunner * list PollEffect :=
  if pr_disposed s then (s, [])
  else
    match pr_inFlight s with
    | Some _ =>
        (mkPollRunner (pr_disposed s) (pr_inFlight s) (Some (strongest (pr_rerunTrigger s) trigger)) (pr_lastRunEndedAt s)
           (pr_lastRunDurationMs s) (pr_timeout s), [])
    | None =>
        match pr_lastRunEndedAt s with
        | None => start_task now s
        | Some ended =>
            let allowedAt := ended + requiredIdleMsFor s trigger in
            if now <? allowedAt then schedule_run allowedAt trigger s else start_task now s
        end
    end.

Definition poll_timer_fired (now : Z) (s : PollRunner) : PollRunner * list PollEffect :=
  match pr_timeout s with
  | Some (due, trigger) => if due <=? now then run now trigger (clearScheduledRun s) else (s, [])
  | None => (s, [])
  end.

(** The [finally] of a run. *)
Definition poll_settled (now : Z) (s : PollRunner) : PollRunner * list PollEffect :=
  match pr_inFlight s with
  | None => (s, [])
  | Some started =>
      let trailingTrigger := if pr_disposed s then None else pr_rerunTrigger s in
      let s := mkPollRunner (pr_disposed s) None None (Some now) (now - started) (pr_timeout s) in
      match trailingTrigger with Some trigger => run now (Some trigger) s | None => (s, []) end
  end.

Definition dispose_poll (s : PollRunner) : PollRunner :=
  clearScheduledRun (mkPollRunner true (pr_inFlight s) None (pr_lastRunEndedAt s) (pr_lastRunDurationMs s) (pr_timeout s)).

Definition poll_step (now : Z) (e : PollEvent) (s : PollRunner) : PollRunner * list PollEffect :=
  match e with
  | pe_run trigger => run now trigger s
  | pe_timer => poll_timer_fired now s
  | pe_settled => poll_settled now s
  | pe_dispose => (dispose_poll s, [])
  end.

Definition running (s : PollRunner) : bool := match pr_inFlight s with Some _ => true | None => false end.

(** The runs of the runner; only a task in flight ends. *)
Inductive polled : poll_history -> PollRunner -> Prop :=
  | polled_new : polled [] new_poll_runner
  | polled_step trace s now e s' effects : polled trace s -> (e = pe_settled -> running s = true) ->
      poll_step now e s = (s', effects) -> polled (trace ++ [(now, e, effects)]) s'.

(** When the last task ended. *)
Definition note_poll_end (last : option Z) (entry : Z * PollEvent * list PollEffect) : option Z :=
  match entry with (now, pe_settled, _) => Some now | _ => last end.

Definition last_poll_end (trace : poll_history) : option Z := fold_left note_poll_end trace None.

(** The triggers that no start of the task has followed, none after the end of the runner. *)
Definition note_trigger (state : bool * list (option CoalescedPollRunnerTrigger)) (entry : Z * PollEvent * list PollEffect) :
    bool * list (option CoalescedPollRunnerTrigger) :=
  let '(disposed, waiting) := state in
  match entry with
  | (_, _, _ :: _) => (disposed, [])
  | (_, pe_dispose, []) => (true, [])
  | (_, pe_run trigger, []) => (disposed, if disposed then [] else waiting ++ [trigger])
  | _ => (disposed, waiting)
  end.

Definition waiting_triggers (trace : poll_history) : list (option CoalescedPollRunnerTrigger) :=
  snd (fold_left note_trigger trace (false, [])).

(** The longest a trigger waits after the last task: a change signal never waits out the gap of a
    plain tick. *)
Definition longest_wait (s : PollRunner) (trigger : option CoalescedPollRunnerTrigger) : Z :=
  if changeSignal trigger then requiredIdleMsFor s trigger
  else Z.max (requiredIdleMsFor s trigger) (requiredIdleMsFor s (Some (mkTrigger (Some true)))).

(** A trigger is kept: in the trailing run, at its strength or more, or by the timer. *)
Definition trigger_kept (s : PollRunner) (trigger : option CoalescedPollRunnerTrigger) : Prop :=
  running s = true /\ (exists rerun, pr_rerunTrigger s = Some rerun /\ (changeSignal trigger = true -> changeSignal (Some rerun) = true)) \/
  running s = false /\ exists due by_trigger ended, pr_timeout s = Some (due, by_trigger) /\ pr_lastRunEndedAt s = Some ended /\
    due <= ended + longest_wait s trigger.

(** ** Invariant *)

(** The state alone: a timer and a run in flight exclude each other, a trailing run waits for
    one in flight, the timer is at the gap of its trigger, and after the end nothing is set. *)
Record runner_ok (s : PollRunner) : Prop := {
  rk_alone : running s = true -> pr_timeout s = None;
  rk_rerun : pr_rerunTrigger s <> None -> running s = true;
  rk_disposed : pr_disposed s = true -> pr_timeout s = None /\ pr_rerunTrigger s = None;
  rk_timer : forall due trigger, pr_timeout s = Some (due, trigger) ->
    exists ended, pr_lastRunEndedAt s = Some ended /\ due = ended + requiredIdleMsFor s trigger
}.

Record poll_ok (trace : poll_history) (s : PollRunner) : Prop := {
  pk_runner : runner_ok s;
  pk_last_end : pr_lastRunEndedAt s = last_poll_end trace;
  pk_disposed : fst (fold_left note_trigger trace (false, [])) = pr_disposed s;
  pk_gone : pr_disposed s = true -> waiting_triggers trace = [];
  pk_waiting : forall trigger, trigger ∈ waiting_triggers trace -> trigger_kept s trigger
}.

Lemma requiredIdle_longest s trigger : requiredIdleMsFor s trigger <= longest_wait s trigger.
Proof. unfold longest_wait. destruct (changeSignal trigger); lia. Qed.

(** The trigger kept in [strongest] waits no longer than any it stands for. *)
Lemma requiredIdle_strength s strong weak : (changeSignal weak = true -> changeSignal strong = true) ->
  requiredIdleMsFor s strong <= longest_wait s weak.
Proof.
  intros H. unfold longest_wait. destruct (changeSignal weak) eqn:E.
  - unfold requiredIdleMsFor. rewrite H, E by done. lia.
  - destruct (changeSignal strong) eqn:E2; unfold requiredIdleMsFor at 1 2; rewrite ?E, E2; [|lia].
    unfold requiredIdleMsFor. cbn [changeSignal]. lia.
Qed.

Ltac open_ok := match goal with H : runner_ok _ |- _ => destruct H as [Halone Hrerun Hdis Htimer]; cbn in Halone, Hrerun, Hdis, Htimer end.

Lemma runner_ok_start now s : runner_ok s -> pr_rerunTrigger s = None -> runner_ok (fst (start_task now s)).
Proof. intros ? E. split; cbn; done. Qed.

Lemma run_keeps_ok now trigger s s' effects : runner_ok s -> run now trigger s = (s', effects) -> runner_ok s'.
Proof.
  intros Hok H. destruct s as [[] [started|] rerun ended duration timer]; unfold run in H; cbn in H.
  1-2: by injection H as <- <-.
  - injection H as <- <-. open_ok. split; cbn; done.
  - assert (rerun = None) as -> by (open_ok; destruct rerun; [discriminate Hrerun; done|done]).
    assert (Hstart := runner_ok_start now _ Hok eq_refl). destruct ended as [ended|]; [|by injection H as <- <-].
    destruct (now <? _); [|by injection H as <- <-]. unfold schedule_run in H. cbn in H.
    destruct timer as [[due by_trigger]|]; [destruct (due <=? _)|]; injection H as <- <-; try done;
      (split; cbn; try done; intros ?? [= <- <-]; by exists ended).
Qed.

(** A trigger that starts no run is kept, and keeps what was. *)
Ltac longest := apply Z.add_le_mono_l; match goal with |- requiredIdleMsFor ?x ?t <= _ => exact (requiredIdle_longest x t) end.

Lemma run_keeps_triggers now trigger s s' : runner_ok s -> pr_disposed s = false -> run now trigger s = (s', []) ->
  trigger_kept s' trigger /\ forall other, trigger_kept s other -> trigger_kept s' other.
Proof.
  intros Hok Hd H. open_ok. destruct s as [disposed [started|] rerun ended duration timer]; cbn in Hd; subst disposed; unfold run in H; cbn in H.
  - injection H as <-. unfold trigger_kept, running; cbn. split.
    + left. split; [done|]. eexists. split; [done|]. destruct trigger as [[[[]|]]|], rerun as [[[[]|]]|]; cbn; done.
    + intros other [(_ & ? & -> & Hs)|[? _]]; [|done]. left. split; [done|]. eexists. split; [done|]. intros Hc. apply Hs in Hc. unfold strongest, changeSignal. by rewrite Hc.
  - destruct ended as [ended|]; [|discriminate H]. destruct (now <? _) eqn:Enow; [|discriminate H].
    unfold schedule_run in H; cbn in H. unfold trigger_kept; cbn.
    destruct timer as [[due by_trigger]|]; [destruct (due <=? _) eqn:Edue|]; injection H as <-; cbn.
    + split; [|done]. right. split; [done|]. exists due, by_trigger, ended. split; [done|]. split; [done|].
      etransitivity; [apply Z.leb_le, Edue|]. longest.
    + split.
      * right. split; [done|]. do 3 eexists. split; [done|]. split; [done|]. longest.
      * intros other [[? _]|(_ & ? & ? & ? & [= <- <-] & [= <-] & Hle)]; [done|]. right. split; [done|]. do 3 eexists. split; [done|]. split; [done|].
        apply Z.leb_gt in Edue. etransitivity; [apply Z.lt_le_incl, Edue | exact Hle].
    + split; [|by intros other [[? _]|(_ & ? & ? & ? & ? & _)]].
      right. split; [done|]. do 3 eexists. split; [done|]. split; [done|]. longest.
Qed.

(** What [run] leaves alone, and when it starts the task. *)
Lemma run_outcome now trigger s s' effects : run now trigger s = (s', effects) ->
  pr_disposed s' = pr_disposed s /\ pr_lastRunEndedAt s' = pr_lastRunEndedAt s /\ pr_lastRunDurationMs s' = pr_lastRunDurationMs s /\
  (effects = [] \/ effects = [x_task] /\ running s = false /\ pr_inFlight s' = Some now /\
     forall ended, pr_lastRunEndedAt s = Some ended -> ended + requiredIdleMsFor s trigger <= now).
Proof.
  destruct s as [[] [started|] rerun [ended|] duration [[due by_trigger]|]]; unfold run, schedule_run; cbn; intros H;
    repeat match type of H with context [if ?b then _ else _] => destruct b eqn:? end; injection H as <- <-; cbn; repeat split; auto;
    right; repeat split; intros ? [= <-]; by apply Z.ltb_ge.
Qed.

(** A timer that fires in time starts the task. *)
Lemma timer_starts now s due trigger : runner_ok s -> pr_timeout s = Some (due, trigger) -> due <= now ->
  poll_timer_fired now s = start_task now (clearScheduledRun s).
Proof.
  intros [Halone _ Hdis Htimer] E Hle. unfold poll_timer_fired. rewrite E, (proj2 (Z.leb_le _ _) Hle). unfold run.
  destruct s as [[] [started|] rerun ended duration timer]; cbn in *; try (destruct (Hdis eq_refl); congruence).
  - by rewrite (Halone eq_refl) in E.
  - destruct (Htimer _ _ E) as (last & -> & ->). destruct (now <? _) eqn:El; [|done]. apply Z.ltb_lt in El.
    exfalso. apply (Z.lt_irrefl now). eapply Z.lt_le_trans; [exact El | exact Hle].
Qed.

Lemma last_poll_end_snoc trace entry : last_poll_end (trace ++ [entry]) = note_poll_end (last_poll_end trace) entry.
Proof. unfold last_poll_end. by rewrite fold_left_app. Qed.

Lemma triggers_snoc trace entry :
  fold_left note_trigger (trace ++ [entry]) (false, []) = note_trigger (fold_left note_trigger trace (false, [])) entry.
Proof. by rewrite fold_left_app. Qed.

(** The end of a task, before its trailing run. *)
Definition after_task (now started : Z) (s : PollRunner) : PollRunner :=
  mkPollRunner (pr_disposed s) None None (Some now) (now - started) (pr_timeout s).

Lemma after_task_ok now started s : runner_ok s -> pr_inFlight s = Some started -> runner_ok (after_task now started s).
Proof.
  intros [Halone _ Hdis _] E. assert (running s = true) as Hr by (unfold running; by rewrite E). specialize (Halone Hr).
  split; cbn; rewrite ?Halone; done.
Qed.

Lemma step_runner_ok now e s s' effects : runner_ok s -> poll_step now e s = (s', effects) -> runner_ok s'.
Proof.
  intros Hok H. destruct e as [trigger| | |]; cbn in H.
  - by eapply run_keeps_ok.
  - destruct (pr_timeout s) as [[due trigger]|] eqn:E; [|unfold poll_timer_fired in H; rewrite E in H; by injection H as <- <-].
    destruct (due <=? now) eqn:Ed; [|unfold poll_timer_fired in H; rewrite E, Ed in H; by injection H as <- <-].
    apply Z.leb_le in Ed. rewrite (timer_starts _ _ _ _ Hok E Ed) in H. injection H as <- <-.
    destruct Hok as [Halone Hrerun Hdis Htimer]. split; cbn; try done. intros Hd. by destruct (Hdis Hd) as [_ ->].
  - unfold poll_settled in H. destruct (pr_inFlight s) as [started|] eqn:E; [|by injection H as <- <-].
    pose proof (after_task_ok now _ _ Hok E) as Hafter. unfold after_task in Hafter.
    destruct (pr_disposed s) eqn:Ed; [by injection H as <- <-|].
    destruct (pr_rerunTrigger s); [by eapply run_keeps_ok | by injection H as <- <-].
  - injection H as <- <-. split; cbn; done.
Qed.

(** A trailing run that starts nothing keeps every trigger the task in flight held. *)
Lemma trailing_keeps now rerun s s' : runner_ok s -> pr_inFlight s = None -> pr_disposed s = false -> pr_timeout s = None ->
  run now (Some rerun) s = (s', []) ->
  forall trigger, (changeSignal trigger = true -> changeSignal (Some rerun) = true) -> trigger_kept s' trigger.
Proof.
  intros Hok Hi Hd Ht H trigger Hs. destruct s as [disposed inflight trailing ended duration timer]; cbn in Hi, Hd, Ht; subst.
  unfold run in H; cbn in H. destruct ended as [ended|]; [|discriminate H]. destruct (now <? _) eqn:En; [|discriminate H].
  unfold schedule_run in H; cbn in H. injection H as <-. right. split; [done|]. do 3 eexists. split; [done|]. split; [done|].
  apply Z.add_le_mono_l. match goal with |- requiredIdleMsFor ?x ?t <= _ => exact (requiredIdle_strength x t _ Hs) end.
Qed.

Ltac noted := rewrite ?last_poll_end_snoc; unfold waiting_triggers; rewrite ?triggers_snoc.

Lemma step_poll_ok trace s now e s' effects : poll_ok trace s -> (e = pe_settled -> running s = true) ->
  poll_step now e s = (s', effects) -> poll_ok (trace ++ [(now, e, effects)]) s'.
Proof.
  intros [Hok Hend Hdis Hgone Hkept] He H. pose proof (step_runner_ok _ _ _ _ _ Hok H) as Hok'. unfold waiting_triggers in Hgone, Hkept.
  destruct (fold_left note_trigger trace (false, [])) as [gone waiting] eqn:Ew. cbn in Hdis, Hgone, Hkept. subst gone.
  destruct e as [trigger| | |]; cbn in H.
  - destruct (run_outcome _ _ _ _ _ H) as (Ed & El & _ & [->|(-> & _)]); split; noted; rewrite ?Ew; cbn; try congruence; try done.
    + intros E. rewrite Ed in E. by rewrite E.
    + intros other Hin. destruct (pr_disposed s) eqn:Edis; [by apply not_elem_of_nil in Hin|].
      destruct (run_keeps_triggers _ _ _ _ Hok Edis H) as [Hnew Hold].
      apply elem_of_app in Hin as [Hin|Hin]; [by apply Hold, Hkept|]. apply list_elem_of_singleton in Hin as ->. exact Hnew.
    + intros other Hin. by apply not_elem_of_nil in Hin.
  - destruct (pr_timeout s) as [[due trigger]|] eqn:E; [destruct (due <=? now) eqn:Edue|].
    + apply Z.leb_le in Edue. rewrite (timer_starts _ _ _ _ Hok E Edue) in H. injection H as <- <-.
      split; noted; rewrite ?Ew; cbn; try done. intros ? Hin. by apply not_elem_of_nil in Hin.
    + unfold poll_timer_fired in H. rewrite E, Edue in H. injection H as <- <-. split; noted; rewrite ?Ew; cbn; done.
    + unfold poll_timer_fired in H. rewrite E in H. injection H as <- <-. split; noted; rewrite ?Ew; cbn; done.
  - specialize (He eq_refl). unfold poll_settled in H. destruct (pr_inFlight s) as [started|] eqn:E; [|unfold running in He; by rewrite E in He].
    pose proof (after_task_ok now _ _ Hok E) as Hafter. unfold after_task in Hafter. pose proof (rk_alone _ Hok He) as Ht.
    destruct (pr_disposed s) eqn:Ed.
    { injection H as <- <-. split; noted; rewrite ?Ew; cbn; try done. intros ? Hin. rewrite Hgone in Hin by done. by apply not_elem_of_nil in Hin. }
    assert (forall trigger, trigger ∈ waiting -> exists rerun, pr_rerunTrigger s = Some rerun /\ (changeSignal trigger = true -> changeSignal (Some rerun) = true)) as Hheld.
    { intros trigger Hin. destruct (Hkept trigger Hin) as [[_ Hr]|[Hr _]]; [done | congruence]. }
    destruct (pr_rerunTrigger s) as [rerun|] eqn:Er.
    + destruct (run_outcome _ _ _ _ _ H) as (Ed' & El & _ & [->|(-> & _)]); split; noted; rewrite ?Ew; cbn; try done; try (intros ? Hin; by apply not_elem_of_nil in Hin).
      * intros Hx. rewrite Ed' in Hx. discriminate Hx.
      * intros trigger Hin. destruct (Hheld _ Hin) as (? & [= <-] & Hs). eapply trailing_keeps; [exact Hafter | done | done | exact Ht | exact H | exact Hs].
    + injection H as <- <-. split; noted; rewrite ?Ew; cbn; try done. intros trigger Hin. by destruct (Hheld _ Hin) as (? & ? & _).
  - injection H as <- <-. split; noted; rewrite ?Ew; cbn; try done. intros ? Hin. by apply not_elem_of_nil in Hin.
Qed.

Lemma polled_ok trace s : polled trace s -> poll_ok trace s.
Proof.
  induction 1 as [|trace s now e s' effects Hr IH He Hs]; [|by eapply step_poll_ok].
  split; try done. intros ? Hin. by apply not_elem_of_nil in Hin.
Qed.

Lemma requiredIdle_min s trigger : minIntervalMs <= requiredIdleMsFor s trigger.
Proof. unfold requiredIdleMsFor, slowTaskRequiredIdleMs. destruct (po_slowTaskBackoff options); lia. Qed.

(** Sustained triggers never run a polled task back to back: it starts alone, when none is in
    flight, and after the last task has rested for the gap of a trigger, which is at least the
    shortest interval. *)
Theorem polls_spaced trace s now e s' effects : polled trace s -> (e = pe_settled -> running s = true) ->
  poll_step now e s = (s', effects) -> effects <> [] ->
  effects = [x_task] /\ pr_inFlight s' = Some now /\ (running s = true -> e = pe_settled) /\
  forall ended, last_poll_end (trace ++ [(now, e, effects)]) = Some ended ->
    ended + minIntervalMs <= now /\ exists trigger, ended + requiredIdleMsFor s' trigger <= now.
Proof.
  intros Hr He H Hne. destruct (polled_ok _ _ Hr) as [Hok Hend _ _ _]. rewrite last_poll_end_snoc, <- Hend.
  assert (Hgap : forall ended trigger x, ended + requiredIdleMsFor x trigger <= now -> pr_lastRunDurationMs s' = pr_lastRunDurationMs x ->
    ended + minIntervalMs <= now /\ exists trigger, ended + requiredIdleMsFor s' trigger <= now).
  { intros ended trigger x Hle Ex. split; [pose proof (requiredIdle_min x trigger); lia|]. exists trigger. unfold requiredIdleMsFor. rewrite Ex. exact Hle. }
  destruct e as [trigger| | |]; cbn in H.
  - destruct (run_outcome _ _ _ _ _ H) as (_ & _ & Edur & [->|(-> & Hrun & Hin & Hle)]); [done|].
    split; [done|]. split; [done|]. split; [congruence|]. cbn. intros ended E. by eapply Hgap; [apply Hle|].
  - destruct (pr_timeout s) as [[due trigger]|] eqn:E; [destruct (due <=? now) eqn:Edue|]; unfold poll_timer_fired in H; rewrite E, ?Edue in H;
      [|by injection H as <- <-..].
    destruct (run_outcome _ _ _ _ _ H) as (_ & _ & Edur & [->|(-> & Hrun & Hin & Hle)]); [done|].
    split; [done|]. split; [done|]. split; [unfold running in *; cbn in Hrun; intros ?; congruence|]. cbn. intros ended E'. by eapply Hgap; [apply Hle|].
  - unfold poll_settled in H. destruct (pr_inFlight s); [|by injection H as <- <-].
    destruct (if pr_disposed s then None else pr_rerunTrigger s) as [rerun|]; [|by injection H as <- <-].
    destruct (run_outcome _ _ _ _ _ H) as (_ & _ & Edur & [->|(-> & Hrun & Hin & Hle)]); [done|].
    split; [done|]. split; [done|]. split; [done|]. cbn. intros ended [= <-]. by eapply Hgap; [apply Hle|].
  - by injection H as <- <-.
Qed.

(** C36. No trigger of a polled task is lost, downgraded or pushed back: until the task starts again
    or the runner is disposed of, every trigger is kept in the trailing run of the task in
    flight, which is a change signal if the trigger was one, or by a timer that starts the task
    when it is due, no later than the gap of that trigger after the last task. *)
Theorem triggers_served trace s trigger : polled trace s -> trigger ∈ waiting_triggers trace ->
  running s = true /\ (exists rerun, pr_rerunTrigger s = Some rerun /\ (changeSignal trigger = true -> changeSignal (Some rerun) = true)) \/
  running s = false /\ exists due ended, snd (poll_step due pe_timer s) = [x_task] /\ last_poll_end trace = Some ended /\
    due <= ended + longest_wait s trigger.
Proof.
  intros Hr Hin. destruct (polled_ok _ _ Hr) as [Hok Hend _ _ Hkept]. destruct (Hkept _ Hin) as [?|(Hf & due & by_trigger & ended & Et & El & Hle)]; [by left|].
  right. split; [done|]. exists due, ended. split; [|split; [congruence | exact Hle]].
  cbn. by rewrite (timer_starts _ _ _ _ Hok Et (Z.le_refl due)).
Qed.
End runner.

(** A shortest interval of three seconds, with a backoff. *)
Definition poller_options : PollOptions := mkPollOptions (Some 3000) (Some (mkBackoff 5 1 300000)).

Definition change_trigger : option CoalescedPollRunnerTrigger := Some (mkTrigger (Some true)).

(** A task of five seconds, with a change and a tick while it runs. *)
Definition example_polls : poll_history :=
  [(1000, pe_run None, [x_task]); (2000, pe_run change_trigger, []); (3000, pe_run None, []); (6000, pe_settled, [])].

Definition example_poller : PollRunner := mkPollRunner false None None (Some 6000) 5000 (Some (11000, change_trigger)).

Lemma example_polled : polled poller_options example_polls example_poller.
Proof.
  change example_polls with ((((([] ++ [(1000, pe_run None, [x_task])]) ++ [(2000, pe_run change_trigger, [])])
    ++ [(3000, pe_run None, [])]) ++ [(6000, pe_settled, [])]) : poll_history).
  eapply polled_step; [eapply polled_step; [eapply polled_step; [eapply polled_step; [exact (polled_new _)|..]|..]|..]|..];
    try (vm_compute; reflexivity); try discriminate.
Qed.

Lemma polls_spaced_witness :
  polled poller_options example_polls example_poller /\
  forall ended, last_poll_end (example_polls ++ [(11000, pe_timer, [x_task])]) = Some ended -> ended + 3000 <= 11000.
Proof.
  split; [exact example_polled|]. intros ended E.
  destruct (polls_spaced poller_options example_polls example_poller 11000 pe_timer
              (fst (poll_step poller_options 11000 pe_timer example_poller)) [x_task]) as (_ & _ & _ & H);
    [exact example_polled | discriminate | vm_compute; reflexivity | discriminate |].
  exact (proj1 (H ended E)).
Defined.

Lemma triggers_served_witness :
  polled poller_options example_polls example_poller /\ None ∈ waiting_triggers example_polls /\
  exists due ended, snd (poll_step poller_options due pe_timer example_poller) = [x_task] /\ last_poll_end example_polls = Some ended.
Proof.
  assert (None ∈ waiting_triggers example_polls) as Hin by (right; left).
  split; [exact example_polled|]. split; [exact Hin|].
  destruct (triggers_served poller_options example_polls example_poller None example_polled Hin) as [[Hf _]|(_ & due & ended & H1 & H2 & _)].
  - discriminate Hf.
  - exists due, ended. split; [exact H1 | exact H2].
Defined.
