(* ===== verification/GitRefresh.v ===== *)
(** When the git status of the active worktree is read again
    (packages/client/src/workspace-panel/git-status-refresh-scheduler.ts): the state of
    [createGitStatusRefreshScheduler], its operations and timers, and the pacing of its scans.

    A timer is the time it is due.  An event carries the time ([Date.now()]) at which the
    code runs; a timer event before the timer is due, or without one, is none.  The task is
    outside: its calls are effects, its end is an event.  Times and multipliers are integers. *)

From stdpp Require Import base list.
From Stdlib Require Import ZArith Lia ZifyBool.
From S2P Require Import Prelude.
From S2P Require Import PollRunner.

Open Scope Z_scope.

#[local] Set Warnings "-clear-no-such-hyp".

Inductive GitStatusRefreshReason := reason_activity | reason_safety.

Record RefreshOptions := mkRefreshOptions {
  ro_safetyIntervalMs : Z;
  ro_activityDebounceMs : Z;
  ro_activityMinGapMs : Z;
  ro_slowTaskBackoff : SlowTaskBackoffOptions
}.

(** A run: when it started, and whether it was aborted. *)
Record ActiveRun := mkRun { ar_startedAt : Z; ar_aborted : bool }.

(** [gs_active] is the run in flight; [gs_lastRunEndedAt] is [None] before the first end. *)
Record RefreshScheduler := mkScheduler {
  gs_disposed : bool;
  gs_safetyEnabled : bool;
  gs_active : option ActiveRun;
  gs_pendingActivity : bool;
  gs_activityTimer : option Z;
  gs_safetyTimer : option Z;
  gs_lastRunEndedAt : option Z;
  gs_lastRunDurationMs : Z
}.

Definition new_scheduler : RefreshScheduler := mkScheduler false false None false None None None 0.

Definition set_active (active : option ActiveRun) (s : RefreshScheduler) : RefreshScheduler :=
  mkScheduler (gs_disposed s) (gs_safetyEnabled s) active (gs_pendingActivity s) (gs_activityTimer s) (gs_safetyTimer s)
    (gs_lastRunEndedAt s) (gs_lastRunDurationMs s).
Definition set_pendingActivity (pending : bool) (s : RefreshScheduler) : RefreshScheduler :=
  mkScheduler (gs_disposed s) (gs_safetyEnabled s) (gs_active s) pending (gs_activityTimer s) (gs_safetyTimer s)
    (gs_lastRunEndedAt s) (gs_lastRunDurationMs s).
Definition set_safetyEnabled (enabled : bool) (s : RefreshScheduler) : RefreshScheduler :=
  mkScheduler (gs_disposed s) enabled (gs_active s) (gs_pendingActivity s) (gs_activityTimer s) (gs_safetyTimer s)
    (gs_lastRunEndedAt s) (gs_lastRunDurationMs s).
Definition set_activityTimer (due : option Z) (s : RefreshScheduler) : RefreshScheduler :=
  mkScheduler (gs_disposed s) (gs_safetyEnabled s) (gs_active s) (gs_pendingActivity s) due (gs_safetyTimer s)
    (gs_lastRunEndedAt s) (gs_lastRunDurationMs s).
Definition set_safetyTimer (due : option Z) (s : RefreshScheduler) : RefreshScheduler :=
  mkScheduler (gs_disposed s) (gs_safetyEnabled s) (gs_active s) (gs_pendingActivity s) (gs_activityTimer s) due
    (gs_lastRunEndedAt s) (gs_lastRunDurationMs s).

Definition clearActivityTimer : RefreshScheduler -> RefreshScheduler := set_activityTimer None.
Definition clearSafetyTimer : RefreshScheduler -> RefreshScheduler := set_safetyTimer None.

(** [activeController?.abort()] *)
Definition abort_active (s : RefreshScheduler) : RefreshScheduler :=
  set_active (option_map (fun run => mkRun (ar_startedAt run) true) (gs_active s)) s.

Definition is_some {A} (o : option A) : bool := match o with Some _ => true | None => false end.

Definition inFlight (s : RefreshScheduler) : bool := is_some (gs_active s).

Inductive RefreshEffect := x_refresh (reason : GitStatusRefreshReason).

Inductive RefreshEvent :=
  | re_resumeSafety | re_pause | re_suspendSafety | re_signal | re_refreshNow | re_dispose
  | re_activityTimer | re_safetyTimer | re_settled.

(** What happened: the time, the event and what it did. *)
Abbreviation history := (list (Z * RefreshEvent * list RefreshEffect)).

Section scheduler.
Context (options : RefreshOptions).

Definition requiredActivityIdleMs (s : RefreshScheduler) : Z :=
  slowTaskRequiredIdleMs (gs_lastRunDurationMs s) (bo_changeSignalMultiplier (ro_slowTaskBackoff options))
    (ro_activityMinGapMs options) (bo_maxIntervalMs (ro_slowTaskBackoff options)).

Definition safety_delay (s : RefreshScheduler) : Z :=
  Z.max (ro_safetyIntervalMs options)
    (slowTaskRequiredIdleMs (gs_lastRunDurationMs s) (bo_idleMultiplier (ro_slowTaskBackoff options)) 0
       (bo_maxIntervalMs (ro_slowTaskBackoff options))).

Definition scheduleSafetyRun (now : Z) (s : RefreshScheduler) : RefreshScheduler :=
  set_safetyTimer (Some (now + safety_delay s)) s.

Definition startRun (now : Z) (reason : GitStatusRefreshReason) (s : RefreshScheduler) : RefreshScheduler * list RefreshEffect :=
  if gs_disposed s || inFlight s then (s, [])
  else (set_active (Some (mkRun now false)) (clearSafetyTimer (clearActivityTimer s)), [x_refresh reason]).

Definition scheduleActivityRun (now minDelayMs : Z) (s : RefreshScheduler) : RefreshScheduler * list RefreshEffect :=
  if gs_disposed s then (s, [])
  else if inFlight s then (set_pendingActivity true s, [])
  else
    let delay := match gs_lastRunEndedAt s with
                 | Some ended => Z.max minDelayMs (ended + requiredActivityIdleMs s - now)
                 | None => minDelayMs
                 end in
    if delay <=? 0 then startRun now reason_activity s
    else
      let firesAt := now + delay in
      match gs_activityTimer s with
      | Some due => if due <=? firesAt then (s, []) else (set_activityTimer (Some firesAt) (clearActivityTimer s), [])
      | None => (set_activityTimer (Some firesAt) s, [])
      end.

(** The [finally] of a run. *)
Definition run_settled (now : Z) (s : RefreshScheduler) : RefreshScheduler * list RefreshEffect :=
  match gs_active s with
  | None => (s, [])
  | Some run =>
      let s := mkScheduler (gs_disposed s) (gs_safetyEnabled s) None (gs_pendingActivity s) (gs_activityTimer s) (gs_safetyTimer s)
                 (Some now) (if ar_aborted run then 0 else Z.max 0 (now - ar_startedAt run)) in
      if gs_disposed s then (s, [])
      else if gs_pendingActivity s then scheduleActivityRun now 0 (set_pendingActivity false s)
      else if gs_safetyEnabled s then (scheduleSafetyRun now s, [])
      else (s, [])
  end.

Definition activity_fired (now : Z) (s : RefreshScheduler) : RefreshScheduler * list RefreshEffect :=
  match gs_activityTimer s with
  | Some due => if due <=? now then startRun now reason_activity (clearActivityTimer s) else (s, [])
  | None => (s, [])
  end.

Definition safety_fired (now : Z) (s : RefreshScheduler) : RefreshScheduler * list RefreshEffect :=
  match gs_safetyTimer s with
  | Some due => if due <=? now then startRun now reason_safety (clearSafetyTimer s) else (s, [])
  | None => (s, [])
  end.

Definition resumeSafety (now : Z) (s : RefreshScheduler) : RefreshScheduler * list RefreshEffect :=
  if gs_disposed s then (s, [])
  else
    let wasEnabled := gs_safetyEnabled s in
    let s := set_safetyEnabled true s in
    if wasEnabled then (s, [])
    else
      let s := clearSafetyTimer s in
      match gs_active s with
      | Some run => (set_pendingActivity (gs_pendingActivity s || ar_aborted run) s, [])
      | None => scheduleActivityRun now 0 s
      end.

Definition pause (s : RefreshScheduler) : RefreshScheduler :=
  abort_active (clearSafetyTimer (clearActivityTimer (set_pendingActivity false (set_safetyEnabled false s)))).

Definition suspendSafety (s : RefreshScheduler) : RefreshScheduler := clearSafetyTimer (set_safetyEnabled false s).

Definition signal (now : Z) (s : RefreshScheduler) : RefreshScheduler * list RefreshEffect :=
  if gs_disposed s then (s, []) else scheduleActivityRun now (ro_activityDebounceMs options) (clearSafetyTimer s).

Definition refreshNow (now : Z) (s : RefreshScheduler) : RefreshScheduler * list RefreshEffect :=
  if gs_disposed s then (s, []) else scheduleActivityRun now 0 (clearSafetyTimer s).

Definition dispose (s : RefreshScheduler) : RefreshScheduler :=
  let s := pause s in
  mkScheduler true (gs_safetyEnabled s) (gs_active s) (gs_pendingActivity s) (gs_activityTimer s) (gs_safetyTimer s)
    (gs_lastRunEndedAt s) (gs_lastRunDurationMs s).

Definition refresh_step (now : Z) (e : RefreshEvent) (s : RefreshScheduler) : RefreshScheduler * list RefreshEffect :=
  match e with
  | re_resumeSafety => resumeSafety now s
  | re_pause => (pause s, [])
  | re_suspendSafety => (suspendSafety s, [])
  | re_signal => signal now s
  | re_refreshNow => refreshNow now s
  | re_dispose => (dispose s, [])
  | re_activityTimer => activity_fired now s
  | re_safetyTimer => safety_fired now s
  | re_settled => run_settled now s
  end.

(** The runs of the scheduler; only a run in flight ends. *)
Inductive reached : history -> RefreshScheduler -> Prop :=
  | reached_new : reached [] new_scheduler
  | reached_step trace s now e s' effects : reached trace s -> (e = re_settled -> inFlight s = true) ->
      refresh_step now e s = (s', effects) -> reached (trace ++ [(now, e, effects)]) s'.

(** When the last run ended. *)
Definition note_end (last : option Z) (entry : Z * RefreshEvent * list RefreshEffect) : option Z :=
  match entry with (now, re_settled, _) => Some now | _ => last end.

Definition last_end (trace : history) : option Z := fold_left note_end trace None.

(** The first signal that no run has followed and no pause has dropped. *)
Definition note_signal (unserved : bool * option Z) (entry : Z * RefreshEvent * list RefreshEffect) : bool * option Z :=
  let '(disposed, signal) := unserved in
  match entry with
  | (_, _, _ :: _) => (disposed, None)
  | (_, re_dispose, []) => (true, None)
  | (_, re_pause, []) => (disposed, None)
  | (now, re_signal, []) | (now, re_refreshNow, []) =>
      (disposed, if disposed then None else match signal with Some t => Some t | None => Some now end)
  | _ => (disposed, signal)
  end.

Definition unserved_signal (trace : history) : option Z := snd (fold_left note_signal trace (false, None)).

(** ** Invariant *)

Definition due_ok (timer : option Z) (ended : option Z) (gap : Z) : Prop :=
  match timer, ended with Some due, Some ended => ended + gap <= due | _, _ => True end.

Record refresh_ok (trace : history) (s : RefreshScheduler) : Prop := {
  ok_alone : inFlight s = true -> gs_activityTimer s = None /\ gs_safetyTimer s = None;
  ok_one_timer : gs_activityTimer s <> None -> gs_safetyTimer s = None;
  ok_pending : gs_pendingActivity s = true -> inFlight s = true;
  ok_disposed : gs_disposed s = true ->
    gs_activityTimer s = None /\ gs_safetyTimer s = None /\ gs_pendingActivity s = false /\ gs_safetyEnabled s = false;
  ok_awake : gs_safetyEnabled s = true -> inFlight s || is_some (gs_activityTimer s) || is_some (gs_safetyTimer s) = true;
  ok_activity_due : due_ok (gs_activityTimer s) (gs_lastRunEndedAt s) (requiredActivityIdleMs s);
  ok_safety_due : due_ok (gs_safetyTimer s) (gs_lastRunEndedAt s) (safety_delay s);
  ok_last_end : gs_lastRunEndedAt s = last_end trace;
  ok_signal_disposed : fst (fold_left note_signal trace (false, None)) = gs_disposed s;
  ok_signal : forall t, unserved_signal trace = Some t -> gs_disposed s = false /\
    (inFlight s && gs_pendingActivity s = true \/
     exists due, gs_activityTimer s = Some due /\
       due <= Z.max (t + ro_activityDebounceMs options)
                (match gs_lastRunEndedAt s with Some ended => ended + requiredActivityIdleMs s | None => t end))
}.

Lemma new_refresh_ok : refresh_ok [] new_scheduler.
Proof. by split. Qed.

Lemma last_end_snoc trace entry : last_end (trace ++ [entry]) = note_end (last_end trace) entry.
Proof. unfold last_end. by rewrite fold_left_app. Qed.

Lemma signal_snoc trace entry :
  fold_left note_signal (trace ++ [entry]) (false, None) = note_signal (fold_left note_signal trace (false, None)) entry.
Proof. by rewrite fold_left_app. Qed.

Ltac open_steps H :=
  unfold refresh_step, resumeSafety, pause, suspendSafety, signal, refreshNow, dispose, activity_fired, safety_fired, run_settled,
    scheduleActivityRun, scheduleSafetyRun, startRun, abort_active, clearActivityTimer, clearSafetyTimer, inFlight, is_some,
    requiredActivityIdleMs, safety_delay in H; cbn in H.

Ltac step_cases H :=
  repeat match type of H with
  | (_, _) = (_, _) => injection H as <- <-
  | context [match ?x with _ => _ end] => destruct x eqn:?; cbn in H
  end.

Ltac crush :=
  intros; repeat (simplify_eq; match goal with
  | H : _ /\ _ |- _ => destruct H
  | H : exists _, _ |- _ => destruct H
  | H : ?a = ?a -> _ |- _ => specialize (H eq_refl)
  | H : Some _ <> None -> _ |- _ => specialize (H ltac:(discriminate))
  | H : forall t, Some ?w = Some t -> @?P t |- _ => specialize (H w eq_refl); cbn [andb orb] in H
  | H : _ \/ _ |- _ => destruct H
  | H : context [match ?x with _ => _ end] |- _ => is_var x; destruct x; cbn [andb orb] in H
  | |- context [match last_end ?t with _ => _ end] => destruct (last_end t) eqn:?
  | H : context [match last_end ?t with _ => _ end] |- _ => destruct (last_end t) eqn:?
  | |- context [match ?x with _ => _ end] => is_var x; destruct x; cbn [andb orb]
  | H : context [(?x || _)] |- _ => is_var x; destruct x; cbn [andb orb] in H
  | H : context [(?x && _)] |- _ => is_var x; destruct x; cbn [andb orb] in H
  end); try done; try lia; repeat split; try done; try lia.

Lemma refresh_step_ok trace s now e s' effects : 0 <= ro_activityDebounceMs options -> refresh_ok trace s -> (e = re_settled -> inFlight s = true) ->
  refresh_step now e s = (s', effects) -> refresh_ok (trace ++ [(now, e, effects)]) s'.
Proof.
  intros Hdeb [H1 H2 H3 H4 H5 H6 H7 H8 H9 H10] He H. unfold unserved_signal in H10.
  destruct (fold_left note_signal trace (false, None)) as [gone waiting] eqn:Ew. cbn [fst snd] in H9, H10. subst gone.
  destruct s as [disposed enabled active pending atimer stimer ended duration].
  unfold due_ok, inFlight, is_some, requiredActivityIdleMs, safety_delay in *. cbn in H1, H2, H3, H4, H5, H6, H7, H8, H10, He.
  destruct e; open_steps H; step_cases H.
  all: constructor; rewrite ?last_end_snoc; unfold unserved_signal; rewrite ?signal_snoc, ?Ew; unfold due_ok, inFlight, is_some, requiredActivityIdleMs, safety_delay; cbn.
  all: try done.
  all: try solve [clear H10; crush].
  all: try solve [crush; try (left; done); try (right; eexists; split; [reflexivity|lia])].
Qed.

Lemma reached_ok trace s : 0 <= ro_activityDebounceMs options -> reached trace s -> refresh_ok trace s.
Proof. intros Hd. induction 1 as [|trace s now e s' effects Hr IH He Hs]; [exact new_refresh_ok | by eapply refresh_step_ok]. Qed.

(** The shortest time between the end of a run and the start of the next one. *)
Definition least_gap (reason : GitStatusRefreshReason) : Z :=
  match reason with reason_activity => ro_activityMinGapMs options | reason_safety => ro_safetyIntervalMs options end.

(** C33. Status scans never run back to back, however many signals arrive: a run starts alone, when
    no other is in flight, and not before the gap for its reason has passed since the last
    run ended. *)
Theorem refresh_gap trace s now e s' effects reason : 0 <= ro_activityDebounceMs options ->
  reached trace s -> (e = re_settled -> inFlight s = true) -> refresh_step now e s = (s', effects) ->
  x_refresh reason ∈ effects ->
  effects = [x_refresh reason] /\ gs_active s' = Some (mkRun now false) /\ (inFlight s = true -> e = re_settled) /\
  forall ended, last_end (trace ++ [(now, e, effects)]) = Some ended -> ended + least_gap reason <= now.
Proof.
  intros Hd Hr He Hs Hin. destruct (reached_ok _ _ Hd Hr) as [H1 H2 H3 H4 H5 H6 H7 H8 _ _].
  rewrite last_end_snoc, <- H8. unfold due_ok, requiredActivityIdleMs, safety_delay, slowTaskRequiredIdleMs in *. clear H3 H4 H5 H8 Hr.
  destruct s as [disposed enabled active pending atimer stimer ended duration]. cbn in H1, H2, H6, H7, He.
  destruct e; open_steps Hs; unfold slowTaskRequiredIdleMs in Hs; step_cases Hs; try by apply not_elem_of_nil in Hin.
  all: apply list_elem_of_singleton in Hin; injection Hin as ->; split; [done|]; split; [done|].
  all: split; [cbn; intros; first [done | congruence | by destruct active, disposed]|].
  all: cbn; intros ended' Hended; simplify_eq; unfold least_gap; lia.
Qed.

(** C29. No signal is lost and the scheduler never stalls: until a run starts, a pause or the end,
    the first signal that no run has followed has its run ahead, either after the run in
    flight or by a timer, which starts it and which later signals never push back beyond the
    debounce of that first signal and the gap since the last run; and while safety runs are
    on, a run is in flight or a timer is set. *)
Theorem signals_served trace s : 0 <= ro_activityDebounceMs options -> reached trace s ->
  (forall t, unserved_signal trace = Some t ->
     inFlight s && gs_pendingActivity s = true \/
     exists due, gs_activityTimer s = Some due /\ snd (refresh_step due re_activityTimer s) = [x_refresh reason_activity] /\
       due <= Z.max (t + ro_activityDebounceMs options)
                (match last_end trace with
                 | Some ended => ended + Z.max (ro_activityMinGapMs options) (bo_maxIntervalMs (ro_slowTaskBackoff options))
                 | None => t
                 end)) /\
  (gs_safetyEnabled s = true -> inFlight s || is_some (gs_activityTimer s) || is_some (gs_safetyTimer s) = true).
Proof.
  intros Hd Hr. destruct (reached_ok _ _ Hd Hr) as [H1 H2 H3 H4 H5 H6 H7 H8 H9 H10]. split; [|done].
  intros t Ht. destruct (H10 t Ht) as [Hdis [Hp|(due & Hdue & Hle)]]; [by left|]. right. exists due. split; [done|]. split.
  - cbn. unfold activity_fired. rewrite Hdue, Z.leb_refl. unfold startRun. cbn [gs_disposed clearActivityTimer set_activityTimer]. rewrite Hdis.
    assert (inFlight (clearActivityTimer s) = false) as ->; [|done].
    change (inFlight (clearActivityTimer s)) with (inFlight s). destruct (inFlight s); [|done]. destruct (H1 eq_refl). congruence.
  - rewrite <- H8. unfold requiredActivityIdleMs, slowTaskRequiredIdleMs in Hle. destruct (gs_lastRunEndedAt s); lia.
Qed.
End scheduler.

(** The options of use-git-status-polling.ts. *)
Definition polling_options : RefreshOptions := mkRefreshOptions 60000 125 3000 (mkBackoff 5 1 300000).

(** Two signals: a run of five seconds, and the one that follows. *)
Definition example_trace : history :=
  [(1000, re_signal, []); (1125, re_activityTimer, [x_refresh reason_activity]); (2000, re_signal, []); (6125, re_settled, [])].

Definition example_scheduler : RefreshScheduler := mkScheduler false false None false (Some 11125) None (Some 6125) 5000.

Lemma example_reached : reached polling_options example_trace example_scheduler.
Proof.
  change example_trace with ((((([] ++ [(1000, re_signal, [])]) ++ [(1125, re_activityTimer, [x_refresh reason_activity])])
    ++ [(2000, re_signal, [])]) ++ [(6125, re_settled, [])]) : history).
  eapply reached_step; [eapply reached_step; [eapply reached_step; [eapply reached_step; [exact (reached_new _)|..]|..]|..]|..];
    try (vm_compute; reflexivity); try discriminate.
Qed.

Lemma refresh_gap_witness :
  (0 <= ro_activityDebounceMs polling_options /\ reached polling_options example_trace example_scheduler) /\
  forall ended, last_end (example_trace ++ [(11125, re_activityTimer, [x_refresh reason_activity])]) = Some ended -> ended + 3000 <= 11125.
Proof.
  split; [split; [vm_compute; discriminate | exact example_reached]|].
  apply (refresh_gap polling_options example_trace example_scheduler 11125 re_activityTimer
           (fst (refresh_step polling_options 11125 re_activityTimer example_scheduler)) [x_refresh reason_activity] reason_activity);
    [vm_compute; discriminate | exact example_reached | discriminate | vm_compute; reflexivity | left].
Defined.

Lemma signals_served_witness :
  (0 <= ro_activityDebounceMs polling_options /\ reached polling_options example_trace example_scheduler) /\
  unserved_signal example_trace = Some 2000 /\
  exists due, gs_activityTimer example_scheduler = Some due /\ due <= 2000 + 304125.
Proof.
  split; [split; [vm_compute; discriminate | exact example_reached]|]. split; [vm_compute; reflexivity|].
  destruct (signals_served polling_options example_trace example_scheduler) as [H _];
    [vm_compute; discriminate | exact example_reached|].
  destruct (H 2000) as [Hf|(due & Hd & _ & Hle)]; [vm_compute; reflexivity | discriminate Hf|].
  exists due. split; [exact Hd|]. change (last_end example_trace) with (Some 6125) in Hle. cbn in Hle. lia.
Defined.
