(* ===== verification/TabModel.v ===== *)
(** The tabs and the split groups of a worktree (packages/client/src/tab-bar/state:
    model.ts, group-state.ts, split-drop-no-op.ts; the layout pruning of hydration.ts;
    protocol/typescript/src/workspace/tabs.ts).

    A layout is a binary tree of splits whose leaves are the ids of tab groups.  A field
    that may be undefined or null is an option in an option.  Times and sort orders are
    integers, ratios are JavaScript numbers. *)

From stdpp Require Import base list sets strings.
From Stdlib Require Import ZArith Lia ZifyBool SpecFloat.
From S2P Require Import Prelude JsText JsRecord Json.

Open Scope Z_scope.

#[local] Set Warnings "-clear-no-such-hyp".

Inductive TabGroupSplitDirection := horizontal | vertical.

Inductive TabGroupLayoutNode :=
  | leaf (groupId : jsstring)
  | split (direction : TabGroupSplitDirection) (first second : TabGroupLayoutNode) (ratio : option spec_float).

Inductive TabSplitDirection := to_left | to_right | to_up | to_down.

Inductive TabContentType :=
  | ct_terminal | ct_editor | ct_diff | ct_conflict_review | ct_check_details | ct_browser | ct_simulator | ct_page | ct_git_graph.

#[export] Instance TabGroupSplitDirection_eq_dec : EqDecision TabGroupSplitDirection.
Proof. solve_decision. Defined.

#[export] Instance TabSplitDirection_eq_dec : EqDecision TabSplitDirection.
Proof. solve_decision. Defined.

#[export] Instance TabContentType_eq_dec : EqDecision TabContentType.
Proof. solve_decision. Defined.

Record Tab := mkTab {
  tab_id : jsstring;
  tab_entityId : jsstring;
  tab_groupId : jsstring;
  tab_worktreeId : jsstring;
  tab_contentType : TabContentType;
  tab_label : jsstring;
  tab_generatedLabel : option (option jsstring);
  tab_quickCommandLabel : option (option jsstring);
  tab_customLabel : option jsstring;
  tab_color : option jsstring;
  tab_sortOrder : Z;
  tab_createdAt : Z;
  tab_isPreview : option bool;
  tab_isPinned : option bool
}.

Record TabGroup := mkGroup {
  tg_id : jsstring;
  tg_worktreeId : jsstring;
  tg_activeTabId : option jsstring;
  tg_tabOrder : list jsstring;
  tg_recentTabIds : option (list jsstring)
}.

Definition with_group (groupId : jsstring) (t : Tab) : Tab :=
  mkTab (tab_id t) (tab_entityId t) groupId (tab_worktreeId t) (tab_contentType t) (tab_label t) (tab_generatedLabel t)
    (tab_quickCommandLabel t) (tab_customLabel t) (tab_color t) (tab_sortOrder t) (tab_createdAt t) (tab_isPreview t) (tab_isPinned t).
Definition with_sortOrder (sortOrder : Z) (t : Tab) : Tab :=
  mkTab (tab_id t) (tab_entityId t) (tab_groupId t) (tab_worktreeId t) (tab_contentType t) (tab_label t) (tab_generatedLabel t)
    (tab_quickCommandLabel t) (tab_customLabel t) (tab_color t) sortOrder (tab_createdAt t) (tab_isPreview t) (tab_isPinned t).
Definition with_flags (isPreview isPinned : option bool) (t : Tab) : Tab :=
  mkTab (tab_id t) (tab_entityId t) (tab_groupId t) (tab_worktreeId t) (tab_contentType t) (tab_label t) (tab_generatedLabel t)
    (tab_quickCommandLabel t) (tab_customLabel t) (tab_color t) (tab_sortOrder t) (tab_createdAt t) isPreview isPinned.
Definition with_labels (label : jsstring) (customLabel color : option jsstring) (t : Tab) : Tab :=
  mkTab (tab_id t) (tab_entityId t) (tab_groupId t) (tab_worktreeId t) (tab_contentType t) label (tab_generatedLabel t)
    (tab_quickCommandLabel t) customLabel color (tab_sortOrder t) (tab_createdAt t) (tab_isPreview t) (tab_isPinned t).

(** Ids are compared with [===]. *)
Definition same (a b : jsstring) : bool := bool_decide (a = b).

Definition memb (id : jsstring) (ids : list jsstring) : bool := bool_decide (id ∈ ids).

Definition without (id : jsstring) (ids : list jsstring) : list jsstring := List.filter (fun other => negb (same other id)) ids.

(** A string or null in a test. *)
Definition truthy (s : option jsstring) : option jsstring := match s with Some [] | None => None | Some _ => s end.

(** [flag ?? false] of an optional flag in a test. *)
Definition holds (flag : option bool) : bool := default false flag.

(** ** Layouts *)

(** The direction and the place of the new group in [buildSplitNode]'s calls. *)
Definition split_axis (direction : TabSplitDirection) : TabGroupSplitDirection :=
  match direction with to_left | to_right => horizontal | to_up | to_down => vertical end.

Definition new_first (direction : TabSplitDirection) : bool := match direction with to_left | to_up => true | to_right | to_down => false end.

(** [0.5] *)
Definition HALF : spec_float := S754_finite false 4503599627370496 (-53).

Example half_is_half : HALF = decimal_to_float false 5 (-1).
Proof. vm_compute. reflexivity. Qed.

Definition buildSplitNode (existingGroupId newGroupId : jsstring) (direction : TabSplitDirection) : TabGroupLayoutNode :=
  let existingLeaf := leaf existingGroupId in
  let newLeaf := leaf newGroupId in
  split (split_axis direction) (if new_first direction then newLeaf else existingLeaf)
    (if new_first direction then existingLeaf else newLeaf) (Some HALF).

Fixpoint replaceLeaf (root : TabGroupLayoutNode) (targetGroupId : jsstring) (replacement : TabGroupLayoutNode) : TabGroupLayoutNode :=
  match root with
  | leaf groupId => if same groupId targetGroupId then replacement else root
  | split direction first second ratio =>
      split direction (replaceLeaf first targetGroupId replacement) (replaceLeaf second targetGroupId replacement) ratio
  end.

Fixpoint updateSplitRatio (root : TabGroupLayoutNode) (path : list jsstring) (ratio : spec_float) : TabGroupLayoutNode :=
  match path, root with
  | [], split direction first second _ => split direction first second (Some ratio)
  | segment :: rest, split direction first second old =>
      if same segment (js "first") then split direction (updateSplitRatio first rest ratio) second old
      else if same segment (js "second") then split direction first (updateSplitRatio second rest ratio) old
      else root
  | _, leaf _ => root
  end.

Fixpoint findFirstLeaf (root : TabGroupLayoutNode) : jsstring :=
  match root with leaf groupId => groupId | split _ first _ _ => findFirstLeaf first end.

Definition is_leaf_of (node : TabGroupLayoutNode) (groupId : jsstring) : bool :=
  match node with leaf id => same id groupId | split _ _ _ _ => false end.

Fixpoint findSiblingGroupId (root : TabGroupLayoutNode) (targetGroupId : jsstring) : option jsstring :=
  match root with
  | leaf _ => None
  | split _ first second _ =>
      if is_leaf_of first targetGroupId then Some (findFirstLeaf second)
      else if is_leaf_of second targetGroupId then Some (findFirstLeaf first)
      else match findSiblingGroupId first targetGroupId with
           | Some id => Some id
           | None => findSiblingGroupId second targetGroupId
           end
  end.

Fixpoint removeLeaf (root : TabGroupLayoutNode) (targetGroupId : jsstring) : option TabGroupLayoutNode :=
  match root with
  | leaf groupId => if same groupId targetGroupId then None else Some root
  | split direction first second ratio =>
      if is_leaf_of first targetGroupId then Some second
      else if is_leaf_of second targetGroupId then Some first
      else match removeLeaf first targetGroupId, removeLeaf second targetGroupId with
           | None, second' => second'
           | first', None => first'
           | Some first', Some second' => Some (split direction first' second' ratio)
           end
  end.

(** The layout and the active group after a group is gone, [None] for no entry. *)
Definition collapseGroupLayout (layout : option TabGroupLayoutNode) (active : option jsstring) (groupId : jsstring) (fallbackGroupId : option jsstring) :
    option TabGroupLayoutNode * option jsstring :=
  match layout with
  | None => (layout, active)
  | Some currentLayout =>
      (removeLeaf currentLayout groupId,
       match findSiblingGroupId currentLayout groupId with
       | Some siblingId => Some siblingId
       | None => match fallbackGroupId with Some id => Some id | None => active end
       end)
  end.

Fixpoint pruneTabGroupLayoutForGroups (root : TabGroupLayoutNode) (validGroupIds : list jsstring) : option TabGroupLayoutNode :=
  match root with
  | leaf groupId => if memb groupId validGroupIds then Some root else None
  | split direction first second ratio =>
      match pruneTabGroupLayoutForGroups first validGroupIds, pruneTabGroupLayoutForGroups second validGroupIds with
      | None, second' => second'
      | first', None => first'
      | Some first', Some second' => Some (split direction first' second' ratio)
      end
  end.

(** *** Drops that change nothing *)

Definition leaf_id (node : TabGroupLayoutNode) : option jsstring := match node with leaf id => Some id | split _ _ _ _ => None end.

Definition getDirectLayoutSiblingOnSplitSide (direction : TabGroupSplitDirection) (first second : TabGroupLayoutNode) (targetGroupId : jsstring)
    (splitDirection : TabSplitDirection) : option jsstring :=
  let after := if is_leaf_of first targetGroupId then
                 match direction, splitDirection with
                 | horizontal, to_right | vertical, to_down => leaf_id second
                 | _, _ => None
                 end
               else None in
  match after with
  | Some id => Some id
  | None => if is_leaf_of second targetGroupId then
              match direction, splitDirection with
              | horizontal, to_left | vertical, to_up => leaf_id first
              | _, _ => None
              end
            else None
  end.

Fixpoint findLayoutSiblingOnSplitSide (root : TabGroupLayoutNode) (targetGroupId : jsstring) (splitDirection : TabSplitDirection) : option jsstring :=
  match root with
  | leaf _ => None
  | split direction first second _ =>
      match truthy (getDirectLayoutSiblingOnSplitSide direction first second targetGroupId splitDirection) with
      | Some directSibling => Some directSibling
      | None =>
          match findLayoutSiblingOnSplitSide first targetGroupId splitDirection with
          | Some id => Some id
          | None => findLayoutSiblingOnSplitSide second targetGroupId splitDirection
          end
      end
  end.

Definition isPaneColumnSplitDropNoOp (sourceGroupId targetGroupId : jsstring) (splitDirection : TabSplitDirection) (sourceTabCount : nat)
    (layout : option TabGroupLayoutNode) : bool :=
  if same sourceGroupId targetGroupId && (sourceTabCount <=? 1)%nat then true
  else match layout with
       | Some layout => (sourceTabCount =? 1)%nat &&
           bool_decide (findLayoutSiblingOnSplitSide layout targetGroupId splitDirection = Some sourceGroupId)
       | None => false
       end.

(** ** Tabs and groups *)

Definition find_tab (tabId : jsstring) (tabs : list Tab) : option Tab := List.find (fun t => same (tab_id t) tabId) tabs.

Definition find_group (groupId : jsstring) (groups : list TabGroup) : option TabGroup := List.find (fun g => same (tg_id g) groupId) groups.

Fixpoint findTabAndWorktree (tabsByWorktree : jsrecord (list Tab)) (tabId : jsstring) : option (Tab * jsstring) :=
  match tabsByWorktree with
  | [] => None
  | (worktreeId, tabs) :: rest =>
      match find_tab tabId tabs with Some tab => Some (tab, worktreeId) | None => findTabAndWorktree rest tabId end
  end.

(** [record[key] ?? []] *)
Definition rec_list {A} (key : jsstring) (record : jsrecord (list A)) : list A := default [] (rec_get key record).

Definition findGroupForTab (groupsByWorktree : jsrecord (list TabGroup)) (worktreeId groupId : jsstring) : option TabGroup :=
  find_group groupId (rec_list worktreeId groupsByWorktree).

Fixpoint findGroupAndWorktree (groupsByWorktree : jsrecord (list TabGroup)) (groupId : jsstring) : option (TabGroup * jsstring) :=
  match groupsByWorktree with
  | [] => None
  | (worktreeId, groups) :: rest =>
      match find_group groupId groups with Some group => Some (group, worktreeId) | None => findGroupAndWorktree rest groupId end
  end.

Definition findTabByEntityInGroup (tabsByWorktree : jsrecord (list Tab)) (worktreeId groupId entityId : jsstring) (contentType : option TabContentType) :
    option Tab :=
  List.find (fun t => same (tab_groupId t) groupId && same (tab_entityId t) entityId &&
                      match contentType with Some ct => bool_decide (tab_contentType t = ct) | None => true end)
    (rec_list worktreeId tabsByWorktree).

(** The place of an id in a list, [indexOf]. *)
Fixpoint place (id : jsstring) (ids : list jsstring) : option nat :=
  match ids with
  | [] => None
  | other :: rest => if same other id then Some 0%nat else option_map S (place id rest)
  end.

Definition pickNeighbor (tabOrder : list jsstring) (closingTabId : jsstring) : option jsstring :=
  match place closingTabId tabOrder with
  | None => None
  | Some idx =>
      if (S idx <? List.length tabOrder)%nat then tabOrder !! S idx
      else match idx with O => None | S before => tabOrder !! before end
  end.

Fixpoint sanitize_from (recent : list jsstring) (seen tabOrder : list jsstring) : list jsstring :=
  match recent with
  | [] => []
  | id :: rest =>
      if negb (memb id tabOrder) || memb id seen then sanitize_from rest seen tabOrder
      else id :: sanitize_from rest (id :: seen) tabOrder
  end.

Definition sanitizeRecentTabIds (recent : option (list jsstring)) (tabOrder : list jsstring) : list jsstring :=
  match recent with
  | None | Some [] => []
  | Some recent => rev (sanitize_from (rev recent) [] tabOrder)
  end.

Definition pushRecentTabId (recent : option (list jsstring)) (tabId : jsstring) : list jsstring :=
  let base := default [] recent in
  if bool_decide (last base = Some tabId) then base else without tabId base ++ [tabId].

Definition pickNextActiveTab (tabOrder : list jsstring) (recentTabIds : option (list jsstring)) (closingTabId : jsstring) : option jsstring :=
  match List.find (fun id => negb (same id closingTabId)) (rev (sanitizeRecentTabIds recentTabIds tabOrder)) with
  | Some id => Some id
  | None => pickNeighbor tabOrder closingTabId
  end.

Definition updateGroup (groups : list TabGroup) (updated : TabGroup) : list TabGroup :=
  (fun g => if same (tg_id g) (tg_id updated) then updated else g) <$> groups.

Definition isTransientEditorContentType (contentType : TabContentType) : bool :=
  match contentType with ct_diff | ct_conflict_review | ct_check_details => true | _ => false end.

Fixpoint dedupe_from (tabIds seen : list jsstring) : list jsstring :=
  match tabIds with
  | [] => []
  | id :: rest => if memb id seen then dedupe_from rest seen else id :: dedupe_from rest (id :: seen)
  end.

Definition dedupeTabOrder (tabIds : list jsstring) : list jsstring := dedupe_from tabIds [].

Definition isReplaceablePreviewContentType (contentType : TabContentType) : bool :=
  match contentType with ct_editor | ct_diff | ct_conflict_review | ct_check_details => true | _ => false end.

Definition canReplacePreviewContentType (incomingContentType existingContentType : TabContentType) : bool :=
  if isReplaceablePreviewContentType incomingContentType then isReplaceablePreviewContentType existingContentType
  else bool_decide (existingContentType = incomingContentType).

(** [new Map(tabs.map((tab) => [tab.id, tab])).get(id)]: the last one wins. *)
Definition tabById (tabs : list Tab) (id : jsstring) : option Tab := find_tab id (rev tabs).

Definition pinned_in (tabs : list Tab) (id : jsstring) : bool :=
  match tabById tabs id with Some t => holds (tab_isPinned t) | None => false end.

Definition partitionPinnedTabOrder (tabOrder : list jsstring) (tabs : list Tab) (movingTabId : jsstring) : list jsstring :=
  let withoutMoving := without movingTabId (dedupeTabOrder tabOrder) in
  List.filter (pinned_in tabs) withoutMoving ++ [movingTabId] ++ List.filter (fun id => negb (pinned_in tabs id)) withoutMoving.

(** [new Map(tabOrder.map((id, index) => [id, index])).get(id)]: the last index. *)
Fixpoint order_index (id : jsstring) (tabOrder : list jsstring) (index : Z) : option Z :=
  match tabOrder with
  | [] => None
  | other :: rest =>
      match order_index id rest (index + 1) with
      | Some i => Some i
      | None => if same other id then Some index else None
      end
  end.

Definition applyTabOrderSortValues (tabs : list Tab) (tabOrder : list jsstring) : list Tab :=
  (fun t => match order_index (tab_id t) tabOrder 0 with Some sortOrder => with_sortOrder sortOrder t | None => t end) <$> tabs.

(** [ensureGroup] for the groups and the active group of one worktree; [newGroupId] is the
    minted id. *)
Definition ensureGroup (groups : option (list TabGroup)) (active : option jsstring) (worktreeId : jsstring) (preferredGroupId : option jsstring)
    (newGroupId : jsstring) : TabGroup * option (list TabGroup) * option jsstring :=
  let listed := default [] groups in
  let preferred := match preferredGroupId with Some id => find_group id listed | None => None end in
  match (match preferred with Some g => Some g | None => head listed end) with
  | Some existing => (existing, groups, active)
  | None => let group := mkGroup newGroupId worktreeId None [] None in (group, Some [group], Some newGroupId)
  end.
