(* ===== verification/TabStore.v ===== *)
(** The store of tabs and split groups (packages/client/src/tab-bar/state: active-surface.ts,
    create-actions.ts, activation-actions.ts, tab-lifecycle-actions.ts, pin-actions.ts,
    group-lifecycle-actions.ts, move-actions.ts, drop-actions.ts, group-layout-actions.ts,
    slice.ts) with the part of terminal/state/close-actions.ts and removal.ts that changes it.

    [TabMaps] are the four records of [TabsSlice] by worktree, [TabsState] adds the fields of
    other slices the actions read and write.  A record entry that is undefined is no entry.
    An action takes the ids it mints and gives the new state, its effects in order and its
    result. *)

From stdpp Require Import base list sets strings.
From Stdlib Require Import ZArith Lia ZifyBool SpecFloat.
From S2P Require Import Prelude JsText JsRecord Json.
From S2P Require Import KeySyntax.
From S2P Require Import TabModel.

Open Scope Z_scope.

#[local] Set Warnings "-clear-no-such-hyp".

Inductive WorkspaceVisibleTabType := vt_terminal | vt_editor | vt_browser | vt_simulator.

#[export] Instance WorkspaceVisibleTabType_eq_dec : EqDecision WorkspaceVisibleTabType.
Proof. solve_decision. Defined.

(** The fields of a [TerminalTab] the tabs depend on. *)
Record TerminalTab := mkTerminalTab {
  tt_id : jsstring;
  tt_ptyId : option jsstring;
  tt_title : jsstring;
  tt_generatedTitle : option jsstring;
  tt_quickCommandLabel : option jsstring;
  tt_customTitle : option jsstring;
  tt_color : option jsstring;
  tt_isPinned : option bool;
  tt_sortOrder : Z;
  tt_createdAt : Z
}.

Record OpenFile := mkOpenFile { of_id : jsstring; of_worktreeId : jsstring }.

Record TabMaps := mkMaps {
  unifiedTabsByWorktree : jsrecord (list Tab);
  groupsByWorktree : jsrecord (list TabGroup);
  activeGroupIdByWorktree : jsrecord jsstring;
  layoutByWorktree : jsrecord TabGroupLayoutNode
}.

(** What the shell shows, and what it showed last in each worktree. *)
Record Surface := mkSurface {
  activeBrowserTabId : option jsstring;
  activeFileId : option jsstring;
  activeTabId : option jsstring;
  activeTabType : WorkspaceVisibleTabType;
  activeBrowserTabIdByWorktree : jsrecord (option jsstring);
  activeFileIdByWorktree : jsrecord (option jsstring);
  activeTabIdByWorktree : jsrecord (option jsstring);
  activeTabTypeByWorktree : jsrecord WorkspaceVisibleTabType
}.

Record TabsState := mkTabs {
  ts_maps : TabMaps;
  ts_renamingTabId : option jsstring;
  ts_surface : Surface;
  ts_activeWorktreeId : option jsstring;
  ts_activeWorkspaceKey : option jsstring;
  ts_unreadTerminalTabs : jsrecord bool;
  ts_tabsByWorktree : jsrecord (list TerminalTab);
  ts_browserTabsByWorktree : jsrecord (list jsstring);
  ts_openFiles : list OpenFile;
  ts_ptyIdsByTabId : jsrecord (list jsstring);
  ts_recentQuickCommandIdByGroup : jsrecord jsstring
}.

Inductive FeatureInteraction := fi_terminal_tabs | fi_tab_splits | fi_terminal_panes.

Inductive TabEffect :=
  | x_recordFeatureInteraction (feature : FeatureInteraction)
  | x_setRemoteSessionTabProps (environmentId worktreeId tabId : jsstring) (isPinned : bool)
  | x_retireTerminal (terminalId : jsstring).

(** ** Setting fields *)

Definition with_maps (maps : TabMaps) (s : TabsState) : TabsState :=
  mkTabs maps (ts_renamingTabId s) (ts_surface s) (ts_activeWorktreeId s) (ts_activeWorkspaceKey s) (ts_unreadTerminalTabs s)
    (ts_tabsByWorktree s) (ts_browserTabsByWorktree s) (ts_openFiles s) (ts_ptyIdsByTabId s) (ts_recentQuickCommandIdByGroup s).
Definition with_renaming (tabId : option jsstring) (s : TabsState) : TabsState :=
  mkTabs (ts_maps s) tabId (ts_surface s) (ts_activeWorktreeId s) (ts_activeWorkspaceKey s) (ts_unreadTerminalTabs s)
    (ts_tabsByWorktree s) (ts_browserTabsByWorktree s) (ts_openFiles s) (ts_ptyIdsByTabId s) (ts_recentQuickCommandIdByGroup s).
Definition with_surface (surface : Surface) (s : TabsState) : TabsState :=
  mkTabs (ts_maps s) (ts_renamingTabId s) surface (ts_activeWorktreeId s) (ts_activeWorkspaceKey s) (ts_unreadTerminalTabs s)
    (ts_tabsByWorktree s) (ts_browserTabsByWorktree s) (ts_openFiles s) (ts_ptyIdsByTabId s) (ts_recentQuickCommandIdByGroup s).
Definition with_activeWorktree (worktreeId workspaceKey : option jsstring) (s : TabsState) : TabsState :=
  mkTabs (ts_maps s) (ts_renamingTabId s) (ts_surface s) worktreeId workspaceKey (ts_unreadTerminalTabs s)
    (ts_tabsByWorktree s) (ts_browserTabsByWorktree s) (ts_openFiles s) (ts_ptyIdsByTabId s) (ts_recentQuickCommandIdByGroup s).
Definition with_unread (unread : jsrecord bool) (s : TabsState) : TabsState :=
  mkTabs (ts_maps s) (ts_renamingTabId s) (ts_surface s) (ts_activeWorktreeId s) (ts_activeWorkspaceKey s) unread
    (ts_tabsByWorktree s) (ts_browserTabsByWorktree s) (ts_openFiles s) (ts_ptyIdsByTabId s) (ts_recentQuickCommandIdByGroup s).
Definition with_terminals (terminals : jsrecord (list TerminalTab)) (ptyIds : jsrecord (list jsstring)) (s : TabsState) : TabsState :=
  mkTabs (ts_maps s) (ts_renamingTabId s) (ts_surface s) (ts_activeWorktreeId s) (ts_activeWorkspaceKey s) (ts_unreadTerminalTabs s)
    terminals (ts_browserTabsByWorktree s) (ts_openFiles s) ptyIds (ts_recentQuickCommandIdByGroup s).
Definition with_recentQuickCommand (recent : jsrecord jsstring) (s : TabsState) : TabsState :=
  mkTabs (ts_maps s) (ts_renamingTabId s) (ts_surface s) (ts_activeWorktreeId s) (ts_activeWorkspaceKey s) (ts_unreadTerminalTabs s)
    (ts_tabsByWorktree s) (ts_browserTabsByWorktree s) (ts_openFiles s) (ts_ptyIdsByTabId s) recent.

(** [{ ...record, [key]: value }], and [delete] for no value. *)
Definition rec_put {V} (key : jsstring) (value : option V) (record : jsrecord V) : jsrecord V :=
  match value with Some v => rec_set key v record | None => rec_delete key record end.

(** The entries of one worktree in the four records. *)
Record Worktree := mkWorktree {
  wt_tabs : option (list Tab);
  wt_groups : option (list TabGroup);
  wt_active : option jsstring;
  wt_layout : option TabGroupLayoutNode
}.

Definition tabs_of (wt : Worktree) : list Tab := default [] (wt_tabs wt).
Definition groups_of (wt : Worktree) : list TabGroup := default [] (wt_groups wt).

Definition worktree (worktreeId : jsstring) (maps : TabMaps) : Worktree :=
  mkWorktree (rec_get worktreeId (unifiedTabsByWorktree maps)) (rec_get worktreeId (groupsByWorktree maps))
    (rec_get worktreeId (activeGroupIdByWorktree maps)) (rec_get worktreeId (layoutByWorktree maps)).

Definition put_worktree (worktreeId : jsstring) (wt : Worktree) (maps : TabMaps) : TabMaps :=
  mkMaps (rec_put worktreeId (wt_tabs wt) (unifiedTabsByWorktree maps)) (rec_put worktreeId (wt_groups wt) (groupsByWorktree maps))
    (rec_put worktreeId (wt_active wt) (activeGroupIdByWorktree maps)) (rec_put worktreeId (wt_layout wt) (layoutByWorktree maps)).

Definition store (worktreeId : jsstring) (wt : Worktree) (s : TabsState) : TabsState := with_maps (put_worktree worktreeId wt (ts_maps s)) s.

(** ** What the shell shows (active-surface.ts) *)

Definition toVisibleTabType (contentType : TabContentType) : WorkspaceVisibleTabType :=
  match contentType with ct_browser => vt_browser | ct_terminal => vt_terminal | ct_simulator => vt_simulator | _ => vt_editor end.

Definition shows_file (contentType : TabContentType) : bool :=
  match contentType with ct_editor | ct_diff | ct_conflict_review | ct_check_details => true | _ => false end.

Definition or_else {A} (a b : option A) : option A := match a with Some _ => a | None => b end.

(** The tab the group on show shows. *)
Definition shown_tab (wt : Worktree) (preferredGroupId : option jsstring) : option Tab :=
  let groups := groups_of wt in
  let activeGroupId := truthy (or_else preferredGroupId (wt_active wt)) in
  match or_else (match activeGroupId with Some id => find_group id groups | None => None end) (head groups) with
  | Some group =>
      match tg_activeTabId group with
      | Some active => List.find (fun t => same (tab_id t) active && same (tab_groupId t) (tg_id group)) (tabs_of wt)
      | None => None
      end
  | None => None
  end.

Definition kept_if (condition : bool) (id : option jsstring) : option jsstring := if condition then id else None.

Definition deriveActiveSurfaceForWorktree (s : TabsState) (worktreeId : jsstring) (preferredGroupId : option jsstring) :
    option jsstring * option jsstring * option jsstring * WorkspaceVisibleTabType :=
  let wt := worktree worktreeId (ts_maps s) in
  let activeUnifiedTab := shown_tab wt preferredGroupId in
  let restoredFileId := truthy (default None (rec_get worktreeId (activeFileIdByWorktree (ts_surface s)))) in
  let restoredBrowserTabId := truthy (default None (rec_get worktreeId (activeBrowserTabIdByWorktree (ts_surface s)))) in
  let restoredTerminalTabId := truthy (default None (rec_get worktreeId (activeTabIdByWorktree (ts_surface s)))) in
  let browserTabs := rec_list worktreeId (ts_browserTabsByWorktree s) in
  let terminalTabs := rec_list worktreeId (ts_tabsByWorktree s) in
  let fileStillOpen := match restoredFileId with
                       | Some id => existsb (fun f => same (of_id f) id && same (of_worktreeId f) worktreeId) (ts_openFiles s)
                       | None => false
                       end in
  let browserTabStillOpen := match restoredBrowserTabId with Some id => memb id browserTabs | None => false end in
  let terminalTabStillExists := match restoredTerminalTabId with
                                | Some id => existsb (fun t => same (tt_id t) id) terminalTabs
                                | None => false
                                end in
  let hasGroupOwnedSurface := match groups_of wt, wt_layout wt with [], None => false | _, _ => true end in
  let restoredFile := kept_if fileStillOpen restoredFileId in
  let restoredBrowser := if browserTabStillOpen then restoredBrowserTabId else head browserTabs in
  let '(activeFileId, activeBrowserTabId, activeTabType) :=
    match activeUnifiedTab with
    | Some t =>
        (if shows_file (tab_contentType t) then Some (tab_entityId t) else restoredFile,
         if bool_decide (tab_contentType t = ct_browser) then Some (tab_entityId t) else restoredBrowser,
         toVisibleTabType (tab_contentType t))
    | None =>
        if hasGroupOwnedSurface then (restoredFile, restoredBrowser, vt_terminal)
        else if browserTabStillOpen then (restoredFile, restoredBrowserTabId, vt_browser)
        else if fileStillOpen then (restoredFileId, head browserTabs, vt_editor)
        else
          let fallbackFile := List.find (fun f => same (of_worktreeId f) worktreeId) (ts_openFiles s) in
          (option_map of_id fallbackFile, head browserTabs,
           match fallbackFile, head browserTabs with Some _, _ => vt_editor | None, Some _ => vt_browser | None, None => vt_terminal end)
    end in
  let shownTerminal := match activeUnifiedTab with
                       | Some t => if bool_decide (tab_contentType t = ct_terminal) then Some (tab_entityId t) else None
                       | None => None
                       end in
  let activeTabId := match shownTerminal with
                     | Some id => Some id
                     | None => if terminalTabStillExists then restoredTerminalTabId else option_map tt_id (head terminalTabs)
                     end in
  (activeBrowserTabId, activeFileId, activeTabId, activeTabType).

Definition buildActiveSurfacePatch (s : TabsState) (worktreeId : jsstring) (preferredGroupId : option jsstring) : Surface :=
  let '(browser, file, tab, type) := deriveActiveSurfaceForWorktree s worktreeId preferredGroupId in
  let old := ts_surface s in
  mkSurface browser file tab type (rec_set worktreeId browser (activeBrowserTabIdByWorktree old)) (rec_set worktreeId file (activeFileIdByWorktree old))
    (rec_set worktreeId tab (activeTabIdByWorktree old)) (rec_set worktreeId type (activeTabTypeByWorktree old)).

(** The patch of an action whose worktree is on show. *)
Definition patch_surface (worktreeId : jsstring) (preferredGroupId : option jsstring) (s : TabsState) : TabsState :=
  if bool_decide (ts_activeWorktreeId s = Some worktreeId) then with_surface (buildActiveSurfacePatch s worktreeId preferredGroupId) s else s.

Definition clear_unread (terminalId : jsstring) (s : TabsState) : TabsState :=
  if holds (rec_get terminalId (ts_unreadTerminalTabs s)) then with_unread (rec_delete terminalId (ts_unreadTerminalTabs s)) s else s.

Definition recorded (recordInteraction : option bool) (features : list FeatureInteraction) : list TabEffect :=
  match recordInteraction with Some false => [] | _ => x_recordFeatureInteraction <$> features end.
