(* ===== verification/TabActions.v ===== *)
(** The actions of the tab store (packages/client/src/tab-bar/state: create-actions.ts,
    activation-actions.ts, tab-lifecycle-actions.ts, pin-actions.ts,
    group-lifecycle-actions.ts, move-actions.ts, drop-actions.ts, group-layout-actions.ts;
    the tabs' part of terminal/state/close-actions.ts and removal.ts). *)

From stdpp Require Import base list sets strings.
From Stdlib Require Import ZArith Lia ZifyBool SpecFloat.
From S2P Require Import Prelude JsText JsRecord Json.
From S2P Require Import KeySyntax.
From S2P Require Import TabModel.
From S2P Require Import TabStore.

Open Scope Z_scope.

#[local] Set Warnings "-clear-no-such-hyp".

(** The arguments of [createUnifiedTab]. *)
Record TabInit := mkInit {
  ti_id : option jsstring;
  ti_entityId : option jsstring;
  ti_label : option jsstring;
  ti_generatedLabel : option (option jsstring);
  ti_quickCommandLabel : option (option jsstring);
  ti_customLabel : option jsstring;
  ti_color : option jsstring;
  ti_isPreview : option bool;
  ti_isPinned : option bool;
  ti_targetGroupId : option jsstring;
  ti_activate : option bool;
  ti_recordInteraction : option bool
}.

Definition no_init : TabInit := mkInit None None None None None None None None None None None None.

(** The tab [createUnifiedTab] makes. *)
Definition new_tab (id groupId worktreeId : jsstring) (contentType : TabContentType) (existingTabs : nat) (sortOrder createdAt : Z) (init : TabInit) : Tab :=
  mkTab id (default id (ti_entityId init)) groupId worktreeId contentType
    (match ti_label init with
     | Some label => label
     | None => if bool_decide (contentType = ct_terminal) then js "Terminal " ++ decimal (Z.of_nat existingTabs + 1) else id
     end)
    (ti_generatedLabel init) (ti_quickCommandLabel init) (ti_customLabel init) (ti_color init) sortOrder createdAt (ti_isPreview init) (ti_isPinned init).

(** ** Creating *)

Definition replaced_preview (groupId : jsstring) (contentType : TabContentType) (init : TabInit) (existingTabs : list Tab) : option Tab :=
  if holds (ti_isPreview init) then
    List.find (fun t => same (tab_groupId t) groupId && holds (tab_isPreview t) && canReplacePreviewContentType contentType (tab_contentType t)) existingTabs
  else None.

(** The worktree with the tab, and the tab. *)
Definition create_in (wt : Worktree) (worktreeId id newGroupId : jsstring) (contentType : TabContentType) (now : Z) (init : TabInit) : Worktree * Tab :=
  let '(group, groups, active) := ensureGroup (wt_groups wt) (wt_active wt) worktreeId (or_else (ti_targetGroupId init) (wt_active wt)) newGroupId in
  let existingTabs := tabs_of wt in
  let existingPreview := replaced_preview (tg_id group) contentType init existingTabs in
  let nextTabs := match existingPreview with
                  | Some preview => List.filter (fun t => negb (same (tab_id t) (tab_id preview))) existingTabs
                  | None => existingTabs
                  end in
  let keptOrder := match existingPreview with
                   | Some preview => without (tab_id preview) (dedupeTabOrder (tg_tabOrder group))
                   | None => dedupeTabOrder (tg_tabOrder group)
                   end in
  let created := new_tab id (tg_id group) worktreeId contentType (List.length existingTabs) (Z.of_nat (List.length keptOrder)) now init in
  let nextOrder := dedupeTabOrder (keptOrder ++ [id]) in
  let shouldActivate := default true (ti_activate init) in
  let nextActiveTabId := if shouldActivate then Some id else or_else (tg_activeTabId group) (Some id) in
  let sanitizedRecent := sanitizeRecentTabIds (tg_recentTabIds group) nextOrder in
  let nextRecent := if shouldActivate then pushRecentTabId (Some sanitizedRecent) id else sanitizedRecent in
  (mkWorktree (Some (nextTabs ++ [created]))
     (Some (updateGroup (default [] groups) (mkGroup (tg_id group) (tg_worktreeId group) nextActiveTabId nextOrder (Some nextRecent))))
     active (or_else (wt_layout wt) (Some (leaf (tg_id group)))), created).

Definition createUnifiedTab (worktreeId : jsstring) (contentType : TabContentType) (init : TabInit) (now : Z) (newId newGroupId : jsstring) (s : TabsState) :
    TabsState * list TabEffect * Tab :=
  let '(wt, created) := create_in (worktree worktreeId (ts_maps s)) worktreeId (default newId (ti_id init)) newGroupId contentType now init in
  (store worktreeId wt s, recorded (ti_recordInteraction init) [fi_terminal_tabs], created).

(** The layout with [newGroupId] beside a group. *)
Definition split_beside (layout : option TabGroupLayoutNode) (besideGroupId newGroupId : jsstring) (direction : TabSplitDirection) : TabGroupLayoutNode :=
  replaceLeaf (default (leaf besideGroupId) layout) besideGroupId (buildSplitNode besideGroupId newGroupId direction).

Definition createUnifiedTabInSplit (worktreeId : jsstring) (contentType : TabContentType) (sourceGroupId : jsstring) (direction : TabSplitDirection)
    (init : TabInit) (now : Z) (newId newGroupId : jsstring) (s : TabsState) : TabsState * list TabEffect * option Tab :=
  let id := default newId (ti_id init) in
  let wt := worktree worktreeId (ts_maps s) in
  match findGroupForTab (groupsByWorktree (ts_maps s)) worktreeId sourceGroupId with
  | None => (s, [], None)
  | Some _ =>
      let shouldActivate := default true (ti_activate init) in
      let created := new_tab id newGroupId worktreeId contentType (List.length (tabs_of wt)) 0 now init in
      let newGroup := mkGroup newGroupId worktreeId (Some id) [id] (Some (if shouldActivate then [id] else [])) in
      let s := store worktreeId (mkWorktree (Some (tabs_of wt ++ [created])) (Some (groups_of wt ++ [newGroup]))
                                   (if shouldActivate then Some newGroupId else wt_active wt)
                                   (Some (split_beside (wt_layout wt) sourceGroupId newGroupId direction))) s in
      (if shouldActivate then patch_surface worktreeId (Some newGroupId) s else s,
       recorded (ti_recordInteraction init) [fi_terminal_tabs; fi_tab_splits], Some created)
  end.

(** ** Reading and activating *)

Definition getTab (tabId : jsstring) (s : TabsState) : option Tab := option_map fst (findTabAndWorktree (unifiedTabsByWorktree (ts_maps s)) tabId).

Definition getActiveTab (worktreeId : jsstring) (s : TabsState) : option Tab :=
  let wt := worktree worktreeId (ts_maps s) in
  match (match wt_active wt with Some groupId => find_group groupId (groups_of wt) | None => None end) with
  | Some group => match truthy (tg_activeTabId group) with Some active => find_tab active (tabs_of wt) | None => None end
  | None => None
  end.

Definition terminal_of (t : Tab) : option jsstring := if bool_decide (tab_contentType t = ct_terminal) then Some (tab_entityId t) else None.

Definition activate_in (t : Tab) (preservePreview : bool) (wt : Worktree) : Worktree :=
  mkWorktree
    (if preservePreview then wt_tabs wt
     else Some ((fun item => if same (tab_id item) (tab_id t) then with_flags (Some false) (tab_isPinned item) item else item) <$> tabs_of wt))
    (Some ((fun group => if same (tg_id group) (tab_groupId t)
                         then mkGroup (tg_id group) (tg_worktreeId group) (Some (tab_id t)) (tg_tabOrder group)
                                (Some (pushRecentTabId (Some (sanitizeRecentTabIds (tg_recentTabIds group) (tg_tabOrder group))) (tab_id t)))
                         else group) <$> groups_of wt))
    (Some (tab_groupId t)) (wt_layout wt).

Definition activateTab (tabId : jsstring) (preservePreview : bool) (s : TabsState) : TabsState :=
  match findTabAndWorktree (unifiedTabsByWorktree (ts_maps s)) tabId with
  | None => s
  | Some (t, worktreeId) =>
      let s := match truthy (terminal_of t) with
               | Some terminalId => if bool_decide (ts_activeWorktreeId s = Some worktreeId) then clear_unread terminalId s else s
               | None => s
               end in
      store worktreeId (activate_in t preservePreview (worktree worktreeId (ts_maps s))) s
  end.

(** ** Closing *)

(** A group without one of its tabs. *)
Definition leave_group (source : TabGroup) (tabId : jsstring) (sourceOrder : list jsstring) (group : TabGroup) : TabGroup :=
  mkGroup (tg_id group) (tg_worktreeId group)
    (if bool_decide (tg_activeTabId group = Some tabId)
     then pickNextActiveTab (dedupeTabOrder (tg_tabOrder source)) (tg_recentTabIds source) tabId
     else tg_activeTabId group)
    sourceOrder
    (Some (sanitizeRecentTabIds (Some (without tabId (default [] (tg_recentTabIds source)))) sourceOrder)).

Definition order_without (tabId : jsstring) (group : TabGroup) : list jsstring :=
  dedupeTabOrder (without tabId (dedupeTabOrder (tg_tabOrder group))).

Definition close_in (t : Tab) (group : TabGroup) (wt : Worktree) : Worktree :=
  let tabId := tab_id t in
  let remainingOrder := order_without tabId group in
  let wasLastTab := match remainingOrder with [] => true | _ => false end in
  let nextActiveTabId := if bool_decide (tg_activeTabId group = Some tabId)
                         then if wasLastTab then None else pickNextActiveTab (dedupeTabOrder (tg_tabOrder group)) (tg_recentTabIds group) tabId
                         else tg_activeTabId group in
  let nextRecentTabIds := sanitizeRecentTabIds (Some (without tabId (default [] (tg_recentTabIds group)))) remainingOrder in
  let nextTabs := List.filter (fun item => negb (same (tab_id item) tabId)) (tabs_of wt) in
  let nextGroups := (fun candidate => if same (tg_id candidate) (tg_id group)
                                      then mkGroup (tg_id candidate) (tg_worktreeId candidate) nextActiveTabId remainingOrder (Some nextRecentTabIds)
                                      else candidate) <$> groups_of wt in
  let several := (1 <? List.length nextGroups)%nat in
  match wt_layout wt with
  | Some _ =>
      if wasLastTab && several then
        let others := List.filter (fun candidate => negb (same (tg_id candidate) (tg_id group))) nextGroups in
        let '(layout, active) := collapseGroupLayout (wt_layout wt) (wt_active wt) (tg_id group) (option_map tg_id (head others)) in
        mkWorktree (Some nextTabs) (Some others) active layout
      else mkWorktree (Some nextTabs) (Some nextGroups) (wt_active wt) (wt_layout wt)
  | None => mkWorktree (Some nextTabs) (Some nextGroups) (wt_active wt) (wt_layout wt)
  end.

(** Nothing is left to show in the worktree on show. *)
Definition should_deactivate (worktreeId : jsstring) (s : TabsState) : bool :=
  bool_decide (ts_activeWorktreeId s = Some worktreeId) &&
  match tabs_of (worktree worktreeId (ts_maps s)), rec_list worktreeId (ts_tabsByWorktree s), rec_list worktreeId (ts_browserTabsByWorktree s) with
  | [], [], [] => negb (existsb (fun f => same (of_worktreeId f) worktreeId) (ts_openFiles s))
  | _, _, _ => false
  end.

Definition deactivate (worktreeId : jsstring) (s : TabsState) : TabsState :=
  let old := ts_surface s in
  with_activeWorktree None None
    (with_surface (mkSurface None None None vt_terminal (rec_set worktreeId None (activeBrowserTabIdByWorktree old))
                     (rec_set worktreeId None (activeFileIdByWorktree old)) (rec_set worktreeId None (activeTabIdByWorktree old))
                     (rec_set worktreeId vt_terminal (activeTabTypeByWorktree old))) s).

Record CloseResult := mkClose { cr_closedTabId : jsstring; cr_wasLastTab : bool; cr_worktreeId : jsstring }.

Definition close_result (t : Tab) (group : TabGroup) (worktreeId : jsstring) : CloseResult :=
  mkClose (tab_id t) (match order_without (tab_id t) group with [] => true | _ => false end) worktreeId.

(** [closeUnifiedTab] of a tab whose terminal, if it has one, is retired. *)
Definition closeRetiredTab (tabId : jsstring) (recordInteraction : option bool) (s : TabsState) : TabsState * list TabEffect * option CloseResult :=
  match findTabAndWorktree (unifiedTabsByWorktree (ts_maps s)) tabId with
  | None => (s, [], None)
  | Some (t, worktreeId) =>
      match findGroupForTab (groupsByWorktree (ts_maps s)) worktreeId (tab_groupId t) with
      | None => (s, [], None)
      | Some group =>
          let s := match truthy (terminal_of t) with Some terminalId => clear_unread terminalId s | None => s end in
          let s := store worktreeId (close_in t group (worktree worktreeId (ts_maps s))) s in
          let s := if should_deactivate worktreeId s then deactivate worktreeId s
                   else patch_surface worktreeId (wt_active (worktree worktreeId (ts_maps s))) s in
          (s, recorded recordInteraction [fi_terminal_tabs], Some (close_result t group worktreeId))
      end
  end.

(** [removeTabFromTerminalState], for the fields of [TabsState]. *)
Definition removeTabFromTerminalState (terminalId : jsstring) (s : TabsState) : TabsState :=
  let kept (tabs : list TerminalTab) := List.filter (fun t => negb (same (tt_id t) terminalId)) tabs in
  let old := ts_surface s in
  let remembered := fold_left (fun record entry =>
      let remaining := kept (snd entry) in
      if (List.length remaining =? List.length (snd entry))%nat then record
      else if bool_decide (rec_get (fst entry) record = Some (Some terminalId)) then rec_set (fst entry) (option_map tt_id (head remaining)) record
      else record) (ts_tabsByWorktree s) (activeTabIdByWorktree old) in
  let surface := mkSurface (activeBrowserTabId old) (activeFileId old)
                   (if bool_decide (activeTabId old = Some terminalId) then None else activeTabId old) (activeTabType old)
                   (activeBrowserTabIdByWorktree old) (activeFileIdByWorktree old) remembered (activeTabTypeByWorktree old) in
  with_unread (rec_delete terminalId (ts_unreadTerminalTabs s))
    (with_surface surface
       (with_terminals ((fun entry => (fst entry, kept (snd entry))) <$> ts_tabsByWorktree s) (rec_delete terminalId (ts_ptyIdsByTabId s)) s)).

Definition is_terminal_item (terminalId : jsstring) (t : Tab) : bool :=
  bool_decide (tab_contentType t = ct_terminal) && same (tab_entityId t) terminalId.

(** What [closeTab] of the terminals does to the tabs: the terminal is retired, and in each
    worktree the first tab that shows it is closed. *)
Definition closeTab (terminalId : jsstring) (recordInteraction : option bool) (s : TabsState) : TabsState * list TabEffect :=
  let s0 := removeTabFromTerminalState terminalId s in
  fold_left (fun state entry =>
      let '(s, effects) := state in
      match List.find (is_terminal_item terminalId) (snd entry) with
      | Some item => let '(s, more, _) := closeRetiredTab (tab_id item) recordInteraction s in (s, effects ++ more)
      | None => (s, effects)
      end) (unifiedTabsByWorktree (ts_maps s0)) (s0, [x_retireTerminal terminalId]).

Definition closeUnifiedTab (tabId : jsstring) (recordInteraction : option bool) (terminalRetirementHandled : bool) (s : TabsState) :
    TabsState * list TabEffect * option CloseResult :=
  match findTabAndWorktree (unifiedTabsByWorktree (ts_maps s)) tabId with
  | None => (s, [], None)
  | Some (t, worktreeId) =>
      match findGroupForTab (groupsByWorktree (ts_maps s)) worktreeId (tab_groupId t) with
      | None => (s, [], None)
      | Some group =>
          if bool_decide (tab_contentType t = ct_terminal) && negb terminalRetirementHandled then
            let '(s, effects) := closeTab (tab_entityId t) recordInteraction s in
            (s, effects, Some (close_result t group worktreeId))
          else closeRetiredTab tabId recordInteraction s
      end
  end.

Definition close_all (ids : list jsstring) (s : TabsState) : TabsState * list TabEffect :=
  fold_left (fun state id => let '(s, effects) := state in
                             let '(s, more, _) := closeUnifiedTab id None false s in (s, effects ++ more)) ids (s, []).

Definition closeOtherTabs (tabId : jsstring) (s : TabsState) : TabsState * list TabEffect * list jsstring :=
  match findTabAndWorktree (unifiedTabsByWorktree (ts_maps s)) tabId with
  | None => (s, [], [])
  | Some (t, worktreeId) =>
      match findGroupForTab (groupsByWorktree (ts_maps s)) worktreeId (tab_groupId t) with
      | None => (s, [], [])
      | Some group =>
          let closedIds := tab_id <$> List.filter (fun item => same (tab_groupId item) (tg_id group) && negb (same (tab_id item) tabId) &&
                                                               negb (holds (tab_isPinned item)))
                                        (rec_list worktreeId (unifiedTabsByWorktree (ts_maps s))) in
          let '(s, effects) := close_all closedIds s in (s, effects, closedIds)
      end
  end.

Definition closeTabsToRight (tabId : jsstring) (s : TabsState) : TabsState * list TabEffect * list jsstring :=
  match findTabAndWorktree (unifiedTabsByWorktree (ts_maps s)) tabId with
  | None => (s, [], [])
  | Some (t, worktreeId) =>
      match findGroupForTab (groupsByWorktree (ts_maps s)) worktreeId (tab_groupId t) with
      | None => (s, [], [])
      | Some group =>
          match place tabId (tg_tabOrder group) with
          | None => (s, [], [])
          | Some index =>
              let closableIds := List.filter (fun id => match find_tab id (rec_list worktreeId (unifiedTabsByWorktree (ts_maps s))) with
                                                        | Some item => negb (holds (tab_isPinned item))
                                                        | None => true
                                                        end) (drop (S index) (tg_tabOrder group)) in
              let '(s, effects) := close_all closableIds s in (s, effects, closableIds)
          end
      end
  end.

(** ** Reordering, naming and pinning *)

Definition renumber (tabOrder : list jsstring) (tabs : list Tab) : list Tab := applyTabOrderSortValues tabs tabOrder.

Definition reorder_in (group : TabGroup) (tabIds : list jsstring) (wt : Worktree) : Worktree :=
  let nextTabOrder := dedupeTabOrder tabIds in
  mkWorktree (Some (renumber nextTabOrder (tabs_of wt)))
    (Some (updateGroup (groups_of wt) (mkGroup (tg_id group) (tg_worktreeId group) (tg_activeTabId group) nextTabOrder (tg_recentTabIds group))))
    (wt_active wt) (wt_layout wt).

Definition reorderUnifiedTabs (groupId : jsstring) (tabIds : list jsstring) (recordInteraction : option bool) (s : TabsState) : TabsState * list TabEffect :=
  match findGroupAndWorktree (groupsByWorktree (ts_maps s)) groupId with
  | None => (s, [])
  | Some (group, worktreeId) =>
      (store worktreeId (reorder_in group tabIds (worktree worktreeId (ts_maps s))) s, recorded recordInteraction [fi_terminal_tabs])
  end.

(** The patches the actions give [patchTab]. *)
Inductive TabPatch :=
  | set_label (label : jsstring)
  | set_customLabel (label : option jsstring)
  | set_color (color : option jsstring).

Definition apply_patch (patch : TabPatch) (t : Tab) : Tab :=
  match patch with
  | set_label label => with_labels label (tab_customLabel t) (tab_color t) t
  | set_customLabel label => with_labels (tab_label t) label (tab_color t) t
  | set_color color => with_labels (tab_label t) (tab_customLabel t) color t
  end.

Definition patchChangesTab (patch : TabPatch) (t : Tab) : bool :=
  match patch with
  | set_label label => negb (same (tab_label t) label)
  | set_customLabel label => negb (bool_decide (tab_customLabel t = label))
  | set_color color => negb (bool_decide (tab_color t = color))
  end.

Definition patchTab (tabId : jsstring) (patch : TabPatch) (s : TabsState) : TabsState :=
  match findTabAndWorktree (unifiedTabsByWorktree (ts_maps s)) tabId with
  | None => s
  | Some (found, worktreeId) =>
      if patchChangesTab patch found then
        let wt := worktree worktreeId (ts_maps s) in
        store worktreeId (mkWorktree (Some ((fun t => if same (tab_id t) tabId then apply_patch patch t else t) <$> tabs_of wt))
                            (wt_groups wt) (wt_active wt) (wt_layout wt)) s
      else s
  end.

Definition known (tabId : jsstring) (s : TabsState) : bool := match getTab tabId s with Some _ => true | None => false end.

Definition setTabLabel (tabId label : jsstring) (s : TabsState) : TabsState := patchTab tabId (set_label label) s.

Definition setRenamingTabId (tabId : option jsstring) (s : TabsState) : TabsState := with_renaming tabId s.

Definition setTabCustomLabel (tabId : jsstring) (label : option jsstring) (recordInteraction : option bool) (s : TabsState) : TabsState * list TabEffect :=
  (patchTab tabId (set_customLabel label) s, if known tabId s then recorded recordInteraction [fi_terminal_tabs] else []).

Definition setUnifiedTabColor (tabId : jsstring) (color : option jsstring) (s : TabsState) : TabsState * list TabEffect :=
  (patchTab tabId (set_color color) s, if known tabId s then recorded None [fi_terminal_tabs] else []).

Definition pin_in (t : Tab) (pinned : bool) (wt : Worktree) : Worktree :=
  let tabs := (fun candidate => if same (tab_id candidate) (tab_id t)
                                then with_flags (if pinned then Some false else tab_isPreview candidate) (Some pinned) candidate
                                else candidate) <$> tabs_of wt in
  match find_group (tab_groupId t) (groups_of wt) with
  | None => mkWorktree (Some tabs) (wt_groups wt) (wt_active wt) (wt_layout wt)
  | Some group =>
      let tabOrder := partitionPinnedTabOrder (tg_tabOrder group) tabs (tab_id t) in
      mkWorktree (Some (applyTabOrderSortValues tabs tabOrder))
        (Some (updateGroup (groups_of wt) (mkGroup (tg_id group) (tg_worktreeId group) (tg_activeTabId group) tabOrder (tg_recentTabIds group))))
        (wt_active wt) (wt_layout wt)
  end.

Definition pin_terminal (tabId : jsstring) (isPinned : bool) (t : TerminalTab) : TerminalTab :=
  if same (tt_id t) tabId
  then mkTerminalTab (tt_id t) (tt_ptyId t) (tt_title t) (tt_generatedTitle t) (tt_quickCommandLabel t) (tt_customTitle t) (tt_color t)
         (Some isPinned) (tt_sortOrder t) (tt_createdAt t)
  else t.

Definition patchTerminalTabPinned (worktreeId tabId : jsstring) (isPinned : bool) (s : TabsState) : TabsState :=
  let tabs := rec_list worktreeId (ts_tabsByWorktree s) in
  if existsb (fun t => same (tt_id t) tabId) tabs
  then with_terminals (rec_set worktreeId (pin_terminal tabId isPinned <$> tabs) (ts_tabsByWorktree s)) (ts_ptyIdsByTabId s) s
  else s.

Section environment.
(** The runtime environment of a worktree (worktree/runtime-owner.ts). *)
Context (getRuntimeEnvironmentIdForWorktree : TabsState -> jsstring -> option jsstring).

Definition mirrorTabPinnedToHost (tabId : jsstring) (isPinned : bool) (s : TabsState) : list TabEffect :=
  match findTabAndWorktree (unifiedTabsByWorktree (ts_maps s)) tabId with
  | None => []
  | Some (t, worktreeId) =>
      if bool_decide (tab_contentType t = ct_terminal) then
        match truthy (getRuntimeEnvironmentIdForWorktree s worktreeId) with
        | Some environmentId => [x_setRemoteSessionTabProps environmentId worktreeId tabId isPinned]
        | None => []
        end
      else []
  end.

(** [pinTab] and [unpinTab]. *)
Definition set_pinned (tabId : jsstring) (isPinned : bool) (s : TabsState) : TabsState * list TabEffect :=
  let exists_ := known tabId s in
  let s := match findTabAndWorktree (unifiedTabsByWorktree (ts_maps s)) tabId with
           | None => s
           | Some (t, worktreeId) =>
               let wt := worktree worktreeId (ts_maps s) in
               match find_group (tab_groupId t) (groups_of wt) with
               | None => store worktreeId (pin_in t isPinned wt) s
               | Some _ => patchTerminalTabPinned worktreeId tabId isPinned (store worktreeId (pin_in t isPinned wt) s)
               end
           end in
  (s, mirrorTabPinnedToHost tabId isPinned s ++ (if exists_ then [x_recordFeatureInteraction fi_terminal_tabs] else [])).

Definition pinTab (tabId : jsstring) : TabsState -> TabsState * list TabEffect := set_pinned tabId true.
Definition unpinTab (tabId : jsstring) : TabsState -> TabsState * list TabEffect := set_pinned tabId false.
End environment.

(** ** Groups *)

Definition ensureWorktreeRootGroup (worktreeId newGroupId : jsstring) (s : TabsState) : TabsState * jsstring :=
  let wt := worktree worktreeId (ts_maps s) in
  match groups_of wt with
  | group :: _ => (s, default (tg_id group) (wt_active wt))
  | [] => (store worktreeId (mkWorktree (wt_tabs wt) (Some [mkGroup newGroupId worktreeId None [] None]) (Some newGroupId) (Some (leaf newGroupId))) s,
           newGroupId)
  end.

(** The terminals the groups of a worktree show. *)
Definition visible_terminals (wt : Worktree) : list jsstring :=
  omap (fun group => match truthy (tg_activeTabId group) with
                     | Some active => match find_tab active (tabs_of wt) with Some t => terminal_of t | None => None end
                     | None => None
                     end) (groups_of wt).

Definition focusGroup (worktreeId groupId : jsstring) (s : TabsState) : TabsState :=
  let wt := worktree worktreeId (ts_maps s) in
  let s := store worktreeId (mkWorktree (wt_tabs wt) (wt_groups wt) (Some groupId) (wt_layout wt)) s in
  if bool_decide (ts_activeWorktreeId s = Some worktreeId)
  then patch_surface worktreeId (Some groupId) (fold_left (fun s terminalId => clear_unread terminalId s) (visible_terminals wt) s)
  else s.

Definition closeEmptyGroup (worktreeId groupId : jsstring) (s : TabsState) : TabsState * bool :=
  let wt := worktree worktreeId (ts_maps s) in
  match find_group groupId (groups_of wt) with
  | None => (s, false)
  | Some group =>
      match tg_tabOrder group with
      | _ :: _ => (s, false)
      | [] =>
          let remainingGroups := List.filter (fun candidate => negb (same (tg_id candidate) groupId)) (groups_of wt) in
          let '(layout, active) := collapseGroupLayout (wt_layout wt) (wt_active wt) groupId (option_map tg_id (head remainingGroups)) in
          let s := store worktreeId (mkWorktree (wt_tabs wt) (Some remainingGroups) active layout) s in
          let s := with_recentQuickCommand (rec_delete groupId (ts_recentQuickCommandIdByGroup s)) s in
          (patch_surface worktreeId active s, true)
      end
  end.

Definition createEmptySplitGroup (worktreeId sourceGroupId : jsstring) (direction : TabSplitDirection) (newGroupId : jsstring) (s : TabsState) :
    TabsState * list TabEffect * jsstring :=
  let wt := worktree worktreeId (ts_maps s) in
  (store worktreeId (mkWorktree (wt_tabs wt) (Some (groups_of wt ++ [mkGroup newGroupId worktreeId None [] None])) (Some newGroupId)
                       (Some (split_beside (wt_layout wt) sourceGroupId newGroupId direction))) s,
   [x_recordFeatureInteraction fi_terminal_panes], newGroupId).

(** ** Moving *)

(** The order of a group with a tab put at an index. *)
Definition order_with (tabId : jsstring) (index : option Z) (tabOrder : list jsstring) : list jsstring :=
  let targetOrder := dedupeTabOrder (without tabId tabOrder) in
  let size := Z.of_nat (List.length targetOrder) in
  let targetIndex := Z.to_nat (Z.max 0 (Z.min (default size index) size)) in
  take targetIndex targetOrder ++ tabId :: drop targetIndex targetOrder.

Definition moved_tabs (tabId targetGroupId : jsstring) (tabs : list Tab) : list Tab :=
  (fun candidate => if same (tab_id candidate) tabId then with_group targetGroupId candidate else candidate) <$> tabs.

Definition move_in (t : Tab) (source target : TabGroup) (index : option Z) (activate : bool) (wt : Worktree) : Worktree :=
  let tabId := tab_id t in
  let sourceOrder := order_without tabId source in
  let targetOrder := order_with tabId index (tg_tabOrder target) in
  let nextGroups := (fun group =>
      if same (tg_id group) (tg_id source) then leave_group source tabId sourceOrder group
      else if same (tg_id group) (tg_id target) then
        let sanitizedTargetRecent := sanitizeRecentTabIds (tg_recentTabIds group) targetOrder in
        mkGroup (tg_id group) (tg_worktreeId group) (if activate then Some tabId else tg_activeTabId group) targetOrder
          (Some (if activate then pushRecentTabId (Some sanitizedTargetRecent) tabId else sanitizedTargetRecent))
      else group) <$> groups_of wt in
  let active := if activate then Some (tg_id target) else wt_active wt in
  let tabs := moved_tabs tabId (tg_id target) (tabs_of wt) in
  match sourceOrder with
  | [] =>
      let '(layout, active) := collapseGroupLayout (wt_layout wt) active (tg_id source) (Some (tg_id target)) in
      mkWorktree (Some tabs) (Some (List.filter (fun group => negb (same (tg_id group) (tg_id source))) nextGroups)) active layout
  | _ => mkWorktree (Some tabs) (Some nextGroups) active (wt_layout wt)
  end.

Definition moveUnifiedTabToGroup (tabId targetGroupId : jsstring) (index : option Z) (activate : bool) (recordInteraction : option bool) (s : TabsState) :
    TabsState * list TabEffect * bool :=
  match findTabAndWorktree (unifiedTabsByWorktree (ts_maps s)) tabId, findGroupAndWorktree (groupsByWorktree (ts_maps s)) targetGroupId with
  | Some (t, worktreeId), Some (target, targetWorktreeId) =>
      if negb (same worktreeId targetWorktreeId) || same (tab_groupId t) targetGroupId then (s, [], false)
      else match findGroupForTab (groupsByWorktree (ts_maps s)) worktreeId (tab_groupId t) with
           | None => (s, [], false)
           | Some source =>
               let s := store worktreeId (move_in t source target index activate (worktree worktreeId (ts_maps s))) s in
               (patch_surface worktreeId (wt_active (worktree worktreeId (ts_maps s))) s, recorded recordInteraction [fi_tab_splits], true)
           end
  | _, _ => (s, [], false)
  end.

(** What a tab is dropped on. *)
Record DropTarget := mkDrop { dt_groupId : jsstring; dt_index : option Z; dt_splitDirection : option TabSplitDirection }.

(** The groups, the layout, the active group and the group that receives the tab. *)
Definition drop_destination (target : DropTarget) (worktreeId newGroupId : jsstring) (wt : Worktree) :
    list TabGroup * option TabGroupLayoutNode * option jsstring * jsstring :=
  match dt_splitDirection target with
  | Some direction =>
      (groups_of wt ++ [mkGroup newGroupId worktreeId None [] None],
       Some (split_beside (wt_layout wt) (dt_groupId target) newGroupId direction), Some newGroupId, newGroupId)
  | None => (groups_of wt, wt_layout wt, wt_active wt, dt_groupId target)
  end.

Definition drop_in (t : Tab) (source targetGroup : TabGroup) (target : DropTarget) (worktreeId newGroupId : jsstring) (wt : Worktree) : Worktree * jsstring :=
  let tabId := tab_id t in
  let '(groups, layout, active, resolvedTargetGroupId) := drop_destination target worktreeId newGroupId wt in
  let sourceOrder := order_without tabId source in
  let destinationGroup := default targetGroup (find_group resolvedTargetGroupId groups) in
  let targetOrder := order_with tabId (dt_index target) (tg_tabOrder destinationGroup) in
  let nextGroups := (fun group =>
      if same (tg_id group) (tg_id source) then leave_group source tabId sourceOrder group
      else if same (tg_id group) resolvedTargetGroupId then
        mkGroup (tg_id group) (tg_worktreeId group) (Some tabId) targetOrder
          (Some (pushRecentTabId (Some (sanitizeRecentTabIds (tg_recentTabIds group) targetOrder)) tabId))
      else group) <$> groups in
  let tabs := moved_tabs tabId resolvedTargetGroupId (tabs_of wt) in
  match sourceOrder with
  | [] =>
      let '(layout, active) := collapseGroupLayout layout active (tg_id source) (Some resolvedTargetGroupId) in
      (mkWorktree (Some tabs) (Some (List.filter (fun group => negb (same (tg_id group) (tg_id source))) nextGroups)) active layout, resolvedTargetGroupId)
  | _ => (mkWorktree (Some tabs) (Some nextGroups) (Some resolvedTargetGroupId) layout, resolvedTargetGroupId)
  end.

Definition dropUnifiedTab (tabId : jsstring) (target : DropTarget) (newGroupId : jsstring) (s : TabsState) : TabsState * list TabEffect * bool :=
  match findTabAndWorktree (unifiedTabsByWorktree (ts_maps s)) tabId, findGroupAndWorktree (groupsByWorktree (ts_maps s)) (dt_groupId target) with
  | Some (t, worktreeId), Some (targetGroup, targetWorktreeId) =>
      if negb (same worktreeId targetWorktreeId) then (s, [], false)
      else match findGroupForTab (groupsByWorktree (ts_maps s)) worktreeId (tab_groupId t) with
           | None => (s, [], false)
           | Some source =>
               let wt := worktree worktreeId (ts_maps s) in
               let idle := match dt_splitDirection target with
                           | None => same (tab_groupId t) (dt_groupId target)
                           | Some direction => isPaneColumnSplitDropNoOp (tg_id source) (dt_groupId target) direction (List.length (tg_tabOrder source)) (wt_layout wt)
                           end in
               if idle then (s, [], false)
               else
                 let '(wt, resolvedTargetGroupId) := drop_in t source targetGroup target worktreeId newGroupId wt in
                 (patch_surface worktreeId (Some resolvedTargetGroupId) (store worktreeId wt s),
                  x_recordFeatureInteraction <$> [fi_terminal_tabs; fi_tab_splits], true)
           end
  | _, _ => (s, [], false)
  end.

Definition copyUnifiedTabToGroup (tabId targetGroupId : jsstring) (init : TabInit) (now : Z) (newId newGroupId : jsstring) (s : TabsState) :
    TabsState * list TabEffect * option Tab :=
  match findTabAndWorktree (unifiedTabsByWorktree (ts_maps s)) tabId, findGroupAndWorktree (groupsByWorktree (ts_maps s)) targetGroupId with
  | Some (t, worktreeId), Some (_, targetWorktreeId) =>
      if same worktreeId targetWorktreeId then
        let defined (given own : option (option jsstring)) := match given with Some (Some label) => given | _ => own end in
        let '(s, effects, created) := createUnifiedTab worktreeId (tab_contentType t)
          (mkInit (ti_id init) (Some (default (tab_entityId t) (ti_entityId init))) (Some (default (tab_label t) (ti_label init)))
             (defined (ti_generatedLabel init) (tab_generatedLabel t)) (defined (ti_quickCommandLabel init) (tab_quickCommandLabel t))
             (or_else (ti_customLabel init) (tab_customLabel t)) (or_else (ti_color init) (tab_color t)) None
             (or_else (ti_isPinned init) (tab_isPinned t)) (Some targetGroupId) None None) now newId newGroupId s in
        (s, effects, Some created)
      else (s, [], None)
  | _, _ => (s, [], None)
  end.

(** ** Layout *)

Definition mergeGroupIntoSibling (worktreeId groupId : jsstring) (s : TabsState) : TabsState * list TabEffect * option jsstring :=
  let wt := worktree worktreeId (ts_maps s) in
  match find_group groupId (groups_of wt), wt_layout wt with
  | Some sourceGroup, Some layout =>
      if (List.length (groups_of wt) <=? 1)%nat then (s, [], None)
      else match truthy (findSiblingGroupId layout groupId) with
           | None => (s, [], None)
           | Some targetGroupId =>
               let orderedSourceTabs := List.filter (fun t => same (tab_groupId t) groupId) (tabs_of wt) in
               let '(s, effects) := fold_left (fun state tabId =>
                   let '(s, effects) := state in
                   match find_tab tabId orderedSourceTabs with
                   | None => (s, effects)
                   | Some item => let '(s, more, _) := moveUnifiedTabToGroup (tab_id item) targetGroupId None false (Some false) s in (s, effects ++ more)
                   end) (tg_tabOrder sourceGroup) (s, []) in
               let '(s, _) := closeEmptyGroup worktreeId groupId s in
               (s, effects ++ [x_recordFeatureInteraction fi_terminal_panes], Some targetGroupId)
           end
  | _, _ => (s, [], None)
  end.

Definition setTabGroupSplitRatio (worktreeId nodePath : jsstring) (ratio : spec_float) (s : TabsState) : TabsState :=
  let wt := worktree worktreeId (ts_maps s) in
  match wt_layout wt with
  | None => s
  | Some layout =>
      let path := match nodePath with [] => [] | _ => split_on 46 nodePath end in
      store worktreeId (mkWorktree (wt_tabs wt) (wt_groups wt) (wt_active wt) (Some (updateSplitRatio layout path ratio))) s
  end.
