(* ===== verification/TabReconcile.v ===== *)
(** Reconciling the tabs of a worktree with what backs them
    (packages/client/src/tab-bar/state/reconciliation-actions.ts; terminal/state/orphan-state.ts).

    Terminals without a tab get one if they run or can be woken, else they are dropped; tabs
    without a terminal, file or browser page are dropped.  The code compares objects by
    identity to see what changed: it keeps an object exactly when nothing in it changes, so
    that equality of values decides the same. *)

From stdpp Require Import base list sets strings.
From Stdlib Require Import ZArith Lia ZifyBool SpecFloat.
From S2P Require Import Prelude JsText JsRecord Json.
From S2P Require Import KeySyntax.
From S2P Require Import TabModel.
From S2P Require Import TabStore.
From S2P Require Import TabActions.

Open Scope Z_scope.

#[local] Set Warnings "-clear-no-such-hyp".

#[export] Instance spec_float_eq_dec : EqDecision spec_float.
Proof. solve_decision. Defined.

#[export] Instance TabGroupLayoutNode_eq_dec : EqDecision TabGroupLayoutNode.
Proof. solve_decision. Defined.

#[export] Instance TabGroup_eq_dec : EqDecision TabGroup.
Proof. solve_decision. Defined.

(** What reconciling does outside of the store. *)
Inductive ReconcileEffect := x_dropAgentStatusByTabPrefix (tabId worktreeId : jsstring).

Definition terminal_entities (tabs : list Tab) : list jsstring := omap terminal_of tabs.

Definition live_ptys (s : TabsState) (t : TerminalTab) : bool := match rec_list (tt_id t) (ts_ptyIdsByTabId s) with [] => false | _ => true end.

Definition is_some {A} (o : option A) : bool := match o with Some _ => true | None => false end.

(** Terminals of the worktree that no tab shows: those to restore, and those to drop. *)
Definition legacyRuntimeTerminalTabs (s : TabsState) (worktreeId : jsstring) : list TerminalTab :=
  List.filter (fun t => negb (memb (tt_id t) (terminal_entities (rec_list worktreeId (unifiedTabsByWorktree (ts_maps s))))) &&
                        (live_ptys s t || is_some (tt_ptyId t)))
    (rec_list worktreeId (ts_tabsByWorktree s)).

Definition getOrphanTerminalIds (s : TabsState) (worktreeId : jsstring) : list jsstring :=
  dedupeTabOrder (tt_id <$>
    List.filter (fun t => negb (memb (tt_id t) (terminal_entities (rec_list worktreeId (unifiedTabsByWorktree (ts_maps s))))) &&
                          (negb (live_ptys s t) && negb (is_some (tt_ptyId t))))
      (rec_list worktreeId (ts_tabsByWorktree s))).

Definition buildOrphanTerminalCleanupPatch (orphanTerminalIds : list jsstring) (s : TabsState) : TabsState :=
  fold_left (fun s id => removeTabFromTerminalState id s) orphanTerminalIds s.

(** A stable sort by sort order, then by creation. *)
Definition sorts_before (a b : TerminalTab) : bool :=
  (tt_sortOrder a <? tt_sortOrder b) || (tt_sortOrder a =? tt_sortOrder b) && (tt_createdAt a <=? tt_createdAt b).

Fixpoint insert_terminal (t : TerminalTab) (sorted : list TerminalTab) : list TerminalTab :=
  match sorted with
  | [] => [t]
  | other :: rest => if sorts_before t other then t :: sorted else other :: insert_terminal t rest
  end.

Definition sort_terminals (terminals : list TerminalTab) : list TerminalTab := fold_right insert_terminal [] terminals.

(** [text?.trim() ? { label: text.trim() } : {}] *)
Definition trimmed (text : option jsstring) : option (option jsstring) := option_map Some (truthy (option_map trim text)).

Definition restored_tab (worktreeId groupId : jsstring) (t : TerminalTab) : Tab :=
  mkTab (tt_id t) (tt_id t) groupId worktreeId ct_terminal (tt_title t) (trimmed (tt_generatedTitle t)) (trimmed (tt_quickCommandLabel t))
    (tt_customTitle t) (tt_color t) (tt_sortOrder t) (tt_createdAt t) None None.

(** The worktree with the restored tabs, or the worktree as it is. *)
Definition restore_in (legacy : list TerminalTab) (remembered : option jsstring) (worktreeId newGroupId : jsstring) (wt : Worktree) : Worktree :=
  match legacy with
  | [] => wt
  | _ =>
      let '(group, groups, active) := ensureGroup (wt_groups wt) (wt_active wt) worktreeId (wt_active wt) newGroupId in
      let restored := restored_tab worktreeId (tg_id group) <$> sort_terminals legacy in
      let ids := tab_id <$> restored in
      let fallback := match truthy remembered with
                      | Some id => if memb id ids then Some id else head ids
                      | None => head ids
                      end in
      mkWorktree (Some (tabs_of wt ++ restored))
        (Some (updateGroup (default [] groups)
                 (mkGroup (tg_id group) (tg_worktreeId group) (or_else (tg_activeTabId group) fallback) (dedupeTabOrder (tg_tabOrder group ++ ids)) (tg_recentTabIds group))))
        (or_else (wt_active wt) active) (or_else (wt_layout wt) (Some (leaf (tg_id group))))
  end.

(** What backs the tabs. *)
Record LiveIds := mkLive { lv_terminals : list jsstring; lv_editors : list jsstring; lv_browsers : list jsstring }.

Definition live_ids (s : TabsState) (worktreeId : jsstring) : LiveIds :=
  mkLive (tt_id <$> List.filter (fun t => negb (memb (tt_id t) (getOrphanTerminalIds s worktreeId))) (rec_list worktreeId (ts_tabsByWorktree s)))
    (of_id <$> List.filter (fun f => same (of_worktreeId f) worktreeId) (ts_openFiles s)) (rec_list worktreeId (ts_browserTabsByWorktree s)).

Definition isRenderableTab (live : LiveIds) (t : Tab) : bool :=
  match tab_contentType t with
  | ct_terminal => memb (tab_entityId t) (lv_terminals live)
  | ct_browser => memb (tab_entityId t) (lv_browsers live)
  | ct_simulator | ct_git_graph | ct_page => true
  | ct_editor | ct_diff | ct_conflict_review | ct_check_details => memb (tab_entityId t) (lv_editors live)
  end.

Definition reconcile_group (validTabIds : list jsstring) (group : TabGroup) : TabGroup :=
  let tabOrder := List.filter (fun id => memb id validTabIds) (tg_tabOrder group) in
  let activeTabId := match truthy (tg_activeTabId group) with
                     | Some active => if memb active validTabIds then Some active else head tabOrder
                     | None => head tabOrder
                     end in
  let recentTabIds := sanitizeRecentTabIds (tg_recentTabIds group) tabOrder in
  if bool_decide (tabOrder = tg_tabOrder group) && bool_decide (activeTabId = tg_activeTabId group) &&
     bool_decide (recentTabIds = default [] (tg_recentTabIds group))
  then group
  else mkGroup (tg_id group) (tg_worktreeId group) activeTabId tabOrder (Some recentTabIds).

Definition shows_tab (group : TabGroup) : bool := is_some (tg_activeTabId group).

(** The worktree with the tabs that can be shown. *)
Definition prune_in (live : LiveIds) (wt : Worktree) : Worktree :=
  let validTabs := List.filter (isRenderableTab live) (tabs_of wt) in
  let validTabIds := tab_id <$> validTabs in
  let nextGroupsWithEmpty := reconcile_group validTabIds <$> groups_of wt in
  let nextGroups := match validTabs with
                    | [] => nextGroupsWithEmpty
                    | _ => List.filter (fun group => match tg_tabOrder group with [] => false | _ => true end) nextGroupsWithEmpty
                    end in
  let stillExists := match wt_active wt with Some id => existsb (fun group => same (tg_id group) id) nextGroups | None => false end in
  let nextActiveGroupId := if stillExists then wt_active wt
                           else or_else (option_map tg_id (List.find shows_tab nextGroups)) (or_else (option_map tg_id (head nextGroups)) (wt_active wt)) in
  let validGroupIds := tg_id <$> nextGroups in
  let prunedNextLayout := match wt_layout wt, validGroupIds with
                          | Some layout, _ :: _ => pruneTabGroupLayoutForGroups layout validGroupIds
                          | base, _ => base
                          end in
  mkWorktree (Some validTabs) (Some nextGroups) nextActiveGroupId (or_else prunedNextLayout (option_map (fun group => leaf (tg_id group)) (head nextGroups))).

Record ReconcileResult := mkReconcile { rr_renderableTabCount : nat; rr_activeRenderableTabId : option jsstring }.

Definition reconcileWorktreeTabModel (worktreeId newGroupId : jsstring) (s : TabsState) : TabsState * list ReconcileEffect * ReconcileResult :=
  let wt := worktree worktreeId (ts_maps s) in
  let legacy := legacyRuntimeTerminalTabs s worktreeId in
  let orphans := getOrphanTerminalIds s worktreeId in
  let remembered := default None (rec_get worktreeId (activeTabIdByWorktree (ts_surface s))) in
  let restored := restore_in legacy remembered worktreeId newGroupId wt in
  let next := prune_in (live_ids s worktreeId) restored in
  let tabsChanged := negb (List.length (tabs_of next) =? List.length (tabs_of wt))%nat || match legacy with [] => false | _ => true end in
  let groupsChanged := negb (bool_decide (groups_of next = groups_of wt)) in
  let activeGroupChanged := negb (bool_decide (wt_active next = wt_active restored)) in
  let layoutChanged := negb (bool_decide (wt_layout next = wt_layout wt)) in
  let group_on_show := match wt_active next with Some id => find_group id (groups_of next) | None => None end in
  let result := mkReconcile (List.length (tabs_of next))
    (or_else (match group_on_show with Some group => tg_activeTabId group | None => None end)
       (match List.find shows_tab (groups_of next) with Some group => tg_activeTabId group | None => None end)) in
  if tabsChanged || groupsChanged || activeGroupChanged || layoutChanged || match orphans with [] => false | _ => true end then
    let dropped := omap (fun t => if memb (tab_id t) (tab_id <$> tabs_of next) then None else terminal_of t) (tabs_of wt) in
    let cleaned := buildOrphanTerminalCleanupPatch orphans s in
    let unread := match orphans with
                  | [] => ts_unreadTerminalTabs (fold_left (fun s id => clear_unread id s) dropped s)
                  | _ => ts_unreadTerminalTabs cleaned
                  end in
    (store worktreeId (mkWorktree (wt_tabs next) (wt_groups next) (wt_active next) (or_else (wt_layout next) (wt_layout wt))) (with_unread unread cleaned),
     (fun id => x_dropAgentStatusByTabPrefix id worktreeId) <$> orphans, result)
  else (s, [], result).
