(* ===== verification/TabLaws.v ===== *)
(** Laws of the tab model ([TabModel.v]): the leaves of layouts, the lists of ids, the tab
    chosen after a close, and the well-formed groups. *)

From stdpp Require Import base list sets strings.
From Stdlib Require Import ZArith Lia ZifyBool SpecFloat.
From S2P Require Import Prelude JsText JsRecord Json.
From S2P Require Import TabModel.

Open Scope Z_scope.

#[local] Set Warnings "-clear-no-such-hyp".

Lemma same_true a b : same a b = true <-> a = b.
Proof. unfold same. apply bool_decide_eq_true. Qed.

Lemma same_false a b : same a b = false <-> a <> b.
Proof. unfold same. apply bool_decide_eq_false. Qed.

Lemma same_refl a : same a a = true.
Proof. by apply same_true. Qed.

Lemma memb_true id ids : memb id ids = true <-> id ∈ ids.
Proof. unfold memb. apply bool_decide_eq_true. Qed.

Lemma memb_false id ids : memb id ids = false <-> id ∉ ids.
Proof. unfold memb. apply bool_decide_eq_false. Qed.

(** Decides the comparisons of ids in the goal and the hypotheses. *)
Ltac ids :=
  repeat match goal with
  | H : same _ _ = true |- _ => apply same_true in H
  | H : same _ _ = false |- _ => apply same_false in H
  | H : memb _ _ = true |- _ => apply memb_true in H
  | H : memb _ _ = false |- _ => apply memb_false in H
  | H : context [same ?a ?a] |- _ => rewrite same_refl in H
  | |- context [same ?a ?a] => rewrite same_refl
  end.

Lemma elem_of_filter {A} (f : A -> bool) x l : x ∈ List.filter f l <-> f x = true /\ x ∈ l.
Proof. rewrite !list_elem_of_In, filter_In. tauto. Qed.

Lemma NoDup_filter {A} (f : A -> bool) l : NoDup l -> NoDup (List.filter f l).
Proof. intros H. apply NoDup_ListNoDup. apply List.NoDup_filter. by apply NoDup_ListNoDup. Qed.

Lemma elem_of_rev {A} (x : A) l : x ∈ rev l <-> x ∈ l.
Proof. rewrite !list_elem_of_In. symmetry. apply in_rev. Qed.

Lemma filter_all {A} (f : A -> bool) l : (forall x, x ∈ l -> f x = true) -> List.filter f l = l.
Proof.
  induction l as [|x l IH]; cbn; [done|]. intros H. rewrite (H x) by left. f_equal. apply IH. intros y Hy. apply H. by right.
Qed.

#[export] Instance filter_perm_proper {A} (f : A -> bool) : Proper (Permutation ==> Permutation) (List.filter f).
Proof.
  intros a b H. induction H as [|x a b H IH|x y a|a b c H1 IH1 H2 IH2]; cbn; [done| | |by etransitivity].
  - destruct (f x); by rewrite IH.
  - destruct (f x), (f y); try done. apply perm_swap.
Qed.

Lemma elem_of_without id other ids : other ∈ without id ids <-> other <> id /\ other ∈ ids.
Proof. unfold without. rewrite elem_of_filter. unfold same. case_bool_decide; cbn; naive_solver. Qed.

#[export] Instance without_perm_proper id : Proper (Permutation ==> Permutation) (without id).
Proof. intros a b H. unfold without. by rewrite H. Qed.

Lemma without_app id a b : without id (a ++ b) = without id a ++ without id b.
Proof. apply List.filter_app. Qed.

Lemma without_absent id ids : id ∉ ids -> without id ids = ids.
Proof. intros H. apply filter_all. intros x Hx. unfold same. case_bool_decide; [by subst|done]. Qed.

Lemma without_self id : without id [id] = [].
Proof. unfold without. cbn. by rewrite same_refl. Qed.

Lemma without_cons_self id ids : without id (id :: ids) = without id ids.
Proof. change (id :: ids) with ([id] ++ ids). by rewrite without_app, without_self. Qed.

Lemma without_nodup id ids : NoDup ids -> NoDup (without id ids).
Proof. apply NoDup_filter. Qed.

Lemma without_perm id ids : NoDup ids -> id ∈ ids -> ids ≡ₚ id :: without id ids.
Proof.
  induction ids as [|x ids IH]; [intros _ H; by apply not_elem_of_nil in H|]. intros [Hx Hn]%NoDup_cons Hin. unfold without. cbn.
  destruct (same x id) eqn:E; ids.
  - subst. cbn. fold (without id ids). by rewrite without_absent.
  - cbn. apply elem_of_cons in Hin as [->|Hin]; [done|]. fold (without id ids). rewrite (IH Hn Hin) at 1. apply perm_swap.
Qed.

(** ** Layouts *)

Fixpoint leaves (node : TabGroupLayoutNode) : list jsstring :=
  match node with leaf groupId => [groupId] | split _ first second _ => leaves first ++ leaves second end.

Lemma tab_leaves_nonempty node : leaves node <> [].
Proof. induction node as [|? first IH]; cbn; [done|]. by destruct (leaves first). Qed.

Lemma leaves_single node id : leaves node = [id] -> node = leaf id.
Proof.
  destruct node as [x|d first second r]; cbn; [by intros [= ->]|]. pose proof (tab_leaves_nonempty first). pose proof (tab_leaves_nonempty second).
  destruct (leaves first) as [|? [|]]; [done| |done]. cbn. intros [= -> ?]. done.
Qed.

Lemma is_leaf_of_true node id : is_leaf_of node id = true <-> node = leaf id.
Proof. destruct node; cbn; [rewrite same_true; split; congruence | done]. Qed.

Lemma findFirstLeaf_in node : findFirstLeaf node ∈ leaves node.
Proof. induction node as [|? first IH]; cbn; [by left|]. apply elem_of_app. by left. Qed.

Lemma replaceLeaf_absent root target replacement : target ∉ leaves root -> replaceLeaf root target replacement = root.
Proof.
  induction root as [x|d first IH1 second IH2 r]; cbn.
  - intros H. destruct (same x target) eqn:E; [|done]. ids. subst. destruct H. by left.
  - rewrite elem_of_app. intros H. rewrite IH1, IH2 by tauto. done.
Qed.

Lemma leaves_buildSplitNode a b direction : leaves (buildSplitNode a b direction) ≡ₚ [b; a].
Proof. unfold buildSplitNode. destruct direction; cbn; first [done | apply perm_swap]. Qed.

(** A group beside one of a layout is one more leaf. *)
Lemma leaves_split root target id direction : NoDup (leaves root) -> target ∈ leaves root ->
  leaves (replaceLeaf root target (buildSplitNode target id direction)) ≡ₚ id :: leaves root.
Proof.
  induction root as [x|d first IH1 second IH2 r]; cbn [leaves replaceLeaf].
  - intros _ ->%list_elem_of_singleton. rewrite same_refl. apply leaves_buildSplitNode.
  - intros (H1 & H2 & H3)%NoDup_app [Hin|Hin]%elem_of_app.
    + rewrite (IH1 H1 Hin). rewrite (replaceLeaf_absent second) by (by apply H2). done.
    + rewrite (IH2 H3 Hin). rewrite (replaceLeaf_absent first) by (intros Hf; by apply (H2 target)). symmetry. apply Permutation_middle.
Qed.

Lemma removeLeaf_leaves root target : NoDup (leaves root) ->
  match removeLeaf root target with Some rest => leaves rest = without target (leaves root) | None => root = leaf target end.
Proof.
  induction root as [x|d first IH1 second IH2 r]; cbn [leaves removeLeaf]; intros Hn.
  - unfold without; cbn. destruct (same x target) eqn:E; ids; [by subst | done].
  - apply NoDup_app in Hn as (H1 & H2 & H3). rewrite without_app.
    destruct (is_leaf_of first target) eqn:E1; [|destruct (is_leaf_of second target) eqn:E2].
    + apply is_leaf_of_true in E1 as ->. cbn [leaves]. rewrite without_self.
      symmetry. apply without_absent. apply H2. by left.
    + apply is_leaf_of_true in E2 as ->. cbn [leaves]. rewrite without_self, app_nil_r.
      symmetry. apply without_absent. intros Hf. apply (H2 target Hf). by left.
    + specialize (IH1 H1). specialize (IH2 H3).
      destruct (removeLeaf first target) as [first'|]; [|subst first; cbn in E1; by rewrite same_refl in E1].
      destruct (removeLeaf second target) as [second'|]; [|subst second; cbn in E2; by rewrite same_refl in E2].
      cbn. by rewrite IH1, IH2.
Qed.

Lemma findSibling_absent root target : target ∉ leaves root -> findSiblingGroupId root target = None.
Proof.
  induction root as [x|d first IH1 second IH2 r]; cbn; [done|]. rewrite elem_of_app. intros H.
  destruct (is_leaf_of first target) eqn:E1; [apply is_leaf_of_true in E1 as ->; destruct H; left; by left|].
  destruct (is_leaf_of second target) eqn:E2; [apply is_leaf_of_true in E2 as ->; destruct H; right; by left|].
  rewrite IH1, IH2 by tauto. done.
Qed.

(** The sibling of a leaf of a layout is another leaf. *)
Lemma findSibling_leaf root target : NoDup (leaves root) -> target ∈ leaves root -> root <> leaf target ->
  exists id, findSiblingGroupId root target = Some id /\ id ∈ leaves root /\ id <> target.
Proof.
  induction root as [x|d first IH1 second IH2 r]; cbn [leaves findSiblingGroupId].
  - intros _ ->%list_elem_of_singleton. done.
  - intros (H1 & H2 & H3)%NoDup_app Hin _. setoid_rewrite elem_of_app.
    destruct (is_leaf_of first target) eqn:E1; [apply is_leaf_of_true in E1 as ->|].
    { exists (findFirstLeaf second). pose proof (findFirstLeaf_in second). split; [done|]. split; [by right|]. intros E. apply (H2 target); [by left | by rewrite <- E]. }
    destruct (is_leaf_of second target) eqn:E2; [apply is_leaf_of_true in E2 as ->|].
    { exists (findFirstLeaf first). pose proof (findFirstLeaf_in first). split; [done|]. split; [by left|]. intros E. apply (H2 target); [by rewrite <- E | by left]. }
    apply elem_of_app in Hin as [Hin|Hin].
    + destruct IH1 as (id & -> & ? & ?); [done | done | intros ->; cbn in E1; by rewrite same_refl in E1|]. exists id. auto.
    + rewrite (findSibling_absent first) by (intros Hf; by apply (H2 target)).
      destruct IH2 as (id & -> & ? & ?); [done | done | intros ->; cbn in E2; by rewrite same_refl in E2|]. exists id. auto.
Qed.

Lemma pruned_leaves root valid :
  match pruneTabGroupLayoutForGroups root valid with
  | Some rest => leaves rest = List.filter (fun id => memb id valid) (leaves root)
  | None => List.filter (fun id => memb id valid) (leaves root) = []
  end.
Proof.
  induction root as [x|d first IH1 second IH2 r]; cbn; [destruct (memb x valid) eqn:E; cbn; by rewrite ?E|].
  rewrite List.filter_app.
  destruct (pruneTabGroupLayoutForGroups first valid), (pruneTabGroupLayoutForGroups second valid); cbn; rewrite <- ?IH1, <- ?IH2, ?IH1, ?IH2; cbn;
    rewrite ?app_nil_r; done.
Qed.

Lemma updateSplitRatio_leaves root path ratio : leaves (updateSplitRatio root path ratio) = leaves root.
Proof.
  revert path. induction root as [x|d first IH1 second IH2 r]; intros [|segment path]; cbn; [done..|].
  destruct (same segment _); cbn; [by rewrite IH1|]. destruct (same segment _); cbn; [by rewrite IH2 | done].
Qed.

(** ** Lists of ids *)

Lemma dedupe_from_elem ids seen id : id ∈ dedupe_from ids seen <-> id ∈ ids /\ (id ∉ seen).
Proof.
  revert seen. induction ids as [|x ids IH]; intros seen; cbn; [split; [intros H; by apply not_elem_of_nil in H | by intros [H _]; apply not_elem_of_nil in H]|].
  destruct (memb x seen) eqn:E; ids; rewrite ?elem_of_cons, IH, ?elem_of_cons; [naive_solver|].
  destruct (decide (id = x)) as [->|]; naive_solver.
Qed.

Lemma dedupe_from_nodup ids seen : NoDup (dedupe_from ids seen).
Proof.
  revert seen. induction ids as [|x ids IH]; intros seen; cbn; [constructor|]. destruct (memb x seen); [done|].
  constructor; [|done]. rewrite dedupe_from_elem, elem_of_cons. naive_solver.
Qed.

Lemma dedupe_from_same ids seen : NoDup ids -> (forall id, id ∈ ids -> id ∉ seen) -> dedupe_from ids seen = ids.
Proof.
  revert seen. induction ids as [|x ids IH]; intros seen; cbn; [done|]. intros [Hx Hn]%NoDup_cons H.
  rewrite (proj2 (memb_false _ _) (H x ltac:(by left))). f_equal. apply IH; [done|]. intros id Hid [->|Hs]%elem_of_cons; [done|].
  by apply (H id ltac:(by right)).
Qed.

Lemma dedupe_elem ids id : id ∈ dedupeTabOrder ids <-> id ∈ ids.
Proof. unfold dedupeTabOrder. rewrite dedupe_from_elem. split; [tauto|]. intros ?. split; [done | apply not_elem_of_nil]. Qed.

Lemma dedupe_nodup ids : NoDup (dedupeTabOrder ids).
Proof. apply dedupe_from_nodup. Qed.

Lemma dedupe_same ids : NoDup ids -> dedupeTabOrder ids = ids.
Proof. intros H. apply dedupe_from_same; [done|]. intros. apply not_elem_of_nil. Qed.

Lemma sanitize_from_elem recent seen tabOrder id :
  id ∈ sanitize_from recent seen tabOrder <-> id ∈ recent /\ (id ∉ seen) /\ id ∈ tabOrder.
Proof.
  revert seen. induction recent as [|x recent IH]; intros seen; cbn; [split; [intros H; by apply not_elem_of_nil in H | by intros [H _]; apply not_elem_of_nil in H]|].
  destruct (memb x tabOrder) eqn:E1, (memb x seen) eqn:E2; cbn; ids; rewrite ?elem_of_cons, IH, ?elem_of_cons;
    (destruct (decide (id = x)) as [->|]; tauto).
Qed.

Lemma sanitize_from_nodup recent seen tabOrder : NoDup (sanitize_from recent seen tabOrder).
Proof.
  revert seen. induction recent as [|x recent IH]; intros seen; cbn; [constructor|]. destruct (negb _ || _); [done|].
  constructor; [|done]. rewrite sanitize_from_elem, elem_of_cons. naive_solver.
Qed.

(** The recent tabs are tabs of the order, each once. *)
Lemma sanitize_elem recent tabOrder id : id ∈ sanitizeRecentTabIds recent tabOrder <-> id ∈ default [] recent /\ id ∈ tabOrder.
Proof.
  unfold sanitizeRecentTabIds. destruct recent as [[|x recent]|]; cbn [default]; try (split; [intros H; by apply not_elem_of_nil in H | by intros [H _]; apply not_elem_of_nil in H]).
  rewrite elem_of_rev, sanitize_from_elem, elem_of_rev. split; [tauto|]. intros [? ?]. split; [done|]. split; [apply not_elem_of_nil | done].
Qed.

Lemma sanitize_nodup recent tabOrder : NoDup (sanitizeRecentTabIds recent tabOrder).
Proof. unfold sanitizeRecentTabIds. destruct recent as [[|x recent]|]; try constructor. apply NoDup_ListNoDup, NoDup_rev, NoDup_ListNoDup, sanitize_from_nodup. Qed.

Lemma push_elem recent tabId id : id ∈ pushRecentTabId recent tabId <-> id = tabId \/ id ∈ default [] recent.
Proof.
  unfold pushRecentTabId. case_bool_decide as E.
  - split; [by right|]. intros [->|H]; [|done]. apply last_Some in E as [l ->]. apply elem_of_app. right. by left.
  - rewrite elem_of_app, elem_of_without, list_elem_of_singleton. destruct (decide (id = tabId)); naive_solver.
Qed.

Lemma push_elem_some recent tabId id : id ∈ pushRecentTabId (Some recent) tabId <-> id = tabId \/ id ∈ recent.
Proof. apply push_elem. Qed.

Lemma push_nodup recent tabId : NoDup (default [] recent) -> NoDup (pushRecentTabId recent tabId).
Proof.
  intros H. unfold pushRecentTabId. case_bool_decide; [done|]. apply NoDup_app. split; [by apply without_nodup|].
  split; [|apply NoDup_singleton]. intros x [Hx _]%elem_of_without ->%list_elem_of_singleton. done.
Qed.

Lemma push_last recent tabId : last (pushRecentTabId recent tabId) = Some tabId.
Proof. unfold pushRecentTabId. case_bool_decide; [done|]. apply last_snoc. Qed.

(** ** The tab chosen when one goes *)

Lemma place_split id ids : match place id ids with
  | Some n => exists a b, ids = a ++ id :: b /\ List.length a = n /\ (id ∉ a)
  | None => id ∉ ids
  end.
Proof.
  induction ids as [|x ids IH]; cbn; [apply not_elem_of_nil|]. destruct (same x id) eqn:E; ids.
  - subst. exists [], ids. split; [done|]. split; [done | apply not_elem_of_nil].
  - destruct (place id ids) as [n|]; cbn.
    + destruct IH as (a & b & -> & <- & Ha). exists (x :: a), b. split; [done|]. split; [done|]. rewrite not_elem_of_cons. split; [congruence | done].
    + rewrite not_elem_of_cons. split; [congruence | done].
Qed.

(** The neighbor of a tab is another tab, the one to its right if there is one. *)
Lemma pickNeighbor_spec a id b : NoDup (a ++ id :: b) ->
  pickNeighbor (a ++ id :: b) id = match b with next :: _ => Some next | [] => last a end.
Proof.
  intros (Ha & Hab & Hb)%NoDup_app. unfold pickNeighbor. pose proof (place_split id (a ++ id :: b)) as Hp.
  destruct (place id (a ++ id :: b)) as [n|]; [|exfalso; apply Hp, elem_of_app; right; by left].
  destruct Hp as (a' & b' & E & <- & Hn). assert (a' = a /\ b' = b) as [-> ->].
  { clear Hb. revert a E Ha Hab Hn. induction a' as [|y a' IH]; intros [|x a]; cbn; intros E Ha Hab Hn.
    - by injection E as <-.
    - injection E as E _. exfalso. apply (Hab x); [by left | rewrite E; by left].
    - injection E as E _. exfalso. apply Hn. rewrite E. by left.
    - injection E as -> E. apply NoDup_cons in Ha as [_ Ha]. apply not_elem_of_cons in Hn as [_ Hn].
      destruct (IH a E Ha) as [-> ->]; [|done|done]. intros z Hz. apply Hab. by right. }
  destruct (_ <? _)%nat eqn:E'; [apply Nat.ltb_lt in E' | apply Nat.ltb_ge in E']; rewrite length_app in E'; cbn [List.length] in E'.
  - destruct b as [|next b]; [cbn in E'; lia|]. rewrite lookup_app_r by lia. by replace (S (List.length a) - List.length a)%nat with 1%nat by lia.
  - destruct b as [|next b]; [|cbn in E'; lia]. destruct a as [|x a] using rev_ind; [done|]. rewrite length_app, Nat.add_comm. cbn [List.length Nat.add].
    rewrite <- app_assoc, lookup_app_r, Nat.sub_diag by done. cbn. by rewrite last_snoc.
Qed.

(** The tab chosen when one of a group goes is another one, unless it is the last. *)
Lemma pickNextActiveTab_ok tabOrder recent id : NoDup tabOrder -> id ∈ tabOrder ->
  match pickNextActiveTab tabOrder recent id with
  | Some next => next ∈ tabOrder /\ next <> id
  | None => tabOrder = [id]
  end.
Proof.
  intros Hn Hin. unfold pickNextActiveTab.
  destruct (List.find _ _) as [next|] eqn:E.
  - apply List.find_some in E as [H1 H2]. rewrite <- list_elem_of_In, elem_of_rev, sanitize_elem in H1.
    apply negb_true_iff in H2. ids. naive_solver.
  - apply list_elem_of_split in Hin as (a & b & ->). rewrite pickNeighbor_spec by done. apply NoDup_app in Hn as (Ha & Hab & [Hb _]%NoDup_cons).
    destruct b as [|next b].
    + destruct a as [|x a] using rev_ind; [done|]. rewrite last_snoc. split; [apply elem_of_app; left; apply elem_of_app; right; by left|].
      intros ->. apply (Hab id); [apply elem_of_app; right; by left | by left].
    + split; [apply elem_of_app; right; right; by left|]. intros ->. apply Hb. by left.
Qed.

(** ** Well-formed groups *)

(** A tab of the group [groupId] has the id. *)
Definition member (tabs : list Tab) (groupId id : jsstring) : Prop := exists t, t ∈ tabs /\ tab_id t = id /\ tab_groupId t = groupId.

(** The order of a group lists its tabs, each once; the tab on show is one of them, and there
    is one if there are tabs; so are the recent ones. *)
Record group_ok (tabs : list Tab) (g : TabGroup) : Prop := {
  gk_order : NoDup (tg_tabOrder g);
  gk_member : forall id, id ∈ tg_tabOrder g <-> member tabs (tg_id g) id;
  gk_shown : match tg_activeTabId g with Some active => active ∈ tg_tabOrder g | None => tg_tabOrder g = [] end;
  gk_recent : NoDup (default [] (tg_recentTabIds g));
  gk_recent_in : forall id, id ∈ default [] (tg_recentTabIds g) -> id ∈ tg_tabOrder g
}.

Lemma group_ok_ext tabs tabs' g : (forall id, member tabs' (tg_id g) id <-> member tabs (tg_id g) id) -> group_ok tabs g -> group_ok tabs' g.
Proof. intros H [? Hm ? ? ?]. split; [done| |done..]. intros id. rewrite H. apply Hm. Qed.

Lemma member_map (f : Tab -> Tab) tabs groupId id : (forall t, tab_id (f t) = tab_id t) -> (forall t, tab_groupId (f t) = tab_groupId t) ->
  member (f <$> tabs) groupId id <-> member tabs groupId id.
Proof.
  intros Hid Hg. unfold member. split.
  - intros (t & (t' & -> & Ht)%list_elem_of_fmap & H1 & H2). exists t'. rewrite <- Hid, <- Hg. auto.
  - intros (t & Ht & H1 & H2). exists (f t). rewrite Hid, Hg. split; [apply list_elem_of_fmap; eauto | auto].
Qed.

Lemma member_without tabs groupId id tabId :
  member (List.filter (fun t => negb (same (tab_id t) tabId)) tabs) groupId id <-> id <> tabId /\ member tabs groupId id.
Proof.
  unfold member. setoid_rewrite elem_of_filter. split.
  - intros (t & [Hn Ht] & <- & Hg). apply negb_true_iff in Hn. ids. split; [done|]. by exists t.
  - intros [Hn (t & Ht & <- & Hg)]. exists t. split; [|done]. split; [|done]. apply negb_true_iff. by apply same_false.
Qed.

Lemma member_snoc tabs created groupId id :
  member (tabs ++ [created]) groupId id <-> member tabs groupId id \/ (id = tab_id created /\ groupId = tab_groupId created).
Proof.
  unfold member. setoid_rewrite elem_of_app. setoid_rewrite list_elem_of_singleton. split.
  - intros (t & [Ht| ->] & <- & <-); [left; by exists t | by right].
  - intros [(t & Ht & H1 & H2)|[-> ->]]; [exists t; auto | exists created; auto].
Qed.

Lemma member_moved tabs tabId target groupId id : (exists t, t ∈ tabs /\ tab_id t = tabId) ->
  member ((fun candidate => if same (tab_id candidate) tabId then with_group target candidate else candidate) <$> tabs) groupId id <->
  if decide (id = tabId) then groupId = target else member tabs groupId id.
Proof.
  intros (t0 & Ht0 & E0). unfold member. split.
  - intros (t & (t' & -> & Ht)%list_elem_of_fmap & H1 & H2). destruct (same (tab_id t') tabId) eqn:E; ids; cbn in H1, H2; subst.
    + rewrite E. by rewrite decide_True.
    + rewrite decide_False by done. by exists t'.
  - case_decide as Hid.
    + subst id. intros ->. exists (with_group target t0). split; [|done]. apply list_elem_of_fmap. exists t0. by rewrite E0, same_refl.
    + intros (t & Ht & H1 & H2). exists t. split; [|done]. apply list_elem_of_fmap. exists t. split; [|done].
      destruct (same (tab_id t) tabId) eqn:E; ids; [congruence | done].
Qed.

(** The members of a group that loses or gains a tab. *)
Lemma group_ok_leave tabs tabs' g tabId sourceOrder active recent : group_ok tabs g -> tabId ∈ tg_tabOrder g ->
  sourceOrder = without tabId (tg_tabOrder g) ->
  (forall id, member tabs' (tg_id g) id <-> id <> tabId /\ member tabs (tg_id g) id) ->
  active = (if bool_decide (tg_activeTabId g = Some tabId) then pickNextActiveTab (tg_tabOrder g) (tg_recentTabIds g) tabId else tg_activeTabId g) ->
  recent = sanitizeRecentTabIds (Some (without tabId (default [] (tg_recentTabIds g)))) sourceOrder ->
  group_ok tabs' (mkGroup (tg_id g) (tg_worktreeId g) active sourceOrder (Some recent)).
Proof.
  intros [Ho Hm Hs Hr Hri] Hin -> Hm' -> ->. split; cbn [tg_tabOrder tg_id tg_activeTabId tg_recentTabIds default].
  - by apply without_nodup.
  - intros id. rewrite elem_of_without, Hm', Hm. done.
  - case_bool_decide as Ha.
    + pose proof (pickNextActiveTab_ok _ (tg_recentTabIds g) _ Ho Hin) as Hp. destruct (pickNextActiveTab _ _ _) as [next|].
      * destruct Hp. by apply elem_of_without.
      * rewrite Hp. apply without_self.
    + destruct (tg_activeTabId g) as [active|]; [|by rewrite Hs]. apply elem_of_without. split; [congruence | done].
  - apply sanitize_nodup.
  - intros id H. unfold Datatypes.id in H. by apply sanitize_elem in H as [_ H].
Qed.
