(* ===== verification/TabInvariant.v ===== *)
(** The invariant of the tab store, operation by operation ([TabActions.v]): in each worktree
    every tab is in exactly one group, in its order and nowhere else, the layout has each
    group once, and what is on show is there. *)

From stdpp Require Import base list sets strings.
From Stdlib Require Import ZArith Lia ZifyBool SpecFloat.
From S2P Require Import Prelude JsText JsRecord Json.
From S2P Require Import KeySyntax.
From S2P Require Import TabModel.
From S2P Require Import TabStore.
From S2P Require Import TabActions.
From S2P Require Import TabLaws.

Open Scope Z_scope.

#[local] Set Warnings "-clear-no-such-hyp".

Definition group_ids (groups : list TabGroup) : list jsstring := tg_id <$> groups.

Definition layout_ok (layout : option TabGroupLayoutNode) (ids : list jsstring) : Prop :=
  match layout with Some layout => leaves layout ≡ₚ ids | None => ids = [] end.

Definition active_ok (active : option jsstring) (ids : list jsstring) : Prop := ids <> [] -> exists id, active = Some id /\ id ∈ ids.

Record worktree_ok (wt : Worktree) : Prop := {
  wk_tabs : NoDup (tab_id <$> tabs_of wt);
  wk_groups : NoDup (group_ids (groups_of wt));
  wk_home : forall t, t ∈ tabs_of wt -> tab_groupId t ∈ group_ids (groups_of wt);
  wk_ok : forall g, g ∈ groups_of wt -> group_ok (tabs_of wt) g;
  wk_layout : layout_ok (wt_layout wt) (group_ids (groups_of wt));
  wk_active : active_ok (wt_active wt) (group_ids (groups_of wt))
}.

Lemma tabs_of_some tabs groups active layout : tabs_of (mkWorktree (Some tabs) groups active layout) = tabs.
Proof. done. Qed.

Lemma groups_of_some tabs groups active layout : groups_of (mkWorktree tabs (Some groups) active layout) = groups.
Proof. done. Qed.

(** Reads the fields of a worktree that is written out. *)
Ltac fields := rewrite ?tabs_of_some, ?groups_of_some; cbn [wt_layout wt_active].

(** ** Lookups *)

Lemma find_tab_some id tabs t : find_tab id tabs = Some t -> t ∈ tabs /\ tab_id t = id.
Proof. intros H. apply List.find_some in H as [H1 H2]. ids. by rewrite list_elem_of_In. Qed.

Lemma find_tab_none id tabs : find_tab id tabs = None -> id ∉ (tab_id <$> tabs).
Proof. intros H (t & -> & Ht)%list_elem_of_fmap. apply list_elem_of_In in Ht. pose proof (List.find_none _ _ H t Ht) as E. cbn in E. by rewrite same_refl in E. Qed.

Lemma find_group_some id groups g : find_group id groups = Some g -> g ∈ groups /\ tg_id g = id.
Proof. intros H. apply List.find_some in H as [H1 H2]. ids. by rewrite list_elem_of_In. Qed.

Lemma find_group_none id groups : find_group id groups = None -> id ∉ group_ids groups.
Proof. intros H (g & -> & Hg)%list_elem_of_fmap. apply list_elem_of_In in Hg. pose proof (List.find_none _ _ H g Hg) as E. cbn in E. by rewrite same_refl in E. Qed.

Lemma group_id_in g groups : g ∈ groups -> tg_id g ∈ group_ids groups.
Proof. intros H. apply list_elem_of_fmap. by exists g. Qed.

Lemma nodup_inj {A} (f : A -> jsstring) l x y : NoDup (f <$> l) -> x ∈ l -> y ∈ l -> f x = f y -> x = y.
Proof.
  induction l as [|z l IH]; [intros _ H; by apply not_elem_of_nil in H|]. cbn. intros [Hz Hn]%NoDup_cons [->|Hx]%elem_of_cons [->|Hy]%elem_of_cons E; auto.
  - exfalso. apply Hz. rewrite E. apply list_elem_of_fmap. eauto.
  - exfalso. apply Hz. rewrite <- E. apply list_elem_of_fmap. eauto.
Qed.

(** Two groups with the same id, or with a common tab, are one. *)
Lemma group_inj wt g g' : worktree_ok wt -> g ∈ groups_of wt -> g' ∈ groups_of wt -> tg_id g = tg_id g' -> g = g'.
Proof. intros Hok. by apply nodup_inj, wk_groups. Qed.

Lemma tab_inj wt t t' : worktree_ok wt -> t ∈ tabs_of wt -> t' ∈ tabs_of wt -> tab_id t = tab_id t' -> t = t'.
Proof. intros Hok. by apply nodup_inj, wk_tabs. Qed.

(** ** Changes of the groups *)

(** A change of every group that keeps the ids. *)
Lemma group_ids_map f groups : (forall g, g ∈ groups -> tg_id (f g) = tg_id g) -> group_ids (f <$> groups) = group_ids groups.
Proof. intros H. unfold group_ids. rewrite <- list_fmap_compose. apply list_fmap_ext. intros ? g Hg. apply H. by eapply list_elem_of_lookup_2. Qed.

Lemma group_ids_update groups g : group_ids (updateGroup groups g) = group_ids groups.
Proof. unfold updateGroup. apply group_ids_map. intros h _. destruct (same (tg_id h) (tg_id g)) eqn:E; ids; congruence. Qed.

Lemma group_ids_filter groups id : group_ids (List.filter (fun g => negb (same (tg_id g) id)) groups) = without id (group_ids groups).
Proof.
  unfold group_ids, without. induction groups as [|g groups IH]; cbn; [done|]. destruct (same (tg_id g) id); cbn; by rewrite IH.
Qed.

Lemma tab_ids_map f (tabs : list Tab) : (forall t, tab_id (f t) = tab_id t) -> tab_id <$> (f <$> tabs) = tab_id <$> tabs.
Proof. intros H. rewrite <- list_fmap_compose. apply list_fmap_ext. intros. apply H. Qed.

Lemma tab_ids_filter (tabs : list Tab) id : tab_id <$> List.filter (fun t => negb (same (tab_id t) id)) tabs = without id (tab_id <$> tabs).
Proof. unfold without. induction tabs as [|t tabs IH]; cbn; [done|]. destruct (same (tab_id t) id); cbn; by rewrite IH. Qed.

(** The groups change one by one, the ids and the layout stay: what is left to show is that
    the tabs have a home and the groups are well formed. *)
Lemma regroup_ok wt tabs f active : worktree_ok wt -> (forall g, g ∈ groups_of wt -> tg_id (f g) = tg_id g) ->
  NoDup (tab_id <$> tabs) -> (forall t, t ∈ tabs -> tab_groupId t ∈ group_ids (groups_of wt)) ->
  (forall g, g ∈ groups_of wt -> group_ok tabs (f g)) -> active_ok active (group_ids (groups_of wt)) ->
  worktree_ok (mkWorktree (Some tabs) (Some (f <$> groups_of wt)) active (wt_layout wt)).
Proof.
  intros [? ? ? ? ? ?] Hf Hn Hhome Hgroups Hactive.
  split; fields; rewrite ?group_ids_map by done; try done.
  intros g (g' & -> & Hg)%list_elem_of_fmap. by apply Hgroups.
Qed.

(** One group goes, others change one by one: its leaf goes from the layout. *)
Lemma collapse_ok wt tabs f gone active fallback : worktree_ok wt -> gone ∈ groups_of wt -> (forall g, g ∈ groups_of wt -> tg_id (f g) = tg_id g) ->
  NoDup (tab_id <$> tabs) -> (forall t, t ∈ tabs -> tab_groupId t ∈ group_ids (groups_of wt) /\ tab_groupId t <> tg_id gone) ->
  (forall g, g ∈ groups_of wt -> g <> gone -> group_ok tabs (f g)) ->
  let groups := List.filter (fun g => negb (same (tg_id g) (tg_id gone))) (f <$> groups_of wt) in
  let '(layout, active) := collapseGroupLayout (wt_layout wt) active (tg_id gone) fallback in
  worktree_ok (mkWorktree (Some tabs) (Some groups) active layout).
Proof.
  intros Hok Hgone Hf Hn Hhome Hgroups groups. destruct Hok as [Ht Hg Hh Hk Hl Ha]. unfold collapseGroupLayout.
  pose proof (group_id_in _ _ Hgone) as Hin.
  destruct (wt_layout wt) as [layout|] eqn:El; [|cbn in Hl; rewrite Hl in Hin; by apply not_elem_of_nil in Hin]. cbn in Hl.
  assert (Hnl : NoDup (leaves layout)) by (by rewrite Hl).
  assert (Hids : group_ids groups = without (tg_id gone) (group_ids (groups_of wt))).
  { unfold groups. rewrite group_ids_filter, group_ids_map by done. done. }
  split; fields; rewrite ?Hids; try done.
  - by apply without_nodup.
  - intros t Hin'. rewrite elem_of_without. destruct (Hhome t Hin'). done.
  - intros g Hg'. unfold groups in Hg'. apply elem_of_filter in Hg' as [Hne (g' & -> & Hg')%list_elem_of_fmap].
    apply Hgroups; [done|]. intros ->. rewrite Hf, same_refl in Hne by done. done.
  - pose proof (removeLeaf_leaves layout (tg_id gone) Hnl) as Hr. destruct (removeLeaf layout (tg_id gone)) as [rest|]; cbn.
    + rewrite Hr. by rewrite Hl.
    + subst layout. cbn in Hl. apply Permutation_singleton_l in Hl. rewrite <- Hl. apply without_self.
  - intros Hne. destruct (findSibling_leaf layout (tg_id gone)) as (sibling & -> & Hs & Hs'); [done | by rewrite Hl | |].
    + intros ->. cbn in Hl. apply Permutation_singleton_l in Hl. rewrite <- Hl, without_self in Hne. done.
    + exists sibling. split; [done|]. apply elem_of_without. split; [done|]. by rewrite <- Hl.
Qed.

(** One group joins at a leaf of the layout, others change one by one. *)
Lemma join_ok wt tabs f new beside direction active : worktree_ok wt -> (forall g, g ∈ groups_of wt -> tg_id (f g) = tg_id g) ->
  tg_id new ∉ group_ids (groups_of wt) -> beside ∈ group_ids (groups_of wt) ->
  NoDup (tab_id <$> tabs) -> (forall t, t ∈ tabs -> tab_groupId t ∈ group_ids (groups_of wt) ++ [tg_id new]) ->
  (forall g, g ∈ groups_of wt -> group_ok tabs (f g)) -> group_ok tabs new ->
  active_ok active (group_ids (groups_of wt) ++ [tg_id new]) ->
  worktree_ok (mkWorktree (Some tabs) (Some ((f <$> groups_of wt) ++ [new])) active (Some (split_beside (wt_layout wt) beside (tg_id new) direction))).
Proof.
  intros [Ht Hg Hh Hk Hl Ha] Hf Hnew Hbeside Hn Hhome Hgroups Hnewok Hactive.
  assert (Hids : group_ids ((f <$> groups_of wt) ++ [new]) = group_ids (groups_of wt) ++ [tg_id new]).
  { unfold group_ids. rewrite fmap_app. cbn. f_equal. by apply group_ids_map. }
  split; fields; rewrite ?Hids; try done.
  - apply NoDup_app. split; [done|]. split; [intros x Hx ->%list_elem_of_singleton; done | apply NoDup_singleton].
  - intros g [(g' & -> & Hg')%list_elem_of_fmap|Hg']%elem_of_app; [by apply Hgroups|]. apply list_elem_of_singleton in Hg' as ->. done.
  - unfold split_beside. destruct (wt_layout wt) as [layout|]; cbn in Hl |- *; [|rewrite Hl in Hbeside; by apply not_elem_of_nil in Hbeside].
    unfold Datatypes.id. rewrite leaves_split by (by rewrite Hl). rewrite Hl. apply Permutation_cons_append.
Qed.

(** ** The operations on a worktree *)

Lemma active_ok_in id ids : id ∈ ids -> active_ok (Some id) ids.
Proof. intros H _. by exists id. Qed.

Lemma activate_ok wt t preserve : worktree_ok wt -> t ∈ tabs_of wt -> worktree_ok (activate_in t preserve wt).
Proof.
  intros Hok Ht. pose proof Hok as [Hn Hg Hh Hk Hl Ha].
  set (tabs := if preserve then tabs_of wt else (fun item => if same (tab_id item) (tab_id t) then with_flags (Some false) (tab_isPinned item) item else item) <$> tabs_of wt).
  assert (Hids : tab_id <$> tabs = tab_id <$> tabs_of wt).
  { unfold tabs. destruct preserve; [done|]. apply tab_ids_map. intros x. by destruct (same _ _). }
  assert (Hm : forall g id, member tabs g id <-> member (tabs_of wt) g id).
  { intros g id. unfold tabs. destruct preserve; [done|]. apply member_map; intros x; by destruct (same _ _). }
  assert (Hhome : forall x, x ∈ tabs -> tab_groupId x ∈ group_ids (groups_of wt)).
  { intros x Hx. destruct (proj1 (Hm (tab_groupId x) (tab_id x))) as (y & Hy & _ & <-); [by exists x | by apply Hh]. }
  assert (Hgroups : forall g, g ∈ groups_of wt -> group_ok tabs
     (if same (tg_id g) (tab_groupId t)
      then mkGroup (tg_id g) (tg_worktreeId g) (Some (tab_id t)) (tg_tabOrder g)
             (Some (pushRecentTabId (Some (sanitizeRecentTabIds (tg_recentTabIds g) (tg_tabOrder g))) (tab_id t)))
      else g)).
  { intros g Hg'. pose proof (group_ok_ext _ tabs _ (Hm (tg_id g)) (Hk g Hg')) as [Ho Hmem Hs Hr Hri].
    destruct (same (tg_id g) (tab_groupId t)) eqn:E; [ids|by split].
    assert (tab_id t ∈ tg_tabOrder g) by (apply Hmem, Hm; by exists t).
    split; cbn; unfold Datatypes.id; [done | done | done | apply push_nodup, sanitize_nodup|].
    intros id [->|H']%push_elem_some; [done|]. by apply sanitize_elem in H' as [_ ?]. }
  assert (Hids' : forall g, g ∈ groups_of wt -> tg_id (if same (tg_id g) (tab_groupId t)
      then mkGroup (tg_id g) (tg_worktreeId g) (Some (tab_id t)) (tg_tabOrder g)
             (Some (pushRecentTabId (Some (sanitizeRecentTabIds (tg_recentTabIds g) (tg_tabOrder g))) (tab_id t)))
      else g) = tg_id g) by (intros g _; by destruct (same _ _)).
  pose proof (regroup_ok wt tabs _ (Some (tab_groupId t)) Hok Hids' ltac:(by rewrite Hids) Hhome Hgroups (active_ok_in _ _ (Hh t Ht))) as H.
  unfold activate_in. unfold tabs in H. destruct preserve; [|exact H]. destruct H as [? ? ? ? ? ?]. by split.
Qed.

Lemma order_without_same tabId g : NoDup (tg_tabOrder g) -> order_without tabId g = without tabId (tg_tabOrder g).
Proof. intros H. unfold order_without. rewrite (dedupe_same (tg_tabOrder g)) by done. by apply dedupe_same, without_nodup. Qed.

(** A tab is in one group only. *)
Lemma member_home wt t groupId : worktree_ok wt -> t ∈ tabs_of wt -> member (tabs_of wt) groupId (tab_id t) -> groupId = tab_groupId t.
Proof. intros Hok Ht (t' & Ht' & E & <-). by rewrite (tab_inj wt t' t Hok Ht' Ht E). Qed.

(** The group a tab leaves. *)
Lemma leave_ok wt t g tabs : worktree_ok wt -> t ∈ tabs_of wt -> g ∈ groups_of wt -> tg_id g = tab_groupId t ->
  (forall id, member tabs (tg_id g) id <-> id <> tab_id t /\ member (tabs_of wt) (tg_id g) id) ->
  group_ok tabs (leave_group g (tab_id t) (order_without (tab_id t) g) g).
Proof.
  intros Hok Ht Hg E Hm. pose proof (wk_ok _ Hok g Hg) as Hgk. unfold leave_group. pose proof (gk_order _ _ Hgk) as Ho.
  eapply group_ok_leave; [exact Hgk | | by apply order_without_same | exact Hm | by rewrite dedupe_same | done].
  apply (gk_member _ _ Hgk). exists t. auto.
Qed.

(** A group the tab does not touch. *)
Lemma untouched_ok wt t g tabs : worktree_ok wt -> t ∈ tabs_of wt -> g ∈ groups_of wt -> tg_id g <> tab_groupId t ->
  (forall id, id <> tab_id t -> member tabs (tg_id g) id <-> member (tabs_of wt) (tg_id g) id) -> ~ member tabs (tg_id g) (tab_id t) ->
  group_ok tabs g.
Proof.
  intros Hok Ht Hg E Hm Hn. eapply group_ok_ext; [|by apply (wk_ok _ Hok)]. intros id. destruct (decide (id = tab_id t)) as [->|]; [|by apply Hm].
  split; [done|]. intros H. apply (member_home wt t _ Hok Ht) in H. done.
Qed.

Lemma close_ok wt t g : worktree_ok wt -> t ∈ tabs_of wt -> g ∈ groups_of wt -> tg_id g = tab_groupId t -> worktree_ok (close_in t g wt).
Proof.
  intros Hok Ht Hg E. pose proof (wk_ok _ Hok g Hg) as Hgk.
  set (tabs := List.filter (fun item => negb (same (tab_id item) (tab_id t))) (tabs_of wt)).
  set (f := fun candidate => if same (tg_id candidate) (tg_id g) then leave_group g (tab_id t) (order_without (tab_id t) g) candidate else candidate).
  assert (Hf : forall candidate, candidate ∈ groups_of wt -> tg_id (f candidate) = tg_id candidate) by (intros c _; unfold f; by destruct (same _ _)).
  assert (Hn : NoDup (tab_id <$> tabs)) by (unfold tabs; rewrite tab_ids_filter; apply without_nodup, (wk_tabs _ Hok)).
  assert (Hin : forall x, x ∈ tabs -> x ∈ tabs_of wt /\ tab_id x <> tab_id t).
  { intros x Hx. apply elem_of_filter in Hx as [Hx ?]. apply negb_true_iff in Hx. ids. done. }
  assert (Hgroups : forall c, c ∈ groups_of wt -> group_ok tabs (f c)).
  { intros c Hc. unfold f. destruct (same (tg_id c) (tg_id g)) eqn:Es; ids.
    - rewrite (group_inj wt c g Hok Hc Hg Es). apply (leave_ok wt); [done..|]. intros id. apply member_without.
    - apply (untouched_ok wt t); [done|done|done|congruence| |].
      + intros id Hid. unfold tabs. rewrite member_without. tauto.
      + unfold tabs. rewrite member_without. tauto. }
  assert (Hshape : (fun candidate => if same (tg_id candidate) (tg_id g)
                    then mkGroup (tg_id candidate) (tg_worktreeId candidate)
                           (if bool_decide (tg_activeTabId g = Some (tab_id t))
                            then if match order_without (tab_id t) g with [] => true | _ => false end then None
                                 else pickNextActiveTab (dedupeTabOrder (tg_tabOrder g)) (tg_recentTabIds g) (tab_id t)
                            else tg_activeTabId g) (order_without (tab_id t) g)
                           (Some (sanitizeRecentTabIds (Some (without (tab_id t) (default [] (tg_recentTabIds g)))) (order_without (tab_id t) g)))
                    else candidate) <$> groups_of wt = f <$> groups_of wt).
  { apply list_fmap_ext. intros i c Hc%list_elem_of_lookup_2. unfold f. destruct (same (tg_id c) (tg_id g)) eqn:Es; [ids|done].
    rewrite (group_inj wt c g Hok Hc Hg Es). unfold leave_group. f_equal. case_bool_decide; [|done].
    destruct (order_without (tab_id t) g) eqn:Eo; [|done]. rewrite order_without_same in Eo by apply (gk_order _ _ Hgk).
    rewrite dedupe_same by apply (gk_order _ _ Hgk). assert (Hi : tab_id t ∈ tg_tabOrder g) by (apply (gk_member _ _ Hgk); exists t; auto).
    pose proof (pickNextActiveTab_ok _ (tg_recentTabIds g) _ (gk_order _ _ Hgk) Hi) as Hp. destruct (pickNextActiveTab _ _ _) as [next|]; [|done].
    destruct Hp as [Hp1 Hp2]. assert (next ∈ without (tab_id t) (tg_tabOrder g)) as Hj by by apply elem_of_without.
    rewrite Eo in Hj. by apply not_elem_of_nil in Hj. }
  unfold close_in. rewrite Hshape. fold tabs.
  assert (Hkeep : worktree_ok (mkWorktree (Some tabs) (Some (f <$> groups_of wt)) (wt_active wt) (wt_layout wt))).
  { apply regroup_ok; [done..| |done|apply (wk_active _ Hok)]. intros x Hx. apply (wk_home _ Hok). by apply Hin. }
  destruct (wt_layout wt) as [layout|] eqn:El; [|exact Hkeep]. destruct (order_without (tab_id t) g) as [|first rest] eqn:Eo; [|exact Hkeep].
  cbn [andb]. destruct (_ <? _)%nat; [|exact Hkeep].
  pose proof (collapse_ok wt tabs f g (wt_active wt)
    (option_map tg_id (head (List.filter (fun candidate => negb (same (tg_id candidate) (tg_id g))) (f <$> groups_of wt)))) Hok Hg Hf Hn) as Hc.
  rewrite El in Hc. cbn zeta in Hc. destruct (collapseGroupLayout _ _ _ _) as [layout' active']. apply Hc; [|auto].
  intros x Hx. destruct (Hin x Hx) as [Hx' Hne]. split; [by apply (wk_home _ Hok)|]. intros Ex.
  assert (tab_id x ∈ without (tab_id t) (tg_tabOrder g)) as Hx2.
  { apply elem_of_without. split; [done|]. apply (gk_member _ _ Hgk). exists x. auto. }
  rewrite order_without_same in Eo by apply (gk_order _ _ Hgk). rewrite Eo in Hx2. by apply not_elem_of_nil in Hx2.
Qed.

(** ** Creating a tab *)

Lemma ensure_cases wt worktreeId preferred newGroupId g groups active :
  ensureGroup (wt_groups wt) (wt_active wt) worktreeId preferred newGroupId = (g, groups, active) ->
  (g ∈ groups_of wt /\ groups = wt_groups wt /\ active = wt_active wt) \/
  (groups_of wt = [] /\ g = mkGroup newGroupId worktreeId None [] None /\ groups = Some [g] /\ active = Some newGroupId).
Proof.
  unfold ensureGroup. fold (groups_of wt).
  destruct (match preferred with Some id => find_group id (groups_of wt) | None => None end) as [h|] eqn:E.
  - intros [= <- <- <-]. left. destruct preferred as [id|]; [|done]. by apply find_group_some in E as [? _].
  - destruct (groups_of wt) as [|h rest] eqn:Eg; cbn; intros [= <- <- <-]; [by right|]. left. split; [by left | done].
Qed.

(** The group that receives a new tab, after the preview it replaces is gone. *)
Lemma receive_ok tabs tabs' g id kept active recent : group_ok tabs g -> NoDup kept -> id ∉ kept ->
  (forall x, x ∈ kept <-> member tabs' (tg_id g) x /\ x <> id) -> member tabs' (tg_id g) id ->
  match active with Some a => a ∈ kept ++ [id] | None => False end ->
  NoDup recent -> (forall x, x ∈ recent -> x ∈ kept ++ [id]) ->
  group_ok tabs' (mkGroup (tg_id g) (tg_worktreeId g) active (dedupeTabOrder (kept ++ [id])) (Some recent)).
Proof.
  intros Hg Hk Hid Hm Hmid Ha Hr Hri.
  assert (Hn : NoDup (kept ++ [id])) by (apply NoDup_app; split; [done|]; split; [intros x Hx ->%list_elem_of_singleton; done | apply NoDup_singleton]).
  rewrite dedupe_same by done. split; cbn [tg_tabOrder tg_id tg_activeTabId tg_recentTabIds]; [done| | |done|done].
  - intros x. rewrite elem_of_app, list_elem_of_singleton, Hm. destruct (decide (x = id)) as [->|]; tauto.
  - by destruct active.
Qed.

Lemma create_ok wt worktreeId id newGroupId contentType now init : worktree_ok wt -> id ∉ (tab_id <$> tabs_of wt) ->
  (ti_isPreview init = Some true -> ti_activate init <> Some false) ->
  worktree_ok (fst (create_in wt worktreeId id newGroupId contentType now init)).
Proof.
  intros Hok Hid Hshown. unfold create_in. destruct (ensureGroup _ _ _ _ _) as [[g groups] active] eqn:E.
  apply ensure_cases in E. set (preview := replaced_preview (tg_id g) contentType init (tabs_of wt)). cbn [fst].
  set (tabs1 := match preview with Some p => List.filter (fun t => negb (same (tab_id t) (tab_id p))) (tabs_of wt) | None => tabs_of wt end).
  set (kept := match preview with Some p => without (tab_id p) (dedupeTabOrder (tg_tabOrder g)) | None => dedupeTabOrder (tg_tabOrder g) end).
  set (created := new_tab id (tg_id g) worktreeId contentType _ _ now init).
  set (recent := if default true (ti_activate init) then pushRecentTabId (Some (sanitizeRecentTabIds (tg_recentTabIds g) (dedupeTabOrder (kept ++ [id])))) id
                 else sanitizeRecentTabIds (tg_recentTabIds g) (dedupeTabOrder (kept ++ [id]))).
  assert (Hrecent : NoDup recent /\ forall x, x ∈ recent -> x ∈ kept ++ [id]).
  { unfold recent. destruct (default true (ti_activate init)); split.
    - apply push_nodup, sanitize_nodup.
    - intros x [->|Hx]%push_elem_some; [apply elem_of_app; right; by left|]. apply sanitize_elem in Hx as [_ Hx]. by rewrite dedupe_elem in Hx.
    - apply sanitize_nodup.
    - intros x [_ Hx]%sanitize_elem. by rewrite dedupe_elem in Hx. }
  destruct Hrecent as [Hr1 Hr2].
  assert (Hpreview : forall p, preview = Some p -> p ∈ tabs_of wt /\ tab_groupId p = tg_id g /\ default true (ti_activate init) = true).
  { intros p Hp. unfold preview, replaced_preview in Hp. destruct (holds (ti_isPreview init)) eqn:Eh; [|done].
    apply List.find_some in Hp as [Hp1 Hp2]. rewrite !andb_true_iff in Hp2. destruct Hp2 as [[Hp2 _] _]. ids. rewrite list_elem_of_In. split; [done|]. split; [done|].
    destruct (ti_isPreview init) as [[]|]; cbn in Eh; try done. destruct (ti_activate init) as [[]|]; cbn; try done. exfalso. by apply (Hshown eq_refl). }
  assert (Hmem : forall c x, member (tabs1 ++ [created]) c x <->
            (member (tabs_of wt) c x /\ match preview with Some p => x <> tab_id p | None => True end) \/ (x = id /\ c = tg_id g)).
  { intros c x. rewrite member_snoc. unfold tabs1. destruct preview as [p|]; [rewrite member_without|]; cbn; tauto. }
  assert (Hfresh : forall c, ~ member (tabs_of wt) c id).
  { intros c (t & Ht & Et & _). apply Hid. apply list_elem_of_fmap. by exists t. }
  assert (Hnodup : NoDup (tab_id <$> (tabs1 ++ [created]))).
  { rewrite fmap_app. apply NoDup_app. cbn. unfold tabs1. destruct preview as [p|]; rewrite ?tab_ids_filter.
    - split; [apply without_nodup, (wk_tabs _ Hok)|]. split; [|apply NoDup_singleton]. intros x [_ Hx]%elem_of_without ->%list_elem_of_singleton. done.
    - split; [apply (wk_tabs _ Hok)|]. split; [|apply NoDup_singleton]. intros x Hx ->%list_elem_of_singleton. done. }
  destruct E as [(Hg & -> & ->)|(Hempty & -> & -> & ->)].
  - pose proof (wk_ok _ Hok g Hg) as Hgk. pose proof (gk_order _ _ Hgk) as Ho.
    assert (Hkept : NoDup kept /\ (id ∉ kept) /\ forall x, x ∈ kept <-> member (tabs_of wt) (tg_id g) x /\ match preview with Some p => x <> tab_id p | None => True end).
    { unfold kept. rewrite dedupe_same by done. pose proof (gk_member _ _ Hgk) as Hmo. destruct preview as [p|].
      - split; [by apply without_nodup|]. split; [rewrite elem_of_without, Hmo; by intros [_ ?%Hfresh]|]. intros x. rewrite elem_of_without, Hmo. tauto.
      - split; [done|]. split; [rewrite Hmo; apply Hfresh|]. intros x. rewrite Hmo. tauto. }
    destruct Hkept as (Hk1 & Hk2 & Hk3).
    assert (Hlayout : or_else (wt_layout wt) (Some (leaf (tg_id g))) = wt_layout wt).
    { pose proof (wk_layout _ Hok) as Hl. destruct (wt_layout wt); [done|]. cbn in Hl. pose proof (group_id_in _ _ Hg) as Hi. rewrite Hl in Hi. by apply not_elem_of_nil in Hi. }
    rewrite Hlayout. fold (groups_of wt). unfold updateGroup. apply regroup_ok; [done| |done| | |apply (wk_active _ Hok)].
    + intros c _. destruct (same _ _) eqn:Es; ids; cbn in *; congruence.
    + intros t [Ht|Ht]%elem_of_app; [|apply list_elem_of_singleton in Ht as ->; by apply group_id_in].
      apply (wk_home _ Hok). unfold tabs1 in Ht. destruct preview; [by apply elem_of_filter in Ht as [_ ?] | done].
    + intros c Hc. cbn [tg_id]. destruct (same (tg_id c) (tg_id g)) eqn:Es; ids.
      * apply (receive_ok (tabs_of wt)); [done|done|done| | |  |done|done].
        -- intros x. rewrite Hk3, Hmem. split; [intros Hx; split; [tauto|]; intros ->; by apply (Hfresh (tg_id g)), Hx | intros [[?|[? _]] ?]; [done | congruence]].
        -- rewrite Hmem. by right.
        -- destruct (default true (ti_activate init)) eqn:Ea; [apply elem_of_app; right; by left|].
           destruct (tg_activeTabId g) as [a|] eqn:Eact; cbn; [|apply elem_of_app; right; by left].
           apply elem_of_app. left. pose proof (gk_shown _ _ Hgk) as Hs. rewrite Eact in Hs. apply Hk3. split; [by apply (gk_member _ _ Hgk)|].
           destruct preview as [p|] eqn:Ep; [|done]. destruct (Hpreview p eq_refl) as (_ & _ & ?). congruence.
      * eapply group_ok_ext; [|by apply (wk_ok _ Hok)]. intros x. rewrite Hmem. split.
        -- intros [[? _]|[_ ?]]; [done | congruence].
        -- intros Hx. left. split; [done|]. destruct preview as [p|] eqn:Ep; [|done]. intros ->. destruct (Hpreview p eq_refl) as (Hp & Hpg & _).
           apply (member_home wt p _ Hok Hp) in Hx. congruence.
  - assert (Htabs : tabs_of wt = []).
    { destruct (tabs_of wt) as [|t rest] eqn:Et; [done|]. pose proof (wk_home _ Hok t) as Hh. rewrite Et, Hempty in Hh. cbn in Hh. specialize (Hh ltac:(by left)). by apply not_elem_of_nil in Hh. }
    assert (Hl : wt_layout wt = None).
    { pose proof (wk_layout _ Hok) as Hl. rewrite Hempty in Hl. destruct (wt_layout wt) as [l|]; [|done]. cbn in Hl. apply Permutation_nil_r in Hl. by apply tab_leaves_nonempty in Hl. }
    assert (Hp : preview = None) by (unfold preview, replaced_preview; rewrite Htabs; by destruct (holds _)).
    assert (Hd : dedupeTabOrder [id] = [id]) by (apply dedupe_same, NoDup_singleton).
    rewrite Hl. unfold kept, recent, tabs1 in *. rewrite Hp in *. rewrite Htabs in *.
    change (dedupeTabOrder (tg_tabOrder (mkGroup newGroupId worktreeId None [] None)) ++ [id]) with [id] in *. rewrite Hd in *. cbn in *. rewrite same_refl. cbn.
    split; fields; cbn; [done|apply NoDup_singleton|intros t ->%list_elem_of_singleton; by left| |done|by exists newGroupId; split; [|left]].
    intros c ->%list_elem_of_singleton. split; cbn; [apply NoDup_singleton| | |done|].
    + intros x. rewrite list_elem_of_singleton. specialize (Hmem newGroupId x). unfold member in *. setoid_rewrite elem_of_nil in Hmem. rewrite Hmem. naive_solver.
    + destruct (default true (ti_activate init)); by left.
    + unfold Datatypes.id. intros x Hx. by apply Hr2 in Hx.
Qed.

(** ** Tabs in place *)

(** A change of the tabs that keeps their ids and groups, and orders that list the same tabs. *)
Lemma retab_ok wt (f : Tab -> Tab) (h : TabGroup -> TabGroup) : worktree_ok wt ->
  (forall t, tab_id (f t) = tab_id t) -> (forall t, tab_groupId (f t) = tab_groupId t) ->
  (forall g, g ∈ groups_of wt -> tg_id (h g) = tg_id g /\ tg_activeTabId (h g) = tg_activeTabId g /\ tg_recentTabIds (h g) = tg_recentTabIds g /\
     NoDup (tg_tabOrder (h g)) /\ forall id, id ∈ tg_tabOrder (h g) <-> id ∈ tg_tabOrder g) ->
  worktree_ok (mkWorktree (Some (f <$> tabs_of wt)) (Some (h <$> groups_of wt)) (wt_active wt) (wt_layout wt)).
Proof.
  intros Hok Hid Hgid Hh. apply regroup_ok; [done| | | | |apply (wk_active _ Hok)].
  - intros g Hg. by apply Hh.
  - rewrite tab_ids_map by done. apply (wk_tabs _ Hok).
  - intros t (t' & -> & Ht)%list_elem_of_fmap. rewrite Hgid. by apply (wk_home _ Hok).
  - intros g Hg. destruct (Hh g Hg) as (E1 & E2 & E3 & Hn & Hel). destruct (wk_ok _ Hok g Hg) as [Ho Hm Hs Hr Hri].
    split; rewrite ?E1, ?E2, ?E3; [done| | |done|].
    + intros id. rewrite Hel, member_map by done. apply Hm.
    + destruct (tg_activeTabId g); [by apply Hel|]. rewrite Hs in Hel. destruct (tg_tabOrder (h g)) as [|x rest]; [done|].
      pose proof (proj1 (Hel x) ltac:(by left)) as Hx. by apply not_elem_of_nil in Hx.
    + intros id Hi. apply Hel. by apply Hri.
Qed.

Lemma sort_values_map tabs tabOrder : exists f, applyTabOrderSortValues tabs tabOrder = f <$> tabs /\ (forall t, tab_id (f t) = tab_id t) /\ (forall t, tab_groupId (f t) = tab_groupId t).
Proof. eexists. split; [reflexivity|]. split; intros t; cbn; by destruct (order_index _ _ _). Qed.

(** A group that is replaced by one of the same id. *)
Lemma update_as_map wt g updated : worktree_ok wt -> g ∈ groups_of wt -> tg_id updated = tg_id g ->
  updateGroup (groups_of wt) updated = (fun c => if bool_decide (tg_id c = tg_id g) then updated else c) <$> groups_of wt.
Proof. intros Hok Hg E. unfold updateGroup, same. by rewrite E. Qed.

Lemma reorder_as_retab wt g tabs tabOrder : worktree_ok wt -> g ∈ groups_of wt -> NoDup tabOrder -> (forall id, id ∈ tabOrder <-> id ∈ tg_tabOrder g) ->
  (exists f, tabs = f <$> tabs_of wt /\ (forall t, tab_id (f t) = tab_id t) /\ (forall t, tab_groupId (f t) = tab_groupId t)) ->
  worktree_ok (mkWorktree (Some tabs)
    (Some (updateGroup (groups_of wt) (mkGroup (tg_id g) (tg_worktreeId g) (tg_activeTabId g) tabOrder (tg_recentTabIds g)))) (wt_active wt) (wt_layout wt)).
Proof.
  intros Hok Hg Hn Hel (f & -> & Hf1 & Hf2). rewrite (update_as_map wt g) by done. apply retab_ok; [done..|].
  intros c Hc. case_bool_decide as E; cbn; [|destruct (wk_ok _ Hok c Hc); auto].
  rewrite (group_inj wt c g Hok Hc Hg E). auto.
Qed.

Lemma reorder_ok wt g tabIds : worktree_ok wt -> g ∈ groups_of wt -> (forall id, id ∈ tabIds <-> id ∈ tg_tabOrder g) -> worktree_ok (reorder_in g tabIds wt).
Proof.
  intros Hok Hg Hel. unfold reorder_in, renumber. apply reorder_as_retab; [done|done|apply dedupe_nodup| |].
  - intros id. by rewrite dedupe_elem.
  - apply sort_values_map.
Qed.

Lemma patch_ok wt (f : Tab -> Tab) : worktree_ok wt -> (forall t, tab_id (f t) = tab_id t) -> (forall t, tab_groupId (f t) = tab_groupId t) ->
  worktree_ok (mkWorktree (Some (f <$> tabs_of wt)) (wt_groups wt) (wt_active wt) (wt_layout wt)).
Proof.
  intros Hok H1 H2. pose proof (retab_ok wt f (fun g => g) Hok H1 H2) as H. rewrite list_fmap_id in H.
  destruct H as [? ? ? ? ? ?]; [|by split]. intros g Hg. destruct (wk_ok _ Hok g Hg). auto.
Qed.

Lemma partition_elem tabOrder tabs id other : id ∈ tabOrder -> other ∈ partitionPinnedTabOrder tabOrder tabs id <-> other ∈ tabOrder.
Proof.
  intros Hid. unfold partitionPinnedTabOrder. rewrite !elem_of_app, list_elem_of_singleton, !elem_of_filter, !elem_of_without, dedupe_elem.
  destruct (decide (other = id)) as [->|]; [tauto|]. destruct (pinned_in tabs other); cbn; naive_solver.
Qed.

Lemma partition_nodup tabOrder tabs id : NoDup (partitionPinnedTabOrder tabOrder tabs id).
Proof.
  unfold partitionPinnedTabOrder. assert (Hw : NoDup (without id (dedupeTabOrder tabOrder))) by apply without_nodup, dedupe_nodup.
  apply NoDup_app. split; [by apply NoDup_filter|]. split.
  - intros x [Hp [Hx _]%elem_of_without]%elem_of_filter [->|[Hq _]%elem_of_filter]%elem_of_cons; [done|]. by rewrite Hp in Hq.
  - apply NoDup_cons. split; [|by apply NoDup_filter]. by intros [_ [? _]%elem_of_without]%elem_of_filter.
Qed.

Lemma pin_ok wt t pinned : worktree_ok wt -> t ∈ tabs_of wt -> worktree_ok (pin_in t pinned wt).
Proof.
  intros Hok Ht. unfold pin_in.
  set (p := fun candidate => if same (tab_id candidate) (tab_id t)
                             then with_flags (if pinned then Some false else tab_isPreview candidate) (Some pinned) candidate else candidate).
  assert (Hp1 : forall x, tab_id (p x) = tab_id x) by (intros x; unfold p; by destruct (same _ _)).
  assert (Hp2 : forall x, tab_groupId (p x) = tab_groupId x) by (intros x; unfold p; by destruct (same _ _)).
  destruct (find_group _ _) as [g|] eqn:E; [|by apply patch_ok]. apply find_group_some in E as [Hg Eg].
  destruct (sort_values_map (p <$> tabs_of wt) (partitionPinnedTabOrder (tg_tabOrder g) (p <$> tabs_of wt) (tab_id t))) as (f & -> & Hf1 & Hf2).
  rewrite <- list_fmap_compose. apply reorder_as_retab; [done|done|apply partition_nodup| |].
  - intros id. apply partition_elem. apply (gk_member _ _ (wk_ok _ Hok g Hg)). by exists t.
  - exists (f ∘ p). split; [done|]. split; intros x; cbn; by rewrite ?Hf1, ?Hf2.
Qed.

(** ** Groups *)

Lemma empty_group_ok tabs id worktreeId : (forall x, ~ member tabs id x) -> group_ok tabs (mkGroup id worktreeId None [] None).
Proof.
  intros H. split; cbn; [constructor| |done|constructor|intros x Hx; by apply not_elem_of_nil in Hx].
  intros x. split; [intros Hx; by apply not_elem_of_nil in Hx | intros Hx; by apply H in Hx].
Qed.

Lemma no_member wt id : worktree_ok wt -> id ∉ group_ids (groups_of wt) -> forall x, ~ member (tabs_of wt) id x.
Proof. intros Hok H x (t & Ht & _ & <-). by apply H, (wk_home _ Hok). Qed.

Lemma empty_wt wt : worktree_ok wt -> groups_of wt = [] -> tabs_of wt = [] /\ wt_layout wt = None.
Proof.
  intros Hok H. split.
  - destruct (tabs_of wt) as [|t rest] eqn:Et; [done|]. pose proof (wk_home _ Hok t) as Hh. rewrite Et, H in Hh.
    specialize (Hh ltac:(by left)). by apply not_elem_of_nil in Hh.
  - pose proof (wk_layout _ Hok) as Hl. rewrite H in Hl. destruct (wt_layout wt) as [l|]; [|done]. apply Permutation_nil_r in Hl. by apply tab_leaves_nonempty in Hl.
Qed.

Lemma root_ok wt worktreeId newGroupId : worktree_ok wt -> groups_of wt = [] ->
  worktree_ok (mkWorktree (wt_tabs wt) (Some [mkGroup newGroupId worktreeId None [] None]) (Some newGroupId) (Some (leaf newGroupId))).
Proof.
  intros Hok Hg. destruct (empty_wt wt Hok Hg) as [Ht _]. split; fields; change (tabs_of (mkWorktree (wt_tabs wt) _ _ _)) with (tabs_of wt); rewrite ?Ht; cbn.
  - constructor.
  - apply NoDup_singleton.
  - intros t H. by apply not_elem_of_nil in H.
  - intros g ->%list_elem_of_singleton. apply empty_group_ok. intros x (t & H & _). by apply not_elem_of_nil in H.
  - done.
  - intros _. exists newGroupId. split; [done | by left].
Qed.

Lemma focus_ok wt groupId : worktree_ok wt -> groupId ∈ group_ids (groups_of wt) -> worktree_ok (mkWorktree (wt_tabs wt) (wt_groups wt) (Some groupId) (wt_layout wt)).
Proof. intros [? ? ? ? ? ?] H. split; try done. by apply active_ok_in. Qed.

Lemma close_empty_ok wt g fallback : worktree_ok wt -> g ∈ groups_of wt -> tg_tabOrder g = [] ->
  let '(layout, active) := collapseGroupLayout (wt_layout wt) (wt_active wt) (tg_id g) fallback in
  worktree_ok (mkWorktree (wt_tabs wt) (Some (List.filter (fun c => negb (same (tg_id c) (tg_id g))) (groups_of wt))) active layout).
Proof.
  intros Hok Hg Ho. pose proof (collapse_ok wt (tabs_of wt) (fun c => c) g (wt_active wt) fallback Hok Hg) as H. rewrite list_fmap_id in H.
  destruct (collapseGroupLayout _ _ _ _) as [layout active]. destruct H as [? ? ? ? ? ?].
  - done.
  - apply (wk_tabs _ Hok).
  - intros t Ht. split; [by apply (wk_home _ Hok)|]. intros E. pose proof (proj2 (gk_member _ _ (wk_ok _ Hok g Hg) (tab_id t))) as Hm.
    rewrite Ho in Hm. apply (not_elem_of_nil (tab_id t)). apply Hm. by exists t.
  - intros c Hc _. by apply (wk_ok _ Hok).
  - by split.
Qed.

Lemma empty_split_ok wt beside worktreeId newGroupId direction : worktree_ok wt -> beside ∈ group_ids (groups_of wt) -> newGroupId ∉ group_ids (groups_of wt) ->
  worktree_ok (mkWorktree (wt_tabs wt) (Some (groups_of wt ++ [mkGroup newGroupId worktreeId None [] None])) (Some newGroupId)
                 (Some (split_beside (wt_layout wt) beside newGroupId direction))).
Proof.
  intros Hok Hb Hnew. pose proof (join_ok wt (tabs_of wt) (fun c => c) (mkGroup newGroupId worktreeId None [] None) beside direction (Some newGroupId) Hok) as H.
  rewrite list_fmap_id in H. destruct H as [? ? ? ? ? ?]; cbn [tg_id]; try done.
  - apply (wk_tabs _ Hok).
  - intros t Ht. apply elem_of_app. left. by apply (wk_home _ Hok).
  - intros g Hg. by apply (wk_ok _ Hok).
  - by apply empty_group_ok, no_member.
  - apply active_ok_in, elem_of_app. right. by left.
Qed.

Lemma split_create_ok wt created worktreeId beside newGroupId direction recent active : worktree_ok wt -> beside ∈ group_ids (groups_of wt) ->
  newGroupId ∉ group_ids (groups_of wt) -> tab_id created ∉ (tab_id <$> tabs_of wt) -> tab_groupId created = newGroupId ->
  recent = [tab_id created] \/ recent = [] -> active = Some newGroupId \/ active = wt_active wt ->
  worktree_ok (mkWorktree (Some (tabs_of wt ++ [created])) (Some (groups_of wt ++ [mkGroup newGroupId worktreeId (Some (tab_id created)) [tab_id created] (Some recent)]))
                 active (Some (split_beside (wt_layout wt) beside newGroupId direction))).
Proof.
  intros Hok Hb Hnew Hid Hg Hrecent Hactive.
  pose proof (join_ok wt (tabs_of wt ++ [created]) (fun c => c) (mkGroup newGroupId worktreeId (Some (tab_id created)) [tab_id created] (Some recent)) beside direction active Hok) as H.
  rewrite list_fmap_id in H. apply H; cbn [tg_id]; try done; clear H.
  - rewrite fmap_app. apply NoDup_app. split; [apply (wk_tabs _ Hok)|]. split; [|apply NoDup_singleton]. intros x Hx ->%list_elem_of_singleton. done.
  - intros t [Ht|Ht]%elem_of_app; apply elem_of_app; [left; by apply (wk_home _ Hok) | right]. apply list_elem_of_singleton in Ht as ->. rewrite Hg. by left.
  - intros g Hg'. eapply group_ok_ext; [|by apply (wk_ok _ Hok)]. intros x. rewrite member_snoc. split; [|by left].
    intros [?|[-> E]]; [done|]. exfalso. apply Hnew. rewrite <- Hg, <- E. by apply group_id_in.
  - split; cbn; unfold Datatypes.id; [apply NoDup_singleton| |by left| |].
    + intros x. rewrite list_elem_of_singleton, member_snoc. split; [by right|]. intros [Hm|[-> _]]; [|done]. by apply (no_member wt newGroupId Hok Hnew) in Hm.
    + destruct Hrecent as [->| ->]; [apply NoDup_singleton | constructor].
    + intros x Hx. destruct Hrecent as [->| ->]; [done | by apply not_elem_of_nil in Hx].
  - destruct Hactive as [->| ->]; [apply active_ok_in, elem_of_app; right; by left|]. intros _.
    destruct (wk_active _ Hok) as (a & -> & Ha); [intros E; rewrite E in Hb; by apply not_elem_of_nil in Hb|]. exists a. split; [done|]. apply elem_of_app. by left.
Qed.

Lemma ratio_ok wt layout path ratio : worktree_ok wt -> wt_layout wt = Some layout ->
  worktree_ok (mkWorktree (wt_tabs wt) (wt_groups wt) (wt_active wt) (Some (updateSplitRatio layout path ratio))).
Proof. intros [? ? ? ? Hl ?] E. split; try done. rewrite E in Hl. cbn in *. by rewrite updateSplitRatio_leaves. Qed.

(** ** Moving a tab *)

Lemma take_drop_perm {A} n (x : A) l : take n l ++ x :: drop n l ≡ₚ x :: l.
Proof. rewrite <- (take_drop n l) at 3. symmetry. apply Permutation_middle. Qed.

Lemma order_with_perm tabId index tabOrder : NoDup tabOrder -> order_with tabId index tabOrder ≡ₚ tabId :: without tabId tabOrder.
Proof. intros H. unfold order_with. rewrite take_drop_perm. by rewrite dedupe_same by by apply without_nodup. Qed.

Lemma order_with_nodup tabId index tabOrder : NoDup tabOrder -> NoDup (order_with tabId index tabOrder).
Proof. intros H. rewrite order_with_perm by done. apply NoDup_cons. rewrite elem_of_without. split; [tauto | by apply without_nodup]. Qed.

Lemma order_with_elem tabId index tabOrder id : NoDup tabOrder -> id ∈ order_with tabId index tabOrder <-> id = tabId \/ id ∈ tabOrder.
Proof. intros H. rewrite order_with_perm by done. rewrite elem_of_cons, elem_of_without. destruct (decide (id = tabId)); tauto. Qed.

(** The group a tab joins. *)
Definition join_group (tabId : jsstring) (index : option Z) (activate : bool) (g : TabGroup) : TabGroup :=
  let order := order_with tabId index (tg_tabOrder g) in
  let recent := sanitizeRecentTabIds (tg_recentTabIds g) order in
  mkGroup (tg_id g) (tg_worktreeId g) (if activate then Some tabId else tg_activeTabId g) order
    (Some (if activate then pushRecentTabId (Some recent) tabId else recent)).

Lemma gain_ok tabs tabs' g tabId index activate : group_ok tabs g ->
  (forall id, member tabs' (tg_id g) id <-> id = tabId \/ member tabs (tg_id g) id) -> activate = true \/ tg_activeTabId g <> None ->
  group_ok tabs' (join_group tabId index activate g).
Proof.
  intros [Ho Hm Hs Hr Hri] Hm' Hactive. unfold join_group. split; cbn [tg_tabOrder tg_id tg_activeTabId tg_recentTabIds].
  - by apply order_with_nodup.
  - intros id. by rewrite order_with_elem, Hm', Hm.
  - destruct activate; [apply order_with_elem; auto|]. destruct Hactive as [|Ha]; [done|]. destruct (tg_activeTabId g); [|done].
    apply order_with_elem; auto.
  - destruct activate; [apply push_nodup|]; apply sanitize_nodup.
  - intros id Hid. destruct activate.
    + apply push_elem_some in Hid as [->|Hid]; [apply order_with_elem; auto|]. by apply sanitize_elem in Hid as [_ Hid].
    + unfold from_option, Datatypes.id in Hid. by apply sanitize_elem in Hid as [_ Hid].
Qed.

(** A tab goes from one group to another one. *)
Definition transfer (t : Tab) (source target : TabGroup) (index : option Z) (activate : bool) (g : TabGroup) : TabGroup :=
  if same (tg_id g) (tg_id source) then leave_group source (tab_id t) (order_without (tab_id t) source) g
  else if same (tg_id g) (tg_id target) then join_group (tab_id t) index activate g else g.

Section transfer.
Context (wt : Worktree) (t : Tab) (source target : TabGroup) (index : option Z) (activate : bool).
Hypothesis Hok : worktree_ok wt.
Hypothesis Ht : t ∈ tabs_of wt.
Hypothesis Hsource : source ∈ groups_of wt.
Hypothesis Htarget : target ∈ groups_of wt.
Hypothesis Hhome : tg_id source = tab_groupId t.
Hypothesis Hother : tg_id target <> tg_id source.
Hypothesis Hshown : activate = true \/ tg_activeTabId target <> None.

Lemma moved_member groupId id : member (moved_tabs (tab_id t) (tg_id target) (tabs_of wt)) groupId id <->
  if decide (id = tab_id t) then groupId = tg_id target else member (tabs_of wt) groupId id.
Proof. apply member_moved. by exists t. Qed.

Lemma transfer_groups g : g ∈ groups_of wt -> group_ok (moved_tabs (tab_id t) (tg_id target) (tabs_of wt)) (transfer t source target index activate g).
Proof.
  intros Hg. unfold transfer. destruct (same (tg_id g) (tg_id source)) eqn:E1; ids; [|destruct (same (tg_id g) (tg_id target)) eqn:E2; ids].
  - rewrite (group_inj wt g source Hok Hg Hsource E1). apply (leave_ok wt); [done..|]. intros id. rewrite moved_member. case_decide; [|tauto].
    split; [congruence | tauto].
  - rewrite (group_inj wt g target Hok Hg Htarget E2). apply (gain_ok (tabs_of wt)); [by apply (wk_ok _ Hok) | | done].
    intros id. rewrite moved_member. case_decide; [subst; tauto | naive_solver].
  - apply (untouched_ok wt t); [done|done|done|congruence| |].
    + intros id Hid. rewrite moved_member. by rewrite decide_False.
    + rewrite moved_member, decide_True by done. done.
Qed.

Lemma transfer_ok active : active_ok active (group_ids (groups_of wt)) ->
  worktree_ok (mkWorktree (Some (moved_tabs (tab_id t) (tg_id target) (tabs_of wt))) (Some (transfer t source target index activate <$> groups_of wt)) active (wt_layout wt)).
Proof.
  intros Ha. apply regroup_ok; [done| | | |exact transfer_groups|done].
  - intros g _. unfold transfer. by repeat destruct (same _ _).
  - unfold moved_tabs. rewrite tab_ids_map; [apply (wk_tabs _ Hok)|]. intros x. by destruct (same _ _).
  - intros x (y & -> & Hy)%list_elem_of_fmap. destruct (same _ _); cbn; [by apply group_id_in | by apply (wk_home _ Hok)].
Qed.

(** The emptied group goes. *)
Lemma transfer_last_ok active fallback : active_ok active (group_ids (groups_of wt)) -> order_without (tab_id t) source = [] ->
  let '(layout, active) := collapseGroupLayout (wt_layout wt) active (tg_id source) fallback in
  worktree_ok (mkWorktree (Some (moved_tabs (tab_id t) (tg_id target) (tabs_of wt)))
    (Some (List.filter (fun g => negb (same (tg_id g) (tg_id source))) (transfer t source target index activate <$> groups_of wt))) active layout).
Proof.
  intros Ha Ho. pose proof (transfer_ok active Ha) as Hw.
  apply (close_empty_ok _ (transfer t source target index activate source) fallback) in Hw; fields.
  - assert (Eid : tg_id (transfer t source target index activate source) = tg_id source) by (unfold transfer; by rewrite same_refl).
    rewrite Eid in Hw. exact Hw.
  - apply list_elem_of_fmap. by exists source.
  - unfold transfer. by rewrite same_refl.
Qed.
End transfer.

Lemma move_in_ok wt t source target index activate : worktree_ok wt -> t ∈ tabs_of wt -> source ∈ groups_of wt -> target ∈ groups_of wt ->
  tg_id source = tab_groupId t -> tg_id target <> tg_id source -> activate = true \/ tg_activeTabId target <> None ->
  worktree_ok (move_in t source target index activate wt).
Proof.
  intros Hok Ht Hs Hg Hhome Hne Hshown. unfold move_in.
  assert (Hactive : active_ok (if activate then Some (tg_id target) else wt_active wt) (group_ids (groups_of wt))).
  { destruct activate; [by apply active_ok_in, group_id_in | apply (wk_active _ Hok)]. }
  assert (Hshape : (fun group => if same (tg_id group) (tg_id source) then leave_group source (tab_id t) (order_without (tab_id t) source) group
      else if same (tg_id group) (tg_id target) then
        mkGroup (tg_id group) (tg_worktreeId group) (if activate then Some (tab_id t) else tg_activeTabId group) (order_with (tab_id t) index (tg_tabOrder target))
          (Some (if activate then pushRecentTabId (Some (sanitizeRecentTabIds (tg_recentTabIds group) (order_with (tab_id t) index (tg_tabOrder target)))) (tab_id t)
                 else sanitizeRecentTabIds (tg_recentTabIds group) (order_with (tab_id t) index (tg_tabOrder target))))
      else group) <$> groups_of wt = transfer t source target index activate <$> groups_of wt).
  { apply list_fmap_ext. intros i g Hi%list_elem_of_lookup_2. unfold transfer. destruct (same (tg_id g) (tg_id source)); [done|].
    destruct (same (tg_id g) (tg_id target)) eqn:E; [ids|done]. by rewrite (group_inj wt g target Hok Hi Hg E). }
  rewrite Hshape. destruct (order_without (tab_id t) source) eqn:Eo; [|by apply transfer_ok].
  pose proof (transfer_last_ok wt t source target index activate Hok Ht Hs Hg Hhome Hne Hshown _ (Some (tg_id target)) Hactive Eo) as H.
  destruct (collapseGroupLayout _ _ _ _) as [layout active]. exact H.
Qed.

(** Where a tab is dropped: an extended worktree, in which the group that receives it is. *)
Lemma destination_ok wt target worktreeId newGroupId groups layout active resolved : worktree_ok wt -> dt_groupId target ∈ group_ids (groups_of wt) ->
  newGroupId ∉ group_ids (groups_of wt) -> drop_destination target worktreeId newGroupId wt = (groups, layout, active, resolved) ->
  worktree_ok (mkWorktree (wt_tabs wt) (Some groups) active layout) /\ (forall g, g ∈ groups_of wt -> g ∈ groups) /\ resolved ∈ group_ids groups /\
  (resolved ∈ group_ids (groups_of wt) -> dt_splitDirection target = None /\ resolved = dt_groupId target).
Proof.
  intros Hok Hin Hnew. unfold drop_destination. destruct (dt_splitDirection target) as [direction|]; intros [= <- <- <- <-].
  - split; [by apply empty_split_ok|]. split; [intros g Hg; apply elem_of_app; by left|]. split; [|done].
    unfold group_ids. rewrite fmap_app. apply elem_of_app. right. by left.
  - split; [destruct Hok as [? ? ? ? ? ?]; by split|]. auto.
Qed.

Lemma drop_ok wt t source targetGroup target worktreeId newGroupId : worktree_ok wt -> t ∈ tabs_of wt -> source ∈ groups_of wt -> targetGroup ∈ groups_of wt ->
  tg_id source = tab_groupId t -> tg_id targetGroup = dt_groupId target -> newGroupId ∉ group_ids (groups_of wt) ->
  dt_splitDirection target <> None \/ tab_groupId t <> dt_groupId target ->
  worktree_ok (fst (drop_in t source targetGroup target worktreeId newGroupId wt)).
Proof.
  intros Hok Ht Hs Hg Hhome Htarget Hnew Hmoves. unfold drop_in.
  destruct (drop_destination _ _ _ _) as [[[groups layout] active] resolved] eqn:Ed.
  apply destination_ok in Ed as (Hok' & Hsub & Hres & Hold); [|done|rewrite <- Htarget; by apply group_id_in|done].
  set (wt' := mkWorktree (wt_tabs wt) (Some groups) active layout) in *.
  apply list_elem_of_fmap in Hres as (destination & Eres & Hdest).
  assert (Hfind : find_group resolved groups = Some destination).
  { destruct (find_group resolved groups) as [g|] eqn:Ef; [apply find_group_some in Ef as [Hg' Eg] | apply find_group_none in Ef].
    - f_equal. apply (group_inj wt' g destination Hok' Hg' Hdest). congruence.
    - destruct Ef. rewrite Eres. by apply group_id_in. }
  rewrite Hfind. cbn [default from_option]. unfold Datatypes.id.
  assert (Hne : tg_id destination <> tg_id source).
  { rewrite <- Eres. intros E. destruct Hold as [E1 E2]; [rewrite E; by apply group_id_in|]. destruct Hmoves as [|Hm]; [done|]. congruence. }
  assert (Hshape : (fun group => if same (tg_id group) (tg_id source) then leave_group source (tab_id t) (order_without (tab_id t) source) group
      else if same (tg_id group) resolved then
        mkGroup (tg_id group) (tg_worktreeId group) (Some (tab_id t)) (order_with (tab_id t) (dt_index target) (tg_tabOrder destination))
          (Some (pushRecentTabId (Some (sanitizeRecentTabIds (tg_recentTabIds group) (order_with (tab_id t) (dt_index target) (tg_tabOrder destination)))) (tab_id t)))
      else group) <$> groups = transfer t source destination (dt_index target) true <$> groups).
  { apply list_fmap_ext. intros i g Hi%list_elem_of_lookup_2. unfold transfer. destruct (same (tg_id g) (tg_id source)); [done|].
    rewrite <- Eres. destruct (same (tg_id g) resolved) eqn:E; [ids|done]. rewrite (group_inj wt' g destination Hok' Hi Hdest); [done | congruence]. }
  rewrite Hshape, Eres.
  assert (Hactive : active_ok (Some (tg_id destination)) (group_ids groups)) by by apply active_ok_in, group_id_in.
  destruct (order_without (tab_id t) source) eqn:Eo.
  - pose proof (transfer_last_ok wt' t source destination (dt_index target) true Hok' Ht (Hsub _ Hs) Hdest Hhome Hne (or_introl eq_refl) active
      (Some (tg_id destination)) (wk_active _ Hok') Eo) as H.
    cbn [wt_layout wt'] in H. unfold wt' in H at 1. cbn [wt_layout] in H. destruct (collapseGroupLayout _ _ _ _) as [layout' active']. exact H.
  - exact (transfer_ok wt' t source destination (dt_index target) true Hok' Ht (Hsub _ Hs) Hdest Hhome Hne (or_introl eq_refl) _ Hactive).
Qed.
