(* ===== verification/TabRepair.v ===== *)
(** Reconciling keeps the invariant of a worktree ([TabReconcile.v], [TabInvariant.v]). *)

From stdpp Require Import base list sets strings.
From Stdlib Require Import ZArith Lia ZifyBool SpecFloat.
From S2P Require Import Prelude JsText JsRecord Json.
From S2P Require Import KeySyntax.
From S2P Require Import TabModel.
From S2P Require Import TabStore.
From S2P Require Import TabActions.
From S2P Require Import TabReconcile.
From S2P Require Import TabLaws.
From S2P Require Import TabInvariant.

Open Scope Z_scope.

#[local] Set Warnings "-clear-no-such-hyp".

Lemma insert_terminal_perm t sorted : insert_terminal t sorted ≡ₚ t :: sorted.
Proof. induction sorted as [|other rest IH]; cbn; [done|]. destruct (sorts_before t other); [done|]. rewrite IH. apply perm_swap. Qed.

Lemma sort_terminals_perm terminals : sort_terminals terminals ≡ₚ terminals.
Proof. unfold sort_terminals. induction terminals as [|t rest IH]; cbn; [done|]. rewrite insert_terminal_perm. by rewrite IH. Qed.

(** ** Restoring terminals *)

Lemma restored_ids worktreeId groupId legacy : tab_id <$> (restored_tab worktreeId groupId <$> sort_terminals legacy) ≡ₚ tt_id <$> legacy.
Proof. rewrite <- list_fmap_compose. rewrite (sort_terminals_perm legacy) at 1. apply Permutation_refl'. by apply list_fmap_ext. Qed.

Lemma member_restored tabs worktreeId groupId legacy c x :
  member (tabs ++ (restored_tab worktreeId groupId <$> legacy)) c x <-> member tabs c x \/ (x ∈ (tab_id <$> (restored_tab worktreeId groupId <$> legacy)) /\ c = groupId).
Proof.
  unfold member. setoid_rewrite elem_of_app. split.
  - intros (t & [Ht|(y & -> & Hy)%list_elem_of_fmap] & <- & <-); [left; by exists t|]. right. split; [|done]. apply list_elem_of_fmap. exists (restored_tab worktreeId groupId y).
    split; [done|]. apply list_elem_of_fmap. by exists y.
  - intros [(t & Ht & H1 & H2)|[(t & -> & Ht)%list_elem_of_fmap ->]]; [exists t; auto|]. exists t. split; [by right|]. split; [done|].
    by apply list_elem_of_fmap in Ht as (y & -> & _).
Qed.

Lemma head_elem {A} (l : list A) x : head l = Some x -> x ∈ l.
Proof. destruct l; [done|]. intros [= ->]. by left. Qed.

(** A group gets tabs at its end. *)
Lemma append_ok tabs tabs' g ids fallback : group_ok tabs g -> NoDup ids -> (forall x, x ∈ ids -> ~ member tabs (tg_id g) x) ->
  (forall x, member tabs' (tg_id g) x <-> member tabs (tg_id g) x \/ x ∈ ids) ->
  match fallback with Some id => id ∈ ids | None => ids = [] end ->
  group_ok tabs' (mkGroup (tg_id g) (tg_worktreeId g) (or_else (tg_activeTabId g) fallback) (dedupeTabOrder (tg_tabOrder g ++ ids)) (tg_recentTabIds g)).
Proof.
  intros [Ho Hm Hs Hr Hri] Hn Hnew Hm' Hf.
  rewrite dedupe_same by (apply NoDup_app; split; [done|]; split; [intros x Hx Hx'; apply (Hnew x Hx'); by apply Hm | done]).
  split; cbn [tg_tabOrder tg_id tg_activeTabId tg_recentTabIds]; [|intros x; by rewrite elem_of_app, Hm', Hm| |done|].
  - apply NoDup_app. split; [done|]. split; [intros x Hx Hx'; apply (Hnew x Hx'); by apply Hm | done].
  - destruct (tg_activeTabId g) as [a|]; cbn; [apply elem_of_app; by left|]. rewrite Hs. destruct fallback; [done|]. by rewrite Hf.
  - intros x Hx. apply elem_of_app. left. by apply Hri.
Qed.

(** Well formed but for the active group, which may be one that is gone. *)
Definition active_aside (wt : Worktree) : Prop := exists active, worktree_ok (mkWorktree (wt_tabs wt) (wt_groups wt) active (wt_layout wt)).

Lemma ok_aside wt : worktree_ok wt -> active_aside wt.
Proof. intros Hok. exists (wt_active wt). by destruct wt. Qed.

Lemma restore_ok wt legacy remembered worktreeId newGroupId : worktree_ok wt -> NoDup (tt_id <$> legacy) ->
  (forall id, id ∈ (tt_id <$> legacy) -> id ∉ (tab_id <$> tabs_of wt)) ->
  active_aside (restore_in legacy remembered worktreeId newGroupId wt).
Proof.
  intros Hok Hn Hfresh. unfold restore_in. destruct legacy as [|t0 rest]; [by apply ok_aside|]. set (legacy := t0 :: rest) in *.
  destruct (ensureGroup _ _ _ _ _) as [[g groups] active] eqn:E. apply ensure_cases in E.
  set (restored := restored_tab worktreeId (tg_id g) <$> sort_terminals legacy). set (ids := tab_id <$> restored).
  assert (Hids : ids ≡ₚ tt_id <$> legacy) by apply restored_ids.
  assert (Hidn : NoDup ids) by by rewrite Hids.
  assert (Hout : forall x, x ∈ ids -> x ∉ (tab_id <$> tabs_of wt)) by (intros x Hx; apply Hfresh; by rewrite <- Hids).
  assert (Hnomember : forall c x, x ∈ ids -> ~ member (tabs_of wt) c x).
  { intros c x Hx (t & Ht & Et & _). apply (Hout x Hx). apply list_elem_of_fmap. by exists t. }
  assert (Hnodup : NoDup (tab_id <$> (tabs_of wt ++ restored))).
  { rewrite fmap_app. apply NoDup_app. split; [apply (wk_tabs _ Hok)|]. split; [|done]. intros x Hx Hx'. by apply (Hout x Hx'). }
  set (fallback := match truthy remembered with Some id => if memb id ids then Some id else head ids | None => head ids end).
  assert (Hfallback : match fallback with Some id => id ∈ ids | None => ids = [] end).
  { assert (Hh : match head ids with Some id => id ∈ ids | None => ids = [] end) by (destruct ids; [done | by left]).
    unfold fallback. destruct (truthy remembered) as [id|]; [|done]. destruct (memb id ids) eqn:Em; [by ids | done]. }
  assert (Hmem : forall c x, member (tabs_of wt ++ restored) c x <-> member (tabs_of wt) c x \/ (x ∈ ids /\ c = tg_id g)) by (intros; apply member_restored).
  destruct E as [(Hg & -> & ->)|(Hempty & -> & -> & ->)].
  - assert (Hactive : or_else (wt_active wt) (wt_active wt) = wt_active wt) by by destruct (wt_active wt).
    assert (Hlayout : or_else (wt_layout wt) (Some (leaf (tg_id g))) = wt_layout wt).
    { pose proof (wk_layout _ Hok) as Hl. destruct (wt_layout wt); [done|]. cbn in Hl. pose proof (group_id_in _ _ Hg) as Hi. rewrite Hl in Hi. by apply not_elem_of_nil in Hi. }
    rewrite Hactive, Hlayout. fold (groups_of wt). apply ok_aside. unfold updateGroup. apply regroup_ok; [done| |done| | |apply (wk_active _ Hok)].
    + intros c _. destruct (same _ _) eqn:Es; ids; cbn in *; congruence.
    + intros t [Ht|(y & -> & _)%list_elem_of_fmap]%elem_of_app; [by apply (wk_home _ Hok) | by apply group_id_in].
    + intros c Hc. cbn [tg_id]. destruct (same (tg_id c) (tg_id g)) eqn:Es; ids.
      * apply (append_ok (tabs_of wt)); [by apply (wk_ok _ Hok) | done | intros x; apply Hnomember | | done].
        intros x. rewrite Hmem. tauto.
      * eapply group_ok_ext; [|by apply (wk_ok _ Hok)]. intros x. rewrite Hmem. split; [intros [?|[_ ?]]; [done | congruence] | by left].
  - destruct (empty_wt wt Hok Hempty) as [Ht Hl]. rewrite Hl. cbn [or_else default from_option]. unfold Datatypes.id.
    exists (Some newGroupId). cbn [wt_tabs wt_groups wt_layout]. unfold updateGroup. cbn [fmap list_fmap tg_id]. rewrite same_refl.
    split; fields; rewrite ?Ht in *; cbn [group_ids fmap list_fmap tg_id app leaves layout_ok]; try done.
    + apply NoDup_singleton.
    + intros t (y & -> & _)%list_elem_of_fmap. by left.
    + intros c ->%list_elem_of_singleton. apply (append_ok [] _ (mkGroup newGroupId worktreeId None [] None)); [|done| | |done].
      * apply empty_group_ok. intros x (t & Ht' & _). by apply not_elem_of_nil in Ht'.
      * intros x _ (t & Ht' & _). by apply not_elem_of_nil in Ht'.
      * intros x. rewrite Hmem. cbn. tauto.
    + apply active_ok_in. by left.
Qed.

(** ** Dropping tabs *)

Section prune.
Context (live : LiveIds) (wt : Worktree) (active : option jsstring).
Hypothesis Hok : worktree_ok (mkWorktree (wt_tabs wt) (wt_groups wt) active (wt_layout wt)).

Definition valid_tabs : list Tab := List.filter (isRenderableTab live) (tabs_of wt).
Definition valid_ids : list jsstring := tab_id <$> valid_tabs.

Lemma valid_member c x : member valid_tabs c x <-> member (tabs_of wt) c x /\ x ∈ valid_ids.
Proof.
  unfold member, valid_ids, valid_tabs. setoid_rewrite list_elem_of_fmap. setoid_rewrite elem_of_filter. split.
  - intros (t & [Hr Ht] & <- & <-). split; [by exists t | by exists t].
  - intros [(t & Ht & <- & <-) (t' & E & Hr & Ht')]. pose proof (tab_inj _ t t' Hok Ht Ht' E) as <-. by exists t.
Qed.

(** A reconciled group has its valid tabs, the same as the group if nothing changes. *)
Lemma reconcile_group_ok g : g ∈ groups_of wt -> group_ok valid_tabs (reconcile_group valid_ids g).
Proof.
  intros Hg. destruct (wk_ok _ Hok g Hg) as [Ho Hm Hs Hr Hri]. change (tabs_of (mkWorktree (wt_tabs wt) _ _ _)) with (tabs_of wt) in Hm.
  unfold reconcile_group. set (order := List.filter (fun id => memb id valid_ids) (tg_tabOrder g)).
  set (shown := match truthy (tg_activeTabId g) with Some a => if memb a valid_ids then Some a else head order | None => head order end).
  assert (Horder : forall x, x ∈ order <-> member valid_tabs (tg_id g) x).
  { intros x. unfold order. rewrite elem_of_filter, memb_true, Hm, valid_member. tauto. }
  assert (Hshown : match shown with Some a => a ∈ order | None => order = [] end).
  { assert (Hh : match head order with Some a => a ∈ order | None => order = [] end) by (destruct order; [done | by left]).
    unfold shown. destruct (tg_activeTabId g) as [[|u a]|]; cbn [truthy]; [done| |done].
    destruct (memb _ _) eqn:Em; [|done]. ids. apply elem_of_filter. rewrite memb_true. done. }
  assert (Hnodup : NoDup order) by by apply NoDup_filter.
  case_bool_decide as E1; cbn [andb]; [case_bool_decide as E2; cbn [andb]; [case_bool_decide as E3|]|].
  - split; [by rewrite <- E1 | by rewrite <- E1 | by rewrite <- E1, <- E2 | done | done].
  - split; [done|done|done|apply sanitize_nodup|intros x; unfold tg_recentTabIds, from_option, Datatypes.id; by intros [_ ?]%sanitize_elem].
  - split; [done|done|done|apply sanitize_nodup|intros x; unfold tg_recentTabIds, from_option, Datatypes.id; by intros [_ ?]%sanitize_elem].
  - split; [done|done|done|apply sanitize_nodup|intros x; unfold tg_recentTabIds, from_option, Datatypes.id; by intros [_ ?]%sanitize_elem].
Qed.

Lemma reconcile_group_id ids g : tg_id (reconcile_group ids g) = tg_id g.
Proof. unfold reconcile_group. by destruct (_ && _). Qed.

Lemma reconciled_ids : group_ids (reconcile_group valid_ids <$> groups_of wt) = group_ids (groups_of wt).
Proof. apply group_ids_map. intros. apply reconcile_group_id. Qed.

Definition kept_group (g : TabGroup) : bool := match tg_tabOrder g with [] => false | _ => true end.

Definition next_groups : list TabGroup :=
  match valid_tabs with
  | [] => reconcile_group valid_ids <$> groups_of wt
  | _ => List.filter kept_group (reconcile_group valid_ids <$> groups_of wt)
  end.

Lemma next_sub g : g ∈ next_groups -> exists h, h ∈ groups_of wt /\ g = reconcile_group valid_ids h.
Proof.
  unfold next_groups. destruct valid_tabs; intros H; [|apply elem_of_filter in H as [_ H]]; apply list_elem_of_fmap in H as (h & -> & Hh); by exists h.
Qed.

Lemma next_home t : t ∈ valid_tabs -> tab_groupId t ∈ group_ids next_groups.
Proof.
  intros Ht. unfold next_groups. destruct valid_tabs as [|x rest] eqn:E; [by apply not_elem_of_nil in Ht|]. rewrite <- E in Ht.
  assert (Hin : t ∈ tabs_of wt) by by (unfold valid_tabs in Ht; apply elem_of_filter in Ht as [_ ?]).
  pose proof (wk_home _ Hok t Hin) as (g & Eg & Hg)%list_elem_of_fmap. rewrite Eg. rewrite <- (reconcile_group_id valid_ids g). apply group_id_in, elem_of_filter.
  split; [|apply list_elem_of_fmap; by exists g]. unfold kept_group.
  pose proof (proj2 (gk_member _ _ (reconcile_group_ok g Hg) (tab_id t))) as Hm. rewrite reconcile_group_id in Hm.
  destruct (tg_tabOrder _); [|done]. exfalso. apply (not_elem_of_nil (tab_id t)). apply Hm. by exists t.
Qed.

Lemma next_nodup : NoDup (group_ids next_groups).
Proof.
  assert (Hn : NoDup (group_ids (reconcile_group valid_ids <$> groups_of wt))) by (rewrite reconciled_ids; apply (wk_groups _ Hok)).
  unfold next_groups. destruct valid_tabs as [|v vs]; [done|]. revert Hn. generalize (reconcile_group valid_ids <$> groups_of wt). intros l.
  induction l as [|g l IH]; [done|]. cbn. intros [Hg Hl]%NoDup_cons. destruct (kept_group g); cbn; [|auto].
  apply NoDup_cons. split; [|auto]. intros (h & Eh & Hh)%list_elem_of_fmap. apply Hg. apply list_elem_of_fmap. exists h. apply elem_of_filter in Hh as [_ Hh]. done.
Qed.

(** The ids that stay are those of the layout that are valid. *)
Lemma next_layout layout : wt_layout wt = Some layout ->
  List.filter (fun id => memb id (group_ids next_groups)) (leaves layout) ≡ₚ group_ids next_groups.
Proof.
  intros E. pose proof (wk_layout _ Hok) as Hl. cbn [wt_layout] in Hl. rewrite E in Hl. cbn in Hl.
  apply NoDup_Permutation.
  - apply NoDup_filter. rewrite Hl. apply (wk_groups _ Hok).
  - apply next_nodup.
  - intros x. rewrite elem_of_filter, memb_true, Hl. split; [tauto|]. intros Hx. split; [done|].
    apply list_elem_of_fmap in Hx as (g & -> & Hg). destruct (next_sub g Hg) as (h & Hh & ->). rewrite reconcile_group_id. by apply (group_id_in h).
Qed.

Lemma next_active : active_ok (wt_active (prune_in live wt)) (group_ids next_groups).
Proof.
  unfold prune_in. cbn [wt_active]. fold valid_tabs valid_ids. change (fun group => match tg_tabOrder group with [] => false | _ => true end) with kept_group. fold next_groups.
  intros Hne. destruct next_groups as [|first rest] eqn:En; [done|]. rewrite <- En in *.
  destruct (match wt_active wt with Some id => _ | None => _ end) eqn:Es.
  - destruct (wt_active wt) as [id|]; [|done]. exists id. split; [done|]. apply List.existsb_exists in Es as (g & Hg & E). apply list_elem_of_In in Hg. ids. subst.
    by apply group_id_in.
  - destruct (List.find shows_tab next_groups) as [g|] eqn:Ef; cbn.
    + exists (tg_id g). split; [done|]. apply List.find_some in Ef as [Hg _]. apply list_elem_of_In in Hg. by apply group_id_in.
    + rewrite En. cbn. exists (tg_id first). split; [done | by left].
Qed.

Lemma prune_ok : worktree_ok (prune_in live wt).
Proof.
  pose proof next_active as Hactive. pose proof next_layout as Hnext. pose proof next_home as Hhome. pose proof (wk_layout _ Hok) as Hl0. cbn [wt_layout] in Hl0.
  change (groups_of (mkWorktree _ (wt_groups wt) _ _)) with (groups_of wt) in Hl0. unfold prune_in in Hactive |- *. cbn [wt_active] in Hactive. fold valid_tabs valid_ids in Hactive |- *.
  change (fun group => match tg_tabOrder group with [] => false | _ => true end) with kept_group in Hactive |- *. fold next_groups in Hactive |- *.
  split; fields; [| |exact Hhome| | |exact Hactive].
  - pose proof (wk_tabs _ Hok) as Hn. unfold valid_tabs. change (tabs_of (mkWorktree (wt_tabs wt) _ _ _)) with (tabs_of wt) in Hn. revert Hn.
    generalize (tabs_of wt). intros l. induction l as [|t l IH]; [done|]. cbn. intros [Ht Hl]%NoDup_cons. destruct (isRenderableTab live t); cbn; [|auto].
    apply NoDup_cons. split; [|auto]. intros (h & Eh & Hh)%list_elem_of_fmap. apply Ht. apply list_elem_of_fmap. exists h. apply elem_of_filter in Hh as [_ Hh]. done.
  - exact next_nodup.
  - intros g Hg. destruct (next_sub g Hg) as (h & Hh & ->). by apply reconcile_group_ok.
  - fold (group_ids next_groups). destruct (wt_layout wt) as [layout|] eqn:El.
    + pose proof (Hnext layout eq_refl) as Hl. destruct (group_ids next_groups) as [|first rest] eqn:Eg.
      * (* no group: none before either *)
        cbn in Hl0.
        assert (groups_of wt = []) as Hg0.
        { assert (next_groups = []) as E by by destruct next_groups. unfold next_groups in E. destruct valid_tabs as [|t rest] eqn:Ev.
          - by destruct (groups_of wt).
          - exfalso. apply (not_elem_of_nil (tab_groupId t)). apply Hhome. by left. }
        rewrite Hg0 in Hl0. apply Permutation_nil_r in Hl0. by apply tab_leaves_nonempty in Hl0.
      * pose proof (pruned_leaves layout (first :: rest)) as Hp. destruct (pruneTabGroupLayoutForGroups layout (first :: rest)) as [pruned|]; cbn.
        -- by rewrite Hp.
        -- rewrite Hp in Hl. by apply Permutation_nil_cons in Hl.
    + cbn in Hl0.
      assert (next_groups = []) as ->; [|done]. unfold next_groups. apply fmap_nil_inv in Hl0. rewrite Hl0. by destruct valid_tabs.
Qed.
End prune.

Lemma reconcile_in_ok live wt : active_aside wt -> worktree_ok (prune_in live wt).
Proof. intros [active Hok]. by eapply prune_ok. Qed.
