(* ===== verification/TabSafety.v ===== *)
(** Every sequence of actions keeps the tab store well formed: the invariant of a worktree
    ([TabInvariant.v], [TabRepair.v]) lifted to the store and its actions. *)

From stdpp Require Import base list sets strings.
From Stdlib Require Import ZArith Lia ZifyBool SpecFloat.
From S2P Require Import Prelude JsText JsRecord Json.
From S2P Require Import KeySyntax.
From S2P Require Import TabModel.
From S2P Require Import TabStore.
From S2P Require Import TabActions.
From S2P Require Import TabReconcile.
From S2P Require Import TabLaws.
From S2P Require Import TabInvariant.
From S2P Require Import TabRepair.

Open Scope Z_scope.

#[local] Set Warnings "-clear-no-such-hyp".

Definition tab_ids (wt : Worktree) : list jsstring := tab_id <$> tabs_of wt.
Definition ids_of_groups (wt : Worktree) : list jsstring := group_ids (groups_of wt).

(** Each worktree is well formed, and no two share a tab or a group. *)
Record model_ok (m : TabMaps) : Prop := {
  mo_tab_keys : NoDup (rec_keys (unifiedTabsByWorktree m));
  mo_group_keys : NoDup (rec_keys (groupsByWorktree m));
  mo_worktree : forall w, worktree_ok (worktree w m);
  mo_tab_once : forall w w' id, id ∈ tab_ids (worktree w m) -> id ∈ tab_ids (worktree w' m) -> w = w';
  mo_group_once : forall w w' id, id ∈ ids_of_groups (worktree w m) -> id ∈ ids_of_groups (worktree w' m) -> w = w'
}.

Definition fresh_tab (id : jsstring) (m : TabMaps) : Prop := forall w, id ∉ tab_ids (worktree w m).
Definition fresh_group (id : jsstring) (m : TabMaps) : Prop := forall w, id ∉ ids_of_groups (worktree w m).

(** ** The records *)

Lemma rec_get_put {V} k k' (o : option V) m : rec_get k' (rec_put k o m) = if decide (k = k') then o else rec_get k' m.
Proof. destruct o; cbn; [apply rec_get_set | apply rec_get_delete]. Qed.

Lemma rec_put_nodup {V} k (o : option V) m : NoDup (rec_keys m) -> NoDup (rec_keys (rec_put k o m)).
Proof. destruct o; cbn; [apply rec_set_nodup | apply rec_delete_nodup]. Qed.

Lemma worktree_put w w' wt m : worktree w' (put_worktree w wt m) = if decide (w = w') then wt else worktree w' m.
Proof. unfold worktree, put_worktree. cbn. rewrite !rec_get_put. case_decide; [by destruct wt | done]. Qed.

(** A worktree is replaced by a well-formed one with its own tabs and groups and fresh ones. *)
Lemma put_ok w wt m new_tabs new_groups : model_ok m -> worktree_ok wt ->
  tab_ids wt ⊆ new_tabs ++ tab_ids (worktree w m) -> ids_of_groups wt ⊆ new_groups ++ ids_of_groups (worktree w m) ->
  (forall id, id ∈ new_tabs -> fresh_tab id m) -> (forall id, id ∈ new_groups -> fresh_group id m) -> model_ok (put_worktree w wt m).
Proof.
  intros [Hk1 Hk2 Hw Ht Hg] Hok Hst Hsg Hnt Hng. split.
  - by apply rec_put_nodup.
  - by apply rec_put_nodup.
  - intros w'. rewrite worktree_put. by case_decide.
  - assert (Hout : forall w' id, id ∈ tab_ids wt -> id ∈ tab_ids (worktree w' m) -> w = w').
    { intros w' id Hi Hi'. apply Hst in Hi as [Hi|Hi]%elem_of_app; [by apply Hnt in Hi; apply Hi in Hi' | by eapply Ht]. }
    intros w1 w2 id. rewrite !worktree_put. repeat case_decide; subst; intros H1 H2; [done | by eapply Hout | symmetry; by eapply Hout | by eapply Ht].
  - assert (Hout : forall w' id, id ∈ ids_of_groups wt -> id ∈ ids_of_groups (worktree w' m) -> w = w').
    { intros w' id Hi Hi'. apply Hsg in Hi as [Hi|Hi]%elem_of_app; [by apply Hng in Hi; apply Hi in Hi' | by eapply Hg]. }
    intros w1 w2 id. rewrite !worktree_put. repeat case_decide; subst; intros H1 H2; [done | by eapply Hout | symmetry; by eapply Hout | by eapply Hg].
Qed.

(** The same for changes that add nothing. *)
Lemma put_same_ok w wt m : model_ok m -> worktree_ok wt -> tab_ids wt ⊆ tab_ids (worktree w m) -> ids_of_groups wt ⊆ ids_of_groups (worktree w m) ->
  model_ok (put_worktree w wt m).
Proof. intros Hm Hok H1 H2. apply (put_ok w wt m [] []); try done; intros id H; by apply not_elem_of_nil in H. Qed.

Lemma findTab_some m id t w : NoDup (rec_keys m) -> findTabAndWorktree m id = Some (t, w) -> t ∈ rec_list w m /\ tab_id t = id.
Proof.
  intros Hk H. assert (exists tabs, (w, tabs) ∈ m /\ find_tab id tabs = Some t) as (tabs & Hin & Hf).
  { clear Hk. induction m as [|[k tabs] m IH]; [done|]. cbn in H. destruct (find_tab id tabs) as [found|] eqn:E.
    - injection H as -> ->. exists tabs. split; [by left | done].
    - destruct (IH H) as (tabs' & ? & ?). exists tabs'. split; [by right | done]. }
  apply find_tab_some in Hf. unfold rec_list. by rewrite (rec_elem_get _ _ _ Hk Hin).
Qed.

Lemma findGroup_some m id g w : NoDup (rec_keys m) -> findGroupAndWorktree m id = Some (g, w) -> g ∈ rec_list w m /\ tg_id g = id.
Proof.
  intros Hk H. assert (exists groups, (w, groups) ∈ m /\ find_group id groups = Some g) as (groups & Hin & Hf).
  { clear Hk. induction m as [|[k groups] m IH]; [done|]. cbn in H. destruct (find_group id groups) as [found|] eqn:E.
    - injection H as -> ->. exists groups. split; [by left | done].
    - destruct (IH H) as (groups' & ? & ?). exists groups'. split; [by right | done]. }
  apply find_group_some in Hf. unfold rec_list. by rewrite (rec_elem_get _ _ _ Hk Hin).
Qed.

Lemma found_tab m id t w : model_ok m -> findTabAndWorktree (unifiedTabsByWorktree m) id = Some (t, w) -> t ∈ tabs_of (worktree w m) /\ tab_id t = id.
Proof. intros Hm H. by apply (findTab_some _ id t w (mo_tab_keys _ Hm)). Qed.

Lemma found_target m id g w : model_ok m -> findGroupAndWorktree (groupsByWorktree m) id = Some (g, w) -> g ∈ groups_of (worktree w m) /\ tg_id g = id.
Proof. intros Hm H. by apply (findGroup_some _ id g w (mo_group_keys _ Hm)). Qed.

Lemma found_group m w id g : findGroupForTab (groupsByWorktree m) w id = Some g -> g ∈ groups_of (worktree w m) /\ tg_id g = id.
Proof. apply find_group_some. Qed.

(** ** What changes the other fields only *)

Lemma patch_surface_maps w preferred s : ts_maps (patch_surface w preferred s) = ts_maps s.
Proof. unfold patch_surface. by case_bool_decide. Qed.

Lemma clear_unread_maps id s : ts_maps (clear_unread id s) = ts_maps s.
Proof. unfold clear_unread. by destruct (holds _). Qed.

Lemma removeTab_maps id s : ts_maps (removeTabFromTerminalState id s) = ts_maps s.
Proof. done. Qed.

Lemma cleanup_maps ids s : ts_maps (buildOrphanTerminalCleanupPatch ids s) = ts_maps s.
Proof. unfold buildOrphanTerminalCleanupPatch. revert s. induction ids as [|id ids IH]; intros s; cbn; [done|]. by rewrite IH. Qed.

Lemma clear_all_maps ids s : ts_maps (fold_left (fun s id => clear_unread id s) ids s) = ts_maps s.
Proof. revert s. induction ids as [|id ids IH]; intros s; cbn; [done|]. by rewrite IH, clear_unread_maps. Qed.

Lemma pinned_maps w id p s : ts_maps (patchTerminalTabPinned w id p s) = ts_maps s.
Proof. unfold patchTerminalTabPinned. by destruct (existsb _ _). Qed.

(** ** Ids are kept *)

Lemma moved_ids tabId target tabs : tab_id <$> moved_tabs tabId target tabs = tab_id <$> tabs.
Proof. unfold moved_tabs. apply tab_ids_map. intros t. by destruct (same _ _). Qed.

Lemma without_subset id ids : without id ids ⊆ ids.
Proof. intros x. rewrite elem_of_without. tauto. Qed.

Lemma activate_ids t pp wt : tab_ids (activate_in t pp wt) ⊆ tab_ids wt /\ ids_of_groups (activate_in t pp wt) ⊆ ids_of_groups wt.
Proof.
  unfold activate_in, tab_ids, ids_of_groups. split.
  - destruct pp; [done|]. fields. rewrite tab_ids_map; [done|]. intros x. by destruct (same _ _).
  - fields. rewrite group_ids_map; [done|]. intros g _. by destruct (same _ _).
Qed.

Lemma close_ids t g wt : tab_ids (close_in t g wt) ⊆ tab_ids wt /\ ids_of_groups (close_in t g wt) ⊆ ids_of_groups wt.
Proof.
  unfold close_in, tab_ids, ids_of_groups. set (groups := (fun candidate => if same (tg_id candidate) (tg_id g) then mkGroup _ _ _ _ _ else candidate) <$> groups_of wt).
  assert (Hg : group_ids groups = group_ids (groups_of wt)) by (apply group_ids_map; intros c _; by destruct (same _ _)).
  assert (Ht : tab_id <$> List.filter (fun item => negb (same (tab_id item) (tab_id t))) (tabs_of wt) ⊆ tab_id <$> tabs_of wt) by (rewrite tab_ids_filter; apply without_subset).
  destruct (wt_layout wt) as [layout|]; [|fields; by rewrite Hg]. destruct (_ && _); [|fields; by rewrite Hg].
  destruct (collapseGroupLayout _ _ _ _) as [layout' active]. fields. rewrite group_ids_filter, Hg. split; [done | apply without_subset].
Qed.

Lemma create_ids wt w id newGroupId ct now init : let wt' := fst (create_in wt w id newGroupId ct now init) in
  tab_ids wt' ⊆ [id] ++ tab_ids wt /\ ids_of_groups wt' ⊆ [newGroupId] ++ ids_of_groups wt.
Proof.
  unfold create_in. destruct (ensureGroup _ _ _ _ _) as [[g groups] active] eqn:E. apply ensure_cases in E. cbn [fst]. unfold tab_ids, ids_of_groups. fields.
  rewrite group_ids_update, fmap_app. split.
  - intros x [Hx|Hx]%elem_of_app; apply elem_of_app; [right | left; cbn in Hx; done].
    destruct (replaced_preview _ _ _ _); [|done]. rewrite tab_ids_filter in Hx. by apply without_subset in Hx.
  - destruct E as [(_ & -> & _)|(_ & -> & -> & _)]; intros x Hx; apply elem_of_app; [by right | by left].
Qed.

Lemma pin_ids t p wt : tab_ids (pin_in t p wt) ⊆ tab_ids wt /\ ids_of_groups (pin_in t p wt) ⊆ ids_of_groups wt.
Proof.
  unfold pin_in, tab_ids, ids_of_groups. set (tabs := _ <$> tabs_of wt).
  assert (Ht : tab_id <$> tabs = tab_id <$> tabs_of wt) by (apply tab_ids_map; intros x; by destruct (same _ _)).
  destruct (find_group _ _) as [g|]; fields.
  - rewrite group_ids_update. destruct (sort_values_map tabs (partitionPinnedTabOrder (tg_tabOrder g) tabs (tab_id t))) as (f & -> & Hf & _). by rewrite tab_ids_map, Ht.
  - rewrite Ht. done.
Qed.

Lemma reorder_ids g ids wt : tab_ids (reorder_in g ids wt) ⊆ tab_ids wt /\ ids_of_groups (reorder_in g ids wt) ⊆ ids_of_groups wt.
Proof.
  unfold reorder_in, tab_ids, ids_of_groups, renumber. fields. rewrite group_ids_update.
  destruct (sort_values_map (tabs_of wt) (dedupeTabOrder ids)) as (f & -> & Hf & _). by rewrite tab_ids_map.
Qed.

Lemma move_ids t source target index activate wt :
  tab_ids (move_in t source target index activate wt) ⊆ tab_ids wt /\ ids_of_groups (move_in t source target index activate wt) ⊆ ids_of_groups wt.
Proof.
  unfold move_in, tab_ids, ids_of_groups. set (groups := _ <$> groups_of wt).
  assert (Hg : group_ids groups = group_ids (groups_of wt)) by (apply group_ids_map; intros c _; by repeat destruct (same _ _)).
  destruct (order_without _ _); [destruct (collapseGroupLayout _ _ _ _) as [layout active]|]; fields; rewrite moved_ids, ?group_ids_filter, Hg;
    split; first [done | apply without_subset].
Qed.

Lemma drop_ids t source targetGroup target w newGroupId wt : let wt' := fst (drop_in t source targetGroup target w newGroupId wt) in
  tab_ids wt' ⊆ [] ++ tab_ids wt /\ ids_of_groups wt' ⊆ [newGroupId] ++ ids_of_groups wt.
Proof.
  unfold drop_in, tab_ids, ids_of_groups. destruct (drop_destination _ _ _ _) as [[[groups layout] active] resolved] eqn:E.
  assert (Hsub : group_ids groups ⊆ [newGroupId] ++ group_ids (groups_of wt)).
  { unfold drop_destination in E. destruct (dt_splitDirection target); injection E as <- _ _ _; intros x Hx; [|apply elem_of_app; by right].
    unfold group_ids in Hx. rewrite fmap_app in Hx. apply elem_of_app in Hx as [Hx|Hx]; apply elem_of_app; [by right | by left]. }
  set (next := _ <$> groups). assert (Hg : group_ids next = group_ids groups) by (apply group_ids_map; intros c _; by repeat destruct (same _ _)).
  destruct (order_without _ _); [destruct (collapseGroupLayout _ _ _ _) as [layout' active']|]; cbn [fst]; fields; rewrite moved_ids, ?group_ids_filter, Hg;
    split; try done. intros x Hx%without_subset. by apply Hsub.
Qed.

Lemma prune_ids live wt : tab_ids (prune_in live wt) ⊆ tab_ids wt /\ ids_of_groups (prune_in live wt) ⊆ ids_of_groups wt.
Proof.
  unfold prune_in, tab_ids, ids_of_groups. fields. set (valid := List.filter (isRenderableTab live) (tabs_of wt)). split.
  - intros x (t & -> & [_ Ht]%elem_of_filter)%list_elem_of_fmap. apply list_elem_of_fmap. by exists t.
  - assert (Hg : group_ids (reconcile_group (tab_id <$> valid) <$> groups_of wt) = group_ids (groups_of wt)) by (apply group_ids_map; intros; apply reconcile_group_id).
    rewrite <- Hg. destruct valid; [done|]. intros x (g & -> & [_ Hx]%elem_of_filter)%list_elem_of_fmap. apply list_elem_of_fmap. by exists g.
Qed.

Lemma restore_ids legacy remembered w newGroupId wt : let wt' := restore_in legacy remembered w newGroupId wt in
  tab_ids wt' ⊆ (tt_id <$> legacy) ++ tab_ids wt /\ ids_of_groups wt' ⊆ [newGroupId] ++ ids_of_groups wt.
Proof.
  unfold restore_in. destruct legacy as [|t0 rest]; [split; intros x Hx; apply elem_of_app; by right|]. set (legacy := t0 :: rest).
  destruct (ensureGroup _ _ _ _ _) as [[g groups] active] eqn:E. apply ensure_cases in E. unfold tab_ids, ids_of_groups. cbn zeta. fields.
  rewrite group_ids_update, fmap_app. split.
  - intros x [Hx|Hx]%elem_of_app; apply elem_of_app; [by right | left]. by rewrite (restored_ids w (tg_id g) legacy) in Hx.
  - destruct E as [(_ & -> & _)|(_ & -> & -> & _)]; intros x Hx; apply elem_of_app; [by right | by left].
Qed.

(** ** The actions *)

(** Putting a worktree and patching the surface. *)
Lemma store_maps w wt s : ts_maps (store w wt s) = put_worktree w wt (ts_maps s).
Proof. done. Qed.

Section actions.
Context (environmentOf : TabsState -> jsstring -> option jsstring).

Definition ok (s : TabsState) : Prop := model_ok (ts_maps s).

Lemma activateTab_ok tabId preserve s : ok s -> ok (activateTab tabId preserve s).
Proof.
  intros Hok. unfold ok, activateTab. destruct (findTabAndWorktree _ _) as [[t w]|] eqn:E; [|done]. apply found_tab in E as [Ht _]; [|done].
  set (s' := match truthy (terminal_of t) with Some _ => _ | None => _ end). assert (Hm : ts_maps s' = ts_maps s).
  { unfold s'. destruct (truthy _); [|done]. case_bool_decide; [apply clear_unread_maps | done]. }
  rewrite store_maps, Hm. destruct (activate_ids t preserve (worktree w (ts_maps s))). apply put_same_ok; try done. by apply activate_ok, Ht; apply mo_worktree.
Qed.

Lemma closeRetiredTab_ok tabId record s : ok s -> ok (fst (fst (closeRetiredTab tabId record s))).
Proof.
  intros Hok. unfold ok, closeRetiredTab. destruct (findTabAndWorktree _ _) as [[t w]|] eqn:E; [|done]. apply found_tab in E as [Ht _]; [|done].
  destruct (findGroupForTab _ _ _) as [g|] eqn:Eg; [|done]. apply found_group in Eg as [Hg Eg].
  set (s' := match truthy (terminal_of t) with Some _ => _ | None => _ end). assert (Hm : ts_maps s' = ts_maps s) by (unfold s'; destruct (truthy _); [apply clear_unread_maps | done]).
  cbn [fst]. assert (Hput : model_ok (put_worktree w (close_in t g (worktree w (ts_maps s'))) (ts_maps s'))).
  { rewrite Hm. destruct (close_ids t g (worktree w (ts_maps s))). apply put_same_ok; try done. apply close_ok; [by apply mo_worktree|done..]. }
  destruct (should_deactivate _ _); [exact Hput|]. by rewrite patch_surface_maps.
Qed.

Lemma fold_ok {A} (f : TabsState * list TabEffect -> A -> TabsState * list TabEffect) l s effects :
  (forall s effects x, ok s -> ok (fst (f (s, effects) x))) -> ok s -> ok (fst (fold_left f l (s, effects))).
Proof.
  intros Hf. revert s effects. induction l as [|x l IH]; intros s effects Hok; cbn; [done|]. pose proof (Hf s effects x Hok) as H.
  destruct (f (s, effects) x) as [s' effects']. by apply IH.
Qed.

Lemma closeTab_ok terminalId record s : ok s -> ok (fst (closeTab terminalId record s)).
Proof.
  intros Hok. unfold closeTab. apply fold_ok; [|done]. intros s' effects entry Hs. destruct (List.find _ _) as [item|]; [|done].
  pose proof (closeRetiredTab_ok (tab_id item) record s' Hs) as H. destruct (closeRetiredTab _ _ _) as [[s'' more] result]. exact H.
Qed.

Lemma closeUnifiedTab_ok tabId record handled s : ok s -> ok (fst (fst (closeUnifiedTab tabId record handled s))).
Proof.
  intros Hok. unfold closeUnifiedTab. destruct (findTabAndWorktree _ _) as [[t w]|]; [|done]. destruct (findGroupForTab _ _ _) as [g|]; [|done].
  destruct (_ && _); [|by apply closeRetiredTab_ok]. pose proof (closeTab_ok (tab_entityId t) record s Hok) as H. destruct (closeTab _ _ _). exact H.
Qed.

Lemma close_all_ok ids s : ok s -> ok (fst (close_all ids s)).
Proof.
  intros Hok. unfold close_all. apply fold_ok; [|done]. intros s' effects id Hs. pose proof (closeUnifiedTab_ok id None false s' Hs) as H.
  destruct (closeUnifiedTab _ _ _ _) as [[s'' more] result]. exact H.
Qed.

Lemma closeOtherTabs_ok tabId s : ok s -> ok (fst (fst (closeOtherTabs tabId s))).
Proof.
  intros Hok. unfold closeOtherTabs. destruct (findTabAndWorktree _ _) as [[t w]|]; [|done]. destruct (findGroupForTab _ _ _) as [g|]; [|done].
  match goal with |- context [close_all ?ids s] => pose proof (close_all_ok ids s Hok) as H; destruct (close_all ids s) end. exact H.
Qed.

Lemma closeTabsToRight_ok tabId s : ok s -> ok (fst (fst (closeTabsToRight tabId s))).
Proof.
  intros Hok. unfold closeTabsToRight. destruct (findTabAndWorktree _ _) as [[t w]|]; [|done]. destruct (findGroupForTab _ _ _) as [g|]; [|done].
  destruct (place _ _); [|done].
  match goal with |- context [close_all ?ids s] => pose proof (close_all_ok ids s Hok) as H; destruct (close_all ids s) end. exact H.
Qed.

Lemma createUnifiedTab_ok w ct init now newId newGroupId s : ok s -> fresh_tab (default newId (ti_id init)) (ts_maps s) -> fresh_group newGroupId (ts_maps s) ->
  (ti_isPreview init = Some true -> ti_activate init <> Some false) -> ok (fst (fst (createUnifiedTab w ct init now newId newGroupId s))).
Proof.
  intros Hok Ht Hg Hp. unfold createUnifiedTab. pose proof (create_ids (worktree w (ts_maps s)) w (default newId (ti_id init)) newGroupId ct now init) as [H1 H2].
  pose proof (create_ok (worktree w (ts_maps s)) w (default newId (ti_id init)) newGroupId ct now init (mo_worktree _ Hok w) (Ht w) Hp) as Hw.
  destruct (create_in _ _ _ _ _ _ _) as [wt created]. apply (put_ok w wt (ts_maps s) [default newId (ti_id init)] [newGroupId]); try done;
    by intros id ->%list_elem_of_singleton.
Qed.

Lemma createInSplit_ok w ct source direction init now newId newGroupId s : ok s -> fresh_tab (default newId (ti_id init)) (ts_maps s) ->
  fresh_group newGroupId (ts_maps s) -> ok (fst (fst (createUnifiedTabInSplit w ct source direction init now newId newGroupId s))).
Proof.
  intros Hok Ht Hg. unfold createUnifiedTabInSplit. destruct (findGroupForTab _ _ _) as [g|] eqn:E; [|done]. apply found_group in E as [Hin Eg].
  cbn [fst]. set (s' := store w _ s). assert (Hs' : ok s').
  { apply (put_ok w _ (ts_maps s) [default newId (ti_id init)] [newGroupId]); [done| | | | by intros id ->%list_elem_of_singleton..].
    - apply split_create_ok; [by apply mo_worktree | rewrite <- Eg; by apply group_id_in | apply Hg | apply Ht | done | |].
      + destruct (default true (ti_activate init)); auto.
      + destruct (default true (ti_activate init)); auto.
    - unfold tab_ids. fields. rewrite fmap_app. intros x [Hx|Hx]%elem_of_app; apply elem_of_app; [by right | left; exact Hx].
    - unfold ids_of_groups, group_ids. fields. rewrite fmap_app. intros x [Hx|Hx]%elem_of_app; apply elem_of_app; [by right | left; exact Hx]. }
  destruct (default true (ti_activate init)); [|exact Hs']. unfold ok. by rewrite patch_surface_maps.
Qed.

Lemma reorder_action_ok groupId tabIds record s : ok s ->
  (forall w g id, g ∈ groups_of (worktree w (ts_maps s)) -> tg_id g = groupId -> id ∈ tabIds <-> id ∈ tg_tabOrder g) ->
  ok (fst (reorderUnifiedTabs groupId tabIds record s)).
Proof.
  intros Hok Hel. unfold reorderUnifiedTabs. destruct (findGroupAndWorktree _ _) as [[g w]|] eqn:E; [|done]. apply found_target in E as [Hg Eg]; [|done].
  cbn [fst]. destruct (reorder_ids g tabIds (worktree w (ts_maps s))). apply put_same_ok; try done.
  apply reorder_ok; [by apply mo_worktree | done | intros id; by apply (Hel w)].
Qed.

Lemma patchTab_ok tabId patch s : ok s -> ok (patchTab tabId patch s).
Proof.
  intros Hok. unfold patchTab. destruct (findTabAndWorktree _ _) as [[t w]|]; [|done]. destruct (patchChangesTab _ _); [|done].
  set (f := fun t => if same (tab_id t) tabId then apply_patch patch t else t).
  assert (Hf1 : forall t, tab_id (f t) = tab_id t) by (intros x; unfold f; destruct (same _ _); [by destruct patch | done]).
  assert (Hf2 : forall t, tab_groupId (f t) = tab_groupId t) by (intros x; unfold f; destruct (same _ _); [by destruct patch | done]).
  apply put_same_ok; [done | apply patch_ok; [by apply mo_worktree | done..] | | done]. unfold tab_ids. fields. by rewrite tab_ids_map.
Qed.

Lemma set_pinned_ok tabId pinned s : ok s -> ok (fst (set_pinned environmentOf tabId pinned s)).
Proof.
  intros Hok. unfold set_pinned. cbn [fst]. destruct (findTabAndWorktree _ _) as [[t w]|] eqn:E; [|done]. apply found_tab in E as [Ht _]; [|done].
  assert (Hput : ok (store w (pin_in t pinned (worktree w (ts_maps s))) s)).
  { destruct (pin_ids t pinned (worktree w (ts_maps s))). apply put_same_ok; try done. apply pin_ok; [by apply mo_worktree | done]. }
  destruct (find_group _ _); [|exact Hput]. unfold ok. by rewrite pinned_maps.
Qed.

Lemma ensureRoot_ok w newGroupId s : ok s -> fresh_group newGroupId (ts_maps s) -> ok (fst (ensureWorktreeRootGroup w newGroupId s)).
Proof.
  intros Hok Hg. unfold ensureWorktreeRootGroup. destruct (groups_of _) as [|g rest] eqn:E; [|done]. cbn [fst].
  apply (put_ok w _ (ts_maps s) [] [newGroupId]); [done | apply root_ok; [by apply mo_worktree | done] | done | | | by intros id ->%list_elem_of_singleton].
  - intros x Hx. apply elem_of_app. by left.
  - intros id H. by apply not_elem_of_nil in H.
Qed.

Lemma focusGroup_ok w groupId s : ok s -> groupId ∈ ids_of_groups (worktree w (ts_maps s)) -> ok (focusGroup w groupId s).
Proof.
  intros Hok Hg. unfold focusGroup. set (s' := store w _ s).
  assert (Hs' : ok s') by (apply put_same_ok; [done | apply focus_ok; [by apply mo_worktree | done] | done | done]).
  case_bool_decide; [|exact Hs']. unfold ok. by rewrite patch_surface_maps, clear_all_maps.
Qed.

Lemma closeEmptyGroup_ok w groupId s : ok s -> ok (fst (closeEmptyGroup w groupId s)).
Proof.
  intros Hok. unfold closeEmptyGroup. destruct (find_group _ _) as [g|] eqn:E; [|done]. apply find_group_some in E as [Hg Eg].
  destruct (tg_tabOrder g) as [|x rest] eqn:Eo; [|done]. subst groupId.
  match goal with |- context [collapseGroupLayout _ _ _ ?fb] => pose proof (close_empty_ok (worktree w (ts_maps s)) g fb (mo_worktree _ Hok w) Hg Eo) as Hc end.
  destruct (collapseGroupLayout _ _ _ _) as [layout active]. cbn [fst]. unfold ok. rewrite patch_surface_maps. apply put_same_ok; [done|exact Hc|done|].
  unfold ids_of_groups. fields. rewrite group_ids_filter. apply without_subset.
Qed.

Lemma emptySplit_ok w source direction newGroupId s : ok s -> source ∈ ids_of_groups (worktree w (ts_maps s)) -> fresh_group newGroupId (ts_maps s) ->
  ok (fst (fst (createEmptySplitGroup w source direction newGroupId s))).
Proof.
  intros Hok Hs Hg. cbn [createEmptySplitGroup fst].
  apply (put_ok w _ (ts_maps s) [] [newGroupId]); [done | apply empty_split_ok; [by apply mo_worktree | exact Hs | apply Hg] | done | | | by intros id ->%list_elem_of_singleton].
  - unfold ids_of_groups, group_ids. fields. rewrite fmap_app. intros x [Hx|Hx]%elem_of_app; apply elem_of_app; [by right | left; exact Hx].
  - intros id H. by apply not_elem_of_nil in H.
Qed.

(** The groups with the id show a tab. *)
Definition group_shows (groupId : jsstring) (s : TabsState) : Prop :=
  forall w g, g ∈ groups_of (worktree w (ts_maps s)) -> tg_id g = groupId -> tg_activeTabId g <> None.

Lemma moveTab_ok tabId targetGroupId index activate record s : ok s -> activate = true \/ group_shows targetGroupId s ->
  ok (fst (fst (moveUnifiedTabToGroup tabId targetGroupId index activate record s))).
Proof.
  intros Hok Hshows. unfold moveUnifiedTabToGroup. destruct (findTabAndWorktree _ _) as [[t w]|] eqn:Et; [|done]. apply found_tab in Et as [Ht _]; [|done].
  destruct (findGroupAndWorktree _ _) as [[target w']|] eqn:Eg; [|done]. apply found_target in Eg as [Hg Eg]; [|done].
  destruct (negb (same w w') || same (tab_groupId t) targetGroupId) eqn:Ec; [done|]. apply orb_false_iff in Ec as [Ew Ec]. apply negb_false_iff in Ew. ids. subst w'.
  destruct (findGroupForTab _ _ _) as [source|] eqn:Es; [|done]. apply found_group in Es as [Hs Es]. cbn [fst]. unfold ok. rewrite patch_surface_maps.
  destruct (move_ids t source target index activate (worktree w (ts_maps s))). apply put_same_ok; try done.
  apply move_in_ok; [by apply mo_worktree|done..|congruence|]. destruct Hshows as [?|Hsh]; [by left|]. right. by apply (Hsh w).
Qed.

Lemma dropTab_ok tabId target newGroupId s : ok s -> fresh_group newGroupId (ts_maps s) -> ok (fst (fst (dropUnifiedTab tabId target newGroupId s))).
Proof.
  intros Hok Hfresh. unfold dropUnifiedTab. destruct (findTabAndWorktree _ _) as [[t w]|] eqn:Et; [|done]. apply found_tab in Et as [Ht _]; [|done].
  destruct (findGroupAndWorktree _ _) as [[targetGroup w']|] eqn:Eg; [|done]. apply found_target in Eg as [Hg Eg]; [|done].
  destruct (negb (same w w')) eqn:Ew; [done|]. apply negb_false_iff in Ew. ids. subst w'.
  destruct (findGroupForTab _ _ _) as [source|] eqn:Es; [|done]. apply found_group in Es as [Hs Es].
  match goal with |- context [if ?c then (s, [], false) else _] => destruct c eqn:Ei end; [done|].
  pose proof (drop_ids t source targetGroup target w newGroupId (worktree w (ts_maps s))) as [H1 H2].
  assert (Hd : worktree_ok (fst (drop_in t source targetGroup target w newGroupId (worktree w (ts_maps s))))).
  { apply drop_ok; [by apply mo_worktree|done..|apply Hfresh|]. destruct (dt_splitDirection target); [by left|]. right. by ids. }
  destruct (drop_in _ _ _ _ _ _ _) as [wt resolved]. cbn [fst] in *. unfold ok. rewrite patch_surface_maps.
  apply (put_ok w wt (ts_maps s) [] [newGroupId]); try done; [intros id H; by apply not_elem_of_nil in H | by intros id ->%list_elem_of_singleton].
Qed.

Lemma copyTab_ok tabId target init now newId newGroupId s : ok s -> fresh_tab (default newId (ti_id init)) (ts_maps s) -> fresh_group newGroupId (ts_maps s) ->
  ok (fst (fst (copyUnifiedTabToGroup tabId target init now newId newGroupId s))).
Proof.
  intros Hok Ht Hg. unfold copyUnifiedTabToGroup. destruct (findTabAndWorktree _ _) as [[t w]|]; [|done]. destruct (findGroupAndWorktree _ _) as [[g w']|]; [|done].
  destruct (same w w'); [|done].
  match goal with |- context [createUnifiedTab w ?ct ?init' now newId newGroupId s] =>
    pose proof (createUnifiedTab_ok w ct init' now newId newGroupId s Hok Ht Hg ltac:(done)) as H; destruct (createUnifiedTab w ct init' now newId newGroupId s) as [[s' effects] created] end.
  exact H.
Qed.

Lemma move_shows tabId target record s : ok s -> group_shows target s ->
  group_shows target (fst (fst (moveUnifiedTabToGroup tabId target None false record s))).
Proof.
  intros Hok Hshows. unfold moveUnifiedTabToGroup. destruct (findTabAndWorktree _ _) as [[t w]|]; [|done].
  destruct (findGroupAndWorktree _ _) as [[g w']|] eqn:Eg; [|done]. apply found_target in Eg as [Hg Eg]; [|done].
  destruct (negb _ || same (tab_groupId t) target) eqn:Ec; [done|]. apply orb_false_iff in Ec as [_ Ec]. ids.
  destruct (findGroupForTab _ _ _) as [source|] eqn:Es; [|done]. apply found_group in Es as [_ Es]. cbn [fst]. intros w2 h. rewrite patch_surface_maps, store_maps, worktree_put.
  case_decide; [subst w2|by apply Hshows]. intros Hh Eh. unfold move_in in Hh.
  set (groups := _ <$> groups_of (worktree w (ts_maps s))) in Hh.
  assert (Hin : h ∈ groups /\ (order_without (tab_id t) source = [] -> tg_id h <> tg_id source)).
  { destruct (order_without _ _) eqn:Eo; [|by split]. destruct (collapseGroupLayout _ _ _ _) as [layout active]. rewrite groups_of_some in Hh.
    apply elem_of_filter in Hh as [Hn Hh]. apply negb_true_iff in Hn. by ids. }
  clear Hh. destruct Hin as [Hin Hlast]. unfold groups in Hin. apply list_elem_of_fmap in Hin as (k & -> & Hk).
  destruct (same (tg_id k) (tg_id source)) eqn:E1; ids; [|destruct (same (tg_id k) (tg_id g)) eqn:E2; ids; cbn in *].
  - exfalso. cbn in Eh. congruence.
  - by apply (Hshows w).
  - by apply (Hshows w).
Qed.

Lemma merge_ok w groupId s : ok s ->
  (forall layout sibling, wt_layout (worktree w (ts_maps s)) = Some layout -> findSiblingGroupId layout groupId = Some sibling -> group_shows sibling s) ->
  ok (fst (fst (mergeGroupIntoSibling w groupId s))).
Proof.
  intros Hok Hshows. unfold mergeGroupIntoSibling. destruct (find_group _ _) as [source|]; [|done]. destruct (wt_layout _) as [layout|] eqn:El; [|done].
  destruct (_ <=? _)%nat; [done|]. destruct (truthy (findSiblingGroupId layout groupId)) as [sibling|] eqn:Es; [|done].
  assert (Hsib : findSiblingGroupId layout groupId = Some sibling) by (destruct (findSiblingGroupId layout groupId) as [[|u l]|]; cbn in Es; congruence).
  specialize (Hshows layout sibling eq_refl Hsib). set (items := List.filter _ _). clearbody items.
  match goal with |- context [fold_left ?f ?l (s, [])] =>
    assert (H : forall ids st, ok (fst st) /\ group_shows sibling (fst st) -> ok (fst (fold_left f ids st)) /\ group_shows sibling (fst (fold_left f ids st))) end.
  { induction ids as [|id ids IH]; intros [s' effects] [H1 H2]; cbn [fold_left]; [done|]. apply IH. destruct (find_tab id items) as [item|]; [|done].
    pose proof (moveTab_ok (tab_id item) sibling None false (Some false) s' H1 (or_intror H2)) as Hm.
    pose proof (move_shows (tab_id item) sibling (Some false) s' H1 H2) as Hs. destruct (moveUnifiedTabToGroup _ _ _ _ _ _) as [[s2 more] moved]. done. }
  specialize (H (tg_tabOrder source) (s, []) (conj Hok Hshows)). destruct (fold_left _ _ _) as [s' effects]. destruct H as [H _].
  pose proof (closeEmptyGroup_ok w groupId s' H) as Hc. destruct (closeEmptyGroup w groupId s') as [s2 closed]. exact Hc.
Qed.

Lemma ratio_action_ok w path ratio s : ok s -> ok (setTabGroupSplitRatio w path ratio s).
Proof.
  intros Hok. unfold setTabGroupSplitRatio. destruct (wt_layout _) as [layout|] eqn:E; [|done]. apply put_same_ok; [done | | done | done].
  apply ratio_ok; [by apply mo_worktree | done].
Qed.

Lemma prune_layout_none live wt : wt_layout (prune_in live wt) = None -> wt_layout wt = None.
Proof.
  unfold prune_in. cbn [wt_layout]. set (groups := match List.filter (isRenderableTab live) (tabs_of wt) with [] => _ | _ => _ end).
  destruct (wt_layout wt) as [layout|]; [|done]. destruct groups as [|g rest]; cbn; [done|]. by destruct (pruneTabGroupLayoutForGroups _ _).
Qed.

Lemma restore_layout_none legacy remembered w newGroupId wt : wt_layout (restore_in legacy remembered w newGroupId wt) = None -> wt_layout wt = None.
Proof.
  unfold restore_in. destruct legacy; [done|]. destruct (ensureGroup _ _ _ _ _) as [[g groups] active]. cbn [wt_layout]. by destruct (wt_layout wt).
Qed.

(** What reconciling needs: the terminals it restores have ids no tab has. *)
Definition restorable (w : jsstring) (s : TabsState) : Prop :=
  NoDup (tt_id <$> legacyRuntimeTerminalTabs s w) /\ forall id, id ∈ (tt_id <$> legacyRuntimeTerminalTabs s w) -> fresh_tab id (ts_maps s).

Lemma reconcile_ok w newGroupId s : ok s -> restorable w s -> fresh_group newGroupId (ts_maps s) -> ok (fst (fst (reconcileWorktreeTabModel w newGroupId s))).
Proof.
  intros Hok [Hn Hfresh] Hg. unfold reconcileWorktreeTabModel.
  set (legacy := legacyRuntimeTerminalTabs s w) in *. set (remembered := default None (rec_get w (activeTabIdByWorktree (ts_surface s)))).
  set (restored := restore_in legacy remembered w newGroupId (worktree w (ts_maps s))). set (next := prune_in (live_ids s w) restored).
  destruct (_ || match getOrphanTerminalIds s w with [] => false | _ => true end); [|done]. cbn [fst]. unfold ok. rewrite store_maps. cbn [with_unread ts_maps]. rewrite cleanup_maps.
  assert (Hnext : worktree_ok next).
  { apply reconcile_in_ok, restore_ok; [by apply mo_worktree | done | intros id Hid; apply (Hfresh id Hid)]. }
  destruct (restore_ids legacy remembered w newGroupId (worktree w (ts_maps s))) as [H1 H2]. fold restored in H1, H2.
  destruct (prune_ids (live_ids s w) restored) as [H3 H4]. fold next in H3, H4.
  assert (Hlayout : or_else (wt_layout next) (wt_layout (worktree w (ts_maps s))) = wt_layout next).
  { destruct (wt_layout next) eqn:E; [done|]. by apply prune_layout_none, restore_layout_none in E. }
  rewrite Hlayout.
  apply (put_ok w _ (ts_maps s) (tt_id <$> legacy) [newGroupId]); [done| | | |done|by intros id ->%list_elem_of_singleton].
  - by destruct next.
  - intros x Hx. apply H1, H3. exact Hx.
  - intros x Hx. apply H2, H4. exact Hx.
Qed.
End actions.
