(* ===== verification/TabSpec.v ===== *)
(** What the tab store promises ([TabStore.v], [TabActions.v], [TabReconcile.v]): its
    sequences of actions, where a dropped tab goes, which tab is shown after a close, which
    drops change nothing, and what reconciling leaves. *)

From stdpp Require Import base list sets strings.
From Stdlib Require Import ZArith Lia ZifyBool SpecFloat.
From S2P Require Import Prelude JsText JsRecord Json.
From S2P Require Import KeySyntax.
From S2P Require Import TabModel.
From S2P Require Import TabStore.
From S2P Require Import TabActions.
From S2P Require Import TabReconcile.
From S2P Require Import TabLaws.
From S2P Require Import TabInvariant.
From S2P Require Import TabRepair.
From S2P Require Import TabSafety.

Open Scope Z_scope.

#[local] Set Warnings "-clear-no-such-hyp".

(** ** Sequences of actions *)

Definition empty_maps : TabMaps := mkMaps [] [] [] [].

Inductive TabAction :=
  | do_create (worktreeId : jsstring) (contentType : TabContentType) (init : TabInit) (now : Z) (newId newGroupId : jsstring)
  | do_createInSplit (worktreeId : jsstring) (contentType : TabContentType) (sourceGroupId : jsstring) (direction : TabSplitDirection) (init : TabInit)
      (now : Z) (newId newGroupId : jsstring)
  | do_activate (tabId : jsstring) (preservePreview : bool)
  | do_close (tabId : jsstring) (recordInteraction : option bool) (terminalRetirementHandled : bool)
  | do_closeTerminal (terminalId : jsstring) (recordInteraction : option bool)
  | do_closeOthers (tabId : jsstring)
  | do_closeToRight (tabId : jsstring)
  | do_reorder (groupId : jsstring) (tabIds : list jsstring) (recordInteraction : option bool)
  | do_patch (tabId : jsstring) (patch : TabPatch)
  | do_rename (tabId : option jsstring)
  | do_pin (tabId : jsstring) (isPinned : bool)
  | do_ensureRoot (worktreeId newGroupId : jsstring)
  | do_focus (worktreeId groupId : jsstring)
  | do_closeEmpty (worktreeId groupId : jsstring)
  | do_emptySplit (worktreeId sourceGroupId : jsstring) (direction : TabSplitDirection) (newGroupId : jsstring)
  | do_move (tabId targetGroupId : jsstring) (index : option Z) (activate : bool) (recordInteraction : option bool)
  | do_drop (tabId : jsstring) (target : DropTarget) (newGroupId : jsstring)
  | do_copy (tabId targetGroupId : jsstring) (init : TabInit) (now : Z) (newId newGroupId : jsstring)
  | do_merge (worktreeId groupId : jsstring)
  | do_ratio (worktreeId nodePath : jsstring) (ratio : spec_float)
  | do_reconcile (worktreeId newGroupId : jsstring).

Section spec.
Context (environmentOf : TabsState -> jsstring -> option jsstring).

Definition tab_action (action : TabAction) (s : TabsState) : TabsState :=
  match action with
  | do_create w ct init now id gid => fst (fst (createUnifiedTab w ct init now id gid s))
  | do_createInSplit w ct source direction init now id gid => fst (fst (createUnifiedTabInSplit w ct source direction init now id gid s))
  | do_activate id preserve => activateTab id preserve s
  | do_close id record handled => fst (fst (closeUnifiedTab id record handled s))
  | do_closeTerminal id record => fst (closeTab id record s)
  | do_closeOthers id => fst (fst (closeOtherTabs id s))
  | do_closeToRight id => fst (fst (closeTabsToRight id s))
  | do_reorder gid ids record => fst (reorderUnifiedTabs gid ids record s)
  | do_patch id patch => patchTab id patch s
  | do_rename id => setRenamingTabId id s
  | do_pin id pinned => fst (set_pinned environmentOf id pinned s)
  | do_ensureRoot w gid => fst (ensureWorktreeRootGroup w gid s)
  | do_focus w gid => focusGroup w gid s
  | do_closeEmpty w gid => fst (closeEmptyGroup w gid s)
  | do_emptySplit w source direction gid => fst (fst (createEmptySplitGroup w source direction gid s))
  | do_move id gid index activate record => fst (fst (moveUnifiedTabToGroup id gid index activate record s))
  | do_drop id target gid => fst (fst (dropUnifiedTab id target gid s))
  | do_copy id target init now newId gid => fst (fst (copyUnifiedTabToGroup id target init now newId gid s))
  | do_merge w gid => fst (fst (mergeGroupIntoSibling w gid s))
  | do_ratio w path ratio => setTabGroupSplitRatio w path ratio s
  | do_reconcile w gid => fst (fst (reconcileWorktreeTabModel w gid s))
  end.

(** What the callers see to: minted ids are fresh, an order lists the tabs of its group, the
    group of a focus or a split is one of the worktree, a preview is opened on show, and a tab
    moved in the background goes to a group that shows one. *)
Definition allowed (action : TabAction) (s : TabsState) : Prop :=
  let m := ts_maps s in
  match action with
  | do_create _ _ init _ id gid => fresh_tab (default id (ti_id init)) m /\ fresh_group gid m /\ (ti_isPreview init = Some true -> ti_activate init <> Some false)
  | do_createInSplit _ _ _ _ init _ id gid => fresh_tab (default id (ti_id init)) m /\ fresh_group gid m
  | do_reorder gid ids _ => forall w g id, g ∈ groups_of (worktree w m) -> tg_id g = gid -> id ∈ ids <-> id ∈ tg_tabOrder g
  | do_ensureRoot _ gid => fresh_group gid m
  | do_focus w gid => gid ∈ ids_of_groups (worktree w m)
  | do_emptySplit w source _ gid => source ∈ ids_of_groups (worktree w m) /\ fresh_group gid m
  | do_move _ gid _ activate _ => activate = true \/ group_shows gid s
  | do_drop _ _ gid => fresh_group gid m
  | do_copy _ _ init _ id gid => fresh_tab (default id (ti_id init)) m /\ fresh_group gid m
  | do_merge w gid => forall layout sibling, wt_layout (worktree w m) = Some layout -> findSiblingGroupId layout gid = Some sibling -> group_shows sibling s
  | do_reconcile w gid => restorable w s /\ fresh_group gid m
  | _ => True
  end.

(** The states of the store: actions, and changes of the fields other slices own. *)
Inductive tabs_reached : TabsState -> Prop :=
  | tabs_start s : ts_maps s = empty_maps -> tabs_reached s
  | tabs_step s action : tabs_reached s -> allowed action s -> tabs_reached (tab_action action s)
  | tabs_other s s' : tabs_reached s -> ts_maps s' = ts_maps s -> tabs_reached s'.

Lemma empty_model_ok : model_ok empty_maps.
Proof.
  split; cbn; [apply NoDup_nil_2|apply NoDup_nil_2| |intros w w' id H; by apply not_elem_of_nil in H|intros w w' id H; by apply not_elem_of_nil in H].
  intros w. split; cbn; [apply NoDup_nil_2|apply NoDup_nil_2|intros t H; by apply not_elem_of_nil in H|intros g H; by apply not_elem_of_nil in H|done|intros H; by destruct H].
Qed.

Lemma tab_action_ok action s : ok s -> allowed action s -> ok (tab_action action s).
Proof.
  intros Hok H. destruct action; cbn [tab_action allowed] in *.
  - destruct H as (? & ? & ?). by apply createUnifiedTab_ok.
  - destruct H. by apply createInSplit_ok.
  - by apply activateTab_ok.
  - by apply closeUnifiedTab_ok.
  - by apply closeTab_ok.
  - by apply closeOtherTabs_ok.
  - by apply closeTabsToRight_ok.
  - by apply reorder_action_ok.
  - by apply patchTab_ok.
  - done.
  - by apply set_pinned_ok.
  - by apply ensureRoot_ok.
  - by apply focusGroup_ok.
  - by apply closeEmptyGroup_ok.
  - destruct H. by apply emptySplit_ok.
  - by apply moveTab_ok.
  - by apply dropTab_ok.
  - destruct H. by apply copyTab_ok.
  - by apply merge_ok.
  - by apply ratio_action_ok.
  - destruct H. by apply reconcile_ok.
Qed.

Lemma tabs_reached_ok s : tabs_reached s -> ok s.
Proof. induction 1 as [s E|s action Hr IH Ha|s s' Hr IH E]; [unfold ok; rewrite E; exact empty_model_ok | by apply tab_action_ok | by unfold ok; rewrite E]. Qed.

(** C3. In a store that starts empty, whatever is created, closed, moved, dropped, pinned, merged
    or reconciled, and in any order, as [allowed]: every tab is in the order of the one group it
    names, and in no other place of any worktree; a group that has tabs shows one of them; and
    the layout of a worktree has each of its groups exactly once, the active one among them.
    [allowed] asks that minted ids are fresh, that a new order lists the tabs of its group, that
    the group of a focus or a split is one of the worktree, that a preview is opened on show, that
    terminals are restored under ids no tab has, and that a merge or a move in the background
    goes to a group that shows a tab ([merge_shows_nothing] in [TabSettle.v] does not). *)
Theorem tabs_in_place s : tabs_reached s ->
  forall w, let wt := worktree w (ts_maps s) in
  (forall t, t ∈ tabs_of wt -> exists g, g ∈ groups_of wt /\ tg_id g = tab_groupId t /\ tab_id t ∈ tg_tabOrder g) /\
  (forall w' g g' id, g ∈ groups_of wt -> g' ∈ groups_of (worktree w' (ts_maps s)) -> id ∈ tg_tabOrder g -> id ∈ tg_tabOrder g' -> w = w' /\ g = g') /\
  (forall g, g ∈ groups_of wt -> NoDup (tg_tabOrder g) /\ (forall id, id ∈ tg_tabOrder g -> exists t, t ∈ tabs_of wt /\ tab_id t = id) /\
     match tg_activeTabId g with Some active => active ∈ tg_tabOrder g | None => tg_tabOrder g = [] end) /\
  match wt_layout wt with Some layout => leaves layout ≡ₚ tg_id <$> groups_of wt | None => groups_of wt = [] end /\
  (groups_of wt <> [] -> exists active, wt_active wt = Some active /\ active ∈ leaves (default (leaf active) (wt_layout wt))).
Proof.
  intros Hr w wt. pose proof (tabs_reached_ok s Hr) as Hm. pose proof (mo_worktree _ Hm w) as Hok. fold wt in Hok.
  split; [|split; [|split; [|split]]].
  - intros t Ht. pose proof (wk_home _ Hok t Ht) as (g & Eg & Hg)%list_elem_of_fmap. exists g. split; [done|]. split; [done|].
    apply (gk_member _ _ (wk_ok _ Hok g Hg)). by exists t.
  - intros w' g g' id Hg Hg' Hin Hin'.
    apply (gk_member _ _ (wk_ok _ Hok g Hg)) in Hin as (t & Ht & Et & Eg). apply (gk_member _ _ (wk_ok _ (mo_worktree _ Hm w') g' Hg')) in Hin' as (t' & Ht' & Et' & Eg').
    assert (w = w') as <-.
    { apply (mo_tab_once _ Hm w w' id); apply list_elem_of_fmap; [by exists t | by exists t']. }
    split; [done|]. apply (group_inj wt g g' Hok Hg Hg'). rewrite <- Eg, <- Eg'. f_equal. apply (tab_inj wt t t' Hok Ht Ht'). congruence.
  - intros g Hg. destruct (wk_ok _ Hok g Hg) as [Ho Hmem Hs _ _]. split; [done|]. split; [|done].
    intros id Hid. apply Hmem in Hid as (t & Ht & Et & _). by exists t.
  - pose proof (wk_layout _ Hok) as Hl. unfold layout_ok in Hl. destruct (wt_layout wt); [done|]. by apply fmap_nil_inv in Hl.
  - intros Hne. destruct (wk_active _ Hok) as (a & Ea & Ha); [intros E; by apply fmap_nil_inv in E|]. exists a. split; [done|].
    pose proof (wk_layout _ Hok) as Hl. unfold layout_ok in Hl. destruct (wt_layout wt); cbn; [by rewrite Hl | by left].
Qed.
End spec.

(** ** An example *)

(** Freshness of an id, as a test of the records. *)
Definition unused_tab (id : jsstring) (m : TabMaps) : bool := forallb (fun entry => negb (memb id (tab_id <$> snd entry))) (unifiedTabsByWorktree m).
Definition unused_group (id : jsstring) (m : TabMaps) : bool := forallb (fun entry => negb (memb id (tg_id <$> snd entry))) (groupsByWorktree m).

Lemma unused_list {A} (f : A -> jsstring) id w (m : jsrecord (list A)) : forallb (fun entry => negb (memb id (f <$> snd entry))) m = true -> id ∉ (f <$> rec_list w m).
Proof.
  unfold rec_list. induction m as [|[k v] m IH]; [intros _; apply not_elem_of_nil|]. cbn [forallb rec_get snd]. intros [H1 H2]%andb_true_iff.
  case_decide; [by apply memb_false, negb_true_iff|by apply IH].
Qed.

Lemma unused_tab_fresh id m : unused_tab id m = true -> fresh_tab id m.
Proof. intros H w. by apply (unused_list tab_id id w). Qed.

Lemma unused_group_fresh id m : unused_group id m = true -> fresh_group id m.
Proof. intros H w. by apply (unused_list tg_id id w). Qed.

(** A worktree [w] on show with two editors in the group [g] and one in the group [h] beside it. *)
Definition no_environment (s : TabsState) (worktreeId : jsstring) : option jsstring := None.

Definition empty_start : TabsState :=
  mkTabs empty_maps None (mkSurface None None None vt_terminal [] [] [] []) (Some (js "w")) None [] [] [] [] [] [].

Definition demo_actions : list TabAction :=
  [do_create (js "w") ct_editor no_init 1 (js "a") (js "g"); do_create (js "w") ct_editor no_init 2 (js "b") (js "g2");
   do_createInSplit (js "w") ct_editor (js "g") to_right no_init 3 (js "c") (js "h")].

Definition demo : TabsState := fold_left (fun s action => tab_action no_environment action s) demo_actions empty_start.

Lemma demo_reached : tabs_reached no_environment demo.
Proof.
  unfold demo, demo_actions. cbn [fold_left].
  apply tabs_step; [apply tabs_step; [apply tabs_step; [by apply tabs_start|]|]|].
  - split; [apply unused_tab_fresh | split; [apply unused_group_fresh | done]]; vm_compute; reflexivity.
  - split; [apply unused_tab_fresh | split; [apply unused_group_fresh | done]]; vm_compute; reflexivity.
  - split; [apply unused_tab_fresh | apply unused_group_fresh]; vm_compute; reflexivity.
Qed.

Lemma tabs_in_place_witness :
  tabs_reached no_environment demo /\ List.length (groups_of (worktree (js "w") (ts_maps demo))) = 2%nat /\
  match wt_layout (worktree (js "w") (ts_maps demo)) with
  | Some layout => leaves layout ≡ₚ tg_id <$> groups_of (worktree (js "w") (ts_maps demo))
  | None => groups_of (worktree (js "w") (ts_maps demo)) = []
  end.
Proof. split; [exact demo_reached|]. split; [vm_compute; reflexivity|]. apply (tabs_in_place no_environment demo demo_reached (js "w")). Defined.
