(* ===== verification/TabDrop.v ===== *)
(** Drops of tabs ([TabActions.v]): where a dropped tab goes, the drops the code calls
    no-ops, and the focus after a drop. *)

From stdpp Require Import base list sets strings.
From Stdlib Require Import ZArith Lia ZifyBool SpecFloat.
From S2P Require Import Prelude JsText JsRecord Json.
From S2P Require Import KeySyntax.
From S2P Require Import TabModel.
From S2P Require Import TabStore.
From S2P Require Import TabActions.
From S2P Require Import TabReconcile.
From S2P Require Import TabLaws.
From S2P Require Import TabInvariant.
From S2P Require Import TabSafety.
From S2P Require Import TabSpec.

Open Scope Z_scope.

#[local] Set Warnings "-clear-no-such-hyp".

(** ** Layouts up to names and ratios *)

Fixpoint rename_leaf (old new : jsstring) (node : TabGroupLayoutNode) : TabGroupLayoutNode :=
  match node with
  | leaf id => if same id old then leaf new else node
  | split direction first second ratio => split direction (rename_leaf old new first) (rename_leaf old new second) ratio
  end.

Fixpoint without_ratios (node : TabGroupLayoutNode) : TabGroupLayoutNode :=
  match node with
  | leaf id => leaf id
  | split direction first second _ => split direction (without_ratios first) (without_ratios second) None
  end.

Lemma rename_absent old new node : old ∉ leaves node -> rename_leaf old new node = node.
Proof.
  induction node as [id|d first IH1 second IH2 r]; cbn.
  - intros H. destruct (same id old) eqn:E; [|done]. ids. subst. destruct H. by left.
  - rewrite elem_of_app. intros H. rewrite IH1, IH2 by tauto. done.
Qed.

Lemma rename_back old new node : new ∉ leaves node -> rename_leaf new old (rename_leaf old new node) = node.
Proof.
  induction node as [id|d first IH1 second IH2 r]; cbn.
  - intros H. destruct (same id old) eqn:E; cbn; ids; [by subst|]. destruct (same id new) eqn:E2; [|done]. ids. subst. destruct H. by left.
  - rewrite elem_of_app. intros H. rewrite IH1, IH2 by tauto. done.
Qed.

Lemma removeLeaf_absent root target : NoDup (leaves root) -> target ∉ leaves root -> removeLeaf root target = Some root.
Proof.
  induction root as [x|d first IH1 second IH2 r]; cbn.
  - intros _ H. destruct (same x target) eqn:E; [|done]. ids. subst. destruct H. by left.
  - intros (H1 & _ & H3)%NoDup_app. rewrite elem_of_app. intros H.
    destruct (is_leaf_of first target) eqn:E1; [apply is_leaf_of_true in E1 as ->; destruct H; left; by left|].
    destruct (is_leaf_of second target) eqn:E2; [apply is_leaf_of_true in E2 as ->; destruct H; right; by left|].
    rewrite IH1, IH2 by tauto. done.
Qed.

Lemma split_no_leaf root target id direction other : target ∈ leaves root ->
  is_leaf_of (replaceLeaf root target (buildSplitNode target id direction)) other = false.
Proof. destruct root as [x|]; cbn; [|done]. intros ->%list_elem_of_singleton. by rewrite same_refl. Qed.

(** A group dropped beside itself has the new one in its place. *)
Lemma split_self root target id direction : NoDup (leaves root) -> target ∈ leaves root -> id <> target ->
  removeLeaf (replaceLeaf root target (buildSplitNode target id direction)) target = Some (rename_leaf target id root).
Proof.
  induction root as [x|d first IH1 second IH2 r]; cbn [leaves replaceLeaf rename_leaf].
  - intros _ ->%list_elem_of_singleton Hne. rewrite same_refl. apply same_false in Hne as Hs. unfold buildSplitNode. destruct direction; cbn; by rewrite ?same_refl, ?Hs.
  - intros (H1 & H2 & H3)%NoDup_app [Hin|Hin]%elem_of_app Hne.
    + assert (Hout : target ∉ leaves second) by (by apply H2). rewrite (replaceLeaf_absent second), (rename_absent _ _ second) by done.
      cbn. rewrite split_no_leaf by done. destruct (is_leaf_of second target) eqn:E; [apply is_leaf_of_true in E as ->; destruct Hout; by left|].
      by rewrite IH1, removeLeaf_absent by done.
    + assert (Hout : target ∉ leaves first) by (intros Hf; by apply (H2 target)). rewrite (replaceLeaf_absent first), (rename_absent _ _ first) by done.
      cbn. rewrite split_no_leaf by done. destruct (is_leaf_of first target) eqn:E; [apply is_leaf_of_true in E as ->; destruct Hout; by left|].
      by rewrite IH2, removeLeaf_absent by done.
Qed.

Lemma direct_sibling direction first second target splitDirection id :
  getDirectLayoutSiblingOnSplitSide direction first second target splitDirection = Some id ->
  (first = leaf target /\ second = leaf id /\ direction = split_axis splitDirection /\ new_first splitDirection = false) \/
  (second = leaf target /\ first = leaf id /\ direction = split_axis splitDirection /\ new_first splitDirection = true).
Proof.
  unfold getDirectLayoutSiblingOnSplitSide.
  destruct (is_leaf_of first target) eqn:E1; [apply is_leaf_of_true in E1|];
    (destruct (is_leaf_of second target) eqn:E2; [apply is_leaf_of_true in E2|]); try done;
    destruct direction, splitDirection, first, second; cbn in *; intros H; simplify_eq; auto.
Qed.

Lemma sibling_leaves root target splitDirection id : findLayoutSiblingOnSplitSide root target splitDirection = Some id ->
  target ∈ leaves root /\ id ∈ leaves root.
Proof.
  induction root as [x|d first IH1 second IH2 r]; cbn; [done|]. rewrite !elem_of_app.
  destruct (truthy _) as [found|] eqn:E.
  - intros [= ->]. assert (getDirectLayoutSiblingOnSplitSide d first second target splitDirection = Some id) as H
      by (destruct (getDirectLayoutSiblingOnSplitSide _ _ _ _ _) as [[|]|]; cbn in E; congruence).
    apply direct_sibling in H as [(-> & -> & _)|(-> & -> & _)]; split; first [by (left; left) | by (right; left)].
  - destruct (findLayoutSiblingOnSplitSide first target splitDirection) as [found|]; [intros [= ->]; destruct (IH1 eq_refl); auto|].
    intros H. destruct (IH2 H). auto.
Qed.

(** A group dropped on the side where it is already has the new one in its place. *)
Lemma split_sibling root source target id direction : NoDup (leaves root) -> id ∉ leaves root ->
  findLayoutSiblingOnSplitSide root target direction = Some source ->
  exists rest, removeLeaf (replaceLeaf root target (buildSplitNode target id direction)) source = Some rest /\
    without_ratios (rename_leaf id source rest) = without_ratios root.
Proof.
  induction root as [x|d first IH1 second IH2 r]; cbn [leaves]; [done|]. intros (H1 & H2 & H3)%NoDup_app Hid Hf.
  rewrite elem_of_app in Hid. cbn [findLayoutSiblingOnSplitSide] in Hf. destruct (truthy _) as [found|] eqn:E.
  - injection Hf as ->. assert (Hd : getDirectLayoutSiblingOnSplitSide d first second target direction = Some source)
      by (destruct (getDirectLayoutSiblingOnSplitSide _ _ _ _ _) as [[|]|]; cbn in E; congruence).
    assert (Hne : source <> target) by (apply direct_sibling in Hd as [(-> & -> & _)|(-> & -> & _)]; intros ->; apply (H2 target); by left).
    apply same_false in Hne as Hs1. apply not_eq_sym, same_false in Hne as Hs2.
    assert (Hidn : id <> target /\ id <> source) by (apply direct_sibling in Hd as [(-> & -> & _)|(-> & -> & _)]; cbn in Hid; rewrite !list_elem_of_singleton in Hid; tauto).
    destruct Hidn as [Ht' Hs']. apply not_eq_sym, same_false in Ht' as Hs3. apply not_eq_sym, same_false in Hs' as Hs4.
    apply direct_sibling in Hd as [(-> & -> & -> & En)|(-> & -> & -> & En)]; cbn [replaceLeaf]; rewrite same_refl, Hs1; unfold buildSplitNode; rewrite En; cbn;
      rewrite ?same_refl, ?Hs1, ?Hs2, ?Hs3, ?Hs4; eexists; (split; [reflexivity|]); cbn; by rewrite ?same_refl, ?Hs1, ?Hs2, ?Hs3, ?Hs4.
  - cbn [replaceLeaf]. destruct (findLayoutSiblingOnSplitSide first target direction) as [found|] eqn:Ef.
    + injection Hf as ->. destruct (sibling_leaves _ _ _ _ Ef) as [Ht Hs]. destruct (IH1 H1 ltac:(tauto) eq_refl) as (rest & Hr & Hshape).
      rewrite (replaceLeaf_absent second) by (by apply H2). cbn [removeLeaf]. rewrite split_no_leaf by done.
      assert (Hout : source ∉ leaves second) by by apply H2. destruct (is_leaf_of second source) eqn:E2; [apply is_leaf_of_true in E2 as ->; destruct Hout; by left|].
      rewrite Hr, removeLeaf_absent by done. eexists. split; [reflexivity|]. cbn. rewrite Hshape, (rename_absent id source second) by tauto. done.
    + destruct (sibling_leaves _ _ _ _ Hf) as [Ht Hs]. destruct (IH2 H3 ltac:(tauto) Hf) as (rest & Hr & Hshape).
      rewrite (replaceLeaf_absent first) by (intros Hx; by apply (H2 target)). cbn [removeLeaf].
      assert (Hout : source ∉ leaves first) by (intros Hx; by apply (H2 source)). destruct (is_leaf_of first source) eqn:E1; [apply is_leaf_of_true in E1 as ->; destruct Hout; by left|].
      rewrite split_no_leaf by done. rewrite removeLeaf_absent, Hr by done. eexists. split; [reflexivity|]. cbn. rewrite Hshape, (rename_absent id source first) by tauto. done.
Qed.

(** A split drop called a no-op, carried out, gives the layout with the new group for the old one. *)
Lemma noop_layout layout source target id direction count : NoDup (leaves layout) -> id ∉ leaves layout -> target ∈ leaves layout ->
  isPaneColumnSplitDropNoOp source target direction count (Some layout) = true ->
  exists rest, removeLeaf (split_beside (Some layout) target id direction) source = Some rest /\ without_ratios (rename_leaf id source rest) = without_ratios layout.
Proof.
  intros Hn Hid Ht. unfold isPaneColumnSplitDropNoOp, split_beside. cbn [default from_option]. unfold Datatypes.id.
  destruct (same source target) eqn:E; cbn [andb].
  - ids. subst source. intros _. exists (rename_leaf target id layout). split; [|by rewrite rename_back].
    apply split_self; [done|done|]. intros ->. done.
  - intros Hc. apply andb_true_iff in Hc as [_ Hc]. apply bool_decide_eq_true in Hc. by apply split_sibling.
Qed.

(** ** Lookups in a well-formed store *)

Lemma find_tab_in t tabs : t ∈ tabs -> exists t', find_tab (tab_id t) tabs = Some t'.
Proof.
  intros Ht. destruct (find_tab (tab_id t) tabs) as [t'|] eqn:E; [by exists t'|]. apply find_tab_none in E. destruct E. apply list_elem_of_fmap. by exists t.
Qed.

Lemma tab_found m w t : model_ok m -> t ∈ tabs_of (worktree w m) -> findTabAndWorktree (unifiedTabsByWorktree m) (tab_id t) = Some (t, w).
Proof.
  intros Hm Ht. destruct (findTabAndWorktree (unifiedTabsByWorktree m) (tab_id t)) as [[t' w']|] eqn:E.
  - pose proof (found_tab m (tab_id t) t' w' Hm E) as [Ht' Et']. assert (w' = w) as ->.
    { apply (mo_tab_once _ Hm w' w (tab_id t)); apply list_elem_of_fmap; [by exists t' | by exists t]. }
    by rewrite (tab_inj _ t' t (mo_worktree _ Hm w) Ht' Ht Et').
  - exfalso. unfold tabs_of, worktree in Ht. cbn [wt_tabs] in Ht. destruct (rec_get w (unifiedTabsByWorktree m)) as [tabs|] eqn:Eg; [|by apply not_elem_of_nil in Ht].
    apply rec_get_elem in Eg. cbn in Ht. unfold Datatypes.id in Ht. destruct (find_tab_in t tabs Ht) as [t' Ef]. clear Hm.
    induction (unifiedTabsByWorktree m) as [|[k ts] rest IH]; [by apply not_elem_of_nil in Eg|]. cbn in E. destruct (find_tab (tab_id t) ts) as [|] eqn:Ek; [done|].
    apply elem_of_cons in Eg as [Eg|Eg]; [injection Eg as -> ->; congruence | by apply IH].
Qed.

Lemma find_group_in g groups : g ∈ groups -> exists g', find_group (tg_id g) groups = Some g'.
Proof.
  intros Hg. destruct (find_group (tg_id g) groups) as [g'|] eqn:E; [by exists g'|]. apply find_group_none in E. destruct E. by apply group_id_in.
Qed.

Lemma group_found_in wt g : worktree_ok wt -> g ∈ groups_of wt -> find_group (tg_id g) (groups_of wt) = Some g.
Proof.
  intros Hok Hg. destruct (find_group_in g _ Hg) as [g' E]. rewrite E. apply find_group_some in E as [Hg' E]. f_equal. by apply (group_inj wt g' g Hok).
Qed.

Lemma group_found m w g : model_ok m -> g ∈ groups_of (worktree w m) -> findGroupAndWorktree (groupsByWorktree m) (tg_id g) = Some (g, w).
Proof.
  intros Hm Hg. destruct (findGroupAndWorktree (groupsByWorktree m) (tg_id g)) as [[g' w']|] eqn:E.
  - pose proof (found_target m (tg_id g) g' w' Hm E) as [Hg' Eg']. assert (w' = w) as ->.
    { apply (mo_group_once _ Hm w' w (tg_id g)); [rewrite <- Eg'|]; by apply group_id_in. }
    by rewrite (group_inj _ g' g (mo_worktree _ Hm w) Hg' Hg Eg').
  - exfalso. unfold groups_of, worktree in Hg. cbn [wt_groups] in Hg. destruct (rec_get w (groupsByWorktree m)) as [groups|] eqn:Eg; [|by apply not_elem_of_nil in Hg].
    apply rec_get_elem in Eg. cbn in Hg. unfold Datatypes.id in Hg. destruct (find_group_in g groups Hg) as [g' Ef]. clear Hm.
    induction (groupsByWorktree m) as [|[k gs] rest IH]; [by apply not_elem_of_nil in Eg|]. cbn in E. destruct (find_group (tg_id g) gs) as [|] eqn:Ek; [done|].
    apply elem_of_cons in Eg as [Eg|Eg]; [injection Eg as -> ->; congruence | by apply IH].
Qed.

(** ** Where a dropped tab goes *)

(** The group that receives the tab, and its order before. *)
Definition receiver (target : DropTarget) (newGroupId : jsstring) : jsstring := match dt_splitDirection target with Some _ => newGroupId | None => dt_groupId target end.

Definition order_before (groupId : jsstring) (wt : Worktree) : list jsstring := match find_group groupId (groups_of wt) with Some g => tg_tabOrder g | None => [] end.

Lemma without_off id order g tabs : group_ok tabs g -> ~ member tabs (tg_id g) id -> order = tg_tabOrder g -> without id order = order.
Proof. intros Hg Hn ->. apply without_absent. by rewrite (gk_member _ _ Hg). Qed.

(** The groups of a worktree after a drop. *)
Lemma drop_groups wt t source targetGroup target w newGroupId g : worktree_ok wt -> t ∈ tabs_of wt -> source ∈ groups_of wt -> targetGroup ∈ groups_of wt ->
  tg_id source = tab_groupId t -> tg_id targetGroup = dt_groupId target -> newGroupId ∉ group_ids (groups_of wt) ->
  dt_splitDirection target <> None \/ tab_groupId t <> dt_groupId target ->
  g ∈ groups_of (fst (drop_in t source targetGroup target w newGroupId wt)) ->
  if decide (tg_id g = receiver target newGroupId)
  then tg_tabOrder g = order_with (tab_id t) (dt_index target) (order_before (receiver target newGroupId) wt) /\ tg_activeTabId g = Some (tab_id t)
  else exists h, h ∈ groups_of wt /\ tg_id h = tg_id g /\ tg_tabOrder g = without (tab_id t) (tg_tabOrder h).
Proof.
  intros Hok Ht Hs Hg Hhome Htarget Hnew Hmoves Hin. unfold drop_in in Hin.
  destruct (drop_destination _ _ _ _) as [[[groups layout] active] resolved] eqn:Ed.
  assert (Hres : resolved = receiver target newGroupId) by (unfold drop_destination in Ed; unfold receiver; destruct (dt_splitDirection target); by injection Ed as _ _ _ <-).
  assert (Hbefore : tg_tabOrder (default targetGroup (find_group resolved groups)) = order_before resolved wt).
  { unfold order_before, drop_destination in *. destruct (dt_splitDirection target) as [direction|]; injection Ed as <- _ _ <-.
    - destruct (find_group newGroupId (groups_of wt)) as [h|] eqn:E; [apply find_group_some in E as [Hh <-]; destruct Hnew; by apply group_id_in|].
      destruct (find_group newGroupId (groups_of wt ++ _)) as [h|] eqn:E2; cbn.
      + apply find_group_some in E2 as [[Hh|Hh]%elem_of_app E2]; [apply find_group_none in E; destruct E; rewrite <- E2; by apply group_id_in|].
        apply list_elem_of_singleton in Hh as ->. done.
      + apply find_group_none in E2. destruct E2. apply list_elem_of_fmap. eexists. split; [|apply elem_of_app; right; by left]. done.
    - rewrite <- Htarget. by rewrite (group_found_in wt targetGroup Hok Hg). }
  set (next := _ <$> groups) in Hin.
  assert (Hnext : g ∈ next).
  { destruct (order_without _ _); [destruct (collapseGroupLayout _ _ _ _) as [layout' active']|]; cbn [fst] in Hin; rewrite groups_of_some in Hin; [by apply elem_of_filter in Hin as [_ ?] | done]. }
  clear Hin. unfold next in Hnext. apply list_elem_of_fmap in Hnext as (k & -> & Hk). rewrite Hbefore.
  assert (Hk' : k ∈ groups_of wt \/ tg_id k = resolved).
  { unfold drop_destination in Ed. destruct (dt_splitDirection target); injection Ed as <- _ _ <-; [|by left].
    apply elem_of_app in Hk as [Hk|Hk]; [by left|]. apply list_elem_of_singleton in Hk as ->. by right. }
  assert (Hne : tg_id source <> resolved).
  { rewrite Hres. unfold receiver. destruct (dt_splitDirection target); [intros E; apply Hnew; rewrite <- E; by apply group_id_in|]. destruct Hmoves; congruence. }
  rewrite <- Hres. destruct (same (tg_id k) (tg_id source)) eqn:E1; ids; [|destruct (same (tg_id k) resolved) eqn:E2; ids].
  - rewrite decide_False by (cbn; congruence). exists source. split; [done|]. split; [cbn; congruence|]. cbn.
    apply order_without_same, (gk_order _ _ (wk_ok _ Hok source Hs)).
  - rewrite decide_True by done. done.
  - rewrite decide_False by done. destruct Hk' as [Hk'|]; [|done]. exists k. split; [done|]. split; [done|]. symmetry.
    apply (without_off _ _ k (tabs_of wt)); [by apply (wk_ok _ Hok)| |done]. intros Hm. apply (member_home wt t _ Hok Ht) in Hm. congruence.
Qed.

Lemma drop_worktree t source targetGroup target w newGroupId wt : tabs_of (fst (drop_in t source targetGroup target w newGroupId wt)) = moved_tabs (tab_id t) (receiver target newGroupId) (tabs_of wt).
Proof.
  unfold drop_in, receiver. destruct (drop_destination _ _ _ _) as [[[groups layout] active] resolved] eqn:Ed.
  assert (Hres : resolved = match dt_splitDirection target with Some _ => newGroupId | None => dt_groupId target end)
    by (unfold drop_destination in Ed; destruct (dt_splitDirection target); by injection Ed as _ _ _ <-). rewrite <- Hres.
  by destruct (order_without _ _); [destruct (collapseGroupLayout _ _ _ _)|].
Qed.

(** Dropped at an index: what was before it, the tab, what was after it; last without an index. *)
Definition dropped_at (tabId : jsstring) (index : option Z) (before after : list jsstring) : Prop :=
  exists left right, before = left ++ right /\ after = left ++ tabId :: right /\
    match index with
    | Some i => Z.of_nat (List.length left) = Z.max 0 (Z.min i (Z.of_nat (List.length before)))
    | None => right = []
    end.

Lemma order_with_at tabId index tabOrder : NoDup tabOrder -> tabId ∉ tabOrder -> dropped_at tabId index tabOrder (order_with tabId index tabOrder).
Proof.
  intros Hn Ht. unfold order_with. rewrite without_absent, dedupe_same by done. set (n := Z.to_nat _).
  exists (take n tabOrder), (drop n tabOrder). split; [by rewrite take_drop|]. split; [done|]. destruct index as [i|]; cbn [default from_option Datatypes.id] in n.
  - rewrite length_take. unfold n. lia.
  - apply drop_ge. unfold n. cbn. lia.
Qed.

(** The receiver does not have the tab before. *)
Lemma receiver_before wt t target newGroupId : worktree_ok wt -> t ∈ tabs_of wt -> newGroupId ∉ group_ids (groups_of wt) ->
  dt_splitDirection target <> None \/ tab_groupId t <> dt_groupId target ->
  NoDup (order_before (receiver target newGroupId) wt) /\ (tab_id t ∉ order_before (receiver target newGroupId) wt).
Proof.
  intros Hok Ht Hnew Hmoves. unfold order_before. destruct (find_group _ _) as [g|] eqn:E; [|split; [constructor | apply not_elem_of_nil]].
  apply find_group_some in E as [Hg E]. split; [apply (gk_order _ _ (wk_ok _ Hok g Hg))|].
  intros Hin. apply (gk_member _ _ (wk_ok _ Hok g Hg)) in Hin. apply (member_home wt t _ Hok Ht) in Hin. rewrite Hin in E. unfold receiver in E.
  destruct (dt_splitDirection target); [|destruct Hmoves; congruence]. subst. apply Hnew. rewrite <- Hin. by apply group_id_in.
Qed.

(** ** The layout after a drop *)

(** A new group directly beside another one, on the side it was split off. *)
Fixpoint beside (direction : TabSplitDirection) (old new : jsstring) (node : TabGroupLayoutNode) : Prop :=
  match node with
  | leaf _ => False
  | split axis first second _ =>
      axis = split_axis direction /\ first = leaf (if new_first direction then new else old) /\ second = leaf (if new_first direction then old else new) \/
      beside direction old new first \/ beside direction old new second
  end.

Lemma split_is_beside root target id direction : target ∈ leaves root -> beside direction target id (replaceLeaf root target (buildSplitNode target id direction)).
Proof.
  induction root as [x|d first IH1 second IH2 r]; cbn [leaves replaceLeaf beside].
  - intros ->%list_elem_of_singleton. rewrite same_refl. cbn. left. by destruct (new_first direction).
  - intros [Hin|Hin]%elem_of_app; right; auto.
Qed.

Lemma beside_stays direction old new gone root : beside direction old new root -> gone <> old -> gone <> new ->
  exists rest, removeLeaf root gone = Some rest /\ beside direction old new rest.
Proof.
  intros H Ho Hn. induction root as [x|d first IH1 second IH2 r]; [done|]. cbn [removeLeaf].
  destruct (is_leaf_of first gone) eqn:E1; [apply is_leaf_of_true in E1 as ->|destruct (is_leaf_of second gone) eqn:E2; [apply is_leaf_of_true in E2 as ->|]].
  - destruct H as [(_ & H & _)|[[]|H]]; [|by exists second]. destruct (new_first direction); congruence.
  - destruct H as [(_ & _ & H)|[H|[]]]; [|by exists first]. destruct (new_first direction); congruence.
  - destruct H as [H|[H|H]].
    + destruct H as (Ed & -> & ->). cbn in E1, E2 |- *. rewrite E1, E2. eexists. split; [reflexivity|]. cbn. by left.
    + destruct (IH1 H) as (first' & -> & H'). destruct (removeLeaf second gone); eexists; (split; [reflexivity|]); cbn; auto.
    + destruct (IH2 H) as (second' & -> & H'). destruct (removeLeaf first gone); eexists; (split; [reflexivity|]); cbn; auto.
Qed.

Lemma leaves_split_order root target id direction : target <> id -> id ∉ leaves root ->
  without id (leaves (replaceLeaf root target (buildSplitNode target id direction))) = leaves root.
Proof.
  intros Hne. induction root as [x|d first IH1 second IH2 r]; cbn [leaves replaceLeaf].
  - rewrite list_elem_of_singleton. intros Hx. destruct (same x target) eqn:E.
    + apply same_true in E as ->. apply same_false in Hne. unfold buildSplitNode, without. destruct (new_first direction); cbn; by rewrite same_refl, Hne.
    + apply not_eq_sym, same_false in Hx. unfold without. cbn. by rewrite Hx.
  - rewrite elem_of_app. intros H. rewrite without_app, IH1, IH2 by tauto. done.
Qed.

Lemma filter_same {A} (f g : A -> bool) l : (forall x, x ∈ l -> f x = g x) -> List.filter f l = List.filter g l.
Proof. intros H. apply List.filter_ext_in. intros x Hx. by apply H, list_elem_of_In. Qed.

Lemma without_comm a b ids : without a (without b ids) = without b (without a ids).
Proof.
  unfold without. induction ids as [|x ids IH]; [done|]. cbn.
  destruct (same x a) eqn:Ea, (same x b) eqn:Eb; cbn; rewrite ?Ea, ?Eb; cbn; by rewrite ?IH.
Qed.

(** The layout of a drop before the group the tab leaves is removed. *)
Definition drop_layout (target : DropTarget) (newGroupId : jsstring) (layout : TabGroupLayoutNode) : TabGroupLayoutNode :=
  match dt_splitDirection target with
  | Some direction => replaceLeaf layout (dt_groupId target) (buildSplitNode (dt_groupId target) newGroupId direction)
  | None => layout
  end.

Lemma drop_in_layout wt t source targetGroup target w newGroupId layout : wt_layout wt = Some layout ->
  wt_layout (fst (drop_in t source targetGroup target w newGroupId wt)) =
  match order_without (tab_id t) source with
  | [] => removeLeaf (drop_layout target newGroupId layout) (tg_id source)
  | _ => Some (drop_layout target newGroupId layout)
  end.
Proof.
  intros El. unfold drop_in, drop_destination, drop_layout, split_beside. rewrite El.
  destruct (dt_splitDirection target), (order_without (tab_id t) source); done.
Qed.

(** A group that does not receive the tab stays, unless the tab was its last. *)
Lemma drop_keeps wt t source targetGroup target w newGroupId h : worktree_ok wt -> t ∈ tabs_of wt -> source ∈ groups_of wt -> tg_id source = tab_groupId t ->
  h ∈ groups_of wt -> tg_id h <> receiver target newGroupId -> tg_tabOrder h <> [tab_id t] ->
  exists g, g ∈ groups_of (fst (drop_in t source targetGroup target w newGroupId wt)) /\ tg_id g = tg_id h /\ tg_tabOrder g = without (tab_id t) (tg_tabOrder h).
Proof.
  intros Hok Ht Hs Hhome Hh Hne Hlast. pose proof (gk_order _ _ (wk_ok _ Hok source Hs)) as Hn. unfold drop_in.
  destruct (drop_destination _ _ _ _) as [[[groups layout] active] resolved] eqn:Ed.
  assert (Hres : resolved = receiver target newGroupId) by (unfold drop_destination in Ed; unfold receiver; destruct (dt_splitDirection target); by injection Ed as _ _ _ <-).
  assert (Hin : h ∈ groups) by (unfold drop_destination in Ed; destruct (dt_splitDirection target); injection Ed as <- _ _ _; [apply elem_of_app; by left | done]).
  set (next := _ <$> groups).
  assert (Hnext : exists g, g ∈ next /\ tg_id g = tg_id h /\ tg_tabOrder g = without (tab_id t) (tg_tabOrder h)).
  { eexists. split; [apply list_elem_of_fmap; exists h; split; [reflexivity | done]|]. destruct (same (tg_id h) (tg_id source)) eqn:E1; ids.
    - rewrite (group_inj wt h source Hok Hh Hs E1). split; [done|]. cbn. by apply order_without_same.
    - rewrite Hres, (proj2 (same_false _ _) Hne). split; [done|]. symmetry. apply (without_off _ _ h (tabs_of wt)); [by apply (wk_ok _ Hok)| |done].
      intros Hm. apply (member_home wt t _ Hok Ht) in Hm. congruence. }
  destruct Hnext as (g & Hg & Eg & Eo). exists g. split; [|done]. destruct (order_without (tab_id t) source) eqn:E; [|done].
  destruct (collapseGroupLayout _ _ _ _). cbn [fst]. rewrite groups_of_some. apply elem_of_filter. split; [|done]. apply negb_true_iff, same_false. rewrite Eg. intros E1.
  rewrite (group_inj wt h source Hok Hh Hs E1) in Hlast. rewrite order_without_same in E by done. apply Hlast.
  assert (Hmem : tab_id t ∈ tg_tabOrder source) by (apply (gk_member _ _ (wk_ok _ Hok source Hs)); by exists t).
  pose proof (without_perm (tab_id t) _ Hn Hmem) as Hp. rewrite E in Hp. by apply Permutation_singleton_r in Hp.
Qed.

(** The group whose last tab is dropped elsewhere is closed. *)
Lemma drop_closes wt t source targetGroup target w newGroupId h : worktree_ok wt -> t ∈ tabs_of wt -> source ∈ groups_of wt -> tg_id source = tab_groupId t ->
  h ∈ groups_of wt -> tg_tabOrder h = [tab_id t] -> tg_id h ∉ group_ids (groups_of (fst (drop_in t source targetGroup target w newGroupId wt))).
Proof.
  intros Hok Ht Hs Hhome Hh Eh. assert (Hin : tab_id t ∈ tg_tabOrder h) by (rewrite Eh; by left).
  apply (gk_member _ _ (wk_ok _ Hok h Hh)) in Hin. apply (member_home wt t _ Hok Ht) in Hin.
  rewrite (group_inj wt h source Hok Hh Hs) in Eh |- * by congruence. unfold drop_in. destruct (drop_destination _ _ _ _) as [[[groups layout] active] resolved].
  rewrite order_without_same, Eh, without_self by apply (gk_order _ _ (wk_ok _ Hok source Hs)). destruct (collapseGroupLayout _ _ _ _). cbn [fst]. rewrite groups_of_some.
  intros (g & Eg & Hg)%list_elem_of_fmap. apply elem_of_filter in Hg as [Hg _]. apply negb_true_iff, same_false in Hg. congruence.
Qed.

(** The new group is beside the one it is split off, and the groups that stay are in the
    layout in the order they had. *)
Lemma drop_layout_spec wt t source target w newGroupId targetGroup layout : worktree_ok wt -> t ∈ tabs_of wt -> source ∈ groups_of wt -> targetGroup ∈ groups_of wt ->
  tg_id source = tab_groupId t -> tg_id targetGroup = dt_groupId target -> newGroupId ∉ group_ids (groups_of wt) ->
  dt_splitDirection target <> None \/ tab_groupId t <> dt_groupId target -> wt_layout wt = Some layout ->
  (forall direction, dt_splitDirection target = Some direction -> tg_tabOrder source = [tab_id t] -> tg_id source <> dt_groupId target) ->
  let wt' := fst (drop_in t source targetGroup target w newGroupId wt) in
  exists after, wt_layout wt' = Some after /\
    (forall direction, dt_splitDirection target = Some direction -> beside direction (dt_groupId target) newGroupId after) /\
    without newGroupId (leaves after) = List.filter (fun id => memb id (group_ids (groups_of wt'))) (leaves layout).
Proof.
  intros Hok Ht Hs Hg Hhome Htarget Hnew Hmoves El Hself wt'.
  pose proof (drop_ok wt t source targetGroup target w newGroupId Hok Ht Hs Hg Hhome Htarget Hnew Hmoves) as Hok'. fold wt' in Hok'.
  pose proof (wk_layout _ Hok) as Hl. rewrite El in Hl. cbn in Hl. pose proof (wk_layout _ Hok') as Hl'.
  pose proof (drop_in_layout wt t source targetGroup target w newGroupId layout El) as Hafter. fold wt' in Hafter.
  assert (Hnl : newGroupId ∉ leaves layout) by by rewrite Hl. assert (Htl : dt_groupId target ∈ leaves layout) by (rewrite Hl, <- Htarget; by apply group_id_in).
  assert (Hsl : tg_id source ∈ leaves layout) by (rewrite Hl; by apply group_id_in).
  assert (Hn : NoDup (leaves layout)) by (rewrite Hl; apply (wk_groups _ Hok)). assert (Htn : dt_groupId target <> newGroupId) by congruence.
  assert (Hdl : without newGroupId (leaves (drop_layout target newGroupId layout)) = leaves layout).
  { unfold drop_layout. destruct (dt_splitDirection target); [by apply leaves_split_order | by apply without_absent]. }
  assert (Hdn : NoDup (leaves (drop_layout target newGroupId layout))).
  { unfold drop_layout. destruct (dt_splitDirection target); [|done]. rewrite leaves_split by done. by apply NoDup_cons. }
  assert (Hb : forall direction, dt_splitDirection target = Some direction -> beside direction (dt_groupId target) newGroupId (drop_layout target newGroupId layout)).
  { intros direction E. unfold drop_layout. rewrite E. by apply split_is_beside. }
  assert (Hfilter : forall after f, wt_layout wt' = Some after -> without newGroupId (leaves after) = List.filter f (leaves layout) ->
            without newGroupId (leaves after) = List.filter (fun id => memb id (group_ids (groups_of wt'))) (leaves layout)).
  { intros after f Ea E. rewrite E. apply filter_same. intros x Hx. rewrite Ea in Hl'. cbn in Hl'. destruct (f x) eqn:Ef; symmetry.
    - apply memb_true. rewrite <- Hl'. assert (Hin : x ∈ without newGroupId (leaves after)) by (rewrite E; by apply elem_of_filter). by apply elem_of_without in Hin as [_ ?].
    - apply memb_false. rewrite <- Hl'. intros Hin. assert (Hin' : x ∈ without newGroupId (leaves after)) by (apply elem_of_without; split; [congruence | done]).
      rewrite E in Hin'. apply elem_of_filter in Hin' as [Hin' _]. congruence. }
  destruct (order_without (tab_id t) source) eqn:Eo.
  - assert (Hlast : tg_tabOrder source = [tab_id t]).
    { rewrite order_without_same in Eo by apply (gk_order _ _ (wk_ok _ Hok source Hs)).
      assert (Hmem : tab_id t ∈ tg_tabOrder source) by (apply (gk_member _ _ (wk_ok _ Hok source Hs)); by exists t).
      pose proof (without_perm (tab_id t) _ (gk_order _ _ (wk_ok _ Hok source Hs)) Hmem) as Hp. rewrite Eo in Hp. by apply Permutation_singleton_r in Hp. }
    pose proof (removeLeaf_leaves (drop_layout target newGroupId layout) (tg_id source) Hdn) as Hr.
    assert (Hsn : tg_id source <> newGroupId) by congruence.
    destruct (removeLeaf _ _) as [after|] eqn:Er.
    + exists after. split; [done|]. split.
      * intros direction E. destruct (beside_stays direction (dt_groupId target) newGroupId (tg_id source) _ (Hb direction E)) as (rest & Er' & H); [by eapply Hself | done|].
        congruence.
      * apply (Hfilter after (fun other => negb (same other (tg_id source)))); [done|]. rewrite Hr, without_comm, Hdl. done.
    + exfalso. rewrite Hafter in Hl'. cbn in Hl'. assert (Hin : with_group (receiver target newGroupId) t ∈ tabs_of wt').
      { unfold wt'. rewrite drop_worktree. apply list_elem_of_fmap. exists t. by rewrite same_refl. }
      pose proof (wk_home _ Hok' _ Hin) as Hh. rewrite Hl' in Hh. by apply not_elem_of_nil in Hh.
  - eexists. split; [exact Hafter|]. split; [done|]. apply (Hfilter _ (fun _ => true)); [done|]. rewrite Hdl. symmetry. by apply filter_all.
Qed.

Section drops.
Context (environmentOf : TabsState -> jsstring -> option jsstring).

(** C11. A tab that is dropped is in the group it is dropped on, or in a new group directly beside
    it on the side given, at the place given and on show.  Every other group stays, with its
    other tabs in their order, but for a group whose last tab it was, which is closed; the layout has the groups that stay
    in the order they had; and no other worktree changes. *)
Theorem dropped_tab_lands s s' effects tabId target newGroupId : tabs_reached environmentOf s -> fresh_group newGroupId (ts_maps s) ->
  dropUnifiedTab tabId target newGroupId s = (s', effects, true) ->
  exists w, let wt := worktree w (ts_maps s) in let wt' := worktree w (ts_maps s') in
  (forall other, other <> w -> worktree other (ts_maps s') = worktree other (ts_maps s)) /\
  tabs_of wt' = moved_tabs tabId (receiver target newGroupId) (tabs_of wt) /\
  (exists g, g ∈ groups_of wt' /\ tg_id g = receiver target newGroupId /\ tg_activeTabId g = Some tabId /\
     dropped_at tabId (dt_index target) (order_before (receiver target newGroupId) wt) (tg_tabOrder g)) /\
  (forall g, g ∈ groups_of wt' -> tg_id g <> receiver target newGroupId ->
     exists h, h ∈ groups_of wt /\ tg_id h = tg_id g /\ tg_tabOrder g = without tabId (tg_tabOrder h)) /\
  (forall h, h ∈ groups_of wt -> tg_id h <> receiver target newGroupId -> tg_tabOrder h <> [tabId] ->
     exists g, g ∈ groups_of wt' /\ tg_id g = tg_id h /\ tg_tabOrder g = without tabId (tg_tabOrder h)) /\
  (forall h, h ∈ groups_of wt -> tg_tabOrder h = [tabId] -> tg_id h ∉ ids_of_groups wt') /\
  (exists before after, wt_layout wt = Some before /\ wt_layout wt' = Some after /\
     (forall direction, dt_splitDirection target = Some direction -> beside direction (dt_groupId target) newGroupId after) /\
     without newGroupId (leaves after) = List.filter (fun id => memb id (ids_of_groups wt')) (leaves before)).
Proof.
  intros Hr Hfresh H. pose proof (tabs_reached_ok environmentOf s Hr) as Hm. pose proof (dropTab_ok tabId target newGroupId s Hm Hfresh) as Hm'. rewrite H in Hm'. cbn [fst] in Hm'.
  unfold dropUnifiedTab in H. destruct (findTabAndWorktree _ _) as [[t w]|] eqn:Et; [|done]. apply found_tab in Et as [Ht Et]; [|done].
  destruct (findGroupAndWorktree _ _) as [[targetGroup w']|] eqn:Eg; [|done]. apply found_target in Eg as [Hg Eg]; [|done].
  destruct (negb (same w w')) eqn:Ew; [done|]. apply negb_false_iff in Ew. ids. subst w'.
  destruct (findGroupForTab _ _ _) as [source|] eqn:Es; [|done]. apply found_group in Es as [Hs Es].
  match type of H with context [if ?c then (s, [], false) else _] => destruct c eqn:Ei end; [done|].
  set (wt := worktree w (ts_maps s)) in *. pose proof (mo_worktree _ Hm w) as Hok. fold wt in Hok.
  assert (Hmoves : dt_splitDirection target <> None \/ tab_groupId t <> dt_groupId target) by (destruct (dt_splitDirection target); [by left | right; by ids]).
  pose proof (fun g => drop_groups wt t source targetGroup target w newGroupId g Hok Ht Hs Hg Es Eg (Hfresh w) Hmoves) as Hgroups.
  pose proof (drop_worktree t source targetGroup target w newGroupId wt) as Htabs.
  pose proof (fun h => drop_keeps wt t source targetGroup target w newGroupId h Hok Ht Hs Es) as Hkeeps.
  pose proof (fun h => drop_closes wt t source targetGroup target w newGroupId h Hok Ht Hs Es) as Hcloses.
  destruct (wt_layout wt) as [layout|] eqn:El;
    [|exfalso; pose proof (wk_layout _ Hok) as Hl; rewrite El in Hl; apply fmap_nil_inv in Hl; rewrite Hl in Hs; by apply not_elem_of_nil in Hs].
  pose proof (drop_layout_spec wt t source target w newGroupId targetGroup layout Hok Ht Hs Hg Es Eg (Hfresh w) Hmoves El) as Hlayout.
  assert (Hself : forall direction, dt_splitDirection target = Some direction -> tg_tabOrder source = [tab_id t] -> tg_id source <> dt_groupId target).
  { intros direction E Eo Esame. rewrite E in Ei. unfold isPaneColumnSplitDropNoOp in Ei. by rewrite Esame, same_refl, Eo in Ei. }
  specialize (Hlayout Hself). clear Hself.
  destruct (drop_in _ _ _ _ _ _ _) as [wt2 resolved]. cbn [fst] in Hgroups, Htabs, Hkeeps, Hcloses, Hlayout. injection H as <- _. rewrite Et in *.
  exists w. cbn zeta. rewrite patch_surface_maps, store_maps, worktree_put, decide_True by done. split; [|split; [|split; [|split; [|split; [done|split; [done|]]]]]].
  - intros other Hother. rewrite worktree_put. by rewrite decide_False.
  - exact Htabs.
  - unfold ok in Hm'. rewrite patch_surface_maps, store_maps in Hm'. pose proof (mo_worktree _ Hm' w) as Hok'. rewrite worktree_put, decide_True in Hok' by done.
    assert (Hin : with_group (receiver target newGroupId) t ∈ tabs_of wt2).
    { rewrite Htabs. apply list_elem_of_fmap. exists t. split; [|done]. by rewrite Et, same_refl. }
    pose proof (wk_home _ Hok' _ Hin) as (g & Egid & Hg')%list_elem_of_fmap. cbn in Egid. exists g. split; [done|]. split; [done|].
    specialize (Hgroups g Hg'). rewrite decide_True in Hgroups by done. destruct Hgroups as [-> ?]. split; [done|].
    destruct (receiver_before wt t target newGroupId Hok Ht (Hfresh w) Hmoves). rewrite <- Et. by apply order_with_at.
  - intros g Hg' Hne. specialize (Hgroups g Hg'). by rewrite decide_False in Hgroups.
  - destruct Hlayout as (after & H1 & H2 & H3). by exists layout, after.
Qed.

(** C19. A split drop the code calls a no-op is one: it is refused, and carried out it would leave
    the same layout up to the ratios of its splits, the new group in place of the one it
    empties, with the same tab. *)
Theorem idle_drops_change_nothing s w t source targetGroup target direction layout newGroupId : tabs_reached environmentOf s ->
  fresh_group newGroupId (ts_maps s) -> let wt := worktree w (ts_maps s) in
  t ∈ tabs_of wt -> source ∈ groups_of wt -> tg_id source = tab_groupId t -> targetGroup ∈ groups_of wt -> tg_id targetGroup = dt_groupId target ->
  dt_splitDirection target = Some direction -> wt_layout wt = Some layout ->
  isPaneColumnSplitDropNoOp (tg_id source) (dt_groupId target) direction (List.length (tg_tabOrder source)) (Some layout) = true ->
  dropUnifiedTab (tab_id t) target newGroupId s = (s, [], false) /\
  let wt' := fst (drop_in t source targetGroup target w newGroupId wt) in
  (exists rest, wt_layout wt' = Some rest /\ without_ratios (rename_leaf newGroupId (tg_id source) rest) = without_ratios layout) /\
  (exists g, g ∈ groups_of wt' /\ tg_id g = newGroupId /\ tg_tabOrder g = tg_tabOrder source) /\
  tabs_of wt' = moved_tabs (tab_id t) newGroupId (tabs_of wt).
Proof.
  intros Hr Hfresh wt Ht Hs Hhome Hg Htarget Hdir El Hidle. pose proof (tabs_reached_ok environmentOf s Hr) as Hm. pose proof (mo_worktree _ Hm w) as Hok. fold wt in Hok.
  pose proof (wk_ok _ Hok source Hs) as Hsk. assert (Hin : tab_id t ∈ tg_tabOrder source) by (apply (gk_member _ _ Hsk); by exists t).
  assert (Horder : tg_tabOrder source = [tab_id t]).
  { assert (List.length (tg_tabOrder source) <= 1)%nat as Hlen.
    { unfold isPaneColumnSplitDropNoOp in Hidle. destruct (same _ _ && _) eqn:E; [apply andb_true_iff in E as [_ E]; by apply Nat.leb_le|].
      apply andb_true_iff in Hidle as [Hl _]. apply Nat.eqb_eq in Hl. lia. }
    destruct (tg_tabOrder source) as [|x [|y rest]]; [by apply not_elem_of_nil in Hin| |cbn in Hlen; lia]. apply list_elem_of_singleton in Hin. by subst. }
  split.
  - unfold dropUnifiedTab. rewrite (tab_found _ w t Hm Ht), <- Htarget, (group_found _ w targetGroup Hm Hg), same_refl. cbn [negb].
    unfold findGroupForTab. change (rec_list w (groupsByWorktree (ts_maps s))) with (groups_of wt). rewrite <- Hhome, (group_found_in wt source Hok Hs), Hdir.
    fold wt. rewrite El, Htarget. by rewrite Hidle.
  - pose proof (wk_layout _ Hok) as Hl. unfold wt in Hl at 1. fold wt in Hl. rewrite El in Hl. cbn in Hl.
    destruct (noop_layout layout (tg_id source) (dt_groupId target) newGroupId direction (List.length (tg_tabOrder source))) as (rest & Hrest & Hshape).
    { rewrite Hl. apply (wk_groups _ Hok). } { rewrite Hl. apply Hfresh. } { rewrite Hl, <- Htarget. by apply group_id_in. } { done. }
    split; [|split].
    + exists rest. split; [|done]. unfold drop_in, drop_destination. rewrite Hdir, El.
      assert (order_without (tab_id t) source = []) as -> by (rewrite order_without_same, Horder by apply (gk_order _ _ Hsk); apply without_self).
      unfold collapseGroupLayout. cbn [fst wt_layout]. exact Hrest.
    + assert (Hmoves : dt_splitDirection target <> None \/ tab_groupId t <> dt_groupId target) by (left; by rewrite Hdir).
      pose proof (drop_ok wt t source targetGroup target w newGroupId Hok Ht Hs Hg Hhome Htarget (Hfresh w) Hmoves) as Hok'.
      assert (Hlands : with_group newGroupId t ∈ tabs_of (fst (drop_in t source targetGroup target w newGroupId wt))).
      { rewrite drop_worktree. unfold receiver. rewrite Hdir. apply list_elem_of_fmap. exists t. by rewrite same_refl. }
      pose proof (wk_home _ Hok' _ Hlands) as (g & Egid & Hg')%list_elem_of_fmap. cbn in Egid. exists g. split; [done|]. split; [done|].
      pose proof (drop_groups wt t source targetGroup target w newGroupId g Hok Ht Hs Hg Hhome Htarget (Hfresh w) Hmoves Hg') as H.
      unfold receiver in H. rewrite Hdir, decide_True in H by done. destruct H as [H _]. rewrite H, Horder. unfold order_before.
      destruct (find_group newGroupId (groups_of wt)) as [h|] eqn:E; [apply find_group_some in E as [Hh Eh]; exfalso; apply (Hfresh w); rewrite <- Eh; by apply group_id_in|].
      unfold order_with. cbn. by rewrite take_nil, drop_nil.
    + rewrite drop_worktree. unfold receiver. by rewrite Hdir.
Qed.
End drops.

(** The tab [c], alone in [h], dropped first in [g]: its group is gone. *)
Lemma dropped_tab_lands_witness :
  exists s' effects, let target := mkDrop (js "g") (Some 0) None in
  dropUnifiedTab (js "c") target (js "n") demo = (s', effects, true) /\
  exists w, exists g, g ∈ groups_of (worktree w (ts_maps s')) /\ tg_activeTabId g = Some (js "c").
Proof.
  destruct (dropUnifiedTab (js "c") (mkDrop (js "g") (Some 0) None) (js "n") demo) as [[s' effects] dropped] eqn:E. exists s', effects. cbn zeta.
  assert (dropped = true) as -> by (revert E; vm_compute; congruence). split; [done|].
  destruct (dropped_tab_lands no_environment demo s' effects (js "c") (mkDrop (js "g") (Some 0) None) (js "n") demo_reached
              ltac:(apply unused_group_fresh; vm_compute; reflexivity) E) as (w & _ & _ & (g & Hg & _ & Ha & _) & _).
  by exists w, g.
Defined.

(** The tab [c] dropped to the right of [g], where it is. *)
Lemma idle_drops_change_nothing_witness :
  exists t, tab_id t = js "c" /\
  dropUnifiedTab (js "c") (mkDrop (js "g") None (Some to_right)) (js "n") demo = (demo, [], false).
Proof.
  set (wt := worktree (js "w") (ts_maps demo)).
  destruct (find_tab (js "c") (tabs_of wt)) as [t|] eqn:Et; [|exfalso; revert Et; vm_compute; discriminate].
  destruct (find_group (js "h") (groups_of wt)) as [source|] eqn:Es; [|exfalso; revert Es; vm_compute; discriminate].
  destruct (find_group (js "g") (groups_of wt)) as [target|] eqn:Eg; [|exfalso; revert Eg; vm_compute; discriminate].
  destruct (wt_layout wt) as [layout|] eqn:El; [|exfalso; revert El; vm_compute; discriminate].
  assert (Hin : t ∈ tabs_of wt) by by apply find_tab_some in Et as [? _].
  assert (Hs : source ∈ groups_of wt) by by apply find_group_some in Es as [? _]. assert (Hg : target ∈ groups_of wt) by by apply find_group_some in Eg as [? _].
  assert (Hid : tab_id t = js "c") by (revert Et; vm_compute; intros [= <-]; reflexivity). exists t. split; [done|]. rewrite <- Hid.
  apply (idle_drops_change_nothing no_environment demo (js "w") t source target (mkDrop (js "g") None (Some to_right)) to_right layout (js "n") demo_reached).
  - apply unused_group_fresh. vm_compute. reflexivity.
  - done.
  - done.
  - revert Es Et. vm_compute. intros [= <-] [= <-]. reflexivity.
  - done.
  - revert Eg. vm_compute. intros [= <-]. reflexivity.
  - done.
  - done.
  - revert Es El. vm_compute. intros [= <-] [= <-]. reflexivity.
Defined.

(** A drop that empties a group of three: the sibling of the emptied group is made active, not
    the group that shows the dropped tab. *)
Definition three_groups : TabsState := tab_action no_environment (do_createInSplit (js "w") ct_editor (js "h") to_down no_init 4 (js "d") (js "k")) demo.

Example drop_focus_elsewhere :
  let s := fst (fst (dropUnifiedTab (js "d") (mkDrop (js "g") None None) (js "n") three_groups)) in
  rec_get (js "w") (activeGroupIdByWorktree (ts_maps s)) = Some (js "h") /\ option_map tab_groupId (getTab (js "d") s) = Some (js "g") /\
  activeFileId (ts_surface s) = Some (js "d").
Proof. vm_compute. auto. Qed.
