(* ===== verification/TabReturn.v ===== *)
(** What a group shows when the tab on show is closed ([TabActions.v]). *)

From stdpp Require Import base list sets strings.
From Stdlib Require Import ZArith Lia ZifyBool SpecFloat.
From S2P Require Import Prelude JsText JsRecord Json.
From S2P Require Import KeySyntax.
From S2P Require Import TabModel.
From S2P Require Import TabStore.
From S2P Require Import TabActions.
From S2P Require Import TabReconcile.
From S2P Require Import TabLaws.
From S2P Require Import TabInvariant.
From S2P Require Import TabSafety.
From S2P Require Import TabSpec.
From S2P Require Import TabDrop.

Open Scope Z_scope.

#[local] Set Warnings "-clear-no-such-hyp".

(** ** Recent tabs *)

Lemma sanitize_from_same recent seen tabOrder : NoDup recent -> (forall id, id ∈ recent -> (id ∉ seen) /\ id ∈ tabOrder) ->
  sanitize_from recent seen tabOrder = recent.
Proof.
  revert seen. induction recent as [|x recent IH]; intros seen; cbn; [done|]. intros [Hx Hn]%NoDup_cons H.
  destruct (H x ltac:(by left)) as [H1 H2]. rewrite (proj2 (memb_false _ _) H1), (proj2 (memb_true _ _) H2). cbn. f_equal. apply IH; [done|].
  intros id Hid. rewrite elem_of_cons. destruct (H id ltac:(by right)). split; [intros [->|]|]; done.
Qed.

(** Recent tabs that are tabs of the order, each once, stay as they are. *)
Lemma sanitize_same recent tabOrder : NoDup recent -> recent ⊆ tabOrder -> sanitizeRecentTabIds (Some recent) tabOrder = recent.
Proof.
  intros Hn Hsub. unfold sanitizeRecentTabIds. destruct recent as [|x rest]; [done|]. rewrite sanitize_from_same, rev_involutive; [done| |].
  - apply NoDup_ListNoDup, NoDup_rev, NoDup_ListNoDup, Hn.
  - intros id. rewrite elem_of_rev. intros Hid. split; [apply not_elem_of_nil | by apply Hsub].
Qed.

Lemma push_twice recent a b : a <> b -> exists before, pushRecentTabId (Some (pushRecentTabId recent a)) b = before ++ [a; b].
Proof.
  intros Hne. pose proof (push_last recent a) as Hl. apply last_Some in Hl as [before Hl]. rewrite Hl. exists (without b before). unfold pushRecentTabId.
  change (default [] (Some (before ++ [a]))) with (before ++ [a]). rewrite last_snoc. rewrite bool_decide_false by congruence.
  rewrite without_app, (without_absent b [a]) by (intros ->%list_elem_of_singleton; done). by rewrite <- app_assoc.
Qed.

(** The last of the recent tabs comes after the one that goes. *)
Lemma next_is_recent before a b tabOrder : a <> b -> NoDup (before ++ [a; b]) -> before ++ [a; b] ⊆ tabOrder ->
  pickNextActiveTab tabOrder (Some (before ++ [a; b])) b = Some a.
Proof.
  intros Hne Hn Hsub. unfold pickNextActiveTab. rewrite sanitize_same by done. rewrite rev_app_distr. cbn.
  by rewrite same_refl, (proj2 (same_false a b) Hne).
Qed.

(** ** Activating *)

Lemma activated s t w preserve : ok s -> t ∈ tabs_of (worktree w (ts_maps s)) ->
  let wt := worktree w (ts_maps s) in let wt' := worktree w (ts_maps (activateTab (tab_id t) preserve s)) in
  wt_active wt' = Some (tab_groupId t) /\
  (forall u, u ∈ tabs_of wt -> exists u', u' ∈ tabs_of wt' /\ tab_id u' = tab_id u /\ tab_groupId u' = tab_groupId u /\ tab_entityId u' = tab_entityId u) /\
  (exists g, g ∈ groups_of wt /\ tg_id g = tab_groupId t /\ mkGroup (tg_id g) (tg_worktreeId g) (Some (tab_id t)) (tg_tabOrder g)
     (Some (pushRecentTabId (Some (sanitizeRecentTabIds (tg_recentTabIds g) (tg_tabOrder g))) (tab_id t))) ∈ groups_of wt').
Proof.
  intros Hok Ht wt. unfold activateTab. rewrite (tab_found (ts_maps s) w t Hok Ht). set (s0 := match truthy _ with Some _ => _ | None => _ end).
  assert (Hm : ts_maps s0 = ts_maps s) by (unfold s0; destruct (truthy _); [case_bool_decide; [apply clear_unread_maps | done] | done]).
  rewrite store_maps, worktree_put, decide_True, Hm by done. fold wt. split; [done|]. split.
  - intros u Hu. unfold activate_in. destruct preserve; [by exists u|]. rewrite tabs_of_some.
    eexists. split; [apply list_elem_of_fmap; by exists u|]. by destruct (same (tab_id u) (tab_id t)).
  - pose proof (wk_home _ (mo_worktree _ Hok w) t Ht) as (g & Eg & Hg)%list_elem_of_fmap. exists g. split; [done|]. split; [done|].
    unfold activate_in. rewrite groups_of_some. apply list_elem_of_fmap. exists g. by rewrite Eg, same_refl.
Qed.

(** Two tabs of a group activated one after the other. *)
Lemma activated_twice s w first second p q : ok s -> first ∈ tabs_of (worktree w (ts_maps s)) -> second ∈ tabs_of (worktree w (ts_maps s)) ->
  tab_groupId first = tab_groupId second -> tab_id first <> tab_id second ->
  let wt := worktree w (ts_maps (activateTab (tab_id second) q (activateTab (tab_id first) p s))) in
  wt_active wt = Some (tab_groupId second) /\
  (exists u, u ∈ tabs_of wt /\ tab_id u = tab_id first /\ tab_groupId u = tab_groupId first) /\
  (exists u, u ∈ tabs_of wt /\ tab_id u = tab_id second /\ tab_groupId u = tab_groupId second /\ tab_entityId u = tab_entityId second) /\
  exists g before, g ∈ groups_of wt /\ tg_id g = tab_groupId second /\ tg_activeTabId g = Some (tab_id second) /\
    tg_recentTabIds g = Some (before ++ [tab_id first; tab_id second]).
Proof.
  intros Hok Hf Hs Egroup Hne. destruct (activated s first w p Hok Hf) as (_ & Htabs & g & Hg & Eg & Hg').
  pose proof (activateTab_ok (tab_id first) p s Hok) as Hok'. set (s1 := activateTab (tab_id first) p s) in *.
  destruct (Htabs first Hf) as (first' & Hf' & E1 & E2 & _). destruct (Htabs second Hs) as (second' & Hs' & E3 & E4 & E4'). rewrite <- E3, <- E4, <- E4'.
  destruct (activated s1 second' w q Hok' Hs') as (Ha & Htabs' & h & Hh & Eh & Hh').
  destruct (Htabs' first' Hf') as (u & Hu & E5 & E6 & _). destruct (Htabs' second' Hs') as (v & Hv & E7 & E8 & E8').
  split; [done|]. split; [exists u; split; [done|]; split; congruence|]. split; [by exists v|].
  pose proof (group_inj _ h _ (mo_worktree _ Hok' w) Hh Hg' ltac:(cbn; congruence)) as ->. cbn [tg_id tg_worktreeId tg_tabOrder tg_recentTabIds] in Hh'.
  pose proof (wk_ok _ (mo_worktree _ Hok' w) _ Hg') as [_ _ _ Hr Hri]. cbn in Hr, Hri. rewrite sanitize_same in Hh' by done.
  destruct (push_twice (Some (sanitizeRecentTabIds (tg_recentTabIds g) (tg_tabOrder g))) (tab_id first) (tab_id second')) as [before E]; [congruence|]. rewrite E in Hh'.
  eexists _, before. split; [exact Hh'|]. split; [|done]. cbn in Eh |- *. done.
Qed.

(** ** Closing *)

Lemma retired_maps s t w g record : ok s -> t ∈ tabs_of (worktree w (ts_maps s)) -> g ∈ groups_of (worktree w (ts_maps s)) -> tg_id g = tab_groupId t ->
  ts_maps (fst (fst (closeRetiredTab (tab_id t) record s))) = put_worktree w (close_in t g (worktree w (ts_maps s))) (ts_maps s).
Proof.
  intros Hok Ht Hg Eg. unfold closeRetiredTab. rewrite (tab_found (ts_maps s) w t Hok Ht). unfold findGroupForTab.
  change (rec_list w (groupsByWorktree (ts_maps s))) with (groups_of (worktree w (ts_maps s))).
  rewrite <- Eg, (group_found_in _ g (mo_worktree _ Hok w) Hg). set (s0 := match truthy _ with Some _ => _ | None => _ end).
  assert (Hm : ts_maps s0 = ts_maps s) by (unfold s0; destruct (truthy _); [apply clear_unread_maps | done]). rewrite Hm.
  destruct (should_deactivate _ _); cbn [fst]; [|rewrite patch_surface_maps]; unfold deactivate; cbn [with_activeWorktree with_surface ts_maps]; by rewrite store_maps, Hm.
Qed.

(** The tabs that show the terminal of a tab are that tab. *)
Definition only_shown_by (t : Tab) (m : TabMaps) : Prop :=
  forall w u, u ∈ tabs_of (worktree w m) -> is_terminal_item (tab_entityId t) u = true -> tab_id u = tab_id t.

(** Retiring the terminal of a tab closes the tab, and no other. *)
Lemma terminal_closed_maps s t w g record : ok s -> t ∈ tabs_of (worktree w (ts_maps s)) -> g ∈ groups_of (worktree w (ts_maps s)) -> tg_id g = tab_groupId t ->
  tab_contentType t = ct_terminal -> only_shown_by t (ts_maps s) ->
  ts_maps (fst (closeTab (tab_entityId t) record s)) = put_worktree w (close_in t g (worktree w (ts_maps s))) (ts_maps s).
Proof.
  intros Hok Ht Hg Eg Ect Honly. unfold closeTab. set (s0 := removeTabFromTerminalState _ s). assert (Hm : ts_maps s0 = ts_maps s) by apply removeTab_maps. rewrite Hm.
  assert (Hitem : is_terminal_item (tab_entityId t) t = true) by (unfold is_terminal_item; by rewrite bool_decide_true, same_refl).
  assert (Hfind : forall k tabs, (k, tabs) ∈ unifiedTabsByWorktree (ts_maps s) -> List.find (is_terminal_item (tab_entityId t)) tabs = if decide (k = w) then Some t else None).
  { intros k tabs Hk. apply rec_elem_get in Hk; [|apply (mo_tab_keys _ Hok)]. assert (Etabs : tabs_of (worktree k (ts_maps s)) = tabs) by (unfold tabs_of, worktree; cbn; by rewrite Hk).
    destruct (List.find _ tabs) as [u|] eqn:Ef.
    - apply List.find_some in Ef as [Hu Hi]. apply list_elem_of_In in Hu. rewrite <- Etabs in Hu. pose proof (Honly k u Hu Hi) as Eid.
      assert (k = w) as -> by (apply (mo_tab_once _ Hok k w (tab_id t)); apply list_elem_of_fmap; [by exists u | by exists t]).
      rewrite decide_True by done. by rewrite (tab_inj _ u t (mo_worktree _ Hok w) Hu Ht Eid).
    - case_decide as E; [|done]. subst. pose proof (List.find_none _ _ Ef t) as Hno. rewrite Hitem in Hno. discriminate Hno. by apply list_elem_of_In. }
  assert (Hw : w ∈ rec_keys (unifiedTabsByWorktree (ts_maps s))).
  { apply rec_has_spec. unfold rec_has. unfold tabs_of, worktree in Ht. cbn in Ht. destruct (rec_get w _); [done | by apply not_elem_of_nil in Ht]. }
  pose proof (mo_tab_keys _ Hok) as Hkeys. revert Hfind Hw Hkeys. generalize [x_retireTerminal (tab_entityId t)] as effects.
  unfold rec_keys. induction (unifiedTabsByWorktree (ts_maps s)) as [|[k tabs] rest IH]; intros effects Hfind Hw Hkeys; [by apply not_elem_of_nil in Hw|].
  cbn [fold_left snd]. rewrite (Hfind k tabs) by by left. apply NoDup_cons in Hkeys as [Hk Hkeys]. case_decide as E.
  - subst k. destruct (closeRetiredTab (tab_id t) record s0) as [[s1 more] result] eqn:Ec.
    assert (Hm1 : ts_maps s1 = put_worktree w (close_in t g (worktree w (ts_maps s))) (ts_maps s)).
    { assert (Hok0 : ok s0) by (unfold ok; by rewrite Hm). rewrite <- Hm in Ht, Hg |- *. pose proof (retired_maps s0 t w g record Hok0 Ht Hg Eg) as H. by rewrite Ec in H. }
    rewrite <- Hm1. clear -Hfind Hk. revert Hfind Hk. generalize (effects ++ more) as fx. induction rest as [|[k' tabs'] rest IH]; intros fx Hfind Hk; [done|].
    cbn [fold_left snd]. apply not_elem_of_cons in Hk as [Hne Hk]. rewrite (Hfind k' tabs') by (right; by left). rewrite decide_False by done.
    apply IH; [|done]. intros k0 t0 [H|H]%elem_of_cons; apply Hfind; [rewrite H; by left | right; by right].
  - apply IH; [|by apply elem_of_cons in Hw as [Hw|Hw]; [|]|done]. intros k0 t0 H. apply Hfind. by right.
Qed.

Lemma closed_maps s t w g record handled : ok s -> t ∈ tabs_of (worktree w (ts_maps s)) -> g ∈ groups_of (worktree w (ts_maps s)) -> tg_id g = tab_groupId t ->
  handled = true \/ only_shown_by t (ts_maps s) ->
  ts_maps (fst (fst (closeUnifiedTab (tab_id t) record handled s))) = put_worktree w (close_in t g (worktree w (ts_maps s))) (ts_maps s).
Proof.
  intros Hok Ht Hg Eg Honly. unfold closeUnifiedTab. rewrite (tab_found (ts_maps s) w t Hok Ht). unfold findGroupForTab.
  change (rec_list w (groupsByWorktree (ts_maps s))) with (groups_of (worktree w (ts_maps s))).
  rewrite <- Eg, (group_found_in _ g (mo_worktree _ Hok w) Hg). destruct (bool_decide _ && negb handled) eqn:E; [|by apply retired_maps].
  apply andb_true_iff in E as [E Eh]. apply bool_decide_eq_true_1 in E. destruct Honly as [->|Honly]; [done|].
  pose proof (terminal_closed_maps s t w g record Hok Ht Hg Eg E Honly) as H. by destruct (closeTab _ _ _).
Qed.

(** A group that loses the tab it shows, shown after another one, shows the other one. *)
Lemma closed_group wt t g other before : worktree_ok wt -> t ∈ tabs_of wt -> g ∈ groups_of wt -> tg_id g = tab_groupId t ->
  tg_activeTabId g = Some (tab_id t) -> tg_recentTabIds g = Some (before ++ [other; tab_id t]) -> other <> tab_id t ->
  wt_active (close_in t g wt) = wt_active wt /\ tabs_of (close_in t g wt) = List.filter (fun item => negb (same (tab_id item) (tab_id t))) (tabs_of wt) /\
  exists h, find_group (tg_id g) (groups_of (close_in t g wt)) = Some h /\ tg_activeTabId h = Some other.
Proof.
  intros Hok Ht Hg Eg Eshown Erecent Hne. pose proof (wk_ok _ Hok g Hg) as [Ho _ _ Hr Hri]. rewrite Erecent in Hr, Hri. cbn in Hr, Hri.
  pose proof (close_ok wt t g Hok Ht Hg Eg) as Hok'. revert Hok'. unfold close_in.
  assert (Hin : other ∈ order_without (tab_id t) g).
  { rewrite order_without_same, elem_of_without by done. split; [done|]. apply Hri, elem_of_app. right. by left. }
  destruct (order_without (tab_id t) g) as [|x rest] eqn:E; [by apply not_elem_of_nil in Hin|].
  rewrite Eshown, bool_decide_true, Erecent, dedupe_same, next_is_recent by done. cbn [andb].
  set (next := _ <$> groups_of wt). set (left := mkWorktree _ (Some next) _ _). intros Hok'.
  replace (match wt_layout wt with Some _ => left | None => left end) with left in * by by destruct (wt_layout wt).
  split; [done|]. split; [done|].
  set (h := mkGroup (tg_id g) (tg_worktreeId g) (Some other) (x :: rest) (Some (sanitizeRecentTabIds (Some (without (tab_id t) (before ++ [other; tab_id t]))) (x :: rest)))).
  exists h. split; [|done]. apply (group_found_in left h Hok'). unfold left. rewrite groups_of_some. apply list_elem_of_fmap. exists g. by rewrite same_refl.
Qed.

Section returns.
Context (environmentOf : TabsState -> jsstring -> option jsstring).

(** C10. Closing the tab activated last goes back to the one activated before it: when two tabs
    of a group are activated one after the other and the second is closed (a terminal that is not
    retired yet with its terminal, which no other tab shows), the first is on show again,
    wherever the two are in the order of the group and whatever was shown earlier, and the
    second is gone. *)
Theorem close_returns s w first second p q record handled : tabs_reached environmentOf s ->
  first ∈ tabs_of (worktree w (ts_maps s)) -> second ∈ tabs_of (worktree w (ts_maps s)) ->
  tab_groupId first = tab_groupId second -> tab_id first <> tab_id second -> tab_id first <> [] ->
  let shown := activateTab (tab_id second) q (activateTab (tab_id first) p s) in
  handled = true \/ only_shown_by second (ts_maps shown) ->
  let s' := fst (fst (closeUnifiedTab (tab_id second) record handled shown)) in
  (exists t, getActiveTab w s' = Some t /\ tab_id t = tab_id first) /\
  getTab (tab_id second) s' = None.
Proof.
  intros Hr Hf Hs Egroup Hne Hnil shown Honly. pose proof (tabs_reached_ok environmentOf s Hr) as Hok.
  destruct (activated_twice s w first second p q Hok Hf Hs Egroup Hne) as (Ha & (u & Hu & Eu & Eug) & (v & Hv & Ev & Evg & Eve) & g & before & Hg & Eg & Eshown & Erecent).
  assert (Hok' : ok shown) by by apply activateTab_ok, activateTab_ok.
  fold shown in Ha, Hu, Hv, Hg. assert (Hv' : handled = true \/ only_shown_by v (ts_maps shown)) by (unfold only_shown_by in *; by rewrite Eve, Ev). rewrite <- Ev, <- Eu in *. rewrite <- Eg in Ha, Evg. clearbody shown.
  pose proof (closed_maps shown v w g record handled Hok' Hv Hg ltac:(congruence) Hv') as Hm.
  destruct (closed_group _ v g (tab_id u) before (mo_worktree _ Hok' w) Hv Hg ltac:(congruence) Eshown Erecent Hne) as (Hactive & Htabs & h & Hh & Eh).
  cbv zeta. split.
  - assert (Hin : u ∈ tabs_of (close_in v g (worktree w (ts_maps shown)))) by (rewrite Htabs, elem_of_filter, negb_true_iff; split; [by apply same_false | done]).
    destruct (find_tab_in u _ Hin) as [t Ef]. exists t. unfold getActiveTab. rewrite Hm, worktree_put, decide_True, Hactive, Ha, Hh, Eh by done.
    replace (truthy (Some (tab_id u))) with (Some (tab_id u)) by by destruct (tab_id u). split; [done|]. by apply find_tab_some in Ef as [_ ?].
  - unfold getTab. rewrite Hm. destruct (findTabAndWorktree _ _) as [[t w']|] eqn:Ef; [|done]. exfalso.
    pose proof (closeUnifiedTab_ok (tab_id v) record handled shown Hok') as Hok2. unfold ok in Hok2. rewrite Hm in Hok2.
    apply found_tab in Ef as [Ht Et]; [|done]. rewrite worktree_put in Ht. destruct (decide (w = w')) as [<-|Hw].
    + rewrite Htabs, elem_of_filter, negb_true_iff in Ht. destruct Ht as [Ht _]. ids. done.
    + apply Hw. apply (mo_tab_once _ Hok' w w' (tab_id v)); apply list_elem_of_fmap; [by exists v | by exists t].
Qed.
End returns.

(** Two terminals of a group, the second closed with its terminal. *)
Definition two_terminals : TabsState :=
  fold_left (fun s action => tab_action no_environment action s)
    [do_create (js "w") ct_terminal no_init 1 (js "a") (js "g"); do_create (js "w") ct_terminal no_init 2 (js "b") (js "g2");
     do_create (js "w") ct_editor no_init 3 (js "c") (js "g2")] empty_start.

Lemma two_terminals_reached : tabs_reached no_environment two_terminals.
Proof.
  unfold two_terminals. cbn [fold_left]. apply tabs_step; [apply tabs_step; [apply tabs_step; [by apply tabs_start|]|]|];
    (split; [apply unused_tab_fresh | split; [apply unused_group_fresh | done]]; vm_compute; reflexivity).
Qed.

Definition only_item (t : Tab) (m : TabMaps) : bool :=
  forallb (fun entry => forallb (fun u => negb (is_terminal_item (tab_entityId t) u) || same (tab_id u) (tab_id t)) (snd entry)) (unifiedTabsByWorktree m).

Lemma only_item_shown t m : only_item t m = true -> only_shown_by t m.
Proof.
  intros H w u Hu Hi. unfold tabs_of, worktree in Hu. cbn [wt_tabs] in Hu. destruct (rec_get w _) as [tabs|] eqn:E; [|by apply not_elem_of_nil in Hu].
  apply rec_get_elem, list_elem_of_In in E. unfold only_item in H. rewrite List.forallb_forall in H. specialize (H _ E). cbn in H. rewrite List.forallb_forall in H.
  specialize (H u (proj1 (list_elem_of_In _ _) Hu)). rewrite Hi in H. by apply same_true.
Qed.

Lemma close_returns_witness :
  tab_id <$> getActiveTab (js "w") (fst (fst (closeUnifiedTab (js "b") None false (activateTab (js "b") false (activateTab (js "a") false two_terminals))))) = Some (js "a").
Proof.
  destruct (find_tab (js "a") (tabs_of (worktree (js "w") (ts_maps two_terminals)))) as [t|] eqn:Et; [|exfalso; revert Et; vm_compute; discriminate].
  destruct (find_tab (js "b") (tabs_of (worktree (js "w") (ts_maps two_terminals)))) as [u|] eqn:Eu; [|exfalso; revert Eu; vm_compute; discriminate].
  assert (Hg : tab_groupId t = tab_groupId u) by (revert Et Eu; vm_compute; intros [= <-] [= <-]; reflexivity).
  assert (Honly : only_item u (ts_maps (activateTab (js "b") false (activateTab (js "a") false two_terminals))) = true)
    by (revert Eu; vm_compute; intros [= <-]; reflexivity).
  apply find_tab_some in Et as [Ht Et]. apply find_tab_some in Eu as [Hu Eu]. apply only_item_shown in Honly. rewrite <- Et, <- Eu in Honly |- *.
  destruct (close_returns no_environment two_terminals (js "w") t u false false None false two_terminals_reached Ht Hu Hg) as [(v & Ev & Hv) _];
    [by rewrite Et, Eu | by rewrite Et | by right |].
  rewrite Ev. cbn. by rewrite Hv.
Defined.
