(* ===== verification/TabSettle.v ===== *)
(** What reconciling leaves ([TabReconcile.v]): tabs that can be shown, a tab for each
    terminal, and nothing to do for the next time. *)

From stdpp Require Import base list sets strings.
From Stdlib Require Import ZArith Lia ZifyBool SpecFloat.
From S2P Require Import Prelude JsText JsRecord Json.
From S2P Require Import KeySyntax.
From S2P Require Import TabModel.
From S2P Require Import TabStore.
From S2P Require Import TabActions.
From S2P Require Import TabReconcile.
From S2P Require Import TabLaws.
From S2P Require Import TabInvariant.
From S2P Require Import TabRepair.
From S2P Require Import TabSafety.
From S2P Require Import TabSpec.
From S2P Require Import TabDrop.
From S2P Require Import TabReturn.

Open Scope Z_scope.

#[local] Set Warnings "-clear-no-such-hyp".

(** ** Dropping tabs twice *)

Lemma prune_same layout ids : (forall id, id ∈ leaves layout -> id ∈ ids) -> pruneTabGroupLayoutForGroups layout ids = Some layout.
Proof.
  induction layout as [x|d first IH1 second IH2 r]; cbn; intros H; [by rewrite (proj2 (memb_true _ _) (H x ltac:(by left)))|].
  by rewrite IH1, IH2 by (intros; apply H, elem_of_app; auto).
Qed.

Lemma filter_memb_idem ids l : List.filter (fun id => memb id ids) (List.filter (fun id => memb id ids) l) = List.filter (fun id => memb id ids) l.
Proof. apply filter_all. intros x [H _]%elem_of_filter. done. Qed.

Lemma reconcile_group_idem ids g : reconcile_group ids (reconcile_group ids g) = reconcile_group ids g.
Proof.
  unfold reconcile_group at 2 3. set (order := List.filter (fun id => memb id ids) (tg_tabOrder g)).
  set (shown := match truthy (tg_activeTabId g) with Some a => if memb a ids then Some a else head order | None => head order end).
  set (recent := sanitizeRecentTabIds (tg_recentTabIds g) order).
  destruct (bool_decide (order = _) && _ && _) eqn:E.
  - apply andb_true_iff in E as [[E1 E2]%andb_true_iff E3]. unfold reconcile_group. fold order shown recent. by rewrite E1, E2, E3.
  - unfold reconcile_group. cbn [tg_tabOrder tg_activeTabId tg_recentTabIds tg_id tg_worktreeId default from_option Datatypes.id].
    assert (Horder : List.filter (fun id => memb id ids) order = order) by apply filter_memb_idem. rewrite Horder.
    assert (Hrecent : sanitizeRecentTabIds (Some recent) order = recent).
    { apply sanitize_same; [apply sanitize_nodup|]. intros x Hx. by apply sanitize_elem in Hx as [_ ?]. }
    rewrite Hrecent. assert (Hshown : match truthy shown with Some a => if memb a ids then Some a else head order | None => head order end = shown).
    { assert (Hhead : match truthy (head order) with Some a => if memb a ids then Some a else head order | None => head order end = head order)
        by (destruct (head order) as [[|]|]; cbn [truthy]; [done|by destruct (memb _ _)|done]).
      unfold shown. destruct (tg_activeTabId g) as [[|c a]|]; cbn [truthy]; [done| |done]. destruct (memb (c :: a) ids) eqn:Em; [|done]. cbn [truthy]. by rewrite Em. }
    by rewrite Hshown, !bool_decide_true by done.
Qed.

Lemma existsb_group id groups : id ∈ group_ids groups -> existsb (fun g => same (tg_id g) id) groups = true.
Proof. intros (g & -> & Hg)%list_elem_of_fmap. apply List.existsb_exists. exists g. split; [by apply list_elem_of_In | apply same_refl]. Qed.

Section twice.
Context (live : LiveIds) (wt : Worktree).
Hypothesis Haside : active_aside wt.

Lemma valid_twice next : tabs_of next = valid_tabs live wt -> valid_tabs live next = valid_tabs live wt.
Proof. intros E. unfold valid_tabs at 1. rewrite E. apply filter_all. intros t [H _]%elem_of_filter. done. Qed.

Lemma next_twice next : tabs_of next = valid_tabs live wt -> groups_of next = next_groups live wt -> next_groups live next = next_groups live wt.
Proof.
  intros Et Eg. unfold next_groups at 1. unfold valid_ids. rewrite (valid_twice next Et), Eg. fold (valid_ids live wt).
  assert (E : reconcile_group (valid_ids live wt) <$> next_groups live wt = next_groups live wt).
  { rewrite <- (list_fmap_id (next_groups live wt)) at 2. apply list_fmap_ext. intros i g Hg%list_elem_of_lookup_2.
    destruct (next_sub live wt g Hg) as (h & _ & ->). apply reconcile_group_idem. }
  rewrite E. unfold next_groups. destruct (valid_tabs live wt); [done|]. apply filter_all. intros g [H _]%elem_of_filter. done.
Qed.

(** Dropping the tabs that cannot be shown leaves nothing to drop. *)
Lemma prune_twice : prune_in live (prune_in live wt) = prune_in live wt.
Proof.
  pose proof (reconcile_in_ok live wt Haside) as Hok.
  assert (Et : tabs_of (prune_in live wt) = valid_tabs live wt) by done. assert (Eg : groups_of (prune_in live wt) = next_groups live wt) by done.
  pose proof (wk_active _ Hok) as Ha. pose proof (wk_layout _ Hok) as Hl. rewrite Eg in Ha, Hl.
  pose proof (valid_twice _ Et) as Et'. pose proof (next_twice _ Et Eg) as Eg'. set (next := prune_in live wt) in *.
  assert (Hparts : next = mkWorktree (Some (valid_tabs live wt)) (Some (next_groups live wt)) (wt_active next) (wt_layout next)) by done.
  rewrite Hparts at 2. unfold prune_in. fold (valid_tabs live next) (valid_ids live next).
  change (fun group => match tg_tabOrder group with [] => false | _ => true end) with kept_group. fold (next_groups live next). rewrite Et', Eg'. fold (group_ids (next_groups live wt)).
  clearbody next. f_equal.
  - destruct (next_groups live wt) as [|first rest] eqn:En; [by destruct (wt_active next)|]. rewrite <- En in *.
    destruct Ha as (id & -> & Hid); [by rewrite En|]. by rewrite existsb_group.
  - destruct (wt_layout next) as [layout|]; cbn in Hl.
    + destruct (group_ids (next_groups live wt)) as [|first rest] eqn:En; [done|]. rewrite prune_same; [done|]. intros id. by rewrite Hl.
    + apply fmap_nil_inv in Hl. by rewrite Hl.
Qed.
End twice.

(** ** The terminals that stay *)

Lemma rec_list_map {A} (f : list A -> list A) w (m : jsrecord (list A)) : f [] = [] ->
  rec_list w ((fun entry => (fst entry, f (snd entry))) <$> m) = f (rec_list w m).
Proof. intros Hf. unfold rec_list. induction m as [|[k v] m IH]; cbn; [done|]. by case_decide. Qed.

Definition not_among (ids : list jsstring) (t : TerminalTab) : bool := negb (memb (tt_id t) ids).

Lemma cleanup_terminals ids w s :
  rec_list w (ts_tabsByWorktree (buildOrphanTerminalCleanupPatch ids s)) = List.filter (not_among ids) (rec_list w (ts_tabsByWorktree s)).
Proof.
  unfold buildOrphanTerminalCleanupPatch. revert s. induction ids as [|id ids IH]; intros s; cbn [fold_left].
  - symmetry. apply filter_all. intros t _. unfold not_among. by rewrite (proj2 (memb_false _ _) (not_elem_of_nil _)).
  - rewrite IH. unfold removeTabFromTerminalState. cbn [with_unread with_surface with_terminals ts_tabsByWorktree]. rewrite rec_list_map by done.
    generalize (rec_list w (ts_tabsByWorktree s)). intros l. induction l as [|t l IHl]; [done|]. cbn [List.filter]. unfold not_among at 2.
    destruct (same (tt_id t) id) eqn:E; cbn [negb List.filter]; ids.
    + rewrite (proj2 (memb_true (tt_id t) (id :: ids))) by (subst; by left). exact IHl.
    + rewrite IHl. unfold not_among at 1. replace (memb (tt_id t) (id :: ids)) with (memb (tt_id t) ids); [done|].
      unfold memb. apply bool_decide_ext. rewrite elem_of_cons. naive_solver.
Qed.

Lemma cleanup_ptys ids t s : not_among ids t = true -> live_ptys (buildOrphanTerminalCleanupPatch ids s) t = live_ptys s t.
Proof.
  unfold not_among. rewrite negb_true_iff, memb_false. unfold buildOrphanTerminalCleanupPatch. revert s. induction ids as [|id ids IH]; intros s; [done|].
  rewrite not_elem_of_cons. intros [Hne Hn]. cbn [fold_left]. rewrite IH by done. unfold live_ptys, rec_list, removeTabFromTerminalState.
  cbn [with_unread with_surface with_terminals ts_ptyIdsByTabId]. by rewrite rec_get_delete, decide_False.
Qed.

Lemma cleanup_others ids s : ts_openFiles (buildOrphanTerminalCleanupPatch ids s) = ts_openFiles s /\
  ts_browserTabsByWorktree (buildOrphanTerminalCleanupPatch ids s) = ts_browserTabsByWorktree s.
Proof. unfold buildOrphanTerminalCleanupPatch. revert s. induction ids as [|id ids IH]; intros s; [done|]. cbn [fold_left]. by rewrite !(proj1 (IH _)), !(proj2 (IH _)). Qed.

(** A terminal that a tab shows, or that runs. *)
Definition shown_in (tabs : list Tab) (t : TerminalTab) : Prop := tt_id t ∈ terminal_entities tabs.

Lemma entity_elem tabs id : id ∈ terminal_entities tabs <-> exists t, t ∈ tabs /\ tab_contentType t = ct_terminal /\ tab_entityId t = id.
Proof.
  unfold terminal_entities. rewrite list_elem_of_omap. unfold terminal_of. split; intros (t & Ht & E); exists t; (split; [done|]).
  - case_bool_decide; [|done]. by injection E.
  - destruct E as [-> <-]. by rewrite bool_decide_true.
Qed.

(** A terminal of a worktree has a tab, is given one, or is dropped. *)
Lemma terminal_cases s w t : t ∈ rec_list w (ts_tabsByWorktree s) ->
  shown_in (rec_list w (unifiedTabsByWorktree (ts_maps s))) t \/ t ∈ legacyRuntimeTerminalTabs s w \/ tt_id t ∈ getOrphanTerminalIds s w.
Proof.
  intros Ht. unfold shown_in, legacyRuntimeTerminalTabs, getOrphanTerminalIds. rewrite dedupe_elem, list_elem_of_fmap. setoid_rewrite elem_of_filter.
  destruct (decide (tt_id t ∈ terminal_entities (rec_list w (unifiedTabsByWorktree (ts_maps s))))) as [|E]; [by left|right]. apply memb_false in E. destruct (live_ptys s t || is_some (tt_ptyId t)) eqn:El.
  - left. by rewrite E.
  - right. exists t. split; [done|]. split; [|done]. rewrite E. apply orb_false_iff in El as [-> ->]. done.
Qed.

Lemma restored_tabs legacy remembered w newGroupId wt :
  (forall u, u ∈ tabs_of wt -> u ∈ tabs_of (restore_in legacy remembered w newGroupId wt)) /\
  (forall t, t ∈ legacy -> shown_in (tabs_of (restore_in legacy remembered w newGroupId wt)) t).
Proof.
  unfold restore_in, shown_in. destruct legacy as [|first rest] eqn:E; [split; [done|]; intros t Ht; by apply not_elem_of_nil in Ht|]. rewrite <- E. clear E first rest.
  destruct (ensureGroup _ _ _ _ _) as [[g groups] active]. rewrite tabs_of_some. split; [intros u Hu; apply elem_of_app; by left|].
  intros t Ht. apply entity_elem. exists (restored_tab w (tg_id g) t). split; [|done]. apply elem_of_app. right.
  apply list_elem_of_fmap. exists t. split; [done|]. by rewrite sort_terminals_perm.
Qed.

(** Each terminal that is kept is shown by a tab that is kept. *)
Lemma kept_terminals s w remembered newGroupId t : t ∈ rec_list w (ts_tabsByWorktree s) -> not_among (getOrphanTerminalIds s w) t = true ->
  shown_in (tabs_of (prune_in (live_ids s w) (restore_in (legacyRuntimeTerminalTabs s w) remembered w newGroupId (worktree w (ts_maps s))))) t.
Proof.
  intros Ht Hkept. destruct (restored_tabs (legacyRuntimeTerminalTabs s w) remembered w newGroupId (worktree w (ts_maps s))) as [Hold Hnew].
  set (restored := restore_in _ _ _ _ _) in *.
  assert (H : shown_in (tabs_of restored) t).
  { destruct (terminal_cases s w t Ht) as [H|[H|H]]; [|by apply Hnew|unfold not_among in Hkept; apply negb_true_iff in Hkept; by apply memb_false in Hkept].
    apply entity_elem in H as (u & Hu & E). apply entity_elem. exists u. split; [by apply Hold | done]. }
  apply entity_elem in H as (u & Hu & Ec & Ee). apply entity_elem. exists u. split; [|done]. unfold prune_in. rewrite tabs_of_some. apply elem_of_filter. split; [|done].
  unfold isRenderableTab. rewrite Ec, Ee. apply memb_true. unfold live_ids. cbn [lv_terminals]. apply list_elem_of_fmap. exists t. split; [done|]. by apply elem_of_filter.
Qed.

(** Nothing is left to restore or to drop once each terminal has a tab. *)
Lemma nothing_left s w : (forall t, t ∈ rec_list w (ts_tabsByWorktree s) -> shown_in (tabs_of (worktree w (ts_maps s))) t) ->
  legacyRuntimeTerminalTabs s w = [] /\ getOrphanTerminalIds s w = [].
Proof.
  intros H. unfold legacyRuntimeTerminalTabs, getOrphanTerminalIds. revert H. unfold shown_in. change (tabs_of (worktree w (ts_maps s))) with (rec_list w (unifiedTabsByWorktree (ts_maps s))).
  generalize (rec_list w (ts_tabsByWorktree s)). intros l H.
  induction l as [|t l IH]; [done|]. cbn [List.filter]. rewrite (proj2 (memb_true _ _) (H t ltac:(by left))). cbn [negb andb]. apply IH. intros u Hu. apply H. by right.
Qed.

(** When nothing changes the state is the same. *)
Lemma reconcile_idle s w newGroupId : legacyRuntimeTerminalTabs s w = [] -> getOrphanTerminalIds s w = [] ->
  prune_in (live_ids s w) (worktree w (ts_maps s)) = worktree w (ts_maps s) ->
  fst (reconcileWorktreeTabModel w newGroupId s) = (s, []).
Proof.
  intros El Eo Ep. unfold reconcileWorktreeTabModel. rewrite El, Eo. cbn [restore_in]. rewrite Ep, Nat.eqb_refl.
  by rewrite !bool_decide_true by done.
Qed.

Definition runs (s : TabsState) (t : TerminalTab) : bool := live_ptys s t || is_some (tt_ptyId t).

Lemma running_kept s w t : NoDup (tt_id <$> rec_list w (ts_tabsByWorktree s)) -> t ∈ rec_list w (ts_tabsByWorktree s) -> runs s t = true ->
  not_among (getOrphanTerminalIds s w) t = true.
Proof.
  intros Hn Ht Hr. unfold not_among. apply negb_true_iff, memb_false. unfold getOrphanTerminalIds. rewrite dedupe_elem.
  intros (u & E & Hu)%list_elem_of_fmap. apply elem_of_filter in Hu as [Hu Hin]. pose proof (nodup_inj _ _ t u Hn Ht Hin E) as <-.
  apply andb_true_iff in Hu as [_ Hu]. unfold runs in Hr. rewrite <- negb_orb, Hr in Hu. done.
Qed.

(** The worktree and the terminals after reconciling. *)
Definition settled (s s' : TabsState) (w : jsstring) : Prop :=
  (forall t, t ∈ rec_list w (ts_tabsByWorktree s') <-> t ∈ rec_list w (ts_tabsByWorktree s) /\ not_among (getOrphanTerminalIds s w) t = true) /\
  live_ids s' w = live_ids s w /\
  (forall t, t ∈ tabs_of (worktree w (ts_maps s')) -> isRenderableTab (live_ids s w) t = true) /\
  (forall t, t ∈ rec_list w (ts_tabsByWorktree s') -> shown_in (tabs_of (worktree w (ts_maps s'))) t) /\
  forall later, fst (reconcileWorktreeTabModel w later s') = (s', []).

Lemma filter_length {A} (f : A -> bool) l : List.length (List.filter f l) = List.length l -> List.filter f l = l.
Proof.
  induction l as [|x l IH]; [done|]. cbn. pose proof (List.filter_length_le f l). destruct (f x); cbn; [intros [= E]; by rewrite IH | lia].
Qed.

Lemma settles_idle s w : legacyRuntimeTerminalTabs s w = [] -> getOrphanTerminalIds s w = [] ->
  List.length (tabs_of (prune_in (live_ids s w) (worktree w (ts_maps s)))) = List.length (tabs_of (worktree w (ts_maps s))) ->
  (forall later, fst (reconcileWorktreeTabModel w later s) = (s, [])) -> settled s s w.
Proof.
  intros El Eo Ep Hidle. unfold settled. rewrite Eo.
  assert (Htabs : tabs_of (prune_in (live_ids s w) (worktree w (ts_maps s))) = tabs_of (worktree w (ts_maps s))) by by apply filter_length.
  assert (Hall : forall t, not_among [] t = true) by (intros t; unfold not_among; by rewrite (proj2 (memb_false _ _) (not_elem_of_nil _))).
  split; [intros t; rewrite Hall; tauto|]. split; [done|]. split; [|split; [|done]].
  - intros t. rewrite <- Htabs. intros [H _]%elem_of_filter. done.
  - intros t Ht. rewrite <- Htabs. pose proof (kept_terminals s w None [] t Ht) as H. rewrite El, Eo in H. by apply H.
Qed.

Lemma settles_busy s w newGroupId unread : ok s -> restorable w s -> fresh_group newGroupId (ts_maps s) ->
  let next := prune_in (live_ids s w) (restore_in (legacyRuntimeTerminalTabs s w) (default None (rec_get w (activeTabIdByWorktree (ts_surface s)))) w newGroupId (worktree w (ts_maps s))) in
  settled s (store w next (with_unread unread (buildOrphanTerminalCleanupPatch (getOrphanTerminalIds s w) s))) w.
Proof.
  intros Hok [Hn Hfresh] Hg next. set (orphans := getOrphanTerminalIds s w). set (s' := store w next _).
  assert (Hterminals : rec_list w (ts_tabsByWorktree s') = List.filter (not_among orphans) (rec_list w (ts_tabsByWorktree s))) by apply (cleanup_terminals orphans w s).
  assert (Hwt : worktree w (ts_maps s') = next) by (unfold s'; by rewrite store_maps, worktree_put, decide_True).
  assert (Hshown : forall t, t ∈ rec_list w (ts_tabsByWorktree s') -> shown_in (tabs_of (worktree w (ts_maps s'))) t).
  { intros t. rewrite Hterminals, Hwt, elem_of_filter. intros [Hk Ht]. by apply kept_terminals. }
  destruct (nothing_left s' w Hshown) as [El Eo].
  assert (Hlive : live_ids s' w = live_ids s w).
  { unfold live_ids. rewrite Eo, Hterminals. destruct (cleanup_others orphans s) as [H1 H2].
    change (ts_openFiles s') with (ts_openFiles (buildOrphanTerminalCleanupPatch orphans s)). change (ts_browserTabsByWorktree s') with (ts_browserTabsByWorktree (buildOrphanTerminalCleanupPatch orphans s)).
    rewrite H1, H2. f_equal. f_equal. apply filter_all. intros t _. by rewrite (proj2 (memb_false _ _) (not_elem_of_nil _)). }
  split; [intros t; rewrite Hterminals, elem_of_filter; tauto|]. split; [done|]. split; [|split; [done|]].
  - rewrite Hwt. intros t [H _]%elem_of_filter. done.
  - intros later. apply reconcile_idle; [done|done|]. rewrite Hwt, Hlive. apply prune_twice, restore_ok; [by apply mo_worktree | done | intros id Hid; by apply (Hfresh id Hid)].
Qed.

Lemma reconcile_settled s w newGroupId : ok s -> restorable w s -> fresh_group newGroupId (ts_maps s) ->
  settled s (fst (fst (reconcileWorktreeTabModel w newGroupId s))) w.
Proof.
  intros Hok Hr Hg. destruct (reconcileWorktreeTabModel w newGroupId s) as [[s' effects] result] eqn:E. cbn [fst]. revert E. unfold reconcileWorktreeTabModel.
  pose proof (settles_busy s w newGroupId) as Hbusy. cbv zeta in Hbusy |- *.
  set (next := prune_in _ _) in *. destruct (_ || match getOrphanTerminalIds s w with [] => false | _ => true end) eqn:Ec.
  - intros E. apply (f_equal (fun r => fst (fst r))) in E. cbn [fst] in E. rewrite <- E. clear E.
    assert (Hlayout : or_else (wt_layout next) (wt_layout (worktree w (ts_maps s))) = wt_layout next).
    { destruct (wt_layout next) eqn:E; [done|]. by apply prune_layout_none, restore_layout_none in E. }
    rewrite Hlayout. by apply Hbusy.
  - intros [= <- _ _]. apply orb_false_iff in Ec as [[[[[Hl Hr0]%orb_false_iff Hgr]%orb_false_iff Ha]%orb_false_iff Hla]%orb_false_iff Ho].
    assert (El : legacyRuntimeTerminalTabs s w = []) by by destruct (legacyRuntimeTerminalTabs s w).
    assert (Eo : getOrphanTerminalIds s w = []) by by destruct (getOrphanTerminalIds s w).
    unfold next in *. clear next Hbusy. rewrite El in *. cbn [restore_in] in *. apply settles_idle; [done|done| |].
    + apply negb_false_iff in Hl. by apply Nat.eqb_eq.
    + intros later. unfold reconcileWorktreeTabModel. rewrite El, Eo. cbn [restore_in]. by rewrite Hl, Hgr, Ha, Hla.
Qed.

Section settles.
Context (environmentOf : TabsState -> jsstring -> option jsstring).

(** C18. Reconciling settles a worktree at once: every tab left has its terminal, file or page, every
    terminal left has its tab and no running one is lost, and reconciling again changes nothing. *)
Theorem reconcile_settles s w newGroupId : tabs_reached environmentOf s -> restorable w s -> fresh_group newGroupId (ts_maps s) ->
  NoDup (tt_id <$> rec_list w (ts_tabsByWorktree s)) -> let s' := fst (fst (reconcileWorktreeTabModel w newGroupId s)) in
  (forall t, t ∈ tabs_of (worktree w (ts_maps s')) -> isRenderableTab (live_ids s' w) t = true) /\
  (forall t, t ∈ rec_list w (ts_tabsByWorktree s') -> exists u, u ∈ tabs_of (worktree w (ts_maps s')) /\ tab_contentType u = ct_terminal /\ tab_entityId u = tt_id t) /\
  (forall t, t ∈ rec_list w (ts_tabsByWorktree s) -> runs s t = true -> t ∈ rec_list w (ts_tabsByWorktree s')) /\
  forall later, fst (reconcileWorktreeTabModel w later s') = (s', []).
Proof.
  intros Hr Hrest Hg Hn s'. destruct (reconcile_settled s w newGroupId (tabs_reached_ok environmentOf s Hr) Hrest Hg) as (Hterminals & Hlive & Htabs & Hshown & Hidle).
  fold s' in Hterminals, Hlive, Htabs, Hshown, Hidle. split; [by rewrite Hlive|]. split; [|split; [|done]].
  - intros t Ht. by apply entity_elem, Hshown.
  - intros t Ht Hruns. apply Hterminals. split; [done|]. by apply running_kept.
Qed.
End settles.

(** The demo with a running terminal [t] no tab shows, a terminal [o] that neither runs nor can
    be woken, and none of the files of its tabs. *)
Definition orphaned : TabsState :=
  with_unread [(js "o", true)]
    (with_terminals [(js "w", [mkTerminalTab (js "t") None (js "zsh") None None None None None 0 1; mkTerminalTab (js "o") None (js "zsh") None None None None None 1 2])]
      [(js "t", [js "pty"])] demo).

Lemma orphaned_reached : tabs_reached no_environment orphaned.
Proof. apply (tabs_other no_environment demo); [exact demo_reached | done]. Qed.

Lemma orphaned_restorable : restorable (js "w") orphaned.
Proof.
  assert (E : tt_id <$> legacyRuntimeTerminalTabs orphaned (js "w") = [js "t"]) by (vm_compute; reflexivity).
  split; rewrite E; [apply NoDup_singleton|]. intros id ->%list_elem_of_singleton. apply unused_tab_fresh. vm_compute. reflexivity.
Qed.

Lemma reconcile_settles_witness : let s' := fst (fst (reconcileWorktreeTabModel (js "w") (js "n") orphaned)) in
  tab_id <$> tabs_of (worktree (js "w") (ts_maps s')) = [js "t"] /\ fst (reconcileWorktreeTabModel (js "w") (js "m") s') = (s', []).
Proof.
  split; [vm_compute; reflexivity|].
  apply (reconcile_settles no_environment orphaned (js "w") (js "n") orphaned_reached orphaned_restorable).
  - apply unused_group_fresh. vm_compute. reflexivity.
  - apply (bool_decide_eq_true_1 _). vm_compute. reflexivity.
Defined.

(** A terminal tab [x] with an unread flag whose terminal is gone, with the terminals given. *)
Definition stale_terminal (terminals : list TerminalTab) : TabsState :=
  with_unread [(js "x", true)] (with_terminals [(js "w", terminals)] []
    (tab_action no_environment (do_create (js "w") ct_terminal no_init 1 (js "x") (js "g")) empty_start)).

(** The unread flag of a tab that is dropped goes with it, unless a terminal is dropped too. *)
Example unread_flag_stays :
  let after terminals := fst (fst (reconcileWorktreeTabModel (js "w") (js "n") (stale_terminal terminals))) in
  let o := mkTerminalTab (js "o") None (js "zsh") None None None None None 1 2 in
  getTab (js "x") (after []) = None /\ ts_unreadTerminalTabs (after []) = [] /\
  getTab (js "x") (after [o]) = None /\ ts_unreadTerminalTabs (after [o]) = [(js "x", true)].
Proof. vm_compute. auto. Qed.

(** Merged into an empty group, a group with a tab shows none. *)
Example merge_shows_nothing :
  let s := fold_left (fun s action => tab_action no_environment action s)
    [do_create (js "w") ct_editor no_init 1 (js "a") (js "g"); do_emptySplit (js "w") (js "g") to_right (js "e"); do_merge (js "w") (js "g")] empty_start in
  (fun g => (tg_id g, tg_tabOrder g, tg_activeTabId g)) <$> groups_of (worktree (js "w") (ts_maps s)) = [(js "e", [js "a"], None)].
Proof. vm_compute. reflexivity. Qed.
